(* ===== verification/_CoqProject ===== *)
-Q . S2P
Prelude.v
GoText.v
GoErrors.v
GoUrl.v
GoNetip.v
GoJson.v
GoTime.v
GoEncoding.v
GoPath.v
Retry.v
Origin.v
Netguard.v
RobotsMatch.v
RobotsPolicy.v
RobotsPolicyFacts.v
RobotsHTTP.v
RequestScheduler.v
RequestSchedulerFacts.v
RobotsChecker.v
Declaration.v
Verifier.v
Discovery.v
Crawler.v
CrawlerFacts.v
CrawlTables.v
Store.v
Queue.v
QueueFacts.v
Worker.v
WorkerFacts.v
Exclusions.v
DiscoveryStore.v
Admission.v
DiscoveryLease.v
CrawlTelemetry.v
ControlStore.v
DiscoverySchema.v
AdmissionSchema.v
Provenance.v
DiscoverySystem.v
ControlFacts.v
Registry.v
PublicData.v
SnapshotFiles.v
Disk.v
DiskFacts.v
GitHubPublish.v
GitHubServer.v
GitHubServerFacts.v
DiskSound.v
RegistryService.v
PipelineFacts.v
RegistryExport.v
CrawlRunner.v
CandidateSink.v
GoMux.v
Control.v
ControlText.v
ControlAPI.v
ControlSystem.v
Scenario.v
PublicationScenario.v
JsonFields.v
ReportData.v
Pagination.v
Reports.v
KeysetPages.v
ReportHandler.v
ReportService.v
Reporting.v
WebBotAuth.v
WebBotAuthFacts.v
SignatureDirectoryFacts.v
Settings.v
WebBotAuthConfig.v
SigningScenario.v
Migrations.v
Services.v
CommandLine.v
Heartbeat.v
