(* ===== verification/Prelude.v ===== *)
(** * JoshBot: a verification development

    JoshBot is a crawler and registry bot written in Go. Workers lease origins
    from a PostgreSQL queue, fetch each origin's declaration at
    [/.well-known/josh] through a robots-aware, rate-limited and
    network-guarded HTTP client, classify the outcome and record it; a
    discovery process leases crawl sources, crawls them, records the origins
    it finds and admits some of them as new sources and probes; operators steer
    both through an authenticated control API and watch them through a
    reporting API; requests are signed; and a publication process exports the
    registry. This library models the verification half of the program, from
    the bytes of a URL to the row of the queue, the discovery half, from the
    lease of a source to the admission of a candidate, the control API down to
    the audited transaction, the reports up to their cursors and JSON, the
    signatures and their directory, the publication of the registry, from the
    tables to the commit on the branch, and the program around them: settings,
    migrations, commands and the life of the services.

    ** Parts of the program and where they are modelled

    - [Prelude]: bytes, results, durations and instants as the Go code uses
      them, 64-bit wrap-around, and the shared tactics. [GoText], [GoErrors],
      [GoUrl], [GoNetip], [GoJson], [GoTime], [GoEncoding], [GoPath]: the parts
      of Go's standard library the sources call: string and number functions,
      UTF-8, error chains and calls to the environment, URL accessors, IP
      addresses and prefixes, the JSON decoder with its rules on duplicate
      names and nesting, the calendar and RFC 3339, hexadecimal, base64 and the
      JSON writer, and cleaned paths.
    - [Retry] ([internal/retry/policy.go]): failure categories, the
      [Retry-After] parser and the jittered backoff with its float64
      arithmetic.
    - [Origin] ([internal/origin/origin.go]): [Parse], which canonicalizes a
      web origin.
    - [Netguard] ([internal/netguard/netguard.go]): the address policy,
      [Resolve] and dialing.
    - [RobotsMatch], [RobotsPolicy], [RobotsPolicyFacts]
      ([internal/robots/robots.go], [body.go]): the pattern matcher, the
      robots.txt parser, crawl delays and verdicts.
    - [RobotsHTTP] ([internal/robots/http.go], [http_config.go],
      [identity.go]): the guarded request hop and the retrieval of a policy.
    - [RequestScheduler], [RequestSchedulerFacts]
      ([internal/robots/request_scheduler.go]): per-origin and
      per-neighborhood pacing. Schedules are objects in a heap, because
      goroutines hold pointers to them while others evict map entries.
    - [RobotsChecker] ([internal/robots/checker.go]):
      the policy cache with in-flight deduplication, and protected requests.
    - [Declaration] ([internal/declaration/declaration.go], [body.go]) and
      [Verifier] ([internal/declaration/verifier.go]): the declaration parser
      and the verification of an origin.
    - [Store] ([internal/store/store.go]): the tables as finite maps, the
      statement that records a verification and the query of an origin's state.
    - [Queue], [QueueFacts] ([internal/store/queue.go], [queue_abandon.go],
      and the statement of [discovery.go] that admits a probe): scheduling,
      claiming, renewing, rescheduling, abandoning and completing.
    - [Worker], [WorkerFacts] ([internal/worker/worker.go]): the worker
      against the interfaces of its queue and verifier, and the store's queue
      and the declaration verifier as instances of those interfaces.
    - [Discovery] ([internal/discovery/discovery.go]): the
      links of one page. [Crawler], [CrawlerFacts]
      ([internal/discovery/crawler.go], [telemetry.go]): the bounded
      breadth-first crawl of one origin.
    - [CrawlTables]: the rows of the crawl tables ([store/migrations]).
      [Exclusions] ([store/discovery.go]): the avoid rules, once as the Go
      policy and once as the SQL of the admission statements, with [LIKE]
      written out. [DiscoveryStore] ([store/discovery.go], [crawl_block_policy.go]): seeds, blocks, discovery
      evidence and probes. [Admission] ([store/discovery.go]):
      the batch of pending candidates and the decisions on it.
      [DiscoveryLease] ([store/discovery_lease.go],
      [discovery_lease_completion.go]): the leases of crawl sources.
      [CrawlTelemetry] ([store/crawl_observability.go], [retention.go]): runs,
      page attempts, heartbeats and retention. [ControlStore]
      ([store/control.go]): the audited operator mutations.
    - [DiscoverySchema], [AdmissionSchema], [Provenance], [DiscoverySystem]:
      the constraints of the schema as predicates, what sanctions a crawl
      source, and the system of all store operations as one step relation on
      the database. [ControlFacts]: operator mutations and retention.
    - [CrawlRunner] ([internal/discovery/crawl_runner.go]): the pass whose crawl and lease
      renewal run in two goroutines (a schedule of turns chosen by the
      environment), the polling loop, and the discovery store as an instance
      of the runner's interface. [CandidateSink] ([cmd/joshbot/discovery.go]):
      the sink that resolves pending candidates and applies the decisions.
    - [GoMux]: the pattern matching of [http.ServeMux]. [Control],
      [ControlText], [ControlAPI] ([internal/control/control.go],
      [internal/operatortoken/token.go]): the control API against the
      interface of its commander. [ControlSystem]: the control store as an
      instance of that interface. [Scenario]: concrete databases and runs that
      instantiate the theorems of the discovery half.
    - [Registry] ([store/registry.go], [verified.go],
      [history.go]): the read models of the registry. [PublicData]
      ([internal/publicdata/publicdata.go],
      [registry.go]): the documents of a snapshot. [RegistryExport]: both put
      together.
    - [SnapshotFiles] ([publicdata/writer.go],
      [reader.go]): writing and reading a snapshot against the interfaces of
      the file system. [Disk], [DiskFacts], [DiskSound]: a file system in
      which any operation may fail, as an instance of these interfaces.
    - [GitHubPublish] ([internal/githubpublish/publisher.go]): the publisher against its HTTP
      client. [GitHubServer], [GitHubServerFacts]: what the publisher does
      with its client, and a Git database behind the API, with other clients
      and a network that loses messages.
    - [RegistryService]
      ([cmd/joshbot/registry_interval.go], [publish_config.go], and [export]
      and [publish] of [runtime.go]): the exporter and the publisher as loops
      that share a directory. [PipelineFacts]: exporter, reader, publisher and
      repository put together. [PublicationScenario]: concrete instances.
    - [JsonFields]: how [encoding/json] writes a struct. [ReportData],
      [Reports] ([internal/reporting/postgres.go], [postgres_*.go],
      [source_detail.go]): the reports as queries over the tables.
      [Pagination], [KeysetPages] ([pagination.go],
      [crawl_detail_pagination.go]): queries, cursors and pages.
      [ReportHandler] ([reporting.go]): the HTTP handler against the interface
      of its reader. [ReportService], [Reporting]: the reader of the store as
      an instance, and the theorems with a concrete database.
    - [WebBotAuth], [WebBotAuthFacts], [SignatureDirectoryFacts]
      ([internal/webbotauth]): identities, the request signer, structured
      fields and the validation of the signature directory. [Settings]
      ([cmd/joshbot/config.go], [crawl_config.go], [http_config.go],
      [request_delay.go], [internal/database/config.go]): the settings of the
      services. [WebBotAuthConfig] ([web_bot_auth_config.go],
      [conformance.go]): the signing identity of a service and the conformance
      command. [SigningScenario]: concrete keys, directories and settings.
    - [Migrations] ([store/migrate.go]): the files, the table of applied
      migrations and the transaction. [Services] ([cmd/joshbot/control.go],
      [report.go]): the two HTTP services from their settings to their
      shutdown. [CommandLine] ([app.go], [seed.go], [source.go],
      [runtime.go]): the dispatch of the arguments and the commands on the
      stores. [Heartbeat] ([service_heartbeat.go], [runtime.go],
      [discovery.go]): the heartbeat of a service as a step system over the
      store, and the commands [worker] and [discover] under it.

    Files whose names end in [Facts] hold the theorems of a component that has
    grown; elsewhere they follow the definitions in the same file. Concrete
    inputs are in the modules at the end of a file or in the files named
    [Scenario].

    A Go function is a Rocq function of the same name. State is passed
    explicitly; a call to code outside a component is a function on the state
    [W] of the environment, on which the components are polymorphic, so a
    theorem about every environment also covers the one that records the calls
    it receives. Errors are values: the list of sentinels an error chain wraps.
    A nil interface or pointer is [None]. Where goroutines or database sessions
    interleave, the operations are the steps of a transition relation at the
    granularity of the program's mutexes and statements, and the theorems hold
    in every reachable state.

    ** What the theorems show

    - Politeness: requests to an origin and to its neighborhood are spaced
      under every interleaving and eviction ([requests_are_spaced],
      [pinned_schedules_survive], [wait_loop_terminates]); claims of an origin
      are spaced too ([queue_correct]).
    - Robots: the matcher decides the pattern language
      ([patternMatches_correct]), verdicts follow the longest match
      ([Allowed_correct]), groups are selected and isolated ([Parse_selects],
      [invalid_agent_isolates]), values are normalized
      ([normalizeMatchValue_correct]), delays are exact
      ([parseCrawlDelay_correct], [crawlDelay_correct]), failures are closed
      ([readPolicy_correct], [obtainPolicy_correct]), and a protected request
      is preceded by the policy and obeys it ([checker_Get_first],
      [policy_cache_correct]).
    - Network safety: only public addresses are dialed, by literal, and what
      was validated is what is dialed ([ValidateAddr_correct],
      [Resolve_correct], [DialContextWithTimeout_correct],
      [guarded_get_correct]).
    - Verification: the declaration grammar is decided exactly
      ([Declaration.Parse_correct]); a verification speaks only for its own
      origin ([Verify_correct]); origins are canonical ([origin_String_inj],
      [Parse_String_roundtrip]).
    - Persistence: the schema's constraints, fencing of stale leases, the
      order of claims, the outcome table of completions, the summaries
      ([queue_correct], [lease_fencing], [Claim_correct],
      [CompleteVerification_correct], [RecordVerification_consistent]), and
      the arithmetic of retries and reprobes ([Delay_correct],
      [ParseRetryAfter_correct], [ParseRetryAfter_overflow_is_dropped],
      [reprobeInterval_correct]).
    - The worker: one lease at a time, at most two attempts within the lease's
      budget, exactly one settlement ([RunOnce_correct]), success only for a
      committed observation under a live lease ([RunOnce_commits]), and a loop
      that nothing but its context or waiter ends ([Run_correct]).
    - Discovery: a page yields exactly its links ([ExtractPageLinks_correct]);
      a crawl stays on its source and within its bounds and hands every other
      origin over once ([Crawl_correct]); evidence is recorded exactly
      ([recordDiscovery_correct]); admission is all or nothing and within the
      run's budget and the queue's capacity
      ([CompleteAutomaticCandidates_correct]); the two forms of the avoid rules
      agree ([exclusions_agree]).
    - Crawl sources: claims follow the documented order
      ([ClaimDiscoverySourceLease_correct]), stale leases are fenced
      ([source_lease_fencing]) and never two crawlers work on a source
      ([source_lease_exclusive]); in every reachable database the schema holds
      ([schema_invariant]) and only sanctioned sources are crawled
      ([crawl_provenance]). A pass of the runner settles its lease at most once
      and ends under every fair interleaving ([crawl_pass_correct]), the loop
      goes on until its context or waiter ends it ([crawl_Run_correct]), on the store success means a committed completion
      under a live lease ([crawl_pass_commits]), and what the sink admits was
      resolved to public addresses ([finalize_admits_resolved]).
    - Operators: nothing without the token, one command and one audit with it
      ([control_api_correct]); the reply is the truth about the database
      ([control_api_commits]); mutations are audited and enforced
      ([operator_control_correct]); audit texts are cut at characters
      ([bounded_correct]); retention forgets nothing a reader of the current
      state needs ([PurgeOperationalHistory_preserves]).
    - The registry: its read models say what was recorded
      ([registry_correct], [Observations_correct]); its documents are the
      registry, no more and no less, and can be read back
      ([BuildRegistry_correct]); every registry of the store can be exported
      ([reachable_registry_exports]).
    - Snapshots: reading ends within the limits ([readDirectory_bounded]),
      writing is atomic ([writeDirectory_atomic]) and what is read is what was
      written, whatever fails ([snapshot_roundtrip]).
    - Publication: the target is checked before anything is written and the
      branch is written once ([publication_order]), complete snapshots only
      are accepted ([prepareSnapshot_correct]), and the commit of a successful
      publication holds exactly the snapshot ([publish_exact]). The pointer
      of the exporter names complete snapshots only ([export_pointer_safe]),
      so that what becomes public is what the database had
      ([published_is_exported]).
    - Reports: nothing is read without the token ([reporting_guarded]);
      following the cursors returns every row exactly once
      ([reports_complete], [cursors_roundtrip]); queries are accepted exactly
      when every parameter is ([queries_refused]); the numbers of the status
      agree with the tables ([status_agrees]).
    - Signatures: what the signer attaches verifies
      ([signed_request_verifies]), no request of the crawler leaves unsigned
      ([no_unsigned_request]), a directory is accepted exactly when it meets
      the contract ([directory_validated]), and the conformance command passes
      only for such a directory ([conformance_sound]). A key file is read to
      the identity of its seed ([identity_read_correct]).
    - The program: settings that load satisfy the validators of the components
      ([settings_fit]); migrations are all or nothing ([migrate_correct]) and
      upgrading is the same as installing ([upgrade_equals_install]); the HTTP
      services listen only for a valid token and close what they opened
      ([services_guarded]); a command line performs the one operation it
      denotes ([command_line_correct]) and its exit code is the truth about
      the database ([command_commits]); heartbeats are accepted, current and
      final ([heartbeat_correct]), and a service runs only under one
      ([services_supervised]).

    ** Bounds and fuel

    Loops that are bounded in the source recurse on what is left (redirects,
    attempts, addresses, the pages of a crawl). The matcher's loop has the fuel
    [(1 + |target|) * (1 + |pattern|)], which its theorem proves sufficient.
    The decoder's fuel is the length of its input, and its lemmas characterize
    the result for every input. [wait_loop] and the two [run_loop]s have no
    bound in the source; their theorems say when they end. The walk of a
    snapshot is given four levels, the depth at which every directory is
    refused, and [readDirectory_bounded] proves them enough. The exporter's
    and the publisher's loops never end by themselves: their fuel is the number
    of passes, and their theorems hold for every number. The turns of a crawl
    pass are a finite schedule; [crawl_pass_correct] says which schedules are
    long enough. A client that follows cursors is given one request more than
    there are rows, and [reports_complete] proves that enough; the loops over
    the bytes of structured fields have a fuel above the length of their input
    and their specifications hold for every input. The loop of a ticker has no
    bound: a heartbeat is a step relation. Durations are [int64] with
    wrap-around where the source computes on them; instants are unbounded.

    ** What is not modelled

    - The parsing of URLs and of IP text, IDNA and the public suffix list are
      interfaces with documented laws; each theorem that uses them has a
      witness with concrete functions. The round trip of an origin is stated
      for hosts made of the bytes [net/url] accepts in a host.
    - PostgreSQL: statements are functions on the tables they touch, executed
      one at a time; a driver failure aborts the statement. A commit whose
      acknowledgement is lost is not distinguished from success. Timestamps
      are rounded to microseconds, and [make_interval] is exact on whole
      microseconds. Row locks of other sessions are a parameter of [Claim].
      Deleting a probe ends its history: a later row of that origin starts
      with a new generation.
    - Go's memory model, timers and the round trips of [net/http] are calls to
      the environment; the iteration order of maps is an argument.
    - The table [verification_queue_events], which is only written, and the
      constraints of the schema that match origins and URLs against regular
      expressions. What a migration file does to the schema is a function, and
      a failing commit leaves nothing behind. A purge of the history keeps
      what is read of an origin, but not the summaries as a function of the
      observations that are left.
    - In the control API: JSON decoding, media types and SHA-256 are an
      interface; [GoMux] covers the patterns the program registers.
    - In the publication: SHA-256 and the decoding of GitHub's responses are
      interfaces. The names of the repository and the branch are assumed to
      need no URL escaping where the server is involved. The operations of the
      file system are atomic one by one, and links are not followed; a crash is
      the failure of all later operations. Names of temporary directories are
      a field of the disk.
    - In the reports: SHA-256, the text of a floating-point number and
      [time.Parse] are interfaces, and a report is one query on one state of
      the tables. The rows of [verification_queue_events] are an argument.
    - In the signatures: Ed25519, SHA-256, PEM and PKCS 8 are interfaces with
      the laws of a signature scheme; the order in which Go visits a map is an
      argument.
    - In the commands: the texts of errors, log lines, signals and the exit of
      the process; the pool of connections and [net/http] are calls to the
      environment, so what a peer sees of a listener is not modelled. The wall
      clock of a heartbeat does not go back, and the row of a process is
      written by that process only.
    - The HTML parser, character decoding and media types, an interface of
      [Discovery]. *)

From Stdlib Require Export ZArith Lia Ascii String.
From stdpp Require Export base gmap list strings sorting.

Declare Scope go_scope.
Delimit Scope go_scope with go.
Open Scope Z_scope.
Open Scope go_scope.

(** ** Go strings and byte slices

    A Go [string] and a Go [[]byte] are both a sequence of 8-bit bytes; the
    development writes them as [list ascii] and uses [bs] for literals. *)

Abbreviation bytes := (list ascii) (only parsing).

Fixpoint bs (s : string) : list ascii :=
  match s with
  | EmptyString => []
  | String c s' => c :: bs s'
  end.

(** The numeric value of a byte, an integer in [0, 256). *)
Definition code (c : ascii) : Z := Z.of_N (N_of_ascii c).

(** The byte with value [z mod 256] (Go's conversion [byte(z)]). *)
Definition chr (z : Z) : ascii := ascii_of_N (Z.to_N (z mod 256)).

Lemma code_range c : 0 <= code c < 256.
Proof.
  unfold code. pose proof (N_ascii_bounded c). lia.
Qed.

Lemma chr_code c : chr (code c) = c.
Proof.
  unfold chr. rewrite Z.mod_small by apply code_range.
  unfold code. rewrite N2Z.id. apply ascii_N_embedding.
Qed.

Lemma code_chr z : 0 <= z < 256 -> code (chr z) = z.
Proof.
  intros Hz. unfold code, chr. rewrite Z.mod_small by lia.
  rewrite N_ascii_embedding; lia.
Qed.

Lemma code_inj c d : code c = code d -> c = d.
Proof. intros H. by rewrite <- (chr_code c), H, chr_code. Qed.

Definition byte_eqb (c d : ascii) : bool := code c =? code d.

Lemma byte_eqb_spec c d : reflect (c = d) (byte_eqb c d).
Proof.
  unfold byte_eqb. destruct (Z.eqb_spec (code c) (code d)) as [H|H]; constructor.
  - by apply code_inj.
  - congruence.
Qed.

Lemma byte_eqb_refl c : byte_eqb c c = true.
Proof. by destruct (byte_eqb_spec c c). Qed.

Fixpoint bytes_eqb (s t : list ascii) : bool :=
  match s, t with
  | [], [] => true
  | c :: s', d :: t' => byte_eqb c d && bytes_eqb s' t'
  | _, _ => false
  end.

Lemma bytes_eqb_spec s t : reflect (s = t) (bytes_eqb s t).
Proof.
  revert t. induction s as [|c s IH]; intros [|d t]; simpl; try (constructor; congruence).
  destruct (byte_eqb_spec c d), (IH t); simpl; constructor; congruence.
Qed.

(** ** Errors as values *)

Inductive res (E A : Type) : Type :=
| Ok (a : A)
| Err (e : E).
Arguments Ok {E A} a.
Arguments Err {E A} e.

Definition res_bind {E A B} (r : res E A) (f : A -> res E B) : res E B :=
  match r with Ok a => f a | Err e => Err e end.

Notation "'let?' x := c 'in' k" := (res_bind c (fun x => k))
  (at level 10, x pattern, c at level 100, k at level 200) : go_scope.

#[export] Instance Ok_inj {E A} : Inj (=) (=) (@Ok E A).
Proof. by intros ?? [= ->]. Qed.

#[export] Instance Err_inj {E A} : Inj (=) (=) (@Err E A).
Proof. by intros ?? [= ->]. Qed.

Definition is_ok {E A} (r : res E A) : bool :=
  match r with Ok _ => true | Err _ => false end.

(** ** Machine integers, time and durations

    [time.Duration] is an [int64] number of nanoseconds. [time.Time] is kept
    as an unbounded number of nanoseconds since Go's zero time (January 1,
    year 1, UTC), so that [IsZero] is [t = 0]; [time.Time] carries 64-bit
    seconds, far beyond any instant the program handles. *)

Definition max_int64 : Z := 2 ^ 63 - 1.
Definition min_int64 : Z := - 2 ^ 63.
Definition max_uint64 : Z := 2 ^ 64 - 1.

(** Two's-complement wrap-around to 64 bits. *)
Definition wrap_int64 (z : Z) : Z := (z + 2 ^ 63) mod 2 ^ 64 - 2 ^ 63.
Definition wrap_uint64 (z : Z) : Z := z mod 2 ^ 64.

Definition Nanosecond : Z := 1.
Definition Microsecond : Z := 1000 * Nanosecond.
Definition Millisecond : Z := 1000 * Microsecond.
Definition Second : Z := 1000 * Millisecond.
Definition Minute : Z := 60 * Second.
Definition Hour : Z := 60 * Minute.

Definition time_IsZero (t : Z) : bool := t =? 0.
Definition time_Before (t u : Z) : bool := t <? u.
Definition time_After (t u : Z) : bool := u <? t.
Definition time_Add (t d : Z) : Z := t + d.

(** [Time.Sub] saturates at the bounds of [Duration]. *)
Definition time_Sub (t u : Z) : Z := Z.max min_int64 (Z.min max_int64 (t - u)).

Lemma wrap_int64_id z : min_int64 <= z <= max_int64 -> wrap_int64 z = z.
Proof.
  unfold wrap_int64, min_int64, max_int64. intros H.
  rewrite Z.mod_small; lia.
Qed.

Lemma wrap_uint64_id z : 0 <= z <= max_uint64 -> wrap_uint64 z = z.
Proof. unfold wrap_uint64, max_uint64. intros H. rewrite Z.mod_small; lia. Qed.

(** ** Tactics *)

(** Case analysis on the head of the first [match] or [if] of the goal. *)
Ltac case_head :=
  match goal with
  | |- context [match ?x with _ => _ end] =>
      lazymatch x with
      | context [match _ with _ => _ end] => fail
      | _ => let E := fresh "E" in destruct x eqn:E
      end
  end.

(** The same on a hypothesis. *)
Ltac case_head_in H :=
  match type of H with
  | context [match ?x with _ => _ end] =>
      lazymatch x with
      | context [match _ with _ => _ end] => fail
      | _ => let E := fresh "E" in destruct x eqn:E
      end
  end.

(** Introduce an equation between nested pairs and substitute the variables on
    its right. *)
Ltac split_pairs H :=
  lazymatch type of H with
  | (_, _) = (_, _) =>
      let H1 := fresh in let H2 := fresh in
      apply pair_equal_spec in H as [H1 H2]; split_pairs H1; split_pairs H2
  | _ = ?x => tryif is_var x then subst x else idtac
  end.
Ltac intro_pairs := let H := fresh in intros H; split_pairs H.

(** Turn boolean hypotheses into propositions. *)
Ltac b2p :=
  repeat match goal with
  | H : (_ && _)%bool = true |- _ => apply andb_true_iff in H as [? ?]
  | H : (_ || _)%bool = false |- _ => apply orb_false_iff in H as [? ?]
  | H : negb _ = true |- _ => apply negb_true_iff in H
  | H : negb _ = false |- _ => apply negb_false_iff in H
  end.

(** Unfold the duration constants; [lia] finishes. *)
Ltac durations :=
  unfold Hour, Minute, Second, Millisecond, Microsecond, Nanosecond in *.

(** ** Shapes of results *)

(** Evaluating one component of a result is enough to know its shape: the rest
    stays as it is written. *)
Lemma pair_snd {A B} (p : A * B) (b : B) : snd p = b -> p = (fst p, b).
Proof. by destruct p; intros <-. Qed.
Lemma some_default {A} (d : A) (x : option A) : bool_decide (is_Some x) = true -> x = Some (default d x).
Proof. destruct x; [done|]. by rewrite bool_decide_eq_true; intros []. Qed.
Lemma head_tail {A} (l : list A) (a : A) : head l = Some a -> l = a :: tail l.
Proof. destruct l; [done|]. by intros [= ->]. Qed.

(** ** Taking a least element

    The loop behind [ORDER BY ... LIMIT 1]: the element a total preorder puts
    first, the later one among equals. *)

Section Minimum.
Context {A : Type}.
Variable leb : A -> A -> bool.

Lemma fold_min_in (l : list A) (acc : option A) b :
  fold_left (fun best x => match best with None => Some x
    | Some b => if leb x b then Some x else best end) l acc = Some b -> b ∈ l \/ acc = Some b.
Proof.
  revert acc. induction l as [|x l IH]; intros acc Hl; [by right|]. cbn [fold_left] in Hl. apply IH in Hl as [Hl|Hl].
  - left. by right.
  - destruct acc as [a|]; [|injection Hl as ->; left; by left].
    destruct (leb x a); [injection Hl as ->; left; by left|by right].
Qed.

Hypothesis leb_total : forall a b, leb a b = true \/ leb b a = true.
Hypothesis leb_trans : forall a b c, leb a b = true -> leb b c = true -> leb a c = true.

Lemma fold_min_spec (l : list A) (acc : option A) :
  (acc = None /\ l = []) \/
  exists b, fold_left (fun best x => match best with None => Some x
              | Some b => if leb x b then Some x else best end) l acc = Some b
    /\ (b ∈ l \/ acc = Some b) /\ (forall x, x ∈ l \/ acc = Some x -> leb b x = true).
Proof.
  revert acc. induction l as [|x l IH]; intros acc.
  - destruct acc as [b|]; [right|by left]. exists b. split_and!; [done|by right|].
    intros y [?%elem_of_nil|[= <-]]; [done|]. by destruct (leb_total b b).
  - right. cbn [fold_left]. set (acc' := match acc with None => _ | Some _ => _ end).
    assert (Hacc' : exists a, acc' = Some a /\ leb a x = true /\ (a = x \/ acc = Some a)
      /\ forall y, acc = Some y -> leb a y = true).
    { unfold acc'. destruct acc as [a|]; [|exists x; split_and!; [done| |by left|done]; by destruct (leb_total x x)].
      destruct (leb x a) eqn:Hxa.
      - exists x. split_and!; [done|by destruct (leb_total x x)|by left|]. by intros y [= <-].
      - exists a. split_and!; [done|by destruct (leb_total a x); [|congruence]|by right|].
        intros y [= <-]. by destruct (leb_total a a). }
    destruct Hacc' as (a & Ha & Hax & Hfrom & Hay). destruct (IH acc') as [[Hn _]|(b & Hb & Hin & Hmin)]; [congruence|].
    assert (Hba : leb b a = true) by (apply Hmin; by right).
    exists b. split_and!; [done| |].
    + destruct Hin as [Hin|Hin]; [left; by right|]. rewrite Ha in Hin. injection Hin as ->.
      destruct Hfrom as [->|?]; [left; by left|by right].
    + intros y [[->|Hy]%elem_of_cons|Hy]; [by apply (leb_trans b a)|apply Hmin; by left|].
      apply (leb_trans b a); [done|by apply Hay].
Qed.
End Minimum.

Create HintDb joshbot.
#[export] Hint Resolve code_range wrap_int64_id wrap_uint64_id : joshbot.
