(* ===== verification/GoText.v ===== *)
(** * The Go text primitives the program uses

    The operations of Go's [strings], [bytes], [unicode/utf8] and [strconv]
    packages that JoshBot calls, on byte strings: prefixes and suffixes,
    trimming, cutting and splitting, UTF-8 decoding, case folding against an
    ASCII word, and decimal integers at their machine width. *)

From S2P Require Import Prelude.

(** ** Prefixes, suffixes, cutting *)

Fixpoint HasPrefix (s prefix : bytes) : bool :=
  match prefix, s with
  | [], _ => true
  | p :: prefix', c :: s' => byte_eqb p c && HasPrefix s' prefix'
  | _ :: _, [] => false
  end.

Definition HasSuffix (s suffix : bytes) : bool :=
  HasPrefix (rev s) (rev suffix).

Definition TrimPrefix (s prefix : bytes) : bytes :=
  if HasPrefix s prefix then drop (length prefix) s else s.

Definition TrimSuffix (s suffix : bytes) : bytes :=
  if HasSuffix s suffix then take (length s - length suffix) s else s.

(** [strings.Cut] around a one-byte separator: before, after, found. *)
Fixpoint Cut (s : bytes) (sep : ascii) : bytes * bytes * bool :=
  match s with
  | [] => ([], [], false)
  | c :: s' =>
      if byte_eqb c sep then ([], s', true)
      else let '(before, after, found) := Cut s' sep in (c :: before, after, found)
  end.

(** [strings.Split] around a one-byte separator. *)
Fixpoint Split (s : bytes) (sep : ascii) : list bytes :=
  match s with
  | [] => [[]]
  | c :: s' =>
      if byte_eqb c sep then [] :: Split s' sep
      else match Split s' sep with
           | first :: rest => (c :: first) :: rest
           | [] => [[c]]
           end
  end.

Definition Contains (s : bytes) (c : ascii) : bool := existsb (byte_eqb c) s.

(** [strings.Contains] of a text. *)
Fixpoint ContainsText (s text : bytes) : bool :=
  HasPrefix s text || match s with [] => false | _ :: s' => ContainsText s' text end.

(** [strings.ContainsAny] with ASCII characters. *)
Definition ContainsAny (s chars : bytes) : bool := existsb (Contains chars) s.

(** [strings.Join] around a one-byte separator. *)
Fixpoint Join (parts : list bytes) (sep : ascii) : bytes :=
  match parts with
  | [] => []
  | [part] => part
  | part :: rest => part ++ sep :: Join rest sep
  end.

Fixpoint TrimLeftFunc (f : ascii -> bool) (s : bytes) : bytes :=
  match s with
  | c :: s' => if f c then TrimLeftFunc f s' else s
  | [] => []
  end.

(** [strings.Trim] with an ASCII cutset given as a predicate. *)
Definition Trim (f : ascii -> bool) (s : bytes) : bytes :=
  rev (TrimLeftFunc f (rev (TrimLeftFunc f s))).

(** ** Characters *)

Definition in_range (lo hi : ascii) (c : ascii) : bool :=
  (code lo <=? code c) && (code c <=? code hi).

Definition is_digit : ascii -> bool := in_range "0" "9".
Definition is_upper : ascii -> bool := in_range "A" "Z".
Definition is_lower : ascii -> bool := in_range "a" "z".
Definition is_alpha (c : ascii) : bool := is_upper c || is_lower c.

Definition to_lower (c : ascii) : ascii :=
  if is_upper c then chr (code c + 32) else c.

Definition is_ascii (c : ascii) : bool := code c <? 128.

(** [strings.ToLower]: the Unicode tables are an interface, which agrees with
    [to_lower] on ASCII text. *)
Class Unicode := { ToLower : bytes -> bytes }.
Class UnicodeLaws `{Unicode} := {
  ToLower_ascii s : forallb is_ascii s = true -> ToLower s = map to_lower s;
}.

(** ** UTF-8 *)

Definition byte_in (lo hi : Z) (c : ascii) : bool :=
  (lo <=? code c) && (code c <=? hi).

(** The number of bytes of the well-formed UTF-8 sequence that starts [s], or
    [None] where [utf8.DecodeRune] reports [(RuneError, 1)] or [s] is empty. *)
Definition utf8_size (s : bytes) : option nat :=
  match s with
  | [] => None
  | c0 :: s0 =>
      if code c0 <? 128 then Some 1%nat
      else
        match s0 with
        | [] => None
        | c1 :: s1 =>
            if byte_in 194 223 c0 && byte_in 128 191 c1 then Some 2%nat
            else
              match s1 with
              | [] => None
              | c2 :: s2 =>
                  if ((byte_in 224 224 c0 && byte_in 160 191 c1)
                      || (byte_in 225 236 c0 && byte_in 128 191 c1)
                      || (byte_in 237 237 c0 && byte_in 128 159 c1)
                      || (byte_in 238 239 c0 && byte_in 128 191 c1))
                     && byte_in 128 191 c2
                  then Some 3%nat
                  else
                    match s2 with
                    | [] => None
                    | c3 :: _ =>
                        if ((byte_in 240 240 c0 && byte_in 144 191 c1)
                            || (byte_in 241 243 c0 && byte_in 128 191 c1)
                            || (byte_in 244 244 c0 && byte_in 128 143 c1))
                           && byte_in 128 191 c2 && byte_in 128 191 c3
                        then Some 4%nat
                        else None
                    end
              end
        end
  end.

(** [utf8.Valid], with fuel for the remaining bytes; [length s] is enough
    because every well-formed sequence has at least one byte. *)
Fixpoint utf8_valid_fuel (fuel : nat) (s : bytes) : bool :=
  match s, fuel with
  | [], _ => true
  | _ :: _, O => false
  | _ :: _, S fuel' =>
      match utf8_size s with
      | Some n => utf8_valid_fuel fuel' (drop n s)
      | None => false
      end
  end.

Definition utf8_Valid (s : bytes) : bool := utf8_valid_fuel (length s) s.

(** [utf8.RuneCount]: an ill-formed byte counts as one rune. *)
Fixpoint rune_count_fuel (fuel : nat) (s : bytes) : Z :=
  match s, fuel with
  | [], _ => 0
  | _ :: _, O => 0
  | _ :: _, S fuel' =>
      1 + rune_count_fuel fuel' (drop (default 1%nat (utf8_size s)) s)
  end.

Definition utf8_RuneCount (s : bytes) : Z := rune_count_fuel (length s) s.

(** ** Case folding and white space *)

(** [strings.EqualFold s word] for an ASCII [word]: letters match in either
    case, and the two non-ASCII runes whose simple folding reaches an ASCII
    letter match it as well: U+017F (bytes C5 BF) folds to [s] and U+212A
    (bytes E2 84 AA) folds to [k]. *)
Fixpoint EqualFold (s word : bytes) : bool :=
  match word with
  | [] => match s with [] => true | _ => false end
  | w :: word' =>
      match s with
      | c :: s' =>
          if byte_eqb (to_lower c) (to_lower w) then EqualFold s' word'
          else if byte_eqb (to_lower w) "s" && HasPrefix s [chr 197; chr 191]
          then EqualFold (drop 2 s) word'
          else if byte_eqb (to_lower w) "k" && HasPrefix s [chr 226; chr 132; chr 170]
          then EqualFold (drop 3 s) word'
          else false
      | [] => false
      end
  end.

(** The UTF-8 encodings of the runes [unicode.IsSpace] accepts. *)
Definition space_encodings : list bytes :=
  map (map chr)
    ([[9]; [10]; [11]; [12]; [13]; [32]; [194; 133]; [194; 160]; [225; 154; 128]]
     ++ map (fun k => [226; 128; 128 + k]) [0; 1; 2; 3; 4; 5; 6; 7; 8; 9; 10]
     ++ [[226; 128; 168]; [226; 128; 169]; [226; 128; 175]; [226; 129; 159];
         [227; 128; 128]]).

(** Strip the listed encodings from the left while one matches. *)
Fixpoint trim_encodings (fuel : nat) (encodings : list bytes) (s : bytes) : bytes :=
  match fuel with
  | O => s
  | S fuel' =>
      match List.find (HasPrefix s) encodings with
      | Some e => trim_encodings fuel' encodings (drop (length e) s)
      | None => s
      end
  end.

(** [strings.TrimSpace]: both ends; [length s] steps are enough because each
    encoding is non-empty. *)
Definition TrimSpace (s : bytes) : bytes :=
  let left := trim_encodings (length s) space_encodings s in
  rev (trim_encodings (length left) (map (@rev ascii) space_encodings) (rev left)).

(** ** Decimal integers *)

Definition digit_value (c : ascii) : Z := code c - code "0".

Definition decimal_value (s : bytes) : Z :=
  fold_left (fun n c => n * 10 + digit_value c) s 0.

(** [strconv.ParseUint(s, 10, bitSize)] with its error dropped: a syntax error
    (empty, or a non-digit) and a range error are both [None]. *)
Definition ParseUint (s : bytes) (bitSize : Z) : option Z :=
  match s with
  | [] => None
  | _ =>
      if forallb is_digit s && (decimal_value s <=? 2 ^ bitSize - 1)
      then Some (decimal_value s) else None
  end.

(** [strconv.ParseInt(s, 10, 64)]: an optional sign, then a [uint64] checked
    against the signed bounds. *)
Definition ParseInt64 (s : bytes) : option Z :=
  match s with
  | [] => None
  | c :: s' =>
      let '(neg, digits) :=
        if byte_eqb c "+" then (false, s')
        else if byte_eqb c "-" then (true, s') else (false, s) in
      match ParseUint digits 64 with
      | None => None
      | Some un =>
          if neg then (if un <=? 2 ^ 63 then Some (- un) else None)
          else (if un <? 2 ^ 63 then Some un else None)
      end
  end.

(** [strings.IndexByte]: the position of the first [c] *)
Fixpoint index_byte (c : ascii) (s : bytes) : option nat :=
  match s with
  | [] => None
  | d :: s => if byte_eqb d c then Some O else S <$> index_byte c s
  end.

(** [strconv.FormatUint(n, 10)], with fuel; a [uint64] has at most 20 digits. *)
Fixpoint format_uint_fuel (fuel : nat) (n : Z) (acc : bytes) : bytes :=
  match fuel with
  | O => acc
  | S fuel' =>
      let acc' := chr (code "0" + n mod 10) :: acc in
      if n <? 10 then acc' else format_uint_fuel fuel' (n / 10) acc'
  end.

Definition FormatUint (n : Z) : bytes := format_uint_fuel 20 n [].

(** ** Facts *)

(** *** Trimming leaves texts without space at their ends alone *)

Definition starts_outside (g : ascii -> bool) (e : bytes) : bool :=
  match e with d :: _ => negb (g d) | [] => false end.

Lemma HasPrefix_outside g c s e :
  g c = true -> starts_outside g e = true -> HasPrefix (c :: s) e = false.
Proof.
  intros Hc He. destruct e as [|d e]; [done|]. simpl in *.
  destruct (byte_eqb_spec d c) as [->|]; [|done]. by rewrite Hc in He.
Qed.

Lemma trim_encodings_stop g fuel encodings s :
  forallb (starts_outside g) encodings = true ->
  match s with c :: _ => g c = true | [] => True end ->
  trim_encodings fuel encodings s = s.
Proof.
  intros Henc Hs. destruct fuel as [|fuel]; [done|]. simpl.
  destruct (List.find (HasPrefix s) encodings) as [e|] eqn:Hf; [|done].
  apply List.find_some in Hf as [Hin Hp].
  rewrite forallb_forall in Henc. specialize (Henc e Hin).
  destruct s as [|c s].
  - destruct e as [|d e]; simpl in *; [done|discriminate].
  - by rewrite (HasPrefix_outside g) in Hp.
Qed.

Lemma forallb_rev {A} (f : A -> bool) l : forallb f (rev l) = forallb f l.
Proof.
  induction l as [|x l IH]; [done|]. simpl.
  rewrite forallb_app, IH. simpl. rewrite andb_true_r. apply andb_comm.
Qed.

(** Visible ASCII characters. *)
Definition is_visible (c : ascii) : bool := (33 <=? code c) && (code c <=? 126).

Lemma TrimSpace_edges s :
  match s with c :: _ => is_visible c = true | [] => True end ->
  match rev s with c :: _ => is_visible c = true | [] => True end -> TrimSpace s = s.
Proof.
  intros Hfirst Hlast. unfold TrimSpace.
  rewrite (trim_encodings_stop is_visible _ space_encodings) by done.
  rewrite (trim_encodings_stop is_visible) by done. apply rev_involutive.
Qed.

Lemma TrimSpace_digits s : forallb is_digit s = true -> TrimSpace s = s.
Proof.
  intros Hs. assert (Hvis : forall t, forallb is_digit t = true -> match t with c :: _ => is_visible c = true | [] => True end).
  { intros [|c t]; [done|]. cbn [forallb]. unfold is_digit, in_range, is_visible. intros Hd. b2p.
    change (code "0") with 48 in *. change (code "9") with 57 in *. lia. }
  apply TrimSpace_edges; apply Hvis; [done|]. by rewrite forallb_rev.
Qed.

(** *** Decimal values *)

Lemma digit_value_range c : is_digit c = true -> 0 <= digit_value c <= 9.
Proof.
  unfold is_digit, in_range, digit_value. intros H. b2p.
  change (code "0") with 48 in *. change (code "9") with 57 in *. lia.
Qed.

Lemma decimal_value_snoc s c :
  decimal_value (s ++ [c]) = decimal_value s * 10 + digit_value c.
Proof. unfold decimal_value. by rewrite fold_left_app. Qed.

Lemma decimal_value_range s :
  forallb is_digit s = true -> 0 <= decimal_value s < 10 ^ Z.of_nat (length s).
Proof.
  induction s as [|c s IH] using rev_ind; intros Hs; [by vm_compute|].
  rewrite forallb_app in Hs. simpl in Hs. b2p.
  rewrite decimal_value_snoc, length_app. simpl.
  rewrite Nat2Z.inj_add, Z.pow_add_r by lia. change (10 ^ Z.of_nat 1) with 10.
  pose proof (digit_value_range c ltac:(done)). specialize (IH ltac:(done)). lia.
Qed.

Lemma ParseUint_Some s bits v :
  ParseUint s bits = Some v ->
  s <> [] /\ forallb is_digit s = true /\ v = decimal_value s /\ 0 <= v <= 2 ^ bits - 1.
Proof.
  unfold ParseUint. destruct s as [|c s]; [done|]. case_head; [|done].
  intros [= <-]. b2p. pose proof (decimal_value_range (c :: s) ltac:(done)).
  repeat split; [done|done|lia|lia].
Qed.

Lemma ParseUint_digits s bits :
  s <> [] -> forallb is_digit s = true ->
  ParseUint s bits = if decimal_value s <=? 2 ^ bits - 1 then Some (decimal_value s) else None.
Proof.
  intros Hne Hs. unfold ParseUint. destruct s; [done|]. by rewrite Hs.
Qed.

Lemma is_digit_not_sign c : is_digit c = true -> byte_eqb c "+" = false /\ byte_eqb c "-" = false.
Proof.
  unfold is_digit, in_range, byte_eqb. intros H. b2p.
  change (code "0") with 48 in *. change (code "9") with 57 in *.
  change (code "+") with 43. change (code "-") with 45. lia.
Qed.

(** A digit string parses to its value when that fits in an [int64]. *)
Lemma ParseInt64_digits s :
  s <> [] -> forallb is_digit s = true ->
  ParseInt64 s = if decimal_value s <? 2 ^ 63 then Some (decimal_value s) else None.
Proof.
  intros Hne Hs. unfold ParseInt64. destruct s as [|c s]; [done|].
  assert (Hc : is_digit c = true) by (simpl in Hs; by b2p).
  apply is_digit_not_sign in Hc as [-> ->].
  rewrite ParseUint_digits by done.
  destruct (decimal_value (c :: s) <=? 2 ^ 64 - 1) eqn:E1; [done|].
  destruct (decimal_value (c :: s) <? 2 ^ 63) eqn:E2; [lia|done].
Qed.

(** *** Formatting and parsing a number *)

Lemma digit_chr d : 0 <= d <= 9 ->
  is_digit (chr (code "0" + d)) = true /\ digit_value (chr (code "0" + d)) = d.
Proof.
  intros Hd. change (code "0") with 48. unfold is_digit, in_range, digit_value.
  rewrite code_chr by lia. change (code "0") with 48. change (code "9") with 57.
  split; lia.
Qed.

Lemma decimal_value_app s t :
  decimal_value (s ++ t) = decimal_value s * 10 ^ Z.of_nat (length t) + decimal_value t.
Proof.
  induction t as [|c t IH] using rev_ind.
  - rewrite app_nil_r. change (10 ^ Z.of_nat (length [])) with 1. change (decimal_value []) with 0. lia.
  - rewrite app_assoc, !decimal_value_snoc, IH, length_app. cbn [length].
    rewrite Nat2Z.inj_add, Z.pow_add_r by lia. change (10 ^ Z.of_nat 1) with 10. lia.
Qed.

Lemma format_uint_fuel_spec fuel n acc :
  0 <= n < 10 ^ Z.of_nat fuel -> (0 < fuel)%nat ->
  exists digits, format_uint_fuel fuel n acc = digits ++ acc /\ digits <> []
                 /\ forallb is_digit digits = true /\ decimal_value digits = n.
Proof.
  revert n acc. induction fuel as [|fuel IH]; intros n acc Hn Hf; [lia|]. cbn [format_uint_fuel].
  pose proof (Z.mod_pos_bound n 10 ltac:(lia)) as Hm.
  destruct (digit_chr (n mod 10) ltac:(lia)) as [Hd Hv].
  destruct (Z.ltb_spec n 10) as [Hl|Hl].
  - exists [chr (code "0" + n mod 10)]. rewrite Z.mod_small in * by lia.
    repeat split; [done| |].
    + cbn [forallb]. by rewrite Hd.
    + unfold decimal_value. cbn [fold_left]. lia.
  - rewrite Nat2Z.inj_succ, Z.pow_succ_r in Hn by lia.
    assert (Hdm : n = 10 * (n / 10) + n mod 10) by (apply Z.div_mod; lia).
    destruct (IH (n / 10) (chr (code "0" + n mod 10) :: acc)) as (digits & Heq & Hne & Hdd & Hdv).
    { split; [apply Z.div_pos; lia|]. apply Z.div_lt_upper_bound; lia. }
    { destruct fuel; [|lia]. change (10 ^ Z.of_nat 0) with 1 in Hn. lia. }
    exists (digits ++ [chr (code "0" + n mod 10)]). rewrite Heq, <- app_assoc.
    repeat split; [by destruct digits| |].
    + rewrite forallb_app. cbn [forallb]. by rewrite Hdd, Hd.
    + rewrite decimal_value_snoc, Hdv, Hv. lia.
Qed.

Lemma FormatUint_spec n : 0 <= n <= max_uint64 ->
  FormatUint n <> [] /\ forallb is_digit (FormatUint n) = true /\ decimal_value (FormatUint n) = n.
Proof.
  intros Hn. unfold FormatUint.
  destruct (format_uint_fuel_spec 20 n []) as (digits & -> & H); [|lia|by rewrite app_nil_r].
  change (10 ^ Z.of_nat 20) with 100000000000000000000. unfold max_uint64 in Hn. lia.
Qed.

(** Printing then parsing gives the number back. *)
Lemma ParseUint_FormatUint n bits :
  0 <= n <= 2 ^ bits - 1 -> bits <= 64 -> ParseUint (FormatUint n) bits = Some n.
Proof.
  intros Hn Hb. assert (2 ^ bits <= 2 ^ 64).
  { destruct (Z.le_gt_cases 0 bits); [by apply Z.pow_le_mono_r|]. rewrite Z.pow_neg_r; lia. }
  destruct (FormatUint_spec n) as (Hne & Hd & Hv); [unfold max_uint64; lia|].
  rewrite ParseUint_digits by done. rewrite Hv. by replace (n <=? 2 ^ bits - 1) with true by lia.
Qed.

Lemma FormatUint_inj n m :
  0 <= n <= max_uint64 -> 0 <= m <= max_uint64 -> FormatUint n = FormatUint m -> n = m.
Proof.
  intros Hn Hm Heq. destruct (FormatUint_spec n Hn) as (_ & _ & <-), (FormatUint_spec m Hm) as (_ & _ & <-).
  by rewrite Heq.
Qed.

(** *** Prefixes, suffixes, membership *)

Lemma HasPrefix_spec s p : HasPrefix s p = true <-> exists t, s = p ++ t.
Proof.
  revert s. induction p as [|c p IH]; intros s; [split; [by exists s|by destruct s]|].
  destruct s as [|d s]; simpl; [split; [done|intros [t [=]]]|].
  rewrite andb_true_iff, IH. destruct (byte_eqb_spec c d) as [->|Hne].
  - split; [intros [_ [t ->]]; by exists t|intros [t [= ->]]; eauto].
  - split; [by intros [? _]|intros [t [= ->]]; congruence].
Qed.

Lemma HasSuffix_spec s p : HasSuffix s p = true <-> exists t, s = t ++ p.
Proof.
  unfold HasSuffix. rewrite HasPrefix_spec. split; intros [t Ht].
  - exists (rev t). rewrite <- (rev_involutive s), Ht. by rewrite rev_app_distr, rev_involutive.
  - exists (rev t). by rewrite Ht, rev_app_distr.
Qed.

Lemma TrimSuffix_app s p : TrimSuffix (s ++ p) p = s.
Proof.
  unfold TrimSuffix. rewrite (proj2 (HasSuffix_spec _ _)) by (by exists s).
  rewrite length_app. replace (length s + length p - length p)%nat with (length s) by lia.
  apply take_app_length.
Qed.

Lemma TrimSuffix_no s p : HasSuffix s p = false -> TrimSuffix s p = s.
Proof. intros Hs. unfold TrimSuffix. by rewrite Hs. Qed.

Lemma Contains_spec s c : Contains s c = true <-> c ∈ s.
Proof.
  unfold Contains. rewrite existsb_exists. setoid_rewrite list_elem_of_In. split.
  - intros (d & Hd & He). by destruct (byte_eqb_spec c d) as [->|].
  - intros Hc. exists c. by rewrite byte_eqb_refl.
Qed.

Lemma existsb_app_false {A} (f : A -> bool) l k :
  existsb f (l ++ k) = false <-> existsb f l = false /\ existsb f k = false.
Proof. by rewrite existsb_app, orb_false_iff. Qed.

Lemma ContainsText_spec s text : ContainsText s text = true <-> exists a b, s = a ++ text ++ b.
Proof.
  induction s as [|c s IH]; cbn [ContainsText].
  - rewrite orb_false_r, HasPrefix_spec. split; [intros [t Ht]; by exists [], t|].
    intros (a & b & Ha). destruct a; [by exists b|done].
  - rewrite orb_true_iff, HasPrefix_spec, IH. split.
    + intros [[t ->]|(a & b & ->)]; [by exists [], t|by exists (c :: a), b].
    + intros ([|d a] & b & Hs); [left; by exists b|]. injection Hs as -> ->. right. eauto.
Qed.

(** *** Splitting and joining *)

Lemma Split_nonempty s sep : Split s sep <> [].
Proof. destruct s as [|c s]; [done|]. cbn [Split]. case_head; [done|]. by case_head. Qed.

Lemma Split_app s t sep : Split (s ++ sep :: t) sep = Split s sep ++ Split t sep.
Proof.
  induction s as [|c s IH]; cbn [Split app]; [by rewrite byte_eqb_refl|].
  case_head; [by rewrite IH|]. rewrite IH. destruct (Split s sep) eqn:Hs; [by apply Split_nonempty in Hs|done].
Qed.

Lemma Join_cons part rest sep : rest <> [] -> Join (part :: rest) sep = part ++ sep :: Join rest sep.
Proof. by destruct rest. Qed.

Lemma Join_Split s sep : Join (Split s sep) sep = s.
Proof.
  induction s as [|c s IH]; [done|]. cbn [Split]. destruct (byte_eqb_spec c sep) as [->|Hne].
  - rewrite Join_cons by apply Split_nonempty. by rewrite IH.
  - destruct (Split s sep) as [|first rest] eqn:Hs; [by apply Split_nonempty in Hs|].
    rewrite <- IH. by destruct rest.
Qed.

Lemma Split_inj s t sep : Split s sep = Split t sep -> s = t.
Proof. intros Hst. by rewrite <- (Join_Split s sep), Hst, Join_Split. Qed.

Lemma Join_app a b sep : a <> [] -> b <> [] -> Join (a ++ b) sep = Join a sep ++ sep :: Join b sep.
Proof.
  induction a as [|x a IH]; [done|]. intros _ Hb. destruct a as [|y a]; [by destruct b|].
  cbn [app]. rewrite (Join_cons x (y :: a)), (Join_cons x (y :: a ++ b)) by done.
  change (y :: a ++ b) with ((y :: a) ++ b). rewrite IH by done. by rewrite <- app_assoc.
Qed.

Lemma Split_Join parts sep : parts <> [] -> Forall (fun p => sep ∉ p) parts -> Split (Join parts sep) sep = parts.
Proof.
  intros Hne Hf. assert (Hone : forall p, sep ∉ p -> Split p sep = [p]).
  { intros p. induction p as [|c p IH]; [done|]. rewrite not_elem_of_cons. intros [Hc Hp]. cbn [Split].
    destruct (byte_eqb_spec c sep); [congruence|]. by rewrite IH. }
  induction Hf as [|p parts Hp Hf IH]; [done|]. destruct parts as [|q parts]; [by apply Hone|].
  rewrite Join_cons, Split_app, Hone, IH by done. done.
Qed.

Lemma Split_free s sep : Forall (fun p => sep ∉ p) (Split s sep).
Proof.
  induction s as [|c s IH]; cbn [Split]; [by repeat constructor; apply not_elem_of_nil|].
  destruct (byte_eqb_spec c sep) as [|Hne]; [constructor; [apply not_elem_of_nil|done]|].
  destruct (Split s sep) as [|first rest]; [by repeat constructor; rewrite list_elem_of_singleton|].
  inversion IH; subst. constructor; [|done]. rewrite not_elem_of_cons. naive_solver.
Qed.
