(* ===== verification/GoErrors.v ===== *)
(** * Error values and calls to the environment

    Go errors as the program inspects them, and the state-passing form of the
    calls a component makes to its environment. *)

From S2P Require Import Prelude.

(** ** Errors

    The program tells errors apart only with [errors.Is] against its sentinel
    variables and the context package's two errors, so an error value is the
    list of sentinels its chain wraps. [fmt.Errorf] with [%w] and
    [errors.Join] keep the sentinels of their operands. *)

Inductive sentinel : Type :=
(* context *)
| Canceled | DeadlineExceeded
(* internal/netguard *)
| errUnsafeAddress | errInvalidContext | errInvalidOrigin | errResolverUnavailable
| errResolutionFailed | errNoAddresses | errDialerUnavailable | errInvalidDestination
| errInvalidDialTimeout | errDialFailed
(* internal/robots *)
| ErrDisallowed | ErrTemporary | errCheckerUnavailable | errClockUnavailable
| robots_errInvalidContext | errInvalidInitialOrigin | errHTTPGetterUnavailable
| errInvalidHTTPTarget | errInvalidHTTPResponse | errRobotsUnreachable | errRedirectLimit
| errInvalidRedirect | errUnexpectedStatus | errScheduleCapacity | errInvalidRequestDelay
| ErrInvalidCrawlDelay | robots_errBodyTooLarge
(* internal/declaration *)
| errVerifierUnavailable | errDeclarationGetterUnavailable | errDeclarationClockUnavailable
| errInvalidDeclarationContext | errInvalidDeclarationOrigin | errInvalidDeclarationRedirect
| errCrossOriginDeclarationRedirect | errDeclarationBodyTooLarge
(* internal/store *)
| ErrLeaseLost | errQueueUnavailable | errQueueClockUnavailable | errInvalidQueueConfig
| errInvalidWorkerID | errInvalidAvailableAt | errInvalidLease | errInvalidRecheckAfter
| errCompletionOriginMismatch | errPoolUnavailable | store_errInvalidContext
| ErrMigrationDrift | errMigrationSourceUnavailable | errInvalidMigrationSet
| store_errInvalidOrigin | errInvalidResult | errStoreUnavailable | errInvalidObservedAt
| errInvalidHistoryLimit | errInvalidStoredRegistryOrigin | errInvalidStoredVerifiedOrigin
| errInvalidDiscoveryInterval | errInvalidDiscoveryCandidate | errDiscoverySourceUnknown
| ErrDiscoverySourceLeaseLost | errInvalidDiscoveryLeaseDuration | errInvalidDiscoveryLeaseOwner
| errInvalidDiscoverySourceLease | errInvalidCrawlRun | errInvalidPageAttempt | errInvalidRetention
| errInvalidServiceState | errUnknownCrawlRun | errInvalidOperationalHistoryRetention
(* internal/worker *)
| ErrInsufficientLeaseBudget | errWorkerUnavailable | worker_errQueueUnavailable
| worker_errVerifierUnavailable | errWaiterUnavailable | errTimeoutFactoryUnavailable
| worker_errInvalidContext | errInvalidConfig
(* internal/discovery *)
| errMultiPageCrawlerUnavailable | errCandidateSinkUnavailable | errInvalidCrawlConfig
| errGetterUnavailable | discovery_errInvalidContext | errInvalidSource | errInvalidPageURL
| errCrawlRunnerUnavailable | errCrawlSourceStoreUnavailable | errSourceCrawlerUnavailable
| errCrawlRunnerWaiterUnavailable | errInvalidCrawlRunnerConfig
(* internal/control *)
| errTokenUnavailable
(* internal/publicdata, os *)
| ErrDuplicateOrigin | ErrInvalidRegistryOrigin | publicdata_ErrInvalidContext | ErrInvalidOutputRoot
| ErrDestinationExists | ErrInvalidOutputPath | ErrDuplicateOutputPath | ErrInvalidSnapshotRoot
| ErrInvalidSnapshotEntry | ErrMissingRegistry | ErrSnapshotLimitExceeded | os_ErrNotExist
(* internal/githubpublish; a status error carries its code *)
| githubpublish_ErrInvalidConfig | ErrInvalidToken | ErrInvalidPublisher | ErrInvalidSnapshot | ErrUnsafeTarget
| ErrInvalidGitHubResponse | ErrGitHubResponseTooLarge | ErrPublicationConflict | githubStatusError (statusCode : Z)
(* internal/reporting *)
| errInvalidLimit | errInvalidCursor | errInvalidFilter | errInvalidOriginFilter | errReaderUnavailable
| reporting_errTokenUnavailable | errPostgresPoolUnavailable | errInvalidPostgresConfig | errInvalidCrawlID | errInvalidSourceOrigin
(* internal/webbotauth *)
| ErrInvalidDirectory | ErrIdentityUnavailable | ErrInvalidPrivateKey | ErrUnsupportedPrivateKey | ErrPrivateKeyMismatch
| ErrReadPrivateKey | ErrPrivateKeyTooLarge | ErrSignerUnavailable | ErrInvalidSigningKey | ErrInvalidKeyID
| ErrInvalidRequest | ErrNonceGeneration | errNonceSourceUnavailable | webbotauth_errClockUnavailable
(* cmd/joshbot *)
| errInvalidRegistryInterval | errInvalidRegistryExportRoot | errRegistryLoggerUnavailable | errRegistryEntropyUnavailable | errInvalidRegistryPointer
| errOperationsUnavailable | errInvalidRuntimeConfiguration | errWorkerIDGeneration | errServiceInstanceIDGeneration
| errInvalidControlConfiguration | errInvalidReportConfiguration
| errInvalidWebBotAuthConfiguration | errOpenWebBotAuthPrivateKeyFile | errInvalidWebBotAuthPrivateKey
| errDuplicateWebBotAuthIdentities | errWebBotAuthConformance
| errControlRuntimeUnavailable | errControlDatabaseUnavailable | errControlServerUnavailable | errControlTokenReaderUnavailable
| errOpenControlTokenFile | errReadControlTokenFile | errInvalidControlToken
| errReportRuntimeUnavailable | errReportDatabaseUnavailable | errReportServerUnavailable | errReportTokenReaderUnavailable
| errOpenReportTokenFile | errReadReportTokenFile | errEmptyReportToken | errReportTokenTooLarge | errInvalidReportToken
| errDiscoveryRunnerUnavailable | errDiscoveryLoggerUnavailable | http_ErrServerClosed
(* internal/database *)
| errDatabaseURLUnavailable | errDatabasePasswordFileUnavailable | errInvalidDatabaseURL | errDatabasePasswordInURL
| errOpenDatabasePasswordFile | errReadDatabasePasswordFile | errEmptyDatabasePassword | errDatabasePasswordTooLarge
(* cmd/joshbot, publication *)
| errInvalidPublishConfiguration | errOpenGitHubTokenFile | errReadGitHubTokenFile | errEmptyGitHubToken | errGitHubTokenTooLarge | errInvalidGitHubToken
(* any error the program does not name *)
| foreign (id : Z).

#[export] Instance sentinel_eq_dec : EqDecision sentinel.
Proof. solve_decision. Defined.

Abbreviation error := (list sentinel) (only parsing).

Definition errors_New (s : sentinel) : error := [s].
Definition errors_Is (e : error) (s : sentinel) : bool := bool_decide (s ∈ e).
(** [fmt.Errorf("...: %w", e)] *)
Definition wrap (e : error) : error := e.
(** [fmt.Errorf("%w: %w", a, b)] and [errors.Join] *)
Definition join (a b : error) : error := a ++ b.

Lemma errors_Is_New s s' : errors_Is (errors_New s) s' = bool_decide (s' = s).
Proof.
  unfold errors_Is, errors_New. apply bool_decide_ext. by rewrite list_elem_of_singleton.
Qed.

(** ** Environment calls

    A call to code outside the component takes the state [W] of the
    environment and returns its next state with the result. Components are
    polymorphic in [W], so that a theorem about every environment also covers
    one that records the calls it receives. *)

Definition call (W A R : Type) : Type := W -> A -> W * R.

(** The environment that also logs the arguments of [f]. *)
Definition logged {W A R} (f : call W A R) : call (W * list A) A R :=
  fun '(w, log) a => let '(w', r) := f w a in ((w', log ++ [a]), r).

(** Lift a call that is not logged. *)
Definition unlogged {W A R B} (f : call W A R) : call (W * list B) A R :=
  fun '(w, log) a => let '(w', r) := f w a in ((w', log), r).

(** A [context.Context]: [None] is the nil interface; otherwise [Err] read in
    the current state of the environment. *)
Abbreviation context W := (option (W -> option (list sentinel))) (only parsing).

Definition ctx_lift {W B} (err : W -> option error) : W * B -> option error := fun w => err (fst w).
