(* ===== verification/GoUrl.v ===== *)
(** * URLs ([net/url] as the program uses it)

    The fields of Go's [url.URL] that JoshBot reads and writes, the two
    accessors it derives from [Host], and the interface of the parts of
    [net/url] the program calls as a black box. *)

From S2P Require Import Prelude GoText.

Record URL : Type := mkURL {
  Scheme : bytes;
  Opaque : bytes;
  User : option bytes;
  Host : bytes;
  Path : bytes;
  RawPath : bytes;
  ForceQuery : bool;
  RawQuery : bytes;
  Fragment : bytes;
  RawFragment : bytes;
}.

#[export] Instance URL_eq_dec : EqDecision URL.
Proof. solve_decision. Defined.

Definition set_no_fragment (u : URL) : URL :=
  mkURL (Scheme u) (Opaque u) (User u) (Host u) (Path u) (RawPath u)
        (ForceQuery u) (RawQuery u) [] [].

(** The operations of [net/url] used as a black box. [url_Parse] and
    [url_ResolveReference] are [url.Parse] and [URL.ResolveReference];
    [url_String] and [url_EscapedPath] are the methods of those names. *)
Class NetURL := {
  url_Parse : bytes -> option URL;
  url_String : URL -> bytes;
  url_EscapedPath : URL -> bytes;
  url_ResolveReference : URL -> URL -> URL;
}.

(** [URL.Parse]: a reference parsed in the context of the receiver. *)
Definition url_ParseRef `{NetURL} (base : URL) (ref : bytes) : option URL :=
  match url_Parse ref with
  | Some u => Some (url_ResolveReference base u)
  | None => None
  end.

(** [validOptionalPort]: empty, or a colon followed by digits. *)
Definition validOptionalPort (port : bytes) : bool :=
  match port with
  | [] => true
  | c :: digits => byte_eqb c ":" && forallb is_digit digits
  end.

(** The part of [s] before its last [c], and the rest from that [c] on. *)
Fixpoint last_index (c : ascii) (s : bytes) : option nat :=
  match s with
  | [] => None
  | d :: s' =>
      match last_index c s' with
      | Some i => Some (S i)
      | None => if byte_eqb d c then Some 0%nat else None
      end
  end.

(** [splitHostPort]: the host without brackets, and the port. *)
Definition splitHostPort (hostPort : bytes) : bytes * bytes :=
  let '(host, port) :=
    match last_index ":" hostPort with
    | Some colon =>
        if validOptionalPort (drop colon hostPort)
        then (take colon hostPort, drop (S colon) hostPort)
        else (hostPort, [])
    | None => (hostPort, [])
    end in
  if HasPrefix host (bs "[") && HasSuffix host (bs "]")
  then (take (length host - 2) (drop 1 host), port)
  else (host, port).

Definition url_Hostname (u : URL) : bytes := fst (splitHostPort (Host u)).
Definition url_Port (u : URL) : bytes := snd (splitHostPort (Host u)).

(** ** Facts *)

Lemma last_index_None c s : last_index c s = None <-> c ∉ s.
Proof.
  induction s as [|d s IH]; simpl; [split; [by intros _ ?%elem_of_nil|done]|].
  rewrite not_elem_of_cons. destruct (last_index c s) as [i|].
  - split; [done|]. intros [_ H]. by apply IH in H.
  - destruct (byte_eqb_spec d c) as [->|Hne]; [by split; [|intros [? _]]|].
    split; [|done]. intros _. split; [congruence|by apply IH].
Qed.

Lemma last_index_app c s t : c ∉ t -> last_index c (s ++ c :: t) = Some (length s).
Proof.
  intros Ht. induction s as [|d s IH]; simpl.
  - rewrite (proj2 (last_index_None c t)) by done. by rewrite byte_eqb_refl.
  - by rewrite IH.
Qed.

Lemma last_index_Some c s i : last_index c s = Some i ->
  exists l r, s = l ++ c :: r /\ length l = i.
Proof.
  revert i. induction s as [|d s IH]; simpl; [done|]. intros i.
  destruct (last_index c s) as [j|].
  - intros [= <-]. destruct (IH j eq_refl) as (l & r & -> & Hl). exists (d :: l), r. by simpl; rewrite Hl.
  - destruct (byte_eqb_spec d c) as [->|]; [|done]. intros [= <-]. by exists [], s.
Qed.

Lemma digits_no_colon (s : bytes) : forallb is_digit s = true -> ":"%char ∉ s.
Proof.
  intros H Hin. rewrite forallb_forall in H.
  specialize (H ":"%char (proj1 (list_elem_of_In _ _) Hin)). done.
Qed.

(** Splitting an unbracketed, colon-free host with an optional decimal port. *)
Lemma splitHostPort_plain host :
  ":"%char ∉ host -> HasPrefix host (bs "[") = false ->
  splitHostPort host = (host, []).
Proof.
  intros Hc Hb. unfold splitHostPort.
  rewrite (proj2 (last_index_None _ _)) by done. by rewrite Hb.
Qed.

Lemma splitHostPort_port host digits :
  forallb is_digit digits = true -> HasPrefix host (bs "[") = false ->
  splitHostPort (host ++ ":"%char :: digits) = (host, digits).
Proof.
  intros Hd Hb. unfold splitHostPort.
  rewrite last_index_app by by apply digits_no_colon.
  rewrite drop_app_length.
  change (validOptionalPort (":"%char :: digits)) with (forallb is_digit digits).
  rewrite Hd, take_app_length.
  replace (S (length host)) with (length (host ++ [":"%char])) by (rewrite length_app; simpl; lia).
  replace (host ++ ":"%char :: digits) with ((host ++ [":"%char]) ++ digits)
    by (by rewrite <- app_assoc).
  rewrite drop_app_length. by rewrite Hb.
Qed.

(** A bracketed host: the brackets are removed. *)
Lemma take_bracketed (h : bytes) :
  take (length (bs "[" ++ h ++ bs "]") - 2) (drop 1 (bs "[" ++ h ++ bs "]")) = h.
Proof.
  rewrite !length_app. change (length (bs "[")) with 1%nat. change (length (bs "]")) with 1%nat.
  replace (1 + (length h + 1) - 2)%nat with (length h) by lia.
  change (drop 1 (bs "[" ++ h ++ bs "]")) with (h ++ bs "]"). apply take_app_length.
Qed.

Lemma HasSuffix_bracketed (h : bytes) : HasSuffix (bs "[" ++ h ++ bs "]") (bs "]") = true.
Proof. apply HasSuffix_spec. exists (bs "[" ++ h). by rewrite app_assoc. Qed.

Lemma HasPrefix_bracketed (h : bytes) : HasPrefix (bs "[" ++ h ++ bs "]") (bs "[") = true.
Proof. apply HasPrefix_spec. by eexists. Qed.

Lemma splitHostPort_bracket h suffix portText :
  suffix = [] /\ portText = []
  \/ (exists digits, suffix = ":"%char :: digits /\ portText = digits /\ forallb is_digit digits = true) ->
  splitHostPort ((bs "[" ++ h ++ bs "]") ++ suffix) = (h, portText).
Proof.
  intros [[-> ->]|(digits & -> & -> & Hd)]; unfold splitHostPort.
  - rewrite app_nil_r. set (b := bs "[" ++ h ++ bs "]").
    assert (Hres : (if HasPrefix b (bs "[") && HasSuffix b (bs "]")
                    then (take (length b - 2) (drop 1 b), []) else (b, [])) = (h, [] : bytes)).
    { unfold b. by rewrite HasPrefix_bracketed, HasSuffix_bracketed, take_bracketed. }
    destruct (last_index ":" b) as [i|] eqn:Hi; [|exact Hres].
    destruct (validOptionalPort (drop i b)) eqn:Hv; [|exact Hres]. exfalso.
    destruct (last_index_Some _ _ _ Hi) as (l & r & Hb & Hl). rewrite Hb in Hv.
    rewrite <- Hl, drop_app_length in Hv. cbn [validOptionalPort] in Hv. b2p.
    destruct r as [|c r _] using rev_ind.
    + unfold b in Hb. rewrite app_assoc in Hb. by apply app_inj_tail in Hb as [_ ?].
    + unfold b in Hb. rewrite app_assoc in Hb.
      change (l ++ ":"%char :: r ++ [c]) with (l ++ ((":"%char :: r) ++ [c])) in Hb.
      rewrite app_assoc in Hb. apply app_inj_tail in Hb as [_ <-].
      rewrite forallb_app in H0. b2p. done.
  - rewrite last_index_app by by apply digits_no_colon.
    rewrite drop_app_length.
    change (validOptionalPort (":"%char :: digits)) with (forallb is_digit digits).
    rewrite Hd, take_app_length, HasPrefix_bracketed, HasSuffix_bracketed.
    cbn [andb]. rewrite take_bracketed. f_equal.
    set (b := bs "[" ++ h ++ bs "]").
    replace (b ++ ":"%char :: digits) with ((b ++ [":"%char]) ++ digits) by (by rewrite <- app_assoc).
    replace (S (length b)) with (length (b ++ [":"%char])) by (rewrite length_app; simpl; lia).
    by rewrite drop_app_length.
Qed.
