(* ===== verification/GoNetip.v ===== *)
(** * IP addresses ([net/netip] as the program uses it)

    Go's [netip.Addr] is an invalid zero value, an IPv4 address or an IPv6
    address with an optional zone. Classification, unmapping, comparison and
    prefix membership are computed on the address bits as [net/netip] does;
    parsing and formatting text are an interface with its documented laws. *)

From S2P Require Import Prelude GoText.

Inductive Addr : Type :=
| AddrInvalid
| Addr4 (value : Z)
| Addr6 (value : Z) (zone : bytes).

#[export] Instance Addr_eq_dec : EqDecision Addr.
Proof. solve_decision. Defined.

Definition addr_wf (a : Addr) : Prop :=
  match a with
  | AddrInvalid => True
  | Addr4 v => 0 <= v < 2 ^ 32
  | Addr6 v _ => 0 <= v < 2 ^ 128
  end.

Definition addr_IsValid (a : Addr) : bool :=
  match a with AddrInvalid => false | _ => true end.

Definition addr_Zone (a : Addr) : bytes :=
  match a with Addr6 _ zone => zone | _ => [] end.

Definition addr_Is4 (a : Addr) : bool :=
  match a with Addr4 _ => true | _ => false end.

Definition addr_Is6 (a : Addr) : bool :=
  match a with Addr6 _ _ => true | _ => false end.

(** [Is4In6]: the high 64 bits are zero and bits 32 to 63 are [0xffff]. *)
Definition addr_Is4In6 (a : Addr) : bool :=
  match a with
  | Addr6 v _ => (Z.shiftr v 64 =? 0) && (Z.shiftr (Z.land v (Z.ones 64)) 32 =? 65535)
  | _ => false
  end.

(** [Unmap]: an IPv4-mapped IPv6 address becomes the IPv4 address. *)
Definition addr_Unmap (a : Addr) : Addr :=
  match a with
  | Addr6 v _ => if addr_Is4In6 a then Addr4 (Z.land v (Z.ones 32)) else a
  | _ => a
  end.

Definition addr_BitLen (a : Addr) : Z :=
  match a with AddrInvalid => 0 | Addr4 _ => 32 | Addr6 _ _ => 128 end.

Definition addr_value (a : Addr) : Z :=
  match a with AddrInvalid => 0 | Addr4 v => v | Addr6 v _ => v end.

(** Lexicographic byte order, Go's [<] on strings. *)
Fixpoint bytes_compare (s t : bytes) : comparison :=
  match s, t with
  | [], [] => Eq
  | [], _ :: _ => Lt
  | _ :: _, [] => Gt
  | c :: s', d :: t' =>
      match code c ?= code d with Eq => bytes_compare s' t' | r => r end
  end.

(** [Compare]: by bit length, then value, then zone. *)
Definition addr_Compare (a b : Addr) : comparison :=
  match addr_BitLen a ?= addr_BitLen b with
  | Eq => match addr_value a ?= addr_value b with
          | Eq => bytes_compare (addr_Zone a) (addr_Zone b)
          | r => r
          end
  | r => r
  end.

(** A prefix: the family's bit length, the base address and the prefix bits. *)
Record Prefix : Type := mkPrefix { prefix_len : Z; prefix_base : Z; prefix_bits : Z }.

(** [mask6 n]: the [n] high bits of 128. *)
Definition mask6 (n : Z) : Z := Z.shiftl (Z.ones n) (128 - n).

(** [Prefix.Contains] *)
Definition prefix_Contains (p : Prefix) (a : Addr) : bool :=
  if negb (bytes_eqb (addr_Zone a) []) then false
  else if negb (prefix_len p =? addr_BitLen a) then false
  else
    match a with
    | AddrInvalid => false
    | Addr4 v => Z.shiftr (Z.lxor v (prefix_base p)) (32 - prefix_bits p) =? 0
    | Addr6 v _ => Z.land (Z.lxor v (prefix_base p)) (mask6 (prefix_bits p)) =? 0
    end.

(** Parsing and formatting addresses. *)
Class NetIP := {
  ParseAddr : bytes -> option Addr;
  addr_String : Addr -> bytes;
}.

(** The bytes of the textual forms. *)
Definition addr4_byte (c : ascii) : bool := is_digit c || byte_eqb c ".".
Definition addr6_byte (c : ascii) : bool :=
  is_digit c || in_range "a" "f" c || byte_eqb c ":" || byte_eqb c ".".

(** Documented behaviour of [netip.ParseAddr] and [Addr.String]. *)
Class NetIPLaws `{NetIP} := {
  ParseAddr_wf s a : ParseAddr s = Some a -> a <> AddrInvalid /\ addr_wf a;
  ParseAddr_String4 v : 0 <= v < 2 ^ 32 -> ParseAddr (addr_String (Addr4 v)) = Some (Addr4 v);
  ParseAddr_String6 v : 0 <= v < 2 ^ 128 -> ParseAddr (addr_String (Addr6 v [])) = Some (Addr6 v []);
  String4_bytes v : 0 <= v < 2 ^ 32 ->
    addr_String (Addr4 v) <> [] /\ forallb addr4_byte (addr_String (Addr4 v)) = true;
  String6_bytes v : 0 <= v < 2 ^ 128 ->
    addr_String (Addr6 v []) <> [] /\ forallb addr6_byte (addr_String (Addr6 v [])) = true;
  (** The last label of dotted-decimal text is a decimal number, and IPv6 text
      contains a colon. *)
  ParseAddr4_text s v : ParseAddr s = Some (Addr4 v) ->
    exists prefix digits, s = prefix ++ digits /\ digits <> [] /\ forallb is_digit digits = true
      /\ (prefix = [] \/ exists p, prefix = p ++ ["."%char]);
  ParseAddr6_text s v zone : ParseAddr s = Some (Addr6 v zone) -> ":"%char ∈ s;
}.

(** ** Facts *)

(** Bits above the prefix agree exactly when the address lies in the block. *)
Lemma shiftr_lxor_zero a b n : 0 <= n -> (Z.shiftr (Z.lxor a b) n =? 0) = (a / 2 ^ n =? b / 2 ^ n).
Proof.
  intros Hn. rewrite Z.shiftr_lxor.
  rewrite <- !Z.shiftr_div_pow2 by done. destruct (Z.eqb_spec (Z.shiftr a n) (Z.shiftr b n)) as [->|Hne].
  - by rewrite Z.lxor_nilpotent.
  - apply Z.eqb_neq. by rewrite Z.lxor_eq_0_iff.
Qed.

(** An aligned block is an interval. *)
Lemma block_interval v base n : 0 <= n -> base mod 2 ^ n = 0 ->
  (v / 2 ^ n =? base / 2 ^ n) = (base <=? v) && (v <=? base + 2 ^ n - 1).
Proof.
  intros Hn Hb. assert (Hp : 0 < 2 ^ n) by (by apply Z.pow_pos_nonneg).
  pose proof (Z.div_mod base (2 ^ n) ltac:(lia)). pose proof (Z.div_mod v (2 ^ n) ltac:(lia)).
  pose proof (Z.mod_pos_bound v (2 ^ n) Hp).
  destruct (Z.eqb_spec (v / 2 ^ n) (base / 2 ^ n)) as [He|He].
  - rewrite He in *. lia.
  - destruct (Z.lt_trichotomy (v / 2 ^ n) (base / 2 ^ n)) as [Hl|[?|Hl]]; [|done|]; nia.
Qed.

Lemma land_mask6_zero x n : 0 <= n <= 128 -> 0 <= x < 2 ^ 128 ->
  (Z.land x (mask6 n) =? 0) = (Z.shiftr x (128 - n) =? 0).
Proof.
  intros Hn Hx. unfold mask6.
  assert (Hand : Z.land x (Z.shiftl (Z.ones n) (128 - n))
                 = Z.shiftl (Z.land (Z.shiftr x (128 - n)) (Z.ones n)) (128 - n)).
  { apply Z.bits_inj'. intros i Hi. rewrite Z.land_spec.
    destruct (Z.lt_ge_cases i (128 - n)) as [Hl|Hl].
    - rewrite !Z.shiftl_spec_low by done. by rewrite andb_false_r.
    - rewrite !Z.shiftl_spec, Z.land_spec, Z.shiftr_spec by lia.
      by replace (i - (128 - n) + (128 - n)) with i by lia. }
  assert (Hsmall : Z.land (Z.shiftr x (128 - n)) (Z.ones n) = Z.shiftr x (128 - n)).
  { rewrite Z.land_ones by lia. apply Z.mod_small. rewrite Z.shiftr_div_pow2 by lia.
    split; [apply Z.div_pos; [lia|apply Z.pow_pos_nonneg; lia]|].
    apply Z.div_lt_upper_bound; [apply Z.pow_pos_nonneg; lia|].
    rewrite <- Z.pow_add_r by lia. replace (128 - n + n) with 128 by lia. lia. }
  rewrite Hand, Hsmall. destruct (Z.eqb_spec (Z.shiftr x (128 - n)) 0) as [->|Hne].
  - by rewrite Z.shiftl_0_l.
  - apply Z.eqb_neq. intros H. apply Z.shiftl_eq_0_iff in H; lia.
Qed.

(** The interval an aligned prefix covers. *)
Definition prefix_range (p : Prefix) : Z * Z :=
  (prefix_base p, prefix_base p + 2 ^ (prefix_len p - prefix_bits p) - 1).

Definition prefix_ok (p : Prefix) : bool :=
  ((prefix_len p =? 32) || (prefix_len p =? 128))
  && (0 <=? prefix_bits p) && (prefix_bits p <=? prefix_len p)
  && (prefix_base p mod 2 ^ (prefix_len p - prefix_bits p) =? 0)
  && (0 <=? prefix_base p) && (prefix_base p <? 2 ^ prefix_len p).

Definition in_interval (i : Z * Z) (v : Z) : bool := (fst i <=? v) && (v <=? snd i).

Lemma prefix_Contains_interval p a :
  prefix_ok p = true -> addr_wf a -> addr_Zone a = [] -> a <> AddrInvalid ->
  prefix_Contains p a =
    (prefix_len p =? addr_BitLen a) && in_interval (prefix_range p) (addr_value a).
Proof.
  intros Hok Hwf Hz Hv. unfold prefix_ok in Hok. b2p. unfold prefix_Contains, in_interval, prefix_range.
  rewrite Hz. cbn [bytes_eqb negb fst snd].
  destruct (prefix_len p =? addr_BitLen a) eqn:Hlen; [|done]. cbn [negb andb].
  assert (Hl : prefix_len p = addr_BitLen a) by lia. destruct a as [|v|v zone]; [done| |]; simpl in Hl, Hwf.
  - rewrite Hl in *. rewrite shiftr_lxor_zero by lia. apply block_interval; lia.
  - rewrite Hl in *. rewrite land_mask6_zero; [|lia|].
    + rewrite shiftr_lxor_zero by lia. apply block_interval; lia.
    + split; [apply Z.lxor_nonneg; lia|].
      destruct (Z.eq_dec (Z.lxor v (prefix_base p)) 0) as [->|Hne]; [lia|].
      apply Z.log2_lt_pow2; [pose proof (proj2 (Z.lxor_nonneg v (prefix_base p)) ltac:(lia)); lia|].
      eapply Z.le_lt_trans; [apply Z.log2_lxor; lia|].
      destruct (Z.eq_dec v 0) as [->|], (Z.eq_dec (prefix_base p) 0) as [Hb0|];
        rewrite ?Hb0; cbn [Z.log2]; try lia;
        repeat match goal with
        | |- context [Z.log2 ?x] => lazymatch goal with
            | _ : Z.log2 x < 128 |- _ => fail
            | _ => assert (Z.log2 x < 128) by (apply Z.log2_lt_pow2; lia) end
        end; lia.
Qed.
