(* ===== verification/GoJson.v ===== *)
(** * JSON documents ([encoding/json/v2] as the program uses it)

    The scanner behind [json.Unmarshal] with duplicate names and invalid UTF-8
    rejected: RFC 8259 values, strings with their escapes decoded (unpaired
    surrogates are errors), objects with unique names, and the nesting limit of
    [jsontext]. The program unmarshals into raw member values only. *)

From S2P Require Import Prelude GoText.

Definition maxNestingDepth : Z := 10000.

(** The double quote. *)
Definition quote : ascii := "034".

Definition is_json_space (c : ascii) : bool :=
  (code c =? 32) || (code c =? 9) || (code c =? 10) || (code c =? 13).

Definition skip_space (s : bytes) : bytes := TrimLeftFunc is_json_space s.

Definition expect (c : ascii) (s : bytes) : option bytes :=
  match s with d :: s' => if byte_eqb d c then Some s' else None | [] => None end.

(** ** Strings *)

(** UTF-8 of a code point that is not a surrogate. *)
Definition utf8_encode (v : Z) : bytes :=
  if v <? 128 then [chr v]
  else if v <? 2048 then [chr (192 + v / 64); chr (128 + v mod 64)]
  else if v <? 65536
  then [chr (224 + v / 4096); chr (128 + (v / 64) mod 64); chr (128 + v mod 64)]
  else [chr (240 + v / 262144); chr (128 + (v / 4096) mod 64);
        chr (128 + (v / 64) mod 64); chr (128 + v mod 64)].

Definition hex_digit (c : ascii) : option Z :=
  if is_digit c then Some (code c - 48)
  else if in_range "a" "f" c then Some (code c - 87)
  else if in_range "A" "F" c then Some (code c - 55)
  else None.

(** Four hexadecimal digits. *)
Definition hex4 (s : bytes) : option (Z * bytes) :=
  match s with
  | a :: b :: c :: d :: rest =>
      match hex_digit a, hex_digit b, hex_digit c, hex_digit d with
      | Some va, Some vb, Some vc, Some vd => Some (((va * 16 + vb) * 16 + vc) * 16 + vd, rest)
      | _, _, _, _ => None
      end
  | _ => None
  end.

Definition is_high_surrogate (v : Z) : bool := (55296 <=? v) && (v <=? 56319).
Definition is_low_surrogate (v : Z) : bool := (56320 <=? v) && (v <=? 57343).

(** One escape after its backslash: the decoded bytes and the rest. *)
Definition scan_escape (s : bytes) : option (bytes * bytes) :=
  match s with
  | [] => None
  | e :: s' =>
      if byte_eqb e quote || byte_eqb e "\" || byte_eqb e "/" then Some ([e], s')
      else if byte_eqb e "b" then Some ([chr 8], s')
      else if byte_eqb e "f" then Some ([chr 12], s')
      else if byte_eqb e "n" then Some ([chr 10], s')
      else if byte_eqb e "r" then Some ([chr 13], s')
      else if byte_eqb e "t" then Some ([chr 9], s')
      else if byte_eqb e "u" then
        match hex4 s' with
        | None => None
        | Some (v, s1) =>
            if is_high_surrogate v then
              match s1 with
              | b :: u :: s2 =>
                  if byte_eqb b "\" && byte_eqb u "u" then
                    match hex4 s2 with
                    | Some (w, s3) =>
                        if is_low_surrogate w
                        then Some (utf8_encode (65536 + (v - 55296) * 1024 + (w - 56320)), s3)
                        else None
                    | None => None
                    end
                  else None
              | _ => None
              end
            else if is_low_surrogate v then None
            else Some (utf8_encode v, s1)
        end
      else None
  end.

(** The contents of a string after its opening quote, decoded, and what
    follows the closing quote; [length s] steps are enough. *)
Fixpoint scan_string_fuel (fuel : nat) (s : bytes) : option (bytes * bytes) :=
  match fuel, s with
  | S fuel', c :: s' =>
      if byte_eqb c quote then Some ([], s')
      else if byte_eqb c "\" then
        match scan_escape s' with
        | Some (d, s1) =>
            match scan_string_fuel fuel' s1 with
            | Some (decoded, rest) => Some (d ++ decoded, rest)
            | None => None
            end
        | None => None
        end
      else if code c <? 32 then None
      else
        match scan_string_fuel fuel' s' with
        | Some (decoded, rest) => Some (c :: decoded, rest)
        | None => None
        end
  | _, _ => None
  end.

Definition scan_string (s : bytes) : option (bytes * bytes) := scan_string_fuel (length s) s.

(** ** Numbers and literals *)

Fixpoint skip_digits (s : bytes) : bytes :=
  match s with c :: s' => if is_digit c then skip_digits s' else s | [] => [] end.

Definition starts_digit (s : bytes) : bool :=
  match s with c :: _ => is_digit c | [] => false end.

(** The integer part: [0], or a digit string that does not start with [0]. *)
Definition scan_integer (s : bytes) : option bytes :=
  match s with
  | c :: s' =>
      if byte_eqb c "0" then Some s'
      else if is_digit c then Some (skip_digits s') else None
  | [] => None
  end.

Definition scan_fraction (s : bytes) : option bytes :=
  match s with
  | c :: s' =>
      if byte_eqb c "." then (if starts_digit s' then Some (skip_digits s') else None) else Some s
  | [] => Some s
  end.

Definition scan_exponent (s : bytes) : option bytes :=
  match s with
  | c :: s' =>
      if byte_eqb c "e" || byte_eqb c "E" then
        let s'' := match s' with d :: t => if byte_eqb d "+" || byte_eqb d "-" then t else s' | [] => s' end in
        if starts_digit s'' then Some (skip_digits s'') else None
      else Some s
  | [] => Some s
  end.

Definition scan_number (s : bytes) : option bytes :=
  let s := match s with c :: s' => if byte_eqb c "-" then s' else s | [] => s end in
  match scan_integer s with
  | None => None
  | Some s1 => match scan_fraction s1 with None => None | Some s2 => scan_exponent s2 end
  end.

Definition scan_literal (word s : bytes) : option bytes :=
  if HasPrefix s word then Some (drop (length word) s) else None.

(** ** Values *)

(** The text before [rest]. *)
Definition consumed (s rest : bytes) : bytes := take (length s - length rest) s.

(** A member name, its colon and the position of its value. *)
Definition scan_name (s : bytes) : option (bytes * bytes) :=
  match expect quote s with
  | None => None
  | Some s1 =>
      match scan_string s1 with
      | None => None
      | Some (name, s2) =>
          match expect ":" (skip_space s2) with
          | None => None
          | Some s3 => Some (name, skip_space s3)
          end
      end
  end.

(** A value, the elements of an array up to its bracket, and the members of an
    object up to its brace with the names and raw values seen. Each recursive
    call is at a later position, so [2 * length s + 2] steps are enough. *)
Fixpoint scan_value (fuel : nat) (depth : Z) (s : bytes) {struct fuel} : option bytes :=
  match fuel, s with
  | S fuel', c :: s' =>
      if byte_eqb c "{" then
        if depth =? maxNestingDepth then None
        else
          match expect "}" (skip_space s') with
          | Some rest => Some rest
          | None => snd <$> scan_members fuel' (depth + 1) [] (skip_space s')
          end
      else if byte_eqb c "[" then
        if depth =? maxNestingDepth then None
        else
          match expect "]" (skip_space s') with
          | Some rest => Some rest
          | None => scan_elements fuel' (depth + 1) (skip_space s')
          end
      else if byte_eqb c quote then snd <$> scan_string s'
      else if byte_eqb c "t" then scan_literal (bs "true") s
      else if byte_eqb c "f" then scan_literal (bs "false") s
      else if byte_eqb c "n" then scan_literal (bs "null") s
      else scan_number s
  | _, _ => None
  end
with scan_elements (fuel : nat) (depth : Z) (s : bytes) {struct fuel} : option bytes :=
  match fuel with
  | O => None
  | S fuel' =>
      match scan_value fuel' depth s with
      | None => None
      | Some s1 =>
          match skip_space s1 with
          | c :: s2 =>
              if byte_eqb c "," then scan_elements fuel' depth (skip_space s2)
              else if byte_eqb c "]" then Some s2 else None
          | [] => None
          end
      end
  end
with scan_members (fuel : nat) (depth : Z) (seen : list (bytes * bytes)) (s : bytes) {struct fuel}
    : option (list (bytes * bytes) * bytes) :=
  match fuel with
  | O => None
  | S fuel' =>
      match scan_name s with
      | None => None
      | Some (name, s1) =>
          if bool_decide (name ∈ seen.*1) then None
          else
            match scan_value fuel' depth s1 with
            | None => None
            | Some s2 =>
                let seen := seen ++ [(name, consumed s1 s2)] in
                match skip_space s2 with
                | c :: s3 =>
                    if byte_eqb c "," then scan_members fuel' depth seen (skip_space s3)
                    else if byte_eqb c "}" then Some (seen, s3) else None
                | [] => None
                end
            end
      end
  end.

(** [json.Unmarshal] into a struct: the members of the one object of the
    document, with their raw values; [null] leaves the struct alone. *)
Definition unmarshal_object (data : bytes) : option (list (bytes * bytes)) :=
  let fuel := (2 * length data + 2)%nat in
  let s := skip_space data in
  let result :=
    match s with
    | c :: s' =>
        if byte_eqb c "{" then
          match expect "}" (skip_space s') with
          | Some rest => Some ([], rest)
          | None => scan_members fuel 1 [] (skip_space s')
          end
        else (fun rest => ([], rest)) <$> scan_literal (bs "null") s
    | [] => None
    end in
  match result with
  | Some (members, rest) => if bytes_eqb (skip_space rest) [] then Some members else None
  | None => None
  end.

(** The raw value of a member; empty when the document does not have it. *)
Definition member (name : bytes) (members : list (bytes * bytes)) : bytes :=
  match List.find (fun m => bytes_eqb (fst m) name) members with
  | Some (_, value) => value
  | None => []
  end.

(** ** The grammar *)

Definition spaces (w : bytes) : Prop := forallb is_json_space w = true.
Definition digits (d : bytes) : Prop := d <> [] /\ forallb is_digit d = true.

(** [number = [minus] int [frac] [exp]] *)
Definition int_part (n : bytes) : Prop :=
  n = bs "0" \/ exists c ds, n = c :: ds /\ is_digit c = true /\ c <> "0"%char /\ forallb is_digit ds = true.
Definition frac_part (n : bytes) : Prop := n = [] \/ exists ds, n = "."%char :: ds /\ digits ds.
Definition exp_part (n : bytes) : Prop :=
  n = [] \/ exists e sign ds, n = e :: sign ++ ds /\ (e = "e"%char \/ e = "E"%char)
    /\ (sign = [] \/ sign = bs "+" \/ sign = bs "-") /\ digits ds.
Definition jnumber (n : bytes) : Prop :=
  exists sign i f e, n = sign ++ i ++ f ++ e /\ (sign = [] \/ sign = bs "-")
    /\ int_part i /\ frac_part f /\ exp_part e.

(** The text of a string after its opening quote, and its decoded value. *)
Inductive jstring : bytes -> bytes -> Prop :=
| js_close : jstring [] [quote]
| js_char c decoded text :
    c <> quote -> c <> "\"%char -> 32 <= code c -> jstring decoded text -> jstring (c :: decoded) (c :: text)
| js_escape e d decoded text :
    scan_escape e = Some (d, []) -> jstring decoded text -> jstring (d ++ decoded) ("\"%char :: e ++ text).

(** Values, elements up to the closing bracket, and members (decoded name and
    raw value) up to the closing brace, with unique names in every object, at a
    given number of open containers. *)
Inductive jvalue : Z -> bytes -> Prop :=
| jv_true depth : jvalue depth (bs "true")
| jv_false depth : jvalue depth (bs "false")
| jv_null depth : jvalue depth (bs "null")
| jv_number depth n : jnumber n -> jvalue depth n
| jv_string depth decoded text : jstring decoded text -> jvalue depth (quote :: text)
| jv_empty_array depth w : depth <> maxNestingDepth -> spaces w -> jvalue depth ("["%char :: w ++ bs "]")
| jv_array depth w text :
    depth <> maxNestingDepth -> spaces w -> jelements (depth + 1) text -> jvalue depth ("["%char :: w ++ text)
| jv_empty_object depth w : depth <> maxNestingDepth -> spaces w -> jvalue depth ("{"%char :: w ++ bs "}")
| jv_object depth w ms text :
    depth <> maxNestingDepth -> spaces w -> jmembers (depth + 1) ms text -> NoDup ms.*1 ->
    jvalue depth ("{"%char :: w ++ text)
with jelements : Z -> bytes -> Prop :=
| je_last depth v w : jvalue depth v -> spaces w -> jelements depth (v ++ w ++ bs "]")
| je_more depth v w w' text :
    jvalue depth v -> spaces w -> spaces w' -> jelements depth text ->
    jelements depth (v ++ w ++ bs "," ++ w' ++ text)
with jmembers : Z -> list (bytes * bytes) -> bytes -> Prop :=
| jm_last depth name text w1 w2 v w3 :
    jstring name text -> spaces w1 -> spaces w2 -> jvalue depth v -> spaces w3 ->
    jmembers depth [(name, v)] (quote :: text ++ w1 ++ bs ":" ++ w2 ++ v ++ w3 ++ bs "}")
| jm_more depth name text w1 w2 v w3 w4 ms rest :
    jstring name text -> spaces w1 -> spaces w2 -> jvalue depth v -> spaces w3 -> spaces w4 ->
    jmembers depth ms rest ->
    jmembers depth ((name, v) :: ms)
      (quote :: text ++ w1 ++ bs ":" ++ w2 ++ v ++ w3 ++ bs "," ++ w4 ++ rest).

Scheme jvalue_mut := Minimality for jvalue Sort Prop
  with jelements_mut := Minimality for jelements Sort Prop
  with jmembers_mut := Minimality for jmembers Sort Prop.
Combined Scheme json_mut from jvalue_mut, jelements_mut, jmembers_mut.

(** ** Soundness of the scanner *)

Lemma skip_space_spec s : exists w, spaces w /\ s = w ++ skip_space s.
Proof.
  induction s as [|c s (w & Hw & Hs)]; [by exists []|]. unfold skip_space in *. cbn [TrimLeftFunc].
  destruct (is_json_space c) eqn:Hc.
  - exists (c :: w). split; [unfold spaces; cbn [forallb]; by rewrite Hc|]. cbn [app]. by f_equal.
  - by exists [].
Qed.

Lemma expect_spec c s rest : expect c s = Some rest -> s = c :: rest.
Proof. destruct s as [|d s]; [done|]. cbn [expect]. destruct (byte_eqb_spec d c) as [->|]; [|done]. by intros [= ->]. Qed.

Lemma skip_digits_spec s : exists ds, forallb is_digit ds = true /\ s = ds ++ skip_digits s.
Proof.
  induction s as [|c s (ds & Hd & Hs)]; [by exists []|]. cbn [skip_digits]. destruct (is_digit c) eqn:Hc.
  - exists (c :: ds). split; [cbn [forallb]; by rewrite Hc|]. cbn [app]. by f_equal.
  - by exists [].
Qed.

Lemma starts_digit_spec s : starts_digit s = true -> exists ds, digits ds /\ s = ds ++ skip_digits s.
Proof.
  destruct (skip_digits_spec s) as (ds & Hd & Hs). intros Hst. exists ds. split; [|done]. split; [|done].
  intros ->. destruct s as [|c s]; [done|]. cbn [starts_digit] in Hst. cbn [app skip_digits] in Hs.
  rewrite Hst in Hs. assert (length (c :: s) = length (skip_digits s)) as Hl by (by rewrite <- Hs).
  destruct (skip_digits_spec s) as (ds & _ & Hs'). apply (f_equal length) in Hs'. rewrite length_app in Hs'.
  cbn [length] in Hl. lia.
Qed.

Lemma scan_integer_spec s rest : scan_integer s = Some rest -> exists i, int_part i /\ s = i ++ rest.
Proof.
  destruct s as [|c s]; [done|]. cbn [scan_integer]. destruct (byte_eqb_spec c "0") as [->|Hne].
  - intros [= ->]. exists (bs "0"). split; [by left|done].
  - destruct (is_digit c) eqn:Hc; [|done]. intros [= <-]. destruct (skip_digits_spec s) as (ds & Hd & Hs).
    exists (c :: ds). split; [right; by exists c, ds|]. cbn [app]. by f_equal.
Qed.

Lemma scan_fraction_spec s rest : scan_fraction s = Some rest -> exists f, frac_part f /\ s = f ++ rest.
Proof.
  destruct s as [|c s]; [intros [= <-]; exists []; split; [by left|done]|]. cbn [scan_fraction].
  destruct (byte_eqb_spec c ".") as [->|Hne].
  - destruct (starts_digit s) eqn:Hst; [|done]. intros [= <-].
    destruct (starts_digit_spec s Hst) as (ds & Hd & Hs). exists ("."%char :: ds).
    split; [right; by exists ds|]. cbn [app]. by f_equal.
  - intros [= <-]. exists []. split; [by left|done].
Qed.

Lemma scan_exponent_spec s rest : scan_exponent s = Some rest -> exists e, exp_part e /\ s = e ++ rest.
Proof.
  destruct s as [|c s]; [intros [= <-]; exists []; split; [by left|done]|]. cbn [scan_exponent].
  destruct (byte_eqb c "e" || byte_eqb c "E") eqn:Hc; [|intros [= <-]; exists []; split; [by left|done]].
  assert (He : c = "e"%char \/ c = "E"%char)
    by (destruct (byte_eqb_spec c "e"), (byte_eqb_spec c "E"); auto; done).
  assert (Hsign : exists sign t, s = sign ++ t /\ (sign = [] \/ sign = bs "+" \/ sign = bs "-")
            /\ match s with d :: t => if byte_eqb d "+" || byte_eqb d "-" then t else s | [] => s end = t).
  { destruct s as [|d s]; [exists [], []; auto|].
    destruct (byte_eqb_spec d "+") as [->|]; [exists (bs "+"), s; auto|].
    destruct (byte_eqb_spec d "-") as [->|]; [exists (bs "-"), s; auto|]. exists [], (d :: s). auto. }
  destruct Hsign as (sign & t & -> & Hs & ->). cbv zeta. destruct (starts_digit t) eqn:Hst; [|done].
  intros [= <-]. destruct (starts_digit_spec t Hst) as (ds & Hd & Ht).
  exists (c :: sign ++ ds). split; [right; exists c, sign, ds; auto|].
  cbn [app]. rewrite <- app_assoc. by rewrite <- Ht.
Qed.

Lemma scan_number_spec s rest : scan_number s = Some rest -> exists n, jnumber n /\ s = n ++ rest.
Proof.
  unfold scan_number. intros Hscan.
  assert (Hsign : exists sign t, s = sign ++ t /\ (sign = [] \/ sign = bs "-")
            /\ match s with c :: s' => if byte_eqb c "-" then s' else s | [] => s end = t).
  { destruct s as [|c s]; [exists [], []; auto|].
    destruct (byte_eqb_spec c "-") as [->|]; [exists (bs "-"), s; auto|exists [], (c :: s); auto]. }
  destruct Hsign as (sign & t & -> & Hs & Ht). rewrite Ht in Hscan.
  destruct (scan_integer t) as [s1|] eqn:H1; [|done]. apply scan_integer_spec in H1 as (i & Hi & ->).
  destruct (scan_fraction s1) as [s2|] eqn:H2; [|done]. apply scan_fraction_spec in H2 as (f & Hf & ->).
  apply scan_exponent_spec in Hscan as (e & He & ->).
  exists (sign ++ i ++ f ++ e). split; [exists sign, i, f, e; auto|]. by rewrite <- !app_assoc.
Qed.

Lemma hex4_spec s v rest : hex4 s = Some (v, rest) -> exists h, s = h ++ rest /\ forall t, hex4 (h ++ t) = Some (v, t).
Proof.
  destruct s as [|a [|b [|c [|d s]]]]; try done. unfold hex4.
  repeat (case_head; [|done]). intros [= <- <-]. exists [a; b; c; d]. split; [done|].
  intros t. cbn [app]. by rewrite E, E0, E1, E2.
Qed.

Lemma scan_escape_spec s d rest :
  scan_escape s = Some (d, rest) -> exists e, s = e ++ rest /\ scan_escape e = Some (d, []).
Proof.
  destruct s as [|c s]; [done|]. unfold scan_escape at 1.
  assert (Hone : forall d', scan_escape [c] = Some (d', []) -> Some (d', s) = Some (d, rest) ->
            exists e, c :: s = e ++ rest /\ scan_escape e = Some (d, [])).
  { intros d' Hc [= -> ->]. by exists [c]. }
  unfold scan_escape in Hone at 1.
  repeat (case_head; [by apply Hone|]). case_head; [|done]. clear Hone.
  destruct (hex4 s) as [[v s1]|] eqn:Hv; [|done]. apply hex4_spec in Hv as (h & -> & Hh).
  destruct (is_high_surrogate v) eqn:Hhigh.
  - destruct s1 as [|b [|u s2]]; try done. destruct (byte_eqb b "\" && byte_eqb u "u") eqn:Hbu; [|done].
    destruct (hex4 s2) as [[w s3]|] eqn:Hw; [|done]. apply hex4_spec in Hw as (h' & -> & Hh').
    destruct (is_low_surrogate w) eqn:Hlow; [|done]. intros [= <- <-].
    exists (c :: h ++ b :: u :: h'). split; [cbn [app]; by rewrite <- !app_assoc|].
    unfold scan_escape. rewrite E, E0, E1, E2, E3, E4, E5.
    by rewrite Hh, Hhigh, Hbu, <- (app_nil_r h'), Hh', Hlow.
  - destruct (is_low_surrogate v) eqn:Hlow; [done|]. intros [= <- <-].
    exists (c :: h). split; [done|]. unfold scan_escape. by rewrite E, E0, E1, E2, E3, E4, E5, <- (app_nil_r h), Hh, Hhigh, Hlow.
Qed.

Lemma scan_string_spec s decoded rest :
  scan_string s = Some (decoded, rest) -> exists text, jstring decoded text /\ s = text ++ rest.
Proof.
  unfold scan_string. generalize (length s) as fuel. intros fuel. revert s decoded.
  induction fuel as [|fuel IH]; intros s decoded; [done|]. destruct s as [|c s]; [done|]. cbn [scan_string_fuel].
  destruct (byte_eqb_spec c quote) as [->|Hq]; [intros [= <- <-]; exists [quote]; split; [constructor|done]|].
  destruct (byte_eqb_spec c "\") as [->|Hb].
  - destruct (scan_escape s) as [[d s1]|] eqn:He; [|done]. apply scan_escape_spec in He as (e & -> & He).
    destruct (scan_string_fuel fuel s1) as [[dec r]|] eqn:Hs; [|done]. intros [= <- <-].
    apply IH in Hs as (text & Ht & ->). exists ("\"%char :: e ++ text).
    split; [by constructor|]. cbn [app]. by rewrite <- app_assoc.
  - destruct (Z.ltb_spec (code c) 32) as [|Hc]; [done|].
    destruct (scan_string_fuel fuel s) as [[dec r]|] eqn:Hs; [|done]. intros [= <- <-].
    apply IH in Hs as (text & Ht & ->). exists (c :: text). split; [by constructor|done].
Qed.

Lemma scan_literal_spec word s rest : scan_literal word s = Some rest -> s = word ++ rest.
Proof.
  unfold scan_literal. destruct (HasPrefix s word) eqn:Hp; [|done]. intros [= <-].
  apply HasPrefix_spec in Hp as [t ->]. by rewrite drop_app_length.
Qed.

Lemma scan_name_spec s name s1 : scan_name s = Some (name, s1) ->
  exists text w1 w2, jstring name text /\ spaces w1 /\ spaces w2
    /\ s = quote :: text ++ w1 ++ bs ":" ++ w2 ++ s1.
Proof.
  unfold scan_name. destruct (expect quote s) as [t|] eqn:Hq; [|done]. apply expect_spec in Hq as ->.
  destruct (scan_string t) as [[n t1]|] eqn:Hs; [|done]. apply scan_string_spec in Hs as (text & Ht & ->).
  destruct (expect ":" (skip_space t1)) as [t2|] eqn:Hc; [|done]. apply expect_spec in Hc.
  intros [= <- <-]. destruct (skip_space_spec t1) as (w1 & Hw1 & Ht1). destruct (skip_space_spec t2) as (w2 & Hw2 & Ht2).
  exists text, w1, w2. split_and!; [done|done|done|]. f_equal. f_equal. rewrite Ht1 at 1. f_equal.
  rewrite Hc. change (bs ":" ++ w2 ++ skip_space t2) with (":"%char :: (w2 ++ skip_space t2)). by rewrite <- Ht2.
Qed.

Lemma consumed_app (v rest : bytes) : consumed (v ++ rest) rest = v.
Proof.
  unfold consumed. rewrite length_app. replace (length v + length rest - length rest)%nat with (length v) by lia.
  apply take_app_length.
Qed.

(** What each scanner promises of the text it accepts. *)
Definition values_sound (fuel : nat) : Prop := forall depth s rest,
  scan_value fuel depth s = Some rest -> exists v, jvalue depth v /\ s = v ++ rest.
Definition elements_sound (fuel : nat) : Prop := forall depth s rest,
  scan_elements fuel depth s = Some rest -> exists t, jelements depth t /\ s = t ++ rest.
Definition members_sound (fuel : nat) : Prop := forall depth seen s all rest,
  scan_members fuel depth seen s = Some (all, rest) ->
  exists ms t, all = seen ++ ms /\ jmembers depth ms t /\ s = t ++ rest /\ (NoDup seen.*1 -> NoDup all.*1).

Lemma scan_value_sound fuel : elements_sound fuel -> members_sound fuel -> values_sound (S fuel).
Proof.
  intros IHe IHm. intros depth s rest. destruct s as [|c s]; [done|]. cbn [scan_value].
  destruct (skip_space_spec s) as (w & Hw & Hs).
  destruct (byte_eqb_spec c "{") as [->|_].
  { destruct (Z.eqb_spec depth maxNestingDepth); [done|]. destruct (expect "}" (skip_space s)) as [r|] eqn:He.
    - intros [= <-]. apply expect_spec in He. exists ("{"%char :: w ++ bs "}"). split; [by constructor|].
      cbn [app]. rewrite <- app_assoc. f_equal. rewrite Hs at 1. by rewrite He.
    - intros ([all r] & Hm & ->)%fmap_Some. cbn [snd]. apply IHm in Hm as (ms & t & -> & Hms & Ht & Hnd).
      exists ("{"%char :: w ++ t). cbn [app] in Hnd. split; [econstructor; [done|done|done|by apply Hnd, NoDup_nil_2]|].
      cbn [app]. rewrite <- app_assoc, <- Ht. by f_equal. }
  destruct (byte_eqb_spec c "[") as [->|_].
  { destruct (Z.eqb_spec depth maxNestingDepth); [done|]. destruct (expect "]" (skip_space s)) as [r|] eqn:He.
    - intros [= <-]. apply expect_spec in He. exists ("["%char :: w ++ bs "]"). split; [by constructor|].
      cbn [app]. rewrite <- app_assoc. f_equal. rewrite Hs at 1. by rewrite He.
    - intros (t & Ht & Hst)%IHe. exists ("["%char :: w ++ t). split; [by constructor|].
      cbn [app]. rewrite <- app_assoc, <- Hst. by f_equal. }
  destruct (byte_eqb_spec c quote) as [->|_].
  { intros ([d r] & Hstr & ->)%fmap_Some. apply scan_string_spec in Hstr as (text & Ht & ->).
    exists (quote :: text). split; [by econstructor|done]. }
  repeat (case_head; [intros ->%scan_literal_spec; eexists; split; [|reflexivity]; constructor|]).
  intros (n & Hn & ->)%scan_number_spec. exists n. split; [by constructor|done].
Qed.

Lemma scan_elements_sound fuel : values_sound fuel -> elements_sound fuel -> elements_sound (S fuel).
Proof.
  intros IHv IHe. intros depth s rest. cbn [scan_elements]. destruct (scan_value fuel depth s) as [s1|] eqn:Hv; [|done].
  apply IHv in Hv as (v & Hv & ->). destruct (skip_space_spec s1) as (w & Hw & Hs1).
  destruct (skip_space s1) as [|c s2]; [done|]. destruct (byte_eqb_spec c ",") as [->|_].
  + destruct (skip_space_spec s2) as (w' & Hw' & Hs2). intros (t & Ht & Hst)%IHe.
    exists (v ++ w ++ bs "," ++ w' ++ t). split; [by constructor|]. rewrite Hs1, <- !app_assoc. do 2 f_equal.
    cbn [app bs]. f_equal. by rewrite <- Hst.
  + destruct (byte_eqb_spec c "]") as [->|]; [|done]. intros [= <-].
    exists (v ++ w ++ bs "]"). split; [by constructor|]. rewrite Hs1. by rewrite <- !app_assoc.
Qed.

Lemma scan_members_sound fuel : values_sound fuel -> members_sound fuel -> members_sound (S fuel).
Proof.
  intros IHv IHm. intros depth seen s all rest. cbn [scan_members].
  destruct (scan_name s) as [[name s1]|] eqn:Hname; [|done].
  apply scan_name_spec in Hname as (text & w1 & w2 & Htext & Hw1 & Hw2 & ->).
  case_bool_decide as Hnin; [done|]. destruct (scan_value fuel depth s1) as [s2|] eqn:Hv; [|done].
  apply IHv in Hv as (v & Hv & ->). cbv zeta. rewrite consumed_app.
  assert (Hnd : NoDup seen.*1 -> NoDup (seen ++ [(name, v)]).*1).
  { intros Hseen. rewrite fmap_app. apply NoDup_app. split_and!; [done| |apply NoDup_singleton].
    intros x Hx ->%list_elem_of_singleton. done. }
  destruct (skip_space_spec s2) as (w3 & Hw3 & Hs2). destruct (skip_space s2) as [|c s3]; [done|].
  destruct (byte_eqb_spec c ",") as [->|_].
  + destruct (skip_space_spec s3) as (w4 & Hw4 & Hs3).
    intros (ms & t & -> & Hms & Ht & Hall)%IHm. exists ((name, v) :: ms).
    exists (quote :: text ++ w1 ++ bs ":" ++ w2 ++ v ++ w3 ++ bs "," ++ w4 ++ t).
    split_and!; [by rewrite <- app_assoc|by constructor| |auto].
    rewrite Hs2, Hs3, Ht. cbn [app bs]. by repeat (rewrite <- app_assoc; cbn [app]).
  + destruct (byte_eqb_spec c "}") as [->|]; [|done]. intros [= <- <-]. exists [(name, v)].
    exists (quote :: text ++ w1 ++ bs ":" ++ w2 ++ v ++ w3 ++ bs "}").
    split_and!; [done|by constructor| |auto]. rewrite Hs2. cbn [app bs]. by repeat (rewrite <- app_assoc; cbn [app]).
Qed.

Lemma scan_spec fuel : values_sound fuel /\ elements_sound fuel /\ members_sound fuel.
Proof.
  induction fuel as [|fuel (IHv & IHe & IHm)]; [done|].
  split; [|split]; [by apply scan_value_sound|by apply scan_elements_sound|by apply scan_members_sound].
Qed.

(** The documents [unmarshal_object] accepts. *)
Inductive document : list (bytes * bytes) -> bytes -> Prop :=
| doc_null w w' : spaces w -> spaces w' -> document [] (w ++ bs "null" ++ w')
| doc_empty w w1 w' : spaces w -> spaces w1 -> spaces w' ->
    document [] (w ++ bs "{" ++ w1 ++ bs "}" ++ w')
| doc_members w w1 ms text w' : spaces w -> spaces w1 -> spaces w' -> jmembers 1 ms text -> NoDup ms.*1 ->
    document ms (w ++ bs "{" ++ w1 ++ text ++ w').

Lemma unmarshal_object_sound data ms : unmarshal_object data = Some ms -> document ms data.
Proof.
  unfold unmarshal_object. cbv zeta. destruct (skip_space_spec data) as (w & Hw & Hdata).
  assert (Hend : forall rest, (if bytes_eqb (skip_space rest) [] then true else false) = true -> spaces rest).
  { intros rest. destruct (bytes_eqb_spec (skip_space rest) []) as [He|]; [|done]. intros _.
    destruct (skip_space_spec rest) as (w' & Hw' & ->). by rewrite He, app_nil_r. }
  generalize (2 * length data + 2)%nat as fuel. intros fuel.
  destruct (skip_space data) as [|c s]; [done|]. destruct (byte_eqb_spec c "{") as [->|_].
  - destruct (skip_space_spec s) as (w1 & Hw1 & Hs). destruct (expect "}" (skip_space s)) as [rest|] eqn:He.
    + apply expect_spec in He. specialize (Hend rest). destruct (bytes_eqb _ _); [|done]. intros [= <-].
      rewrite Hdata, Hs, He. by constructor; auto.
    + destruct (scan_members fuel 1 [] (skip_space s)) as [[all rest]|] eqn:Hm; [|done].
      apply scan_spec in Hm as (ms' & t & -> & Hms & Ht & Hnd). specialize (Hend rest).
      destruct (bytes_eqb _ _); [|done]. intros [= <-]. rewrite Hdata, Hs, Ht.
      constructor; auto. apply Hnd, NoDup_nil_2.
  - destruct (scan_literal (bs "null") (c :: s)) as [rest|] eqn:Hl; [|done]. apply scan_literal_spec in Hl.
    cbn [fmap option_fmap option_map]. specialize (Hend rest). destruct (bytes_eqb _ _); [|done]. intros [= <-].
    rewrite Hdata, Hl. by constructor; auto.
Qed.

(** ** Completeness of the scanner *)

(** A byte that starts no white space, and one that cannot extend a number. *)
Definition head_ok (f : ascii -> bool) (s : bytes) : Prop :=
  match s with c :: _ => f c = true | [] => True end.
Definition nonspace (c : ascii) : bool := negb (is_json_space c).
Definition number_byte (c : ascii) : bool :=
  is_digit c || byte_eqb c "." || byte_eqb c "e" || byte_eqb c "E".
Definition delimiter (c : ascii) : bool := negb (number_byte c).

Lemma skip_space_app w s : spaces w -> head_ok nonspace s -> skip_space (w ++ s) = s.
Proof.
  intros Hw Hs. induction w as [|c w IH].
  - destruct s as [|c s]; [done|]. cbn [app]. unfold skip_space. cbn [TrimLeftFunc]. unfold head_ok, nonspace in Hs.
    by destruct (is_json_space c).
  - unfold spaces in Hw. cbn [forallb] in Hw. b2p. unfold skip_space in *. cbn [app TrimLeftFunc].
    by rewrite H, IH.
Qed.

Lemma skip_digits_app ds s : forallb is_digit ds = true -> head_ok (fun c => negb (is_digit c)) s ->
  skip_digits (ds ++ s) = s.
Proof.
  intros Hd Hs. induction ds as [|c ds IH]; cbn [app].
  - destruct s as [|c s]; [done|]. cbn [skip_digits]. unfold head_ok in Hs. by destruct (is_digit c).
  - cbn [forallb] in Hd. b2p. cbn [skip_digits]. by rewrite H, IH.
Qed.

Lemma starts_digit_app ds s : digits ds -> starts_digit (ds ++ s) = true.
Proof. intros [Hne Hd]. destruct ds as [|c ds]; [done|]. cbn [forallb] in Hd. by b2p. Qed.

Lemma delimiter_nondigit s : head_ok delimiter s -> head_ok (fun c => negb (is_digit c)) s.
Proof. destruct s as [|c s]; [done|]. unfold head_ok, delimiter, number_byte. by destruct (is_digit c). Qed.

Lemma scan_exponent_app e s : exp_part e -> head_ok delimiter s -> scan_exponent (e ++ s) = Some s.
Proof.
  intros [->|(c & sign & ds & -> & Hc & Hsign & Hd)] Hs.
  - cbn [app]. destruct s as [|c s]; [done|]. cbn [scan_exponent]. unfold head_ok, delimiter, number_byte in Hs.
    b2p. by replace (byte_eqb c "e" || byte_eqb c "E") with false by (symmetry; apply orb_false_iff; auto).
  - cbn [app]. rewrite <- app_assoc. cbn [scan_exponent].
    replace (byte_eqb c "e" || byte_eqb c "E") with true by (by destruct Hc as [->| ->]).
    assert (Ht : match sign ++ ds ++ s with
                 | d :: t => if byte_eqb d "+" || byte_eqb d "-" then t else sign ++ ds ++ s
                 | [] => sign ++ ds ++ s end = ds ++ s).
    { destruct Hsign as [->|[->| ->]]; [|done|done]. cbn [app]. destruct Hd as [Hne Hd].
      destruct ds as [|d ds]; [done|]. cbn [forallb app] in *. b2p.
      by destruct (is_digit_not_sign d) as [-> ->]. }
    rewrite Ht. cbv zeta. rewrite starts_digit_app by done. f_equal.
    apply skip_digits_app; [by destruct Hd|by apply delimiter_nondigit].
Qed.

Lemma exp_part_head e s : exp_part e -> head_ok delimiter s ->
  head_ok (fun c => negb (is_digit c) && negb (byte_eqb c ".")) (e ++ s).
Proof.
  intros [->|(c & sign & ds & -> & [->| ->] & _)] Hs; [|done|done]. cbn [app]. destruct s as [|c s]; [done|].
  unfold head_ok, delimiter, number_byte in *. b2p. apply andb_true_iff. split; by apply negb_true_iff.
Qed.

Lemma scan_fraction_app f e s : frac_part f -> exp_part e -> head_ok delimiter s ->
  scan_fraction (f ++ e ++ s) = Some (e ++ s)
  /\ head_ok (fun c => negb (is_digit c)) (f ++ e ++ s).
Proof.
  intros Hf He Hs. pose proof (exp_part_head e s He Hs) as Hh.
  destruct Hf as [->|(ds & -> & Hd)].
  - cbn [app]. destruct (e ++ s) as [|c t]; [done|]. cbn [head_ok scan_fraction] in *. b2p.
    rewrite H, H0. done.
  - split; [|done]. cbn [app scan_fraction byte_eqb]. change (byte_eqb "." ".") with true. cbv iota.
    rewrite starts_digit_app by done. f_equal. apply skip_digits_app; [by destruct Hd|].
    destruct (e ++ s) as [|c t]; [done|]. cbn [head_ok] in *. b2p. by apply negb_true_iff.
Qed.

Lemma scan_number_app n s : jnumber n -> head_ok delimiter s -> scan_number (n ++ s) = Some s.
Proof.
  intros (sign & i & f & e & -> & Hsign & Hi & Hf & He) Hs. unfold scan_number.
  destruct (scan_fraction_app f e s Hf He Hs) as [Hfrac Hhead].
  assert (Hint : scan_integer (i ++ f ++ e ++ s) = Some (f ++ e ++ s)).
  { destruct Hi as [->|(c & ds & -> & Hc & Hne & Hd)]; [done|]. cbn [app scan_integer].
    destruct (byte_eqb_spec c "0"); [done|]. rewrite Hc. f_equal. by apply skip_digits_app. }
  assert (Hminus : match (sign ++ i ++ f ++ e) ++ s with
                   | c :: s' => if byte_eqb c "-" then s' else (sign ++ i ++ f ++ e) ++ s
                   | [] => (sign ++ i ++ f ++ e) ++ s end = i ++ f ++ e ++ s).
  { rewrite <- !app_assoc. destruct Hsign as [->| ->]; [|done]. cbn [app].
    destruct Hi as [->|(c & ds & -> & Hc & Hne & Hd)]; [done|]. cbn [app].
    by destruct (is_digit_not_sign c Hc) as [_ ->]. }
  rewrite Hminus, Hint, Hfrac. by apply scan_exponent_app.
Qed.

Lemma hex4_app h v t r : hex4 h = Some (v, r) -> hex4 (h ++ t) = Some (v, r ++ t).
Proof.
  destruct h as [|a [|b [|c [|d h]]]]; try done. unfold hex4. cbn [app].
  repeat (case_head; [|done]). by intros [= <- <-].
Qed.

Lemma scan_escape_app e d t : scan_escape e = Some (d, []) -> scan_escape (e ++ t) = Some (d, t).
Proof.
  destruct e as [|c e]; [done|]. cbn [app]. unfold scan_escape.
  repeat (case_head; [intros [= <- ->]; by rewrite ?app_nil_r|]).
  case_head; [|done]. destruct (hex4 e) as [[v s1]|] eqn:Hv; [|done].
  rewrite (hex4_app _ _ t _ Hv). case_head.
  - destruct s1 as [|b [|u s2]]; try done. cbn [app]. case_head; [|done].
    destruct (hex4 s2) as [[w s3]|] eqn:Hw; [|done]. rewrite (hex4_app _ _ t _ Hw).
    case_head; [|done]. by intros [= <- ->].
  - case_head; [done|]. by intros [= <- ->].
Qed.

Lemma scan_string_app d text rest : jstring d text -> scan_string (text ++ rest) = Some (d, rest).
Proof.
  intros Hs. unfold scan_string. assert (Hle : (length text <= length (text ++ rest))%nat) by (rewrite length_app; lia).
  revert Hle. generalize (length (text ++ rest)) as fuel.
  induction Hs as [|c d text Hq Hb Hc _ IH|e d' d text He _ IH]; intros fuel Hf.
  - destruct fuel as [|fuel]; [cbn in Hf; lia|]. done.
  - destruct fuel as [|fuel]; [cbn in Hf; lia|]. cbn [app scan_string_fuel length] in *.
    destruct (byte_eqb_spec c quote); [done|]. destruct (byte_eqb_spec c "\"); [done|].
    replace (code c <? 32) with false by lia. by rewrite IH by lia.
  - destruct fuel as [|fuel]; [cbn in Hf; lia|]. cbn [app scan_string_fuel length] in *.
    change (byte_eqb "\" quote) with false. change (byte_eqb "\" "\") with true. cbv iota.
    rewrite <- app_assoc, (scan_escape_app _ _ _ He). rewrite length_app in Hf. by rewrite IH by lia.
Qed.

Lemma head_ok_spaces w c s : spaces w -> delimiter c = true -> head_ok delimiter (w ++ c :: s).
Proof.
  intros Hw Hc. destruct w as [|d w]; [done|]. unfold spaces in Hw. cbn [forallb app head_ok] in *. b2p.
  unfold delimiter, number_byte, is_digit, in_range, byte_eqb, is_json_space in *.
  change (code "0") with 48. change (code "9") with 57. change (code ".") with 46.
  change (code "e") with 101. change (code "E") with 69. lia.
Qed.

(** The first byte of a value. *)
Definition value_head (c : ascii) : bool := nonspace c && negb (byte_eqb c "]").

Lemma digit_value_head c : is_digit c = true -> value_head c = true.
Proof.
  unfold value_head, nonspace, is_json_space, is_digit, in_range, byte_eqb.
  change (code "0") with 48. change (code "9") with 57. change (code "]") with 93. lia.
Qed.

Lemma jnumber_head n : jnumber n -> exists c t, n = c :: t /\ (c = "-"%char \/ is_digit c = true).
Proof.
  intros (sign & i & f & e & -> & [->| ->] & Hi & _); [|eauto].
  destruct Hi as [->|(c & ds & -> & Hc & _)]; eauto.
Qed.

Lemma jvalue_head depth v : jvalue depth v -> exists c t, v = c :: t /\ value_head c = true.
Proof.
  destruct 1; try (eexists _, _; split; [reflexivity|by vm_compute]).
  apply jnumber_head in H as (c & t & -> & [->|Hc]); eexists _, _; (split; [reflexivity|]); [done|].
  by apply digit_value_head.
Qed.

Lemma number_dispatch c s fuel depth :
  c = "-"%char \/ is_digit c = true -> scan_value (S fuel) depth (c :: s) = scan_number (c :: s).
Proof.
  intros Hc. cbn [scan_value].
  assert (Hne : forall d, is_digit d = false -> d <> "-"%char -> byte_eqb c d = false).
  { intros d Hd Hm. destruct (byte_eqb_spec c d) as [->|]; [|done]. destruct Hc; congruence. }
  by rewrite !Hne by done.
Qed.

Lemma scan_name_app name text w1 w2 s :
  jstring name text -> spaces w1 -> spaces w2 -> head_ok nonspace s ->
  scan_name (quote :: text ++ w1 ++ bs ":" ++ w2 ++ s) = Some (name, s).
Proof.
  intros Hn Hw1 Hw2 Hs. unfold scan_name. cbn [expect]. change (byte_eqb quote quote) with true. cbv iota.
  rewrite (scan_string_app _ _ _ Hn), (skip_space_app w1 (bs ":" ++ w2 ++ s)) by done.
  cbn [expect bs app]. change (byte_eqb ":" ":") with true. cbv iota. by rewrite skip_space_app.
Qed.

Lemma value_head_nonspace c s : value_head c = true -> head_ok nonspace (c :: s).
Proof. unfold value_head. intros H. by b2p. Qed.

Lemma scan_literal_app word rest : scan_literal word (word ++ rest) = Some rest.
Proof.
  unfold scan_literal. rewrite (proj2 (HasPrefix_spec _ _)) by (by exists rest). by rewrite drop_app_length.
Qed.

Lemma expect_other c d s : c <> d -> expect c (d :: s) = None.
Proof. intros Hne. cbn [expect]. by destruct (byte_eqb_spec d c) as [->|]. Qed.

(** One step of the scanner at the head of a container. *)
Lemma scan_value_array fuel depth w s : depth <> maxNestingDepth -> spaces w -> head_ok nonspace s ->
  scan_value (S fuel) depth ("["%char :: w ++ s)
  = match expect "]" s with Some rest => Some rest | None => scan_elements fuel (depth + 1) s end.
Proof.
  intros Hd Hw Hs. cbn [scan_value]. change (byte_eqb "[" "{") with false. change (byte_eqb "[" "[") with true.
  cbv iota. destruct (Z.eqb_spec depth maxNestingDepth); [done|]. by rewrite skip_space_app.
Qed.

Lemma scan_value_object fuel depth w s : depth <> maxNestingDepth -> spaces w -> head_ok nonspace s ->
  scan_value (S fuel) depth ("{"%char :: w ++ s)
  = match expect "}" s with Some rest => Some rest | None => snd <$> scan_members fuel (depth + 1) [] s end.
Proof.
  intros Hd Hw Hs. cbn [scan_value]. change (byte_eqb "{" "{") with true.
  cbv iota. destruct (Z.eqb_spec depth maxNestingDepth); [done|]. by rewrite skip_space_app.
Qed.

Definition value_complete (depth : Z) (v : bytes) : Prop :=
  forall fuel rest, (2 * length v <= fuel)%nat -> head_ok delimiter rest ->
  scan_value fuel depth (v ++ rest) = Some rest.
Definition elements_complete (depth : Z) (t : bytes) : Prop :=
  (exists c s, t = c :: s /\ value_head c = true)
  /\ forall fuel rest, (2 * length t <= fuel)%nat -> scan_elements fuel depth (t ++ rest) = Some rest.
Definition members_complete (depth : Z) (ms : list (bytes * bytes)) (t : bytes) : Prop :=
  (exists s, t = quote :: s)
  /\ forall fuel seen rest, (2 * length t <= fuel)%nat -> NoDup (seen.*1 ++ ms.*1) ->
     scan_members fuel depth seen (t ++ rest) = Some (seen ++ ms, rest).

Lemma array_complete depth w t : depth <> maxNestingDepth -> spaces w -> elements_complete (depth + 1) t ->
  value_complete depth ("["%char :: w ++ t).
Proof.
  intros Hd Hw [(c & s & -> & Hc) Hall] fuel rest Hf _. destruct fuel as [|fuel]; [cbn in Hf; lia|].
  cbn [app]. rewrite <- app_assoc, scan_value_array by (done || by apply value_head_nonspace).
  cbn [app]. rewrite expect_other; [apply (Hall fuel rest); cbn [length] in *; rewrite length_app in Hf; cbn [length] in Hf; lia|].
  intros <-. done.
Qed.

Lemma object_complete depth w ms t : depth <> maxNestingDepth -> spaces w -> members_complete (depth + 1) ms t ->
  NoDup ms.*1 -> value_complete depth ("{"%char :: w ++ t).
Proof.
  intros Hd Hw [(s & ->) Hall] Hnd fuel rest Hf _. destruct fuel as [|fuel]; [cbn in Hf; lia|].
  cbn [app]. rewrite <- app_assoc, scan_value_object by done.
  cbn [app]. rewrite expect_other by done.
  change (quote :: s ++ rest) with ((quote :: s) ++ rest).
  rewrite Hall; [done|cbn [length] in *; rewrite length_app in Hf; cbn [length] in Hf; lia|done].
Qed.

Lemma elements_step depth v w c s fuel : value_complete depth v -> spaces w ->
  delimiter c = true -> nonspace c = true -> (2 * length v <= fuel)%nat ->
  scan_elements (S fuel) depth (v ++ w ++ c :: s)
  = if byte_eqb c "," then scan_elements fuel depth (skip_space s)
    else if byte_eqb c "]" then Some s else None.
Proof.
  intros Hv Hw Hc Hn Hf. cbn [scan_elements]. rewrite Hv; [|done|by apply head_ok_spaces].
  by rewrite skip_space_app.
Qed.

Lemma members_step depth name text w1 w2 v w3 c s fuel seen :
  jstring name text -> spaces w1 -> spaces w2 -> value_complete depth v -> spaces w3 ->
  (exists c' t, v = c' :: t /\ value_head c' = true) ->
  delimiter c = true -> nonspace c = true -> (2 * length v <= fuel)%nat -> name ∉ seen.*1 ->
  scan_members (S fuel) depth seen (quote :: text ++ w1 ++ bs ":" ++ w2 ++ v ++ w3 ++ c :: s)
  = if byte_eqb c "," then scan_members fuel depth (seen ++ [(name, v)]) (skip_space s)
    else if byte_eqb c "}" then Some (seen ++ [(name, v)], s) else None.
Proof.
  intros Hname Hw1 Hw2 Hv Hw3 (c' & t & Hvt & Hhead) Hc Hn Hf Hnin. cbn [scan_members].
  rewrite (scan_name_app name text w1 w2 (v ++ w3 ++ c :: s));
    [|done|done|done|rewrite Hvt; by apply value_head_nonspace].
  rewrite bool_decide_eq_false_2 by done. rewrite Hv; [|done|by apply head_ok_spaces].
  cbv zeta. rewrite consumed_app. by rewrite skip_space_app.
Qed.

(** Text of one more member, in the shape of [members_step]. *)
Ltac reassoc := cbn [app bs]; repeat (rewrite <- app_assoc; cbn [app bs]).

Lemma nodup_cons_notin {A} (l k : list A) x : NoDup (l ++ x :: k) -> x ∉ l.
Proof. intros (_ & Hd & _)%NoDup_app Hin. apply (Hd x Hin). by left. Qed.

Lemma scan_complete :
  (forall depth v, jvalue depth v -> value_complete depth v)
  /\ (forall depth t, jelements depth t -> elements_complete depth t)
  /\ (forall depth ms t, jmembers depth ms t -> members_complete depth ms t).
Proof.
  assert (Hheads : forall depth v, jvalue depth v -> exists c t, v = c :: t /\ value_head c = true)
    by (intros; by eapply jvalue_head).
  apply json_mut.
  1-3: intros depth [|fuel] rest Hf _; [cbn in Hf; lia|]; apply scan_literal_app.
  - intros depth n Hn fuel rest Hf Hr. pose proof (jnumber_head n Hn) as (c & t & -> & Hc).
    destruct fuel as [|fuel]; [cbn in Hf; lia|]. cbn [app]. rewrite number_dispatch by done.
    by apply (scan_number_app (c :: t)).
  - intros depth d text Hs [|fuel] rest Hf _; [cbn in Hf; lia|]. cbn [app scan_value].
    change (byte_eqb quote "{") with false. change (byte_eqb quote "[") with false.
    change (byte_eqb quote quote) with true. cbv iota. by rewrite (scan_string_app _ _ _ Hs).
  - intros depth w Hd Hw [|fuel] rest Hf _; [cbn in Hf; lia|]. reassoc. by rewrite scan_value_array.
  - intros depth w text Hd Hw _ IH. by apply array_complete.
  - intros depth w Hd Hw [|fuel] rest Hf _; [cbn in Hf; lia|]. reassoc. by rewrite scan_value_object.
  - intros depth w ms text Hd Hw _ IH Hnd. by eapply object_complete.
  - intros depth v w Hv IH Hw. destruct (Hheads _ _ Hv) as (c & s & Hvs & Hc). split.
    + exists c, (s ++ w ++ bs "]"). by rewrite Hvs.
    + intros [|fuel] rest Hf; [rewrite Hvs in Hf; cbn in Hf; lia|]. reassoc.
      rewrite !length_app in Hf. cbn [length bs] in Hf. rewrite elements_step by (done || lia). done.
  - intros depth v w w' text Hv IH Hw Hw' _ [(ct & st & -> & Hct) IHe]. destruct (Hheads _ _ Hv) as (c & s & Hvs & Hc). split.
    + exists c, (s ++ w ++ bs "," ++ w' ++ ct :: st). by rewrite Hvs.
    + intros [|fuel] rest Hf; [rewrite Hvs in Hf; cbn in Hf; lia|]. rewrite !length_app in Hf. cbn [length bs] in Hf.
      reassoc. rewrite elements_step by (done || lia). change (byte_eqb "," ",") with true. cbv iota.
      rewrite skip_space_app by (done || by apply value_head_nonspace).
      apply (IHe fuel rest). cbn [length]. lia.
  - intros depth name text w1 w2 v w3 Hname Hw1 Hw2 Hv IH Hw3. split; [by eexists|].
    intros [|fuel] seen rest Hf Hnd; [cbn in Hf; lia|]. cbn [length] in Hf. rewrite !length_app in Hf.
    reassoc. cbn [fmap list_fmap fst] in Hnd. apply nodup_cons_notin in Hnd.
    pose proof (members_step depth name text w1 w2 v w3 "}" rest fuel seen) as Hstep. cbn [bs app] in Hstep.
    by rewrite Hstep by (done || (by eauto) || lia).
  - intros depth name text w1 w2 v w3 w4 ms r Hname Hw1 Hw2 Hv IH Hw3 Hw4 _ [(s & ->) IHm]. split; [by eexists|].
    intros [|fuel] seen rest Hf Hnd; [cbn in Hf; lia|]. cbn [length] in Hf. rewrite !length_app in Hf. cbn [length bs] in Hf.
    reassoc. cbn [fmap list_fmap fst] in Hnd. pose proof (nodup_cons_notin _ _ _ Hnd) as Hnin.
    pose proof (members_step depth name text w1 w2 v w3 "," (w4 ++ quote :: s ++ rest) fuel seen) as Hstep.
    cbn [bs app] in Hstep. rewrite Hstep by (done || (by eauto) || lia).
    change (byte_eqb "," ",") with true. cbv iota. rewrite skip_space_app by done.
    change (quote :: s ++ rest) with ((quote :: s) ++ rest). rewrite IHm; [by rewrite <- app_assoc|cbn [length]; lia|].
    rewrite fmap_app. cbn [fmap list_fmap fst]. by rewrite <- app_assoc.
Qed.

(** The scanner decides the grammar. *)
Lemma unmarshal_object_correct data ms : unmarshal_object data = Some ms <-> document ms data.
Proof.
  split; [apply unmarshal_object_sound|]. intros Hdoc. unfold unmarshal_object. cbv zeta.
  assert (Hend : forall w, spaces w -> bytes_eqb (skip_space w) [] = true)
    by (intros w Hw; pose proof (skip_space_app w [] Hw I) as Hs; rewrite app_nil_r in Hs; by rewrite Hs).
  destruct Hdoc as [w w' Hw Hw'|w w1 w' Hw Hw1 Hw'|w w1 ms text w' Hw Hw1 Hw' Hm Hnd].
  - rewrite skip_space_app by done. cbn [bs app]. change (byte_eqb "n" "{") with false. cbv iota.
    pose proof (scan_literal_app (bs "null") w') as Hl. cbn [bs app] in Hl. rewrite Hl.
    cbn [fmap option_fmap option_map]. by rewrite Hend.
  - rewrite skip_space_app by done. cbn [bs app]. change (byte_eqb "{" "{") with true. cbv iota.
    rewrite skip_space_app by done. cbn [expect]. change (byte_eqb "}" "}") with true. cbv iota. by rewrite Hend.
  - rewrite skip_space_app by done. cbn [bs app]. change (byte_eqb "{" "{") with true. cbv iota.
    destruct (proj2 (proj2 scan_complete) _ _ _ Hm) as [(s & ->) Hscan].
    rewrite skip_space_app by done. cbn [app]. rewrite expect_other by done.
    change (quote :: s ++ w') with ((quote :: s) ++ w'). rewrite Hscan; [by rewrite Hend| |done].
    rewrite !length_app. cbn [length]. rewrite !length_app. cbn [length]. lia.
Qed.
