(* ===== verification/GoTime.v ===== *)
(** * Instants as text ([time.Time.Format] with [time.RFC3339Nano])

    The proleptic Gregorian calendar as the [time] package computes it, the
    RFC 3339 text of an instant in UTC, and the parser as an interface with
    the law the program relies on: it reads back what [Format] writes. *)

From S2P Require Import Prelude GoText.

(** ** The calendar

    Years that begin in March have their leap day at the end; 400 of them are
    146097 days. Day 0 is January 1 of the year 1. *)

(** [lia] with the equations of quotients and remainders *)
Ltac divlia := Z.to_euclidean_division_equations; lia.

Definition days_before_epoch : Z := 306.

Record civil : Type := mkCivil { civil_year : Z; civil_month : Z; civil_day : Z }.

Definition year_of_era (doe : Z) : Z := (doe - doe / 1460 + doe / 36524 - doe / 146096) / 365.
Definition day_of_year (doe : Z) : Z := let yoe := year_of_era doe in doe - (365 * yoe + yoe / 4 - yoe / 100).

Definition civil_of_days (n : Z) : civil :=
  let z := n + days_before_epoch in
  let era := z / 146097 in
  let doe := z mod 146097 in
  let doy := day_of_year doe in
  let mp := (5 * doy + 2) / 153 in
  let m := if mp <? 10 then mp + 3 else mp - 9 in
  mkCivil (year_of_era doe + era * 400 + (if m <=? 2 then 1 else 0)) m (doy - (153 * mp + 2) / 5 + 1).

Definition days_of_civil (c : civil) : Z :=
  let y := if civil_month c <=? 2 then civil_year c - 1 else civil_year c in
  let yoe := y mod 400 in
  let mp := if 2 <? civil_month c then civil_month c - 3 else civil_month c + 9 in
  y / 400 * 146097 + (yoe * 365 + yoe / 4 - yoe / 100 + ((153 * mp + 2) / 5 + civil_day c - 1)) - days_before_epoch.

Lemma year_of_era_range doe : 0 <= doe < 146097 -> 0 <= year_of_era doe < 400.
Proof.
  intros Hd. unfold year_of_era.
  assert (Hq : 0 <= doe / 146096 <= 1 /\ 0 <= doe / 36524 <= doe / 1460 /\ doe / 1460 <= doe /\ doe / 146096 <= doe / 36524) by divlia.
  split; [apply Z.div_pos; lia|]. apply Z.div_lt_upper_bound; [lia|].
  destruct (Z.lt_ge_cases doe 146000); [lia|]. assert (doe / 1460 = 100) by divlia.
  destruct (decide (doe = 146096)) as [->|]; [by vm_compute|]. assert (doe / 36524 <= 3) by divlia. lia.
Qed.

Lemma day_of_year_range doe : 0 <= doe < 146097 -> 0 <= day_of_year doe <= 365.
Proof. intros Hd. unfold day_of_year, year_of_era. cbv zeta. divlia. Qed.

Lemma civil_range n : let c := civil_of_days n in 1 <= civil_month c <= 12 /\ 1 <= civil_day c <= 31.
Proof.
  cbv zeta. unfold civil_of_days. cbv zeta. cbn [civil_month civil_day].
  pose proof (day_of_year_range ((n + days_before_epoch) mod 146097) ltac:(apply Z.mod_pos_bound; lia)) as Hd.
  set (doy := day_of_year _) in *. clearbody doy. destruct (Z.ltb_spec ((5 * doy + 2) / 153) 10); divlia.
Qed.

Lemma days_of_civil_of_days n : days_of_civil (civil_of_days n) = n.
Proof.
  unfold days_of_civil, civil_of_days. cbv zeta. cbn [civil_month civil_day civil_year].
  set (z := n + days_before_epoch). pose proof (Z.div_mod z 146097 ltac:(lia)) as Hz.
  pose proof (Z.mod_pos_bound z 146097 ltac:(lia)) as Hdoe. set (doe := z mod 146097) in *. set (era := z / 146097) in *.
  pose proof (year_of_era_range doe Hdoe) as Hy. pose proof (day_of_year_range doe Hdoe) as Hd.
  assert (Hdoy : doe = 365 * year_of_era doe + year_of_era doe / 4 - year_of_era doe / 100 + day_of_year doe)
    by (unfold day_of_year; cbv zeta; lia).
  set (doy := day_of_year doe) in *. set (yoe := year_of_era doe) in *. clearbody doy yoe doe era.
  set (mp := (5 * doy + 2) / 153) in *. assert (Hmp : 0 <= mp <= 11) by (unfold mp; divlia). clearbody mp.
  assert (Hyear : forall b, (yoe + era * 400 + b - b) / 400 = era /\ (yoe + era * 400 + b - b) mod 400 = yoe) by (intros b; divlia).
  destruct (Z.ltb_spec mp 10).
  - replace (mp + 3 <=? 2) with false by lia. replace (2 <? mp + 3) with true by lia.
    destruct (Hyear 0) as [H1 H2]. rewrite Z.sub_0_r, Z.add_0_r in H1, H2. rewrite Z.add_0_r, H1, H2.
    replace (mp + 3 - 3) with mp by lia. unfold z in Hz. lia.
  - replace (mp - 9 <=? 2) with true by lia. replace (2 <? mp - 9) with false by lia.
    destruct (Hyear 1) as [H1 H2]. rewrite H1, H2. replace (mp - 9 + 9) with mp by lia. unfold z in Hz. lia.
Qed.

(** ** Text *)

(** [n] in [w] decimal digits *)
Fixpoint fixed_digits (w : nat) (n : Z) : bytes :=
  match w with
  | O => []
  | S w => fixed_digits w (n / 10) ++ [chr (code "0" + n mod 10)]
  end.

Lemma fixed_digits_spec w n : 0 <= n < 10 ^ Z.of_nat w ->
  length (fixed_digits w n) = w /\ forallb is_digit (fixed_digits w n) = true /\ decimal_value (fixed_digits w n) = n.
Proof.
  revert n. induction w as [|w IH]; intros n Hn; cbn [fixed_digits].
  { cbn in Hn. split_and!; [done|done|]. replace n with 0 by lia. done. }
  rewrite Nat2Z.inj_succ, Z.pow_succ_r in Hn by lia.
  destruct (IH (n / 10)) as (Hl & Hd & Hv); [split; [apply Z.div_pos; lia|apply Z.div_lt_upper_bound; lia]|].
  destruct (digit_chr (n mod 10) ltac:(divlia)) as [Hd1 Hv1].
  rewrite length_app, forallb_app, decimal_value_snoc, Hl, Hd, Hv, Hv1. cbn [forallb length]. rewrite Hd1.
  split_and!; [lia|done|divlia].
Qed.

(** The fraction without its trailing zeros, or nothing *)
Definition trim_zeros (s : bytes) : bytes := rev (TrimLeftFunc (byte_eqb "0") (rev s)).
Definition fraction_text (ns : Z) : bytes :=
  if ns =? 0 then [] else bs "." ++ trim_zeros (fixed_digits 9 ns).

Definition Day : Z := 24 * Hour.

(** [t.UTC().Format(time.RFC3339Nano)] for the years 0 to 9999 *)
Definition FormatRFC3339Nano (t : Z) : bytes :=
  let date := civil_of_days (t / Day) in
  let s := t mod Day in
  fixed_digits 4 (civil_year date) ++ bs "-" ++ fixed_digits 2 (civil_month date) ++ bs "-"
    ++ fixed_digits 2 (civil_day date) ++ bs "T" ++ fixed_digits 2 (s / Hour) ++ bs ":"
    ++ fixed_digits 2 (s / Minute mod 60) ++ bs ":" ++ fixed_digits 2 (s / Second mod 60)
    ++ fraction_text (s mod Second) ++ bs "Z".

(** The instants [MarshalJSON] accepts *)
Definition representable (t : Z) : bool :=
  let y := civil_year (civil_of_days (t / Day)) in (0 <=? y) && (y <=? 9999).

(** [time.Parse(time.RFC3339Nano, s)], as the instant in UTC *)
Class TimeText := { time_ParseRFC3339Nano : bytes -> option Z }.
Class TimeTextLaws `{TimeText} := {
  time_Parse_Format t : representable t = true -> time_ParseRFC3339Nano (FormatRFC3339Nano t) = Some t;
}.

(** ** A parser of the UTC form

    It reads [YYYY-MM-DDTHH:MM:SS], an optional fraction and [Z]. *)

Definition take_digits (w : nat) (s : bytes) : option (Z * bytes) :=
  let d := take w s in
  if (length d =? w)%nat && forallb is_digit d then Some (decimal_value d, drop w s) else None.
Definition take_byte (c : ascii) (s : bytes) : option bytes :=
  match s with d :: rest => if byte_eqb c d then Some rest else None | [] => None end.
Definition parse_fraction (s : bytes) : option Z :=
  match s with
  | c :: rest =>
      if byte_eqb c "." then
        let d := removelast rest in
        if byte_eqb (List.last rest "0"%char) "Z" && forallb is_digit d && (0 <? Z.of_nat (length d)) && (Z.of_nat (length d) <=? 9)
        then Some (decimal_value d * 10 ^ (9 - Z.of_nat (length d))) else None
      else if bytes_eqb s (bs "Z") then Some 0 else None
  | [] => None
  end.
Definition parse_utc (s : bytes) : option Z :=
  '(year, s) ← take_digits 4 s; s ← take_byte "-" s;
  '(month, s) ← take_digits 2 s; s ← take_byte "-" s;
  '(day, s) ← take_digits 2 s; s ← take_byte "T" s;
  '(hour, s) ← take_digits 2 s; s ← take_byte ":" s;
  '(minute, s) ← take_digits 2 s; s ← take_byte ":" s;
  '(second, s) ← take_digits 2 s; ns ← parse_fraction s;
  Some (days_of_civil (mkCivil year month day) * Day + hour * Hour + minute * Minute + second * Second + ns).

Lemma take_digits_fixed w n rest : 0 <= n < 10 ^ Z.of_nat w -> take_digits w (fixed_digits w n ++ rest) = Some (n, rest).
Proof.
  intros Hn. destruct (fixed_digits_spec w n Hn) as (Hl & Hd & Hv). unfold take_digits. cbv zeta.
  rewrite take_app_length', drop_app_length' by done. by rewrite Hl, Nat.eqb_refl, Hd, Hv.
Qed.

Lemma TrimLeftFunc_split f s : exists z, s = z ++ TrimLeftFunc f s /\ forallb f z = true.
Proof.
  induction s as [|c s IH]; [by exists []|]. cbn [TrimLeftFunc]. destruct (f c) eqn:Hf; [|by exists []].
  destruct IH as (z & Hz & Hfz). exists (c :: z). split; [cbn; by f_equal|]. cbn. by rewrite Hf.
Qed.

Lemma zeros_value z : forallb (byte_eqb "0") z = true -> decimal_value z = 0.
Proof.
  induction z as [|c z IH] using rev_ind; [done|]. rewrite forallb_app. cbn [forallb]. intros Hz. b2p.
  rewrite decimal_value_snoc, IH by done. destruct (byte_eqb_spec "0" c) as [<-|]; [|done]. by vm_compute.
Qed.

Lemma fraction_spec ns : 0 <= ns < 10 ^ 9 -> parse_fraction (fraction_text ns ++ bs "Z") = Some ns.
Proof.
  intros Hns. unfold fraction_text. destruct (Z.eqb_spec ns 0) as [->|Hne]; [done|].
  destruct (fixed_digits_spec 9 ns Hns) as (Hl & Hd & Hv).
  assert (Htrim : exists z, fixed_digits 9 ns = trim_zeros (fixed_digits 9 ns) ++ z /\ forallb (byte_eqb "0") z = true).
  { destruct (TrimLeftFunc_split (byte_eqb "0") (rev (fixed_digits 9 ns))) as (z & Hz & Hfz).
    exists (rev z). split; [|by rewrite forallb_rev]. unfold trim_zeros.
    rewrite <- rev_app_distr, <- Hz. by rewrite rev_involutive. }
  destruct Htrim as (z & Hz & Hfz). set (d := trim_zeros _) in *. rewrite Hz in Hl, Hd, Hv. clearbody d.
  rewrite length_app in Hl. rewrite forallb_app in Hd. b2p. rewrite decimal_value_app, (zeros_value z Hfz) in Hv.
  assert (Hd0 : d <> []). { intros ->. cbn in Hv. lia. }
  cbn [app bs parse_fraction]. change (byte_eqb "." ".") with true. cbv iota.
  rewrite removelast_last, List.last_last. change (byte_eqb "Z" "Z") with true.
  replace (forallb is_digit d) with true. destruct d as [|c d]; [done|]. cbn [andb].
  assert (Hlen : 0 < Z.of_nat (length (c :: d)) <= 9) by (clear -Hl; cbn [length] in *; lia).
  rewrite (proj2 (Z.ltb_lt _ _)), (proj2 (Z.leb_le _ _)) by lia. cbn [andb]. f_equal. rewrite <- Hv.
  replace (9 - Z.of_nat (length (c :: d))) with (Z.of_nat (length z)) by (clear -Hl; lia). lia.
Qed.

Lemma take_byte_same c rest : take_byte c (c :: rest) = Some rest.
Proof. cbn. by rewrite byte_eqb_refl. Qed.

(** The fields of the time of day *)
Lemma clock_fields s : 0 <= s < Day ->
  0 <= s / Hour < 24 /\ 0 <= s / Minute mod 60 < 60 /\ 0 <= s / Second mod 60 < 60 /\ 0 <= s mod Second < 10 ^ 9
  /\ s / Hour * Hour + (s / Minute mod 60) * Minute + (s / Second mod 60) * Second + s mod Second = s.
Proof. unfold Day. durations. intros Hs. split_and!; divlia. Qed.

Ltac field :=
  rewrite take_digits_fixed by (cbn; lia); cbn [mbind option_bind app bs];
  try (rewrite take_byte_same; cbn [mbind option_bind]).

Lemma parse_utc_Format t : representable t = true -> parse_utc (FormatRFC3339Nano t) = Some t.
Proof.
  intros Hr. unfold representable in Hr. cbv zeta in Hr. b2p.
  pose proof (civil_range (t / Day)) as Hc. cbv zeta in Hc. pose proof (days_of_civil_of_days (t / Day)) as Hdays.
  unfold FormatRFC3339Nano. cbv zeta. destruct (civil_of_days (t / Day)) as [y m d]. cbn [civil_year civil_month civil_day] in *.
  pose proof (Z.mod_pos_bound t Day ltac:(done)) as Hs. pose proof (Z.div_mod t Day ltac:(done)) as Ht.
  set (s := t mod Day) in *. clearbody s. destruct (clock_fields s Hs) as (Hh & Hm & Hsec & Hns & Hsum).
  set (hh := s / Hour) in *. set (mm := s / Minute mod 60) in *. set (ss := s / Second mod 60) in *.
  set (ns := s mod Second) in *. clearbody hh mm ss ns.
  unfold parse_utc. do 6 field. pose proof (fraction_spec ns Hns) as Hf. cbn [app bs] in Hf. rewrite Hf.
  cbn [mbind option_bind]. f_equal. rewrite Hdays. lia.
Qed.

Definition utc_text : TimeText := {| time_ParseRFC3339Nano := parse_utc |}.
Lemma utc_text_laws : @TimeTextLaws utc_text.
Proof. constructor. apply parse_utc_Format. Qed.
