(* ===== verification/GoEncoding.v ===== *)
(** * Text encodings of the standard library

    [encoding/hex], [encoding/base64] and the writer of [encoding/json], with
    what each encoder's output decodes to. *)

From S2P Require Import Prelude GoText GoJson GoTime.

#[local] Set Warnings "-register-all".

(** ** Hexadecimal *)

Definition hex_char (v : Z) : ascii := if v <? 10 then chr (48 + v) else chr (87 + v).

(** [hex.EncodeToString] *)
Fixpoint hex_EncodeToString (s : bytes) : bytes :=
  match s with
  | [] => []
  | c :: s' => hex_char (code c / 16) :: hex_char (code c mod 16) :: hex_EncodeToString s'
  end.

Lemma hex_digit_char v : 0 <= v < 16 -> hex_digit (hex_char v) = Some v.
Proof.
  intros Hv. assert (Hc : code (hex_char v) = if v <? 10 then 48 + v else 87 + v).
  { unfold hex_char. destruct (Z.ltb_spec v 10); apply code_chr; lia. }
  unfold hex_digit, is_digit, in_range. rewrite Hc.
  change (code "0") with 48. change (code "9") with 57. change (code "a") with 97. change (code "f") with 102.
  destruct (Z.ltb_spec v 10).
  - rewrite (proj2 (Z.leb_le 48 (48 + v))), (proj2 (Z.leb_le (48 + v) 57)) by lia. cbn [andb]. f_equal. lia.
  - rewrite (proj2 (Z.leb_gt (87 + v) 57)), andb_false_r by lia.
    rewrite (proj2 (Z.leb_le 97 (87 + v))), (proj2 (Z.leb_le (87 + v) 102)) by lia. cbn [andb]. f_equal. lia.
Qed.

Lemma hex_char_inj v w : 0 <= v < 16 -> 0 <= w < 16 -> hex_char v = hex_char w -> v = w.
Proof. intros Hv Hw He. apply (inj Some). by rewrite <- (hex_digit_char v), <- (hex_digit_char w), He. Qed.

Lemma hex_length s : length (hex_EncodeToString s) = (2 * length s)%nat.
Proof. induction s as [|c s IH]; cbn [hex_EncodeToString length]; lia. Qed.

#[export] Instance hex_inj : Inj (=) (=) hex_EncodeToString.
Proof.
  intros s. induction s as [|c s IH]; intros [|d t]; cbn [hex_EncodeToString]; try done. intros [= H1 H2 H3].
  pose proof (code_range c). pose proof (code_range d).
  apply hex_char_inj in H1, H2; [|divlia..]. rewrite (IH t H3). f_equal. apply code_inj. divlia.
Qed.

(** ** Base64 *)

(** The alphabets differ in their last two characters and in the padding. *)
Record base64 : Type := mkBase64 { b64_62 : ascii; b64_63 : ascii; b64_padded : bool }.
Definition base64_Std : base64 := mkBase64 "+" "/" true.
Definition base64_RawURL : base64 := mkBase64 "-" "_" false.

Section Base64.
Variable enc : base64.

Definition sextet_char (v : Z) : ascii :=
  if v <? 26 then chr (65 + v)
  else if v <? 52 then chr (71 + v)
  else if v <? 62 then chr (v - 4)
  else if v =? 62 then b64_62 enc else b64_63 enc.

Definition char_sextet (c : ascii) : option Z :=
  if is_upper c then Some (code c - 65)
  else if is_lower c then Some (code c - 71)
  else if is_digit c then Some (code c + 4)
  else if byte_eqb c (b64_62 enc) then Some 62
  else if byte_eqb c (b64_63 enc) then Some 63
  else None.

Definition padding (n : nat) : bytes := if b64_padded enc then repeat "="%char n else [].

(** [Encoding.EncodeToString] *)
Fixpoint base64_Encode (s : bytes) : bytes :=
  match s with
  | [] => []
  | [a] => sextet_char (code a / 4) :: sextet_char (code a mod 4 * 16) :: padding 2
  | [a; b] =>
      sextet_char (code a / 4) :: sextet_char (code a mod 4 * 16 + code b / 16)
        :: sextet_char (code b mod 16 * 4) :: padding 1
  | a :: b :: c :: s' =>
      sextet_char (code a / 4) :: sextet_char (code a mod 4 * 16 + code b / 16)
        :: sextet_char (code b mod 16 * 4 + code c / 64) :: sextet_char (code c mod 64) :: base64_Encode s'
  end.

Definition is_pad (c : ascii) : bool := b64_padded enc && byte_eqb c "=".

Definition decode2 (a b : ascii) : option bytes :=
  v ← char_sextet a; w ← char_sextet b; Some [chr (v * 4 + w / 16)].
Definition decode3 (a b c : ascii) : option bytes :=
  v ← char_sextet a; w ← char_sextet b; x ← char_sextet c;
  Some [chr (v * 4 + w / 16); chr (w mod 16 * 16 + x / 4)].
Definition decode4 (a b c d : ascii) : option bytes :=
  v ← char_sextet a; w ← char_sextet b; x ← char_sextet c; y ← char_sextet d;
  Some [chr (v * 4 + w / 16); chr (w mod 16 * 16 + x / 4); chr (x mod 4 * 64 + y)].

(** Groups of four characters; padding only at the end, the unused bits of the
    last group are not checked. *)
Fixpoint decode_groups (s : bytes) : option bytes :=
  match s with
  | [] => Some []
  | [_] => None
  | [a; b] => if b64_padded enc then None else decode2 a b
  | [a; b; c] => if b64_padded enc then None else decode3 a b c
  | a :: b :: c :: d :: s' =>
      if is_pad d then
        match s' with
        | [] => if is_pad c then decode2 a b else decode3 a b c
        | _ => None
        end
      else first ← decode4 a b c d; rest ← decode_groups s'; Some (first ++ rest)
  end.

(** [Encoding.DecodeString]; line breaks are ignored. *)
Definition base64_Decode (s : bytes) : option bytes :=
  decode_groups (List.filter (fun c => negb ((code c =? 10) || (code c =? 13))) s).
End Base64.

(** The alphabets the program uses. *)
Definition base64_known (enc : base64) : Prop := enc = base64_Std \/ enc = base64_RawURL.

Lemma below_cases n (P : Z -> Prop) : (forall k, (k < n)%nat -> P (Z.of_nat k)) -> forall v, 0 <= v < Z.of_nat n -> P v.
Proof. intros Hk v Hv. rewrite <- (Z2Nat.id v) by lia. apply Hk. lia. Qed.

Lemma sextet_roundtrip enc v : base64_known enc -> 0 <= v < 64 ->
  char_sextet enc (sextet_char enc v) = Some v /\ is_pad enc (sextet_char enc v) = false
  /\ ((code (sextet_char enc v) =? 10) || (code (sextet_char enc v) =? 13)) = false.
Proof.
  intros He Hv. change 64 with (Z.of_nat 64) in Hv. revert v Hv. apply below_cases. intros k Hk.
  destruct He as [-> | ->]; do 64 (destruct k as [|k]; [vm_compute; split_and!; reflexivity|]); lia.
Qed.

Section Base64Facts.
Variable enc : base64.
Hypothesis known : base64_known enc.

Lemma chr_is v a : v = code a -> chr v = a.
Proof. intros ->. apply chr_code. Qed.

Ltac sextets := rewrite !(fun v H => proj1 (sextet_roundtrip enc v known H)) by divlia; cbn [mbind option_bind];
  repeat f_equal; apply chr_is; divlia.

Lemma decode4_encode a b c :
  decode4 enc (sextet_char enc (code a / 4)) (sextet_char enc (code a mod 4 * 16 + code b / 16))
    (sextet_char enc (code b mod 16 * 4 + code c / 64)) (sextet_char enc (code c mod 64)) = Some [a; b; c].
Proof. pose proof (code_range a). pose proof (code_range b). pose proof (code_range c). unfold decode4. sextets. Qed.

Lemma decode3_encode a b :
  decode3 enc (sextet_char enc (code a / 4)) (sextet_char enc (code a mod 4 * 16 + code b / 16))
    (sextet_char enc (code b mod 16 * 4)) = Some [a; b].
Proof. pose proof (code_range a). pose proof (code_range b). unfold decode3. sextets. Qed.

Lemma decode2_encode a :
  decode2 enc (sextet_char enc (code a / 4)) (sextet_char enc (code a mod 4 * 16)) = Some [a].
Proof. pose proof (code_range a). unfold decode2. sextets. Qed.

Lemma not_pad v : 0 <= v < 64 -> is_pad enc (sextet_char enc v) = false.
Proof. intros Hv. apply (sextet_roundtrip enc v known Hv). Qed.

(** Induction on a list in steps of three *)
Lemma list_ind3 {A} (P : list A -> Prop) : P [] -> (forall a, P [a]) -> (forall a b, P [a; b]) ->
  (forall a b c l, P l -> P (a :: b :: c :: l)) -> forall l, P l.
Proof. intros H0 H1 H2 H3. fix IH 1. intros [|a [|b [|c l]]]; [done|done|done|]. apply H3, IH. Qed.

Lemma decode_groups_encode s : decode_groups enc (base64_Encode enc s) = Some s.
Proof.
  induction s as [|a|a b|a b c s IH] using list_ind3; [done| | |].
  - cbn [base64_Encode]. unfold padding. pose proof (decode2_encode a) as Hd.
    destruct (b64_padded enc) eqn:Hp; cbn [repeat decode_groups]; [|by rewrite Hp].
    unfold is_pad. rewrite Hp. cbn. exact Hd.
  - cbn [base64_Encode]. unfold padding. pose proof (decode3_encode a b) as Hd. pose proof (code_range b).
    destruct (b64_padded enc) eqn:Hp; cbn [repeat decode_groups]; [|by rewrite Hp].
    rewrite (not_pad (code b mod 16 * 4)) by divlia. unfold is_pad. rewrite Hp. cbn. exact Hd.
  - cbn [base64_Encode decode_groups]. pose proof (code_range c). rewrite not_pad by divlia.
    rewrite decode4_encode. cbn [mbind option_bind]. by rewrite IH.
Qed.

Lemma Encode_no_breaks s :
  List.filter (fun c => negb ((code c =? 10) || (code c =? 13))) (base64_Encode enc s) = base64_Encode enc s.
Proof.
  assert (Hv : forall v l, 0 <= v < 64 -> List.filter (fun c => negb ((code c =? 10) || (code c =? 13))) (sextet_char enc v :: l)
    = sextet_char enc v :: List.filter (fun c => negb ((code c =? 10) || (code c =? 13))) l).
  { intros v l Hr. cbn [List.filter]. by rewrite (proj2 (proj2 (sextet_roundtrip enc v known Hr))). }
  induction s as [|a|a b|a b c s IH] using list_ind3; [done| | |]; cbn [base64_Encode];
    try pose proof (code_range a); try pose proof (code_range b); try pose proof (code_range c);
    rewrite !Hv by divlia; repeat f_equal; [| |exact IH]; unfold padding; by destruct (b64_padded enc).
Qed.

Lemma base64_roundtrip s : base64_Decode enc (base64_Encode enc s) = Some s.
Proof. unfold base64_Decode. rewrite Encode_no_breaks. apply decode_groups_encode. Qed.
End Base64Facts.

(** ** JSON *)

(** [\u] and four hexadecimal digits *)
Definition unicode_escape (v : Z) : bytes :=
  bs "\u" ++ [hex_char (v / 4096); hex_char (v / 256 mod 16); hex_char (v / 16 mod 16); hex_char (v mod 16)].

Definition escape_ascii (c : ascii) : bytes :=
  if byte_eqb c quote || byte_eqb c "\" then ["\"%char; c]
  else if code c =? 8 then bs "\b"
  else if code c =? 12 then bs "\f"
  else if code c =? 10 then bs "\n"
  else if code c =? 13 then bs "\r"
  else if code c =? 9 then bs "\t"
  else if (code c <? 32) || byte_eqb c "<" || byte_eqb c ">" || byte_eqb c "&" then unicode_escape (code c)
  else [c].

(** A line or paragraph separator, U+2028 and U+2029 *)
Definition escape_rune (r : bytes) : bytes :=
  if bytes_eqb r (utf8_encode 8232) then unicode_escape 8232
  else if bytes_eqb r (utf8_encode 8233) then unicode_escape 8233
  else r.

(** The text between the quotes; ill-formed bytes become U+FFFD. The fuel is
    the number of bytes left. *)
Fixpoint json_escape_fuel (fuel : nat) (s : bytes) : bytes :=
  match s, fuel with
  | [], _ | _, O => []
  | c :: s', S fuel =>
      if is_ascii c then escape_ascii c ++ json_escape_fuel fuel s'
      else
        match utf8_size s with
        | None => bs "\ufffd" ++ json_escape_fuel fuel s'
        | Some n => escape_rune (take n s) ++ json_escape_fuel fuel (drop n s)
        end
  end.
Definition json_escape (s : bytes) : bytes := json_escape_fuel (length s) s.
Definition json_string (s : bytes) : bytes := quote :: json_escape s ++ [quote].

Definition FormatInt (z : Z) : bytes := if z <? 0 then "-"%char :: FormatUint (- z) else FormatUint z.

(** The values the program marshals. An absent [omitempty] member is left out
    of the object. *)
Inductive json : Type :=
| JNull
| JBool (b : bool)
| JInt (z : Z)
| JString (s : bytes)
| JTime (t : Z)
| JArray (l : list json)
| JObject (ms : list (bytes * json)).

(** A line break with two spaces for every open container, or nothing *)
Definition newline (indent : bool) (depth : nat) : bytes :=
  if indent then chr 10 :: concat (repeat (bs "  ") depth) else [].

Fixpoint separated (sep : bytes) (items : list bytes) : bytes :=
  match items with
  | [] => []
  | [item] => item
  | item :: rest => item ++ sep ++ separated sep rest
  end.

Definition enclosed (indent : bool) (depth : nat) (opening : ascii) (items : list bytes) (closing : ascii) : bytes :=
  match items with
  | [] => [opening; closing]
  | _ =>
      opening :: newline indent (S depth) ++ separated (bs "," ++ newline indent (S depth)) items
        ++ newline indent depth ++ [closing]
  end.

Definition print_member (indent : bool) (name value : bytes) : bytes :=
  json_string name ++ (if indent then bs ": " else bs ":") ++ value.

Fixpoint print_json (indent : bool) (depth : nat) (v : json) : bytes :=
  match v with
  | JNull => bs "null"
  | JBool b => if b then bs "true" else bs "false"
  | JInt z => FormatInt z
  | JString s => json_string s
  | JTime t => quote :: FormatRFC3339Nano t ++ [quote]
  | JArray l => enclosed indent depth "[" (map (print_json indent (S depth)) l) "]"
  | JObject ms =>
      enclosed indent depth "{" (map (fun m => print_member indent (fst m) (print_json indent (S depth) (snd m))) ms) "}"
  end.

(** [Time.MarshalJSON] fails outside the years 0 to 9999, and then so does the
    document. *)
Fixpoint times_representable (v : json) : bool :=
  match v with
  | JTime t => representable t
  | JArray l => forallb times_representable l
  | JObject ms => forallb (fun m => times_representable (snd m)) ms
  | _ => true
  end.

(** [json.Marshal(v)] and [json.MarshalIndent(v, "", "  ")] *)
Definition json_Marshal (v : json) : option bytes := if times_representable v then Some (print_json false 0 v) else None.
Definition json_MarshalIndent (v : json) : option bytes := if times_representable v then Some (print_json true 0 v) else None.

(** *** What the output is *)

Section JsonInd.
Variable P : json -> Prop.
Hypothesis Hnull : P JNull.
Hypothesis Hbool : forall b, P (JBool b).
Hypothesis Hint : forall z, P (JInt z).
Hypothesis Hstring : forall s, P (JString s).
Hypothesis Htime : forall t, P (JTime t).
Hypothesis Harray : forall l, Forall P l -> P (JArray l).
Hypothesis Hobject : forall ms, Forall (fun m => P (snd m)) ms -> P (JObject ms).
Fixpoint json_nested_ind (v : json) : P v :=
  match v with
  | JNull => Hnull
  | JBool b => Hbool b
  | JInt z => Hint z
  | JString s => Hstring s
  | JTime t => Htime t
  | JArray l => Harray l (list_ind (Forall P) (Forall_nil_2 P) (fun x l IH => Forall_cons_2 P x l (json_nested_ind x) IH) l)
  | JObject ms => Hobject ms
      (list_ind (Forall (fun m => P (snd m))) (Forall_nil_2 _)
        (fun m l IH => Forall_cons_2 (fun m => P (snd m)) m l (json_nested_ind (snd m)) IH) ms)
  end.
End JsonInd.

Lemma control_escape v : 0 <= v < 32 -> scan_escape (tail (unicode_escape v)) = Some ([chr v], []).
Proof.
  change 32 with (Z.of_nat 32). revert v. apply below_cases. intros k Hk.
  do 32 (destruct k as [|k]; [vm_compute; reflexivity|]). lia.
Qed.

Lemma escape_ascii_spec c : is_ascii c = true ->
  (escape_ascii c = [c] /\ c <> quote /\ c <> "\"%char /\ 32 <= code c)
  \/ exists e, escape_ascii c = "\"%char :: e /\ scan_escape e = Some ([c], []).
Proof.
  intros Hc. assert (Hk : forall k, code c = code k -> c = k) by (intros k; apply code_inj). unfold escape_ascii.
  destruct (byte_eqb_spec c quote) as [->|Hq]; [right; by exists [quote]|].
  destruct (byte_eqb_spec c "\") as [->|Hb]; [right; by exists (bs "\")|]. cbn [orb].
  destruct (Z.eqb_spec (code c) 8) as [->%(Hk (chr 8))|]; [right; by exists (bs "b")|].
  destruct (Z.eqb_spec (code c) 12) as [->%(Hk (chr 12))|]; [right; by exists (bs "f")|].
  destruct (Z.eqb_spec (code c) 10) as [->%(Hk (chr 10))|]; [right; by exists (bs "n")|].
  destruct (Z.eqb_spec (code c) 13) as [->%(Hk (chr 13))|]; [right; by exists (bs "r")|].
  destruct (Z.eqb_spec (code c) 9) as [->%(Hk (chr 9))|]; [right; by exists (bs "t")|].
  destruct (Z.ltb_spec (code c) 32) as [Hl|]; cbn [orb].
  { right. eexists. split; [reflexivity|]. pose proof (control_escape (code c)) as He. rewrite chr_code in He. apply He.
    pose proof (code_range c). lia. }
  destruct (byte_eqb_spec c "<") as [->|]; [right; by eexists|].
  destruct (byte_eqb_spec c ">") as [->|]; [right; by eexists|].
  destruct (byte_eqb_spec c "&") as [->|]; [right; by eexists|]. by left.
Qed.

Lemma utf8_size_bounds c s n : utf8_size (c :: s) = Some n -> (1 <= n)%nat.
Proof. cbn [utf8_size]. repeat case_match; intros; simplify_eq; lia. Qed.

(** No byte of a longer sequence is ASCII. *)
Lemma utf8_size_above_ascii c s n : utf8_size (c :: s) = Some n -> is_ascii c = false ->
  Forall (fun d => 128 <= code d) (take n (c :: s)).
Proof.
  unfold is_ascii. cbn [utf8_size]. intros Hn Hc. rewrite Hc in Hn. apply Z.ltb_ge in Hc.
  unfold byte_in in Hn. repeat case_match; simplify_eq; b2p; cbn [take];
    repeat match goal with H : (_ <=? _) = true |- _ => apply Z.leb_le in H end; repeat constructor; lia.
Qed.

Lemma jstring_high r decoded text : Forall (fun d => 128 <= code d) r -> jstring decoded text ->
  jstring (r ++ decoded) (r ++ text).
Proof.
  induction 1 as [|d r Hd _ IH]; intros Ht; [done|]. cbn [app]. constructor; [| |lia|by apply IH].
  - intros ->. by vm_compute in Hd.
  - intros ->. by vm_compute in Hd.
Qed.

Lemma jstring_escape fuel s : (length s <= fuel)%nat -> utf8_valid_fuel fuel s = true ->
  jstring s (json_escape_fuel fuel s ++ [quote]).
Proof.
  revert s. induction fuel as [|fuel IH]; intros [|c s] Hl Hv; try constructor; [cbn in Hl; lia|].
  cbn [json_escape_fuel]. destruct (is_ascii c) eqn:Hc.
  - assert (Hn : utf8_size (c :: s) = Some 1%nat) by (cbn [utf8_size]; unfold is_ascii in Hc; by rewrite Hc).
    cbn [utf8_valid_fuel] in Hv. rewrite Hn in Hv. cbn [drop length] in *. rewrite <- app_assoc.
    specialize (IH s ltac:(lia) Hv).
    destruct (escape_ascii_spec c Hc) as [(-> & ? & ? & ?)|(e & -> & He)]; [by constructor|].
    cbn [app]. by apply (js_escape e [c]).
  - cbn [utf8_valid_fuel] in Hv. destruct (utf8_size (c :: s)) as [n|] eqn:Hn; [|done].
    pose proof (utf8_size_bounds _ _ _ Hn). pose proof (utf8_size_above_ascii _ _ _ Hn Hc) as Hh.
    assert (Ht : jstring (drop n (c :: s)) (json_escape_fuel fuel (drop n (c :: s)) ++ [quote])).
    { apply IH; [rewrite length_drop; cbn [length] in *; lia|done]. }
    rewrite <- app_assoc. rewrite <- (take_drop n (c :: s)) at 1. unfold escape_rune.
    destruct (bytes_eqb_spec (take n (c :: s)) (utf8_encode 8232)) as [->|];
      [|destruct (bytes_eqb_spec (take n (c :: s)) (utf8_encode 8233)) as [->|]].
    + by apply (js_escape (tail (unicode_escape 8232)) (utf8_encode 8232)).
    + by apply (js_escape (tail (unicode_escape 8233)) (utf8_encode 8233)).
    + by apply jstring_high.
Qed.

(** A string of well-formed UTF-8 is read back as it is. *)
Lemma json_string_spec s : utf8_Valid s = true -> exists text, json_string s = quote :: text /\ jstring s text.
Proof. intros Hs. eexists. split; [done|]. by apply jstring_escape. Qed.

(** *** Numbers and times *)

Lemma format_uint_head fuel n acc : 0 < n < 10 ^ Z.of_nat fuel ->
  exists c ds, format_uint_fuel fuel n acc = c :: ds ++ acc /\ is_digit c = true /\ c <> "0"%char /\ forallb is_digit ds = true.
Proof.
  revert n acc. induction fuel as [|fuel IH]; intros n acc Hn; [cbn in Hn; lia|]. cbn [format_uint_fuel].
  destruct (digit_chr (n mod 10) ltac:(divlia)) as [Hd Hv]. destruct (Z.ltb_spec n 10).
  - exists (chr (code "0" + n mod 10)), []. split_and!; [done|done| |done]. intros He. rewrite He in Hv.
    change (digit_value "0") with 0 in Hv. rewrite Z.mod_small in Hv by lia. lia.
  - rewrite Nat2Z.inj_succ, Z.pow_succ_r in Hn by lia.
    destruct (IH (n / 10) (chr (code "0" + n mod 10) :: acc)) as (c & ds & -> & Hc & Hz & Hds); [divlia|].
    exists c, (ds ++ [chr (code "0" + n mod 10)]). rewrite <- app_assoc, forallb_app, Hds. cbn [forallb]. by rewrite Hd.
Qed.

Lemma FormatUint_int n : 0 <= n <= max_uint64 -> int_part (FormatUint n).
Proof.
  intros Hn. unfold FormatUint. destruct (Z.eqb_spec n 0) as [->|]; [by left|right].
  destruct (format_uint_head 20 n []) as (c & ds & -> & Hc); [unfold max_uint64 in Hn; change (10 ^ Z.of_nat 20) with 100000000000000000000; lia|].
  exists c, ds. by rewrite app_nil_r.
Qed.

Lemma FormatInt_number z : min_int64 <= z <= max_int64 -> jnumber (FormatInt z).
Proof.
  unfold min_int64, max_int64, FormatInt. intros Hz. destruct (Z.ltb_spec z 0).
  - exists (bs "-"), (FormatUint (- z)), [], []. rewrite app_nil_r.
    split_and!; [done|by right|apply FormatUint_int; unfold max_uint64; lia|by left|by left].
  - exists [], (FormatUint z), [], []. rewrite !app_nil_r.
    split_and!; [done|by left|apply FormatUint_int; unfold max_uint64; lia|by left|by left].
Qed.

(** The bytes of a formatted time are printed as they are. *)
Definition time_byte (c : ascii) : bool :=
  is_digit c || byte_eqb c "-" || byte_eqb c "T" || byte_eqb c ":" || byte_eqb c "." || byte_eqb c "Z".

Lemma fixed_digits_time w n : forallb time_byte (fixed_digits w n) = true.
Proof.
  revert n. induction w as [|w IH]; intros n; [done|]. cbn [fixed_digits]. rewrite forallb_app, IH. cbn [forallb].
  unfold time_byte. by rewrite (proj1 (digit_chr (n mod 10) ltac:(divlia))).
Qed.

Lemma TrimLeftFunc_forallb f g s : forallb g s = true -> forallb g (TrimLeftFunc f s) = true.
Proof. induction s as [|c s IH]; [done|]. cbn [forallb TrimLeftFunc]. intros Hs. b2p. case_match; cbn [forallb]; auto using andb_true_intro. Qed.

Lemma Format_time_bytes t : forallb time_byte (FormatRFC3339Nano t) = true.
Proof.
  unfold FormatRFC3339Nano, fraction_text, trim_zeros. rewrite !forallb_app, !fixed_digits_time.
  case_match; [done|]. rewrite forallb_app, forallb_rev, TrimLeftFunc_forallb; [done|]. by rewrite forallb_rev, fixed_digits_time.
Qed.

Lemma time_byte_low v : 0 <= v < 32 -> time_byte (chr v) = false.
Proof. change 32 with (Z.of_nat 32). revert v. apply below_cases. intros k Hk. do 32 (destruct k as [|k]; [done|]). lia. Qed.

Lemma jstring_time s : forallb time_byte s = true -> jstring s (s ++ [quote]).
Proof.
  induction s as [|c s IH]; cbn [forallb app]; [constructor|]. intros Hs. b2p. constructor; [| | |by apply IH].
  - by intros ->.
  - by intros ->.
  - destruct (Z.le_gt_cases 32 (code c)) as [|Hl]; [done|]. pose proof (time_byte_low (code c)) as Ht.
    rewrite chr_code in Ht. rewrite Ht in *; [done|]. pose proof (code_range c). lia.
Qed.

(** *** Documents *)

(** What can be read back: well-formed strings, 64-bit integers, instants of
    the years 0 to 9999, unique names, and at most [room] containers inside
    each other. *)
Fixpoint json_ok (room : nat) (v : json) {struct v} : bool :=
  match v with
  | JNull | JBool _ => true
  | JInt z => (min_int64 <=? z) && (z <=? max_int64)
  | JString s => utf8_Valid s
  | JTime t => representable t
  | JArray l => match room with O => false | S room => forallb (json_ok room) l end
  | JObject ms =>
      match room with
      | O => false
      | S room => forallb (fun m => utf8_Valid (fst m) && json_ok room (snd m)) ms && bool_decide (NoDup (map fst ms))
      end
  end.

Lemma forallb_elem {A} (f : A -> bool) l x : forallb f l = true -> x ∈ l -> f x = true.
Proof. rewrite forallb_forall, list_elem_of_In. auto. Qed.

Lemma newline_spaces indent depth : spaces (newline indent depth).
Proof.
  unfold spaces, newline. destruct indent; [|done]. cbn [forallb]. change (is_json_space (chr 10)) with true. cbn [andb].
  induction depth; [done|]. cbn [repeat concat]. by rewrite forallb_app.
Qed.

Lemma separated_elements depth w w' items : items <> [] -> Forall (jvalue depth) items -> spaces w -> spaces w' ->
  jelements depth (separated (bs "," ++ w) items ++ w' ++ bs "]").
Proof.
  intros Hne Hv Hw Hw'. induction Hv as [|v items Hv Hi IH]; [done|]. destruct items as [|v' items].
  - cbn [separated]. by apply je_last.
  - cbn [separated] in *. rewrite <- !app_assoc. change (v ++ bs "," ++ w ++ ?r) with (v ++ [] ++ bs "," ++ w ++ r).
    apply je_more; try done. by apply IH.
Qed.

Lemma separated_members (indent : bool) depth w w' (ms : list (bytes * bytes)) : ms <> [] ->
  Forall (fun m => utf8_Valid (fst m) = true /\ jvalue depth (snd m)) ms -> spaces w -> spaces w' ->
  jmembers depth ms (separated (bs "," ++ w) (map (fun m => print_member indent (fst m) (snd m)) ms) ++ w' ++ bs "}").
Proof.
  intros Hne Hv Hw Hw'. set (colon := if indent then bs " " else []).
  assert (Hc : spaces colon) by (by unfold colon; destruct indent).
  assert (Hm : forall name v, print_member indent name v = json_string name ++ bs ":" ++ colon ++ v)
    by (intros; unfold print_member, colon; by destruct indent).
  induction Hv as [|[name v] ms [Hn Hv] Hi IH]; [done|]. cbn [fst snd map] in *. rewrite Hm.
  destruct (json_string_spec name Hn) as (text & Hs & Hj). rewrite Hs. destruct ms as [|[name' v'] ms].
  - cbn [separated map]. rewrite <- !app_assoc. cbn [app]. apply (jm_last depth name text [] colon v w'); done.
  - cbn [separated map] in *. rewrite <- !app_assoc. cbn [app].
    apply (jm_more depth name text [] colon v [] w ((name', v') :: ms)); try done. by apply IH.
Qed.

Lemma names_of_printed {A B} (f : A -> B) (ms : list (bytes * A)) : map fst ms = (map (fun m => (fst m, f (snd m))) ms).*1.
Proof. induction ms as [|m ms IH]; [done|]. cbn [map]. rewrite fmap_cons. cbn [fst]. by rewrite <- IH. Qed.

(** The members of an object whose values are printed as values *)
Lemma printed_members indent room depth k w w' ms : ms <> [] -> json_ok (S room) (JObject ms) = true ->
  Forall (fun m => json_ok room (snd m) = true -> jvalue depth (print_json indent k (snd m))) ms -> spaces w -> spaces w' ->
  let printed := map (fun m => (fst m, print_json indent k (snd m))) ms in
  jmembers depth printed (separated (bs "," ++ w) (map (fun m => print_member indent (fst m) (print_json indent k (snd m))) ms)
    ++ w' ++ bs "}") /\ NoDup printed.*1.
Proof.
  intros Hne Hok Hv Hw Hw' printed. cbn [json_ok] in Hok. apply andb_true_iff in Hok as [Hok Hnd%bool_decide_eq_true]. split.
  - replace (map _ ms) with (map (fun m => print_member indent (fst m) (snd m)) printed) by (unfold printed; by rewrite map_map).
    apply separated_members; [unfold printed; by destruct ms| |done..]. unfold printed. rewrite Forall_map. cbn [fst snd].
    rewrite Forall_forall in *. intros m Hm. pose proof (forallb_elem _ _ m Hok Hm) as Ho. cbv beta in Ho. b2p. auto.
  - unfold printed. by rewrite <- names_of_printed.
Qed.

Lemma print_json_value indent v : forall room depth k, json_ok room v = true -> depth + Z.of_nat room = maxNestingDepth ->
  jvalue depth (print_json indent k v).
Proof.
  induction v as [|b|z|s|t|l IH|ms IH] using json_nested_ind; intros room depth k Hok Hd; cbn [print_json].
  - constructor.
  - destruct b; constructor.
  - cbn [json_ok] in Hok. b2p. apply jv_number, FormatInt_number. lia.
  - destruct (json_string_spec s Hok) as (text & -> & Hj). by eapply jv_string.
  - eapply jv_string, jstring_time, Format_time_bytes.
  - destruct room as [|room]; [done|]. cbn [json_ok] in Hok. destruct l as [|v l]; [apply (jv_empty_array depth []); [lia|done]|].
    apply jv_array; [lia|apply newline_spaces|]. apply separated_elements; [done| |apply newline_spaces..].
    rewrite Forall_map, Forall_forall in *. intros x Hx. apply (IH x Hx room); [by apply (forallb_elem _ _ _ Hok)|lia].
  - destruct room as [|room]; [done|]. destruct ms as [|m ms]; [apply (jv_empty_object depth []); [lia|done]|].
    destruct (printed_members indent room (depth + 1) (S k) (newline indent (S k)) (newline indent k) (m :: ms))
      as [Hm Hnd]; [done|done| |apply newline_spaces..|].
    { rewrite Forall_forall in *. intros x Hx Ho. apply (IH x Hx room); [done|lia]. }
    eapply jv_object; [lia|apply newline_spaces|exact Hm|exact Hnd].
Qed.

(** The members of a printed object, as [json.Unmarshal] finds them. *)
Lemma unmarshal_print indent ms : ms <> [] -> json_ok (S (Z.to_nat (maxNestingDepth - 1))) (JObject ms) = true ->
  unmarshal_object (print_json indent 0 (JObject ms) ++ [chr 10])
  = Some (map (fun m => (fst m, print_json indent 1 (snd m))) ms).
Proof.
  intros Hne Hok. apply unmarshal_object_correct.
  destruct (printed_members indent _ 1 1 (newline indent 1) (newline indent 0) ms Hne Hok) as [Hm Hnd]; [|apply newline_spaces..|].
  { rewrite Forall_forall. intros m _ Ho. eapply print_json_value; [exact Ho|]. unfold maxNestingDepth. lia. }
  pose proof (doc_members [] (newline indent 1) _ _ [chr 10] eq_refl (newline_spaces _ _) eq_refl Hm Hnd) as Hd.
  cbn [print_json]. unfold enclosed. destruct ms as [|m ms]; [done|]. cbn [map]. cbn [app] in *.
  repeat rewrite <- app_assoc. repeat rewrite <- app_assoc in Hd. exact Hd.
Qed.

Lemma json_ok_times v : forall room, json_ok room v = true -> times_representable v = true.
Proof.
  induction v as [|b|z|s|t|l IH|ms IH] using json_nested_ind; intros [|room]; cbn [json_ok times_representable]; try done;
    intros Hok; rewrite forallb_forall; rewrite Forall_forall in IH; intros x Hx%list_elem_of_In.
  - apply (IH x Hx room), (forallb_elem _ _ _ Hok Hx).
  - b2p. match goal with H : forallb _ _ = true |- _ => apply (forallb_elem _ _ x) in H; [|done]; cbv beta in H end. b2p.
    by apply (IH x Hx room).
Qed.
