(* ===== verification/GoPath.v ===== *)
(** * Paths ([path], [path/filepath] on Unix)

    [filepath] and [path] agree on Unix. A cleaned path is the list of its
    elements: a rooted one starts with an empty element, so that [/a/b] is
    [["", "a", "b"]] as in [strings.Split]. *)

From S2P Require Import Prelude GoText.

#[local] Set Warnings "-clear-no-such-hyp".

Definition is_rooted (p : bytes) : bool := match p with c :: _ => byte_eqb c "/" | [] => false end.

(** One element on a stack of cleaned elements *)
Definition clean_push (rooted : bool) (stack : list bytes) (element : bytes) : list bytes :=
  if bytes_eqb element [] || bytes_eqb element (bs ".") then stack
  else if bytes_eqb element (bs "..") then
    match stack with
    | top :: rest => if bytes_eqb top (bs "..") then element :: stack else rest
    | [] => if rooted then [] else [element]
    end
  else element :: stack.

(** What a name denotes, relative to the root or to the working directory *)
Definition resolve (p : bytes) : list bytes :=
  let rooted := is_rooted p in
  let elements := rev (fold_left (clean_push rooted) (Split p "/") []) in
  if rooted then [] :: elements else elements.

(** [path.Clean] *)
Definition path_text (elements : list bytes) : bytes :=
  match elements with
  | [] => bs "."
  | [[]] => bs "/"
  | _ => Join elements "/"
  end.
Definition path_Clean (p : bytes) : bytes := path_text (resolve p).

(** [filepath.Join(a, b)] *)
Definition path_Join (a b : bytes) : bytes :=
  match a, b with
  | [], [] => []
  | [], _ => path_Clean b
  | _, _ => path_Clean (a ++ bs "/" ++ b)
  end.

(** The path up to and with its last slash, and what follows *)
Definition path_Split (p : bytes) : bytes * bytes :=
  match rev (Split p "/") with
  | [] | [_] => ([], p)
  | file :: dirs => (Join (rev dirs) "/" ++ bs "/", file)
  end.

(** [filepath.Dir] *)
Definition path_Dir (p : bytes) : bytes := path_Clean (fst (path_Split p)).

(** [filepath.Base] *)
Definition trim_slashes (p : bytes) : bytes := rev (TrimLeftFunc (byte_eqb "/") (rev p)).
Definition path_Base (p : bytes) : bytes :=
  match p with
  | [] => bs "."
  | _ => match snd (path_Split (trim_slashes p)) with [] => bs "/" | file => file end
  end.

(** ** Facts *)

(** An element that names an entry of a directory *)
Definition plain (element : bytes) : Prop := element <> [] /\ element <> bs "." /\ element <> bs ".." /\ "/"%char ∉ element.

Lemma clean_push_plain rooted stack e : plain e -> clean_push rooted stack e = e :: stack.
Proof.
  intros (H0 & H1 & H2 & _). unfold clean_push.
  destruct (bytes_eqb_spec e []); [done|]. destruct (bytes_eqb_spec e (bs ".")); [done|]. by destruct (bytes_eqb_spec e (bs "..")).
Qed.

Lemma clean_plain rooted l stack : Forall plain l -> fold_left (clean_push rooted) l stack = rev l ++ stack.
Proof.
  intros Hl. revert stack. induction Hl as [|e l He Hl IH]; intros stack; [done|]. cbn [fold_left rev].
  rewrite clean_push_plain, IH by done. by rewrite <- app_assoc.
Qed.

Lemma is_rooted_app a b : a <> [] -> is_rooted (a ++ b) = is_rooted a.
Proof. by destruct a. Qed.

(** The elements of a joined path follow those of its first part. *)
Lemma resolve_join a b : a <> [] -> Forall plain (Split b "/") -> resolve (a ++ bs "/" ++ b) = resolve a ++ Split b "/".
Proof.
  intros Ha Hb. unfold resolve. rewrite is_rooted_app by done. change (bs "/" ++ b) with ("/"%char :: b).
  rewrite Split_app, fold_left_app, clean_plain, rev_app_distr, rev_involutive by done. by destruct (is_rooted a).
Qed.

Lemma resolve_plain b : Forall plain (Split b "/") -> resolve b = Split b "/".
Proof.
  intros Hb. unfold resolve. assert (Hr : is_rooted b = false).
  { destruct b as [|c b]; [done|]. cbn [is_rooted]. destruct (byte_eqb_spec c "/") as [->|]; [|done]. cbn [Split] in Hb.
    change (byte_eqb "/" "/") with true in Hb. apply Forall_cons in Hb as [(He & _) _]. by destruct He. }
  by rewrite Hr, clean_plain, app_nil_r, rev_involutive.
Qed.

(** *** Relative paths of plain elements *)

Lemma plain_join segs : segs <> [] -> Forall plain segs -> path_text segs = Join segs "/" /\ Split (path_text segs) "/" = segs.
Proof.
  intros Hne Hp. assert (Ht : path_text segs = Join segs "/").
  { unfold path_text. destruct segs as [|e rest]; [done|]. apply Forall_cons in Hp as [(He & _) _]. by destruct e, rest. }
  split; [done|]. rewrite Ht. apply Split_Join; [done|]. eapply Forall_impl; [exact Hp|]. by intros e (_ & _ & _ & Hs).
Qed.

Lemma resolve_text segs : Forall plain segs -> resolve (path_text segs) = segs.
Proof.
  intros Hp. destruct (decide (segs = [])) as [->|Hne]; [done|]. destruct (plain_join segs Hne Hp) as [_ Hs].
  rewrite resolve_plain, Hs; [done|]. by rewrite Hs.
Qed.

Lemma plain_split child : plain child -> Split child "/" = [child].
Proof. intros (_ & _ & _ & Hs). change child with (Join [child] "/") at 1. apply Split_Join; [done|]. by repeat constructor. Qed.

(** The children of a directory of the walk *)
Lemma path_Join_child segs child : Forall plain segs -> plain child -> path_Join (path_text segs) child = path_text (segs ++ [child]).
Proof.
  intros Hp Hc. assert (Hne : path_text segs <> []).
  { destruct (decide (segs = [])) as [->|Hne]; [done|]. intros He. pose proof (proj2 (plain_join segs Hne Hp)) as Hs.
    rewrite He in Hs. subst segs. apply Forall_cons in Hp as [(He' & _) _]. done. }
  pose proof (resolve_join (path_text segs) child Hne) as Hr. rewrite (plain_split child Hc), (resolve_text segs Hp) in Hr.
  assert (Hj : path_Join (path_text segs) child = path_Clean (path_text segs ++ bs "/" ++ child)).
  { unfold path_Join. by destruct (path_text segs). }
  rewrite Hj. unfold path_Clean. rewrite Hr by (by apply Forall_singleton). done.
Qed.

Lemma text_dot segs : Forall plain segs -> path_text segs = bs "." -> segs = [].
Proof.
  intros Hp He. destruct (decide (segs = [])) as [|Hne]; [done|]. destruct (plain_join segs Hne Hp) as [_ Hs].
  rewrite He in Hs. change (Split (bs ".") "/") with [bs "."] in Hs. subst segs. by apply Forall_cons in Hp as [(_ & Hd & _) _].
Qed.

(** *** Clean paths *)

(** The elements of a path without dots, relative or absolute *)
Definition clean_key (k : list bytes) : Prop := Forall plain k \/ exists k', k = [] :: k' /\ Forall plain k'.

Lemma clean_key_snoc k e : clean_key (k ++ [e]) -> e <> [] -> clean_key k /\ plain e.
Proof.
  intros [Hp|(k' & Hk & Hp)] He.
  - apply Forall_app in Hp as [Hk [Hs _]%Forall_cons]. split; [by left|done].
  - destruct k as [|x k]; cbn [app] in Hk; [injection Hk as -> _; done|]. injection Hk as -> <-.
    apply Forall_app in Hp as [Hk [Hs _]%Forall_cons]. split; [right; by exists k|done].
Qed.

Lemma clean_key_app k l : clean_key k -> Forall plain l -> clean_key (k ++ l).
Proof.
  intros [Hp|(k' & -> & Hp)] Hl; [left|right; exists (k' ++ l); split; [done|]]; by apply Forall_app.
Qed.

Lemma slash_free l : Forall plain l -> Forall (fun e => "/"%char ∉ e) ([] :: l) /\ Forall (fun e => "/"%char ∉ e) l.
Proof.
  intros Hl. assert (Hs : Forall (fun e => "/"%char ∉ e) l) by (eapply Forall_impl; [exact Hl|]; by intros e (_ & _ & _ & ?)).
  split; [constructor; [apply not_elem_of_nil|done]|done].
Qed.

Lemma Split_clean k : clean_key k -> k <> [] -> Split (Join k "/") "/" = k.
Proof. intros [Hp|(k' & -> & Hp)] Hne; (apply Split_Join; [done|]); by destruct (slash_free _ Hp). Qed.

Lemma is_rooted_Split p : is_rooted p = match Split p "/" with [] :: _ :: _ => true | _ => false end.
Proof.
  destruct p as [|c p]; [done|]. cbn [is_rooted Split]. destruct (byte_eqb c "/") eqn:Hc.
  - by destruct (Split p "/") eqn:Hs; [apply Split_nonempty in Hs|].
  - destruct (Split p "/") as [|x [|y l]]; done.
Qed.

(** What a path denotes is determined by its elements; empty ones at the end
    do not count. *)
Lemma resolve_Split p k : clean_key k -> k <> [] -> Split p "/" = k \/ Split p "/" = k ++ [[]] -> p <> [] -> resolve p = k.
Proof.
  intros Hk Hne Hs Hp. unfold resolve. rewrite is_rooted_Split. destruct Hk as [Hk|(k' & -> & Hk)].
  - assert (Hr : (match Split p "/" with [] :: _ :: _ => true | _ => false end) = false).
    { destruct k as [|e k]; [done|]. apply Forall_cons in Hk as [(He & _) _]. by destruct Hs as [-> | ->], e. }
    rewrite Hr. destruct Hs as [-> | ->]; [|rewrite fold_left_app]; rewrite (clean_plain _ k), app_nil_r by done; apply rev_involutive.
  - destruct Hs as [Hs|Hs]; rewrite Hs.
    + destruct k' as [|e k']; [cbn in Hs|].
      { exfalso. apply Hp. rewrite <- (Join_Split p "/"), Hs. done. }
      change (fold_left (clean_push true) ([] :: e :: k') []) with (fold_left (clean_push true) (e :: k') []).
      rewrite clean_plain, app_nil_r by done. by rewrite rev_involutive.
    + change (([] :: k') ++ [[]]) with ([] :: (k' ++ [[]])). destruct (k' ++ [[]]) as [|x l] eqn:Hx; [by destruct k'|].
      rewrite <- Hx. change (fold_left (clean_push true) ([] :: k' ++ [[]]) []) with (fold_left (clean_push true) (k' ++ [[]]) []).
      rewrite fold_left_app, (clean_plain _ k') by done. cbn [fold_left]. rewrite app_nil_r.
      change (clean_push true (rev k') []) with (rev k'). by rewrite rev_involutive.
Qed.

Lemma path_text_clean k : clean_key k -> k <> [] -> k <> [[]] -> path_text k = Join k "/" /\ path_text k <> [].
Proof.
  intros Hk Hne Hr. assert (Ht : path_text k = Join k "/") by (unfold path_text; by destruct k as [|[|] [|]]).
  split; [done|]. rewrite Ht. intros He. pose proof (Split_clean k Hk Hne) as Hs. rewrite He in Hs. by cbn in Hs; subst k.
Qed.

Lemma resolve_clean k : clean_key k -> resolve (path_text k) = k.
Proof.
  intros Hk. destruct (decide (k = [])) as [->|Hne]; [done|]. destruct (decide (k = [[]])) as [->|Hr]; [done|].
  destruct (path_text_clean k Hk Hne Hr) as [Ht Hp]. apply resolve_Split; [done|done| |done]. left. rewrite Ht. by apply Split_clean.
Qed.

(** The directory of a path *)
Lemma path_Split_snoc k e : clean_key (k ++ [e]) -> e <> [] ->
  path_Split (path_text (k ++ [e])) = (match k with [] => [] | _ => Join k "/" ++ bs "/" end, e).
Proof.
  intros Hk He. assert (Hne : k ++ [e] <> []) by (by destruct k). assert (Hr : k ++ [e] <> [[]]) by (destruct k as [|? []]; cbn; congruence).
  destruct (path_text_clean _ Hk Hne Hr) as [Ht _]. unfold path_Split. rewrite Ht, Split_clean by done.
  rewrite rev_app_distr. cbn [rev app]. destruct (rev k) as [|x l] eqn:Hrk.
  - assert (k = []) as -> by (rewrite <- (rev_involutive k), Hrk; done). done.
  - rewrite <- Hrk, rev_involutive. destruct k; [done|]. reflexivity.
Qed.

Lemma resolve_Dir k e : clean_key (k ++ [e]) -> e <> [] -> resolve (path_Dir (path_text (k ++ [e]))) = k
  /\ path_Dir (path_text (k ++ [e])) = path_text k.
Proof.
  intros Hk He. destruct (clean_key_snoc k e Hk He) as [Hc _]. unfold path_Dir. rewrite path_Split_snoc by done. cbn [fst].
  assert (Hres : path_Clean (match k with [] => [] | _ => Join k "/" ++ bs "/" end) = path_text k).
  { unfold path_Clean. destruct k as [|x k]; [done|]. rewrite (resolve_Split _ (x :: k)); [done|done|done| |by destruct (Join (x :: k) "/")].
    right. change (bs "/") with ("/"%char :: []). rewrite Split_app. by rewrite Split_clean. }
  rewrite Hres. split; [by apply resolve_clean|done].
Qed.

(** The last element of a path *)
Lemma trim_slashes_id s c : c <> "/"%char -> trim_slashes (s ++ [c]) = s ++ [c].
Proof.
  intros Hc. unfold trim_slashes. rewrite rev_app_distr. cbn [rev app TrimLeftFunc].
  destruct (byte_eqb_spec "/" c) as [<-|]; [done|]. cbn [rev]. by rewrite rev_involutive.
Qed.

Lemma path_text_end k e : clean_key (k ++ [e]) -> e <> [] -> exists s c, path_text (k ++ [e]) = s ++ [c] /\ c <> "/"%char.
Proof.
  intros Hk He. destruct (clean_key_snoc k e Hk He) as [_ (_ & _ & _ & Hslash)].
  assert (Hne : k ++ [e] <> []) by (by destruct k). assert (Hr : k ++ [e] <> [[]]) by (destruct k as [|? []]; cbn; congruence).
  destruct (path_text_clean _ Hk Hne Hr) as [Ht Hp]. rewrite Ht.
  destruct e as [|c s _] using rev_ind; [done|]. rewrite not_elem_of_app, not_elem_of_cons in Hslash.
  destruct k as [|x k]; [exists s, c; naive_solver|]. rewrite Join_app by done. exists (Join (x :: k) "/" ++ "/"%char :: s), c.
  split; [|naive_solver]. cbn [Join]. by rewrite <- app_assoc.
Qed.

Lemma path_Base_snoc k e : clean_key (k ++ [e]) -> e <> [] -> path_Base (path_text (k ++ [e])) = e.
Proof.
  intros Hk He. destruct (path_text_end k e Hk He) as (s & c & Hs & Hc). unfold path_Base.
  rewrite Hs, trim_slashes_id, <- Hs, path_Split_snoc by done. cbn [snd]. rewrite Hs. by destruct s, e.
Qed.

(** The elements of a resolved path come from the path. *)
Lemma clean_elems rooted l stack e : e ∈ fold_left (clean_push rooted) l stack -> e ∈ stack \/ (e ∈ l /\ e <> [] /\ e <> bs ".").
Proof.
  revert stack. induction l as [|x l IH]; intros stack; cbn [fold_left]; [by left|]. intros [Hs|(Hl & Hn)]%IH.
  - unfold clean_push in Hs. destruct (bytes_eqb_spec x []); cbn [orb] in Hs; [by left|].
    destruct (bytes_eqb_spec x (bs ".")); cbn [orb] in Hs; [by left|].
    assert (Hcase : e ∈ stack \/ e = x); [|destruct Hcase as [?| ->]; [by left|right; split; [by left|done]]].
    destruct (bytes_eqb x (bs "..")); [|apply elem_of_cons in Hs; tauto]. destruct stack as [|y stack].
    + destruct rooted; [by apply elem_of_nil in Hs|right; by apply list_elem_of_singleton in Hs].
    + destruct (bytes_eqb y (bs "..")); [apply elem_of_cons in Hs; tauto|left; by right].
  - right. split; [by right|done].
Qed.

Lemma resolve_clean_key p : (forall e, e ∈ Split p "/" -> e <> bs "..") -> clean_key (resolve p).
Proof.
  intros Hdots. unfold resolve. set (l := rev _).
  assert (Hl : Forall plain l).
  { apply Forall_forall. intros e He. unfold l in He. rewrite list_elem_of_In, <- in_rev, <- list_elem_of_In in He.
    apply clean_elems in He as [?%elem_of_nil|(Hin & H0 & H1)]; [done|]. split_and!; [done|done|by apply Hdots|].
    pose proof (Split_free p "/") as Hf. rewrite Forall_forall in Hf. by apply Hf. }
  destruct (is_rooted p); [right; by exists l|by left].
Qed.
