(* ===== verification/Retry.v ===== *)
(** * Retry policy ([internal/retry/policy.go])

    Failure categories and their transience, HTTP status classification, the
    [Retry-After] header and the backoff schedule with optional jitter. The
    theorems bound every delay the package can produce and give the schedule
    its closed form. *)

From Stdlib Require Import Floats.SpecFloat.
From S2P Require Import Prelude GoText.

(** ** Categories *)

Definition MaxAttemptsPerCycle : Z := 2.
Definition MaxDelay : Z := 24 * Hour.

(** [Category] is a Go string type; the constructors are its declared
    constants and [CategoryOther] is any other string. *)
Inductive Category : Type :=
| CategoryNone
| CategoryDNS
| CategoryTransport
| CategoryTimeout
| CategoryRobotsTemporary
| CategoryHTTP408
| CategoryHTTP429
| CategoryHTTP4xx
| CategoryHTTP5xx
| CategoryDeclarationUnavailable
| CategoryProcessor
| CategoryStore
| CategoryUnsafeAddress
| CategoryPolicyBlocked
| CategoryRobotsDenied
| CategoryMalformedOrigin
| CategoryUnsupportedOrigin
| CategoryOversizedContent
| CategoryUnsupportedContent
| CategoryBudgetExhausted
| CategoryDeclarationInvalid
| CategoryDeclarationUnsupported
| CategoryCrossOriginRedirect
| CategoryDeclarationAbsent
| CategoryOther (text : bytes).

#[export] Instance Category_eq_dec : EqDecision Category.
Proof. solve_decision. Defined.

(** The string value of a category. *)
Definition category_text (c : Category) : bytes :=
  match c with
  | CategoryNone => bs ""
  | CategoryDNS => bs "dns"
  | CategoryTransport => bs "transport"
  | CategoryTimeout => bs "timeout"
  | CategoryRobotsTemporary => bs "robots_temporary"
  | CategoryHTTP408 => bs "http_408"
  | CategoryHTTP429 => bs "http_429"
  | CategoryHTTP4xx => bs "http_4xx"
  | CategoryHTTP5xx => bs "http_5xx"
  | CategoryDeclarationUnavailable => bs "declaration_unavailable"
  | CategoryProcessor => bs "processor"
  | CategoryStore => bs "store"
  | CategoryUnsafeAddress => bs "unsafe_address"
  | CategoryPolicyBlocked => bs "policy_blocked"
  | CategoryRobotsDenied => bs "robots_denied"
  | CategoryMalformedOrigin => bs "malformed_origin"
  | CategoryUnsupportedOrigin => bs "unsupported_origin"
  | CategoryOversizedContent => bs "oversized_content"
  | CategoryUnsupportedContent => bs "unsupported_content"
  | CategoryBudgetExhausted => bs "budget_exhausted"
  | CategoryDeclarationInvalid => bs "declaration_invalid"
  | CategoryDeclarationUnsupported => bs "declaration_unsupported"
  | CategoryCrossOriginRedirect => bs "cross_origin_redirect"
  | CategoryDeclarationAbsent => bs "declaration_absent"
  | CategoryOther text => text
  end.

Definition Transient (category : Category) : bool :=
  match category with
  | CategoryDNS | CategoryTransport | CategoryTimeout
  | CategoryRobotsTemporary | CategoryHTTP408 | CategoryHTTP429
  | CategoryHTTP5xx | CategoryDeclarationUnavailable
  | CategoryProcessor | CategoryStore => true
  | _ => false
  end.

Definition Valid (category : Category) : bool :=
  match category with
  | CategoryNone | CategoryDNS | CategoryTransport | CategoryTimeout
  | CategoryRobotsTemporary | CategoryHTTP408 | CategoryHTTP429
  | CategoryHTTP4xx | CategoryHTTP5xx | CategoryDeclarationUnavailable
  | CategoryProcessor | CategoryStore | CategoryUnsafeAddress
  | CategoryPolicyBlocked | CategoryRobotsDenied | CategoryMalformedOrigin
  | CategoryUnsupportedOrigin | CategoryOversizedContent
  | CategoryUnsupportedContent | CategoryBudgetExhausted
  | CategoryDeclarationInvalid | CategoryDeclarationUnsupported
  | CategoryCrossOriginRedirect | CategoryDeclarationAbsent => true
  | CategoryOther _ => false
  end.

Definition HTTPStatusCategory (status : Z) : Category * bool :=
  if status =? 408 then (CategoryHTTP408, true)
  else if status =? 429 then (CategoryHTTP429, true)
  else if (500 <=? status) && (status <=? 599) then (CategoryHTTP5xx, true)
  else if (status =? 404) || (status =? 410) then (CategoryDeclarationAbsent, false)
  else if (400 <=? status) && (status <=? 499) then (CategoryHTTP4xx, false)
  else (CategoryDeclarationUnavailable, false).

(** ** Delays *)

Definition capDuration (duration : Z) : Z :=
  if duration <=? 0 then 0
  else if MaxDelay <? duration then MaxDelay
  else duration.

(** [ParseTime] is [http.ParseTime], the HTTP-date parser of the standard
    library, as a parameter: an instant, or [None] where it reports an error. *)
Definition ParseRetryAfter (ParseTime : bytes -> option Z) (value : bytes) (now : Z) : Z :=
  let value := TrimSpace value in
  if bytes_eqb value [] then 0
  else
    match ParseInt64 value with
    | Some seconds =>
        if seconds <=? 0 then 0
        else
          let maxSeconds := Z.quot MaxDelay Second in
          if maxSeconds <? seconds then MaxDelay
          else wrap_int64 (seconds * Second)
    | None =>
        match ParseTime value with
        | None => 0
        | Some when =>
            if negb (time_After when now) then 0
            else capDuration (time_Sub when now)
        end
    end.

(** *** Binary64 arithmetic of the jitter *)

Definition prec64 : Z := 53.
Definition emax64 : Z := 1024.

(** [float64(z)] *)
Definition float_of_Z (z : Z) : spec_float := binary_normalize prec64 emax64 z 0 false.
Definition fmul (a b : spec_float) : spec_float := SFmul prec64 emax64 a b.
Definition fadd (a b : spec_float) : spec_float := SFadd prec64 emax64 a b.

(** The constants [0.8] and [0.4], rounded to binary64. *)
Definition float_0_8 : spec_float := S754_finite false 7205759403792794 (-53).
Definition float_0_4 : spec_float := S754_finite false 7205759403792794 (-54).
Definition float_0 : spec_float := S754_zero false.
Definition float_1 : spec_float := float_of_Z 1.

(** [time.Duration(f)]: truncation toward zero. Go leaves the conversion of a
    NaN, an infinity or an out-of-range value to the implementation; [junk] is
    that value. *)
Definition duration_of_float (junk : Z) (f : spec_float) : Z :=
  match f with
  | S754_zero _ => 0
  | S754_finite s m e =>
      let magnitude := Z.shiftl (Zpos m) e in
      let z := if s then - magnitude else magnitude in
      if (min_int64 <=? z) && (z <=? max_int64) then z else junk
  | S754_infinity _ | S754_nan => junk
  end.

Definition schedule : list Z :=
  [5 * Minute; 30 * Minute; 2 * Hour; 12 * Hour; 24 * Hour].

(** [jitter] is the next sample of the policy's [Jitter], or [None] for a
    policy without one. *)
Definition Delay (junk : Z) (jitter : option spec_float)
    (consecutiveFailures retryAfter : Z) : Z :=
  let index := consecutiveFailures - 1 in
  let index := if index <? 0 then 0 else index in
  let index := if 5 <=? index then 5 - 1 else index in
  let delay := List.nth (Z.to_nat index) schedule 0 in
  let delay :=
    match jitter with
    | None => delay
    | Some sample =>
        let sample := if SFltb sample float_0 then float_0 else sample in
        let sample := if SFltb float_1 sample then float_1 else sample in
        duration_of_float junk
          (fmul (float_of_Z delay) (fadd float_0_8 (fmul sample float_0_4)))
    end in
  let delay := if delay <? retryAfter then retryAfter else delay in
  capDuration delay.

(** ** Properties *)

Lemma capDuration_spec d : capDuration d = Z.max 0 (Z.min MaxDelay d).
Proof.
  unfold capDuration, MaxDelay. durations. repeat case_head; lia.
Qed.

Lemma capDuration_bounds d : 0 <= capDuration d <= MaxDelay.
Proof. rewrite capDuration_spec. unfold MaxDelay. durations. lia. Qed.
#[export] Hint Resolve capDuration_bounds : joshbot.

Lemma Delay_bounds junk jitter n r : 0 <= Delay junk jitter n r <= MaxDelay.
Proof. unfold Delay. apply capDuration_bounds. Qed.

(** The backoff step for the [n]-th consecutive failure. *)
Definition backoff (n : Z) : Z :=
  if n <=? 1 then 5 * Minute
  else if n =? 2 then 30 * Minute
  else if n =? 3 then 2 * Hour
  else if n =? 4 then 12 * Hour
  else 24 * Hour.

Lemma Delay_without_jitter junk n r :
  Delay junk None n r = Z.min MaxDelay (Z.max (backoff n) r).
Proof.
  unfold Delay. rewrite capDuration_spec.
  assert (Hstep : List.nth (Z.to_nat
      (if 5 <=? (if n - 1 <? 0 then 0 else n - 1) then 5 - 1
       else (if n - 1 <? 0 then 0 else n - 1))) schedule 0 = backoff n).
  { unfold backoff.
    destruct (Z.leb_spec n 1); [destruct (n - 1 <? 0) eqn:?; [done|]; by replace (n - 1) with 0 by lia|].
    replace (n - 1 <? 0) with false by lia.
    destruct (Z.eqb_spec n 2) as [->|]; [done|]. destruct (Z.eqb_spec n 3) as [->|]; [done|].
    destruct (Z.eqb_spec n 4) as [->|]; [done|].
    destruct (5 <=? n - 1) eqn:?; [done|]. by replace (n - 1) with 4 by lia. }
  cbv zeta. rewrite Hstep. unfold backoff, MaxDelay. durations. repeat case_head; lia.
Qed.

Lemma ParseRetryAfter_bounds ParseTime value now :
  0 <= ParseRetryAfter ParseTime value now <= MaxDelay.
Proof.
  unfold ParseRetryAfter. cbv zeta.
  change (Z.quot MaxDelay Second) with 86400.
  repeat case_head; unfold MaxDelay in *; durations; try lia.
  - rewrite wrap_int64_id; unfold min_int64, max_int64; lia.
  - pose proof (capDuration_bounds (time_Sub z now)). unfold MaxDelay in *. durations. lia.
Qed.

(** Every retry delay lies between zero and 24 hours, whatever the jitter
    source returns (NaN included); without jitter it is the longer of the
    five-step backoff schedule and the server's Retry-After, capped at 24
    hours, and it never shrinks as failures accumulate. *)
Theorem Delay_correct junk jitter n r :
  0 <= Delay junk jitter n r <= MaxDelay
  /\ Delay junk None n r = Z.min MaxDelay (Z.max (backoff n) r)
  /\ (forall m, n <= m -> Delay junk None n r <= Delay junk None m r).
Proof.
  split; [apply Delay_bounds|]. split; [apply Delay_without_jitter|].
  intros m Hm. rewrite !Delay_without_jitter. unfold backoff. durations.
  repeat case_head; lia.
Qed.

Lemma ParseRetryAfter_digits ParseTime value now :
  value <> [] -> forallb is_digit value = true ->
  ParseRetryAfter ParseTime value now =
    if decimal_value value <? 2 ^ 63
    then Z.min MaxDelay (decimal_value value * Second)
    else match ParseTime value with
         | Some when => if time_After when now then capDuration (time_Sub when now) else 0
         | None => 0
         end.
Proof.
  intros Hne Hd. unfold ParseRetryAfter. cbv zeta.
  rewrite TrimSpace_digits by done.
  destruct (bytes_eqb_spec value []); [done|].
  rewrite ParseInt64_digits by done.
  change (Z.quot MaxDelay Second) with 86400.
  pose proof (decimal_value_range value Hd).
  destruct (decimal_value value <? 2 ^ 63); [|destruct (ParseTime value) as [w|];
    [by destruct (time_After w now)|done]].
  unfold MaxDelay. durations. repeat case_head; try lia.
  rewrite wrap_int64_id; unfold min_int64, max_int64; lia.
Qed.

(** a Retry-After header is honoured up to 24 hours: the parsed delay is
    always between zero and 24 hours, and a decimal number of seconds that
    fits in an int64 gives exactly that many seconds, capped at 24 hours. *)
Theorem ParseRetryAfter_correct ParseTime value now :
  0 <= ParseRetryAfter ParseTime value now <= MaxDelay
  /\ (value <> [] -> forallb is_digit value = true -> decimal_value value < 2 ^ 63 ->
      ParseRetryAfter ParseTime value now = Z.min MaxDelay (decimal_value value * Second)).
Proof.
  split; [apply ParseRetryAfter_bounds|]. intros Hne Hd Hv.
  rewrite ParseRetryAfter_digits by done. by replace (decimal_value value <? 2 ^ 63) with true by lia.
Qed.

Lemma ParseRetryAfter_correct_witness :
  ParseRetryAfter (fun _ => None) (bs "0000000000000000000000120") 0 = 120 * Second
  /\ ParseRetryAfter (fun _ => None) (bs "9223372036854775807") 0 = MaxDelay.
Proof.
  split.
  - rewrite (proj2 (ParseRetryAfter_correct (fun _ => None) (bs "0000000000000000000000120") 0)) by done.
    reflexivity.
  - rewrite (proj2 (ParseRetryAfter_correct (fun _ => None) (bs "9223372036854775807") 0)) by done.
    reflexivity.
Defined.

(** a decimal Retry-After too large for an int64 is not capped like a large
    representable one: it falls through to the HTTP-date parser and, when that
    rejects it, the server's request is dropped (zero delay). *)
Theorem ParseRetryAfter_overflow_is_dropped ParseTime value now :
  value <> [] -> forallb is_digit value = true -> 2 ^ 63 <= decimal_value value ->
  ParseTime value = None ->
  ParseRetryAfter ParseTime value now = 0.
Proof.
  intros Hne Hd Hv Hp. rewrite ParseRetryAfter_digits by done. rewrite Hp.
  by replace (decimal_value value <? 2 ^ 63) with false by lia.
Qed.

Lemma ParseRetryAfter_overflow_is_dropped_witness :
  ParseRetryAfter (fun _ => None) (bs "9223372036854775808") 0 = 0.
Proof. by apply ParseRetryAfter_overflow_is_dropped. Defined.

(** The retry flag of [HTTPStatusCategory] implies a transient category. *)
Lemma HTTPStatusCategory_transient status category :
  HTTPStatusCategory status = (category, true) -> Transient category = true.
Proof. unfold HTTPStatusCategory. intros H. repeat case_head_in H; by simplify_eq. Qed.

Lemma HTTPStatusCategory_valid status : Valid (fst (HTTPStatusCategory status)) = true.
Proof. unfold HTTPStatusCategory. by repeat case_head. Qed.

Lemma Transient_Valid category : Transient category = true -> Valid category = true.
Proof. by destruct category. Qed.
#[export] Hint Resolve HTTPStatusCategory_transient HTTPStatusCategory_valid Transient_Valid : joshbot.
