(* ===== verification/Origin.v ===== *)
(** * Web origins ([internal/origin])

    [Parse] derives the canonical origin of an absolute HTTP or HTTPS URL:
    the URL is split by [net/url], an address literal is normalized by
    [net/netip], a domain by the IDNA profile, and the port is compared with
    the scheme's default. [net/url], [net/netip]'s text forms and
    [golang.org/x/net/idna] are interfaces with documented laws. *)

From S2P Require Import Prelude GoText GoUrl GoNetip.

(** ** The environment *)

(** [idnaProfile.ToASCII] *)
Class IDNA := { ToASCII : bytes -> option bytes }.

(** ** Data *)

Record Origin : Type := mkOrigin {
  serialization : bytes;
  hostname : bytes;
  port : Z;
}.

#[export] Instance Origin_eq_dec : EqDecision Origin.
Proof. solve_decision. Defined.

#[export] Instance Origin_countable : Countable Origin.
Proof.
  apply (inj_countable' (fun o => (serialization o, hostname o, port o))
           (fun '(s, h, p) => mkOrigin s h p)). by intros [].
Defined.

Definition zero_origin : Origin := mkOrigin [] [] 0.

Inductive parse_error : Type :=
| invalidURL | unsupportedScheme | credentials | missingHost | zoneIdentifier
| invalidHost | numericIPv4 | invalidPort.

#[export] Instance parse_error_eq_dec : EqDecision parse_error.
Proof. solve_decision. Defined.

(** ** Operations *)

Definition is_hex_digit (c : ascii) : bool :=
  is_digit c || in_range "A" "F" c || in_range "a" "f" c.

(** The text after the last dot. *)
Definition last_label (s : bytes) : bytes :=
  match last_index "." s with Some i => drop (S i) s | None => s end.

(** [[0-9]+|0[xX][0-9A-Fa-f]*] *)
Definition number_label (label : bytes) : bool :=
  match label with
  | [] => false
  | c :: rest =>
      forallb is_digit label
      || (byte_eqb c "0"
          && match rest with
             | x :: digits => (byte_eqb x "x" || byte_eqb x "X") && forallb is_hex_digit digits
             | [] => false
             end)
  end.

(** [endsInNumberPattern]: the alternatives contain no dot, so the label is the
    text after the last dot once an optional final dot is set aside. *)
Definition endsInNumber (host : bytes) : bool := number_label (last_label (TrimSuffix host (bs "."))).

Definition forbidden_byte (c : ascii) : bool :=
  (code c <=? code " ") || (code c =? 127) || Contains (bs "#%/:<>?@[\]^|") c.

(** [hasForbiddenDomainCodePoint]: every forbidden code point is ASCII, so the
    runes can be scanned byte by byte. *)
Definition hasForbiddenDomainCodePoint (host : bytes) : bool := existsb forbidden_byte host.

Definition http : bytes := bs "http".
Definition https : bytes := bs "https".

Section Parse.
Context `{NetURL} `{NetIP} `{IDNA}.

(** The domain branch of [Parse]. *)
Definition domain_host (host : bytes) : res parse_error bytes :=
  match ToASCII host with
  | None => Err invalidHost
  | Some asciiHost =>
      match ToASCII asciiHost with
      | None => Err invalidHost
      | Some stableHost =>
          if bytes_eqb asciiHost [] || negb (bytes_eqb stableHost asciiHost)
             || hasForbiddenDomainCodePoint asciiHost
          then Err invalidHost
          else if endsInNumber asciiHost then Err numericIPv4
          else if HasSuffix asciiHost (bs ".") then
            let trimmed := TrimSuffix asciiHost (bs ".") in
            if bytes_eqb trimmed [] || HasSuffix trimmed (bs ".") then Err invalidHost
            else Ok trimmed
          else Ok asciiHost
      end
  end.

(** The canonical hostname and its form in the serialization. *)
Definition canonical_host (host : bytes) : res parse_error (bytes * bytes) :=
  match ParseAddr host with
  | Some address =>
      if negb (bytes_eqb (addr_Zone address) []) then Err zoneIdentifier
      else
        let canonical := addr_String address in
        Ok (canonical, if addr_Is6 address then bs "[" ++ canonical ++ bs "]" else canonical)
  | None => let? asciiHost := domain_host host in Ok (asciiHost, asciiHost)
  end.

Definition default_port (scheme : bytes) : Z := if bytes_eqb scheme http then 80 else 443.

Definition Parse (rawURL : bytes) : res parse_error Origin :=
  match url_Parse rawURL with
  | None => Err invalidURL
  | Some parsed =>
      let scheme := Scheme parsed in
      if negb (bytes_eqb scheme http || bytes_eqb scheme https) then Err unsupportedScheme
      else
        match User parsed with
        | Some _ => Err credentials
        | None =>
            let host := url_Hostname parsed in
            if bytes_eqb host [] then Err missingHost
            else
              let? (canonicalHostname, serializationHost) := canonical_host host in
              let portText := url_Port parsed in
              if bytes_eqb portText [] then
                Ok (mkOrigin (scheme ++ bs "://" ++ serializationHost) canonicalHostname
                      (default_port scheme))
              else
                match ParseUint portText 16 with
                | None => Err invalidPort
                | Some portNumber =>
                    let defaultPort :=
                      (bytes_eqb scheme http && (portNumber =? 80))
                      || (bytes_eqb scheme https && (portNumber =? 443)) in
                    let serializationHost :=
                      if defaultPort then serializationHost
                      else serializationHost ++ bs ":" ++ FormatUint portNumber in
                    Ok (mkOrigin (scheme ++ bs "://" ++ serializationHost) canonicalHostname
                          portNumber)
                end
        end
  end.
End Parse.

Definition origin_String (o : Origin) : bytes := serialization o.
Definition Hostname (o : Origin) : bytes := hostname o.
Definition Port (o : Origin) : Z := port o.

(** ** Laws of the environment *)

(** The bytes [net/url] accepts unescaped in a registered name. *)
Definition url_host_byte (c : ascii) : bool :=
  is_digit c || is_alpha c || Contains (bs "-_.~!$&'()*+,;=") c.

Definition port_suffix (p : option Z) : bytes :=
  match p with Some n => bs ":" ++ FormatUint n | None => [] end.

(** A URL that is only a scheme and an authority. *)
Definition authority_URL (scheme hostPort : bytes) : URL :=
  mkURL scheme [] None hostPort [] [] false [] [] [].

Class OriginLaws `{NetURL} `{NetIP} `{IDNA} := {
  (** [url.Parse] of a scheme and a registered name, or a bracketed IPv6
      address, with an optional port. *)
  url_Parse_name scheme name p :
    scheme = http \/ scheme = https -> name <> [] -> forallb url_host_byte name = true ->
    url_Parse (scheme ++ bs "://" ++ name ++ port_suffix p)
    = Some (authority_URL scheme (name ++ port_suffix p));
  url_Parse_ip6 scheme v p :
    scheme = http \/ scheme = https -> 0 <= v < 2 ^ 128 ->
    url_Parse (scheme ++ bs "://" ++ (bs "[" ++ addr_String (Addr6 v []) ++ bs "]") ++ port_suffix p)
    = Some (authority_URL scheme ((bs "[" ++ addr_String (Addr6 v []) ++ bs "]") ++ port_suffix p));
  (** The profile maps each label on its own and keeps a final root label. *)
  ToASCII_root name :
    HasSuffix name (bs ".") = false ->
    ToASCII (name ++ bs ".") = Some (name ++ bs ".") -> ToASCII name = Some name;
}.

(** ** Facts *)

(** The last label of a text whose last dot-separated part is dot-free. *)
Lemma last_label_app p label : "."%char ∉ label -> (p = [] \/ exists q, p = q ++ bs ".") ->
  last_label (p ++ label) = label.
Proof.
  intros Hdot [->|[q ->]]; unfold last_label.
  - simpl. by rewrite (proj2 (last_index_None _ _)).
  - rewrite <- app_assoc. change (bs "." ++ label) with ("."%char :: label).
    rewrite last_index_app by done.
    change (q ++ "."%char :: label) with (q ++ (bs "." ++ label)). rewrite app_assoc.
    replace (S (length q)) with (length (q ++ bs ".")) by (rewrite length_app; simpl; lia).
    apply drop_app_length.
Qed.

Lemma digits_no_dot s : forallb is_digit s = true -> "."%char ∉ s.
Proof.
  intros Hd Hin. rewrite forallb_forall in Hd.
  by specialize (Hd "."%char (proj1 (list_elem_of_In _ _) Hin)).
Qed.

Lemma endsInNumber_digits p digits :
  digits <> [] -> forallb is_digit digits = true -> (p = [] \/ exists q, p = q ++ bs ".") ->
  endsInNumber (p ++ digits) = true.
Proof.
  intros Hne Hd Hp. unfold endsInNumber. rewrite TrimSuffix_no.
  - rewrite last_label_app by (by try apply digits_no_dot). destruct digits as [|c ds]; [done|].
    unfold number_label. by rewrite Hd.
  - apply not_true_is_false. intros [t Ht]%HasSuffix_spec.
    destruct digits as [|c ds _] using rev_ind; [done|].
    rewrite app_assoc in Ht. apply app_inj_tail in Ht as [_ Hc].
    rewrite forallb_app in Hd. b2p. by subst c.
Qed.

Lemma not_forbidden host c :
  hasForbiddenDomainCodePoint host = false -> forbidden_byte c = true -> c ∉ host.
Proof.
  intros Hf Hc Hin. unfold hasForbiddenDomainCodePoint in Hf.
  apply not_true_iff_false in Hf. apply Hf, existsb_exists. exists c.
  by rewrite <- list_elem_of_In.
Qed.

Section Facts.
Context `{NetURL} `{NetIP} `{IDNA} `{!NetIPLaws}.

(** A domain name that [domain_host] returns: its form and its fixed point. *)
Record domain_ok (name : bytes) : Prop := {
  domain_nonempty : name <> [];
  domain_legal : hasForbiddenDomainCodePoint name = false;
  domain_not_number : endsInNumber name = false;
  domain_no_root : HasSuffix name (bs ".") = false;
  domain_stable : ToASCII name = Some name \/ ToASCII (name ++ bs ".") = Some (name ++ bs ".");
}.

Lemma domain_host_ok host name : domain_host host = Ok name -> domain_ok name.
Proof.
  unfold domain_host. destruct (ToASCII host) as [a|]; [|done].
  destruct (ToASCII a) as [stable|] eqn:Hst; [|done].
  destruct (bytes_eqb_spec a []) as [|Hne]; [done|].
  destruct (bytes_eqb_spec stable a) as [->|]; [|done]. cbn [negb orb].
  destruct (hasForbiddenDomainCodePoint a) eqn:Hf; [done|].
  destruct (endsInNumber a) eqn:Hn; [done|].
  destruct (HasSuffix a (bs ".")) eqn:Hs; [|by intros [= <-]; split; auto].
  apply HasSuffix_spec in Hs as [t ->]. rewrite TrimSuffix_app.
  destruct (bytes_eqb_spec t []) as [|Hte]; [done|].
  destruct (HasSuffix t (bs ".")) eqn:Ht; [done|]. cbn [orb]. intros [= <-].
  unfold hasForbiddenDomainCodePoint in Hf. apply existsb_app_false in Hf as [Hf _].
  split; auto. revert Hn. unfold endsInNumber. by rewrite TrimSuffix_app, (TrimSuffix_no t).
Qed.

Lemma domain_not_address name : domain_ok name -> ParseAddr name = None.
Proof.
  intros [Hne Hf Hn Hs _]. destruct (ParseAddr name) as [a|] eqn:Ha; [|done]. exfalso.
  destruct a as [|v|v zone].
  - by apply ParseAddr_wf in Ha as [? _].
  - apply ParseAddr4_text in Ha as (p & digits & -> & Hd & Hdd & Hp).
    by rewrite endsInNumber_digits in Hn.
  - apply ParseAddr6_text in Ha. by apply (not_forbidden _ ":") in Hf.
Qed.

(** The host part of a canonical serialization. *)
Inductive host_form : bytes -> bytes -> Prop :=
| host_ip4 v : 0 <= v < 2 ^ 32 -> host_form (addr_String (Addr4 v)) (addr_String (Addr4 v))
| host_ip6 v : 0 <= v < 2 ^ 128 ->
    host_form (addr_String (Addr6 v [])) (bs "[" ++ addr_String (Addr6 v []) ++ bs "]")
| host_domain name : domain_ok name -> host_form name name.

Lemma canonical_host_form host h s : canonical_host host = Ok (h, s) -> host_form h s.
Proof.
  unfold canonical_host. destruct (ParseAddr host) as [a|] eqn:Ha.
  - apply ParseAddr_wf in Ha as [Hv Hwf].
    destruct (bytes_eqb_spec (addr_Zone a) []) as [Hz|]; [|done]. cbn [negb].
    intros [= <- <-]. destruct a as [|v|v zone]; [done| |]; simpl in *.
    + by constructor.
    + subst zone. by constructor.
  - destruct (domain_host host) as [name|] eqn:Hd; [|done]. intros [= <- <-].
    constructor. by eapply domain_host_ok.
Qed.

Definition port_text (scheme : bytes) (p : Z) : option Z :=
  if p =? default_port scheme then None else Some p.

(** Every parsed origin is a canonical serialization. *)
Lemma Parse_shape raw o : Parse raw = Ok o ->
  exists scheme s, (scheme = http \/ scheme = https) /\ host_form (Hostname o) s
    /\ 0 <= Port o < 2 ^ 16
    /\ origin_String o = scheme ++ bs "://" ++ s ++ port_suffix (port_text scheme (Port o)).
Proof.
  unfold Parse. destruct (url_Parse raw) as [u|]; [|done].
  destruct (_ || _) eqn:Hs; [|done]. destruct (User u); [done|].
  destruct (bytes_eqb (url_Hostname u) []); [done|].
  destruct (canonical_host (url_Hostname u)) as [[h s]|] eqn:Hh; [|done].
  apply canonical_host_form in Hh. cbn [negb res_bind].
  assert (Hsch : Scheme u = http \/ Scheme u = https).
  { destruct (bytes_eqb_spec (Scheme u) http), (bytes_eqb_spec (Scheme u) https); auto. done. }
  destruct (bytes_eqb (url_Port u) []).
  - intros Ho%(inj Ok). exists (Scheme u), s. subst o. cbn [Hostname Port origin_String hostname port serialization].
    split_and!; [done|done| | |].
    + unfold default_port. case_head; lia.
    + unfold default_port. case_head; lia.
    + unfold port_text. rewrite Z.eqb_refl. cbn [port_suffix]. by rewrite app_nil_r.
  - destruct (ParseUint (url_Port u) 16) as [n|] eqn:Hn; [|done].
    apply ParseUint_Some in Hn as (_ & _ & _ & Hr). intros Ho%(inj Ok). exists (Scheme u), s. subst o.
    cbn [Hostname Port origin_String hostname port serialization].
    split_and!; [done|done|lia|lia|]. do 2 f_equal.
    unfold port_text, default_port.
    destruct Hsch as [-> | ->]; [change (bytes_eqb http http) with true; change (bytes_eqb http https) with false
      |change (bytes_eqb https https) with true; change (bytes_eqb https http) with false];
      cbn [andb orb]; rewrite ?orb_false_r; case_head; cbn [port_suffix]; by rewrite ?app_nil_r.
Qed.

Lemma forallb_not_elem (f : ascii -> bool) s c : forallb f s = true -> f c = false -> c ∉ s.
Proof.
  intros Hf Hc Hin. rewrite forallb_forall in Hf.
  specialize (Hf c (proj1 (list_elem_of_In _ _) Hin)). congruence.
Qed.

Lemma no_bracket s : "["%char ∉ s -> HasPrefix s (bs "[") = false.
Proof.
  intros Hn. apply not_true_is_false. intros [t ->]%HasPrefix_spec. apply Hn. by left.
Qed.

(** Splitting a canonical authority recovers the hostname and the port. *)
Lemma splitHostPort_canonical h s p : host_form h s ->
  match p with Some n => 0 <= n < 2 ^ 16 | None => True end ->
  splitHostPort (s ++ port_suffix p)
  = (h, match p with Some n => FormatUint n | None => [] end) /\ h <> [].
Proof.
  intros Hf Hp.
  assert (Hplain : ":"%char ∉ s -> "["%char ∉ s -> splitHostPort (s ++ port_suffix p)
            = (s, match p with Some n => FormatUint n | None => [] end)).
  { intros Hc Hb. destruct p as [n|]; cbn [port_suffix].
    - apply (splitHostPort_port s (FormatUint n)); [|by apply no_bracket].
      by destruct (FormatUint_spec n) as (_ & ? & _); [unfold max_uint64; lia|].
    - rewrite app_nil_r. apply splitHostPort_plain; [done|by apply no_bracket]. }
  destruct Hf as [v Hv|v Hv|name Hname].
  - destruct (String4_bytes v Hv) as [Hne Hb]. split; [|done].
    apply Hplain; by eapply forallb_not_elem.
  - destruct (String6_bytes v Hv) as [Hne Hb]. split; [|done].
    apply splitHostPort_bracket. destruct p as [n|]; [right|by left].
    exists (FormatUint n). split_and!; [done|done|].
    by destruct (FormatUint_spec n) as (_ & ? & _); [unfold max_uint64; lia|].
  - split; [|by destruct Hname]. destruct Hname as [_ Hl _ _ _].
    apply Hplain; by eapply not_forbidden.
Qed.

Lemma scheme_inj a b (s t : bytes) :
  a = http \/ a = https -> b = http \/ b = https ->
  a ++ bs "://" ++ s = b ++ bs "://" ++ t -> a = b /\ s = t.
Proof. intros [-> | ->] [-> | ->] [=]; by subst. Qed.

Lemma port_text_inj scheme p q : 0 <= p < 2 ^ 16 -> 0 <= q < 2 ^ 16 ->
  match port_text scheme p with Some n => FormatUint n | None => [] end
  = match port_text scheme q with Some n => FormatUint n | None => [] end -> p = q.
Proof.
  intros Hp Hq. destruct (FormatUint_spec p) as [Hnp _]; [unfold max_uint64; lia|].
  destruct (FormatUint_spec q) as [Hnq _]; [unfold max_uint64; lia|].
  unfold port_text. repeat case_head; intros Heq; [lia|congruence|congruence|].
  apply FormatUint_inj in Heq; unfold max_uint64; lia.
Qed.

Lemma port_text_range scheme p : 0 <= p < 2 ^ 16 ->
  match port_text scheme p with Some n => 0 <= n < 2 ^ 16 | None => True end.
Proof. intros. unfold port_text. by case_head. Qed.

Lemma parsed_inj raw raw' o o' :
  Parse raw = Ok o -> Parse raw' = Ok o' -> origin_String o = origin_String o' -> o = o'.
Proof.
  intros (sch & s & Hsch & Hf & Hp & Hs)%Parse_shape (sch' & s' & Hsch' & Hf' & Hp' & Hs')%Parse_shape Heq.
  rewrite Hs, Hs' in Heq. destruct (scheme_inj _ _ _ _ Hsch Hsch' Heq) as [<- Hauth].
  destruct (splitHostPort_canonical _ _ _ Hf (port_text_range sch _ Hp)) as [Hsp _].
  destruct (splitHostPort_canonical _ _ _ Hf' (port_text_range sch _ Hp')) as [Hsp' _].
  rewrite Hauth, Hsp' in Hsp. apply pair_equal_spec in Hsp as [Hhost Hport].
  apply port_text_inj in Hport; [|done|done].
  destruct o as [so ho po], o' as [so' ho' po']; unfold Hostname, Port, origin_String in *; simpl in *.
  congruence.
Qed.

Lemma parsed_nonempty raw o : Parse raw = Ok o -> origin_String o <> [].
Proof. intros (sch & s & Hsch & _ & _ & ->)%Parse_shape. by destruct Hsch as [-> | ->]. Qed.

(** The serialization identifies an origin: two origins that [Parse]
    returns with the same serialization are equal, hostname and port
    included, so the store's text key and the in-memory key agree. *)
Theorem origin_String_inj raw raw' o o' :
  Parse raw = Ok o -> Parse raw' = Ok o' -> origin_String o = origin_String o' -> o = o'.
Proof. apply parsed_inj. Qed.

Context `{!OriginLaws}.

Lemma canonical_host_fixed h s : host_form h s -> canonical_host h = Ok (h, s).
Proof.
  intros [v Hv|v Hv|name Hname]; unfold canonical_host.
  - by rewrite ParseAddr_String4.
  - by rewrite ParseAddr_String6.
  - rewrite domain_not_address by done. destruct Hname as [Hne Hl Hn Hd Hst].
    assert (Hfix : ToASCII name = Some name) by (destruct Hst; [done|by apply ToASCII_root]).
    unfold domain_host. rewrite Hfix, Hfix, Hl, Hn, Hd.
    destruct (bytes_eqb_spec name []) as [|_]; [done|].
    by destruct (bytes_eqb_spec name name).
Qed.

Lemma url_Parse_canonical scheme h s p :
  scheme = http \/ scheme = https -> host_form h s ->
  forallb (fun c => url_host_byte c || byte_eqb c ":") h = true ->
  url_Parse (scheme ++ bs "://" ++ s ++ port_suffix p)
  = Some (authority_URL scheme (s ++ port_suffix p)).
Proof.
  intros Hsch Hf Hb. destruct Hf as [v Hv|v Hv|name Hname]; [| by apply url_Parse_ip6 |].
  - destruct (String4_bytes v Hv) as [Hne H4]. apply url_Parse_name; [done|done|].
    rewrite forallb_forall in *. intros c Hc. specialize (H4 c Hc). unfold addr4_byte, url_host_byte in *.
    apply orb_true_iff in H4 as [-> | H4]; [done|]. destruct (byte_eqb_spec c ".") as [Hdot|]; [by rewrite Hdot|done].
  - destruct Hname as [Hne Hl _ _ _]. apply url_Parse_name; [done|done|].
    pose proof (not_forbidden _ ":"%char Hl eq_refl) as Hcolon.
    rewrite forallb_forall in *. intros c Hc. specialize (Hb c Hc). cbn beta in Hb.
    apply orb_true_iff in Hb as [Hb|Hb]; [done|].
    destruct (byte_eqb_spec c ":") as [Heq|]; [|done]. rewrite Heq in Hc. by apply list_elem_of_In in Hc.
Qed.

(** [Parse] is idempotent on its own output: parsing the serialization
    of an origin it returned gives that origin back, for every hostname
    made of the bytes [net/url] accepts in a host. The trailing-dot, the
    numeric-host and the IDNA-stability checks are what makes this hold. *)
Theorem Parse_String_roundtrip raw o :
  Parse raw = Ok o ->
  forallb (fun c => url_host_byte c || byte_eqb c ":") (Hostname o) = true ->
  Parse (origin_String o) = Ok o.
Proof.
  intros (sch & s & Hsch & Hf & Hp & Hs)%Parse_shape Hb.
  destruct (splitHostPort_canonical _ _ _ Hf (port_text_range sch _ Hp)) as [Hsp Hne].
  unfold Parse. rewrite Hs, (url_Parse_canonical _ _ _ _ Hsch Hf Hb).
  unfold url_Hostname, url_Port. cbn [Scheme User Host authority_URL]. rewrite Hsp. cbn [fst snd].
  replace (bytes_eqb sch http || bytes_eqb sch https) with true by (by destruct Hsch as [-> | ->]).
  cbn [negb]. destruct (bytes_eqb_spec (Hostname o) []) as [|_]; [done|].
  rewrite (canonical_host_fixed _ _ Hf). cbn [res_bind].
  destruct (FormatUint_spec (Port o)) as [Hnp _]; [unfold max_uint64; lia|].
  revert Hs. unfold port_text. destruct (Z.eqb_spec (Port o) (default_port sch)) as [Hd|Hd]; cbn [port_suffix].
  - intros Hs. cbn [bytes_eqb]. rewrite <- Hd. rewrite app_nil_r in Hs. rewrite <- Hs. by destruct o.
  - intros Hs. destruct (bytes_eqb_spec (FormatUint (Port o)) []) as [|_]; [done|].
    rewrite ParseUint_FormatUint by lia.
    replace ((bytes_eqb sch http && (Port o =? 80)) || (bytes_eqb sch https && (Port o =? 443)))
      with false by (destruct Hsch as [-> | ->]; unfold default_port in Hd;
        [change (bytes_eqb http http) with true in *; change (bytes_eqb http https) with false
        |change (bytes_eqb https http) with false in *; change (bytes_eqb https https) with true];
        cbn [andb orb] in *; lia).
    rewrite <- Hs. by destruct o.
Qed.
End Facts.

(** ** A concrete environment

    A small text syntax in which the laws hold: an IPv4 address is written as
    one decimal number, an IPv6 address as a colon and a decimal number; a URL
    is [http://] or [https://], an authority and a path. *)

Module Concrete.
Definition format_wide (n : Z) : bytes := format_uint_fuel 40 n [].

Definition parse_number (ds : bytes) (bits : Z) : option Z :=
  if negb (bytes_eqb ds []) && forallb is_digit ds && (decimal_value ds <? 2 ^ bits)
  then Some (decimal_value ds) else None.

Definition parse_addr (s : bytes) : option Addr :=
  if HasPrefix s (bs ":")
  then (fun v => Addr6 v []) <$> parse_number (drop 1 s) 128
  else Addr4 <$> parse_number s 32.

#[export] Instance netip : NetIP := {|
  ParseAddr := parse_addr;
  addr_String a :=
    match a with
    | AddrInvalid => []
    | Addr4 v => format_wide v
    | Addr6 v _ => ":"%char :: format_wide v
    end
|}.

Definition split_path (scheme rest : bytes) : URL :=
  let '(host, path, found) := Cut rest "/" in
  mkURL scheme [] None host (if found then "/"%char :: path else []) [] false [] [] [].

#[export] Instance neturl : NetURL := {|
  url_Parse s :=
    if HasPrefix s (http ++ bs "://") then Some (split_path http (drop 7 s))
    else if HasPrefix s (https ++ bs "://") then Some (split_path https (drop 8 s))
    else if HasPrefix s (bs "/") then Some (mkURL [] [] None [] s [] false [] [] [])
    else None;
  url_String u := Scheme u ++ bs "://" ++ Host u ++ Path u;
  url_EscapedPath u := Path u;
  url_ResolveReference base u :=
    if bytes_eqb (Scheme u) []
    then mkURL (Scheme base) [] None (Host base) (Path u) [] false [] [] [] else u
|}.

#[export] Instance idna : IDNA := {| ToASCII := Some |}.

Lemma format_wide_spec n : 0 <= n < 2 ^ 128 ->
  format_wide n <> [] /\ forallb is_digit (format_wide n) = true /\ decimal_value (format_wide n) = n.
Proof.
  intros Hn. destruct (format_uint_fuel_spec 40 n []) as (ds & Heq & H); [|lia|].
  - change (10 ^ Z.of_nat 40) with 10000000000000000000000000000000000000000.
    change (2 ^ 128) with 340282366920938463463374607431768211456 in Hn. lia.
  - unfold format_wide. by rewrite Heq, app_nil_r.
Qed.

Lemma parse_number_digits ds bits : ds <> [] -> forallb is_digit ds = true ->
  decimal_value ds < 2 ^ bits -> parse_number ds bits = Some (decimal_value ds).
Proof.
  intros Hne Hd Hv. unfold parse_number. rewrite Hd.
  destruct (bytes_eqb_spec ds []) as [|_]; [done|]. by replace (_ <? _) with true by lia.
Qed.

Lemma parse_addr_4 ds : ds <> [] -> forallb is_digit ds = true -> decimal_value ds < 2 ^ 32 ->
  parse_addr ds = Some (Addr4 (decimal_value ds)).
Proof.
  intros Hne Hd Hv. unfold parse_addr.
  replace (HasPrefix ds (bs ":")) with false; [by rewrite parse_number_digits|].
  symmetry. apply not_true_is_false. intros [t ->]%HasPrefix_spec. done.
Qed.

Lemma parse_addr_6 ds : ds <> [] -> forallb is_digit ds = true -> decimal_value ds < 2 ^ 128 ->
  parse_addr (":"%char :: ds) = Some (Addr6 (decimal_value ds) []).
Proof.
  intros Hne Hd Hv. unfold parse_addr.
  rewrite (proj2 (HasPrefix_spec _ _)) by (by exists ds). cbn [drop]. by rewrite parse_number_digits.
Qed.

Lemma parse_addr_inv s a : parse_addr s = Some a ->
  exists ds, ds <> [] /\ forallb is_digit ds = true
    /\ (s = ds /\ a = Addr4 (decimal_value ds) /\ decimal_value ds < 2 ^ 32
        \/ s = ":"%char :: ds /\ a = Addr6 (decimal_value ds) [] /\ decimal_value ds < 2 ^ 128).
Proof.
  unfold parse_addr, parse_number.
  destruct (HasPrefix s (bs ":")) eqn:Hp; case_head; try done; intros [= <-]; b2p.
  - apply HasPrefix_spec in Hp as [ds ->]. change (drop 1 (bs ":" ++ ds)) with ds in *.
    exists ds. destruct (bytes_eqb_spec ds []); [done|]. split_and!; [done|done|right].
    split_and!; [done|done|lia].
  - exists s. destruct (bytes_eqb_spec s []); [done|]. split_and!; [done|done|left].
    split_and!; [done|done|lia].
Qed.

#[export] Instance netip_laws : NetIPLaws.
Proof.
  split.
  - intros s a (ds & Hne & Hd & [(-> & -> & ?)|(-> & -> & ?)])%parse_addr_inv;
      pose proof (decimal_value_range ds Hd); (split; [done|simpl; lia]).
  - intros v Hv. destruct (format_wide_spec v) as (? & ? & Hval); [lia|].
    cbn [ParseAddr addr_String netip]. rewrite parse_addr_4 by (done || lia). by rewrite Hval.
  - intros v Hv. destruct (format_wide_spec v) as (? & ? & Hval); [lia|].
    cbn [ParseAddr addr_String netip]. rewrite parse_addr_6 by (done || lia). by rewrite Hval.
  - intros v Hv. destruct (format_wide_spec v) as (? & Hd & _); [lia|]. split; [done|].
    cbn [addr_String netip]. rewrite forallb_forall in *. intros c Hc. unfold addr4_byte.
    by rewrite (Hd c Hc).
  - intros v Hv. destruct (format_wide_spec v) as (? & Hd & _); [lia|]. split; [done|].
    cbn [addr_String netip forallb]. rewrite forallb_forall in *. apply andb_true_iff. split; [done|].
    apply forallb_forall. intros c Hc. unfold addr6_byte. by rewrite (Hd c Hc).
  - intros s v (ds & Hne & Hd & [(-> & _ & ?)|(_ & [=] & _)])%parse_addr_inv.
    exists [], ds. auto.
  - intros s v zone (ds & Hne & Hd & [(_ & [=] & _)|(-> & _ & _)])%parse_addr_inv. by left.
Qed.

Lemma Cut_absent s c : c ∉ s -> Cut s c = (s, [], false).
Proof.
  induction s as [|d s IH]; simpl; [done|]. rewrite not_elem_of_cons. intros [Hne Hs].
  rewrite IH by done. by destruct (byte_eqb_spec d c) as [->|].
Qed.

Lemma split_path_authority scheme host : "/"%char ∉ host -> split_path scheme host = authority_URL scheme host.
Proof. intros Hh. unfold split_path. by rewrite Cut_absent. Qed.

Lemma port_suffix_no_slash p : "/"%char ∉ port_suffix p.
Proof.
  destruct p as [n|]; cbn [port_suffix]; [|apply not_elem_of_nil].
  rewrite not_elem_of_app. split; [by apply (bool_decide_unpack _)|].
  unfold FormatUint. generalize 20%nat. intros fuel.
  assert (Hg : forall acc, "/"%char ∉ acc -> "/"%char ∉ format_uint_fuel fuel n acc);
    [|apply Hg, not_elem_of_nil]. revert n.
  induction fuel as [|fuel IH]; intros n acc Hacc; cbn [format_uint_fuel]; [done|].
  pose proof (Z.mod_pos_bound n 10 ltac:(lia)).
  assert ("/"%char ∉ chr (code "0" + n mod 10) :: acc).
  { rewrite not_elem_of_cons. split; [|done]. intros Heq.
    destruct (digit_chr (n mod 10) ltac:(lia)) as [Hd _]. by rewrite <- Heq in Hd. }
  case_head; [done|]. by apply IH.
Qed.

Lemma url_Parse_authority scheme host :
  scheme = http \/ scheme = https -> "/"%char ∉ host ->
  url_Parse (scheme ++ bs "://" ++ host) = Some (authority_URL scheme host).
Proof.
  intros Hsch Hh. rewrite <- (split_path_authority scheme host Hh).
  cbn [url_Parse neturl]. destruct Hsch as [-> | ->].
  - by rewrite (proj2 (HasPrefix_spec _ _)) by (by exists host).
  - change (HasPrefix (https ++ bs "://" ++ host) (http ++ bs "://")) with false.
    by rewrite (proj2 (HasPrefix_spec _ _)) by (by exists host).
Qed.

#[export] Instance origin_laws : OriginLaws.
Proof.
  split; [| |done]; intros scheme h p Hsch Hh.
  - intros Hb. apply url_Parse_authority; [done|]. rewrite not_elem_of_app. split; [|apply port_suffix_no_slash].
    by eapply (forallb_not_elem url_host_byte).
  - apply url_Parse_authority; [done|]. rewrite !not_elem_of_app.
    destruct (String6_bytes h Hh) as [_ Hb].
    split_and!; [by apply (bool_decide_unpack _)
                |by eapply (forallb_not_elem addr6_byte)
                |by apply (bool_decide_unpack _)|apply port_suffix_no_slash].
Qed.
End Concrete.

Module OriginWitnesses.
Import Concrete.

Lemma origin_String_inj_witness :
  exists o, Parse (bs "https://example.org:443/a") = Ok o /\ Parse (bs "https://example.org") = Ok o.
Proof.
  destruct (Parse (bs "https://example.org:443/a")) as [o|] eqn:Ho; [|vm_compute in Ho; discriminate].
  destruct (Parse (bs "https://example.org")) as [o'|] eqn:Ho'; [|vm_compute in Ho'; discriminate].
  exists o. split; [done|]. f_equal. symmetry. apply (origin_String_inj _ _ o o' Ho Ho').
  vm_compute in Ho, Ho'. injection Ho as <-. injection Ho' as <-. vm_compute. done.
Defined.

Lemma Parse_String_roundtrip_witness :
  exists o, Parse (bs "http://example.org:8080/a/b") = Ok o
    /\ origin_String o = bs "http://example.org:8080" /\ Parse (origin_String o) = Ok o.
Proof.
  destruct (Parse (bs "http://example.org:8080/a/b")) as [o|] eqn:Ho; [|vm_compute in Ho; discriminate].
  exists o. split; [done|]. split.
  - vm_compute in Ho. injection Ho as <-. done.
  - apply (Parse_String_roundtrip _ o Ho). vm_compute in Ho. injection Ho as <-. vm_compute. done.
Defined.
End OriginWitnesses.
