(* ===== verification/Netguard.v ===== *)
(** * Network destinations ([internal/netguard])

    Classification of IP addresses, resolution of an origin into a validated
    destination, and dialing of its addresses. DNS and the dialer are calls to
    the environment; the iteration order of the Go map that removes duplicate
    addresses is a parameter. *)

From S2P Require Import Prelude GoText GoUrl GoErrors GoNetip Retry Origin.

(** ** Constants and failure categories *)

Definition DefaultDialTimeout : Z := 5 * Second.

Definition FailureCategory (err : error) : Category :=
  if errors_Is err DeadlineExceeded then CategoryTimeout
  else if errors_Is err errResolutionFailed || errors_Is err errNoAddresses then CategoryDNS
  else if errors_Is err errUnsafeAddress then CategoryUnsafeAddress
  else if errors_Is err errDialFailed then CategoryTransport
  else if errors_Is err errInvalidOrigin then CategoryMalformedOrigin
  else CategoryUnsupportedOrigin.

(** [netip.MustParsePrefix("a.b.c.d/bits")] *)
Definition quad (a b c d : Z) : Z := ((a * 256 + b) * 256 + c) * 256 + d.
Definition prefix4 (a b c d bits : Z) : Prefix := mkPrefix 32 (quad a b c d) bits.

(** [netip.MustParsePrefix("h0:h1:h2::/bits")] *)
Definition hextets (h0 h1 h2 : Z) : Z := ((h0 * 65536 + h1) * 65536 + h2) * 2 ^ 80.
Definition prefix6 (h0 h1 h2 bits : Z) : Prefix := mkPrefix 128 (hextets h0 h1 h2) bits.

Definition blockedIPv4Prefixes : list Prefix := [
  prefix4 0 0 0 0 8;
  prefix4 10 0 0 0 8;
  prefix4 100 64 0 0 10;
  prefix4 127 0 0 0 8;
  prefix4 169 254 0 0 16;
  prefix4 172 16 0 0 12;
  prefix4 192 0 0 0 24;
  prefix4 192 0 2 0 24;
  prefix4 192 31 196 0 24;
  prefix4 192 52 193 0 24;
  prefix4 192 88 99 0 24;
  prefix4 192 168 0 0 16;
  prefix4 192 175 48 0 24;
  prefix4 198 18 0 0 15;
  prefix4 198 51 100 0 24;
  prefix4 203 0 113 0 24;
  prefix4 224 0 0 0 4;
  prefix4 240 0 0 0 4
].

(** 2000::/3 *)
Definition publicIPv6Prefix : Prefix := prefix6 0x2000 0 0 3.

Definition blockedIPv6Prefixes : list Prefix := [
  prefix6 0x2001 0 0 23;
  prefix6 0x2001 0x0db8 0 32;
  prefix6 0x2002 0 0 16;
  prefix6 0x2620 0x004f 0x8000 48;
  prefix6 0x3ffe 0 0 16;
  prefix6 0x3fff 0 0 20
].

(** ** Operations *)

Definition ValidateAddr (addr : Addr) : option error :=
  let addr := addr_Unmap addr in
  if negb (addr_IsValid addr) || negb (bytes_eqb (addr_Zone addr) [])
  then Some (errors_New errUnsafeAddress)
  else if addr_Is4 addr then
    if existsb (fun prefix => prefix_Contains prefix addr) blockedIPv4Prefixes
    then Some (errors_New errUnsafeAddress) else None
  else if negb (prefix_Contains publicIPv6Prefix addr) then Some (errors_New errUnsafeAddress)
  else if existsb (fun prefix => prefix_Contains prefix addr) blockedIPv6Prefixes
  then Some (errors_New errUnsafeAddress) else None.

Definition is_nil {A} (o : option A) : bool := match o with None => true | Some _ => false end.

Record Destination : Type := mkDestination { addresses : list Addr; dest_port : Z }.

Definition addr_leb (a b : Addr) : bool :=
  match addr_Compare a b with Gt => false | _ => true end.
Definition addr_le (a b : Addr) : Prop := addr_leb a b = true.
#[export] Instance addr_le_dec : RelDecision addr_le.
Proof. intros a b. unfold addr_le. apply _. Defined.

(** The loop that unmaps and validates every address; the Go map [unique]
    keeps each address once. *)
Fixpoint validate_all (found : list Addr) (unique : list Addr) : res error (list Addr) :=
  match found with
  | [] => Ok unique
  | address :: rest =>
      let address := addr_Unmap address in
      if negb (is_nil (ValidateAddr address)) then Err (errors_New errUnsafeAddress)
      else validate_all rest (if bool_decide (address ∈ unique) then unique else unique ++ [address])
  end.

Section Resolve.
Context `{NetIP} {W : Type}.
(** The order in which [range] visits the keys of the map. *)
Variable map_order : list Addr -> list Addr.

Definition Resolve (ctx : option (W -> option error)) (candidate : Origin)
    (resolver : option (call W bytes (res error (list Addr)))) (w : W) : W * res error Destination :=
  match ctx with
  | None => (w, Err (errors_New errInvalidContext))
  | Some ctxErr =>
      match ctxErr w with
      | Some err => (w, Err err)
      | None =>
          let host := Hostname candidate in
          if bytes_eqb host [] then (w, Err (errors_New errInvalidOrigin))
          else
            match ParseAddr host with
            | Some address =>
                let address := addr_Unmap address in
                if negb (is_nil (ValidateAddr address)) then (w, Err (errors_New errUnsafeAddress))
                else (w, Ok (mkDestination [address] (Port candidate)))
            | None =>
                match resolver with
                | None => (w, Err (errors_New errResolverUnavailable))
                | Some lookupNetIP =>
                    match lookupNetIP w host with
                    | (w', Err _) =>
                        match ctxErr w' with
                        | Some contextErr => (w', Err contextErr)
                        | None => (w', Err (errors_New errResolutionFailed))
                        end
                    | (w', Ok []) => (w', Err (errors_New errNoAddresses))
                    | (w', Ok found) =>
                        (w', let? unique := validate_all found [] in
                             Ok (mkDestination (merge_sort addr_le (map_order unique)) (Port candidate)))
                    end
                end
            end
      end
  end.
End Resolve.

(** [netip.AddrPort.String] *)
Definition addrport_String `{NetIP} (a : Addr) (p : Z) : bytes :=
  (if addr_Is6 a then bs "[" ++ addr_String a ++ bs "]" else addr_String a)
  ++ bs ":" ++ FormatUint p.

(** The arguments of one connection attempt. *)
Record DialAttempt : Type := mkDial { dial_timeout : Z; dial_network : bytes; dial_target : bytes }.

Section Dial.
Context `{NetIP} {W Conn : Type}.

(** The attempts in order, until one connects or the parent context ends. *)
Fixpoint dial_loop (ctxErr : W -> option error)
    (dialContext : call W DialAttempt (res error (option Conn)))
    (timeout p : Z) (targets : list Addr) (w : W) : W * res error Conn :=
  match targets with
  | [] => (w, Err (errors_New errDialFailed))
  | address :: rest =>
      if negb (is_nil (ValidateAddr address)) then (w, Err (errors_New errUnsafeAddress))
      else
        match dialContext w (mkDial timeout (bs "tcp") (addrport_String address p)) with
        | (w', Ok None) => (w', Err (errors_New errDialFailed))
        | (w', Ok (Some connection)) => (w', Ok connection)
        | (w', Err _) =>
            match ctxErr w' with
            | Some contextErr => (w', Err contextErr)
            | None => dial_loop ctxErr dialContext timeout p rest w'
            end
        end
  end.

Definition DialContextWithTimeout (d : Destination) (ctx : option (W -> option error))
    (dialer : option (call W DialAttempt (res error (option Conn)))) (timeout : Z) (w : W)
    : W * res error Conn :=
  match ctx with
  | None => (w, Err (errors_New errInvalidContext))
  | Some ctxErr =>
      match ctxErr w with
      | Some err => (w, Err err)
      | None =>
          match dialer with
          | None => (w, Err (errors_New errDialerUnavailable))
          | Some dialContext =>
              match addresses d with
              | [] => (w, Err (errors_New errInvalidDestination))
              | _ =>
                  if timeout <=? 0 then (w, Err (errors_New errInvalidDialTimeout))
                  else dial_loop ctxErr dialContext timeout (dest_port d) (addresses d) w
              end
          end
      end
  end.

Definition DialContext (d : Destination) (ctx : option (W -> option error))
    (dialer : option (call W DialAttempt (res error (option Conn)))) (w : W) : W * res error Conn :=
  DialContextWithTimeout d ctx dialer DefaultDialTimeout w.
End Dial.

(** ** Classification *)

(** The special-purpose IPv4 blocks as address intervals. *)
Definition special4 : list (Z * Z) := [
  (quad 0 0 0 0, quad 0 255 255 255);
  (quad 10 0 0 0, quad 10 255 255 255);
  (quad 100 64 0 0, quad 100 127 255 255);
  (quad 127 0 0 0, quad 127 255 255 255);
  (quad 169 254 0 0, quad 169 254 255 255);
  (quad 172 16 0 0, quad 172 31 255 255);
  (quad 192 0 0 0, quad 192 0 0 255);
  (quad 192 0 2 0, quad 192 0 2 255);
  (quad 192 31 196 0, quad 192 31 196 255);
  (quad 192 52 193 0, quad 192 52 193 255);
  (quad 192 88 99 0, quad 192 88 99 255);
  (quad 192 168 0 0, quad 192 168 255 255);
  (quad 192 175 48 0, quad 192 175 48 255);
  (quad 198 18 0 0, quad 198 19 255 255);
  (quad 198 51 100 0, quad 198 51 100 255);
  (quad 203 0 113 0, quad 203 0 113 255);
  (quad 224 0 0 0, quad 239 255 255 255);
  (quad 240 0 0 0, quad 255 255 255 255)
].

(** The special-purpose blocks inside 2000::/3. *)
Definition special6 : list (Z * Z) := [
  (hextets 0x2001 0 0, hextets 0x2001 0x0200 0 - 1);
  (hextets 0x2001 0x0db8 0, hextets 0x2001 0x0db9 0 - 1);
  (hextets 0x2002 0 0, hextets 0x2003 0 0 - 1);
  (hextets 0x2620 0x004f 0x8000, hextets 0x2620 0x004f 0x8001 - 1);
  (hextets 0x3ffe 0 0, hextets 0x3fff 0 0 - 1);
  (hextets 0x3fff 0 0, hextets 0x3fff 0x1000 0 - 1)
].

(** The addresses a public-web crawler may contact. *)
Definition public_addr (a : Addr) : Prop :=
  match addr_Unmap a with
  | AddrInvalid => False
  | Addr4 v => Forall (fun block => in_interval block v = false) special4
  | Addr6 v zone =>
      zone = [] /\ hextets 0x2000 0 0 <= v < hextets 0x4000 0 0
      /\ Forall (fun block => in_interval block v = false) special6
  end.

Lemma addr_Unmap_wf a : addr_wf a -> addr_wf (addr_Unmap a).
Proof.
  destruct a as [|v|v zone]; [done|done|]. unfold addr_Unmap. case_head; [|done]. intros _.
  cbn [addr_wf]. rewrite Z.land_ones by lia. apply Z.mod_pos_bound. lia.
Qed.

Lemma addr_Unmap_idemp a : addr_Unmap (addr_Unmap a) = addr_Unmap a.
Proof. destruct a as [|v|v zone]; [done|done|]. unfold addr_Unmap at 2 3. case_head; [done|]. unfold addr_Unmap. by rewrite E. Qed.

Lemma ValidateAddr_Unmap a : ValidateAddr (addr_Unmap a) = ValidateAddr a.
Proof. unfold ValidateAddr. by rewrite addr_Unmap_idemp. Qed.

(** A list of aligned prefixes of one family, as intervals. *)
Lemma existsb_prefixes ps a :
  forallb (fun p => prefix_ok p && (prefix_len p =? addr_BitLen a)) ps = true ->
  addr_wf a -> addr_Zone a = [] -> a <> AddrInvalid ->
  existsb (fun p => prefix_Contains p a) ps = false
  <-> Forall (fun block => in_interval block (addr_value a) = false) (map prefix_range ps).
Proof.
  intros Hok Hwf Hz Hv. induction ps as [|p ps IH]; simpl in *; [by split|]. b2p.
  rewrite orb_false_iff, IH, Forall_cons by done.
  rewrite prefix_Contains_interval by done. by replace (_ =? _) with true by lia.
Qed.

Lemma in_interval_lt lo hi v : in_interval (lo, hi) v = true <-> lo <= v < hi + 1.
Proof. unfold in_interval. simpl. lia. Qed.

(** An IPv4 address written as an IPv4-mapped IPv6 address. *)
Definition mapped (v : Z) (zone : bytes) : Addr := Addr6 (65535 * 2 ^ 32 + v) zone.

Lemma Unmap_mapped v zone : 0 <= v < 2 ^ 32 -> addr_Unmap (mapped v zone) = Addr4 v.
Proof.
  intros Hv. unfold mapped, addr_Unmap, addr_Is4In6.
  rewrite !Z.shiftr_div_pow2, !Z.land_ones by lia.
  rewrite (Z.div_small _ (2 ^ 64)), (Z.mod_small _ (2 ^ 64)) by lia.
  replace ((65535 * 2 ^ 32 + v) / 2 ^ 32) with 65535
    by (rewrite Z.div_add_l by lia; rewrite Z.div_small by lia; lia).
  cbn [Z.eqb Pos.eqb andb]. f_equal. rewrite Z.add_comm, Z.mod_add by lia. apply Z.mod_small. lia.
Qed.

(** C7: [ValidateAddr] accepts exactly the public addresses: outside every
    special-purpose interval, IPv6 only inside 2000::/3 and without a zone;
    an IPv4-mapped IPv6 address gets the verdict of the IPv4 address, so
    mapped syntax cannot bypass the IPv4 policy. *)
Theorem ValidateAddr_correct a :
  addr_wf a ->
  (ValidateAddr a = None <-> public_addr a)
  /\ (forall v zone, 0 <= v < 2 ^ 32 -> ValidateAddr (mapped v zone) = ValidateAddr (Addr4 v)).
Proof.
  intros Hwf. split.
  - unfold ValidateAddr, public_addr. pose proof (addr_Unmap_wf a Hwf) as Hu. clear Hwf.
    destruct (addr_Unmap a) as [|v|v zone]; cbn [addr_IsValid addr_Zone addr_Is4 negb orb bytes_eqb]; [done| |].
    + pose proof (existsb_prefixes blockedIPv4Prefixes (Addr4 v) eq_refl Hu eq_refl ltac:(done)) as Hp.
      change (map prefix_range blockedIPv4Prefixes) with special4 in Hp. cbn [addr_value] in Hp.
      rewrite <- Hp. by case_head.
    + destruct (bytes_eqb_spec zone []) as [->|Hz]; cbn [negb]; [|by split; [|intros [? _]]].
      pose proof (existsb_prefixes blockedIPv6Prefixes (Addr6 v []) eq_refl Hu eq_refl ltac:(done)) as Hp.
      change (map prefix_range blockedIPv6Prefixes) with special6 in Hp. cbn [addr_value] in Hp.
      rewrite (prefix_Contains_interval publicIPv6Prefix (Addr6 v [])) by done.
      change (prefix_len publicIPv6Prefix =? addr_BitLen (Addr6 v [])) with true. cbn [andb addr_value].
      change (prefix_range publicIPv6Prefix) with (hextets 0x2000 0 0, hextets 0x4000 0 0 - 1).
      pose proof (in_interval_lt (hextets 0x2000 0 0) (hextets 0x4000 0 0 - 1) v) as Hi.
      rewrite Z.sub_add in Hi. rewrite <- Hp, <- Hi.
      destruct (in_interval _ v), (existsb _ blockedIPv6Prefixes); cbn [negb];
        split; intros; destruct_and?; done.
  - intros v zone Hv. rewrite <- (ValidateAddr_Unmap (mapped v zone)). by rewrite Unmap_mapped.
Qed.

(** Witness at the metadata address 169.254.169.254 in mapped form. *)
Lemma ValidateAddr_correct_witness :
  ValidateAddr (mapped (quad 169 254 169 254) []) <> None /\ ValidateAddr (Addr4 (quad 8 8 8 8)) = None.
Proof.
  split; [|by vm_compute].
  destruct (ValidateAddr_correct (Addr4 (quad 169 254 169 254))) as [_ Hm]; [by vm_compute|].
  rewrite Hm by (by vm_compute). by vm_compute.
Defined.

(** ** The address order *)

Lemma bytes_compare_eq s t : bytes_compare s t = Eq <-> s = t.
Proof.
  revert t. induction s as [|c s IH]; intros [|d t]; simpl; try done.
  destruct (Z.compare_spec (code c) (code d)) as [Hc|Hc|Hc].
  - rewrite IH. apply code_inj in Hc as ->. split; [by intros ->|by intros [= ->]].
  - split; [done|]. intros [= -> ->]. lia.
  - split; [done|]. intros [= -> ->]. lia.
Qed.

Lemma bytes_compare_antisym s t : bytes_compare t s = CompOpp (bytes_compare s t).
Proof.
  revert t. induction s as [|c s IH]; intros [|d t]; simpl; try done.
  rewrite Z.compare_antisym. destruct (code c ?= code d); simpl; auto.
Qed.

Lemma bytes_compare_trans s t u :
  bytes_compare s t <> Gt -> bytes_compare t u <> Gt -> bytes_compare s u <> Gt.
Proof.
  revert t u. induction s as [|c s IH]; intros [|d t] [|e u]; simpl; try done.
  destruct (Z.compare_spec (code c) (code d)), (Z.compare_spec (code d) (code e)),
    (Z.compare_spec (code c) (code e)); try done; try lia. apply IH.
Qed.

Lemma addr_Compare_eq a b : addr_Compare a b = Eq <-> a = b.
Proof.
  split; [|intros ->; unfold addr_Compare; rewrite !Z.compare_refl; by apply bytes_compare_eq].
  unfold addr_Compare. destruct (Z.compare_spec (addr_BitLen a) (addr_BitLen b)) as [Hl| |]; [|done|done].
  destruct (Z.compare_spec (addr_value a) (addr_value b)) as [Hv| |]; [|done|done].
  rewrite bytes_compare_eq. destruct a, b; simpl in *; congruence.
Qed.

#[export] Instance addr_le_total : Total addr_le.
Proof.
  intros a b. unfold addr_le, addr_leb, addr_Compare.
  rewrite (Z.compare_antisym (addr_BitLen a)), (Z.compare_antisym (addr_value a)),
    (bytes_compare_antisym (addr_Zone a)).
  destruct (addr_BitLen a ?= addr_BitLen b), (addr_value a ?= addr_value b),
    (bytes_compare (addr_Zone a) (addr_Zone b)); simpl; auto.
Qed.

#[export] Instance addr_le_trans : Transitive addr_le.
Proof.
  intros a b c. unfold addr_le, addr_leb, addr_Compare. intros Hab Hbc.
  pose proof (bytes_compare_trans (addr_Zone a) (addr_Zone b) (addr_Zone c)) as Ht.
  destruct (Z.compare_spec (addr_BitLen a) (addr_BitLen b)), (Z.compare_spec (addr_BitLen b) (addr_BitLen c)),
    (Z.compare_spec (addr_BitLen a) (addr_BitLen c)); try done; try lia;
  destruct (Z.compare_spec (addr_value a) (addr_value b)), (Z.compare_spec (addr_value b) (addr_value c)),
    (Z.compare_spec (addr_value a) (addr_value c)); try done; try lia;
  destruct (bytes_compare (addr_Zone a) (addr_Zone b)), (bytes_compare (addr_Zone b) (addr_Zone c)),
    (bytes_compare (addr_Zone a) (addr_Zone c)); naive_solver.
Qed.

#[export] Instance addr_le_antisymm : AntiSymm (=) addr_le.
Proof.
  intros a b. unfold addr_le, addr_leb. intros Hab Hba. apply addr_Compare_eq.
  assert (Hopp : addr_Compare b a = CompOpp (addr_Compare a b)).
  { unfold addr_Compare. rewrite (Z.compare_antisym (addr_BitLen a)), (Z.compare_antisym (addr_value a)),
      (bytes_compare_antisym (addr_Zone a)).
    by destruct (addr_BitLen a ?= addr_BitLen b), (addr_value a ?= addr_value b). }
  rewrite Hopp in Hba. by destruct (addr_Compare a b).
Qed.

(** ** Resolution *)

Definition safe (a : Addr) : bool := is_nil (ValidateAddr a).

Lemma safe_Unmap a : safe (addr_Unmap a) = safe a.
Proof. unfold safe. by rewrite ValidateAddr_Unmap. Qed.

(** The loop fails on the first unsafe address, and otherwise collects every
    unmapped address once. *)
Lemma validate_all_spec found unique :
  NoDup unique ->
  if forallb safe found
  then exists u, validate_all found unique = Ok u /\ NoDup u
       /\ forall a, a ∈ u <-> a ∈ unique \/ a ∈ map addr_Unmap found
  else validate_all found unique = Err (errors_New errUnsafeAddress).
Proof.
  revert unique. induction found as [|a found IH]; intros unique Hnd; simpl.
  - exists unique. split_and!; [done|done|]. intros a. rewrite elem_of_nil. tauto.
  - fold (safe (addr_Unmap a)). rewrite safe_Unmap. destruct (safe a); [|done]. cbn [negb andb].
    specialize (IH (if bool_decide (addr_Unmap a ∈ unique) then unique else unique ++ [addr_Unmap a])).
    case_bool_decide as Hin.
    + specialize (IH Hnd). destruct (forallb safe found); [|done].
      destruct IH as (u & -> & Hu & Hel). exists u. split_and!; [done|done|].
      intros b. rewrite Hel, elem_of_cons. split; [tauto|]. by intros [?|[->|?]]; auto.
    + assert (Hnd' : NoDup (unique ++ [addr_Unmap a])).
      { apply NoDup_app. split_and!; [done| |apply NoDup_singleton].
        intros b Hb ->%list_elem_of_singleton. done. }
      specialize (IH Hnd'). destruct (forallb safe found); [|done].
      destruct IH as (u & -> & Hu & Hel). exists u. split_and!; [done|done|].
      intros b. rewrite Hel, elem_of_app, !elem_of_cons, elem_of_nil. tauto.
Qed.

(** Sorting hides both the order of the map and the order of the answer. *)
Lemma sorted_addresses_unique l k :
  NoDup l -> NoDup k -> (forall a, a ∈ l <-> a ∈ k) -> merge_sort addr_le l = merge_sort addr_le k.
Proof.
  intros Hl Hk Heq. apply (Sorted_unique addr_le); [apply Sorted_merge_sort, _..|].
  rewrite !merge_sort_Permutation. by apply NoDup_Permutation.
Qed.

Section ResolveFacts.
Context `{NetIP} {W : Type}.
Variable map_order : list Addr -> list Addr.
Hypothesis map_order_perm : forall l, map_order l ≡ₚ l.

(** What a successful resolution promises the dialer. *)
Record validated_destination (candidate : Origin) (d : Destination) : Prop := {
  vd_nonempty : addresses d <> [];
  vd_safe : Forall (fun a => ValidateAddr a = None /\ addr_Unmap a = a) (addresses d);
  vd_nodup : NoDup (addresses d);
  vd_sorted : Sorted addr_le (addresses d);
  vd_port : dest_port d = Port candidate;
}.

Lemma validated_single candidate a :
  safe a = true -> validated_destination candidate (mkDestination [addr_Unmap a] (Port candidate)).
Proof.
  rewrite <- safe_Unmap. unfold safe. intros Hs. split; simpl; [done| |apply NoDup_singleton|repeat constructor|done].
  apply Forall_singleton. split; [by destruct (ValidateAddr _)|apply addr_Unmap_idemp].
Qed.

Lemma validated_found candidate found u :
  found <> [] -> forallb safe found = true -> NoDup u -> (forall a, a ∈ u <-> a ∈ map addr_Unmap found) ->
  validated_destination candidate (mkDestination (merge_sort addr_le (map_order u)) (Port candidate)).
Proof.
  intros Hne Hsafe Hnd Hel.
  assert (Hp : merge_sort addr_le (map_order u) ≡ₚ u) by (by rewrite merge_sort_Permutation).
  split; cbn [addresses dest_port]; [| | |apply Sorted_merge_sort, _|done].
  - intros Hnil. rewrite Hnil in Hp. apply Permutation_nil in Hp as ->.
    destruct found as [|a found]; [done|]. apply (elem_of_nil (addr_Unmap a)), Hel. by left.
  - rewrite Hp. apply Forall_forall. intros a Ha%Hel%list_elem_of_fmap.
    destruct Ha as (b & -> & Hb). split; [|apply addr_Unmap_idemp].
    rewrite forallb_forall in Hsafe. specialize (Hsafe b (proj1 (list_elem_of_In _ _) Hb)).
    rewrite ValidateAddr_Unmap. unfold safe in Hsafe. by destruct (ValidateAddr b).
  - by rewrite Hp.
Qed.

Lemma Resolve_validated ctx candidate resolver (w : W) w' d :
  Resolve map_order ctx candidate resolver w = (w', Ok d) -> validated_destination candidate d.
Proof.
  unfold Resolve. destruct ctx as [ctxErr|]; [|done]. destruct (ctxErr w); [done|].
  destruct (bytes_eqb (Hostname candidate) []); [done|].
  destruct (ParseAddr (Hostname candidate)) as [a|].
  - fold (safe (addr_Unmap a)). rewrite safe_Unmap. destruct (safe a) eqn:Hs; [|done]. cbn [negb].
    intros [= _ <-]. by apply validated_single.
  - destruct resolver as [lookup|]; [|done]. destruct (lookup w _) as [w1 [found|e]].
    + destruct found as [|a found]; [done|]. intros [_ Hd]%pair_equal_spec.
      pose proof (validate_all_spec (a :: found) [] ltac:(constructor)) as Hv.
      destruct (forallb safe (a :: found)) eqn:Hsafe.
      * destruct Hv as (u & Hu & Hnd & Hel). rewrite Hu in Hd. injection Hd as <-.
        apply (validated_found candidate (a :: found)); [done|done|done|].
        intros b. rewrite Hel, elem_of_nil. tauto.
      * by rewrite Hv in Hd.
    + by destruct (ctxErr w1).
Qed.

(** A destination is returned only if every address of the origin is
    public: it is non-empty, unmapped, free of duplicates, sorted, and keeps
    the origin's port; and when the resolver's answer is non-empty the result
    is decided by the set of addresses in it, one unsafe address rejecting the
    whole destination, whatever the order of the answer or of the Go map. *)
Theorem Resolve_correct ctxErr candidate (w : W) :
  ctxErr w = None -> Hostname candidate <> [] -> ParseAddr (Hostname candidate) = None ->
  forall (lookup : call W bytes (res error (list Addr))) w' found,
  lookup w (Hostname candidate) = (w', Ok found) -> found <> [] ->
  if forallb safe found
  then exists d, Resolve map_order (Some ctxErr) candidate (Some lookup) w = (w', Ok d)
       /\ validated_destination candidate d
       /\ addresses d = merge_sort addr_le (remove_dups (map addr_Unmap found))
  else Resolve map_order (Some ctxErr) candidate (Some lookup) w
       = (w', Err (errors_New errUnsafeAddress)).
Proof.
  intros Hctx Hhost Haddr lookup w' found Hlookup Hne. unfold Resolve. rewrite Hctx, Haddr, Hlookup.
  destruct (bytes_eqb_spec (Hostname candidate) []) as [|_]; [done|].
  destruct found as [|a found]; [done|].
  pose proof (validate_all_spec (a :: found) [] ltac:(constructor)) as Hv.
  destruct (forallb safe (a :: found)) eqn:Hsafe; [|by rewrite Hv].
  destruct Hv as (u & -> & Hnd & Hel). eexists. split; [done|].
  assert (Hel' : forall b, b ∈ u <-> b ∈ map addr_Unmap (a :: found))
    by (intros b; rewrite Hel, elem_of_nil; tauto).
  split; [by apply (validated_found candidate (a :: found))|].
  cbn [addresses]. apply sorted_addresses_unique; [by rewrite map_order_perm|apply NoDup_remove_dups|].
  intros b. by rewrite map_order_perm, Hel', elem_of_remove_dups.
Qed.
End ResolveFacts.

(** ** Dialing *)

Section DialFacts.
Context `{NetIP} {W Conn : Type}.
Variable ctxErr : W -> option error.
Variable dialContext : call W DialAttempt (res error (option Conn)).

Definition attempt (timeout p : Z) (a : Addr) : DialAttempt :=
  mkDial timeout (bs "tcp") (addrport_String a p).

Lemma dial_loop_trace timeout p targets (w : W) log w' log' r :
  dial_loop (ctx_lift ctxErr) (logged dialContext) timeout p targets (w, log) = ((w', log'), r) ->
  exists k, log' = log ++ map (attempt timeout p) (take k targets)
    /\ Forall (fun a => ValidateAddr a = None) (take k targets)
    /\ (is_ok r = true -> exists a, last (take k targets) = Some a)
    /\ (Forall (fun a => ValidateAddr a = None) targets ->
        r = Err (errors_New errDialFailed) \/ (exists e, r = Err e /\ ctxErr w' = Some e) \/ is_ok r = true).
Proof.
  revert w log. induction targets as [|a targets IH]; intros w log; cbn [dial_loop].
  - intros [[<- <-]%pair_equal_spec <-]%pair_equal_spec. exists 0%nat. simpl. rewrite app_nil_r. split_and!; auto. done.
  - destruct (is_nil (ValidateAddr a)) eqn:Hs; cbn [negb].
    2:{ intros [[<- <-]%pair_equal_spec <-]%pair_equal_spec. exists 0%nat. rewrite app_nil_r. split_and!; [done|done|done|].
        intros [Ha _]%Forall_cons. by rewrite Ha in Hs. }
    assert (Ha : ValidateAddr a = None) by (by destruct (ValidateAddr a)).
    unfold logged at 1. destruct (dialContext w _) as [w1 r1] eqn:Hd.
    destruct r1 as [[c|]|e].
    + intros [[<- <-]%pair_equal_spec <-]%pair_equal_spec. exists 1%nat. simpl. split_and!; [done|by constructor|by exists a|auto].
    + intros [[<- <-]%pair_equal_spec <-]%pair_equal_spec. exists 1%nat. simpl. split_and!; [done|by constructor|done|auto].
    + unfold ctx_lift at 1. cbn [fst]. destruct (ctxErr w1) as [ce|] eqn:Hce.
      * intros [[<- <-]%pair_equal_spec <-]%pair_equal_spec. exists 1%nat. simpl. split_and!; [done|by constructor|done|eauto].
      * intros (k & -> & Hk & Hok & Hres)%IH. exists (S k). cbn [take map]. rewrite <- app_assoc.
        split_and!; [done|by constructor| |].
        -- intros (b & Hb)%Hok. exists b. by rewrite last_cons, Hb.
        -- intros [_ Ht]%Forall_cons. auto.
Qed.

(** Every connection attempt goes to the IP literal of an address that
    [ValidateAddr] accepts at that moment, over TCP, with the origin's port
    and the attempt's own positive timeout, in the order of the destination's
    addresses and to each at most once; so no name is resolved between
    validation and connection. A destination that [Resolve] validated never
    fails as unsafe: the outcome is a connection, the parent context's error
    or [errDialFailed]. *)
Theorem DialContextWithTimeout_correct d timeout (w : W) w' log r :
  DialContextWithTimeout d (Some (ctx_lift ctxErr)) (Some (logged dialContext)) timeout (w, [])
  = ((w', log), r) ->
  ctxErr w = None -> addresses d <> [] ->
  (timeout <= 0 /\ log = [] /\ r = Err (errors_New errInvalidDialTimeout))
  \/ (0 < timeout /\
      exists k, log = map (attempt timeout (dest_port d)) (take k (addresses d))
        /\ Forall (fun a => ValidateAddr a = None) (take k (addresses d))
        /\ (is_ok r = true -> log <> [])
        /\ (Forall (fun a => ValidateAddr a = None) (addresses d) ->
            r = Err (errors_New errDialFailed) \/ (exists e, r = Err e /\ ctxErr w' = Some e)
            \/ is_ok r = true)).
Proof.
  unfold DialContextWithTimeout. intros Hrun Hctx Hne. unfold ctx_lift at 1 in Hrun.
  cbn [fst] in Hrun. rewrite Hctx in Hrun.
  destruct (addresses d) as [|a rest] eqn:Ha; [done|]. rewrite <- Ha in *.
  destruct (Z.leb_spec timeout 0) as [Ht|Ht].
  - left. apply pair_equal_spec in Hrun as [[_ <-]%pair_equal_spec <-]. auto.
  - right. split; [done|]. apply dial_loop_trace in Hrun as (k & -> & Hk & Hok & Hres).
    exists k. split_and!; [done|done| |done].
    intros (b & Hb)%Hok Hnil. destruct (take k (addresses d)); [done|]. done.
Qed.
End DialFacts.

Module NetguardWitnesses.
Import Concrete.

Definition example_origin : Origin := mkOrigin (bs "https://example.org") (bs "example.org") 443.
Definition answer : list Addr := [Addr4 (quad 8 8 8 8); mapped (quad 8 8 8 8) []; Addr4 (quad 1 1 1 1)].
Definition example_lookup : call unit bytes (res error (list Addr)) := fun w _ => (w, Ok answer).

Lemma Resolve_correct_witness :
  exists d, Resolve (rev (A:=Addr)) (Some (fun _ => None)) example_origin (Some example_lookup) tt = (tt, Ok d)
    /\ validated_destination example_origin d.
Proof.
  pose proof (Resolve_correct (rev (A:=Addr)) (fun l => symmetry (Permutation_rev l))
    (fun _ => None) example_origin tt eq_refl ltac:(done) ltac:(by vm_compute)
    example_lookup tt answer eq_refl ltac:(done)) as Hr.
  replace (forallb safe answer) with true in Hr by (by vm_compute).
  destruct Hr as (d & Hd & Hv & _). exists d. split; assumption.
Defined.

(** The first address refuses the connection, the second accepts it. *)
Definition example_dial : call nat DialAttempt (res error (option unit)) :=
  fun n _ => (S n, match n with O => Err (errors_New errDialFailed) | S _ => Ok (Some tt) end).
Definition example_destination : Destination :=
  mkDestination [Addr4 (quad 1 1 1 1); Addr4 (quad 8 8 8 8)] 443.

Lemma DialContextWithTimeout_correct_witness :
  exists k, (k = 2)%nat
    /\ Forall (fun a => ValidateAddr a = None) (take k (addresses example_destination)).
Proof.
  destruct (DialContextWithTimeout example_destination (Some (ctx_lift (fun _ => None)))
              (Some (logged example_dial)) Second (0%nat, [])) as [[w log] r] eqn:Hrun.
  pose proof Hrun as Hlog. vm_compute in Hlog. apply pair_equal_spec in Hlog as [[_ Hlog]%pair_equal_spec _].
  destruct (DialContextWithTimeout_correct (fun _ => None) example_dial example_destination Second
              0%nat w log r Hrun eq_refl ltac:(done)) as [[H _]|(_ & k & Hl & Hk & _)]; [done|].
  exists 2%nat. split; [done|]. cbn [take addresses example_destination]. rewrite <- Hlog in Hl.
  apply (f_equal length) in Hl. rewrite length_map in Hl.
  destruct k as [|[|k]]; cbn [take length addresses example_destination] in Hl; [discriminate|discriminate|].
  cbn [take addresses example_destination] in Hk.
  by rewrite firstn_nil in Hk.
Defined.
End NetguardWitnesses.
