(* ===== verification/RobotsMatch.v ===== *)
(** * Robots pattern matching ([internal/robots/robots.go], [patternMatches])

    The backtracking loop of [patternMatches] over byte indices, the language
    a robots pattern denotes, and the proof that the loop terminates and
    decides membership in that language. *)

From S2P Require Import Prelude GoText.

Definition star : ascii := "*".

(** ** The loop

    [patternIndex] and [targetIndex] are positions; [starIndex] is [None] for
    the code's [-1]. *)

Fixpoint skip_stars (fuel : nat) (pattern : bytes) (patternIndex : nat) : nat :=
  match fuel with
  | O => patternIndex
  | S fuel' =>
      match pattern !! patternIndex with
      | Some c => if byte_eqb c star then skip_stars fuel' pattern (S patternIndex)
                  else patternIndex
      | None => patternIndex
      end
  end.

(** One pass of the [switch]: the next indices, or [None] for [return false]. *)
Definition match_step (pattern target : bytes)
    (patternIndex targetIndex : nat) (starIndex : option nat) (starTargetIndex : nat)
    : option (nat * nat * option nat * nat) :=
  let backtrack :=
    match starIndex with
    | Some s => Some ((s + 1)%nat, S starTargetIndex, Some s, S starTargetIndex)
    | None => None
    end in
  match pattern !! patternIndex with
  | Some c =>
      if byte_eqb c star
      then Some (S patternIndex, targetIndex, Some patternIndex, targetIndex)
      else match target !! targetIndex with
           | Some d => if byte_eqb c d
                       then Some (S patternIndex, S targetIndex, starIndex, starTargetIndex)
                       else backtrack
           | None => backtrack
           end
  | None => backtrack
  end.

(** The [for] loop; [None] means the fuel ran out. *)
Fixpoint match_loop (fuel : nat) (anchored : bool) (pattern target : bytes)
    (patternIndex targetIndex : nat) (starIndex : option nat) (starTargetIndex : nat)
    : option bool :=
  if Nat.ltb targetIndex (length target) then
    match fuel with
    | O => None
    | S fuel' =>
        match match_step pattern target patternIndex targetIndex starIndex starTargetIndex with
        | None => Some false
        | Some (p, t, s, st) =>
            if negb anchored && Nat.eqb p (length pattern) then Some true
            else match_loop fuel' anchored pattern target p t s st
        end
    end
  else
    Some (Nat.eqb (skip_stars (length pattern) pattern patternIndex) (length pattern)).

Definition match_fuel (pattern target : bytes) : nat :=
  (S (length target) * S (length pattern))%nat.

Definition patternMatches (pattern target : bytes) : bool :=
  let anchored := HasSuffix pattern (bs "$") in
  let pattern := if anchored then TrimSuffix pattern (bs "$") else pattern in
  default false (match_loop (match_fuel pattern target) anchored pattern target 0 0 None 0).

(** ** The language of a pattern *)

Inductive glob : bytes -> bytes -> Prop :=
| glob_nil : glob [] []
| glob_char c p t : c <> star -> glob p t -> glob (c :: p) (c :: t)
| glob_star p t1 t2 : glob p t2 -> glob (star :: p) (t1 ++ t2).

(** RFC 9309: [*] matches any sequence, a final [$] anchors the pattern at the
    end of the target, and an unanchored pattern matches a prefix. *)
Definition robots_match (pattern target : bytes) : Prop :=
  if HasSuffix pattern (bs "$")
  then glob (TrimSuffix pattern (bs "$")) target
  else exists t1 t2, target = t1 ++ t2 /\ glob pattern t1.

(** ** Facts about the language *)

Lemma glob_star_absorb p t1 t2 : glob (star :: p) t2 -> glob (star :: p) (t1 ++ t2).
Proof.
  inversion 1; subst; [done|]. rewrite app_assoc. by constructor.
Qed.

Lemma glob_star_inv p t : glob (star :: p) t <-> exists k, (k <= length t)%nat /\ glob p (drop k t).
Proof.
  split.
  - inversion 1; subst; [done|]. exists (length t1). rewrite length_app.
    split; [lia|]. by rewrite drop_app_length.
  - intros (k & Hk & Hg). rewrite <- (take_drop k t). by constructor.
Qed.

Lemma glob_char_inv c p t :
  c <> star -> glob (c :: p) t <-> exists t', t = c :: t' /\ glob p t'.
Proof.
  intros Hc. split.
  - inversion 1; subst; [eauto|done].
  - intros (t' & -> & ?). by constructor.
Qed.

Lemma glob_nil_inv t : glob [] t <-> t = [].
Proof. split; [by inversion 1|]. intros ->. constructor. Qed.

(** An unanchored match is a match of the pattern followed by one more [*]. *)
Lemma glob_app_star p t :
  glob (p ++ [star]) t <-> exists t1 t2, t = t1 ++ t2 /\ glob p t1.
Proof.
  split.
  - remember (p ++ [star]) as q eqn:Hq. intros H. revert p Hq.
    induction H as [|c q t Hc H IH|q t1 t2 H IH]; intros p Hq.
    + by destruct p.
    + destruct p as [|c' p]; simplify_eq/=.
      destruct (IH p eq_refl) as (u1 & u2 & -> & ?).
      exists (c' :: u1), u2. split; [done|]. by constructor.
    + destruct p as [|c' p]; simplify_eq/=.
      * apply glob_nil_inv in H as ->. exists [], t1. rewrite app_nil_r. split; [done|constructor].
      * destruct (IH p eq_refl) as (u1 & u2 & -> & ?).
        exists (t1 ++ u1), u2. rewrite app_assoc. split; [done|]. by constructor.
  - intros (t1 & t2 & -> & H). induction H as [|c p t Hc H IH|p u1 u2 H IH]; simpl.
    + rewrite <- (app_nil_r t2). constructor. constructor.
    + by constructor.
    + rewrite <- app_assoc. by constructor.
Qed.

(** A star-free segment consumes exactly itself. *)
Lemma glob_segment seg p t :
  Forall (fun c => c <> star) seg ->
  glob (seg ++ p) t <-> exists t', t = seg ++ t' /\ glob p t'.
Proof.
  revert t. induction seg as [|c seg IH]; intros t Hs; simpl.
  - split; [eauto|]. by intros (? & -> & ?).
  - apply Forall_cons_1 in Hs as [Hc Hs]. rewrite glob_char_inv by done. split.
    + intros (t' & -> & (t'' & -> & ?)%IH); eauto.
    + intros (t' & -> & ?). eexists; split; [done|]. apply IH; eauto.
Qed.

Lemma glob_stars p : glob p [] <-> Forall (fun c => c = star) p.
Proof.
  induction p as [|c p IH]; [split; constructor|].
  rewrite Forall_cons. destruct (byte_eqb_spec c star) as [->|Hc].
  - rewrite glob_star_inv. split.
    + intros (k & _ & H). rewrite drop_nil in H. by apply IH in H.
    + intros [_ H]. exists 0%nat. split; [simpl; lia|]. by apply IH.
  - rewrite glob_char_inv by done. split; [by intros (? & ? & ?)|]. by intros [? _].
Qed.

(** ** The loop invariant *)

Section MatchLoop.
(** The stripped pattern [P], the target [T] and the pattern [Q] the loop
    effectively matches in full: [P] itself when anchored, [P] followed by a
    wildcard otherwise. *)
Context (anchored : bool) (P T : bytes).
Let Q : bytes := P ++ (if anchored then [] else [star]).

(** What remains to be tried in a loop state, besides the current position:
    every later restart of the last star. *)
Definition match_inv (p t : nat) (s : option nat) (st : nat) : Prop :=
  (p <= length P)%nat /\ (t <= length T)%nat /\ (st <= t)%nat /\
  match s with
  | None => glob Q T <-> glob (drop p Q) (drop t T)
  | Some i =>
      (i < p)%nat /\
      (exists seg, Forall (fun c => c <> star) seg
                   /\ drop (i + 1) Q = seg ++ drop p Q
                   /\ drop st T = seg ++ drop t T) /\
      (glob Q T <-> glob (drop p Q) (drop t T)
         \/ exists k, (st < k <= length T)%nat /\ glob (drop (i + 1) Q) (drop k T))
  end.

Definition match_measure (p st : nat) : nat :=
  ((length T - st) * S (length P) + (length P - p))%nat.

Lemma Q_at p c : P !! p = Some c -> drop p Q = c :: drop (S p) Q.
Proof. intros H. apply drop_S. unfold Q. by apply lookup_app_l_Some. Qed.

Lemma Q_end : drop (length P) Q = if anchored then [] else [star].
Proof. unfold Q. by rewrite drop_app_length. Qed.

Lemma seg_length (seg : bytes) t st :
  (t <= length T)%nat -> (st <= t)%nat ->
  drop st T = seg ++ drop t T -> (length seg = t - st)%nat.
Proof.
  intros Ht Hst H. apply (f_equal (@length _)) in H.
  rewrite length_app, !length_drop in H. lia.
Qed.

(** A restart strictly to the right of the last star is subsumed by the
    current position once the next pattern byte is a star. *)
Lemma restart_subsumed p t i st :
  match_inv p t (Some i) st -> P !! p = Some star ->
  (exists k, (st < k <= length T)%nat /\ glob (drop (i + 1) Q) (drop k T)) ->
  glob (drop p Q) (drop t T).
Proof.
  intros (Hp & Ht & Hst & Hi & (seg & Hseg & HQ & HT) & _) Hc (k & Hk & Hg).
  rewrite HQ in Hg. apply glob_segment in Hg as (t' & Hdk & Hg); [|done].
  pose proof (seg_length seg t st Ht Hst HT) as Hlen.
  rewrite (Q_at p star Hc) in *.
  assert (Hd : drop (k + length seg) T = t').
  { rewrite <- drop_drop, Hdk. apply drop_app_length. }
  replace (drop t T) with (take (k - st) (drop t T) ++ drop (k + length seg) T).
  - rewrite Hd. by apply glob_star_absorb.
  - rewrite Hlen. replace (k + (t - st))%nat with (t + (k - st))%nat by lia.
    rewrite <- drop_drop. apply take_drop.
Qed.

Lemma match_inv_star p t s st :
  match_inv p t s st -> (t < length T)%nat -> P !! p = Some star ->
  match_inv (S p) t (Some p) t.
Proof.
  intros Hinv Ht Hc. pose proof Hinv as (Hp & _ & Hst & Hrest).
  pose proof (lookup_lt_Some _ _ _ Hc) as Hlt.
  repeat split; [lia|lia|lia|lia| | |].
  - exists []. rewrite Nat.add_1_r. by repeat split.
  - intros Hg.
    assert (Hcur : glob (drop p Q) (drop t T)).
    { destruct s as [i|]; [|by apply Hrest].
      destruct Hrest as (_ & _ & Hiff). apply Hiff in Hg as [Hg|Hg]; [done|].
      by eapply restart_subsumed. }
    rewrite (Q_at p star Hc) in Hcur. apply glob_star_inv in Hcur as (k & Hk & Hg').
    rewrite length_drop in Hk. rewrite drop_drop in Hg'. rewrite Nat.add_1_r.
    destruct k as [|k]; [left; by rewrite Nat.add_0_r in Hg'|].
    right. exists (t + S k)%nat. split; [lia|done].
  - intros H. assert (Hcur : glob (drop p Q) (drop t T)).
    { rewrite (Q_at p star Hc). apply glob_star_inv. destruct H as [H|(k & Hk & H)].
      - exists 0%nat. split; [lia|]. by rewrite drop_0.
      - rewrite Nat.add_1_r in H. exists (k - t)%nat. rewrite length_drop, drop_drop.
        split; [lia|]. by replace (t + (k - t))%nat with k by lia. }
    destruct s as [i|]; [|by apply Hrest]. apply Hrest. by left.
Qed.

Lemma match_inv_char p t s st c :
  match_inv p t s st -> P !! p = Some c -> c <> star -> T !! t = Some c ->
  match_inv (S p) (S t) s st.
Proof.
  intros (Hp & Ht & Hst & Hrest) Hc Hns Htc.
  pose proof (lookup_lt_Some _ _ _ Hc). pose proof (lookup_lt_Some _ _ _ Htc).
  assert (Hstep : glob (drop p Q) (drop t T) <-> glob (drop (S p) Q) (drop (S t) T)).
  { rewrite (Q_at p c Hc), (drop_S _ _ _ Htc), glob_char_inv by done. split.
    - by intros (? & [= <-] & ?).
    - eauto. }
  split; [lia|]. split; [lia|]. split; [lia|].
  destruct s as [i|]; rewrite <- Hstep; [|done]. destruct Hrest as (Hi & (seg & Hseg & HQ & HT) & Hiff).
  split; [lia|]. split; [|done]. exists (seg ++ [c]). rewrite Forall_app.
  split; [by repeat constructor|]. rewrite <- !app_assoc. simpl.
  by rewrite <- (Q_at p c Hc), <- (drop_S _ _ _ Htc).
Qed.

Lemma match_inv_backtrack p t i st :
  match_inv p t (Some i) st -> (t < length T)%nat ->
  ~ glob (drop p Q) (drop t T) ->
  match_inv (i + 1) (S st) (Some i) (S st).
Proof.
  intros (Hp & _ & Hst & Hi & _ & Hiff) Ht Hno.
  repeat split; [lia|lia|lia|lia| | |].
  - exists []. by repeat split.
  - intros Hg. apply Hiff in Hg as [?|(k & Hk & Hg)]; [done|].
    destruct (decide (k = S st)) as [->|]; [by left|]. right. exists k. split; [lia|done].
  - intros H. apply Hiff. right. destruct H as [H|(k & Hk & H)].
    + exists (S st). split; [lia|done].
    + exists k. split; [lia|done].
Qed.

(** Where the loop neither advances nor finds a star, the current position
    cannot match. *)
Lemma no_match_here p t s st :
  match_inv p t s st -> (t < length T)%nat -> (anchored = false -> (p < length P)%nat) ->
  (forall c, P !! p = Some c -> c <> star /\ T !! t <> Some c) ->
  ~ glob (drop p Q) (drop t T).
Proof.
  intros (Hp & _) Ht Hanch Hno. destruct (lookup_lt_is_Some_2 T t Ht) as [d Hd].
  rewrite (drop_S _ _ _ Hd). destruct (P !! p) as [c|] eqn:Hc.
  - destruct (Hno c eq_refl) as [Hns Hne]. rewrite (Q_at p c Hc), glob_char_inv by done.
    intros (? & [= -> _] & _). congruence.
  - apply lookup_ge_None in Hc. assert (p = length P) as -> by lia.
    rewrite Q_end. destruct anchored; [by rewrite glob_nil_inv|].
    specialize (Hanch eq_refl). lia.
Qed.

Lemma skip_stars_spec fuel p :
  (p <= length P)%nat -> (length P - p <= fuel)%nat ->
  Nat.eqb (skip_stars fuel P p) (length P) = true <-> Forall (fun c => c = star) (drop p P).
Proof.
  revert p. induction fuel as [|fuel IH]; intros p Hp Hf; simpl.
  - assert (p = length P) as -> by lia. rewrite drop_all, Nat.eqb_refl. by split.
  - destruct (P !! p) as [c|] eqn:Hc.
    + rewrite (drop_S _ _ _ Hc), Forall_cons. pose proof (lookup_lt_Some _ _ _ Hc).
      destruct (byte_eqb_spec c star) as [->|Hns].
      * rewrite IH by lia. split; [done|by intros [_ ?]].
      * rewrite Nat.eqb_eq. split; [lia|by intros [? _]].
    + apply lookup_ge_None in Hc. assert (p = length P) as -> by lia.
      rewrite drop_all, Nat.eqb_refl. by split.
Qed.

Lemma match_inv_exit p t s st :
  match_inv p t s st -> (length T <= t)%nat ->
  glob Q T <-> Forall (fun c => c = star) (drop p P).
Proof.
  intros (Hp & Ht & Hst & Hrest) Hend. assert (t = length T) as -> by lia.
  assert (Hcur : glob (drop p Q) (drop (length T) T) <-> Forall (fun c => c = star) (drop p P)).
  { rewrite drop_all, glob_stars. unfold Q. rewrite drop_app_le, Forall_app by done.
    split; [by intros [? _]|]. intros ?. split; [done|].
    destruct anchored; by repeat constructor. }
  rewrite <- Hcur. destruct s as [i|]; [|done].
  destruct Hrest as (Hi & (seg & Hseg & HQ & HT) & ->).
  split; [|by left]. intros [?|(k & Hk & Hg)]; [done|]. exfalso.
  rewrite HQ in Hg. apply glob_segment in Hg as (t' & Hd & _); [|done].
  pose proof (seg_length seg _ _ Ht Hst HT) as Hlen.
  apply (f_equal (@length _)) in Hd. rewrite length_app, length_drop in Hd. lia.
Qed.

Lemma match_inv_full p t s st :
  match_inv p t s st -> p = length P -> anchored = false -> glob Q T.
Proof.
  intros (_ & _ & _ & Hrest) -> Ha.
  assert (glob (drop (length P) Q) (drop t T)).
  { rewrite Q_end, Ha. rewrite <- (app_nil_r (drop t T)). constructor. constructor. }
  destruct s as [i|]; [|by apply Hrest]. apply Hrest. by left.
Qed.

(** One [switch] step keeps the invariant, lowers the measure, and returns
    [false] only where there is no match. *)
Lemma match_step_spec p t s st :
  match_inv p t s st -> (t < length T)%nat -> (anchored = false -> (p < length P)%nat) ->
  match match_step P T p t s st with
  | None => ~ glob Q T
  | Some (p', t', s', st') =>
      match_inv p' t' s' st' /\ (match_measure p' st' < match_measure p st)%nat
  end.
Proof.
  intros Hinv Ht Hanch. pose proof Hinv as (Hp & _ & Hst & Hrest).
  assert (Hback : ~ glob (drop p Q) (drop t T) ->
    match (match s with
           | Some s => Some ((s + 1)%nat, S st, Some s, S st)
           | None => None end : option (nat * nat * option nat * nat)) with
    | None => ~ glob Q T
    | Some (p', t', s', st') =>
        match_inv p' t' s' st' /\ (match_measure p' st' < match_measure p st)%nat
    end).
  { intros Hno. destruct s as [i|].
    - split; [by eapply match_inv_backtrack|]. destruct Hrest as (Hi & _).
      unfold match_measure. destruct (length T - st)%nat as [|n] eqn:En; [lia|].
      replace (length T - S st)%nat with n by lia. simpl. lia.
    - by rewrite Hrest. }
  pose proof (no_match_here p t s st Hinv Ht Hanch) as Hnm.
  unfold match_step. cbv zeta. destruct (P !! p) as [c|] eqn:Hc; [|by apply Hback, Hnm].
  pose proof (lookup_lt_Some _ _ _ Hc).
  destruct (byte_eqb_spec c star) as [->|Hns].
  - split; [by eapply match_inv_star|]. unfold match_measure.
    pose proof (Nat.mul_le_mono_r (length T - t) (length T - st) (S (length P)) ltac:(lia)). lia.
  - destruct (T !! t) as [d|] eqn:Hd; [|apply Hback, Hnm; intros; simplify_eq; done].
    destruct (byte_eqb_spec c d) as [<-|Hne].
    + split; [by eapply match_inv_char|]. unfold match_measure. lia.
    + apply Hback, Hnm. intros; simplify_eq. split; [done|congruence].
Qed.

(** Enough fuel gives the answer. *)
Lemma match_loop_spec fuel p t s st :
  match_inv p t s st -> (match_measure p st < fuel)%nat ->
  (anchored = false -> (p < length P)%nat) ->
  exists b, match_loop fuel anchored P T p t s st = Some b /\ (b = true <-> glob Q T).
Proof.
  revert p t s st. induction fuel as [|fuel IH]; intros p t s st Hinv Hf Hanch; [lia|].
  simpl. destruct (Nat.ltb_spec t (length T)) as [Ht|Ht].
  - pose proof (match_step_spec p t s st Hinv Ht Hanch) as Hstep.
    destruct (match_step P T p t s st) as [[[[p' t'] s'] st']|].
    + destruct Hstep as [Hinv' Hm].
      destruct (negb anchored && Nat.eqb p' (length P))%bool eqn:He.
      * exists true. split; [done|]. b2p. split; [|done]. intros _.
        eapply match_inv_full; [done|by apply Nat.eqb_eq|done].
      * apply IH; [done|lia|]. intros Ha. rewrite Ha in He. simpl in He.
        apply Nat.eqb_neq in He. destruct Hinv' as (? & _). lia.
    + exists false. split; [done|]. split; [done|by intros ?].
  - exists (Nat.eqb (skip_stars (length P) P p) (length P)). split; [done|].
    rewrite skip_stars_spec by (destruct Hinv as (? & _); lia).
    symmetry. by eapply match_inv_exit.
Qed.

Lemma match_loop_start :
  (anchored = false -> P <> []) ->
  exists b, match_loop (match_fuel P T) anchored P T 0 0 None 0 = Some b
            /\ (b = true <-> glob Q T).
Proof.
  intros HP. apply match_loop_spec.
  - repeat split; try lia; by rewrite !drop_0.
  - unfold match_measure, match_fuel. lia.
  - intros Ha. specialize (HP Ha). destruct P; [done|simpl; lia].
Qed.
End MatchLoop.

(** C39: the robots matcher terminates and is exact: for every non-empty pattern
    the backtracking loop of patternMatches returns true precisely when the
    target is in the pattern's language, where a star stands for any byte
    sequence, a final dollar anchors the end, and otherwise a prefix matches. *)
Theorem patternMatches_correct pattern target :
  pattern <> [] ->
  (exists b, match_loop
     (match_fuel (if HasSuffix pattern (bs "$") then TrimSuffix pattern (bs "$") else pattern) target)
     (HasSuffix pattern (bs "$"))
     (if HasSuffix pattern (bs "$") then TrimSuffix pattern (bs "$") else pattern)
     target 0 0 None 0 = Some b)
  /\ (patternMatches pattern target = true <-> robots_match pattern target).
Proof.
  intros Hne. unfold patternMatches, robots_match. cbv zeta.
  destruct (HasSuffix pattern (bs "$")).
  - destruct (match_loop_start true (TrimSuffix pattern (bs "$")) target) as (b & -> & Hb); [done|].
    rewrite app_nil_r in Hb. split; [by eexists|]. exact Hb.
  - destruct (match_loop_start false pattern target) as (b & -> & Hb); [done|].
    rewrite glob_app_star in Hb. split; [by eexists|]. exact Hb.
Qed.

Lemma patternMatches_correct_witness :
  robots_match (bs "/fish*.php$") (bs "/fish/salmon.php")
  /\ ~ robots_match (bs "/fish*.php$") (bs "/fish.php?id=1").
Proof.
  split.
  - by apply (proj2 (patternMatches_correct (bs "/fish*.php$") (bs "/fish/salmon.php") ltac:(done))).
  - rewrite <- (proj2 (patternMatches_correct (bs "/fish*.php$") (bs "/fish.php?id=1") ltac:(done))).
    by vm_compute.
Defined.
