(* ===== verification/RobotsPolicy.v ===== *)
(** * Robots policies ([internal/robots/robots.go], [body.go])

    Parsing a robots.txt body into the rules and crawl delays that apply to
    JoshBot, normalising URL values for comparison, deciding whether a target
    is allowed, and the crawl delay. *)

From S2P Require Import Prelude GoText GoUrl RobotsMatch.

(** ** Data *)

Definition ProductToken : bytes := bs "Joshternet-Joshbot".

Record rule : Type := mkRule { pattern : bytes; allow : bool; specificity : Z }.

Record group : Type := mkGroup {
  userAgents : list bytes;
  rules : list rule;
  crawlDelays : list bytes;
  hasDirectives : bool;
}.

Definition empty_group : group := mkGroup [] [] [] false.

Record Policy : Type := mkPolicy { policy_rules : list rule; policy_crawlDelays : list bytes }.

(** ** Percent-encoding and normalisation *)

Definition isHex (c : ascii) : bool :=
  in_range "0" "9" c || in_range "A" "F" c || in_range "a" "f" c.

(** Byte arithmetic of [hexValue] stays within a byte for hexadecimal digits;
    [chr] wraps like Go's [byte]. *)
Definition hexValue (c : ascii) : ascii :=
  if in_range "0" "9" c then chr (code c - code "0")
  else if in_range "A" "F" c then chr (code c - code "A" + 10)
  else chr (code c - code "a" + 10).

Definition isUnreserved (c : ascii) : bool :=
  in_range "A" "Z" c || in_range "a" "z" c || in_range "0" "9" c
  || byte_eqb c "-" || byte_eqb c "." || byte_eqb c "_" || byte_eqb c "~".

Definition hexadecimal : bytes := bs "0123456789ABCDEF".

(** The bytes [writePercentEncoded] appends. *)
Definition writePercentEncoded (c : ascii) : bytes :=
  ["%"%char;
   List.nth (Z.to_nat (Z.shiftr (code c) 4)) hexadecimal "0"%char;
   List.nth (Z.to_nat (Z.land (code c) 15)) hexadecimal "0"%char].

(** [hexValue(a)<<4 | hexValue(b)] *)
Definition hexPair (a b : ascii) : ascii :=
  chr (Z.lor (Z.shiftl (code (hexValue a)) 4) (code (hexValue b))).

Definition is_control (c : ascii) : bool := (code c <? 32) || (code c =? 127).

(** The loop of [normalizeMatchValue] on the bytes still to read; [None] is
    the code's [("", false)]. *)
Fixpoint normalize_loop (fuel : nat) (value : bytes) (encodeSpecial : bool) : option bytes :=
  match value, fuel with
  | [], _ => Some []
  | _ :: _, O => None
  | character :: rest, S fuel' =>
      if byte_eqb character "%" then
        match rest with
        | a :: b :: rest' =>
            if negb (isHex a) || negb (isHex b) then None
            else
              let octet := hexPair a b in
              let written := if isUnreserved octet then [octet] else writePercentEncoded octet in
              match normalize_loop fuel' rest' encodeSpecial with
              | Some out => Some (written ++ out)
              | None => None
              end
        | _ => None
        end
      else if 128 <=? code character then
        match utf8_size value with
        | None => None
        | Some size =>
            match normalize_loop fuel' (drop size value) encodeSpecial with
            | Some out => Some (concat (map writePercentEncoded (take size value)) ++ out)
            | None => None
            end
        end
      else if is_control character then None
      else if encodeSpecial && (byte_eqb character "*" || byte_eqb character "$") then
        match normalize_loop fuel' rest encodeSpecial with
        | Some out => Some (writePercentEncoded character ++ out)
        | None => None
        end
      else
        match normalize_loop fuel' rest encodeSpecial with
        | Some out => Some (character :: out)
        | None => None
        end
  end.

Definition normalizeMatchValue (value : bytes) (encodeSpecial : bool) : option bytes :=
  normalize_loop (length value) value encodeSpecial.

(** ** Records and groups *)

Definition hasControlCharacter (value : bytes) : bool :=
  existsb (fun c => (code c <? 32) && negb (byte_eqb c "009") || (code c =? 127)) value.

Definition is_blank (c : ascii) : bool := byte_eqb c " " || byte_eqb c "009".

(** Field, value and whether the line is a record. *)
Definition parseRecord (line : bytes) : option (bytes * bytes) :=
  let line := TrimSuffix line ["013"%char] in
  if negb (utf8_Valid line) || hasControlCharacter line then None
  else
    let '(line, _, _) := Cut line "#" in
    let '(field, value, found) := Cut line ":" in
    if negb found then None
    else Some (Trim is_blank field, Trim is_blank value).

Definition validProductToken (token : bytes) : bool :=
  if bytes_eqb token (bs "*") then true
  else
    forallb (fun c => in_range "A" "Z" c || in_range "a" "z" c
                      || byte_eqb c "-" || byte_eqb c "_") token
    && negb (bytes_eqb token []).

Definition makeRule (allow : bool) (pat : bytes) : option rule :=
  match pat with
  | [] => None
  | c :: _ =>
      if negb (byte_eqb c "/") && negb (byte_eqb c "*") then None
      else
        match normalizeMatchValue pat false with
        | None => None
        | Some normalized => Some (mkRule normalized allow (Z.of_nat (length normalized)))
        end
  end.

Definition add_agent (g : group) (token : bytes) : group :=
  mkGroup (userAgents g ++ [token]) (rules g) (crawlDelays g) (hasDirectives g).
Definition add_rule (g : group) (r : option rule) : group :=
  mkGroup (userAgents g) (match r with Some r => rules g ++ [r] | None => rules g end)
          (crawlDelays g) true.
Definition add_delay (g : group) (value : bytes) : group :=
  mkGroup (userAgents g) (rules g) (crawlDelays g ++ [value]) true.

(** One line of [parseGroups]. The slice of groups is kept last first, so its
    head is the group [current] points to, and [current] is nil exactly when
    the list is empty. *)
Definition parse_line (groups : list group) (line : bytes) : list group :=
  match parseRecord line with
  | None => groups
  | Some (field, value) =>
      if EqualFold field (bs "user-agent") then
        if validProductToken value then
          match groups with
          | current :: earlier =>
              if hasDirectives current then add_agent empty_group value :: groups
              else add_agent current value :: earlier
          | [] => [add_agent empty_group value]
          end
        else empty_group :: groups
      else if EqualFold field (bs "allow") || EqualFold field (bs "disallow") then
        match groups with
        | current :: earlier =>
            if negb (bool_decide (userAgents current = [])) then
              add_rule current (makeRule (EqualFold field (bs "allow")) value) :: earlier
            else groups
        | [] => groups
        end
      else if EqualFold field (bs "crawl-delay") then
        match groups with
        | current :: earlier =>
            if negb (bool_decide (userAgents current = [])) then
              add_delay current value :: earlier
            else groups
        | [] => groups
        end
      else groups
  end.

Definition newline : ascii := "010".

Definition parseGroups (data : bytes) : list group :=
  rev (fold_left parse_line (Split data newline) []).

(** The two flags the inner loop of [Parse] computes for a group. *)
Definition group_exact (g : group) : bool :=
  existsb (fun agent => EqualFold agent ProductToken) (userAgents g).
Definition group_wildcard (g : group) : bool :=
  existsb (fun agent => negb (EqualFold agent ProductToken) && bytes_eqb agent (bs "*"))
          (userAgents g).

(** The accumulators of the loop of [Parse]. *)
Record parse_acc : Type := mkAcc {
  exactRules : list rule; exactCrawlDelays : list bytes;
  wildcardRules : list rule; wildcardCrawlDelays : list bytes;
  exactMatched : bool }.

Definition parse_group (acc : parse_acc) (candidate : group) : parse_acc :=
  if group_exact candidate then
    mkAcc (exactRules acc ++ rules candidate) (exactCrawlDelays acc ++ crawlDelays candidate)
          (wildcardRules acc) (wildcardCrawlDelays acc) true
  else if group_wildcard candidate then
    mkAcc (exactRules acc) (exactCrawlDelays acc)
          (wildcardRules acc ++ rules candidate)
          (wildcardCrawlDelays acc ++ crawlDelays candidate) (exactMatched acc)
  else acc.

Definition Parse (data : bytes) : Policy :=
  let acc := fold_left parse_group (parseGroups data) (mkAcc [] [] [] [] false) in
  if exactMatched acc then mkPolicy (exactRules acc) (exactCrawlDelays acc)
  else mkPolicy (wildcardRules acc) (wildcardCrawlDelays acc).

(** ** Crawl delay *)

Definition decimalDigits (value : bytes) : bool := forallb is_digit value.

Definition maxDurationNanoseconds : Z := 2 ^ 63 - 1.
Definition nanosecondsPerSecond : Z := Second.

(** The two accumulation loops over the fraction, at 64 bits. *)
Definition fraction_loop (fractionalValue : bytes) : Z :=
  fold_left (fun n c => wrap_uint64 (n * 10 + digit_value c)) fractionalValue 0.

Fixpoint scale_loop (digits : nat) (n : Z) : Z :=
  match digits with
  | O => n
  | S digits' => scale_loop digits' (wrap_uint64 (n * 10))
  end.

(** [None] is [ErrInvalidCrawlDelay]. *)
Definition parseCrawlDelay (value : bytes) : option Z :=
  let '(secondsValue, fractionalValue, hasFraction) := Cut value "." in
  if bytes_eqb secondsValue [] || negb (decimalDigits secondsValue) then None
  else if hasFraction && (bytes_eqb fractionalValue [] || Nat.ltb 9 (length fractionalValue)
                          || negb (decimalDigits fractionalValue)) then None
  else
    match ParseUint secondsValue 64 with
    | None => None
    | Some seconds =>
        if maxDurationNanoseconds / nanosecondsPerSecond <? seconds then None
        else
          let totalNanoseconds := wrap_uint64 (seconds * nanosecondsPerSecond) in
          if hasFraction then
            let fractionalNanoseconds :=
              scale_loop (9 - length fractionalValue) (fraction_loop fractionalValue) in
            if maxDurationNanoseconds - totalNanoseconds <? fractionalNanoseconds then None
            else Some (wrap_uint64 (totalNanoseconds + fractionalNanoseconds))
          else Some totalNanoseconds
    end.

Fixpoint crawlDelay_loop (values : list bytes) (delay : Z) : option Z :=
  match values with
  | [] => Some delay
  | value :: values' =>
      match parseCrawlDelay value with
      | None => None
      | Some parsed => crawlDelay_loop values' (if delay <? parsed then parsed else delay)
      end
  end.

Definition crawlDelay (p : Policy) (limit : Z) : option Z :=
  match crawlDelay_loop (policy_crawlDelays p) 0 with
  | None => None
  | Some delay => Some (Z.min delay limit)
  end.

Definition DefaultMaxCrawlDelay : Z := 30 * Second.

Definition CrawlDelay (p : Policy) : option Z := crawlDelay p DefaultMaxCrawlDelay.

(** ** Targets *)

Section Targets.
Context `{NetURL}.

(** [None] is the code's [("", false)]; the argument is nil or a URL. *)
Definition targetMatchValue (target : option URL) : option bytes :=
  match target with
  | None => None
  | Some u =>
      if negb (bytes_eqb (Scheme u) (bs "http")) && negb (bytes_eqb (Scheme u) (bs "https"))
         || bytes_eqb (Host u) [] || bool_decide (is_Some (User u))
      then None
      else
        let value := url_EscapedPath u in
        let value := if bytes_eqb value [] then bs "/" else value in
        let value := if ForceQuery u || negb (bytes_eqb (RawQuery u) [])
                     then value ++ bs "?" ++ RawQuery u else value in
        normalizeMatchValue value true
  end.

(** The loop over the rules: the verdict and the best specificity so far. *)
Definition allowed_step (targetValue : bytes) (acc : bool * Z) (candidate : rule) : bool * Z :=
  let '(allowed, bestSpecificity) := acc in
  if negb (patternMatches (pattern candidate) targetValue) then acc
  else if (bestSpecificity <? specificity candidate)
          || (specificity candidate =? bestSpecificity) && allow candidate
  then (allow candidate, specificity candidate)
  else acc.

Definition Allowed (p : Policy) (target : option URL) : bool :=
  match targetMatchValue target with
  | None => false
  | Some targetValue =>
      if bytes_eqb targetValue (bs "/robots.txt") then true
      else fst (fold_left (allowed_step targetValue) (policy_rules p) (true, -1))
  end.
End Targets.

(** ** Reading a body *)

Definition MaxBodySize : Z := 500 * 1024.

Definition disallowAllPolicy : Policy := mkPolicy [mkRule (bs "*") false 1] [].

Inductive body_error : Type := errReadBody | errBodyTooLarge.

(** [readPolicy] on what [io.ReadAll] of the limited reader returned: the
    first [MaxBodySize + 1] bytes of [body], or a read error. *)
Definition readPolicy (body : option bytes) : Policy * option body_error :=
  match body with
  | None => (disallowAllPolicy, Some errReadBody)
  | Some stream =>
      let data := take (Z.to_nat (MaxBodySize + 1)) stream in
      if MaxBodySize <? Z.of_nat (length data) then (disallowAllPolicy, Some errBodyTooLarge)
      else (Parse data, None)
  end.
