(* ===== verification/RobotsPolicyFacts.v ===== *)
(** * Properties of robots policies

    What [RobotsPolicy] promises: normalised values are canonical and keep
    their meaning, crawl delays are exact, a verdict is the most specific
    matching rule with allow winning ties, an invalid product token isolates
    the directives that follow it, and unreadable bodies deny everything. *)

From S2P Require Import Prelude GoText GoUrl RobotsMatch RobotsPolicy.

(** ** Percent-encoding *)

(** Decide a property of every byte by computation. *)
Definition all_bytes : list ascii := map (fun n => chr (Z.of_nat n)) (seq 0 256).

Lemma all_bytes_spec c : c ∈ all_bytes.
Proof.
  unfold all_bytes. apply list_elem_of_In, in_map_iff. exists (Z.to_nat (code c)).
  pose proof (code_range c). rewrite Z2Nat.id by lia. split; [apply chr_code|].
  apply in_seq. lia.
Qed.

Lemma byte_forall (f : ascii -> bool) : forallb f all_bytes = true -> forall c, f c = true.
Proof.
  intros H c. rewrite forallb_forall in H. apply H, list_elem_of_In, all_bytes_spec.
Qed.

(** The two hexadecimal digits written for an octet. *)
Definition hi_digit (c : ascii) : ascii :=
  List.nth (Z.to_nat (Z.shiftr (code c) 4)) hexadecimal "0"%char.
Definition lo_digit (c : ascii) : ascii :=
  List.nth (Z.to_nat (Z.land (code c) 15)) hexadecimal "0"%char.

#[local] Arguments hi_digit : simpl never.
#[local] Arguments lo_digit : simpl never.
#[local] Arguments hexPair : simpl never.
#[local] Arguments isHex : simpl never.
#[local] Arguments isUnreserved : simpl never.
#[local] Arguments writePercentEncoded : simpl never.
#[local] Arguments code : simpl never.
#[local] Arguments chr : simpl never.

Lemma writePercentEncoded_digits c : writePercentEncoded c = ["%"%char; hi_digit c; lo_digit c].
Proof. done. Qed.

Lemma hex_digits_ok c :
  isHex (hi_digit c) && isHex (lo_digit c) && byte_eqb (hexPair (hi_digit c) (lo_digit c)) c = true.
Proof.
  revert c. apply byte_forall. by vm_compute.
Qed.

(** The bytes that may stand for themselves in a normalised value. *)
Definition plain (encodeSpecial : bool) (c : ascii) : bool :=
  negb (byte_eqb c "%") && (32 <=? code c) && (code c <? 127)
  && negb (encodeSpecial && (byte_eqb c "*" || byte_eqb c "$")).

Lemma unreserved_plain e c : implb (isUnreserved c) (plain e c) = true.
Proof. destruct e; revert c; apply byte_forall; by vm_compute. Qed.

(** Canonical values: plain bytes and upper-case triplets of octets that must
    stay encoded. *)
Inductive canonical (e : bool) : bytes -> Prop :=
| canonical_nil : canonical e []
| canonical_plain c v : plain e c = true -> canonical e v -> canonical e (c :: v)
| canonical_triplet o v :
    isUnreserved o = false -> canonical e v -> canonical e (writePercentEncoded o ++ v).

(** [normalize_loop] under the guards its cases test. *)
Lemma normalize_plain fuel e c v :
  plain e c = true ->
  normalize_loop (S fuel) (c :: v) e =
    match normalize_loop fuel v e with Some out => Some (c :: out) | None => None end.
Proof.
  unfold plain. intros H. b2p. simpl. unfold is_control.
  repeat match goal with
  | H : byte_eqb c "%" = false |- _ => rewrite H
  end.
  replace (128 <=? code c) with false by lia.
  replace (code c <? 32) with false by lia. replace (code c =? 127) with false by lia. simpl.
  by match goal with H : (e && _)%bool = false |- _ => rewrite H end.
Qed.

Lemma normalize_triplet fuel e o v :
  isUnreserved o = false ->
  normalize_loop (S fuel) (writePercentEncoded o ++ v) e =
    match normalize_loop fuel v e with
    | Some out => Some (writePercentEncoded o ++ out) | None => None end.
Proof.
  intros Ho. pose proof (hex_digits_ok o) as Hd. b2p.
  rewrite writePercentEncoded_digits. cbn [normalize_loop app]. rewrite byte_eqb_refl.
  repeat match goal with H : isHex _ = true |- _ => rewrite H; clear H end. cbn [negb orb].
  match goal with H : byte_eqb _ _ = true |- _ =>
    destruct (byte_eqb_spec (hexPair (hi_digit o) (lo_digit o)) o) as [->|]; [|done] end.
  by rewrite Ho.
Qed.

Lemma utf8_size_high s n :
  utf8_size s = Some n -> (0 < n <= length s)%nat /\
  match s with c :: _ => 128 <= code c -> Forall (fun d => 128 <= code d) (take n s) | [] => True end.
Proof.
  unfold utf8_size, byte_in. intros H.
  repeat case_head_in H; simplify_eq/=; (split; [simpl; lia|]); intros Hc; b2p;
    repeat constructor; lia.
Qed.

Lemma high_reserved c : 128 <= code c -> isUnreserved c = false.
Proof.
  intros Hc. assert (H : implb (128 <=? code c) (negb (isUnreserved c)) = true).
  { clear Hc. revert c. apply byte_forall. by vm_compute. }
  replace (128 <=? code c) with true in H by lia. by apply negb_true_iff.
Qed.

Lemma triplets_cons o os v :
  concat (map writePercentEncoded (o :: os)) ++ v
  = writePercentEncoded o ++ concat (map writePercentEncoded os) ++ v.
Proof. cbn [map concat]. by rewrite app_assoc. Qed.

Lemma canonical_triplets e os v :
  Forall (fun c => 128 <= code c) os -> canonical e v ->
  canonical e (concat (map writePercentEncoded os) ++ v).
Proof.
  induction 1 as [|o os Ho Hos IH]; intros Hv; [done|].
  rewrite triplets_cons. apply canonical_triplet; [by apply high_reserved|by apply IH].
Qed.

(** ** Normalisation produces canonical values and keeps their meaning *)

(** Percent-decoding: the octets a value denotes. *)
Fixpoint pct_decode (v : bytes) : option bytes :=
  match v with
  | [] => Some []
  | c :: rest =>
      if byte_eqb c "%" then
        match rest with
        | a :: b :: rest' =>
            if isHex a && isHex b
            then match pct_decode rest' with Some out => Some (hexPair a b :: out) | None => None end
            else None
        | _ => None
        end
      else match pct_decode rest with Some out => Some (c :: out) | None => None end
  end.

Lemma pct_decode_byte c v : byte_eqb c "%" = false ->
  pct_decode (c :: v) = match pct_decode v with Some out => Some (c :: out) | None => None end.
Proof. intros H. simpl. by rewrite H. Qed.

Lemma pct_decode_triplet o v :
  pct_decode (writePercentEncoded o ++ v) =
    match pct_decode v with Some out => Some (o :: out) | None => None end.
Proof.
  pose proof (hex_digits_ok o) as Hd. b2p. rewrite writePercentEncoded_digits.
  cbn [pct_decode app]. rewrite byte_eqb_refl.
  repeat match goal with H : isHex _ = true |- _ => rewrite H; clear H end. cbn [andb].
  by destruct (byte_eqb_spec (hexPair (hi_digit o) (lo_digit o)) o) as [->|].
Qed.

Lemma pct_decode_app_high os v :
  Forall (fun c => 128 <= code c) os ->
  pct_decode (os ++ v) = pct_decode (concat (map writePercentEncoded os) ++ v).
Proof.
  induction 1 as [|o os Ho Hos IH]; [done|].
  rewrite triplets_cons, pct_decode_triplet. cbn [app]. rewrite pct_decode_byte.
  - by rewrite IH.
  - unfold byte_eqb. change (code "%") with 37. lia.
Qed.

(** One induction along the loop gives both facts. *)
Lemma normalize_loop_sound fuel v e out :
  normalize_loop fuel v e = Some out -> canonical e out /\ pct_decode out = pct_decode v.
Proof.
  revert v out. induction fuel as [|fuel IH]; intros v out; destruct v as [|c v]; cbn [normalize_loop].
  - intros [= <-]. split; [constructor|done].
  - done.
  - intros [= <-]. split; [constructor|done].
  - destruct (byte_eqb c "%") eqn:Hpct.
    + destruct v as [|a [|b v]]; try done. destruct (negb (isHex a) || negb (isHex b))%bool eqn:Hhex; [done|].
      destruct (normalize_loop fuel v e) as [o|] eqn:Hrec; [|done]. intros [= <-].
      apply IH in Hrec as [Hc Hd]. b2p. cbn [pct_decode]. rewrite Hpct.
      repeat match goal with H : isHex _ = true |- _ => rewrite H; clear H end. cbn [andb].
      rewrite <- Hd. destruct (isUnreserved (hexPair a b)) eqn:Hu.
      * pose proof (unreserved_plain e (hexPair a b)) as Hp. rewrite Hu in Hp. simpl in Hp.
        split; [by apply canonical_plain|]. apply pct_decode_byte. unfold plain in Hp. by b2p.
      * split; [by apply canonical_triplet|]. apply pct_decode_triplet.
    + destruct (128 <=? code c) eqn:Hhigh.
      * destruct (utf8_size (c :: v)) as [size|] eqn:Hsz; [|done].
        destruct (normalize_loop fuel (drop size (c :: v)) e) as [o|] eqn:Hrec; [|done].
        intros [= <-]. apply IH in Hrec as [Hc Hd].
        apply utf8_size_high in Hsz as [_ Hall]. specialize (Hall ltac:(lia)).
        split; [by apply canonical_triplets|].
        assert (Hsplit : pct_decode (c :: v) = pct_decode (take size (c :: v) ++ drop size (c :: v)))
          by (by rewrite take_drop).
        rewrite Hsplit, (pct_decode_app_high (take size (c :: v))) by done.
        revert Hd. generalize (drop size (c :: v)). generalize (take size (c :: v)).
        clear. intros os rest Hd. induction os as [|x os IH]; [done|].
        by rewrite !triplets_cons, !pct_decode_triplet, IH.
      * destruct (is_control c) eqn:Hctl; [done|].
        destruct (e && (byte_eqb c "*" || byte_eqb c "$"))%bool eqn:Hsp;
          (destruct (normalize_loop fuel v e) as [o|] eqn:Hrec; [|done]); intros <-%(inj Some);
          apply IH in Hrec as [Hc Hd].
        -- split; [|by rewrite pct_decode_triplet, pct_decode_byte, Hd by done].
           apply canonical_triplet; [|done]. b2p.
           destruct (byte_eqb_spec c "*") as [->|]; [done|].
           destruct (byte_eqb_spec c "$") as [->|]; [done|]. by simpl in *.
        -- split; [|by rewrite !pct_decode_byte, Hd by done].
           apply canonical_plain; [|done]. unfold plain. rewrite Hpct, Hsp. simpl.
           unfold is_control in Hctl. lia.
Qed.

Lemma normalize_loop_canonical fuel e v :
  canonical e v -> (length v <= fuel)%nat -> normalize_loop fuel v e = Some v.
Proof.
  intros Hv. revert fuel. induction Hv as [|c v Hc Hv IH|o v Ho Hv IH]; intros fuel Hf.
  - by destruct fuel.
  - destruct fuel as [|fuel]; simpl in Hf; [lia|].
    rewrite normalize_plain, IH by (done || lia). done.
  - rewrite length_app in Hf. change (length (writePercentEncoded o)) with 3%nat in Hf.
    destruct fuel as [|fuel]; [lia|]. rewrite normalize_triplet, IH by (done || lia). done.
Qed.

Lemma canonical_printable e v : canonical e v -> Forall (fun c => 32 <= code c < 127) v.
Proof.
  induction 1 as [|c v Hc Hv IH|o v Ho Hv IH]; [constructor| |].
  - constructor; [|done]. unfold plain in Hc. b2p. lia.
  - apply Forall_app. split; [|done].
    assert (Hf : forallb (fun c => (32 <=? code c) && (code c <? 127)) (writePercentEncoded o) = true).
    { clear. revert o. apply byte_forall. by vm_compute. }
    apply Forall_forall. intros d Hd. rewrite forallb_forall in Hf.
    specialize (Hf d (proj1 (list_elem_of_In _ _) Hd)). lia.
Qed.

(** normalising a robots pattern or a URL value is sound and canonical: the
    result denotes the same octets under percent-decoding, consists of
    printable ASCII only, and normalising it again changes nothing. *)
Theorem normalizeMatchValue_correct v e out :
  normalizeMatchValue v e = Some out ->
  pct_decode out = pct_decode v
  /\ Forall (fun c => 32 <= code c < 127) out
  /\ normalizeMatchValue out e = Some out.
Proof.
  unfold normalizeMatchValue. intros H. apply normalize_loop_sound in H as [Hc Hd].
  split; [done|]. split; [by eapply canonical_printable|]. by apply normalize_loop_canonical.
Qed.

Lemma normalizeMatchValue_correct_witness :
  normalizeMatchValue (bs "/%7Euser/a%2fb*") true = Some (bs "/~user/a%2Fb%2A")
  /\ pct_decode (bs "/~user/a%2Fb%2A") = pct_decode (bs "/%7Euser/a%2fb*").
Proof.
  assert (E : normalizeMatchValue (bs "/%7Euser/a%2fb*") true = Some (bs "/~user/a%2Fb%2A"))
    by (by vm_compute).
  split; [exact E|]. exact (proj1 (normalizeMatchValue_correct _ _ _ E)).
Defined.

(** ** Crawl delays *)

(** The duration, in nanoseconds, that seconds [s] and fraction [f] denote. *)
Definition crawl_delay_nanoseconds (s f : bytes) : Z :=
  decimal_value s * 10 ^ 9 + decimal_value f * 10 ^ (9 - Z.of_nat (length f)).

Lemma fraction_loop_value f :
  forallb is_digit f = true -> (length f <= 9)%nat -> fraction_loop f = decimal_value f.
Proof.
  induction f as [|c f IH] using rev_ind; intros Hd Hl; [done|].
  rewrite forallb_app in Hd. rewrite length_app in Hl. simpl in Hd, Hl. b2p.
  unfold fraction_loop in *. rewrite fold_left_app, decimal_value_snoc. simpl.
  rewrite IH by (done || lia).
  pose proof (decimal_value_range f ltac:(done)). pose proof (digit_value_range c ltac:(done)).
  apply wrap_uint64_id. unfold max_uint64.
  assert (10 ^ Z.of_nat (length f) <= 10 ^ 9) by (apply Z.pow_le_mono_r; lia). lia.
Qed.

Lemma scale_loop_value digits n :
  0 <= n -> n * 10 ^ Z.of_nat digits < 10 ^ 9 -> scale_loop digits n = n * 10 ^ Z.of_nat digits.
Proof.
  revert n. induction digits as [|digits IH]; intros n Hn Hb; cbn [scale_loop].
  - change (10 ^ Z.of_nat 0) with 1. lia.
  - rewrite Nat2Z.inj_succ, Z.pow_succ_r in * by lia.
    assert (1 <= 10 ^ Z.of_nat digits) by (apply (Z.pow_le_mono_r 10 0); lia).
    rewrite wrap_uint64_id by (unfold max_uint64; nia). rewrite IH by nia. lia.
Qed.

Lemma fraction_value f :
  forallb is_digit f = true -> (length f <= 9)%nat ->
  scale_loop (9 - length f) (fraction_loop f) = decimal_value f * 10 ^ (9 - Z.of_nat (length f))
  /\ 0 <= decimal_value f * 10 ^ (9 - Z.of_nat (length f)) < 10 ^ 9.
Proof.
  intros Hd Hl. pose proof (decimal_value_range f Hd) as Hr.
  assert (Hp : 10 ^ Z.of_nat (length f) * 10 ^ (9 - Z.of_nat (length f)) = 10 ^ 9)
    by (rewrite <- Z.pow_add_r by lia; f_equal; lia).
  assert (0 < 10 ^ (9 - Z.of_nat (length f))) by (apply Z.pow_pos_nonneg; lia).
  rewrite fraction_loop_value by done.
  replace (9 - Z.of_nat (length f)) with (Z.of_nat (9 - length f)) in * by lia.
  split; [apply scale_loop_value; nia|nia].
Qed.

Lemma Cut_not_found s sep before after :
  Cut s sep = (before, after, false) -> after = [].
Proof.
  revert before. induction s as [|c s IH]; simpl; intros before H; [by simplify_eq|].
  destruct (byte_eqb c sep); [by simplify_eq|].
  destruct (Cut s sep) as [[b a] fd]. simplify_eq. by eapply IH.
Qed.

(** The guards of [parseCrawlDelay] on a cut value. *)
Definition crawl_delay_syntax (s f : bytes) (found : bool) : bool :=
  negb (bytes_eqb s []) && forallb is_digit s
  && implb found (negb (bytes_eqb f []) && Nat.leb (length f) 9 && forallb is_digit f).

Lemma parseCrawlDelay_cut value s f found :
  Cut value "." = (s, f, found) ->
  parseCrawlDelay value =
    if crawl_delay_syntax s f found && (crawl_delay_nanoseconds s f <=? max_int64)
    then Some (crawl_delay_nanoseconds s f) else None.
Proof.
  intros Hcut. unfold parseCrawlDelay, crawl_delay_syntax, decimalDigits. rewrite Hcut.
  destruct (bytes_eqb_spec s []) as [|Hs]; [done|].
  destruct (forallb is_digit s) eqn:Hds; [|done]. cbn [negb orb andb].
  pose proof (decimal_value_range s Hds) as Hr.
  rewrite ParseUint_digits by done.
  change (maxDurationNanoseconds / nanosecondsPerSecond) with 9223372036.
  change maxDurationNanoseconds with 9223372036854775807.
  change nanosecondsPerSecond with 1000000000.
  unfold crawl_delay_nanoseconds, max_int64. change (10 ^ 9) with 1000000000 in *.
  destruct found; cbn [implb andb].
  - destruct (bytes_eqb_spec f []) as [|Hf]; [done|].
    replace (Nat.ltb 9 (length f)) with (negb (Nat.leb (length f) 9)) by
      (destruct (Nat.leb_spec (length f) 9), (Nat.ltb_spec 9 (length f)); simpl; lia).
    destruct (Nat.leb_spec (length f) 9) as [Hl|]; [|done].
    destruct (forallb is_digit f) eqn:Hdf; [|done]. cbn [negb orb andb].
    destruct (fraction_value f Hdf Hl) as [-> Hfr].
    revert Hfr. generalize (decimal_value f * 10 ^ (9 - Z.of_nat (length f))). intros F HF.
    generalize dependent (decimal_value s). intros N HN.
    destruct (N <=? 2 ^ 64 - 1) eqn:E1.
    + destruct (9223372036 <? N) eqn:E2.
      * by replace (N * 1000000000 + F <=? 2 ^ 63 - 1) with false by lia.
      * rewrite (wrap_uint64_id (N * 1000000000)) by (unfold max_uint64; lia).
        destruct (9223372036854775807 - N * 1000000000 <? F) eqn:E3.
        -- by replace (N * 1000000000 + F <=? 2 ^ 63 - 1) with false by lia.
        -- replace (N * 1000000000 + F <=? 2 ^ 63 - 1) with true by lia.
           by rewrite wrap_uint64_id by (unfold max_uint64; lia).
    + by replace (N * 1000000000 + F <=? 2 ^ 63 - 1) with false by lia.
  - rewrite (Cut_not_found _ _ _ _ Hcut). change (decimal_value []) with 0. rewrite Z.mul_0_l, Z.add_0_r.
    generalize dependent (decimal_value s). intros N HN.
    destruct (N <=? 2 ^ 64 - 1) eqn:E1;
      [destruct (9223372036 <? N) eqn:E2|].
    + by replace (N * 1000000000 <=? 2 ^ 63 - 1) with false by lia.
    + replace (N * 1000000000 <=? 2 ^ 63 - 1) with true by lia.
      by rewrite wrap_uint64_id by (unfold max_uint64; lia).
    + by replace (N * 1000000000 <=? 2 ^ 63 - 1) with false by lia.
Qed.

(** the crawl-delay parser is exact: it accepts precisely a decimal number
    of seconds with an optional fraction of one to nine digits whose duration
    fits in a time.Duration, and returns that duration to the nanosecond; every
    other directive is an error, never a silent zero or a wrapped value. *)
Theorem parseCrawlDelay_correct value d :
  parseCrawlDelay value = Some d <->
  exists s f found,
    Cut value "." = (s, f, found)
    /\ s <> [] /\ forallb is_digit s = true
    /\ (found = true -> f <> [] /\ (length f <= 9)%nat /\ forallb is_digit f = true)
    /\ d = crawl_delay_nanoseconds s f /\ d <= max_int64.
Proof.
  destruct (Cut value ".") as [[s f] found] eqn:Hcut.
  rewrite (parseCrawlDelay_cut _ _ _ _ Hcut). unfold crawl_delay_syntax. split.
  - intros H. case_head_in H; [|done]. simplify_eq. b2p. exists s, f, found.
    destruct (bytes_eqb_spec s []); [done|]. repeat split; [done|done| | | |lia].
    all: subst found; simpl in *; b2p.
    + by destruct (bytes_eqb_spec f []).
    + by apply Nat.leb_le.
    + done.
  - intros (s' & f' & found' & [= <- <- <-] & Hs & Hds & Hf & -> & Hle).
    destruct (bytes_eqb_spec s []); [done|]. rewrite Hds.
    replace (crawl_delay_nanoseconds s f <=? max_int64) with true by lia.
    destruct found; [|done]. destruct (Hf eq_refl) as (Hne & Hl & ->).
    destruct (bytes_eqb_spec f []); [done|]. by rewrite (proj2 (Nat.leb_le _ _) Hl).
Qed.

Lemma parseCrawlDelay_range value d : parseCrawlDelay value = Some d -> 0 <= d <= max_int64.
Proof.
  destruct (Cut value ".") as [[s f] found] eqn:Hcut.
  rewrite (parseCrawlDelay_cut _ _ _ _ Hcut). unfold crawl_delay_syntax.
  intros H. case_head_in H; [|done]. simplify_eq. b2p. split; [|lia].
  unfold crawl_delay_nanoseconds.
  pose proof (decimal_value_range s ltac:(done)).
  assert (0 <= decimal_value f).
  { destruct found; simpl in *; b2p; [by apply decimal_value_range|].
    by rewrite (Cut_not_found _ _ _ _ Hcut). }
  pose proof (Z.pow_nonneg 10 (9 - Z.of_nat (length f)) ltac:(lia)). nia.
Qed.

Lemma foldr_max_ge d l : d <= foldr Z.max d l.
Proof. induction l as [|x l IH]; simpl; lia. Qed.

Lemma crawlDelay_loop_spec values delay :
  crawlDelay_loop values delay =
    match mapM parseCrawlDelay values with
    | Some parsed => Some (foldr Z.max delay parsed)
    | None => None
    end.
Proof.
  revert delay. induction values as [|v values IH]; intros delay; [done|]. simpl.
  destruct (parseCrawlDelay v) as [d|]; [|done]. rewrite IH. simpl.
  destruct (mapM parseCrawlDelay values) as [parsed|]; [|done]. simpl. f_equal.
  assert (Hm : (if delay <? d then d else delay) = Z.max d delay)
    by (destruct (Z.ltb_spec delay d); lia).
  rewrite Hm. clear. induction parsed as [|x parsed IH]; simpl; [done|]. rewrite IH. lia.
Qed.

(** the crawl delay of a policy is the longest of its applicable
    directives, capped at the operator's limit, when every one of them is well
    formed; a single malformed directive makes the whole result an error. *)
Theorem crawlDelay_correct p limit :
  crawlDelay p limit =
    match mapM parseCrawlDelay (policy_crawlDelays p) with
    | Some parsed => Some (Z.min (foldr Z.max 0 parsed) limit)
    | None => None
    end
  /\ (crawlDelay p limit = None <->
      exists v, v ∈ policy_crawlDelays p /\ parseCrawlDelay v = None)
  /\ (forall d, crawlDelay p limit = Some d -> 0 <= limit -> 0 <= d <= limit).
Proof.
  assert (Heq : crawlDelay p limit =
    match mapM parseCrawlDelay (policy_crawlDelays p) with
    | Some parsed => Some (Z.min (foldr Z.max 0 parsed) limit) | None => None end).
  { unfold crawlDelay. rewrite crawlDelay_loop_spec. by destruct (mapM _ _). }
  split; [done|]. rewrite Heq. split.
  - destruct (mapM parseCrawlDelay (policy_crawlDelays p)) as [parsed|] eqn:Hm.
    + split; [done|]. intros (v & Hv & Hn). exfalso.
      apply mapM_Some in Hm. apply list_elem_of_lookup in Hv as [i Hi].
      destruct (Forall2_lookup_l _ _ _ _ _ Hm Hi) as (d & _ & Hd). congruence.
    + split; [|done]. intros _. apply mapM_None, Exists_exists in Hm as (v & ? & ?). by exists v.
  - intros d Hd Hl. destruct (mapM _ _) as [parsed|]; simplify_eq.
    pose proof (foldr_max_ge 0 parsed). lia.
Qed.

Lemma crawlDelay_correct_witness :
  crawlDelay (mkPolicy [] [bs "1.5"; bs "90"; bs "2"]) (30 * Second) = Some (30 * Second)
  /\ 0 <= 30 * Second <= 30 * Second.
Proof.
  assert (E : crawlDelay (mkPolicy [] [bs "1.5"; bs "90"; bs "2"]) (30 * Second)
              = Some (30 * Second)) by (by vm_compute).
  split; [exact E|].
  exact (proj2 (proj2 (crawlDelay_correct (mkPolicy [] [bs "1.5"; bs "90"; bs "2"]) (30 * Second)))
           (30 * Second) E ltac:(by vm_compute)).
Defined.

(** ** Groups *)

(** Every rule a parsed group holds is a well-formed rule: a non-empty
    normalised pattern whose specificity is its length. *)
Definition rule_wf (r : rule) : Prop :=
  pattern r <> [] /\ specificity r = Z.of_nat (length (pattern r)).

Lemma makeRule_wf a pat r : makeRule a pat = Some r -> rule_wf r /\ allow r = a.
Proof.
  unfold makeRule. destruct pat as [|c pat]; [done|].
  intros H. repeat case_head_in H; simplify_eq. split; [split; [|done]|done]. simpl.
  unfold normalizeMatchValue in E0. intros ->.
  apply normalize_loop_sound in E0 as [_ Hd]. simpl in Hd. revert Hd.
  b2p. destruct (byte_eqb_spec c "%") as [->|]; [done|].
  destruct (pct_decode pat); done.
Qed.

Definition group_wf (g : group) : Prop := Forall rule_wf (rules g).

Lemma parse_line_wf groups line : Forall group_wf groups -> Forall group_wf (parse_line groups line).
Proof.
  intros Hg. assert (He : group_wf empty_group) by constructor.
  unfold parse_line. destruct (parseRecord line) as [[field value]|]; [|done].
  destruct groups as [|current earlier]; [by repeat case_head; repeat constructor|].
  apply Forall_cons_1 in Hg as [Hc Hg].
  repeat case_head; repeat first [assumption | apply Forall_cons_2].
  all: unfold group_wf, add_rule, add_agent, add_delay in *; simpl; try done.
  destruct (makeRule _ _) as [r|] eqn:Hr; [|done].
  apply Forall_app. split; [done|]. apply makeRule_wf in Hr as [? _].
  by apply Forall_singleton.
Qed.

Lemma parseGroups_wf data : Forall group_wf (parseGroups data).
Proof.
  unfold parseGroups. apply Forall_rev.
  assert (H : forall lines groups, Forall group_wf groups ->
            Forall group_wf (fold_left parse_line lines groups)).
  { induction lines as [|l lines IH]; intros groups Hg; [done|]. simpl.
    by apply IH, parse_line_wf. }
  apply H. constructor.
Qed.

(** The groups [Parse] selects: those naming JoshBot's product token when
    there is one, the wildcard groups otherwise. *)
Definition selected_groups (groups : list group) : list group :=
  if existsb group_exact groups then List.filter group_exact groups
  else List.filter group_wildcard groups.

Lemma parse_group_fold groups acc :
  fold_left parse_group groups acc =
  mkAcc (exactRules acc ++ concat (map rules (List.filter group_exact groups)))
        (exactCrawlDelays acc ++ concat (map crawlDelays (List.filter group_exact groups)))
        (wildcardRules acc ++ concat (map rules
           (List.filter (fun g => negb (group_exact g) && group_wildcard g) groups)))
        (wildcardCrawlDelays acc ++ concat (map crawlDelays
           (List.filter (fun g => negb (group_exact g) && group_wildcard g) groups)))
        (exactMatched acc || existsb group_exact groups).
Proof.
  revert acc. induction groups as [|g groups IH]; intros acc; simpl.
  - rewrite !app_nil_r, orb_false_r. by destruct acc.
  - rewrite IH. unfold parse_group.
    destruct (group_exact g) eqn:He; [|destruct (group_wildcard g) eqn:Hw]; simpl;
      rewrite <- ?app_assoc, ?orb_true_r; done.
Qed.

Lemma filter_wildcard_only groups :
  existsb group_exact groups = false ->
  List.filter (fun g => negb (group_exact g) && group_wildcard g) groups
  = List.filter group_wildcard groups.
Proof.
  induction groups as [|g groups IH]; simpl; [done|]. intros H. b2p.
  rewrite IH by done. by match goal with H : group_exact g = false |- _ => rewrite H end.
Qed.

(** parsing selects the groups that apply to JoshBot and merges them: the
    policy holds the rules and crawl delays, in file order, of every group that
    names the product token, or, when no group does, of every wildcard group;
    groups for other crawlers contribute nothing. *)
Theorem Parse_selects data :
  Parse data =
  mkPolicy (concat (map rules (selected_groups (parseGroups data))))
           (concat (map crawlDelays (selected_groups (parseGroups data)))).
Proof.
  unfold Parse, selected_groups. cbv zeta. rewrite parse_group_fold. simpl.
  destruct (existsb group_exact (parseGroups data)) eqn:He; [done|].
  by rewrite filter_wildcard_only.
Qed.

Lemma Parse_wf data : Forall rule_wf (policy_rules (Parse data)).
Proof.
  unfold Parse. cbv zeta. rewrite parse_group_fold. pose proof (parseGroups_wf data) as Hwf.
  assert (H : forall f, Forall rule_wf (concat (map rules (List.filter f (parseGroups data))))).
  { intros f. apply Forall_concat, Forall_forall. intros rs Hrs.
    apply list_elem_of_In, in_map_iff in Hrs as (g & <- & Hg). apply filter_In in Hg as [Hg _].
    rewrite Forall_forall in Hwf. by apply Hwf, list_elem_of_In. }
  simpl. destruct (existsb _ _); simpl; apply H.
Qed.

(** ** Verdicts *)

Section Verdicts.
Context `{NetURL}.

(** What the rule loop knows after reading [rs]. *)
Definition verdict_inv (v : bytes) (rs : list rule) (acc : bool * Z) : Prop :=
  let '(allowed, best) := acc in
  (forall r, r ∈ rs -> patternMatches (pattern r) v = true -> specificity r <= best)
  /\ (best = -1 -> allowed = true)
  /\ (best <> -1 -> exists r, r ∈ rs /\ patternMatches (pattern r) v = true
                              /\ specificity r = best /\ allow r = allowed)
  /\ (allowed = false -> forall r, r ∈ rs -> patternMatches (pattern r) v = true ->
                                   specificity r = best -> allow r = false).

Lemma verdict_fold v rs :
  Forall rule_wf rs -> verdict_inv v rs (fold_left (allowed_step v) rs (true, -1)).
Proof.
  induction rs as [|r rs IH] using rev_ind; intros Hwf.
  { repeat split; try done; by intros ? ?%elem_of_nil. }
  apply Forall_app in Hwf as [Hwf [[Hne Hsp] _]%Forall_cons_1].
  rewrite fold_left_app. simpl. specialize (IH Hwf).
  destruct (fold_left (allowed_step v) rs (true, -1)) as [allowed best].
  destruct IH as (Hmax & Hnone & Hbest & Hdis). unfold allowed_step.
  destruct (patternMatches (pattern r) v) eqn:Hm; simpl.
  - destruct ((best <? specificity r) || (specificity r =? best) && allow r)%bool eqn:Hup.
    + assert (Hge : best <= specificity r) by lia.
      repeat split.
      * intros r' [Hin| ->%list_elem_of_singleton]%elem_of_app Hm'; [|lia]. by etrans; [apply Hmax|].
      * lia.
      * intros _. exists r. repeat split; try done. apply elem_of_app. right. by constructor.
      * intros Hal r' [Hin| ->%list_elem_of_singleton]%elem_of_app Hm' Hs; [|done].
        specialize (Hmax r' Hin Hm'). rewrite Hal in Hup. lia.
    + repeat split.
      * intros r' [Hin| ->%list_elem_of_singleton]%elem_of_app Hm'; [by apply Hmax|lia].
      * done.
      * intros Hb. destruct (Hbest Hb) as (r' & ? & ?). exists r'. rewrite elem_of_app. tauto.
      * intros Hal r' [Hin| ->%list_elem_of_singleton]%elem_of_app Hm' Hs; [by apply Hdis|].
        destruct (allow r); [|done]. lia.
  - repeat split.
    + intros r' [Hin| ->%list_elem_of_singleton]%elem_of_app Hm'; [by apply Hmax|congruence].
    + done.
    + intros Hb. destruct (Hbest Hb) as (r' & ? & ?). exists r'. rewrite elem_of_app. tauto.
    + intros Hal r' [Hin| ->%list_elem_of_singleton]%elem_of_app Hm' Hs; [by apply Hdis|congruence].
Qed.

Lemma verdict_fold_allowed v rs :
  Forall rule_wf rs ->
  fst (fold_left (allowed_step v) rs (true, -1)) = true <->
  (forall r, r ∈ rs -> allow r = false -> patternMatches (pattern r) v = true ->
     exists r', r' ∈ rs /\ allow r' = true /\ patternMatches (pattern r') v = true
                /\ specificity r <= specificity r').
Proof.
  intros Hwf. pose proof (verdict_fold v rs Hwf) as Hinv.
  destruct (fold_left (allowed_step v) rs (true, -1)) as [allowed best].
  destruct Hinv as (Hmax & Hnone & Hbest & Hdis). simpl.
  rewrite Forall_forall in Hwf. split.
  - intros -> r Hr Hal Hm. destruct (decide (best = -1)) as [->|Hb].
    + specialize (Hmax r Hr Hm). destruct (Hwf r Hr) as [_ ?]. lia.
    + destruct (Hbest Hb) as (r' & Hr' & Hm' & Hs & Ha). exists r'. subst best. auto.
  - intros Hall. destruct allowed; [done|].
    destruct (decide (best = -1)) as [->|Hb]; [by apply Hnone|].
    destruct (Hbest Hb) as (r & Hr & Hm & Hs & Ha).
    destruct (Hall r Hr Ha Hm) as (r' & Hr' & Ha' & Hm' & Hle).
    specialize (Hmax r' Hr' Hm'). rewrite (Hdis eq_refl r' Hr' Hm') in Ha'; [done|lia].
Qed.

(** C38: a verdict follows RFC 9309: a target that is not an http or https URL
    with a host and without credentials is denied, /robots.txt itself is
    always allowed, and any other target is allowed exactly when each
    disallow rule matching it is overridden by a matching allow rule whose
    pattern is at least as long. *)
Theorem Allowed_correct data target :
  match targetMatchValue target with
  | None => Allowed (Parse data) target = false
  | Some v =>
      Allowed (Parse data) target = true <->
      v = bs "/robots.txt" \/
      (forall r, r ∈ policy_rules (Parse data) -> allow r = false -> robots_match (pattern r) v ->
         exists r', r' ∈ policy_rules (Parse data) /\ allow r' = true
                    /\ robots_match (pattern r') v
                    /\ Z.of_nat (length (pattern r)) <= Z.of_nat (length (pattern r')))
  end.
Proof.
  unfold Allowed. destruct (targetMatchValue target) as [v|]; [|done].
  destruct (bytes_eqb_spec v (bs "/robots.txt")) as [->|Hv]; [by split; [left|]|].
  pose proof (Parse_wf data) as Hwf. rewrite verdict_fold_allowed by done.
  rewrite Forall_forall in Hwf.
  assert (Hm : forall r, r ∈ policy_rules (Parse data) ->
            patternMatches (pattern r) v = true <-> robots_match (pattern r) v)
    by (intros r Hr; apply patternMatches_correct, Hwf; done).
  split.
  - intros Hall. right. intros r Hr Ha Hrm.
    destruct (Hall r Hr Ha (proj2 (Hm r Hr) Hrm)) as (r' & Hr' & Ha' & Hm' & Hs).
    exists r'. repeat split; try done; [by apply Hm|].
    destruct (Hwf r Hr) as [_ ?], (Hwf r' Hr') as [_ ?]. lia.
  - intros [?|Hall]; [done|]. intros r Hr Ha Hpm.
    destruct (Hall r Hr Ha (proj1 (Hm r Hr) Hpm)) as (r' & Hr' & Ha' & Hm' & Hs).
    exists r'. repeat split; try done; [by apply Hm|].
    destruct (Hwf r Hr) as [_ ?], (Hwf r' Hr') as [_ ?]. lia.
Qed.

Lemma disallowAll_denies target :
  Allowed disallowAllPolicy target = true -> targetMatchValue target = Some (bs "/robots.txt").
Proof.
  unfold Allowed. destruct (targetMatchValue target) as [v|]; [|done].
  destruct (bytes_eqb_spec v (bs "/robots.txt")) as [->|Hv]; [done|].
  cbn [fold_left policy_rules disallowAllPolicy]. unfold allowed_step. cbn [pattern specificity allow].
  replace (patternMatches (bs "*") v) with true; [done|]. symmetry.
  apply patternMatches_correct; [done|]. exists v, []. rewrite app_nil_r. split; [done|].
  change (bs "*") with [star]. rewrite <- (app_nil_r v). constructor. constructor.
Qed.

(** reading a robots body fails closed: a body that cannot be read or is
    longer than 500 KiB yields a policy under which only /robots.txt may be
    requested, together with an error; any other body is parsed in full. *)
Theorem readPolicy_correct body :
  match readPolicy body with
  | (policy, Some _) =>
      (forall stream, body = Some stream -> MaxBodySize < Z.of_nat (length stream))
      /\ forall target, Allowed policy target = true ->
                        targetMatchValue target = Some (bs "/robots.txt")
  | (policy, None) =>
      exists stream, body = Some stream /\ Z.of_nat (length stream) <= MaxBodySize
                     /\ policy = Parse stream
  end.
Proof.
  unfold readPolicy. destruct body as [stream|]; [|split; [done|apply disallowAll_denies]].
  cbv zeta. rewrite length_take.
  destruct (Z.ltb_spec MaxBodySize
    (Z.of_nat (Nat.min (Z.to_nat (MaxBodySize + 1)) (length stream)))) as [Hl|Hl].
  - split; [|apply disallowAll_denies]. intros ? [= <-]. unfold MaxBodySize in *. lia.
  - exists stream. unfold MaxBodySize in *. repeat split; [lia|]. by rewrite take_ge by lia.
Qed.
End Verdicts.

(** ** Isolation of invalid product tokens *)

Lemma Split_none a sep : sep ∉ a -> Split a sep = [a].
Proof.
  induction a as [|c a IH]; intros Hn; simpl; [done|]. apply not_elem_of_cons in Hn as [Hc Hn].
  destruct (byte_eqb_spec c sep); [congruence|]. by rewrite IH.
Qed.

(** A line that is not a user-agent record. *)
Definition not_agent_line (line : bytes) : Prop :=
  forall field value, parseRecord line = Some (field, value) ->
                      EqualFold field (bs "user-agent") = false.

Lemma parse_lines_isolated lines groups :
  Forall not_agent_line lines ->
  fold_left parse_line lines (empty_group :: groups) = empty_group :: groups.
Proof.
  induction 1 as [|line lines Hl Hls IH]; [done|]. simpl.
  assert (Hline : parse_line (empty_group :: groups) line = empty_group :: groups).
  { unfold parse_line. destruct (parseRecord line) as [[field value]|] eqn:Hr; [|done].
    rewrite (Hl _ _ Hr). cbn [userAgents empty_group]. by repeat case_head. }
  by rewrite Hline.
Qed.

(** an invalid User-agent line fails closed: after a record whose product
    token is malformed, the allow, disallow and crawl-delay lines that follow
    (up to the next user-agent record) do not attach to any earlier group; the
    policy is the one of the text before that line. *)
Theorem invalid_agent_isolates before line after field value :
  newline ∉ line ->
  parseRecord line = Some (field, value) ->
  EqualFold field (bs "user-agent") = true -> validProductToken value = false ->
  Forall not_agent_line (Split after newline) ->
  Parse (before ++ newline :: line ++ newline :: after) = Parse before.
Proof.
  intros Hn Hr Hf Hv Hafter.
  assert (Hg : parseGroups (before ++ newline :: line ++ newline :: after)
               = parseGroups before ++ [empty_group]).
  { unfold parseGroups. rewrite !Split_app, (Split_none line) by done.
    rewrite !fold_left_app. cbn [fold_left].
    replace (parse_line (fold_left parse_line (Split before newline) []) line)
      with (empty_group :: fold_left parse_line (Split before newline) []).
    - rewrite parse_lines_isolated by done. by cbn [rev].
    - unfold parse_line at 2. rewrite Hr, Hf, Hv. done. }
  unfold Parse. cbv zeta. rewrite Hg, fold_left_app. done.
Qed.

Lemma invalid_agent_isolates_witness :
  Parse (bs "User-agent: *" ++ newline :: bs "User-agent: bad token!" ++ newline :: bs "Allow: /x")
  = Parse (bs "User-agent: *").
Proof.
  apply (invalid_agent_isolates (bs "User-agent: *") (bs "User-agent: bad token!") (bs "Allow: /x")
           (bs "User-agent") (bs "bad token!")).
  - apply (bool_decide_unpack _). by vm_compute.
  - by vm_compute.
  - by vm_compute.
  - by vm_compute.
  - apply Forall_singleton. intros f v E. vm_compute in E. injection E as <- <-. by vm_compute.
Defined.
