(* ===== verification/RobotsHTTP.v ===== *)
(** * Fetching robots policies ([internal/robots/http.go], [http_config.go])

    The guarded HTTP hop and the redirect loop that obtains the policy of an
    origin. The hop getter is a call to the environment; the transport behind
    the guarded hop is too, but receives the validated destination. *)

From S2P Require Import Prelude GoText GoUrl GoErrors GoNetip Retry Origin Netguard.
From S2P Require Import RobotsMatch RobotsPolicy RobotsPolicyFacts.

Definition maxRedirects : nat := 5.

(** What the program reads of an [http.Response]: the status, the first
    [Location] header and the body stream; a body is nil, unreadable or bytes. *)
Record Response : Type := mkResponse {
  StatusCode : Z;
  Location : bytes;
  RetryAfter : bytes;
  ContentType : list bytes;
  Body : option (option bytes);
}.

(** ** Configuration *)

Record HTTPConfig : Type := mkHTTPConfig {
  MaxCrawlDelay : Z;
  DialTimeout : Z;
  TLSHandshakeTimeout : Z;
  ResponseHeaderTimeout : Z;
}.

Definition DefaultHTTPConfig : HTTPConfig :=
  mkHTTPConfig DefaultMaxCrawlDelay DefaultDialTimeout (10 * Second) (15 * Second).

Inductive config_error : Type := ErrInvalidHTTPConfig | errNegativeRequestDelay.

(** The validation of [NewCheckerWithHTTPConfig]. *)
Definition NewCheckerWithHTTPConfig (requestDelay : Z) (config : HTTPConfig) : res config_error HTTPConfig :=
  if (MaxCrawlDelay config <=? 0) || (DialTimeout config <=? 0)
     || (TLSHandshakeTimeout config <=? 0) || (ResponseHeaderTimeout config <=? 0)
  then Err ErrInvalidHTTPConfig
  else if requestDelay <? 0 then Err errNegativeRequestDelay
  else Ok config.

(** [newGuardedTransport] replaces the zero configuration. *)
Definition transport_config (config : HTTPConfig) : HTTPConfig :=
  if (MaxCrawlDelay config =? 0) && (DialTimeout config =? 0)
     && (TLSHandshakeTimeout config =? 0) && (ResponseHeaderTimeout config =? 0)
  then DefaultHTTPConfig else config.

(** ** The guarded hop *)

Definition BotInformationURL : bytes := bs "https://joshternet.org/joshbot".
Definition UserAgent : bytes := ProductToken ++ bs " (+" ++ BotInformationURL ++ bs ")".

(** One outbound request: the URL, its headers and the destination the
    transport may dial. *)
Record Request : Type := mkRequest {
  request_URL : URL;
  request_Header : gmap bytes (list bytes);
  request_destination : Destination;
  request_config : HTTPConfig;
}.

(** The headers before signing *)
Definition unsigned_header : gmap bytes (list bytes) := {[bs "User-Agent" := [UserAgent]]}.

Section GuardedHop.
Context `{NetURL} `{NetIP} `{IDNA} {W : Type}.
Variable map_order : list Addr -> list Addr.
Variable resolver : option (call W bytes (res error (list Addr))).
(** [signer.Sign]: an error, or the headers the request has afterwards; [None]
    is the nil signer. *)
Variable signer : option (call W Request (res error (gmap bytes (list bytes)))).
(** [transport.RoundTrip] *)
Variable roundTrip : call W Request (res error Response).

(** [guardedHTTP.get] *)
Definition guarded_get (config : HTTPConfig) (ctxErr : W -> option error) (target : URL) (w : W)
    : W * res error (option Response) :=
  let targetOrigin := match Origin.Parse (url_String target) with Ok o => o | Err _ => zero_origin end in
  match Resolve map_order (Some ctxErr) targetOrigin resolver w with
  | (w1, Err err) => (w1, Err (wrap err))
  | (w1, Ok destination) =>
      let request h := mkRequest target h destination (transport_config config) in
      let '(w2, signed) :=
        match signer with Some sign => sign w1 (request unsigned_header) | None => (w1, Ok unsigned_header) end in
      match signed with
      | Err err => (w2, Err (wrap err))
      | Ok h =>
          match roundTrip w2 (request h) with
          | (w3, Err err) =>
              match ctxErr w3 with
              | Some contextError => (w3, Err contextError)
              | None => (w3, Err (wrap err))
              end
          | (w3, Ok response) => (w3, Ok (Some response))
          end
      end
  end.
End GuardedHop.

(** ** The redirect loop *)

Definition isRedirectStatus (status : Z) : bool :=
  (status =? 301) || (status =? 302) || (status =? 303) || (status =? 307) || (status =? 308).

Definition body_error_error (e : body_error) : error :=
  match e with
  | errReadBody => errors_New (foreign 0)
  | errBodyTooLarge => errors_New robots_errBodyTooLarge
  end.

Section Obtain.
Context `{NetURL} `{NetIP} `{IDNA} {W : Type}.

Definition redirectTarget (current : URL) (response : Response) : res error URL :=
  if bytes_eqb (Location response) [] then Err (errors_New errInvalidRedirect)
  else
    match url_ParseRef current (Location response) with
    | None => Err (errors_New errInvalidRedirect)
    | Some u =>
        let next := set_no_fragment u in
        match Origin.Parse (url_String next) with
        | Err _ => Err (errors_New errInvalidRedirect)
        | Ok _ => Ok next
        end
    end.

(** The final response: every status that is not a redirect. *)
Definition final_policy (response : Response) (body : option bytes) : Policy * option error :=
  let status := StatusCode response in
  if (200 <=? status) && (status <=? 299) then
    let '(policy, readError) := readPolicy body in
    (policy, body_error_error <$> readError)
  else if (400 <=? status) && (status <=? 499) then (mkPolicy [] [], None)
  else if (500 <=? status) && (status <=? 599)
  then (disallowAllPolicy, Some (errors_New errRobotsUnreachable))
  else (disallowAllPolicy, Some (errors_New errUnexpectedStatus)).

Variable get : call W URL (res error (option Response)).
Variable ctxErr : W -> option error.

(** The loop of [obtainPolicy], by recursion on the redirects left. *)
Fixpoint obtain_loop (left : nat) (current : URL) (w : W) : W * (Policy * option error) :=
  match get w current with
  | (w', Err err) =>
      match ctxErr w' with
      | Some contextError => (w', (disallowAllPolicy, Some contextError))
      | None => (w', (disallowAllPolicy, Some (wrap err)))
      end
  | (w', Ok None) => (w', (disallowAllPolicy, Some (errors_New errInvalidHTTPResponse)))
  | (w', Ok (Some response)) =>
      match Body response with
      | None => (w', (disallowAllPolicy, Some (errors_New errInvalidHTTPResponse)))
      | Some body =>
          if isRedirectStatus (StatusCode response) then
            match left with
            | O => (w', (disallowAllPolicy, Some (errors_New errRedirectLimit)))
            | S left' =>
                match redirectTarget current response with
                | Err redirectError => (w', (disallowAllPolicy, Some redirectError))
                | Ok next => obtain_loop left' next w'
                end
            end
          else (w', final_policy response body)
      end
  end.
End Obtain.

Definition robots_txt : bytes := bs "/robots.txt".

(** [obtainPolicy]. An origin whose robots URL does not parse gives the getter
    a nil target, which the scheduled getter rejects. *)
Definition obtainPolicy `{NetURL} `{NetIP} `{IDNA} {W} (ctx : option (W -> option error))
    (initial : Origin) (getter : option (call W URL (res error (option Response)))) (w : W)
    : W * (Policy * option error) :=
  match ctx with
  | None => (w, (disallowAllPolicy, Some (errors_New robots_errInvalidContext)))
  | Some ctxErr =>
      match ctxErr w with
      | Some err => (w, (disallowAllPolicy, Some err))
      | None =>
          if bytes_eqb (origin_String initial) []
          then (w, (disallowAllPolicy, Some (errors_New errInvalidInitialOrigin)))
          else
            match getter with
            | None => (w, (disallowAllPolicy, Some (errors_New errHTTPGetterUnavailable)))
            | Some get =>
                match url_Parse (origin_String initial ++ robots_txt) with
                | None => (w, (disallowAllPolicy, Some (wrap (errors_New errInvalidHTTPTarget))))
                | Some current => obtain_loop get ctxErr maxRedirects current w
                end
            end
      end
  end.

(** ** Facts *)

Section ObtainFacts.
Context `{NetURL} `{NetIP} `{IDNA} {W : Type}.
Variable get : call W URL (res error (option Response)).
Variable ctxErr : W -> option error.

(** A URL the loop may follow a redirect to. *)
Definition followable (u : URL) : Prop :=
  Fragment u = [] /\ RawFragment u = [] /\ exists o, Origin.Parse (url_String u) = Ok o.

Lemma redirectTarget_followable current response next :
  redirectTarget current response = Ok next -> followable next.
Proof.
  unfold redirectTarget. case_head; [done|]. destruct (url_ParseRef current _) as [u|]; [|done].
  destruct (Origin.Parse _) as [o|] eqn:Ho; [|done]. intros Hn%(inj Ok). subst next.
  split_and!; [done|done|]. eauto.
Qed.

(** How a run of the loop can end. *)
Inductive policy_outcome : Policy * option error -> Prop :=
| outcome_denied e : policy_outcome (disallowAllPolicy, Some e)
| outcome_parsed response stream :
    200 <= StatusCode response <= 299 -> Body response = Some (Some stream) ->
    Z.of_nat (length stream) <= MaxBodySize -> policy_outcome (RobotsPolicy.Parse stream, None)
| outcome_missing response :
    400 <= StatusCode response <= 499 -> policy_outcome (mkPolicy [] [], None).

Lemma final_policy_outcome response body :
  Body response = Some body -> policy_outcome (final_policy response body).
Proof.
  intros Hb. unfold final_policy. case_head.
  - unfold readPolicy. destruct body as [stream|]; [|apply outcome_denied]. cbv zeta.
    destruct (Z.ltb_spec MaxBodySize (Z.of_nat (length (take (Z.to_nat (MaxBodySize + 1)) stream)))) as [|Hle];
      [apply outcome_denied|].
    rewrite length_take in Hle. unfold MaxBodySize in *.
    rewrite take_ge by lia. apply (outcome_parsed response stream); [lia|done|unfold MaxBodySize; lia].
  - case_head; [apply (outcome_missing response); lia|]. case_head; apply outcome_denied.
Qed.

(** The run ended after its first request. *)
Ltac one_request := exists []; split_and!; [done|cbn; lia|constructor].

Lemma obtain_loop_trace left current w log w' log' r :
  obtain_loop (logged get) (ctx_lift ctxErr) left current (w, log) = ((w', log'), r) ->
  policy_outcome r
  /\ exists later, log' = log ++ current :: later /\ (length later <= left)%nat /\ Forall followable later.
Proof.
  revert current w log. induction left as [|left IH]; intros current w log; cbn [obtain_loop];
    unfold logged at 1; destruct (get w current) as [w1 g]; destruct g as [[response|]|e].
  2,5: intros [[<- <-]%pair_equal_spec <-]%pair_equal_spec; (split; [apply outcome_denied|one_request]).
  2,4: unfold ctx_lift at 1; cbn [fst]; destruct (ctxErr w1);
    intros [[<- <-]%pair_equal_spec <-]%pair_equal_spec; (split; [apply outcome_denied|one_request]).
  1,2: destruct (Body response) as [body|] eqn:Hb;
    [|intros [[<- <-]%pair_equal_spec <-]%pair_equal_spec; (split; [apply outcome_denied|one_request])].
  1,2: destruct (isRedirectStatus (StatusCode response));
    [|intros [[<- <-]%pair_equal_spec <-]%pair_equal_spec;
      (split; [by apply final_policy_outcome|one_request])].
  - intros [[<- <-]%pair_equal_spec <-]%pair_equal_spec. split; [apply outcome_denied|one_request].
  - destruct (redirectTarget current response) as [next|e] eqn:Hr.
    + intros (Ho & later & -> & Hlen & Hall)%IH. split; [done|]. exists (next :: later).
      rewrite <- app_assoc. split_and!; [done|cbn [length]; lia|].
      constructor; [by eapply redirectTarget_followable|done].
    + intros [[<- <-]%pair_equal_spec <-]%pair_equal_spec. split; [apply outcome_denied|exists []].
      split_and!; [done|cbn; lia|done].
Qed.

(** A robots policy is obtained with at most six requests: the first is
    the origin's [/robots.txt], each later one a fragment-free redirect target
    with a supported web origin. It fails closed: without an error the policy
    is the parsed body of a 2xx response within the size limit, or the
    allow-everything policy of a 4xx response; in every other case (transport
    error, redirect limit, 5xx, unexpected status, oversized or unreadable
    body) an error comes with the disallow-all policy. *)
Theorem obtainPolicy_correct initial (w : W) w' log r :
  obtainPolicy (Some (ctx_lift ctxErr)) initial (Some (logged get)) (w, []) = ((w', log), r) ->
  policy_outcome r
  /\ (length log <= 6)%nat
  /\ match log with
     | [] => snd r <> None
     | first :: later => url_Parse (origin_String initial ++ robots_txt) = Some first /\ Forall followable later
     end.
Proof.
  unfold obtainPolicy. unfold ctx_lift at 1. cbn [fst]. destruct (ctxErr w).
  { intros [[<- <-]%pair_equal_spec <-]%pair_equal_spec. split_and!; [apply outcome_denied|cbn; lia|done]. }
  destruct (bytes_eqb _ _).
  { intros [[<- <-]%pair_equal_spec <-]%pair_equal_spec. split_and!; [apply outcome_denied|cbn; lia|done]. }
  destruct (url_Parse _) as [current|].
  - intros (Ho & later & -> & Hlen & Hall)%obtain_loop_trace. cbn [app length]. unfold maxRedirects in Hlen.
    split_and!; [done|lia|done|done].
  - intros [[<- <-]%pair_equal_spec <-]%pair_equal_spec. split_and!; [apply outcome_denied|cbn; lia|done].
Qed.
End ObtainFacts.

Section GuardedHopFacts.
Context `{NetURL} `{NetIP} `{IDNA} {W : Type}.
Variable map_order : list Addr -> list Addr.
Hypothesis map_order_perm : forall l, map_order l ≡ₚ l.

(** A call that is not logged leaves the log alone, and [Resolve] with it. *)
Lemma Resolve_unlogged {B} resolver ctxErr o (w : W) (log : list B) :
  Resolve map_order (Some (ctx_lift ctxErr)) o (option_map unlogged resolver) (w, log)
  = let '(w', r) := Resolve map_order (Some ctxErr) o resolver w in ((w', log), r).
Proof.
  unfold Resolve. change (ctx_lift ctxErr (w, log)) with (ctxErr w). destruct (ctxErr w); [done|]. cbv zeta.
  destruct (bytes_eqb _ _); [done|]. destruct (ParseAddr _); [by destruct (negb _)|].
  destruct resolver as [lookup|]; cbn [option_map]; [|done]. unfold unlogged.
  destruct (lookup w _) as [w1 [[|a l]|e]]; [done|done|]. change (ctx_lift ctxErr (w1, log)) with (ctxErr w1). by destruct (ctxErr w1).
Qed.

(** What a hop does: the request it sends carries the target, the destination
    [Resolve] gave and the headers the signer left, and goes out in the state
    the signer left; nothing is sent when resolution or signing fails. *)
Definition hop_outcome (resolver : option (call W bytes (res error (list Addr))))
    (signer : option (call W Request (res error (gmap bytes (list bytes))))) (roundTrip : call W Request (res error Response))
    (config : HTTPConfig) (ctxErr : W -> option error) (target : URL) (w w' : W) (log : list Request) (r : res error (option Response)) : Prop :=
  match Resolve map_order (Some ctxErr) (match Origin.Parse (url_String target) with Ok o => o | Err _ => zero_origin end) resolver w with
  | (w1, Err _) => w' = w1 /\ log = [] /\ is_ok r = false
  | (w1, Ok d) =>
      let request h := mkRequest target h d (transport_config config) in
      match (match signer with Some sign => sign w1 (request unsigned_header) | None => (w1, Ok unsigned_header) end) with
      | (w2, Err _) => w' = w2 /\ log = [] /\ is_ok r = false
      | (w2, Ok h) => log = [request h] /\ w' = fst (roundTrip w2 (request h))
      end
  end.

Lemma guarded_get_hop resolver signer roundTrip config ctxErr target (w : W) w' log r :
  guarded_get map_order (option_map unlogged resolver) (option_map unlogged signer) (logged roundTrip)
    config (ctx_lift ctxErr) target (w, []) = ((w', log), r) ->
  hop_outcome resolver signer roundTrip config ctxErr target w w' log r.
Proof.
  unfold guarded_get, hop_outcome. rewrite Resolve_unlogged. destruct (Resolve _ _ _ _ _) as [w1 [d|e]]; [|by intros [= <- <- <-]].
  cbv zeta. assert (Hs : forall q, match option_map unlogged signer with Some sign => sign (w1, @nil Request) q | None => ((w1, []), Ok unsigned_header) end
    = let '(w2, x) := match signer with Some sign => sign w1 q | None => (w1, Ok unsigned_header) end in ((w2, []), x)).
  { intros q. destruct signer as [sign|]; [|done]. cbn [option_map unlogged]. by destruct (sign w1 q). }
  rewrite Hs. destruct (match signer with Some sign => _ | None => _ end) as [w2 [h|e]]; [|by intros [= <- <- <-]].
  unfold logged. destruct (roundTrip w2 _) as [w3 [response|e]]; unfold ctx_lift; cbn [fst app];
    [|destruct (ctxErr w3)]; intros [= <- <- _]; by split.
Qed.

(** The guarded hop sends at most one request, for the target it was
    given, with the stable User-Agent unless a signer replaced the headers,
    and only over a transport whose every dial goes to a destination [Resolve]
    validated for that target; when resolution or signing fails nothing is
    sent. *)
Theorem guarded_get_correct resolver signer roundTrip config ctxErr target (w : W) w' log r :
  guarded_get map_order (option_map unlogged resolver) (option_map unlogged signer) (logged roundTrip)
    config (ctx_lift ctxErr) target (w, []) = ((w', log), r) ->
  log = [] /\ is_ok r = false
  \/ exists request, log = [request]
       /\ request_URL request = target /\ (signer = None -> request_Header request = unsigned_header)
       /\ validated_destination
            (match Origin.Parse (url_String target) with Ok o => o | Err _ => zero_origin end)
            (request_destination request)
       /\ (config = DefaultHTTPConfig -> 0 < DialTimeout (request_config request)).
Proof.
  intros Hget%guarded_get_hop. revert Hget. unfold hop_outcome.
  destruct (Resolve _ _ _ _ _) as [w1 [d|e]] eqn:Hres; [|intros (_ & Hl & Hr); by left]. apply Resolve_validated in Hres; [|done]. cbv zeta.
  destruct (match signer with Some sign => _ | None => _ end) as [w2 [h|e]] eqn:Hs; [|intros (_ & Hl & Hr); by left]. intros [-> _]. right.
  eexists. split_and!; [reflexivity|done| |exact Hres|intros ->; by vm_compute]. intros ->. by injection Hs as _ <-.
Qed.
End GuardedHopFacts.

Module RobotsHTTPWitnesses.
Import Concrete.

Definition example_origin : Origin := mkOrigin (bs "https://example.org") (bs "example.org") 443.
Definition robots_body : bytes := bs "User-agent: *" ++ [newline] ++ bs "Disallow: /private".

(** A server that redirects once and then serves a policy. *)
Definition example_get : call nat URL (res error (option Response)) :=
  fun n _ =>
    (S n, Ok (Some (match n with
                    | O => mkResponse 302 (bs "/moved.txt") [] [] (Some (Some []))
                    | S _ => mkResponse 200 [] [] [] (Some (Some robots_body))
                    end))).

Lemma obtainPolicy_correct_witness :
  exists w log r,
    obtainPolicy (Some (ctx_lift (fun _ => None))) example_origin (Some (logged example_get)) (0%nat, [])
      = ((w, log), r) /\ length log = 2%nat /\ policy_outcome r.
Proof.
  destruct (obtainPolicy (Some (ctx_lift (fun _ => None))) example_origin (Some (logged example_get)) (0%nat, []))
    as [[w log] r] eqn:Hrun.
  exists w, log, r. split; [reflexivity|]. split.
  - vm_compute in Hrun. apply pair_equal_spec in Hrun as [[_ <-]%pair_equal_spec _]. reflexivity.
  - destruct (obtainPolicy_correct example_get (fun _ => None) example_origin 0%nat w log r Hrun) as [Ho _].
    exact Ho.
Defined.

Definition literal_target : URL := split_path https (bs "134744072/robots.txt").

Lemma guarded_get_correct_witness :
  exists w log r,
    guarded_get id (option_map unlogged None) (option_map unlogged None)
      (logged (fun (n : nat) _ => (S n, Ok (mkResponse 200 [] [] [] None))))
      DefaultHTTPConfig (ctx_lift (fun _ => None)) literal_target (0%nat, []) = ((w, log), r)
    /\ exists request, log = [request] /\ request_Header request = unsigned_header.
Proof.
  destruct (guarded_get id (option_map unlogged None) (option_map unlogged None)
      (logged (fun (n : nat) _ => (S n, Ok (mkResponse 200 [] [] [] None))))
      DefaultHTTPConfig (ctx_lift (fun _ => None)) literal_target (0%nat, [])) as [[w log] r] eqn:Hrun.
  exists w, log, r. split; [reflexivity|].
  destruct (guarded_get_correct id (fun l => Permutation_refl l) None None _ _ _ _ _ _ _ _ Hrun)
    as [[Hlog _]|(request & Hlog & _ & Hua & _)].
  - exfalso. vm_compute in Hrun. apply pair_equal_spec in Hrun as [[_ Hl]%pair_equal_spec _].
    rewrite <- Hl in Hlog. discriminate.
  - exists request. split; [exact Hlog|exact (Hua eq_refl)].
Defined.
End RobotsHTTPWitnesses.
