(* ===== verification/RequestScheduler.v ===== *)
(** * The request scheduler ([internal/robots/request_scheduler.go])

    Per-origin clocks and shared per-neighborhood clocks. A table maps keys to
    schedule objects in a heap, because goroutines keep pointers to the
    objects they pinned while others evict entries of the map. The order in
    which Go's [range] visits a map is an argument of [pin]; public-suffix
    data are an interface. *)

From S2P Require Import Prelude GoText GoUrl GoErrors GoNetip Origin.

Definition maxScheduleEntries : Z := 1024.
Definition maxCacheLifetime : Z := 24 * Hour.

(** ** Schedules and tables *)

Record Schedule : Type := mkSchedule {
  crawlDelay : Z;
  lastStart : Z;
  lastAccess : Z;
  users : Z;
}.

Definition new_schedule : Schedule := mkSchedule 0 0 0 0.
Definition with_users (n : Z) (accessed : Z) (s : Schedule) : Schedule :=
  mkSchedule (crawlDelay s) (lastStart s) accessed n.
Definition with_crawlDelay (d : Z) (s : Schedule) : Schedule :=
  mkSchedule d (lastStart s) (lastAccess s) (users s).
Definition with_lastStart (t : Z) (s : Schedule) : Schedule :=
  mkSchedule (crawlDelay s) t (lastAccess s) (users s).

(** A map from keys to pointers, the objects, and the next fresh pointer. *)
Record Table (K : Type) `{Countable K} : Type := mkTable {
  entries : gmap K positive;
  heap : gmap positive Schedule;
  next : positive;
}.
Arguments mkTable {K _ _} entries heap next.
Arguments entries {K _ _} t.
Arguments heap {K _ _} t.
Arguments next {K _ _} t.

Definition empty_table {K} `{Countable K} : Table K := mkTable ∅ ∅ 1%positive.

(** [remainingDelay]: how long [lastStart] still blocks a request. *)
Definition remainingDelay (last delay now : Z) : Z :=
  if time_IsZero last then 0
  else
    let earliest := time_Add last delay in
    if time_After earliest now then time_Sub earliest now else 0.

Section Table.
Context {K : Type} `{Countable K}.
Variable less : K -> K -> bool.

Definition set_heap (t : Table K) (p : positive) (f : Schedule -> Schedule) : Table K :=
  mkTable (entries t) (alter f p (heap t)) (next t).

Definition set_entries (t : Table K) (es : gmap K positive) : Table K :=
  mkTable es (heap t) (next t).

(** One visit of the loop of [pin]: a busy or still spaced entry is kept, one
    idle for [maxCacheLifetime] is deleted, and the least recently used of the
    others is remembered. *)
Definition scan_entry (minimum now : Z) (hp : gmap positive Schedule)
    (acc : gmap K positive * option (K * Z)) (candidate : K * positive)
    : gmap K positive * option (K * Z) :=
  let '(es, oldest) := acc in
  let '(key, p) := candidate in
  match hp !! p with
  | None => acc
  | Some entry =>
      if negb (users entry =? 0) then acc
      else
        let delay := Z.max minimum (crawlDelay entry) in
        let eligible := negb (time_Before now (time_Add (lastStart entry) delay)) in
        if negb eligible then acc
        else if negb (time_Before now (time_Add (lastAccess entry) maxCacheLifetime))
        then (delete key es, oldest)
        else
          match oldest with
          | None => (es, Some (key, lastAccess entry))
          | Some (oldestKey, oldestAccess) =>
              if time_Before (lastAccess entry) oldestAccess
                 || ((lastAccess entry =? oldestAccess) && less key oldestKey)
              then (es, Some (key, lastAccess entry))
              else acc
          end
  end.

Definition scan (minimum now : Z) (t : Table K) (visit : list (K * positive))
    : gmap K positive * option (K * Z) :=
  fold_left (scan_entry minimum now (heap t)) visit (entries t, None).

(** Pin an existing object: one more user, accessed now. *)
Definition pin_pointer (t : Table K) (p : positive) (now : Z) : Table K :=
  set_heap t p (fun s => with_users (users s + 1) now s).

(** Allocate the schedule of a new key. *)
Definition create (t : Table K) (key : K) : Table K :=
  mkTable (<[key := next t]> (entries t)) (<[next t := new_schedule]> (heap t)) (Pos.succ (next t)).

(** [pin]; [visit] is the order in which [range entries] visits the map. *)
Definition pin (minimum capacity : Z) (t : Table K) (key : K) (now : Z)
    (visit : list (K * positive)) : Table K * res error positive :=
  let '(es, oldest) := scan minimum now t visit in
  let t := set_entries t es in
  match es !! key with
  | Some p => (pin_pointer t p now, Ok p)
  | None =>
      if capacity <=? Z.of_nat (size es) then
        match oldest with
        | None => (t, Err (errors_New errScheduleCapacity))
        | Some (oldestKey, _) =>
            let t := set_entries t (delete oldestKey es) in
            (pin_pointer (create t key) (next t) now, Ok (next t))
        end
      else (pin_pointer (create t key) (next t) now, Ok (next t))
  end.

(** [unpin] *)
Definition unpin (t : Table K) (p : positive) (accessed : Z) : Table K :=
  set_heap t p (fun s => with_users (users s - 1) accessed s).

(** [setCrawlDelay] on the pinned object *)
Definition setCrawlDelay (t : Table K) (p : positive) (delay : Z) : Table K :=
  set_heap t p (with_crawlDelay delay).

Definition setLastStart (t : Table K) (p : positive) (now : Z) : Table K :=
  set_heap t p (with_lastStart now).
End Table.

(** ** The scheduler *)

Class PublicSuffixList := {
  PublicSuffix : bytes -> bytes * bool;
  EffectiveTLDPlusOne : bytes -> option bytes;
}.

Definition neighborhoodKey `{NetIP} `{PublicSuffixList} (host : bytes) : option bytes :=
  match ParseAddr host with
  | Some _ => None
  | None =>
      let '(suffix, icann) := PublicSuffix host in
      if negb icann && Contains suffix "." then Some suffix else EffectiveTLDPlusOne host
  end.

Record Scheduler : Type := mkScheduler {
  minimum : Z;
  capacity : Z;
  schedules : Table Origin;
  neighborhoods : Table bytes;
}.

(** [newOriginRequestScheduler] *)
Definition newOriginRequestScheduler (delay : Z) : Scheduler :=
  mkScheduler delay maxScheduleEntries empty_table empty_table.

Definition set_schedules (s : Scheduler) (t : Table Origin) : Scheduler :=
  mkScheduler (minimum s) (capacity s) t (neighborhoods s).
Definition set_neighborhoods (s : Scheduler) (t : Table bytes) : Scheduler :=
  mkScheduler (minimum s) (capacity s) (schedules s) t.

(** Go's [<] on strings. *)
Definition string_less (left right : bytes) : bool :=
  match bytes_compare left right with Lt => true | _ => false end.
Definition lessOrigin (left right : Origin) : bool :=
  string_less (origin_String left) (origin_String right).

(** The map orders of one operation. *)
Record visits : Type := mkVisits {
  visit_origins : list (Origin * positive);
  visit_groups : list (bytes * positive);
}.

(** [acquire] *)
Definition acquire (s : Scheduler) (source : Origin) (now : Z) (v : visits)
    : Scheduler * res error positive :=
  let '(t, r) := pin lessOrigin (minimum s) (capacity s) (schedules s) source now (visit_origins v) in
  (set_schedules s t, r).

(** [release] of an origin schedule and of a neighborhood schedule *)
Definition release (s : Scheduler) (p : positive) (now : Z) : Scheduler :=
  set_schedules s (unpin (schedules s) p now).
Definition release_group (s : Scheduler) (q : positive) (now : Z) : Scheduler :=
  set_neighborhoods s (unpin (neighborhoods s) q now).

(** [pinnedSchedules], with the keys the pointers were pinned for. *)
Record pinnedSchedules : Type := mkPinned {
  pinned_key : Origin;
  pinned_origin : positive;
  pinned_neighborhood : option (bytes * positive);
}.

(** [releasePinned]: each release reads the clock. *)
Definition releasePinned (s : Scheduler) (pinned : pinnedSchedules) (now now' : Z) : Scheduler :=
  let s := release s (pinned_origin pinned) now in
  match pinned_neighborhood pinned with
  | Some (_, q) => release_group s q now'
  | None => s
  end.

Section Targets.
Context `{NetURL} `{NetIP} `{IDNA} `{PublicSuffixList}.

(** The pins of [acquireTarget] once the target's origin is known. *)
Definition acquire_pins (s : Scheduler) (targetOrigin : Origin) (now : Z) (v : visits)
    : Scheduler * res error pinnedSchedules :=
  match acquire s targetOrigin now v with
  | (s', Err e) => (s', Err e)
  | (s', Ok p) =>
      match neighborhoodKey (Hostname targetOrigin) with
      | None => (s', Ok (mkPinned targetOrigin p None))
      | Some key =>
          match pin string_less (minimum s') (capacity s') (neighborhoods s') key now (visit_groups v) with
          | (t, Err e) => (release (set_neighborhoods s' t) p now, Err e)
          | (t, Ok q) => (set_neighborhoods s' t, Ok (mkPinned targetOrigin p (Some (key, q))))
          end
      end
  end.

Definition acquireTarget (s : Scheduler) (target : option URL) (now : Z) (v : visits)
    : Scheduler * res error pinnedSchedules :=
  match target with
  | None => (s, Err (errors_New errInvalidHTTPTarget))
  | Some u =>
      match Parse (url_String u) with
      | Err _ => (s, Err (errors_New errInvalidHTTPTarget))
      | Ok targetOrigin =>
          if minimum s <? 0 then (s, Err (errors_New errInvalidRequestDelay))
          else acquire_pins s targetOrigin now v
      end
  end.
End Targets.

(** The delay the two clocks still impose; the body of the loop of [wait]. *)
Definition pending_wait (s : Scheduler) (pinned : pinnedSchedules) (now : Z) : Z :=
  match heap (schedules s) !! pinned_origin pinned with
  | None => 0
  | Some o =>
      let originDelay := if minimum s <? crawlDelay o then crawlDelay o else minimum s in
      let wait := remainingDelay (lastStart o) originDelay now in
      match pinned_neighborhood pinned with
      | None => wait
      | Some (_, q) =>
          match heap (neighborhoods s) !! q with
          | None => wait
          | Some g =>
              let groupWait := remainingDelay (lastStart g) (minimum s) now in
              if wait <? groupWait then groupWait else wait
          end
      end
  end.

(** The start of a request: both clocks are set. *)
Definition start (s : Scheduler) (pinned : pinnedSchedules) (now : Z) : Scheduler :=
  let s := set_schedules s (setLastStart (schedules s) (pinned_origin pinned) now) in
  match pinned_neighborhood pinned with
  | Some (_, q) => set_neighborhoods s (setLastStart (neighborhoods s) q now)
  | None => s
  end.

(** The two mutexes make one pass of the loop of [wait] atomic: it either
    reports a positive delay or starts the request. *)
Definition wait_pass (s : Scheduler) (pinned : pinnedSchedules) (now : Z) : Scheduler * option Z :=
  let wait := pending_wait s pinned now in
  if 0 <? wait then (s, Some wait) else (start s pinned now, None).

(** [wait] after its pins: the loop, with the waiter and the clock as calls to
    the environment. Other goroutines may change the scheduler during a wait,
    so it is part of the environment's state. *)
Section Wait.
Context {W : Type}.
Variable clock : W -> Z.
Variable waiter : call (W * Scheduler) Z (option error).

Fixpoint wait_loop (fuel : nat) (pinned : pinnedSchedules) (ws : W * Scheduler)
    : (W * Scheduler) * option (option error) :=
  match fuel with
  | O => (ws, None)
  | S fuel' =>
      match wait_pass (snd ws) pinned (clock (fst ws)) with
      | (s', None) => ((fst ws, s'), Some None)
      | (s', Some delay) =>
          match waiter (fst ws, s') delay with
          | (ws', Some e) => (ws', Some (Some e))
          | (ws', None) => wait_loop fuel' pinned ws'
          end
      end
  end.

Context `{NetURL} `{NetIP} `{IDNA} `{PublicSuffixList}.
Variable map_orders : W * Scheduler -> visits.

(** [wait]: pin, loop, release. [None] is a loop still running when the fuel
    ends. *)
Definition wait (fuel : nat) (target : option URL) (ws : W * Scheduler)
    : (W * Scheduler) * option (option error) :=
  match acquireTarget (snd ws) target (clock (fst ws)) (map_orders ws) with
  | (s', Err e) => ((fst ws, s'), Some (Some e))
  | (s', Ok pinned) =>
      let '(ws', r) := wait_loop fuel pinned (fst ws, s') in
      ((fst ws', releasePinned (snd ws') pinned (clock (fst ws')) (clock (fst ws'))), r)
  end.

(** [scheduledHopGetter.get]: the target stays pinned while the request runs. *)
Definition scheduled_get {Resp : Type} (getter : call (W * Scheduler) URL (res error Resp))
    (fuel : nat) (target : URL) (ws : W * Scheduler) : (W * Scheduler) * option (res error Resp) :=
  match acquireTarget (snd ws) (Some target) (clock (fst ws)) (map_orders ws) with
  | (s', Err e) => ((fst ws, s'), Some (Err e))
  | (s', Ok pinned) =>
      let '(ws', r) :=
        match wait fuel (Some target) (fst ws, s') with
        | (ws', None) => (ws', None)
        | (ws', Some (Some e)) => (ws', Some (Err e))
        | (ws', Some None) => let '(ws'', r) := getter ws' target in (ws'', Some r)
        end in
      ((fst ws', releasePinned (snd ws') pinned (clock (fst ws')) (clock (fst ws'))), r)
  end.
End Wait.
