(* ===== verification/RequestSchedulerFacts.v ===== *)
(** * Correctness of the request scheduler

    Tables keep pinned entries and bounded size; the interleaved scheduler
    spaces the starts of each origin and of each neighborhood. *)

From S2P Require Import Prelude GoText GoUrl GoErrors GoNetip Origin RequestScheduler.

(** ** One table *)

Definition occ {A} `{EqDecision A} (x : A) (l : list A) : nat := length (filter (fun y => y = x) l).

Lemma occ_cons {A} `{EqDecision A} (x y : A) l :
  occ x (y :: l) = ((if decide (y = x) then 1 else 0) + occ x l)%nat.
Proof. unfold occ. rewrite filter_cons. by destruct (decide (y = x)). Qed.

Lemma occ_elem {A} `{EqDecision A} (x : A) l : x ∈ l <-> (0 < occ x l)%nat.
Proof.
  induction l as [|y l IH]; [split; [by intros ?%elem_of_nil|cbn; lia]|].
  rewrite occ_cons, elem_of_cons, IH. destruct (decide (y = x)) as [->|]; split; auto; [lia|].
  intros [->|?]; [done|lia].
Qed.

Lemma occ_perm {A} `{EqDecision A} (x : A) l k : l ≡ₚ k -> occ x l = occ x k.
Proof. intros Hp. unfold occ. by rewrite Hp. Qed.

Section TableFacts.
Context {K : Type} `{Countable K}.
Variable less : K -> K -> bool.
Variables m cap : Z.

(** The table, the pins its users hold, and the last start of each key with
    the least crawl delay in force since. *)
Record table_ok (t : Table K) (pins : list (K * positive)) (last : K -> option (Z * Z)) (now : Z) : Prop := {
  to_inj : forall k k' p, entries t !! k = Some p -> entries t !! k' = Some p -> k = k';
  to_alloc : forall k p, entries t !! k = Some p -> is_Some (heap t !! p);
  to_fresh : forall p, is_Some (heap t !! p) -> (p < next t)%positive;
  to_pins : forall k p, (k, p) ∈ pins -> entries t !! k = Some p;
  to_users : forall k p s, entries t !! k = Some p -> heap t !! p = Some s ->
    users s = Z.of_nat (occ (k, p) pins);
  to_size : Z.of_nat (size (entries t)) <= Z.max 0 cap;
  to_last : forall k tl d, last k = Some (tl, d) -> 0 < tl /\
    (tl + Z.max m d <= now
     \/ exists p s, entries t !! k = Some p /\ heap t !! p = Some s
          /\ lastStart s = tl /\ d <= Z.max m (crawlDelay s));
}.

(** The order of the pins does not matter. *)
#[global] Instance table_ok_perm t : Proper (Permutation ==> eq ==> eq ==> impl) (table_ok t).
Proof.
  intros pins pins' Hp last ? <- now ? <- Hok. destruct Hok. split; try done.
  - intros k p. rewrite <- Hp. auto.
  - intros k p s Hk Hs. rewrite <- (occ_perm _ _ _ Hp). eauto.
Qed.

Lemma table_ok_empty now : table_ok empty_table [] (fun _ => None) now.
Proof.
  split; cbn [entries heap next empty_table].
  - intros k k' p Hk. by rewrite lookup_empty in Hk.
  - intros k p Hk. by rewrite lookup_empty in Hk.
  - intros p Hp. rewrite lookup_empty in Hp. by destruct Hp.
  - intros k p Hin. by apply elem_of_nil in Hin.
  - intros k p s Hk. by rewrite lookup_empty in Hk.
  - rewrite map_size_empty. lia.
  - done.
Qed.

Lemma table_ok_tick t pins last now now' :
  now <= now' -> table_ok t pins last now -> table_ok t pins last now'.
Proof.
  intros Hle Hok. destruct Hok. split; auto. intros k tl d Hl.
  destruct (to_last0 k tl d Hl) as [? [?|?]]; split; auto. left. lia.
Qed.

(** An update of one object. *)
Lemma table_ok_update t pins last now k p f pins' last' :
  table_ok t pins last now -> entries t !! k = Some p ->
  (forall x, x <> (k, p) -> occ x pins' = occ x pins) ->
  (forall k', k' <> k -> last' k' = last k') ->
  (forall s, heap t !! p = Some s -> users (f s) = Z.of_nat (occ (k, p) pins')) ->
  (forall s tl d, heap t !! p = Some s -> last' k = Some (tl, d) -> 0 < tl /\
     (tl + Z.max m d <= now \/ lastStart (f s) = tl /\ d <= Z.max m (crawlDelay (f s)))) ->
  table_ok (set_heap t p f) pins' last' now.
Proof.
  intros Hok Hk Hocc Hlast Husers Hl. destruct Hok. split; cbn [entries heap next set_heap].
  - done.
  - intros k' p' Hk'. rewrite lookup_alter_is_Some. eauto.
  - intros p'. rewrite lookup_alter_is_Some. auto.
  - intros k' p' Hin. destruct (decide ((k', p') = (k, p))) as [[= -> ->]|Hne]; [done|].
    apply to_pins0, occ_elem. rewrite <- Hocc by done. by apply occ_elem.
  - intros k' p' s Hk' Hs. destruct (decide (p' = p)) as [->|Hne].
    + assert (k' = k) as -> by eauto. rewrite lookup_alter_eq in Hs.
      apply fmap_Some in Hs as (s0 & Hs0 & ->). auto.
    + rewrite lookup_alter_ne in Hs by done. rewrite Hocc by congruence. eauto.
  - done.
  - intros k' tl d Hl'. destruct (decide (k' = k)) as [->|Hne].
    + destruct (to_alloc0 _ _ Hk) as [s Hs].
      destruct (Hl s tl d Hs Hl') as [? [?|[? ?]]]; (split; [done|]); [by left|right].
      exists p, (f s). rewrite lookup_alter_eq, Hs. auto.
    + rewrite Hlast in Hl' by done. destruct (to_last0 _ _ _ Hl') as [? [?|(p' & s & Hp' & Hs & ?)]];
        (split; [done|]); [by left|right].
      exists p', s. rewrite lookup_alter_ne; [auto|]. intros ->. by apply Hne, (to_inj0 k' k p').
Qed.

Lemma pin_pointer_ok t pins last now k p :
  table_ok t pins last now -> entries t !! k = Some p ->
  table_ok (pin_pointer t p now) ((k, p) :: pins) last now.
Proof.
  intros Hok Hk. apply (table_ok_update t pins last now k); [done|done| |done| |].
  - intros x Hx. rewrite occ_cons. by destruct (decide ((k, p) = x)).
  - intros s Hs. rewrite occ_cons. destruct (decide _); [|done].
    cbn [users with_users]. rewrite (to_users _ _ _ _ Hok k p s Hk Hs). lia.
  - intros s tl d Hs Hl. destruct (to_last _ _ _ _ Hok k tl d Hl) as [? [?|(p' & s' & ? & ? & ?)]]; [auto|].
    simplify_eq. auto.
Qed.

Lemma unpin_ok t pins pins' last now k p :
  table_ok t pins last now -> pins ≡ₚ (k, p) :: pins' -> table_ok (unpin t p now) pins' last now.
Proof.
  intros Hok Hp.
  assert (Hk : entries t !! k = Some p) by (apply (to_pins _ _ _ _ Hok); rewrite Hp; by left).
  apply (table_ok_update t pins last now k); [done|done| |done| |].
  - intros x Hx. rewrite (occ_perm x _ _ Hp), occ_cons. by destruct (decide ((k, p) = x)).
  - intros s Hs. cbn [users with_users]. rewrite (to_users _ _ _ _ Hok k p s Hk Hs).
    rewrite (occ_perm _ _ _ Hp), occ_cons. destruct (decide _); [lia|done].
  - intros s tl d Hs Hl. destruct (to_last _ _ _ _ Hok k tl d Hl) as [? [?|(p' & s' & ? & ? & ?)]]; [auto|].
    simplify_eq. auto.
Qed.

Lemma setCrawlDelay_ok t pins last last' now k p delay :
  table_ok t pins last now -> (k, p) ∈ pins ->
  (forall k', k' <> k -> last' k' = last k') ->
  last' k = (fun '(tl, d) => (tl, Z.min d delay)) <$> last k ->
  table_ok (setCrawlDelay t p delay) pins last' now.
Proof.
  intros Hok Hpin Hne Hlast. pose proof (to_pins _ _ _ _ Hok k p Hpin) as Hk.
  apply (table_ok_update t pins last now k); [done|done|done|done| |].
  - intros s Hs. apply (to_users _ _ _ _ Hok k p s Hk Hs).
  - intros s tl d Hs Hl. rewrite Hlast in Hl. apply fmap_Some in Hl as ([tl' d'] & Hl & [= -> ->]).
    destruct (to_last _ _ _ _ Hok k tl' d' Hl) as [? [?|(p' & s' & ? & ? & ? & ?)]]; (split; [done|]).
    + left. lia.
    + simplify_eq. right. split; [done|]. cbn [crawlDelay with_crawlDelay]. lia.
Qed.

(** The clock of a pinned object allows a start at [now] only when the last
    start of its key is far enough in the past. *)
Lemma remainingDelay_elapsed last delay now : 0 < last -> remainingDelay last delay now <= 0 -> last + delay <= now.
Proof.
  unfold remainingDelay, time_IsZero, time_After, time_Add, time_Sub, min_int64, max_int64. intros Hl.
  destruct (Z.eqb_spec last 0); [lia|]. destruct (Z.ltb_spec now (last + delay)); lia.
Qed.

Lemma start_spaced t pins last now k p s delay tl d :
  table_ok t pins last now -> entries t !! k = Some p -> heap t !! p = Some s ->
  remainingDelay (lastStart s) delay now <= 0 ->
  last k = Some (tl, d) -> (d <= Z.max m (crawlDelay s) -> Z.max m d <= delay) -> tl + Z.max m d <= now.
Proof.
  intros Hok Hk Hs Hrem Hl Hd.
  destruct (to_last _ _ _ _ Hok k tl d Hl) as [Hpos [?|(p' & s' & ? & ? & Hstart & Hle)]]; [done|].
  simplify_eq. specialize (Hd Hle). apply remainingDelay_elapsed in Hrem; lia.
Qed.

Lemma setLastStart_ok t pins last last' now k p d :
  table_ok t pins last now -> (k, p) ∈ pins -> 0 < now ->
  (forall k', k' <> k -> last' k' = last k') ->
  last' k = Some (now, d) -> (forall s, heap t !! p = Some s -> d <= Z.max m (crawlDelay s)) ->
  table_ok (setLastStart t p now) pins last' now.
Proof.
  intros Hok Hpin Hnow Hne Hlast Hd. pose proof (to_pins _ _ _ _ Hok k p Hpin) as Hk.
  apply (table_ok_update t pins last now k); [done|done|done|done| |].
  - intros s Hs. apply (to_users _ _ _ _ Hok k p s Hk Hs).
  - intros s tl d' Hs Hl. rewrite Hlast in Hl. injection Hl as <- <-. split; [done|right].
    split; [done|]. exact (Hd s Hs).
Qed.

(** *** Eviction *)

Definition evictable (t : Table K) (now : Z) (k : K) : Prop :=
  exists p s, entries t !! k = Some p /\ heap t !! p = Some s /\ users s = 0
    /\ lastStart s + Z.max m (crawlDelay s) <= now.

Lemma evict_ok t es pins last now :
  table_ok t pins last now -> es ⊆ entries t ->
  (forall k, is_Some (entries t !! k) -> es !! k = None -> evictable t now k) ->
  table_ok (set_entries t es) pins last now.
Proof.
  intros Hok Hsub Hev. split; cbn [entries heap next set_entries].
  - intros k k' p Hk Hk'. eapply (to_inj _ _ _ _ Hok); by eapply lookup_weaken.
  - intros k p Hk. eapply (to_alloc _ _ _ _ Hok k). by eapply lookup_weaken.
  - apply (to_fresh _ _ _ _ Hok).
  - intros k p Hin. pose proof (to_pins _ _ _ _ Hok k p Hin) as Hk.
    destruct (es !! k) as [p'|] eqn:Hes.
    + pose proof (lookup_weaken _ _ _ _ Hes Hsub) as Hes'. congruence.
    + destruct (Hev k ltac:(eauto) Hes) as (p' & s & Hp' & Hs & Hu & _). simplify_eq.
      rewrite (to_users _ _ _ _ Hok k p s Hk Hs) in Hu. apply occ_elem in Hin. lia.
  - intros k p s Hk. apply (to_users _ _ _ _ Hok). by eapply lookup_weaken.
  - pose proof (map_subseteq_size _ _ Hsub). pose proof (to_size _ _ _ _ Hok). lia.
  - intros k tl d Hl. destruct (to_last _ _ _ _ Hok k tl d Hl) as [Hpos [?|(p & s & Hk & Hs & Hst & Hd)]];
      (split; [done|]); [by left|].
    destruct (es !! k) as [p'|] eqn:Hes.
    + pose proof (lookup_weaken _ _ _ _ Hes Hsub). simplify_eq. right. eauto 10.
    + left. destruct (Hev k ltac:(eauto) Hes) as (p' & s' & ? & ? & _ & ?). simplify_eq. lia.
Qed.

(** What the loop of [pin] keeps, whatever the order of the visit. *)
Record scan_ok (t : Table K) (now : Z) (visit : list (K * positive))
    (acc : gmap K positive * option (K * Z)) : Prop := {
  so_sub : acc.1 ⊆ entries t;
  so_deleted : forall k, is_Some (entries t !! k) -> acc.1 !! k = None -> evictable t now k;
  so_oldest : forall k a, acc.2 = Some (k, a) ->
    evictable t now k /\ is_Some (acc.1 !! k) /\ k ∉ visit.*1;
}.

Lemma scan_entry_ok t now visit k p acc :
  entries t !! k = Some p -> k ∉ visit.*1 -> is_Some (acc.1 !! k) ->
  scan_ok t now ((k, p) :: visit) acc ->
  scan_ok t now visit (scan_entry less m now (heap t) acc (k, p)).
Proof.
  intros Hk Hnin Hsome [Hsub Hdel Hold]. destruct acc as [es oldest]. cbn [fst snd fmap list_fmap] in *.
  assert (Hkeep : scan_ok t now visit (es, oldest)).
  { split; [done|done|]. intros k' a Ho. destruct (Hold k' a Ho) as (? & ? & Hn).
    rewrite not_elem_of_cons in Hn. tauto. }
  unfold scan_entry. destruct (heap t !! p) as [s|] eqn:Hs; [|done].
  destruct (Z.eqb_spec (users s) 0) as [Hu|]; [|done]. cbn [negb].
  unfold time_Before, time_Add. destruct (Z.ltb_spec now (lastStart s + Z.max m (crawlDelay s))) as [|Hel]; [done|].
  cbn [negb]. assert (Hev : evictable t now k) by (exists p, s; auto).
  destruct (Z.ltb_spec now (lastAccess s + maxCacheLifetime)); cbn [negb].
  - assert (Hnew : scan_ok t now visit (es, Some (k, lastAccess s))).
    { split; [done|done|]. by intros k' a [= <- <-]. }
    destruct oldest as [[ko ao]|]; [|done]. by case_head.
  - split; cbn [fst snd].
    + etrans; [apply delete_subseteq|done].
    + intros k' Hk' [<-|Hes]%lookup_delete_None; [done|auto].
    + intros k' a Ho. destruct (Hold k' a Ho) as (? & ? & Hn). rewrite not_elem_of_cons in Hn.
      split_and!; [done| |tauto]. rewrite lookup_delete_ne; [done|]. intros ->. tauto.
Qed.

Lemma scan_entry_other (t : Table K) now k p acc k' :
  k' <> k -> (scan_entry less m now (heap t) acc (k, p)).1 !! k' = acc.1 !! k'.
Proof.
  intros Hne. destruct acc as [es oldest]. unfold scan_entry. 
  destruct (heap t !! p) as [s|]; [|done]. destruct (negb (users s =? 0)); [done|].
  cbv zeta. destruct (negb (negb _)); [done|]. destruct (negb _).
  - cbn [fst]. by rewrite lookup_delete_ne.
  - destruct oldest as [[ko ao]|]; [|done]. by case_head.
Qed.

Lemma pin_scan_spec t now visit :
  visit ≡ₚ map_to_list (entries t) -> scan_ok t now [] (scan less m now t visit).
Proof.
  intros Hp.
  assert (Hnd : NoDup visit.*1) by (rewrite Hp; apply NoDup_fst_map_to_list).
  assert (Hin : forall k p, (k, p) ∈ visit -> entries t !! k = Some p)
    by (intros k p; rewrite Hp; apply elem_of_map_to_list).
  unfold scan. clear Hp.
  assert (Hacc : forall k p, (k, p) ∈ visit -> is_Some ((entries t, None : option (K * Z)).1 !! k))
    by (intros k p Hkp; cbn [fst]; rewrite (Hin k p Hkp); eauto).
  assert (Hok : scan_ok t now visit (entries t, None)).
  { split; [done| |done]. cbn [fst]. intros k [p Hk] Hn. congruence. }
  revert Hacc Hok. generalize (entries t, None : option (K * Z)) as acc.
  induction visit as [|[k p] visit IH]; intros acc Hacc Hok; [done|]. cbn [fold_left].
  apply NoDup_cons in Hnd as [Hn Hnd]. apply IH; [done| | |].
  - intros k' p' Hkp. apply Hin. by right.
  - intros k' p' Hkp. rewrite scan_entry_other; [eapply Hacc; by right|].
    intros ->. apply Hn. apply list_elem_of_fmap. by exists (k, p').
  - apply scan_entry_ok; [apply Hin; by left|done| |done]. apply (Hacc k p). by left.
Qed.

Lemma create_ok t pins last now k :
  table_ok t pins last now -> entries t !! k = None -> Z.of_nat (size (entries t)) < cap ->
  table_ok (create t k) pins last now.
Proof.
  intros Hok Hk Hsize.
  assert (Hfresh : heap t !! next t = None).
  { destruct (heap t !! next t) eqn:Hn; [|done]. pose proof (to_fresh _ _ _ _ Hok (next t) ltac:(eauto)). lia. }
  assert (Hold : forall k' p', entries t !! k' = Some p' -> p' <> next t).
  { intros k' p' Hk' ->. destruct (to_alloc _ _ _ _ Hok _ _ Hk'). congruence. }
  split; cbn [entries heap next create].
  - intros k1 k2 p. rewrite !lookup_insert_Some. intros [[<- <-]|[? H1]] [[<- ?]|[? H2]]; try done.
    + by apply Hold in H2.
    + subst. by apply Hold in H1.
    + by eapply (to_inj _ _ _ _ Hok).
  - intros k' p'. rewrite lookup_insert_Some. intros [[<- <-]|[? Hk']]; [rewrite lookup_insert_eq; eauto|].
    rewrite lookup_insert_ne by (apply not_eq_sym; by eapply Hold). by eapply (to_alloc _ _ _ _ Hok).
  - intros p. rewrite lookup_insert_is_Some. intros [<-|[_ Hp]]; [lia|].
    pose proof (to_fresh _ _ _ _ Hok p Hp). lia.
  - intros k' p Hin. pose proof (to_pins _ _ _ _ Hok _ _ Hin). rewrite lookup_insert_ne; [done|]. congruence.
  - intros k' p' s. rewrite lookup_insert_Some. intros [[<- <-]|[? Hk']].
    + rewrite lookup_insert_eq. intros [= <-]. cbn [users new_schedule].
      destruct (occ (k, next t) pins) eqn:Ho; [done|].
      assert (Hin : (k, next t) ∈ pins) by (apply occ_elem; lia).
      apply (to_pins _ _ _ _ Hok) in Hin. congruence.
    + rewrite lookup_insert_ne by (apply not_eq_sym; by eapply Hold). by apply (to_users _ _ _ _ Hok).
  - rewrite map_size_insert_None by done. lia.
  - intros k' tl d Hl. destruct (to_last _ _ _ _ Hok k' tl d Hl) as [? [?|(p & s & Hp & Hs & ?)]];
      (split; [done|]); [by left|right].
    exists p, s. rewrite lookup_insert_ne by congruence.
    rewrite lookup_insert_ne by (apply not_eq_sym; by eapply Hold). auto.
Qed.

(** [pin] keeps the table well formed in every visit order; on success the new
    pin is recorded for the key, on failure the caller holds nothing. *)
Lemma pin_ok t pins last now k visit t' r :
  table_ok t pins last now -> visit ≡ₚ map_to_list (entries t) ->
  pin less m cap t k now visit = (t', r) ->
  match r with
  | Ok p => table_ok t' ((k, p) :: pins) last now
  | Err e => table_ok t' pins last now /\ e = errors_New errScheduleCapacity
  end.
Proof.
  intros Hok Hvisit. pose proof (pin_scan_spec t now visit Hvisit) as Hscan. unfold pin.
  destruct (scan less m now t visit) as [es oldest]. destruct Hscan as [Hsub Hdel Hold]. cbn [fst snd] in *.
  pose proof (evict_ok t es pins last now Hok Hsub Hdel) as Hok1.
  destruct (es !! k) as [p|] eqn:Hk.
  - intros [= <- <-]. by apply pin_pointer_ok.
  - destruct (Z.leb_spec cap (Z.of_nat (size es))) as [Hfull|Hroom].
    + destruct oldest as [[ko ao]|]; [|by intros [= <- <-]].
      destruct (Hold ko ao eq_refl) as (Hev & Hin & _). intros [= <- <-].
      apply pin_pointer_ok; [|cbn [entries create]; apply lookup_insert_eq].
      pose proof (to_size _ _ _ _ Hok1) as Hsize. cbn [entries set_entries] in Hsize.
      destruct Hin as [po Hpo]. pose proof (map_size_delete_Some ko es ltac:(eauto)) as Hds.
      assert (0 < size es)%nat by (apply Nat.neq_0_lt_0, map_size_non_empty_iff; intros ->; by rewrite lookup_empty in Hpo).
      apply create_ok; cbn [entries set_entries].
      * apply (evict_ok (set_entries t es) (delete ko es)); [done|apply delete_subseteq|].
        cbn [entries set_entries]. intros k' Hk' [<-|Hn]%lookup_delete_None;
          [|rewrite Hn in Hk'; by destruct Hk'].
        destruct Hev as (p & s & Hp & Hrest). exists p, s. cbn [entries heap set_entries].
        rewrite Hpo. pose proof (lookup_weaken _ _ _ _ Hpo Hsub). split; [congruence|done].
      * rewrite lookup_delete_ne; [done|]. congruence.
      * lia.
    + intros [= <- <-]. apply pin_pointer_ok; [|cbn [entries create]; apply lookup_insert_eq].
      by apply create_ok.
Qed.
End TableFacts.

(** ** Interleaved goroutines

    Each step is one critical section of the Go code: a clock reading, a pin
    or an unpin under [scheduler.mu], [setCrawlDelay], or one pass of the loop
    of [wait] under both schedule mutexes. *)

Inductive hold : Type :=
| HoldOrigin (o : Origin) (p : positive)
| HoldTarget (pinned : pinnedSchedules)
| HoldGroup (key : bytes) (q : positive).

Definition group_pin (g : option (bytes * positive)) : list (bytes * positive) :=
  match g with Some kq => [kq] | None => [] end.

Definition origin_pins (h : hold) : list (Origin * positive) :=
  match h with
  | HoldOrigin o p => [(o, p)]
  | HoldTarget pinned => [(pinned_key pinned, pinned_origin pinned)]
  | HoldGroup _ _ => []
  end.

Definition group_pins (h : hold) : list (bytes * positive) :=
  match h with
  | HoldOrigin _ _ => []
  | HoldTarget pinned => group_pin (pinned_neighborhood pinned)
  | HoldGroup key q => [(key, q)]
  end.

(** What happened, newest first: starts with the crawl delay then in force,
    and learned crawl delays. *)
Inductive event : Type :=
| Started (o : Origin) (group : option bytes) (t crawl : Z)
| DelaySet (o : Origin) (d : Z).

(** The last start of an origin and the least crawl delay in force since. *)
Fixpoint last_origin (log : list event) (o : Origin) : option (Z * Z) :=
  match log with
  | [] => None
  | Started o' _ t crawl :: rest => if decide (o' = o) then Some (t, crawl) else last_origin rest o
  | DelaySet o' d :: rest =>
      if decide (o' = o) then (fun '(t, c) => (t, Z.min c d)) <$> last_origin rest o
      else last_origin rest o
  end.

(** The last start in a neighborhood. *)
Fixpoint last_group (log : list event) (key : bytes) : option (Z * Z) :=
  match log with
  | [] => None
  | Started _ g t _ :: rest => if decide (g = Some key) then Some (t, 0) else last_group rest key
  | DelaySet _ _ :: rest => last_group rest key
  end.

Record Sys : Type := mkSys {
  sched : Scheduler;
  clock : Z;
  holds : list hold;
  log : list event;
}.

(** Politeness: the starts of an origin are spaced by the operator minimum and
    by every crawl delay in force since the previous start, and the starts of
    a neighborhood by the operator minimum. *)
Fixpoint polite (m : Z) (log : list event) : Prop :=
  match log with
  | [] => True
  | Started o g t crawl :: rest =>
      (forall t0 d, last_origin rest o = Some (t0, d) -> t0 + Z.max m d <= t)
      /\ (forall key t0 d, g = Some key -> last_group rest key = Some (t0, d) -> t0 + m <= t)
      /\ polite m rest
  | DelaySet _ _ :: rest => polite m rest
  end.

Section System.
Context `{NetURL} `{NetIP} `{IDNA} `{PublicSuffixList}.

Definition visits_ok (s : Scheduler) (v : visits) : Prop :=
  visit_origins v ≡ₚ map_to_list (entries (schedules s))
  /\ visit_groups v ≡ₚ map_to_list (entries (neighborhoods s)).

Definition crawl_of (s : Scheduler) (p : positive) : Z :=
  match heap (schedules s) !! p with Some o => crawlDelay o | None => 0 end.

Inductive step : Sys -> Sys -> Prop :=
| step_tick s now now' hs lg : now <= now' -> step (mkSys s now hs lg) (mkSys s now' hs lg)
| step_acquire s now hs lg o v s' p :
    visits_ok s v -> acquire s o now v = (s', Ok p) ->
    step (mkSys s now hs lg) (mkSys s' now (HoldOrigin o p :: hs) lg)
| step_acquire_failed s now hs lg o v s' e :
    visits_ok s v -> acquire s o now v = (s', Err e) ->
    step (mkSys s now hs lg) (mkSys s' now hs lg)
| step_release s now hs hs' lg o p :
    hs ≡ₚ HoldOrigin o p :: hs' ->
    step (mkSys s now hs lg) (mkSys (release s p now) now hs' lg)
| step_set_delay s now hs lg o p d :
    HoldOrigin o p ∈ hs ->
    step (mkSys s now hs lg)
         (mkSys (set_schedules s (setCrawlDelay (schedules s) p d)) now hs (DelaySet o d :: lg))
| step_acquireTarget s now hs lg target v s' pinned :
    visits_ok s v -> acquireTarget s target now v = (s', Ok pinned) ->
    step (mkSys s now hs lg) (mkSys s' now (HoldTarget pinned :: hs) lg)
| step_acquireTarget_failed s now hs lg target v s' e :
    visits_ok s v -> acquireTarget s target now v = (s', Err e) ->
    step (mkSys s now hs lg) (mkSys s' now hs lg)
| step_start s now hs lg pinned s' :
    HoldTarget pinned ∈ hs -> wait_pass s pinned now = (s', None) ->
    step (mkSys s now hs lg)
         (mkSys s' now hs (Started (pinned_key pinned) (fst <$> pinned_neighborhood pinned) now
                             (crawl_of s (pinned_origin pinned)) :: lg))
(** [releasePinned] is two critical sections. *)
| step_releasePinned s now hs hs' lg o p g :
    hs ≡ₚ HoldTarget (mkPinned o p g) :: hs' ->
    step (mkSys s now hs lg)
         (mkSys (release s p now) now
            (match g with Some (key, q) => [HoldGroup key q] | None => [] end ++ hs') lg)
| step_release_group s now hs hs' lg key q :
    hs ≡ₚ HoldGroup key q :: hs' ->
    step (mkSys s now hs lg) (mkSys (release_group s q now) now hs' lg).

Definition initial (delay now : Z) : Sys := mkSys (newOriginRequestScheduler delay) now [] [].

Definition reachable (delay now : Z) : Sys -> Prop := rtc step (initial delay now).

(** The invariant. *)
Record sys_ok (delay : Z) (y : Sys) : Prop := {
  sys_minimum : minimum (sched y) = delay;
  sys_capacity : capacity (sched y) = maxScheduleEntries;
  sys_clock : 0 < clock y;
  sys_targets : forall pinned, HoldTarget pinned ∈ holds y -> 0 <= delay;
  sys_origins : table_ok delay maxScheduleEntries (schedules (sched y))
                  (flat_map origin_pins (holds y)) (last_origin (log y)) (clock y);
  sys_groups : table_ok delay maxScheduleEntries (neighborhoods (sched y))
                 (flat_map group_pins (holds y)) (last_group (log y)) (clock y);
  sys_polite : polite delay (log y);
}.

Lemma initial_ok delay now : 0 < now -> sys_ok delay (initial delay now).
Proof.
  intros Hnow. split; cbn; [done|done|done|intros p Hp; by apply elem_of_nil in Hp| | |done];
    apply table_ok_empty.
Qed.

Lemma acquire_ok s o now v s' r origins groups lo lg :
  visits_ok s v ->
  table_ok (minimum s) (capacity s) (schedules s) origins lo now ->
  table_ok (minimum s) (capacity s) (neighborhoods s) groups lg now ->
  acquire s o now v = (s', r) ->
  minimum s' = minimum s /\ capacity s' = capacity s /\ neighborhoods s' = neighborhoods s
  /\ table_ok (minimum s) (capacity s) (schedules s')
       (match r with Ok p => (o, p) :: origins | Err _ => origins end) lo now.
Proof.
  intros [Hv _] Ho Hg. unfold acquire. destruct (pin _ _ _ _ _ _ _) as [t r'] eqn:Hpin.
  intros [= <- <-]. cbn [minimum capacity schedules neighborhoods set_schedules].
  split_and!; [done|done|done|]. apply (pin_ok lessOrigin _ _ _ _ _ _ _ _ _ _ Ho Hv) in Hpin.
  destruct r'; [done|by destruct Hpin].
Qed.

Lemma acquireTarget_ok s target now v s' r origins groups lo lg :
  visits_ok s v ->
  table_ok (minimum s) (capacity s) (schedules s) origins lo now ->
  table_ok (minimum s) (capacity s) (neighborhoods s) groups lg now ->
  acquireTarget s target now v = (s', r) ->
  minimum s' = minimum s /\ capacity s' = capacity s
  /\ match r with
     | Ok pinned =>
         0 <= minimum s
         /\ table_ok (minimum s) (capacity s) (schedules s')
              ((pinned_key pinned, pinned_origin pinned) :: origins) lo now
         /\ table_ok (minimum s) (capacity s) (neighborhoods s')
              (group_pin (pinned_neighborhood pinned) ++ groups) lg now
     | Err _ =>
         table_ok (minimum s) (capacity s) (schedules s') origins lo now
         /\ table_ok (minimum s) (capacity s) (neighborhoods s') groups lg now
     end.
Proof.
  intros Hv Ho Hg. unfold acquireTarget. destruct target as [u|]; [|by intros [= <- <-]].
  destruct (Parse (url_String u)) as [o|]; [|by intros [= <- <-]].
  destruct (Z.ltb_spec (minimum s) 0) as [|Hm]; [by intros [= <- <-]|].
  unfold acquire_pins. destruct (acquire s o now v) as [s1 [p|e]] eqn:Ha;
    apply (acquire_ok _ _ _ _ _ _ _ _ _ _ Hv Ho Hg) in Ha as (Hm1 & Hc1 & Hn1 & Ho1).
  2:{ intros [= <- <-]. rewrite Hn1. auto. }
  destruct (neighborhoodKey (Hostname o)) as [key|].
  2:{ intros [= <- <-]. rewrite Hn1. split_and!; done. }
  destruct (pin _ _ _ _ key _ _) as [t r'] eqn:Hpin. rewrite Hm1, Hc1, Hn1 in Hpin.
  apply (pin_ok string_less _ _ _ _ _ _ _ _ _ _ Hg (proj2 Hv)) in Hpin.
  destruct r' as [q|e]; intros [= <- <-].
  - cbn [schedules neighborhoods minimum capacity set_neighborhoods pinned_key pinned_origin
      pinned_neighborhood group_pin app]. split_and!; done.
  - destruct Hpin as [Hpin _]. unfold release.
    cbn [schedules neighborhoods minimum capacity set_neighborhoods set_schedules].
    split_and!; [done|done| |done]. by eapply unpin_ok.
Qed.

Lemma hold_origin_pin h hs x : h ∈ hs -> x ∈ origin_pins h -> x ∈ flat_map origin_pins hs.
Proof. intros Hh Hx. apply list_elem_of_In, in_flat_map. exists h. by rewrite <- !list_elem_of_In. Qed.

Lemma hold_group_pin h hs x : h ∈ hs -> x ∈ group_pins h -> x ∈ flat_map group_pins hs.
Proof. intros Hh Hx. apply list_elem_of_In, in_flat_map. exists h. by rewrite <- !list_elem_of_In. Qed.

(** A start passes both clocks. *)
Lemma pending_wait_clocks s pinned now o :
  heap (schedules s) !! pinned_origin pinned = Some o -> pending_wait s pinned now <= 0 ->
  remainingDelay (lastStart o) (Z.max (minimum s) (crawlDelay o)) now <= 0
  /\ forall key q g, pinned_neighborhood pinned = Some (key, q) -> heap (neighborhoods s) !! q = Some g ->
      remainingDelay (lastStart g) (minimum s) now <= 0.
Proof.
  intros Ho. unfold pending_wait. rewrite Ho.
  replace (if minimum s <? crawlDelay o then crawlDelay o else minimum s)
    with (Z.max (minimum s) (crawlDelay o)) by (destruct (Z.ltb_spec (minimum s) (crawlDelay o)); lia).
  destruct (pinned_neighborhood pinned) as [[key q]|]; [|by split].
  destruct (heap (neighborhoods s) !! q) as [g|] eqn:Hg.
  - cbv zeta. intros Hle. split; [destruct (Z.ltb_spec (remainingDelay (lastStart o) (Z.max (minimum s) (crawlDelay o)) now)
      (remainingDelay (lastStart g) (minimum s) now)); lia|].
    intros key' q' g' [= <- <-]. rewrite Hg. intros [= <-].
    destruct (Z.ltb_spec (remainingDelay (lastStart o) (Z.max (minimum s) (crawlDelay o)) now)
      (remainingDelay (lastStart g) (minimum s) now)); lia.
  - intros Hle. split; [done|]. intros key' q' g' [= <- <-]. by rewrite Hg.
Qed.

Lemma last_group_zero lg key t0 d : last_group lg key = Some (t0, d) -> d = 0.
Proof.
  induction lg as [|[o g t c|o d'] lg IH]; cbn [last_group]; [done| |done].
  case_decide; [by intros [= _ <-]|done].
Qed.

Lemma step_start_ok delay s now hs lg pinned s' :
  sys_ok delay (mkSys s now hs lg) -> HoldTarget pinned ∈ hs -> wait_pass s pinned now = (s', None) ->
  sys_ok delay (mkSys s' now hs (Started (pinned_key pinned) (fst <$> pinned_neighborhood pinned) now
                                   (crawl_of s (pinned_origin pinned)) :: lg)).
Proof.
  intros [Hm Hc Hclk Ht Ho Hg Hp] Hin. cbn [sched clock holds log] in *. pose proof (Ht _ Hin) as Hpos.
  unfold wait_pass. destruct (Z.ltb_spec 0 (pending_wait s pinned now)) as [|Hwait]; [done|]. intros [= <-].
  pose proof (hold_origin_pin _ _ (pinned_key pinned, pinned_origin pinned) Hin ltac:(by left)) as Hpin.
  pose proof (to_pins _ _ _ _ _ _ Ho _ _ Hpin) as Hent.
  destruct (to_alloc _ _ _ _ _ _ Ho _ _ Hent) as [so Hso].
  destruct (pending_wait_clocks s pinned now so Hso Hwait) as [Hro Hrg]. rewrite Hm in *.
  assert (Hcrawl : crawl_of s (pinned_origin pinned) = crawlDelay so) by (unfold crawl_of; by rewrite Hso).
  assert (Horigins : table_ok delay maxScheduleEntries
            (setLastStart (schedules s) (pinned_origin pinned) now) (flat_map origin_pins hs)
            (last_origin (Started (pinned_key pinned) (fst <$> pinned_neighborhood pinned) now
                            (crawl_of s (pinned_origin pinned)) :: lg)) now).
  { apply (setLastStart_ok _ _ _ _ _ _ _ _ _ (crawlDelay so) Ho Hpin); [done| | |].
    - intros k' Hne. cbn [last_origin]. by rewrite decide_False.
    - cbn [last_origin]. by rewrite decide_True, Hcrawl.
    - intros s0 Hs0. simplify_eq. lia. }
  assert (Hspaced : forall t0 d, last_origin lg (pinned_key pinned) = Some (t0, d) -> t0 + Z.max delay d <= now).
  { intros t0 d Hl. apply (start_spaced _ _ _ _ _ _ _ _ _ _ _ _ Ho Hent Hso Hro Hl). lia. }
  unfold start. destruct (pinned_neighborhood pinned) as [[key q]|] eqn:Hn.
  2:{ by split. }
  assert (Hgpin : (key, q) ∈ flat_map group_pins hs).
  { apply (hold_group_pin _ _ _ Hin). cbn [group_pins]. rewrite Hn. by left. }
  pose proof (to_pins _ _ _ _ _ _ Hg _ _ Hgpin) as Hgent.
  destruct (to_alloc _ _ _ _ _ _ Hg _ _ Hgent) as [sg Hsg].
  split; try done.
  - apply (setLastStart_ok _ _ _ _ _ _ _ _ _ 0 Hg Hgpin); [done| | |lia].
    + intros k' Hne. cbn [last_group log]. by rewrite decide_False by (intros [=]; congruence).
    + cbn [last_group log]. by rewrite decide_True.
  - cbn [log polite]. split_and!; [done| |done].
    intros key' t0 d [= <-] Hl. pose proof (last_group_zero _ _ _ _ Hl) as ->.
    pose proof (start_spaced _ _ _ _ _ _ _ _ _ _ _ _ Hg Hgent Hsg (Hrg _ _ _ eq_refl Hsg) Hl). lia.
Qed.

Lemma sched_step_ok delay y y' : sys_ok delay y -> step y y' -> sys_ok delay y'.
Proof.
  intros Hok Hstep. destruct Hstep as
    [s now now' hs lg Hle|s now hs lg o v s' p Hv Ha|s now hs lg o v s' e Hv Ha|s now hs hs' lg o p Hp
    |s now hs lg o p d Hin|s now hs lg target v s' pinned Hv Ha|s now hs lg target v s' e Hv Ha
    |s now hs lg pinned s' Hin Hw|s now hs hs' lg o p g Hp|s now hs hs' lg key q Hp].
  8:{ by apply step_start_ok with (s := s). }
  all: destruct Hok as [Hm Hc Hclk Ht Ho Hg Hpol]; cbn [sched clock holds log] in *.
  - split; cbn [sched clock holds log]; try done; [lia| |]; by eapply table_ok_tick.
  - rewrite <- Hm, <- Hc in Ho, Hg. apply (acquire_ok _ _ _ _ _ _ _ _ _ _ Hv Ho Hg) in Ha as (Hm1 & Hc1 & Hn1 & Ho1).
    rewrite Hm, Hc in *. split; cbn [sched clock holds log flat_map origin_pins group_pins app]; try done.
    + intros pinned [|]%elem_of_cons; [done|eauto].
    + by rewrite Hn1.
  - rewrite <- Hm, <- Hc in Ho, Hg. apply (acquire_ok _ _ _ _ _ _ _ _ _ _ Hv Ho Hg) in Ha as (Hm1 & Hc1 & Hn1 & Ho1).
    rewrite Hm, Hc in *. split; cbn [sched clock holds log]; try done. by rewrite Hn1.
  - split; try done.
    + intros pinned Hin. apply (Ht pinned). cbn [holds] in *. rewrite Hp. by right.
    + apply (unpin_ok _ _ _ _ _ _ _ o p Ho). by rewrite Hp.
    + cbn [holds sched log clock]. rewrite Hp in Hg. exact Hg.
  - split; try done. eapply (setCrawlDelay_ok _ _ _ _ _ _ _ o); [exact Ho| | |].
    + apply (hold_origin_pin _ _ _ Hin). by left.
    + intros k' Hne. cbn [log last_origin]. by rewrite decide_False.
    + cbn [log last_origin]. by rewrite decide_True.
  - rewrite <- Hm, <- Hc in Ho, Hg. apply (acquireTarget_ok _ _ _ _ _ _ _ _ _ _ Hv Ho Hg) in Ha as (Hm1 & Hc1 & Hr).
    destruct Hr as (Hpos & Ho1 & Hg1). rewrite Hm, Hc in *. split; try done.
  - rewrite <- Hm, <- Hc in Ho, Hg. apply (acquireTarget_ok _ _ _ _ _ _ _ _ _ _ Hv Ho Hg) in Ha as (Hm1 & Hc1 & Ho1 & Hg1).
    rewrite Hm, Hc in *. by split.
  - assert (Hog : forall h, flat_map origin_pins (match g with Some (key, q) => [HoldGroup key q] | None => [] end ++ h)
                            = flat_map origin_pins h) by (by destruct g as [[]|]).
    split; try done.
    + intros pinned. cbn [holds]. rewrite elem_of_app. intros [Hin|Hin].
      * destruct g as [[key q]|]; [by apply elem_of_cons in Hin as [|?%elem_of_nil]|by apply elem_of_nil in Hin].
      * apply (Ht pinned). rewrite Hp. by right.
    + cbn [holds]. rewrite Hog. apply (unpin_ok _ _ _ _ _ _ _ o p Ho). by rewrite Hp.
    + cbn [holds sched log clock]. rewrite Hp in Hg. by destruct g as [[]|].
  - split; try done.
    + intros pinned Hin. apply (Ht pinned). cbn [holds] in *. rewrite Hp. by right.
    + cbn [holds sched log clock]. rewrite Hp in Ho. exact Ho.
    + apply (unpin_ok _ _ _ _ _ _ _ key q Hg). by rewrite Hp.
Qed.

Lemma sched_reachable_ok delay now y : 0 < now -> reachable delay now y -> sys_ok delay y.
Proof.
  intros Hnow Hr. unfold reachable in Hr. remember (initial delay now) as y0 eqn:Hy.
  assert (Hok : sys_ok delay y0) by (subst; by apply initial_ok). clear Hy.
  induction Hr; [done|]. eapply IHHr, sched_step_ok; done.
Qed.

(** C4: Politeness under every interleaving: whatever goroutines acquire,
    release, learn crawl delays, wait and start, and whatever entries the
    tables evict in between, two successive starts for one origin are at least
    the operator minimum and the least crawl delay in force in between apart,
    and two successive starts in one neighborhood at least the operator
    minimum apart. *)
Theorem requests_are_spaced delay now y :
  0 < now -> reachable delay now y -> polite delay (log y).
Proof. intros Hnow Hr. apply (sched_reachable_ok delay now y Hnow Hr). Qed.

(** Pinned schedules survive eviction and the tables stay bounded: in every
    reachable state both maps hold at most [maxScheduleEntries] entries, a
    schedule a goroutine holds is still the map's entry for its key (so all
    goroutines of one origin share one clock), and its user count is the
    number of holders. *)
Theorem pinned_schedules_survive delay now y :
  0 < now -> reachable delay now y ->
  Z.of_nat (size (entries (schedules (sched y)))) <= maxScheduleEntries
  /\ Z.of_nat (size (entries (neighborhoods (sched y)))) <= maxScheduleEntries
  /\ (forall h o p, h ∈ holds y -> (o, p) ∈ origin_pins h ->
       entries (schedules (sched y)) !! o = Some p
       /\ exists s, heap (schedules (sched y)) !! p = Some s
            /\ users s = Z.of_nat (occ (o, p) (flat_map origin_pins (holds y))))
  /\ (forall h key q, h ∈ holds y -> (key, q) ∈ group_pins h ->
       entries (neighborhoods (sched y)) !! key = Some q
       /\ exists s, heap (neighborhoods (sched y)) !! q = Some s
            /\ users s = Z.of_nat (occ (key, q) (flat_map group_pins (holds y)))).
Proof.
  intros Hnow Hr. destruct (sched_reachable_ok delay now y Hnow Hr) as [_ _ _ _ Ho Hg _].
  split_and!.
  - apply (to_size _ _ _ _ _ _ Ho).
  - apply (to_size _ _ _ _ _ _ Hg).
  - intros h o p Hh Hp. pose proof (to_pins _ _ _ _ _ _ Ho o p (hold_origin_pin _ _ _ Hh Hp)) as He.
    split; [done|]. destruct (to_alloc _ _ _ _ _ _ Ho _ _ He) as [s Hs]. exists s.
    split; [done|]. apply (to_users _ _ _ _ _ _ Ho _ _ _ He Hs).
  - intros h o p Hh Hp. pose proof (to_pins _ _ _ _ _ _ Hg o p (hold_group_pin _ _ _ Hh Hp)) as He.
    split; [done|]. destruct (to_alloc _ _ _ _ _ _ Hg _ _ He) as [s Hs]. exists s.
    split; [done|]. apply (to_users _ _ _ _ _ _ Hg _ _ _ He Hs).
Qed.
End System.

(** ** Termination of the wait loop *)

Section WaitFacts.
Context {W : Type}.
Variable clock : W -> Z.
Variable waiter : call (W * Scheduler) Z (option error).

(** The delays fit in a [time.Duration] and no start lies in the future. *)
Definition clocks_bounded (s : Scheduler) (pinned : pinnedSchedules) (now : Z) : Prop :=
  (forall o, heap (schedules s) !! pinned_origin pinned = Some o ->
     lastStart o <= now /\ crawlDelay o <= max_int64)
  /\ (forall key q g, pinned_neighborhood pinned = Some (key, q) -> heap (neighborhoods s) !! q = Some g ->
     lastStart g <= now)
  /\ minimum s <= max_int64.

Lemma remainingDelay_wait last delay now now' :
  last <= now -> delay <= max_int64 -> now + remainingDelay last delay now <= now' ->
  remainingDelay last delay now' <= 0.
Proof.
  unfold remainingDelay, time_IsZero, time_After, time_Add, time_Sub, min_int64, max_int64. intros Hl Hd Hn.
  destruct (Z.eqb_spec last 0); [done|].
  destruct (Z.ltb_spec now (last + delay)), (Z.ltb_spec now' (last + delay)); lia.
Qed.

(** Waiting the reported delay is enough for both clocks. *)
Lemma pending_wait_elapsed s pinned now now' :
  clocks_bounded s pinned now -> now + pending_wait s pinned now <= now' -> pending_wait s pinned now' <= 0.
Proof.
  intros (Ho & Hg & Hm). unfold pending_wait.
  destruct (heap (schedules s) !! pinned_origin pinned) as [o|]; [|done].
  destruct (Ho o eq_refl) as [Hlo Hco].
  set (od := if minimum s <? crawlDelay o then crawlDelay o else minimum s).
  assert (Hod : od <= max_int64) by (unfold od; case_head; done). clearbody od. cbv zeta.
  destruct (pinned_neighborhood pinned) as [[key q]|]; [|by apply remainingDelay_wait].
  destruct (heap (neighborhoods s) !! q) as [g|] eqn:Hq; [|by apply remainingDelay_wait].
  pose proof (Hg key q g eq_refl Hq) as Hlg. intros Hn.
  pose proof (remainingDelay_wait (lastStart o) od now now' Hlo Hod).
  pose proof (remainingDelay_wait (lastStart g) (minimum s) now now' Hlg Hm).
  destruct (Z.ltb_spec (remainingDelay (lastStart o) od now) (remainingDelay (lastStart g) (minimum s) now)),
    (Z.ltb_spec (remainingDelay (lastStart o) od now') (remainingDelay (lastStart g) (minimum s) now')); lia.
Qed.

(** The wait loop ends: with a timer that fires no earlier than asked and
    schedules that no other goroutine starts meanwhile, one wait is enough
    and the second pass starts the request. *)
Theorem wait_loop_terminates pinned (w : W) s fuel :
  clocks_bounded s pinned (clock w) ->
  (forall d, exists w', waiter (w, s) d = ((w', s), None) /\ clock w + d <= clock w') ->
  exists w', clock w <= clock w'
    /\ wait_loop clock waiter (2 + fuel) pinned (w, s) = ((w', start s pinned (clock w')), Some None).
Proof.
  intros Hb Hw. cbn [wait_loop Nat.add fst snd]. unfold wait_pass at 1.
  destruct (Z.ltb_spec 0 (pending_wait s pinned (clock w))) as [Hpos|Hle].
  - destruct (Hw (pending_wait s pinned (clock w))) as (w' & -> & Hclk).
    exists w'. split; [lia|]. cbn [fst snd]. unfold wait_pass.
    pose proof (pending_wait_elapsed s pinned (clock w) (clock w') Hb Hclk).
    by destruct (Z.ltb_spec 0 (pending_wait s pinned (clock w'))) as [|_]; [lia|].
  - by exists w.
Qed.
End WaitFacts.

Module SchedulerWitnesses.
Import Concrete.

#[local] Instance suffixes : PublicSuffixList := {|
  PublicSuffix host := (last_label host, true);
  EffectiveTLDPlusOne host := Some host;
|}.

Definition target : URL := split_path https (bs "example.org/a").
Definition example : Origin := mkOrigin (bs "https://example.org") (bs "example.org") 443.
Definition pinned : pinnedSchedules := mkPinned example 1 (Some (bs "example.org", 1%positive)).

(** Pin a target, start, wait ten seconds, start again. *)
Definition s0 : Scheduler := newOriginRequestScheduler (10 * Second).
Definition s1 : Scheduler := fst (acquireTarget s0 (Some target) 1 (mkVisits [] [])).
Definition s2 : Scheduler := fst (wait_pass s1 pinned 1).
Definition s3 : Scheduler := fst (wait_pass s2 pinned (1 + 10 * Second)).

Definition final : Sys :=
  mkSys s3 (1 + 10 * Second) [HoldTarget pinned]
    [Started example (Some (bs "example.org")) (1 + 10 * Second) 0;
     Started example (Some (bs "example.org")) 1 0].

Lemma no_visits : visits_ok s0 (mkVisits [] []).
Proof. split; vm_compute; constructor. Qed.

Lemma acquired : acquireTarget s0 (Some target) 1 (mkVisits [] []) = (s1, Ok pinned).
Proof. vm_cast_no_check (eq_refl (s1, @Ok error _ pinned)). Qed.

Lemma started1 : wait_pass s1 pinned 1 = (s2, None).
Proof. vm_cast_no_check (eq_refl (s2, @None Z)). Qed.

Lemma started2 : wait_pass s2 pinned (1 + 10 * Second) = (s3, None).
Proof. vm_cast_no_check (eq_refl (s3, @None Z)). Qed.

Lemma sched_final_reachable : reachable (10 * Second) 1 final.
Proof.
  eapply rtc_l; [exact (step_acquireTarget _ _ _ _ _ _ _ _ no_visits acquired)|].
  eapply rtc_l; [exact (step_start _ _ _ _ _ _ ltac:(left) started1)|].
  eapply rtc_l; [apply (step_tick s2 1 (1 + 10 * Second)); durations; lia|].
  eapply rtc_l; [exact (step_start _ _ _ _ _ _ ltac:(left) started2)|].
  replace (crawl_of s2 (pinned_origin pinned)) with 0 by (vm_compute; reflexivity).
  replace (crawl_of s1 (pinned_origin pinned)) with 0 by (vm_compute; reflexivity).
  exact (rtc_refl _ final).
Qed.

Lemma requests_are_spaced_witness : polite (10 * Second) (log final).
Proof. apply (requests_are_spaced (10 * Second) 1 final); [lia|apply sched_final_reachable]. Defined.

Lemma pinned_schedules_survive_witness :
  entries (schedules (sched final)) !! example = Some 1%positive.
Proof.
  destruct (pinned_schedules_survive (10 * Second) 1 final ltac:(lia) sched_final_reachable) as (_ & _ & Ho & _).
  by apply (Ho (HoldTarget pinned) example 1%positive); left.
Defined.

(** A clock that jumps to the end of the wait. *)
Definition example_waiter : call (Z * Scheduler) Z (option error) := fun '(w, s) d => ((w + d, s), None).

Lemma wait_loop_terminates_witness :
  exists w', 1 <= w' /\ wait_loop id example_waiter 2 pinned (1, s2) = ((w', start s2 pinned w'), Some None).
Proof.
  apply (wait_loop_terminates id example_waiter pinned 1 s2 0%nat).
  - split_and!; [| |by vm_compute].
    + intros o Ho. vm_compute in Ho. injection Ho as <-. by vm_compute.
    + intros key q g Hq Hg. vm_compute in Hq. injection Hq as <- <-.
      vm_compute in Hg. injection Hg as <-. by vm_compute.
  - intros d. by exists (1 + d).
Defined.
End SchedulerWitnesses.
