(* ===== verification/RobotsChecker.v ===== *)
(** * The robots checker ([internal/robots/checker.go])

    The policy cache with its expiry and overflow eviction, the table of
    in-flight fetches that lets concurrent callers share one, and the
    operations built on them. Critical sections are definitions of their own,
    so that [policyFor] composes them and the step relation interleaves them. *)

From S2P Require Import Prelude GoText GoUrl GoErrors GoNetip Retry Origin Netguard.
From S2P Require Import RobotsMatch RobotsPolicy RobotsPolicyFacts RobotsHTTP.
From S2P Require Import RequestScheduler.

Record cacheEntry : Type := mkEntry {
  entry_policy : Policy;
  entry_crawlDelay : Z;
  expiresAt : Z;
  entry_lastAccess : Z;
}.

(** What an [inflightPolicy] holds once its channel is closed. *)
Abbreviation outcome := (res (list sentinel) Policy) (only parsing).

Record Checker : Type := mkChecker {
  cache : gmap Origin cacheEntry;
  inflight : gmap Origin positive;
  pendings : gmap positive (option outcome);
  next_pending : positive;
  scheduler : Scheduler;
}.

Definition set_cache (c : Checker) (m : gmap Origin cacheEntry) : Checker :=
  mkChecker m (inflight c) (pendings c) (next_pending c) (scheduler c).
Definition set_scheduler (c : Checker) (s : Scheduler) : Checker :=
  mkChecker (cache c) (inflight c) (pendings c) (next_pending c) s.

(** [newCheckerWithRequestDelay] *)
Definition newChecker (requestDelay : Z) : Checker :=
  mkChecker ∅ ∅ ∅ 1%positive (newOriginRequestScheduler requestDelay).

(** ** Cache maintenance *)

Section Cache.
Variable maxCacheEntries : Z.

(** [evictExpiredLocked] *)
Definition evictExpiredLocked (m : gmap Origin cacheEntry) (now : Z) : gmap Origin cacheEntry :=
  filter (fun '(_, entry) => time_Before now (expiresAt entry) = true) m.

(** The scan for the least recently used entry, in the order of the visit. *)
Definition oldest_entry (visit : list (Origin * cacheEntry)) : option (Origin * Z) :=
  fold_left (fun found '(key, entry) =>
    match found with
    | None => Some (key, entry_lastAccess entry)
    | Some (_, oldestAccess) =>
        if time_Before (entry_lastAccess entry) oldestAccess
        then Some (key, entry_lastAccess entry) else found
    end) visit None.

(** The order in which [range] visits the cache. *)
Variable map_order : list (Origin * cacheEntry) -> list (Origin * cacheEntry).

(** [evictOverflowLocked]; each round deletes one entry, so [size m] rounds
    are enough. *)
Fixpoint evict_overflow (fuel : nat) (m : gmap Origin cacheEntry) : gmap Origin cacheEntry :=
  match fuel with
  | O => m
  | S fuel' =>
      if maxCacheEntries <=? Z.of_nat (size m) then
        match oldest_entry (map_order (map_to_list m)) with
        | None => m
        | Some (oldestKey, _) => evict_overflow fuel' (delete oldestKey m)
        end
      else m
  end.

Definition evictOverflowLocked (m : gmap Origin cacheEntry) : gmap Origin cacheEntry :=
  evict_overflow (size m) m.

(** ** Critical sections of [policyFor] *)

Inductive lookup_result : Type :=
| Hit (policy : Policy) (delay : Z)
| Pending (id : positive)
| Fetch (id : positive).

(** Lines 167 to 195: expire, look up, join or open a fetch. *)
Definition policy_lookup (c : Checker) (initial : Origin) (now : Z) : Checker * lookup_result :=
  let m := evictExpiredLocked (cache c) now in
  let fetch :=
    match inflight c !! initial with
    | Some id => (set_cache c m, Pending id)
    | None =>
        (mkChecker m (<[initial := next_pending c]> (inflight c))
           (<[next_pending c := None]> (pendings c)) (Pos.succ (next_pending c)) (scheduler c),
         Fetch (next_pending c))
    end in
  match m !! initial with
  | Some entry =>
      if time_Before now (expiresAt entry) then
        (set_cache c (<[initial := mkEntry (entry_policy entry) (entry_crawlDelay entry)
                                     (expiresAt entry) now]> m),
         Hit (entry_policy entry) (entry_crawlDelay entry))
      else fetch
  | None => fetch
  end.

(** Lines 200 to 205: publish the error, then forget the fetch. *)
Definition policy_close_failed (c : Checker) (id : positive) (err : error) : Checker :=
  mkChecker (cache c) (inflight c) (<[id := Some (Err err)]> (pendings c)) (next_pending c) (scheduler c).
Definition policy_forget (c : Checker) (initial : Origin) : Checker :=
  mkChecker (cache c) (delete initial (inflight c)) (pendings c) (next_pending c) (scheduler c).

(** Lines 223 to 236: store the policy and publish it. *)
Definition policy_store (c : Checker) (initial : Origin) (id : positive) (policy : Policy) (delay now : Z)
    : Checker :=
  let m := evictOverflowLocked (evictExpiredLocked (cache c) now) in
  mkChecker (<[initial := mkEntry policy delay (time_Add now maxCacheLifetime) now]> m)
    (delete initial (inflight c)) (<[id := Some (Ok policy)]> (pendings c)) (next_pending c) (scheduler c).
End Cache.

(** ** Operations

    The environment's state contains the checker, because other goroutines may
    run while a fetch or a wait is in progress. *)

Section Operations.
Context `{NetURL} `{NetIP} `{IDNA} `{PublicSuffixList} {W : Type}.
Variable maxCacheEntries : Z.
Variable map_order : list (Origin * cacheEntry) -> list (Origin * cacheEntry).
Variable map_orders : W * Checker -> visits.
Variable clock : W -> Z.
Variable maxCrawlDelay : Z.
Variable ctxErr : W -> option error.
(** The scheduled hop getter and the wait for another caller's fetch. *)
Variable getter : option (call (W * Checker) URL (res error (option Response))).
Variable await : call (W * Checker) positive (option error).

Abbreviation state := (W * Checker)%type (only parsing).
Definition now (ws : state) : Z := clock (fst ws).
Definition ctx (ws : state) : option error := ctxErr (fst ws).

(** [requestOrigin], for a non-nil checker, context and clock. *)
Definition requestOrigin (target : option URL) (ws : state) : res error Origin :=
  match ctx ws with
  | Some err => Err err
  | None =>
      match target with
      | None => Err (errors_New errInvalidHTTPTarget)
      | Some u =>
          match Origin.Parse (url_String u) with
          | Err _ => Err (errors_New errInvalidHTTPTarget)
          | Ok initial =>
              match getter with
              | None => Err (errors_New errHTTPGetterUnavailable)
              | Some _ => Ok initial
              end
          end
      end
  end.

Definition acquire_schedule (source : Origin) (ws : state) : state * res error positive :=
  let '(s, r) := acquire (scheduler (snd ws)) source (now ws) (map_orders ws) in
  ((fst ws, set_scheduler (snd ws) s), r).
Definition release_schedule (p : positive) (ws : state) : state :=
  (fst ws, set_scheduler (snd ws) (release (scheduler (snd ws)) p (now ws))).
Definition set_delay (p : positive) (delay : Z) (ws : state) : state :=
  let s := scheduler (snd ws) in
  (fst ws, set_scheduler (snd ws) (set_schedules s (setCrawlDelay (schedules s) p delay))).

Definition temporary (err : error) : error := join (errors_New ErrTemporary) err.

(** The owner of a fetch: lines 197 to 238. *)
Definition fetch_policy (initial : Origin) (schedule id : positive) (ws : state)
    : state * res error Policy :=
  let fail ws err :=
    ((fst ws, policy_forget (policy_close_failed (snd ws) id err) initial), Err err) in
  match obtainPolicy (Some ctx) initial getter ws with
  | (ws1, (_, Some err)) => fail ws1 (temporary err)
  | (ws1, (policy, None)) =>
      match RobotsPolicy.crawlDelay policy maxCrawlDelay with
      | None => fail ws1 (temporary (errors_New ErrInvalidCrawlDelay))
      | Some delay =>
          let ws2 := set_delay schedule delay ws1 in
          ((fst ws2, policy_store maxCacheEntries map_order (snd ws2) initial id policy delay (now ws2)),
           Ok policy)
      end
  end.

(** [policyFor] *)
Definition policyFor (initial : Origin) (ws : state) : state * res error Policy :=
  match acquire_schedule initial ws with
  | (ws1, Err err) => (ws1, Err (temporary err))
  | (ws1, Ok schedule) =>
      let '(ws2, r) :=
        match policy_lookup (snd ws1) initial (now ws1) with
        | (c, Hit policy delay) => (set_delay schedule delay (fst ws1, c), Ok policy)
        | (c, Pending id) =>
            match await (fst ws1, c) id with
            | (ws', Some contextErr) => (ws', Err contextErr)
            | (ws', None) =>
                (ws', match pendings (snd ws') !! id with
                      | Some (Some r) => r
                      | _ => Ok (mkPolicy [] [])
                      end)
            end
        | (c, Fetch id) => fetch_policy initial schedule id (fst ws1, c)
        end in
      (release_schedule schedule ws2, r)
  end.

(** [Checker.Allowed] *)
Definition checker_Allowed (target : option URL) (ws : state) : state * res error bool :=
  match requestOrigin target ws with
  | Err err => (ws, Err err)
  | Ok initial =>
      match policyFor initial ws with
      | (ws', Err err) => (ws', Err err)
      | (ws', Ok policy) => (ws', Ok (Allowed policy target))
      end
  end.

(** [Checker.Get] *)
Definition checker_Get (target : option URL) (ws : state) : state * res error Response :=
  match requestOrigin target ws with
  | Err err => (ws, Err err)
  | Ok initial =>
      match acquire_schedule initial ws with
      | (ws1, Err err) => (ws1, Err (temporary err))
      | (ws1, Ok schedule) =>
          let '(ws2, r) :=
            match policyFor initial ws1 with
            | (ws', Err err) => (ws', Err err)
            | (ws', Ok policy) =>
                if negb (Allowed policy target) then (ws', Err (errors_New ErrDisallowed))
                else
                  match target, getter with
                  | Some u, Some get =>
                      match get ws' u with
                      | (ws'', Err err) => (ws'', Err (wrap err))
                      | (ws'', Ok None) => (ws'', Err (errors_New errInvalidHTTPResponse))
                      | (ws'', Ok (Some response)) =>
                          match Body response with
                          | None => (ws'', Err (errors_New errInvalidHTTPResponse))
                          | Some _ => (ws'', Ok response)
                          end
                      end
                  | _, _ => (ws', Err (errors_New errInvalidHTTPTarget))
                  end
            end in
          (release_schedule schedule ws2, r)
      end
  end.
End Operations.

(** * Correctness of the robots checker

    Cache bound and freshness, one fetch in flight per origin under every
    interleaving, and the permission a protected request needs. *)


(** ** Eviction *)

Lemma oldest_entry_elem visit : visit <> [] -> exists k a, oldest_entry visit = Some (k, a) /\ k ∈ visit.*1.
Proof.
  unfold oldest_entry. set (f := fun found _ => _).
  assert (Hgen : forall l (acc : option (Origin * Z)) seen,
            (forall k a, acc = Some (k, a) -> k ∈ seen) ->
            (acc <> None \/ l <> []) ->
            exists k a, fold_left f l acc = Some (k, a) /\ k ∈ seen ++ l.*1).
  { induction l as [|[k e] l IH]; intros acc seen Hacc Hne.
    - destruct acc as [[k a]|]; [|by destruct Hne]. exists k, a. split; [done|].
      rewrite app_nil_r. eauto.
    - cbn [fold_left fmap list_fmap fst]. change (seen ++ k :: l.*1) with (seen ++ [k] ++ l.*1).
      rewrite app_assoc. apply IH.
      + intros k' a' Hf. unfold f in Hf. rewrite elem_of_app, list_elem_of_singleton.
        destruct acc as [[k0 a0]|]; [|injection Hf as -> _; auto].
        case_head_in Hf; injection Hf as -> _; eauto.
      + left. unfold f. destruct acc as [[k0 a0]|]; [|done]. by case_head. }
  intros Hne. destruct (Hgen visit None []) as (k & a & Hk & Hin); [done|by right|]. by exists k, a.
Qed.

Section EvictFacts.
Variable maxCacheEntries : Z.
Variable map_order : list (Origin * cacheEntry) -> list (Origin * cacheEntry).
Hypothesis map_order_perm : forall l, map_order l ≡ₚ l.

Lemma oldest_in_map (m : gmap Origin cacheEntry) :
  m <> ∅ -> exists k a, oldest_entry (map_order (map_to_list m)) = Some (k, a) /\ is_Some (m !! k).
Proof.
  intros Hne. destruct (oldest_entry_elem (map_order (map_to_list m))) as (k & a & Hk & Hin).
  - intros Hnil. pose proof (map_order_perm (map_to_list m)) as Hp. rewrite Hnil in Hp.
    apply Permutation_nil in Hp. by apply Hne, map_to_list_empty_iff.
  - exists k, a. split; [done|]. rewrite map_order_perm in Hin.
    apply list_elem_of_fmap in Hin as ([k' e] & -> & He). apply elem_of_map_to_list in He. eauto.
Qed.

Lemma evict_overflow_sub fuel m : evict_overflow maxCacheEntries map_order fuel m ⊆ m.
Proof.
  revert m. induction fuel as [|fuel IH]; intros m; cbn [evict_overflow]; [done|].
  case_head; [|done]. destruct (oldest_entry _) as [[k a]|]; [|done].
  etrans; [apply IH|apply delete_subseteq].
Qed.

Lemma evict_overflow_size fuel m : 0 < maxCacheEntries -> (size m <= fuel)%nat ->
  Z.of_nat (size (evict_overflow maxCacheEntries map_order fuel m)) < maxCacheEntries.
Proof.
  intros Hmax. revert m. induction fuel as [|fuel IH]; intros m Hf; cbn [evict_overflow]; [lia|].
  destruct (Z.leb_spec maxCacheEntries (Z.of_nat (size m))) as [Hle|]; [|lia].
  assert (Hne : m <> ∅) by (intros ->; rewrite map_size_empty in Hle; lia).
  destruct (oldest_in_map m Hne) as (k & a & -> & Hk). apply IH.
  rewrite map_size_delete_Some by done. lia.
Qed.

Lemma policy_store_size c o pid p d now : 0 < maxCacheEntries ->
  Z.of_nat (size (cache (policy_store maxCacheEntries map_order c o pid p d now))) <= maxCacheEntries.
Proof.
  intros Hmax. cbn [cache policy_store]. unfold evictOverflowLocked.
  set (m := evictExpiredLocked (cache c) now).
  pose proof (evict_overflow_size (size m) m Hmax ltac:(lia)) as Hs.
  rewrite map_size_insert. unfold id. case_match; lia.
Qed.
End EvictFacts.

Lemma evictExpired_spec m now o e :
  evictExpiredLocked m now !! o = Some e <-> m !! o = Some e /\ now < expiresAt e.
Proof.
  unfold evictExpiredLocked. rewrite map_lookup_filter_Some. unfold time_Before. rewrite Z.ltb_lt. done.
Qed.

(** ** Interleaved callers *)

Inductive event : Type :=
| HitAt (o : Origin) (policy : Policy) (t : Z)
| StoredAt (o : Origin) (policy : Policy) (t : Z).

Record Sys : Type := mkSys {
  checker : Checker;
  sys_now : Z;
  fetchers : list (Origin * positive);
  history : list event;
}.

(** Every answer from the cache was stored less than [maxCacheLifetime] ago. *)
Fixpoint fresh (log : list event) : Prop :=
  match log with
  | [] => True
  | HitAt o policy t :: rest =>
      (exists t0, StoredAt o policy t0 ∈ rest /\ t0 <= t < t0 + maxCacheLifetime) /\ fresh rest
  | StoredAt _ _ _ :: rest => fresh rest
  end.

Section System.
Variable maxCacheEntries : Z.
Hypothesis maxCacheEntries_pos : 0 < maxCacheEntries.

Inductive step : Sys -> Sys -> Prop :=
| ck_tick c now now' fs log : now <= now' -> step (mkSys c now fs log) (mkSys c now' fs log)
| ck_hit c now fs log o c' policy d :
    policy_lookup c o now = (c', Hit policy d) ->
    step (mkSys c now fs log) (mkSys c' now fs (HitAt o policy now :: log))
| ck_pending c now fs log o c' id :
    policy_lookup c o now = (c', Pending id) -> step (mkSys c now fs log) (mkSys c' now fs log)
| ck_fetch c now fs log o c' id :
    policy_lookup c o now = (c', Fetch id) -> step (mkSys c now fs log) (mkSys c' now ((o, id) :: fs) log)
| ck_close c now fs log o id err :
    (o, id) ∈ fs -> step (mkSys c now fs log) (mkSys (policy_close_failed c id err) now fs log)
| ck_forget c now fs fs' log o id :
    fs ≡ₚ (o, id) :: fs' -> step (mkSys c now fs log) (mkSys (policy_forget c o) now fs' log)
| ck_store c now fs fs' log o id policy d map_order :
    fs ≡ₚ (o, id) :: fs' -> (forall l, map_order l ≡ₚ l) ->
    step (mkSys c now fs log)
         (mkSys (policy_store maxCacheEntries map_order c o id policy d now) now fs'
            (StoredAt o policy now :: log)).

Definition reachable (requestDelay now : Z) : Sys -> Prop := rtc step (mkSys (newChecker requestDelay) now [] []).

Record sys_ok (y : Sys) : Prop := {
  ok_size : Z.of_nat (size (cache (checker y))) <= maxCacheEntries;
  ok_stored : forall o e, cache (checker y) !! o = Some e ->
    exists t, StoredAt o (entry_policy e) t ∈ history y /\ t <= sys_now y
      /\ expiresAt e = t + maxCacheLifetime;
  ok_fetchers : forall o id, (o, id) ∈ fetchers y -> inflight (checker y) !! o = Some id;
  ok_nodup : NoDup (fetchers y).*1;
  ok_fresh : fresh (history y);
}.

Lemma expired_ok c now fs log :
  sys_ok (mkSys c now fs log) -> sys_ok (mkSys (set_cache c (evictExpiredLocked (cache c) now)) now fs log).
Proof.
  intros [Hs Hst Hf Hn Hfr]. split; try done; cbn [checker cache set_cache].
  - pose proof (map_subseteq_size (evictExpiredLocked (cache c) now) (cache c) (map_filter_subseteq _ _)).
    cbn [checker] in Hs. lia.
  - intros o e [He _]%evictExpired_spec. by apply Hst.
Qed.

Lemma policy_lookup_ok c now fs log o c' r :
  sys_ok (mkSys c now fs log) -> policy_lookup c o now = (c', r) ->
  match r with
  | Hit policy _ => sys_ok (mkSys c' now fs (HitAt o policy now :: log))
  | Pending _ => sys_ok (mkSys c' now fs log)
  | Fetch id => sys_ok (mkSys c' now ((o, id) :: fs) log)
  end.
Proof.
  intros Hok. pose proof (expired_ok _ _ _ _ Hok) as He. unfold policy_lookup.
  set (m := evictExpiredLocked (cache c) now) in *.
  assert (Hmiss : m !! o = None \/ (exists e, m !! o = Some e /\ now < expiresAt e)).
  { destruct (m !! o) as [e|] eqn:Hm; [right|by left]. exists e. split; [done|]. by apply (evictExpired_spec (cache c) now o e) in Hm as [_ Hm]. }
  destruct He as [Hs Hst Hf Hn Hfr]. cbn [checker cache inflight set_cache fetchers history sys_now] in *.
  destruct Hmiss as [Hm|(e & Hm & Hlt)]; rewrite Hm.
  - destruct (inflight c !! o) as [id|] eqn:Hi; intros [= <- <-]; [by split|].
    split; cbn [checker cache inflight fetchers history sys_now fmap list_fmap fst]; try done.
    + intros o' id' [[= -> ->]|Hin]%elem_of_cons; [apply lookup_insert_eq|].
      rewrite lookup_insert_ne; [by apply Hf|]. intros ->. rewrite (Hf _ _ Hin) in Hi. done.
    + apply NoDup_cons. split; [|done]. intros ([o' id'] & -> & Hin)%list_elem_of_fmap.
      cbn [fst] in Hi. by rewrite (Hf _ _ Hin) in Hi.
  - unfold time_Before. replace (now <? expiresAt e) with true by lia. intros [= <- <-].
    destruct (Hst o e Hm) as (t & Hin & Ht & Hexp).
    split; cbn [checker cache inflight fetchers history sys_now set_cache fresh]; try done.
    + rewrite map_size_insert_Some by eauto. done.
    + intros o' e'. rewrite lookup_insert_Some. intros [[<- <-]|[_ He']]; cbn [entry_policy expiresAt].
      * exists t. split_and!; [by right|done|done].
      * destruct (Hst o' e' He') as (t' & ? & ? & ?). exists t'. split_and!; [by right|done|done].
    + split; [|done]. exists t. split; [done|lia].
Qed.

Lemma nodup_perm_cons (fs fs' : list (Origin * positive)) x :
  fs ≡ₚ x :: fs' -> NoDup fs.*1 -> NoDup fs'.*1 /\ x.1 ∉ fs'.*1.
Proof. intros ->. cbn [fmap list_fmap]. intros [? ?]%NoDup_cons. done. Qed.

Lemma policy_store_stored map_order c now o id policy d log :
  (forall l, map_order l ≡ₚ l) ->
  (forall o' e, cache c !! o' = Some e -> exists t, StoredAt o' (entry_policy e) t ∈ log /\ t <= now
     /\ expiresAt e = t + maxCacheLifetime) ->
  forall o' e, cache (policy_store maxCacheEntries map_order c o id policy d now) !! o' = Some e ->
  exists t, StoredAt o' (entry_policy e) t ∈ StoredAt o policy now :: log /\ t <= now
    /\ expiresAt e = t + maxCacheLifetime.
Proof.
  intros Hp Hst o' e. cbn [cache policy_store]. rewrite lookup_insert_Some. intros [[<- <-]|[Hne He]].
  - exists now. cbn [entry_policy expiresAt]. split_and!; [by left|lia|done].
  - unfold evictOverflowLocked in He. eapply lookup_weaken in He; [|apply evict_overflow_sub].
    apply evictExpired_spec in He as [He _]. destruct (Hst o' e He) as (t & ? & ? & ?).
    exists t. split_and!; [by right|done|done].
Qed.

Lemma checker_step_ok y y' : sys_ok y -> step y y' -> sys_ok y'.
Proof.
  intros Hok Hstep. destruct Hstep as
    [c now now' fs log Hle|c now fs log o c' policy d Hl|c now fs log o c' id Hl|c now fs log o c' id Hl
    |c now fs log o id err Hin|c now fs fs' log o id Hp|c now fs fs' log o id policy d map_order Hp Hperm].
  - destruct Hok as [Hs Hst Hf Hn Hfr]. split; try done. intros o e He.
    destruct (Hst o e He) as (t & ? & ? & ?). exists t. cbn [sys_now] in *. split_and!; [done|lia|done].
  - apply (policy_lookup_ok _ _ _ _ _ _ _ Hok Hl).
  - apply (policy_lookup_ok _ _ _ _ _ _ _ Hok Hl).
  - apply (policy_lookup_ok _ _ _ _ _ _ _ Hok Hl).
  - by destruct Hok; split.
  - destruct Hok as [Hs Hst Hf Hn Hfr]. cbn [checker fetchers history sys_now] in *.
    destruct (nodup_perm_cons _ _ _ Hp Hn) as [Hn' Hnin]. split; try done.
    cbn [checker fetchers inflight policy_forget]. intros o' id' Hin.
    rewrite lookup_delete_ne; [apply Hf; rewrite Hp; by right|].
    intros ->. apply Hnin, list_elem_of_fmap. by exists (o', id').
  - destruct Hok as [Hs Hst Hf Hn Hfr]. cbn [checker fetchers history sys_now] in *.
    destruct (nodup_perm_cons _ _ _ Hp Hn) as [Hn' Hnin]. split; cbn [checker fetchers history sys_now]; try done.
    + by apply policy_store_size.
    + by apply policy_store_stored.
    + cbn [inflight policy_store]. intros o' id' Hin.
      rewrite lookup_delete_ne; [apply Hf; rewrite Hp; by right|].
      intros ->. apply Hnin, list_elem_of_fmap. by exists (o', id').
Qed.

Lemma checker_reachable_ok delay now y : reachable delay now y -> sys_ok y.
Proof.
  unfold reachable. intros Hr. remember (mkSys (newChecker delay) now [] []) as y0 eqn:Hy0.
  assert (Hok : sys_ok y0).
  { subst. split; cbn [checker cache newChecker fetchers history]; try done.
    - rewrite map_size_empty. lia.
    - intros o id Hin. by apply elem_of_nil in Hin.
    - constructor. }
  clear Hy0. induction Hr; [done|]. apply IHHr. by eapply checker_step_ok.
Qed.

(** C36: The policy cache under every interleaving of callers: it never holds
    more than [maxCacheEntries] policies, a policy it answers with was stored
    for that origin less than 24 hours before, and at most one fetch per
    origin is in flight at any time. *)
Theorem policy_cache_correct delay now y :
  reachable delay now y ->
  Z.of_nat (size (cache (checker y))) <= maxCacheEntries
  /\ fresh (history y)
  /\ NoDup (fetchers y).*1.
Proof. intros Hr. destruct (checker_reachable_ok delay now y Hr). done. Qed.
End System.

(** ** A protected request, end to end *)

Section EndToEnd.
Context `{NetURL} `{NetIP} `{IDNA} `{PublicSuffixList}.
Variables (maxCacheEntries maxCrawlDelay requestDelay t : Z).
Variable map_order : list (Origin * cacheEntry) -> list (Origin * cacheEntry).
Variable map_orders : list URL * Checker -> visits.
Variable await : call (list URL * Checker) positive (option error).
Variable server : URL -> Response.

(** The getter records the URLs it requests. *)
Definition recording : call (list URL * Checker) URL (res error (option Response)) :=
  fun '(requested, c) u => ((requested ++ [u], c), Ok (Some (server u))).

Lemma scan_busy {K} `{Countable K} (less : K -> K -> bool) m now (tb : Table K) visit :
  (forall p s, heap tb !! p = Some s -> users s <> 0) -> scan less m now tb visit = (entries tb, None).
Proof.
  intros Hb. unfold scan. generalize (entries tb, None : option (K * Z)) as acc.
  induction visit as [|[k p] visit IH]; intros acc; [done|]. cbn [fold_left]. rewrite IH.
  unfold scan_entry. destruct acc as [es oldest]. destruct (heap tb !! p) as [s|] eqn:Hs; [|done].
  specialize (Hb p s Hs). by replace (users s =? 0) with false by lia.
Qed.

(** A scheduler in which every origin is busy. *)
Definition busy (s : Scheduler) : Prop :=
  forall p e, heap (schedules s) !! p = Some e -> 0 < users e.

Lemma acquire_busy s o now v :
  busy s -> Z.of_nat (size (entries (schedules s))) < capacity s \/ is_Some (entries (schedules s) !! o) ->
  (forall p, entries (schedules s) !! o = Some p -> is_Some (heap (schedules s) !! p)) ->
  exists s' p e, acquire s o now v = (s', Ok p) /\ busy s'
    /\ entries (schedules s') !! o = Some p /\ heap (schedules s') !! p = Some e.
Proof.
  intros Hb Hroom Halloc. unfold acquire, pin. rewrite scan_busy by (intros p e Hp; specialize (Hb p e Hp); lia).
  cbn [entries set_entries]. destruct (entries (schedules s) !! o) as [p|] eqn:Ho.
  - destruct (Halloc p eq_refl) as [e He]. eexists _, p, _. split; [done|].
    unfold busy, pin_pointer. cbn [schedules set_schedules heap set_heap entries set_entries]. split_and!.
    + intros p' e'. destruct (decide (p' = p)) as [->|Hne].
      * rewrite lookup_alter_eq, He. intros [= <-]. cbn [users with_users]. specialize (Hb p e He). lia.
      * rewrite lookup_alter_ne by done. apply Hb.
    + done.
    + by rewrite lookup_alter_eq, He.
  - destruct Hroom as [Hroom|[p Hp]]; [|done]. replace (capacity s <=? _) with false by lia.
    eexists _, (next (schedules s)), _. split; [done|].
    unfold busy, pin_pointer. cbn [schedules set_schedules heap set_heap entries set_entries create next]. split_and!.
    + intros p' e'. destruct (decide (p' = next (schedules s))) as [->|Hne].
      * rewrite lookup_alter_eq, lookup_insert_eq. by intros [= <-].
      * rewrite lookup_alter_ne, lookup_insert_ne by done. apply Hb.
    + by rewrite lookup_insert_eq.
    + by rewrite lookup_alter_eq, lookup_insert_eq.
Qed.

Variables (u ru : URL) (o : Origin) (stream : bytes) (d : Z).
Hypothesis target_origin : Origin.Parse (url_String u) = Ok o.
Hypothesis origin_text : origin_String o <> [].
Hypothesis robots_url : url_Parse (origin_String o ++ robots_txt) = Some ru.
Hypothesis robots_status : 200 <= StatusCode (server ru) <= 299.
Hypothesis robots_body : Body (server ru) = Some (Some stream).
Hypothesis robots_size : Z.of_nat (length stream) <= MaxBodySize.
Hypothesis robots_delay : RobotsPolicy.crawlDelay (RobotsPolicy.Parse stream) maxCrawlDelay = Some d.

Lemma obtain_ok (ws : list URL * Checker) :
  obtainPolicy (Some (ctx (fun _ => None))) o (Some recording) ws
  = ((fst ws ++ [ru], snd ws), (RobotsPolicy.Parse stream, None)).
Proof.
  destruct ws as [requested c]. unfold obtainPolicy, ctx. rewrite robots_url.
  destruct (bytes_eqb_spec (origin_String o) []) as [|_]; [done|]. cbn [obtain_loop maxRedirects recording]. rewrite robots_body.
  replace (isRedirectStatus (StatusCode (server ru))) with false by (unfold isRedirectStatus; lia).
  f_equal. unfold final_policy. replace (_ && _) with true by lia.
  unfold readPolicy. rewrite take_ge by (unfold MaxBodySize in *; lia).
  by replace (MaxBodySize <? Z.of_nat (length stream)) with false by lia.
Qed.

(** The first call for an origin fetches, stores and returns its policy. *)
Lemma policyFor_first requested c :
  cache c = ∅ -> inflight c = ∅ -> busy (scheduler c) ->
  is_Some (entries (schedules (scheduler c)) !! o) ->
  (forall p, entries (schedules (scheduler c)) !! o = Some p -> is_Some (heap (schedules (scheduler c)) !! p)) ->
  exists c', policyFor maxCacheEntries map_order map_orders (fun _ => t) maxCrawlDelay (fun _ => None)
               (Some recording) await o (requested, c)
             = ((requested ++ [ru], c'), Ok (RobotsPolicy.Parse stream))
    /\ cache c' = {[ o := mkEntry (RobotsPolicy.Parse stream) d (t + maxCacheLifetime) t ]}
    /\ inflight c' = ∅.
Proof.
  intros Hcache Hinfl Hbusy Hin Halloc. unfold policyFor, acquire_schedule, now. cbn [fst snd].
  destruct (acquire_busy (scheduler c) o t (map_orders (requested, c)) Hbusy ltac:(by right) Halloc)
    as (s' & p & e & -> & _). cbn [fst snd].
  unfold policy_lookup. cbn [cache inflight set_scheduler]. rewrite Hcache, Hinfl.
  change (evictExpiredLocked ∅ t) with (∅ : gmap Origin cacheEntry). rewrite lookup_empty, lookup_empty.
  unfold fetch_policy. rewrite obtain_ok. cbn [fst snd]. rewrite robots_delay.
  eexists. split; [done|]. unfold release_schedule, set_delay, policy_store, now.
  cbn [fst snd cache inflight set_scheduler].
  change (evictExpiredLocked ∅ t) with (∅ : gmap Origin cacheEntry).
  split; [done|]. by rewrite delete_insert_id by apply lookup_empty.
Qed.

(** A protected request, end to end, on a new checker: the robots file of
    the target's origin is requested first; the target is requested after it
    exactly when the parsed policy allows it, and otherwise the call fails with
    [ErrDisallowed] and nothing else is sent. The policy is cached for 24
    hours from the fetch. *)
Theorem checker_Get_first :
  exists requested c r,
    checker_Get maxCacheEntries map_order map_orders (fun _ => t) maxCrawlDelay (fun _ => None)
      (Some recording) await (Some u) ([], newChecker requestDelay) = ((requested, c), r)
    /\ cache c = {[ o := mkEntry (RobotsPolicy.Parse stream) d (t + maxCacheLifetime) t ]}
    /\ if Allowed (RobotsPolicy.Parse stream) (Some u)
       then requested = [ru; u]
            /\ r = (match Body (server u) with
                    | None => Err (errors_New errInvalidHTTPResponse)
                    | Some _ => Ok (server u)
                    end)
       else requested = [ru] /\ r = Err (errors_New ErrDisallowed).
Proof.
  unfold checker_Get, requestOrigin, ctx. rewrite target_origin. unfold acquire_schedule, now. cbn [fst snd].
  destruct (acquire_busy (scheduler (newChecker requestDelay)) o t (map_orders ([], newChecker requestDelay)))
    as (s' & p & e & -> & Hbusy & Hent & Hheap); [done|left; by vm_compute|done|]. cbn [fst snd].
  destruct (policyFor_first [] (set_scheduler (newChecker requestDelay) s')) as (c' & -> & Hc & Hi);
    [done|done|done|by eexists|intros p' Hp'; cbn [scheduler set_scheduler] in *; simplify_eq; eauto|].
  destruct (Allowed (RobotsPolicy.Parse stream) (Some u)); cbn [negb recording app fst snd].
  - destruct (Body (server u)); eexists _, _, _; (split; [done|]); by split_and!.
  - eexists _, _, _. split; [done|]. by split_and!.
Qed.
End EndToEnd.

Module CheckerWitnesses.
Import Concrete.

#[local] Instance suffixes : PublicSuffixList := {|
  PublicSuffix host := (last_label host, true);
  EffectiveTLDPlusOne host := Some host;
|}.

Definition example : Origin := mkOrigin (bs "https://example.org") (bs "example.org") 443.
Definition policy : Policy := mkPolicy [] [].
Definition opened : Checker := fst (policy_lookup (newChecker 0) example 1).
Definition stored : Checker := policy_store 1 id opened example 1 policy 0 2.
Definition final : Sys := mkSys (fst (policy_lookup stored example 3)) 3 []
  [HitAt example policy 3; StoredAt example policy 2].

(** One caller fetches and stores, a later one is answered from the cache. *)
Lemma checker_final_reachable : reachable 1 0 1 final.
Proof.
  eapply rtc_l; [exact (ck_fetch 1 (newChecker 0) 1 [] [] example opened 1
    ltac:(vm_cast_no_check (eq_refl (opened, Fetch 1))))|].
  eapply rtc_l; [apply (ck_tick 1 opened 1 2); lia|].
  eapply rtc_l; [exact (ck_store 1 opened 2 _ [] _ example 1 policy 0 id
    (Permutation_refl _) (fun l => Permutation_refl l))|].
  eapply rtc_l; [apply (ck_tick 1 stored 2 3); lia|].
  eapply rtc_l; [exact (ck_hit 1 stored 3 _ _ example (fst (policy_lookup stored example 3)) policy 0
    ltac:(vm_cast_no_check (eq_refl (fst (policy_lookup stored example 3), Hit policy 0))))|].
  exact (rtc_refl _ final).
Qed.

Lemma policy_cache_correct_witness : fresh (history final).
Proof. apply (policy_cache_correct 1 ltac:(lia) 0 1 final checker_final_reachable). Defined.

Definition target : URL := split_path https (bs "example.org/private/page").
Definition robots_target : URL := split_path https (bs "example.org/robots.txt").
Definition robots_text : bytes := bs "User-agent: *" ++ [newline] ++ bs "Disallow: /private".
Definition server (u : URL) : Response := mkResponse 200 [] [] [] (Some (Some robots_text)).

(** The policy disallows the target, so only the robots file is requested. *)
Lemma checker_Get_first_witness :
  exists c, checker_Get 1 id (fun _ => mkVisits [] []) (fun _ => 7) DefaultMaxCrawlDelay (fun _ => None)
    (Some (recording server)) (fun ws _ => (ws, None)) (Some target) ([], newChecker 0)
  = (([robots_target], c), Err (errors_New ErrDisallowed)).
Proof.
  destruct (checker_Get_first 1 DefaultMaxCrawlDelay 0 7 id (fun _ => mkVisits [] []) (fun ws _ => (ws, None))
    server target robots_target example robots_text 0) as (requested & c & r & Hrun & _ & Hres).
  - by vm_compute.
  - done.
  - by vm_compute.
  - done.
  - done.
  - by vm_compute.
  - by vm_compute.
  - replace (Allowed (RobotsPolicy.Parse robots_text) (Some target)) with false in Hres by (by vm_compute).
    destruct Hres as [-> ->]. exists c. exact Hrun.
Defined.
End CheckerWitnesses.
