(* ===== verification/Declaration.v ===== *)
(** * Declarations ([internal/declaration/declaration.go], [body.go])

    Parsing of RFC-JOSH-0002 declarations: size and UTF-8 limits, strict JSON,
    an integer version and an optional boolean identity. *)

From S2P Require Import Prelude GoText GoJson GoErrors.

Definition MaxBodySize : Z := 64 * 1024.

Inductive ParseStatus : Type := ParseInvalid | ParseValid | ParseUnsupportedVersion.
Inductive Identity : Type := IdentityUndeclared | IdentityAffirmed | IdentityDeclined.

Record Declaration : Type := mkDeclaration { Version : Z; declared : Identity }.
Definition zero_declaration : Declaration := mkDeclaration 0 IdentityUndeclared.

Record ParseResult : Type := mkParseResult { Status : ParseStatus; result : Declaration }.

#[export] Instance Identity_eq_dec : EqDecision Identity.
Proof. solve_decision. Defined.
#[export] Instance Declaration_eq_dec : EqDecision Declaration.
Proof. solve_decision. Defined.

Definition isJSONInteger (value : bytes) : bool :=
  match value with
  | [] => false
  | c :: rest =>
      let digits := if byte_eqb c "-" then rest else value in
      forallb is_digit digits && negb (bytes_eqb digits [])
  end.

(** [wireDeclaration] is the pair of the raw [version] and [josh] members. *)
Definition Parse (data : bytes) : ParseResult :=
  let invalid := mkParseResult ParseInvalid zero_declaration in
  if (MaxBodySize <? Z.of_nat (length data)) || negb (utf8_Valid data) then invalid
  else
    match unmarshal_object data with
    | None => invalid
    | Some wire =>
        let version := TrimSpace (member (bs "version") wire) in
        if negb (isJSONInteger version) then invalid
        else if negb (bytes_eqb version (bs "1"))
        then mkParseResult ParseUnsupportedVersion zero_declaration
        else
          let josh := TrimSpace (member (bs "josh") wire) in
          if bytes_eqb josh [] then
            mkParseResult ParseValid (mkDeclaration 1 IdentityUndeclared)
          else if bytes_eqb josh (bs "true") then
            mkParseResult ParseValid (mkDeclaration 1 IdentityAffirmed)
          else if bytes_eqb josh (bs "false") then
            mkParseResult ParseValid (mkDeclaration 1 IdentityDeclined)
          else invalid
    end.

(** [readDeclarationBody] on the stream, or [None] for a read error. *)
Definition readDeclarationBody (body : option bytes) : res error bytes :=
  match body with
  | None => Err (wrap (errors_New (foreign 0)))
  | Some stream =>
      let data := take (Z.to_nat (MaxBodySize + 1)) stream in
      if MaxBodySize <? Z.of_nat (length data) then Err (errors_New errDeclarationBodyTooLarge)
      else Ok data
  end.

(** ** Facts *)

(** A printable ASCII byte: not part of any white space. *)
Definition solid (c : ascii) : bool := (33 <=? code c) && (code c <=? 126).

Lemma trim_encodings_solid fuel encodings s :
  forallb (fun e => match e with d :: _ => negb (solid d) | [] => false end) encodings = true ->
  match s with c :: _ => solid c = true | [] => True end ->
  trim_encodings fuel encodings s = s.
Proof.
  intros Henc Hs. destruct fuel as [|fuel]; [done|]. cbn [trim_encodings].
  destruct (List.find (HasPrefix s) encodings) as [e|] eqn:Hf; [|done].
  apply List.find_some in Hf as [Hin Hp]. rewrite forallb_forall in Henc. specialize (Henc e Hin).
  apply HasPrefix_spec in Hp as [t ->]. destruct e as [|d e]; [done|]. cbn [app] in Hs. by rewrite Hs in Henc.
Qed.

Lemma TrimSpace_solid s c d t :
  s = c :: t -> (exists p, s = p ++ [d]) -> solid c = true -> solid d = true -> TrimSpace s = s.
Proof.
  intros -> [p Hp] Hc Hd. unfold TrimSpace.
  rewrite (trim_encodings_solid _ space_encodings); [|by vm_compute|exact Hc].
  rewrite trim_encodings_solid; [apply rev_involutive|by vm_compute|].
  rewrite Hp, rev_app_distr. exact Hd.
Qed.

Lemma digit_solid c : is_digit c = true -> solid c = true.
Proof.
  unfold is_digit, in_range, solid. change (code "0") with 48. change (code "9") with 57. lia.
Qed.

(** A non-empty text whose first and last bytes are solid. *)
Definition solid_ends (s : bytes) : Prop :=
  (exists c t, s = c :: t /\ solid c = true) /\ (exists p d, s = p ++ [d] /\ solid d = true).

Lemma TrimSpace_ends s : solid_ends s -> TrimSpace s = s.
Proof. intros [(c & t & Hs & Hc) (p & d & Hp & Hd)]. apply (TrimSpace_solid s c d t); eauto. Qed.

Lemma solid_ends_forall s : s <> [] -> forallb solid s = true -> solid_ends s.
Proof.
  intros Hne Hf. split.
  - destruct s as [|c t]; [done|]. cbn [forallb] in Hf. b2p. eauto.
  - destruct s as [|d p _] using rev_ind; [done|]. rewrite forallb_app in Hf. cbn [forallb] in Hf. b2p. eauto.
Qed.

Lemma digits_all_solid ds : forallb is_digit ds = true -> forallb solid ds = true.
Proof. rewrite !forallb_forall. eauto using digit_solid. Qed.

Lemma jnumber_solid n : jnumber n -> n <> [] /\ forallb solid n = true.
Proof.
  intros (sign & i & f & e & -> & Hs & Hi & Hf & He). rewrite !forallb_app. split.
  - destruct Hi as [->|(c & ds & -> & _)]; by destruct sign.
  - apply andb_true_iff. split; [by destruct Hs as [->| ->]|].
    apply andb_true_iff. split; [|apply andb_true_iff; split].
    + destruct Hi as [->|(c & ds & -> & Hc & _ & Hd)]; [done|]. cbn [forallb].
      by rewrite digit_solid, digits_all_solid.
    + destruct Hf as [->|(ds & -> & _ & Hd)]; [done|]. cbn [forallb]. by rewrite digits_all_solid.
    + destruct He as [->|(c & sg & ds & -> & Hc & Hsg & _ & Hd)]; [done|]. cbn [forallb].
      rewrite forallb_app, (digits_all_solid ds Hd).
      destruct Hc as [->| ->], Hsg as [->|[->| ->]]; done.
Qed.

Lemma jstring_last d t : jstring d t -> exists p, t = p ++ [quote].
Proof.
  induction 1 as [|c d t ? ? ? ? [p ->]|e d' d t ? ? [p ->]]; [by exists []|by exists (c :: p)|].
  exists ("\"%char :: e ++ p). cbn [app]. by rewrite app_assoc.
Qed.

Lemma jelements_last depth t : jelements depth t -> exists p, t = p ++ bs "]".
Proof.
  induction 1 as [depth v w|depth v w w' t ? ? ? ? [p ->]].
  - exists (v ++ w). by rewrite app_assoc.
  - exists (v ++ w ++ bs "," ++ w' ++ p). by rewrite <- !app_assoc.
Qed.

Lemma jmembers_last depth ms t : jmembers depth ms t -> exists p, t = p ++ bs "}".
Proof.
  induction 1 as [depth name t w1 w2 v w3|depth name t w1 w2 v w3 w4 ms r ? ? ? ? ? ? ? [p ->]].
  - exists (quote :: t ++ w1 ++ bs ":" ++ w2 ++ v ++ w3). cbn [app]. by rewrite <- !app_assoc.
  - exists (quote :: t ++ w1 ++ bs ":" ++ w2 ++ v ++ w3 ++ bs "," ++ w4 ++ p). cbn [app]. by rewrite <- !app_assoc.
Qed.

Lemma solid_bracket (c d : ascii) s :
  solid c = true -> solid d = true -> (exists p, s = p ++ [d]) -> solid_ends (c :: s).
Proof. intros Hc Hd [p ->]. split; [by exists c, (p ++ [d])|exists (c :: p), d; done]. Qed.

Lemma jvalue_ends depth v : jvalue depth v -> solid_ends v.
Proof.
  destruct 1 as [depth|depth|depth|depth n Hn|depth d t Hs|depth w _ Hw|depth w t _ Hw He|depth w _ Hw|depth w ms t _ Hw Hm].
  1-3: by apply solid_ends_forall.
  - apply jnumber_solid in Hn as [? ?]. by apply solid_ends_forall.
  - apply (solid_bracket _ quote); [done|done|]. by eapply jstring_last.
  - apply (solid_bracket _ "]"); [done|done|by exists w].
  - apply (solid_bracket _ "]"); [done|done|]. apply jelements_last in He as [p ->]. exists (w ++ p). by rewrite app_assoc.
  - apply (solid_bracket _ "}"); [done|done|by exists w].
  - apply (solid_bracket _ "}"); [done|done|]. apply jmembers_last in Hm as [p ->]. exists (w ++ p). by rewrite app_assoc.
Qed.

Lemma jmembers_values depth ms t : jmembers depth ms t -> Forall (fun m => jvalue depth m.2) ms.
Proof. induction 1; by constructor. Qed.

Lemma document_values ms data : document ms data -> Forall (fun m => jvalue 1 m.2) ms.
Proof. destruct 1; [done|done|]. by eapply jmembers_values. Qed.

Lemma document_nodup ms data : document ms data -> NoDup ms.*1.
Proof. destruct 1; [constructor|constructor|done]. Qed.

(** Looking up a member: absent, or a JSON value that needs no trimming. *)
Lemma member_spec ms name :
  Forall (fun m => jvalue 1 m.2) ms ->
  ((name ∉ ms.*1) /\ member name ms = [])
  \/ (((name, member name ms) ∈ ms) /\ jvalue 1 (member name ms) /\ TrimSpace (member name ms) = member name ms).
Proof.
  intros Hv. unfold member. destruct (List.find _ ms) as [[n v]|] eqn:Hf.
  - right. apply List.find_some in Hf as [Hin Hn]. cbn [fst] in Hn.
    destruct (bytes_eqb_spec n name) as [->|]; [|done]. apply list_elem_of_In in Hin.
    rewrite Forall_forall in Hv. pose proof (Hv _ Hin) as Hj. cbn [snd] in Hj.
    split_and!; [done|done|]. by eapply TrimSpace_ends, jvalue_ends.
  - left. split; [|done]. intros ([n v] & -> & Hin)%list_elem_of_fmap. apply list_elem_of_In in Hin.
    pose proof (List.find_none _ _ Hf _ Hin) as Hn. cbn [fst] in Hn. by destruct (bytes_eqb_spec n n).
Qed.

(** The meaning of the identity member. *)
Definition josh_member (ms : list (bytes * bytes)) (i : Identity) : Prop :=
  match i with
  | IdentityUndeclared => bs "josh" ∉ ms.*1
  | IdentityAffirmed => (bs "josh", bs "true") ∈ ms
  | IdentityDeclined => (bs "josh", bs "false") ∈ ms
  end.

Lemma jvalue_nonempty : ~ jvalue 1 [].
Proof. intros H. by destruct (jvalue_ends 1 [] H) as [(c & t & ? & _) _]. Qed.

Lemma member_elem ms name v : NoDup ms.*1 -> (name, v) ∈ ms -> member name ms = v.
Proof.
  intros Hnd Hin. unfold member. induction ms as [|[n x] ms IH]; [by apply elem_of_nil in Hin|].
  cbn [fmap list_fmap fst] in Hnd. apply NoDup_cons in Hnd as [Hn Hnd]. cbn [List.find fst].
  destruct (bytes_eqb_spec n name) as [->|Hne].
  - apply elem_of_cons in Hin as [[= ->]|Hin]; [done|]. exfalso. apply Hn, list_elem_of_fmap. by exists (name, v).
  - apply elem_of_cons in Hin as [[= -> _]|Hin]; [done|]. by apply IH.
Qed.

Lemma member_absent ms name : name ∉ ms.*1 -> member name ms = [].
Proof.
  intros Hn. unfold member. destruct (List.find _ ms) as [[n v]|] eqn:Hf; [|done].
  apply List.find_some in Hf as [Hin He]. cbn [fst] in He. destruct (bytes_eqb_spec n name) as [->|]; [|done].
  exfalso. apply Hn, list_elem_of_fmap. exists (name, v). split; [done|]. by apply list_elem_of_In.
Qed.

(** The documents [Parse] looks into. *)
Record acceptable (data : bytes) (ms : list (bytes * bytes)) : Prop := {
  acc_size : Z.of_nat (length data) <= MaxBodySize;
  acc_utf8 : utf8_Valid data = true;
  acc_json : document ms data;
}.

Definition invalid : ParseResult := mkParseResult ParseInvalid zero_declaration.
Definition unsupported : ParseResult := mkParseResult ParseUnsupportedVersion zero_declaration.
Definition valid (i : Identity) : ParseResult := mkParseResult ParseValid (mkDeclaration 1 i).

(** The decision [Parse] takes on the members of an acceptable document. *)
Lemma Parse_members data ms : acceptable data ms ->
  Parse data =
    if negb (isJSONInteger (member (bs "version") ms)) then invalid
    else if negb (bytes_eqb (member (bs "version") ms) (bs "1")) then unsupported
    else if bytes_eqb (member (bs "josh") ms) [] then valid IdentityUndeclared
    else if bytes_eqb (member (bs "josh") ms) (bs "true") then valid IdentityAffirmed
    else if bytes_eqb (member (bs "josh") ms) (bs "false") then valid IdentityDeclined
    else invalid.
Proof.
  intros [Hs Hu Hd]. unfold Parse. rewrite Hu. replace (MaxBodySize <? _) with false by lia. cbn [negb orb].
  rewrite (proj2 (unmarshal_object_correct data ms) Hd). pose proof (document_values _ _ Hd) as Hv.
  assert (Htrim : forall name, TrimSpace (member name ms) = member name ms).
  { intros name. destruct (member_spec ms name Hv) as [[_ ->]|(_ & _ & ?)]; [by vm_compute|done]. }
  by rewrite !Htrim.
Qed.

Lemma Parse_unacceptable data : (forall ms, ~ acceptable data ms) -> Parse data = invalid.
Proof.
  intros Hno. unfold Parse. destruct (_ || _) eqn:Hlim; [done|]. b2p.
  destruct (unmarshal_object data) as [ms|] eqn:Hu; [|done]. apply unmarshal_object_correct in Hu.
  exfalso. apply (Hno ms). split; [lia|done|done].
Qed.

Lemma acceptable_dec data : (exists ms, acceptable data ms) \/ (forall ms, ~ acceptable data ms).
Proof.
  destruct (Z.leb_spec (Z.of_nat (length data)) MaxBodySize) as [Hs|Hs]; [|right; intros ms [? _ _]; lia].
  destruct (utf8_Valid data) eqn:Hu; [|right; intros ms [_ ? _]; congruence].
  destruct (unmarshal_object data) as [ms|] eqn:Hm.
  - left. exists ms. split; [done|done|]. by apply unmarshal_object_correct.
  - right. intros ms [_ _ Hd%unmarshal_object_correct]. congruence.
Qed.

Lemma acceptable_member data ms name v : acceptable data ms -> (name, v) ∈ ms -> member name ms = v.
Proof. intros [_ _ Hd] Hin. apply member_elem; [by eapply document_nodup|done]. Qed.

(** A member that is not empty is in the document. *)
Lemma acceptable_present data ms name :
  acceptable data ms -> member name ms <> [] -> (name, member name ms) ∈ ms.
Proof.
  intros [_ _ Hd] Hne. destruct (member_spec ms name (document_values _ _ Hd)) as [[_ ?]|[? _]]; done.
Qed.

Lemma acceptable_missing data ms name : acceptable data ms -> member name ms = [] -> name ∉ ms.*1.
Proof.
  intros [_ _ Hd] He. destruct (member_spec ms name (document_values _ _ Hd)) as [[? _]|(_ & Hj & _)]; [done|].
  rewrite He in Hj. by apply jvalue_nonempty in Hj.
Qed.

(** The identity branch of [Parse_members]. *)
Lemma josh_member_decides data ms i : acceptable data ms ->
  (if bytes_eqb (member (bs "josh") ms) [] then valid IdentityUndeclared
   else if bytes_eqb (member (bs "josh") ms) (bs "true") then valid IdentityAffirmed
   else if bytes_eqb (member (bs "josh") ms) (bs "false") then valid IdentityDeclined
   else invalid) = valid i <-> josh_member ms i.
Proof.
  intros Hacc. split.
  - destruct (bytes_eqb_spec (member (bs "josh") ms) []) as [He|Hne].
    { intros [= <-]. by eapply acceptable_missing. }
    pose proof (acceptable_present _ _ _ Hacc Hne) as Hin.
    destruct (bytes_eqb_spec (member (bs "josh") ms) (bs "true")) as [Ht|_].
    { intros [= <-]. unfold josh_member. by rewrite Ht in Hin. }
    destruct (bytes_eqb_spec (member (bs "josh") ms) (bs "false")) as [Hf|_]; [|done].
    intros [= <-]. unfold josh_member. by rewrite Hf in Hin.
  - destruct i; unfold josh_member.
    + intros Hn. by rewrite member_absent.
    + intros Hin. by rewrite (acceptable_member _ _ _ _ Hacc Hin).
    + intros Hin. by rewrite (acceptable_member _ _ _ _ Hacc Hin).
Qed.

Lemma Parse_cases data :
  Parse data = invalid \/ Parse data = unsupported \/ exists i, Parse data = valid i.
Proof.
  destruct (acceptable_dec data) as [[ms Hacc]|Hno].
  - rewrite (Parse_members data ms Hacc). repeat case_head; eauto.
  - left. by apply Parse_unacceptable.
Qed.

(** C37: [Parse] decides the protocol's validity. It returns a valid declaration
    with identity [i] exactly for a UTF-8 JSON document of at most 64 KiB,
    with unique names in every object, whose [version] member is the number
    [1] and whose [josh] member is absent, [true] or [false] as [i] says; it
    reports an unsupported version exactly for such a document with another
    integer version; everything else is invalid. *)
Theorem Parse_correct data :
  (forall i, Parse data = valid i <->
     exists ms, acceptable data ms /\ (bs "version", bs "1") ∈ ms /\ josh_member ms i)
  /\ (Parse data = unsupported <->
     exists ms v, acceptable data ms /\ (bs "version", v) ∈ ms /\ isJSONInteger v = true /\ v <> bs "1")
  /\ (Parse data = invalid \/ Parse data = unsupported \/ exists i, Parse data = valid i).
Proof.
  destruct (acceptable_dec data) as [[ms Hacc]|Hno].
  2:{ rewrite (Parse_unacceptable data Hno). split_and!; [| |by left].
      - intros i. split; [done|]. intros (ms & Hacc & _). by apply Hno in Hacc.
      - split; [done|]. intros (ms & v & Hacc & _). by apply Hno in Hacc. }
  split_and!.
  - intros i. split.
    + rewrite (Parse_members data ms Hacc). destruct (isJSONInteger _); [|done]. cbn [negb].
      destruct (bytes_eqb_spec (member (bs "version") ms) (bs "1")) as [Hone|]; [|done]. cbn [negb].
      intros Hj%(josh_member_decides data); [|done]. exists ms. split_and!; [done| |done].
      rewrite <- Hone. apply (acceptable_present data); [done|by rewrite Hone].
    + intros (ms' & Hacc' & Hin & Hj). rewrite (Parse_members data ms' Hacc').
      rewrite (acceptable_member _ _ _ _ Hacc' Hin). by apply (josh_member_decides data).
  - split.
    + rewrite (Parse_members data ms Hacc). destruct (isJSONInteger _) eqn:Hint; [|done]. cbn [negb].
      destruct (bytes_eqb_spec (member (bs "version") ms) (bs "1")) as [Hone|Hne]; cbn [negb].
      * by repeat case_head.
      * intros _. exists ms, (member (bs "version") ms). split_and!; [done| |done|done].
        apply (acceptable_present data); [done|]. intros Hnil. by rewrite Hnil in Hint.
    + intros (ms' & v & Hacc' & Hin & Hint & Hne). rewrite (Parse_members data ms' Hacc').
      rewrite (acceptable_member _ _ _ _ Hacc' Hin), Hint. cbn [negb].
      by destruct (bytes_eqb_spec v (bs "1")).
  - apply Parse_cases.
Qed.
