(* ===== verification/Verifier.v ===== *)
(** * The declaration verifier ([internal/declaration/verifier.go])

    [Verify] retrieves the well-known declaration of an origin through a
    robots-aware getter, follows at most five same-origin redirects and maps
    every remote condition to an outcome. *)

From S2P Require Import Prelude GoText GoUrl GoErrors GoNetip GoJson Retry Origin Netguard.
From S2P Require Import RobotsMatch RobotsPolicy RobotsPolicyFacts RobotsHTTP.
From S2P Require Import Declaration.

Definition WellKnownPath : bytes := bs "/.well-known/josh".
Definition maxDeclarationRedirects : nat := 5.

Inductive Outcome : Type :=
| OutcomeInvalid | OutcomeValid | OutcomeAbsent | OutcomeUnsupportedVersion
| OutcomeUnavailable | OutcomeRobotsDenied | OutcomeCrossOriginRedirect.

#[export] Instance Outcome_eq_dec : EqDecision Outcome.
Proof. solve_decision. Defined.

Record Result : Type := mkResult {
  result_Outcome : Outcome;
  result_Origin : Origin;
  result_Declaration : Declaration;
  result_FailureCategory : Category;
  result_RetryAfter : Z;
}.

(** A result with an outcome only, and an unavailable one. *)
Definition outcome_result (source : Origin) (o : Outcome) : Result :=
  mkResult o source zero_declaration CategoryNone 0.
Definition unavailable (source : Origin) (category : Category) (retryAfter : Z) : Result :=
  mkResult OutcomeUnavailable source zero_declaration category retryAfter.

Definition isDeclarationRedirect (status : Z) : bool :=
  (status =? 301) || (status =? 302) || (status =? 303) || (status =? 307) || (status =? 308).

Section Verify.
Context `{NetURL} `{NetIP} `{IDNA} {W : Type}.

Definition declarationRedirectTarget (current : URL) (response : Response) (source : Origin) : res error URL :=
  if bytes_eqb (Location response) [] then Err (errors_New errInvalidDeclarationRedirect)
  else
    match url_ParseRef current (Location response) with
    | None => Err (errors_New errInvalidDeclarationRedirect)
    | Some u =>
        let next := set_no_fragment u in
        match Origin.Parse (url_String next) with
        | Err _ => Err (errors_New errInvalidDeclarationRedirect)
        | Ok nextOrigin =>
            if bool_decide (nextOrigin <> source)
            then Err (errors_New errCrossOriginDeclarationRedirect)
            else Ok next
        end
    end.

Variable ParseTime : bytes -> option Z.
Variable get : call W URL (res error (option Response)).
Variable ctxErr : W -> option error.
Variable clock : W -> Z.

(** Lines 158 to 184: a failed request. *)
Definition get_failed (source : Origin) (err : error) (w : W) : res error Result :=
  match ctxErr w with
  | Some contextError => Err contextError
  | None =>
      if errors_Is err ErrDisallowed then Ok (outcome_result source OutcomeRobotsDenied)
      else
        let category :=
          if errors_Is err ErrTemporary then CategoryRobotsTemporary
          else
            let category := FailureCategory err in
            if bool_decide (category = CategoryUnsupportedOrigin) then CategoryTransport else category in
        Ok (unavailable source category 0)
  end.

(** Lines 238 to 312: a response that is not a redirect. *)
Definition final_result (source : Origin) (response : Response) (body : option bytes) (w : W)
    : res error Result :=
  let status := StatusCode response in
  if (200 <=? status) && (status <=? 299) then
    match readDeclarationBody body with
    | Err readError =>
        match ctxErr w with
        | Some contextError => Err contextError
        | None =>
            if errors_Is readError errDeclarationBodyTooLarge
            then Ok (outcome_result source OutcomeInvalid)
            else Ok (unavailable source CategoryTransport 0)
        end
    | Ok data =>
        let parsed := Declaration.Parse data in
        match Status parsed with
        | ParseValid => Ok (mkResult OutcomeValid source (Declaration.result parsed) CategoryNone 0)
        | ParseUnsupportedVersion => Ok (outcome_result source OutcomeUnsupportedVersion)
        | ParseInvalid => Ok (outcome_result source OutcomeInvalid)
        end
    end
  else if (status =? 404) || (status =? 410) then Ok (outcome_result source OutcomeAbsent)
  else
    let '(category, transient) := HTTPStatusCategory status in
    let category := if negb transient then CategoryUnsupportedOrigin else category in
    Ok (unavailable source category (ParseRetryAfter ParseTime (RetryAfter response) (clock w))).

(** The loop of [Verify], by recursion on the redirects left. *)
Fixpoint verify_loop (source : Origin) (left : nat) (current : URL) (w : W) : W * res error Result :=
  match get w current with
  | (w', Err err) => (w', get_failed source err w')
  | (w', Ok None) => (w', Ok (unavailable source CategoryTransport 0))
  | (w', Ok (Some response)) =>
      match Body response with
      | None => (w', Ok (unavailable source CategoryTransport 0))
      | Some body =>
          if isDeclarationRedirect (StatusCode response) then
            match left with
            | O => (w', Ok (unavailable source CategoryUnsupportedOrigin 0))
            | S left' =>
                match declarationRedirectTarget current response source with
                | Ok next => verify_loop source left' next w'
                | Err redirectError =>
                    (w', Ok (if errors_Is redirectError errCrossOriginDeclarationRedirect
                             then outcome_result source OutcomeCrossOriginRedirect
                             else unavailable source CategoryMalformedOrigin 0))
                end
            end
          else (w', final_result source response body w')
      end
  end.
End Verify.

(** [Verify], for a non-nil verifier and clock. An origin whose well-known URL
    does not parse gives the getter a nil target, which the checker rejects. *)
Definition Verify `{NetURL} `{NetIP} `{IDNA} {W} (ParseTime : bytes -> option Z) (clock : W -> Z)
    (ctx : option (W -> option error)) (source : Origin)
    (getter : option (call W URL (res error (option Response)))) (w : W) : W * res error Result :=
  match ctx with
  | None => (w, Err (errors_New errInvalidDeclarationContext))
  | Some ctxErr =>
      match ctxErr w with
      | Some err => (w, Err err)
      | None =>
          if bytes_eqb (origin_String source) [] then (w, Err (errors_New errInvalidDeclarationOrigin))
          else
            match getter with
            | None => (w, Err (errors_New errDeclarationGetterUnavailable))
            | Some get =>
                match url_Parse (origin_String source ++ WellKnownPath) with
                | None => (w, get_failed ctxErr source (errors_New errInvalidHTTPTarget) w)
                | Some current =>
                    verify_loop ParseTime get ctxErr clock source maxDeclarationRedirects current w
                end
            end
      end
  end.

(** ** The contract with the store

    [validVerificationResult] of [internal/store/store.go]: every Go value of
    type [Outcome] or [Identity] the program builds is one of the constants. *)

Definition validVerificationResult (r : Result) : bool :=
  if bool_decide (result_Outcome r = OutcomeValid) then
    (Version (result_Declaration r) =? 1)
    && bool_decide (result_FailureCategory r = CategoryNone) && (result_RetryAfter r =? 0)
  else if bool_decide (result_Declaration r <> zero_declaration) then false
  else if bool_decide (result_Outcome r <> OutcomeUnavailable) then
    bool_decide (result_FailureCategory r = CategoryNone) && (result_RetryAfter r =? 0)
  else Valid (result_FailureCategory r) && (0 <=? result_RetryAfter r) && (result_RetryAfter r <=? MaxDelay).

(** ** Facts *)

(** A result about [source] that the store accepts. *)
Definition accepted (source : Origin) (r : Result) : Prop :=
  result_Origin r = source /\ validVerificationResult r = true.

Lemma accepted_outcome source o : o <> OutcomeValid -> o <> OutcomeUnavailable -> accepted source (outcome_result source o).
Proof. intros Hv Hu. split; [done|]. unfold validVerificationResult. cbn [result_Outcome outcome_result]. by destruct o. Qed.

Lemma accepted_unavailable source category retryAfter :
  Valid category = true -> 0 <= retryAfter <= MaxDelay -> accepted source (unavailable source category retryAfter).
Proof.
  intros Hc Hr. split; [done|]. unfold validVerificationResult.
  cbn [result_Outcome result_Declaration result_FailureCategory result_RetryAfter unavailable].
  rewrite !bool_decide_eq_false_2 by (by intros ?). rewrite Hc.
  replace (0 <=? retryAfter) with true by lia. by replace (retryAfter <=? MaxDelay) with true by lia.
Qed.

Lemma accepted_valid source i : accepted source (mkResult OutcomeValid source (mkDeclaration 1 i) CategoryNone 0).
Proof.
  split; [done|]. unfold validVerificationResult.
  cbn [result_Outcome result_Declaration Version result_FailureCategory result_RetryAfter].
  by rewrite !bool_decide_eq_true_2.
Qed.

Lemma zero_delay : 0 <= 0 <= MaxDelay.
Proof. by vm_compute. Qed.

Lemma FailureCategory_Valid err : Valid (FailureCategory err) = true.
Proof. unfold FailureCategory. by repeat case_head. Qed.

Lemma readDeclarationBody_spec body :
  readDeclarationBody body =
  match body with
  | None => Err (wrap (errors_New (foreign 0)))
  | Some stream =>
      if Declaration.MaxBodySize <? Z.of_nat (length stream) then Err (errors_New errDeclarationBodyTooLarge) else Ok stream
  end.
Proof.
  unfold readDeclarationBody. destruct body as [stream|]; [|done]. cbv zeta. rewrite length_take.
  destruct (Z.ltb_spec Declaration.MaxBodySize (Z.of_nat (length stream))) as [Hl|Hl];
    destruct (Z.ltb_spec Declaration.MaxBodySize (Z.of_nat (Z.to_nat (Declaration.MaxBodySize + 1) `min` length stream)));
    unfold Declaration.MaxBodySize in *; [done|lia|lia|]. by rewrite take_ge by lia.
Qed.

(** A request and what the getter returned for it. *)
Definition exchange : Type := URL * res error (option Response).

Section VerifyFacts.
Context `{NetURL} `{NetIP} `{IDNA} {W : Type}.
Variable ParseTime : bytes -> option Z.
Variable get : call W URL (res error (option Response)).
Variable ctxErr : W -> option error.
Variable clock : W -> Z.

(** A getter that keeps every request with its reply. *)
Definition recorded : call (W * list exchange) URL (res error (option Response)) :=
  fun '(w, log) u => let '(w', reply) := get w u in ((w', log ++ [(u, reply)]), reply).

(** The category of a failed request. *)
Definition failed_category (e : error) : Category :=
  if errors_Is e ErrTemporary then CategoryRobotsTemporary
  else if bool_decide (FailureCategory e = CategoryUnsupportedOrigin) then CategoryTransport else FailureCategory e.

(** The category of a final status that is neither 2xx nor 404 nor 410. *)
Definition final_category (status : Z) : Category :=
  let '(category, transient) := HTTPStatusCategory status in if transient then category else CategoryUnsupportedOrigin.

(** Where a redirect leads, if anywhere. *)
Definition leads_to (current : URL) (response : Response) (next : URL) (o : Origin) : Prop :=
  Location response <> [] /\ (exists t, url_ParseRef current (Location response) = Some t /\ next = set_no_fragment t)
  /\ Origin.Parse (url_String next) = Ok o.

Definition is_success (response : Response) : Prop := 200 <= StatusCode response <= 299.

(** The verdict on [source] that the reply to the last request gives, after
    [redirects] redirects and at the time of [w]. *)
Inductive verdict (source : Origin) (redirects : nat) (current : URL) (w : W) : res error (option Response) -> Result -> Prop :=
| verdict_valid response stream i :
    is_success response -> Body response = Some (Some stream) ->
    Z.of_nat (length stream) <= Declaration.MaxBodySize -> Declaration.Parse stream = valid i ->
    verdict source redirects current w (Ok (Some response)) (mkResult OutcomeValid source (mkDeclaration 1 i) CategoryNone 0)
| verdict_unsupported response stream :
    is_success response -> Body response = Some (Some stream) ->
    Z.of_nat (length stream) <= Declaration.MaxBodySize -> Declaration.Parse stream = unsupported ->
    verdict source redirects current w (Ok (Some response)) (outcome_result source OutcomeUnsupportedVersion)
| verdict_invalid response stream :
    is_success response -> Body response = Some (Some stream) ->
    Z.of_nat (length stream) <= Declaration.MaxBodySize -> Declaration.Parse stream = invalid ->
    verdict source redirects current w (Ok (Some response)) (outcome_result source OutcomeInvalid)
| verdict_too_large response stream :
    is_success response -> Body response = Some (Some stream) -> Declaration.MaxBodySize < Z.of_nat (length stream) ->
    verdict source redirects current w (Ok (Some response)) (outcome_result source OutcomeInvalid)
| verdict_unreadable response :
    is_success response -> Body response = Some None ->
    verdict source redirects current w (Ok (Some response)) (unavailable source CategoryTransport 0)
| verdict_absent response :
    StatusCode response = 404 \/ StatusCode response = 410 -> Body response <> None ->
    verdict source redirects current w (Ok (Some response)) (outcome_result source OutcomeAbsent)
| verdict_status response :
    ~ is_success response -> isDeclarationRedirect (StatusCode response) = false ->
    StatusCode response <> 404 -> StatusCode response <> 410 -> Body response <> None ->
    verdict source redirects current w (Ok (Some response))
      (unavailable source (final_category (StatusCode response)) (ParseRetryAfter ParseTime (RetryAfter response) (clock w)))
| verdict_no_response reply :
    reply = Ok None \/ (exists response, reply = Ok (Some response) /\ Body response = None) ->
    verdict source redirects current w reply (unavailable source CategoryTransport 0)
| verdict_denied e :
    errors_Is e ErrDisallowed = true -> verdict source redirects current w (Err e) (outcome_result source OutcomeRobotsDenied)
| verdict_failed e :
    errors_Is e ErrDisallowed = false -> verdict source redirects current w (Err e) (unavailable source (failed_category e) 0)
| verdict_redirects response :
    isDeclarationRedirect (StatusCode response) = true -> Body response <> None -> redirects = maxDeclarationRedirects ->
    verdict source redirects current w (Ok (Some response)) (unavailable source CategoryUnsupportedOrigin 0)
| verdict_cross_origin response next o :
    isDeclarationRedirect (StatusCode response) = true -> Body response <> None -> (redirects < maxDeclarationRedirects)%nat ->
    leads_to current response next o -> o <> source ->
    verdict source redirects current w (Ok (Some response)) (outcome_result source OutcomeCrossOriginRedirect)
| verdict_bad_redirect response :
    isDeclarationRedirect (StatusCode response) = true -> Body response <> None -> (redirects < maxDeclarationRedirects)%nat ->
    (forall next o, ~ leads_to current response next o) ->
    verdict source redirects current w (Ok (Some response)) (unavailable source CategoryMalformedOrigin 0).

(** The replies after which the end of the context is looked at. *)
Definition interruptible (reply : res error (option Response)) : Prop :=
  match reply with
  | Err _ => True
  | Ok None => False
  | Ok (Some response) =>
      is_success response
      /\ match Body response with
         | Some None => True
         | Some (Some stream) => Declaration.MaxBodySize < Z.of_nat (length stream)
         | None => False
         end
  end.

(** How a run ends after its last request: with the verdict of the reply, or
    with the context's error. *)
Definition ends (source : Origin) (redirects : nat) (current : URL) (w : W) (reply : res error (option Response))
    (r : res error Result) : Prop :=
  match r with
  | Ok res => verdict source redirects current w reply res
  | Err e => ctxErr w = Some e /\ interruptible reply
  end.

(** A URL the verifier may follow a redirect to. *)
Definition same_origin (source : Origin) (u : URL) : Prop :=
  Fragment u = [] /\ RawFragment u = [] /\ Origin.Parse (url_String u) = Ok source.

(** The redirects followed from one request to the last one: each within the
    origin, to where its reply said. *)
Inductive follows (source : Origin) : URL -> list exchange -> URL -> Prop :=
| follows_none u : follows source u [] u
| follows_redirect u response next rest last :
    isDeclarationRedirect (StatusCode response) = true -> Body response <> None ->
    leads_to u response next source -> same_origin source next -> follows source next rest last ->
    follows source u ((u, Ok (Some response)) :: rest) last.

Lemma declarationRedirectTarget_spec current response source :
  match declarationRedirectTarget current response source with
  | Ok next => leads_to current response next source /\ same_origin source next
  | Err e =>
      if errors_Is e errCrossOriginDeclarationRedirect
      then exists next o, leads_to current response next o /\ o <> source
      else forall next o, ~ leads_to current response next o
  end.
Proof.
  unfold declarationRedirectTarget, leads_to. destruct (bytes_eqb_spec (Location response) []) as [He|Hne].
  { cbn. by intros next o [? _]. }
  destruct (url_ParseRef current _) as [u|] eqn:Hu; [|cbn; intros next o (_ & (t & [=] & _) & _)].
  destruct (Origin.Parse (url_String (set_no_fragment u))) as [o|] eqn:Ho.
  - case_bool_decide as Hso.
    + cbn. exists (set_no_fragment u), o. split; [|done]. split_and!; [done|by exists u|done].
    + assert (o = source) as -> by (by destruct (decide (o = source))).
      split; [split_and!; [done|by exists u|done]|done].
  - cbn. intros next o (_ & (t & [= <-] & ->) & Hp). congruence.
Qed.

Lemma get_failed_ends source redirects current e w :
  ends source redirects current w (Err e) (get_failed ctxErr source e w).
Proof.
  unfold get_failed, ends. destruct (ctxErr w) eqn:Hc; [done|]. destruct (errors_Is e ErrDisallowed) eqn:He.
  - by apply verdict_denied.
  - replace (if errors_Is e ErrTemporary then _ else _) with (failed_category e) by done. by apply verdict_failed.
Qed.

Lemma final_result_ends source redirects current response body w :
  Body response = Some body -> isDeclarationRedirect (StatusCode response) = false ->
  ends source redirects current w (Ok (Some response)) (final_result ParseTime ctxErr clock source response body w).
Proof.
  intros Hb Hnr. unfold final_result, ends.
  destruct ((200 <=? StatusCode response) && (StatusCode response <=? 299)) eqn:Hs.
  - assert (Hok : is_success response) by (unfold is_success; b2p; lia). rewrite readDeclarationBody_spec.
    destruct body as [stream|].
    2:{ cbn. rewrite Hb. destruct (ctxErr w); [done|]. by apply verdict_unreadable. }
    destruct (Z.ltb_spec Declaration.MaxBodySize (Z.of_nat (length stream))) as [Hl|Hl].
    { cbn. rewrite Hb. destruct (ctxErr w); [done|]. by eapply verdict_too_large. }
    destruct (Parse_cases stream) as [Hp|[Hp|[i Hp]]]; rewrite Hp; cbn.
    + by eapply verdict_invalid.
    + by eapply verdict_unsupported.
    + by eapply verdict_valid.
  - assert (Hno : ~ is_success response) by (unfold is_success; lia).
    destruct ((StatusCode response =? 404) || (StatusCode response =? 410)) eqn:Hg.
    { apply verdict_absent; [lia|by rewrite Hb]. }
    assert (Hb' : Body response <> None) by (by rewrite Hb).
    pose proof (verdict_status source redirects current w response Hno Hnr ltac:(lia) ltac:(lia) Hb') as Hv.
    unfold final_category in Hv. destruct (HTTPStatusCategory _) as [category transient]. by destruct transient.
Qed.

Lemma verdict_accepted source redirects current w reply r : verdict source redirects current w reply r -> accepted source r.
Proof.
  destruct 1; try (by apply accepted_outcome); try apply accepted_valid;
    (apply accepted_unavailable; [|first [exact zero_delay|apply ParseRetryAfter_bounds]]); try done.
  - unfold final_category. pose proof (HTTPStatusCategory_valid (StatusCode response)) as Hv.
    destruct (HTTPStatusCategory _) as [category []]; done.
  - unfold failed_category. case_head; [done|]. case_bool_decide; [done|apply FailureCategory_Valid].
Qed.

(** The requests of a run and their replies, and what they add up to. *)
Definition run_of (source : Origin) (redirects : nat) (current : URL) (w : W) (log : list exchange) (r : res error Result) : Prop :=
  exists before last reply, log = before ++ [(last, reply)] /\ follows source current before last
    /\ (redirects + length before <= maxDeclarationRedirects)%nat
    /\ ends source (redirects + length before) last w reply r.

Lemma run_of_one source redirects current w reply r : (redirects <= maxDeclarationRedirects)%nat ->
  ends source redirects current w reply r -> run_of source redirects current w [(current, reply)] r.
Proof.
  intros Hle He. exists [], current, reply. cbn [length]. rewrite Nat.add_0_r. split_and!; [done|constructor|done|done].
Qed.
End VerifyFacts.

Section VerifyRuns.
Context `{NetURL} `{NetIP} `{IDNA} {W : Type}.
Variable ParseTime : bytes -> option Z.
Variable get : call W URL (res error (option Response)).
Variable ctxErr : W -> option error.
Variable clock : W -> Z.

Lemma verify_loop_trace source left redirects current w log w' log' r :
  (redirects + left = maxDeclarationRedirects)%nat ->
  verify_loop ParseTime (recorded get) (ctx_lift ctxErr) (fun w => clock (fst w)) source left current (w, log)
  = ((w', log'), r) ->
  exists added, log' = log ++ added /\ run_of ParseTime ctxErr clock source redirects current w' added r.
Proof.
  revert redirects current w log. induction left as [|left IH]; intros redirects current w log Hn; cbn [verify_loop];
    unfold recorded at 1; destruct (get w current) as [w1 reply]; destruct reply as [[response|]|e].
  2,5: intros [[<- <-]%pair_equal_spec <-]%pair_equal_spec; eexists; split; [done|]; apply run_of_one; [lia|];
    apply verdict_no_response; by left.
  2,4: intros [[<- <-]%pair_equal_spec <-]%pair_equal_spec; eexists; split; [done|]; apply run_of_one; [lia|];
    apply (get_failed_ends _ ctxErr).
  1,2: destruct (Body response) as [body|] eqn:Hb;
    [|intros [[<- <-]%pair_equal_spec <-]%pair_equal_spec; eexists; split; [done|]; apply run_of_one; [lia|];
      apply verdict_no_response; right; by exists response].
  1,2: destruct (isDeclarationRedirect (StatusCode response)) eqn:Hr;
    [|intros [[<- <-]%pair_equal_spec <-]%pair_equal_spec; eexists; split; [done|]; apply run_of_one; [lia|];
      by apply (final_result_ends ParseTime ctxErr clock)].
  - intros [[<- <-]%pair_equal_spec <-]%pair_equal_spec. eexists. split; [done|]. apply run_of_one; [lia|].
    apply verdict_redirects; [done|by rewrite Hb|lia].
  - pose proof (declarationRedirectTarget_spec current response source) as Ht.
    destruct (declarationRedirectTarget current response source) as [next|e].
    + destruct Ht as [Hto Hsame]. intros (added & -> & before & last & reply & -> & Hf & Hle & He)%(IH (S redirects)); [|lia].
      exists ((current, Ok (Some response)) :: before ++ [(last, reply)]). split; [by rewrite <- app_assoc|].
      exists ((current, Ok (Some response)) :: before), last, reply. cbn [length]. rewrite Nat.add_succ_r.
      split_and!; [done| |lia|done]. eapply follows_redirect; [done|by rewrite Hb|done..].
    + intros [[<- <-]%pair_equal_spec <-]%pair_equal_spec. eexists. split; [done|]. apply run_of_one; [lia|]. cbn [ends].
      destruct (errors_Is e errCrossOriginDeclarationRedirect).
      * destruct Ht as (next & o & Hto & Hne). eapply verdict_cross_origin; [done|by rewrite Hb|lia|done|done].
      * apply verdict_bad_redirect; [done|by rewrite Hb|lia|done].
Qed.

Lemma get_failed_accepted source e (w : W) r : get_failed ctxErr source e w = Ok r -> accepted source r.
Proof.
  unfold get_failed. destruct (ctxErr w); [done|]. case_head; intros [= <-]; [by apply accepted_outcome|].
  apply accepted_unavailable; [|exact zero_delay]. case_head; [done|]. cbv zeta. case_bool_decide; [done|apply FailureCategory_Valid].
Qed.

Lemma verify_loop_accepted source left current w w' r :
  verify_loop ParseTime get ctxErr clock source left current w = (w', Ok r) -> accepted source r.
Proof.
  assert (Hone : forall redirects u (w : W) reply res, ends ParseTime ctxErr clock source redirects u w reply (Ok res) -> accepted source res)
    by (intros ? ? ? ? ?; apply verdict_accepted).
  revert current w. induction left as [|left IH]; intros current w; cbn [verify_loop];
    destruct (get w current) as [w1 [[response|]|e]].
  2,5: intros [= <- <-]; apply accepted_unavailable; [done|exact zero_delay].
  2,4: intros [= <- Hr]; by eapply get_failed_accepted.
  all: destruct (Body response) as [body|] eqn:Hb; [|intros [= <- <-]; apply accepted_unavailable; [done|exact zero_delay]].
  all: destruct (isDeclarationRedirect (StatusCode response)) eqn:Hnr;
    [|intros [= <- Hr]; apply (Hone O current w1 (Ok (Some response))); rewrite <- Hr; by apply final_result_ends].
  - intros [= <- <-]. apply accepted_unavailable; [done|exact zero_delay].
  - destruct (declarationRedirectTarget current response source) as [next|e]; [apply IH|].
    intros [= <- <-]. case_head; [by apply accepted_outcome|apply accepted_unavailable; [done|exact zero_delay]].
Qed.

(** What [Verify] promises its caller about a result. *)
Lemma Verify_accepted source w w' r :
  Verify ParseTime clock (Some ctxErr) source (Some get) w = (w', Ok r) ->
  result_Origin r = source /\ validVerificationResult r = true.
Proof.
  unfold Verify. destruct (ctxErr w); [done|]. case_head; [done|]. destruct (url_Parse _) as [current|] eqn:Hu.
  - apply verify_loop_accepted.
  - intros [= _ Hr]. apply (get_failed_accepted _ _ _ _ Hr).
Qed.

(** C8: Verification of an origin is decided by what was fetched. It makes at
    most six requests, the first for the origin's well-known URL and each later
    one for the fragment-free target, within the same origin, of the redirect
    that answered the one before, so no other origin can speak for it. The
    result is the one the reply to the last request calls for, case by case:
    valid exactly when that reply is a 2xx document within the size limit that
    parses as valid, with the identity it declares; invalid, unsupported,
    absent, denied by robots.txt, redirected to another origin or unavailable
    with the category of the failure in the other cases. Every result is about
    that origin and is one the store accepts; a Go error is the context's own
    error, and only after a request or a read that failed. *)
Theorem Verify_correct source (w : W) w' log r :
  ctxErr w = None -> origin_String source <> [] ->
  Verify ParseTime (fun w => clock (fst w)) (Some (ctx_lift ctxErr)) source (Some (recorded get)) (w, [])
  = ((w', log), r) ->
  (length log <= 6)%nat
  /\ (forall res, r = Ok res -> result_Origin res = source /\ validVerificationResult res = true)
  /\ match url_Parse (origin_String source ++ WellKnownPath) with
     | None => log = [] /\ exists category, r = Ok (unavailable source category 0)
     | Some first =>
         exists before last reply, log = before ++ [(last, reply)] /\ follows source first before last
           /\ ends ParseTime ctxErr clock source (length before) last w' reply r
     end.
Proof.
  intros Hctx Hsrc. unfold Verify. unfold ctx_lift at 1. cbn [fst]. rewrite Hctx.
  destruct (bytes_eqb_spec (origin_String source) []) as [|_]; [done|].
  destruct (url_Parse _) as [current|].
  - intros (added & -> & before & last & reply & -> & Hf & Hle & He)%(verify_loop_trace _ _ O); [|done]. cbn [app].
    split_and!; [rewrite length_app; unfold maxDeclarationRedirects in Hle; cbn in *; lia| |by eexists _, _, _].
    intros res ->. by eapply (verdict_accepted ParseTime).
  - unfold get_failed, ctx_lift. cbn [fst]. rewrite Hctx. intros [= <- <- <-]. split_and!; [cbn; lia| |done|by eauto].
    intros res [= <-]. apply accepted_unavailable; [|exact zero_delay]. by vm_compute.
Qed.
End VerifyRuns.

Module VerifierWitnesses.
Import Concrete.

Definition example_origin : Origin := mkOrigin (bs "https://example.org") (bs "example.org") 443.
Definition document_text : bytes :=
  [("{")%char; quote] ++ bs "version" ++ [quote] ++ bs ":1," ++ [quote] ++ bs "josh" ++ [quote] ++ bs ":true}".

(** A server that redirects within the origin and then serves a declaration. *)
Definition example_get : call nat URL (res error (option Response)) :=
  fun n _ =>
    (S n, Ok (Some (match n with
                    | O => mkResponse 301 (bs "/josh.json") [] [] (Some (Some []))
                    | S _ => mkResponse 200 [] [] [] (Some (Some document_text))
                    end))).

Definition example_run : (nat * list exchange) * res error Result :=
  Verify (fun _ => None) (fun _ => 0) (Some (ctx_lift (fun _ => None))) example_origin
    (Some (recorded example_get)) (0%nat, []).

Lemma Verify_correct_witness :
  snd example_run = Ok (mkResult OutcomeValid example_origin (mkDeclaration 1 IdentityAffirmed) CategoryNone 0)
  /\ (length (snd (fst example_run)) <= 6)%nat.
Proof.
  split; [by vm_compute|]. destruct example_run as [[w log] r] eqn:Hrun. cbn [fst snd].
  apply (Verify_correct (fun _ => None) example_get (fun _ => None) (fun _ => 0) example_origin
           0%nat w log r eq_refl ltac:(done) Hrun).
Defined.
End VerifierWitnesses.
