(* ===== verification/Discovery.v ===== *)
(** * Link discovery on one page ([internal/discovery/discovery.go])

    The links of a bounded HTML page: internal URLs, canonical and in document
    order, and the other origins it links to. The HTML parser, the character
    decoder and the media-type functions of the libraries are interfaces; a
    document is the sequence of its nodes in document order. *)

From S2P Require Import Prelude GoText GoUrl GoErrors GoNetip Origin RequestScheduler RobotsHTTP.

#[local] Set Warnings "-clear-no-such-hyp".

Definition MaxRawBody : Z := 1024 * 1024.
Definition MaxDecodedBody : Z := 2 * 1024 * 1024.

Inductive Kind : Type := KindLink | KindRedirect.

Inductive Status : Type :=
| StatusComplete | StatusRedirected | StatusRobotsDenied | StatusUnavailable
| StatusUnsupportedContent | StatusTooLarge.

Record Candidate : Type := mkCandidate { candidate_Origin : Origin; candidate_Kind : Kind }.

Record PageLinks : Type := mkLinks { Internal : list URL; Candidates : list Candidate }.

Definition no_links : PageLinks := mkLinks [] [].

(** ** The libraries *)

(** A node of a parsed document: whether it is an element, its tag and its
    attributes. *)
Record Node : Type := mkNode { is_element : bool; Data : bytes; Attr : list (bytes * bytes) }.

Class HTMLLibrary := {
  (** [html.Parse]; the nodes are [document.Descendants()]. *)
  parseHTMLDocument : bytes -> option (list Node);
  (** [charset.NewReader] on a body: [None] if it fails; otherwise the decoded
      stream, [None] if reading it fails. *)
  charset_NewReader : bytes -> bytes -> option (option bytes);
  DetectContentType : bytes -> bytes;
  (** [mime.ParseMediaType]: the media type, lower-case ASCII. *)
  ParseMediaType : bytes -> option bytes;
}.

(** ** Bounded reads *)

(** [readBounded] on a stream; [None] is a failed read. *)
Definition readBounded (stream : option bytes) (limit : Z) : res unit (bytes * bool) :=
  match stream with
  | None => Err tt
  | Some content =>
      let data := take (Z.to_nat (limit + 1)) content in
      if limit <? Z.of_nat (length data) then Ok ([], true) else Ok (data, false)
  end.

Definition isRedirectStatus (status : Z) : bool :=
  (status =? 301) || (status =? 302) || (status =? 303) || (status =? 307) || (status =? 308).

Fixpoint attributeValue (attributes : list (bytes * bytes)) (name : bytes) : option bytes :=
  match attributes with
  | [] => None
  | (key, value) :: rest => if bytes_eqb key name then Some value else attributeValue rest name
  end.

Section Page.
Context `{NetURL} `{NetIP} `{IDNA} `{HTMLLibrary}.

Definition isHTMLContentType (contentType : bytes) : bool :=
  match ParseMediaType contentType with
  | None => false
  | Some mediaType =>
      bytes_eqb (map to_lower mediaType) (bs "text/html")
      || bytes_eqb (map to_lower mediaType) (bs "application/xhtml+xml")
  end.

(** [decodeHTML] *)
Definition decodeHTML (body contentType : bytes) : res unit (bytes * bool) :=
  match charset_NewReader body contentType with
  | None => Err tt
  | Some stream => readBounded stream MaxDecodedBody
  end.

(** [canonicalPageURL]; the serialization of an origin always parses. *)
Definition canonicalPageURL (source : Origin) (pageURL : URL) : URL :=
  match url_Parse (origin_String source) with
  | None => pageURL
  | Some sourceURL =>
      mkURL (Scheme sourceURL) (Opaque pageURL) None (Host sourceURL)
        (bs "/" ++ TrimPrefix (Path pageURL) (bs "/")) (RawPath pageURL)
        (ForceQuery pageURL) (RawQuery pageURL) [] []
  end.

(** The redirect target of [internal/discovery], which parses the reference
    before it resolves it. *)
Definition redirectTarget (current : URL) (response : Response) : res error URL :=
  if bytes_eqb (Location response) [] then Err (errors_New errInvalidPageURL)
  else
    match url_Parse (Location response) with
    | None => Err (errors_New errInvalidPageURL)
    | Some reference =>
        let next := set_no_fragment (url_ResolveReference current reference) in
        match Origin.Parse (url_String next) with
        | Err _ => Err (errors_New errInvalidPageURL)
        | Ok _ => Ok next
        end
    end.

(** [documentBaseURL]: the first [base] element with an [href]. *)
Fixpoint documentBaseURL (document : list Node) (pageURL : URL) : URL :=
  match document with
  | [] => pageURL
  | node :: rest =>
      if negb (is_element node) || negb (bytes_eqb (Data node) (bs "base"))
      then documentBaseURL rest pageURL
      else
        match attributeValue (Attr node) (bs "href") with
        | None => documentBaseURL rest pageURL
        | Some href =>
            match url_Parse (TrimSpace href) with
            | None => pageURL
            | Some reference =>
                let resolved := url_ResolveReference pageURL reference in
                match Origin.Parse (url_String resolved) with
                | Err _ => pageURL
                | Ok _ => resolved
                end
            end
        end
  end.

(** The destination of a hyperlink node: its URL and origin. *)
Definition hyperlink (baseURL : URL) (node : Node) : option (URL * Origin) :=
  if negb (is_element node) || negb (bytes_eqb (Data node) (bs "a") || bytes_eqb (Data node) (bs "area"))
  then None
  else
    match attributeValue (Attr node) (bs "href") with
    | None => None
    | Some href =>
        match url_Parse (TrimSpace href) with
        | None => None
        | Some reference =>
            let resolved := set_no_fragment (url_ResolveReference baseURL reference) in
            match Origin.Parse (url_String resolved) with
            | Err _ => None
            | Ok destination => Some (resolved, destination)
            end
        end
    end.

(** The state of the loop over the document. *)
Record link_state : Type := mkLinkState {
  internalSeen : gset bytes;
  candidateSeen : gset Origin;
  found : PageLinks;
}.

(** One node of the loop of [extractPageLinks]. *)
Definition extract_node (source : Origin) (baseURL : URL) (st : link_state) (node : Node) : link_state :=
  match hyperlink baseURL node with
  | None => st
  | Some (resolved, destination) =>
      if bool_decide (destination = source) then
        let internal := canonicalPageURL source resolved in
        let canonical := url_String internal in
        if bool_decide (canonical ∈ internalSeen st) then st
        else mkLinkState ({[ canonical ]} ∪ internalSeen st) (candidateSeen st)
               (mkLinks (Internal (found st) ++ [internal]) (Candidates (found st)))
      else if bool_decide (destination ∈ candidateSeen st) then st
      else mkLinkState (internalSeen st) ({[ destination ]} ∪ candidateSeen st)
             (mkLinks (Internal (found st)) (Candidates (found st) ++ [mkCandidate destination KindLink]))
  end.

Definition extractPageLinks (source : Origin) (pageURL : option URL) (contentType body : bytes)
    : res error (PageLinks * Status) :=
  if bytes_eqb (origin_String source) [] then Err (errors_New errInvalidSource)
  else
    match pageURL with
    | None => Err (errors_New errInvalidPageURL)
    | Some pageURL =>
        match Origin.Parse (url_String pageURL) with
        | Err _ => Err (errors_New errInvalidPageURL)
        | Ok pageOrigin =>
            if bool_decide (pageOrigin <> source) then Err (errors_New errInvalidPageURL)
            else if MaxRawBody <? Z.of_nat (length body) then Ok (no_links, StatusTooLarge)
            else
              let effectiveContentType :=
                if bytes_eqb contentType [] then DetectContentType body else contentType in
              if negb (isHTMLContentType effectiveContentType) then Ok (no_links, StatusUnsupportedContent)
              else
                match decodeHTML body effectiveContentType with
                | Err _ => Ok (no_links, StatusUnavailable)
                | Ok (_, true) => Ok (no_links, StatusTooLarge)
                | Ok (decoded, false) =>
                    match parseHTMLDocument decoded with
                    | None => Ok (no_links, StatusUnavailable)
                    | Some document =>
                        let baseURL := documentBaseURL document pageURL in
                        let st := fold_left (extract_node source baseURL) document
                                    (mkLinkState ∅ ∅ no_links) in
                        Ok (found st, StatusComplete)
                    end
                end
        end
    end.

(** The order of [sort.Slice]: candidates by the serialization of their
    origin, which identifies it. *)
Definition candidate_le (a b : Candidate) : Prop :=
  string_less (origin_String (candidate_Origin b)) (origin_String (candidate_Origin a)) = false.

#[export] Instance candidate_le_dec : RelDecision candidate_le.
Proof. intros a b. unfold candidate_le. apply _. Defined.

Definition ExtractPageLinks (source : Origin) (pageURL : option URL) (contentType body : bytes)
    : res error (PageLinks * Status) :=
  match extractPageLinks source pageURL contentType body with
  | Err err => Err err
  | Ok (links, status) => Ok (mkLinks (Internal links) (merge_sort candidate_le (Candidates links)), status)
  end.
End Page.

(** * Correctness of link discovery on one page *)

From S2P Require Import Netguard.

(** A URL on the source's own scheme and host: no credentials, no fragment, an
    absolute path. *)
Definition on_source (sourceURL u : URL) : Prop :=
  Scheme u = Scheme sourceURL /\ Host u = Host sourceURL /\ User u = None
  /\ Fragment u = [] /\ RawFragment u = [] /\ exists rest, Path u = bs "/" ++ rest.

Section Facts.
Context `{NetURL} `{NetIP} `{IDNA} `{HTMLLibrary}.

Lemma canonicalPageURL_on_source source sourceURL u :
  url_Parse (origin_String source) = Some sourceURL -> on_source sourceURL (canonicalPageURL source u).
Proof. intros Hs. unfold canonicalPageURL. rewrite Hs. split_and!; try done. by eexists. Qed.

(** What the loop of [extractPageLinks] knows after a prefix of the document. *)
Record links_of (source : Origin) (baseURL : URL) (document : list Node) (links : PageLinks) : Prop := {
  internal_sound : forall u, u ∈ Internal links ->
    exists node r, node ∈ document /\ hyperlink baseURL node = Some (r, source) /\ u = canonicalPageURL source r;
  internal_complete : forall node r, node ∈ document -> hyperlink baseURL node = Some (r, source) ->
    url_String (canonicalPageURL source r) ∈ map url_String (Internal links);
  internal_NoDup : NoDup (map url_String (Internal links));
  candidate_iff : forall o, o ∈ map candidate_Origin (Candidates links) <->
    o <> source /\ exists node r, node ∈ document /\ hyperlink baseURL node = Some (r, o);
  candidate_NoDup : NoDup (map candidate_Origin (Candidates links));
  candidate_link : Forall (fun c => candidate_Kind c = KindLink) (Candidates links);
}.

(** The sets of the loop are those of the links found. *)
Definition seen_ok (st : link_state) : Prop :=
  (forall s, s ∈ internalSeen st <-> s ∈ map url_String (Internal (found st)))
  /\ (forall o, o ∈ candidateSeen st <-> o ∈ map candidate_Origin (Candidates (found st))).

(** A node that adds no link leaves the links those of the longer prefix. *)
Lemma links_of_skip source baseURL document node links :
  links_of source baseURL document links ->
  (forall r, hyperlink baseURL node = Some (r, source) ->
     url_String (canonicalPageURL source r) ∈ map url_String (Internal links)) ->
  (forall r o, o <> source -> hyperlink baseURL node = Some (r, o) -> o ∈ map candidate_Origin (Candidates links)) ->
  links_of source baseURL (document ++ [node]) links.
Proof.
  intros [Hs Hc Hn Hi Hd Hk] Hint Hcand. split; try done.
  - intros u (node' & r & ? & ?)%Hs. exists node', r. split; [|done]. apply elem_of_app. by left.
  - intros node' r [Hin| ->%list_elem_of_singleton]%elem_of_app; [by apply Hc|by apply Hint].
  - intros o. rewrite Hi. split.
    + intros (Hne & node' & r & ? & ?). split; [done|]. exists node', r. split; [|done]. apply elem_of_app. by left.
    + intros (Hne & node' & r & [Hin| ->%list_elem_of_singleton]%elem_of_app & Hh); [by eauto|].
      apply Hi. by eapply Hcand.
Qed.

Lemma elem_of_snoc {A} (x y : A) l : x ∈ l ++ [y] <-> x ∈ l \/ x = y.
Proof. by rewrite elem_of_app, list_elem_of_singleton. Qed.

Lemma NoDup_snoc {A} (x : A) l : NoDup l -> x ∉ l -> NoDup (l ++ [x]).
Proof.
  intros Hl Hx. apply NoDup_app. split_and!; [done| |apply NoDup_singleton].
  intros y Hy ->%list_elem_of_singleton. done.
Qed.

(** An internal link that was not seen before. *)
Lemma links_of_internal source baseURL document node links r :
  links_of source baseURL document links -> hyperlink baseURL node = Some (r, source) ->
  url_String (canonicalPageURL source r) ∉ map url_String (Internal links) ->
  links_of source baseURL (document ++ [node])
    (mkLinks (Internal links ++ [canonicalPageURL source r]) (Candidates links)).
Proof.
  intros [Hs Hc Hn Hi Hd Hk] Hh Hnew. split; cbn [Internal Candidates]; try done.
  - intros u [(node' & r' & ? & ?)%Hs| ->]%elem_of_snoc.
    + exists node', r'. split; [|done]. apply elem_of_snoc. by left.
    + exists node, r. split_and!; [|done|done]. apply elem_of_snoc. by right.
  - intros node' r' [Hin| ->]%elem_of_snoc Hh'; rewrite map_app; apply elem_of_snoc.
    + left. by eapply Hc.
    + right. rewrite Hh in Hh'. by injection Hh' as ->.
  - rewrite map_app. by apply NoDup_snoc.
  - intros o. rewrite Hi. split; intros (Hne & node' & r' & Hin & Hh'); (split; [done|]); exists node', r'.
    + split; [|done]. apply elem_of_snoc. by left.
    + apply elem_of_snoc in Hin as [Hin| ->]; [done|]. congruence.
Qed.

(** Another origin that was not seen before. *)
Lemma links_of_candidate source baseURL document node links r o :
  links_of source baseURL document links -> hyperlink baseURL node = Some (r, o) -> o <> source ->
  o ∉ map candidate_Origin (Candidates links) ->
  links_of source baseURL (document ++ [node])
    (mkLinks (Internal links) (Candidates links ++ [mkCandidate o KindLink])).
Proof.
  intros [Hs Hc Hn Hi Hd Hk] Hh Hne Hnew. split; cbn [Internal Candidates]; try done.
  - intros u (node' & r' & ? & ?)%Hs. exists node', r'. split; [|done]. apply elem_of_snoc. by left.
  - intros node' r' [Hin| ->]%elem_of_snoc Hh'; [by eapply Hc|]. congruence.
  - intros o'. rewrite map_app. cbn [map candidate_Origin]. rewrite elem_of_snoc, Hi. split.
    + intros [(Hne' & node' & r' & ? & ?)| ->]; (split; [done|]).
      * exists node', r'. split; [|done]. apply elem_of_snoc. by left.
      * exists node, r. split; [|done]. apply elem_of_snoc. by right.
    + intros (Hne' & node' & r' & [Hin| ->]%elem_of_snoc & Hh'); [left; by eauto|]. right. congruence.
  - rewrite map_app. by apply NoDup_snoc.
  - apply Forall_app. split; [done|by constructor].
Qed.

Lemma extract_node_ok source baseURL document st node :
  links_of source baseURL document (found st) -> seen_ok st ->
  links_of source baseURL (document ++ [node]) (found (extract_node source baseURL st node))
  /\ seen_ok (extract_node source baseURL st node).
Proof.
  intros Hl [Hsi Hsc]. unfold extract_node. destruct (hyperlink baseURL node) as [[r o]|] eqn:Hh.
  2:{ split; [|done]. apply links_of_skip; [done|congruence|congruence]. }
  destruct (decide (o = source)) as [->|Hne].
  - rewrite bool_decide_eq_true_2 by done. cbv zeta. case_bool_decide as Hseen.
    { split; [|done]. apply links_of_skip; [done| |congruence]. intros r' Hr'. rewrite Hh in Hr'.
      injection Hr' as <-. by apply Hsi. }
    split; [apply links_of_internal; [done|done|by rewrite <- Hsi]|].
    split; cbn [internalSeen candidateSeen found Internal Candidates]; [|done].
    intros s. rewrite map_app, elem_of_union, elem_of_singleton, Hsi. cbn [map]. rewrite elem_of_snoc. tauto.
  - rewrite bool_decide_eq_false_2 by done. case_bool_decide as Hseen.
    { split; [|done]. apply links_of_skip; [done|congruence|]. intros r' o' _ Hr'. rewrite Hh in Hr'.
      injection Hr' as _ <-. by apply Hsc. }
    split; [apply (links_of_candidate _ _ _ _ _ r); [done|done|done|by rewrite <- Hsc]|].
    split; cbn [internalSeen candidateSeen found Internal Candidates]; [done|].
    intros o'. rewrite map_app, elem_of_union, elem_of_singleton, Hsc. cbn [map candidate_Origin].
    rewrite elem_of_snoc. tauto.
Qed.

Lemma extract_document_ok source baseURL document :
  let st := fold_left (extract_node source baseURL) document (mkLinkState ∅ ∅ no_links) in
  links_of source baseURL document (found st) /\ seen_ok st.
Proof.
  cbv zeta. induction document as [|node document [IHl IHs]] using rev_ind.
  - cbn [fold_left found]. split.
    + split; cbn [no_links Internal Candidates map]; try (by constructor).
      * by intros u ?%elem_of_nil.
      * by intros node r ?%elem_of_nil.
      * intros o. split; [by intros ?%elem_of_nil|]. by intros (_ & node & r & ?%elem_of_nil & _).
    + split; cbn; intros x; rewrite elem_of_empty; split; try done; by intros ?%elem_of_nil.
  - rewrite fold_left_app. cbn [fold_left]. by apply extract_node_ok.
Qed.

(** Sorting the candidates keeps them. *)
Lemma links_of_sorted source baseURL document links :
  links_of source baseURL document links ->
  links_of source baseURL document (mkLinks (Internal links) (merge_sort candidate_le (Candidates links))).
Proof.
  intros [Hs Hc Hn Hi Hd Hk]. pose proof (merge_sort_Permutation candidate_le (Candidates links)) as Hp.
  split; cbn [Internal Candidates]; try done.
  - intros o. by rewrite Hp.
  - by rewrite Hp.
  - by rewrite Hp.
Qed.

#[export] Instance candidate_le_total : Total candidate_le.
Proof.
  intros a b. unfold candidate_le, string_less.
  rewrite (bytes_compare_antisym (origin_String (candidate_Origin b)) (origin_String (candidate_Origin a))).
  destruct (bytes_compare _ _); auto.
Qed.

Lemma ExtractPageLinks_spec source sourceURL pageURL contentType body links status :
  url_Parse (origin_String source) = Some sourceURL ->
  ExtractPageLinks source (Some pageURL) contentType body = Ok (links, status) ->
  match status with
  | StatusComplete =>
      exists decoded document,
        let mediaType := if bytes_eqb contentType [] then DetectContentType body else contentType in
        Z.of_nat (length body) <= MaxRawBody /\ isHTMLContentType mediaType = true
        /\ charset_NewReader body mediaType = Some (Some decoded) /\ Z.of_nat (length decoded) <= MaxDecodedBody
        /\ parseHTMLDocument decoded = Some document
        /\ links_of source (documentBaseURL document pageURL) document links
        /\ Forall (on_source sourceURL) (Internal links)
        /\ Sorted candidate_le (Candidates links)
  | _ => links = no_links
  end.
Proof.
  intros Hsrc. unfold ExtractPageLinks, extractPageLinks. case_head; [done|].
  destruct (Origin.Parse _) as [pageOrigin|]; [|done]. case_bool_decide; [done|].
  destruct (Z.ltb_spec MaxRawBody (Z.of_nat (length body))) as [|Hraw]; [by intros [= <- <-]|]. cbv zeta.
  set (mediaType := if bytes_eqb contentType [] then _ else _).
  destruct (isHTMLContentType mediaType) eqn:Hhtml; [|by intros [= <- <-]]. cbn [negb].
  unfold decodeHTML, readBounded. destruct (charset_NewReader body mediaType) as [[stream|]|] eqn:Hdec;
    [|by intros [= <- <-]|by intros [= <- <-]].
  destruct (Z.ltb_spec MaxDecodedBody (Z.of_nat (length (take (Z.to_nat (MaxDecodedBody + 1)) stream)))) as [|Hlen];
    [by intros [= <- <-]|].
  rewrite length_take in Hlen. rewrite take_ge by (unfold MaxDecodedBody in *; lia).
  destruct (parseHTMLDocument stream) as [document|] eqn:Hdoc; [|by intros [= <- <-]].
  intros [= <- <-]. exists stream, document.
  pose proof (extract_document_ok source (documentBaseURL document pageURL) document) as [Hl _].
  apply links_of_sorted in Hl. split_and!; try done.
  - unfold MaxDecodedBody in *. lia.
  - apply Forall_forall. intros u (node & r & _ & _ & ->)%Hl. by apply canonicalPageURL_on_source.
  - apply Sorted_merge_sort. apply _.
Qed.

(** Whatever the status, the candidates are distinct and not the source. *)
Lemma extract_candidates source sourceURL pageURL contentType body links status :
  url_Parse (origin_String source) = Some sourceURL ->
  ExtractPageLinks source (Some pageURL) contentType body = Ok (links, status) ->
  NoDup (map candidate_Origin (Candidates links)) /\ source ∉ map candidate_Origin (Candidates links).
Proof.
  intros Hs Hex. apply (ExtractPageLinks_spec _ _ _ _ _ _ _ Hs) in Hex. destruct status.
  1: { destruct Hex as (decoded & document & _ & _ & _ & _ & _ & Hl & _). split; [apply Hl|].
       intros Hin. apply (candidate_iff _ _ _ _ Hl) in Hin as [Hne _]. done. }
  all: rewrite Hex; split; [constructor|by intros ?%elem_of_nil].
Qed.

(** ** The status of a page *)

(** The media type of a response: as sent, or sniffed from the body. *)
Definition effective_type (contentType body : bytes) : bytes :=
  match contentType with [] => DetectContentType body | _ => contentType end.

Definition html_type (mediaType : bytes) : Prop :=
  exists t, ParseMediaType mediaType = Some t
    /\ (map to_lower t = bs "text/html" \/ map to_lower t = bs "application/xhtml+xml").

(** Raw bodies of up to one MiB and decoded ones of up to two are looked at. *)
Definition small (limit : Z) (body : bytes) : Prop := Z.of_nat (length body) <= limit * 1024 * 1024.

(** The status of a page, and its document when it has one. *)
Inductive page_outcome (mediaType body : bytes) : Status -> option (list Node) -> Prop :=
| page_too_large : ~ small 1 body -> page_outcome mediaType body StatusTooLarge None
| page_unsupported : small 1 body -> ~ html_type mediaType -> page_outcome mediaType body StatusUnsupportedContent None
| page_undecodable : small 1 body -> html_type mediaType ->
    charset_NewReader body mediaType = None \/ charset_NewReader body mediaType = Some None ->
    page_outcome mediaType body StatusUnavailable None
| page_decoded_too_large decoded : small 1 body -> html_type mediaType ->
    charset_NewReader body mediaType = Some (Some decoded) -> ~ small 2 decoded ->
    page_outcome mediaType body StatusTooLarge None
| page_unparsed decoded : small 1 body -> html_type mediaType ->
    charset_NewReader body mediaType = Some (Some decoded) -> small 2 decoded -> parseHTMLDocument decoded = None ->
    page_outcome mediaType body StatusUnavailable None
| page_complete decoded document : small 1 body -> html_type mediaType ->
    charset_NewReader body mediaType = Some (Some decoded) -> small 2 decoded ->
    parseHTMLDocument decoded = Some document ->
    page_outcome mediaType body StatusComplete (Some document).

Lemma isHTMLContentType_spec mediaType : isHTMLContentType mediaType = true <-> html_type mediaType.
Proof.
  unfold isHTMLContentType, html_type. destruct (ParseMediaType mediaType) as [t|]; [|naive_solver].
  destruct (bytes_eqb_spec (map to_lower t) (bs "text/html")), (bytes_eqb_spec (map to_lower t) (bs "application/xhtml+xml"));
    naive_solver.
Qed.

Lemma readBounded_spec stream limit : 0 <= limit ->
  readBounded (Some stream) limit = if limit <? Z.of_nat (length stream) then Ok ([], true) else Ok (stream, false).
Proof.
  intros Hl. unfold readBounded. rewrite length_take.
  destruct (Z.ltb_spec limit (Z.of_nat (length stream)));
    destruct (Z.ltb_spec limit (Z.of_nat (Z.to_nat (limit + 1) `min` length stream))); [done|lia|lia|].
  by rewrite take_ge by lia.
Qed.

(** What [extractPageLinks] returns for a page of the source. *)
Lemma extractPageLinks_outcome source pageURL contentType body :
  origin_String source <> [] -> Origin.Parse (url_String pageURL) = Ok source ->
  exists status document, page_outcome (effective_type contentType body) body status document
    /\ extractPageLinks source (Some pageURL) contentType body
       = Ok (match document with
             | Some document => found (fold_left (extract_node source (documentBaseURL document pageURL)) document (mkLinkState ∅ ∅ no_links))
             | None => no_links
             end, status).
Proof.
  intros Hne Hp. unfold extractPageLinks. destruct (bytes_eqb_spec (origin_String source) []) as [|_]; [done|].
  rewrite Hp, bool_decide_eq_false_2 by (by intros []).
  replace (if bytes_eqb contentType [] then _ else _) with (effective_type contentType body) by (by destruct contentType).
  set (t := effective_type contentType body). cbv zeta.
  destruct (Z.ltb_spec MaxRawBody (Z.of_nat (length body))) as [Hraw|Hraw].
  { eexists _, None. split; [|done]. apply page_too_large. unfold small, MaxRawBody in *. lia. }
  assert (Hs : small 1 body) by (unfold small, MaxRawBody in *; lia).
  pose proof (isHTMLContentType_spec t) as Ht. destruct (isHTMLContentType t); cbn [negb].
  2:{ eexists _, None. split; [|done]. apply page_unsupported; [done|]. by intros ?%Ht. }
  apply proj1 in Ht. specialize (Ht eq_refl). unfold decodeHTML.
  destruct (charset_NewReader body t) as [[decoded|]|] eqn:Hd;
    [|eexists _, None; (split; [|done]); apply page_undecodable; auto..].
  rewrite readBounded_spec by done.
  destruct (Z.ltb_spec MaxDecodedBody (Z.of_nat (length decoded))) as [Hbig|Hbig].
  { eexists _, None. split; [|done]. eapply page_decoded_too_large; [done..|]. unfold small, MaxDecodedBody in *. lia. }
  assert (Hs2 : small 2 decoded) by (unfold small, MaxDecodedBody in *; lia).
  destruct (parseHTMLDocument decoded) as [document|] eqn:Hdoc.
  - exists StatusComplete, (Some document). split; [by eapply page_complete|done].
  - eexists _, None. split; [by eapply page_unparsed|done].
Qed.

(** C40: The links of a page. For a page of the source itself the status is
    decided by the response: too large for a body of more than one MiB, or one
    that decodes to more than two; unsupported when its media type (sniffed if
    there is none) is neither HTML nor XHTML; unavailable when it cannot be
    decoded or parsed; and complete otherwise. A complete page yields exactly
    the hyperlinks of its document: the internal URLs are the canonical forms
    of those that lead to the source's own origin, all on the source's scheme
    and host, without credentials or fragment, and no two with the same text;
    the candidates are exactly the other origins the page links to, once each
    and in canonical order, and never the source itself. With any other status
    there are no links. A page without a URL, or whose URL is not of the
    source, is an error. *)
Theorem ExtractPageLinks_correct source sourceURL contentType body :
  origin_String source <> [] -> url_Parse (origin_String source) = Some sourceURL ->
  ExtractPageLinks source None contentType body = Err (errors_New errInvalidPageURL)
  /\ (forall pageURL, Origin.Parse (url_String pageURL) <> Ok source ->
       ExtractPageLinks source (Some pageURL) contentType body = Err (errors_New errInvalidPageURL))
  /\ (forall pageURL, Origin.Parse (url_String pageURL) = Ok source ->
       exists links status document,
         ExtractPageLinks source (Some pageURL) contentType body = Ok (links, status)
         /\ page_outcome (effective_type contentType body) body status document
         /\ match document with
            | Some document =>
                links_of source (documentBaseURL document pageURL) document links
                /\ Forall (on_source sourceURL) (Internal links)
                /\ Sorted candidate_le (Candidates links)
            | None => links = no_links
            end).
Proof.
  intros Hne Hsrc. unfold ExtractPageLinks. split_and!.
  - unfold extractPageLinks. by destruct (bytes_eqb_spec (origin_String source) []).
  - intros pageURL Hp. unfold extractPageLinks. destruct (bytes_eqb_spec (origin_String source) []) as [|_]; [done|].
    destruct (Origin.Parse _) as [o|]; [|done]. rewrite bool_decide_eq_true_2; [done|]. by intros ->.
  - intros pageURL Hp. destruct (extractPageLinks_outcome source pageURL contentType body Hne Hp) as (status & document & Ho & ->).
    eexists _, status, document. split; [done|]. split; [done|]. destruct document as [document|]; [|done].
    pose proof (extract_document_ok source (documentBaseURL document pageURL) document) as [Hl _].
    apply links_of_sorted in Hl. split_and!; [done| |apply Sorted_merge_sort; apply _].
    apply Forall_forall. intros u (node & r & _ & _ & ->)%Hl. by apply canonicalPageURL_on_source.
Qed.
End Facts.

Module DiscoveryWitnesses.
Import Concrete.

Definition example_origin : Origin := mkOrigin (bs "https://example.org") (bs "example.org") 443.
Definition source_URL : URL := split_path https (bs "example.org").
Definition page_URL : URL := split_path https (bs "example.org/").
Definition anchor (href : bytes) : Node := mkNode true (bs "a") [(bs "href", href)].

(** A library for which every body is one page with three links. *)
#[export] Instance library : HTMLLibrary := {|
  parseHTMLDocument _ :=
    Some [anchor (bs "/about"); anchor (bs "https://other.example/x"); anchor (bs "/about")];
  charset_NewReader body _ := Some (Some body);
  DetectContentType _ := bs "text/html";
  ParseMediaType := Some;
|}.

Definition example_links : PageLinks * Status :=
  (mkLinks [split_path https (bs "example.org/about")]
     [mkCandidate (mkOrigin (bs "https://other.example") (bs "other.example") 443) KindLink], StatusComplete).

Lemma example_extract : ExtractPageLinks example_origin (Some page_URL) (bs "text/html") (bs "<html>") = Ok example_links.
Proof. vm_cast_no_check (eq_refl (@Ok error _ example_links)). Qed.

Lemma ExtractPageLinks_correct_witness :
  exists document, page_outcome (bs "text/html") (bs "<html>") StatusComplete (Some document)
    /\ Forall (on_source source_URL) (Internal (fst example_links)).
Proof.
  destruct (ExtractPageLinks_correct example_origin source_URL (bs "text/html") (bs "<html>")
    ltac:(discriminate) ltac:(by vm_compute)) as (_ & _ & Hpage).
  destruct (Hpage page_URL ltac:(by vm_compute)) as (links & status & document & Hex & Ho & Hlinks).
  rewrite example_extract in Hex. injection Hex as <- <-. inversion Ho; subst. exists document0.
  split; [exact Ho|]. apply Hlinks.
Defined.
End DiscoveryWitnesses.
