(* ===== verification/Crawler.v ===== *)
(** * The multi-page crawler ([internal/discovery/crawler.go], [telemetry.go])

    A bounded breadth-first crawl of one origin: every page is fetched through
    the robots-aware getter with at most one immediate retry, candidates are
    handed to a sink as pages are processed, and every page and the run itself
    are reported to telemetry. *)

From S2P Require Import Prelude GoText GoUrl GoErrors GoNetip Retry Origin Netguard RequestScheduler RobotsHTTP.
From S2P Require Import Discovery.

Abbreviation Ctx W := (W -> option error) (only parsing).

Definition MaxCrawlPages : Z := 10000.

Record CrawlConfig : Type := mkCrawlConfig {
  MaxDepth : Z;
  MaxPages : Z;
  MaxPageBytes : Z;
  RequestDelay : Z;
  RedirectLimit : Z;
  PageTimeout : Z;
  MaxAutomaticPromotionsPerRun : Z;
}.

Definition validCrawlConfig (c : CrawlConfig) : bool :=
  (0 <=? MaxDepth c) && (0 <? MaxPages c) && (MaxPages c <=? MaxCrawlPages) && (0 <? MaxPageBytes c)
  && (0 <=? RequestDelay c) && (0 <? RedirectLimit c) && (0 <? PageTimeout c)
  && (0 <=? MaxAutomaticPromotionsPerRun c).

Record CrawlResult : Type := mkCrawlResult {
  crawl_Source : Origin;
  PagesAttempted : Z;
  PagesParsed : Z;
  CandidatesDiscovered : Z;
  BudgetExhausted : bool;
  crawl_FailureCategory : Category;
  crawl_RetryAfter : Z;
}.

(** ** Telemetry *)

Inductive CrawlRunOutcome : Type := CrawlRunComplete | CrawlRunBudgetExhausted | CrawlRunCanceled | CrawlRunFailed.

Inductive PageOutcome : Type :=
| PageComplete | PageRedirected | PageRobotsDenied | PageUnsupportedContent | PageTooLarge
| PageHTTPError | PageTimedOut | PageNetworkError | PageInvalidResponse.

Inductive RobotsDecision : Type := RobotsAllowed | RobotsDenied | RobotsUnknown.

Record PageAttempt : Type := mkPageAttempt {
  Sequence : Z;
  RequestedURL : bytes;
  FinalURL : bytes;
  Depth : Z;
  StartedAt : Z;
  Duration : Z;
  attempt_StatusCode : option Z;
  ResponseBytes : Z;
  attempt_ContentType : bytes;
  RedirectCount : Z;
  attempt_Robots : RobotsDecision;
  InternalLinkCount : Z;
  ExternalLinkCount : Z;
  attempt_Outcome : PageOutcome;
  attempt_FailureCategory : Category;
  URLsFound : Z;
  URLsEnqueued : Z;
}.

Record crawledPage : Type := mkPage {
  links : PageLinks;
  parsed : bool;
  failureCategory : Category;
  retryAfter : Z;
}.

Definition failed_page (category : Category) : crawledPage := mkPage no_links false category 0.

(** Updates of the attempt's fields. *)
Definition set_outcome (o : PageOutcome) (a : PageAttempt) : PageAttempt :=
  mkPageAttempt (Sequence a) (RequestedURL a) (FinalURL a) (Depth a) (StartedAt a) (Duration a)
    (attempt_StatusCode a) (ResponseBytes a) (attempt_ContentType a) (RedirectCount a) (attempt_Robots a)
    (InternalLinkCount a) (ExternalLinkCount a) o (attempt_FailureCategory a) (URLsFound a) (URLsEnqueued a).
Definition set_denied (a : PageAttempt) : PageAttempt :=
  mkPageAttempt (Sequence a) (RequestedURL a) (FinalURL a) (Depth a) (StartedAt a) (Duration a)
    (attempt_StatusCode a) (ResponseBytes a) (attempt_ContentType a) (RedirectCount a) RobotsDenied
    (InternalLinkCount a) (ExternalLinkCount a) PageRobotsDenied (attempt_FailureCategory a) (URLsFound a)
    (URLsEnqueued a).
Definition set_response (status : Z) (final contentType : bytes) (a : PageAttempt) : PageAttempt :=
  mkPageAttempt (Sequence a) (RequestedURL a) final (Depth a) (StartedAt a) (Duration a)
    (Some status) (ResponseBytes a) contentType (RedirectCount a) RobotsAllowed
    (InternalLinkCount a) (ExternalLinkCount a) (attempt_Outcome a) (attempt_FailureCategory a) (URLsFound a)
    (URLsEnqueued a).
Definition set_redirect (count : Z) (final : bytes) (a : PageAttempt) : PageAttempt :=
  mkPageAttempt (Sequence a) (RequestedURL a) final (Depth a) (StartedAt a) (Duration a)
    (attempt_StatusCode a) (ResponseBytes a) (attempt_ContentType a) count (attempt_Robots a)
    (InternalLinkCount a) (ExternalLinkCount a) (attempt_Outcome a) (attempt_FailureCategory a) (URLsFound a)
    (URLsEnqueued a).
Definition set_bytes (n : Z) (a : PageAttempt) : PageAttempt :=
  mkPageAttempt (Sequence a) (RequestedURL a) (FinalURL a) (Depth a) (StartedAt a) (Duration a)
    (attempt_StatusCode a) n (attempt_ContentType a) (RedirectCount a) (attempt_Robots a)
    (InternalLinkCount a) (ExternalLinkCount a) (attempt_Outcome a) (attempt_FailureCategory a) (URLsFound a)
    (URLsEnqueued a).
Definition set_complete (l : PageLinks) (a : PageAttempt) : PageAttempt :=
  mkPageAttempt (Sequence a) (RequestedURL a) (FinalURL a) (Depth a) (StartedAt a) (Duration a)
    (attempt_StatusCode a) (ResponseBytes a) (attempt_ContentType a) (RedirectCount a) (attempt_Robots a)
    (Z.of_nat (length (Internal l))) (Z.of_nat (length (Candidates l))) PageComplete
    (attempt_FailureCategory a) (URLsFound a) (URLsEnqueued a).
Definition set_duration (d : Z) (a : PageAttempt) : PageAttempt :=
  mkPageAttempt (Sequence a) (RequestedURL a) (FinalURL a) (Depth a) (StartedAt a) d
    (attempt_StatusCode a) (ResponseBytes a) (attempt_ContentType a) (RedirectCount a) (attempt_Robots a)
    (InternalLinkCount a) (ExternalLinkCount a) (attempt_Outcome a) (attempt_FailureCategory a) (URLsFound a)
    (URLsEnqueued a).
(** Lines 296, 297 and 313 to 328: what the crawl adds to a page's attempt. *)
Definition set_crawl (sequence depth : Z) (category : Category) (urls enqueued : Z) (a : PageAttempt) : PageAttempt :=
  mkPageAttempt sequence (RequestedURL a) (FinalURL a) depth (StartedAt a) (Duration a)
    (attempt_StatusCode a) (ResponseBytes a) (attempt_ContentType a) (RedirectCount a) (attempt_Robots a)
    (InternalLinkCount a) (ExternalLinkCount a) (attempt_Outcome a) category urls enqueued.

Section Crawler.
Context `{NetURL} `{NetIP} `{IDNA} `{HTMLLibrary}.

Definition safeTelemetryURL (u : URL) : bytes :=
  url_String (mkURL (Scheme u) (Opaque u) None (Host u) (Path u) (RawPath u) false [] [] []).

Definition safeTelemetryContentType (value : bytes) : bytes :=
  match ParseMediaType value with
  | None => []
  | Some mediaType => if 256 <? Z.of_nat (length mediaType) then [] else mediaType
  end.

Definition header_ContentType (response : Response) : bytes := default [] (head (ContentType response)).

Context {W : Type}.
Variable config : CrawlConfig.
Variable clock : W -> Z.
Variable ParseTime : bytes -> option Z.
Variable get : Ctx W -> call W URL (res error (option Response)).
(** Whether closing the body of a response reports an error. *)
Variable close_fails : Response -> bool.

(** *** Fetching a page *)

(** Lines 489 to 508: a failed request. *)
Definition get_failed (ctx : Ctx W) (err : error) (attempt : PageAttempt) (w : W) : PageAttempt * crawledPage :=
  if errors_Is err ErrDisallowed then (set_denied attempt, failed_page CategoryRobotsDenied)
  else
    match ctx w with
    | Some _ => (set_outcome PageTimedOut attempt, failed_page CategoryTimeout)
    | None =>
        let attempt := set_outcome PageNetworkError attempt in
        if errors_Is err ErrTemporary then (attempt, failed_page CategoryRobotsTemporary)
        else
          let category := FailureCategory err in
          (attempt, failed_page (if bool_decide (category = CategoryUnsupportedOrigin)
                                 then CategoryTransport else category))
    end.

(** Lines 583 to 602: the category of a status that is not 2xx. *)
Definition status_category (status : Z) : Category :=
  let '(category, transient) := HTTPStatusCategory status in
  if (400 <=? status) && (status <? 500) && negb (status =? 408) && negb (status =? 429)
  then CategoryHTTP4xx
  else if negb transient then CategoryUnsupportedOrigin else category.

(** Lines 576 to 654: a response that is not a redirect; the flag says whether
    the hops are committed. *)
Definition page_response (ctx : Ctx W) (source : Origin) (current : URL) (response : Response)
    (body : option bytes) (attempt : PageAttempt) (w : W) : PageAttempt * crawledPage * bool :=
  let read := readBounded body (MaxPageBytes config) in
  let content := match read with Ok (content, _) => content | Err _ => [] end in
  let attempt := set_bytes (Z.of_nat (length content)) attempt in
  let status := StatusCode response in
  if (status <? 200) || (300 <=? status) then
    (set_outcome PageHTTPError attempt,
     mkPage no_links false (status_category status)
       (ParseRetryAfter ParseTime (RetryAfter response) (clock w)), false)
  else
    match read, close_fails response with
    | Ok (content, tooLarge), false =>
        if tooLarge : bool then (set_outcome PageTooLarge attempt, failed_page CategoryOversizedContent, false)
        else
          match ExtractPageLinks source (Some current) (header_ContentType response) content with
          | Ok (links, StatusComplete) =>
              (set_complete links attempt, mkPage links true CategoryNone 0, true)
          | Ok (_, StatusTooLarge) =>
              (set_outcome PageTooLarge attempt, failed_page CategoryOversizedContent, false)
          | Ok (_, StatusUnavailable) =>
              (set_outcome PageNetworkError attempt, failed_page CategoryTransport, false)
          | _ => (set_outcome PageUnsupportedContent attempt, failed_page CategoryUnsupportedContent, false)
          end
    | _, _ =>
        match ctx w with
        | Some _ => (set_outcome PageTimedOut attempt, failed_page CategoryTimeout, false)
        | None => (set_outcome PageNetworkError attempt, failed_page CategoryTransport, false)
        end
    end.

(** The loop of [fetchPage], by recursion on the redirects left. The result is
    the page, its attempt and the new [visited] set. *)
Fixpoint fetch_loop (left : nat) (redirects : Z) (ctx : Ctx W) (source : Origin) (current : URL)
    (visited attemptHops : gset bytes) (attempt : PageAttempt) (w : W)
    : W * (PageAttempt * crawledPage * gset bytes) :=
  match get ctx w current with
  | (w, Err err) => let '(attempt, page) := get_failed ctx err attempt w in (w, (attempt, page, visited))
  | (w, Ok None) => (w, (attempt, failed_page CategoryTransport, visited))
  | (w, Ok (Some response)) =>
      match Body response with
      | None => (w, (attempt, failed_page CategoryTransport, visited))
      | Some body =>
          let attempt := set_response (StatusCode response) (safeTelemetryURL current)
                           (safeTelemetryContentType (header_ContentType response)) attempt in
          if isRedirectStatus (StatusCode response) then
            match redirectTarget current response with
            | Err _ => (w, (attempt, failed_page CategoryMalformedOrigin, visited))
            | Ok next =>
                match Origin.Parse (url_String next) with
                | Err _ => (w, (attempt, failed_page CategoryMalformedOrigin, visited))
                | Ok nextOrigin =>
                    if bool_decide (nextOrigin <> source) then
                      (w, (set_outcome PageRedirected
                             (set_redirect (redirects + 1) (safeTelemetryURL next) attempt),
                           mkPage (mkLinks [] [mkCandidate nextOrigin KindRedirect]) false CategoryNone 0,
                           attemptHops ∪ visited))
                    else
                      let next := canonicalPageURL source next in
                      match left with
                      | O => (w, (attempt, failed_page CategoryMalformedOrigin, visited))
                      | S left' =>
                          if bool_decide (url_String next ∈ attemptHops)
                             || bool_decide (url_String next ∈ visited)
                          then (w, (attempt, failed_page CategoryMalformedOrigin, visited))
                          else
                            fetch_loop left' (redirects + 1) ctx source next visited
                              ({[ url_String next ]} ∪ attemptHops)
                              (set_redirect (redirects + 1) (safeTelemetryURL next) attempt) w
                      end
                end
            end
          else
            let '(attempt, page, commit) := page_response ctx source current response body attempt w in
            (w, (attempt, page, if commit : bool then attemptHops ∪ visited else visited))
      end
  end.

Definition fetchPage (ctx : Ctx W) (source : Origin) (initial : URL) (visited : gset bytes) (w : W)
    : W * (PageAttempt * crawledPage * gset bytes) :=
  let started := clock w in
  let current := canonicalPageURL source initial in
  let attempt :=
    mkPageAttempt 0 (safeTelemetryURL current) (safeTelemetryURL current) 0 started 0 None 0 [] 0
      RobotsUnknown 0 0 PageInvalidResponse CategoryNone 0 0 in
  match fetch_loop (Z.to_nat (RedirectLimit config)) 0 ctx source current visited {[ url_String current ]}
          attempt w with
  | (w, (attempt, page, visited)) => (w, (set_duration (time_Sub (clock w) started) attempt, page, visited))
  end.

(** *** The crawl *)

(** [crawlFrontierEntry] *)
Record FrontierEntry : Type := mkEntry { pageURL : URL; depth : Z }.

Record crawl_state : Type := mkCrawl {
  frontier : list FrontierEntry;
  queued : gset bytes;
  visited : gset bytes;
  seen : gset Origin;
  crawl_result : CrawlResult;
  frontierRemaining : Z;
}.

Variable waiter : Ctx W -> call W Z (option error).
Variable WithTimeout : Ctx W -> Z -> W -> Ctx W.
(** [CrawlTelemetry]; [FinishCrawl] also receives the frontier left when the
    telemetry is a [crawlSummaryTelemetry]. *)
Variable BeginCrawl : Ctx W -> call W (Origin * CrawlConfig) (res error Z).
Variable RecordPageAttempt : Ctx W -> call W (Z * PageAttempt) (option error).
Variable FinishCrawl : Ctx W -> call W (Z * CrawlResult * CrawlRunOutcome * bytes * Z) (option error).
(** [CandidateSink] or, with the run's identifier, [RunCandidateSink]; and the
    optional [CandidateFinalizer]. *)
Variable RecordCandidates : Ctx W -> call W (Z * Origin * list Candidate) (option error).
Variable FinalizeCandidates : option (Ctx W -> call W Z (option error)).

(** Lines 271 to 295: the attempts at one page, by recursion on those left. *)
Fixpoint page_attempts (left : nat) (ctx : Ctx W) (source : Origin) (target : URL) (visited : gset bytes) (w : W)
    : W * (PageAttempt * crawledPage * gset bytes * option error) :=
  let pageContext := WithTimeout ctx (PageTimeout config) w in
  match fetchPage pageContext source target visited w with
  | (w, (attempt, page, visited)) =>
      let ended := (w, (attempt, page, visited, pageContext w)) in
      match left with
      | O => ended
      | S left' =>
          if negb (Transient (failureCategory page)) || (0 <? retryAfter page) then ended
          else page_attempts left' ctx source target visited w
      end
  end.

(** Lines 302 to 311: the failure a page adds to the result. *)
Definition note_failure (page : crawledPage) (r : CrawlResult) : CrawlResult :=
  if bool_decide (failureCategory page = CategoryNone) then r
  else
    mkCrawlResult (crawl_Source r) (PagesAttempted r) (PagesParsed r) (CandidatesDiscovered r) (BudgetExhausted r)
      (if bool_decide (crawl_FailureCategory r = CategoryNone) || Transient (failureCategory page)
       then failureCategory page else crawl_FailureCategory r)
      (Z.max (retryAfter page) (crawl_RetryAfter r)).

(** Lines 317 to 328: the internal links that count as enqueued. *)
Definition enqueued_count (visited queued : gset bytes) (nextDepth : Z) (internal : list URL) : Z :=
  Z.of_nat (length (List.filter
    (fun u => negb (bool_decide (url_String u ∈ visited)) && negb (bool_decide (url_String u ∈ queued))
              && (nextDepth <=? MaxDepth config)) internal)).

(** Lines 407 to 429: one internal link of a parsed page. *)
Definition enqueue (nextDepth : Z) (visited : gset bytes)
    (acc : list FrontierEntry * gset bytes * bool) (internal : URL) : list FrontierEntry * gset bytes * bool :=
  let '(frontier, queued, exhausted) := acc in
  let canonical := url_String internal in
  if bool_decide (canonical ∈ visited) || bool_decide (canonical ∈ queued) then acc
  else if MaxDepth config <? nextDepth then (frontier, queued, true)
  else (frontier ++ [mkEntry internal nextDepth], {[ canonical ]} ∪ queued, exhausted).

Definition count_page (r : CrawlResult) : CrawlResult :=
  mkCrawlResult (crawl_Source r) (PagesAttempted r + 1) (PagesParsed r) (CandidatesDiscovered r)
    (BudgetExhausted r) (crawl_FailureCategory r) (crawl_RetryAfter r).
Definition count_parsed (p : bool) (r : CrawlResult) : CrawlResult :=
  mkCrawlResult (crawl_Source r) (PagesAttempted r) (if p then PagesParsed r + 1 else PagesParsed r)
    (CandidatesDiscovered r) (BudgetExhausted r) (crawl_FailureCategory r) (crawl_RetryAfter r).
Definition count_candidates (n : Z) (r : CrawlResult) : CrawlResult :=
  mkCrawlResult (crawl_Source r) (PagesAttempted r) (PagesParsed r) (CandidatesDiscovered r + n)
    (BudgetExhausted r) (crawl_FailureCategory r) (crawl_RetryAfter r).
Definition exhaust (b : bool) (r : CrawlResult) : CrawlResult :=
  mkCrawlResult (crawl_Source r) (PagesAttempted r) (PagesParsed r) (CandidatesDiscovered r)
    (BudgetExhausted r || b) (crawl_FailureCategory r) (crawl_RetryAfter r).

(** How a page leaves the loop. *)
Inductive page_end : Type := Continue | Break | Return (err : error).

(** Lines 349 to 430: a recorded page whose fetch did not time out. *)
Definition absorb_page (ctx : Ctx W) (runID : Z) (source : Origin) (entry : FrontierEntry) (rest : list FrontierEntry)
    (queued visited : gset bytes) (seen : gset Origin) (page : crawledPage) (r : CrawlResult) (w : W)
    : W * (crawl_state * page_end) :=
  let r := count_parsed (parsed page) r in
  let left := Z.of_nat (length rest) in
  let fresh := List.filter (fun c => negb (bool_decide (candidate_Origin c ∈ seen))) (Candidates (links page)) in
  let '(w, recordErr) :=
    match fresh with
    | [] => (w, None)
    | _ => RecordCandidates ctx w (runID, source, fresh)
    end in
  match recordErr with
  | Some err => (w, (mkCrawl rest queued visited seen r left, Return (wrap err)))
  | None =>
      let seen := list_to_set (map candidate_Origin fresh) ∪ seen in
      let r := count_candidates (Z.of_nat (length fresh)) r in
      if negb (parsed page) then (w, (mkCrawl rest queued visited seen r left, Continue))
      else
        let '(frontier, queued, exhausted) :=
          fold_left (enqueue (depth entry + 1) visited) (Internal (links page)) (rest, queued, false) in
        (w, (mkCrawl frontier queued visited seen (exhaust exhausted r) (Z.of_nat (length frontier)), Continue))
  end.

(** Lines 269 to 347: the page [entry], once it is its turn. *)
Definition crawl_page (ctx : Ctx W) (runID : Z) (source : Origin) (entry : FrontierEntry) (rest : list FrontierEntry)
    (st : crawl_state) (w : W) : W * (crawl_state * page_end) :=
  let r := count_page (crawl_result st) in
  let left := Z.of_nat (length rest) in
  match page_attempts (Z.to_nat MaxAttemptsPerCycle - 1) ctx source (pageURL entry) (visited st) w with
  | (w, (attempt, page, visited, pageContextErr)) =>
      match ctx w with
      | Some parentErr => (w, (mkCrawl rest (queued st) visited (seen st) r left, Return parentErr))
      | None =>
          let r := note_failure page r in
          let attempt :=
            set_crawl (PagesAttempted r) (depth entry) (failureCategory page)
              (Z.of_nat (length (Internal (links page)) + length (Candidates (links page))))
              (if parsed page
               then enqueued_count visited (queued st) (depth entry + 1) (Internal (links page)) else 0)
              attempt in
          match RecordPageAttempt ctx w (runID, attempt) with
          | (w, Some err) => (w, (mkCrawl rest (queued st) visited (seen st) r left, Return (wrap err)))
          | (w, None) =>
              if Transient (failureCategory page) && (0 <? retryAfter page)
              then (w, (mkCrawl rest (queued st) visited (seen st) r left, Break))
              else
                match pageContextErr with
                | Some _ => (w, (mkCrawl rest (queued st) visited (seen st) r left, Continue))
                | None => absorb_page ctx runID source entry rest (queued st) visited (seen st) page r w
                end
          end
      end
  end.

(** Pop the frontier up to an entry that was not visited. *)
Fixpoint pop (visited : gset bytes) (frontier : list FrontierEntry) : option (FrontierEntry * list FrontierEntry) :=
  match frontier with
  | [] => None
  | entry :: rest => if bool_decide (url_String (pageURL entry) ∈ visited) then pop visited rest else Some (entry, rest)
  end.

(** The loop of [Crawl], by recursion on the pages left. *)
Fixpoint crawl_loop (left : nat) (ctx : Ctx W) (runID : Z) (source : Origin) (st : crawl_state) (w : W)
    : W * (crawl_state * option error) :=
  match pop (visited st) (frontier st) with
  | None => (w, (mkCrawl [] (queued st) (visited st) (seen st) (crawl_result st) 0, None))
  | Some (entry, rest) =>
      match left with
      | O => (w, (mkCrawl rest (queued st) (visited st) (seen st) (exhaust true (crawl_result st))
                    (Z.of_nat (length rest) + 1), None))
      | S left' =>
          let '(w, waitErr) :=
            if (0 <? PagesAttempted (crawl_result st)) && (0 <? RequestDelay config)
            then waiter ctx w (RequestDelay config) else (w, None) in
          match waitErr with
          | Some err => (w, (mkCrawl rest (queued st) (visited st) (seen st) (crawl_result st)
                               (Z.of_nat (length rest)), Some err))
          | None =>
              match crawl_page ctx runID source entry rest st w with
              | (w, (st, Continue)) => crawl_loop left' ctx runID source st w
              | (w, (st, Break)) => (w, (st, None))
              | (w, (st, Return err)) => (w, (st, Some err))
              end
          end
      end
  end.

(** Lines 433 to 444: the finalizer, after the loop. *)
Definition finalize (ctx : Ctx W) (runID : Z) (w : W) : W * option error :=
  if 0 <? runID then
    match FinalizeCandidates with
    | None => (w, None)
    | Some finalizer =>
        match finalizer ctx w runID with
        | (w, Some err) => (w, Some (wrap err))
        | (w, None) => (w, None)
        end
    end
  else (w, None).

(** Lines 188 to 205: how the run is reported. *)
Definition run_outcome (canceled crawlErr : option error) (r : CrawlResult) : CrawlRunOutcome * bytes :=
  match canceled with
  | Some _ => (CrawlRunCanceled, bs "context_canceled")
  | None =>
      match crawlErr with
      | Some _ => (CrawlRunFailed, bs "crawler_error")
      | None =>
          if BudgetExhausted r then (CrawlRunBudgetExhausted, bs "crawl_budget")
          else if bool_decide (crawl_FailureCategory r <> CategoryNone)
          then (CrawlRunFailed, if 0 <? PagesParsed r then bs "partial_failure" else bs "root_failure")
          else (CrawlRunComplete, bs "frontier_exhausted")
      end
  end.

Definition finishTimeout : Z := 5 * Second.

(** [validate] of the crawler for dependencies that are not nil *)
Definition crawler_validate (ctx : option (Ctx W)) (source : Origin) (w : W) : res error (Ctx W) :=
  match ctx with
  | None => Err (errors_New discovery_errInvalidContext)
  | Some ctx =>
      match ctx w with
      | Some err => Err err
      | None =>
          if bytes_eqb (origin_String source) [] then Err (errors_New errInvalidSource)
          else if negb (validCrawlConfig config) then Err (errors_New errInvalidCrawlConfig)
          else Ok ctx
      end
  end.

(** The work of [Crawl] between the begin and the end of the run. The root URL
    of an origin always parses. *)
Definition crawl_run (ctx : Ctx W) (runID : Z) (source : Origin) (w : W) : W * (crawl_state * option error) :=
  let result := mkCrawlResult source 0 0 0 false CategoryNone 0 in
  match url_Parse (origin_String source ++ bs "/") with
  | None => (w, (mkCrawl [] ∅ ∅ ∅ result 0, None))
  | Some root =>
      match crawl_loop (Z.to_nat (MaxPages config)) ctx runID source
              (mkCrawl [mkEntry root 0] {[ url_String root ]} ∅ ∅ result 0) w with
      | (w, (st, Some err)) => (w, (st, Some err))
      | (w, (st, None)) => let '(w, err) := finalize ctx runID w in (w, (st, err))
      end
  end.

Definition Crawl (ctx : option (Ctx W)) (source : Origin) (w : W) : W * (CrawlResult * option error) :=
  match crawler_validate ctx source w with
  | Err err => (w, (mkCrawlResult zero_origin 0 0 0 false CategoryNone 0, Some err))
  | Ok ctx =>
      match BeginCrawl ctx w (source, config) with
      | (w, Err err) => (w, (mkCrawlResult source 0 0 0 false CategoryNone 0, Some (wrap err)))
      | (w, Ok runID) =>
          match crawl_run ctx runID source w with
          | (w, (st, crawlErr)) =>
              let '(outcome, reason) := run_outcome (ctx w) crawlErr (crawl_result st) in
              let finishContext :=
                fun w' => if clock w + finishTimeout <=? clock w' then Some (errors_New DeadlineExceeded) else None in
              match FinishCrawl finishContext w (runID, crawl_result st, outcome, reason, frontierRemaining st) with
              | (w, finishErr) =>
                  (w, (crawl_result st,
                       match crawlErr, finishErr with
                       | None, Some err => Some (wrap err)
                       | _, _ => crawlErr
                       end))
              end
          end
      end
  end.
End Crawler.
