(* ===== verification/CrawlerFacts.v ===== *)
(** * Correctness of the multi-page crawler

    What one crawl does, as the trace of its requests, waits, telemetry and
    candidate batches, in every environment. *)

From S2P Require Import Prelude GoText GoUrl GoErrors GoNetip Retry Origin Netguard RequestScheduler RobotsHTTP.
From S2P Require Import Discovery Crawler.

Inductive crawl_event : Type :=
| ce_begin
| ce_get (u : URL)
| ce_wait (d : Z)
| ce_page (a : PageAttempt)
| ce_record (cs : list Candidate)
| ce_finalize
| ce_finish (r : CrawlResult) (o : CrawlRunOutcome) (remaining : Z).

Definition gets (evs : list crawl_event) : list URL :=
  omap (fun e => match e with ce_get u => Some u | _ => None end) evs.
Definition page_reports (evs : list crawl_event) : list PageAttempt :=
  omap (fun e => match e with ce_page a => Some a | _ => None end) evs.
Definition recorded (evs : list crawl_event) : list Origin :=
  concat (map (fun e => match e with ce_record cs => map candidate_Origin cs | _ => [] end) evs).
(** The events of the work between the begin and the end of a run. *)
Definition is_work (e : crawl_event) : Prop := match e with ce_begin | ce_finish _ _ _ => False | _ => True end.

Lemma gets_app a b : gets (a ++ b) = gets a ++ gets b.
Proof. unfold gets. by rewrite omap_app. Qed.
Lemma page_reports_app a b : page_reports (a ++ b) = page_reports a ++ page_reports b.
Proof. unfold page_reports. by rewrite omap_app. Qed.
Lemma recorded_app a b : recorded (a ++ b) = recorded a ++ recorded b.
Proof. unfold recorded. by rewrite map_app, concat_app. Qed.

Section Facts.
Context `{NetURL} `{NetIP} `{IDNA} `{HTMLLibrary} {W : Type}.
Variable config : CrawlConfig.
Variable clock : W -> Z.
Variable ParseTime : bytes -> option Z.
Variable get : Ctx W -> call W URL (res error (option Response)).
Variable close_fails : Response -> bool.
Variable waiter : Ctx W -> call W Z (option error).
Variable WithTimeout : Ctx W -> Z -> W -> Ctx W.
Variable BeginCrawl : Ctx W -> call W (Origin * CrawlConfig) (res error Z).
Variable RecordPageAttempt : Ctx W -> call W (Z * PageAttempt) (option error).
Variable FinishCrawl : Ctx W -> call W (Z * CrawlResult * CrawlRunOutcome * bytes * Z) (option error).
Variable RecordCandidates : Ctx W -> call W (Z * Origin * list Candidate) (option error).
Variable FinalizeCandidates : option (Ctx W -> call W Z (option error)).

(** ** The environment that records the calls *)

Abbreviation traced := (W * list crawl_event)%type.

(** A call that appends the event [ev a] to the trace. *)
Definition trace {A R} (ev : A -> crawl_event) (f : Ctx W -> call W A R) : Ctx traced -> call traced A R :=
  fun ctx '(w, log) a => let '(w', r) := f (fun w => ctx (w, log)) w a in ((w', log ++ [ev a]), r).

Definition traced_clock (w : traced) : Z := clock (fst w).
Definition traced_timeout : Ctx traced -> Z -> traced -> Ctx traced :=
  fun ctx d '(w, log) => ctx_lift (WithTimeout (fun w => ctx (w, log)) d w).
Definition traced_get := trace ce_get get.
Definition traced_wait := trace ce_wait waiter.
Definition traced_begin := trace (fun _ => ce_begin) BeginCrawl.
Definition traced_page := trace (fun '(_, a) => ce_page a) RecordPageAttempt.
Definition traced_finish := trace (fun '(_, r, o, _, n) => ce_finish r o n) FinishCrawl.
Definition traced_record := trace (fun '(_, _, cs) => ce_record cs) RecordCandidates.
Definition traced_finalize := option_map (trace (fun _ => ce_finalize)) FinalizeCandidates.

(** ** Fetching *)

Variable source : Origin.
Variable sourceURL : URL.
Hypothesis source_parses : url_Parse (origin_String source) = Some sourceURL.

(** The candidates of a page: distinct origins other than the source. *)
Definition page_ok (page : crawledPage) : Prop :=
  NoDup (map candidate_Origin (Candidates (links page)))
  /\ source ∉ map candidate_Origin (Candidates (links page)).

Lemma failed_page_ok category : page_ok (failed_page category).
Proof. split; [constructor|by intros ?%elem_of_nil]. Qed.

Lemma get_failed_ok ctx err attempt (w : traced) : page_ok (snd (get_failed ctx err attempt w)).
Proof. unfold get_failed. repeat case_head; apply failed_page_ok. Qed.

Lemma page_response_ok ctx current response body attempt (w : traced) :
  page_ok (snd (fst (page_response config traced_clock ParseTime close_fails ctx source current response body attempt w))).
Proof using source_parses.
  unfold page_response. cbv zeta. case_head; [split; [constructor|by intros ?%elem_of_nil]|].
  destruct (readBounded _ _) as [[content tooLarge]|]; [destruct (close_fails response)|];
    try (case_head; apply failed_page_ok).
  destruct tooLarge; [apply failed_page_ok|].
  destruct (ExtractPageLinks _ _ _ _) as [[links status]|] eqn:Hex; [|apply failed_page_ok].
  pose proof (extract_candidates source sourceURL current _ _ _ _ source_parses Hex) as [Hn Hs].
  destruct status; try apply failed_page_ok. done.
Qed.

(** A series of requests on the source, at most [n] of them. *)
Definition requests (n : nat) (log log' : list crawl_event) : Prop :=
  exists us, log' = log ++ map ce_get us /\ Forall (on_source sourceURL) us /\ (length us <= n)%nat.

Lemma requests_one u n log : on_source sourceURL u -> requests (S n) log (log ++ [ce_get u]).
Proof. intros Hu. exists [u]. split_and!; [done|by constructor|cbn; lia]. Qed.

Lemma requests_trans n m log log1 log2 : requests n log log1 -> requests m log1 log2 -> requests (n + m) log log2.
Proof.
  intros (us & -> & Hu & Hn) (vs & -> & Hv & Hm). exists (us ++ vs).
  rewrite map_app, app_assoc, length_app. split_and!; [done|by apply Forall_app|lia].
Qed.

Lemma requests_weaken n m log log' : requests n log log' -> (n <= m)%nat -> requests m log log'.
Proof. intros (us & -> & Hu & Hn) Hm. exists us. split_and!; [done|done|lia]. Qed.

Abbreviation fetch := (fetch_loop config traced_clock ParseTime traced_get close_fails).

Lemma fetch_loop_trace left redirects ctx current visited hops attempt w log w' log' a page v :
  on_source sourceURL current ->
  fetch left redirects ctx source current visited hops attempt (w, log) = ((w', log'), (a, page, v)) ->
  page_ok page /\ requests (S left) log log'.
Proof using source_parses.
  revert redirects current hops attempt w log. induction left as [|left IH];
    intros redirects current hops attempt w log Hc; cbn [fetch_loop];
    unfold traced_get at 1, trace; destruct (get _ w current) as [w1 [[response|]|err]].
  all: try (pose proof (get_failed_ok ctx err attempt (w1, log ++ [ce_get current])) as Hp;
            destruct (get_failed _ _ _ _) as [a0 page0]; cbn [snd] in Hp).
  all: try (intro_pairs;
            split; [first [done|apply failed_page_ok]|by apply requests_one]).
  all: destruct (Body response) as [body|];
    [|intro_pairs;
      split; [apply failed_page_ok|by apply requests_one]].
  all: destruct (isRedirectStatus _).
  2,4: pose proof (page_response_ok ctx current response body
         (set_response (StatusCode response) (safeTelemetryURL current)
            (safeTelemetryContentType (header_ContentType response)) attempt) (w1, log ++ [ce_get current])) as Hp;
       destruct (page_response _ _ _ _ _ _ _ _ _ _ _) as [[a0 page0] commit]; cbn [fst snd] in Hp;
       intro_pairs;
       split; [done|by apply requests_one].
  all: destruct (redirectTarget current response) as [next|];
    [|intro_pairs;
      split; [apply failed_page_ok|by apply requests_one]].
  all: destruct (Origin.Parse _) as [nextOrigin|];
    [|intro_pairs;
      split; [apply failed_page_ok|by apply requests_one]].
  all: case_bool_decide as Hne;
    [intro_pairs;
     split; [|by apply requests_one]; split; cbn; [apply NoDup_singleton|by intros ->%list_elem_of_singleton]|].
  - intro_pairs.
    split; [apply failed_page_ok|by apply requests_one].
  - case_head.
    { intro_pairs.
      split; [apply failed_page_ok|by apply requests_one]. }
    intros [Hp Hr]%IH; [|by apply canonicalPageURL_on_source]. split; [done|].
    by apply (requests_trans 1 (S left) _ (log ++ [ce_get current])); [apply requests_one|].
Qed.

(** The requests one page may cost: two attempts with all their redirects. *)
Definition page_requests : nat := 2 * S (Z.to_nat (RedirectLimit config)).

Abbreviation attempts := (page_attempts config traced_clock ParseTime traced_get close_fails traced_timeout).

Lemma page_attempts_trace left ctx target visited w log w' log' a page v e :
  attempts left ctx source target visited (w, log) = ((w', log'), (a, page, v, e)) ->
  page_ok page /\ requests (S left * S (Z.to_nat (RedirectLimit config))) log log'.
Proof using source_parses.
  revert visited w log. induction left as [|left IH]; intros visited w log; cbn [page_attempts]; unfold fetchPage;
    destruct (fetch_loop _ _ _ _ _ _ _ _ _ _ _ _ _ _) as [[w1 log1] [[a1 page1] v1]] eqn:Hf;
    apply fetch_loop_trace in Hf as [Hp Hr]; [|by apply canonicalPageURL_on_source| |by apply canonicalPageURL_on_source].
  - intro_pairs. split; [done|]. eapply requests_weaken; [done|lia].
  - case_head; [intro_pairs; split; [done|]; eapply requests_weaken; [done|lia]|].
    intros [Hp' Hr']%IH. split; [done|]. by apply (requests_trans _ _ _ _ _ Hr Hr').
Qed.

(** ** The crawl *)

(** A state of the crawl between pages. *)
Definition state_ok (st : crawl_state) : Prop := Forall (fun e => 0 <= depth e <= MaxDepth config) (frontier st).

(** What a stretch of the crawl from [st] to [st'] added to the trace, with at
    most [pages] pages. *)
Record stretch (pages : nat) (st st' : crawl_state) (ended : bool) (evs : list crawl_event) : Prop := {
  stretch_work : Forall is_work evs;
  stretch_gets : Forall (on_source sourceURL) (gets evs);
  stretch_count : (length (gets evs) <= pages * page_requests)%nat;
  stretch_sequence : exists m, (m <= pages)%nat
    /\ map Sequence (page_reports evs) = seqZ (PagesAttempted (crawl_result st) + 1) (Z.of_nat m)
    /\ PagesAttempted (crawl_result st') <= PagesAttempted (crawl_result st) + Z.of_nat pages
    /\ (ended = false -> PagesAttempted (crawl_result st') = PagesAttempted (crawl_result st) + Z.of_nat m);
  stretch_depth : Forall (fun a => 0 <= Depth a <= MaxDepth config) (page_reports evs);
  stretch_NoDup : NoDup (recorded evs);
  stretch_fresh : forall o, o ∈ recorded evs -> (o ∉ seen st) /\ o <> source;
  stretch_seen : ended = false ->
    (forall o, o ∈ seen st' <-> o ∈ seen st \/ o ∈ recorded evs)
    /\ CandidatesDiscovered (crawl_result st')
       = CandidatesDiscovered (crawl_result st) + Z.of_nat (length (recorded evs));
}.

Lemma stretch_trans n m st st1 st2 ended evs1 evs2 :
  stretch n st st1 false evs1 -> stretch m st1 st2 ended evs2 -> stretch (n + m) st st2 ended (evs1 ++ evs2).
Proof.
  intros [Hw1 Hg1 Hc1 (k1 & Hk1 & Hs1 & _ & Hp1) Hd1 Hn1 Hf1 Hse1]
         [Hw2 Hg2 Hc2 (k2 & Hk2 & Hs2 & Hb2 & Hp2) Hd2 Hn2 Hf2 Hse2].
  destruct (Hse1 eq_refl) as [Hseen1 Hcand1]. specialize (Hp1 eq_refl). split.
  - by apply Forall_app.
  - rewrite gets_app. by apply Forall_app.
  - rewrite gets_app, length_app. lia.
  - exists (k1 + k2)%nat. split_and!; [lia| |lia|intros ->; specialize (Hp2 eq_refl); lia].
    rewrite page_reports_app, map_app, Hs1, Hs2, Hp1, Nat2Z.inj_add, seqZ_app by lia. do 2 f_equal. lia.
  - rewrite page_reports_app. by apply Forall_app.
  - rewrite recorded_app. apply NoDup_app. split_and!; [done| |done].
    intros o Ho1 Ho2. apply Hf2 in Ho2 as [Hns _]. apply Hns, Hseen1. by right.
  - intros o. rewrite recorded_app, elem_of_app. intros [Ho|Ho]; [by apply Hf1|].
    apply Hf2 in Ho as [Hns ?]. split; [|done]. intros Hin. apply Hns, Hseen1. by left.
  - intros Hend. destruct (Hse2 Hend) as [Hseen2 Hcand2]. split.
    + intros o. rewrite Hseen2, Hseen1, recorded_app, elem_of_app. symmetry. apply or_assoc.
    + rewrite Hcand2, Hcand1, recorded_app, length_app. lia.
Qed.

Lemma enqueue_ok nextDepth visited internal frontier queued exhausted :
  0 <= nextDepth -> Forall (fun e => 0 <= depth e <= MaxDepth config) frontier ->
  Forall (fun e => 0 <= depth e <= MaxDepth config)
    (fst (fst (fold_left (enqueue config nextDepth visited) internal (frontier, queued, exhausted)))).
Proof.
  intros Hd. revert frontier queued exhausted. induction internal as [|u internal IH];
    intros frontier queued exhausted Hf; [done|]. cbn [fold_left]. unfold enqueue at 2. cbv zeta.
  case_head; [by apply IH|]. destruct (Z.ltb_spec (MaxDepth config) nextDepth); [by apply IH|].
  apply IH. apply Forall_app. split; [done|]. constructor; [|done]. cbn [depth]. lia.
Qed.

(** The candidates of a page that were not seen before. *)
Definition fresh_candidates (seen : gset Origin) (page : crawledPage) : list Candidate :=
  List.filter (fun c => negb (bool_decide (candidate_Origin c ∈ seen))) (Candidates (links page)).

Lemma fresh_spec seen page : page_ok page ->
  NoDup (map candidate_Origin (fresh_candidates seen page))
  /\ forall o, o ∈ map candidate_Origin (fresh_candidates seen page) -> (o ∉ seen) /\ o <> source.
Proof.
  unfold fresh_candidates, page_ok. intros [Hn Hs]. induction (Candidates (links page)) as [|c cs IH]; cbn [List.filter map].
  { split; [constructor|by intros o ?%elem_of_nil]. }
  cbn [map] in Hn, Hs. apply NoDup_cons in Hn as [Hc Hn]. apply not_elem_of_cons in Hs as [Hne Hs].
  destruct (IH Hn Hs) as [IHn IHf]. case_bool_decide as Hseen; cbn [negb]; [done|]. cbn [map]. split.
  - apply NoDup_cons. split; [|done]. intros (x & Hx & Hin)%list_elem_of_fmap. apply Hc.
    apply list_elem_of_In, filter_In in Hin as [Hin _]. rewrite Hx. apply list_elem_of_fmap_2.
    by apply list_elem_of_In.
  - intros o [->|Ho]%elem_of_cons; [by split|by apply IHf].
Qed.

(** The event of a batch, if there is one. *)
Definition batch (fresh : list Candidate) : list crawl_event :=
  match fresh with [] => [] | _ => [ce_record fresh] end.

Lemma recorded_batch fresh : recorded (batch fresh) = map candidate_Origin fresh.
Proof. destruct fresh; [done|]. unfold recorded. cbn [batch map concat]. apply app_nil_r. Qed.

Lemma batch_quiet fresh : gets (batch fresh) = [] /\ page_reports (batch fresh) = [] /\ Forall is_work (batch fresh).
Proof. destruct fresh; split_and!; try done; by constructor. Qed.

Abbreviation absorb := (absorb_page config traced_record).

Lemma absorb_trace ctx runID entry rest queued visited seen0 page r w log w' log' st' e :
  page_ok page -> 0 <= depth entry -> Forall (fun e => 0 <= depth e <= MaxDepth config) rest ->
  absorb ctx runID source entry rest queued visited seen0 page r (w, log) = ((w', log'), (st', e)) ->
  state_ok st' /\ log' = log ++ batch (fresh_candidates seen0 page) /\ e <> Break
  /\ PagesAttempted (crawl_result st') = PagesAttempted r
  /\ (e = Continue ->
       (forall o, o ∈ seen st' <-> o ∈ seen0 \/ o ∈ map candidate_Origin (fresh_candidates seen0 page))
       /\ CandidatesDiscovered (crawl_result st')
          = CandidatesDiscovered r + Z.of_nat (length (fresh_candidates seen0 page))).
Proof.
  intros Hp Hd Hrest. unfold absorb_page. cbv zeta. fold (fresh_candidates seen0 page).
  set (fresh := fresh_candidates seen0 page).
  destruct (match fresh with [] => _ | _ => _ end) as [[w1 log1] recordErr] eqn:Hrec.
  assert (log1 = log ++ batch fresh) as ->.
  { destruct fresh; [injection Hrec as _ <- _; by rewrite app_nil_r|].
    unfold traced_record, trace in Hrec. destruct (RecordCandidates _ _ _). by injection Hrec as _ <- _. }
  destruct recordErr as [err|]; [by intro_pairs|].
  assert (Hseen : forall o, o ∈ list_to_set (C := gset Origin) (map candidate_Origin fresh) ∪ seen0
                    <-> o ∈ seen0 \/ o ∈ map candidate_Origin fresh).
  { intros o. rewrite elem_of_union, elem_of_list_to_set. apply or_comm. }
  destruct (parsed page); cbn [negb]; [|by intro_pairs].
  pose proof (enqueue_ok (depth entry + 1) visited (Internal (links page)) rest queued false ltac:(lia) Hrest) as Henq.
  destruct (fold_left _ _ _) as [[frontier' queued'] exhausted]. by intro_pairs.
Qed.

Lemma gets_requests us : gets (map ce_get us) = us.
Proof. induction us as [|u us IH]; [done|]. cbn. by f_equal. Qed.

Lemma requests_quiet us : page_reports (map ce_get us) = [] /\ recorded (map ce_get us) = [] /\ Forall is_work (map ce_get us).
Proof.
  induction us as [|u us (IHp & IHr & IHw)]; split_and!; try done; try constructor; done.
Qed.

(** The requests of one page, with nothing else. *)
Lemma stretch_requests st st' us :
  Forall (on_source sourceURL) us -> (length us <= page_requests)%nat ->
  PagesAttempted (crawl_result st') = PagesAttempted (crawl_result st) + 1 ->
  stretch 1 st st' true (map ce_get us).
Proof.
  intros Hu Hn Hp. destruct (requests_quiet us) as (Hpages & Hrec & Hw).
  split; rewrite ?gets_requests, ?Hpages, ?Hrec; try done; try (by constructor).
  - lia.
  - exists O. split_and!; [lia|done|lia|done].
  - by intros o ?%elem_of_nil.
Qed.

(** A reported page, with its requests and its batch. *)
Lemma stretch_page ended st st' us a fresh :
  Forall (on_source sourceURL) us -> (length us <= page_requests)%nat ->
  Sequence a = PagesAttempted (crawl_result st) + 1 -> 0 <= Depth a <= MaxDepth config ->
  PagesAttempted (crawl_result st') = PagesAttempted (crawl_result st) + 1 ->
  NoDup (map candidate_Origin fresh) ->
  (forall o, o ∈ map candidate_Origin fresh -> (o ∉ seen st) /\ o <> source) ->
  (ended = false ->
     (forall o, o ∈ seen st' <-> o ∈ seen st \/ o ∈ map candidate_Origin fresh)
     /\ CandidatesDiscovered (crawl_result st')
        = CandidatesDiscovered (crawl_result st) + Z.of_nat (length fresh)) ->
  stretch 1 st st' ended (map ce_get us ++ ce_page a :: batch fresh).
Proof.
  intros Hu Hn Hs Hd Hp Hnd Hf Hend. destruct (requests_quiet us) as (Hpages & Hrec & Hw).
  destruct (batch_quiet fresh) as (Hbg & Hbp & Hbw).
  assert (Hg : gets (map ce_get us ++ ce_page a :: batch fresh) = us).
  { rewrite gets_app, gets_requests. cbn. unfold gets in Hbg. rewrite Hbg. apply app_nil_r. }
  assert (Hr : recorded (map ce_get us ++ ce_page a :: batch fresh) = map candidate_Origin fresh).
  { rewrite recorded_app, Hrec. cbn. apply recorded_batch. }
  assert (Hpr : page_reports (map ce_get us ++ ce_page a :: batch fresh) = [a]).
  { rewrite page_reports_app, Hpages. cbn. f_equal. exact Hbp. }
  split; rewrite ?Hg, ?Hr, ?Hpr; try done.
  - apply Forall_app. split; [done|]. by constructor.
  - lia.
  - exists 1%nat. split_and!; [lia| |lia|lia]. cbn [map]. rewrite Hs. done.
  - by constructor.
  - intros He. rewrite length_map. by apply Hend.
Qed.

Abbreviation one_page := (crawl_page config traced_clock ParseTime traced_get close_fails traced_timeout
  traced_page traced_record).

Lemma PagesAttempted_note page r : PagesAttempted (note_failure page r) = PagesAttempted r.
Proof. unfold note_failure. by case_head. Qed.

Lemma CandidatesDiscovered_note page r : CandidatesDiscovered (note_failure page r) = CandidatesDiscovered r.
Proof. unfold note_failure. by case_head. Qed.

Lemma crawl_page_trace ctx runID entry rest st w log w' log' st' e :
  0 <= depth entry <= MaxDepth config -> Forall (fun e => 0 <= depth e <= MaxDepth config) rest ->
  one_page ctx runID source entry rest st (w, log) = ((w', log'), (st', e)) ->
  state_ok st' /\ exists evs, log' = log ++ evs
    /\ stretch 1 st st' (match e with Return _ => true | _ => false end) evs.
Proof using source_parses.
  intros Hd Hrest. unfold crawl_page. change (Z.to_nat MaxAttemptsPerCycle - 1)%nat with 1%nat.
  destruct (page_attempts _ _ _ _ _ _ _ _ _ _ _ _) as [[w1 log1] [[[a page] v] pe]] eqn:Hatt.
  apply page_attempts_trace in Hatt as [Hp (us & -> & Hu & Hn)]. fold page_requests in Hn.
  destruct (ctx (w1, _)) as [parentErr|].
  { intro_pairs. split; [done|]. exists (map ce_get us). split; [done|]. by apply stretch_requests. }
  cbv zeta. rewrite PagesAttempted_note. unfold traced_page at 1, trace.
  destruct (RecordPageAttempt _ _ _) as [w2 [err|]].
  { intro_pairs. split; [done|]. rewrite <- app_assoc. eexists. split; [done|].
    apply (stretch_page true _ _ us _ []); cbn; rewrite ?PagesAttempted_note; try done; [constructor|].
    by intros o ?%elem_of_nil. }
  assert (Hnone : forall e', e' = Break \/ e' = Continue ->
    stretch 1 st (mkCrawl rest (queued st) v (seen st) (note_failure page (count_page (crawl_result st)))
                    (Z.of_nat (length rest)))
      (match e' with Return _ => true | _ => false end)
      (map ce_get us ++ [ce_page (set_crawl (PagesAttempted (count_page (crawl_result st))) (depth entry)
         (failureCategory page) (Z.of_nat (length (Internal (links page)) + length (Candidates (links page))))
         (if parsed page then enqueued_count config v (queued st) (depth entry + 1) (Internal (links page)) else 0) a)])).
  { intros e' He'. apply (stretch_page _ _ _ us _ []);
      cbn; rewrite ?PagesAttempted_note, ?CandidatesDiscovered_note; try done; [constructor| |].
    - by intros o ?%elem_of_nil.
    - intros _. split; [|cbn; lia]. intros o. split; [by left|]. by intros [?|?%elem_of_nil]. }
  case_head.
  { intro_pairs. split; [done|]. rewrite <- app_assoc. eexists. split; [done|]. apply (Hnone Break). by left. }
  destruct pe as [pageContextErr|].
  { intro_pairs. split; [done|]. rewrite <- app_assoc. eexists. split; [done|]. apply (Hnone Continue). by right. }
  intros Habs. apply absorb_trace in Habs as (Hok & -> & Hb & Hpa & Hcont); [|done|lia|done].
  split; [done|]. rewrite <- !app_assoc. eexists. split; [done|].
  destruct (fresh_spec (seen st) page Hp) as [Hnd Hf].
  rewrite PagesAttempted_note in Hpa. rewrite CandidatesDiscovered_note in Hcont.
  apply stretch_page; try done. intros He. apply Hcont. by destruct e.
Qed.

Lemma pop_spec visited front entry rest :
  pop visited front = Some (entry, rest) ->
  exists skipped, front = skipped ++ entry :: rest /\ (url_String (pageURL entry) ∉ visited).
Proof.
  induction front as [|e front IH]; [done|]. cbn [pop]. case_bool_decide as Hv.
  - intros (skipped & -> & ?)%IH. by exists (e :: skipped).
  - intros [= -> ->]. by exists [].
Qed.

(** Nothing happened. *)
Lemma stretch_nil n st st' ended :
  PagesAttempted (crawl_result st') = PagesAttempted (crawl_result st) -> seen st' = seen st ->
  CandidatesDiscovered (crawl_result st') = CandidatesDiscovered (crawl_result st) -> stretch n st st' ended [].
Proof.
  intros Hp Hs Hc. split; cbn; try (by constructor).
  - lia.
  - exists O. split_and!; [lia|done|lia|lia].
  - by intros o ?%elem_of_nil.
  - intros _. rewrite Hs. split; [|lia]. intros o. split; [by left|]. by intros [?|?%elem_of_nil].
Qed.

Lemma stretch_wait n st st' ended d evs : stretch n st st' ended evs -> stretch n st st' ended (ce_wait d :: evs).
Proof. intros [Hw Hg Hc Hs Hd Hn Hf Hse]. split; try done. by constructor. Qed.

Abbreviation crawling := (crawl_loop config traced_clock ParseTime traced_get close_fails traced_wait traced_timeout
  traced_page traced_record).

Lemma crawl_loop_trace left ctx runID st w log w' log' st' e :
  state_ok st -> crawling left ctx runID source st (w, log) = ((w', log'), (st', e)) ->
  exists evs, log' = log ++ evs /\ stretch left st st' (bool_decide (e <> None)) evs.
Proof using source_parses.
  revert st w log. induction left as [|left IH]; intros st w log Hst; cbn [crawl_loop];
    destruct (pop (visited st) (frontier st)) as [[entry rest]|] eqn:Hpop.
  all: try (intro_pairs; exists []; rewrite app_nil_r; split; [done|by apply stretch_nil]).
  destruct (pop_spec _ _ _ _ Hpop) as (skipped & Hfr & _). unfold state_ok in Hst. rewrite Hfr in Hst.
  apply Forall_app in Hst as [_ [Hd Hrest]%Forall_cons].
  assert (Hpage : forall w log, match crawl_page config traced_clock ParseTime traced_get close_fails
      traced_timeout traced_page traced_record ctx runID source entry rest st (w, log) with
    | (w, (st, Continue)) => crawling left ctx runID source st w
    | (w, (st, Break)) => (w, (st, None))
    | (w, (st, Return err)) => (w, (st, Some err))
    end = ((w', log'), (st', e)) ->
    exists evs, log' = log ++ evs /\ stretch (S left) st st' (bool_decide (e <> None)) evs).
  { intros w0 log0. destruct (crawl_page _ _ _ _ _ _ _ _ _ _ _ _ _ _ _) as [[w1 log1] [st1 pe]] eqn:Hp.
    apply crawl_page_trace in Hp as (Hst1 & evs & -> & Hs); [|done|done]. destruct pe as [| |err].
    - intros (evs2 & -> & Hs2)%IH; [|done]. exists (evs ++ evs2). rewrite app_assoc. split; [done|].
      by apply (stretch_trans 1 left st st1).
    - intro_pairs. exists (evs ++ []). rewrite app_nil_r at 1. split; [done|].
      apply (stretch_trans 1 left st st1); [done|]. by apply stretch_nil.
    - intro_pairs. exists evs. split; [done|]. rewrite bool_decide_eq_true_2 by done.
      destruct Hs as [? ? ? (k & ? & ? & ? & _) ? ? ? _]. split; try done; [lia|].
      exists k. split_and!; [lia|done|lia|done]. }
  destruct ((0 <? PagesAttempted (crawl_result st)) && (0 <? RequestDelay config)); [|apply Hpage].
  unfold traced_wait at 1, trace. destruct (waiter _ w _) as [w1 [err|]].
  - intro_pairs. eexists. split; [done|]. apply stretch_wait. by apply stretch_nil.
  - intros (evs & -> & Hs)%Hpage. rewrite <- app_assoc. eexists. split; [done|]. by apply stretch_wait.
Qed.

(** The trace of a whole crawl. *)
Record crawl_trace (r : CrawlResult) (err : option error) (body : list crawl_event) : Prop := {
  trace_work : Forall is_work body;
  trace_gets : Forall (on_source sourceURL) (gets body);
  trace_count : (length (gets body) <= Z.to_nat (MaxPages config) * page_requests)%nat;
  trace_sequence : exists m, (m <= Z.to_nat (MaxPages config))%nat
    /\ map Sequence (page_reports body) = seqZ 1 (Z.of_nat m);
  trace_depth : Forall (fun a => 0 <= Depth a <= MaxDepth config) (page_reports body);
  trace_pages : PagesAttempted r <= MaxPages config;
  trace_NoDup : NoDup (recorded body);
  trace_source : source ∉ recorded body;
  trace_discovered : err = None -> CandidatesDiscovered r = Z.of_nat (length (recorded body));
}.

Hypothesis config_valid : validCrawlConfig config = true.

Abbreviation run := (crawl_run config traced_clock ParseTime traced_get close_fails traced_wait traced_timeout
  traced_page traced_record traced_finalize).

Lemma crawl_trace_of_stretch root st' (e : option error) evs tail :
  stretch (Z.to_nat (MaxPages config))
    (mkCrawl [mkEntry root 0] {[ url_String root ]} ∅ ∅ (mkCrawlResult source 0 0 0 false CategoryNone 0) 0)
    st' (bool_decide (e <> None)) evs ->
  (tail = [] \/ tail = [ce_finalize]) ->
  forall e' : option error, (e' = None -> e = None) -> crawl_trace (crawl_result st') e' (evs ++ tail).
Proof using config_valid.
  intros [Hw Hg Hc (m & Hm & Hs & Hp & _) Hd Hn Hf Hse] Htail e' He.
  assert (Hpos : 0 < MaxPages config) by (unfold validCrawlConfig in config_valid; b2p; lia).
  assert (Ht : gets tail = [] /\ page_reports tail = [] /\ recorded tail = [] /\ Forall is_work tail).
  { destruct Htail as [->| ->]; split_and!; try done; by repeat constructor. }
  destruct Ht as (Htg & Htp & Htr & Htw).
  split; rewrite ?gets_app, ?page_reports_app, ?recorded_app, ?Htg, ?Htp, ?Htr, ?app_nil_r; try done.
  - by apply Forall_app.
  - exists m. by split.
  - cbn in Hp. lia.
  - intros Hin. by apply Hf in Hin as [_ ?].
  - intros ->. rewrite (He eq_refl) in Hse. destruct Hse as [_ Hcand]; [done|]. cbn in Hcand. lia.
Qed.

Lemma run_trace ctx runID w log w' log' st e :
  run ctx runID source (w, log) = ((w', log'), (st, e)) ->
  exists body, log' = log ++ body /\ crawl_trace (crawl_result st) e body.
Proof using source_parses config_valid.
  unfold crawl_run. cbv zeta. destruct (url_Parse (origin_String source ++ bs "/")) as [root|].
  2:{ intro_pairs. exists []. rewrite app_nil_r. split; [done|].
      split; cbn; [by apply Forall_nil|by apply Forall_nil|lia|exists O; split; [lia|done]|by apply Forall_nil| |by apply NoDup_nil|by intros ?%elem_of_nil|done].
      unfold validCrawlConfig in config_valid. b2p. lia. }
  destruct (crawl_loop _ _ _ _ _ _ _ _ _ _ _ _ _ _ _) as [[w1 log1] [st1 e1]] eqn:Hl.
  apply crawl_loop_trace in Hl as (evs & -> & Hs).
  2:{ constructor; [|done]. cbn [depth]. unfold validCrawlConfig in config_valid. b2p. lia. }
  destruct e1 as [err|].
  { intro_pairs. exists (evs ++ []). rewrite app_nil_r at 1. split; [done|].
    apply (crawl_trace_of_stretch root st1 (Some err)); [done|by left|done]. }
  unfold finalize. destruct (0 <? runID); [|intro_pairs; exists (evs ++ []); rewrite app_nil_r at 1; split; [done|];
    apply (crawl_trace_of_stretch root st1 None); [done|by left|done]].
  unfold traced_finalize. destruct FinalizeCandidates as [finalizer|]; cbn [option_map].
  2:{ intro_pairs. exists (evs ++ []). rewrite app_nil_r at 1. split; [done|].
      apply (crawl_trace_of_stretch root st1 None); [done|by left|done]. }
  unfold trace. destruct (finalizer _ w1 runID) as [w2 [err|]]; intro_pairs;
    (rewrite <- app_assoc; eexists; split; [done|];
     apply (crawl_trace_of_stretch root st1 None); [done|by right|done]).
Qed.

(** C35: A crawl of one origin stays within its bounds in every environment:
    every request goes to the source's own scheme and host; there are at most
    [MaxPages] pages, numbered in order and no deeper than [MaxDepth], and at
    most two attempts with [RedirectLimit] redirects each per page; every other
    origin is handed to the sink at most once and the source never; the result
    counts what was handed over. A run that was begun is finished exactly once,
    as the last thing, with the result the caller gets. *)
Theorem Crawl_correct ctx w w' log r err :
  ctx w = None -> origin_String source <> [] ->
  Crawl config traced_clock ParseTime traced_get close_fails traced_wait traced_timeout traced_begin traced_page
    traced_finish traced_record traced_finalize (Some (ctx_lift ctx)) source (w, []) = ((w', log), (r, err)) ->
  (log = [ce_begin] /\ err <> None)
  \/ exists body outcome remaining, log = ce_begin :: body ++ [ce_finish r outcome remaining]
      /\ crawl_trace r err body.
Proof using source_parses config_valid.
  intros Hctx Hsrc. unfold Crawl, crawler_validate. unfold ctx_lift at 1. cbn [fst]. rewrite Hctx, config_valid.
  destruct (bytes_eqb_spec (origin_String source) []) as [|_]; [done|]. cbn [negb].
  unfold traced_begin, trace at 1. destruct (BeginCrawl _ w _) as [w1 [runID|e]].
  2:{ intro_pairs. by left. }
  destruct (crawl_run _ _ _ _ _ _ _ _ _ _ _ _ _ _) as [[w2 log2] [st e]] eqn:Hr.
  apply run_trace in Hr as (body & -> & Ht). destruct (run_outcome _ _ _) as [outcome reason].
  unfold traced_finish, trace at 1. destruct (FinishCrawl _ w2 _) as [w3 fe]. intro_pairs. right.
  exists body, outcome, (frontierRemaining st). split; [done|].
  destruct Ht as [? ? ? ? ? ? ? ? Hdisc]. split; try done. intros He. apply Hdisc. by destruct e.
Qed.
End Facts.

Module CrawlerWitnesses.
Import Concrete.
Import DiscoveryWitnesses.

(** Two pages at most, one level deep; every page is served and has the three
    links of the library above. The state counts the requests. *)
Definition crawl_config : CrawlConfig := mkCrawlConfig 1 2 1000 Second 3 Minute 0.
Definition serve (_ : nat -> option error) : call nat URL (res error (option Response)) :=
  fun n _ => (S n, Ok (Some (mkResponse 200 [] [] [bs "text/html"] (Some (Some (bs "<html>")))))).
Definition accept {A} (_ : nat -> option error) : call nat A (option error) := fun n _ => (n, None).
Definition begin (_ : nat -> option error) : call nat (Origin * CrawlConfig) (res error Z) := fun n _ => (n, Ok 1).
Definition never (_ : nat) : option error := None.

Definition example_crawl :=
  Crawl crawl_config (traced_clock (fun _ => Hour)) (fun _ => None) (traced_get serve) (fun _ => false)
    (traced_wait accept) (traced_timeout (fun ctx _ _ => ctx)) (traced_begin begin) (traced_page accept)
    (traced_finish accept) (traced_record accept) (traced_finalize (Some accept))
    (Some (ctx_lift never)) example_origin (O, []).

Definition example_result : CrawlResult := mkCrawlResult example_origin 2 2 1 false CategoryNone 0.

Lemma example_crawl_result : snd example_crawl = (example_result, None).
Proof. vm_cast_no_check (eq_refl (example_result, @None error)). Qed.

Lemma Crawl_correct_witness :
  snd example_crawl = (example_result, None)
  /\ exists body outcome remaining,
       snd (fst example_crawl) = ce_begin :: body ++ [ce_finish example_result outcome remaining]
       /\ Forall (on_source source_URL) (gets body) /\ CandidatesDiscovered example_result = Z.of_nat (length (recorded body)).
Proof.
  pose proof example_crawl_result as Hr. split; [exact Hr|].
  destruct example_crawl as [[w' log] [r err]] eqn:Hrun. cbn [fst snd] in *.
  apply pair_equal_spec in Hr as [-> ->].
  destruct (Crawl_correct crawl_config (fun _ => Hour) (fun _ => None) serve (fun _ => false) accept
    (fun ctx _ _ => ctx) begin accept accept accept (Some accept) example_origin source_URL
    ltac:(by vm_compute) ltac:(by vm_compute) never O w' log example_result None eq_refl ltac:(done) Hrun)
    as [[_ Hno]|(body & outcome & remaining & -> & Ht)]; [congruence|].
  exists body, outcome, remaining. split; [reflexivity|]. split; [apply Ht|]. by apply Ht.
Defined.
End CrawlerWitnesses.
