(* ===== verification/CrawlTables.v ===== *)
(** * The tables of discovery

    The rows and tables that the crawl runner, the discovery store and the
    operator write ([internal/store/migrations]): crawl runs and their page
    attempts, discovered edges, automatic admission, avoid rules, heartbeats
    and audit events. [Store] puts them into the database beside the tables of
    the verification queue. *)

From S2P Require Import Prelude GoText Retry Origin Discovery Crawler.

#[export] Instance Kind_eq_dec : EqDecision Kind.
Proof. solve_decision. Defined.

#[export] Instance Kind_countable : Countable Kind.
Proof.
  apply (inj_countable' (fun k => match k with KindLink => true | KindRedirect => false end)
           (fun b : bool => if b then KindLink else KindRedirect)). by intros [].
Defined.

(** A row of [discovery_source_state]. *)
Record SourceState : Type := mkSource {
  seeded : bool;
  automatically_discovered : bool;
  operator_blocked : bool;
  crawl_blocked : bool;
  last_attempted_at : option Z;
  source_failures : Z;
  source_failure_category : option Category;
  source_next_attempt_at : option Z;
  source_generation : Z;
  source_owner : option bytes;
  source_claimed_at : option Z;
  source_expires_at : option Z;
}.

(** The columns' defaults. *)
Definition new_source : SourceState :=
  mkSource false false false false None 0 None None 0 None None None.

(** A row of [discovery_candidates]. *)
Record CandidateRow : Type := mkCandidateRow {
  first_discovered_at : Z;
  last_discovered_at : Z;
  candidate_failures : Z;
  candidate_failure_category : option Category;
  candidate_next_attempt_at : option Z;
}.

(** The counters a run keeps beside its outcome. *)
Record RunSummary : Type := mkSummary {
  pages_attempted : Z;
  pages_parsed : Z;
  candidates_discovered : Z;
  budget_exhausted : bool;
  run_failure_category : bytes;
  pages_blocked : Z;
  pages_failed : Z;
  urls_found : Z;
  urls_enqueued : Z;
  frontier_remaining : Z;
}.

Definition new_summary : RunSummary := mkSummary 0 0 0 false (bs "none") 0 0 0 0 0.

(** A row of [crawl_runs]; the outcome [None] is ['running']. *)
Record RunRow : Type := mkRun {
  run_source : bytes;
  run_started_at : Z;
  run_finished_at : option Z;
  run_status : option CrawlRunOutcome;
  run_stop_reason : bytes;
  run_limits : CrawlConfig;
  max_automatic_promotions : Z;
  automatic_promotions : Z;
  run_summary : RunSummary;
  promotions_admitted : Z;
  promotions_deferred : Z;
}.

(** [outcome] of [crawl_run_automatic_admission_batches] *)
Inductive AdmissionOutcome : Type :=
| pending | promoted | capacity_deferred | policy_deferred | retry_deferred | expansion_paused
| network_rejected | existing.

#[export] Instance AdmissionOutcome_eq_dec : EqDecision AdmissionOutcome.
Proof. solve_decision. Defined.

Record BatchRow : Type := mkBatch {
  discovered_run_id : Z;
  batch_outcome : AdmissionOutcome;
  batch_failures : Z;
  batch_failure_category : option Category;
  batch_next_attempt_at : option Z;
}.

(** [ServiceHeartbeat]; the key of its row is the service and the instance. *)
Record ServiceHeartbeat : Type := mkHeartbeat {
  heartbeat_Service : bytes;
  heartbeat_InstanceID : bytes;
  heartbeat_State : bytes;
  heartbeat_CurrentOrigin : bytes;
  heartbeat_Message : bytes;
  heartbeat_BuildVersion : bytes;
  heartbeat_BuildCommit : bytes;
  heartbeat_StartedAt : Z;
  heartbeat_UpdatedAt : Z;
}.

(** [control.Audit] *)
Record Audit : Type := mkAudit {
  OccurredAt : Z;
  audit_Action : bytes;
  audit_Target : bytes;
  audit_Caller : bytes;
  audit_Actor : bytes;
  audit_Result : bytes;
  audit_Reason : bytes;
}.

Record CrawlTables : Type := mkCrawlTables {
  (** [discovery_edges]: first and last discovery by source, candidate, kind *)
  edges : gmap (bytes * bytes * Kind) (Z * Z);
  (** [crawl_runs] by id, and the last id the sequence gave out *)
  runs : gmap Z RunRow;
  last_run : Z;
  (** [crawl_page_attempts] *)
  page_attempts_of : gmap (Z * Z) PageAttempt;
  (** [crawl_run_discovery_candidates] *)
  run_candidates : gset (Z * bytes * Kind);
  (** [crawl_run_automatic_admission_batches] by run and candidate *)
  batches : gmap (Z * bytes) BatchRow;
  (** [discovery_candidate_admission_state] *)
  admissions : gmap bytes (AdmissionOutcome * Z);
  (** [crawl_domain_avoid_rules] *)
  avoid_rules : gset bytes;
  (** [crawl_control], beside [verification_paused] *)
  discovery_paused : bool;
  automatic_expansion_paused : bool;
  control_updated_at : Z;
  heartbeats : gmap (bytes * bytes) ServiceHeartbeat;
  audits : list Audit;
}.

Definition empty_crawl : CrawlTables :=
  mkCrawlTables ∅ ∅ 0 ∅ ∅ ∅ ∅ ∅ false false 0 ∅ [].

(** Updates of one table. *)
Definition set_edges (m : gmap (bytes * bytes * Kind) (Z * Z)) (c : CrawlTables) : CrawlTables :=
  mkCrawlTables m (runs c) (last_run c) (page_attempts_of c) (run_candidates c) (batches c) (admissions c)
    (avoid_rules c) (discovery_paused c) (automatic_expansion_paused c) (control_updated_at c) (heartbeats c)
    (audits c).
Definition set_runs (m : gmap Z RunRow) (last : Z) (c : CrawlTables) : CrawlTables :=
  mkCrawlTables (edges c) m last (page_attempts_of c) (run_candidates c) (batches c) (admissions c)
    (avoid_rules c) (discovery_paused c) (automatic_expansion_paused c) (control_updated_at c) (heartbeats c)
    (audits c).
Definition set_page_attempts (m : gmap (Z * Z) PageAttempt) (c : CrawlTables) : CrawlTables :=
  mkCrawlTables (edges c) (runs c) (last_run c) m (run_candidates c) (batches c) (admissions c)
    (avoid_rules c) (discovery_paused c) (automatic_expansion_paused c) (control_updated_at c) (heartbeats c)
    (audits c).
Definition set_run_candidates (s : gset (Z * bytes * Kind)) (c : CrawlTables) : CrawlTables :=
  mkCrawlTables (edges c) (runs c) (last_run c) (page_attempts_of c) s (batches c) (admissions c)
    (avoid_rules c) (discovery_paused c) (automatic_expansion_paused c) (control_updated_at c) (heartbeats c)
    (audits c).
Definition set_batches (m : gmap (Z * bytes) BatchRow) (c : CrawlTables) : CrawlTables :=
  mkCrawlTables (edges c) (runs c) (last_run c) (page_attempts_of c) (run_candidates c) m (admissions c)
    (avoid_rules c) (discovery_paused c) (automatic_expansion_paused c) (control_updated_at c) (heartbeats c)
    (audits c).
Definition set_admissions (m : gmap bytes (AdmissionOutcome * Z)) (c : CrawlTables) : CrawlTables :=
  mkCrawlTables (edges c) (runs c) (last_run c) (page_attempts_of c) (run_candidates c) (batches c) m
    (avoid_rules c) (discovery_paused c) (automatic_expansion_paused c) (control_updated_at c) (heartbeats c)
    (audits c).
Definition set_avoid_rules (s : gset bytes) (c : CrawlTables) : CrawlTables :=
  mkCrawlTables (edges c) (runs c) (last_run c) (page_attempts_of c) (run_candidates c) (batches c)
    (admissions c) s (discovery_paused c) (automatic_expansion_paused c) (control_updated_at c) (heartbeats c)
    (audits c).
Definition set_control (discovery automatic : bool) (at_ : Z) (c : CrawlTables) : CrawlTables :=
  mkCrawlTables (edges c) (runs c) (last_run c) (page_attempts_of c) (run_candidates c) (batches c)
    (admissions c) (avoid_rules c) discovery automatic at_ (heartbeats c) (audits c).
Definition set_heartbeats (m : gmap (bytes * bytes) ServiceHeartbeat) (c : CrawlTables) : CrawlTables :=
  mkCrawlTables (edges c) (runs c) (last_run c) (page_attempts_of c) (run_candidates c) (batches c)
    (admissions c) (avoid_rules c) (discovery_paused c) (automatic_expansion_paused c) (control_updated_at c) m
    (audits c).
Definition set_audits (l : list Audit) (c : CrawlTables) : CrawlTables :=
  mkCrawlTables (edges c) (runs c) (last_run c) (page_attempts_of c) (run_candidates c) (batches c)
    (admissions c) (avoid_rules c) (discovery_paused c) (automatic_expansion_paused c) (control_updated_at c)
    (heartbeats c) l.
