(* ===== verification/Store.v ===== *)
(** * The observation store ([internal/store/store.go])

    PostgreSQL tables as finite maps keyed by the origin's serialization, the
    statement that records a verification, and the query that reads the state
    of an origin. Driver and connection failures abort a statement's
    transaction and are not modelled. *)

From S2P Require Import Prelude GoText GoUrl GoErrors GoNetip GoJson Retry Origin Netguard.
From S2P Require Import RobotsMatch RobotsPolicy RobotsPolicyFacts RobotsHTTP Declaration Verifier.
From S2P Require Export CrawlTables.

(** A timestamp parameter is sent with microsecond precision, rounded down. *)
Definition pg_time (t : Z) : Z := t / Microsecond * Microsecond.

(** ** Tables *)

(** A row of [origins]. *)
Record OriginRow : Type := mkOriginRow {
  first_observed_at : Z;
  first_participated_at : option Z;
  initial_declaration : option (Z * Identity);
  latest_check_at : option Z;
  latest_check_outcome : option Outcome;
}.

(** A row of [verification_observations]; the list position stands for the
    generated id. *)
Record ObservationRow : Type := mkObservation {
  obs_origin : bytes;
  obs_at : Z;
  obs_outcome : Outcome;
  obs_declaration : option (Z * Identity);
}.

Inductive Mode : Type := recurring | probe | reprobe.

#[export] Instance Mode_eq_dec : EqDecision Mode.
Proof. solve_decision. Defined.

(** A row of [verification_queue]. *)
Record QueueRow : Type := mkRow {
  available_at : Z;
  mode : Mode;
  consecutive_failures : Z;
  last_failure_category : option Category;
  next_attempt_at : option Z;
  lease_generation : Z;
  lease_owner : option bytes;
  lease_expires_at : option Z;
  last_claimed_at : option Z;
}.

Record Database : Type := mkDatabase {
  origins : gmap bytes OriginRow;
  observations : list ObservationRow;
  reprobe_state : gmap bytes Z;
  queue : gmap bytes QueueRow;
  source_schedule : gset bytes;
  source_state : gmap bytes SourceState;
  candidates : gmap bytes CandidateRow;
  verification_paused : bool;
  crawl : CrawlTables;
}.

Definition empty_database : Database := mkDatabase ∅ [] ∅ ∅ ∅ ∅ ∅ false empty_crawl.

Definition set_queue (db : Database) (m : gmap bytes QueueRow) : Database :=
  mkDatabase (origins db) (observations db) (reprobe_state db) m (source_schedule db)
    (source_state db) (candidates db) (verification_paused db) (crawl db).

Definition set_source_state (db : Database) (m : gmap bytes SourceState) : Database :=
  mkDatabase (origins db) (observations db) (reprobe_state db) (queue db) (source_schedule db)
    m (candidates db) (verification_paused db) (crawl db).
Definition set_source_schedule (db : Database) (s : gset bytes) : Database :=
  mkDatabase (origins db) (observations db) (reprobe_state db) (queue db) s (source_state db)
    (candidates db) (verification_paused db) (crawl db).
Definition set_candidates (db : Database) (m : gmap bytes CandidateRow) : Database :=
  mkDatabase (origins db) (observations db) (reprobe_state db) (queue db) (source_schedule db)
    (source_state db) m (verification_paused db) (crawl db).
Definition set_verification_paused (db : Database) (b : bool) : Database :=
  mkDatabase (origins db) (observations db) (reprobe_state db) (queue db) (source_schedule db)
    (source_state db) (candidates db) b (crawl db).
Definition set_observations (db : Database) (l : list ObservationRow) : Database :=
  mkDatabase (origins db) l (reprobe_state db) (queue db) (source_schedule db)
    (source_state db) (candidates db) (verification_paused db) (crawl db).
Definition with_crawl (db : Database) (f : CrawlTables -> CrawlTables) : Database :=
  mkDatabase (origins db) (observations db) (reprobe_state db) (queue db) (source_schedule db)
    (source_state db) (candidates db) (verification_paused db) (f (crawl db)).

(** A statement of a store method in an environment [W] that holds the
    database. [validate] rejects an ended context; between the call and its
    statement time passes, other sessions commit, or the driver fails and the
    statement is not executed ([before]). *)
Definition execute {W R} (set_db : W -> Database -> W) (before : W -> W * option error) (fail : error -> R)
    (ctx : W -> option error) (w : W) (f : W -> Database * R) : W * R :=
  match ctx w with
  | Some e => (w, fail e)
  | None =>
      match before w with
      | (w, Some e) => (w, fail (wrap e))
      | (w, None) => let '(d, r) := f w in (set_db w d, r)
      end
  end.

(** ** Recording a verification *)

(** [storedDeclarationValues] *)
Definition storedDeclarationValues (r : Result) : option (Z * Identity) :=
  if bool_decide (result_Outcome r <> OutcomeValid) then None
  else Some (Version (result_Declaration r), declared (result_Declaration r)).

Definition shouldReprobeOutcome (o : Outcome) : bool :=
  match o with
  | OutcomeAbsent | OutcomeInvalid | OutcomeUnsupportedVersion | OutcomeRobotsDenied
  | OutcomeCrossOriginRedirect => true
  | _ => false
  end.

Definition is_valid (o : Outcome) : bool := match o with OutcomeValid => true | _ => false end.

(** The row [recorded_origin] proposes. *)
Definition proposed_origin (at_ : Z) (o : Outcome) (d : option (Z * Identity)) : OriginRow :=
  mkOriginRow at_ (if is_valid o then Some at_ else None) (if is_valid o then d else None) (Some at_) (Some o).

(** SQL comparison with a possible NULL on the stored side. *)
Definition sooner (candidate stored : option Z) : bool :=
  match candidate with
  | None => false
  | Some c => match stored with None => true | Some s => c <? s end
  end.
Definition not_older (candidate stored : option Z) : bool :=
  match stored with
  | None => true
  | Some s => match candidate with None => false | Some c => s <=? c end
  end.

(** [ON CONFLICT (origin) DO UPDATE] of [recorded_origin]. *)
Definition merge_origin (stored excluded : OriginRow) : OriginRow :=
  let participates := sooner (first_participated_at excluded) (first_participated_at stored) in
  let newest := not_older (latest_check_at excluded) (latest_check_at stored) in
  mkOriginRow
    (Z.min (first_observed_at stored) (first_observed_at excluded))
    (if participates then first_participated_at excluded else first_participated_at stored)
    (if participates then initial_declaration excluded else initial_declaration stored)
    (if newest then latest_check_at excluded else latest_check_at stored)
    (if newest then latest_check_outcome excluded else latest_check_outcome stored).

Definition upsert_origin (m : gmap bytes OriginRow) (key : bytes) (row : OriginRow) : gmap bytes OriginRow :=
  <[key := match m !! key with Some stored => merge_origin stored row | None => row end]> m.

Definition add_misses (m : gmap bytes Z) (key : bytes) (miss : Z) : gmap bytes Z :=
  <[key := default 0 (m !! key) + miss]> m.

(** The three table updates [RecordVerification] and [CompleteVerification]
    share: [recorded_origin], [recorded_reprobe_state] and the observation. *)
Definition record_observation (db : Database) (key : bytes) (at_ : Z) (o : Outcome)
    (d : option (Z * Identity)) : Database :=
  mkDatabase
    (upsert_origin (origins db) key (proposed_origin at_ o d))
    (observations db ++ [mkObservation key at_ o d])
    (add_misses (reprobe_state db) key (if shouldReprobeOutcome o then 1 else 0))
    (queue db) (source_schedule db) (source_state db) (candidates db) (verification_paused db) (crawl db).

Definition RecordVerification (db : Database) (observedAt : Z) (r : Result) : Database * option error :=
  if bytes_eqb (origin_String (result_Origin r)) [] then (db, Some (errors_New store_errInvalidOrigin))
  else if time_IsZero observedAt then (db, Some (errors_New errInvalidObservedAt))
  else if negb (validVerificationResult r) then (db, Some (errors_New errInvalidResult))
  else (record_observation db (origin_String (result_Origin r)) (pg_time observedAt)
          (result_Outcome r) (storedDeclarationValues r), None).

(** ** Reading the state of an origin *)

Inductive EffectiveState : Type := StateUnknown | StateVerified | StateNotVerified.

Record Observation : Type := mkObs {
  Obs_Outcome : Outcome;
  ObservedAt : Z;
  Obs_Declaration : Declaration;
}.

Record OriginState : Type := mkOriginState {
  state_Origin : Origin;
  FirstObservedAt : Z;
  Latest : Observation;
  Effective : EffectiveState * option Observation;
}.

Definition observationFromStored (row : ObservationRow) : Observation :=
  mkObs (obs_outcome row) (obs_at row)
    (match obs_declaration row with
     | Some (version, identity) => mkDeclaration version identity
     | None => zero_declaration
     end).

Definition effectiveStateForOutcome (o : Outcome) : EffectiveState :=
  match o with OutcomeValid => StateVerified | _ => StateNotVerified end.

(** The outcomes that are authoritative. *)
Definition authoritative (o : Outcome) : bool :=
  match o with
  | OutcomeValid | OutcomeAbsent | OutcomeInvalid | OutcomeUnsupportedVersion
  | OutcomeCrossOriginRedirect => true
  | _ => false
  end.

(** [ORDER BY observed_at DESC, id DESC LIMIT 1]: the greatest time, and among
    those the last inserted. *)
Definition newest (rows : list ObservationRow) : option ObservationRow :=
  fold_left (fun best row =>
    match best with
    | Some b => if obs_at b <=? obs_at row then Some row else best
    | None => Some row
    end) rows None.

Definition rows_of (db : Database) (key : bytes) : list ObservationRow :=
  List.filter (fun row => bytes_eqb (obs_origin row) key) (observations db).

(** [OriginState] *)
Definition query_OriginState (db : Database) (source : Origin) : res error (option OriginState) :=
  if bytes_eqb (origin_String source) [] then Err (errors_New store_errInvalidOrigin)
  else
    let key := origin_String source in
    match origins db !! key, newest (rows_of db key) with
    | Some row, Some latest =>
        let effective :=
          match newest (List.filter (fun row => authoritative (obs_outcome row)) (rows_of db key)) with
          | Some e => (effectiveStateForOutcome (obs_outcome e), Some (observationFromStored e))
          | None => (StateUnknown, None)
          end in
        Ok (Some (mkOriginState source (first_observed_at row) (observationFromStored latest) effective))
    | _, _ => Ok None
    end.

(** ** Facts *)

(** The summary of an origin's observations that its [origins] row keeps. *)
Definition summary (rows : list ObservationRow) (row : OriginRow) : Prop :=
  (forall o, o ∈ rows -> first_observed_at row <= obs_at o)
  /\ (exists o, o ∈ rows /\ first_observed_at row = obs_at o)
  /\ (exists o, newest rows = Some o /\ latest_check_at row = Some (obs_at o)
        /\ latest_check_outcome row = Some (obs_outcome o))
  /\ (forall t, first_participated_at row = Some t ->
        (exists o, o ∈ rows /\ obs_outcome o = OutcomeValid /\ obs_at o = t
           /\ initial_declaration row = obs_declaration o)
        /\ forall o, o ∈ rows -> obs_outcome o = OutcomeValid -> t <= obs_at o)
  /\ (first_participated_at row = None -> forall o, o ∈ rows -> obs_outcome o <> OutcomeValid).

Lemma newest_snoc rows row :
  newest (rows ++ [row]) =
    match newest rows with
    | Some b => if obs_at b <=? obs_at row then Some row else Some b
    | None => Some row
    end.
Proof. unfold newest. rewrite fold_left_app. cbn [fold_left]. by case_match. Qed.

Lemma is_valid_spec o : is_valid o = true <-> o = OutcomeValid.
Proof. by destruct o. Qed.

Lemma summary_single key at_ o d : summary [mkObservation key at_ o d] (proposed_origin at_ o d).
Proof.
  split_and!.
  - intros x ->%list_elem_of_singleton. cbn. lia.
  - eexists. split; [by left|done].
  - eexists. split; [done|done].
  - intros t. cbn [first_participated_at proposed_origin initial_declaration].
    destruct (is_valid o) eqn:Hv; [|done]. intros [= <-]. apply is_valid_spec in Hv as ->. split.
    + eexists. split_and!; [by left|done|done|done].
    + intros x ->%list_elem_of_singleton _. done.
  - intros Hn x ->%list_elem_of_singleton. cbn [first_participated_at proposed_origin obs_outcome] in *.
    by destruct o.
Qed.

Lemma summary_merge rows row key at_ o d :
  summary rows row -> summary (rows ++ [mkObservation key at_ o d]) (merge_origin row (proposed_origin at_ o d)).
Proof.
  intros (Hmin & (om & Hom & Hoe) & (on & Hnew & Hla & Hlo) & Hp & Hnp).
  assert (Hel : forall x, x ∈ rows ++ [mkObservation key at_ o d] <-> x ∈ rows \/ x = mkObservation key at_ o d)
    by (intros x; rewrite elem_of_app, list_elem_of_singleton; done).
  split_and!.
  - intros x [Hx| ->]%Hel; cbn [merge_origin first_observed_at proposed_origin obs_at]; [|lia].
    specialize (Hmin x Hx). lia.
  - cbn [merge_origin first_observed_at proposed_origin].
    destruct (Z.le_ge_cases (first_observed_at row) at_).
    + exists om. split; [apply Hel; by left|lia].
    + exists (mkObservation key at_ o d). split; [apply Hel; by right|cbn; lia].
  - rewrite newest_snoc, Hnew. cbn [merge_origin latest_check_at latest_check_outcome proposed_origin obs_at].
    rewrite Hla. cbn [not_older]. destruct (obs_at on <=? at_); eexists; done.
  - intros t. cbn [merge_origin first_participated_at initial_declaration proposed_origin].
    destruct (is_valid o) eqn:Hv.
    + apply is_valid_spec in Hv as ->. destruct (first_participated_at row) as [s|] eqn:Hs; cbn [sooner].
      * destruct (Hp s eq_refl) as [(os & ? & ? & ? & ?) Hmins]. destruct (Z.ltb_spec at_ s) as [Hlt|Hge].
        -- intros [= <-]. split; [eexists; split_and!; [apply Hel; by right|done|done|done]|].
           intros x [Hx| ->]%Hel Hxv; [|done]. specialize (Hmins x Hx Hxv). lia.
        -- intros [= <-]. split; [exists os; split_and!; [apply Hel; by left|done|done|done]|].
           intros x [Hx| ->]%Hel Hxv; [by apply Hmins|cbn; lia].
      * intros [= <-]. split; [eexists; split_and!; [apply Hel; by right|done|done|done]|].
        intros x [Hx| ->]%Hel Hxv; [|done]. by apply (Hnp eq_refl) in Hx.
    + cbn [sooner]. intros Ht. destruct (Hp t Ht) as [(os & ? & ? & ? & ?) Hmins].
      split; [exists os; split_and!; [apply Hel; by left|done|done|done]|].
      intros x [Hx| ->]%Hel Hxv; [by apply Hmins|]. cbn [obs_outcome] in Hxv. by subst.
  - cbn [merge_origin first_participated_at proposed_origin]. destruct (is_valid o) eqn:Hv.
    + destruct (first_participated_at row); cbn [sooner]; [by case_head|done].
    + cbn [sooner]. intros Hs x [Hx| ->]%Hel; [by apply Hnp|]. cbn [obs_outcome]. intros ->. done.
Qed.

(** The summary tables agree with the observations. *)
Definition consistent (db : Database) : Prop :=
  forall key,
    match origins db !! key with
    | Some row => summary (rows_of db key) row
    | None => rows_of db key = []
    end
    /\ default 0 (reprobe_state db !! key)
       = Z.of_nat (length (List.filter (fun row => shouldReprobeOutcome (obs_outcome row)) (rows_of db key))).

Lemma record_observation_consistent db key at_ o d :
  consistent db -> consistent (record_observation db key at_ o d).
Proof.
  intros Hc key'. destruct (Hc key') as [Hrow Hmiss].
  unfold rows_of in *. cbn [origins observations reprobe_state record_observation].
  rewrite List.filter_app. cbn [List.filter obs_origin]. unfold upsert_origin, add_misses.
  destruct (bytes_eqb_spec key key') as [->|Hne].
  - rewrite !lookup_insert_eq. split.
    + destruct (origins db !! key') as [row|]; [by apply summary_merge|]. rewrite Hrow. apply summary_single.
    + cbn [default]. rewrite List.filter_app, length_app, Nat2Z.inj_add, <- Hmiss. f_equal.
      cbn [List.filter obs_outcome]. by case_head.
  - rewrite app_nil_r, !lookup_insert_ne by done. done.
Qed.

(** Recording verifications keeps the summaries true: starting from
    consistent tables, whatever is recorded, each [origins] row keeps the
    earliest observation time, the time and outcome of the newest observation
    (the same one [OriginState] reports as latest), the earliest valid
    observation with its declaration, and the number of reprobe outcomes is
    the stored miss count. A rejected result changes nothing. *)
Theorem RecordVerification_consistent db observedAt r :
  consistent db ->
  consistent (fst (RecordVerification db observedAt r))
  /\ (snd (RecordVerification db observedAt r) <> None -> fst (RecordVerification db observedAt r) = db)
  /\ (snd (RecordVerification db observedAt r) = None ->
      exists state, query_OriginState (fst (RecordVerification db observedAt r)) (result_Origin r) = Ok (Some state)
        /\ exists row, origins (fst (RecordVerification db observedAt r)) !! origin_String (result_Origin r) = Some row
             /\ FirstObservedAt state = first_observed_at row
             /\ latest_check_at row = Some (ObservedAt (Latest state))
             /\ latest_check_outcome row = Some (Obs_Outcome (Latest state))).
Proof.
  intros Hc. unfold RecordVerification.
  destruct (bytes_eqb_spec (origin_String (result_Origin r)) []) as [|Hne]; [done|].
  destruct (time_IsZero observedAt); [done|]. destruct (validVerificationResult r); [|done]. cbn [negb fst snd].
  set (db' := record_observation _ _ _ _ _).
  assert (Hc' : consistent db') by (by apply record_observation_consistent).
  split_and!; [done|done|]. intros _. destruct (Hc' (origin_String (result_Origin r))) as [Hrow _].
  assert (Hrec : is_Some (origins db' !! origin_String (result_Origin r))).
  { cbn [origins record_observation db']. unfold upsert_origin. rewrite lookup_insert_eq. eauto. }
  destruct Hrec as [row Hr]. rewrite Hr in Hrow. destruct Hrow as (_ & _ & (o & Hnew & Hla & Hlo) & _).
  unfold query_OriginState. destruct (bytes_eqb_spec (origin_String (result_Origin r)) []) as [|_]; [done|].
  rewrite Hr, Hnew. eexists. split; [done|]. exists row. cbn. done.
Qed.

Lemma empty_consistent : consistent empty_database.
Proof. intros key. unfold rows_of. cbn [origins reprobe_state observations empty_database]. by rewrite !lookup_empty. Qed.

Module StoreWitnesses.
Definition example_result : Result :=
  mkResult OutcomeValid (mkOrigin (bs "https://example.org") (bs "example.org") 443)
    (mkDeclaration 1 IdentityAffirmed) CategoryNone 0.

Lemma RecordVerification_consistent_witness :
  consistent (fst (RecordVerification empty_database (5 * Second) example_result)).
Proof. apply (RecordVerification_consistent empty_database (5 * Second) example_result empty_consistent). Defined.
End StoreWitnesses.
