(* ===== verification/Queue.v ===== *)
(** * The verification queue ([internal/store/queue.go], [queue_abandon.go])

    Leases on queued origins: scheduling, claiming, renewing, rescheduling,
    completing and abandoning. Each operation is its guards and its SQL
    statements on the tables of [Store]. *)

From S2P Require Import Prelude GoText GoUrl GoErrors GoNetip GoJson Retry Origin Netguard.
From S2P Require Import RobotsMatch RobotsPolicy RobotsPolicyFacts RobotsHTTP Declaration Verifier Store.

Definition maxQueueWorkerIDLength : Z := 128.
Definition defaultFirstReprobeInterval : Z := 12 * Hour.
Definition maxReprobeInterval : Z := 7 * 24 * Hour.
Definition transientRetryBackoffSteps : Z := 5.
Definition staleParticipantRecheckInterval : Z := 7 * 24 * Hour.

Record QueueConfig : Type := mkQueueConfig {
  LeaseDuration : Z;
  MinOriginInterval : Z;
  FirstReprobeInterval : Z;
}.

Definition validQueueConfig (c : QueueConfig) : bool :=
  (0 <? LeaseDuration c) && (0 <? MinOriginInterval c) && (0 <=? FirstReprobeInterval c).

Record Lease : Type := mkLease {
  lease_Origin : Origin;
  lease_WorkerID : bytes;
  lease_Generation : Z;
  lease_ClaimedAt : Z;
  lease_ExpiresAt : Z;
}.

Definition validQueueWorkerID (workerID : bytes) : bool :=
  negb (bytes_eqb workerID []) && (utf8_RuneCount workerID <=? maxQueueWorkerIDLength).

Definition validQueueLease (l : Lease) : bool :=
  negb (bytes_eqb (origin_String (lease_Origin l)) []) && validQueueWorkerID (lease_WorkerID l)
  && (0 <? lease_Generation l) && negb (time_IsZero (lease_ClaimedAt l))
  && negb (time_IsZero (lease_ExpiresAt l)) && time_After (lease_ExpiresAt l) (lease_ClaimedAt l).

(** [reprobeInterval]: the loop doubles until the cap. [misses] counts down, so
    the recursion is on the misses left. *)
Fixpoint reprobe_loop (misses : nat) (interval : Z) : Z :=
  match misses with
  | O => interval
  | S misses' =>
      if Z.quot maxReprobeInterval 2 <=? interval then maxReprobeInterval
      else reprobe_loop misses' (wrap_int64 (interval * 2))
  end.

Definition reprobeInterval (first : Z) (priorMisses : Z) : Z :=
  if maxReprobeInterval <=? first then maxReprobeInterval
  else reprobe_loop (Z.to_nat priorMisses) first.

(** ** SQL conditions *)

(** [lease_owner = $2 AND lease_generation = $3 AND lease_expires_at > $4] *)
Definition held (row : QueueRow) (l : Lease) (now : Z) : bool :=
  match lease_owner row, lease_expires_at row with
  | Some owner, Some expires =>
      bytes_eqb owner (lease_WorkerID l) && (lease_generation row =? lease_Generation l) && (now <? expires)
  | _, _ => false
  end.

(** [mode = 'recurring' OR NOT EXISTS (... crawl_blocked)] *)
Definition not_blocked (db : Database) (key : bytes) (row : QueueRow) : bool :=
  bool_decide (mode row = recurring)
  || match source_state db !! key with Some s => negb (crawl_blocked s) | None => true end.

(** [lease_owner IS NOT NULL AND lease_expires_at > $3] *)
Definition actively_leased (row : QueueRow) (now : Z) : bool :=
  match lease_owner row, lease_expires_at row with
  | Some _, Some expires => now <? expires
  | _, _ => false
  end.

Definition null_or_le (t : option Z) (bound : Z) : bool :=
  match t with None => true | Some v => v <=? bound end.

Section Queue.
Context `{NetURL} `{NetIP} `{IDNA}.
Variable config : QueueConfig.
(** [make_interval(secs => d.Seconds())] *)
Variable make_interval : Z -> Z.
(** The database's order on [origin]. *)
Variable text_leb : bytes -> bytes -> bool.
(** Whether another transaction holds the row lock. *)
Variable locked : bytes -> bool.
(** The retry policy's jitter (its value, and what a NaN converts to). *)
Variable delay : Z -> Z -> Z.

(** *** Schedule *)

Definition schedule_row (availableAt now : Z) (existing : option QueueRow) : QueueRow :=
  match existing with
  | None => mkRow availableAt recurring 0 None None 0 None None None
  | Some row =>
      if actively_leased row now then
        mkRow (available_at row) recurring (consecutive_failures row) (last_failure_category row)
          (next_attempt_at row) (lease_generation row) (lease_owner row) (lease_expires_at row)
          (last_claimed_at row)
      else
        mkRow (Z.min (available_at row) availableAt) recurring 0 None None (lease_generation row)
          (lease_owner row) (lease_expires_at row) (last_claimed_at row)
  end.

Definition Schedule (db : Database) (source : Origin) (availableAt now : Z) : Database * option error :=
  let key := origin_String source in
  if bytes_eqb key [] then (db, Some (errors_New store_errInvalidOrigin))
  else if time_IsZero availableAt then (db, Some (errors_New errInvalidAvailableAt))
  else
    (set_queue db (<[key := schedule_row (pg_time availableAt) (pg_time now) (queue db !! key)]> (queue db)), None).

(** The statement with which discovery admits a candidate as a probe: it
    inserts a fresh row and does nothing for an origin already queued. *)
Definition admit_probe (db : Database) (key : bytes) (availableAt : Z) : Database :=
  match queue db !! key with
  | Some _ => db
  | None => set_queue db (<[key := mkRow (pg_time availableAt) probe 0 None None 0 None None None]> (queue db))
  end.

(** *** Claim *)

(** The WHERE clause of [candidate]. *)
Definition eligible (db : Database) (now politeBefore : Z) (key : bytes) (row : QueueRow) : bool :=
  (available_at row <=? now) && not_blocked db key row
  && null_or_le (next_attempt_at row) now
  && null_or_le (lease_expires_at row) now
  && null_or_le (last_claimed_at row) politeBefore
  && negb (locked key).

Definition mode_rank (m : Mode) : Z := match m with probe => 0 | _ => 1 end.

(** The ORDER BY clause. *)
Definition claim_leb (a b : bytes * QueueRow) : bool :=
  let '(ka, ra) := a in
  let '(kb, rb) := b in
  if mode_rank (mode ra) =? mode_rank (mode rb) then
    if available_at ra =? available_at rb then text_leb ka kb
    else available_at ra <? available_at rb
  else mode_rank (mode ra) <? mode_rank (mode rb).

Definition first_candidate (db : Database) (now politeBefore : Z) : option (bytes * QueueRow) :=
  fold_left (fun best row =>
    match best with
    | None => Some row
    | Some b => if claim_leb row b then Some row else best
    end)
    (List.filter (fun '(k, r) => eligible db now politeBefore k r) (map_to_list (queue db))) None.

Definition claim_row (workerID : bytes) (now expiresAt : Z) (row : QueueRow) : QueueRow :=
  mkRow (available_at row) (mode row) (consecutive_failures row) (last_failure_category row)
    (next_attempt_at row) (lease_generation row + 1) (Some workerID) (Some expiresAt) (Some now).

Definition Claim (db : Database) (workerID : bytes) (now : Z) : Database * res error (option Lease) :=
  if negb (validQueueWorkerID workerID) then (db, Err (errors_New errInvalidWorkerID))
  else if verification_paused db then (db, Ok None)
  else
    let expiresAt := pg_time (time_Add now (LeaseDuration config)) in
    let politeBefore := pg_time (time_Add now (- MinOriginInterval config)) in
    let now := pg_time now in
    match first_candidate db now politeBefore with
    | None => (db, Ok None)
    | Some (key, row) =>
        match Origin.Parse key with
        | Err _ => (db, Err (wrap (errors_New (foreign 1))))
        | Ok source =>
            let claimed := claim_row workerID now expiresAt row in
            (set_queue db (<[key := claimed]> (queue db)),
             Ok (Some (mkLease source workerID (lease_generation claimed) now expiresAt)))
        end
    end.

(** [VerificationPaused] *)
Definition VerificationPaused (db : Database) : res error bool := Ok (verification_paused db).

(** *** Renew *)

Definition Renew (db : Database) (l : Lease) (now : Z) : Database * res error Lease :=
  if negb (validQueueLease l) then (db, Err (errors_New errInvalidLease))
  else
    let key := origin_String (lease_Origin l) in
    let candidate := pg_time (time_Add now (LeaseDuration config)) in
    match queue db !! key with
    | None => (db, Err (errors_New ErrLeaseLost))
    | Some row =>
        if held row l (pg_time now) && not_blocked db key row then
          let expires := Z.max (default 0 (lease_expires_at row)) candidate in
          let row' := mkRow (available_at row) (mode row) (consecutive_failures row)
                        (last_failure_category row) (next_attempt_at row) (lease_generation row)
                        (lease_owner row) (Some expires) (last_claimed_at row) in
          (set_queue db (<[key := row']> (queue db)),
           Ok (mkLease (lease_Origin l) (lease_WorkerID l) (lease_generation row)
                 (default 0 (last_claimed_at row)) expires))
        else (db, Err (errors_New ErrLeaseLost))
    end.

(** [last_claimed_at + make_interval(secs => MinOriginInterval)]; NULL is
    skipped by GREATEST. *)
Definition greatest_polite (t : Z) (row : QueueRow) : Z :=
  match last_claimed_at row with
  | Some claimed => Z.max t (claimed + make_interval (MinOriginInterval config))
  | None => t
  end.

(** *** Reschedule and Abandon *)

Definition Reschedule (db : Database) (l : Lease) (availableAt now : Z) : Database * option error :=
  if negb (validQueueLease l) then (db, Some (errors_New errInvalidLease))
  else if time_IsZero availableAt then (db, Some (errors_New errInvalidAvailableAt))
  else
    let key := origin_String (lease_Origin l) in
    match queue db !! key with
    | Some row =>
        if held row l (pg_time now) then
          let row' := mkRow (greatest_polite (pg_time availableAt) row) (mode row) 0 None None
                        (lease_generation row) None None (last_claimed_at row) in
          (set_queue db (<[key := row']> (queue db)), None)
        else (db, Some (errors_New ErrLeaseLost))
    | None => (db, Some (errors_New ErrLeaseLost))
    end.

Definition AbandonVerification (db : Database) (l : Lease) (now : Z) : Database * option error :=
  if negb (validQueueLease l) then (db, Some (errors_New errInvalidLease))
  else
    let key := origin_String (lease_Origin l) in
    match queue db !! key with
    | Some row =>
        if held row l (pg_time now) then
          let row' := mkRow (available_at row) (mode row) (consecutive_failures row)
                        (last_failure_category row) (next_attempt_at row) (lease_generation row)
                        None None (last_claimed_at row) in
          (set_queue db (<[key := row']> (queue db)), None)
        else (db, Some (errors_New ErrLeaseLost))
    | None => (db, Some (errors_New ErrLeaseLost))
    end.

(** *** CompleteVerification *)

(** Lines 587 to 597: the failure category and the two classifications. *)
Definition effective_category (r : Result) : Category :=
  if bool_decide (result_Outcome r = OutcomeUnavailable)
     && bool_decide (result_FailureCategory r = CategoryNone)
  then CategoryDeclarationUnavailable else result_FailureCategory r.
Definition transient_result (r : Result) : bool :=
  bool_decide (result_Outcome r = OutcomeUnavailable) && Transient (effective_category r).

(** Lines 673 to 692: when a reprobe-eligible outcome is probed again. *)
Definition reprobe_available_at (r : Result) (completedAt recheckAfter misses : Z) : Z :=
  if shouldReprobeOutcome (result_Outcome r) then
    let first := if FirstReprobeInterval config =? 0 then defaultFirstReprobeInterval
                 else FirstReprobeInterval config in
    time_Add completedAt (reprobeInterval first misses)
  else time_Add completedAt recheckAfter.

(** Lines 694 to 723: the retry state and the requested time. *)
Definition next_failures (r : Result) (failures : Z) : Z :=
  if transient_result r then failures + 1 else 0.
Definition requested_available_at (r : Result) (l : Lease) (completedAt recheckAfter failures : Z)
    (hasParticipated : bool) : Z :=
  if transient_result r then
    let retryDelay :=
      if hasParticipated && (transientRetryBackoffSteps <? failures + 1)
      then staleParticipantRecheckInterval
      else delay (failures + 1) (result_RetryAfter r) in
    let requested := time_Add completedAt retryDelay in
    let politeAt := time_Add (lease_ClaimedAt l) (MinOriginInterval config) in
    if time_After politeAt requested then politeAt else requested
  else time_Add completedAt recheckAfter.

(** [retained_queue] *)
Definition retained_row (r : Result) (requested reprobeAt failures : Z) (row : QueueRow) : QueueRow :=
  let reprobes := shouldReprobeOutcome (result_Outcome r) in
  let probing := bool_decide (mode row = probe) || bool_decide (mode row = reprobe) in
  mkRow
    (greatest_polite (if probing && reprobes then reprobeAt else requested) row)
    (if is_valid (result_Outcome r) then recurring
     else if probing && reprobes then reprobe else mode row)
    failures
    (if transient_result r then Some (effective_category r) else None)
    (if transient_result r then Some (greatest_polite requested row) else None)
    (lease_generation row) None None (last_claimed_at row).

(** [removed_probe] *)
Definition removes (r : Result) (row : QueueRow) : bool :=
  bool_decide (mode row = probe) && negb (is_valid (result_Outcome r))
  && negb (transient_result r) && negb (shouldReprobeOutcome (result_Outcome r)).

(** [scheduled_discovery_source] and [unscheduled_discovery_source] *)
Definition unschedules (db : Database) (key : bytes) (o : Outcome) (completedAt : Z) : bool :=
  match o with
  | OutcomeAbsent | OutcomeInvalid | OutcomeUnsupportedVersion | OutcomeCrossOriginRedirect =>
      match source_state db !! key with Some s => negb (seeded s) | None => true end
      && match candidates db !! key with Some c => last_discovered_at c <=? completedAt | None => true end
  | _ => false
  end.
Definition scheduled_sources (db : Database) (key : bytes) (o : Outcome) (completedAt : Z) : gset bytes :=
  if is_valid o then {[ key ]} ∪ source_schedule db
  else if unschedules db key o completedAt then source_schedule db ∖ {[ key ]}
  else source_schedule db.

(** The statement of lines 725 to 1028, once the row is locked. *)
Definition complete_row (db : Database) (l : Lease) (r : Result) (row : QueueRow)
    (completedAt requested reprobeAt failures : Z) : Database :=
  let key := origin_String (lease_Origin l) in
  let queue' :=
    if removes r row then delete key (queue db)
    else <[key := retained_row r (pg_time requested) (pg_time reprobeAt) failures row]> (queue db) in
  let recorded :=
    record_observation (set_queue db queue') key completedAt (result_Outcome r) (storedDeclarationValues r) in
  set_source_schedule recorded (scheduled_sources db key (result_Outcome r) completedAt).

Definition CompleteVerification (db : Database) (l : Lease) (r : Result) (recheckAfter now : Z)
    : Database * option error :=
  if negb (validQueueLease l) then (db, Some (errors_New errInvalidLease))
  else if bytes_eqb (origin_String (result_Origin r)) [] then (db, Some (errors_New store_errInvalidOrigin))
  else if bool_decide (result_Origin r <> lease_Origin l)
  then (db, Some (errors_New errCompletionOriginMismatch))
  else if negb (validVerificationResult r) then (db, Some (errors_New errInvalidResult))
  else if recheckAfter <=? 0 then (db, Some (errors_New errInvalidRecheckAfter))
  else
    let key := origin_String (lease_Origin l) in
    let completedAt := pg_time now in
    match queue db !! key with
    | Some row =>
        if held row l completedAt && not_blocked db key row then
          let failures := consecutive_failures row in
          let misses := default 0 (reprobe_state db !! key) in
          let hasParticipated :=
            match origins db !! key with
            | Some o => bool_decide (is_Some (first_participated_at o))
            | None => false
            end in
          let requested := requested_available_at r l now recheckAfter failures hasParticipated in
          let reprobeAt := reprobe_available_at r now recheckAfter misses in
          (complete_row db l r row completedAt requested reprobeAt (next_failures r failures), None)
        else (db, Some (errors_New ErrLeaseLost))
    | None => (db, Some (errors_New ErrLeaseLost))
    end.
End Queue.
