(* ===== verification/QueueFacts.v ===== *)
(** * Correctness of the verification queue

    The schema's constraints, fencing of stale leases, politeness of claims,
    the outcome table of a completion and the reprobe schedule. *)

From S2P Require Import Prelude GoText GoUrl GoErrors GoNetip GoJson Retry Origin Netguard.
From S2P Require Import RobotsMatch RobotsPolicy RobotsPolicyFacts RobotsHTTP Declaration Verifier Store Queue.

#[local] Set Warnings "-clear-no-such-hyp".

(** ** Reprobe intervals *)

Lemma reprobe_loop_spec misses interval :
  0 < interval < maxReprobeInterval ->
  reprobe_loop misses interval = Z.min (interval * 2 ^ Z.of_nat misses) maxReprobeInterval.
Proof.
  revert interval. induction misses as [|misses IH]; intros interval Hi.
  - cbn [reprobe_loop]. change (2 ^ Z.of_nat 0) with 1. lia.
  - cbn [reprobe_loop]. change (Z.quot maxReprobeInterval 2) with 302400000000000.
    rewrite Nat2Z.inj_succ, Z.pow_succ_r by lia.
    pose proof (Z.pow_pos_nonneg 2 (Z.of_nat misses) ltac:(lia) ltac:(lia)) as Hp.
    change maxReprobeInterval with 604800000000000 in *.
    destruct (Z.leb_spec 302400000000000 interval) as [Hge|Hlt].
    + rewrite Z.min_r; [done|]. nia.
    + rewrite wrap_int64_id by (unfold min_int64, max_int64; lia). rewrite IH by lia. f_equal. lia.
Qed.

(** The reprobe delay doubles with every miss and is capped at seven days:
    for a positive first interval it is exactly the smaller of
    [first * 2^misses] and seven days, with no overflow on the way. *)
Theorem reprobeInterval_correct first misses :
  0 < first -> 0 <= misses ->
  reprobeInterval first misses = Z.min (first * 2 ^ misses) maxReprobeInterval.
Proof.
  intros Hf Hm. unfold reprobeInterval. destruct (Z.leb_spec maxReprobeInterval first) as [Hge|Hlt].
  - pose proof (Z.pow_pos_nonneg 2 misses ltac:(lia) Hm). rewrite Z.min_r; [done|]. nia.
  - rewrite reprobe_loop_spec by lia. by rewrite Z2Nat.id.
Qed.

Lemma reprobeInterval_correct_witness :
  reprobeInterval defaultFirstReprobeInterval 3 = Z.min (defaultFirstReprobeInterval * 2 ^ 3) maxReprobeInterval.
Proof. apply (reprobeInterval_correct defaultFirstReprobeInterval 3); by vm_compute. Defined.

(** ** Timestamps *)

Lemma pg_time_le t : pg_time t <= t.
Proof. unfold pg_time. pose proof (Z.mul_div_le t Microsecond ltac:(by vm_compute)). lia. Qed.

Lemma pg_time_add t d : d mod Microsecond = 0 -> pg_time (t + d) = pg_time t + d.
Proof.
  intros Hd. unfold pg_time. assert (Hm : Microsecond <> 0) by (by vm_compute).
  apply Z.mod_divide in Hd as [k ->]; [|done]. rewrite Z.div_add by done. lia.
Qed.

Lemma pg_time_mono t u : t <= u -> pg_time t <= pg_time u.
Proof.
  intros Hle. unfold pg_time. apply Z.mul_le_mono_nonneg_r; [by vm_compute|].
  apply Z.div_le_mono; [by vm_compute|done].
Qed.

(** ** The schema's constraints *)

(** [verification_queue_retry_state_check] *)
Definition retry_state_ok (row : QueueRow) : Prop :=
  0 <= consecutive_failures row
  /\ (consecutive_failures row = 0 /\ last_failure_category row = None /\ next_attempt_at row = None
      \/ 0 < consecutive_failures row
         /\ (exists c, last_failure_category row = Some c /\ Transient c = true)
         /\ next_attempt_at row = Some (available_at row)).

(** [verification_queue_generation_check], [.._lease_pair_check],
    [.._worker_check] and [.._active_lease_check] *)
Definition lease_ok (row : QueueRow) : Prop :=
  0 <= lease_generation row
  /\ (lease_owner row = None /\ lease_expires_at row = None
      \/ exists owner expires claimed, lease_owner row = Some owner /\ lease_expires_at row = Some expires
           /\ validQueueWorkerID owner = true /\ last_claimed_at row = Some claimed /\ claimed < expires).

Definition row_ok (row : QueueRow) : Prop := retry_state_ok row /\ lease_ok row.
Definition constraints (db : Database) : Prop := map_Forall (fun _ => row_ok) (queue db).

(** ** The order of claims *)

(** Probes first, then the earlier availability, then the origin's text. *)
Definition precedes (text_leb : bytes -> bytes -> bool) (a b : bytes * QueueRow) : Prop :=
  let '(ka, ra) := a in
  let '(kb, rb) := b in
  mode ra = probe /\ mode rb <> probe
  \/ (mode ra = probe <-> mode rb = probe)
     /\ (available_at ra < available_at rb
         \/ available_at ra = available_at rb /\ text_leb ka kb = true).

Lemma null_or_le_spec t bound : null_or_le t bound = true <-> forall v, t = Some v -> v <= bound.
Proof.
  destruct t as [v|]; cbn [null_or_le]; [|done]. rewrite Z.leb_le. split; [by intros ? ? [= <-]|auto].
Qed.

Lemma not_blocked_spec db key row : not_blocked db key row = true <->
  mode row = recurring \/ forall s, source_state db !! key = Some s -> crawl_blocked s = false.
Proof.
  unfold not_blocked. rewrite orb_true_iff, bool_decide_eq_true.
  destruct (source_state db !! key) as [s|]; [|naive_solver].
  rewrite negb_true_iff. naive_solver.
Qed.

Lemma claim_leb_spec text_leb a b : claim_leb text_leb a b = true <-> precedes text_leb a b.
Proof.
  destruct a as [ka ra], b as [kb rb]. unfold claim_leb, precedes.
  destruct (Z.eqb_spec (available_at ra) (available_at rb)) as [->|Hne];
    destruct (mode ra), (mode rb); cbn [mode_rank Z.eqb Z.ltb Z.compare Pos.compare Pos.eqb];
    rewrite ?Z.ltb_lt; naive_solver lia.
Qed.

(** ** The outcomes of a completion *)

(** An unavailable result whose category is one that is retried; a result
    without a category counts as an unavailable declaration. *)
Definition transient_failure (r : Result) (c : Category) : Prop :=
  result_Outcome r = OutcomeUnavailable /\ Transient c = true
  /\ (result_FailureCategory r <> CategoryNone /\ c = result_FailureCategory r
      \/ result_FailureCategory r = CategoryNone /\ c = CategoryDeclarationUnavailable).

Definition permanently_unavailable (r : Result) : Prop :=
  result_Outcome r = OutcomeUnavailable /\ forall c, ~ transient_failure r c.

Lemma effective_category_spec r : transient_result r = true <-> transient_failure r (effective_category r).
Proof.
  unfold transient_result, transient_failure, effective_category. rewrite andb_true_iff, bool_decide_eq_true.
  split; [|naive_solver]. intros [Ho Ht]. rewrite Ho in *. rewrite (bool_decide_eq_true_2 _ eq_refl) in *. cbn [andb] in *.
  split_and!; [done|done|]. destruct (decide (result_FailureCategory r = CategoryNone)) as [Hc|Hc].
  - right. by rewrite bool_decide_eq_true_2.
  - left. by rewrite bool_decide_eq_false_2.
Qed.

Lemma transient_failure_effective r c : transient_failure r c -> c = effective_category r.
Proof.
  unfold transient_failure, effective_category. intros (-> & _ & [[Hn ->]|[Hn ->]]);
    rewrite (bool_decide_eq_true_2 _ eq_refl); cbn [andb].
  - by rewrite bool_decide_eq_false_2.
  - by rewrite bool_decide_eq_true_2.
Qed.

Lemma not_transient_spec r : transient_result r = false <-> forall c, ~ transient_failure r c.
Proof.
  rewrite <- not_true_iff_false, effective_category_spec. split; [|eauto].
  intros Hn c Hc. apply Hn. by rewrite <- (transient_failure_effective r c).
Qed.

Lemma removes_spec r row : removes r row = true <-> mode row = probe /\ permanently_unavailable r.
Proof.
  unfold removes, permanently_unavailable. rewrite !andb_true_iff, !negb_true_iff, bool_decide_eq_true, not_transient_spec.
  destruct (result_Outcome r); naive_solver.
Qed.

Lemma transient_not_reprobe r : transient_result r = true -> shouldReprobeOutcome (result_Outcome r) = false.
Proof. by intros [-> _]%effective_category_spec. Qed.

Lemma probing_spec m : bool_decide (m = probe) || bool_decide (m = reprobe) = negb (bool_decide (m = recurring)).
Proof. by destruct m. Qed.

(** The origin is seeded, or was discovered again after [t]. *)
Definition kept_scheduled (db : Database) (key : bytes) (t : Z) : Prop :=
  (exists s, source_state db !! key = Some s /\ seeded s = true)
  \/ exists c, candidates db !! key = Some c /\ t < last_discovered_at c.

Lemma unschedules_spec db key t :
  match source_state db !! key with Some s => negb (seeded s) | None => true end
  && match candidates db !! key with Some c => last_discovered_at c <=? t | None => true end = false
  <-> kept_scheduled db key t.
Proof.
  unfold kept_scheduled. rewrite andb_false_iff. apply Morphisms_Prop.or_iff_morphism.
  - destruct (source_state db !! key) as [s|]; [rewrite negb_false_iff|]; naive_solver.
  - destruct (candidates db !! key) as [c|]; [rewrite Z.leb_gt|]; naive_solver.
Qed.

(** Whether the origin is in the discovery schedule after the completion: a
    valid declaration schedules it; an outcome that shows there is none takes
    it out, unless it is seeded or was discovered again since; an unavailable
    one and one denied by robots.txt leave it. *)
Definition scheduled_after (db : Database) (key : bytes) (o : Outcome) (t : Z) : Prop :=
  match o with
  | OutcomeValid => True
  | OutcomeUnavailable | OutcomeRobotsDenied => key ∈ source_schedule db
  | OutcomeAbsent | OutcomeInvalid | OutcomeUnsupportedVersion | OutcomeCrossOriginRedirect =>
      key ∈ source_schedule db /\ kept_scheduled db key t
  end.

Lemma scheduled_sources_spec db key o t k :
  k ∈ scheduled_sources db key o t
  <-> k = key /\ scheduled_after db key o t \/ k <> key /\ k ∈ source_schedule db.
Proof.
  assert (Hset : forall b : bool, k ∈ (if b then source_schedule db ∖ {[key]} else source_schedule db)
    <-> k = key /\ (key ∈ source_schedule db /\ b = false) \/ k <> key /\ k ∈ source_schedule db).
  { intros []; destruct (decide (k = key)) as [->|]; set_solver. }
  pose proof (unschedules_spec db key t) as Hu. unfold scheduled_sources, scheduled_after, unschedules.
  destruct o; cbn [is_valid]; try (by rewrite <- Hu); destruct (decide (k = key)) as [->|]; set_solver.
Qed.

Section Facts.
Context `{NetURL} `{NetIP} `{IDNA}.
Variable config : QueueConfig.
Variable make_interval : Z -> Z.
Variable text_leb : bytes -> bytes -> bool.
Variable delay : Z -> Z -> Z.

(** The queue's configuration in whole microseconds, the precision of the
    database, at which [make_interval] is exact. *)
Hypothesis config_valid : validQueueConfig config = true.
Hypothesis lease_micro : LeaseDuration config mod Microsecond = 0.
Hypothesis interval_micro : MinOriginInterval config mod Microsecond = 0.
Hypothesis make_interval_exact : forall d, d mod Microsecond = 0 -> make_interval d = d.

Lemma lease_positive : 0 < LeaseDuration config.
Proof. unfold validQueueConfig in config_valid. b2p. lia. Qed.

Lemma interval_positive : 0 < MinOriginInterval config.
Proof. unfold validQueueConfig in config_valid. b2p. lia. Qed.

Lemma polite_interval row t :
  greatest_polite config make_interval t row
  = match last_claimed_at row with Some c => Z.max t (c + MinOriginInterval config) | None => t end.
Proof. unfold greatest_polite. by rewrite make_interval_exact. Qed.

Lemma schedule_row_ok availableAt now existing :
  match existing with Some row => row_ok row | None => True end ->
  row_ok (schedule_row availableAt now existing).
Proof.
  destruct existing as [row|]; cbn [schedule_row].
  - intros [Hr Hl]. case_head; [by split|]. split; [|done]. split; [cbn; lia|left; done].
  - intros _. split; (split; [cbn; lia|left; done]).
Qed.

Lemma claim_row_ok workerID now row :
  validQueueWorkerID workerID = true -> row_ok row ->
  row_ok (claim_row workerID (pg_time now) (pg_time (now + LeaseDuration config)) row).
Proof.
  intros Hw [Hr [Hg _]]. split; [done|]. split; [cbn; lia|]. right.
  exists workerID, (pg_time (now + LeaseDuration config)), (pg_time now).
  split_and!; [done|done|done|done|]. rewrite pg_time_add by done. pose proof lease_positive. lia.
Qed.

Lemma clear_lease_ok avail m row :
  row_ok row -> row_ok (mkRow avail m 0 None None (lease_generation row) None None (last_claimed_at row)).
Proof. intros [_ [Hg _]]. split; (split; [cbn; lia|left; done]). Qed.

Lemma retained_row_ok r requested reprobeAt row :
  row_ok row ->
  row_ok (retained_row config make_interval r requested reprobeAt (next_failures r (consecutive_failures row)) row).
Proof.
  intros [[Hf _] [Hg _]]. unfold retained_row, next_failures. split; [|split; [cbn; lia|left; done]].
  destruct (transient_result r) eqn:Ht; [|split; [cbn; lia|left; done]].
  split; [cbn; lia|]. right. cbn [consecutive_failures last_failure_category next_attempt_at available_at].
  rewrite transient_not_reprobe, andb_false_r by done. split_and!; [lia| |done].
  eexists. split; [done|]. unfold transient_result in Ht. by b2p.
Qed.

Lemma first_candidate_spec locked db now politeBefore key row :
  first_candidate text_leb locked db now politeBefore = Some (key, row) ->
  queue db !! key = Some row /\ eligible locked db now politeBefore key row = true.
Proof.
  unfold first_candidate. set (rows := List.filter _ _).
  assert (Hin : forall k r, (k, r) ∈ rows -> queue db !! k = Some r /\ eligible locked db now politeBefore k r = true).
  { intros k r Hk. apply list_elem_of_In, filter_In in Hk as [Hk He].
    apply list_elem_of_In, elem_of_map_to_list in Hk. done. }
  intros Hfold. apply Hin. by destruct (fold_min_in _ _ _ _ Hfold).
Qed.

(** *** Updates that keep the claim history of a row *)

Definition quiet (row row' : QueueRow) : Prop :=
  lease_generation row' = lease_generation row /\ last_claimed_at row' = last_claimed_at row
  /\ (row_ok row -> row_ok row').

(** The effect of an operation that claims and removes nothing. *)
Definition quiet_effect (db db' : Database) : Prop :=
  db' = db \/ exists key row row', queue db !! key = Some row /\ quiet row row'
                /\ queue db' = <[key := row']> (queue db).

Lemma held_spec row l now : held row l now = true ->
  exists expires, lease_owner row = Some (lease_WorkerID l) /\ lease_expires_at row = Some expires
    /\ lease_generation row = lease_Generation l /\ now < expires.
Proof.
  unfold held. destruct (lease_owner row) as [owner|]; [|done].
  destruct (lease_expires_at row) as [expires|]; [|done]. intros Hh. b2p.
  destruct (bytes_eqb_spec owner (lease_WorkerID l)) as [->|]; [|done].
  exists expires. split_and!; [done|done|lia|lia].
Qed.

Lemma Renew_effect db l now : quiet_effect db (fst (Renew config db l now)).
Proof.
  unfold Renew. case_head; [by left|]. destruct (queue db !! _) as [row|] eqn:Hrow; [|by left].
  destruct (held row l (pg_time now)) eqn:Hh; [|by left]. cbn [andb]. case_head; [|by left].
  right. eexists _, row, _. split_and!; [done| |done]. split_and!; [done|done|].
  intros [Hr [Hg Hl]]. split; [done|]. split; [done|].
  destruct (held_spec _ _ _ Hh) as (expires & Ho & He & _ & _).
  destruct Hl as [[Hn _]|(owner & expires' & claimed & ? & ? & ? & ? & ?)]; [congruence|].
  right. assert (expires' = expires) as -> by congruence. eexists owner, _, claimed.
  cbn [lease_owner lease_expires_at last_claimed_at]. rewrite He. cbn [default].
  split_and!; [done|done|done|done|]. cbn. lia.
Qed.

Lemma Reschedule_effect db l availableAt now :
  quiet_effect db (fst (Reschedule config make_interval db l availableAt now)).
Proof.
  unfold Reschedule. do 2 (case_head; [by left|]). destruct (queue db !! _) as [row|] eqn:Hrow; [|by left].
  case_head; [|by left]. right. eexists _, row, _. split_and!; [done| |done].
  split_and!; [done|done|]. apply clear_lease_ok.
Qed.

Lemma Abandon_effect db l now : quiet_effect db (fst (AbandonVerification db l now)).
Proof.
  unfold AbandonVerification. case_head; [by left|]. destruct (queue db !! _) as [row|] eqn:Hrow; [|by left].
  case_head; [|by left]. right. eexists _, row, _. split_and!; [done| |done]. split_and!; [done|done|].
  intros [Hr [Hg _]]. split; [done|]. split; [done|]. by left.
Qed.

(** A completion keeps the row's history, or removes a permanently unavailable
    probe. *)
Lemma Complete_effect db l r recheckAfter now :
  let db' := fst (CompleteVerification config make_interval delay db l r recheckAfter now) in
  let key := origin_String (lease_Origin l) in
  db' = db
  \/ exists row, queue db !! key = Some row
      /\ (queue db' = delete key (queue db) /\ permanently_unavailable r
          \/ exists row', quiet row row' /\ queue db' = <[key := row']> (queue db)).
Proof.
  cbv zeta. unfold CompleteVerification. do 5 (case_head; [by left|]). cbv zeta.
  destruct (queue db !! _) as [row|] eqn:Hrow; [|by left]. case_head; [|by left].
  right. exists row. split; [done|]. unfold complete_row. cbn [fst queue set_source_schedule record_observation set_queue].
  destruct (removes r row) eqn:Hrem; [left; split; [done|by apply (removes_spec r row)]|right]. eexists. split; [|done].
  split_and!; [done|done|]. apply retained_row_ok.
Qed.

(** ** Interleaved workers *)

Inductive event : Type :=
| Claimed (key : bytes) (t generation : Z) (owner : bytes)
| Removed (key : bytes) (r : Result).

(** The last claim of a key since its row was last created. *)
Fixpoint last_claim (log : list event) (key : bytes) : option (Z * Z) :=
  match log with
  | [] => None
  | Claimed k t g _ :: rest => if decide (k = key) then Some (t, g) else last_claim rest key
  | Removed k _ :: rest => if decide (k = key) then None else last_claim rest key
  end.

(** Each claim is spaced from the last one of the same row, and its generation
    is higher. *)
Fixpoint claims_ok (log : list event) : Prop :=
  match log with
  | [] => True
  | Claimed k t g _ :: rest =>
      (forall t0 g0, last_claim rest k = Some (t0, g0) -> t0 + MinOriginInterval config <= t /\ g0 < g)
      /\ claims_ok rest
  | Removed _ _ :: rest => claims_ok rest
  end.

(** Of any two claims of an origin in the whole history (newest first), the
    later one is at least the minimum origin interval after the earlier one and
    of a higher generation, or a permanently unavailable probe of that origin
    was completed, and its row removed, between them. *)
Definition history_ok (log : list event) : Prop :=
  forall later key t g w between t0 g0 w0 earlier,
    log = later ++ Claimed key t g w :: between ++ Claimed key t0 g0 w0 :: earlier ->
    t0 + MinOriginInterval config <= t /\ g0 < g
    \/ exists r, Removed key r ∈ between /\ permanently_unavailable r.

Record Sys : Type := mkSys { database : Database; sys_now : Z; claims : list event }.

Inductive step : Sys -> Sys -> Prop :=
| q_tick db now now' log : now <= now' -> step (mkSys db now log) (mkSys db now' log)
| q_admit db now log key availableAt :
    step (mkSys db now log) (mkSys (admit_probe db key availableAt) now log)
(** Writers of the other tables: discovery, operators, the store. *)
| q_other db db' now log : queue db' = queue db -> step (mkSys db now log) (mkSys db' now log)
| q_schedule db now log source availableAt :
    step (mkSys db now log) (mkSys (fst (Schedule db source availableAt now)) now log)
| q_claim db now log workerID locked db' l key row :
    Claim config text_leb locked db workerID now = (db', Ok (Some l)) ->
    first_candidate text_leb locked db (pg_time now) (pg_time (now + - MinOriginInterval config))
      = Some (key, row) ->
    step (mkSys db now log)
         (mkSys db' now (Claimed key (lease_ClaimedAt l) (lease_Generation l) workerID :: log))
| q_claim_none db now log workerID locked db' r :
    Claim config text_leb locked db workerID now = (db', r) -> (forall l, r <> Ok (Some l)) ->
    step (mkSys db now log) (mkSys db' now log)
| q_renew db now log l : step (mkSys db now log) (mkSys (fst (Renew config db l now)) now log)
| q_reschedule db now log l availableAt :
    step (mkSys db now log)
         (mkSys (fst (Reschedule config make_interval db l availableAt now)) now log)
| q_abandon db now log l : step (mkSys db now log) (mkSys (fst (AbandonVerification db l now)) now log)
| q_complete db now log l r recheckAfter :
    let db' := fst (CompleteVerification config make_interval delay db l r recheckAfter now) in
    let key := origin_String (lease_Origin l) in
    step (mkSys db now log)
         (mkSys db' now ((if bool_decide (is_Some (queue db !! key) /\ queue db' !! key = None)
                          then [Removed key r] else []) ++ log)).

Definition removals_ok (log : list event) : Prop :=
  Forall (fun e => match e with Removed _ r => permanently_unavailable r | Claimed _ _ _ _ => True end) log.

Record sys_ok (y : Sys) : Prop := {
  ok_constraints : constraints (database y);
  ok_last : forall key t g, last_claim (claims y) key = Some (t, g) ->
    exists row, queue (database y) !! key = Some row /\ last_claimed_at row = Some t
      /\ lease_generation row = g;
  ok_claims : claims_ok (claims y);
  ok_removals : removals_ok (claims y);
}.

(** Within one life of a row the claims are ordered, not only adjacent ones. *)
Lemma claims_ok_between key t0 g0 w0 between earlier :
  claims_ok (between ++ Claimed key t0 g0 w0 :: earlier) -> (forall r, Removed key r ∉ between) ->
  exists t1 g1, last_claim (between ++ Claimed key t0 g0 w0 :: earlier) key = Some (t1, g1) /\ t0 <= t1 /\ g0 <= g1.
Proof.
  pose proof interval_positive as Hpos. induction between as [|[k t g w|k r] between IH]; intros Hok Hno.
  - exists t0, g0. cbn [app last_claim]. by rewrite decide_True.
  - cbn [app claims_ok last_claim] in *. destruct Hok as [Hlast Hok].
    destruct IH as (t1 & g1 & Hl & ? & ?); [done|intros r Hr; apply (Hno r); by apply elem_of_cons; right|].
    case_decide as Hk; [|eauto]. subst k. destruct (Hlast _ _ Hl). exists t, g. split_and!; [done|lia|lia].
  - cbn [app claims_ok last_claim] in *. case_decide as Hk.
    + subst k. destruct (Hno r). by apply elem_of_cons; left.
    + apply IH; [done|]. intros r' Hr'. apply (Hno r'). by apply elem_of_cons; right.
Qed.

Lemma claims_ok_suffix later log : claims_ok (later ++ log) -> claims_ok log.
Proof. induction later as [|[] later IH]; cbn [app claims_ok]; naive_solver. Qed.

Definition removal_of (key : bytes) (e : event) : bool :=
  match e with Removed k _ => bool_decide (k = key) | Claimed _ _ _ _ => false end.

Lemma claims_history log : claims_ok log -> removals_ok log -> history_ok log.
Proof.
  intros Hok Hrem later key t g w between t0 g0 w0 earlier ->.
  destruct (decide (Exists (fun e => Is_true (removal_of key e)) between)) as [He|Hne].
  - right. apply Exists_exists in He as ([k t' g' w'|k r] & Hin & Hk); [done|]. apply bool_decide_unpack in Hk as ->. exists r. split; [done|].
    apply Forall_app, proj2, Forall_cons, proj2, Forall_app, proj1 in Hrem.
    exact (proj1 (Forall_forall _ _) Hrem _ Hin).
  - left. apply claims_ok_suffix in Hok. cbn [claims_ok] in Hok. destruct Hok as [Hlast Hok].
    destruct (claims_ok_between _ _ _ _ _ _ Hok) as (t1 & g1 & Hl & ? & ?).
    { intros r Hr. apply Hne, Exists_exists. exists (Removed key r). split; [done|by apply bool_decide_pack]. }
    destruct (Hlast _ _ Hl). lia.
Qed.

Lemma quiet_ok db db' now log : quiet_effect db db' -> sys_ok (mkSys db now log) -> sys_ok (mkSys db' now log).
Proof.
  intros [->|(key & row & row' & Hk & (Hg & Hc & Hr) & Hq)] Hok; [done|]. destruct Hok as [Hcon Hl Hcl Hrm].
  cbn [database claims] in *. split; cbn [database claims]; [| |done|done].
  - unfold constraints. rewrite Hq. apply map_Forall_insert_2; [|done]. by apply Hr, (Hcon key).
  - intros k t g Ht. rewrite Hq. destruct (Hl k t g Ht) as (rw & Hrw & ? & ?).
    destruct (decide (k = key)) as [->|Hne].
    + rewrite lookup_insert_eq. simplify_eq. exists row'. split_and!; [done|congruence|congruence].
    + rewrite lookup_insert_ne by done. eauto.
Qed.

Lemma schedule_ok db now log source availableAt :
  sys_ok (mkSys db now log) -> sys_ok (mkSys (fst (Schedule db source availableAt now)) now log).
Proof.
  intros Hok. unfold Schedule. cbv zeta. do 2 (case_head; [done|]). cbn [fst].
  destruct Hok as [Hcon Hl Hcl Hrm]. cbn [database claims] in *. split; cbn [database claims queue set_queue]; [| |done|done].
  - unfold constraints. cbn [queue set_queue]. apply map_Forall_insert_2; [|done]. apply schedule_row_ok.
    destruct (queue db !! origin_String source) as [row|] eqn:Hrow; [|done]. by apply (Hcon (origin_String source)).
  - intros key t g Ht. destruct (Hl key t g Ht) as (row & Hrow & ? & ?).
    destruct (decide (key = origin_String source)) as [->|Hne].
    + rewrite lookup_insert_eq, Hrow. eexists. split; [done|]. cbn [schedule_row]. by case_head.
    + rewrite lookup_insert_ne by done. eauto.
Qed.

Lemma admit_ok db now log key availableAt :
  sys_ok (mkSys db now log) -> sys_ok (mkSys (admit_probe db key availableAt) now log).
Proof.
  intros Hok. unfold admit_probe. destruct (queue db !! key) eqn:Hk; [done|].
  destruct Hok as [Hcon Hl Hcl Hrm]. cbn [database claims] in *. split; cbn [database claims queue set_queue]; [| |done|done].
  - unfold constraints. cbn [queue set_queue]. apply map_Forall_insert_2; [|done].
    split; (split; [cbn; lia|left; done]).
  - intros k t g (row & Hrow & ? & ?)%Hl. exists row. split; [|done].
    rewrite lookup_insert_ne; [done|]. intros <-. congruence.
Qed.

(** What a successful claim did. *)
Lemma Claim_spec locked db workerID now db' l key row :
  Claim config text_leb locked db workerID now = (db', Ok (Some l)) ->
  first_candidate text_leb locked db (pg_time now) (pg_time (now + - MinOriginInterval config)) = Some (key, row) ->
  verification_paused db = false /\ validQueueWorkerID workerID = true
  /\ Origin.Parse key = Ok (lease_Origin l)
  /\ db' = set_queue db (<[key := claim_row workerID (pg_time now) (pg_time (now + LeaseDuration config)) row]> (queue db))
  /\ l = mkLease (lease_Origin l) workerID (lease_generation row + 1) (pg_time now) (pg_time (now + LeaseDuration config)).
Proof.
  unfold Claim, time_Add. destruct (validQueueWorkerID workerID); [|done]. cbn [negb].
  destruct (verification_paused db); [done|]. cbv zeta. intros Hc Hf. rewrite Hf in Hc.
  destruct (Origin.Parse key) as [source|]; [|done]. injection Hc as <- <-. done.
Qed.

Lemma polite_before now : pg_time (now + - MinOriginInterval config) = pg_time now - MinOriginInterval config.
Proof. rewrite pg_time_add; [lia|]. apply Z.mod_opp_l_z; [by vm_compute|done]. Qed.

Lemma claim_ok locked db now log workerID db' l key row :
  Claim config text_leb locked db workerID now = (db', Ok (Some l)) ->
  first_candidate text_leb locked db (pg_time now) (pg_time (now + - MinOriginInterval config)) = Some (key, row) ->
  sys_ok (mkSys db now log) ->
  sys_ok (mkSys db' now (Claimed key (lease_ClaimedAt l) (lease_Generation l) workerID :: log)).
Proof.
  intros Hclaim Hfirst [Hcon Hl Hcl Hrm]. cbn [database claims] in *.
  destruct (Claim_spec _ _ _ _ _ _ _ _ Hclaim Hfirst) as (_ & Hw & _ & -> & ->).
  destruct (first_candidate_spec _ _ _ _ _ _ Hfirst) as [Hrow Hel].
  cbn [lease_ClaimedAt lease_Generation]. split; cbn [database claims queue set_queue].
  - unfold constraints. cbn [queue set_queue]. apply map_Forall_insert_2; [|done].
    apply claim_row_ok; [done|by apply (Hcon key)].
  - intros k t g. cbn [last_claim]. case_decide as Hk.
    + subst k. intros [= <- <-]. rewrite lookup_insert_eq. eexists. split; [done|]. done.
    + intros (rw & ? & ? & ?)%Hl. rewrite lookup_insert_ne by done. eauto.
  - cbn [claims_ok]. split; [|done]. intros t0 g0 (rw & Hrw & Hc & Hg)%Hl. simplify_eq.
    split; [|lia]. unfold eligible in Hel. b2p. unfold null_or_le in *. rewrite Hc in *.
    rewrite polite_before in *. lia.
  - by apply Forall_cons.
Qed.

Lemma complete_ok db now log l r recheckAfter :
  let db' := fst (CompleteVerification config make_interval delay db l r recheckAfter now) in
  let key := origin_String (lease_Origin l) in
  sys_ok (mkSys db now log) ->
  sys_ok (mkSys db' now ((if bool_decide (is_Some (queue db !! key) /\ queue db' !! key = None)
                          then [Removed key r] else []) ++ log)).
Proof.
  cbv zeta. intros Hok. set (key := origin_String (lease_Origin l)).
  pose proof (Complete_effect db l r recheckAfter now) as Heff. cbv zeta in Heff. fold key in Heff.
  set (db' := fst _) in *. clearbody db'.
  destruct Heff as [->|(row & Hrow & [[Hdel Hperm]|(row' & Hq & Hins)])].
  - rewrite bool_decide_eq_false_2; [done|]. intros [[? ?] ?]. congruence.
  - rewrite bool_decide_eq_true_2; [|split; [eauto|rewrite Hdel; apply lookup_delete_eq]].
    destruct Hok as [Hcon Hl Hcl Hrm]. cbn [database claims app] in *. split; cbn [database claims].
    + unfold constraints. rewrite Hdel. by apply map_Forall_delete.
    + intros k t g. cbn [last_claim]. case_decide; [done|]. intros (rw & ? & ?)%Hl.
      rewrite Hdel, lookup_delete_ne by done. eauto.
    + done.
    + by apply Forall_cons.
  - rewrite bool_decide_eq_false_2.
    + eapply quiet_ok; [|exact Hok]. right. eauto 10.
    + intros [_ Hn]. rewrite Hins, lookup_insert_eq in Hn. done.
Qed.

Lemma Claim_none locked db workerID now db' r :
  Claim config text_leb locked db workerID now = (db', r) -> (forall l, r <> Ok (Some l)) -> db' = db.
Proof.
  unfold Claim. repeat case_head; intros [= <- <-] Hno; try done. by destruct (Hno _ eq_refl).
Qed.

Lemma queue_step_ok y y' : sys_ok y -> step y y' -> sys_ok y'.
Proof.
  intros Hok Hstep. destruct Hstep.
  - by destruct Hok; split.
  - by apply admit_ok.
  - destruct Hok as [Hcon Hl Hcl Hrm]. unfold constraints in *. cbn [database claims] in *.
    split; unfold constraints; cbn [database claims]; rewrite ?H2; done.
  - by apply schedule_ok.
  - by eapply claim_ok.
  - by rewrite (Claim_none _ _ _ _ _ _ H2 H3).
  - eapply quiet_ok; [apply Renew_effect|done].
  - eapply quiet_ok; [apply Reschedule_effect|done].
  - eapply quiet_ok; [apply Abandon_effect|done].
  - by apply complete_ok.
Qed.

Lemma steps_ok y y' : sys_ok y -> rtc step y y' -> sys_ok y'.
Proof. intros Hok Hr. induction Hr; [done|]. apply IHHr. by eapply queue_step_ok. Qed.


(** *** Authority of a lease *)

(** The row still carries the lease's owner and generation, and the lease has
    not expired. *)
Definition authority (db : Database) (l : Lease) (now : Z) : Prop :=
  exists row expires, queue db !! origin_String (lease_Origin l) = Some row
    /\ lease_owner row = Some (lease_WorkerID l) /\ lease_generation row = lease_Generation l
    /\ lease_expires_at row = Some expires /\ pg_time now < expires.

(** The work is recurring, or its origin is not blocked. *)
Definition unblocked (db : Database) (l : Lease) : Prop :=
  exists row, queue db !! origin_String (lease_Origin l) = Some row
    /\ (mode row = recurring
        \/ forall s, source_state db !! origin_String (lease_Origin l) = Some s -> crawl_blocked s = false).

Lemma held_iff row l now : held row l now = true <->
  exists expires, lease_owner row = Some (lease_WorkerID l) /\ lease_generation row = lease_Generation l
    /\ lease_expires_at row = Some expires /\ now < expires.
Proof.
  split.
  - intros (expires & ? & ? & ? & ?)%held_spec. eauto 10.
  - intros (expires & Ho & Hg & He & Hlt). unfold held. rewrite Ho, He, Hg, Z.eqb_refl.
    destruct (bytes_eqb_spec (lease_WorkerID l) (lease_WorkerID l)); [|done]. cbn [andb]. lia.
Qed.

Lemma authority_held db l now row : queue db !! origin_String (lease_Origin l) = Some row ->
  authority db l now <-> held row l (pg_time now) = true.
Proof.
  intros Hrow. rewrite held_iff. unfold authority. rewrite Hrow. split.
  - intros (row' & expires & [= <-] & ?). eauto.
  - intros (expires & ?). eauto.
Qed.

Lemma unblocked_spec db l row : queue db !! origin_String (lease_Origin l) = Some row ->
  unblocked db l <-> not_blocked db (origin_String (lease_Origin l)) row = true.
Proof.
  intros Hrow. rewrite not_blocked_spec. unfold unblocked. rewrite Hrow. split.
  - intros (row' & [= <-] & ?). done.
  - eauto.
Qed.

Lemma no_authority db l now : queue db !! origin_String (lease_Origin l) = None -> ~ authority db l now.
Proof. intros Hrow (row & ? & Hr & _). congruence. Qed.

(** What a command does to the row of its lease. *)
Definition same_claim (row row' : QueueRow) : Prop :=
  mode row' = mode row /\ lease_generation row' = lease_generation row /\ last_claimed_at row' = last_claimed_at row.
Definition same_retry (row row' : QueueRow) : Prop :=
  available_at row' = available_at row /\ consecutive_failures row' = consecutive_failures row
  /\ last_failure_category row' = last_failure_category row /\ next_attempt_at row' = next_attempt_at row.
Definition unleased (row : QueueRow) : Prop := lease_owner row = None /\ lease_expires_at row = None.

Definition abandoned (row row' : QueueRow) : Prop := same_claim row row' /\ same_retry row row' /\ unleased row'.
Definition rescheduled (availableAt : Z) (row row' : QueueRow) : Prop :=
  same_claim row row' /\ unleased row' /\ consecutive_failures row' = 0 /\ last_failure_category row' = None
  /\ next_attempt_at row' = None
  /\ available_at row' = match last_claimed_at row with
                         | Some c => Z.max (pg_time availableAt) (c + MinOriginInterval config)
                         | None => pg_time availableAt
                         end.
Definition renewed (now : Z) (row row' : QueueRow) : Prop :=
  same_claim row row' /\ same_retry row row' /\ lease_owner row' = lease_owner row
  /\ exists expires, lease_expires_at row = Some expires
      /\ lease_expires_at row' = Some (Z.max expires (pg_time (now + LeaseDuration config))).

(** [db'] is [db] with nothing changed but that row, as [effect] says. *)
Definition on_row (l : Lease) (effect : QueueRow -> QueueRow -> Prop) (db db' : Database) : Prop :=
  exists row row', queue db !! origin_String (lease_Origin l) = Some row /\ effect row row'
    /\ db' = set_queue db (<[origin_String (lease_Origin l) := row']> (queue db)).

(** A completion records the observation and gives up the lease. *)
Definition completes (l : Lease) (r : Result) (now : Z) (db db' : Database) : Prop :=
  observations db' = observations db ++ [mkObservation (origin_String (lease_Origin l)) (pg_time now)
                       (result_Outcome r) (storedDeclarationValues r)]
  /\ (forall t, ~ authority db' l t)
  /\ forall key, key <> origin_String (lease_Origin l) -> queue db' !! key = queue db !! key.

(** A command that may run reports success and has its effect; otherwise it
    reports [ErrLeaseLost] and changes nothing. *)
Definition fenced (may : Prop) (effect : Database -> Database -> Prop) (db : Database)
    (r : Database * option error) : Prop :=
  (may -> snd r = None /\ effect db (fst r)) /\ (~ may -> r = (db, Some (errors_New ErrLeaseLost))).

(** A command guarded by the test [b] on the row that exists if it may run. *)
Lemma fenced_if (may : Prop) (b : bool) effect db db' :
  (may <-> b = true) -> (b = true -> effect db db') ->
  fenced may effect db (if b then (db', None) else (db, Some (errors_New ErrLeaseLost))).
Proof. intros Hb He. destruct b; split; naive_solver. Qed.

Lemma fenced_absent (may : Prop) effect db : ~ may -> fenced may effect db (db, Some (errors_New ErrLeaseLost)).
Proof. split; naive_solver. Qed.

Lemma Abandon_fenced db l now : validQueueLease l = true ->
  fenced (authority db l now) (on_row l abandoned) db (AbandonVerification db l now).
Proof.
  intros Hv. unfold AbandonVerification. rewrite Hv. cbn [negb]. destruct (queue db !! _) as [row|] eqn:Hrow.
  - apply fenced_if; [by apply authority_held|]. intros _. eexists row, _. split_and!; [done| |done]. repeat split.
  - apply fenced_absent. by apply no_authority.
Qed.

Lemma Reschedule_fenced db l availableAt now : validQueueLease l = true -> availableAt <> 0 ->
  fenced (authority db l now) (on_row l (rescheduled availableAt)) db
    (Reschedule config make_interval db l availableAt now).
Proof.
  intros Hv Hat. unfold Reschedule, time_IsZero. rewrite Hv. cbn [negb].
  replace (availableAt =? 0) with false by lia. destruct (queue db !! _) as [row|] eqn:Hrow.
  - apply fenced_if; [by apply authority_held|]. intros _. eexists row, _. split_and!; [done| |done].
    repeat split. cbn [available_at]. by rewrite polite_interval.
  - apply fenced_absent. by apply no_authority.
Qed.

(** A renewal in addition returns the lease it has extended. *)
Definition renews_to (l : Lease) (now : Z) (db db' : Database) (l' : Lease) : Prop :=
  on_row l (renewed now) db db'
  /\ lease_Origin l' = lease_Origin l /\ lease_WorkerID l' = lease_WorkerID l
  /\ lease_Generation l' = lease_Generation l
  /\ (forall t, authority db' l t <-> pg_time t < lease_ExpiresAt l').

Lemma may_both db l now row : queue db !! origin_String (lease_Origin l) = Some row ->
  authority db l now /\ unblocked db l
  <-> held row l (pg_time now) && not_blocked db (origin_String (lease_Origin l)) row = true.
Proof. intros Hrow. by rewrite authority_held, unblocked_spec, andb_true_iff. Qed.

Lemma Renew_fenced db l now : validQueueLease l = true ->
  (authority db l now /\ unblocked db l ->
     exists db' l', Renew config db l now = (db', Ok l') /\ renews_to l now db db' l')
  /\ (~ (authority db l now /\ unblocked db l) -> Renew config db l now = (db, Err (errors_New ErrLeaseLost))).
Proof.
  intros Hv. unfold Renew. rewrite Hv. cbn [negb]. destruct (queue db !! _) as [row|] eqn:Hrow.
  2:{ split; [|done]. intros [(? & ? & Hr & _) _]. congruence. }
  rewrite (may_both db l now row Hrow). split; [|by intros ->%not_true_is_false].
  intros Hmay. rewrite Hmay. eexists _, _. split; [done|]. apply andb_true_iff, proj1, held_spec in Hmay.
  destruct Hmay as (expires & Ho & He & Hg & _). cbn [lease_ExpiresAt]. rewrite He. cbn [default].
  split; [|split_and!; [done|done|done|]].
  - eexists row, _. split_and!; [done| |done]. split_and!; [done|done|done|]. by exists expires.
  - intros t. unfold authority. cbn [queue set_queue]. rewrite lookup_insert_eq. split.
    + intros (? & ? & [= <-] & _ & _ & [= <-] & ?). done.
    + intros Ht. eexists _, _. split_and!; [done..|exact Ht].
Qed.

Lemma Complete_fenced db l r recheckAfter now : validQueueLease l = true ->
  result_Origin r = lease_Origin l -> validVerificationResult r = true -> 0 < recheckAfter ->
  fenced (authority db l now /\ unblocked db l) (completes l r now) db
    (CompleteVerification config make_interval delay db l r recheckAfter now).
Proof.
  intros Hv Ho Hr Hpos. assert (Hne : origin_String (lease_Origin l) <> []).
  { intros He. unfold validQueueLease in Hv. by rewrite He in Hv. }
  unfold CompleteVerification. rewrite Hv, Hr, Ho. cbn [negb].
  destruct (bytes_eqb_spec (origin_String (lease_Origin l)) []) as [|_]; [done|].
  rewrite bool_decide_eq_false_2 by (by intros []). replace (recheckAfter <=? 0) with false by lia.
  cbv zeta. destruct (queue db !! _) as [row|] eqn:Hrow.
  2:{ apply fenced_absent. intros [Ha _]. by eapply no_authority. }
  apply fenced_if; [by apply may_both|]. intros _. unfold complete_row, completes, authority.
  cbn [observations queue set_source_schedule record_observation set_queue]. split_and!; [done| |].
  - intros t (? & ? & Hq & Hown & _). destruct (removes r row).
    + by rewrite lookup_delete_eq in Hq.
    + rewrite lookup_insert_eq in Hq. injection Hq as <-. done.
  - intros key' Hk. destruct (removes r row); [by rewrite lookup_delete_ne|by rewrite lookup_insert_ne].
Qed.

(** C34: Fencing: for a well-formed lease, rescheduling and abandoning succeed
    exactly when the row still has the lease's owner and generation and the
    lease has not expired; renewing and completing need in addition that the
    work is recurring or its origin is not blocked. Success means the effect:
    abandoning releases the row and leaves its schedule and retry state;
    rescheduling releases it, clears the retry state and makes it available at
    the requested time, but not before the minimum origin interval since the
    claim; renewing moves the expiry forward to the later of the old one and
    the lease duration from now, and the lease returned is the authority until
    exactly then; completing records the observation and ends the authority of
    the lease for good. No other row changes. In every other case the operation
    reports [ErrLeaseLost] and the database is unchanged. The minimum interval
    is of whole microseconds. *)
Theorem lease_fencing db l now :
  validQueueLease l = true ->
  fenced (authority db l now) (on_row l abandoned) db (AbandonVerification db l now)
  /\ (forall availableAt, availableAt <> 0 ->
       fenced (authority db l now) (on_row l (rescheduled availableAt)) db
         (Reschedule config make_interval db l availableAt now))
  /\ (authority db l now /\ unblocked db l ->
       exists db' l', Renew config db l now = (db', Ok l') /\ renews_to l now db db' l')
  /\ (~ (authority db l now /\ unblocked db l) -> Renew config db l now = (db, Err (errors_New ErrLeaseLost)))
  /\ (forall r recheckAfter, result_Origin r = lease_Origin l -> validVerificationResult r = true ->
       0 < recheckAfter ->
       fenced (authority db l now /\ unblocked db l) (completes l r now) db
         (CompleteVerification config make_interval delay db l r recheckAfter now)).
Proof.
  intros Hv. destruct (Renew_fenced db l now Hv) as [Hyes Hno]. split_and!; [by apply Abandon_fenced| |done|done|].
  - intros availableAt Hat. by apply Reschedule_fenced.
  - intros r recheckAfter Ho Hr Hpos. by apply Complete_fenced.
Qed.

(** *** Claim order *)

Section ClaimOrder.
Hypothesis text_total : forall a b, text_leb a b = true \/ text_leb b a = true.
Hypothesis text_trans : forall a b c, text_leb a b = true -> text_leb b c = true -> text_leb a c = true.

Lemma claim_leb_total a b : claim_leb text_leb a b = true \/ claim_leb text_leb b a = true.
Proof.
  destruct a as [ka ra], b as [kb rb]. unfold claim_leb. rewrite (Z.eqb_sym (mode_rank (mode rb))).
  destruct (Z.eqb_spec (mode_rank (mode ra)) (mode_rank (mode rb))) as [_|Hm]; [|lia].
  rewrite (Z.eqb_sym (available_at rb)). destruct (Z.eqb_spec (available_at ra) (available_at rb)); [apply text_total|lia].
Qed.

Lemma claim_leb_trans a b c :
  claim_leb text_leb a b = true -> claim_leb text_leb b c = true -> claim_leb text_leb a c = true.
Proof.
  destruct a as [ka ra], b as [kb rb], c as [kc rc]. unfold claim_leb.
  destruct (Z.eqb_spec (mode_rank (mode ra)) (mode_rank (mode rb))),
    (Z.eqb_spec (mode_rank (mode rb)) (mode_rank (mode rc))),
    (Z.eqb_spec (mode_rank (mode ra)) (mode_rank (mode rc))); try lia;
  destruct (Z.eqb_spec (available_at ra) (available_at rb)), (Z.eqb_spec (available_at rb) (available_at rc)),
    (Z.eqb_spec (available_at ra) (available_at rc)); try lia. apply text_trans.
Qed.

Lemma first_candidate_min locked db now politeBefore :
  match first_candidate text_leb locked db now politeBefore with
  | Some best => forall key row, queue db !! key = Some row -> eligible locked db now politeBefore key row = true ->
                 claim_leb text_leb best (key, row) = true
  | None => forall key row, queue db !! key = Some row -> eligible locked db now politeBefore key row = false
  end.
Proof.
  unfold first_candidate. set (rows := List.filter _ _).
  assert (Hin : forall k r, queue db !! k = Some r -> eligible locked db now politeBefore k r = true -> (k, r) ∈ rows).
  { intros k r Hk He. apply list_elem_of_In, filter_In. split; [|done].
    by apply list_elem_of_In, elem_of_map_to_list. }
  destruct (fold_min_spec _ claim_leb_total claim_leb_trans rows None) as [[_ Hnil]|(b & -> & _ & Hmin)].
  - rewrite Hnil in Hin. rewrite Hnil. cbn [fold_left]. intros key row Hk. apply not_true_is_false. intros He.
    by apply (Hin key row Hk), elem_of_nil in He.
  - intros key row Hk He. apply Hmin. left. by apply Hin.
Qed.

(** The row is due at [now] for any claimant. *)
Record due (locked : bytes -> bool) (db : Database) (now : Z) (key : bytes) (row : QueueRow) : Prop := {
  due_available : available_at row <= now;
  due_retry : forall t, next_attempt_at row = Some t -> t <= now;
  due_unleased : forall t, lease_expires_at row = Some t -> t <= now;
  due_polite : forall t, last_claimed_at row = Some t -> t + MinOriginInterval config <= now;
  due_unblocked : mode row = recurring \/ forall s, source_state db !! key = Some s -> crawl_blocked s = false;
  due_unlocked : locked key = false;
}.

Lemma eligible_spec locked db now key row :
  eligible locked db now (now - MinOriginInterval config) key row = true <-> due locked db now key row.
Proof.
  unfold eligible. rewrite !andb_true_iff, !null_or_le_spec, not_blocked_spec, Z.leb_le, negb_true_iff. split.
  - intros (((((? & ?) & ?) & ?) & Hp) & ?). split; try done. intros t Ht. specialize (Hp t Ht). lia.
  - intros [? ? ? Hp ? ?]. split_and!; try done. intros t Ht. specialize (Hp t Ht). lia.
Qed.

(** [Claim] hands out the first due row and only that: when it returns a
    lease, the row was available, past its retry time, not leased by anyone,
    not claimed within the minimum origin interval, not blocked (or
    recurring), and no due row precedes it in the order probes before other
    work, then time, then origin; the lease has the next generation and is the
    row's authority until it expires; no other row changes. When it reports no
    work on an unpaused queue, no row is due. *)
Theorem Claim_correct locked db workerID now :
  validQueueWorkerID workerID = true -> verification_paused db = false ->
  match Claim config text_leb locked db workerID now with
  | (db', Ok (Some l)) =>
      exists key row, queue db !! key = Some row
        /\ due locked db (pg_time now) key row
        /\ (forall key' row', queue db !! key' = Some row' -> due locked db (pg_time now) key' row' ->
             precedes text_leb (key, row) (key', row'))
        /\ Origin.Parse key = Ok (lease_Origin l) /\ lease_Generation l = lease_generation row + 1
        /\ (forall t, pg_time t < lease_ExpiresAt l -> origin_String (lease_Origin l) = key ->
             authority db' l t)
        /\ (forall key', key' <> key -> queue db' !! key' = queue db !! key')
  | (db', Ok None) =>
      db' = db /\ forall key row, queue db !! key = Some row -> ~ due locked db (pg_time now) key row
  | (db', Err _) => db' = db
  end.
Proof.
  intros Hw Hp. unfold Claim, time_Add. rewrite Hw, Hp. cbn [negb]. cbv zeta. rewrite polite_before.
  pose proof (first_candidate_min locked db (pg_time now) (pg_time now - MinOriginInterval config)) as Hmin.
  destruct (first_candidate _ _ _ _ _) as [[key row]|] eqn:Hf.
  2:{ split; [done|]. intros key row Hk Hd%eligible_spec. by rewrite (Hmin key row Hk) in Hd. }
  destruct (first_candidate_spec _ _ _ _ _ _ Hf) as [Hrow Hel%eligible_spec].
  destruct (Origin.Parse key) as [source|] eqn:Hparse; [|done]. exists key, row.
  cbn [lease_Origin lease_Generation lease_ExpiresAt]. split_and!; [done|done| |done|done| |].
  - intros key' row' Hk Hd%eligible_spec. apply claim_leb_spec. by apply Hmin.
  - intros t Ht Hkey. unfold authority. cbn [lease_Origin]. rewrite Hkey. cbn [queue set_queue].
    rewrite lookup_insert_eq. eexists _, _. split_and!; done.
  - intros key' Hne. cbn [queue set_queue]. by rewrite lookup_insert_ne.
Qed.
End ClaimOrder.

(** *** Completion *)

(** How long after completion the origin is due, before politeness. *)
Definition completion_wait (db : Database) (r : Result) (recheckAfter : Z) (key : bytes) (row : QueueRow) : Z :=
  if negb (bool_decide (mode row = recurring)) && shouldReprobeOutcome (result_Outcome r) then
    reprobeInterval (if FirstReprobeInterval config =? 0 then defaultFirstReprobeInterval
                     else FirstReprobeInterval config)
      (default 0 (reprobe_state db !! key))
  else if transient_result r then
    if match origins db !! key with
       | Some o => bool_decide (is_Some (first_participated_at o))
       | None => false
       end && (transientRetryBackoffSteps <? consecutive_failures row + 1)
    then staleParticipantRecheckInterval
    else delay (consecutive_failures row + 1) (result_RetryAfter r)
  else recheckAfter.

Definition completion_mode (r : Result) (m : Mode) : Mode :=
  if is_valid (result_Outcome r) then recurring
  else if negb (bool_decide (m = recurring)) && shouldReprobeOutcome (result_Outcome r) then reprobe else m.

Lemma pg_time_max t u : pg_time (Z.max t u) = Z.max (pg_time t) (pg_time u).
Proof.
  destruct (Z.le_ge_cases t u) as [Hle|Hle]; pose proof (pg_time_mono _ _ Hle); [rewrite !Z.max_r|rewrite !Z.max_l]; done.
Qed.

Lemma retained_available db l r recheckAfter now row key c participated :
  last_claimed_at row = Some c -> lease_ClaimedAt l = c -> pg_time c = c ->
  participated = match origins db !! key with
                 | Some o => bool_decide (is_Some (first_participated_at o))
                 | None => false
                 end ->
  available_at (retained_row config make_interval r
    (pg_time (requested_available_at config delay r l now recheckAfter (consecutive_failures row) participated))
    (pg_time (reprobe_available_at config r now recheckAfter (default 0 (reprobe_state db !! key))))
    (next_failures r (consecutive_failures row)) row)
  = Z.max (pg_time (now + completion_wait db r recheckAfter key row)) (c + MinOriginInterval config).
Proof.
  intros Hc Hl Hpg ->. unfold retained_row, completion_wait. cbn [available_at].
  rewrite polite_interval, Hc, probing_spec.
  destruct (negb (bool_decide (mode row = recurring)) && shouldReprobeOutcome (result_Outcome r)) eqn:Hre.
  { b2p. unfold reprobe_available_at, time_Add. by rewrite H3. }
  unfold requested_available_at, time_Add, time_After. rewrite Hl. destruct (transient_result r); [|done].
  set (d := if _ && _ then _ else _). rewrite <- (Z.max_id (c + MinOriginInterval config)) at 3.
  assert (Hpolite : pg_time (c + MinOriginInterval config) = c + MinOriginInterval config)
    by (rewrite pg_time_add by done; lia).
  destruct (Z.ltb_spec (now + d) (c + MinOriginInterval config)) as [Hlt|Hge].
  - apply Z.lt_le_incl, pg_time_mono in Hlt. rewrite Hpolite in *. lia.
  - lia.
Qed.

(** The retry state of a retained row: counted for a transient failure, with
    its category, and cleared otherwise. *)
Definition retry_after (r : Result) (row row' : QueueRow) : Prop :=
  (forall category, transient_failure r category ->
     consecutive_failures row' = consecutive_failures row + 1
     /\ last_failure_category row' = Some category /\ next_attempt_at row' = Some (available_at row'))
  /\ ((forall category, ~ transient_failure r category) ->
     consecutive_failures row' = 0 /\ last_failure_category row' = None /\ next_attempt_at row' = None).

Lemma retained_retry db l r recheckAfter now row key c participated :
  last_claimed_at row = Some c -> lease_ClaimedAt l = c -> pg_time c = c ->
  participated = match origins db !! key with
                 | Some o => bool_decide (is_Some (first_participated_at o))
                 | None => false
                 end ->
  retry_after r row (retained_row config make_interval r
    (pg_time (requested_available_at config delay r l now recheckAfter (consecutive_failures row) participated))
    (pg_time (reprobe_available_at config r now recheckAfter (default 0 (reprobe_state db !! key))))
    (next_failures r (consecutive_failures row)) row).
Proof using.
  intros Hc Hl Hpg Hp. split.
  - intros cat Hcat. pose proof (transient_failure_effective _ _ Hcat) as ->. apply effective_category_spec in Hcat as Ht.
    unfold retained_row, next_failures. rewrite Ht.
    cbn [consecutive_failures last_failure_category next_attempt_at available_at].
    by rewrite transient_not_reprobe, andb_false_r.
  - intros Ht%not_transient_spec. unfold retained_row, next_failures. by rewrite Ht.
Qed.

(** C33: The outcome table of a completion under a live lease, for a claim time
    and a minimum interval of whole microseconds. The row leaves the queue
    exactly when it is a probe that is permanently unavailable; every other row
    is released with its generation and claim time kept. A valid declaration
    makes the work recurring; a reprobe outcome turns probes into reprobes due
    after the doubling reprobe interval; a transient failure keeps the mode,
    counts the failure, stores its category and is retried after the retry
    policy's delay (weekly for a participant past the backoff steps);
    everything else clears the retry state and is due after the recheck
    interval; and never before the minimum origin interval since the claim. The
    observation is appended, the miss count grows with a reprobe outcome and
    the summaries stay consistent. The origin is scheduled for discovery after
    a valid declaration, leaves the discovery schedule exactly when the outcome
    shows no declaration and it is neither seeded nor discovered again since,
    and stays as it was when unavailable or denied by robots.txt. No other queue row, schedule entry or
    table changes. *)
Theorem CompleteVerification_correct db l r recheckAfter now row c :
  let key := origin_String (lease_Origin l) in
  validQueueLease l = true -> result_Origin r = lease_Origin l -> validVerificationResult r = true ->
  0 < recheckAfter ->
  queue db !! key = Some row -> authority db l now -> unblocked db l ->
  last_claimed_at row = Some c -> lease_ClaimedAt l = c -> pg_time c = c ->
  exists db', CompleteVerification config make_interval delay db l r recheckAfter now = (db', None)
  /\ (queue db' !! key = None <-> mode row = probe /\ permanently_unavailable r)
  /\ (forall row', queue db' !! key = Some row' ->
         unleased row' /\ lease_generation row' = lease_generation row /\ last_claimed_at row' = Some c
         /\ mode row' = completion_mode r (mode row)
         /\ available_at row' = Z.max (pg_time (now + completion_wait db r recheckAfter key row))
                                     (c + MinOriginInterval config)
         /\ retry_after r row row')
  /\ (forall key', key' <> key -> queue db' !! key' = queue db !! key')
  /\ observations db' = observations db
                        ++ [mkObservation key (pg_time now) (result_Outcome r) (storedDeclarationValues r)]
  /\ default 0 (reprobe_state db' !! key)
     = default 0 (reprobe_state db !! key) + (if shouldReprobeOutcome (result_Outcome r) then 1 else 0)
  /\ (consistent db -> consistent db')
  /\ (forall k, k ∈ source_schedule db'
       <-> k = key /\ scheduled_after db key (result_Outcome r) (pg_time now)
           \/ k <> key /\ k ∈ source_schedule db)
  /\ source_state db' = source_state db /\ candidates db' = candidates db /\ crawl db' = crawl db
  /\ verification_paused db' = verification_paused db.
Proof using interval_micro make_interval_exact.
  intros key Hv Ho Hr Hpos Hrow Hheld Hnb Hc Hlc Hpg.
  apply (authority_held db l now row Hrow) in Hheld. apply (unblocked_spec db l row Hrow) in Hnb.
  fold key in Hnb. unfold CompleteVerification. rewrite Hv, Hr, Ho. cbn [negb].
  assert (Hne : key <> []) by (intros He; unfold validQueueLease in Hv; fold key in Hv; by rewrite He in Hv).
  fold key. destruct (bytes_eqb_spec key []) as [|_]; [done|].
  rewrite bool_decide_eq_false_2 by (by intros []). replace (recheckAfter <=? 0) with false by lia.
  cbv zeta. rewrite Hrow, Hheld, Hnb. cbn [andb]. eexists. split; [done|].
  unfold complete_row. fold key.
  cbn [queue observations source_schedule source_state candidates crawl verification_paused reprobe_state
       set_source_schedule record_observation set_queue].
  pose proof (removes_spec r row) as Hrem.
  split_and!; [| | |done| | |intros k; apply scheduled_sources_spec|done..].
  - rewrite <- Hrem. destruct (removes r row); [by rewrite lookup_delete_eq|by rewrite lookup_insert_eq].
  - intros row'. destruct (removes r row); [by rewrite lookup_delete_eq|]. rewrite lookup_insert_eq. intros [= <-].
    rewrite (retained_available db l r recheckAfter now row key c _ Hc Hlc Hpg eq_refl).
    split_and!; [done|done|exact Hc| |done|by eapply retained_retry].
    unfold retained_row, completion_mode. cbn [mode]. by rewrite probing_spec.
  - intros key' Hne'. destruct (removes r row); [by rewrite lookup_delete_ne|by rewrite lookup_insert_ne].
  - unfold add_misses. rewrite lookup_insert_eq. cbn [default]. done.
  - intros Hcon. by apply (record_observation_consistent db key (pg_time now)).
Qed.

(** A completion that reports no error was authorized and recorded. *)
Lemma Complete_committed db l r recheckAfter now db' :
  CompleteVerification config make_interval delay db l r recheckAfter now = (db', None) ->
  authority db l now /\ unblocked db l
  /\ observations db' = observations db ++ [mkObservation (origin_String (lease_Origin l)) (pg_time now)
                          (result_Outcome r) (storedDeclarationValues r)]
  /\ ~ authority db' l now.
Proof.
  unfold CompleteVerification. do 5 (case_head; [done|]). cbv zeta.
  destruct (queue db !! _) as [row|] eqn:Hrow; [|done].
  destruct (held row l (pg_time now)) eqn:Hh; [|done]. cbn [andb]. destruct (not_blocked _ _ _) eqn:Hnb; [|done].
  intros [<- _]%pair_equal_spec. unfold complete_row.
  cbn [observations queue set_source_schedule record_observation set_queue].
  split_and!; [by eapply authority_held|by eapply unblocked_spec|done|].
  unfold authority. cbn [queue set_source_schedule record_observation set_queue].
  destruct (removes r row); [rewrite lookup_delete_eq|rewrite lookup_insert_eq].
  - by intros (? & ? & [=] & _).
  - by intros (? & ? & [= <-] & [=] & _).
Qed.

Lemma Renew_authority db l now db' l' : Renew config db l now = (db', Ok l') ->
  lease_Origin l' = lease_Origin l /\ lease_WorkerID l' = lease_WorkerID l
  /\ lease_Generation l' = lease_Generation l.
Proof.
  unfold Renew. case_head; [done|]. destruct (queue db !! _) as [row|]; [|done].
  destruct (held row l (pg_time now)) eqn:Hh; [|done]. cbn [andb]. case_head; [|done].
  intros [_ Hl]%pair_equal_spec. injection Hl as <-. apply held_spec in Hh as (? & _ & _ & Hg & _). done.
Qed.
End Facts.

Module QueueWitnesses.
Import Concrete.

Definition config : QueueConfig := mkQueueConfig Minute (30 * Second) 0.
Definition text_leb (a b : bytes) : bool := match bytes_compare a b with Gt => false | _ => true end.
Definition example : Origin := mkOrigin (bs "https://example.org") (bs "example.org") 443.
Definition key : bytes := bs "https://example.org".
Definition row0 : QueueRow := mkRow Second probe 0 None None 0 None None None.
Definition db0 : Database := set_queue empty_database {[ key := row0 ]}.
Definition worker : bytes := bs "worker-1".
Definition row1 : QueueRow :=
  claim_row worker (pg_time (2 * Second)) (pg_time (2 * Second + Minute)) row0.
Definition lease1 : Lease := mkLease example worker 1 (2 * Second) (2 * Second + Minute).
Definition db1 : Database := set_queue db0 (<[key := row1]> (queue db0)).

Lemma text_leb_total a b : text_leb a b = true \/ text_leb b a = true.
Proof.
  unfold text_leb. rewrite (bytes_compare_antisym a b). destruct (bytes_compare a b); auto.
Qed.

Lemma text_leb_trans a b c : text_leb a b = true -> text_leb b c = true -> text_leb a c = true.
Proof.
  unfold text_leb. pose proof (bytes_compare_trans a b c) as Ht.
  destruct (bytes_compare a b), (bytes_compare b c), (bytes_compare a c); naive_solver.
Qed.

Lemma claimed : Claim config text_leb (fun _ => false) db0 worker (2 * Second) = (db1, Ok (Some lease1)).
Proof. vm_cast_no_check (eq_refl (db1, @Ok error _ (Some lease1))). Qed.

Lemma candidate : first_candidate text_leb (fun _ => false) db0 (pg_time (2 * Second))
  (pg_time (2 * Second + - MinOriginInterval config)) = Some (key, row0).
Proof. vm_cast_no_check (eq_refl (Some (key, row0))). Qed.

Lemma db0_constraints : constraints db0.
Proof.
  unfold constraints. cbn [queue db0 set_queue]. apply map_Forall_singleton.
  split; (split; [by vm_compute|by left]).
Qed.

Definition final : Sys := mkSys db1 (2 * Second) [Claimed key (2 * Second) 1 worker].

Lemma queue_final_reachable : rtc (step config id text_leb (fun _ _ => Minute)) (mkSys db0 (2 * Second) []) final.
Proof. eapply rtc_l; [exact (q_claim _ _ _ _ _ _ _ _ _ _ _ _ _ claimed candidate)|exact (rtc_refl _ final)]. Qed.


Lemma Claim_correct_witness :
  Claim config text_leb (fun _ => false) db0 worker (2 * Second) = (db1, Ok (Some lease1))
  /\ exists k r, queue db0 !! k = Some r /\ lease_Generation lease1 = lease_generation r + 1.
Proof.
  split; [exact claimed|].
  pose proof (Claim_correct config text_leb eq_refl text_leb_total text_leb_trans (fun _ => false) db0 worker
    (2 * Second) ltac:(by vm_compute) eq_refl) as Hc.
  rewrite claimed in Hc. destruct Hc as (k & r & Hq & _ & _ & _ & Hg & _). exists k, r. split; assumption.
Defined.

(** A lease of another generation is rejected. *)
Definition stale : Lease := mkLease example worker 7 (2 * Second) (2 * Second + Minute).

Lemma lease_fencing_witness :
  AbandonVerification db1 stale (3 * Second) = (db1, Some (errors_New ErrLeaseLost))
  /\ snd (AbandonVerification db1 lease1 (3 * Second)) = None
  /\ on_row lease1 abandoned db1 (fst (AbandonVerification db1 lease1 (3 * Second))).
Proof.
  split.
  - destruct (lease_fencing config id (fun _ _ => Minute) eq_refl (fun d _ => eq_refl) db1 stale (3 * Second)
      ltac:(by vm_compute)) as [Hf _].
    apply Hf. intros (row & expires & Hrow & _ & Hg & _). assert (row = row1) as ->; [|done].
    enough (Some row = Some row1) as [= ->] by done. rewrite <- Hrow. by vm_compute.
  - destruct (lease_fencing config id (fun _ _ => Minute) eq_refl (fun d _ => eq_refl) db1 lease1 (3 * Second)
      ltac:(by vm_compute)) as [Hf _].
    apply Hf. exists row1, (2 * Second + Minute). by vm_compute.
Defined.

(** A row that is removed and created again starts afresh: the origin is
    claimed twice within a second, both times with generation 1. *)
Definition gone : Result := mkResult OutcomeUnavailable example zero_declaration CategoryUnsafeAddress 0.
Definition db2 : Database := fst (CompleteVerification config id (fun _ _ => Minute) db1 lease1 gone Hour (2 * Second)).
Definition db3 : Database := admit_probe db2 key (2 * Second).

Example removal_starts_afresh :
  queue db2 !! key = None
  /\ match Claim config text_leb (fun _ => false) db3 worker (3 * Second) with
     | (_, Ok (Some l)) => (lease_ClaimedAt l, lease_Generation l) = (3 * Second, 1)
     | _ => False
     end.
Proof. vm_compute. done. Qed.

Definition absent : Result := outcome_result example OutcomeAbsent.

Lemma CompleteVerification_correct_witness :
  exists db', CompleteVerification config id (fun _ _ => Minute) db1 lease1 absent Hour (3 * Second) = (db', None)
    /\ observations db' = [mkObservation key (3 * Second) OutcomeAbsent None].
Proof.
  destruct (CompleteVerification_correct config id (fun _ _ => Minute) eq_refl (fun d _ => eq_refl)
    db1 lease1 absent Hour (3 * Second) row1 (2 * Second)) as (db' & Hrun & _ & _ & _ & Hobs & _).
  all: try by vm_compute.
  { exists row1, (2 * Second + Minute). by vm_compute. }
  { exists row1. split; [by vm_compute|]. right. by intros s [=]. }
  exists db'. split; [exact Hrun|]. rewrite Hobs. by vm_compute.
Defined.
End QueueWitnesses.
