(* ===== verification/Worker.v ===== *)
(** * The verification worker ([internal/worker/worker.go])

    The worker claims one lease at a time from a queue, verifies its origin
    with at most one immediate retry while the lease can still hold the work,
    and completes or abandons the lease. The queue and the verifier are
    interfaces, as in the source; their laws are what the worker relies on, and
    the store's queue and the declaration verifier discharge them. *)

From S2P Require Import Prelude GoText GoUrl GoErrors GoNetip GoJson Retry Origin Netguard.
From S2P Require Import RobotsMatch RobotsPolicy RobotsPolicyFacts RobotsHTTP Declaration Verifier Store Queue QueueFacts.

(** A non-nil context: its error in a state of the environment. *)
Abbreviation Ctx W := (W -> option error) (only parsing).

(** ** Interfaces *)

(** [Queue] and [verificationPauseQueue]; the second is optional, because the
    worker asks for it with a type assertion. *)
Class WorkQueue (W : Type) := {
  queue_Claim : Ctx W -> call W bytes (res error (option Lease));
  queue_Renew : Ctx W -> call W Lease (res error Lease);
  queue_CompleteVerification : Ctx W -> call W (Lease * Result * Z) (option error);
  queue_AbandonVerification : Ctx W -> call W Lease (option error);
  queue_VerificationPaused : option (Ctx W -> call W unit (res error bool));
}.

(** [Verifier] *)
Class WorkVerifier (W : Type) := {
  verifier_Verify : Ctx W -> call W Origin (res error Result);
}.

(** ** Configuration *)

Record Config : Type := mkConfig {
  WorkerID : bytes;
  PollInterval : Z;
  JobTimeout : Z;
  CompletionGrace : Z;
  RecheckInterval : Z;
}.

Definition maxWorkerIDLength : Z := 128.

Definition validConfig (c : Config) : bool :=
  negb (bytes_eqb (WorkerID c) []) && (utf8_RuneCount (WorkerID c) <=? maxWorkerIDLength)
  && (0 <? PollInterval c) && (0 <? JobTimeout c) && (0 <? CompletionGrace c) && (0 <? RecheckInterval c).

(** [newWorker] for dependencies that are not nil *)
Definition newWorker (c : Config) : res error Config :=
  if negb (validConfig c) then Err (errors_New errInvalidConfig) else Ok c.

(** The three-way test on [int64] durations. *)
Definition hasCompletionBudget (leaseBudget jobTimeout completionGrace : Z) : bool :=
  (0 <? leaseBudget) && (completionGrace <? leaseBudget)
  && (jobTimeout <? wrap_int64 (leaseBudget - completionGrace)).

(** What the worker reports: its observer's state transitions and the timeout
    log line. *)
Inductive notice : Type :=
| Observe (state : bytes) (source : Origin) (message : bytes)
| VerificationTimeout (source : Origin) (leaseAction : bytes).

(** [context.WithTimeout] *)
Definition contextTimeoutFactory {W} (clock : W -> Z) (ctx : Ctx W) (timeout : Z) (w : W) : Ctx W :=
  fun w' =>
    match ctx w' with
    | Some e => Some e
    | None => if clock w + timeout <=? clock w' then Some (errors_New DeadlineExceeded) else None
    end.

Section Worker.
Context {W : Type} {Q : WorkQueue W} {V : WorkVerifier W}.
Variable config : Config.
Variable clock : W -> Z.
Variable WithTimeout : Ctx W -> Z -> W -> Ctx W.
Variable notify : W -> notice -> W.

(** [validate] for a worker whose dependencies are not nil *)
Definition validate (ctx : option (Ctx W)) (w : W) : res error (Ctx W) :=
  match ctx with
  | None => Err (errors_New worker_errInvalidContext)
  | Some ctx =>
      match ctx w with
      | Some err => Err err
      | None => if negb (validConfig config) then Err (errors_New errInvalidConfig) else Ok ctx
      end
  end.

(** Whether the lease can still hold one attempt and its completion. *)
Definition budget_left (lease : Lease) (w : W) : bool :=
  hasCompletionBudget (time_Sub (lease_ExpiresAt lease) (clock w)) (JobTimeout config) (CompletionGrace config).

Definition ensureVerificationLeaseBudget (ctx : Ctx W) (lease : Lease) (w : W) : W * (Lease * option error) :=
  if budget_left lease w then (w, (lease, None))
  else
    match queue_Renew ctx w lease with
    | (w, Err renewErr) =>
        let w := notify w (Observe (bs "failed") (lease_Origin lease) (bs "lease_renewal_failed")) in
        (w, (lease, Some (match ctx w with Some contextError => contextError | None => wrap renewErr end)))
    | (w, Ok renewed) =>
        if negb (budget_left renewed w) then
          (notify w (Observe (bs "failed") (lease_Origin renewed) (bs "insufficient_lease_budget")),
           (renewed, Some (errors_New ErrInsufficientLeaseBudget)))
        else (w, (renewed, None))
    end.

(** Lines 359 to 388: one verification under the job's timeout. A failure of
    the job's own deadline becomes an unavailable result. *)
Definition verify_once (ctx : Ctx W) (current : Lease) (anyTimeout : bool) (w : W)
    : W * res error (Result * bool) :=
  let jobContext := WithTimeout ctx (JobTimeout config) w in
  match verifier_Verify jobContext w (lease_Origin current) with
  | (w, Ok result) => (w, Ok (result, anyTimeout))
  | (w, Err err) =>
      match ctx w with
      | Some contextError => (w, Err contextError)
      | None =>
          match jobContext w with
          | None =>
              (notify w (Observe (bs "failed") (lease_Origin current) (bs "verification_failed")), Err (wrap err))
          | Some _ => (w, Ok (unavailable (lease_Origin current) CategoryTimeout 0, true))
          end
      end
  end.

(** Lines 390 to 395: an unavailable result gets a category. *)
Definition categorized (r : Result) : Result :=
  mkResult (result_Outcome r) (result_Origin r) (result_Declaration r) (effective_category r) (result_RetryAfter r).

(** The attempts of [verifyWithRetries], by recursion on the attempts left. *)
Fixpoint attempt_loop (left : nat) (ctx : Ctx W) (current : Lease) (anyTimeout : bool)
    (lastResult : Result) (w : W) : W * (res error Result * Lease * bool) :=
  match left with
  | O => (w, (Ok lastResult, current, anyTimeout))
  | S left' =>
      match ensureVerificationLeaseBudget ctx current w with
      | (w, (ensured, Some ensureErr)) => (w, (Err ensureErr, ensured, anyTimeout))
      | (w, (current, None)) =>
          match verify_once ctx current anyTimeout w with
          | (w, Err err) => (w, (Err err, current, anyTimeout))
          | (w, Ok (result, anyTimeout)) =>
              let result := categorized result in
              if negb (transient_result result) then (w, (Ok result, current, anyTimeout))
              else if Nat.eqb left' 0 || (0 <? result_RetryAfter result)
              then (w, (Ok result, current, anyTimeout))
              else attempt_loop left' ctx current anyTimeout result w
          end
      end
  end.

(** [declaration.Result{}] *)
Definition zero_result : Result := mkResult OutcomeInvalid zero_origin zero_declaration CategoryNone 0.

Definition verifyWithRetries (ctx : Ctx W) (lease : Lease) (w : W) : W * (res error Result * Lease * bool) :=
  attempt_loop (Z.to_nat MaxAttemptsPerCycle) ctx lease false zero_result w.

Definition abandonHardVerifyFailure (ctx : Ctx W) (lease : Lease) (w : W) : W * option error :=
  match queue_AbandonVerification (WithTimeout ctx (CompletionGrace config) w) w lease with
  | (w, Some abandonErr) =>
      (w, Some (match ctx w with Some contextError => contextError | None => wrap abandonErr end))
  | (w, None) => (w, None)
  end.

(** Lines 284 to 327: a failed completion. *)
Definition completion_failed (ctx completionContext : Ctx W) (lease : Lease) (timedOut : bool)
    (completionError : error) (w : W) : W * option error :=
  let ended w := Some (match completionContext w with Some e => e | None => completionError end) in
  if timedOut then
    match queue_AbandonVerification (WithTimeout ctx (CompletionGrace config) w) w lease with
    | (w, Some abandonError) =>
        let w := notify w (VerificationTimeout (lease_Origin lease) (bs "abandon_failed")) in
        (w, Some (match ctx w with
                  | Some contextError => contextError
                  | None => join completionError (wrap abandonError)
                  end))
    | (w, None) =>
        let w := notify w (VerificationTimeout (lease_Origin lease) (bs "abandoned")) in
        (w, ended w)
    end
  else (w, ended w).

(** Lines 255 to 338: the completion of a verified lease. *)
Definition complete_work (ctx : Ctx W) (lease : Lease) (result : Result) (timedOut : bool) (w : W)
    : W * option error :=
  match ctx w with
  | Some contextError => (w, Some contextError)
  | None =>
      let completionContext := WithTimeout ctx (CompletionGrace config) w in
      match queue_CompleteVerification completionContext w (lease, result, RecheckInterval config) with
      | (w, Some err) =>
          let w := notify w (Observe (bs "failed") (lease_Origin lease) (bs "completion_failed")) in
          match ctx w with
          | Some contextError => (w, Some contextError)
          | None => completion_failed ctx completionContext lease timedOut (wrap err) w
          end
      | (w, None) =>
          let w := if timedOut
                   then notify w (VerificationTimeout (lease_Origin lease) (bs "completed")) else w in
          (notify w (Observe (bs "idle") zero_origin []), None)
      end
  end.

(** Lines 227 to 241: no lease. *)
Definition no_work (ctx : Ctx W) (w : W) : W * option error :=
  match queue_VerificationPaused with
  | None => (notify w (Observe (bs "idle") zero_origin []), None)
  | Some VerificationPaused =>
      match VerificationPaused ctx w tt with
      | (w, Err pauseErr) =>
          (notify w (Observe (bs "failed") zero_origin (bs "control_read_failed")), Some pauseErr)
      | (w, Ok paused) =>
          (notify w (Observe (if paused then bs "paused" else bs "idle") zero_origin []), None)
      end
  end.

(** Lines 244 to 338: the work on a claimed lease. *)
Definition process (ctx : Ctx W) (lease : Lease) (w : W) : W * option error :=
  match verifyWithRetries ctx lease w with
  | (w, (Err err, lease, _)) =>
      match abandonHardVerifyFailure ctx lease w with
      | (w, Some abandonErr) => (w, Some (join err abandonErr))
      | (w, None) => (w, Some err)
      end
  | (w, (Ok result, lease, timedOut)) => complete_work ctx lease result timedOut w
  end.

Definition RunOnce (ctx : option (Ctx W)) (w : W) : W * (bool * option error) :=
  match validate ctx w with
  | Err err => (w, (false, Some err))
  | Ok ctx =>
      match queue_Claim ctx w (WorkerID config) with
      | (w, Err err) =>
          (notify w (Observe (bs "failed") zero_origin (bs "claim_failed")), (false, Some (wrap err)))
      | (w, Ok None) => let '(w, e) := no_work ctx w in (w, (false, e))
      | (w, Ok (Some lease)) =>
          let w := notify w (Observe (bs "running") (lease_Origin lease) []) in
          let '(w, e) := process ctx lease w in (w, (true, e))
      end
  end.

(** *** Run *)

Variable waiter : Ctx W -> call W Z (option error).

(** One pass of the loop of [Run]; [Some] is the error [Run] returns. *)
Definition run_pass (ctx : Ctx W) (w : W) : W * option error :=
  match RunOnce (Some ctx) w with
  | (w, (worked, Some _)) =>
      match ctx w with
      | Some contextError => (w, Some contextError)
      | None => if worked then (w, None) else waiter ctx w (PollInterval config)
      end
  | (w, (worked, None)) => if worked then (w, None) else waiter ctx w (PollInterval config)
  end.

(** The loop; [None] means that the fuel ran out while the worker still runs. *)
Fixpoint run_loop (fuel : nat) (ctx : Ctx W) (w : W) : W * option error :=
  match fuel with
  | O => (w, None)
  | S fuel' =>
      match run_pass ctx w with
      | (w, Some err) => (w, Some err)
      | (w, None) => run_loop fuel' ctx w
      end
  end.

Definition Run (fuel : nat) (ctx : option (Ctx W)) (w : W) : W * option error :=
  match validate ctx w with
  | Err err => (w, Some err)
  | Ok ctx => run_loop fuel ctx w
  end.
End Worker.
