(* ===== verification/WorkerFacts.v ===== *)
(** * Correctness of the verification worker

    What a worker does with a lease, as the trace of its calls to the queue and
    the verifier; the laws it relies on; and the store's queue and the
    declaration verifier as instances of its interfaces. *)

From S2P Require Import Prelude GoText GoUrl GoErrors GoNetip GoJson Retry Origin Netguard.
From S2P Require Import RobotsMatch RobotsPolicy RobotsPolicyFacts RobotsHTTP Declaration Verifier Store Queue QueueFacts.
From S2P Require Import Worker.

(** ** The laws of the interfaces *)

(** Two leases with the same authority over a row; they may differ in the
    times they carry. *)
Definition same_authority (l l' : Lease) : Prop :=
  lease_Origin l = lease_Origin l' /\ lease_WorkerID l = lease_WorkerID l'
  /\ lease_Generation l = lease_Generation l'.

#[export] Instance same_authority_equivalence : Equivalence same_authority.
Proof.
  split.
  - by intros l.
  - intros l l' (? & ? & ?). by split_and!.
  - intros l l' l'' (? & ? & ?) (? & ? & ?). split_and!; congruence.
Qed.

Class WorkQueueLaws (W : Type) `{WorkQueue W} := {
  Renew_same ctx (w : W) l w' l' : queue_Renew ctx w l = (w', Ok l') -> same_authority l l';
}.

Class WorkVerifierLaws (W : Type) `{WorkVerifier W} := {
  Verify_about ctx (w : W) o w' r : verifier_Verify ctx w o = (w', Ok r) ->
    result_Origin r = o /\ validVerificationResult r = true;
}.

(** ** Traces *)

(** A call of the worker with its answer; a verification also with the time it
    started, a completion with the states before and after it. *)
Inductive event (W : Type) : Type :=
| ev_claim (r : res error (option Lease))
| ev_renew (l : Lease) (r : res error Lease)
| ev_verify (t : Z) (o : Origin) (r : res error Result)
| ev_complete (w : W) (l : Lease) (r : Result) (recheckAfter : Z) (w' : W) (e : option error)
| ev_abandon (l : Lease) (e : option error)
| ev_wait (d : Z).
Arguments ev_claim {W}. Arguments ev_renew {W}. Arguments ev_verify {W}.
Arguments ev_complete {W}. Arguments ev_abandon {W}. Arguments ev_wait {W}.

Section Traced.
Context {W : Type} {Q : WorkQueue W} {V : WorkVerifier W}.
Variable clock : W -> Z.

Abbreviation traced := (W * list (event W))%type.

(** The context of the environment below a context of the traced one. *)
Definition lower (ctx : Ctx traced) (log : list (event W)) : Ctx W := fun w => ctx (w, log).

#[export] Instance traced_queue : WorkQueue traced := {
  queue_Claim ctx '(w, log) id :=
    let '(w', r) := queue_Claim (lower ctx log) w id in ((w', log ++ [ev_claim r]), r);
  queue_Renew ctx '(w, log) l :=
    let '(w', r) := queue_Renew (lower ctx log) w l in ((w', log ++ [ev_renew l r]), r);
  queue_CompleteVerification ctx '(w, log) a :=
    let '(w', e) := queue_CompleteVerification (lower ctx log) w a in
    let '(l, r, d) := a in ((w', log ++ [ev_complete w l r d w' e]), e);
  queue_AbandonVerification ctx '(w, log) l :=
    let '(w', e) := queue_AbandonVerification (lower ctx log) w l in ((w', log ++ [ev_abandon l e]), e);
  queue_VerificationPaused :=
    option_map (fun f ctx '(w, log) (u : unit) => let '(w', r) := f (lower ctx log) w u in ((w', log), r))
      queue_VerificationPaused;
}.

#[export] Instance traced_verifier : WorkVerifier traced := {
  verifier_Verify ctx '(w, log) o :=
    let '(w', r) := verifier_Verify (lower ctx log) w o in ((w', log ++ [ev_verify (clock w) o r]), r);
}.

Definition traced_clock (w : traced) : Z := clock (fst w).
Definition traced_notify (notify : W -> notice -> W) : traced -> notice -> traced :=
  fun '(w, log) n => (notify w n, log).
Definition traced_timeout (WithTimeout : Ctx W -> Z -> W -> Ctx W) : Ctx traced -> Z -> traced -> Ctx traced :=
  fun ctx d '(w, log) => ctx_lift (WithTimeout (lower ctx log) d w).
Definition traced_waiter (waiter : Ctx W -> call W Z (option error)) : Ctx traced -> call traced Z (option error) :=
  fun ctx '(w, log) d => let '(w', e) := waiter (lower ctx log) w d in ((w', log ++ [ev_wait d]), e).
End Traced.

(** ** What a session does *)

Section Session.
Context {W : Type} {Q : WorkQueue W} {V : WorkVerifier W}.
Context {QL : WorkQueueLaws W} {VL : WorkVerifierLaws W}.
Variable config : Config.
Variable clock : W -> Z.
Variable WithTimeout : Ctx W -> Z -> W -> Ctx W.
Variable notify : W -> notice -> W.
Hypothesis config_valid : validConfig config = true.

Abbreviation traced := (W * list (event W))%type.

(** A renewal or a verification on behalf of the lease [l]: the renewal has
    the authority of [l]; the verification is of its origin, and started while
    a lease of that authority could hold the job's timeout and the completion
    grace. *)
Definition attempt_ok (l : Lease) (e : event W) : Prop :=
  match e with
  | ev_renew l' _ => same_authority l l'
  | ev_verify t o _ =>
      o = lease_Origin l
      /\ exists l', same_authority l l'
           /\ JobTimeout config + CompletionGrace config < lease_ExpiresAt l' - t
  | _ => False
  end.

(** The answers of the verifier in a trace. *)
Definition verifies (evs : list (event W)) : list (res error Result) :=
  omap (fun e => match e with ev_verify _ _ r => Some r | _ => None end) evs.

(** An answer after which the worker may try again at once. *)
Definition retryable (v : res error Result) : Prop :=
  match v with
  | Ok r => transient_result (categorized r) = true /\ result_RetryAfter r <= 0
  | Err _ => True
  end.

(** The result the worker reports for the verifier's last answer. *)
Definition reported (o : Origin) (v : res error Result) (r : Result) : Prop :=
  match v with Ok r0 => r = categorized r0 | Err _ => r = unavailable o CategoryTimeout 0 end.

(** How a session ends: committed, failed, failed and released, abandoned, or
    interrupted by the context before anything was settled. *)
Inductive settlement (l : Lease) (r : res error Result) (canceled : option error)
  : list (event W) -> option error -> Prop :=
| committed c w res w' : r = Ok res ->
    queue_CompleteVerification c w (l, res, RecheckInterval config) = (w', None) ->
    settlement l r canceled [ev_complete w l res (RecheckInterval config) w' None] None
| failed w res w' e err : r = Ok res ->
    settlement l r canceled [ev_complete w l res (RecheckInterval config) w' (Some e)] (Some err)
| released w res w' e e' err : r = Ok res ->
    settlement l r canceled
      [ev_complete w l res (RecheckInterval config) w' (Some e); ev_abandon l e'] (Some err)
| abandoned e e' err : r = Err e -> settlement l r canceled [ev_abandon l e'] (Some err)
| interrupted res err : r = Ok res -> canceled = Some err -> settlement l r canceled [] (Some err).

Lemma config_positive :
  0 < PollInterval config /\ 0 < JobTimeout config /\ 0 < CompletionGrace config /\ 0 < RecheckInterval config.
Proof using config_valid. unfold validConfig in config_valid. b2p. lia. Qed.

Lemma budget_spec l (w : W) : budget_left config clock l w = true ->
  JobTimeout config + CompletionGrace config < lease_ExpiresAt l - clock w.
Proof using config_valid.
  unfold budget_left, hasCompletionBudget, time_Sub. intros Hb. b2p.
  pose proof config_positive. rewrite wrap_int64_id in H0; unfold min_int64, max_int64 in *; lia.
Qed.

Abbreviation ensure := (ensureVerificationLeaseBudget config (traced_clock clock) (traced_notify notify)).

Lemma ensure_trace ctx l cur w log w' log' cur' e :
  same_authority l cur ->
  ensure (ctx_lift ctx) cur (w, log) = ((w', log'), (cur', e)) ->
  same_authority l cur'
  /\ (exists evs, log' = log ++ evs /\ Forall (attempt_ok l) evs /\ verifies evs = [])
  /\ (e = None -> JobTimeout config + CompletionGrace config < lease_ExpiresAt cur' - clock w').
Proof using QL config_valid.
  intros Hl. unfold ensureVerificationLeaseBudget.
  destruct (budget_left config (traced_clock clock) cur (w, log)) eqn:Hb.
  { intro_pairs. split_and!; [done| |].
    - exists []. by rewrite app_nil_r.
    - intros _. by apply (budget_spec cur w). }
  cbn [queue_Renew traced_queue]. destruct (queue_Renew _ w cur) as [w1 [renewed|err]] eqn:Hr.
  - pose proof (Renew_same _ _ _ _ _ Hr) as Hs. assert (Hl' : same_authority l renewed) by (by etransitivity).
    assert (Hevs : exists evs, log ++ [ev_renew cur (Ok renewed)] = log ++ evs
              /\ Forall (attempt_ok l) evs /\ verifies evs = []) by (eexists; split_and!; [done|by constructor|done]).
    destruct (budget_left config (traced_clock clock) renewed _) eqn:Hb'; cbn [negb traced_notify];
      intro_pairs; split_and!; try done.
    intros _. by apply (budget_spec renewed w1).
  - cbn [traced_notify]. intro_pairs.
    split_and!; [done| |done]. eexists. split_and!; [done|by constructor|done].
Qed.

Lemma once_trace ctx l cur timedOut w log w' log' r :
  same_authority l cur -> JobTimeout config + CompletionGrace config < lease_ExpiresAt cur - clock w ->
  verify_once (V := traced_verifier clock) config (traced_timeout WithTimeout) (traced_notify notify)
    (ctx_lift ctx) cur timedOut (w, log) = ((w', log'), r) ->
  exists t v, log' = log ++ [ev_verify t (lease_Origin l) v] /\ attempt_ok l (ev_verify t (lease_Origin l) v)
    /\ match r with
       | Ok (res, _) => reported (lease_Origin l) v (categorized res)
                        /\ (retryable v <-> retryable (Ok res))
                        /\ result_Origin res = lease_Origin l /\ validVerificationResult res = true
       | Err _ => True
       end.
Proof using VL.
  intros Hl Hb. destruct Hl as (Ho & Hw & Hg). unfold verify_once. cbn [verifier_Verify traced_verifier].
  destruct (verifier_Verify _ w _) as [w1 v] eqn:Hv. rewrite <- Ho.
  assert (Hok : attempt_ok l (ev_verify (clock w) (lease_Origin l) v)) by (split; [done|exists cur; done]).
  destruct v as [res|err].
  - intro_pairs. exists (clock w), (Ok res). split_and!; try done.
    + destruct (Verify_about _ _ _ _ _ Hv) as [-> _]. done.
    + by destruct (Verify_about _ _ _ _ _ Hv).
  - unfold ctx_lift at 1. cbn [fst]. destruct (ctx w1) as [contextError|].
    { intro_pairs. eexists _, _. split_and!; done. }
    destruct (traced_timeout _ _ _ _ _) as [jobError|].
    + intro_pairs. exists (clock w), (Err err). split_and!; done.
    + cbn [traced_notify]. intro_pairs. eexists _, _. split_and!; done.
Qed.

Lemma verifies_app a b : verifies (a ++ b) = verifies a ++ verifies b.
Proof. unfold verifies. by rewrite omap_app. Qed.

Lemma categorized_valid r :
  validVerificationResult r = true -> validVerificationResult (categorized r) = true.
Proof.
  intros Hv. unfold categorized, effective_category.
  destruct (bool_decide (result_Outcome r = OutcomeUnavailable) && bool_decide (result_FailureCategory r = CategoryNone))
    eqn:E; [|by destruct r]. b2p. apply bool_decide_eq_true in H, H0. unfold validVerificationResult in *.
  cbn [result_Outcome result_Declaration result_FailureCategory result_RetryAfter]. rewrite H, H0 in *.
  destruct (bool_decide (result_Declaration r <> zero_declaration)); done.
Qed.

(** A finished series of attempts: at most [left] verifications, each but the
    last answered with a retryable failure, and the reported result is that of
    the last answer. *)
Record attempts (l : Lease) (left : nat) (evs : list (event W)) (r : res error Result) : Prop := {
  attempts_ok : Forall (attempt_ok l) evs;
  attempts_count : (length (verifies evs) <= left)%nat;
  attempts_retry : Forall retryable (removelast (verifies evs));
  attempts_result : forall res, r = Ok res ->
    result_Origin res = lease_Origin l /\ validVerificationResult res = true
    /\ exists v, last (verifies evs) = Some v /\ reported (lease_Origin l) v res;
}.

(** Attempts that follow a retryable answer. *)
Lemma attempts_after l left evs e v evs' r :
  Forall (attempt_ok l) (evs ++ [e]) -> verifies (evs ++ [e]) = [v] -> retryable v ->
  attempts l left evs' r -> (forall res, r = Ok res -> verifies evs' <> []) ->
  attempts l (S left) ((evs ++ [e]) ++ evs') r.
Proof.
  intros Ha Hv Hr [Hok Hc Hre Hres] Hne. split.
  - by apply Forall_app.
  - rewrite verifies_app, Hv. cbn [app length]. lia.
  - rewrite verifies_app, Hv. cbn [app]. destruct (verifies evs') as [|v' vs]; [done|]. by constructor.
  - intros res Heq. destruct (Hres res Heq) as (Ho & Hval & v' & Hl & Hrep).
    split_and!; [done|done|]. exists v'. split; [|done]. rewrite verifies_app, Hv. cbn [app].
    by destruct (verifies evs').
Qed.

Abbreviation loop := (attempt_loop (Q := traced_queue) (V := traced_verifier clock) config (traced_clock clock)
  (traced_timeout WithTimeout) (traced_notify notify)).

(** What [n] attempts for [l] leave behind. *)
Definition loop_spec (ctx : Ctx W) (l : Lease) (n : nat) : Prop :=
  forall cur timedOut lastResult w log w' log' r cur' timedOut',
  same_authority l cur ->
  loop n (ctx_lift ctx) cur timedOut lastResult (w, log) = ((w', log'), (r, cur', timedOut')) ->
  same_authority l cur'
  /\ exists evs, log' = log ++ evs /\ attempts l n evs r /\ (forall res, r = Ok res -> verifies evs <> []).

(** The attempts end with the answer [e]. *)
Lemma attempts_end l left evs t o v r :
  Forall (attempt_ok l) evs -> verifies evs = [] -> attempt_ok l (ev_verify t o v) ->
  (forall res, r = Ok res -> result_Origin res = lease_Origin l /\ validVerificationResult res = true
                             /\ reported (lease_Origin l) v res) ->
  attempts l (S left) (evs ++ [ev_verify t o v]) r
  /\ (forall res, r = Ok res -> verifies (evs ++ [ev_verify t o v]) <> []).
Proof.
  intros Hok Hv He Hr. split.
  - split.
    + apply Forall_app. split; [done|by constructor].
    + rewrite verifies_app, Hv. cbn. lia.
    + rewrite verifies_app, Hv. constructor.
    + intros res Hres. destruct (Hr res Hres) as (? & ? & ?). split_and!; [done|done|]. exists v.
      by rewrite verifies_app, Hv.
  - intros res _. by rewrite verifies_app, Hv.
Qed.

Lemma attempt_step ctx l left : left = O \/ loop_spec ctx l left -> loop_spec ctx l (S left).
Proof using QL VL config_valid.
  intros Hrec cur timedOut lastResult w log w' log' r cur' timedOut' Hl. cbn [attempt_loop].
  destruct (ensureVerificationLeaseBudget _ _ _ _ _ _) as [[w1 log1] [cur1 e]] eqn:He.
  apply (ensure_trace ctx l) in He as (Hl1 & (evs1 & -> & Hok1 & Hv1) & Hb); [|done].
  destruct e as [ensureErr|].
  { intro_pairs.
    split; [done|]. exists evs1. split_and!; [done| |done]. by split; rewrite ?Hv1; [|cbn; lia|constructor|]. }
  destruct (verify_once _ _ _ _ _ _ _) as [[w2 log2] v] eqn:Ho.
  apply (once_trace ctx l) in Ho as (t & a & -> & Hat & Hv); [|done|by apply Hb].
  rewrite <- app_assoc. destruct v as [[res timedOut2]|err].
  2:{ intro_pairs.
      split; [done|]. eexists. split; [done|]. by apply attempts_end. }
  destruct Hv as (Hrep & Hret & Hor & Hval). cbv zeta.
  assert (Hend : forall r' : Prelude.res error Result, r' = Ok (categorized res) -> forall res', r' = Ok res' ->
    result_Origin res' = lease_Origin l /\ validVerificationResult res' = true
    /\ reported (lease_Origin l) a res').
  { intros r' -> res' [= <-]. split_and!; [done|by apply categorized_valid|done]. }
  destruct (transient_result (categorized res)) eqn:Ht; cbn [negb].
  2:{ intro_pairs.
      split; [done|]. eexists. split; [done|]. apply attempts_end; try done. by apply Hend. }
  destruct (Nat.eqb left 0 || (0 <? result_RetryAfter (categorized res))) eqn:Hstop.
  { intro_pairs.
    split; [done|]. eexists. split; [done|]. apply attempts_end; try done. by apply Hend. }
  apply orb_false_iff in Hstop as [Hleft%Nat.eqb_neq Hra]. destruct Hrec as [->|Hrec]; [done|].
  intros (Hl' & evs2 & -> & Hatt & Hne)%Hrec; [|done]. split; [done|].
  exists ((evs1 ++ [ev_verify t (lease_Origin l) a]) ++ evs2). split; [by rewrite !app_assoc|].
  split.
  - eapply attempts_after; [apply Forall_app; split; [done|by constructor]| | |done|done].
    + by rewrite verifies_app, Hv1.
    + apply Hret. split; [done|]. cbn [categorized result_RetryAfter] in Hra. lia.
  - intros res' Hres'. rewrite verifies_app, verifies_app, Hv1. done.
Qed.

Lemma verifyWithRetries_spec ctx l : loop_spec ctx l 2.
Proof using QL VL config_valid. apply attempt_step. right. apply attempt_step. by left. Qed.

Lemma complete_trace ctx cur result timedOut w log w' log' err :
  complete_work (Q := traced_queue) config (traced_timeout WithTimeout) (traced_notify notify)
    (ctx_lift ctx) cur result timedOut (w, log) = ((w', log'), err) ->
  exists tail, log' = log ++ tail /\ settlement cur (Ok result) (ctx w') tail err.
Proof.
  unfold complete_work. unfold ctx_lift at 1. cbn [fst]. destruct (ctx w) as [contextError|] eqn:Hctx.
  { intro_pairs. exists []. rewrite app_nil_r. split; [done|by eapply interrupted]. }
  cbn [queue_CompleteVerification traced_queue].
  destruct (queue_CompleteVerification _ w _) as [w1 [e|]] eqn:Hq.
  2:{ destruct timedOut; cbn [traced_notify]; intro_pairs;
        (eexists; split; [done|by eapply committed]). }
  cbn [traced_notify]. unfold ctx_lift at 1. cbn [fst]. destruct (ctx (notify w1 _)) as [contextError|].
  { intro_pairs. eexists. split; [done|by constructor]. }
  unfold completion_failed. destruct timedOut.
  2:{ intro_pairs. eexists. split; [done|by constructor]. }
  cbn [queue_AbandonVerification traced_queue]. destruct (queue_AbandonVerification _ _ cur) as [w2 [e'|]];
    cbn [traced_notify]; intro_pairs;
    (rewrite <- app_assoc; eexists; split; [done|by constructor]).
Qed.

(** The lease [cur] a session settles has the authority of the claimed one. *)
Lemma process_trace ctx l w log w' log' err :
  process (Q := traced_queue) (V := traced_verifier clock) config (traced_clock clock)
    (traced_timeout WithTimeout) (traced_notify notify) (ctx_lift ctx) l (w, log) = ((w', log'), err) ->
  exists cur evs tail r, log' = log ++ evs ++ tail /\ same_authority l cur /\ attempts l 2 evs r
    /\ settlement cur r (ctx w') tail err.
Proof using QL VL config_valid.
  unfold process, verifyWithRetries. change (Z.to_nat MaxAttemptsPerCycle) with 2%nat.
  destruct (attempt_loop _ _ _ _ _ _ _ _ _ _) as [[w1 log1] [[r cur] timedOut]] eqn:Hloop.
  apply (verifyWithRetries_spec ctx l) in Hloop as (Hl & evs & -> & Hatt & _); [|done].
  destruct r as [result|e].
  - intros (tail & -> & Hset)%complete_trace. rewrite <- app_assoc. eexists _, _, _, _. split_and!; done.
  - unfold abandonHardVerifyFailure. cbn [queue_AbandonVerification traced_queue].
    destruct (queue_AbandonVerification _ w1 cur) as [w2 [e'|]];
      intro_pairs; rewrite <- app_assoc;
      (eexists _, _, _, _; split_and!; [done|done|done|by eapply abandoned]).
Qed.

Abbreviation once := (RunOnce (Q := traced_queue) (V := traced_verifier clock) config (traced_clock clock)
  (traced_timeout WithTimeout) (traced_notify notify)).

(** The calls of one pass: the work on a claimed lease, or a claim in vain. *)
Definition worked_pass (canceled : option error) (evs : list (event W)) (err : option error) : Prop :=
  exists l cur tries tail r, evs = ev_claim (Ok (Some l)) :: tries ++ tail
    /\ same_authority l cur /\ attempts l 2 tries r /\ settlement cur r canceled tail err.
Definition idle_claim (evs : list (event W)) : Prop :=
  exists r, evs = [ev_claim r] /\ forall l, r <> Ok (Some l).

Lemma RunOnce_trace ctx w log w' log' worked err :
  once (Some (ctx_lift ctx)) (w, log) = ((w', log'), (worked, err)) ->
  exists evs, log' = log ++ evs
    /\ (if worked then worked_pass (ctx w') evs err else (evs = [] /\ ctx w' <> None /\ err <> None) \/ idle_claim evs).
Proof using QL VL config_valid.
  unfold RunOnce, validate. unfold ctx_lift at 1. cbn [fst]. destruct (ctx w) as [e|] eqn:Hctx.
  { intro_pairs. exists []. rewrite app_nil_r.
    split; [done|]. left. split_and!; [done|congruence|done]. }
  rewrite config_valid. cbn [negb queue_Claim traced_queue].
  destruct (queue_Claim _ w _) as [w1 [[l|]|e]]; cbn [traced_notify app].
  - destruct (process _ _ _ _ _ _ _) as [[w2 log2] e] eqn:Hp.
    intro_pairs.
    apply process_trace in Hp as (cur & evs & tail & r & -> & Hl & Hatt & Hset).
    rewrite <- app_assoc. eexists. split; [done|]. exists l, cur, evs, tail, r. split_and!; done.
  - unfold no_work. cbn [queue_VerificationPaused traced_queue].
    destruct queue_VerificationPaused as [paused|]; cbn [option_map];
      [destruct (paused _ w1 tt) as [w2 [b|e]]|]; cbn [traced_notify];
      intro_pairs;
      (eexists; split; [done|right; eexists; split; done]).
  - intro_pairs.
    eexists. split; [done|right; eexists; split; done].
Qed.

(** One pass of the worker, whatever the queue and the verifier answer. It
    works only on the lease it claimed. The origin is verified at most twice,
    the second time only after a transient failure without a server-requested
    delay, and each time only while the lease can still hold the job's timeout
    and the completion grace. Then the lease is settled exactly once, with the
    authority of the claim: completed with the last answer about its origin,
    in a form the store accepts; completed in vain and, after a timeout,
    released; abandoned after a hard failure; or left to expire when the
    context ends first. The pass succeeds exactly when the completion was
    accepted. Without a lease nothing is verified, completed or abandoned. *)
Theorem RunOnce_correct ctx w w' log worked err :
  once (Some (ctx_lift ctx)) (w, []) = ((w', log), (worked, err)) ->
  if worked then worked_pass (ctx w') log err else log = [] \/ idle_claim log.
Proof using QL VL config_valid.
  intros (evs & -> & Hevs)%RunOnce_trace. cbn [app]. destruct worked; [done|]. destruct Hevs as [(-> & _)|]; auto.
Qed.

(** *** The loop *)

Variable waiter : Ctx W -> call W Z (option error).

(** A sequence of passes: a session leads at once to the next claim, a claim
    in vain to a wait for the poll interval. *)
Inductive passes : list (event W) -> Prop :=
| passes_nil : passes []
| passes_work canceled evs err rest : worked_pass canceled evs err -> passes rest -> passes (evs ++ rest)
| passes_idle evs rest :
    idle_claim evs -> passes rest -> passes (evs ++ ev_wait (PollInterval config) :: rest).

Abbreviation loop_run := (run_loop (Q := traced_queue) (V := traced_verifier clock) config (traced_clock clock)
  (traced_timeout WithTimeout) (traced_notify notify) (traced_waiter waiter)).

Lemma waiter_trace ctx w log d w' log' e :
  traced_waiter waiter (ctx_lift ctx) (w, log) d = ((w', log'), e) ->
  log' = log ++ [ev_wait d] /\ waiter ctx w d = (w', e).
Proof.
  cbn [traced_waiter]. change (lower (ctx_lift ctx) log) with ctx. destruct (waiter ctx w d) as [w1 e1].
  by intro_pairs.
Qed.

(** How [Run] returns [err]: the context ended, or the waiter failed. *)
Inductive ended (ctx : Ctx W) (w' : W) (err : error) : list (event W) -> Prop :=
| ended_before : ctx w' = Some err -> ended ctx w' err []
| ended_idle evs : ctx w' = Some err -> idle_claim evs -> ended ctx w' err evs
| ended_work canceled evs e : ctx w' = Some err -> worked_pass canceled evs e -> ended ctx w' err evs
| ended_wait evs w : idle_claim evs -> waiter ctx w (PollInterval config) = (w', Some err) ->
    ended ctx w' err (evs ++ [ev_wait (PollInterval config)]).

Lemma run_pass_trace ctx w log w' log' e :
  run_pass (Q := traced_queue) (V := traced_verifier clock) config (traced_clock clock)
    (traced_timeout WithTimeout) (traced_notify notify) (traced_waiter waiter) (ctx_lift ctx) (w, log)
  = ((w', log'), e) ->
  exists evs, log' = log ++ evs
    /\ match e with
       | Some err => ended ctx w' err evs
       | None => (exists canceled err, worked_pass canceled evs err)
                 \/ exists evs0, idle_claim evs0 /\ evs = evs0 ++ [ev_wait (PollInterval config)]
       end.
Proof using QL VL config_valid.
  unfold run_pass. destruct (RunOnce _ _ _ _ _ _) as [[w1 log1] [worked err]] eqn:Hrun.
  apply RunOnce_trace in Hrun as (evs & -> & Hevs). unfold ctx_lift at 1. cbn [fst].
  assert (Hwait : forall w2 log2 e2, idle_claim evs ->
    traced_waiter waiter (ctx_lift ctx) (w1, log ++ evs) (PollInterval config) = ((w2, log2), e2) ->
    exists evs', log2 = log ++ evs'
      /\ match e2 with
         | Some err => ended ctx w2 err evs'
         | None => (exists canceled err, worked_pass canceled evs' err)
                   \/ exists evs0, idle_claim evs0 /\ evs' = evs0 ++ [ev_wait (PollInterval config)]
         end).
  { intros w2 log2 e2 Hidle [-> Hw]%waiter_trace. exists (evs ++ [ev_wait (PollInterval config)]).
    split; [by rewrite app_assoc|]. destruct e2; [by eapply ended_wait|]. right. eauto. }
  destruct err as [err|]; [destruct (ctx w1) as [contextError|] eqn:Hctx|]; destruct worked.
  - intro_pairs. exists evs. split; [done|]. by eapply ended_work.
  - intro_pairs. exists evs. split; [done|].
    destruct Hevs as [(-> & _)|Hidle]; [by apply ended_before|by apply ended_idle].
  - intro_pairs. exists evs. split; [done|]. left. eauto.
  - destruct Hevs as [(_ & Hc & _)|Hidle]; [congruence|]. by apply Hwait.
  - intro_pairs. exists evs. split; [done|]. left. eauto.
  - destruct Hevs as [(_ & _ & Hc)|Hidle]; [done|]. by apply Hwait.
Qed.

(** The number of claims in a trace. *)
Definition claim_count (evs : list (event W)) : nat :=
  length (List.filter (fun e => match e with ev_claim _ => true | _ => false end) evs).

Lemma claim_count_app a b : claim_count (a ++ b) = (claim_count a + claim_count b)%nat.
Proof. unfold claim_count. by rewrite List.filter_app, length_app. Qed.

Lemma attempts_no_claim l evs : Forall (attempt_ok l) evs -> claim_count evs = 0%nat.
Proof. induction 1 as [|e evs He _ IH]; [done|]. by destruct e. Qed.

Lemma worked_claim canceled evs err : worked_pass canceled evs err -> claim_count evs = 1%nat.
Proof.
  intros (l & cur & tries & tail & r & -> & _ & [Hok _ _ _] & Hset).
  change (claim_count (?x :: ?y)) with (S (claim_count y)). rewrite claim_count_app, (attempts_no_claim l) by done.
  by destruct Hset.
Qed.

Lemma run_loop_trace fuel ctx w log w' log' e :
  loop_run fuel (ctx_lift ctx) (w, log) = ((w', log'), e) ->
  exists body final, log' = log ++ body ++ final /\ passes body
    /\ match e with
       | Some err => ended ctx w' err final
       | None => final = [] /\ claim_count body = fuel
       end.
Proof using QL VL config_valid.
  revert w log. induction fuel as [|fuel IH]; intros w log; cbn [run_loop].
  { intro_pairs. exists [], []. rewrite app_nil_r.
    split_and!; [done|constructor|done|done]. }
  destruct (run_pass _ _ _ _ _ _ _) as [[w1 log1] e1] eqn:Hp.
  apply run_pass_trace in Hp as (evs & -> & Hevs). destruct e1 as [err|].
  { intro_pairs. exists [], evs. split_and!; [done|constructor|done]. }
  intros (body & final & -> & Hbody & He)%IH. exists (evs ++ body), final.
  split; [by rewrite !app_assoc|]. split.
  - destruct Hevs as [(c & err & Hw)|(evs0 & Hi & ->)]; [by eapply passes_work|].
    rewrite <- app_assoc. by apply passes_idle.
  - destruct e as [err|]; [done|]. destruct He as [-> Hc]. split; [done|]. rewrite claim_count_app.
    destruct Hevs as [(c & err & Hw)|(evs0 & (r & -> & _) & ->)]; [erewrite worked_claim by done|cbn]; lia.
Qed.

(** C28: The worker keeps running: [Run] returns only when its context ends or
    its waiter fails, never because a claim, a verification or a completion
    failed; as long as it has not returned, every pass of its loop makes one
    claim. A session, successful or not, leads at once to the next claim; a
    claim without a lease, failed or empty, is followed by exactly one wait for
    the poll interval. *)
Theorem Run_correct fuel ctx w w' log e :
  Run (Q := traced_queue) (V := traced_verifier clock) config (traced_clock clock)
    (traced_timeout WithTimeout) (traced_notify notify) (traced_waiter waiter) fuel
    (Some (ctx_lift ctx)) (w, []) = ((w', log), e) ->
  exists body final, log = body ++ final /\ passes body
    /\ match e with
       | Some err => ended ctx w' err final
       | None => final = [] /\ claim_count body = fuel
       end.
Proof using QL VL config_valid.
  unfold Run, validate. unfold ctx_lift at 1. cbn [fst]. destruct (ctx w) as [err|] eqn:Hctx.
  { intro_pairs. exists [], []. split_and!; [done|constructor|by constructor]. }
  rewrite config_valid. cbn [negb]. intros (body & final & -> & Hb)%run_loop_trace. by exists body, final.
Qed.
End Session.

(** ** The store's queue and the declaration verifier behind the interfaces *)

Section StoreBacked.
Context `{NetURL} `{NetIP} `{IDNA} {W : Type}.
Variable qconfig : QueueConfig.
Variable make_interval : Z -> Z.
Variable text_leb : bytes -> bytes -> bool.
Variable delay : Z -> Z -> Z.
(** The database and the clocks of a state of the environment. *)
Variable db : W -> Database.
Variable set_db : W -> Database -> W.
Variable now : W -> Z.
Variable locked : W -> bytes -> bool.
Hypothesis db_set : forall w d, db (set_db w d) = d.
(** What happens between a call and its statement: time passes, other sessions
    commit, or the driver fails and the statement is not executed. *)
Variable before : W -> W * option error.

Definition store_queue : WorkQueue W := {|
  queue_Claim ctx w id :=
    execute set_db before Err ctx w (fun w => Claim qconfig text_leb (locked w) (db w) id (now w));
  queue_Renew ctx w l := execute set_db before Err ctx w (fun w => Renew qconfig (db w) l (now w));
  queue_CompleteVerification ctx w '(l, r, d) :=
    execute set_db before Some ctx w (fun w => CompleteVerification qconfig make_interval delay (db w) l r d (now w));
  queue_AbandonVerification ctx w l := execute set_db before Some ctx w (fun w => AbandonVerification (db w) l (now w));
  queue_VerificationPaused := Some (fun ctx w _ => execute set_db before Err ctx w (fun w => (db w, VerificationPaused (db w))));
|}.

Lemma store_queue_laws : @WorkQueueLaws W store_queue.
Proof.
  split. intros ctx w l w' l'. cbn [queue_Renew store_queue]. unfold execute.
  destruct (ctx w); [done|]. destruct (before w) as [w1 [e|]]; [done|].
  destruct (Renew _ _ _ _) as [d r] eqn:Hr. intros [_ ->]%pair_equal_spec.
  apply Renew_authority in Hr as (? & ? & ?). by split_and!.
Qed.

Variable ParseTime : bytes -> option Z.
Variable get : Ctx W -> call W URL (res error (option Response)).

Definition declaration_verifier : WorkVerifier W := {|
  verifier_Verify ctx w source := Verify ParseTime now (Some ctx) source (Some (get ctx)) w;
|}.

Lemma declaration_verifier_laws : @WorkVerifierLaws W declaration_verifier.
Proof. split. intros ctx w o w' r Hr. by apply Verify_accepted in Hr. Qed.

Variable config : Config.
Variable clock : W -> Z.
Variable WithTimeout : Ctx W -> Z -> W -> Ctx W.
Variable notify : W -> notice -> W.
Hypothesis config_valid : validConfig config = true.

(** C12: The worker, the queue's statements and the verifier put together: a
    pass that reports success committed exactly one observation, of the
    claimed origin, with the result the verifier's last answer gives, while
    the lease was still the row's authority and the origin was not blocked;
    and that authority ended with the commit. Whatever other sessions did in
    between, a worker that lost its lease cannot have reported success. *)
Theorem RunOnce_commits ctx w w' log :
  RunOnce (Q := @traced_queue W store_queue) (V := @traced_verifier W declaration_verifier clock) config
    (traced_clock clock) (traced_timeout WithTimeout) (traced_notify notify) (Some (ctx_lift ctx)) (w, [])
  = ((w', log), (true, None)) ->
  exists l cur tries v r w0 w1 w2,
    log = ev_claim (Ok (Some l)) :: tries ++ [ev_complete w0 cur r (RecheckInterval config) w2 None]
    /\ same_authority l cur /\ Forall (attempt_ok config l) tries
    /\ last (verifies tries) = Some v /\ reported (lease_Origin l) v r
    /\ before w0 = (w1, None)
    /\ authority (db w1) cur (now w1) /\ unblocked (db w1) cur
    /\ observations (db w2) = observations (db w1)
         ++ [mkObservation (origin_String (lease_Origin l)) (pg_time (now w1)) (result_Outcome r)
               (storedDeclarationValues r)]
    /\ ~ authority (db w2) cur (now w1).
Proof using db_set config_valid.
  intros Hrun. apply (@RunOnce_trace _ _ _ store_queue_laws declaration_verifier_laws _ _ _ _ config_valid)
    in Hrun as (evs & -> & l & cur & tries & tail & r & -> & Hl & [Hok _ _ Hres] & Hset).
  inversion Hset as [c w0 res w2 -> Hq Htail| | | |]; subst.
  destruct (Hres res eq_refl) as (_ & _ & v & Hlast & Hrep).
  cbn [queue_CompleteVerification store_queue] in Hq. unfold execute in Hq.
  destruct (c w0); [done|]. destruct (before w0) as [w1 [e|]] eqn:Hb; [done|].
  destruct (CompleteVerification _ _ _ _ _ _ _ _) as [d e] eqn:Hc.
  apply pair_equal_spec in Hq as [<- ->]. apply Complete_committed in Hc as (Ha & Hu & Ho & Hn).
  exists l, cur, tries, v, res, w0, w1, (set_db w1 d). rewrite db_set.
  split_and!; try done. destruct Hl as (-> & _). done.
Qed.
End StoreBacked.

Module WorkerWitnesses.
Import Concrete.
Import QueueWitnesses.

(** A state: the database and the time. One due probe, whose origin answers
    404; the clock stands still, except that every statement takes a second. *)
Definition state : Type := Database * Z.
Definition before (w : state) : state * option error := ((fst w, snd w + Second), None).
Definition set_db (w : state) (d : Database) : state := (d, snd w).
Definition get (_ : state -> option error) : call state URL (res error (option Response)) :=
  fun w _ => (w, Ok (Some (mkResponse 404 [] [] [] (Some (Some []))))).
Definition store : WorkQueue state :=
  store_queue QueueWitnesses.config id text_leb (fun _ _ => Minute) fst set_db snd (fun _ _ => false) before.
Definition verifier : WorkVerifier state := declaration_verifier snd (fun _ => None) get.
Definition worker_config : Config := mkConfig worker Second (5 * Second) (5 * Second) Hour.
Definition running (_ : state) : option error := None.
Definition silent (w : state) (_ : notice) : state := w.
Definition start_state : state := (db0, 2 * Second).

Definition pass :=
  RunOnce (Q := @traced_queue state store) (V := @traced_verifier state verifier snd) worker_config
    (traced_clock snd) (traced_timeout (contextTimeoutFactory snd)) (traced_notify silent)
    (Some (ctx_lift running)) (start_state, []).

Lemma pass_result : snd pass = (true, None).
Proof. vm_cast_no_check (eq_refl (true, @None error)). Qed.

Lemma config_ok : validConfig worker_config = true.
Proof. by vm_compute. Qed.

Lemma set_db_get w d : fst (set_db w d) = d.
Proof. done. Qed.

Lemma store_laws : @WorkQueueLaws state store.
Proof. apply store_queue_laws. Qed.

Lemma verifier_laws : @WorkVerifierLaws state verifier.
Proof. apply declaration_verifier_laws. Qed.

(** The pass claims the probe and settles it. *)
Lemma RunOnce_correct_witness :
  worked_pass worker_config (Q := store) None (snd (fst pass)) None.
Proof.
  pose proof pass_result as Hr. destruct pass as [[w' log] [worked err]] eqn:Hp. cbn [fst snd] in *.
  apply pair_equal_spec in Hr as [-> ->].
  exact (@RunOnce_correct _ _ _ store_laws verifier_laws worker_config snd (contextTimeoutFactory snd) silent
           config_ok running start_state w' log true None Hp).
Defined.

Lemma RunOnce_commits_witness :
  exists w0 w1 cur r w2, before w0 = (w1, None)
    /\ ev_complete w0 cur r Hour w2 None ∈ snd (fst pass)
    /\ authority (fst w1) cur (snd w1).
Proof.
  pose proof pass_result as Hr. destruct pass as [[w' log] [worked err]] eqn:Hp. cbn [fst snd] in *.
  apply pair_equal_spec in Hr as [-> ->].
  destruct (RunOnce_commits QueueWitnesses.config id text_leb (fun _ _ => Minute) fst set_db snd (fun _ _ => false)
    set_db_get before (fun _ => None) get worker_config snd (contextTimeoutFactory snd) silent config_ok running
    start_state w' log Hp) as (l & cur & tries & v & r & w0 & w1 & w2 & -> & _ & _ & _ & _ & Hb & Ha & _).
  exists w0, w1, cur, r, w2. split; [exact Hb|]. split; [|exact Ha].
  apply elem_of_cons. right. apply elem_of_app. right. by apply list_elem_of_singleton.
Defined.

(** The next claim finds nothing, and the waiter is interrupted. *)
Definition interrupted_wait (_ : state -> option error) : call state Z (option error) :=
  fun w _ => (w, Some (errors_New Canceled)).

Definition session :=
  Run (Q := @traced_queue state store) (V := @traced_verifier state verifier snd) worker_config
    (traced_clock snd) (traced_timeout (contextTimeoutFactory snd)) (traced_notify silent)
    (traced_waiter interrupted_wait) 5 (Some (ctx_lift running)) (start_state, []).

Lemma session_result : snd session = Some (errors_New Canceled).
Proof. vm_cast_no_check (eq_refl (Some (errors_New Canceled))). Qed.

Lemma Run_correct_witness :
  exists body final, snd (fst session) = body ++ final
    /\ passes worker_config (Q := store) body
    /\ ended (Q := store) worker_config interrupted_wait running (fst (fst session)) (errors_New Canceled) final.
Proof.
  pose proof session_result as Hr. destruct session as [[w' log] e] eqn:Hp. cbn [fst snd] in *. subst e.
  exact (@Run_correct _ _ _ store_laws verifier_laws worker_config snd (contextTimeoutFactory snd) silent
           config_ok interrupted_wait 5 running start_state w' log (Some (errors_New Canceled)) Hp).
Defined.
End WorkerWitnesses.
