(* ===== verification/Exclusions.v ===== *)
(** * Excluded hosts ([internal/store/discovery.go])

    The avoid rules of automatic crawling: a pattern names a domain and all its
    subdomains, or, with a final [.*], a family of domains under any public
    suffix. The same policy is written twice in the source, in Go and in the
    SQL of the admission statements; both are modelled, with PostgreSQL's
    [LIKE] and its regular expression, and proved equal. *)

From S2P Require Import Prelude GoText GoUrl GoNetip GoErrors Origin.

#[local] Set Warnings "-clear-no-such-hyp".

(** [AutomaticCrawlConfig]; the jitter is an argument of the retry policy. *)
Record AutomaticCrawlConfig : Type := mkAutomatic {
  automatic_Enabled : bool;
  automatic_MaxPendingProbes : Z;
  automatic_MaxPromotionsPerRun : Z;
  automatic_ExcludedHostSuffixes : bytes;
}.

Definition defaultAutomaticCrawlMaxPendingProbes : Z := 1000.
Definition defaultAutomaticPromotionsPerRun : Z := 100.

Definition maxPendingProbes (config : AutomaticCrawlConfig) : Z :=
  if 0 <? automatic_MaxPendingProbes config then automatic_MaxPendingProbes config
  else defaultAutomaticCrawlMaxPendingProbes.

Definition maxAutomaticPromotionsPerRun (config : AutomaticCrawlConfig) : Z :=
  if 0 <? automatic_MaxPromotionsPerRun config then automatic_MaxPromotionsPerRun config
  else defaultAutomaticPromotionsPerRun.

(** ** The policy in Go *)

Section Policy.
Context `{Unicode}.

Definition valid_suffix (suffix : bytes) : bool :=
  let family := TrimSuffix suffix (bs ".*") in
  bytes_eqb (ToLower suffix) suffix && negb (HasPrefix suffix (bs "."))
  && negb (HasSuffix family (bs ".")) && negb (bytes_eqb family [])
  && negb (ContainsAny family (bs "/:@?#*_%\"))
  && negb (Contains suffix "*" && negb (bytes_eqb suffix (family ++ bs ".*"))).

Definition validExcludedHostSuffixes (value : bytes) : bool :=
  forallb (fun part =>
    let suffix := TrimSpace part in bytes_eqb suffix [] || valid_suffix suffix) (Split value ",").

(** One pattern against a hostname without its root dot. *)
Definition suffix_excludes (hostname suffix : bytes) : bool :=
  let family := TrimSuffix suffix (bs ".*") in
  if negb (bytes_eqb family suffix) then
    HasPrefix hostname (family ++ bs ".") || ContainsText hostname (bs "." ++ family ++ bs ".")
  else bytes_eqb hostname suffix || HasSuffix hostname (bs "." ++ suffix).

Definition excludes (suffixes hostname : bytes) : bool :=
  let hostname := ToLower (TrimSuffix hostname (bs ".")) in
  existsb (fun part =>
    let suffix := TrimSpace part in
    negb (bytes_eqb suffix []) && suffix_excludes hostname suffix) (Split suffixes ",").

(** [automaticExclusionPatterns] *)
Definition automaticExclusionPatterns (suffixes : bytes) : list bytes :=
  List.filter (fun pattern => negb (bytes_eqb pattern [])) (map TrimSpace (Split suffixes ",")).

Definition newDiscoveryStoreWithConfig (config : AutomaticCrawlConfig) : option error :=
  if automatic_MaxPendingProbes config <? 0 then Some (errors_New errInvalidQueueConfig)
  else if automatic_MaxPromotionsPerRun config <? 0 then Some (errors_New errInvalidQueueConfig)
  else if negb (validExcludedHostSuffixes (automatic_ExcludedHostSuffixes config))
  then Some (errors_New errInvalidQueueConfig)
  else None.
End Policy.

(** [automaticExclusions], [automaticExclusionsTransaction]: the stored rules
    in the order of the database, and the configured list. *)
Definition exclusion_list (rules : list bytes) (configured : bytes) : bytes :=
  let configured := TrimSpace configured in
  Join (rules ++ (if bytes_eqb configured [] then [] else [configured])) ",".

(** ** The policy in SQL *)

(** A parsed [LIKE] pattern with the escape character [\ ]. *)
Inductive like_token : Type := like_char (c : ascii) | like_one | like_many.

(** A pattern that ends in the escape character is an error. *)
Fixpoint like_tokens (pattern : bytes) : option (list like_token) :=
  match pattern with
  | [] => Some []
  | c :: rest =>
      if byte_eqb c "\" then
        match rest with
        | [] => None
        | d :: rest' => cons (like_char d) <$> like_tokens rest'
        end
      else cons (if byte_eqb c "%" then like_many else if byte_eqb c "_" then like_one else like_char c)
             <$> like_tokens rest
  end.

Fixpoint tails (s : bytes) : list bytes :=
  s :: match s with [] => [] | _ :: s' => tails s' end.

Fixpoint like_match (tokens : list like_token) (s : bytes) : bool :=
  match tokens with
  | [] => bytes_eqb s []
  | like_char c :: tokens' =>
      match s with [] => false | d :: s' => byte_eqb c d && like_match tokens' s' end
  | like_one :: tokens' =>
      match utf8_size s with Some n => like_match tokens' (drop n s) | None => false end
  | like_many :: tokens' => existsb (like_match tokens') (tails s)
  end.

Definition sql_like (s pattern : bytes) : bool :=
  match like_tokens pattern with Some tokens => like_match tokens s | None => false end.

(** [replace(s, c, \c)] *)
Definition sql_escape (c : ascii) (s : bytes) : bytes :=
  concat (map (fun d => if byte_eqb d c then ["\"%char; c] else [d]) s).

(** The subquery [escaped]. *)
Definition like_pattern (pattern : bytes) : bytes :=
  sql_escape "_" (sql_escape "%" (sql_escape "\"
    (if HasSuffix pattern (bs ".*") then take (length pattern - 2) pattern else pattern))).

Fixpoint span (f : ascii -> bool) (s : bytes) : bytes :=
  match s with c :: s' => if f c then c :: span f s' else [] | [] => [] end.

(** The alternatives of [(\[[^]]+\]|[^:]+)] at the start of a text: the length
    of what each matches. *)
Definition bracketed (s : bytes) : option nat :=
  match s with
  | c :: s' =>
      let inner := span (fun d => negb (byte_eqb d "]")) s' in
      if byte_eqb c "[" && negb (bytes_eqb inner []) && (length inner <? length s')%nat
      then Some (length inner + 2)%nat else None
  | [] => None
  end.
Definition unbracketed (s : bytes) : option nat :=
  let n := length (span (fun d => negb (byte_eqb d ":")) s) in if (0 <? n)%nat then Some n else None.

(** [substring(origin from '^https?://(...)')]: the longest alternative. *)
Definition sql_host (origin : bytes) : option bytes :=
  let rest :=
    if HasPrefix origin (bs "http://") then Some (drop 7 origin)
    else if HasPrefix origin (bs "https://") then Some (drop 8 origin) else None in
  match rest with
  | None => None
  | Some rest =>
      match bracketed rest, unbracketed rest with
      | None, None => None
      | a, b => Some (take (Nat.max (default 0%nat a) (default 0%nat b)) rest)
      end
  end.

Definition is_bracket (c : ascii) : bool := byte_eqb c "[" || byte_eqb c "]".

Section Sql.
(** The database's [lower]. *)
Variable sql_lower : bytes -> bytes.

(** The subquery [parsed]. *)
Definition sql_hostname (origin : bytes) : option bytes :=
  (fun host => sql_lower (Trim is_bracket host)) <$> sql_host origin.

Definition sql_pattern_excludes (hostname pattern : bytes) : bool :=
  let escaped := like_pattern pattern in
  HasSuffix pattern (bs ".*")
    && (sql_like hostname (escaped ++ bs ".%") || sql_like hostname (bs "%." ++ escaped ++ bs ".%"))
  || negb (HasSuffix pattern (bs ".*"))
    && (bytes_eqb hostname pattern || sql_like hostname (bs "%." ++ escaped)).

(** [EXISTS (SELECT 1 FROM unnest(patterns) ...)] *)
Definition sql_excludes (patterns : list bytes) (origin : bytes) : bool :=
  match sql_hostname origin with
  | None => false
  | Some hostname => existsb (sql_pattern_excludes hostname) patterns
  end.
End Sql.

(** ** Facts *)

(** *** Patterns as labels *)

Definition labels (name : bytes) : list bytes := Split name ".".

(** A domain covers itself and its subdomains; a family covers the names that
    have its labels somewhere before their last label. *)
Definition covers (pattern hostname : bytes) : Prop :=
  if HasSuffix pattern (bs ".*")
  then exists pre post, post <> [] /\ labels hostname = pre ++ labels (TrimSuffix pattern (bs ".*")) ++ post
  else exists pre, labels hostname = pre ++ labels pattern.

Lemma labels_app s t : labels (s ++ bs "." ++ t) = labels s ++ labels t.
Proof. apply Split_app. Qed.

Lemma Join_labels s : Join (labels s) "." = s.
Proof. apply Join_Split. Qed.

Lemma labels_split hostname a b :
  a <> [] -> b <> [] -> labels hostname = a ++ b -> hostname = Join a "." ++ bs "." ++ Join b ".".
Proof. intros Ha Hb Hl. by rewrite <- (Join_labels hostname), Hl, Join_app. Qed.

Lemma labels_nonempty s : labels s <> [].
Proof. apply Split_nonempty. Qed.

Lemma TrimSuffix_family pattern :
  bytes_eqb (TrimSuffix pattern (bs ".*")) pattern = negb (HasSuffix pattern (bs ".*")).
Proof.
  destruct (HasSuffix pattern (bs ".*")) eqn:Hs.
  - apply HasSuffix_spec in Hs as [t ->]. rewrite TrimSuffix_app.
    destruct (bytes_eqb_spec t (t ++ bs ".*")) as [Heq|]; [|done].
    apply (f_equal length) in Heq. rewrite length_app in Heq. cbn in Heq. lia.
  - rewrite TrimSuffix_no by done. by destruct (bytes_eqb_spec pattern pattern).
Qed.

(** The texts a covered hostname has. *)
Lemma covers_text pattern hostname : covers pattern hostname <->
  if HasSuffix pattern (bs ".*") then
    let family := TrimSuffix pattern (bs ".*") in
    (exists t, hostname = (family ++ bs ".") ++ t)
    \/ (exists a b, hostname = a ++ (bs "." ++ family ++ bs ".") ++ b)
  else hostname = pattern \/ exists t, hostname = t ++ bs "." ++ pattern.
Proof.
  unfold covers. destruct (HasSuffix pattern (bs ".*")); cbv zeta; [set (family := TrimSuffix _ _)|]; split.
  - intros (pre & post & Hpost & Hl). destruct pre as [|x pre].
    + left. exists (Join post "."). rewrite <- app_assoc. cbn [app] in Hl.
      apply labels_split in Hl; [|apply labels_nonempty|done]. by rewrite Join_labels in Hl.
    + right. exists (Join (x :: pre) "."), (Join post "."). rewrite app_assoc in Hl.
      apply labels_split in Hl; [|by destruct pre|done].
      rewrite Join_app, Join_labels in Hl by (done || apply labels_nonempty). rewrite Hl. by rewrite <- !app_assoc.
  - intros [(t & ->)|(a & b & ->)].
    + exists [], (labels t). split; [apply labels_nonempty|]. rewrite <- app_assoc. apply labels_app.
    + exists (labels a), (labels b). split; [apply labels_nonempty|].
      rewrite <- !app_assoc, labels_app. f_equal. apply labels_app.
  - intros (pre & Hl). destruct pre as [|x pre]; [left; by eapply Split_inj|right].
    exists (Join (x :: pre) "."). apply labels_split in Hl; [|done|apply labels_nonempty]. by rewrite Join_labels in Hl.
  - intros [->|(t & ->)]; [by exists []|]. exists (labels t). apply labels_app.
Qed.

Lemma suffix_excludes_spec hostname pattern : suffix_excludes hostname pattern = true <-> covers pattern hostname.
Proof.
  rewrite covers_text. unfold suffix_excludes. rewrite TrimSuffix_family, negb_involutive.
  destruct (HasSuffix pattern (bs ".*")); cbv zeta; rewrite orb_true_iff.
  - by rewrite HasPrefix_spec, ContainsText_spec.
  - rewrite HasSuffix_spec. destruct (bytes_eqb_spec hostname pattern); naive_solver.
Qed.

(** *** [LIKE] on escaped text *)

Lemma like_tokens_escaped c rest : like_tokens ("\"%char :: c :: rest) = cons (like_char c) <$> like_tokens rest.
Proof. reflexivity. Qed.

Lemma like_tokens_wild rest :
  like_tokens (bs "%." ++ rest) = (fun tokens => like_many :: map like_char (bs ".") ++ tokens) <$> like_tokens rest.
Proof. cbn [bs app like_tokens]. by destruct (like_tokens rest). Qed.

(** The three replacements escape each byte on its own. *)
Definition escape_byte (c : ascii) : bytes :=
  if byte_eqb c "\" || byte_eqb c "%" || byte_eqb c "_" then ["\"%char; c] else [c].

Lemma sql_escape_app c s t : sql_escape c (s ++ t) = sql_escape c s ++ sql_escape c t.
Proof. unfold sql_escape. by rewrite map_app, concat_app. Qed.

Lemma sql_escape_all s : sql_escape "_" (sql_escape "%" (sql_escape "\" s)) = concat (map escape_byte s).
Proof.
  induction s as [|c s IH]; [done|]. change (c :: s) with ([c] ++ s).
  rewrite !sql_escape_app, map_app, concat_app, IH. f_equal. cbn [map concat app].
  unfold escape_byte, sql_escape. cbn [map concat app].
  destruct (byte_eqb_spec c "\") as [->|]; [done|]. cbn [map concat app orb].
  destruct (byte_eqb_spec c "%") as [->|]; [done|]. cbn [map concat app orb].
  by destruct (byte_eqb_spec c "_") as [->|].
Qed.

Lemma like_tokens_literal s rest tokens :
  like_tokens rest = Some tokens ->
  like_tokens (concat (map escape_byte s) ++ rest) = Some (map like_char s ++ tokens).
Proof.
  intros Hr. induction s as [|c s IH]; [done|]. cbn [map concat]. rewrite <- app_assoc. unfold escape_byte at 1.
  destruct (_ || _) eqn:He; cbn [app].
  - by rewrite like_tokens_escaped, IH.
  - apply orb_false_iff in He as [[Hb Hp]%orb_false_iff Hu]. cbn [like_tokens]. by rewrite Hb, Hp, Hu, IH.
Qed.

Lemma like_match_literal s tokens t :
  like_match (map like_char s ++ tokens) t = true <-> exists u, t = s ++ u /\ like_match tokens u = true.
Proof.
  revert t. induction s as [|c s IH]; intros t; cbn [map app like_match]; [naive_solver|].
  destruct t as [|d t]; [naive_solver|]. rewrite andb_true_iff, IH.
  destruct (byte_eqb_spec c d) as [->|]; naive_solver.
Qed.

Lemma tails_spec s t : t ∈ tails s <-> exists u, s = u ++ t.
Proof.
  induction s as [|c s IH]; cbn [tails].
  - rewrite list_elem_of_singleton. split; [intros ->; by exists []|]. intros ([] & Hu); by naive_solver.
  - rewrite elem_of_cons, IH. split.
    + intros [->|(u & ->)]; [by exists []|by exists (c :: u)].
    + intros ([|d u] & Hu); [by left|]. injection Hu as -> ->. right. eauto.
Qed.

Lemma like_match_many tokens t :
  like_match (like_many :: tokens) t = true <-> exists a b, t = a ++ b /\ like_match tokens b = true.
Proof.
  cbn [like_match]. rewrite existsb_exists. setoid_rewrite <- list_elem_of_In. setoid_rewrite tails_spec. naive_solver.
Qed.

Lemma like_match_end t : like_match [] t = true <-> t = [].
Proof. cbn [like_match]. by destruct (bytes_eqb_spec t []). Qed.

(** What the four patterns match. *)
Lemma like_prefix hostname s : sql_like hostname (concat (map escape_byte s) ++ bs ".%") = true <->
  exists t, hostname = (s ++ bs ".") ++ t.
Proof.
  unfold sql_like. rewrite (like_tokens_literal s (bs ".%") (map like_char (bs ".") ++ [like_many])) by reflexivity.
  rewrite app_assoc, <- map_app, like_match_literal. setoid_rewrite like_match_many. setoid_rewrite like_match_end.
  split; [intros (u & -> & _); eauto|]. intros (t & ->). exists t. split; [done|]. exists t, []. by rewrite app_nil_r.
Qed.

Lemma like_infix hostname s : sql_like hostname (bs "%." ++ concat (map escape_byte s) ++ bs ".%") = true <->
  exists a b, hostname = a ++ (bs "." ++ s ++ bs ".") ++ b.
Proof.
  unfold sql_like. rewrite like_tokens_wild.
  rewrite (like_tokens_literal s (bs ".%") (map like_char (bs ".") ++ [like_many])) by reflexivity.
  cbn [fmap option_fmap option_map].
  rewrite !app_assoc, <- !map_app, like_match_many. setoid_rewrite like_match_literal.
  setoid_rewrite like_match_many. setoid_rewrite like_match_end. split.
  - intros (a & b & -> & u & -> & _). exists a, u. by rewrite <- !app_assoc.
  - intros (a & b & ->). exists a. eexists. split; [done|]. exists b. split; [by rewrite <- !app_assoc|].
    exists b, []. by rewrite app_nil_r.
Qed.

Lemma like_suffix hostname s : sql_like hostname (bs "%." ++ concat (map escape_byte s)) = true <->
  exists t, hostname = t ++ bs "." ++ s.
Proof.
  unfold sql_like. rewrite like_tokens_wild, <- (app_nil_r (concat _)).
  rewrite (like_tokens_literal s [] []) by reflexivity. cbn [fmap option_fmap option_map]. rewrite like_match_many.
  rewrite app_assoc, <- map_app. setoid_rewrite like_match_literal. setoid_rewrite like_match_end. split.
  - intros (a & b & -> & u & -> & ->). exists a. by rewrite app_nil_r.
  - intros (t & ->). exists t. eexists. split; [done|]. exists []. by rewrite app_nil_r.
Qed.

Lemma sql_pattern_excludes_spec hostname pattern :
  sql_pattern_excludes hostname pattern = true <-> covers pattern hostname.
Proof.
  rewrite covers_text. unfold sql_pattern_excludes, like_pattern. rewrite sql_escape_all.
  destruct (HasSuffix pattern (bs ".*")) eqn:Hs; cbn [negb andb orb]; rewrite ?orb_false_r, orb_true_iff.
  - cbv zeta. rewrite like_prefix, like_infix. unfold TrimSuffix. by rewrite Hs.
  - rewrite like_suffix. by destruct (bytes_eqb_spec hostname pattern); naive_solver.
Qed.

(** *** The hostname of a serialized origin *)

Lemma span_all f s t : forallb f s = true -> match t with c :: _ => f c = false | [] => True end -> span f (s ++ t) = s.
Proof.
  intros Hs Ht. induction s as [|c s IH]; cbn [app span].
  - destruct t as [|c t]; [done|]. cbn [span]. by rewrite Ht.
  - apply andb_true_iff in Hs as [-> Hs]. by rewrite IH.
Qed.

Lemma span_stop f s c t : f c = false -> c ∈ s -> (length (span f (s ++ t)) <= length s)%nat.
Proof.
  intros Hc. induction s as [|d s IH]; [by intros ?%not_elem_of_nil|]. rewrite elem_of_cons. cbn [app span length].
  intros [<-|Hin]; [rewrite Hc; cbn [length]; lia|]. case_head; cbn [length]; [|lia]. apply IH in Hin. lia.
Qed.

Lemma absent_byte d (s : bytes) : d ∉ s -> forall c, c ∈ s -> byte_eqb c d = false.
Proof. intros Hd c Hc. by destruct (byte_eqb_spec c d) as [->|]. Qed.

Lemma absent_brackets (s : bytes) : "["%char ∉ s -> "]"%char ∉ s -> forall c, c ∈ s -> is_bracket c = false.
Proof. intros Ho Hc c Hin. unfold is_bracket. by rewrite !(absent_byte _ s). Qed.

Lemma Trim_none f s : (forall c, c ∈ s -> f c = false) -> Trim f s = s.
Proof.
  intros Hs. assert (Hl : forall t, (forall c, c ∈ t -> f c = false) -> TrimLeftFunc f t = t).
  { intros [|c t] Ht; [done|]. cbn [TrimLeftFunc]. rewrite (Ht c); [done|by left]. }
  unfold Trim. rewrite (Hl s) by done. rewrite Hl; [by rewrite rev_involutive|].
  intros c Hc. apply Hs. apply list_elem_of_In, in_rev. by apply list_elem_of_In.
Qed.

Lemma Trim_brackets h : h <> [] -> (forall c, c ∈ h -> is_bracket c = false) ->
  Trim is_bracket (bs "[" ++ h ++ bs "]") = h.
Proof.
  intros Hne Hh. unfold Trim. cbn [bs app TrimLeftFunc is_bracket byte_eqb].
  change (is_bracket "["%char) with true. cbv iota.
  destruct h as [|c h]; [done|]. cbn [app TrimLeftFunc]. rewrite (Hh c) by (by left).
  change (c :: h ++ ["]"%char]) with ((c :: h) ++ ["]"%char]). rewrite rev_app_distr. cbn [rev app TrimLeftFunc].
  change (is_bracket "]"%char) with true. cbv iota. change (rev h ++ [c]) with (rev (c :: h)).
  pose proof (Trim_none is_bracket (c :: h) Hh) as Ht. unfold Trim in Ht.
  cbn [TrimLeftFunc] in Ht. by rewrite (Hh c) in Ht by (by left).
Qed.

Section Equivalence.
Context `{NetURL} `{NetIP} `{IDNA} `{!NetIPLaws} `{Unicode} `{!UnicodeLaws}.
Variable sql_lower : bytes -> bytes.
Hypothesis sql_lower_ascii : forall s, forallb is_ascii s = true -> sql_lower s = map to_lower s.
(** The text of an IPv6 address does not end in a dot. *)
Hypothesis ip6_no_dot : forall v, 0 <= v < 2 ^ 128 -> HasSuffix (addr_String (Addr6 v [])) (bs ".") = false.

Lemma sql_host_scheme scheme rest : scheme = http \/ scheme = https ->
  sql_host (scheme ++ bs "://" ++ rest) =
    match bracketed rest, unbracketed rest with
    | None, None => None
    | a, b => Some (take (Nat.max (default 0%nat a) (default 0%nat b)) rest)
    end.
Proof. by intros [-> | ->]; destruct rest. Qed.

Lemma port_suffix_head p : match port_suffix p with c :: _ => c = ":"%char | [] => True end.
Proof. by destruct p. Qed.

Lemma host_plain s p : s <> [] -> (forall c, c ∈ s -> byte_eqb c ":" = false /\ is_bracket c = false) ->
  bracketed (s ++ port_suffix p) = None /\ unbracketed (s ++ port_suffix p) = Some (length s).
Proof.
  intros Hne Hs. destruct s as [|c s]; [done|]. split.
  - cbn [app bracketed]. destruct (Hs c) as [_ Hb]; [by left|]. unfold is_bracket in Hb.
    apply orb_false_iff in Hb as [-> _]. done.
  - unfold unbracketed. rewrite span_all; [done| |].
    + apply forallb_forall. intros d Hd%list_elem_of_In. by destruct (Hs d Hd) as [-> _].
    + pose proof (port_suffix_head p). destruct (port_suffix p); [done|]. by subst.
Qed.

Lemma host_bracketed h p : h <> [] -> (forall c, c ∈ h -> is_bracket c = false) -> ":"%char ∈ h ->
  let s := (bs "[" ++ h ++ bs "]") ++ port_suffix p in
  bracketed s = Some (length h + 2)%nat /\ (default 0 (unbracketed s) <= length h + 2)%nat.
Proof.
  intros Hne Hh Hc. cbv zeta. split.
  - cbn [bs app bracketed]. rewrite <- app_assoc, span_all; [|..|done].
    + change (byte_eqb "[" "[") with true. cbn [andb]. destruct (bytes_eqb_spec h []); [done|]. cbn [negb andb].
      rewrite length_app. cbn [app length]. destruct (Nat.ltb_spec (length h) (length h + S (length (port_suffix p)))); [done|lia].
    + apply forallb_forall. intros d Hd%list_elem_of_In%Hh. unfold is_bracket in Hd.
      apply orb_false_iff in Hd as [_ ->]. done.
  - unfold unbracketed.
    pose proof (span_stop (fun d => negb (byte_eqb d ":")) (bs "[" ++ h ++ bs "]") ":" (port_suffix p) eq_refl) as Hl.
    case_head; cbn [default]; unfold id; [|lia].
    replace (length (bs "[" ++ h ++ bs "]")) with (length h + 2)%nat in Hl by (rewrite !length_app; cbn; lia).
    rewrite !elem_of_app in Hl. specialize (Hl (or_intror (or_introl Hc))). lia.
Qed.

(** Both languages see the same hostname. *)
Lemma sql_hostname_parsed raw o : Origin.Parse raw = Ok o -> forallb is_ascii (Hostname o) = true ->
  sql_hostname sql_lower (origin_String o) = Some (map to_lower (Hostname o))
  /\ TrimSuffix (Hostname o) (bs ".") = Hostname o.
Proof.
  intros (scheme & s & Hscheme & Hform & _ & ->)%Parse_shape Hascii. unfold sql_hostname.
  rewrite sql_host_scheme by done. generalize (port_text scheme (Port o)) as p. intros p.
  set (h := Hostname o) in *. clearbody h.
  assert (Hplain : h <> [] -> (forall c, c ∈ h -> byte_eqb c ":" = false /\ is_bracket c = false) ->
    (fun host => sql_lower (Trim is_bracket host)) <$>
      match bracketed (h ++ port_suffix p), unbracketed (h ++ port_suffix p) with
      | None, None => None
      | a, b => Some (take (Nat.max (default 0%nat a) (default 0%nat b)) (h ++ port_suffix p))
      end = Some (map to_lower h)).
  { intros Hne Hh. destruct (host_plain h p Hne Hh) as [-> ->]. cbn [default id].
    rewrite Nat.max_0_l, take_app_length. cbn [fmap option_fmap option_map]. f_equal.
    rewrite Trim_none by (intros c Hc; by apply Hh). by apply sql_lower_ascii. }
  destruct Hform as [v Hv|v Hv|name Hname].
  - destruct (String4_bytes v Hv) as [Hne Hb]. split.
    + apply Hplain; [done|]. intros c Hc. split; [eapply absent_byte|eapply absent_brackets]; try exact Hc;
        by eapply forallb_not_elem.
    + apply TrimSuffix_no, not_true_is_false. intros [t Ht]%HasSuffix_spec.
      pose proof (ParseAddr_String4 v Hv) as Hp. rewrite Ht in Hp.
      apply ParseAddr4_text in Hp as (p' & ds & Heq & Hds & Hd & _).
      destruct ds as [|x ds _] using rev_ind; [done|]. rewrite app_assoc in Heq.
      apply app_inj_tail in Heq as [_ <-]. rewrite forallb_app in Hd. by apply andb_true_iff in Hd as [_ ?].
  - destruct (String6_bytes v Hv) as [Hne Hb]. split; [|by apply TrimSuffix_no, ip6_no_dot].
    set (h := addr_String (Addr6 v [])) in *.
    assert (Hh : forall c, c ∈ h -> is_bracket c = false).
    { apply absent_brackets; by eapply forallb_not_elem. }
    pose proof (ParseAddr6_text h v [] (ParseAddr_String6 v Hv)) as Hcolon.
    destruct (host_bracketed h p Hne Hh Hcolon) as [-> Hle]. cbn [default id].
    rewrite Nat.max_l by done.
    replace (length h + 2)%nat with (length (bs "[" ++ h ++ bs "]")) by (rewrite !length_app; cbn; lia).
    rewrite take_app_length. cbn [fmap option_fmap option_map]. f_equal.
    rewrite Trim_brackets by done. by apply sql_lower_ascii.
  - destruct Hname as [Hne Hl _ Hs _]. split; [|by apply TrimSuffix_no]. apply Hplain; [done|].
    intros c Hc. split; [eapply absent_byte|eapply absent_brackets]; try exact Hc; by eapply not_forbidden.
Qed.

(** The two implementations of the avoid rules agree and are exact. For a
    parsed origin with an ASCII hostname, the SQL of the admission statements
    excludes the origin exactly when the Go policy does, for every list of
    patterns; and that is when one of the patterns covers the hostname label by
    label: a domain covers itself and its subdomains, a family [name.*] covers
    the names with its labels before their last label. *)
Theorem exclusions_agree suffixes raw o :
  Origin.Parse raw = Ok o -> forallb is_ascii (Hostname o) = true ->
  sql_excludes sql_lower (automaticExclusionPatterns suffixes) (origin_String o) = excludes suffixes (Hostname o)
  /\ (excludes suffixes (Hostname o) = true <->
      exists pattern, pattern ∈ automaticExclusionPatterns suffixes /\ covers pattern (map to_lower (Hostname o))).
Proof.
  intros Hparse Hascii. destruct (sql_hostname_parsed raw o Hparse Hascii) as [Hsql Htrim].
  assert (Hgo : excludes suffixes (Hostname o) = true <->
    exists pattern, pattern ∈ automaticExclusionPatterns suffixes /\ covers pattern (map to_lower (Hostname o))).
  { unfold excludes. rewrite Htrim, ToLower_ascii, existsb_exists by done. unfold automaticExclusionPatterns.
    setoid_rewrite list_elem_of_In. setoid_rewrite filter_In. setoid_rewrite in_map_iff.
    setoid_rewrite <- suffix_excludes_spec. setoid_rewrite andb_true_iff. naive_solver. }
  split; [|done]. apply eq_true_iff_eq. rewrite Hgo. unfold sql_excludes. rewrite Hsql, existsb_exists.
  setoid_rewrite <- list_elem_of_In. setoid_rewrite sql_pattern_excludes_spec. done.
Qed.
End Equivalence.

Module ExclusionWitnesses.
Import Concrete.
#[local] Instance unicode : Unicode := {| ToLower := map to_lower |}.
#[local] Instance unicode_laws : UnicodeLaws.
Proof. by split. Qed.

Lemma no_dot v : 0 <= v < 2 ^ 128 -> HasSuffix (addr_String (Addr6 v [])) (bs ".") = false.
Proof.
  intros Hv. apply not_true_is_false. intros [t Ht]%HasSuffix_spec. cbn [addr_String netip] in Ht.
  destruct (format_wide_spec v Hv) as (Hne & Hd & _). destruct t as [|c t]; [done|]. injection Ht as _ Ht.
  rewrite Ht, forallb_app in Hd. by apply andb_true_iff in Hd as [_ ?].
Qed.

Definition avoided : Origin := mkOrigin (bs "https://blog.example.org:8443") (bs "blog.example.org") 8443.

Definition rules : bytes := bs "blogspot.*, example.org".

Lemma avoided_parsed : Origin.Parse (bs "https://blog.example.org:8443") = Ok avoided.
Proof. vm_cast_no_check (@eq_refl (res parse_error Origin) (Ok avoided)). Qed.

Lemma exclusions_agree_witness :
  sql_excludes (map to_lower) (automaticExclusionPatterns rules) (origin_String avoided) = excludes rules (Hostname avoided)
  /\ excludes rules (Hostname avoided) = true.
Proof.
  split; [|by vm_compute].
  exact (proj1 (exclusions_agree (map to_lower) (fun s _ => eq_refl) no_dot rules
    (bs "https://blog.example.org:8443") avoided avoided_parsed eq_refl)).
Defined.
End ExclusionWitnesses.
