(* ===== verification/DiscoveryStore.v ===== *)
(** * The discovery store ([internal/store/discovery.go], [crawl_block_policy.go])

    Crawl sources and their schedule, block policy, discovered evidence and the
    probes it leads to. Each operation is its guards and its statements, in
    transactions, on the tables of [Store]. [text_leb] is the database's order
    on text, [now] what the transaction's clock returns and [stmt] what
    [statement_timestamp()] returns. *)

From S2P Require Import Prelude GoText GoUrl GoErrors GoNetip GoJson Retry Origin Netguard.
From S2P Require Import RobotsMatch RobotsPolicy RobotsPolicyFacts RobotsHTTP Declaration Verifier.
From S2P Require Import Discovery Store Queue Exclusions.

(** ** Shared clauses *)

(** The lateral subquery [effective]: the newest authoritative observation. *)
Definition effective (db : Database) (key : bytes) : option ObservationRow :=
  newest (List.filter (fun row => authoritative (obs_outcome row)) (rows_of db key)).

(** [effective.outcome = 'valid'], false when there is none. *)
Definition verified (db : Database) (key : bytes) : bool :=
  match effective db key with Some row => is_valid (obs_outcome row) | None => false end.

(** [first_participated_at IS NOT NULL] of the origin's row. *)
Definition participated (db : Database) (key : bytes) : bool :=
  match origins db !! key with
  | Some row => bool_decide (is_Some (first_participated_at row))
  | None => false
  end.

(** [COALESCE(source_state.column, false)] *)
Definition source_flag (f : SourceState -> bool) (db : Database) (key : bytes) : bool :=
  match source_state db !! key with Some s => f s | None => false end.

(** [activeProbeCapacityWhere] *)
Definition active_probe (now : Z) (row : QueueRow) : bool :=
  bool_decide (mode row = probe)
  && ((available_at row <=? now)
      || match lease_expires_at row with Some expires => now <? expires | None => false end).
Definition active_probes (db : Database) (now : Z) : Z :=
  Z.of_nat (length (List.filter (fun '(_, row) => active_probe now row) (map_to_list (queue db)))).

(** When an origin that is not a seed stays scheduled: it is verified, or was
    promoted and not yet judged, or was rediscovered after the last judgment. *)
Definition keeps_schedule (db : Database) (key : bytes) (automatic : bool) (last : option Z) : bool :=
  verified db key
  || automatic && negb (bool_decide (is_Some (effective db key)))
  || (automatic || participated db key)
     && match effective db key, last with
        | Some row, Some t => obs_at row <? t
        | _, _ => false
        end.

Definition last_discovery (db : Database) (key : bytes) : option Z := last_discovered_at <$> candidates db !! key.

(** Updates of a source row. *)
Definition set_seeded (b : bool) (s : SourceState) : SourceState :=
  mkSource b (automatically_discovered s) (operator_blocked s) (crawl_blocked s) (last_attempted_at s)
    (source_failures s) (source_failure_category s) (source_next_attempt_at s) (source_generation s)
    (source_owner s) (source_claimed_at s) (source_expires_at s).
Definition set_automatic (s : SourceState) : SourceState :=
  mkSource (seeded s) true (operator_blocked s) (crawl_blocked s) (last_attempted_at s)
    (source_failures s) (source_failure_category s) (source_next_attempt_at s) (source_generation s)
    (source_owner s) (source_claimed_at s) (source_expires_at s).
Definition set_blocked (operator effective : bool) (s : SourceState) : SourceState :=
  mkSource (seeded s) (automatically_discovered s) operator effective (last_attempted_at s)
    (source_failures s) (source_failure_category s) (source_next_attempt_at s) (source_generation s)
    (source_owner s) (source_claimed_at s) (source_expires_at s).

(** [INSERT ... ON CONFLICT DO UPDATE] of a source row. *)
Definition upsert_source (db : Database) (key : bytes) (f : SourceState -> SourceState) : Database :=
  set_source_state db (<[key := f (default new_source (source_state db !! key))]> (source_state db)).

Section DiscoveryStore.
Context `{NetURL} `{NetIP} `{IDNA} `{Unicode}.
Variable text_leb : bytes -> bytes -> bool.
Variable config : AutomaticCrawlConfig.

(** [ORDER BY origin] *)
Definition by_origin {A} (a b : bytes * A) : Prop := text_leb (fst a) (fst b) = true.
#[export] Instance by_origin_dec {A} : RelDecision (@by_origin A).
Proof. intros a b. unfold by_origin. apply _. Defined.
Definition order_by_origin {A} (rows : list (bytes * A)) : list (bytes * A) := merge_sort by_origin rows.
Definition text_sorted (keys : list bytes) : list bytes := fst <$> order_by_origin ((fun k => (k, tt)) <$> keys).

(** [automaticExclusions] and [automaticExclusionsTransaction] *)
Definition exclusions (db : Database) : bytes :=
  exclusion_list (text_sorted (elements (avoid_rules (crawl db)))) (automatic_ExcludedHostSuffixes config).

(** ** Block policy *)

Definition setExactCrawlBlockTransaction (db : Database) (source : Origin) (blocked : bool) : Database :=
  let key := origin_String source in
  let db := upsert_source db key (set_blocked blocked blocked) in
  let effectiveBlocked :=
    blocked || (source_flag automatically_discovered db key && negb (source_flag seeded db key)
                && excludes (exclusions db) (Hostname source)) in
  upsert_source db key (set_blocked blocked effectiveBlocked).

Definition SetCrawlBlocked (db : Database) (source : Origin) (blocked : bool) : Database * option error :=
  if bytes_eqb (origin_String source) [] then (db, Some (errors_New store_errInvalidOrigin))
  else (setExactCrawlBlockTransaction db source blocked, None).

(** What the loop of [recomputeAutomaticCrawlBlocksTransaction] writes for one
    row, if anything. *)
Definition recomputed_block (suffixes key : bytes) (s : SourceState) : option bool :=
  match Origin.Parse key with
  | Err _ => if negb (crawl_blocked s) then Some true else None
  | Ok source =>
      let effectiveBlocked := operator_blocked s || excludes suffixes (Hostname source) in
      if Bool.eqb effectiveBlocked (crawl_blocked s) then None else Some effectiveBlocked
  end.
Definition recompute_step (suffixes : bytes) (acc : Database * Z) (row : bytes * SourceState) : Database * Z :=
  let '(db, changed) := acc in
  let '(key, s) := row in
  match recomputed_block suffixes key s with
  | None => acc
  | Some b => (set_source_state db (<[key := set_blocked (operator_blocked s) b s]> (source_state db)), changed + 1)
  end.
Definition recomputeAutomaticCrawlBlocksTransaction (db : Database) : Database * Z :=
  fold_left (recompute_step (exclusions db))
    (order_by_origin (List.filter (fun '(_, s) => automatically_discovered s && negb (seeded s))
       (map_to_list (source_state db)))) (db, 0).

Definition ReconcileAutomaticCrawlPolicy (db : Database) : Database * Z :=
  if negb (automatic_Enabled config) then (db, 0) else recomputeAutomaticCrawlBlocksTransaction db.

(** ** Seeds *)

Definition AddCrawlSeed (db : Database) (source : Origin) : Database * option error :=
  let key := origin_String source in
  if bytes_eqb key [] then (db, Some (errors_New store_errInvalidOrigin))
  else (upsert_source (set_source_schedule db ({[ key ]} ∪ source_schedule db)) key (set_seeded true), None).

Definition RemoveCrawlSeed (db : Database) (source : Origin) : Database * option error :=
  let key := origin_String source in
  if bytes_eqb key [] then (db, Some (errors_New store_errInvalidOrigin))
  else
    match source_state db !! key with
    | None => (db, None)
    | Some s =>
        let db' := set_source_state db (<[key := set_seeded false s]> (source_state db)) in
        (if keeps_schedule db key (automatically_discovered s) (last_discovery db key) then db'
         else set_source_schedule db' (source_schedule db ∖ {[ key ]}), None)
    end.

Definition seeded_keys (db : Database) : list bytes :=
  fst <$> List.filter (fun '(_, s) => seeded s) (map_to_list (source_state db)).

(** Parsing a column of stored origins. *)
Fixpoint parse_all (keys : list bytes) : res error (list Origin) :=
  match keys with
  | [] => Ok []
  | key :: rest =>
      match Origin.Parse key with
      | Err _ => Err (errors_New (foreign 2))
      | Ok o => let? os := parse_all rest in Ok (o :: os)
      end
  end.

Definition CrawlSeeds (db : Database) : res error (list Origin) := parse_all (text_sorted (seeded_keys db)).

Definition EnsureSeededSourcesScheduled (db : Database) : Database * Z :=
  (set_source_schedule db (list_to_set (seeded_keys db) ∪ source_schedule db),
   Z.of_nat (size (list_to_set (seeded_keys db) ∖ source_schedule db : gset bytes))).

(** [CrawlSource] *)
Record CrawlSource : Type := mkCrawlSource {
  crawl_source_Origin : Origin;
  Seeded : bool;
  AutomaticallyDiscovered : bool;
  Blocked : bool;
  Verified : bool;
  FirstDiscoveredAt : option Z;
  LastDiscoveredAt : option Z;
}.

Definition crawl_source (db : Database) (key : bytes) : res error CrawlSource :=
  match Origin.Parse key with
  | Err _ => Err (errors_New (foreign 2))
  | Ok o =>
      Ok (mkCrawlSource o (source_flag seeded db key) (source_flag automatically_discovered db key)
            (source_flag crawl_blocked db key) (verified db key)
            (first_discovered_at <$> candidates db !! key) (last_discovery db key))
  end.

Fixpoint collect {A B} (f : A -> res error B) (l : list A) : res error (list B) :=
  match l with
  | [] => Ok []
  | x :: rest => let? y := f x in let? ys := collect f rest in Ok (y :: ys)
  end.

Definition source_universe (db : Database) : gset bytes := dom (source_state db) ∪ source_schedule db.

Definition CrawlSources (db : Database) : res error (list CrawlSource) :=
  collect (crawl_source db) (text_sorted (elements (source_universe db))).
(** ** Discovered evidence *)

(** The validation loop of [prepareDiscoveryCandidates] (with the source) and
    [prepareAdmissionCandidates] (without). *)
Fixpoint candidates_valid (source : option Origin) (seen : gset Origin) (l : list Candidate) : bool :=
  match l with
  | [] => true
  | c :: rest =>
      if bytes_eqb (origin_String (candidate_Origin c)) [] || bool_decide (source = Some (candidate_Origin c))
      then false
      else if bool_decide (candidate_Origin c ∈ seen) then false
      else candidates_valid source ({[ candidate_Origin c ]} ∪ seen) rest
  end.

Definition prepareDiscoveryCandidates (source : Origin) (l : list Candidate) : res error (list Candidate) :=
  if bytes_eqb (origin_String source) [] then Err (errors_New store_errInvalidOrigin)
  else if negb (candidates_valid (Some source) ∅ l) then Err (errors_New errInvalidDiscoveryCandidate)
  else Ok (merge_sort candidate_le l).

Definition prepareAdmissionCandidates (l : list Candidate) : res error (list Candidate) :=
  if negb (candidates_valid None ∅ l) then Err (errors_New errInvalidDiscoveryCandidate)
  else Ok (merge_sort candidate_le l).

Definition candidate_key (c : Candidate) : bytes := origin_String (candidate_Origin c).

(** [stored_candidates], [stored_edges]: the earliest and the latest time. *)
Definition merge_candidate (at_ : Z) (stored : option CandidateRow) : CandidateRow :=
  match stored with
  | None => mkCandidateRow at_ at_ 0 None None
  | Some c =>
      mkCandidateRow (Z.min (first_discovered_at c) at_) (Z.max (last_discovered_at c) at_)
        (candidate_failures c) (candidate_failure_category c) (candidate_next_attempt_at c)
  end.
Definition merge_edge (at_ : Z) (stored : option (Z * Z)) : Z * Z :=
  match stored with None => (at_, at_) | Some (first, last) => (Z.min first at_, Z.max last at_) end.

(** The statement of lines 733 to 946, one candidate at a time; [reads] is the
    snapshot its subqueries see. *)
Definition store_candidate (reads : Database) (runID : Z) (source : bytes) (at_ : Z)
    (db : Database) (c : Candidate) : Database :=
  let key := candidate_key c in
  let row := merge_candidate at_ (candidates reads !! key) in
  let reactivated :=
    keeps_schedule reads key (source_flag automatically_discovered reads key) (Some (last_discovered_at row)) in
  let edge := (source, key, candidate_Kind c) in
  let db := set_candidates db (<[key := row]> (candidates db)) in
  let db := if reactivated then set_source_schedule db ({[ key ]} ∪ source_schedule db) else db in
  with_crawl db (fun t =>
    let t := set_edges (<[edge := merge_edge at_ (edges (crawl reads) !! edge)]> (edges t)) t in
    if 0 <? runID
    then set_run_candidates ({[ (runID, key, candidate_Kind c) ]} ∪ run_candidates t) t else t).

(** [locked_run]: the run exists and is not finished. *)
Definition active_run (db : Database) (runID : Z) : bool :=
  match runs (crawl db) !! runID with
  | Some run => negb (bool_decide (is_Some (run_finished_at run)))
  | None => false
  end.
Definition known_source (db : Database) (key : bytes) : bool :=
  bool_decide (is_Some (origins db !! key)) || bool_decide (is_Some (source_state db !! key)).

Definition record_evidence (db : Database) (runID : Z) (source : Origin) (prepared : list Candidate) (now : Z)
    : res error Database :=
  let key := origin_String source in
  if negb (known_source db key) then Err (errors_New errDiscoverySourceUnknown)
  else if negb ((runID =? 0) || active_run db runID) then Err (wrap (errors_New errUnknownCrawlRun))
  else Ok (fold_left (store_candidate db runID key (pg_time now)) prepared db).

(** ** Probes *)

(** [INSERT INTO verification_queue ... ON CONFLICT DO NOTHING] of a list of
    origins, with the number of rows inserted. *)
Fixpoint insert_probes (db : Database) (keys : list bytes) (availableAt : Z) : Database * Z :=
  match keys with
  | [] => (db, 0)
  | key :: rest =>
      let '(db', n) := insert_probes (admit_probe db key availableAt) rest availableAt in
      (db', n + (if bool_decide (is_Some (queue db !! key)) then 0 else 1))
  end.

(** The transaction of [scheduleProbeCandidatesCounted]. *)
Definition admit_probes (db : Database) (eligible : list bytes) (availableAt stmt : Z) : Database * Z :=
  let admissible :=
    List.filter (fun key => negb (source_flag crawl_blocked db key)
                            && negb (bool_decide (is_Some (queue db !! key)))) eligible in
  let capacity := Z.max (maxPendingProbes config - active_probes db stmt) 0 in
  insert_probes db (take (Z.to_nat capacity) (text_sorted admissible)) availableAt.

Definition scheduleProbeCandidatesCounted (db : Database) (l : list Candidate) (availableAt stmt : Z) : Database * Z :=
  let suffixes := exclusions db in
  let eligible := map candidate_key
    (List.filter (fun c => negb (excludes suffixes (Hostname (candidate_Origin c)))) l) in
  match eligible with
  | [] => (db, 0)
  | _ => admit_probes db eligible availableAt stmt
  end.

(** [recordDiscovery]: the evidence is committed before probes are admitted. *)
Definition recordDiscovery (db : Database) (runID : Z) (source : Origin) (l : list Candidate) (now stmt : Z)
    : Database * res error Z :=
  match prepareDiscoveryCandidates source l with
  | Err err => (db, Err err)
  | Ok [] => (db, Ok 0)
  | Ok prepared =>
      match record_evidence db runID source prepared now with
      | Err err => (db, Err err)
      | Ok db => (fst (scheduleProbeCandidatesCounted db prepared now stmt), Ok (Z.of_nat (length prepared)))
      end
  end.

Definition RecordDiscovery (db : Database) (source : Origin) (l : list Candidate) (now stmt : Z)
    : Database * res error Z := recordDiscovery db 0 source l now stmt.

Definition RecordDiscoveryForRun (db : Database) (runID : Z) (source : Origin) (l : list Candidate) (now stmt : Z)
    : Database * res error Z :=
  if runID <=? 0 then (db, Err (errors_New errInvalidCrawlRun)) else recordDiscovery db runID source l now stmt.

(** [EXISTS (SELECT 1 FROM discovery_edges WHERE candidate_origin = ... AND kind = ...)] *)
Definition has_edge (db : Database) (key : bytes) (kind : Kind) : bool :=
  existsb (fun '((_, c, k), _) => bytes_eqb c key && bool_decide (k = kind)) (map_to_list (edges (crawl db))).

(** [effective.observed_at IS NULL OR (effective.outcome <> 'valid' AND
    candidate.last_discovered_at > effective.observed_at)] *)
Definition unjudged (db : Database) (key : bytes) (row : CandidateRow) : bool :=
  match effective db key with
  | None => true
  | Some e => negb (is_valid (obs_outcome e)) && (obs_at e <? last_discovered_at row)
  end.

Definition pending_probe (db : Database) (key : bytes) (row : CandidateRow) : bool :=
  has_edge db key KindLink && negb (source_flag crawl_blocked db key)
  && negb (bool_decide (is_Some (queue db !! key))) && unjudged db key row.

Definition SchedulePendingDiscoveryProbes (db : Database) (now stmt : Z) : Database * res error Z :=
  let keys := fst <$> order_by_origin
    (List.filter (fun '(key, row) => pending_probe db key row) (map_to_list (candidates db))) in
  match parse_all keys with
  | Err err => (db, Err (wrap err))
  | Ok os =>
      let '(db', n) := scheduleProbeCandidatesCounted db (map (fun o => mkCandidate o KindLink) os) now stmt in
      (db', Ok n)
  end.
End DiscoveryStore.

(** * Correctness of the discovery store

    Block policy, seeds, recorded evidence and the capacity of probes. *)


#[local] Set Warnings "-clear-no-such-hyp".

(** ** Orders *)

Lemma order_by_origin_perm {A} text_leb (rows : list (bytes * A)) : order_by_origin text_leb rows ≡ₚ rows.
Proof. apply merge_sort_Permutation. Qed.

Lemma text_sorted_perm text_leb keys : text_sorted text_leb keys ≡ₚ keys.
Proof.
  unfold text_sorted. rewrite order_by_origin_perm, <- list_fmap_compose.
  by rewrite (list_fmap_ext _ id) by done; rewrite list_fmap_id.
Qed.

Lemma filter_keys_NoDup {A} (f : bytes * A -> bool) (m : gmap bytes A) : NoDup (List.filter f (map_to_list m)).*1.
Proof.
  pose proof (NoDup_fst_map_to_list m) as Hn. induction (map_to_list m) as [|[k x] l IH]; [constructor|].
  rewrite fmap_cons, NoDup_cons in Hn. destruct Hn as [Hk Hn]. cbn [List.filter]. case_head; [|by apply IH].
  rewrite fmap_cons, NoDup_cons. split; [|by apply IH]. contradict Hk. revert Hk.
  rewrite !list_elem_of_fmap. intros (y & -> & Hy). exists y. split; [done|].
  rewrite list_elem_of_In, filter_In in Hy. apply list_elem_of_In. tauto.
Qed.

Lemma elem_of_filter_map {A} (f : bytes * A -> bool) (m : gmap bytes A) key x :
  (key, x) ∈ List.filter f (map_to_list m) <-> m !! key = Some x /\ f (key, x) = true.
Proof. by rewrite list_elem_of_In, filter_In, <- list_elem_of_In, elem_of_map_to_list. Qed.

(** ** Block policy *)

Section Blocks.
Context `{NetURL} `{NetIP} `{IDNA} `{Unicode}.
Variable text_leb : bytes -> bytes -> bool.
Variable config : AutomaticCrawlConfig.

(** Automatic sources that are not seeds are subject to the avoid rules. *)
Definition governed (s : SourceState) : bool := automatically_discovered s && negb (seeded s).

(** What the rules say about a stored origin; one that no longer parses is
    blocked. *)
Definition avoided (suffixes key : bytes) : bool :=
  match Origin.Parse key with Ok o => excludes suffixes (Hostname o) | Err _ => true end.

Definition policy_block (suffixes key : bytes) (s : SourceState) : bool :=
  operator_blocked s || governed s && avoided suffixes key.

Definition apply_policy (suffixes key : bytes) (s : SourceState) : SourceState :=
  if governed s then set_blocked (operator_blocked s) (policy_block suffixes key s) s else s.

Lemma set_blocked_id s : set_blocked (operator_blocked s) (crawl_blocked s) s = s.
Proof. by destruct s. Qed.

(** A row whose operator block is effective gets exactly the policy's block. *)
Lemma recomputed_block_spec suffixes key s :
  governed s = true -> (operator_blocked s = true -> crawl_blocked s = true) ->
  match recomputed_block suffixes key s with
  | Some b => set_blocked (operator_blocked s) b s = apply_policy suffixes key s
              /\ apply_policy suffixes key s <> s
  | None => apply_policy suffixes key s = s
  end.
Proof.
  intros Hg Hop. unfold recomputed_block, apply_policy, policy_block, avoided. rewrite Hg. cbn [andb].
  destruct (Origin.Parse key) as [o|].
  - destruct (operator_blocked s || excludes suffixes (Hostname o)) eqn:Hb, (crawl_blocked s) eqn:Hc;
      cbn [Bool.eqb]; try (rewrite <- Hc; apply set_blocked_id); (split; [done|]); intros Heq;
      apply (f_equal crawl_blocked) in Heq; cbn in Heq; congruence.
  - rewrite orb_true_r. destruct (crawl_blocked s) eqn:Hc; cbn [negb].
    + rewrite <- Hc. apply set_blocked_id.
    + split; [done|]. intros Heq. apply (f_equal crawl_blocked) in Heq. cbn in Heq. congruence.
Qed.

Definition operator_effective (db : Database) : Prop :=
  forall key s, source_state db !! key = Some s -> operator_blocked s = true -> crawl_blocked s = true.

(** The tables other than the source rows are untouched. *)
Definition only_sources (db db' : Database) : Prop := db' = set_source_state db (source_state db').

Lemma only_sources_refl db : only_sources db db.
Proof. by destruct db. Qed.

Lemma recompute_fold suffixes rows db0 db changed :
  NoDup rows.*1 ->
  (forall key s, (key, s) ∈ rows -> source_state db !! key = Some s /\ governed s = true
     /\ (operator_blocked s = true -> crawl_blocked s = true)) ->
  only_sources db0 db ->
  let '(db', changed') := fold_left (recompute_step suffixes) rows (db, changed) in
  only_sources db0 db'
  /\ changed <= changed'
  /\ (forall key, source_state db' !! key =
        if bool_decide (key ∈ rows.*1) then apply_policy suffixes key <$> source_state db !! key
        else source_state db !! key)
  /\ (changed' = changed <-> forall key s, (key, s) ∈ rows -> apply_policy suffixes key s = s).
Proof.
  revert db changed. induction rows as [|[key s] rows IH]; intros db changed Hnd Hrows Honly; cbn [fold_left].
  { split_and!; [done|lia| |]; [done|]. split; [by intros _ ? ? ?%not_elem_of_nil|done]. }
  rewrite fmap_cons, NoDup_cons in Hnd. destruct Hnd as [Hkey Hnd].
  destruct (Hrows key s) as (Hs & Hg & Hop); [by left|].
  pose proof (recomputed_block_spec suffixes key s Hg Hop) as Hspec. cbn [recompute_step].
  assert (Hother : forall k t, (k, t) ∈ rows -> k <> key).
  { intros k t Hin ->. apply Hkey. apply list_elem_of_fmap. by exists (key, t). }
  destruct (recomputed_block suffixes key s) as [b|].
  - destruct Hspec as [Hb Hne]. specialize (IH (set_source_state db (<[key := set_blocked (operator_blocked s) b s]> (source_state db))) (changed + 1)).
    destruct (fold_left _ _ _) as [db' changed']. destruct IH as (Ho & Hle & Hst & Hch); [done| | |].
    + intros k t Hin. cbn [source_state set_source_state]. rewrite lookup_insert_ne by (symmetry; by eapply Hother).
      apply Hrows. by right.
    + unfold only_sources in *. rewrite Honly. by destruct db0.
    + split_and!; [done|lia| |].
      * intros k. rewrite Hst. cbn [source_state set_source_state]. destruct (decide (k = key)) as [->|Hk].
        -- rewrite bool_decide_eq_false_2, bool_decide_eq_true_2; [|by left|done].
           rewrite lookup_insert_eq, Hs. cbn [fmap option_fmap option_map]. by rewrite Hb.
        -- rewrite lookup_insert_ne by done. rewrite fmap_cons. cbn [fst].
           rewrite (bool_decide_ext (k ∈ key :: rows.*1) (k ∈ rows.*1)); [done|].
           rewrite elem_of_cons. naive_solver.
      * split; [lia|]. intros Hall. exfalso. apply Hne, Hall. by left.
  - specialize (IH db changed). destruct (fold_left _ _ _) as [db' changed']. destruct IH as (Ho & Hle & Hst & Hch);
      [done|intros k t Hin; apply Hrows; by right|done|].
    split_and!; [done|done| |].
    + intros k. rewrite Hst. rewrite fmap_cons. cbn [fst]. destruct (decide (k = key)) as [->|Hk].
      * rewrite bool_decide_eq_false_2, bool_decide_eq_true_2; [|by left|done]. rewrite Hs.
        cbn [fmap option_fmap option_map]. by rewrite Hspec.
      * rewrite (bool_decide_ext (k ∈ key :: rows.*1) (k ∈ rows.*1)); [done|]. rewrite elem_of_cons. naive_solver.
    + rewrite Hch. setoid_rewrite elem_of_cons. split; [intros Hall k t [[= -> ->]|?]; auto|]. naive_solver.
Qed.

(** Recomputing gives every governed row the policy's block and changes
    nothing else; the count is zero exactly when nothing changed. *)
Lemma recompute_correct db : operator_effective db ->
  let '(db', changed) := recomputeAutomaticCrawlBlocksTransaction text_leb config db in
  let suffixes := exclusions text_leb config db in
  only_sources db db'
  /\ (forall key, source_state db' !! key = apply_policy suffixes key <$> source_state db !! key)
  /\ (changed = 0 <-> db' = db).
Proof.
  intros Hop. unfold recomputeAutomaticCrawlBlocksTransaction. set (suffixes := exclusions _ _ _).
  set (rows := order_by_origin _ _).
  assert (Hin : forall key s, (key, s) ∈ rows <-> source_state db !! key = Some s /\ governed s = true).
  { intros key s. unfold rows. rewrite order_by_origin_perm. apply elem_of_filter_map. }
  assert (Hnd : NoDup rows.*1) by (unfold rows; rewrite order_by_origin_perm; apply filter_keys_NoDup).
  pose proof (recompute_fold suffixes rows db db 0 Hnd) as Hf. destruct (fold_left _ _ _) as [db' changed].
  destruct Hf as (Ho & Hle & Hst & Hch).
  { intros key s [Hs Hg]%Hin. split_and!; [done|done|exact (Hop key s Hs)]. }
  { apply only_sources_refl. }
  assert (Hall : forall key, source_state db' !! key = apply_policy suffixes key <$> source_state db !! key).
  { intros key. rewrite Hst. case_bool_decide as Hk; [done|].
    destruct (source_state db !! key) as [s|] eqn:Hs; [|done]. cbn [fmap option_fmap option_map]. f_equal.
    unfold apply_policy. destruct (governed s) eqn:Hg; [|done]. exfalso. apply Hk, list_elem_of_fmap.
    exists (key, s). split; [done|]. by apply Hin. }
  split_and!; [done|done|]. rewrite Hch. split.
  - intros Hsame. rewrite Ho. enough (source_state db' = source_state db) as -> by (by destruct db).
    apply map_eq. intros key. rewrite Hall. destruct (source_state db !! key) as [s|] eqn:Hs; [|done].
    cbn [fmap option_fmap option_map]. f_equal. destruct (governed s) eqn:Hg; [by apply Hsame, Hin|].
    unfold apply_policy. by rewrite Hg.
  - intros -> key s [Hs _]%Hin. specialize (Hall key). rewrite Hs in Hall. injection Hall. done.
Qed.
End Blocks.

(** ** Probes *)

Definition fresh_probe (availableAt : Z) : QueueRow := mkRow (pg_time availableAt) probe 0 None None 0 None None None.

(** Inserting probes adds fresh rows for the origins not yet queued. *)
Lemma insert_probes_spec keys db availableAt :
  let '(db', n) := insert_probes db keys availableAt in
  db' = set_queue db (queue db')
  /\ (forall key, queue db' !! key =
        if bool_decide (key ∈ keys /\ queue db !! key = None) then Some (fresh_probe availableAt) else queue db !! key)
  /\ Z.of_nat (size (queue db')) = Z.of_nat (size (queue db)) + n
  /\ 0 <= n <= Z.of_nat (length keys).
Proof.
  revert db. induction keys as [|key keys IH]; intros db; cbn [insert_probes].
  { split_and!; [by destruct db| |lia..]. intros key. rewrite bool_decide_eq_false_2; [done|]. by intros [?%not_elem_of_nil _]. }
  specialize (IH (admit_probe db key availableAt)). destruct (insert_probes _ _ _) as [db' n].
  destruct IH as (Hdb & Hq & Hs & Hn). unfold admit_probe in *. cbn [length].
  destruct (queue db !! key) as [row|] eqn:Hrow.
  - rewrite bool_decide_eq_true_2 by eauto. split_and!; [done| |lia..]. intros k. rewrite Hq.
    rewrite (bool_decide_ext (k ∈ key :: keys /\ queue db !! k = None) (k ∈ keys /\ queue db !! k = None)); [done|].
    rewrite elem_of_cons. split; [|naive_solver]. intros [[->|?] ?]; [congruence|done].
  - rewrite bool_decide_eq_false_2 by (intros [? ?]; congruence). cbn [queue set_queue] in *. split_and!.
    + rewrite Hdb. by destruct db.
    + intros k. rewrite Hq. destruct (decide (k = key)) as [->|Hne].
      * rewrite lookup_insert_eq, bool_decide_eq_false_2, bool_decide_eq_true_2; [done|split; [by left|done]|naive_solver].
      * rewrite lookup_insert_ne by done.
        rewrite (bool_decide_ext (k ∈ key :: keys /\ queue db !! k = None) (k ∈ keys /\ queue db !! k = None)); [done|].
        rewrite elem_of_cons. naive_solver.
    + rewrite Hs, map_size_insert_None by done. lia.
    + lia.
    + lia.
Qed.

Lemma active_probes_filter db now :
  active_probes db now = Z.of_nat (size (filter (fun '(_, row) => active_probe now row = true) (queue db))).
Proof.
  unfold active_probes. rewrite <- length_map_to_list. f_equal. apply Permutation_length.
  assert (Heq : List.filter (fun '(_, row) => active_probe now row) (map_to_list (queue db))
    = filter (fun kr : bytes * QueueRow => active_probe now (snd kr) = true) (map_to_list (queue db))).
  { induction (map_to_list (queue db)) as [|[k r] l IH]; [done|]. rewrite filter_cons. cbn [List.filter snd].
    destruct (active_probe now r); [rewrite decide_True by done; by f_equal|by rewrite decide_False]. }
  rewrite Heq. symmetry. apply NoDup_Permutation.
  - apply NoDup_map_to_list.
  - apply NoDup_filter, NoDup_map_to_list.
  - intros [k r]. rewrite elem_of_map_to_list, map_lookup_filter_Some, list_elem_of_filter, elem_of_map_to_list.
    cbn [snd]. tauto.
Qed.

(** Fresh rows occupy at most their number of the capacity. *)
Lemma active_probes_insert db key row now : queue db !! key = None ->
  active_probes (set_queue db (<[key := row]> (queue db))) now <= active_probes db now + 1.
Proof.
  intros Hk. rewrite !active_probes_filter. cbn [queue set_queue]. rewrite map_filter_insert.
  case_decide; [|rewrite delete_id by done; lia].
  rewrite map_size_insert_None; [lia|]. apply map_lookup_filter_None. by left.
Qed.

Lemma active_probes_inserted keys db availableAt now :
  let '(db', n) := insert_probes db keys availableAt in active_probes db' now <= active_probes db now + n.
Proof.
  revert db. induction keys as [|key keys IH]; intros db; cbn [insert_probes]; [lia|].
  specialize (IH (admit_probe db key availableAt)). destruct (insert_probes _ _ _) as [db' n].
  unfold admit_probe in IH. destruct (queue db !! key) eqn:Hk.
  - rewrite bool_decide_eq_true_2 by eauto. lia.
  - rewrite bool_decide_eq_false_2 by (intros [? ?]; congruence).
    pose proof (active_probes_insert db key (fresh_probe availableAt) now Hk) as Ha. unfold fresh_probe in Ha. lia.
Qed.

Section Probes.
Context `{NetURL} `{NetIP} `{IDNA} `{Unicode}.
Variable text_leb : bytes -> bytes -> bool.
Variable config : AutomaticCrawlConfig.

(** The origin is not excluded by the rules and not blocked. *)
Definition probe_allowed (db : Database) (c : Candidate) : Prop :=
  excludes (exclusions text_leb config db) (Hostname (candidate_Origin c)) = false
  /\ source_flag crawl_blocked db (candidate_key c) = false.

(** What admitting probes may do to the queue. *)
Definition probes_admitted (l : list Candidate) (availableAt stmt : Z) (db db' : Database) (n : Z) : Prop :=
  db' = set_queue db (queue db')
  /\ (forall key row, queue db !! key = Some row -> queue db' !! key = Some row)
  /\ (forall key row, queue db !! key = None -> queue db' !! key = Some row ->
       row = fresh_probe availableAt /\ exists c, c ∈ l /\ candidate_key c = key /\ probe_allowed db c)
  /\ Z.of_nat (size (queue db')) = Z.of_nat (size (queue db)) + n
  /\ 0 <= n
  /\ active_probes db' stmt <= Z.max (maxPendingProbes config) (active_probes db stmt).

Lemma probes_admitted_refl l availableAt stmt db : probes_admitted l availableAt stmt db db 0.
Proof. split_and!; [by destruct db|done|naive_solver|lia..]. Qed.

Lemma scheduleProbeCandidatesCounted_spec l availableAt stmt db :
  let '(db', n) := scheduleProbeCandidatesCounted text_leb config db l availableAt stmt in
  probes_admitted l availableAt stmt db db' n.
Proof.
  unfold scheduleProbeCandidatesCounted. cbv zeta. set (keys := map candidate_key _).
  assert (Hkeys : forall key, key ∈ keys -> exists c, c ∈ l /\ candidate_key c = key
    /\ excludes (exclusions text_leb config db) (Hostname (candidate_Origin c)) = false).
  { intros key. unfold keys. rewrite list_elem_of_In, in_map_iff. setoid_rewrite filter_In.
    setoid_rewrite negb_true_iff. setoid_rewrite list_elem_of_In. naive_solver. }
  clearbody keys. destruct keys as [|k0 keys0] eqn:Hk0; [apply probes_admitted_refl|]. rewrite <- Hk0 in *. clear Hk0 k0 keys0.
  unfold admit_probes. cbv zeta. set (admissible := List.filter _ keys). set (capacity := Z.max _ 0).
  pose proof (insert_probes_spec (take (Z.to_nat capacity) (text_sorted text_leb admissible)) db availableAt) as Hspec.
  pose proof (active_probes_inserted (take (Z.to_nat capacity) (text_sorted text_leb admissible)) db availableAt stmt) as Hact.
  destruct (insert_probes _ _ _) as [db' n]. destruct Hspec as (Hdb & Hq & Hs & Hn).
  rewrite length_take in Hn. split_and!; [done| | |done|lia|lia].
  - intros key row Hrow. rewrite Hq, bool_decide_eq_false_2; [done|]. intros [_ ?]. congruence.
  - intros key row Hnone. rewrite Hq. case_bool_decide as Hin; [|congruence]. intros [= <-]. split; [done|].
    destruct Hin as [Hin%elem_of_take _]. destruct Hin as (i & Hi & _). apply list_elem_of_lookup_2 in Hi.
    rewrite text_sorted_perm in Hi. unfold admissible in Hi. rewrite list_elem_of_In, filter_In, <- list_elem_of_In in Hi.
    destruct Hi as [Hi Hb]. destruct (Hkeys key Hi) as (c & Hc & <- & Hex). exists c. split_and!; [done|done|].
    b2p. by split.
Qed.

(** ** Evidence *)

(** A rediscovered origin is scheduled again. *)
Definition reactivates (db : Database) (at_ : Z) (key : bytes) : bool :=
  keeps_schedule db key (source_flag automatically_discovered db key)
    (Some (last_discovered_at (merge_candidate at_ (candidates db !! key)))).

(** The tables that recording evidence does not write. *)
Definition evidence_frame (db db' : Database) : Prop :=
  db' = with_crawl (set_source_schedule (set_candidates db (candidates db')) (source_schedule db'))
          (fun t => set_run_candidates (run_candidates (crawl db')) (set_edges (edges (crawl db')) t)).

Record evidence_recorded (runID : Z) (source : bytes) (at_ : Z) (l : list Candidate) (db db' : Database) : Prop := {
  ev_frame : evidence_frame db db';
  ev_candidates : forall key, candidates db' !! key =
    if bool_decide (key ∈ map candidate_key l) then Some (merge_candidate at_ (candidates db !! key))
    else candidates db !! key;
  ev_edges : forall edge, edges (crawl db') !! edge =
    if bool_decide (edge ∈ map (fun c => (source, candidate_key c, candidate_Kind c)) l)
    then Some (merge_edge at_ (edges (crawl db) !! edge)) else edges (crawl db) !! edge;
  ev_runs : forall x, x ∈ run_candidates (crawl db') <->
    x ∈ run_candidates (crawl db)
    \/ 0 < runID /\ x ∈ map (fun c => (runID, candidate_key c, candidate_Kind c)) l;
  ev_schedule : forall key, key ∈ source_schedule db' <->
    key ∈ source_schedule db \/ key ∈ map candidate_key l /\ reactivates db at_ key = true;
}.

Lemma map_snoc_elem {A B} (f : A -> B) l x y : y ∈ map f (l ++ [x]) <-> y ∈ map f l \/ y = f x.
Proof. rewrite map_app, elem_of_app. cbn [map]. by rewrite list_elem_of_singleton. Qed.

Lemma store_candidates_spec runID source at_ db l :
  evidence_recorded runID source at_ l db (fold_left (store_candidate db runID source at_) l db).
Proof.
  clear text_leb.
  induction l as [|c l IH] using rev_ind.
  { split; cbn [fold_left map].
    - unfold evidence_frame. destruct db as [? ? ? ? ? ? ? ? []]. done.
    - intros key. by rewrite bool_decide_eq_false_2 by apply not_elem_of_nil.
    - intros edge. by rewrite bool_decide_eq_false_2 by apply not_elem_of_nil.
    - intros x. rewrite elem_of_nil. tauto.
    - intros key. rewrite elem_of_nil. tauto. }
  rewrite fold_left_app. cbn [fold_left]. set (db1 := fold_left _ l db) in *. clearbody db1.
  destruct IH as [Hf Hc He Hr Hs]. unfold store_candidate. cbv zeta.
  fold (reactivates db at_ (candidate_key c)). set (react := reactivates db at_ (candidate_key c)).
  split.
  - unfold evidence_frame in *. rewrite Hf. destruct db as [? ? ? ? ? ? ? ? []], react, (0 <? runID); done.
  - intros key. transitivity ((<[candidate_key c := merge_candidate at_ (candidates db !! candidate_key c)]> (candidates db1)) !! key);
      [by destruct react|]. destruct (decide (key = candidate_key c)) as [->|Hne].
    + rewrite lookup_insert_eq, bool_decide_eq_true_2; [done|]. apply map_snoc_elem. by right.
    + rewrite lookup_insert_ne, Hc by done. erewrite bool_decide_ext; [done|]. rewrite map_snoc_elem. tauto.
  - intros edge. set (e := (source, candidate_key c, candidate_Kind c)).
    transitivity ((<[e := merge_edge at_ (edges (crawl db) !! e)]> (edges (crawl db1))) !! edge);
      [by destruct react, (0 <? runID)|]. destruct (decide (edge = e)) as [->|Hne].
    + rewrite lookup_insert_eq, bool_decide_eq_true_2; [done|]. apply map_snoc_elem. by right.
    + rewrite lookup_insert_ne, He by done. erewrite bool_decide_ext; [done|]. rewrite map_snoc_elem. tauto.
  - intros x. rewrite map_snoc_elem. destruct (Z.ltb_spec 0 runID).
    + transitivity (x ∈ {[ (runID, candidate_key c, candidate_Kind c) ]} ∪ run_candidates (crawl db1)); [by destruct react|].
      rewrite elem_of_union, elem_of_singleton, Hr. naive_solver.
    + transitivity (x ∈ run_candidates (crawl db1)); [by destruct react|]. rewrite Hr. naive_solver lia.
  - intros key. rewrite map_snoc_elem. destruct react eqn:Hreact.
    + transitivity (key ∈ {[ candidate_key c ]} ∪ source_schedule db1); [done|].
      rewrite elem_of_union, elem_of_singleton, Hs. unfold react in Hreact. naive_solver.
    + transitivity (key ∈ source_schedule db1); [done|]. rewrite Hs. unfold react in Hreact. naive_solver congruence.
Qed.

Lemma evidence_perm runID source at_ l k db db' : l ≡ₚ k ->
  evidence_recorded runID source at_ l db db' -> evidence_recorded runID source at_ k db db'.
Proof.
  intros Hp [Hf Hc He Hr Hs].
  assert (Hm : forall B (f : Candidate -> B) x, x ∈ map f l <-> x ∈ map f k).
  { intros B f x. change (x ∈ f <$> l <-> x ∈ f <$> k). by rewrite Hp. }
  split; [done| | | |].
  - intros key. rewrite Hc. by erewrite bool_decide_ext by apply Hm.
  - intros edge. rewrite He. by erewrite bool_decide_ext by apply Hm.
  - intros x. rewrite Hr. by rewrite Hm.
  - intros key. rewrite Hs. by rewrite Hm.
Qed.

Lemma candidates_valid_spec source seen l : candidates_valid source seen l = true ->
  NoDup (map candidate_Origin l)
  /\ Forall (fun c => candidate_key c <> [] /\ source <> Some (candidate_Origin c) /\ candidate_Origin c ∉ seen) l.
Proof.
  revert seen. induction l as [|c l IH]; intros seen; cbn [candidates_valid map]; [by repeat constructor|].
  destruct (bytes_eqb_spec (origin_String (candidate_Origin c)) []) as [|Hne]; [done|]. cbn [orb].
  case_bool_decide as Hs; [done|]. case_bool_decide as Hin; [done|]. intros [Hn Hf]%IH. split.
  - constructor; [|done]. rewrite list_elem_of_In, in_map_iff. intros (d & Hd & Hl).
    rewrite Forall_forall in Hf. apply list_elem_of_In in Hl. destruct (Hf d Hl) as (_ & _ & Hns). set_solver.
  - constructor; [done|]. eapply Forall_impl; [exact Hf|]. set_solver.
Qed.

Lemma recordDiscovery_spec db runID source l now stmt :
  match recordDiscovery text_leb config db runID source l now stmt with
  | (db', Err _) => db' = db
  | (db', Ok n) =>
      n = Z.of_nat (length l)
      /\ NoDup (map candidate_Origin l)
      /\ Forall (fun c => candidate_key c <> [] /\ candidate_Origin c <> source) l
      /\ (l = [] -> db' = db)
      /\ (l <> [] ->
          origin_String source <> [] /\ known_source db (origin_String source) = true /\ (runID = 0 \/ active_run db runID = true)
          /\ exists db1 k, evidence_recorded runID (origin_String source) (pg_time now) l db db1
               /\ probes_admitted l now stmt db1 db' k)
  end.
Proof.
  unfold recordDiscovery, prepareDiscoveryCandidates.
  destruct (bytes_eqb_spec (origin_String source) []) as [|Hks]; [done|].
  destruct (candidates_valid (Some source) ∅ l) eqn:Hv; [|done]. cbn [negb].
  apply candidates_valid_spec in Hv as [Hnd Hf].
  assert (Hsrc : Forall (fun c => candidate_key c <> [] /\ candidate_Origin c <> source) l)
    by (eapply Forall_impl; [exact Hf|]; naive_solver).
  pose proof (merge_sort_Permutation candidate_le l) as Hp. set (prepared := merge_sort candidate_le l) in *.
  clearbody prepared. destruct prepared as [|c0 l0] eqn:Hprep.
  { apply Permutation_nil in Hp as ->. by split_and!. }
  rewrite <- Hprep in *. assert (Hne : l <> []) by (intros ->; symmetry in Hp; apply Permutation_nil in Hp; congruence).
  clear Hprep c0 l0. unfold record_evidence. cbv zeta.
  destruct (known_source db (origin_String source)) eqn:Hk; [|done]. cbn [negb].
  destruct ((runID =? 0) || active_run db runID) eqn:Hr; [|done]. cbn [negb].
  pose proof (store_candidates_spec runID (origin_String source) (pg_time now) db prepared) as He.
  set (db1 := fold_left _ prepared db) in *.
  pose proof (scheduleProbeCandidatesCounted_spec prepared now stmt db1) as Hs.
  destruct (scheduleProbeCandidatesCounted _ _ _ _ _ _) as [db' k]. cbn [fst].
  split_and!; [by rewrite Hp|done|done|by intros ->|]. intros _. split_and!; [done|done| |].
  - apply orb_true_iff in Hr as [?%Z.eqb_eq|?]; auto.
  - exists db1, k. split; [by eapply evidence_perm|]. destruct Hs as (? & ? & Hnew & ? & ? & ?). split_and!; try done.
    intros key row Hq Hq'. destruct (Hnew key row Hq Hq') as (? & c & Hc & ?). split; [done|]. exists c.
    by rewrite <- Hp.
Qed.

(** Recording a batch of discovered origins is all or nothing and exact.
    A rejected batch (a duplicate, the source itself, an unknown source or a
    run that is not active) changes nothing. An accepted batch stores, for each
    candidate, its row and its edge with the earliest and latest time of
    discovery, its attribution to the run, and schedules it exactly when it is
    verified, promoted and unjudged, or rediscovered after its last judgment;
    then it admits as probes only unqueued, unblocked and unexcluded candidates
    of the batch, never beyond the capacity, and touches no other row. *)
Theorem recordDiscovery_correct db runID source l now stmt :
  match recordDiscovery text_leb config db runID source l now stmt with
  | (db', Err _) => db' = db
  | (db', Ok n) =>
      n = Z.of_nat (length l)
      /\ NoDup (map candidate_Origin l)
      /\ Forall (fun c => candidate_key c <> [] /\ candidate_Origin c <> source) l
      /\ (l = [] -> db' = db)
      /\ (l <> [] ->
          origin_String source <> [] /\ known_source db (origin_String source) = true /\ (runID = 0 \/ active_run db runID = true)
          /\ exists db1 k, evidence_recorded runID (origin_String source) (pg_time now) l db db1
               /\ probes_admitted l now stmt db1 db' k)
  end.
Proof. apply recordDiscovery_spec. Qed.
End Probes.
