(* ===== verification/Admission.v ===== *)
(** * Automatic admission ([internal/store/discovery.go])

    Candidates found by a crawl become crawl sources of their own: a run
    allocates a bounded batch of candidates, the caller resolves their
    addresses, and the decisions are applied under the run's promotion budget
    and the global capacity for pending probes. *)

From S2P Require Import Prelude GoText GoUrl GoErrors GoNetip GoJson Retry Origin Netguard.
From S2P Require Import RobotsMatch RobotsPolicy RobotsPolicyFacts RobotsHTTP Declaration Verifier.
From S2P Require Import Discovery Store Queue Exclusions DiscoveryStore.

(** [AutomaticCandidateResult] *)
Record AutomaticCandidateResult : Type := mkAutomaticResult {
  automatic_Candidate : Candidate;
  automatic_FailureCategory : Category;
}.

(** ** Promotion telemetry *)

(** The candidates promoted that a run discovered first:
    [count(DISTINCT candidate_origin)] over the batches. *)
Definition promoted_from (db : Database) (run : Z) : Z :=
  Z.of_nat (size (list_to_set (C := gset bytes) (map (fun '((_, key), _) => key)
    (List.filter (fun '(_, b) => (discovered_run_id b =? run) && bool_decide (batch_outcome b = promoted))
      (map_to_list (batches (crawl db))))))).

(** The first run that discovered a candidate by some kinds of evidence. *)
Definition first_run (db : Database) (kinds : Kind -> bool) (key : bytes) : option Z :=
  fold_right (fun '(r, k, kind) acc =>
      if bytes_eqb k key && kinds kind
      then Some (match acc with Some m => Z.min r m | None => r end) else acc)
    None (elements (run_candidates (crawl db))).

Definition is_link (kind : Kind) : bool := bool_decide (kind = KindLink).

(** The link candidates a run discovered before any other run. *)
Definition originally_discovered (db : Database) (run : Z) : Z :=
  Z.of_nat (length (List.filter
    (fun '(r, key, kind) => (r =? run) && is_link kind && bool_decide (first_run db is_link key = Some r))
    (elements (run_candidates (crawl db))))).

Definition set_promotions (admitted deferred : Z) (r : RunRow) : RunRow :=
  mkRun (run_source r) (run_started_at r) (run_finished_at r) (run_status r) (run_stop_reason r) (run_limits r)
    (max_automatic_promotions r) (automatic_promotions r) (run_summary r) admitted deferred.
Definition set_automatic_promotions (n : Z) (r : RunRow) : RunRow :=
  mkRun (run_source r) (run_started_at r) (run_finished_at r) (run_status r) (run_stop_reason r) (run_limits r)
    (max_automatic_promotions r) n (run_summary r) (promotions_admitted r) (promotions_deferred r).

Definition update_run (db : Database) (run : Z) (f : RunRow -> RunRow) : Database :=
  with_crawl db (fun t => set_runs (alter f run (runs t)) (last_run t) t).

Definition refresh_promotions (reads db : Database) (run : Z) : Database :=
  update_run db run
    (set_promotions (promoted_from reads run)
       (Z.max (originally_discovered reads run - promoted_from reads run) 0)).

(** The statement of lines 1919 to 1958. *)
Definition affected_runs (db : Database) (runID : Z) : gset Z :=
  list_to_set (map (fun '(_, b) => discovered_run_id b)
    (List.filter (fun '((run, _), _) => run =? runID) (map_to_list (batches (crawl db))))).
Definition update_promotion_telemetry (db : Database) (runID : Z) : Database :=
  fold_left (refresh_promotions db) (elements (affected_runs db runID)) db.

Section Admission.
Context `{NetURL} `{NetIP} `{IDNA} `{Unicode}.
Variable text_leb : bytes -> bytes -> bool.
Variable sql_lower : bytes -> bytes.
Variable config : AutomaticCrawlConfig.
(** The retry policy with its jitter. *)
Variable delay : Z -> Z -> Z.

(** ** Allocation *)

Definition batch_keys (db : Database) (runID : Z) (f : BatchRow -> bool) : list bytes :=
  map (fun '((_, key), _) => key)
    (List.filter (fun '((run, _), b) => (run =? runID) && f b) (map_to_list (batches (crawl db)))).

Definition batch_count (db : Database) (runID : Z) : Z := Z.of_nat (length (batch_keys db runID (fun _ => true))).
Definition is_pending (b : BatchRow) : bool := bool_decide (batch_outcome b = pending).
Definition pending_keys (db : Database) (runID : Z) : list bytes := batch_keys db runID is_pending.

(** The WHERE clause of [candidate_pool]. *)
Definition allocatable (db : Database) (patterns : list bytes) (runID now : Z) (key : bytes) (row : CandidateRow) : bool :=
  has_edge db key KindLink
  && null_or_le (candidate_next_attempt_at row) now
  && negb (source_flag automatically_discovered db key)
  && negb (source_flag crawl_blocked db key)
  && negb (bool_decide (key ∈ source_schedule db))
  && unjudged db key row
  && negb (bool_decide (is_Some (admissions (crawl db) !! key)))
  && negb (bool_decide (is_Some (batches (crawl db) !! (runID, key))))
  && negb (sql_excludes sql_lower patterns key).

Definition candidate_pool (db : Database) (patterns : list bytes) (runID now limit : Z) : list bytes :=
  take (Z.to_nat limit) (fst <$> order_by_origin text_leb
    (List.filter (fun '(key, row) => allocatable db patterns runID now key row) (map_to_list (candidates db)))).

Definition allocate (reads : Database) (runID : Z) (db : Database) (key : bytes) : Database :=
  with_crawl db (fun t => set_batches
    (<[(runID, key) := mkBatch (default runID (first_run reads (fun _ => true) key)) pending 0 None None]> (batches t)) t).

(** The redirect-only candidates admitted as probes. *)
Definition redirect_probe (db : Database) (patterns : list bytes) (key : bytes) : bool :=
  negb (source_flag crawl_blocked db key) && has_edge db key KindRedirect && negb (has_edge db key KindLink)
  && negb (bool_decide (is_Some (queue db !! key))) && negb (sql_excludes sql_lower patterns key).
Definition admit_redirects (db : Database) (patterns : list bytes) (now stmt : Z) : Database :=
  let remainingProbes := maxPendingProbes config - active_probes db stmt in
  if 0 <? remainingProbes then
    fst (insert_probes db (take (Z.to_nat remainingProbes)
      (fst <$> order_by_origin text_leb
        (List.filter (fun '(key, _) => redirect_probe db patterns key) (map_to_list (candidates db))))) now)
  else db.

Definition PendingAutomaticCandidates (db : Database) (runID now stmt : Z)
    : Database * res error (list Candidate) :=
  if negb (automatic_Enabled config) then (db, Ok [])
  else if runID <=? 0 then (db, Err (errors_New errInvalidCrawlRun))
  else
    match runs (crawl db) !! runID with
    | Some run =>
        if bool_decide (is_Some (run_finished_at run)) then (db, Err (wrap (errors_New errUnknownCrawlRun)))
        else
          let patterns := automaticExclusionPatterns (exclusions text_leb config db) in
          let remainingBatch := max_automatic_promotions run - batch_count db runID in
          let db1 :=
            if 0 <? remainingBatch
            then fold_left (allocate db runID) (candidate_pool db patterns runID (pg_time now) remainingBatch) db
            else db in
          let db2 := admit_redirects db1 patterns now stmt in
          match parse_all (text_sorted text_leb (pending_keys db2 runID)) with
          | Err err => (db, Err (wrap err))
          | Ok os => (db2, Ok (map (fun o => mkCandidate o KindLink) os))
          end
    | None => (db, Err (wrap (errors_New errUnknownCrawlRun)))
    end.

(** ** Decisions *)

Definition set_outcome (db : Database) (runID : Z) (key : bytes) (f : BatchRow -> BatchRow) : Database :=
  with_crawl db (fun t => set_batches (alter f (runID, key) (batches t)) t).
Definition with_outcome (o : AdmissionOutcome) (b : BatchRow) : BatchRow :=
  mkBatch (discovered_run_id b) o (batch_failures b) (batch_failure_category b) (batch_next_attempt_at b).
Definition with_retry (failures : Z) (category : Category) (next : Z) (b : BatchRow) : BatchRow :=
  mkBatch (discovered_run_id b) retry_deferred failures (Some category) (Some next).

Definition set_candidate_retry (failures : Z) (category : option Category) (next : option Z) (c : CandidateRow)
    : CandidateRow :=
  mkCandidateRow (first_discovered_at c) (last_discovered_at c) failures category next.
Definition update_candidate (db : Database) (key : bytes) (f : CandidateRow -> CandidateRow) : Database :=
  set_candidates db (alter f key (candidates db)).

Definition upsertDurableAdmissionOutcome (db : Database) (key : bytes) (o : AdmissionOutcome) (at_ : Z) : Database :=
  with_crawl db (fun t => set_admissions (<[key := (o, pg_time at_)]> (admissions t)) t).

(** [COALESCE(effective.outcome <> 'valid' AND candidate.last_discovered_at <=
    effective.observed_at, false)] *)
Definition stale_evidence (db : Database) (key : bytes) : bool :=
  match effective db key, last_discovery db key with
  | Some e, Some t => negb (is_valid (obs_outcome e)) && (t <=? obs_at e)
  | _, _ => false
  end.

(** The state of the loop. *)
Record admission : Type := mkAdmission { adm_db : Database; promotions : Z; pendingProbes : Z }.

(** The promotion of lines 1870 to 1910. *)
Definition promote (db : Database) (runID : Z) (key : bytes) (now : Z) : Database :=
  let db := set_source_schedule db ({[ key ]} ∪ source_schedule db) in
  let db := upsert_source db key set_automatic in
  let db := set_outcome db runID key (with_outcome promoted) in
  upsertDurableAdmissionOutcome db key promoted now.

(** Lines 1829 to 1910: a candidate that only capacity, the pause or the budget
    can defer. *)
Definition admit_promotable (runID : Z) (paused : bool) (maxPromotions now : Z) (st : admission) (db : Database)
    (key : bytes) : admission :=
  let queued := bool_decide (is_Some (queue db !! key)) in
  let room := pendingProbes st <? maxPendingProbes config in
  if negb queued && negb room
  then mkAdmission (set_outcome db runID key (with_outcome capacity_deferred)) (promotions st) (pendingProbes st)
  else
    let db := if queued then db else admit_probe db key now in
    let probes := if queued then pendingProbes st else pendingProbes st + 1 in
    if paused then mkAdmission (set_outcome db runID key (with_outcome expansion_paused)) (promotions st) probes
    else if maxPromotions <=? promotions st
    then mkAdmission (set_outcome db runID key (with_outcome capacity_deferred)) (promotions st) probes
    else mkAdmission (promote db runID key now) (promotions st + 1) probes.

(** Lines 1719 to 1910: a candidate whose addresses were accepted. *)
Definition admit_resolved (runID : Z) (paused : bool) (suffixes : bytes) (maxPromotions now : Z)
    (st : admission) (key : bytes) (o : Origin) : admission :=
  let db := update_candidate (adm_db st) key (set_candidate_retry 0 None None) in
  let defer outcome := mkAdmission (set_outcome db runID key (with_outcome outcome)) (promotions st) (pendingProbes st) in
  if source_flag crawl_blocked db key || excludes suffixes (Hostname o) then defer policy_deferred
  else if source_flag automatically_discovered db key || bool_decide (key ∈ source_schedule db) || verified db key
  then mkAdmission
         (upsertDurableAdmissionOutcome (set_outcome db runID key (with_outcome existing)) key existing now)
         (promotions st) (pendingProbes st)
  else if stale_evidence db key then defer policy_deferred
  else admit_promotable runID paused maxPromotions now st db key.

(** Lines 1659 to 1911: one candidate of the batch. *)
Definition admit_candidate (runID : Z) (paused : bool) (suffixes : bytes) (decisions : gmap Origin Category)
    (maxPromotions now : Z) (st : admission) (key : bytes) : res error admission :=
  match Origin.Parse key with
  | Err _ => Err (errors_New (foreign 3))
  | Ok o =>
      let reject :=
        mkAdmission
          (upsertDurableAdmissionOutcome (set_outcome (adm_db st) runID key (with_outcome network_rejected))
             key network_rejected now)
          (promotions st) (pendingProbes st) in
      match decisions !! o with
      | None => Ok reject
      | Some category =>
          if Transient category then
            match candidates (adm_db st) !! key with
            | None => Err (errors_New (foreign 4))
            | Some row =>
                let failures := candidate_failures row + 1 in
                let next := pg_time (time_Add now (delay failures 0)) in
                let db := update_candidate (adm_db st) key (set_candidate_retry failures (Some category) (Some next)) in
                Ok (mkAdmission (set_outcome db runID key (with_retry failures category next))
                      (promotions st) (pendingProbes st))
            end
          else if bool_decide (category = CategoryUnsafeAddress) then Ok reject
          else Ok (admit_resolved runID paused suffixes maxPromotions now st key o)
      end
  end.

Fixpoint admit_batch (step : admission -> bytes -> res error admission) (st : admission) (keys : list bytes)
    : res error admission :=
  match keys with
  | [] => Ok st
  | key :: rest => let? st := step st key in admit_batch step st rest
  end.

Definition decision_ok (r : AutomaticCandidateResult) : bool :=
  is_link (candidate_Kind (automatic_Candidate r))
  && (bool_decide (automatic_FailureCategory r = CategoryNone)
      || bool_decide (automatic_FailureCategory r = CategoryUnsafeAddress)
      || Transient (automatic_FailureCategory r)).
Definition decisions_of (results : list AutomaticCandidateResult) : gmap Origin Category :=
  fold_left (fun m r => <[candidate_Origin (automatic_Candidate r) := automatic_FailureCategory r]> m) results ∅.

Definition CompleteAutomaticCandidates (db : Database) (runID : Z) (results : list AutomaticCandidateResult)
    (now stmt : Z) : Database * option error :=
  if negb (automatic_Enabled config) then (db, None)
  else if runID <=? 0 then (db, Some (errors_New errInvalidCrawlRun))
  else
    match prepareAdmissionCandidates (map automatic_Candidate results) with
    | Err err => (db, Some err)
    | Ok _ =>
        if negb (forallb decision_ok results) then (db, Some (errors_New errInvalidDiscoveryCandidate))
        else
          match runs (crawl db) !! runID with
          | Some run =>
              if bool_decide (is_Some (run_finished_at run)) then (db, Some (errors_New errUnknownCrawlRun))
              else
                let step := admit_candidate runID (automatic_expansion_paused (crawl db)) (exclusions text_leb config db)
                              (decisions_of results) (max_automatic_promotions run) now in
                match admit_batch step (mkAdmission db (automatic_promotions run) (active_probes db stmt))
                        (text_sorted text_leb (pending_keys db runID)) with
                | Err err => (db, Some err)
                | Ok st =>
                    (update_promotion_telemetry
                       (update_run (adm_db st) runID (set_automatic_promotions (promotions st))) runID, None)
                end
          | None => (db, Some (errors_New errUnknownCrawlRun))
          end
    end.

Definition AdmitAutomaticCandidates (db : Database) (runID : Z) (l : list Candidate) (now stmt : Z)
    : Database * option error :=
  CompleteAutomaticCandidates db runID (map (fun c => mkAutomaticResult c CategoryNone) l) now stmt.
End Admission.

(** * Correctness of automatic admission

    Every candidate of a run's batch gets one justified outcome, promotions
    stay within the run's budget and probes within the capacity. *)


#[local] Set Warnings "-clear-no-such-hyp".

(** ** Changes that concern one origin *)

(** What is stored about an origin in the tables that admission writes. *)
Definition stored_at (db : Database) (key : bytes) :=
  (source_state db !! key, bool_decide (key ∈ source_schedule db), candidates db !! key, queue db !! key,
   admissions (crawl db) !! key).

(** The tables admission reads but does not write. *)
Definition fixed_tables (db : Database) :=
  (origins db, observations db, reprobe_state db, verification_paused db, edges (crawl db), runs (crawl db),
   last_run (crawl db), page_attempts_of (crawl db), run_candidates (crawl db), avoid_rules (crawl db),
   (discovery_paused (crawl db), automatic_expansion_paused (crawl db), control_updated_at (crawl db),
    heartbeats (crawl db), audits (crawl db))).

(** Only rows of the origins in [keys] change. *)
Record local_to (keys : list bytes) (db db' : Database) : Prop := {
  local_fixed : fixed_tables db' = fixed_tables db;
  local_rows : forall k, k ∉ keys -> stored_at db' k = stored_at db k;
  local_batches : forall r k, k ∉ keys -> batches (crawl db') !! (r, k) = batches (crawl db) !! (r, k);
}.

#[export] Instance local_to_preorder keys : PreOrder (local_to keys).
Proof.
  split; [by intros db; split|]. intros a b c [Hf Hr Hb] [Hf' Hr' Hb']. split; [congruence| |].
  - intros k Hk. rewrite Hr' by done. by apply Hr.
  - intros r k Hk. rewrite Hb' by done. by apply Hb.
Qed.

Lemma local_to_weaken keys keys' db db' : (forall k, k ∈ keys -> k ∈ keys') -> local_to keys db db' -> local_to keys' db db'.
Proof. intros Hsub [Hf Hr Hb]. split; [done| |]; intros; [apply Hr|apply Hb]; auto. Qed.

Lemma not_single (k key : bytes) : k ∉ [key] -> k <> key.
Proof. by rewrite list_elem_of_singleton. Qed.

Lemma local_outcome db runID key f : local_to [key] db (set_outcome db runID key f).
Proof.
  split; [done|done|]. intros r k Hk%not_single. cbn. by rewrite lookup_alter_ne by congruence.
Qed.

Lemma local_candidate db key f : local_to [key] db (update_candidate db key f).
Proof.
  split; [done| |done]. intros k Hk%not_single. unfold stored_at. cbn. by rewrite lookup_alter_ne by congruence.
Qed.

Lemma local_durable db key o at_ : local_to [key] db (upsertDurableAdmissionOutcome db key o at_).
Proof.
  split; [done| |done]. intros k Hk%not_single. unfold stored_at. cbn. by rewrite lookup_insert_ne by congruence.
Qed.

Lemma local_probe db key at_ : local_to [key] db (admit_probe db key at_).
Proof.
  unfold admit_probe. destruct (queue db !! key); [done|]. split; [done| |done].
  intros k Hk%not_single. unfold stored_at. cbn. by rewrite lookup_insert_ne by congruence.
Qed.

Lemma local_promote db runID key now : local_to [key] db (promote db runID key now).
Proof.
  unfold promote. etransitivity; [|apply local_durable]. etransitivity; [|apply local_outcome].
  split; [done| |done]. intros k Hk%not_single. unfold stored_at, upsert_source. cbn.
  rewrite lookup_insert_ne by congruence. repeat f_equal. apply bool_decide_ext. set_solver.
Qed.

Create HintDb admission.
#[export] Hint Resolve local_outcome local_candidate local_durable local_probe local_promote : admission.

(** ** Facts an origin's outcome depends on *)

Lemma stored_flag f db db' key : stored_at db' key = stored_at db key -> source_flag f db' key = source_flag f db key.
Proof. unfold stored_at, source_flag. intros [= -> _ _ _ _]. done. Qed.

Lemma fixed_effective db db' key : fixed_tables db' = fixed_tables db -> effective db' key = effective db key.
Proof. unfold fixed_tables, effective, rows_of. intros Hf. injection Hf as _ -> _. done. Qed.

Section Outcomes.
Context `{NetURL} `{NetIP} `{IDNA} `{Unicode}.
Variable config : AutomaticCrawlConfig.
Variable delay : Z -> Z -> Z.
Variables (runID : Z) (paused : bool) (suffixes : bytes) (decisions : gmap Origin Category) (maxPromotions now : Z).

(** The caller resolved the origin to public addresses. *)
Definition accepted (o : Origin) : Prop :=
  exists c, decisions !! o = Some c /\ Transient c = false /\ c <> CategoryUnsafeAddress.

Definition policy_denies (db : Database) (key : bytes) (o : Origin) : Prop :=
  source_flag crawl_blocked db key = true \/ excludes suffixes (Hostname o) = true.
Definition already_source (db : Database) (key : bytes) : Prop :=
  source_flag automatically_discovered db key = true \/ key ∈ source_schedule db \/ verified db key = true.

(** A candidate that only budget and capacity can keep from being promoted. *)
Definition promotable (db : Database) (key : bytes) (o : Origin) : Prop :=
  accepted o /\ ~ policy_denies db key o /\ ~ already_source db key /\ stale_evidence db key = false.

(** The outcome of a candidate, given the tables before the decision. *)
Inductive justified (db : Database) (key : bytes) (o : Origin) : AdmissionOutcome -> Prop :=
| just_retry c : decisions !! o = Some c -> Transient c = true -> justified db key o retry_deferred
| just_rejected : decisions !! o = None \/ decisions !! o = Some CategoryUnsafeAddress ->
    justified db key o network_rejected
| just_policy : accepted o ->
    policy_denies db key o \/ ~ already_source db key /\ stale_evidence db key = true ->
    justified db key o policy_deferred
| just_existing : accepted o -> ~ policy_denies db key o -> already_source db key -> justified db key o existing
| just_capacity : promotable db key o -> justified db key o capacity_deferred
| just_paused : promotable db key o -> paused = true -> justified db key o expansion_paused
| just_promoted : promotable db key o -> paused = false -> justified db key o promoted.

(** The row of a promoted source: a new automatic source, or the row there was
    with its flag set. *)
Definition promoted_source (db db' : Database) (key : bytes) : Prop :=
  source_state db' !! key = Some (set_automatic (default new_source (source_state db !! key))).

(** What one decision did. *)
Record decided (key : bytes) (o : Origin) (outcome : AdmissionOutcome) (st st' : admission) : Prop := {
  dec_local : local_to [key] (adm_db st) (adm_db st');
  dec_justified : justified (adm_db st) key o outcome;
  dec_batch : forall b, batches (crawl (adm_db st)) !! (runID, key) = Some b ->
    exists b', batches (crawl (adm_db st')) !! (runID, key) = Some b'
      /\ batch_outcome b' = outcome /\ discovered_run_id b' = discovered_run_id b;
  dec_promotions : promotions st' = promotions st + (if bool_decide (outcome = promoted) then 1 else 0);
  dec_budget : outcome = promoted -> promotions st < maxPromotions;
  dec_probes : pendingProbes st' = pendingProbes st
     + (Z.of_nat (size (queue (adm_db st'))) - Z.of_nat (size (queue (adm_db st))));
  dec_capacity : pendingProbes st <= pendingProbes st' <= Z.max (pendingProbes st) (maxPendingProbes config);
  dec_spent : outcome = capacity_deferred ->
    maxPromotions <= promotions st
    \/ maxPendingProbes config <= pendingProbes st /\ queue (adm_db st) !! key = None /\ queue (adm_db st') !! key = None;
  dec_promoted : outcome = promoted ->
    key ∈ source_schedule (adm_db st') /\ promoted_source (adm_db st) (adm_db st') key
    /\ is_Some (queue (adm_db st') !! key);
  dec_kept : outcome <> promoted ->
    source_state (adm_db st') = source_state (adm_db st) /\ source_schedule (adm_db st') = source_schedule (adm_db st);
}.

Lemma batch_altered db key f b : batches (crawl db) !! (runID, key) = Some b ->
  batches (crawl (set_outcome db runID key f)) !! (runID, key) = Some (f b).
Proof. intros Hb. cbn. by rewrite lookup_alter_eq, Hb. Qed.

(** A deferral without further effect. *)
Lemma decided_deferral st key o f outcome db' :
  outcome <> promoted -> (forall b, batch_outcome (f b) = outcome /\ discovered_run_id (f b) = discovered_run_id b) ->
  justified (adm_db st) key o outcome ->
  (outcome = capacity_deferred ->
    maxPromotions <= promotions st \/ maxPendingProbes config <= pendingProbes st /\ queue (adm_db st) !! key = None) ->
  local_to [key] (adm_db st) db' -> batches (crawl db') = batches (crawl (adm_db st)) -> queue db' = queue (adm_db st) ->
  source_state db' = source_state (adm_db st) -> source_schedule db' = source_schedule (adm_db st) ->
  decided key o outcome st (mkAdmission (set_outcome db' runID key f) (promotions st) (pendingProbes st)).
Proof.
  intros Hne Hf Hj Hsp Hl Hb Hq Hss Hsc. split; cbn [adm_db promotions pendingProbes].
  - etransitivity; [exact Hl|apply local_outcome].
  - done.
  - intros b Hb'. exists (f b). split; [|by apply Hf]. apply batch_altered. by rewrite Hb.
  - rewrite bool_decide_eq_false_2 by done. lia.
  - done.
  - cbn. rewrite Hq. lia.
  - lia.
  - intros Ho. destruct (Hsp Ho) as [?|[? ?]]; [by left|right]. cbn. by rewrite Hq.
  - done.
  - intros _. by cbn.
Qed.

Lemma stale_reset db key failures c next :
  stale_evidence (update_candidate db key (set_candidate_retry failures c next)) key = stale_evidence db key.
Proof.
  unfold stale_evidence, last_discovery. change (effective (update_candidate _ _ _) key) with (effective db key).
  cbn [update_candidate candidates set_candidates]. rewrite lookup_alter_eq. by destruct (candidates db !! key).
Qed.

Lemma promote_batch db key b : batches (crawl db) !! (runID, key) = Some b ->
  batches (crawl (promote db runID key now)) !! (runID, key) = Some (with_outcome promoted b).
Proof. intros Hb. cbn. by rewrite lookup_alter_eq, Hb. Qed.

(** The effect of admitting the probe of a candidate with room for it. *)
Lemma probe_effect db key at_ : let db' := admit_probe db key at_ in
  let queued := bool_decide (is_Some (queue db !! key)) in
  is_Some (queue db' !! key) /\ batches (crawl db') = batches (crawl db)
  /\ source_state db' = source_state db /\ source_schedule db' = source_schedule db
  /\ Z.of_nat (size (queue db')) = Z.of_nat (size (queue db)) + (if queued then 0 else 1).
Proof.
  cbv zeta. unfold admit_probe. destruct (queue db !! key) as [row|] eqn:Hq.
  - rewrite Hq, bool_decide_eq_true_2 by eauto. split_and!; [by eauto|done..|lia].
  - rewrite bool_decide_eq_false_2 by (by intros [? [=]]). cbn [queue set_queue].
    rewrite lookup_insert_eq, map_size_insert_None by done. split_and!; [by eauto|done..|lia].
Qed.

(** A deferral of a candidate that is queued as a probe. *)
Lemma decided_probed st key o outcome db : let queued := bool_decide (is_Some (queue (adm_db st) !! key)) in
  local_to [key] (adm_db st) db -> batches (crawl db) = batches (crawl (adm_db st)) -> queue db = queue (adm_db st) ->
  source_state db = source_state (adm_db st) -> source_schedule db = source_schedule (adm_db st) ->
  (queued = false -> pendingProbes st < maxPendingProbes config) ->
  outcome <> promoted -> justified (adm_db st) key o outcome ->
  (outcome = capacity_deferred -> maxPromotions <= promotions st) ->
  decided key o outcome st
    (mkAdmission (set_outcome (if queued then db else admit_probe db key now) runID key (with_outcome outcome))
       (promotions st) (if queued then pendingProbes st else pendingProbes st + 1)).
Proof.
  cbv zeta. intros Hl Hb Hq Hss Hsc Hroom Hne Hj Hsp.
  destruct (bool_decide (is_Some (queue (adm_db st) !! key))) eqn:Hqd.
  { apply decided_deferral; try done. intros Ho. left. by apply Hsp. }
  destruct (probe_effect db key now) as (Hin & Hbat & Hss' & Hsc' & Hsz). rewrite Hq, Hqd in Hsz.
  specialize (Hroom eq_refl). split; cbn [adm_db promotions pendingProbes]; try done; try lia.
  - etransitivity; [exact Hl|]. etransitivity; [apply local_probe|apply local_outcome].
  - intros b Hb'. exists (with_outcome outcome b). split; [|done]. apply batch_altered. by rewrite Hbat, Hb.
  - rewrite bool_decide_eq_false_2 by done. lia.
  - cbn [set_outcome with_crawl queue]. lia.
  - intros Ho. left. by apply Hsp.
  - intros _. cbn [set_outcome with_crawl source_state source_schedule]. split; congruence.
Qed.

Lemma admit_promotable_decided st key o db :
  local_to [key] (adm_db st) db -> batches (crawl db) = batches (crawl (adm_db st)) -> queue db = queue (adm_db st) ->
  source_state db = source_state (adm_db st) -> source_schedule db = source_schedule (adm_db st) ->
  promotable (adm_db st) key o ->
  exists outcome, decided key o outcome st (admit_promotable config runID paused maxPromotions now st db key).
Proof.
  intros Hl Hb Hq Hss Hsc Hprom. unfold admit_promotable. cbv zeta. rewrite Hq.
  destruct (negb _ && negb _) eqn:Hfull.
  { exists capacity_deferred. apply decided_deferral; try done; [by apply just_capacity|]. intros _. right. b2p.
    apply Z.ltb_ge in H4. split; [done|]. apply eq_None_not_Some. by eapply bool_decide_eq_false. }
  assert (Hroom : bool_decide (is_Some (queue (adm_db st) !! key)) = false -> pendingProbes st < maxPendingProbes config).
  { intros Hn. rewrite Hn in Hfull. cbn [negb andb] in Hfull. apply negb_false_iff, Z.ltb_lt in Hfull. done. }
  destruct paused eqn:Hp.
  { exists expansion_paused. apply decided_probed; try done. by apply just_paused. }
  destruct (Z.leb_spec maxPromotions (promotions st)) as [Hge|Hlt].
  { exists capacity_deferred. apply decided_probed; try done. by apply just_capacity. }
  exists promoted. destruct (probe_effect db key now) as (Hin & Hbat & Hss' & Hsc' & Hsz). rewrite Hq in Hsz.
  set (db' := if bool_decide _ then db else admit_probe db key now).
  assert (Hdb' : local_to [key] (adm_db st) db' /\ source_state db' = source_state (adm_db st)
    /\ batches (crawl db') = batches (crawl (adm_db st))
    /\ is_Some (queue db' !! key)
    /\ Z.of_nat (size (queue db')) = Z.of_nat (size (queue (adm_db st)))
         + (if bool_decide (is_Some (queue (adm_db st) !! key)) then 0 else 1)).
  { unfold db'. case_bool_decide as Hqd; [rewrite Hq; split_and!; [done..|lia]|].
    split_and!; [etransitivity; [exact Hl|apply local_probe]|congruence|congruence|done|done]. }
  clearbody db'. destruct Hdb' as (Hl' & Hss'' & Hbt & Hqs & Hsz').
  split; cbn [adm_db promotions pendingProbes]; try done; try lia.
  - etransitivity; [exact Hl'|apply local_promote].
  - by apply just_promoted.
  - intros b Hb'. exists (with_outcome promoted b). split; [apply promote_batch; by rewrite Hbt|done].
  - change (queue (promote db' runID key now)) with (queue db'). case_bool_decide; lia.
  - case_bool_decide; lia.
  - intros _. split_and!; [cbn; set_solver| |done]. unfold promoted_source. cbn. rewrite lookup_insert_eq.
    by rewrite Hss''.
Qed.

Lemma admit_resolved_decided st key o : accepted o ->
  exists outcome, decided key o outcome st (admit_resolved config runID paused suffixes maxPromotions now st key o).
Proof.
  intros Hacc. unfold admit_resolved. cbv zeta.
  set (db := update_candidate (adm_db st) key (set_candidate_retry 0 None None)).
  assert (Hl : local_to [key] (adm_db st) db) by apply local_candidate.
  assert (Hstale : stale_evidence db key = stale_evidence (adm_db st) key) by apply stale_reset. rewrite Hstale.
  change (verified db key) with (verified (adm_db st) key).
  change (source_flag crawl_blocked db key) with (source_flag crawl_blocked (adm_db st) key).
  change (source_flag automatically_discovered db key) with (source_flag automatically_discovered (adm_db st) key).
  change (source_schedule db) with (source_schedule (adm_db st)).
  destruct (source_flag crawl_blocked (adm_db st) key || excludes suffixes (Hostname o)) eqn:Hdeny.
  { exists policy_deferred. apply decided_deferral; try done. apply just_policy; [done|]. left.
    by apply orb_true_iff in Hdeny. }
  assert (Hnd : ~ policy_denies (adm_db st) key o).
  { unfold policy_denies. apply orb_false_iff in Hdeny as [-> ->]. by intros []. }
  destruct (source_flag automatically_discovered (adm_db st) key || _ || verified (adm_db st) key) eqn:Hex.
  { exists existing. pose proof (decided_deferral st key o (with_outcome existing) existing db) as Hd.
    destruct Hd; try done.
    { apply just_existing; [done|done|]. rewrite !orb_true_iff, bool_decide_eq_true in Hex. unfold already_source. tauto. }
    split; try done. cbn [adm_db]. etransitivity; [done|]. apply local_durable. }
  assert (Hna : ~ already_source (adm_db st) key).
  { rewrite !orb_false_iff, bool_decide_eq_false in Hex. unfold already_source. destruct Hex as [[-> ?] ->]. naive_solver. }
  destruct (stale_evidence (adm_db st) key) eqn:Hst.
  { exists policy_deferred. apply decided_deferral; try done. apply just_policy; [done|]. by right. }
  by apply admit_promotable_decided.
Qed.

Let step := admit_candidate config delay runID paused suffixes decisions maxPromotions now.

Lemma admit_candidate_decided st key st' : step st key = Ok st' ->
  exists o outcome, Origin.Parse key = Ok o /\ decided key o outcome st st'.
Proof.
  unfold step, admit_candidate. destruct (Origin.Parse key) as [o|] eqn:Ho; [|done]. cbv zeta.
  assert (Hreject : decisions !! o = None \/ decisions !! o = Some CategoryUnsafeAddress ->
    decided key o network_rejected st
      (mkAdmission (upsertDurableAdmissionOutcome (set_outcome (adm_db st) runID key (with_outcome network_rejected))
         key network_rejected now) (promotions st) (pendingProbes st))).
  { intros Hd. pose proof (decided_deferral st key o (with_outcome network_rejected) network_rejected (adm_db st)) as Hdef.
    destruct Hdef; try done; [by apply just_rejected|]. split; try done. cbn [adm_db].
    etransitivity; [done|]. apply local_durable. }
  destruct (decisions !! o) as [category|] eqn:Hd.
  2:{ intros Heq%(inj Ok). subst st'. exists o, network_rejected. split; [done|]. apply Hreject. by left. }
  destruct (Transient category) eqn:Htr.
  { destruct (candidates (adm_db st) !! key) as [row|] eqn:Hrow; [|done]. intros Heq%(inj Ok). subst st'.
    exists o, retry_deferred. split; [done|]. apply decided_deferral; try done; [by eapply just_retry|apply local_candidate]. }
  case_bool_decide as Hu.
  { intros Heq%(inj Ok). subst st' category. exists o, network_rejected. split; [done|]. apply Hreject. by right. }
  intros Heq%(inj Ok). subst st'. destruct (admit_resolved_decided st key o) as [outcome Hdec]; [by exists category|].
  by exists o, outcome.
Qed.

Lemma justified_local db db' key o outcome :
  stored_at db' key = stored_at db key -> fixed_tables db' = fixed_tables db ->
  justified db' key o outcome -> justified db key o outcome.
Proof.
  intros Hs Hf.
  assert (Hflag : forall f, source_flag f db' key = source_flag f db key) by (intros f; by apply stored_flag).
  assert (Heff : effective db' key = effective db key) by (by apply fixed_effective).
  assert (Hden : policy_denies db' key o <-> policy_denies db key o) by (unfold policy_denies; by rewrite Hflag).
  assert (Hsrc : already_source db' key <-> already_source db key).
  { unfold already_source, verified. rewrite Hflag, Heff. unfold stored_at in Hs. injection Hs as _ Hsch _ _ _.
    assert (key ∈ source_schedule db' <-> key ∈ source_schedule db).
    { rewrite <- (bool_decide_eq_true (key ∈ source_schedule db')), <- (bool_decide_eq_true (key ∈ source_schedule db)).
      by rewrite Hsch. }
    tauto. }
  assert (Hst : stale_evidence db' key = stale_evidence db key).
  { unfold stale_evidence, last_discovery. rewrite Heff. unfold stored_at in Hs. by injection Hs as _ _ -> _ _. }
  assert (Hp : promotable db' key o <-> promotable db key o) by (unfold promotable; rewrite Hst; tauto).
  intros [c ? ?|?|? Hor|? ? ?|?|? ?|? ?].
  - by eapply just_retry.
  - by apply just_rejected.
  - apply just_policy; [done|]. by rewrite <- Hden, <- Hsrc, <- Hst.
  - apply just_existing; [done|by rewrite <- Hden|by apply Hsrc].
  - by apply just_capacity, Hp.
  - apply just_paused; [by apply Hp|done].
  - apply just_promoted; [by apply Hp|done].
Qed.

Definition outcome_at (db : Database) (key : bytes) : option AdmissionOutcome :=
  batch_outcome <$> batches (crawl db) !! (runID, key).
Definition is_promoted (db : Database) (key : bytes) : bool := bool_decide (outcome_at db key = Some promoted).

(** What a batch of decisions did to one candidate. *)
Record settled (st st' : admission) (key : bytes) : Prop := {
  set_origin : exists o outcome, Origin.Parse key = Ok o /\ outcome_at (adm_db st') key = Some outcome
    /\ justified (adm_db st) key o outcome;
  set_spent : outcome_at (adm_db st') key = Some capacity_deferred ->
    maxPromotions <= promotions st'
    \/ maxPendingProbes config <= pendingProbes st' /\ queue (adm_db st') !! key = None;
  set_promoted : outcome_at (adm_db st') key = Some promoted ->
    key ∈ source_schedule (adm_db st') /\ promoted_source (adm_db st) (adm_db st') key
    /\ is_Some (queue (adm_db st') !! key);
  set_kept : outcome_at (adm_db st') key <> Some promoted ->
    source_state (adm_db st') !! key = source_state (adm_db st) !! key
    /\ (key ∈ source_schedule (adm_db st') <-> key ∈ source_schedule (adm_db st));
}.

Lemma stored_at_spec db db' key : stored_at db' key = stored_at db key ->
  source_state db' !! key = source_state db !! key /\ (key ∈ source_schedule db' <-> key ∈ source_schedule db)
  /\ queue db' !! key = queue db !! key.
Proof.
  unfold stored_at. intros Hs. injection Hs as Hss Hsc _ Hq _. split_and!; [done| |done].
  rewrite <- (bool_decide_eq_true (key ∈ source_schedule db')), <- (bool_decide_eq_true (key ∈ source_schedule db)).
  by rewrite Hsc.
Qed.

(** The head of the batch keeps what its decision did. *)
Lemma settled_head st st1 st' key rest o outcome :
  key ∉ rest -> Origin.Parse key = Ok o -> is_Some (batches (crawl (adm_db st)) !! (runID, key)) ->
  decided key o outcome st st1 -> local_to rest (adm_db st1) (adm_db st') ->
  promotions st1 <= promotions st' -> pendingProbes st1 <= pendingProbes st' ->
  settled st st' key /\ outcome_at (adm_db st') key = Some outcome.
Proof.
  intros Hk Ho [b Hb] Hd Hl Hprom Hprob. destruct Hd as [_ Hj Hbatch Hp _ _ Hcap Hsp Hpr Hkept].
  destruct (Hbatch b Hb) as (b' & Hb' & Hout & _).
  assert (Hat : outcome_at (adm_db st') key = Some outcome).
  { unfold outcome_at. rewrite (local_batches _ _ _ Hl) by done. rewrite Hb'. cbn. by rewrite Hout. }
  destruct (stored_at_spec _ _ _ (local_rows _ _ _ Hl key Hk)) as (Hss & Hsc & Hq).
  split; [|done]. split.
  - exists o, outcome. done.
  - rewrite Hat. intros [= ->]. rewrite Hq. destruct (Hsp eq_refl) as [?|[? Hn]]; [left|right].
    + case_bool_decide; lia.
    + destruct Hn as [_ Hn]. by split; [lia|].
  - rewrite Hat. intros [= ->]. destruct (Hpr eq_refl) as (? & ? & ?). unfold promoted_source in *. rewrite Hss, Hsc, Hq. done.
  - rewrite Hat. intros Hne. destruct (Hkept) as [Hs1 Hs2]; [congruence|]. rewrite Hss, Hs1, Hsc, Hs2. done.
Qed.

Lemma settled_tail st st1 st' key k o outcome :
  k <> key -> decided key o outcome st st1 -> settled st1 st' k -> settled st st' k.
Proof.
  intros Hk Hd [(ok & oc & Ho & Hat & Hj) Hsp Hpr Hkept].
  assert (Hnin : k ∉ [key]) by (by rewrite list_elem_of_singleton).
  pose proof (local_rows _ _ _ (dec_local _ _ _ _ _ Hd) k Hnin) as Hrows.
  destruct (stored_at_spec _ _ _ Hrows) as (Hss & Hsc & _). split; [|done| |].
  - exists ok, oc. split_and!; [done|done|]. eapply justified_local; [exact Hrows|apply Hd|done].
  - unfold promoted_source in *. by rewrite Hss in Hpr.
  - intros Hne. destruct (Hkept Hne) as [-> ->]. done.
Qed.

Definition promoted_count (db : Database) (keys : list bytes) : Z :=
  Z.of_nat (length (List.filter (is_promoted db) keys)).

Lemma admit_batch_settled keys st st' :
  NoDup keys -> (forall k, k ∈ keys -> is_Some (batches (crawl (adm_db st)) !! (runID, k))) ->
  admit_batch step st keys = Ok st' ->
  local_to keys (adm_db st) (adm_db st') /\ Forall (settled st st') keys
  /\ promotions st' = promotions st + promoted_count (adm_db st') keys
  /\ promotions st' <= Z.max (promotions st) maxPromotions
  /\ pendingProbes st' = pendingProbes st + (Z.of_nat (size (queue (adm_db st'))) - Z.of_nat (size (queue (adm_db st))))
  /\ pendingProbes st <= pendingProbes st' <= Z.max (pendingProbes st) (maxPendingProbes config).
Proof.
  revert st. induction keys as [|key keys IH]; intros st Hnd Hrows; cbn [admit_batch].
  { intros Heq%(inj Ok). subst st'. unfold promoted_count. cbn [List.filter length].
    split_and!; [done|by constructor|lia..]. }
  apply NoDup_cons in Hnd as [Hk Hnd]. destruct (step st key) as [st1|] eqn:Hst; [|done]. cbn [res_bind].
  intros Hbatch. destruct (admit_candidate_decided _ _ _ Hst) as (o & outcome & Ho & Hd).
  destruct (IH st1 Hnd) as (Hl & Hf & Hp & Hpm & Hq & Hqm); [|done|].
  { intros k Hin. destruct (decide (k = key)) as [->|Hne]; [done|].
    rewrite (local_batches _ _ _ (dec_local _ _ _ _ _ Hd)) by (by rewrite list_elem_of_singleton).
    apply Hrows. by right. }
  assert (Hcnt : 0 <= promoted_count (adm_db st') keys) by (unfold promoted_count; lia).
  destruct (settled_head st st1 st' key keys o outcome Hk Ho (Hrows key ltac:(by left)) Hd Hl) as [Hhead Hat]; [lia|lia|].
  pose proof (dec_promotions _ _ _ _ _ Hd) as Hdp. pose proof (dec_budget _ _ _ _ _ Hd) as Hdb.
  pose proof (dec_probes _ _ _ _ _ Hd) as Hdq. pose proof (dec_capacity _ _ _ _ _ Hd) as Hdc.
  split_and!.
  - etransitivity; [eapply local_to_weaken; [|apply Hd]; set_solver|].
    eapply local_to_weaken; [|exact Hl]. set_solver.
  - constructor; [done|]. rewrite Forall_forall in *. intros k Hin. eapply settled_tail; [|exact Hd|by apply Hf].
    by intros ->.
  - unfold promoted_count in *. cbn [List.filter]. unfold is_promoted at 1. rewrite Hat.
    case_bool_decide as Hb; case_bool_decide as Hc; try congruence; cbn [length]; lia.
  - case_bool_decide; [specialize (Hdb ltac:(done))|]; lia.
  - lia.
  - lia.
  - lia.
Qed.
End Outcomes.

(** ** The transaction *)

Lemma pending_keys_spec db runID key : key ∈ pending_keys db runID <->
  exists b, batches (crawl db) !! (runID, key) = Some b /\ batch_outcome b = pending.
Proof.
  unfold pending_keys, batch_keys. rewrite list_elem_of_In, in_map_iff. split.
  - intros ([[r k] b] & <- & [Hin Hf]%filter_In). apply list_elem_of_In, elem_of_map_to_list in Hin.
    apply andb_true_iff in Hf as [->%Z.eqb_eq Hp]. exists b. split; [done|]. by apply bool_decide_eq_true in Hp.
  - intros (b & Hb & Hp). exists ((runID, key), b). split; [done|]. apply filter_In.
    split; [by apply list_elem_of_In, elem_of_map_to_list|]. rewrite Z.eqb_refl. by apply bool_decide_eq_true.
Qed.

Lemma batch_keys_NoDup db runID f : NoDup (batch_keys db runID f).
Proof.
  unfold batch_keys. pose proof (NoDup_fst_map_to_list (batches (crawl db))) as Hn.
  induction (map_to_list (batches (crawl db))) as [|[[r k] b] l IH]; [constructor|].
  rewrite fmap_cons, NoDup_cons in Hn. destruct Hn as [Hk Hn]. cbn [List.filter]. case_head; [|by apply IH].
  apply andb_true_iff in E as [->%Z.eqb_eq _]. cbn [map]. constructor; [|by apply IH]. contradict Hk.
  rewrite list_elem_of_In, in_map_iff in Hk. destruct Hk as ([[r' k'] b'] & -> & [Hin Hf]%filter_In).
  apply andb_true_iff in Hf as [->%Z.eqb_eq _]. apply list_elem_of_fmap. exists ((runID, k), b').
  split; [done|]. by apply list_elem_of_In.
Qed.

(** Only the promotion columns of runs change. *)
Definition run_identity (r : RunRow) := (run_source r, run_started_at r, run_finished_at r, run_status r,
  run_stop_reason r, run_limits r, max_automatic_promotions r, run_summary r).

Lemma refresh_promotions_spec reads ids db :
  let db' := fold_left (refresh_promotions reads) ids db in
  db' = with_crawl db (set_runs (runs (crawl db')) (last_run (crawl db)))
  /\ forall id, (run_identity <$> runs (crawl db') !! id) = (run_identity <$> runs (crawl db) !! id)
      /\ (automatic_promotions <$> runs (crawl db') !! id) = (automatic_promotions <$> runs (crawl db) !! id).
Proof.
  cbv zeta. revert db. induction ids as [|i ids IH]; intros db; cbn [fold_left].
  { split; [by destruct db as [? ? ? ? ? ? ? ? []]|done]. }
  destruct (IH (refresh_promotions reads db i)) as [Hd Hr]. split.
  - rewrite Hd. by destruct db as [? ? ? ? ? ? ? ? []].
  - intros id. destruct (Hr id) as [-> ->]. cbn. destruct (decide (id = i)) as [->|Hne].
    + rewrite lookup_alter_eq. by destruct (runs (crawl db) !! i).
    + by rewrite lookup_alter_ne by congruence.
Qed.

Section Complete.
Context `{NetURL} `{NetIP} `{IDNA} `{Unicode}.
Variable text_leb : bytes -> bytes -> bool.
Variable config : AutomaticCrawlConfig.
Variable delay : Z -> Z -> Z.

(** What a successful application of decisions did, for the run [runID]. *)
Record applied (db db' : Database) (runID : Z) (run : RunRow) (decisions : gmap Origin Category) (stmt : Z) : Prop := {
  app_outcomes : forall key, key ∈ pending_keys db runID ->
    exists o outcome, Origin.Parse key = Ok o /\ outcome_at runID db' key = Some outcome
      /\ justified (automatic_expansion_paused (crawl db)) (exclusions text_leb config db) decisions db key o outcome;
  app_promoted : forall key, key ∈ pending_keys db runID -> outcome_at runID db' key = Some promoted ->
    key ∈ source_schedule db' /\ promoted_source db db' key /\ is_Some (queue db' !! key);
  app_kept : forall key, key ∈ pending_keys db runID -> outcome_at runID db' key <> Some promoted ->
    source_state db' !! key = source_state db !! key /\ (key ∈ source_schedule db' <-> key ∈ source_schedule db);
  app_budget : exists run', runs (crawl db') !! runID = Some run' /\ run_identity run' = run_identity run
    /\ automatic_promotions run' = automatic_promotions run + promoted_count runID db' (pending_keys db runID)
    /\ automatic_promotions run' <= Z.max (automatic_promotions run) (max_automatic_promotions run)
    /\ forall key, key ∈ pending_keys db runID -> outcome_at runID db' key = Some capacity_deferred ->
         max_automatic_promotions run <= automatic_promotions run'
         \/ queue db' !! key = None
            /\ maxPendingProbes config
                 <= active_probes db stmt + (Z.of_nat (size (queue db')) - Z.of_nat (size (queue db)));
  app_capacity : let grown := Z.of_nat (size (queue db')) - Z.of_nat (size (queue db)) in
    0 <= grown /\ active_probes db stmt + grown <= Z.max (active_probes db stmt) (maxPendingProbes config);
  app_others : forall key, key ∉ pending_keys db runID ->
    stored_at db' key = stored_at db key
    /\ forall r, batches (crawl db') !! (r, key) = batches (crawl db) !! (r, key);
  app_fixed : origins db' = origins db /\ observations db' = observations db /\ edges (crawl db') = edges (crawl db)
    /\ run_candidates (crawl db') = run_candidates (crawl db);
}.

Lemma promoted_count_perm runID db l k : l ≡ₚ k -> promoted_count runID db l = promoted_count runID db k.
Proof.
  intros Hp. unfold promoted_count. f_equal. induction Hp; cbn [List.filter]; [done| | |congruence].
  - case_head; cbn [length]; congruence.
  - repeat case_head; done.
Qed.

Lemma CompleteAutomaticCandidates_spec db runID results now stmt run :
  automatic_Enabled config = true -> runs (crawl db) !! runID = Some run -> run_finished_at run = None ->
  match CompleteAutomaticCandidates text_leb config delay db runID results now stmt with
  | (db', Some _) => db' = db
  | (db', None) => applied db db' runID run (decisions_of results) stmt
  end.
Proof.
  intros Hen Hrun Hfin. unfold CompleteAutomaticCandidates. rewrite Hen, Hrun, Hfin. cbn [negb].
  destruct (runID <=? 0); [done|]. destruct (prepareAdmissionCandidates _); [|done].
  destruct (forallb decision_ok results); [|done]. cbn [negb]. rewrite bool_decide_eq_false_2 by (by intros [? [=]]).
  cbv zeta. destruct (admit_batch _ _ _) as [st'|] eqn:Hbatch; [|done].
  pose proof (text_sorted_perm text_leb (pending_keys db runID)) as Hperm.
  apply admit_batch_settled in Hbatch as (Hl & Hf & Hp & Hpm & Hq & Hqm).
  2:{ rewrite Hperm. apply batch_keys_NoDup. }
  2:{ intros k. rewrite Hperm, pending_keys_spec. intros (b & Hb & _). by exists b. }
  rewrite (promoted_count_perm _ _ _ _ Hperm) in Hp. rewrite Hperm in Hf. rewrite Forall_forall in Hf.
  cbn [adm_db promotions pendingProbes] in *. set (db1 := update_run (adm_db st') runID _).
  destruct (refresh_promotions_spec db1 (elements (affected_runs db1 runID)) db1) as [Hdb' Hruns].
  fold (update_promotion_telemetry db1 runID) in *. set (db' := update_promotion_telemetry db1 runID) in *. clearbody db'.
  assert (Hbat : forall k, outcome_at runID db' k = outcome_at runID (adm_db st') k) by (intros k; by rewrite Hdb').
  assert (Hss : source_state db' = source_state (adm_db st')) by (by rewrite Hdb').
  assert (Hsc : source_schedule db' = source_schedule (adm_db st')) by (by rewrite Hdb').
  assert (Hqq : queue db' = queue (adm_db st')) by (by rewrite Hdb').
  assert (Hcnt : promoted_count runID db' (pending_keys db runID) = promoted_count runID (adm_db st') (pending_keys db runID)).
  { unfold promoted_count. f_equal. f_equal. apply List.filter_ext. intros k. unfold is_promoted. by rewrite Hbat. }
  split.
  - intros key Hk. destruct (set_origin _ _ _ _ _ _ _ _ _ (Hf key Hk)) as (o & oc & ? & ? & ?). exists o, oc.
    by rewrite Hbat.
  - intros key Hk. rewrite Hbat, Hsc, Hqq. unfold promoted_source. rewrite Hss. apply (set_promoted _ _ _ _ _ _ _ _ _ (Hf key Hk)).
  - intros key Hk. rewrite Hbat, Hsc, Hss. apply (set_kept _ _ _ _ _ _ _ _ _ (Hf key Hk)).
  - destruct (Hruns runID) as [Hid Hap]. unfold db1 in Hid, Hap. cbn in Hid, Hap. rewrite lookup_alter_eq in Hid, Hap.
    pose proof (local_fixed _ _ _ Hl) as Hfix. unfold fixed_tables in Hfix. injection Hfix as _ _ _ _ _ Hr _.
    rewrite Hr, Hrun in Hid, Hap. destruct (runs (crawl db') !! runID) as [run'|]; [|done]. exists run'.
    apply (inj Some) in Hid, Hap. cbn in Hap. rewrite Hcnt, Hap. split_and!; [done|by rewrite Hid|done|done|].
    intros key Hk. rewrite Hbat, Hqq. intros Hcd.
    destruct (set_spent _ _ _ _ _ _ _ _ _ (Hf key Hk) Hcd) as [?|[? ?]]; [by left|right]. split; [done|lia].
  - cbv zeta. rewrite Hqq. lia.
  - intros key Hk. assert (Hk' : key ∉ text_sorted text_leb (pending_keys db runID)) by (by rewrite Hperm). split.
    + rewrite <- (local_rows _ _ _ Hl key Hk'). by rewrite Hdb'.
    + intros r. rewrite <- (local_batches _ _ _ Hl r key Hk'). by rewrite Hdb'.
  - pose proof (local_fixed _ _ _ Hl) as Hfix. unfold fixed_tables in Hfix.
    injection Hfix as Ho Hob _ _ Hed _ _ _ Hrc _. by rewrite Hdb'.
Qed.

(** C5: Applying the decisions of a run is all or nothing, exact and bounded.
    When it fails the tables are unchanged. When it succeeds for an active run,
    every candidate that was pending in the run's batch has an outcome that the
    decision, the policy and the tables justify; the promoted ones are now
    scheduled automatic sources and queued for verification, the others keep
    their source row and schedule; a candidate deferred for capacity met a
    spent budget or a full queue; the run's promotions grew by exactly the
    promoted candidates, never beyond its maximum; the queue grew by at most
    the free capacity; and nothing about any other origin changed. *)
Theorem CompleteAutomaticCandidates_correct db runID results now stmt run :
  automatic_Enabled config = true -> runs (crawl db) !! runID = Some run -> run_finished_at run = None ->
  match CompleteAutomaticCandidates text_leb config delay db runID results now stmt with
  | (db', Some _) => db' = db
  | (db', None) => applied db db' runID run (decisions_of results) stmt
  end.
Proof. apply CompleteAutomaticCandidates_spec. Qed.
End Complete.
