(* ===== verification/DiscoveryLease.v ===== *)
(** * Leases on crawl sources ([internal/store/discovery_lease.go],
    [discovery_lease_completion.go])

    Claiming, renewing and completing the lease of a crawl source. Each
    operation is one transaction under the claim lock. *)

From S2P Require Import Prelude GoText GoUrl GoErrors GoNetip GoJson Retry Origin Netguard.
From S2P Require Import RobotsMatch RobotsPolicy RobotsPolicyFacts RobotsHTTP Declaration Verifier.
From S2P Require Import Discovery Crawler Store Queue Exclusions DiscoveryStore.

(** [discovery.CrawlSourceLease] *)
Record CrawlSourceLease : Type := mkSourceLease {
  source_lease_Origin : Origin;
  source_lease_Generation : Z;
  source_lease_ClaimedAt : Z;
  source_lease_ExpiresAt : Z;
}.

Definition validDiscoverySourceLease (l : CrawlSourceLease) : bool :=
  negb (bytes_eqb (origin_String (source_lease_Origin l)) []) && (0 <? source_lease_Generation l)
  && negb (time_IsZero (source_lease_ClaimedAt l)) && negb (time_IsZero (source_lease_ExpiresAt l))
  && time_After (source_lease_ExpiresAt l) (source_lease_ClaimedAt l).

(** ** Crawl runs left behind *)

Definition cancel_run (now : Z) (reason : bytes) (r : RunRow) : RunRow :=
  mkRun (run_source r) (run_started_at r) (Some now) (Some CrawlRunCanceled) reason (run_limits r)
    (max_automatic_promotions r) (automatic_promotions r) (run_summary r) (promotions_admitted r)
    (promotions_deferred r).

(** [outcome = 'running' AND finished_at IS NULL] *)
Definition is_running (r : RunRow) : bool :=
  match run_status r, run_finished_at r with None, None => true | _, _ => false end.

(** The [UPDATE] of the runs that [f] selects; a run cannot finish before it
    started ([crawl_runs_time_order_check]). *)
Definition canceled_runs (db : Database) (f : RunRow -> bool) (now : Z) (reason : bytes) : Database :=
  with_crawl db (fun t => set_runs
    ((fun r => if is_running r && f r then cancel_run now reason r else r) <$> runs t) (last_run t) t).
Definition cancelable (db : Database) (f : RunRow -> bool) (now : Z) : bool :=
  forallb (fun '(_, r) => negb (is_running r && f r) || (run_started_at r <=? now)) (map_to_list (runs (crawl db))).
Definition cancel_runs (db : Database) (f : RunRow -> bool) (now : Z) (reason : bytes) : res error Database :=
  if cancelable db f now then Ok (canceled_runs db f now reason) else Err (wrap (errors_New (foreign 14))).

Definition live (s : SourceState) (now : Z) : bool :=
  match source_expires_at s with Some expires => now <? expires | None => false end.

(** The source has an unexpired lease. *)
Definition leased (db : Database) (key : bytes) (now : Z) : bool :=
  match source_state db !! key with Some s => live s now | None => false end.

Section Lease.
Context `{NetURL} `{NetIP} `{IDNA}.
Variable text_leb : bytes -> bytes -> bool.
Variable make_interval : Z -> Z.
Variable config : AutomaticCrawlConfig.
(** Whether another transaction holds the lock of the schedule row. *)
Variable locked : bytes -> bool.
Variable delay : Z -> Z -> Z.

(** ** Claim *)

Definition source_of (db : Database) (key : bytes) : SourceState := default new_source (source_state db !! key).

(** The WHERE clause of [scheduled_candidate]. *)
Definition claimable (db : Database) (automaticEnabled : bool) (now interval : Z) (key : bytes) : bool :=
  let s := source_of db key in
  negb (crawl_blocked s)
  && null_or_le (source_next_attempt_at s) now
  && (bool_decide (is_Some (source_next_attempt_at s))
      || null_or_le (last_attempted_at s) (now - make_interval interval))
  && null_or_le (source_expires_at s) now
  && (seeded s || verified db key || automaticEnabled && (active_probes db now <? maxPendingProbes config))
  && negb (locked key).

(** The ORDER BY clause: never attempted first, then the oldest attempt. *)
Definition claim_before (db : Database) (a b : bytes) : bool :=
  match last_attempted_at (source_of db a), last_attempted_at (source_of db b) with
  | None, None => text_leb a b
  | None, Some _ => true
  | Some _, None => false
  | Some t, Some u => if t =? u then text_leb a b else t <? u
  end.

Definition first_source (db : Database) (automaticEnabled : bool) (now interval : Z) : option bytes :=
  fold_left (fun best key =>
    match best with
    | None => Some key
    | Some b => if claim_before db key b then Some key else best
    end)
    (List.filter (claimable db automaticEnabled now interval) (elements (source_schedule db))) None.

Definition claim_source (owner : bytes) (now expiresAt : Z) (s : SourceState) : SourceState :=
  mkSource (seeded s) (automatically_discovered s) (operator_blocked s) (crawl_blocked s) (last_attempted_at s)
    (source_failures s) (source_failure_category s) (source_next_attempt_at s) (source_generation s + 1)
    (Some owner) (Some now) (Some expiresAt).

Definition ClaimDiscoverySourceLease (db : Database) (leaseOwner : bytes) (interval leaseDuration now : Z)
    : Database * res error (option CrawlSourceLease) :=
  if negb (validQueueWorkerID leaseOwner) then (db, Err (errors_New errInvalidDiscoveryLeaseOwner))
  else if interval <=? 0 then (db, Err (errors_New errInvalidDiscoveryInterval))
  else if leaseDuration <=? 0 then (db, Err (errors_New errInvalidDiscoveryLeaseDuration))
  else
    let expiresAt := pg_time (time_Add now leaseDuration) in
    let now := pg_time now in
    if discovery_paused (crawl db) then (db, Ok None)
    else
      let automaticCrawlEnabled := automatic_Enabled config && negb (automatic_expansion_paused (crawl db)) in
      match first_source db automaticCrawlEnabled now interval with
      | None => (db, Ok None)
      | Some key =>
          match Origin.Parse key with
          | Err _ => (db, Err (wrap (errors_New (foreign 1))))
          | Ok source =>
              (* [discovery_source_state_lease_state_check] *)
              if expiresAt <=? now then (db, Err (wrap (errors_New (foreign 15)))) else
              let claimed := claim_source leaseOwner now expiresAt (source_of db key) in
              let db1 := set_source_state db (<[key := claimed]> (source_state db)) in
              let canceled :=
                let? db2 := cancel_runs db1 (fun r => bytes_eqb (run_source r) (origin_String source)) now
                              (bs "lease_reclaimed") in
                cancel_runs db2 (fun r => negb (leased db2 (run_source r) now)) now (bs "abandoned") in
              match canceled with
              | Ok db' => (db', Ok (Some (mkSourceLease source (source_generation claimed) now expiresAt)))
              | Err err => (db, Err err)
              end
          end
      end.

(** ** Renew *)

(** [lease_generation = $2 AND lease_expires_at > $3] *)
Definition source_held (s : SourceState) (l : CrawlSourceLease) (now : Z) : bool :=
  (source_generation s =? source_lease_Generation l) && live s now.

Definition set_expiry (expires : Z) (s : SourceState) : SourceState :=
  mkSource (seeded s) (automatically_discovered s) (operator_blocked s) (crawl_blocked s) (last_attempted_at s)
    (source_failures s) (source_failure_category s) (source_next_attempt_at s) (source_generation s)
    (source_owner s) (source_claimed_at s) (Some expires).

Definition RenewDiscoverySourceLease (db : Database) (l : CrawlSourceLease) (leaseDuration now : Z)
    : Database * res error CrawlSourceLease :=
  if negb (validDiscoverySourceLease l) then (db, Err (errors_New errInvalidDiscoverySourceLease))
  else if leaseDuration <=? 0 then (db, Err (errors_New errInvalidDiscoveryLeaseDuration))
  else
    let key := origin_String (source_lease_Origin l) in
    let candidateExpiresAt := pg_time (time_Add now leaseDuration) in
    match source_state db !! key with
    | Some s =>
        if source_held s l (pg_time now) then
          let expires := Z.max (default 0 (source_expires_at s)) candidateExpiresAt in
          (set_source_state db (<[key := set_expiry expires s]> (source_state db)),
           Ok (mkSourceLease (source_lease_Origin l) (source_generation s) (default 0 (source_claimed_at s)) expires))
        else (db, Err (wrap (errors_New ErrDiscoverySourceLeaseLost)))
    | None => (db, Err (wrap (errors_New ErrDiscoverySourceLeaseLost)))
    end.

(** ** Complete *)

Definition complete_source (completedAt : Z) (category : Category) (retryAfter : Z) (clock : Z) (s : SourceState)
    : SourceState :=
  let transient := Transient category in
  let nextFailures := if transient then source_failures s + 1 else 0 in
  let nextAttemptAt := if transient then time_Add clock (delay nextFailures retryAfter) else clock in
  mkSource (seeded s) (automatically_discovered s) (operator_blocked s) (crawl_blocked s) (Some completedAt)
    nextFailures (if transient then Some category else None)
    (if transient then Some (pg_time nextAttemptAt) else None)
    (source_generation s) None (source_claimed_at s) None.

Definition CompleteDiscoverySourceLeaseRetry (db : Database) (l : CrawlSourceLease) (category : Category)
    (retryAfter now : Z) : Database * option error :=
  if negb (validDiscoverySourceLease l) then (db, Some (errors_New errInvalidDiscoverySourceLease))
  else if negb (Retry.Valid category) || (retryAfter <? 0) || (MaxDelay <? retryAfter)
  then (db, Some (errors_New errInvalidDiscoveryCandidate))
  else
    let key := origin_String (source_lease_Origin l) in
    let completedAt := pg_time now in
    match source_state db !! key with
    | Some s =>
        if source_held s l completedAt then
          let db1 := set_source_state db
                       (<[key := complete_source completedAt category retryAfter now s]> (source_state db)) in
          match cancel_runs db1 (fun r => bytes_eqb (run_source r) key) completedAt (bs "abandoned") with
          | Ok db' => (db', None)
          | Err err => (db, Some err)
          end
        else (db, Some (wrap (errors_New ErrDiscoverySourceLeaseLost)))
    | None => (db, Some (wrap (errors_New ErrDiscoverySourceLeaseLost)))
    end.
End Lease.

(** * Correctness of the leases on crawl sources

    What a claim picks and what it leaves behind, and that renewal and
    completion work under a live lease of the current generation only. *)

From S2P Require Import QueueFacts.

#[local] Set Warnings "-clear-no-such-hyp".

(** The lease is unexpired and of the current generation of its source. *)
Definition source_authority (db : Database) (l : CrawlSourceLease) (now : Z) : Prop :=
  exists s expires, source_state db !! origin_String (source_lease_Origin l) = Some s
    /\ source_generation s = source_lease_Generation l
    /\ source_expires_at s = Some expires /\ pg_time now < expires.

Lemma source_held_spec db l now s : source_state db !! origin_String (source_lease_Origin l) = Some s ->
  source_held s l (pg_time now) = true <-> source_authority db l now.
Proof.
  intros Hs. unfold source_held, live, source_authority. rewrite andb_true_iff, Z.eqb_eq, Hs. split.
  - intros [Hg He]. destruct (source_expires_at s) as [e|] eqn:Hx; [|done]. exists s, e. by apply Z.ltb_lt in He.
  - intros (s' & e & [= <-] & Hg & -> & Hlt). split; [done|]. by apply Z.ltb_lt.
Qed.

Lemma no_source_authority db l now : source_state db !! origin_String (source_lease_Origin l) = None ->
  ~ source_authority db l now.
Proof. intros Hn (s & e & Hs & _). congruence. Qed.

(** ** Canceled runs *)

(** A run either stays as it is or, when it was running and [f] selects it, is
    canceled for a reason. *)
Definition canceled_by (f : RunRow -> bool) (now : Z) (reason : bytes) (db db' : Database) : Prop :=
  db' = with_crawl db (set_runs (runs (crawl db')) (last_run (crawl db)))
  /\ forall id, runs (crawl db') !! id =
       (fun r => if is_running r && f r then cancel_run now reason r else r) <$> runs (crawl db) !! id.

Lemma canceled_runs_spec db f now reason : canceled_by f now reason db (canceled_runs db f now reason).
Proof. split; [by destruct db as [? ? ? ? ? ? ? ? []]|]. intros id. by rewrite <- lookup_fmap. Qed.

Lemma cancelable_spec db f now : cancelable db f now = true <->
  forall id r, runs (crawl db) !! id = Some r -> is_running r = true -> f r = true -> run_started_at r <= now.
Proof.
  unfold cancelable. rewrite forallb_forall. setoid_rewrite <- list_elem_of_In. split.
  - intros Hall id r Hr Hrun Hf. specialize (Hall (id, r)). rewrite elem_of_map_to_list in Hall.
    specialize (Hall Hr). cbn in Hall. rewrite Hrun, Hf in Hall. cbn in Hall. lia.
  - intros Hall [id r] Hr%elem_of_map_to_list. apply orb_true_iff. destruct (is_running r && f r) eqn:E; [right|by left].
    b2p. apply Z.leb_le. eauto.
Qed.

Lemma cancel_runs_Ok db f now reason db' : cancel_runs db f now reason = Ok db' ->
  db' = canceled_runs db f now reason /\ cancelable db f now = true.
Proof. unfold cancel_runs. case_head; [|done]. by intros [= <-]. Qed.

Lemma canceled_runs_running db f now reason id r :
  runs (crawl (canceled_runs db f now reason)) !! id = Some r -> is_running r = true ->
  runs (crawl db) !! id = Some r /\ f r = false.
Proof.
  rewrite (proj2 (canceled_runs_spec db f now reason)). destruct (runs (crawl db) !! id) as [r0|]; [|done].
  cbn [fmap option_fmap option_map]. intros Hr%(inj Some) Hrun. subst r.
  destruct (is_running r0 && f r0) eqn:E; [done|]. rewrite Hrun in E. by split.
Qed.

Lemma canceled_runs_kept db f now reason id r :
  runs (crawl db) !! id = Some r -> is_running r = false ->
  runs (crawl (canceled_runs db f now reason)) !! id = Some r.
Proof.
  intros Hr Hrun. rewrite (proj2 (canceled_runs_spec db f now reason)), Hr. cbn [fmap option_fmap option_map].
  by rewrite Hrun.
Qed.

(** ** Claim *)

Section Claim.
Context `{NetURL} `{NetIP} `{IDNA}.
Variable text_leb : bytes -> bytes -> bool.
Variable make_interval : Z -> Z.
Variable config : AutomaticCrawlConfig.
Variable locked : bytes -> bool.
Hypothesis text_total : forall a b, text_leb a b = true \/ text_leb b a = true.
Hypothesis text_trans : forall a b c, text_leb a b = true -> text_leb b c = true -> text_leb a c = true.

(** The source may be crawled now. *)
Record crawl_due (db : Database) (now interval : Z) (key : bytes) : Prop := {
  crawl_scheduled : key ∈ source_schedule db;
  crawl_unblocked : source_flag crawl_blocked db key = false;
  crawl_retry : forall t, source_next_attempt_at (source_of db key) = Some t -> t <= now;
  crawl_rested : forall t, last_attempted_at (source_of db key) = Some t ->
    source_next_attempt_at (source_of db key) = None -> t + make_interval interval <= now;
  crawl_unleased : leased db key now = false;
  crawl_eligible : source_flag seeded db key = true \/ verified db key = true
    \/ automatic_Enabled config = true /\ automatic_expansion_paused (crawl db) = false
       /\ active_probes db now < maxPendingProbes config;
  crawl_unlocked : locked key = false;
}.

Lemma source_flag_of (f : SourceState -> bool) db key : f new_source = false ->
  source_flag f db key = f (source_of db key).
Proof. intros Hf. unfold source_flag, source_of. by destruct (source_state db !! key). Qed.

Lemma leased_of db key now : leased db key now = negb (null_or_le (source_expires_at (source_of db key)) now).
Proof.
  unfold leased, source_of, live, null_or_le. destruct (source_state db !! key) as [s|]; [|done].
  cbn. destruct (source_expires_at s) as [e|]; [|done]. apply Z.ltb_antisym.
Qed.

Lemma claimable_spec db now interval key :
  key ∈ source_schedule db ->
  claimable make_interval config locked db
    (automatic_Enabled config && negb (automatic_expansion_paused (crawl db))) now interval key = true
  <-> crawl_due db now interval key.
Proof.
  intros Hsched. unfold claimable. cbv zeta. rewrite !andb_true_iff, !negb_true_iff.
  rewrite <- (source_flag_of crawl_blocked), <- (source_flag_of seeded) by done.
  assert (Hl : null_or_le (source_expires_at (source_of db key)) now = true <-> leased db key now = false)
    by (rewrite leased_of; by rewrite negb_false_iff).
  rewrite Hl, !orb_true_iff, !andb_true_iff, negb_true_iff, Z.ltb_lt, !null_or_le_spec, bool_decide_eq_true. split.
  - intros (((((Hb & Hr) & Hi) & Hu) & He) & Hk). split; try done; [|tauto].
    intros t Ht Hn. destruct Hi as [[? Hs]|Hi]; [congruence|]. specialize (Hi t Ht). lia.
  - intros [_ ? ? Hrest ? He ?]. split_and!; try done; [|tauto].
    destruct (source_next_attempt_at (source_of db key)) as [n|]; [left; by eexists|right].
    intros t Ht. specialize (Hrest t Ht eq_refl). lia.
Qed.

Lemma claim_before_total db a b : claim_before text_leb db a b = true \/ claim_before text_leb db b a = true.
Proof.
  unfold claim_before. destruct (last_attempted_at (source_of db a)) as [t|], (last_attempted_at (source_of db b)) as [u|];
    try (by auto).
  rewrite (Z.eqb_sym u). destruct (Z.eqb_spec t u); [apply text_total|lia].
Qed.

Lemma claim_before_trans db a b c :
  claim_before text_leb db a b = true -> claim_before text_leb db b c = true -> claim_before text_leb db a c = true.
Proof.
  unfold claim_before. destruct (last_attempted_at (source_of db a)) as [t|], (last_attempted_at (source_of db b)) as [u|],
    (last_attempted_at (source_of db c)) as [v|]; try done; [|apply text_trans].
  destruct (Z.eqb_spec t u), (Z.eqb_spec u v), (Z.eqb_spec t v); try lia. apply text_trans.
Qed.

(** [key] precedes [key']: never attempted first, then the oldest attempt, then
    the order of the text. *)
Definition crawled_before (db : Database) (key key' : bytes) : Prop :=
  match last_attempted_at (source_of db key), last_attempted_at (source_of db key') with
  | None, Some _ => True
  | Some _, None => False
  | None, None => text_leb key key' = true
  | Some t, Some u => t < u \/ t = u /\ text_leb key key' = true
  end.

Lemma claim_before_spec db a b : claim_before text_leb db a b = true <-> crawled_before db a b.
Proof.
  unfold claim_before, crawled_before.
  destruct (last_attempted_at (source_of db a)) as [t|], (last_attempted_at (source_of db b)) as [u|]; try done.
  destruct (Z.eqb_spec t u) as [->|Hne]; [|rewrite Z.ltb_lt; naive_solver lia]. naive_solver lia.
Qed.

Lemma first_source_spec db now interval :
  match first_source text_leb make_interval config locked db
          (automatic_Enabled config && negb (automatic_expansion_paused (crawl db))) now interval with
  | Some key => crawl_due db now interval key
      /\ forall key', crawl_due db now interval key' -> crawled_before db key key'
  | None => forall key, ~ crawl_due db now interval key
  end.
Proof.
  unfold first_source. set (keys := List.filter _ _).
  assert (Hin : forall k, k ∈ keys <-> crawl_due db now interval k).
  { intros k. unfold keys. rewrite list_elem_of_In, filter_In, <- list_elem_of_In, elem_of_elements. split.
    - intros [Hk Hc]. by apply claimable_spec.
    - intros Hd. pose proof (crawl_scheduled _ _ _ _ Hd). split; [done|]. by apply claimable_spec. }
  destruct (fold_min_spec _ (claim_before_total db) (claim_before_trans db) keys None)
    as [[_ Hnil]|(b & -> & [Hb|?] & Hmin)]; [| |done].
  - rewrite Hnil in *. cbn [fold_left]. intros k Hk%Hin. by apply elem_of_nil in Hk.
  - split; [by apply Hin|]. intros k Hk%Hin. apply claim_before_spec, Hmin. by left.
Qed.

(** Claiming a crawl source hands out the first source that is due, and
    only that. The source claimed was scheduled, not blocked, not leased by
    anyone, past its retry time or, with none, past the interval since its last
    attempt, and a seed, verified, or admitted by an automatic crawl with
    capacity left; no due source precedes it. The lease has the next
    generation and is the source's authority until it expires. No other source
    row and no other table changes, except that crawl runs nobody works on any
    more are canceled: the runs still running afterwards are those of other
    sources whose lease is alive. When nothing is handed out, nothing was due
    and nothing changed. *)
Theorem ClaimDiscoverySourceLease_correct db owner interval leaseDuration now :
  validQueueWorkerID owner = true -> 0 < interval -> 0 < leaseDuration -> discovery_paused (crawl db) = false ->
  match ClaimDiscoverySourceLease text_leb make_interval config locked db owner interval leaseDuration now with
  | (db', Ok (Some l)) =>
      exists key, crawl_due db (pg_time now) interval key
        /\ (forall key', crawl_due db (pg_time now) interval key' -> crawled_before db key key')
        /\ Origin.Parse key = Ok (source_lease_Origin l)
        /\ source_lease_Generation l = source_generation (source_of db key) + 1
        /\ source_lease_ClaimedAt l = pg_time now
        /\ source_lease_ExpiresAt l = pg_time (now + leaseDuration)
        /\ (forall t, pg_time t < source_lease_ExpiresAt l -> origin_String (source_lease_Origin l) = key ->
             source_authority db' l t)
        /\ (forall key', key' <> key -> source_state db' !! key' = source_state db !! key')
        /\ db' = with_crawl (set_source_state db (source_state db')) (set_runs (runs (crawl db')) (last_run (crawl db)))
        /\ (forall id r, runs (crawl db) !! id = Some r -> is_running r = false -> runs (crawl db') !! id = Some r)
        /\ (forall id r, runs (crawl db') !! id = Some r -> is_running r = true ->
             runs (crawl db) !! id = Some r /\ run_source r <> origin_String (source_lease_Origin l)
             /\ leased db' (run_source r) (pg_time now) = true)
  | (db', Ok None) => db' = db /\ forall key, ~ crawl_due db (pg_time now) interval key
  | (db', Err _) => db' = db
  end.
Proof.
  intros Hw Hi Hd Hp. unfold ClaimDiscoverySourceLease. rewrite Hw, Hp. cbn [negb].
  replace (interval <=? 0) with false by lia. replace (leaseDuration <=? 0) with false by lia. cbv zeta.
  pose proof (first_source_spec db (pg_time now) interval) as Hfirst.
  destruct (first_source _ _ _ _ _ _ _) as [key|]; [|by split]. destruct Hfirst as [Hdue Hmin].
  destruct (Origin.Parse key) as [source|] eqn:Hparse; [|done]. destruct (_ <=? pg_time now); [done|].
  set (db1 := set_source_state db _). destruct (res_bind _ _) as [db3|] eqn:Hcancel; [|done]. exists key.
  destruct (cancel_runs db1 _ _ _) as [db2|] eqn:H2; [|done]. cbn [res_bind] in Hcancel.
  apply cancel_runs_Ok in H2 as [H2 _], Hcancel as [H3 _].
  assert (Hss : source_state db3 = source_state db1) by (by subst db3 db2).
  cbn [source_lease_Origin source_lease_Generation source_lease_ClaimedAt source_lease_ExpiresAt].
  split_and!; try done.
  - intros t Ht Hkey. unfold source_authority. cbn [source_lease_Origin source_lease_Generation]. rewrite Hkey, Hss.
    cbn [db1 source_state set_source_state]. rewrite lookup_insert_eq. eexists _, _. split_and!; done.
  - intros key' Hne. rewrite Hss. cbn [db1 source_state set_source_state]. by rewrite lookup_insert_ne.
  - by subst db3 db2.
  - intros id r Hr Hrun. subst db3 db2. by do 2 (apply canceled_runs_kept; [|done]).
  - intros id r Hr Hrun. subst db3. apply canceled_runs_running in Hr as [Hr Hf2]; [|done].
    subst db2. apply canceled_runs_running in Hr as [Hr Hf1]; [|done]. split_and!; [done| |].
    + destruct (bytes_eqb_spec (run_source r) (origin_String source)); [done|done].
    + by apply negb_false_iff in Hf2.
Qed.
End Claim.

(** ** Renewal and completion *)

Section Fencing.
Variable delay : Z -> Z -> Z.

(** The row after completion. *)
Record source_completed (category : Category) (retryAfter now : Z) (s s' : SourceState) : Prop := {
  completed_attempt : last_attempted_at s' = Some (pg_time now);
  completed_released : source_expires_at s' = None /\ source_owner s' = None;
  completed_generation : source_generation s' = source_generation s;
  completed_flags : seeded s' = seeded s /\ automatically_discovered s' = automatically_discovered s
    /\ operator_blocked s' = operator_blocked s /\ crawl_blocked s' = crawl_blocked s;
  completed_retry :
    if Transient category
    then source_failures s' = source_failures s + 1 /\ source_failure_category s' = Some category
         /\ source_next_attempt_at s' = Some (pg_time (now + delay (source_failures s + 1) retryAfter))
    else source_failures s' = 0 /\ source_failure_category s' = None /\ source_next_attempt_at s' = None;
}.

Lemma complete_source_spec category retryAfter now s :
  source_completed category retryAfter now s (complete_source delay (pg_time now) category retryAfter now s).
Proof. split; cbn; try done. by destruct (Transient category). Qed.

Definition lost : error := wrap (errors_New ErrDiscoverySourceLeaseLost).

(** A renewal moves the expiry forward and nothing else. *)
Record source_renewed (l : CrawlSourceLease) (leaseDuration now : Z) (db db' : Database) (l' : CrawlSourceLease)
    : Prop := {
  renewed_lease : source_lease_Origin l' = source_lease_Origin l
    /\ source_lease_Generation l' = source_lease_Generation l;
  renewed_expiry : pg_time (now + leaseDuration) <= source_lease_ExpiresAt l';
  renewed_authority : forall t, source_authority db' l' t <-> pg_time t < source_lease_ExpiresAt l';
  renewed_longer : forall t, source_authority db l t -> source_authority db' l' t;
  renewed_only : exists s, source_state db !! origin_String (source_lease_Origin l) = Some s
    /\ db' = set_source_state db (<[origin_String (source_lease_Origin l) :=
               set_expiry (source_lease_ExpiresAt l') s]> (source_state db));
}.

Lemma RenewDiscoverySourceLease_spec db l leaseDuration now :
  validDiscoverySourceLease l = true -> 0 < leaseDuration -> source_authority db l now ->
  exists db' l', RenewDiscoverySourceLease db l leaseDuration now = (db', Ok l')
    /\ source_renewed l leaseDuration now db db' l'.
Proof.
  intros Hv Hd Ha. pose proof Ha as (s & e & Hs & Hg & He & Hlt).
  unfold RenewDiscoverySourceLease. rewrite Hv, Hs, (proj2 (source_held_spec _ _ _ _ Hs) Ha), He. cbn [negb default].
  replace (leaseDuration <=? 0) with false by lia. eexists _, _. split; [done|]. unfold time_Add.
  assert (Hauth : forall t, source_authority
      (set_source_state db (<[origin_String (source_lease_Origin l) :=
         set_expiry (Z.max e (pg_time (now + leaseDuration))) s]> (source_state db)))
      (mkSourceLease (source_lease_Origin l) (source_generation s) (default 0 (source_claimed_at s))
         (Z.max e (pg_time (now + leaseDuration)))) t
    <-> pg_time t < Z.max e (pg_time (now + leaseDuration))).
  { intros t. unfold source_authority. cbn [source_lease_Origin source_lease_Generation source_state set_source_state].
    rewrite lookup_insert_eq. split; [by intros (? & ? & [= <-] & _ & [= <-] & ?)|]. intros Ht. by eexists _, _. }
  split; cbn [source_lease_Origin source_lease_Generation source_lease_ExpiresAt]; [done|lia|done| |by exists s].
  intros t (s' & e' & Hs' & _ & He' & Ht). apply Hauth. rewrite Hs in Hs'. injection Hs' as <-.
  rewrite He in He'. injection He' as <-. lia.
Qed.

(** A completion releases the source and cancels its runs. *)
Record source_released (l : CrawlSourceLease) (category : Category) (retryAfter now : Z) (db db' : Database) : Prop := {
  released_row : exists s s', source_state db !! origin_String (source_lease_Origin l) = Some s
    /\ source_completed category retryAfter now s s'
    /\ source_state db' = <[origin_String (source_lease_Origin l) := s']> (source_state db);
  released_authority : forall t, ~ source_authority db' l t;
  released_runs : forall id r, runs (crawl db') !! id = Some r -> is_running r = true ->
    runs (crawl db) !! id = Some r /\ run_source r <> origin_String (source_lease_Origin l);
  released_only : db' = with_crawl (set_source_state db (source_state db'))
                          (set_runs (runs (crawl db')) (last_run (crawl db)));
}.

(** No crawl of the lease's source starts in the future. *)
Definition started_by (db : Database) (l : CrawlSourceLease) (now : Z) : Prop :=
  forall id r, runs (crawl db) !! id = Some r -> is_running r = true ->
    run_source r = origin_String (source_lease_Origin l) -> run_started_at r <= pg_time now.

(** A completion that succeeds had the authority and released the source. *)
Lemma completion_released db l category retryAfter now db' :
  CompleteDiscoverySourceLeaseRetry delay db l category retryAfter now = (db', None) ->
  source_authority db l now /\ source_released l category retryAfter now db db'.
Proof.
  unfold CompleteDiscoverySourceLeaseRetry. do 2 (case_head; [done|]). cbv zeta.
  destruct (source_state db !! _) as [s|] eqn:Hs; [|done].
  destruct (source_held s l (pg_time now)) eqn:Hh; [|done]. rewrite (source_held_spec db) in Hh by done.
  destruct (cancel_runs _ _ _ _) as [db2|] eqn:Hc; [|done]. intros [= <-]. split; [done|].
  apply cancel_runs_Ok in Hc as [-> _]. set (db1 := set_source_state db _). set (db2 := canceled_runs db1 _ _ _).
  assert (Hss : source_state db2 = <[origin_String (source_lease_Origin l) :=
    complete_source delay (pg_time now) category retryAfter now s]> (source_state db)) by done.
  split; [| | |done].
  - eexists s, _. split_and!; [done|apply complete_source_spec|done].
  - intros t (s' & e' & Hs' & _ & He' & _). rewrite Hss, lookup_insert_eq in Hs'. injection Hs' as <-. done.
  - intros id r Hrun Hrunning. apply canceled_runs_running in Hrun as [Hrun Hf]; [|done]. split; [done|].
    by destruct (bytes_eqb_spec (run_source r) (origin_String (source_lease_Origin l))).
Qed.

Lemma CompleteDiscoverySourceLeaseRetry_spec db l category retryAfter now :
  validDiscoverySourceLease l = true -> Retry.Valid category = true -> 0 <= retryAfter <= MaxDelay ->
  started_by db l now -> source_authority db l now ->
  exists db', CompleteDiscoverySourceLeaseRetry delay db l category retryAfter now = (db', None)
    /\ source_released l category retryAfter now db db'.
Proof.
  intros Hv Hc Hr Hst Ha. pose proof Ha as (s & e & Hs & _).
  assert (Hok : exists db', CompleteDiscoverySourceLeaseRetry delay db l category retryAfter now = (db', None)).
  { unfold CompleteDiscoverySourceLeaseRetry. rewrite Hv, Hc. cbn [negb orb].
    replace (retryAfter <? 0) with false by lia. replace (MaxDelay <? retryAfter) with false by lia. cbn [orb]. cbv zeta.
    rewrite Hs, (proj2 (source_held_spec _ _ _ _ Hs) Ha). unfold cancel_runs.
    rewrite (proj2 (cancelable_spec _ _ _)); [by eexists|]. intros id r Hrun Hon Hk.
    destruct (bytes_eqb_spec (run_source r) (origin_String (source_lease_Origin l))); [|done]. by apply (Hst id). }
  destruct Hok as [db' Hok]. exists db'. split; [done|]. by apply completion_released in Hok as [_ ?].
Qed.

(** A source lease is a fencing token. Renewal and completion take effect
    exactly while the lease is unexpired and of the current generation of its
    source; otherwise they report the loss and change nothing. A renewal never
    shortens the lease and changes only the expiry; a completion releases the
    source at once, records the attempt, counts a transient failure and sets
    the retry time of the retry policy (or clears both), cancels the runs it
    leaves behind, and changes no other source; after it the lease has no
    authority at any time. (A clock behind the start of a running crawl of the
    source is excluded: the database refuses to finish a run before its
    start.) *)
Theorem source_lease_fencing db l now :
  validDiscoverySourceLease l = true ->
  (forall leaseDuration, 0 < leaseDuration ->
     (source_authority db l now ->
        exists db' l', RenewDiscoverySourceLease db l leaseDuration now = (db', Ok l')
          /\ source_renewed l leaseDuration now db db' l')
     /\ (~ source_authority db l now -> RenewDiscoverySourceLease db l leaseDuration now = (db, Err lost)))
  /\ (forall category retryAfter, Retry.Valid category = true -> 0 <= retryAfter <= MaxDelay ->
     (started_by db l now -> source_authority db l now ->
        exists db', CompleteDiscoverySourceLeaseRetry delay db l category retryAfter now = (db', None)
          /\ source_released l category retryAfter now db db')
     /\ (~ source_authority db l now ->
        CompleteDiscoverySourceLeaseRetry delay db l category retryAfter now = (db, Some lost))).
Proof.
  intros Hv.
  assert (Hlost : ~ source_authority db l now ->
    match source_state db !! origin_String (source_lease_Origin l) with
    | Some s => source_held s l (pg_time now) = false | None => True end).
  { intros Hn. destruct (source_state db !! _) as [s|] eqn:Hs; [|done]. apply not_true_is_false.
    by rewrite source_held_spec. }
  split.
  - intros d Hd. split; [by apply RenewDiscoverySourceLease_spec|]. intros Hn%Hlost.
    unfold RenewDiscoverySourceLease. rewrite Hv. cbn [negb]. replace (d <=? 0) with false by lia. cbv zeta.
    destruct (source_state db !! _); [by rewrite Hn|done].
  - intros category retryAfter Hc Hr. split; [by apply CompleteDiscoverySourceLeaseRetry_spec|]. intros Hn%Hlost.
    unfold CompleteDiscoverySourceLeaseRetry. rewrite Hv, Hc. cbn [negb orb].
    replace (retryAfter <? 0) with false by lia. replace (MaxDelay <? retryAfter) with false by lia. cbn [orb]. cbv zeta.
    destruct (source_state db !! _); [by rewrite Hn|done].
Qed.
End Fencing.
