(* ===== verification/CrawlTelemetry.v ===== *)
(** * Crawl telemetry and retention ([internal/store/crawl_observability.go],
    [retention.go])

    Crawl runs and their page attempts, service heartbeats, and the two purges
    of old history. *)

From S2P Require Import Prelude GoText GoUrl GoErrors GoNetip GoJson Retry Origin Netguard.
From S2P Require Import RobotsMatch RobotsPolicy RobotsPolicyFacts RobotsHTTP Declaration Verifier.
From S2P Require Import Discovery Crawler Store Queue Exclusions DiscoveryStore Admission.

(** [Duration.Milliseconds] *)
Definition Milliseconds (d : Z) : Z := Z.quot d Millisecond.

(** ** Validation *)

Definition validTelemetryConfig (c : CrawlConfig) : bool :=
  (0 <=? MaxDepth c) && (0 <? MaxPages c) && (0 <? MaxPageBytes c) && (0 <=? RequestDelay c)
  && (0 <=? RedirectLimit c) && (0 <? PageTimeout c) && (0 <=? MaxAutomaticPromotionsPerRun c).

Definition automaticPromotionBudget (c : CrawlConfig) (automatic : AutomaticCrawlConfig) : Z :=
  if 0 <? MaxAutomaticPromotionsPerRun c then MaxAutomaticPromotionsPerRun c
  else maxAutomaticPromotionsPerRun automatic.

Definition validStatusCode (status : option Z) : bool :=
  match status with None => true | Some s => (100 <=? s) && (s <=? 599) end.

Definition storedFailureCategory (category : Category) : bytes :=
  if bool_decide (category = CategoryNone) then bs "none" else category_text category.

Definition validHeartbeat (h : ServiceHeartbeat) : bool :=
  let validService := bytes_eqb (heartbeat_Service h) (bs "discovery") || bytes_eqb (heartbeat_Service h) (bs "worker") in
  let validState :=
    existsb (bytes_eqb (heartbeat_State h))
      [bs "starting"; bs "idle"; bs "running"; bs "paused"; bs "stopping"; bs "failed"] in
  validService && validState && negb (bytes_eqb (TrimSpace (heartbeat_InstanceID h)) [])
  && (Z.of_nat (length (heartbeat_InstanceID h)) <=? 128) && (Z.of_nat (length (heartbeat_Message h)) <=? 256)
  && negb (time_IsZero (heartbeat_StartedAt h)) && negb (time_IsZero (heartbeat_UpdatedAt h))
  && negb (time_Before (heartbeat_UpdatedAt h) (heartbeat_StartedAt h)).

(** ** CHECK constraints that a valid argument can still violate *)

(** [^https?://[^...]+$] *)
Definition http_pattern (forbidden s : bytes) : bool :=
  existsb (fun scheme =>
    let rest := drop (length scheme) s in
    HasPrefix s scheme && negb (bytes_eqb rest []) && negb (ContainsAny rest forbidden)) [bs "http://"; bs "https://"].
(** [crawl_runs_source_origin_check], [crawl_service_heartbeats_origin_check] *)
Definition origin_pattern (s : bytes) : bool := http_pattern (bs "/?#") s.
(** [crawl_page_attempts_urls_check] *)
Definition page_url_pattern (s : bytes) : bool := http_pattern (bs "?#") s.

(** [.._origin_check], [.._build_version_check] and [.._build_commit_check] of
    [crawl_service_heartbeats] *)
Definition heartbeat_checks (h : ServiceHeartbeat) : bool :=
  (bytes_eqb (heartbeat_CurrentOrigin h) [] || origin_pattern (heartbeat_CurrentOrigin h))
  && (Z.of_nat (length (heartbeat_BuildVersion h)) <=? 128) && (Z.of_nat (length (heartbeat_BuildCommit h)) <=? 64).

Section Telemetry.
Context `{NetURL}.
Variable config : AutomaticCrawlConfig.
Variable make_interval : Z -> Z.

Definition safeStoredPageURL (raw : bytes) : bool :=
  match url_Parse raw with
  | None => false
  | Some parsed =>
      match User parsed with Some _ => false | None => true end
      && negb (bytes_eqb (Host parsed) [])
      && (bytes_eqb (Scheme parsed) http || bytes_eqb (Scheme parsed) https)
      && bytes_eqb (RawQuery parsed) [] && bytes_eqb (Fragment parsed) [] && negb (ForceQuery parsed)
  end.

(** The decision and the outcome of an attempt are always declared constants. *)
Definition validPageAttempt (a : PageAttempt) : bool :=
  (0 <? Sequence a) && (0 <=? Depth a) && negb (time_IsZero (StartedAt a)) && (0 <=? Duration a)
  && (0 <=? ResponseBytes a) && (0 <=? RedirectCount a) && (0 <=? InternalLinkCount a)
  && (0 <=? ExternalLinkCount a) && (0 <=? URLsFound a) && (0 <=? URLsEnqueued a)
  && (Z.of_nat (length (attempt_ContentType a)) <=? 256)
  && safeStoredPageURL (RequestedURL a) && safeStoredPageURL (FinalURL a)
  && validStatusCode (attempt_StatusCode a) && Retry.Valid (attempt_FailureCategory a).

(** ** Runs *)

Definition new_run (source : bytes) (c : CrawlConfig) (now : Z) : RunRow :=
  mkRun source now None None []
    (mkCrawlConfig (MaxDepth c) (MaxPages c) (MaxPageBytes c) (Milliseconds (RequestDelay c)) (RedirectLimit c)
       (Milliseconds (PageTimeout c)) (MaxAutomaticPromotionsPerRun c))
    (automaticPromotionBudget c config) 0 new_summary 0 0.

Definition BeginCrawl (db : Database) (source : Origin) (c : CrawlConfig) (now : Z) : Database * res error Z :=
  if bytes_eqb (origin_String source) [] || negb (validTelemetryConfig c)
  then (db, Err (errors_New errInvalidCrawlRun))
  (* [crawl_runs_source_origin_check] and [crawl_runs_limits_check] *)
  else if negb (origin_pattern (origin_String source)) || (Milliseconds (PageTimeout c) <=? 0) then (db, Err (wrap (errors_New (foreign 16))))
  else
    let id := last_run (crawl db) + 1 in
    (with_crawl db (fun t => set_runs (<[id := new_run (origin_String source) c (pg_time now)]> (runs t)) id t), Ok id).

(** The row of an attempt: times in microseconds, durations in milliseconds. *)
Definition stored_attempt (a : PageAttempt) : PageAttempt :=
  mkPageAttempt (Sequence a) (RequestedURL a) (FinalURL a) (Depth a) (pg_time (StartedAt a))
    (Milliseconds (Duration a)) (attempt_StatusCode a) (ResponseBytes a) (attempt_ContentType a) (RedirectCount a)
    (attempt_Robots a) (InternalLinkCount a) (ExternalLinkCount a) (attempt_Outcome a) (attempt_FailureCategory a)
    (URLsFound a) (URLsEnqueued a).

(** A second row with the run's sequence number violates the primary key. *)
Definition RecordPageAttempt (db : Database) (runID : Z) (a : PageAttempt) : Database * option error :=
  if (runID <=? 0) || negb (validPageAttempt a) then (db, Some (errors_New errInvalidPageAttempt))
  else if negb (active_run db runID) then (db, Some (errors_New errUnknownCrawlRun))
  else if bool_decide (is_Some (page_attempts_of (crawl db) !! (runID, Sequence a)))
  then (db, Some (wrap (errors_New (foreign 5))))
  (* [crawl_page_attempts_urls_check] *)
  else if negb (page_url_pattern (RequestedURL a) && page_url_pattern (FinalURL a))
  then (db, Some (wrap (errors_New (foreign 18))))
  else (with_crawl db (fun t => set_page_attempts
          (<[(runID, Sequence a) := stored_attempt a]> (page_attempts_of t)) t), None).

Definition attempts_of (db : Database) (runID : Z) : list PageAttempt :=
  map snd (List.filter (fun '((run, _), _) => run =? runID) (map_to_list (page_attempts_of (crawl db)))).

Definition is_blocked_page (a : PageAttempt) : bool :=
  match attempt_Outcome a with PageRobotsDenied => true | _ => false end.
Definition is_failed_page (a : PageAttempt) : bool :=
  match attempt_Outcome a with PageComplete | PageRedirected | PageRobotsDenied => false | _ => true end.
Definition count_pages (f : PageAttempt -> bool) (l : list PageAttempt) : Z := Z.of_nat (length (List.filter f l)).
Definition sum_pages (f : PageAttempt -> Z) (l : list PageAttempt) : Z := fold_right (fun a n => f a + n) 0 l.

Definition finish_run (db : Database) (runID : Z) (result : CrawlResult) (outcome : CrawlRunOutcome)
    (stopReason : bytes) (remaining now : Z) (r : RunRow) : RunRow :=
  let pages := attempts_of db runID in
  mkRun (run_source r) (run_started_at r) (Some now) (Some outcome) stopReason (run_limits r)
    (max_automatic_promotions r) (automatic_promotions r)
    (mkSummary (PagesAttempted result) (PagesParsed result) (CandidatesDiscovered result) (BudgetExhausted result)
       (storedFailureCategory (crawl_FailureCategory result)) (count_pages is_blocked_page pages)
       (count_pages is_failed_page pages) (sum_pages URLsFound pages) (sum_pages URLsEnqueued pages) remaining)
    (promoted_from db runID) (Z.max (originally_discovered db runID - promoted_from db runID) 0).

Definition FinishCrawlSummary (db : Database) (runID : Z) (result : CrawlResult) (outcome : CrawlRunOutcome)
    (stopReason : bytes) (frontierRemaining now : Z) : Database * option error :=
  if (runID <=? 0) || (128 <? Z.of_nat (length stopReason)) || (PagesAttempted result <? 0)
     || (PagesParsed result <? 0) || (CandidatesDiscovered result <? 0) || (frontierRemaining <? 0)
  then (db, Some (errors_New errInvalidCrawlRun))
  else
    match runs (crawl db) !! runID with
    | Some run =>
        if bool_decide (is_Some (run_finished_at run)) then (db, Some (errors_New errUnknownCrawlRun))
        (* [crawl_runs_time_order_check] *)
        else if pg_time now <? run_started_at run then (db, Some (wrap (errors_New (foreign 14))))
        else (update_run db runID (finish_run db runID result outcome stopReason frontierRemaining (pg_time now)), None)
    | None => (db, Some (errors_New errUnknownCrawlRun))
    end.

Definition FinishCrawl (db : Database) (runID : Z) (result : CrawlResult) (outcome : CrawlRunOutcome)
    (stopReason : bytes) (now : Z) : Database * option error :=
  FinishCrawlSummary db runID result outcome stopReason 0 now.

(** ** Retention *)

Definition expired (cutoff : Z) (r : RunRow) : bool :=
  match run_finished_at r with Some t => t <? cutoff | None => false end.

(** Deleting runs also deletes the rows that refer to them. *)
Definition purge_runs (db : Database) (gone : gset Z) : Database :=
  with_crawl db (fun t =>
    mkCrawlTables (edges t) (filter (fun '(id, _) => id ∉ gone) (runs t)) (last_run t)
      (filter (fun '((id, _), _) => id ∉ gone) (page_attempts_of t))
      (filter (fun '(id, _, _) => id ∉ gone) (run_candidates t))
      (filter (fun '((id, _), b) => (id ∉ gone) /\ (discovered_run_id b ∉ gone)) (batches t))
      (admissions t) (avoid_rules t) (discovery_paused t) (automatic_expansion_paused t) (control_updated_at t)
      (heartbeats t) (audits t)).

Definition PurgeCrawlTelemetry (db : Database) (retention now : Z) : Database * res error Z :=
  if retention <=? 0 then (db, Err (errors_New errInvalidRetention))
  else
    let gone := dom (filter (fun '(_, r) => expired (pg_time now - make_interval retention) r = true) (runs (crawl db))) in
    (purge_runs db gone, Ok (Z.of_nat (size gone))).

(** [protected_observations], by the position that stands for the id. *)
Definition indexed (rows : list ObservationRow) : list (nat * ObservationRow) := imap pair rows.
Definition newest_indexed (rows : list (nat * ObservationRow)) : option (nat * ObservationRow) :=
  fold_left (fun best row =>
    match best with
    | Some b => if obs_at (snd b) <=? obs_at (snd row) then Some row else best
    | None => Some row
    end) rows None.
Definition protects (rows : list (nat * ObservationRow)) (f : ObservationRow -> bool) (i : nat) (key : bytes) : bool :=
  match newest_indexed (List.filter (fun r => bytes_eqb (obs_origin (snd r)) key && f (snd r)) rows) with
  | Some (j, _) => (i =? j)%nat
  | None => false
  end.
Definition protected (db : Database) (i : nat) (row : ObservationRow) : bool :=
  bool_decide (is_Some (origins db !! obs_origin row))
  && (protects (indexed (observations db)) (fun _ => true) i (obs_origin row)
      || protects (indexed (observations db)) (fun r => authoritative (obs_outcome r)) i (obs_origin row)).

Definition retained_observations (db : Database) (cutoff : Z) : list ObservationRow :=
  map snd (List.filter (fun '(i, row) => negb (obs_at row <? cutoff) || protected db i row)
    (indexed (observations db))).

(** The queue's event log, which only reports read, is not a table here. *)
Definition PurgeOperationalHistory (db : Database) (retention now : Z) : Database * option error :=
  if retention <=? 0 then (db, Some (errors_New errInvalidOperationalHistoryRetention))
  else
    let cutoff := pg_time now - make_interval retention in
    let db' := set_observations db (retained_observations db cutoff) in
    (with_crawl db' (fun t => set_heartbeats
       (filter (fun '(_, h) => cutoff <= heartbeat_UpdatedAt h) (heartbeats t)) t), None).

(** ** Control and heartbeats *)

(** [CrawlControl] *)
Record CrawlControl : Type := mkCrawlControl {
  DiscoveryPausedFlag : bool;
  VerificationPausedFlag : bool;
  ControlUpdatedAt : Z;
}.
Definition query_CrawlControl (db : Database) : CrawlControl :=
  mkCrawlControl (discovery_paused (crawl db)) (verification_paused db) (control_updated_at (crawl db)).
Definition DiscoveryPaused (db : Database) : bool := DiscoveryPausedFlag (query_CrawlControl db).

(** The generation and the time of an update are not older than the row's. *)
Definition newer_heartbeat (stored h : ServiceHeartbeat) : bool :=
  (heartbeat_StartedAt stored <? heartbeat_StartedAt h)
  || (heartbeat_StartedAt h =? heartbeat_StartedAt stored)
     && (heartbeat_UpdatedAt stored <=? heartbeat_UpdatedAt h).

Definition stored_heartbeat (h : ServiceHeartbeat) : ServiceHeartbeat :=
  mkHeartbeat (heartbeat_Service h) (heartbeat_InstanceID h) (heartbeat_State h) (heartbeat_CurrentOrigin h)
    (heartbeat_Message h) (heartbeat_BuildVersion h) (heartbeat_BuildCommit h)
    (pg_time (heartbeat_StartedAt h)) (pg_time (heartbeat_UpdatedAt h)).

Definition UpsertServiceHeartbeat (db : Database) (h : ServiceHeartbeat) : Database * option error :=
  if negb (validHeartbeat h) then (db, Some (errors_New errInvalidServiceState))
  (* checked on the proposed row, before the conflict *)
  else if negb (heartbeat_checks h) then (db, Some (wrap (errors_New (foreign 19))))
  else
    let key := (heartbeat_Service h, heartbeat_InstanceID h) in
    let row := stored_heartbeat h in
    match heartbeats (crawl db) !! key with
    | Some stored =>
        if newer_heartbeat stored row
        then (with_crawl db (fun t => set_heartbeats (<[key := row]> (heartbeats t)) t), None)
        else (db, None)
    | None => (with_crawl db (fun t => set_heartbeats (<[key := row]> (heartbeats t)) t), None)
    end.
End Telemetry.
