(* ===== verification/ControlStore.v ===== *)
(** * Operator control of the store ([internal/store/control.go])

    The mutations an operator may make, each appended to the audit log in the
    same transaction, and the audit of rejected attempts. *)

From S2P Require Import Prelude GoText GoUrl GoErrors GoNetip GoJson Retry Origin Netguard.
From S2P Require Import RobotsMatch RobotsPolicy RobotsPolicyFacts RobotsHTTP Declaration Verifier.
From S2P Require Import Discovery Store Queue Exclusions DiscoveryStore.

Definition ResultSuccess : bytes := bs "success".
Definition ResultRejected : bytes := bs "rejected".

Definition controlAuditMatches (a : Audit) (action target : bytes) : bool :=
  bytes_eqb (audit_Action a) action && bytes_eqb (audit_Target a) target.

Definition octets_between (lo hi : Z) (s : bytes) : bool :=
  (lo <=? Z.of_nat (length s)) && (Z.of_nat (length s) <=? hi).

(** A value of type [text]: UTF-8 without the zero byte. *)
Definition pg_text (s : bytes) : bool := utf8_Valid s && negb (Contains s "000").

(** The CHECK constraints of [operator_audit_events], on values of type [text]. *)
Definition audit_ok (a : Audit) : bool :=
  forallb pg_text [audit_Action a; audit_Target a; audit_Caller a; audit_Actor a; audit_Reason a]
  && octets_between 1 128 (audit_Action a) && octets_between 0 2048 (audit_Target a)
  && octets_between 1 256 (audit_Caller a) && octets_between 1 128 (audit_Actor a)
  && (bytes_eqb (audit_Result a) ResultSuccess || bytes_eqb (audit_Result a) ResultRejected)
  && octets_between 0 512 (audit_Reason a).

Definition stored_audit (a : Audit) : Audit :=
  mkAudit (pg_time (OccurredAt a)) (audit_Action a) (audit_Target a) (audit_Caller a) (audit_Actor a)
    (audit_Result a) (audit_Reason a).

Definition insertControlAudit (db : Database) (a : Audit) : res error Database :=
  if audit_ok a then Ok (with_crawl db (fun t => set_audits (audits t ++ [stored_audit a]) t))
  else Err (errors_New (foreign 6)).

(** [mutate]: the mutation and its audit commit together or not at all. *)
Definition mutate (db : Database) (a : Audit) (mutation : Database -> Database) : Database * option error :=
  if negb (bytes_eqb (audit_Result a) ResultSuccess) then (db, Some (errors_New (foreign 7)))
  else
    match insertControlAudit (mutation db) a with
    | Ok db' => (db', None)
    | Err err => (db, Some (wrap err))
    end.

Definition set_processor_paused (discovery : bool) (paused : bool) (now : Z) (db : Database) : Database :=
  if discovery then
    with_crawl db (fun t => set_control paused (automatic_expansion_paused t) (pg_time now) t)
  else
    with_crawl (set_verification_paused db paused)
      (fun t => set_control (discovery_paused t) (automatic_expansion_paused t) (pg_time now) t).

Section Control.
Context `{NetURL} `{NetIP} `{IDNA} `{Unicode}.
Variable text_leb : bytes -> bytes -> bool.
(** The control store's configuration holds only the configured exclusions. *)
Variable excludedHosts : bytes.

Definition control_config : AutomaticCrawlConfig := mkAutomatic false 0 0 excludedHosts.

Definition SetProcessorPaused (db : Database) (processor : bytes) (paused : bool) (a : Audit) (now : Z)
    : Database * option error :=
  let isDiscovery := bytes_eqb processor (bs "discovery") in
  if negb isDiscovery && negb (bytes_eqb processor (bs "verification"))
  then (db, Some (errors_New errInvalidServiceState))
  else if negb (controlAuditMatches a (if paused then bs "processor.pause" else bs "processor.resume") processor)
  then (db, Some (errors_New (foreign 8)))
  else mutate db a (set_processor_paused isDiscovery paused now).

Definition SetAutomaticExpansionPaused (db : Database) (paused : bool) (a : Audit) (now : Z)
    : Database * option error :=
  if negb (controlAuditMatches a
             (if paused then bs "automatic-expansion.pause" else bs "automatic-expansion.resume")
             (bs "automatic-expansion"))
  then (db, Some (errors_New (foreign 9)))
  else mutate db a (fun db => with_crawl db (fun t => set_control (discovery_paused t) paused (pg_time now) t)).

(** The pattern of a domain rule, if it is valid. *)
Definition domain_rule (pattern : bytes) : option bytes :=
  let pattern := ToLower (TrimSpace pattern) in
  if bytes_eqb pattern [] || Contains pattern "," || negb (validExcludedHostSuffixes pattern)
  then None else Some pattern.

Definition set_rules (f : gset bytes -> gset bytes) (db : Database) : Database :=
  let db := with_crawl db (fun t => set_avoid_rules (f (avoid_rules t)) t) in
  fst (recomputeAutomaticCrawlBlocksTransaction text_leb control_config db).

Definition AddDomainAvoid (db : Database) (pattern : bytes) (a : Audit) : Database * option error :=
  match domain_rule pattern with
  | None => (db, Some (errors_New (foreign 10)))
  | Some pattern =>
      if negb (controlAuditMatches a (bs "domain-avoid.add") pattern) then (db, Some (errors_New (foreign 11)))
      else mutate db a (set_rules (fun rules => {[ pattern ]} ∪ rules))
  end.

Definition RemoveDomainAvoid (db : Database) (pattern : bytes) (a : Audit) : Database * option error :=
  match domain_rule pattern with
  | None => (db, Some (errors_New (foreign 10)))
  | Some pattern =>
      if negb (controlAuditMatches a (bs "domain-avoid.remove") pattern) then (db, Some (errors_New (foreign 11)))
      else mutate db a (set_rules (fun rules => rules ∖ {[ pattern ]}))
  end.

Definition SetOriginBlocked (db : Database) (rawOrigin : bytes) (blocked : bool) (a : Audit)
    : Database * option error :=
  match Origin.Parse rawOrigin with
  | Err _ => (db, Some (errors_New store_errInvalidOrigin))
  | Ok source =>
      if negb (bytes_eqb (origin_String source) rawOrigin) then (db, Some (errors_New store_errInvalidOrigin))
      else if negb (controlAuditMatches a (if blocked then bs "origin.block" else bs "origin.allow") rawOrigin)
      then (db, Some (errors_New (foreign 12)))
      else mutate db a (fun db => setExactCrawlBlockTransaction text_leb control_config db source blocked)
  end.

Definition RecordRejected (db : Database) (a : Audit) : Database * option error :=
  if negb (bytes_eqb (audit_Result a) ResultRejected) then (db, Some (errors_New (foreign 13)))
  else
    match insertControlAudit db a with
    | Ok db' => (db', None)
    | Err err => (db, Some (wrap err))
    end.
End Control.
