(* ===== verification/DiscoverySchema.v ===== *)
(** * The schema of discovery ([internal/store/migrations])

    The CHECK and REFERENCES constraints of the discovery tables, table by
    table, and that each operation on those tables keeps them. *)

From S2P Require Import Prelude GoText GoUrl GoErrors GoNetip GoJson Retry Origin Netguard.
From S2P Require Import RobotsMatch RobotsPolicy RobotsPolicyFacts RobotsHTTP Declaration Verifier.
From S2P Require Import Discovery Crawler Store Queue QueueFacts Exclusions DiscoveryStore.
From S2P Require Import Admission DiscoveryLease CrawlTelemetry ControlStore.

#[local] Set Warnings "-clear-no-such-hyp".

(** ** The constraints *)

(** The [.._retry_state_check] of sources, candidates and batches. *)
Definition retry_ok (failures : Z) (category : option Category) (next : option Z) : Prop :=
  failures = 0 /\ category = None /\ next = None
  \/ 0 < failures /\ (exists c, category = Some c /\ Transient c = true) /\ is_Some next.

Record source_row_ok (key : bytes) (s : SourceState) : Prop := {
  source_key : key <> [];
  source_lease : source_generation s = 0 /\ source_claimed_at s = None /\ source_expires_at s = None
    \/ 0 < source_generation s /\ exists claimed, source_claimed_at s = Some claimed
         /\ forall expires, source_expires_at s = Some expires -> claimed < expires;
  source_owner_ok : forall o, source_owner s = Some o -> is_Some (source_expires_at s) /\ validQueueWorkerID o = true;
  source_retry : retry_ok (source_failures s) (source_failure_category s) (source_next_attempt_at s);
  source_block : operator_blocked s = true -> crawl_blocked s = true;
}.

(** The rows of sources, and that every seed is scheduled. *)
Record sources_ok (rows : gmap bytes SourceState) (schedule : gset bytes) : Prop := {
  sources_rows : map_Forall source_row_ok rows;
  sources_schedule : forall key, key ∈ schedule -> key <> [];
  sources_seeds : forall key s, rows !! key = Some s -> seeded s = true -> key ∈ schedule;
}.

Record candidate_row_ok (key : bytes) (c : CandidateRow) : Prop := {
  candidate_key_ok : key <> [];
  candidate_order : first_discovered_at c <= last_discovered_at c;
  candidate_retry : retry_ok (candidate_failures c) (candidate_failure_category c) (candidate_next_attempt_at c);
}.

Definition edge_ok (cands : gmap bytes CandidateRow) (edge : bytes * bytes * Kind) (times : Z * Z) : Prop :=
  let '(source, key, _) := edge in
  source <> [] /\ source <> key /\ is_Some (cands !! key) /\ fst times <= snd times.

Record evidence_ok (cands : gmap bytes CandidateRow) (es : gmap (bytes * bytes * Kind) (Z * Z)) : Prop := {
  evidence_rows : map_Forall candidate_row_ok cands;
  evidence_edges : map_Forall (edge_ok cands) es;
}.

Record run_row_ok (r : RunRow) : Prop := {
  run_source_ok : origin_pattern (run_source r) = true;
  run_order : forall t, run_finished_at r = Some t -> run_started_at r <= t;
  run_state : run_status r = None <-> run_finished_at r = None;
  run_budget : 0 < max_automatic_promotions r /\ 0 <= automatic_promotions r <= max_automatic_promotions r;
  run_limits_ok : 0 <= MaxDepth (run_limits r) /\ 0 < MaxPages (run_limits r) /\ 0 < MaxPageBytes (run_limits r)
    /\ 0 <= RequestDelay (run_limits r) /\ 0 <= RedirectLimit (run_limits r) /\ 0 < PageTimeout (run_limits r);
  run_counts : 0 <= pages_attempted (run_summary r) /\ 0 <= pages_parsed (run_summary r)
    /\ 0 <= candidates_discovered (run_summary r) /\ 0 <= pages_blocked (run_summary r)
    /\ 0 <= pages_failed (run_summary r) /\ 0 <= urls_found (run_summary r) /\ 0 <= urls_enqueued (run_summary r)
    /\ 0 <= frontier_remaining (run_summary r);
  run_promotions : 0 <= promotions_admitted r /\ 0 <= promotions_deferred r;
}.

Record page_row_ok (a : PageAttempt) : Prop := {
  page_counts : 0 <= Depth a /\ 0 <= Duration a /\ 0 <= ResponseBytes a /\ 0 <= RedirectCount a
    /\ 0 <= InternalLinkCount a /\ 0 <= ExternalLinkCount a /\ 0 <= URLsFound a /\ 0 <= URLsEnqueued a;
  page_status : forall s, attempt_StatusCode a = Some s -> 100 <= s <= 599;
  page_urls : page_url_pattern (RequestedURL a) = true /\ page_url_pattern (FinalURL a) = true;
}.

Record runs_ok (rs : gmap Z RunRow) (last : Z) (pages : gmap (Z * Z) PageAttempt) : Prop := {
  runs_last : 0 <= last;
  runs_rows : map_Forall (fun id r => 0 < id <= last /\ run_row_ok r) rs;
  runs_pages : map_Forall (fun '(id, sequence) a => is_Some (rs !! id) /\ 0 < sequence /\ page_row_ok a) pages;
}.

(** The outcomes that judge a candidate for good. *)
Definition durable (o : AdmissionOutcome) : bool :=
  match o with network_rejected | promoted | existing => true | _ => false end.

Definition batch_row_ok (b : BatchRow) : Prop :=
  retry_ok (batch_failures b) (batch_failure_category b) (batch_next_attempt_at b)
  /\ (batch_outcome b = retry_deferred <-> 0 < batch_failures b).

Definition run_batches (m : gmap (Z * bytes) BatchRow) (id : Z) : gmap (Z * bytes) BatchRow :=
  filter (fun x => fst (fst x) = id) m.

(** The references between runs, candidates and batches; a judged batch has a
    durable outcome; no run's batch exceeds its budget. *)
Record admission_ok (cands : gmap bytes CandidateRow) (rs : gmap Z RunRow) (rc : gset (Z * bytes * Kind))
    (bs : gmap (Z * bytes) BatchRow) (adm : gmap bytes (AdmissionOutcome * Z)) : Prop := {
  adm_discovered : forall id key kind, (id, key, kind) ∈ rc -> is_Some (rs !! id) /\ is_Some (cands !! key);
  adm_batches : forall id key b, bs !! (id, key) = Some b ->
    is_Some (rs !! id) /\ is_Some (cands !! key) /\ is_Some (rs !! discovered_run_id b) /\ batch_row_ok b
    /\ (durable (batch_outcome b) = true -> is_Some (adm !! key));
  adm_durable : forall key o t, adm !! key = Some (o, t) -> is_Some (cands !! key) /\ durable o = true;
  adm_sizes : forall id r, rs !! id = Some r -> Z.of_nat (size (run_batches bs id)) <= max_automatic_promotions r;
}.

Record heartbeat_ok (h : ServiceHeartbeat) : Prop := {
  heartbeat_order : heartbeat_StartedAt h <= heartbeat_UpdatedAt h;
  heartbeat_service : heartbeat_Service h = bs "discovery" \/ heartbeat_Service h = bs "worker";
  heartbeat_state : heartbeat_State h
    ∈ [bs "starting"; bs "idle"; bs "running"; bs "paused"; bs "stopping"; bs "failed"];
  heartbeat_origin : heartbeat_CurrentOrigin h = [] \/ origin_pattern (heartbeat_CurrentOrigin h) = true;
  heartbeat_build : Z.of_nat (length (heartbeat_BuildVersion h)) <= 128 /\ Z.of_nat (length (heartbeat_BuildCommit h)) <= 64;
}.

Record services_ok (hb : gmap (bytes * bytes) ServiceHeartbeat) (log : list Audit) : Prop := {
  services_heartbeats : map_Forall (fun '(service, instance) h =>
    heartbeat_Service h = service /\ heartbeat_InstanceID h = instance /\ heartbeat_ok h) hb;
  services_audits : Forall (fun a => audit_ok a = true) log;
}.

(** [verification_observations_semantics_check] *)
Definition observation_ok (row : ObservationRow) : Prop :=
  match obs_declaration row with
  | Some (version, _) => obs_outcome row = OutcomeValid /\ version = 1
  | None => obs_outcome row <> OutcomeValid
  end.

(** [origins_initial_participation_check] and
    [origins_latest_declaration_check_check] *)
Record origin_row_ok (row : OriginRow) : Prop := {
  origin_participation : match first_participated_at row, initial_declaration row with
    | None, None => True
    | Some t, Some (version, _) => version = 1 /\ exists latest, latest_check_at row = Some latest /\ t <= latest
    | _, _ => False
    end;
  origin_latest : match latest_check_at row, latest_check_outcome row with
    | None, None => True
    | Some _, Some o => o = OutcomeValid -> is_Some (first_participated_at row)
    | _, _ => False
    end;
}.

(** The references to [origins], and [verification_reprobe_state_miss_count_check] *)
Record verified_ok (rows : gmap bytes OriginRow) (obs : list ObservationRow) (misses : gmap bytes Z) : Prop := {
  verified_origins : map_Forall (fun _ => origin_row_ok) rows;
  verified_observations : forall row, row ∈ obs -> observation_ok row /\ is_Some (rows !! obs_origin row);
  verified_misses : map_Forall (fun key n => 0 <= n /\ is_Some (rows !! key)) misses;
}.

(** [crawl_domain_avoid_rules_pattern_check], but for the database's [lower] *)
Definition rule_ok (pattern : bytes) : Prop :=
  pattern <> [] /\ ContainsAny pattern (bs "/:@?#_%\") = false /\ HasPrefix pattern (bs ".") = false
  /\ HasSuffix pattern (bs ".") = false.

Record schema (db : Database) : Prop := {
  schema_sources : sources_ok (source_state db) (source_schedule db);
  schema_evidence : evidence_ok (candidates db) (edges (crawl db));
  schema_runs : runs_ok (runs (crawl db)) (last_run (crawl db)) (page_attempts_of (crawl db));
  schema_admission : admission_ok (candidates db) (runs (crawl db)) (run_candidates (crawl db)) (batches (crawl db))
    (admissions (crawl db));
  schema_services : services_ok (heartbeats (crawl db)) (audits (crawl db));
  schema_queue : constraints db;
  (** [verification_queue_origin_check] *)
  schema_queue_keys : forall key, is_Some (queue db !! key) -> key <> [];
  schema_verified : verified_ok (origins db) (observations db) (reprobe_state db);
  schema_rules : forall pattern, pattern ∈ avoid_rules (crawl db) -> rule_ok pattern;
}.

Lemma empty_schema : schema empty_database.
Proof.
  split; [by split..|done| | |]; cbn.
  - intros key. rewrite lookup_empty. by intros [? [=]].
  - split; [done| |done]. by intros row ?%elem_of_nil.
  - by intros pattern ?%elem_of_empty.
Qed.

(** ** Sources *)

Lemma new_source_ok key : key <> [] -> source_row_ok key new_source.
Proof. intros Hk. split; cbn; [done|by left|done|by left|done]. Qed.

(** An update that keeps the lease and the retry state. *)
Definition keeps_lease (f : SourceState -> SourceState) : Prop :=
  forall s, source_generation (f s) = source_generation s /\ source_claimed_at (f s) = source_claimed_at s
    /\ source_expires_at (f s) = source_expires_at s /\ source_owner (f s) = source_owner s
    /\ source_failures (f s) = source_failures s /\ source_failure_category (f s) = source_failure_category s
    /\ source_next_attempt_at (f s) = source_next_attempt_at s.

Lemma keeps_lease_ok f key s : keeps_lease f ->
  (operator_blocked (f s) = true -> crawl_blocked (f s) = true) -> source_row_ok key s -> source_row_ok key (f s).
Proof.
  intros Hf Hb [Hk Hl Ho Hr _]. destruct (Hf s) as (Hg & Hc & He & Hw & Hfl & Hcat & Hn).
  split; rewrite ?Hg, ?Hc, ?He, ?Hw, ?Hfl, ?Hcat, ?Hn; done.
Qed.

Lemma source_default_ok rows schedule key : sources_ok rows schedule -> key <> [] ->
  source_row_ok key (default new_source (rows !! key)).
Proof.
  intros Hs Hk. destruct (rows !! key) as [s|] eqn:E; [by apply (sources_rows _ _ Hs)|by apply new_source_ok].
Qed.

(** Replacing a row by one that is not more of a seed than the schedule says. *)
Lemma sources_insert rows schedule key s : sources_ok rows schedule ->
  source_row_ok key s -> (seeded s = true -> key ∈ schedule) -> sources_ok (<[key := s]> rows) schedule.
Proof.
  intros [Hr Hs Hseed] Hok Hin. split; [by apply map_Forall_insert_2|done|]. intros k t.
  destruct (decide (k = key)) as [->|Hne]; [rewrite lookup_insert_eq; by intros [= <-]|].
  rewrite lookup_insert_ne by done. apply Hseed.
Qed.

Lemma sources_schedule_grow rows schedule schedule' :
  (forall key, key ∈ schedule -> key ∈ schedule') -> (forall key, key ∈ schedule' -> key <> []) ->
  sources_ok rows schedule -> sources_ok rows schedule'.
Proof. intros Hsub Hne [Hr _ Hseed]. split; [done|done|]. intros key s Hk Hs. by eapply Hsub, Hseed. Qed.

(** A row that keeps being a seed. *)
Lemma sources_update rows schedule key (f : SourceState -> SourceState) : sources_ok rows schedule -> key <> [] ->
  keeps_lease f -> (forall s, seeded (f s) = true -> seeded s = true) ->
  (forall s, source_row_ok key s -> operator_blocked (f s) = true -> crawl_blocked (f s) = true) ->
  sources_ok (<[key := f (default new_source (rows !! key))]> rows) schedule.
Proof.
  intros Hs Hk Hf Hseed Hb. pose proof (source_default_ok _ _ _ Hs Hk) as Hok. apply sources_insert; [done| |].
  - apply keeps_lease_ok; auto.
  - intros Hsd%Hseed. destruct (rows !! key) as [s|] eqn:E; [|done]. by eapply (sources_seeds _ _ Hs).
Qed.

Lemma schema_set_sources db rows schedule : schema db -> sources_ok rows schedule ->
  schema (set_source_schedule (set_source_state db rows) schedule).
Proof. by intros [] ?. Qed.

Lemma schema_source_rows db rows : schema db -> sources_ok rows (source_schedule db) -> schema (set_source_state db rows).
Proof. by intros [] ?. Qed.

Lemma schema_upsert db key f : schema db -> key <> [] -> keeps_lease f -> (forall s, seeded (f s) = true -> seeded s = true) ->
  (forall s, source_row_ok key s -> operator_blocked (f s) = true -> crawl_blocked (f s) = true) ->
  schema (upsert_source db key f).
Proof. intros Hs ? ? ? ?. apply schema_source_rows; [done|]. by apply sources_update; [apply Hs|..]. Qed.

Section Policy.
Context `{NetURL} `{NetIP} `{IDNA} `{Unicode}.
Variable text_leb : bytes -> bytes -> bool.
Variable config : AutomaticCrawlConfig.

Lemma exact_block_schema db source blocked : schema db -> origin_String source <> [] ->
  schema (setExactCrawlBlockTransaction text_leb config db source blocked).
Proof.
  intros Hs Hk. unfold setExactCrawlBlockTransaction. cbv zeta. apply schema_upsert; [|done|done|done|].
  - by apply schema_upsert.
  - intros s _. cbn. by intros ->.
Qed.

Lemma apply_policy_ok suffixes key s : source_row_ok key s -> source_row_ok key (apply_policy suffixes key s).
Proof.
  intros Hok. unfold apply_policy. destruct (governed s); [|done].
  apply (keeps_lease_ok (set_blocked (operator_blocked s) (policy_block suffixes key s))); [done| |done].
  cbn. unfold policy_block. by intros ->.
Qed.

Lemma recompute_schema db : schema db -> schema (fst (recomputeAutomaticCrawlBlocksTransaction text_leb config db)).
Proof.
  intros Hs. pose proof (recompute_correct text_leb config db) as Hr.
  destruct (recomputeAutomaticCrawlBlocksTransaction text_leb config db) as [db' n]. cbn [fst].
  destruct (schema_sources _ Hs) as [Hrows Hsched Hseed].
  destruct Hr as (-> & Hst & _); [intros key s Hk; by apply (source_block key), Hrows|].
  apply schema_source_rows; [done|]. split; [|done|].
  - intros key s. rewrite Hst. destruct (source_state db !! key) as [s0|] eqn:E; [|done]. intros [= <-].
    by apply apply_policy_ok, Hrows.
  - intros key s. rewrite Hst. destruct (source_state db !! key) as [s0|] eqn:E; [|done]. intros [= <-] Hsd.
    apply (Hseed key s0 E). unfold apply_policy in Hsd. by destruct (governed s0).
Qed.

Lemma reconcile_schema db : schema db -> schema (fst (ReconcileAutomaticCrawlPolicy text_leb config db)).
Proof. intros Hs. unfold ReconcileAutomaticCrawlPolicy. case_head; [done|by apply recompute_schema]. Qed.
End Policy.

Lemma add_seed_schema db source : schema db -> schema (fst (AddCrawlSeed db source)).
Proof.
  intros Hs. unfold AddCrawlSeed. cbv zeta. destruct (bytes_eqb_spec (origin_String source) []) as [|Hk]; [done|]. cbn [fst].
  pose proof (schema_sources _ Hs) as Hsrc. unfold upsert_source. cbn [source_state set_source_schedule].
  apply (schema_set_sources db _ ({[ origin_String source ]} ∪ source_schedule db) Hs). apply sources_insert.
  - eapply sources_schedule_grow; [| |exact Hsrc]; [set_solver|]. intros key. rewrite elem_of_union, elem_of_singleton.
    intros [->|Hin]; [done|by apply Hsrc].
  - apply keeps_lease_ok; [done| |by eapply source_default_ok]. apply (source_default_ok _ _ _ Hsrc Hk).
  - set_solver.
Qed.

Lemma remove_seed_schema db source : schema db -> schema (fst (RemoveCrawlSeed db source)).
Proof.
  intros Hs. unfold RemoveCrawlSeed. cbv zeta. destruct (bytes_eqb_spec (origin_String source) []) as [|Hk]; [done|].
  destruct (source_state db !! origin_String source) as [s|] eqn:E; [|done]. cbn [fst].
  pose proof (schema_sources _ Hs) as Hsrc.
  assert (Hrow : sources_ok (<[origin_String source := set_seeded false s]> (source_state db)) (source_schedule db)).
  { apply sources_insert; [done| |done]. pose proof (sources_rows _ _ Hsrc _ _ E) as Hok.
    apply keeps_lease_ok; [done| |done]. apply Hok. }
  case_head; [by apply schema_source_rows|]. apply schema_set_sources; [done|]. destruct Hrow as [Hr Hne Hseed].
  split; [done|set_solver|]. intros key t Ht Hsd. apply elem_of_difference. split; [by eapply Hseed|].
  intros ->%elem_of_singleton. rewrite lookup_insert_eq in Ht. injection Ht as <-. done.
Qed.

Lemma seeded_keys_spec db key : key ∈ seeded_keys db <-> exists s, source_state db !! key = Some s /\ seeded s = true.
Proof.
  unfold seeded_keys. rewrite list_elem_of_fmap. split.
  - intros ([k s] & -> & Hin). apply elem_of_filter_map in Hin. by exists s.
  - intros (s & Hs & Hsd). exists (key, s). split; [done|]. by apply elem_of_filter_map.
Qed.

Lemma ensure_seeds_schema db : schema db -> schema (fst (EnsureSeededSourcesScheduled db)).
Proof.
  intros Hs. pose proof (schema_sources _ Hs) as Hsrc. cbn [fst EnsureSeededSourcesScheduled].
  apply (schema_set_sources db (source_state db)); [done|]. eapply sources_schedule_grow; [| |exact Hsrc]; [set_solver|].
  intros key. rewrite elem_of_union, elem_of_list_to_set. intros [(s & Hk & _)%seeded_keys_spec|Hin]; [|by apply Hsrc].
  by apply (source_key _ s), (sources_rows _ _ Hsrc).
Qed.

(** ** Leases *)

Lemma claim_source_ok owner now expires key s : validQueueWorkerID owner = true -> now < expires ->
  source_row_ok key s -> source_row_ok key (claim_source owner now expires s).
Proof.
  intros Hw Hlt [Hk Hl Ho Hr Hb]. split; cbn; [done| | |done|done].
  - right. split; [lia|]. exists now. split; [done|]. by intros e [= <-].
  - intros o [= <-]. split; [by eexists|done].
Qed.

Lemma set_expiry_ok key s e now : source_expires_at s = Some e -> source_row_ok key s ->
  source_row_ok key (set_expiry (Z.max e now) s).
Proof.
  intros He [Hk Hl Ho Hr Hb]. split; cbn; [done| | |done|done].
  - destruct Hl as [(_ & _ & ?)|(? & c & Hc & Hlt)]; [congruence|right]. split; [done|]. exists c. split; [done|].
    specialize (Hlt e He). intros e' [= <-]. lia.
  - intros o Hso. split; [by eexists|by apply Ho].
Qed.

Lemma complete_source_ok delay at_ category retryAfter clock key s : source_row_ok key s ->
  source_row_ok key (complete_source delay at_ category retryAfter clock s).
Proof.
  intros [Hk Hl Ho Hr Hb]. split; cbn; [done| |done| |done].
  - destruct Hl as [(? & ? & ?)|(? & c & Hc & Hlt)]; [by left|right]. split; [done|]. by exists c.
  - unfold retry_ok in *. destruct (Transient category) eqn:E; [right|by left]. split_and!; [|by exists category|by eexists].
    destruct Hr as [[-> _]|[? _]]; lia.
Qed.

(** ** Runs *)

Lemma cancel_run_ok now reason r : run_started_at r <= now -> run_row_ok r -> run_row_ok (cancel_run now reason r).
Proof. intros Hle [Hsrc Ho Hs Hb Hl Hc Hp]. split; cbn; try done. by intros t [= <-]. Qed.

(** What happens to runs without touching their identity or their budget. *)
Definition runs_evolve (rs rs' : gmap Z RunRow) : Prop :=
  forall id, match rs !! id, rs' !! id with
    | Some r, Some r' => max_automatic_promotions r' = max_automatic_promotions r /\ (run_row_ok r -> run_row_ok r')
    | None, None => True
    | _, _ => False
    end.

Lemma runs_evolve_dom rs rs' id : runs_evolve rs rs' -> is_Some (rs !! id) -> is_Some (rs' !! id).
Proof. intros He [r Hr]. specialize (He id). rewrite Hr in He. by destruct (rs' !! id). Qed.

Lemma runs_evolve_ok rs rs' last pages : runs_evolve rs rs' -> runs_ok rs last pages -> runs_ok rs' last pages.
Proof.
  intros He [Hlast Hr Hp]. split; [done| |].
  - intros id r' Hr'. specialize (He id). rewrite Hr' in He. destruct (rs !! id) as [r|] eqn:E; [|done].
    destruct (Hr id r E). split; [done|]. by apply He.
  - intros [id sequence] a Ha. destruct (Hp _ _ Ha) as (? & ? & ?). split_and!; [by eapply runs_evolve_dom|done|done].
Qed.

Lemma runs_evolve_admission cands rs rs' rc bt adm : runs_evolve rs rs' ->
  admission_ok cands rs rc bt adm -> admission_ok cands rs' rc bt adm.
Proof.
  intros He [Hd Hb Ha Hs]. pose proof (fun id => runs_evolve_dom rs rs' id He) as Hdom. split; [| |done|].
  - intros id key kind Hin. destruct (Hd id key kind Hin). auto.
  - intros id key b Hk. destruct (Hb id key b Hk) as (? & ? & ? & ? & ?). auto.
  - intros id r' Hr'. specialize (He id). rewrite Hr' in He. destruct (rs !! id) as [r|] eqn:E; [|done].
    destruct He as [-> _]. by apply Hs.
Qed.

Lemma schema_runs_evolve db rs : schema db -> runs_evolve (runs (crawl db)) rs ->
  schema (with_crawl db (set_runs rs (last_run (crawl db)))).
Proof.
  intros [Hs He Hr Ha Hv Hq Hqk Hvf Hru] Hev. split; try done.
  - by eapply runs_evolve_ok.
  - by eapply runs_evolve_admission.
Qed.

Lemma cancel_runs_schema db f now reason db' : schema db -> cancel_runs db f now reason = Ok db' -> schema db'.
Proof.
  intros Hs [-> Hc]%cancel_runs_Ok. rewrite cancelable_spec in Hc. apply schema_runs_evolve; [done|].
  intros id. rewrite lookup_fmap. destruct (runs (crawl db) !! id) as [r|] eqn:E; [|done]. cbn [fmap option_fmap option_map].
  destruct (is_running r && f r) eqn:Hf; [|done]. b2p. split; [done|]. apply cancel_run_ok. eauto.
Qed.

(** ** Leases, as operations *)

Section LeaseOps.
Context `{NetURL} `{NetIP} `{IDNA}.
Variable text_leb : bytes -> bytes -> bool.
Variable make_interval : Z -> Z.
Variable config : AutomaticCrawlConfig.
Variable locked : bytes -> bool.
Variable delay : Z -> Z -> Z.

Lemma first_source_scheduled db automatic now interval key :
  first_source text_leb make_interval config locked db automatic now interval = Some key -> key ∈ source_schedule db.
Proof.
  unfold first_source. intros Hf. destruct (fold_min_in _ _ _ _ Hf) as [Hin|]; [|done].
  rewrite list_elem_of_In, filter_In, <- list_elem_of_In, elem_of_elements in Hin. tauto.
Qed.

Lemma claim_lease_schema db owner interval leaseDuration now : schema db ->
  schema (fst (ClaimDiscoverySourceLease text_leb make_interval config locked db owner interval leaseDuration now)).
Proof.
  intros Hs. unfold ClaimDiscoverySourceLease. destruct (validQueueWorkerID owner) eqn:Hw; [|done]. cbn [negb].
  do 3 (case_head; [done|]). cbv zeta. destruct (first_source _ _ _ _ _ _ _) as [key|] eqn:Hf; [|done].
  apply first_source_scheduled in Hf. destruct (Origin.Parse key) as [source|]; [|done].
  destruct (Z.leb_spec (pg_time (time_Add now leaseDuration)) (pg_time now)) as [|Hlt]; [done|].
  pose proof (schema_sources _ Hs) as Hsrc. pose proof (sources_schedule _ _ Hsrc _ Hf) as Hk.
  set (db1 := set_source_state db _). assert (Hs1 : schema db1).
  { apply schema_source_rows; [done|]. apply sources_insert; [done| |done]. apply claim_source_ok; [done..|].
    by eapply source_default_ok. }
  destruct (cancel_runs db1 _ _ _) as [db2|] eqn:H2; [|done]. cbn [res_bind].
  pose proof (cancel_runs_schema _ _ _ _ _ Hs1 H2) as Hs2.
  destruct (cancel_runs db2 _ _ _) as [db3|] eqn:H3; [|done]. by eapply cancel_runs_schema.
Qed.

(** A row replaced by one with the same seed flag. *)
Lemma schema_replace_source db key s s' : schema db -> source_state db !! key = Some s -> seeded s' = seeded s ->
  (source_row_ok key s -> source_row_ok key s') -> schema (set_source_state db (<[key := s']> (source_state db))).
Proof.
  intros Hs Hk Hsd Hok. pose proof (schema_sources _ Hs) as Hsrc. apply schema_source_rows; [done|].
  apply sources_insert; [done|by apply Hok, (sources_rows _ _ Hsrc)|]. rewrite Hsd. by eapply (sources_seeds _ _ Hsrc).
Qed.

Lemma renew_lease_schema db l leaseDuration now : schema db ->
  schema (fst (RenewDiscoverySourceLease db l leaseDuration now)).
Proof.
  intros Hs. unfold RenewDiscoverySourceLease. do 2 (case_head; [done|]). cbv zeta.
  destruct (source_state db !! _) as [s|] eqn:Hk; [|done]. destruct (source_held s l (pg_time now)) eqn:Hh; [|done]. cbn [fst].
  eapply schema_replace_source; [done..|]. unfold source_held, live in Hh. b2p.
  destruct (source_expires_at s) as [e|] eqn:He; [|done]. by apply set_expiry_ok.
Qed.

Lemma complete_lease_schema db l category retryAfter now : schema db ->
  schema (fst (CompleteDiscoverySourceLeaseRetry delay db l category retryAfter now)).
Proof.
  intros Hs. unfold CompleteDiscoverySourceLeaseRetry. do 2 (case_head; [done|]). cbv zeta.
  destruct (source_state db !! _) as [s|] eqn:Hk; [|done]. destruct (source_held s l (pg_time now)) eqn:Hh; [|done].
  set (db1 := set_source_state db _). assert (Hs1 : schema db1).
  { eapply schema_replace_source; [done..|]. apply complete_source_ok. }
  destruct (cancel_runs db1 _ _ _) as [db2|] eqn:H2; [|done]. by eapply cancel_runs_schema.
Qed.
End LeaseOps.

(** ** Evidence *)

Lemma retry_fresh : retry_ok 0 None None.
Proof. by left. Qed.

Lemma merge_candidate_ok key at_ stored : key <> [] ->
  (forall c, stored = Some c -> candidate_row_ok key c) -> candidate_row_ok key (merge_candidate at_ stored).
Proof.
  intros Hk Hs. destruct stored as [c|]; cbn [merge_candidate]; [|split; [done|done|apply retry_fresh]].
  destruct (Hs c eq_refl) as [_ Ho Hr]. split; cbn; [done|lia|done].
Qed.

Lemma merge_edge_ok at_ stored : (forall t, stored = Some t -> fst t <= snd t) ->
  fst (merge_edge at_ stored) <= snd (merge_edge at_ stored).
Proof. intros Hs. destruct stored as [[a b]|]; cbn; [|done]. specialize (Hs _ eq_refl). cbn in Hs. lia. Qed.

(** Candidates are never deleted. *)
Lemma admission_candidates cands cands' rs rc bt adm : (forall key, is_Some (cands !! key) -> is_Some (cands' !! key)) ->
  admission_ok cands rs rc bt adm -> admission_ok cands' rs rc bt adm.
Proof.
  intros Hsub [Hd Hb Ha Hs]. split; [| | |done].
  - intros id key kind Hin. destruct (Hd id key kind Hin). auto.
  - intros id key b Hk. destruct (Hb id key b Hk) as (? & ? & ? & ? & ?). auto.
  - intros key o t Hk. destruct (Ha key o t Hk). auto.
Qed.

Lemma evidence_schema runID source at_ l db db' : schema db -> source <> [] -> (runID = 0 \/ active_run db runID = true) ->
  Forall (fun c => candidate_key c <> [] /\ candidate_key c <> source) l ->
  evidence_recorded runID source at_ l db db' -> schema db'.
Proof.
  intros [Hs He Hr Ha Hv Hq Hqk Hvf Hru] Hsrc Hrun Hl [Hf Hc Hed Hrc Hsch]. rewrite Forall_forall in Hl.
  assert (Hkeys : forall key, key ∈ map candidate_key l -> key <> [] /\ key <> source).
  { intros key. rewrite list_elem_of_In, in_map_iff. intros (c & <- & Hin%list_elem_of_In). by apply Hl. }
  assert (Hcands : forall key, is_Some (candidates db !! key) -> is_Some (candidates db' !! key)).
  { intros key Hk. rewrite Hc. by case_bool_decide. }
  assert (Hrows : evidence_ok (candidates db') (edges (crawl db'))).
  { destruct He as [Hrows Hedges]. split.
    - intros key c. rewrite Hc. case_bool_decide as Hin; [|by apply Hrows]. intros [= <-].
      apply merge_candidate_ok; [by apply Hkeys|]. intros c. apply Hrows.
    - intros [[so key] kind] t. rewrite Hed. case_bool_decide as Hin.
      + intros [= <-]. rewrite list_elem_of_In, in_map_iff in Hin. destruct Hin as (c & [= <- <- <-] & Hin).
        apply list_elem_of_In in Hin. destruct (Hl c Hin) as [? ?]. cbn. split_and!; [done|congruence| |].
        * rewrite Hc, bool_decide_eq_true_2; [by eexists|]. apply list_elem_of_fmap. by exists c.
        * apply merge_edge_ok. intros t Ht. by apply (Hedges _ _ Ht).
      + intros Ht. destruct (Hedges _ _ Ht) as (? & ? & ? & ?). cbn. auto. }
  rewrite Hf. split; cbn; try done.
  - destruct Hs as [Hsr Hss Hseed]. split; [done| |].
    + intros key. rewrite Hsch. intros [?|[Hin _]]; [by apply Hss|by apply Hkeys].
    + intros key s Hk Hsd. apply Hsch. left. by eapply Hseed.
  - apply (admission_candidates _ _ _ _ _ _ Hcands) in Ha. destruct Ha as [Hd Hb Hdur Hsz]. split; [|done..].
    intros id key kind [Hin|[Hpos Hin]]%Hrc; [by eapply Hd|].
    rewrite list_elem_of_In, in_map_iff in Hin. destruct Hin as (c & [= <- <- <-] & Hin). split.
    + destruct Hrun as [->|Hact]; [lia|]. unfold active_run in Hact. by destruct (runs (crawl db) !! runID).
    + rewrite Hc, bool_decide_eq_true_2; [by eexists|]. apply list_elem_of_fmap. exists c.
      split; [done|]. by apply list_elem_of_In.
Qed.

(** ** Probes and discovery *)

Lemma schema_set_queue db q : schema db -> map_Forall (fun key row => key <> [] /\ row_ok row) q -> schema (set_queue db q).
Proof. intros [] Hq. split; try done; cbn; [intros key row Hk|intros key [row Hk]]; by apply (Hq _ _ Hk). Qed.

Lemma schema_queue_rows db : schema db -> map_Forall (fun key row => key <> [] /\ row_ok row) (queue db).
Proof. intros Hs key row Hk. split; [by apply (schema_queue_keys _ Hs); eexists|by apply (schema_queue _ Hs key)]. Qed.

Lemma fresh_probe_ok at_ : row_ok (fresh_probe at_).
Proof. split; split; cbn; [done|by left|done|by left]. Qed.

Lemma insert_probes_schema db keys at_ : schema db -> (forall key, key ∈ keys -> key <> []) -> schema (fst (insert_probes db keys at_)).
Proof.
  intros Hs Hne. pose proof (insert_probes_spec keys db at_) as Hi. destruct (insert_probes db keys at_) as [db' n]. cbn [fst].
  destruct Hi as (-> & Hq & _). apply schema_set_queue; [done|]. intros key row. rewrite Hq. case_bool_decide as Hk.
  - intros [= <-]. split; [by apply Hne, Hk|apply fresh_probe_ok].
  - apply (schema_queue_rows _ Hs).
Qed.

Lemma admit_probe_schema db key at_ : schema db -> key <> [] -> schema (admit_probe db key at_).
Proof.
  intros Hs Hne. unfold admit_probe. destruct (queue db !! key); [done|]. apply schema_set_queue; [done|].
  apply map_Forall_insert_2; [split; [done|apply fresh_probe_ok]|by apply schema_queue_rows].
Qed.

Section Recording.
Context `{NetURL} `{NetIP} `{IDNA} `{!NetIPLaws} `{Unicode}.
Variable text_leb : bytes -> bytes -> bool.
Variable config : AutomaticCrawlConfig.

Lemma parse_all_nonempty keys os :
  parse_all keys = Ok os -> Forall (fun o => origin_String o <> []) os.
Proof.
  revert os. induction keys as [|key keys IH]; intros os; cbn [parse_all]; [intros [= <-]; constructor|].
  destruct (Origin.Parse key) as [o|] eqn:Ho; [|done]. destruct (parse_all keys) as [os'|]; [|done]. cbn [res_bind].
  intros [= <-]. constructor; [by eapply parsed_nonempty|by apply IH].
Qed.

(** An origin value of the program: [Parse] is the only constructor. *)
Definition parsed_origin (o : Origin) : Prop := exists raw, Origin.Parse raw = Ok o.

Lemma parsed_origin_inj o o' : parsed_origin o -> parsed_origin o' -> origin_String o = origin_String o' -> o = o'.
Proof. intros [raw Hr] [raw' Hr']. by eapply parsed_inj. Qed.

Lemma schedule_probes_schema db l availableAt stmt : schema db -> Forall (fun c => candidate_key c <> []) l ->
  schema (fst (scheduleProbeCandidatesCounted text_leb config db l availableAt stmt)).
Proof.
  intros Hs Hl. unfold scheduleProbeCandidatesCounted. cbv zeta. destruct (map _ _) eqn:E; [done|]. rewrite <- E.
  unfold admit_probes. apply insert_probes_schema; [done|]. intros key (i & Hi & _)%elem_of_take.
  apply list_elem_of_lookup_2 in Hi. rewrite text_sorted_perm, list_elem_of_In, filter_In, in_map_iff in Hi.
  destruct Hi as [(c & <- & [Hc _]%filter_In) _]. apply list_elem_of_In in Hc. by apply (proj1 (Forall_forall _ _) Hl).
Qed.

Lemma record_discovery_schema db runID source l now stmt : schema db -> parsed_origin source ->
  Forall (fun c => parsed_origin (candidate_Origin c)) l ->
  schema (fst (recordDiscovery text_leb config db runID source l now stmt)).
Proof.
  intros Hs Hp Hl. unfold recordDiscovery, prepareDiscoveryCandidates.
  destruct (bytes_eqb_spec (origin_String source) []) as [|Hk]; [done|].
  destruct (candidates_valid (Some source) ∅ l) eqn:Hv; [|done]. cbn [negb].
  apply candidates_valid_spec in Hv as [_ Hv]. pose proof (merge_sort_Permutation candidate_le l) as Hperm.
  destruct (merge_sort candidate_le l) as [|c0 l0] eqn:E; [done|]. rewrite <- E in *. clear E c0 l0.
  unfold record_evidence. cbv zeta. destruct (known_source db (origin_String source)); [|done]. cbn [negb].
  destruct ((runID =? 0) || active_run db runID) eqn:Hr; [|done]. cbn [negb fst].
  assert (Hne : Forall (fun c => candidate_key c <> [] /\ candidate_key c <> origin_String source) (merge_sort candidate_le l)).
  { rewrite Hperm. rewrite Forall_forall in *. intros c Hc. destruct (Hv c Hc) as (? & Hne & _). split; [done|].
    intros Heq. apply Hne. f_equal. symmetry. apply parsed_origin_inj; [by apply Hl|done|exact Heq]. }
  apply schedule_probes_schema; [|by eapply Forall_impl; [exact Hne|intros c []]].
  eapply evidence_schema; [done|exact Hk| |exact Hne|apply store_candidates_spec].
  apply orb_true_iff in Hr as [?%Z.eqb_eq|?]; auto.
Qed.

Lemma record_for_run_schema db runID source l now stmt : schema db -> parsed_origin source ->
  Forall (fun c => parsed_origin (candidate_Origin c)) l ->
  schema (fst (RecordDiscoveryForRun text_leb config db runID source l now stmt)).
Proof. intros. unfold RecordDiscoveryForRun. case_head; [done|by apply record_discovery_schema]. Qed.

Lemma pending_probes_schema db now stmt : schema db ->
  schema (fst (SchedulePendingDiscoveryProbes text_leb config db now stmt)).
Proof.
  intros Hs. unfold SchedulePendingDiscoveryProbes. cbv zeta. destruct (parse_all _) as [os|] eqn:Hos; [|done].
  pose proof (schedule_probes_schema db (map (fun o => mkCandidate o KindLink) os) now stmt Hs) as Hp.
  specialize (Hp ltac:(rewrite Forall_map; by eapply parse_all_nonempty)).
  by destruct (scheduleProbeCandidatesCounted _ _ _ _ _ _).
Qed.
End Recording.
