(* ===== verification/AdmissionSchema.v ===== *)
(** * Admission and telemetry keep the schema

    The allocation of batches, the decisions on candidates, crawl runs and
    their pages, retention, heartbeats, operator control and the verification
    queue against the constraints of [DiscoverySchema]. *)

From S2P Require Import Prelude GoText GoUrl GoErrors GoNetip GoJson Retry Origin Netguard.
From S2P Require Import RobotsMatch RobotsPolicy RobotsPolicyFacts RobotsHTTP Declaration Verifier.
From S2P Require Import Discovery Crawler Store Queue QueueFacts Exclusions DiscoveryStore.
From S2P Require Import Admission DiscoveryLease CrawlTelemetry ControlStore.
From S2P Require Import DiscoverySchema.

#[local] Set Warnings "-clear-no-such-hyp".

(** ** Allocation *)

Lemma first_run_in db kinds key id : first_run db kinds key = Some id ->
  exists kind, (id, key, kind) ∈ run_candidates (crawl db).
Proof.
  unfold first_run. enough (Hgen : forall l, fold_right (fun '(r, k, kind) acc =>
      if bytes_eqb k key && kinds kind then Some (match acc with Some m => Z.min r m | None => r end) else acc) None l
      = Some id -> exists kind, (id, key, kind) ∈ l).
  { intros [kind Hk]%Hgen. exists kind. by apply elem_of_elements. }
  revert id. clear db. intros id l. revert id. induction l as [|[[r k] kind] l IH]; intros id; cbn [fold_right]; [done|].
  destruct (bytes_eqb_spec k key) as [->|]; cbn [andb].
  2:{ intros [kind' Hk]%IH. exists kind'. by right. }
  destruct (kinds kind); [|intros [kind' Hk]%IH; exists kind'; by right].
  destruct (fold_right _ None l) as [m|]; [|intros [= <-]; exists kind; by left].
  intros [= <-]. destruct (Z.min_spec r m) as [[_ ->]|[_ ->]]; [exists kind; by left|].
  destruct (IH m eq_refl) as [kind' Hk]. exists kind'. by right.
Qed.

Definition pending_at (db : Database) (runID : Z) (key : bytes) : Prop :=
  exists b, batches (crawl db) !! (runID, key) = Some b /\ batch_outcome b = pending.

Lemma run_batches_insert m id k key b :
  Z.of_nat (size (run_batches (<[(k, key) := b]> m) id))
    <= Z.of_nat (size (run_batches m id)) + (if bool_decide (k = id) then 1 else 0).
Proof.
  unfold run_batches. destruct (decide (k = id)) as [Hk|Hk].
  - rewrite map_filter_insert_True, bool_decide_eq_true_2, map_size_insert by done. case_match; unfold Datatypes.id; lia.
  - rewrite map_filter_insert_not by done. rewrite bool_decide_eq_false_2 by done. lia.
Qed.

Lemma allocate_schema reads db runID key run : schema db -> runs (crawl db) !! runID = Some run ->
  is_Some (candidates db !! key) -> run_candidates (crawl reads) = run_candidates (crawl db) ->
  Z.of_nat (size (run_batches (batches (crawl db)) runID)) < max_automatic_promotions run ->
  schema (allocate reads runID db key).
Proof.
  intros [Hs He Hr Ha Hv Hq Hqk Hvf Hru] Hrun Hkey Hrc Hsize. split; try done. cbn.
  destruct Ha as [Hd Hb Hdur Hsz]. split; [done| |done|].
  - intros id k b. destruct (decide ((id, k) = (runID, key))) as [Heq|Hne].
    + injection Heq as -> ->. rewrite lookup_insert_eq. intros [= <-].
      cbn [discovered_run_id batch_outcome]. split_and!; [by eexists|done| |split; [apply retry_fresh|done]|done].
      destruct (first_run reads _ key) as [m|] eqn:Hf; [|by eexists].
      apply first_run_in in Hf as [kind Hin]. rewrite Hrc in Hin. by apply Hd in Hin as [? _].
    + rewrite lookup_insert_ne by congruence. apply Hb.
  - intros id r Hid. etransitivity; [apply run_batches_insert|]. case_bool_decide as Heq; [subst id; simplify_eq; lia|].
    specialize (Hsz id r Hid). lia.
Qed.

Lemma allocate_all_schema reads runID run keys db : schema db -> runs (crawl db) !! runID = Some run ->
  (forall key, key ∈ keys -> is_Some (candidates db !! key)) -> run_candidates (crawl reads) = run_candidates (crawl db) ->
  Z.of_nat (size (run_batches (batches (crawl db)) runID)) + Z.of_nat (length keys) <= max_automatic_promotions run ->
  schema (fold_left (allocate reads runID) keys db).
Proof.
  revert db. induction keys as [|key keys IH]; intros db Hs Hrun Hkeys Hrc Hsize; cbn [fold_left length] in *; [done|].
  apply IH; [|done| |done|].
  - eapply allocate_schema; [done..|apply Hkeys; by left|done|lia].
  - intros k Hk. apply Hkeys. by right.
  - cbn [allocate with_crawl crawl set_batches batches].
    pose proof (run_batches_insert (batches (crawl db)) runID runID key
      (mkBatch (default runID (first_run reads (fun _ => true) key)) pending 0 None None)) as Hi.
    rewrite bool_decide_eq_true_2 in Hi by done. lia.
Qed.

Lemma batch_count_size db runID : batch_count db runID = Z.of_nat (size (run_batches (batches (crawl db)) runID)).
Proof.
  unfold batch_count, batch_keys, run_batches. rewrite length_map, <- length_map_to_list. f_equal.
  apply Permutation_length. symmetry. apply NoDup_Permutation.
  - apply NoDup_map_to_list.
  - pose proof (NoDup_map_to_list (batches (crawl db))) as Hn.
    induction Hn as [|[[r k] b] l Hx Hn IH]; cbn [List.filter]; [constructor|]. case_head; [|done]. constructor; [|done].
    contradict Hx. rewrite list_elem_of_In, filter_In in Hx. apply list_elem_of_In. tauto.
  - intros [[r k] b]. rewrite elem_of_map_to_list, map_lookup_filter_Some, list_elem_of_In, filter_In,
      <- list_elem_of_In, elem_of_map_to_list, andb_true_r, Z.eqb_eq. done.
Qed.

Section Admissions.
Context `{NetURL} `{NetIP} `{IDNA} `{Unicode}.
Variable text_leb : bytes -> bytes -> bool.
Variable sql_lower : bytes -> bytes.
Variable config : AutomaticCrawlConfig.
Variable delay : Z -> Z -> Z.

Lemma candidate_pool_spec db patterns runID now limit :
  (forall key, key ∈ candidate_pool text_leb sql_lower db patterns runID now limit -> is_Some (candidates db !! key))
  /\ Z.of_nat (length (candidate_pool text_leb sql_lower db patterns runID now limit)) <= Z.max limit 0.
Proof.
  unfold candidate_pool. split; [|rewrite length_take; lia].
  intros key Hin. apply elem_of_take in Hin as (i & Hi & _). apply list_elem_of_lookup_2 in Hi.
  rewrite order_by_origin_perm, list_elem_of_fmap in Hi. destruct Hi as ([k row] & -> & Hin).
  apply elem_of_filter_map in Hin as [Hk _]. by eexists.
Qed.

Lemma admit_redirects_schema db patterns now stmt : schema db ->
  schema (admit_redirects text_leb sql_lower config db patterns now stmt).
Proof. intros Hs. unfold admit_redirects. cbv zeta. case_head; [|done]. apply insert_probes_schema; [done|].
  intros key (i & Hi & _)%elem_of_take. apply list_elem_of_lookup_2 in Hi.
  rewrite order_by_origin_perm, list_elem_of_fmap in Hi. destruct Hi as ([k row] & -> & Hin).
  apply elem_of_filter_map in Hin as [Hk _]. apply (evidence_rows _ _ (schema_evidence _ Hs)) in Hk. apply Hk.
Qed.

Lemma pending_candidates_schema db runID now stmt : schema db ->
  schema (fst (PendingAutomaticCandidates text_leb sql_lower config db runID now stmt)).
Proof.
  intros Hs. unfold PendingAutomaticCandidates. do 2 (case_head; [done|]).
  destruct (runs (crawl db) !! runID) as [run|] eqn:Hrun; [|done]. case_head; [done|]. cbv zeta.
  set (patterns := automaticExclusionPatterns _). set (limit := max_automatic_promotions run - batch_count db runID).
  destruct (parse_all _); [|done]. cbn [fst]. apply admit_redirects_schema.
  destruct (Z.ltb_spec 0 limit) as [Hpos|]; [|done].
  destruct (candidate_pool_spec db patterns runID (pg_time now) limit) as [Hin Hlen].
  eapply allocate_all_schema; [done..|]. rewrite <- batch_count_size. lia.
Qed.
End Admissions.

(** ** Decisions *)

Section Decisions.
Context `{NetURL} `{NetIP} `{IDNA} `{Unicode}.
Variable config : AutomaticCrawlConfig.
Variable delay : Z -> Z -> Z.

Lemma alter_as_insert {V} (f : V -> V) (m : gmap (Z * bytes) V) i x : m !! i = Some x -> alter f i m = <[i := f x]> m.
Proof.
  intros Hx. apply map_eq. intros j. destruct (decide (i = j)) as [->|Hne].
  - by rewrite lookup_alter_eq, lookup_insert_eq, Hx.
  - by rewrite lookup_alter_ne, lookup_insert_ne.
Qed.

(** The outcome of a pending batch row. *)
Lemma outcome_schema db runID key f : schema db -> pending_at db runID key ->
  (forall b, batch_outcome b = pending -> batch_row_ok b -> batch_row_ok (f b) /\ discovered_run_id (f b) = discovered_run_id b
     /\ (durable (batch_outcome (f b)) = true -> is_Some (admissions (crawl db) !! key))) ->
  schema (set_outcome db runID key f).
Proof.
  intros [Hs He Hr Ha Hv Hq Hqk Hvf Hru] (b0 & Hb0 & Hp0) Hf. split; try done. cbn.
  destruct Ha as [Hd Hb Hdur Hsz]. split; [done| |done|].
  - intros id k b. destruct (decide ((runID, key) = (id, k))) as [Heq|Hne].
    + injection Heq as <- <-. rewrite lookup_alter_eq, Hb0. intros [= <-].
      destruct (Hb _ _ _ Hb0) as (? & ? & ? & Hok & _). destruct (Hf b0 Hp0 Hok) as (? & -> & ?). done.
    + rewrite lookup_alter_ne by done. apply Hb.
  - intros id r Hid. specialize (Hsz id r Hid). etransitivity; [|exact Hsz]. unfold run_batches.
    rewrite (alter_as_insert _ _ _ _ Hb0). destruct (decide (runID = id)) as [Hk|Hk].
    + rewrite map_filter_insert_True, map_size_insert by done.
      rewrite (proj2 (map_lookup_filter_Some _ _ _ _)) by done. done.
    + by rewrite map_filter_insert_not by done.
Qed.

Lemma with_outcome_ok o b : o <> retry_deferred -> batch_outcome b = pending -> batch_row_ok b ->
  batch_row_ok (with_outcome o b).
Proof.
  intros Ho Hp [Hr Hb]. split; [done|]. cbn. rewrite <- Hb, Hp. done.
Qed.

Lemma deferral_schema db runID key o : schema db -> pending_at db runID key -> o <> retry_deferred -> durable o = false ->
  schema (set_outcome db runID key (with_outcome o)).
Proof.
  intros Hs Hp Ho Hd. apply outcome_schema; [done..|]. intros b Hb Hok. split_and!; [by apply with_outcome_ok|done|].
  cbn. congruence.
Qed.

Lemma durable_schema db key o at_ : schema db -> is_Some (candidates db !! key) -> durable o = true ->
  schema (upsertDurableAdmissionOutcome db key o at_).
Proof.
  intros [Hs He Hr Ha Hv Hq Hqk Hvf Hru] Hk Ho. split; try done. cbn. destruct Ha as [Hd Hb Hdur Hsz]. split; [done| | |done].
  - intros id k b Hb'. destruct (Hb id k b Hb') as (? & ? & ? & ? & Hadm). split_and!; try done. intros Hdb.
    destruct (decide (k = key)) as [->|]; [rewrite lookup_insert_eq; by eexists|rewrite lookup_insert_ne by done; auto].
  - intros k o' t. destruct (decide (k = key)) as [->|]; [rewrite lookup_insert_eq; by intros [= <- <-]|].
    rewrite lookup_insert_ne by done. apply Hdur.
Qed.

(** A judgment: the durable outcome with the batch's. *)
Lemma judgment_schema db runID key o at_ : schema db -> pending_at db runID key -> durable o = true ->
  schema (upsertDurableAdmissionOutcome (set_outcome db runID key (with_outcome o)) key o at_).
Proof.
  intros Hs Hp Ho. change (schema (set_outcome (upsertDurableAdmissionOutcome db key o at_) runID key (with_outcome o))).
  pose proof Hp as (b & Hb & _). apply outcome_schema; [|done|].
  - apply durable_schema; [done| |done]. by apply (adm_batches _ _ _ _ _ (schema_admission _ Hs) _ _ _ Hb).
  - intros b' Hb' Hok. split_and!; [apply with_outcome_ok; by destruct o|done|]. cbn. rewrite lookup_insert_eq. by eexists.
Qed.

Lemma candidate_retry_schema db key failures category next : schema db -> retry_ok failures category next ->
  schema (update_candidate db key (set_candidate_retry failures category next)).
Proof.
  intros [Hs He Hr Ha Hv Hq Hqk Hvf Hru] Hok. destruct He as [Hrows Hedges].
  assert (Hdom : forall k, is_Some (candidates db !! k) ->
    is_Some (alter (set_candidate_retry failures category next) key (candidates db) !! k)).
  { intros k Hk. by apply lookup_alter_is_Some. }
  split; try done; cbn.
  - split.
    + intros k c. destruct (decide (k = key)) as [->|Hne].
      * rewrite lookup_alter_eq. destruct (candidates db !! key) as [c0|] eqn:E; [|done]. intros [= <-].
        destruct (Hrows _ _ E) as [? ? _]. by split.
      * rewrite lookup_alter_ne by congruence. apply Hrows.
    + intros [[so k] kind] t Ht. destruct (Hedges _ _ Ht) as (? & ? & ? & ?). cbn. auto.
  - by eapply admission_candidates.
Qed.

Lemma promote_schema db runID key now : schema db -> pending_at db runID key -> schema (promote db runID key now).
Proof.
  intros Hs Hp. pose proof Hp as (b & Hb & _). unfold promote. apply judgment_schema; [|done|done].
  destruct (adm_batches _ _ _ _ _ (schema_admission _ Hs) _ _ _ Hb) as (_ & [c Hc] & _).
  pose proof (candidate_key_ok _ _ (evidence_rows _ _ (schema_evidence _ Hs) _ _ Hc)) as Hk.
  pose proof (schema_sources _ Hs) as Hsrc. apply schema_upsert; [|done|done|done|by intros s []].
  apply (schema_set_sources db (source_state db)); [done|]. eapply sources_schedule_grow; [| |done]; [set_solver|].
  intros k. rewrite elem_of_union, elem_of_singleton. intros [->|Hin]; [done|by apply Hsrc].
Qed.

Lemma admit_promotable_schema runID paused maxPromotions now st db key : schema db -> pending_at db runID key ->
  schema (adm_db (admit_promotable config runID paused maxPromotions now st db key)).
Proof.
  intros Hs Hp. unfold admit_promotable. cbv zeta. pose proof Hp as (b & Hb & _).
  destruct (adm_batches _ _ _ _ _ (schema_admission _ Hs) _ _ _ Hb) as (_ & [c Hc] & _).
  pose proof (candidate_key_ok _ _ (evidence_rows _ _ (schema_evidence _ Hs) _ _ Hc)) as Hk.
  destruct (negb _ && negb _); [by apply deferral_schema|].
  assert (Hdb' : forall q : bool, schema (if q then db else admit_probe db key now)
    /\ pending_at (if q then db else admit_probe db key now) runID key).
  { intros []; [done|]. split; [by apply admit_probe_schema|]. unfold admit_probe. by destruct (queue db !! key). }
  specialize (Hdb' (bool_decide (is_Some (queue db !! key)))). destruct Hdb' as [Hs' Hp'].
  destruct paused; [by apply deferral_schema|]. destruct (_ <=? _); [by apply deferral_schema|]. by apply promote_schema.
Qed.

Lemma admit_candidate_schema runID paused suffixes decisions maxPromotions now st key st' :
  schema (adm_db st) -> pending_at (adm_db st) runID key ->
  admit_candidate config delay runID paused suffixes decisions maxPromotions now st key = Ok st' -> schema (adm_db st').
Proof.
  intros Hs Hp. unfold admit_candidate. destruct (Origin.Parse key) as [o|]; [|done]. cbv zeta.
  assert (Hreject : schema (upsertDurableAdmissionOutcome
    (set_outcome (adm_db st) runID key (with_outcome network_rejected)) key network_rejected now))
    by (by apply judgment_schema).
  destruct (decisions !! o) as [category|]; [|by intros [= <-]].
  destruct (Transient category) eqn:Htr.
  { destruct (candidates (adm_db st) !! key) as [row|] eqn:Hrow; [|done]. intros [= <-]. cbn [adm_db].
    pose proof (candidate_retry _ _ (evidence_rows _ _ (schema_evidence _ Hs) _ _ Hrow)) as Hr.
    assert (Hpos : 0 < candidate_failures row + 1) by (destruct Hr as [[-> _]|[? _]]; lia).
    assert (Hok : forall next, retry_ok (candidate_failures row + 1) (Some category) (Some next)).
    { intros next. right. split_and!; [done|by exists category|by eexists]. }
    apply outcome_schema; [by apply candidate_retry_schema|done|]. intros b Hb _. split_and!; [|done|done].
    by split; [apply Hok|]. }
  case_bool_decide; [by intros [= <-]|]. intros [= <-]. unfold admit_resolved. cbv zeta.
  set (db := update_candidate (adm_db st) key _).
  assert (Hs' : schema db) by (apply candidate_retry_schema; [done|apply retry_fresh]).
  assert (Hp' : pending_at db runID key) by done. clearbody db.
  case_head; [by apply deferral_schema|]. case_head; [by apply judgment_schema|].
  case_head; [by apply deferral_schema|]. by apply admit_promotable_schema.
Qed.

Lemma admit_batch_schema runID paused suffixes decisions maxPromotions now keys st st' :
  NoDup keys -> schema (adm_db st) -> (forall k, k ∈ keys -> pending_at (adm_db st) runID k) ->
  admit_batch (admit_candidate config delay runID paused suffixes decisions maxPromotions now) st keys = Ok st' ->
  schema (adm_db st').
Proof.
  revert st. induction keys as [|key keys IH]; intros st Hnd Hs Hp; cbn [admit_batch]; [by intros [= <-]|].
  apply NoDup_cons in Hnd as [Hk Hnd]. destruct (admit_candidate _ _ _ _ _ _ _ _ st key) as [st1|] eqn:Hst; [|done].
  cbn [res_bind]. apply IH; [done| |].
  - eapply admit_candidate_schema; [done| |exact Hst]. apply Hp. by left.
  - intros k Hin. apply admit_candidate_decided in Hst as (o & outcome & _ & Hd).
    destruct (Hp k) as (b & Hb & ?); [by right|]. exists b. split; [|done]. rewrite <- Hb.
    apply (local_batches _ _ _ (dec_local _ _ _ _ _ _ _ _ _ _ _ Hd)). rewrite list_elem_of_singleton. by intros ->.
Qed.
End Decisions.

(** ** The run's counters *)

#[export] Instance runs_evolve_preorder : PreOrder runs_evolve.
Proof.
  split.
  - intros rs id. by destruct (rs !! id).
  - intros a b c Hab Hbc id. specialize (Hab id). specialize (Hbc id).
    destruct (a !! id), (b !! id), (c !! id); try done. destruct Hab, Hbc. split; [congruence|auto].
Qed.

Lemma runs_evolve_alter (f : RunRow -> RunRow) rs id :
  (forall r, rs !! id = Some r -> max_automatic_promotions (f r) = max_automatic_promotions r
    /\ (run_row_ok r -> run_row_ok (f r))) ->
  runs_evolve rs (alter f id rs).
Proof.
  intros Hf i. destruct (decide (id = i)) as [->|Hne].
  - rewrite lookup_alter_eq. destruct (rs !! i) as [r|] eqn:E; [|done]. by apply Hf.
  - rewrite lookup_alter_ne by done. by destruct (rs !! i).
Qed.

Lemma update_run_schema db id f : schema db ->
  (forall r, runs (crawl db) !! id = Some r -> max_automatic_promotions (f r) = max_automatic_promotions r
    /\ (run_row_ok r -> run_row_ok (f r))) ->
  schema (update_run db id f).
Proof. intros Hs Hf. apply (schema_runs_evolve db (alter f id (runs (crawl db)))); [done|]. by apply runs_evolve_alter. Qed.

Lemma refresh_schema reads ids db : schema db -> schema (fold_left (refresh_promotions reads) ids db).
Proof.
  revert db. induction ids as [|id ids IH]; intros db Hs; cbn [fold_left]; [done|]. apply IH, update_run_schema; [done|].
  intros r _. split; [done|]. intros [? ? ? ? ? ? ?]. split; cbn; try done. unfold promoted_from. lia.
Qed.

Section Complete.
Context `{NetURL} `{NetIP} `{IDNA} `{Unicode}.
Variable text_leb : bytes -> bytes -> bool.
Variable config : AutomaticCrawlConfig.
Variable delay : Z -> Z -> Z.

Lemma complete_candidates_schema db runID results now stmt : schema db ->
  schema (fst (CompleteAutomaticCandidates text_leb config delay db runID results now stmt)).
Proof.
  intros Hs. unfold CompleteAutomaticCandidates. do 2 (case_head; [done|]). destruct (prepareAdmissionCandidates _); [|done].
  case_head; [done|]. destruct (runs (crawl db) !! runID) as [run|] eqn:Hrun; [|done]. case_head; [done|]. cbv zeta.
  destruct (admit_batch _ _ _) as [st'|] eqn:Hbatch; [|done]. cbn [fst]. unfold update_promotion_telemetry.
  pose proof (text_sorted_perm text_leb (pending_keys db runID)) as Hperm.
  assert (Hnd : NoDup (text_sorted text_leb (pending_keys db runID))) by (rewrite Hperm; apply batch_keys_NoDup).
  assert (Hpend : forall k, k ∈ text_sorted text_leb (pending_keys db runID) -> pending_at db runID k).
  { intros k. rewrite Hperm. by rewrite pending_keys_spec. }
  pose proof Hbatch as Hset. apply admit_batch_settled in Hset as (Hl & _ & Hp & Hpm & _); [|done|].
  2:{ intros k (b & Hb & _)%Hpend. by exists b. }
  apply refresh_schema, update_run_schema.
  - eapply admit_batch_schema; [exact Hnd| | |exact Hbatch]; done.
  - pose proof (local_fixed _ _ _ Hl) as Hfix. unfold fixed_tables in Hfix. cbn [adm_db] in Hfix.
    injection Hfix as _ _ _ _ _ Hr _. rewrite Hr, Hrun. intros r [= <-]. split; [done|].
    intros [? ? ? [? [? ?]] ? ? ?]. cbn [promotions] in *. split; cbn; try done. split; [done|].
    unfold promoted_count in Hp. lia.
Qed.
End Complete.

(** ** Telemetry *)

Lemma Milliseconds_nonneg d : 0 <= d -> 0 <= Milliseconds d.
Proof. intros Hd. apply Z.quot_pos; [done|by vm_compute]. Qed.

Lemma automaticPromotionBudget_pos c config : 0 < automaticPromotionBudget c config.
Proof.
  unfold automaticPromotionBudget, maxAutomaticPromotionsPerRun, defaultAutomaticPromotionsPerRun.
  destruct (Z.ltb_spec 0 (MaxAutomaticPromotionsPerRun c)); [done|].
  destruct (Z.ltb_spec 0 (automatic_MaxPromotionsPerRun config)); lia.
Qed.

Lemma new_run_ok config source c now : origin_pattern source = true -> validTelemetryConfig c = true -> 0 < Milliseconds (PageTimeout c) ->
  run_row_ok (new_run config source c now).
Proof.
  intros Hs Hv Ht. unfold validTelemetryConfig in Hv. b2p. pose proof (automaticPromotionBudget_pos c config).
  split; cbn; try done; try lia. split_and!; try lia. apply Milliseconds_nonneg. lia.
Qed.

Lemma begin_schema config db source c now : schema db -> schema (fst (BeginCrawl config db source c now)).
Proof.
  intros Hsch. unfold BeginCrawl. destruct (bytes_eqb_spec (origin_String source) []) as [|Hk]; [done|]. cbn [orb].
  destruct (validTelemetryConfig c) eqn:Hv; [|done]. cbn [negb].
  destruct (origin_pattern (origin_String source)) eqn:Hpat; [|done]. cbn [negb orb].
  destruct (Z.leb_spec (Milliseconds (PageTimeout c)) 0) as [|Ht]; [done|]. cbv zeta. cbn [fst].
  pose proof (new_run_ok config (origin_String source) c (pg_time now) Hpat Hv Ht) as Hrow.
  set (row := new_run config (origin_String source) c (pg_time now)) in *. set (id := last_run (crawl db) + 1).
  destruct Hsch as [Hs He Hr Ha Hsv Hq Hqk Hvf Hru]. destruct Hr as [Hlast Hrows Hpages].
  assert (Hnew : runs (crawl db) !! id = None).
  { destruct (runs (crawl db) !! id) as [r|] eqn:Hid; [|done]. destruct (Hrows _ _ Hid) as [? _]. unfold id in *. lia. }
  assert (Hdom : forall i, is_Some (runs (crawl db) !! i) -> is_Some (<[id := row]> (runs (crawl db)) !! i)).
  { intros i Hi. destruct (decide (i = id)) as [->|]; [rewrite lookup_insert_eq; by eexists|by rewrite lookup_insert_ne]. }
  split; try done; cbn.
  - split; [unfold id; lia| |].
    + apply map_Forall_insert_2; [split; [unfold id; lia|done]|].
      intros i r Hi. destruct (Hrows i r Hi) as [? ?]. split; [unfold id; lia|done].
    + intros [i sequence] a Ha'. destruct (Hpages _ _ Ha') as (? & ? & ?). auto.
  - destruct Ha as [Hd Hb Hdur Hsz]. split; [| |done|].
    + intros i key kind Hin. destruct (Hd _ _ _ Hin). auto.
    + intros i key b Hin. destruct (Hb _ _ _ Hin) as (? & ? & ? & ? & ?). auto.
    + intros i r. destruct (decide (i = id)) as [->|Hne]; [|rewrite lookup_insert_ne by done; apply Hsz].
      rewrite lookup_insert_eq. intros [= <-]. replace (run_batches (batches (crawl db)) id) with (∅ : gmap (Z * bytes) BatchRow).
      * rewrite map_size_empty. pose proof (run_budget _ Hrow). lia.
      * symmetry. apply map_empty. intros [i key]. apply map_lookup_filter_None. right. intros b Hb' Heq.
        cbn in Heq. subst i.
        destruct (Hb _ _ _ Hb') as ([r Hr] & _). congruence.
Qed.

Lemma update_pages_schema db pages : schema db ->
  runs_ok (runs (crawl db)) (last_run (crawl db)) pages -> schema (with_crawl db (set_page_attempts pages)).
Proof. by intros [] ?. Qed.

Section Pages.
Context `{NetURL}.

Lemma stored_attempt_ok a : validPageAttempt a = true ->
  page_url_pattern (RequestedURL a) && page_url_pattern (FinalURL a) = true -> 0 < Sequence a /\ page_row_ok (stored_attempt a).
Proof.
  intros Hv Hu. apply andb_true_iff in Hu. unfold validPageAttempt in Hv. b2p. split; [lia|]. split; cbn; [| |done].
  - split_and!; try lia. apply Milliseconds_nonneg. lia.
  - intros s Hs. unfold validStatusCode in *. rewrite Hs in *. b2p. lia.
Qed.

Lemma attempt_schema db runID a : schema db -> schema (fst (RecordPageAttempt db runID a)).
Proof.
  intros Hs. unfold RecordPageAttempt. destruct (runID <=? 0); [done|]. cbn [orb].
  destruct (validPageAttempt a) eqn:Hv; [|done]. cbn [negb]. destruct (active_run db runID) eqn:Hact; [|done]. cbn [negb].
  case_head; [done|]. destruct (page_url_pattern (RequestedURL a) && _) eqn:Hu; [|done]. cbn [negb fst]. apply (update_pages_schema db (<[(runID, Sequence a) := stored_attempt a]> (page_attempts_of (crawl db)))); [done|].
  destruct (schema_runs _ Hs) as [Hlast Hrows Hpages]. split; [done|done|]. apply map_Forall_insert_2; [|done].
  split; [|by apply stored_attempt_ok]. unfold active_run in Hact. by destruct (runs (crawl db) !! runID).
Qed.
End Pages.

Lemma count_pages_nonneg f l : 0 <= count_pages f l.
Proof. unfold count_pages. lia. Qed.

Lemma sum_pages_nonneg f l : Forall (fun a => 0 <= f a) l -> 0 <= sum_pages f l.
Proof. induction 1; cbn [sum_pages fold_right]; [done|]. unfold sum_pages in *. lia. Qed.

Lemma attempts_of_ok db runID : schema db -> Forall page_row_ok (attempts_of db runID).
Proof.
  intros Hs. apply Forall_forall. intros a. unfold attempts_of.
  rewrite list_elem_of_In, in_map_iff. intros ([[i sequence] a'] & <- & [Hin _]%filter_In).
  apply list_elem_of_In, elem_of_map_to_list in Hin. by apply (runs_pages _ _ _ (schema_runs _ Hs)) in Hin as (_ & _ & ?).
Qed.

Lemma finish_schema db runID result outcome stopReason remaining now : schema db ->
  schema (fst (FinishCrawlSummary db runID result outcome stopReason remaining now)).
Proof.
  intros Hs. unfold FinishCrawlSummary. destruct (_ || _) eqn:Hg; [done|]. b2p.
  destruct (runs (crawl db) !! runID) as [run|] eqn:Hrun; [|done]. case_head; [done|].
  destruct (Z.ltb_spec (pg_time now) (run_started_at run)) as [|Hle]; [done|]. cbn [fst].
  apply update_run_schema; [done|]. intros r. rewrite Hrun. intros [= <-]. split; [done|].
  intros [? ? ? ? ? ? ?]. pose proof (attempts_of_ok db runID Hs) as Hp.
  split; cbn; try done.
  - intros t [= <-]. done.
  - split_and!; try lia; try apply count_pages_nonneg; apply sum_pages_nonneg; (eapply Forall_impl; [exact Hp|]);
      intros a [Hc _ _]; tauto.
  - unfold promoted_from. lia.
Qed.

(** ** Retention *)

Lemma purge_runs_schema db gone : schema db -> schema (purge_runs db gone).
Proof.
  intros [Hs He Hr Ha Hv Hq Hqk Hvf Hru]. split; try done; cbn.
  - destruct Hr as [Hlast Hrows Hpages]. split; [done| |].
    + intros id r [Hid _]%map_lookup_filter_Some. by apply Hrows.
    + intros [id sequence] a [Hid Hg]%map_lookup_filter_Some. destruct (Hpages _ _ Hid) as (? & ? & ?).
      split_and!; try done. destruct (runs (crawl db) !! id) as [r|] eqn:E; [|by destruct H as [? [=]]]. exists r.
      by apply map_lookup_filter_Some.
  - assert (Hkeep : forall id, is_Some (runs (crawl db) !! id) -> id ∉ gone ->
      is_Some (filter (fun '(i, _) => i ∉ gone) (runs (crawl db)) !! id)).
    { intros id [r Hr'] Hg. exists r. by apply map_lookup_filter_Some. }
    destruct Ha as [Hd Hb Hdur Hsz]. split; [| |done|].
    + intros id key kind [Hg Hin]%elem_of_filter. destruct (Hd _ _ _ Hin). auto.
    + intros id key b [Hin [Hg Hg']]%map_lookup_filter_Some. destruct (Hb _ _ _ Hin) as (? & ? & ? & ? & ?). auto.
    + intros id r [Hid _]%map_lookup_filter_Some. etransitivity; [|by eapply Hsz].
      apply inj_le. apply map_subseteq_size. unfold run_batches.
      apply map_filter_subseteq_mono, map_filter_subseteq.
Qed.

Lemma purge_telemetry_schema make_interval db retention now : schema db ->
  schema (fst (PurgeCrawlTelemetry make_interval db retention now)).
Proof. intros Hs. unfold PurgeCrawlTelemetry. case_head; [done|by apply purge_runs_schema]. Qed.

Lemma purge_history_schema make_interval db retention now : schema db ->
  schema (fst (PurgeOperationalHistory make_interval db retention now)).
Proof.
  intros [Hs He Hr Ha Hv Hq Hqk Hvf Hru]. unfold PurgeOperationalHistory. case_head; [done|]. cbv zeta. cbn [fst]. split; try done.
  - destruct Hv as [Hh Hau]. split; [|done]. intros [service instance] h. cbn.
    intros [Hin _]%map_lookup_filter_Some. apply (Hh _ _ Hin).
  - destruct Hvf as [Ho Hob Hm]. split; [done| |done]. cbn. intros row Hin. apply Hob.
    unfold retained_observations in Hin. rewrite list_elem_of_In, in_map_iff in Hin.
    destruct Hin as ([i row'] & <- & [Hin _]%filter_In). unfold indexed in Hin.
    apply list_elem_of_In, elem_of_lookup_imap in Hin as (j & y & [= -> ->] & Hy). by eapply list_elem_of_lookup_2.
Qed.

(** ** Heartbeats and control *)

Lemma heartbeat_schema db h : schema db -> schema (fst (UpsertServiceHeartbeat db h)).
Proof.
  intros [Hs He Hr Ha Hv Hq Hqk Hvf Hru]. unfold UpsertServiceHeartbeat. destruct (validHeartbeat h) eqn:Hval; [|done].
  destruct (heartbeat_checks h) eqn:Hchk; [|done]. cbn [negb]. cbv zeta.
  assert (Hnew : schema (with_crawl db (fun t => set_heartbeats
    (<[(heartbeat_Service h, heartbeat_InstanceID h) := stored_heartbeat h]> (heartbeats t)) t))).
  { split; try done. destruct Hv as [Hh Hau]. split; [|done]. cbn. apply map_Forall_insert_2; [|done].
    unfold validHeartbeat in Hval. b2p. split_and!; [done|done|]. split; cbn.
    - apply pg_time_mono. unfold time_Before in *. lia.
    - rewrite orb_true_iff in *. destruct (bytes_eqb_spec (heartbeat_Service h) (bs "discovery")); [by left|].
      destruct (bytes_eqb_spec (heartbeat_Service h) (bs "worker")); [by right|]. naive_solver.
    - match goal with Hst : existsb _ _ = true |- _ => apply existsb_exists in Hst as (st & Hin & Heq) end.
      destruct (bytes_eqb_spec (heartbeat_State h) st) as [->|]; [by apply list_elem_of_In|done].
    - unfold heartbeat_checks in Hchk. b2p. destruct (bytes_eqb_spec (heartbeat_CurrentOrigin h) []); [by left|by right].
    - unfold heartbeat_checks in Hchk. b2p. lia. }
  destruct (heartbeats (crawl db) !! _); [|done]. by case_head.
Qed.

Lemma audit_schema db a db' : schema db -> insertControlAudit db a = Ok db' -> schema db'.
Proof.
  intros [Hs He Hr Ha Hv Hq Hqk Hvf Hru]. unfold insertControlAudit. destruct (audit_ok a) eqn:Hok; [|done]. intros [= <-].
  split; try done. destruct Hv as [Hh Hau]. split; [done|]. cbn. apply Forall_app. split; [done|]. by constructor.
Qed.

Lemma mutate_schema db a mutation : schema db -> schema (mutation db) -> schema (fst (mutate db a mutation)).
Proof.
  intros Hs Hm. unfold mutate. case_head; [done|]. destruct (insertControlAudit (mutation db) a) eqn:Hins; [|done].
  by eapply audit_schema.
Qed.

Lemma rejected_schema db a : schema db -> schema (fst (RecordRejected db a)).
Proof.
  intros Hs. unfold RecordRejected. case_head; [done|]. destruct (insertControlAudit db a) eqn:Hins; [|done].
  by eapply audit_schema.
Qed.
