(* ===== verification/Provenance.v ===== *)
(** * Where crawl sources come from

    A source is crawled because an operator seeded it, because it was promoted
    from a candidate, or because it once published a valid declaration. Each
    operation of the store keeps that, and none takes a source's lease
    generation back. *)

From S2P Require Import Prelude GoText GoUrl GoErrors GoNetip GoJson Retry Origin Netguard.
From S2P Require Import RobotsMatch RobotsPolicy RobotsPolicyFacts RobotsHTTP Declaration Verifier.
From S2P Require Import Discovery Crawler Store Queue QueueFacts Exclusions DiscoveryStore.
From S2P Require Import Admission DiscoveryLease CrawlTelemetry ControlStore.
From S2P Require Import DiscoverySchema.

#[local] Set Warnings "-clear-no-such-hyp".

Definition sanctioned (db : Database) (key : bytes) : Prop :=
  source_flag seeded db key = true \/ source_flag automatically_discovered db key = true \/ participated db key = true.

Record provenance (db : Database) : Prop := {
  prov_schedule : forall key, key ∈ source_schedule db -> sanctioned db key;
  prov_valid : forall row, row ∈ observations db -> obs_outcome row = OutcomeValid -> participated db (obs_origin row) = true;
}.

Definition generations_grow (db db' : Database) : Prop :=
  forall key s, source_state db !! key = Some s ->
    exists s', source_state db' !! key = Some s' /\ source_generation s <= source_generation s'.

(** What an operation may do to schedule, sources and observations. *)
Record stable (db db' : Database) : Prop := {
  stable_generation : generations_grow db db';
  stable_schedule : forall key, key ∈ source_schedule db' -> key ∈ source_schedule db \/ sanctioned db' key;
  stable_sanctioned : forall key, key ∈ source_schedule db' -> sanctioned db key -> sanctioned db' key;
  stable_participated : forall key, participated db key = true -> participated db' key = true;
  stable_valid : forall row, row ∈ observations db' -> obs_outcome row = OutcomeValid ->
    row ∈ observations db \/ participated db' (obs_origin row) = true;
}.

Lemma stable_provenance db db' : stable db db' -> provenance db -> provenance db'.
Proof.
  intros [_ Hs Hsan Hp Hv] [Hps Hpv]. split.
  - intros key Hk. destruct (Hs key Hk) as [Hin|]; [|done]. by apply Hsan, Hps.
  - intros row Hin Ho. destruct (Hv row Hin Ho) as [?|]; [|done]. by apply Hp, Hpv.
Qed.

(** Operations on other tables. *)
Definition core (db : Database) := (source_state db, source_schedule db, origins db, observations db).

Lemma core_stable db db' : core db' = core db -> stable db db'.
Proof.
  intros [= Hss Hsc Ho Hob]. unfold sanctioned, participated, source_flag.
  split; unfold generations_grow, sanctioned, participated, source_flag; rewrite ?Hss, ?Hsc, ?Ho, ?Hob; auto.
  intros key s Hk. exists s. split; [done|lia].
Qed.

(** A change of source rows only. *)
Lemma rows_stable db rows : (forall key s, source_state db !! key = Some s -> exists s', rows !! key = Some s'
    /\ source_generation s <= source_generation s'
    /\ (seeded s = true -> seeded s' = true) /\ (automatically_discovered s = true -> automatically_discovered s' = true)) ->
  stable db (set_source_state db rows).
Proof.
  intros Hr. split; [|by auto| |by auto|by auto].
  - intros key s Hk. destruct (Hr key s Hk) as (s' & ? & ? & _). by exists s'.
  - intros key _. unfold sanctioned, source_flag. cbn [source_state set_source_state].
    change (participated (set_source_state db rows) key) with (participated db key).
    destruct (source_state db !! key) as [s|] eqn:E; [|intros [?|[?|?]]; try done; by auto].
    destruct (Hr key s E) as (s' & -> & _ & ? & ?). tauto.
Qed.

Lemma upsert_stable db key f : (forall s, source_generation s <= source_generation (f s)
    /\ (seeded s = true -> seeded (f s) = true)
    /\ (automatically_discovered s = true -> automatically_discovered (f s) = true)) ->
  stable db (upsert_source db key f).
Proof.
  intros Hf. apply rows_stable. intros k s Hk. destruct (decide (k = key)) as [->|Hne].
  - rewrite lookup_insert_eq, Hk. eexists. split; [done|]. apply Hf.
  - rewrite lookup_insert_ne by done. exists s. split_and!; [done|lia|done|done].
Qed.

(** Sources may be added to the schedule when they are sanctioned. *)
Lemma scheduled_stable db db' keys : stable db db' -> (forall key, key ∈ keys -> sanctioned db' key) ->
  stable db (set_source_schedule db' (keys ∪ source_schedule db')).
Proof.
  intros [Hg Hs Hsan Hp Hv] Hk. split; [done| | |done|done].
  - intros key [Hin|Hin]%elem_of_union; [right; by apply Hk|by apply Hs].
  - intros key [Hin|Hin]%elem_of_union; [intros _; by apply Hk|by apply Hsan].
Qed.

Lemma unscheduled_stable db db' keys : stable db db' -> stable db (set_source_schedule db' (source_schedule db' ∖ keys)).
Proof.
  intros [Hg Hs Hsan Hp Hv]. split; [done| | |done|done]; intros key [Hin _]%elem_of_difference; [by apply Hs|by apply Hsan].
Qed.

(** ** Verified and kept sources *)

Lemma newest_in rows row : newest rows = Some row -> row ∈ rows.
Proof.
  revert row. induction rows as [|r rows IH] using rev_ind; intros row; [done|]. rewrite newest_snoc, elem_of_app.
  rewrite list_elem_of_singleton. destruct (newest rows) as [b|]; [case_head|]; intros [= <-]; auto.
Qed.

Lemma effective_in db key e : effective db key = Some e -> e ∈ observations db /\ obs_origin e = key.
Proof.
  unfold effective, rows_of. intros Hin%newest_in. rewrite list_elem_of_In, !filter_In in Hin.
  destruct Hin as [[Hin Hk] _]. split; [by apply list_elem_of_In|]. by destruct (bytes_eqb_spec (obs_origin e) key).
Qed.

Lemma verified_participated db key : provenance db -> verified db key = true -> participated db key = true.
Proof.
  intros Hp. unfold verified. destruct (effective db key) as [e|] eqn:He; [|done].
  apply effective_in in He as [Hin <-]. intros Hv%is_valid_spec. by apply (prov_valid _ Hp).
Qed.

(** What keeps its schedule without being a seed is sanctioned. *)
Lemma keeps_schedule_sanctioned db key automatic last : provenance db -> keeps_schedule db key automatic last = true ->
  automatic = true \/ participated db key = true.
Proof.
  intros Hp. unfold keeps_schedule. rewrite !orb_true_iff, !andb_true_iff, orb_true_iff.
  intros [[?%verified_participated|[? _]]|[[?|?] _]]; auto.
Qed.

(** ** Operations *)

Lemma exact_block_stable `{NetURL} `{NetIP} `{IDNA} `{Unicode} text_leb config db source blocked :
  stable db (setExactCrawlBlockTransaction text_leb config db source blocked).
Proof.
  unfold setExactCrawlBlockTransaction. cbv zeta. set (effectiveBlocked := blocked || _). unfold upsert_source.
  cbn [source_state set_source_state]. rewrite lookup_insert_eq. cbn [default]. rewrite insert_insert_eq.
  apply (upsert_stable db (origin_String source) (fun s => set_blocked blocked effectiveBlocked (set_blocked blocked blocked s))).
  intros s. split_and!; [done|done|done].
Qed.

Lemma recompute_stable `{NetURL} `{NetIP} `{IDNA} `{Unicode} text_leb config db : schema db ->
  stable db (fst (recomputeAutomaticCrawlBlocksTransaction text_leb config db)).
Proof.
  intros Hs. pose proof (recompute_correct text_leb config db) as Hr.
  destruct (recomputeAutomaticCrawlBlocksTransaction text_leb config db) as [db' n]. cbn [fst].
  destruct Hr as (-> & Hst & _); [intros key s Hk; by apply (source_block key), (sources_rows _ _ (schema_sources _ Hs))|].
  apply rows_stable. intros key s Hk. rewrite Hst, Hk. eexists. split; [done|].
  unfold apply_policy. by destruct (governed s).
Qed.

Lemma add_seed_stable db source : stable db (fst (AddCrawlSeed db source)).
Proof.
  unfold AddCrawlSeed. cbv zeta. case_head; [by apply core_stable|]. cbn [fst].
  change (upsert_source (set_source_schedule db ({[origin_String source]} ∪ source_schedule db)) (origin_String source) (set_seeded true))
    with (set_source_schedule (upsert_source db (origin_String source) (set_seeded true))
            ({[origin_String source]} ∪ source_schedule (upsert_source db (origin_String source) (set_seeded true)))).
  apply scheduled_stable; [by apply upsert_stable|]. intros key ->%elem_of_singleton. left. unfold source_flag. cbn.
  by rewrite lookup_insert_eq.
Qed.

Lemma remove_seed_stable db source : provenance db -> stable db (fst (RemoveCrawlSeed db source)).
Proof.
  intros Hp. unfold RemoveCrawlSeed. cbv zeta. case_head; [by apply core_stable|].
  set (key := origin_String source). destruct (source_state db !! key) as [s|] eqn:Hk; [|by apply core_stable]. cbn [fst].
  set (db' := set_source_state db _).
  assert (Hrow : source_state db' !! key = Some (set_seeded false s)) by (apply lookup_insert_eq).
  assert (Hg : generations_grow db db').
  { intros k t Ht. cbn. destruct (decide (k = key)) as [->|Hne]; [rewrite lookup_insert_eq|rewrite lookup_insert_ne by done].
    - eexists. split; [done|]. rewrite Hk in Ht. by injection Ht as <-.
    - exists t. split; [done|lia]. }
  assert (Hother : forall k, k <> key -> sanctioned db k -> sanctioned db' k).
  { intros k Hne. unfold sanctioned, source_flag, db'. cbn [source_state set_source_state]. by rewrite lookup_insert_ne. }
  destruct (keeps_schedule _ _ _ _) eqn:Hkeep.
  - split; [done|by auto| |by auto|by auto].
    intros k _ Hsan. destruct (decide (k = key)) as [->|Hne]; [|by apply Hother]. right. unfold source_flag. rewrite Hrow. cbn.
    by eapply (keeps_schedule_sanctioned db key).
  - split; [done| | |by auto|by auto]; intros k [Hin Hne]%elem_of_difference.
    + by left.
    + apply Hother. by rewrite elem_of_singleton in Hne.
Qed.

Lemma ensure_seeds_stable db : stable db (fst (EnsureSeededSourcesScheduled db)).
Proof.
  cbn [fst EnsureSeededSourcesScheduled]. apply (scheduled_stable db db); [by apply core_stable|].
  intros key. rewrite elem_of_list_to_set. intros (s & Hk & Hsd)%seeded_keys_spec. left. unfold source_flag. by rewrite Hk.
Qed.

Lemma cancel_runs_core db f now reason db' : cancel_runs db f now reason = Ok db' -> core db' = core db.
Proof. by intros [-> _]%cancel_runs_Ok. Qed.

Lemma stable_core_trans db db1 db' : stable db db1 -> core db' = core db1 -> stable db db'.
Proof.
  intros [Hg Hs Hsan Hp Hv] [= Hss Hsc Ho Hob].
  assert (Hsanc : forall key, sanctioned db' key <-> sanctioned db1 key).
  { intros key. unfold sanctioned, source_flag, participated. by rewrite Hss, Ho. }
  assert (Hpart : forall key, participated db' key = participated db1 key) by (intros key; unfold participated; by rewrite Ho).
  split; unfold generations_grow; setoid_rewrite Hpart || idtac; rewrite ?Hss, ?Hsc, ?Hob; try done.
  - intros key Hk. rewrite Hsanc. by apply Hs.
  - intros key Hk. rewrite Hsanc. by apply Hsan.
Qed.

(** A source row replaced by one with the same flags and at least its
    generation. *)
Lemma replace_stable db key s s' : source_state db !! key = Some s -> source_generation s <= source_generation s' ->
  seeded s' = seeded s -> automatically_discovered s' = automatically_discovered s ->
  stable db (set_source_state db (<[key := s']> (source_state db))).
Proof.
  intros Hk Hg Hsd Hau. apply rows_stable. intros k t Ht. destruct (decide (k = key)) as [->|Hne].
  - rewrite lookup_insert_eq. rewrite Hk in Ht. injection Ht as <-. exists s'. rewrite Hsd, Hau. done.
  - rewrite lookup_insert_ne by done. exists t. split_and!; [done|lia|done|done].
Qed.

Section Leases.
Context `{NetURL} `{NetIP} `{IDNA}.
Variable text_leb : bytes -> bytes -> bool.
Variable make_interval : Z -> Z.
Variable config : AutomaticCrawlConfig.
Variable locked : bytes -> bool.

Lemma claim_source_stable db owner interval leaseDuration now :
  stable db (fst (ClaimDiscoverySourceLease text_leb make_interval config locked db owner interval leaseDuration now)).
Proof.
  assert (Hrefl : stable db db) by (by apply core_stable).
  unfold ClaimDiscoverySourceLease. do 4 (case_head; [done|]). cbv zeta. destruct (first_source _ _ _ _ _ _ _) as [key|]; [|done].
  destruct (Origin.Parse key) as [source|]; [|done]. case_head; [done|].
  set (db1 := set_source_state db _). assert (Hs1 : stable db db1).
  { apply (upsert_stable db key (claim_source owner (pg_time now) (pg_time (time_Add now leaseDuration)))).
    intros s. cbn. split_and!; [lia|done|done]. }
  destruct (cancel_runs db1 _ _ _) as [db2|] eqn:H2; [|done]. cbn [res_bind].
  destruct (cancel_runs db2 _ _ _) as [db3|] eqn:H3; [|done]. cbn [fst].
  apply cancel_runs_core in H2, H3. eapply stable_core_trans; [exact Hs1|]. congruence.
Qed.
End Leases.

Lemma renew_source_stable db l leaseDuration now : stable db (fst (RenewDiscoverySourceLease db l leaseDuration now)).
Proof.
  assert (Hrefl : stable db db) by (by apply core_stable).
  unfold RenewDiscoverySourceLease. do 2 (case_head; [done|]). cbv zeta.
  destruct (source_state db !! _) as [s|] eqn:Hk; [|done]. case_head; [|done]. cbn [fst]. by eapply replace_stable.
Qed.

Lemma complete_source_stable delay db l category retryAfter now :
  stable db (fst (CompleteDiscoverySourceLeaseRetry delay db l category retryAfter now)).
Proof.
  assert (Hrefl : stable db db) by (by apply core_stable).
  unfold CompleteDiscoverySourceLeaseRetry. do 2 (case_head; [done|]). cbv zeta.
  destruct (source_state db !! _) as [s|] eqn:Hk; [|done]. case_head; [|done].
  set (db1 := set_source_state db _). assert (Hs1 : stable db db1) by (by eapply replace_stable).
  destruct (cancel_runs db1 _ _ _) as [db2|] eqn:H2; [|done]. apply cancel_runs_core in H2. by eapply stable_core_trans.
Qed.

Lemma insert_probes_core db keys at_ : core (fst (insert_probes db keys at_)) = core db.
Proof.
  pose proof (insert_probes_spec keys db at_) as Hi. destruct (insert_probes db keys at_) as [db' n]. cbn [fst].
  by destruct Hi as (-> & _).
Qed.

Section Evidence.
Context `{NetURL} `{NetIP} `{IDNA} `{Unicode}.
Variable text_leb : bytes -> bytes -> bool.
Variable sql_lower : bytes -> bytes.
Variable config : AutomaticCrawlConfig.
Variable delay : Z -> Z -> Z.

Lemma schedule_probes_core db l availableAt stmt :
  core (fst (scheduleProbeCandidatesCounted text_leb config db l availableAt stmt)) = core db.
Proof.
  unfold scheduleProbeCandidatesCounted. cbv zeta. destruct (map _ _) eqn:E; [done|]. rewrite <- E.
  apply insert_probes_core.
Qed.

Lemma evidence_stable runID source at_ l db db' : provenance db -> evidence_recorded runID source at_ l db db' -> stable db db'.
Proof.
  intros Hp [Hf _ _ _ Hsch].
  assert (Hsan : forall key, sanctioned db' key <-> sanctioned db key) by (intros key; by rewrite Hf).
  assert (Hg : generations_grow db db').
  { intros key s Hk. exists s. split; [by rewrite Hf|lia]. }
  split; [done| |intros key _; by rewrite Hsan|by rewrite Hf|rewrite Hf; by auto].
  intros key [Hin|[_ Hr]]%Hsch; [by left|right]. rewrite Hsan. right.
  by apply keeps_schedule_sanctioned in Hr.
Qed.

Lemma record_stable db runID source l now stmt : provenance db ->
  stable db (fst (recordDiscovery text_leb config db runID source l now stmt)).
Proof.
  intros Hp. pose proof (recordDiscovery_spec text_leb config db runID source l now stmt) as Hr.
  destruct (recordDiscovery text_leb config db runID source l now stmt) as [db' [n|e]]; cbn [fst]; [|subst; by apply core_stable].
  destruct Hr as (_ & _ & _ & Hnil & Hne). destruct l as [|c l]; [rewrite Hnil by done; by apply core_stable|].
  destruct Hne as (_ & _ & _ & db1 & k & Hev & Hprobes & _); [done|].
  eapply stable_core_trans; [by eapply evidence_stable|]. by rewrite Hprobes.
Qed.

Lemma record_run_stable db runID source l now stmt : provenance db ->
  stable db (fst (RecordDiscoveryForRun text_leb config db runID source l now stmt)).
Proof. intros Hp. unfold RecordDiscoveryForRun. case_head; [by apply core_stable|by apply record_stable]. Qed.

Lemma pending_probes_core db now stmt : core (fst (SchedulePendingDiscoveryProbes text_leb config db now stmt)) = core db.
Proof.
  unfold SchedulePendingDiscoveryProbes. cbv zeta. destruct (parse_all _) as [os|]; [|done].
  pose proof (schedule_probes_core db (map (fun o => mkCandidate o KindLink) os) now stmt) as Hp.
  by destruct (scheduleProbeCandidatesCounted _ _ _ _ _ _).
Qed.

Lemma allocate_core reads runID keys db : core (fold_left (allocate reads runID) keys db) = core db.
Proof. revert db. induction keys as [|key keys IH]; intros db; cbn [fold_left]; [done|]. by rewrite IH. Qed.

Lemma pending_candidates_core db runID now stmt :
  core (fst (PendingAutomaticCandidates text_leb sql_lower config db runID now stmt)) = core db.
Proof.
  unfold PendingAutomaticCandidates. do 2 (case_head; [done|]). destruct (runs (crawl db) !! runID) as [run|]; [|done].
  case_head; [done|]. cbv zeta. destruct (parse_all _); [|done]. cbn [fst]. unfold admit_redirects. cbv zeta.
  destruct (0 <? max_automatic_promotions run - batch_count db runID);
    (case_head; [rewrite insert_probes_core|]); rewrite ?allocate_core; done.
Qed.

Lemma complete_candidates_stable db runID results now stmt :
  stable db (fst (CompleteAutomaticCandidates text_leb config delay db runID results now stmt)).
Proof.
  assert (Hrefl : stable db db) by (by apply core_stable).
  destruct (automatic_Enabled config) eqn:Hen; [|unfold CompleteAutomaticCandidates; by rewrite Hen].
  assert (Hbad : (forall run, runs (crawl db) !! runID = Some run -> is_Some (run_finished_at run)) ->
    stable db (fst (CompleteAutomaticCandidates text_leb config delay db runID results now stmt))).
  { intros Hno. unfold CompleteAutomaticCandidates. rewrite Hen. cbn [negb]. case_head; [done|].
    destruct (prepareAdmissionCandidates _); [|done]. case_head; [done|].
    destruct (runs (crawl db) !! runID) as [run|]; [|done]. by rewrite bool_decide_eq_true_2 by (by apply Hno). }
  destruct (runs (crawl db) !! runID) as [run|] eqn:Hrun; [|by apply Hbad].
  destruct (run_finished_at run) eqn:Hfin; [apply Hbad; intros ? [= <-]; rewrite Hfin; by eexists|]. clear Hbad.
  pose proof (CompleteAutomaticCandidates_spec text_leb config delay db runID results now stmt run Hen Hrun Hfin) as Hspec.
  destruct (CompleteAutomaticCandidates _ _ _ _ _ _ _ _) as [db' [e|]]; cbn [fst]; [by subst|].
  destruct Hspec as [_ Hprom Hkept _ _ Hoth (Ho & Hob & _)].
  assert (Hcase : forall key, promoted_source db db' key /\ key ∈ source_schedule db'
    \/ source_state db' !! key = source_state db !! key /\ (key ∈ source_schedule db' <-> key ∈ source_schedule db)).
  { intros key. destruct (decide (key ∈ pending_keys db runID)) as [Hin|Hin].
    - destruct (decide (outcome_at runID db' key = Some promoted)) as [Hp|Hp]; [left|right; by apply Hkept].
      by destruct (Hprom key Hin Hp) as (? & ? & _).
    - right. destruct (Hoth key Hin) as [Hst _]. by apply stored_at_spec in Hst as (? & ? & _). }
  assert (Hpart : forall key, participated db' key = participated db key) by (intros key; unfold participated; by rewrite Ho).
  split.
  - intros key s Hk. destruct (Hcase key) as [[Hp _]|[-> _]]; [|exists s; split; [done|lia]].
    rewrite Hp, Hk. eexists. split; [done|]. cbn. lia.
  - intros key Hk. destruct (Hcase key) as [[Hp _]|[_ Hsc]]; [right|left; by apply Hsc].
    right. left. unfold source_flag. by rewrite Hp.
  - intros key Hk. destruct (Hcase key) as [[Hp _]|[Hss _]].
    + intros _. right. left. unfold source_flag. by rewrite Hp.
    + unfold sanctioned, source_flag. by rewrite Hss, Hpart.
  - intros key. by rewrite Hpart.
  - rewrite Hob. by auto.
Qed.
End Evidence.

(** ** Observations *)

Lemma merge_participated stored excluded : is_Some (first_participated_at stored) ->
  is_Some (first_participated_at (merge_origin stored excluded)).
Proof.
  intros [t Ht]. unfold merge_origin. cbn. rewrite Ht. destruct (first_participated_at excluded) as [u|]; cbn; [|by eexists].
  case_head; by eexists.
Qed.

Lemma merge_valid stored at_ d : is_Some (first_participated_at (merge_origin stored (proposed_origin at_ OutcomeValid d))).
Proof.
  unfold merge_origin, proposed_origin. cbn. destruct (first_participated_at stored) as [t|]; cbn; [case_head|]; by eexists.
Qed.

Lemma record_observation_participated db key at_ o d :
  (forall k, participated db k = true -> participated (record_observation db key at_ o d) k = true)
  /\ (o = OutcomeValid -> participated (record_observation db key at_ o d) key = true).
Proof.
  unfold participated. cbn [origins record_observation]. unfold upsert_origin. split.
  - intros k. destruct (decide (k = key)) as [->|Hne]; [|by rewrite lookup_insert_ne]. rewrite lookup_insert_eq.
    destruct (origins db !! key) as [row|]; [|done]. rewrite !bool_decide_eq_true. apply merge_participated.
  - intros ->. rewrite lookup_insert_eq. apply bool_decide_eq_true.
    destruct (origins db !! key) as [row|]; [apply merge_valid|by eexists].
Qed.

Lemma record_observation_stable db key at_ o d : stable db (record_observation db key at_ o d).
Proof.
  destruct (record_observation_participated db key at_ o d) as [Hmono Hvalid]. split; [|by auto| |done|].
  - intros k s Hk. exists s. split; [done|lia].
  - intros k _. unfold sanctioned. change (source_flag ?f (record_observation db key at_ o d) k) with (source_flag f db k).
    intros [?|[?|?]]; auto.
  - intros row. cbn [observations record_observation]. rewrite elem_of_app, list_elem_of_singleton.
    intros [Hin| ->]; [by left|]. cbn. intros ->. right. by apply Hvalid.
Qed.

Lemma verification_stable db observedAt r : stable db (fst (RecordVerification db observedAt r)).
Proof.
  unfold RecordVerification. do 3 (case_head; [by apply core_stable|]). apply record_observation_stable.
Qed.

Lemma complete_verification_stable config make_interval delay db l r recheckAfter now :
  stable db (fst (CompleteVerification config make_interval delay db l r recheckAfter now)).
Proof.
  assert (Hrefl : stable db db) by (by apply core_stable).
  unfold CompleteVerification. do 5 (case_head; [done|]). cbv zeta. destruct (queue db !! _) as [row|]; [|done].
  case_head; [|done]. cbn [fst]. unfold complete_row. cbv zeta. set (q := if removes r row then _ else _).
  set (db1 := record_observation (set_queue db q) _ _ _ _).
  assert (Hs : stable db db1).
  { pose proof (record_observation_stable (set_queue db q) (origin_String (lease_Origin l)) (pg_time now)
      (result_Outcome r) (storedDeclarationValues r)) as [Hg Hs Hsan Hp Hv]. by split. }
  unfold scheduled_sources. destruct (is_valid (result_Outcome r)) eqn:Hv.
  - apply (scheduled_stable db db1 {[ origin_String (lease_Origin l) ]}); [done|]. intros key ->%elem_of_singleton.
    right. right. apply is_valid_spec in Hv. by apply record_observation_participated.
  - destruct (unschedules _ _ _ _); [by apply (unscheduled_stable db db1)|]. by destruct Hs.
Qed.

Lemma retained_subset db cutoff row : row ∈ retained_observations db cutoff -> row ∈ observations db.
Proof.
  unfold retained_observations, indexed. rewrite list_elem_of_In, in_map_iff. intros ([i r] & <- & [Hin _]%filter_In).
  apply list_elem_of_In, elem_of_lookup_imap in Hin as (j & y & [= -> ->] & Hj). by eapply list_elem_of_lookup_2.
Qed.

Lemma purge_history_stable make_interval db retention now : stable db (fst (PurgeOperationalHistory make_interval db retention now)).
Proof.
  unfold PurgeOperationalHistory. case_head; [by apply core_stable|]. cbv zeta. cbn [fst].
  split; [|by auto|by auto|by auto|].
  - intros key s Hk. exists s. split; [done|lia].
  - intros row Hin Ho. left. by apply retained_subset in Hin.
Qed.

(** ** Operator mutations *)

Lemma mutate_stable db a mutation : stable db (mutation db) -> stable db (fst (mutate db a mutation)).
Proof.
  intros Hm. unfold mutate. case_head; [by apply core_stable|]. unfold insertControlAudit.
  destruct (audit_ok a); [|by apply core_stable]. cbn [fst]. by eapply stable_core_trans.
Qed.
