(* ===== verification/DiscoverySystem.v ===== *)
(** * The store as one system

    Every operation of the store that writes, as one step relation on the
    database, with the invariants all of them keep: the constraints of the
    schema, and where the sources that are crawled come from. *)

From S2P Require Import Prelude GoText GoUrl GoErrors GoNetip GoJson Retry Origin Netguard.
From S2P Require Import RobotsMatch RobotsPolicy RobotsPolicyFacts RobotsHTTP Declaration Verifier.
From S2P Require Import Discovery Crawler Store Queue QueueFacts Exclusions DiscoveryStore.
From S2P Require Import Admission DiscoveryLease CrawlTelemetry ControlStore.
From S2P Require Import DiscoverySchema AdmissionSchema Provenance.

#[local] Set Warnings "-clear-no-such-hyp".

Section System.
Context `{NetURL} `{NetIP} `{IDNA} `{!NetIPLaws} `{Unicode}.
Variable text_leb : bytes -> bytes -> bool.
Variable sql_lower : bytes -> bytes.
Variable make_interval : Z -> Z.
Variable config : AutomaticCrawlConfig.
Variable queueConfig : QueueConfig.
Variable excludedHosts : bytes.
Variable delay : Z -> Z -> Z.

(** ** The steps *)

Inductive store_step (db : Database) : Database -> Prop :=
(** operators: seeds, blocks, pauses, avoid rules *)
| s_add_seed source : store_step db (fst (AddCrawlSeed db source))
| s_remove_seed source : store_step db (fst (RemoveCrawlSeed db source))
| s_ensure_seeds : store_step db (fst (EnsureSeededSourcesScheduled db))
| s_block source blocked : store_step db (fst (SetCrawlBlocked text_leb config db source blocked))
| s_reconcile : store_step db (fst (ReconcileAutomaticCrawlPolicy text_leb config db))
| s_processor processor paused a now : store_step db (fst (SetProcessorPaused db processor paused a now))
| s_expansion paused a now : store_step db (fst (SetAutomaticExpansionPaused db paused a now))
| s_add_avoid pattern a : store_step db (fst (AddDomainAvoid text_leb excludedHosts db pattern a))
| s_remove_avoid pattern a : store_step db (fst (RemoveDomainAvoid text_leb excludedHosts db pattern a))
| s_origin_block raw blocked a : store_step db (fst (SetOriginBlocked text_leb excludedHosts db raw blocked a))
| s_rejected a : store_step db (fst (RecordRejected db a))
(** the crawl runner: leases, evidence, admission, telemetry *)
| s_claim_source locked owner interval leaseDuration now :
    store_step db (fst (ClaimDiscoverySourceLease text_leb make_interval config locked db owner interval leaseDuration now))
| s_renew_source l leaseDuration now : store_step db (fst (RenewDiscoverySourceLease db l leaseDuration now))
| s_complete_source l category retryAfter now :
    store_step db (fst (CompleteDiscoverySourceLeaseRetry delay db l category retryAfter now))
| s_record source l now stmt : parsed_origin source -> Forall (fun c => parsed_origin (candidate_Origin c)) l ->
    store_step db (fst (RecordDiscovery text_leb config db source l now stmt))
| s_record_run runID source l now stmt : parsed_origin source -> Forall (fun c => parsed_origin (candidate_Origin c)) l ->
    store_step db (fst (RecordDiscoveryForRun text_leb config db runID source l now stmt))
| s_pending_probes now stmt : store_step db (fst (SchedulePendingDiscoveryProbes text_leb config db now stmt))
| s_pending_candidates runID now stmt :
    store_step db (fst (PendingAutomaticCandidates text_leb sql_lower config db runID now stmt))
| s_complete_candidates runID results now stmt :
    store_step db (fst (CompleteAutomaticCandidates text_leb config delay db runID results now stmt))
| s_begin source c now : store_step db (fst (BeginCrawl config db source c now))
| s_attempt runID a : store_step db (fst (RecordPageAttempt db runID a))
| s_finish runID result outcome stopReason remaining now :
    store_step db (fst (FinishCrawlSummary db runID result outcome stopReason remaining now))
| s_heartbeat h : store_step db (fst (UpsertServiceHeartbeat db h))
(** maintenance *)
| s_purge_telemetry retention now : store_step db (fst (PurgeCrawlTelemetry make_interval db retention now))
| s_purge_history retention now : store_step db (fst (PurgeOperationalHistory make_interval db retention now))
(** the verification worker *)
| s_schedule source availableAt now : store_step db (fst (Schedule db source availableAt now))
| s_claim locked workerID now : store_step db (fst (Claim queueConfig text_leb locked db workerID now))
| s_renew l now : store_step db (fst (Renew queueConfig db l now))
| s_reschedule l availableAt now : store_step db (fst (Reschedule queueConfig make_interval db l availableAt now))
| s_abandon l now : store_step db (fst (AbandonVerification db l now))
| s_complete l r recheckAfter now :
    store_step db (fst (CompleteVerification queueConfig make_interval delay db l r recheckAfter now))
| s_verification observedAt r : store_step db (fst (RecordVerification db observedAt r)).

(** ** Operator control *)

Lemma processor_schema db processor paused a now : schema db ->
  schema (fst (SetProcessorPaused db processor paused a now)).
Proof.
  intros Hs. unfold SetProcessorPaused. cbv zeta. destruct (negb _ && negb _); [done|].
  destruct (negb (controlAuditMatches _ _ _)); [done|]. apply mutate_schema; [done|].
  unfold set_processor_paused. case_head; by destruct Hs.
Qed.

Lemma expansion_schema db paused a now : schema db -> schema (fst (SetAutomaticExpansionPaused db paused a now)).
Proof.
  intros Hs. unfold SetAutomaticExpansionPaused. destruct (negb _); [done|]. apply mutate_schema; [done|]. by destruct Hs.
Qed.

(** *** The patterns of avoid rules *)

Definition blank (c : ascii) : bool := existsb (existsb (byte_eqb c)) space_encodings.

Lemma trim_encodings_split fuel encodings s : Forall (fun e => forallb blank e = true) encodings ->
  exists a, s = a ++ trim_encodings fuel encodings s /\ forallb blank a = true.
Proof.
  intros He. revert s. induction fuel as [|fuel IH]; intros s; cbn [trim_encodings]; [by exists []|].
  destruct (List.find (HasPrefix s) encodings) as [e|] eqn:Hf; [|by exists []].
  apply find_some in Hf as [Hin%list_elem_of_In Hp]. destruct (IH (drop (length e) s)) as (a & Ha & Hb).
  apply HasPrefix_spec in Hp as [t ->]. rewrite drop_app_length in *. exists (e ++ a). rewrite Ha at 1.
  split; [by rewrite app_assoc|]. rewrite forallb_app, Hb, andb_true_r. by apply (proj1 (Forall_forall _ _) He).
Qed.

Lemma TrimSpace_split s : exists a b, s = a ++ TrimSpace s ++ b /\ forallb blank a = true /\ forallb blank b = true.
Proof.
  unfold TrimSpace. destruct (trim_encodings_split (length s) space_encodings s) as (a & Ha & Hblank).
  { repeat (constructor; [by vm_compute|]). constructor. }
  set (left := trim_encodings (length s) space_encodings s) in *.
  destruct (trim_encodings_split (length left) (map (@rev ascii) space_encodings) (rev left)) as (b & Hb & Hblank').
  { repeat (constructor; [by vm_compute|]). constructor. }
  exists a, (rev b). split_and!; [|done|by rewrite forallb_rev]. rewrite <- rev_app_distr, <- Hb, rev_involutive. exact Ha.
Qed.

Lemma blank_free s chars : forallb (fun c => negb (blank c)) chars = true -> forallb blank s = true -> ContainsAny s chars = false.
Proof.
  intros Hc Hs. apply not_true_is_false. intros (c & Hin & Hcc)%existsb_exists.
  apply existsb_exists in Hcc as (d & Hd & Heq). destruct (byte_eqb_spec c d) as [->|]; [|done].
  rewrite forallb_forall in Hc, Hs. specialize (Hc d Hd). specialize (Hs d Hin). by rewrite Hs in Hc.
Qed.

Lemma dot_prefix_blank a q b : forallb blank a = true -> forallb blank b = true ->
  HasPrefix (a ++ q ++ b) (bs ".") = true -> HasPrefix q (bs ".") = true.
Proof.
  assert (Hd : forall c s rest t, forallb blank (c :: s) = true -> c :: rest <> bs "." ++ t).
  { intros c s rest t [Hc _]%andb_true_iff [= -> _]. by vm_compute in Hc. }
  intros Ha Hb [t Ht]%HasPrefix_spec. apply HasPrefix_spec. destruct a as [|c a]; [|by apply (Hd c a) in Ht].
  destruct q as [|c q]; [destruct b as [|c b]; [done|by apply (Hd c b) in Ht]|].
  exists q. cbn in *. by injection Ht as -> _.
Qed.

Lemma TrimSuffix_cases s suffix : s = TrimSuffix s suffix \/ s = TrimSuffix s suffix ++ suffix.
Proof.
  unfold TrimSuffix. destruct (HasSuffix s suffix) eqn:Hs; [right|by left]. apply HasSuffix_spec in Hs as [t ->].
  by rewrite length_app, Nat.add_sub, take_app_length.
Qed.

Lemma valid_suffix_rule suffix : valid_suffix suffix = true -> rule_ok suffix.
Proof.
  unfold valid_suffix, rule_ok. cbv zeta. intros Hv. b2p.
  set (family := TrimSuffix suffix (bs ".*")) in *. destruct (bytes_eqb_spec family []) as [|Hne]; [done|].
  assert (Hfree : ContainsAny family (bs "/:@?#_%\") = false).
  { apply not_true_is_false. intros (c & Hin & Hc)%existsb_exists. apply existsb_exists in Hc as (d & Hd & Heq).
    assert (ContainsAny family (bs "/:@?#*_%\") = true); [|congruence]. apply existsb_exists. exists c. split; [done|].
    apply existsb_exists. exists d. split; [|done]. cbn in *. tauto. }
  destruct (TrimSuffix_cases suffix (bs ".*")) as [Hs|Hs]; fold family in Hs.
  - rewrite Hs in *. split_and!; done.
  - rewrite Hs in *. split_and!; [by destruct family| |done|].
    + unfold ContainsAny in *. by rewrite existsb_app, Hfree.
    + unfold HasSuffix. by rewrite rev_app_distr.
Qed.

Lemma domain_rule_ok pattern p : domain_rule pattern = Some p -> rule_ok p.
Proof.
  unfold domain_rule. cbv zeta. destruct (_ || _) eqn:Hguard; [done|]. intros [= <-]. set (p := ToLower (TrimSpace pattern)) in *.
  rewrite !orb_false_iff, negb_false_iff in Hguard. destruct Hguard as [[Hne Hcomma] Hval].
  destruct (bytes_eqb_spec p []) as [|Hp]; [done|]. unfold validExcludedHostSuffixes in Hval.
  rewrite Split_none in Hval by (rewrite <- Contains_spec; by rewrite Hcomma).
  cbn [forallb] in Hval. rewrite andb_true_r in Hval.
  destruct (TrimSpace_split p) as (a & b & Hsplit & Ha & Hb).
  assert (Hq : TrimSpace p = [] \/ rule_ok (TrimSpace p)).
  { destruct (bytes_eqb_spec (TrimSpace p) []); [by left|right]. by apply valid_suffix_rule. }
  assert (Hq' : ContainsAny (TrimSpace p) (bs "/:@?#_%\") = false /\ HasPrefix (TrimSpace p) (bs ".") = false
    /\ HasSuffix (TrimSpace p) (bs ".") = false) by (destruct Hq as [->|(_ & Hq)]; done).
  destruct Hq' as (Hc & Hpre & Hsuf). split; [done|]. rewrite Hsplit. split_and!.
  - unfold ContainsAny. rewrite !existsb_app. apply orb_false_iff. split; [by apply (blank_free a)|].
    apply orb_false_iff. split; [done|by apply (blank_free b)].
  - apply not_true_is_false. intros Hd. by rewrite (dot_prefix_blank a (TrimSpace p) b Ha Hb Hd) in Hpre.
  - apply not_true_is_false. unfold HasSuffix in *. rewrite !rev_app_distr, <- app_assoc.
    intros Hd. rewrite <- forallb_rev in Ha, Hb. change (rev (bs ".")) with (bs ".") in *.
    by rewrite (dot_prefix_blank _ (rev (TrimSpace p)) _ Hb Ha Hd) in Hsuf.
Qed.

(** Only valid rules are added. *)
Definition rules_from (f : gset bytes -> gset bytes) : Prop :=
  forall rules pattern, pattern ∈ f rules -> pattern ∈ rules \/ rule_ok pattern.

Lemma add_rule_from pattern p : domain_rule pattern = Some p -> rules_from (fun rules => {[ p ]} ∪ rules).
Proof.
  intros Hp%domain_rule_ok rules q. rewrite elem_of_union, elem_of_singleton. intros [->|]; auto.
Qed.

Lemma remove_rule_from p : rules_from (fun rules => rules ∖ {[ p ]}).
Proof. intros rules q [? _]%elem_of_difference. by left. Qed.

Lemma avoid_rules_schema f db : schema db -> rules_from f ->
  schema (with_crawl db (fun t => set_avoid_rules (f (avoid_rules t)) t)).
Proof.
  intros [? ? ? ? ? ? ? ? Hru] Hf. split; try done. cbn. intros pattern [Hin|]%Hf; [by apply Hru|done].
Qed.

Lemma set_rules_schema f db : schema db -> rules_from f ->
  schema (set_rules text_leb excludedHosts f db).
Proof.
  intros Hs Hf. unfold set_rules. cbv zeta. by apply recompute_schema, avoid_rules_schema.
Qed.

Lemma add_avoid_schema db pattern a : schema db -> schema (fst (AddDomainAvoid text_leb excludedHosts db pattern a)).
Proof.
  intros Hs. unfold AddDomainAvoid. destruct (domain_rule pattern) as [p|] eqn:Hp; [|done]. case_head; [done|].
  apply mutate_schema; [done|]. apply set_rules_schema; [done|by eapply add_rule_from].
Qed.

Lemma remove_avoid_schema db pattern a : schema db -> schema (fst (RemoveDomainAvoid text_leb excludedHosts db pattern a)).
Proof.
  intros Hs. unfold RemoveDomainAvoid. destruct (domain_rule pattern); [|done]. case_head; [done|].
  apply mutate_schema; [done|]. apply set_rules_schema; [done|apply remove_rule_from].
Qed.

Lemma origin_block_schema db raw blocked a : schema db ->
  schema (fst (SetOriginBlocked text_leb excludedHosts db raw blocked a)).
Proof.
  intros Hs. unfold SetOriginBlocked. destruct (Origin.Parse raw) as [source|] eqn:Hp; [|done]. do 2 (destruct (negb _); [done|]).
  apply mutate_schema; [done|]. apply exact_block_schema; [done|by eapply parsed_nonempty].
Qed.

Lemma block_schema db source blocked : schema db -> schema (fst (SetCrawlBlocked text_leb config db source blocked)).
Proof.
  intros Hs. unfold SetCrawlBlocked. destruct (bytes_eqb_spec (origin_String source) []) as [|Hk]; [done|].
  by apply exact_block_schema.
Qed.

(** ** The verification queue *)

Section QueueOps.
Hypothesis queue_valid : validQueueConfig queueConfig = true.
Hypothesis lease_micro : LeaseDuration queueConfig mod Microsecond = 0.
Hypothesis interval_micro : MinOriginInterval queueConfig mod Microsecond = 0.
Hypothesis make_interval_exact : forall d, d mod Microsecond = 0 -> make_interval d = d.

(** The tables that the queue's operations write. *)
Definition queue_frame (db db' : Database) : Prop :=
  source_state db' = source_state db /\ candidates db' = candidates db /\ crawl db' = crawl db.

Lemma queue_schema db db' : schema db -> queue_frame db db' -> constraints db' ->
  sources_ok (source_state db) (source_schedule db') -> (forall key, is_Some (queue db' !! key) -> key <> []) ->
  verified_ok (origins db') (observations db') (reprobe_state db') -> schema db'.
Proof.
  intros [Hs He Hr Ha Hv Hq Hqk Hvf Hru] (Hss & Hc & Hcr) Hcon Hsrc Hqk' Hvf'. split; rewrite ?Hss, ?Hc, ?Hcr; done.
Qed.

(** One step of the queue's own system keeps its constraints. *)
Lemma queue_constraints db db' now log :
  QueueFacts.step queueConfig make_interval text_leb delay (mkSys db now []) (mkSys db' now log) -> schema db -> constraints db'.
Proof.
  intros Hstep Hs. eapply (ok_constraints queueConfig (mkSys db' now log)), queue_step_ok; [..|exact Hstep]; try done.
  split; [apply Hs|done|done|apply Forall_nil_2].
Qed.

Lemma quiet_queue_schema db db' now log :
  QueueFacts.step queueConfig make_interval text_leb delay (mkSys db now []) (mkSys db' now log) -> schema db ->
  db' = set_queue db (queue db') ->
  (forall key, is_Some (queue db' !! key) -> is_Some (queue db !! key) \/ key <> []) -> schema db'.
Proof.
  intros Hstep Hs Hdb Hkeys. pose proof (queue_constraints _ _ _ _ Hstep Hs) as Hcon. rewrite Hdb.
  eapply queue_schema; [done|by split|by rewrite <- Hdb|apply Hs| |apply Hs].
  intros key [Hk|]%Hkeys; [by apply (schema_queue_keys _ Hs)|done].
Qed.

(** Replacing a row that exists, or adding one with a key, adds no empty key. *)
Lemma insert_keys (db : Database) key row : is_Some (queue db !! key) \/ key <> [] ->
  forall k, is_Some (<[key := row]> (queue db) !! k) -> is_Some (queue db !! k) \/ k <> [].
Proof.
  intros Hkey k. destruct (decide (k = key)) as [->|]; [done|]. rewrite lookup_insert_ne by done. by left.
Qed.

Ltac quiet_keys := cbv zeta; repeat case_head; cbn [fst queue set_queue]; try (by left); apply insert_keys; left; by eexists.

Lemma schedule_schema db source availableAt now : schema db -> schema (fst (Schedule db source availableAt now)).
Proof.
  intros Hs. eapply quiet_queue_schema; [apply q_schedule|done| |]; unfold Schedule; cbv zeta.
  - repeat case_head; by destruct db.
  - destruct (bytes_eqb_spec (origin_String source) []) as [|Hne]; [by left|]. case_head; [by left|].
    apply insert_keys. by right.
Qed.

Lemma claim_schema locked db workerID now : schema db -> schema (fst (Claim queueConfig text_leb locked db workerID now)).
Proof.
  intros Hs. destruct (Claim queueConfig text_leb locked db workerID now) as [db' r] eqn:Hc. cbn [fst].
  assert (Hframe : db' = set_queue db (queue db')).
  { unfold Claim in Hc. cbv zeta in Hc. repeat (case_head_in Hc; try done); injection Hc as <- _; by destruct db. }
  assert (Hstep : exists log, QueueFacts.step queueConfig make_interval text_leb delay (mkSys db now []) (mkSys db' now log)).
  { destruct r as [[l|]|e]; [|exists []; by eapply q_claim_none; [exact Hc|]..].
    - pose proof Hc as Hc'. unfold Claim in Hc'. cbv zeta in Hc'. do 2 (case_head_in Hc'; [done|]).
      destruct (first_candidate _ _ _ _ _) as [[key row]|] eqn:Hf; [|done]. eexists. by eapply q_claim. }
  destruct Hstep as [log Hstep]. eapply quiet_queue_schema; [done|done|done|].
  unfold Claim in Hc. cbv zeta in Hc. repeat (case_head_in Hc; [injection Hc as <- _; by left|]).
  destruct (first_candidate _ _ _ _ _) as [[key row]|] eqn:Hf; [|injection Hc as <- _; by left].
  destruct (Origin.Parse key); injection Hc as <- _; [|by left]. apply insert_keys. left.
  destruct (first_candidate_spec _ _ _ _ _ _ _ Hf) as [-> _]. by eexists.
Qed.

Lemma renew_schema db l now : schema db -> schema (fst (Renew queueConfig db l now)).
Proof.
  intros Hs. eapply quiet_queue_schema; [apply q_renew|done| |]; unfold Renew; [cbv zeta; repeat case_head; by destruct db|].
  quiet_keys.
Qed.

Lemma reschedule_schema db l availableAt now : schema db ->
  schema (fst (Reschedule queueConfig make_interval db l availableAt now)).
Proof.
  intros Hs. eapply quiet_queue_schema; [apply q_reschedule|done| |]; unfold Reschedule; [cbv zeta; repeat case_head; by destruct db|].
  quiet_keys.
Qed.

Lemma abandon_schema db l now : schema db -> schema (fst (AbandonVerification db l now)).
Proof.
  intros Hs. eapply quiet_queue_schema; [apply q_abandon|done| |]; unfold AbandonVerification; [cbv zeta; repeat case_head; by destruct db|].
  quiet_keys.
Qed.

(** A seed stays scheduled whatever is found out about it. *)
Lemma scheduled_sources_ok db key o completedAt : schema db -> key <> [] ->
  sources_ok (source_state db) (scheduled_sources db key o completedAt).
Proof.
  intros Hs Hk. pose proof (schema_sources _ Hs) as Hsrc. destruct Hsrc as [Hr Hne Hseed]. unfold scheduled_sources.
  destruct (is_valid o).
  { split; [done| |]; [|intros; apply elem_of_union; right; by eapply Hseed].
    intros k. rewrite elem_of_union, elem_of_singleton. intros [->|Hin]; [done|by apply Hne]. }
  destruct (unschedules db key o completedAt) eqn:Hu; [|done]. split; [done|set_solver|].
  intros k s Hks Hsd. apply elem_of_difference. split; [by eapply Hseed|]. intros ->%elem_of_singleton.
  unfold unschedules in Hu. rewrite Hks, Hsd in Hu. by destruct o.
Qed.

(** *** Recorded verifications *)

Lemma proposed_origin_ok at_ r : validVerificationResult r = true ->
  origin_row_ok (proposed_origin at_ (result_Outcome r) (storedDeclarationValues r)).
Proof.
  unfold validVerificationResult, proposed_origin, storedDeclarationValues. case_bool_decide as Ho.
  - rewrite Ho. cbn. intros Hv. b2p. split; cbn; [|done]. split; [lia|]. by exists at_.
  - intros _. split; cbn; destruct (result_Outcome r); done.
Qed.

Lemma merge_origin_ok at_ r stored : validVerificationResult r = true -> origin_row_ok stored ->
  origin_row_ok (merge_origin stored (proposed_origin at_ (result_Outcome r) (storedDeclarationValues r))).
Proof.
  intros Hv [Hp Hl]. destruct (proposed_origin_ok at_ r Hv) as [Hp' Hl']. revert Hp' Hl'.
  set (new := proposed_origin _ _ _). assert (Hat : latest_check_at new = Some at_) by done.
  assert (Hfirst : forall t, first_participated_at new = Some t -> t = at_).
  { intros t. unfold new, proposed_origin. cbn. case_head; congruence. } clearbody new. intros Hp' Hl'.
  unfold merge_origin. split; cbn.
  - unfold sooner, not_older. rewrite Hat in *. destruct (first_participated_at new) as [t|], (initial_declaration new) as [[v i]|];
      try done; [rewrite (Hfirst t eq_refl) in *; destruct Hp' as [-> _]|];
      destruct (first_participated_at stored) as [t0|], (initial_declaration stored) as [[v0 i0]|], (latest_check_at stored) as [u|];
      try done; repeat case_head; naive_solver lia.
  - unfold sooner, not_older. rewrite Hat in *.
    destruct (latest_check_outcome new) as [o|]; [|done].
    destruct (first_participated_at new) as [t|], (first_participated_at stored) as [t0|], (latest_check_at stored) as [u|],
      (latest_check_outcome stored) as [o'|]; try done; repeat case_head; naive_solver.
Qed.

Lemma record_observation_verified db key at_ r : validVerificationResult r = true ->
  verified_ok (origins db) (observations db) (reprobe_state db) ->
  let db' := record_observation db key at_ (result_Outcome r) (storedDeclarationValues r) in
  verified_ok (origins db') (observations db') (reprobe_state db').
Proof.
  intros Hv [Ho Hob Hm]. cbv zeta. cbn [origins observations reprobe_state record_observation].
  assert (Hdom : forall k, is_Some (origins db !! k) \/ k = key ->
    is_Some (upsert_origin (origins db) key (proposed_origin at_ (result_Outcome r) (storedDeclarationValues r)) !! k)).
  { intros k Hk. unfold upsert_origin. destruct (decide (k = key)) as [->|Hne]; [rewrite lookup_insert_eq; by eexists|].
    rewrite lookup_insert_ne by done. destruct Hk; done. }
  split.
  - unfold upsert_origin. apply map_Forall_insert_2; [|done]. destruct (origins db !! key) as [stored|] eqn:Hk.
    + apply merge_origin_ok; [done|]. by apply (Ho key).
    + by apply proposed_origin_ok.
  - intros row. rewrite elem_of_app, list_elem_of_singleton. intros [Hin| ->]; [destruct (Hob row Hin); split; [done|apply Hdom; by left]|].
    split; [|apply Hdom; by right]. unfold observation_ok, storedDeclarationValues, validVerificationResult in *. cbn.
    destruct (decide (result_Outcome r = OutcomeValid)) as [Hout|Hout].
    + rewrite Hout in *. cbn. rewrite (bool_decide_eq_true_2 _ eq_refl) in Hv. b2p. split; [done|lia].
    + by rewrite (bool_decide_eq_true_2 (_ <> _)).
  - unfold add_misses. apply map_Forall_insert_2.
    + split; [|apply Hdom; by right]. destruct (reprobe_state db !! key) as [n|] eqn:Hk; cbn; [destruct (Hm key n Hk)|]; case_head; lia.
    + intros k n Hk. destruct (Hm k n Hk). split; [done|apply Hdom; by left].
Qed.

Lemma complete_schema db l r recheckAfter now : schema db ->
  schema (fst (CompleteVerification queueConfig make_interval delay db l r recheckAfter now)).
Proof.
  intros Hs. pose proof (q_complete queueConfig make_interval text_leb delay db now [] l r recheckAfter) as Hstep.
  cbv zeta in Hstep. apply queue_constraints in Hstep; [|done]. revert Hstep.
  unfold CompleteVerification. destruct (validQueueLease l) eqn:Hv; [|done]. cbn [negb]. do 2 (case_head; [done|]).
  destruct (validVerificationResult r) eqn:Hr; [|done]. cbn [negb]. case_head; [done|]. cbv zeta.
  destruct (queue db !! _) as [row|] eqn:Hrow; [|done]. destruct (_ && not_blocked _ _ _); [|done]. cbn [fst]. intros Hcon.
  assert (Hk : origin_String (lease_Origin l) <> []).
  { unfold validQueueLease in Hv. b2p. by destruct (bytes_eqb_spec (origin_String (lease_Origin l)) []). }
  eapply queue_schema; [done|done|done|by apply scheduled_sources_ok| |].
  - intros key. cbn [complete_row queue set_source_schedule record_observation set_queue]. case_head.
    + intros [row' Hr']. apply lookup_delete_Some in Hr' as [_ Hr']. apply (schema_queue_keys _ Hs). by eexists.
    + intros [?|]%insert_keys; [by apply (schema_queue_keys _ Hs)|done|by right].
  - unfold complete_row. cbv zeta. cbn [origins observations reprobe_state set_source_schedule].
    apply (record_observation_verified (set_queue db _)); [done|apply Hs].
Qed.

Lemma verification_schema db observedAt r : schema db -> schema (fst (RecordVerification db observedAt r)).
Proof.
  intros Hs. unfold RecordVerification. do 2 (case_head; [done|]). destruct (validVerificationResult r) eqn:Hr; [|done]. cbn [negb fst].
  pose proof (record_observation_verified db (origin_String (result_Origin r)) (pg_time observedAt) r Hr (schema_verified _ Hs)).
  by destruct Hs.
Qed.

Lemma store_step_schema db db' : store_step db db' -> schema db -> schema db'.
Proof.
  intros Hstep Hs. destruct Hstep.
  - by apply add_seed_schema.
  - by apply remove_seed_schema.
  - by apply ensure_seeds_schema.
  - by apply block_schema.
  - by apply reconcile_schema.
  - by apply processor_schema.
  - by apply expansion_schema.
  - by apply add_avoid_schema.
  - by apply remove_avoid_schema.
  - by apply origin_block_schema.
  - by apply rejected_schema.
  - by apply claim_lease_schema.
  - by apply renew_lease_schema.
  - by apply complete_lease_schema.
  - by apply record_discovery_schema.
  - by apply record_for_run_schema.
  - by apply pending_probes_schema.
  - by apply pending_candidates_schema.
  - by apply complete_candidates_schema.
  - by apply begin_schema.
  - by apply attempt_schema.
  - by apply finish_schema.
  - by apply heartbeat_schema.
  - by apply purge_telemetry_schema.
  - by apply purge_history_schema.
  - by apply schedule_schema.
  - by apply claim_schema.
  - by apply renew_schema.
  - by apply reschedule_schema.
  - by apply abandon_schema.
  - by apply complete_schema.
  - by apply verification_schema.
Qed.

(** C26: Every database that the store's operations reach from an empty one,
    in any order and with any arguments, satisfies the constraints that
    [schema] lists: for origins, observations and reprobe state, the queue,
    sources and their schedule, candidates, edges, runs, page attempts,
    batches, admissions, avoid rules, heartbeats and audits, the CHECK
    constraints and foreign keys of the migrations, apart from enumerated text
    columns (inductive types here), the widths of integer columns, the
    database's [lower] on avoid patterns and the event log of the queue. Beyond
    the migrations, a run is running exactly until it finishes, its batch stays
    within its budget, a judged candidate keeps its judgment, and every seed is
    scheduled. Some constraints can be violated by an argument the code lets
    through, and the statement is then refused and changes nothing: the URL
    patterns of runs, page attempts and heartbeats, the build identity of a
    heartbeat, a page timeout below a millisecond, a run that ends before it
    began and an audit that is too long; no statement violates another one. The
    queue is configured in whole microseconds. *)
Theorem schema_invariant db : rtc store_step empty_database db -> schema db.
Proof.
  revert db. apply (rtc_ind_r schema empty_database); [apply empty_schema|].
  intros db db' _ Hstep. by apply store_step_schema.
Qed.

(** ** Provenance *)

Lemma set_rules_stable f db : schema db -> rules_from f -> stable db (set_rules text_leb excludedHosts f db).
Proof.
  intros Hs Hf. unfold set_rules. cbv zeta. pose proof (avoid_rules_schema f db Hs Hf) as Hs1. set (db1 := with_crawl db _) in *. destruct (recompute_stable text_leb (control_config excludedHosts) db1 Hs1) as [].
  by split.
Qed.

(** Claiming, renewing and releasing queue rows leaves the sources alone. *)
Ltac queue_core := apply core_stable; cbv zeta; repeat case_head; done.

Lemma store_step_stable db db' : store_step db db' -> schema db -> provenance db -> stable db db'.
Proof.
  intros Hstep Hs Hp. assert (Hrefl : stable db db) by (by apply core_stable). destruct Hstep.
  - apply add_seed_stable.
  - by apply remove_seed_stable.
  - apply ensure_seeds_stable.
  - unfold SetCrawlBlocked. case_head; [done|]. apply exact_block_stable.
  - unfold ReconcileAutomaticCrawlPolicy. case_head; [done|]. by apply recompute_stable.
  - unfold SetProcessorPaused. cbv zeta. destruct (negb _ && negb _); [done|]. destruct (negb _); [done|].
    apply mutate_stable. unfold set_processor_paused. case_head; by apply core_stable.
  - unfold SetAutomaticExpansionPaused. destruct (negb _); [done|]. apply mutate_stable. by apply core_stable.
  - unfold AddDomainAvoid. destruct (domain_rule pattern) eqn:Hrule; [|done]. case_head; [done|].
    apply mutate_stable, set_rules_stable; [done|by eapply add_rule_from].
  - unfold RemoveDomainAvoid. destruct (domain_rule pattern); [|done]. case_head; [done|].
    apply mutate_stable, set_rules_stable; [done|apply remove_rule_from].
  - unfold SetOriginBlocked. destruct (Origin.Parse raw); [|done]. do 2 (destruct (negb _); [done|]).
    apply mutate_stable. apply exact_block_stable.
  - unfold RecordRejected, insertControlAudit. queue_core.
  - apply claim_source_stable.
  - apply renew_source_stable.
  - apply complete_source_stable.
  - by apply record_stable.
  - by apply record_run_stable.
  - apply core_stable, pending_probes_core.
  - apply core_stable, pending_candidates_core.
  - apply complete_candidates_stable.
  - unfold BeginCrawl. queue_core.
  - unfold RecordPageAttempt. queue_core.
  - unfold FinishCrawlSummary. queue_core.
  - unfold UpsertServiceHeartbeat. queue_core.
  - unfold PurgeCrawlTelemetry. queue_core.
  - apply purge_history_stable.
  - unfold Schedule. queue_core.
  - unfold Claim. queue_core.
  - unfold Renew. queue_core.
  - unfold Reschedule. queue_core.
  - unfold AbandonVerification. queue_core.
  - apply complete_verification_stable.
  - apply verification_stable.
Qed.

Lemma empty_provenance : provenance empty_database.
Proof. split; [set_solver|]. by intros row ?%elem_of_nil. Qed.

Lemma store_steps_invariant db db' : rtc store_step db db' -> schema db -> provenance db ->
  schema db' /\ provenance db' /\ generations_grow db db'.
Proof.
  intros Hsteps. induction Hsteps as [db|db db1 db' Hstep _ IH]; intros Hs Hp.
  { split_and!; [done|done|]. intros key s Hk. exists s. split; [done|lia]. }
  pose proof (store_step_stable _ _ Hstep Hs Hp) as Hst.
  destruct IH as (Hs' & Hp' & Hg); [by eapply store_step_schema|by eapply stable_provenance|].
  split_and!; [done|done|]. intros key s Hk. destruct (stable_generation _ _ Hst key s Hk) as (s1 & Hk1 & ?).
  destruct (Hg key s1 Hk1) as (s' & ? & ?). exists s'. split; [done|lia].
Qed.

(** What a successful claim says about the row it took. *)
Lemma claim_source_effect locked db owner interval leaseDuration now db' l :
  ClaimDiscoverySourceLease text_leb make_interval config locked db owner interval leaseDuration now = (db', Ok (Some l)) ->
  exists key s', key ∈ source_schedule db /\ Origin.Parse key = Ok (source_lease_Origin l)
    /\ source_flag crawl_blocked db key = false /\ leased db key (pg_time now) = false
    /\ source_state db' !! key = Some s' /\ source_generation s' = source_lease_Generation l
    /\ source_lease_Generation l = source_generation (source_of db key) + 1.
Proof.
  unfold ClaimDiscoverySourceLease. do 4 (case_head; [done|]). cbv zeta.
  destruct (first_source _ _ _ _ _ _ _) as [key|] eqn:Hf; [|done].
  destruct (Origin.Parse key) as [source|] eqn:Hparse; [|done]. case_head; [done|].
  set (db1 := set_source_state db _). destruct (cancel_runs db1 _ _ _) as [db2|] eqn:Hca; [|done]. cbn [res_bind].
  destruct (cancel_runs db2 _ _ _) as [db3|] eqn:Hcb; [|done]. intros [= <- <-].
  apply cancel_runs_core in Hca, Hcb. injection Hca as Hca _ _ _. injection Hcb as Hcb _ _ _.
  eexists key, _. unfold first_source in Hf. destruct (fold_min_in _ _ _ _ Hf) as [Hin|]; [|done].
  rewrite list_elem_of_In, filter_In, <- list_elem_of_In, elem_of_elements in Hin. destruct Hin as [Hsch Hc].
  unfold claimable in Hc. cbv zeta in Hc. b2p. rewrite Hcb, Hca. cbn [db1 source_state set_source_state].
  rewrite lookup_insert_eq, source_flag_of, leased_of by done. cbn. split_and!; try done. by apply negb_false_iff.
Qed.

(** C3: Only sanctioned sources are crawled. In every database the store's
    operations reach, each scheduled source was seeded by an operator, or
    promoted from a discovered candidate, or belongs to an origin that once
    published a valid declaration; and a lease to crawl is handed out only for
    such a source, while it is not blocked. *)
Theorem crawl_provenance db : rtc store_step empty_database db ->
  (forall key, key ∈ source_schedule db -> sanctioned db key)
  /\ (forall locked owner interval leaseDuration now db' l,
        ClaimDiscoverySourceLease text_leb make_interval config locked db owner interval leaseDuration now
          = (db', Ok (Some l)) ->
        exists key, Origin.Parse key = Ok (source_lease_Origin l) /\ sanctioned db key
          /\ source_flag crawl_blocked db key = false).
Proof.
  intros Hsteps. destruct (store_steps_invariant _ _ Hsteps empty_schema empty_provenance) as (_ & Hp & _).
  split; [apply Hp|]. intros locked owner interval leaseDuration now db' l Hc.
  destruct (claim_source_effect _ _ _ _ _ _ _ _ Hc) as (key & _ & Hk & ? & ? & _). exists key.
  split_and!; [done|by apply Hp|done].
Qed.

(** Stored keys are serializations, as every writer stores them. *)
Definition canonical_schedule (db : Database) : Prop :=
  forall key o, key ∈ source_schedule db -> Origin.Parse key = Ok o -> origin_String o = key.

(** C2: At most one crawler works on a source. When a source is claimed again,
    whatever happened in between, the earlier lease had already lost its
    authority at the time of the second claim, the second lease has a greater
    generation, and from then on, in every later state and at every time, the
    earlier lease has no authority: renewing or completing with it is refused. *)
Theorem source_lease_exclusive db db1 db2 db3 db4 locked1 locked2 owner1 owner2 interval1 interval2 d1 d2 now1 now2 l1 l2 :
  rtc store_step empty_database db ->
  ClaimDiscoverySourceLease text_leb make_interval config locked1 db owner1 interval1 d1 now1 = (db1, Ok (Some l1)) ->
  rtc store_step db1 db2 ->
  ClaimDiscoverySourceLease text_leb make_interval config locked2 db2 owner2 interval2 d2 now2 = (db3, Ok (Some l2)) ->
  rtc store_step db3 db4 ->
  canonical_schedule db -> canonical_schedule db2 -> source_lease_Origin l2 = source_lease_Origin l1 ->
  ~ source_authority db2 l1 now2
  /\ source_lease_Generation l1 < source_lease_Generation l2
  /\ forall t, ~ source_authority db4 l1 t.
Proof.
  intros Hinit Hc1 H12 Hc2 H34 Hcan Hcan2 Ho.
  destruct (store_steps_invariant _ _ Hinit empty_schema empty_provenance) as (Hs & Hp & _).
  pose proof (s_claim_source db locked1 owner1 interval1 d1 now1) as Hst1. rewrite Hc1 in Hst1. cbn [fst] in Hst1.
  destruct (store_steps_invariant db db2 (rtc_l _ _ _ _ Hst1 H12) Hs Hp) as (Hs2 & Hp2 & _).
  pose proof (s_claim_source db2 locked2 owner2 interval2 d2 now2) as Hst2. rewrite Hc2 in Hst2. cbn [fst] in Hst2.
  destruct (store_steps_invariant db2 db3 (rtc_once _ _ Hst2) Hs2 Hp2) as (Hs3 & Hp3 & _).
  destruct (store_steps_invariant db db1 (rtc_once _ _ Hst1) Hs Hp) as (Hs1 & Hp1 & _).
  destruct (store_steps_invariant _ _ H12 Hs1 Hp1) as (_ & _ & Hg12).
  destruct (store_steps_invariant _ _ H34 Hs3 Hp3) as (_ & _ & Hg34).
  apply claim_source_effect in Hc1 as (k1 & r1 & Hin1 & Hk1 & _ & _ & Hr1 & Hgen1 & _).
  apply claim_source_effect in Hc2 as (k2 & r2 & Hin2 & Hk2 & _ & Hfree & Hr2 & Hgen2 & Hnext).
  pose proof (Hcan _ _ Hin1 Hk1) as He1. pose proof (Hcan2 _ _ Hin2 Hk2) as He2. rewrite Ho in He2. subst k1 k2.
  set (key := origin_String (source_lease_Origin l1)) in *.
  destruct (Hg12 _ _ Hr1) as (s2 & Hs2k & Hle). unfold source_of in Hnext. rewrite Hs2k in Hnext. cbn in Hnext.
  split_and!; [|lia|].
  - intros (s & e & Hsk & _ & He & Hlt). unfold leased in Hfree. unfold key in *. rewrite Hsk in Hfree. unfold live in Hfree.
    rewrite He in Hfree. lia.
  - intros t (s & e & Hsk & Hsg & _). destruct (Hg34 _ _ Hr2) as (s' & Hs' & ?). unfold key in *. rewrite Hs' in Hsk.
    injection Hsk as <-. lia.
Qed.
End QueueOps.
End System.
