(* ===== verification/ControlFacts.v ===== *)
(** * Correctness of operator control and retention

    Every operator mutation commits together with its audit record or not at
    all, the block policy is in force after it, and retention never changes
    what is known about an origin. *)

From S2P Require Import Prelude GoText GoUrl GoErrors GoNetip GoJson Retry Origin Netguard.
From S2P Require Import RobotsMatch RobotsPolicy RobotsPolicyFacts RobotsHTTP Declaration Verifier.
From S2P Require Import Discovery Crawler Store Queue Exclusions DiscoveryStore.
From S2P Require Import Admission DiscoveryLease CrawlTelemetry ControlStore.

#[local] Set Warnings "-clear-no-such-hyp".

(** ** Mutations and their audit *)

(** The mutation happened and was recorded as the caller described it. *)
Definition audited (a : Audit) (action target : bytes) (db db' : Database) (mutation : Database -> Database) : Prop :=
  db' = with_crawl (mutation db) (fun t => set_audits (audits t ++ [stored_audit a]) t)
  /\ audit_Action a = action /\ audit_Target a = target /\ audit_Result a = ResultSuccess /\ audit_ok a = true.

(** All or nothing. *)
Definition audited_or_refused (a : Audit) (action target : bytes) (db : Database) (mutation : Database -> Database)
    (outcome : Database * option error) : Prop :=
  match outcome with
  | (db', None) => audited a action target db db' mutation
  | (db', Some _) => db' = db
  end.

Lemma mutate_spec db a action target mutation : controlAuditMatches a action target = true ->
  audited_or_refused a action target db mutation (mutate db a mutation).
Proof.
  unfold controlAuditMatches, mutate, insertControlAudit. intros Hm. b2p.
  destruct (bytes_eqb_spec (audit_Action a) action); [|done]. destruct (bytes_eqb_spec (audit_Target a) target); [|done].
  destruct (bytes_eqb_spec (audit_Result a) ResultSuccess); cbn [negb]; [|done].
  destruct (audit_ok a) eqn:Hok; [|done]. by split_and!.
Qed.

Section Control.
Context `{NetURL} `{NetIP} `{IDNA} `{Unicode}.
Variable text_leb : bytes -> bytes -> bool.
Variable excludedHosts : bytes.

Definition rules (db : Database) : bytes := exclusions text_leb (control_config excludedHosts) db.

(** The rows follow the policy of the database they are in. *)
Definition policy_applied (db db' : Database) : Prop :=
  forall key, source_state db' !! key = apply_policy (rules db') key <$> source_state db !! key.

Lemma exclusions_crawl config db db' : avoid_rules (crawl db') = avoid_rules (crawl db) ->
  exclusions text_leb config db' = exclusions text_leb config db.
Proof. unfold exclusions. by intros ->. Qed.

Lemma set_rules_spec f db : operator_effective db ->
  policy_applied db (set_rules text_leb excludedHosts f db)
  /\ avoid_rules (crawl (set_rules text_leb excludedHosts f db)) = f (avoid_rules (crawl db))
  /\ source_schedule (set_rules text_leb excludedHosts f db) = source_schedule db
  /\ queue (set_rules text_leb excludedHosts f db) = queue db.
Proof.
  intros Hop. unfold set_rules. cbv zeta. set (db1 := with_crawl db _).
  pose proof (recompute_correct text_leb (control_config excludedHosts) db1 Hop) as Hr.
  destruct (recomputeAutomaticCrawlBlocksTransaction _ _ _) as [db' n]. cbn [fst]. destruct Hr as (Hf & Hst & _).
  split_and!; [|by rewrite Hf..]. intros key. unfold rules. rewrite Hst. f_equal. f_equal. symmetry.
  apply exclusions_crawl. by rewrite Hf.
Qed.

(** The rule is in force: a governed source that a rule covers is blocked, and
    one that no rule covers is blocked only by the operator. *)
Definition rule_effect (f : gset bytes -> gset bytes) (db db' : Database) : Prop :=
  policy_applied db db' /\ avoid_rules (crawl db') = f (avoid_rules (crawl db)).

(** What blocking or allowing one origin does. *)
Definition block_effect (source : Origin) (blocked : bool) (db db' : Database) : Prop :=
  source_flag operator_blocked db' (origin_String source) = blocked
  /\ source_flag crawl_blocked db' (origin_String source)
     = blocked || source_flag automatically_discovered db (origin_String source)
                  && negb (source_flag seeded db (origin_String source)) && excludes (rules db) (Hostname source)
  /\ (forall f : SourceState -> bool, f = seeded \/ f = automatically_discovered ->
        source_flag f db' (origin_String source) = source_flag f db (origin_String source))
  /\ forall key, key <> origin_String source -> source_state db' !! key = source_state db !! key.

Lemma exact_block_spec db source blocked :
  block_effect source blocked db (setExactCrawlBlockTransaction text_leb (control_config excludedHosts) db source blocked).
Proof.
  unfold setExactCrawlBlockTransaction, block_effect. cbv zeta. unfold upsert_source. set (key := origin_String source).
  cbn [source_state set_source_state]. set (s0 := default new_source (source_state db !! key)).
  assert (Hflag : forall f : SourceState -> bool, f new_source = false -> f s0 = source_flag f db key).
  { intros f Hf. unfold s0, source_flag. by destruct (source_state db !! key). }
  rewrite insert_insert_eq, lookup_insert_eq. cbn [default]. unfold source_flag at 1 2 3 4 5 6. cbn [source_state set_source_state].
  rewrite !lookup_insert_eq. cbn. rewrite !Hflag by done. split_and!; [done|done| |].
  - intros f Hf. rewrite <- (Hflag f) by (by destruct Hf as [-> | ->]). unfold source_flag. cbn.
    rewrite lookup_insert_eq. by destruct Hf as [-> | ->].
  - intros k Hne. by rewrite lookup_insert_ne.
Qed.

Lemma Split_Join_concat parts sep : parts <> [] -> Split (Join parts sep) sep = concat (map (fun p => Split p sep) parts).
Proof.
  induction parts as [|p rest IH]; [done|]. intros _. destruct rest as [|q rest]; [cbn; by rewrite app_nil_r|].
  rewrite Join_cons, Split_app, IH by done. done.
Qed.

(** A rule of the list decides on its own. *)
Lemma excludes_rule patterns configured p hostname : p ∈ patterns -> p <> [] -> ","%char ∉ p -> TrimSpace p = p ->
  covers p (ToLower (TrimSuffix hostname (bs "."))) -> excludes (exclusion_list patterns configured) hostname = true.
Proof.
  intros Hin Hne Hcomma Htrim Hc. unfold excludes, exclusion_list. cbv zeta. set (l := patterns ++ _).
  assert (Hl : p ∈ l) by (apply elem_of_app; by left). assert (Hln : l <> []) by (by destruct l; [apply elem_of_nil in Hl|]).
  rewrite Split_Join_concat by done. apply existsb_exists. exists p. split.
  - apply list_elem_of_In. rewrite list_elem_of_In, in_concat. exists [p]. split; [|by left].
    apply in_map_iff. exists p. split; [|by apply list_elem_of_In]. apply (Split_Join [p]); [done|]. by constructor.
  - rewrite Htrim. destruct (bytes_eqb_spec p []); [done|]. cbn [negb andb]. by apply suffix_excludes_spec.
Qed.

Lemma rule_enforced db db' p key o s s' : policy_applied db db' -> p ∈ avoid_rules (crawl db') ->
  p <> [] -> ","%char ∉ p -> TrimSpace p = p ->
  source_state db !! key = Some s -> governed s = true -> Origin.Parse key = Ok o ->
  covers p (ToLower (TrimSuffix (Hostname o) (bs "."))) -> source_state db' !! key = Some s' -> crawl_blocked s' = true.
Proof.
  intros Hpol Hp Hne Hcomma Htrim Hs Hg Ho Hc. rewrite Hpol, Hs. intros [= <-]. unfold apply_policy, policy_block, avoided.
  rewrite Hg, Ho. cbn. apply orb_true_iff. right. unfold rules, exclusions.
  eapply (excludes_rule _ _ p); try done. rewrite text_sorted_perm. by apply elem_of_elements.
Qed.

(** Operator mutations are audited and enforced. Pausing a processor or
    the expansion, adding and removing an avoid rule, and blocking or allowing
    an origin each either change nothing, or make exactly their change and
    append exactly the caller's audit record, with the matching action and
    target, in the same transaction. After a rule is added every promoted
    source it covers is blocked, after any change of rules each promoted
    source is blocked exactly as operator and rules say, seeds and verified
    sources that were not promoted are left alone; after an origin is blocked
    it is blocked, and after it is allowed it stays blocked only where a rule
    covers a promoted source. *)
Theorem operator_control_correct db a :
  (forall processor (paused : bool) now,
     audited_or_refused a (if paused then bs "processor.pause" else bs "processor.resume") processor db
       (set_processor_paused (bytes_eqb processor (bs "discovery")) paused now)
       (SetProcessorPaused db processor paused a now))
  /\ (forall (paused : bool) now,
     audited_or_refused a (if paused then bs "automatic-expansion.pause" else bs "automatic-expansion.resume")
       (bs "automatic-expansion") db
       (fun db => with_crawl db (fun t => set_control (discovery_paused t) paused (pg_time now) t))
       (SetAutomaticExpansionPaused db paused a now))
  /\ (forall pattern p, domain_rule pattern = Some p ->
     let f := fun r : gset bytes => {[ p ]} ∪ r in
     audited_or_refused a (bs "domain-avoid.add") p db (set_rules text_leb excludedHosts f)
       (AddDomainAvoid text_leb excludedHosts db pattern a)
     /\ (operator_effective db -> TrimSpace p = p ->
         let db' := set_rules text_leb excludedHosts f db in
         rule_effect f db db'
         /\ forall key o s s', source_state db !! key = Some s -> governed s = true -> Origin.Parse key = Ok o ->
              covers p (ToLower (TrimSuffix (Hostname o) (bs "."))) ->
              source_state db' !! key = Some s' -> crawl_blocked s' = true))
  /\ (forall pattern p, domain_rule pattern = Some p ->
     let f := fun r : gset bytes => r ∖ {[ p ]} in
     audited_or_refused a (bs "domain-avoid.remove") p db (set_rules text_leb excludedHosts f)
       (RemoveDomainAvoid text_leb excludedHosts db pattern a)
     /\ (operator_effective db -> rule_effect f db (set_rules text_leb excludedHosts f db)))
  /\ (forall raw source (blocked : bool), Origin.Parse raw = Ok source -> origin_String source = raw ->
     let mutation := fun db => setExactCrawlBlockTransaction text_leb (control_config excludedHosts) db source blocked in
     audited_or_refused a (if blocked then bs "origin.block" else bs "origin.allow") raw db mutation
       (SetOriginBlocked text_leb excludedHosts db raw blocked a)
     /\ block_effect source blocked db (mutation db)).
Proof.
  split_and!.
  - intros processor paused now. unfold SetProcessorPaused. cbv zeta. destruct (negb _ && negb _); [done|].
    destruct (controlAuditMatches _ _ _) eqn:Hm; [|done]. by apply mutate_spec.
  - intros paused now. unfold SetAutomaticExpansionPaused.
    destruct (controlAuditMatches _ _ _) eqn:Hm; [|done]. by apply mutate_spec.
  - intros pattern p Hp. cbv zeta. unfold AddDomainAvoid. rewrite Hp. split.
    { destruct (controlAuditMatches _ _ _) eqn:Hm; [|done]. by apply mutate_spec. }
    intros Hop Htrim. destruct (set_rules_spec (fun r : gset bytes => {[ p ]} ∪ r) db Hop) as (Hpol & Hav & _).
    split; [done|]. intros key o s s' Hs Hg Ho Hc.
    unfold domain_rule in Hp. cbv zeta in Hp. destruct (_ || _) eqn:Hguard; [done|]. injection Hp as Hp. rewrite Hp in Hguard.
    rewrite !orb_false_iff in Hguard. destruct Hguard as [[Hne Hcomma] _].
    eapply (rule_enforced db _ p); try done.
    + rewrite Hav. set_solver.
    + by destruct (bytes_eqb_spec p []).
    + rewrite <- Contains_spec. by rewrite Hcomma.
  - intros pattern p Hp. cbv zeta. unfold RemoveDomainAvoid. rewrite Hp. split.
    { destruct (controlAuditMatches _ _ _) eqn:Hm; [|done]. by apply mutate_spec. }
    intros Hop. by destruct (set_rules_spec (fun r : gset bytes => r ∖ {[ p ]}) db Hop) as (Hpol & Hav & _).
  - intros raw source blocked Hp Hraw. cbv zeta. split; [|apply exact_block_spec].
    unfold SetOriginBlocked. rewrite Hp, Hraw. destruct (bytes_eqb_spec raw raw); [|done]. cbn [negb].
    destruct (controlAuditMatches _ _ _) eqn:Hm; [|done]. by apply mutate_spec.
Qed.
End Control.

(** ** Retention *)

Lemma newest_indexed_snoc rows row : newest_indexed (rows ++ [row]) =
  match newest_indexed rows with
  | Some b => if obs_at (snd b) <=? obs_at (snd row) then Some row else Some b
  | None => Some row
  end.
Proof. unfold newest_indexed. rewrite fold_left_app. cbn [fold_left]. by case_match. Qed.

Lemma newest_indexed_in rows x : newest_indexed rows = Some x -> x ∈ rows.
Proof.
  revert x. induction rows as [|r rows IH] using rev_ind; intros x; [done|]. rewrite newest_indexed_snoc, elem_of_app.
  rewrite list_elem_of_singleton. destruct (newest_indexed rows) as [b|]; [case_head|]; intros [= <-]; auto.
Qed.

Lemma newest_indexed_max rows x y : newest_indexed rows = Some x -> y ∈ rows -> obs_at (snd y) <= obs_at (snd x).
Proof.
  revert x. induction rows as [|r rows IH] using rev_ind; intros x; [done|].
  rewrite newest_indexed_snoc, elem_of_app, list_elem_of_singleton. destruct (newest_indexed rows) as [b|] eqn:Hb.
  - destruct (Z.leb_spec (obs_at (snd b)) (obs_at (snd r))); intros [= <-] [Hy| ->]; try lia;
      specialize (IH b eq_refl Hy); lia.
  - intros [= <-] [Hy| ->]; [|done]. destruct rows as [|r' rows _] using rev_ind; [by apply elem_of_nil in Hy|].
    rewrite newest_indexed_snoc in Hb. destruct (newest_indexed rows); [by case_head_in Hb|done].
Qed.

(** Dropping rows other than the newest does not change the newest. *)
Lemma newest_indexed_filter keep rows : (forall x, newest_indexed rows = Some x -> keep x = true) ->
  newest_indexed (List.filter keep rows) = newest_indexed rows.
Proof.
  induction rows as [|r rows IH] using rev_ind; [done|]. rewrite newest_indexed_snoc, List.filter_app. cbn [List.filter].
  destruct (newest_indexed rows) as [b|] eqn:Hb.
  - destruct (Z.leb_spec (obs_at (snd b)) (obs_at (snd r))) as [Hle|Hlt]; intros Hk.
    + rewrite (Hk r eq_refl), newest_indexed_snoc. destruct (newest_indexed (List.filter keep rows)) as [b'|] eqn:Hb'; [|done].
      apply newest_indexed_in in Hb'. rewrite list_elem_of_In, filter_In, <- list_elem_of_In in Hb'.
      pose proof (newest_indexed_max rows b b' Hb (proj1 Hb')). by rewrite (proj2 (Z.leb_le _ _)) by lia.
    + specialize (IH ltac:(intros x [= <-]; by apply Hk)). destruct (keep r); [|by rewrite app_nil_r].
      rewrite newest_indexed_snoc, IH. by rewrite (proj2 (Z.leb_gt _ _)).
  - intros Hk. rewrite (Hk r eq_refl), newest_indexed_snoc. destruct (newest_indexed (List.filter keep rows)) as [b'|] eqn:Hb'; [|done].
    exfalso. apply newest_indexed_in in Hb'. rewrite list_elem_of_In, filter_In, <- list_elem_of_In in Hb'.
    destruct rows as [|r' rows _] using rev_ind; [by destruct Hb' as [?%elem_of_nil _]|].
    rewrite newest_indexed_snoc in Hb. destruct (newest_indexed rows); [by case_head_in Hb|done].
Qed.

Lemma newest_of_indexed rows : newest (map snd rows) = snd <$> newest_indexed rows.
Proof.
  induction rows as [|r rows IH] using rev_ind; [done|]. rewrite map_app, newest_indexed_snoc. cbn [map].
  rewrite newest_snoc, IH. destruct (newest_indexed rows); cbn; [by case_head|done].
Qed.

Lemma filter_map_snd (f : ObservationRow -> bool) (l : list (nat * ObservationRow)) :
  List.filter f (map snd l) = map snd (List.filter (fun x => f (snd x)) l).
Proof. induction l as [|x l IH]; [done|]. cbn [map List.filter]. rewrite IH. by case_head. Qed.

Lemma filter_swap {A} (f g : A -> bool) l : List.filter f (List.filter g l) = List.filter g (List.filter f l).
Proof.
  induction l as [|x l IH]; [done|]. cbn [List.filter].
  destruct (f x) eqn:Hf, (g x) eqn:Hg; cbn [List.filter]; rewrite ?Hf, ?Hg; by rewrite IH.
Qed.

Lemma filter_andb {A} (f g : A -> bool) l : List.filter f (List.filter g l) = List.filter (fun x => g x && f x) l.
Proof.
  induction l as [|x l IH]; [done|]. cbn [List.filter]. destruct (g x); cbn [List.filter andb]; [by rewrite IH|done].
Qed.

Lemma indexed_snd l : map snd (indexed l) = l.
Proof. unfold indexed. apply list_eq. intros i. rewrite list_lookup_fmap, list_lookup_imap. by destruct (l !! i). Qed.

(** The foreign key of observations. *)
Definition observed_known (db : Database) : Prop :=
  forall row, row ∈ observations db -> is_Some (origins db !! obs_origin row).

Definition survives (db : Database) (cutoff : Z) (x : nat * ObservationRow) : bool :=
  negb (obs_at (snd x) <? cutoff) || protected db (fst x) (snd x).

Lemma retained_filter db cutoff :
  retained_observations db cutoff = map snd (List.filter (survives db cutoff) (indexed (observations db))).
Proof. unfold retained_observations. f_equal. apply List.filter_ext. by intros [i row]. Qed.

(** The newest observation of an origin, of any kind that is protected,
    survives. *)
Lemma newest_retained db cutoff key f : observed_known db -> f = (fun _ => true) \/ f = (fun r => authoritative (obs_outcome r)) ->
  newest (List.filter f (List.filter (fun row => bytes_eqb (obs_origin row) key) (retained_observations db cutoff)))
  = newest (List.filter f (rows_of db key)).
Proof.
  intros Hk Hf. unfold rows_of. rewrite <- (indexed_snd (observations db)).
  rewrite retained_filter, !filter_map_snd, !newest_of_indexed. f_equal.
  rewrite (filter_swap _ (survives db cutoff)), (filter_swap (fun x => f (snd x)) (survives db cutoff)).
  apply newest_indexed_filter. intros [i row] Hnew. unfold survives. apply orb_true_iff. right. unfold protected. cbn [fst snd].
  pose proof (newest_indexed_in _ _ Hnew) as Hin. rewrite filter_andb in Hnew, Hin.
  rewrite list_elem_of_In, filter_In, <- list_elem_of_In in Hin. destruct Hin as [Hin Hor]. b2p. cbn [snd] in *.
  destruct (bytes_eqb_spec (obs_origin row) key) as [Hok|]; [|done].
  assert (Hobs : row ∈ observations db).
  { rewrite <- (indexed_snd (observations db)). apply list_elem_of_fmap. by exists (i, row). }
  rewrite bool_decide_eq_true_2 by (by apply Hk). cbn [andb]. unfold protects. rewrite Hok.
  apply orb_true_iff. destruct Hf as [-> | ->]; [left|right]; rewrite Hnew; apply Nat.eqb_refl.
Qed.

Lemma filter_true {A} (l : list A) : List.filter (fun _ => true) l = l.
Proof. induction l as [|x l IH]; [done|]. cbn. by rewrite IH. Qed.

(** Retention forgets only what no reader of the current state needs. A
    purge of the operational history deletes no observation from within the
    retention period and, of the older ones, keeps the newest and the newest
    authoritative one of each origin, so that the state of every origin reads
    exactly as before; it invents nothing, drops exactly the heartbeats that
    are out of date, and touches no other table. *)
Theorem PurgeOperationalHistory_preserves make_interval db retention now :
  observed_known db -> 0 < retention ->
  let cutoff := pg_time now - make_interval retention in
  exists db', PurgeOperationalHistory make_interval db retention now = (db', None)
  /\ (forall source, query_OriginState db' source = query_OriginState db source)
  /\ (forall key, effective db' key = effective db key)
  /\ (forall row, row ∈ observations db -> cutoff <= obs_at row -> row ∈ observations db')
  /\ (forall row, row ∈ observations db' -> row ∈ observations db)
  /\ db' = with_crawl (set_observations db (observations db')) (set_heartbeats (heartbeats (crawl db')))
  /\ (forall key h, heartbeats (crawl db') !! key = Some h <->
        heartbeats (crawl db) !! key = Some h /\ cutoff <= heartbeat_UpdatedAt h).
Proof.
  intros Hk Hr. cbv zeta. unfold PurgeOperationalHistory. destruct (Z.leb_spec retention 0); [lia|]. cbv zeta.
  set (cutoff := pg_time now - make_interval retention). eexists. split; [done|].
  set (db' := with_crawl _ _). assert (Hobs : observations db' = retained_observations db cutoff) by done.
  assert (Hnew : forall key, newest (rows_of db' key) = newest (rows_of db key)).
  { intros key. rewrite <- (filter_true (rows_of db' key)), <- (filter_true (rows_of db key)).
    unfold rows_of at 1. rewrite Hobs. apply newest_retained; [done|by left]. }
  assert (Heff : forall key, effective db' key = effective db key).
  { intros key. unfold effective. unfold rows_of at 1. rewrite Hobs. apply newest_retained; [done|by right]. }
  split_and!; [|done| | |by destruct db as [? ? ? ? ? ? ? ? []]|].
  - intros source. unfold query_OriginState. case_head; [done|]. cbv zeta. rewrite Hnew.
    fold (effective db' (origin_String source)). fold (effective db (origin_String source)). by rewrite Heff.
  - intros row Hin Hc. rewrite Hobs, retained_filter.
    rewrite <- (indexed_snd (observations db)) in Hin. apply list_elem_of_fmap in Hin as ([i r] & -> & Hin).
    apply list_elem_of_fmap. exists (i, r). split; [done|]. apply list_elem_of_In, filter_In.
    split; [by apply list_elem_of_In|]. unfold survives. cbn [snd] in *. by rewrite (proj2 (Z.ltb_ge _ _)).
  - intros row. rewrite Hobs, retained_filter. intros ([i r] & -> & Hin)%list_elem_of_fmap.
    rewrite list_elem_of_In, filter_In, <- list_elem_of_In in Hin. destruct Hin as [Hin _].
    rewrite <- (indexed_snd (observations db)). apply list_elem_of_fmap. by exists (i, r).
  - intros key h. cbn. rewrite map_lookup_filter_Some. done.
Qed.
