(* ===== verification/Registry.v ===== *)
(** * The read models of the store ([internal/store/registry.go],
    [verified.go], [history.go])

    The participants of the registry, the origins that are verified now, and
    the history of one origin, as functions of the tables. Outcomes and
    identities are stored as the texts of their constants, so that an unknown
    text cannot occur; a NULL in a column that is scanned into a value that
    cannot be nil is a scan error. *)

From S2P Require Import Prelude GoText GoUrl GoErrors GoNetip GoJson Retry Origin Netguard.
From S2P Require Import RobotsMatch RobotsPolicy RobotsPolicyFacts RobotsHTTP Declaration Verifier.
From S2P Require Import Discovery Store Queue Exclusions DiscoveryStore.

Record RegistryOrigin : Type := mkRegistry {
  registry_Origin : Origin;
  FirstParticipatedAt : Z;
  InitialDeclaration : Declaration;
  LatestDeclarationCheckAt : Z;
  LatestDeclarationCheckOutcome : Outcome;
  CurrentDeclaration : option Declaration;
}.

Record VerifiedOrigin : Type := mkVerified {
  verified_Origin : Origin;
  verified_Declaration : Declaration;
}.

Definition MaxObservationHistory : Z := 100.

(** [NULL] in a column scanned into a value *)
Definition scan_error : error := errors_New (foreign 8).

Section ReadModels.
Context `{NetURL} `{NetIP} `{IDNA}.
Variable text_leb : bytes -> bytes -> bool.

(** ** Participants *)

(** The declaration of the authoritative observation, when it is valid. *)
Definition current_declaration (effective : ObservationRow) : res error (option Declaration) :=
  if bool_decide (obs_outcome effective = OutcomeValid) then
    match obs_declaration effective with
    | None => Err (errors_New errInvalidStoredRegistryOrigin)
    | Some (version, identity) =>
        if negb (version =? 1) then Err (errors_New errInvalidStoredRegistryOrigin)
        else Ok (Some (mkDeclaration version identity))
    end
  else if bool_decide (obs_declaration effective <> None) then Err (errors_New errInvalidStoredRegistryOrigin)
  else Ok None.

Definition scanRegistryOrigin (storedOrigin : bytes) (row : OriginRow) (effective : option ObservationRow)
    : res error RegistryOrigin :=
  match first_participated_at row, initial_declaration row, latest_check_at row, latest_check_outcome row with
  | Some firstParticipatedAt, Some (initialVersion, initialIdentity), Some latestCheckAt, Some latestOutcome =>
      match Origin.Parse storedOrigin with
      | Err _ => Err (errors_New errInvalidStoredRegistryOrigin)
      | Ok source =>
          if negb (initialVersion =? 1) then Err (errors_New errInvalidStoredRegistryOrigin)
          else if time_After firstParticipatedAt latestCheckAt then Err (errors_New errInvalidStoredRegistryOrigin)
          else
            match effective with
            | None => Err (errors_New errInvalidStoredRegistryOrigin)
            | Some e =>
                if bool_decide (obs_outcome e = OutcomeUnavailable) || bool_decide (obs_outcome e = OutcomeRobotsDenied)
                then Err (errors_New errInvalidStoredRegistryOrigin)
                else
                  let? current := current_declaration e in
                  Ok (mkRegistry source firstParticipatedAt (mkDeclaration initialVersion initialIdentity)
                        latestCheckAt latestOutcome current)
            end
      end
  | _, _, _, _ => Err scan_error
  end.

(** The lateral join: the newest authoritative observation of an origin. *)
Definition authoritative_row (db : Database) (key : bytes) : option ObservationRow :=
  newest (List.filter (fun row => authoritative (obs_outcome row)) (rows_of db key)).

Definition participants (db : Database) : list (bytes * OriginRow) :=
  order_by_origin text_leb
    (List.filter (fun '(_, row) => bool_decide (is_Some (first_participated_at row))) (map_to_list (origins db))).

Definition RegistryOrigins (db : Database) : res error (list RegistryOrigin) :=
  collect (fun '(key, row) => scanRegistryOrigin key row (authoritative_row db key)) (participants db).

(** ** Verified origins *)

Definition scanVerifiedOrigin (row : bytes * ObservationRow) : res error VerifiedOrigin :=
  match obs_declaration (snd row) with
  | None => Err scan_error
  | Some (version, identity) =>
      match Origin.Parse (fst row) with
      | Err _ => Err (errors_New errInvalidStoredVerifiedOrigin)
      | Ok source =>
          if negb (version =? 1) then Err (errors_New errInvalidStoredVerifiedOrigin)
          else Ok (mkVerified source (mkDeclaration version identity))
      end
  end.

(** [SELECT DISTINCT ON (origin) ... ORDER BY origin, observed_at DESC, id DESC]
    over the authoritative observations, then those that are valid *)
Definition effective_rows (db : Database) : list (bytes * ObservationRow) :=
  order_by_origin text_leb
    (omap (fun key => (fun row => (key, row)) <$> authoritative_row db key) (remove_dups (map obs_origin (observations db)))).

Definition VerifiedOrigins (db : Database) : res error (list VerifiedOrigin) :=
  collect scanVerifiedOrigin (List.filter (fun r => is_valid (obs_outcome (snd r))) (effective_rows db)).

(** ** History *)

(** [ORDER BY observed_at DESC, id DESC] on rows with their ids *)
Definition newer_first (a b : nat * ObservationRow) : Prop :=
  obs_at (snd b) < obs_at (snd a) \/ obs_at (snd b) = obs_at (snd a) /\ (fst b <= fst a)%nat.
#[export] Instance newer_first_dec : RelDecision newer_first.
Proof. intros a b. unfold newer_first. apply _. Defined.

Definition Observations (db : Database) (source : Origin) (limit : Z) : res error (list Observation) :=
  if bytes_eqb (origin_String source) [] then Err (errors_New store_errInvalidOrigin)
  else if (limit <? 1) || (MaxObservationHistory <? limit) then Err (errors_New errInvalidHistoryLimit)
  else
    Ok (map (fun r => observationFromStored (snd r))
      (take (Z.to_nat limit) (merge_sort newer_first (imap pair (rows_of db (origin_String source)))))).
End ReadModels.

(** * Correctness of the registry's read models

    What every reachable database records about an origin, and what the
    registry, the verified origins and the history read from it. *)

From S2P Require Import Crawler QueueFacts.
From S2P Require Import Admission DiscoveryLease CrawlTelemetry ControlStore.
From S2P Require Import DiscoverySchema AdmissionSchema Provenance DiscoverySystem ControlFacts.

#[local] Set Warnings "-clear-no-such-hyp".

(** ** What is recorded about an origin *)

(** A valid observation has a declaration of version 1, every other none. *)
Definition stored_ok (row : ObservationRow) : Prop :=
  if is_valid (obs_outcome row) then exists i, obs_declaration row = Some (1, i) else obs_declaration row = None.

Record recorded (rows : list ObservationRow) (row : OriginRow) : Prop := {
  rec_rows : Forall stored_ok rows;
  rec_latest : exists o, newest rows = Some o /\ latest_check_at row = Some (obs_at o)
    /\ latest_check_outcome row = Some (obs_outcome o);
  rec_first : forall t, first_participated_at row = Some t ->
    (exists i, initial_declaration row = Some (1, i))
    /\ (forall u, latest_check_at row = Some u -> t <= u)
    /\ is_Some (newest (List.filter (fun r => authoritative (obs_outcome r)) rows));
  rec_valid : forall o, o ∈ rows -> is_valid (obs_outcome o) = true -> is_Some (first_participated_at row);
}.

Definition records_ok (db : Database) : Prop :=
  forall key, match origins db !! key with Some row => recorded (rows_of db key) row | None => rows_of db key = [] end.

Lemma newest_some_snoc rows r : is_Some (newest (rows ++ [r])).
Proof. rewrite newest_snoc. destruct (newest rows); [case_head|]; by eexists. Qed.

Lemma newest_some_app rows r : is_Some (newest rows) -> is_Some (newest (rows ++ r)).
Proof.
  revert rows. induction r as [|x r IH]; intros rows Hs; [by rewrite app_nil_r|].
  replace (rows ++ x :: r) with ((rows ++ [x]) ++ r) by (by rewrite <- app_assoc). apply IH, newest_some_snoc.
Qed.

(** When the newest row has a property, it is the newest of those that have. *)
Lemma newest_filter f rows o : newest rows = Some o -> f o = true -> newest (List.filter f rows) = Some o.
Proof.
  rewrite <- (indexed_snd rows), filter_map_snd, !newest_of_indexed. intros Hn Hf.
  rewrite newest_indexed_filter; [done|]. intros x Hx. rewrite Hx in Hn. by injection Hn as <-.
Qed.

(** The row an observation proposes, merged into what is known. *)
Lemma recorded_single key at_ o d : stored_ok (mkObservation key at_ o d) ->
  recorded [mkObservation key at_ o d] (proposed_origin at_ o d).
Proof.
  intros Hd. split; [by constructor|by eexists| |].
  - intros t. unfold proposed_origin. cbn. unfold stored_ok in Hd. cbn in Hd. destruct (is_valid o) eqn:Hv; [|done].
    intros [= <-]. split_and!; [done|intros u [= <-]; lia|]. apply is_valid_spec in Hv as ->. by eexists.
  - intros x ->%list_elem_of_singleton. cbn. intros ->. by eexists.
Qed.

Lemma recorded_merge rows row key at_ o d : recorded rows row -> stored_ok (mkObservation key at_ o d) ->
  recorded (rows ++ [mkObservation key at_ o d]) (merge_origin row (proposed_origin at_ o d)).
Proof.
  intros [Hrows (on & Hnew & Hla & Hlo) Hfirst Hvalid] Hd.
  assert (Hlatest : exists x, newest (rows ++ [mkObservation key at_ o d]) = Some x
    /\ latest_check_at (merge_origin row (proposed_origin at_ o d)) = Some (obs_at x)
    /\ latest_check_outcome (merge_origin row (proposed_origin at_ o d)) = Some (obs_outcome x)
    /\ obs_at on <= obs_at x /\ at_ <= obs_at x).
  { rewrite newest_snoc, Hnew. cbn. rewrite Hla. cbn [not_older].
    destruct (Z.leb_spec (obs_at on) at_); eexists; split_and!; try done; cbn; lia. }
  destruct Hlatest as (x & Hx & Hxa & Hxo & Hle & Hat). split.
  - apply Forall_app. split; [done|by constructor].
  - by exists x.
  - intros t Ht. rewrite Hxa.
    assert (Hcase : first_participated_at row = Some t /\ initial_declaration (merge_origin row (proposed_origin at_ o d)) = initial_declaration row
      \/ (t = at_ /\ is_valid o = true /\ initial_declaration (merge_origin row (proposed_origin at_ o d)) = d)).
    { revert Ht. cbn. destruct (is_valid o); cbn [sooner]; [|by auto].
      destruct (first_participated_at row) as [s|]; [case_head|]; intros [= <-]; auto. }
    destruct Hcase as [[Hr ->]|(-> & Hv & ->)].
    + destruct (Hfirst t Hr) as (Hi & Hu & Ha). split_and!; [done| |].
      * intros u [= <-]. specialize (Hu _ Hla). lia.
      * rewrite List.filter_app. by apply newest_some_app.
    + split_and!; [unfold stored_ok in Hd; cbn in Hd; by rewrite Hv in Hd|intros u [= <-]; lia|].
      apply is_valid_spec in Hv as ->. rewrite List.filter_app. apply newest_some_snoc.
  - intros y [Hy| ->%list_elem_of_singleton]%elem_of_app Hv.
    + by apply merge_participated, (Hvalid y).
    + cbn in Hv. apply is_valid_spec in Hv as ->. apply merge_valid.
Qed.

Lemma record_observation_ok db key at_ o d : records_ok db -> stored_ok (mkObservation key at_ o d) ->
  records_ok (record_observation db key at_ o d).
Proof.
  intros Hr Hd key'. specialize (Hr key'). unfold rows_of in *. cbn [origins observations record_observation].
  unfold upsert_origin. rewrite List.filter_app. cbn [List.filter obs_origin].
  destruct (bytes_eqb_spec key key') as [<-|Hne].
  - rewrite lookup_insert_eq. destruct (origins db !! key) as [row|]; [by apply recorded_merge|].
    rewrite Hr. by apply recorded_single.
  - rewrite lookup_insert_ne by done. by rewrite app_nil_r.
Qed.

(** Retention keeps the newest and the newest authoritative row. *)
Lemma rows_of_elem db key row : row ∈ rows_of db key <-> row ∈ observations db /\ obs_origin row = key.
Proof.
  unfold rows_of. rewrite !list_elem_of_In, filter_In. destruct (bytes_eqb_spec (obs_origin row) key); naive_solver.
Qed.

Lemma records_known db : records_ok db -> observed_known db.
Proof.
  intros Hr row Hin. specialize (Hr (obs_origin row)). destruct (origins db !! obs_origin row) as [r|]; [by eexists|].
  assert (Hx : row ∈ rows_of db (obs_origin row)) by (by apply rows_of_elem). rewrite Hr in Hx. by apply elem_of_nil in Hx.
Qed.

Lemma purge_history_ok make_interval db retention now : records_ok db ->
  records_ok (fst (PurgeOperationalHistory make_interval db retention now)).
Proof.
  intros Hr. pose proof (records_known db Hr) as Hk. unfold PurgeOperationalHistory. case_head; [done|]. cbv zeta. cbn [fst].
  set (cutoff := pg_time now - make_interval retention). set (db' := with_crawl _ _).
  assert (Hsub : forall row key, row ∈ rows_of db' key -> row ∈ rows_of db key).
  { intros row key. rewrite !rows_of_elem. intros [Hin Ho]. split; [by apply (retained_subset db cutoff)|done]. }
  assert (Hnew : forall key, newest (rows_of db' key) = newest (rows_of db key)).
  { intros key. rewrite <- (filter_true (rows_of db' key)), <- (filter_true (rows_of db key)).
    apply (newest_retained db cutoff); [done|by left]. }
  intros key. specialize (Hr key). change (origins db' !! key) with (origins db !! key).
  destruct (origins db !! key) as [row|].
  - destruct Hr as [Hrows Hlatest Hfirst Hvalid]. split.
    + apply Forall_forall. intros x Hx. rewrite Forall_forall in Hrows. by apply Hrows, Hsub.
    + by rewrite Hnew.
    + intros t Ht. destruct (Hfirst t Ht) as (? & ? & Ha). split_and!; [done|done|].
      unfold rows_of. rewrite (newest_retained db cutoff); [done|done|by right].
    + intros x Hx. by apply Hvalid, Hsub.
  - destruct (rows_of db' key) as [|x l] eqn:Erows; [done|].
    assert (Hx : x ∈ rows_of db key) by (apply Hsub; rewrite Erows; by left). rewrite Hr in Hx. by apply elem_of_nil in Hx.
Qed.

(** ** Every operation keeps it *)

Definition same_records (db db' : Database) : Prop := origins db' = origins db /\ observations db' = observations db.

Lemma same_records_ok db db' : same_records db db' -> records_ok db -> records_ok db'.
Proof. intros [Ho Hb] Hr key. specialize (Hr key). unfold rows_of in *. by rewrite Ho, Hb. Qed.

Lemma core_records db db' : core db' = core db -> same_records db db'.
Proof. by intros [= _ _ Ho Hb]. Qed.

Lemma same_records_trans db1 db2 db3 : same_records db1 db2 -> same_records db2 db3 -> same_records db1 db3.
Proof. intros [? ?] [? ?]. split; congruence. Qed.

Lemma result_stored_ok key at_ r : validVerificationResult r = true ->
  stored_ok (mkObservation key at_ (result_Outcome r) (storedDeclarationValues r)).
Proof.
  unfold validVerificationResult, stored_ok, storedDeclarationValues. cbn [obs_outcome obs_declaration].
  case_bool_decide as Ho; [|intros _; rewrite bool_decide_eq_true_2 by done; by destruct (result_Outcome r)].
  rewrite Ho. cbn. intros Hv. b2p. exists (declared (result_Declaration r)). f_equal. f_equal. by apply Z.eqb_eq.
Qed.

Section Steps.
Context `{NetURL} `{NetIP} `{IDNA} `{!NetIPLaws} `{Unicode}.
Variable text_leb : bytes -> bytes -> bool.
Variable sql_lower : bytes -> bytes.
Variable make_interval : Z -> Z.
Variable config : AutomaticCrawlConfig.
Variable queueConfig : QueueConfig.
Variable excludedHosts : bytes.
Variable delay : Z -> Z -> Z.

Abbreviation step := (store_step text_leb sql_lower make_interval config queueConfig excludedHosts delay).

Lemma same_refl db : same_records db db.
Proof. done. Qed.

Ltac quiet := cbv zeta; repeat case_head; try done; try apply same_refl.

Lemma mutate_records db a mutation : same_records db (mutation db) -> same_records db (fst (mutate db a mutation)).
Proof. intros Hm. unfold mutate, insertControlAudit. quiet. Qed.

Lemma recompute_records cfg db : same_records db (fst (recomputeAutomaticCrawlBlocksTransaction text_leb cfg db)).
Proof.
  unfold recomputeAutomaticCrawlBlocksTransaction. generalize (exclusions text_leb cfg db) as suffixes.
  intros suffixes. generalize (order_by_origin text_leb (List.filter (fun '(_, s) => automatically_discovered s && negb (seeded s))
    (map_to_list (source_state db)))). intros l. generalize 0. clear.
  assert (Hg : forall l db0 n, same_records db db0 -> same_records db (fst (fold_left (recompute_step suffixes) l (db0, n)))).
  { intros l'. induction l' as [|[key s] l' IH]; intros db0 n Hs; cbn [fold_left]; [done|].
    unfold recompute_step at 2. case_match; by apply IH. }
  intros n. by apply Hg.
Qed.

Lemma set_rules_records f db : same_records db (set_rules text_leb excludedHosts f db).
Proof.
  unfold set_rules. cbv zeta. eapply same_records_trans; [|apply recompute_records]. done.
Qed.

Lemma record_discovery_records db runID source l now stmt :
  same_records db (fst (recordDiscovery text_leb config db runID source l now stmt)).
Proof.
  pose proof (recordDiscovery_spec text_leb config db runID source l now stmt) as Hr.
  destruct (recordDiscovery text_leb config db runID source l now stmt) as [db' [n|e]]; cbn [fst]; [|by subst].
  destruct Hr as (_ & _ & _ & Hnil & Hne). destruct l as [|c l]; [by rewrite Hnil|].
  destruct Hne as (_ & _ & _ & db1 & k & [Hf _ _ _ _] & Hprobes & _); [done|].
  apply (same_records_trans _ db1); [rewrite Hf|rewrite Hprobes]; done.
Qed.

Lemma complete_candidates_records db runID results now stmt :
  same_records db (fst (CompleteAutomaticCandidates text_leb config delay db runID results now stmt)).
Proof.
  destruct (automatic_Enabled config) eqn:Hen; [|unfold CompleteAutomaticCandidates; by rewrite Hen].
  destruct (runs (crawl db) !! runID) as [run|] eqn:Hrun.
  - destruct (run_finished_at run) as [t|] eqn:Hfin.
    + unfold CompleteAutomaticCandidates. rewrite Hen. cbn [negb]. case_head; [done|].
      destruct (prepareAdmissionCandidates _); [|done]. case_head; [done|]. rewrite Hrun.
      by rewrite bool_decide_eq_true_2 by (rewrite Hfin; by eexists).
    + pose proof (CompleteAutomaticCandidates_spec text_leb config delay db runID results now stmt run Hen Hrun Hfin) as Hspec.
      destruct (CompleteAutomaticCandidates _ _ _ _ _ _ _ _) as [db' [e|]]; cbn [fst]; [by subst|].
      by destruct Hspec as [_ _ _ _ _ _ (Ho & Hob & _)].
  - unfold CompleteAutomaticCandidates. rewrite Hen. cbn [negb]. case_head; [done|].
    destruct (prepareAdmissionCandidates _); [|done]. case_head; [done|]. by rewrite Hrun.
Qed.

Lemma cancel_records db0 db f now reason db' : same_records db0 db -> cancel_runs db f now reason = Ok db' -> same_records db0 db'.
Proof. intros Hs Hc%cancel_runs_core. eapply same_records_trans; [exact Hs|by apply core_records]. Qed.

Lemma claim_source_records locked db owner interval leaseDuration now :
  same_records db (fst (ClaimDiscoverySourceLease text_leb make_interval config locked db owner interval leaseDuration now)).
Proof.
  unfold ClaimDiscoverySourceLease. do 4 (case_head; [done|]). cbv zeta. destruct (first_source _ _ _ _ _ _ _) as [key|]; [|done].
  destruct (Origin.Parse key) as [source|]; [|done]. case_head; [done|]. set (db1 := set_source_state db _).
  destruct (cancel_runs db1 _ _ _) as [db2|] eqn:Hc2; [|done]. cbn [res_bind].
  destruct (cancel_runs db2 _ _ _) as [db3|] eqn:Hc3; [|done]. cbn [fst].
  eapply cancel_records; [|exact Hc3]. eapply cancel_records; [|exact Hc2]. done.
Qed.

Lemma complete_source_records db l category retryAfter now :
  same_records db (fst (CompleteDiscoverySourceLeaseRetry delay db l category retryAfter now)).
Proof.
  unfold CompleteDiscoverySourceLeaseRetry. do 2 (case_head; [done|]). cbv zeta.
  destruct (source_state db !! _) as [s|] eqn:Hk; [|done]. case_head; [|done].
  set (db1 := set_source_state db _). destruct (cancel_runs db1 _ _ _) as [db2|] eqn:Hc2; [|done]. cbn [fst].
  eapply cancel_records; [|exact Hc2]. done.
Qed.

Lemma complete_verification_ok db l r recheckAfter now : records_ok db ->
  records_ok (fst (CompleteVerification queueConfig make_interval delay db l r recheckAfter now)).
Proof.
  intros Hr. unfold CompleteVerification. do 3 (case_head; [done|]).
  destruct (validVerificationResult r) eqn:Hv; [|done]. cbn [negb]. case_head; [done|]. cbv zeta.
  destruct (queue db !! _) as [row|]; [|done]. case_head; [|done]. cbn [fst]. unfold complete_row. cbv zeta.
  set (q := if removes r row then _ else _).
  apply (same_records_ok (record_observation (set_queue db q) (origin_String (lease_Origin l)) (pg_time now)
    (result_Outcome r) (storedDeclarationValues r))); [done|].
  apply record_observation_ok; [|by apply result_stored_ok]. by apply (same_records_ok db).
Qed.

Lemma verification_ok db observedAt r : records_ok db -> records_ok (fst (RecordVerification db observedAt r)).
Proof.
  intros Hr. unfold RecordVerification. do 2 (case_head; [done|]). destruct (validVerificationResult r) eqn:Hv; [|done].
  cbn [negb fst]. apply record_observation_ok; [done|by apply result_stored_ok].
Qed.

(** The operations that verify, purge, or leave observations alone. *)
Lemma store_step_records db db' : step db db' -> records_ok db -> records_ok db'.
Proof.
  intros Hstep Hr. destruct Hstep;
    try (by apply purge_history_ok); try (by apply complete_verification_ok); try (by apply verification_ok);
    (eapply same_records_ok; [|exact Hr]).
  - unfold AddCrawlSeed. quiet.
  - unfold RemoveCrawlSeed. quiet.
  - done.
  - unfold SetCrawlBlocked. quiet.
  - unfold ReconcileAutomaticCrawlPolicy. case_head; [done|]. apply recompute_records.
  - unfold SetProcessorPaused. cbv zeta. destruct (negb _ && negb _); [done|]. destruct (negb _); [done|].
    apply mutate_records. unfold set_processor_paused. by case_head.
  - unfold SetAutomaticExpansionPaused. destruct (negb _); [done|]. by apply mutate_records.
  - unfold AddDomainAvoid. destruct (domain_rule pattern); [|done]. case_head; [done|]. apply mutate_records, set_rules_records.
  - unfold RemoveDomainAvoid. destruct (domain_rule pattern); [|done]. case_head; [done|]. apply mutate_records, set_rules_records.
  - unfold SetOriginBlocked. destruct (Origin.Parse raw); [|done]. do 2 (destruct (negb _); [done|]). by apply mutate_records.
  - unfold RecordRejected, insertControlAudit. quiet.
  - apply claim_source_records.
  - unfold RenewDiscoverySourceLease. quiet.
  - apply complete_source_records.
  - apply record_discovery_records.
  - unfold RecordDiscoveryForRun. case_head; [done|]. apply record_discovery_records.
  - apply core_records, pending_probes_core.
  - apply core_records, pending_candidates_core.
  - apply complete_candidates_records.
  - unfold BeginCrawl. quiet.
  - unfold RecordPageAttempt. quiet.
  - unfold FinishCrawlSummary. quiet.
  - unfold UpsertServiceHeartbeat. quiet.
  - unfold PurgeCrawlTelemetry. quiet.
  - unfold Schedule. quiet.
  - unfold Claim. quiet.
  - unfold Renew. quiet.
  - unfold Reschedule. quiet.
  - unfold AbandonVerification. quiet.
Qed.

Lemma empty_records : records_ok empty_database.
Proof. intros key. unfold rows_of. cbn [origins observations empty_database]. by rewrite lookup_empty. Qed.

Lemma reachable_records db : rtc step empty_database db -> records_ok db.
Proof.
  assert (Hinv : forall db0, rtc step db0 db -> records_ok db0 -> records_ok db).
  { intros db0 Hrtc. induction Hrtc as [|x y z Hxy _ IH]; [done|]. intros Hx. apply IH. by eapply store_step_records. }
  intros Hrtc. apply (Hinv _ Hrtc), empty_records.
Qed.

(** ** Collecting rows *)

Lemma collect_Ok {A B} (f : A -> res error B) l ys : collect f l = Ok ys -> Forall2 (fun x y => f x = Ok y) l ys.
Proof.
  revert ys. induction l as [|x l IH]; intros ys; cbn [collect]; [intros [= <-]; constructor|].
  destruct (f x) as [y|] eqn:Hf; [|done]. cbn [res_bind]. destruct (collect f l) as [ys'|]; [|done].
  intros [= <-]. constructor; [done|]. by apply IH.
Qed.

Lemma collect_Err {A B} (f : A -> res error B) l e : collect f l = Err e -> exists x, x ∈ l /\ f x = Err e.
Proof.
  induction l as [|x l IH]; cbn [collect]; [done|]. destruct (f x) as [y|] eqn:Hf.
  - cbn [res_bind]. destruct (collect f l) as [ys|e']; [done|]. intros [= ->]. destruct IH as (z & ? & ?); [done|].
    exists z. split; [by right|done].
  - intros [= ->]. exists x. split; [by left|done].
Qed.

Lemma participants_elem db key row :
  (key, row) ∈ participants text_leb db <-> origins db !! key = Some row /\ is_Some (first_participated_at row).
Proof.
  unfold participants. rewrite order_by_origin_perm, elem_of_filter_map. by rewrite bool_decide_eq_true.
Qed.

Lemma effective_rows_elem db key row : (key, row) ∈ effective_rows text_leb db <-> authoritative_row db key = Some row.
Proof.
  unfold effective_rows. rewrite order_by_origin_perm, list_elem_of_omap. split.
  - intros (k & _ & Hk). destruct (authoritative_row db k) eqn:Ha; [|done]. by injection Hk as <- <-.
  - intros Ha. exists key. rewrite Ha. split; [|done]. apply elem_of_remove_dups, list_elem_of_fmap. exists row.
    unfold authoritative_row in Ha. apply newest_in in Ha. rewrite list_elem_of_In, filter_In, <- list_elem_of_In in Ha.
    destruct Ha as [Ha _]. apply rows_of_elem in Ha as [? ?]. by split.
Qed.

(** ** The registry *)

(** What an entry of the registry says about an origin. *)
Record registered (db : Database) (key : bytes) (row : OriginRow) (e : RegistryOrigin) : Prop := {
  rg_origin : Origin.Parse key = Ok (registry_Origin e);
  rg_first : first_participated_at row = Some (FirstParticipatedAt e);
  rg_initial : exists i, initial_declaration row = Some (1, i) /\ InitialDeclaration e = mkDeclaration 1 i;
  rg_latest : exists o, newest (rows_of db key) = Some o /\ LatestDeclarationCheckAt e = obs_at o
    /\ LatestDeclarationCheckOutcome e = obs_outcome o;
  rg_order : FirstParticipatedAt e <= LatestDeclarationCheckAt e;
  rg_current : exists o, authoritative_row db key = Some o
    /\ (CurrentDeclaration e = None /\ obs_outcome o <> OutcomeValid
        \/ exists i, obs_outcome o = OutcomeValid /\ obs_declaration o = Some (1, i)
             /\ CurrentDeclaration e = Some (mkDeclaration 1 i));
}.

Lemma authoritative_elem db key o : authoritative_row db key = Some o ->
  o ∈ rows_of db key /\ authoritative (obs_outcome o) = true.
Proof.
  unfold authoritative_row. intros Ha%newest_in. by rewrite list_elem_of_In, filter_In, <- list_elem_of_In in Ha.
Qed.

Lemma current_declaration_stored o : stored_ok o ->
  (obs_outcome o = OutcomeValid /\ exists i, obs_declaration o = Some (1, i)
     /\ current_declaration o = Ok (Some (mkDeclaration 1 i)))
  \/ (obs_outcome o <> OutcomeValid /\ obs_declaration o = None /\ current_declaration o = Ok None).
Proof.
  unfold stored_ok, current_declaration. intros Hs. case_bool_decide as Ho.
  - rewrite Ho in Hs. cbn in Hs. destruct Hs as [i Hi]. left. split; [done|]. exists i. by rewrite Hi.
  - right. replace (is_valid (obs_outcome o)) with false in Hs by (by destruct (obs_outcome o)). split; [done|]. by rewrite Hs.
Qed.

(** A recorded participant is scanned without error when its key parses. *)
Lemma scan_registered db key row : records_ok db -> origins db !! key = Some row -> is_Some (first_participated_at row) ->
  match Origin.Parse key with
  | Ok _ => exists e, scanRegistryOrigin key row (authoritative_row db key) = Ok e /\ registered db key row e
  | Err _ => exists err, scanRegistryOrigin key row (authoritative_row db key) = Err err
  end.
Proof.
  intros Hr Ho [t Ht]. specialize (Hr key). rewrite Ho in Hr. destruct Hr as [Hrows (o & Hnew & Hla & Hlo) Hfirst _].
  destruct (Hfirst t Ht) as ([i Hi] & Hu & [a Ha]). fold (authoritative_row db key) in Ha.
  unfold scanRegistryOrigin. rewrite Ht, Hi, Hla, Hlo. destruct (Origin.Parse key) as [source|pe] eqn:Hp; [|by eexists].
  cbn [Z.eqb negb Pos.eqb]. specialize (Hu _ Hla). unfold time_After. rewrite (proj2 (Z.ltb_ge _ _)) by lia. rewrite Ha.
  destruct (authoritative_elem db key a Ha) as [Hin Hauth].
  rewrite !bool_decide_eq_false_2 by (intros Heq; by rewrite Heq in Hauth). cbn [orb].
  rewrite Forall_forall in Hrows. destruct (current_declaration_stored a (Hrows a Hin)) as [(Hv & j & Hj & Hc)|(Hv & Hd & Hc)];
    rewrite Hc; cbn [res_bind]; eexists; (split; [done|]);
    split; cbn [registry_Origin FirstParticipatedAt InitialDeclaration LatestDeclarationCheckAt LatestDeclarationCheckOutcome
      CurrentDeclaration]; try done; try (by eexists); exists a; (split; [done|]); eauto.
Qed.

Lemma RegistryOrigins_reads db : records_ok db ->
  match RegistryOrigins text_leb db with
  | Ok l => Forall2 (fun p e => registered db (fst p) (snd p) e) (participants text_leb db) l
  | Err _ => exists key row err, (key, row) ∈ participants text_leb db /\ Origin.Parse key = Err err
  end.
Proof.
  intros Hr. unfold RegistryOrigins.
  assert (Hscan : forall p, p ∈ participants text_leb db -> match Origin.Parse (fst p) with
    | Ok _ => exists e, scanRegistryOrigin (fst p) (snd p) (authoritative_row db (fst p)) = Ok e
                /\ registered db (fst p) (snd p) e
    | Err _ => True end).
  { intros [key row] [Ho Hf]%participants_elem. cbn [fst snd]. pose proof (scan_registered db key row Hr Ho Hf) as Hs.
    by destruct (Origin.Parse key). }
  destruct (collect _ _) as [l|err] eqn:Hc.
  - apply collect_Ok in Hc. revert Hscan. induction Hc as [|[key row] e ps es He _ IH]; intros Hscan; constructor.
    + pose proof (Hscan (key, row) ltac:(by left)) as Hs. cbn [fst snd] in *. destruct (Origin.Parse key) eqn:Hp.
      * destruct Hs as (e' & He' & Hreg). rewrite He in He'. by injection He' as <-.
      * unfold scanRegistryOrigin in He. rewrite Hp in He. by repeat case_head_in He.
    + apply IH. intros p Hin. apply Hscan. by right.
  - apply collect_Err in Hc as ([key row] & Hin & He). specialize (Hscan _ Hin). cbn [fst snd] in Hscan.
    destruct (Origin.Parse key) as [o|pe] eqn:Hp; [|by exists key, row, pe].
    destruct Hscan as (e & He' & _). by rewrite He' in He.
Qed.

(** ** Verified origins *)

(** What an entry of the verified origins says. *)
Definition verified_entry (db : Database) (p : bytes * ObservationRow) (v : VerifiedOrigin) : Prop :=
  authoritative_row db (fst p) = Some (snd p) /\ obs_outcome (snd p) = OutcomeValid
  /\ Origin.Parse (fst p) = Ok (verified_Origin v)
  /\ exists i, obs_declaration (snd p) = Some (1, i) /\ verified_Declaration v = mkDeclaration 1 i.

Lemma valid_rows_elem db key row :
  (key, row) ∈ List.filter (fun r => is_valid (obs_outcome (snd r))) (effective_rows text_leb db)
  <-> authoritative_row db key = Some row /\ obs_outcome row = OutcomeValid.
Proof.
  rewrite list_elem_of_In, filter_In, <- list_elem_of_In, effective_rows_elem. cbn [snd]. by rewrite is_valid_spec.
Qed.

(** An origin that is verified has participated. *)
Lemma verified_participant db key row : records_ok db -> authoritative_row db key = Some row -> obs_outcome row = OutcomeValid ->
  stored_ok row /\ exists r, (key, r) ∈ participants text_leb db.
Proof.
  intros Hr Ha Hv. destruct (authoritative_elem db key row Ha) as [Hin _]. specialize (Hr key).
  destruct (origins db !! key) as [r|] eqn:Ho; [|rewrite Hr in Hin; by apply elem_of_nil in Hin].
  destruct Hr as [Hrows _ _ Hvalid]. rewrite Forall_forall in Hrows. split; [by apply Hrows|]. exists r.
  apply participants_elem. split; [done|]. apply (Hvalid row Hin). by apply is_valid_spec.
Qed.

Lemma VerifiedOrigins_reads db : records_ok db ->
  match VerifiedOrigins text_leb db with
  | Ok vs => Forall2 (verified_entry db)
               (List.filter (fun r => is_valid (obs_outcome (snd r))) (effective_rows text_leb db)) vs
  | Err _ => exists key row err, (key, row) ∈ participants text_leb db /\ Origin.Parse key = Err err
  end.
Proof.
  intros Hr. unfold VerifiedOrigins. set (rows := List.filter _ _).
  assert (Hrows : forall p, p ∈ rows -> authoritative_row db (fst p) = Some (snd p) /\ obs_outcome (snd p) = OutcomeValid
    /\ exists i, obs_declaration (snd p) = Some (1, i)).
  { intros [key row] [Ha Hv]%valid_rows_elem. split_and!; [done|done|]. cbn [snd].
    destruct (verified_participant db key row Hr Ha Hv) as [Hs _]. unfold stored_ok in Hs. by rewrite Hv in Hs. }
  destruct (collect _ _) as [vs|err] eqn:Hc.
  - apply collect_Ok in Hc. revert Hrows. induction Hc as [|p v ps vs Hv _ IH]; intros Hrows; constructor.
    + destruct (Hrows p ltac:(by left)) as (Ha & Ho & i & Hi). unfold scanVerifiedOrigin in Hv. rewrite Hi in Hv.
      destruct (Origin.Parse (fst p)) as [o|] eqn:Hp; [|done]. cbn in Hv. injection Hv as <-. split_and!; [done..|by exists i].
    + apply IH. intros q Hq. apply Hrows. by right.
  - apply collect_Err in Hc as ([key row] & Hin & He). destruct (Hrows _ Hin) as (Ha & Ho & i & Hi). cbn [fst snd] in *.
    unfold scanVerifiedOrigin in He. cbn [fst snd] in He. rewrite Hi in He.
    destruct (verified_participant db key row Hr Ha Ho) as [_ [r Hpart]].
    destruct (Origin.Parse key) as [o|pe] eqn:Hp; [done|]. by exists key, r, pe.
Qed.

Lemma verified_agrees db l vs : records_ok db ->
  Forall2 (fun p e => registered db (fst p) (snd p) e) (participants text_leb db) l ->
  Forall2 (verified_entry db) (List.filter (fun r => is_valid (obs_outcome (snd r))) (effective_rows text_leb db)) vs ->
  forall o d, mkVerified o d ∈ vs <-> exists e, e ∈ l /\ registry_Origin e = o /\ CurrentDeclaration e = Some d.
Proof.
  intros Hr Hl Hvs o d. split.
  - intros Hin. apply list_elem_of_lookup_1 in Hin as [i Hi]. destruct (Forall2_lookup_r _ _ _ _ _ Hvs Hi) as ([key row] & Hk & Hv).
    destruct Hv as (Ha & Ho & Hp & j & Hj & Hd). cbn [fst snd verified_Origin verified_Declaration] in *.
    destruct (verified_participant db key row Hr Ha Ho) as [_ [r Hpart]].
    apply list_elem_of_lookup_1 in Hpart as [n Hn]. destruct (Forall2_lookup_l _ _ _ _ _ Hl Hn) as (e & He & Hreg).
    exists e. split; [by eapply list_elem_of_lookup_2|]. destruct Hreg as [Hpe _ _ _ _ (a & Ha' & Hcur)]. cbn [fst snd] in *.
    split; [congruence|]. destruct Hcur as [[_ Hne]|(k & _ & Hk' & Hc)]; congruence.
  - intros (e & Hin & <- & Hd). apply list_elem_of_lookup_1 in Hin as [n Hn].
    destruct (Forall2_lookup_r _ _ _ _ _ Hl Hn) as ([key row] & Hk & [Hpe _ _ _ _ (a & Ha & Hcur)]). cbn [fst snd] in *.
    destruct Hcur as [[? _]|(i & Ho & Hi & Hc)]; [congruence|].
    assert (Hrow : (key, a) ∈ List.filter (fun r => is_valid (obs_outcome (snd r))) (effective_rows text_leb db))
      by (by apply valid_rows_elem).
    apply list_elem_of_lookup_1 in Hrow as [m Hm]. destruct (Forall2_lookup_l _ _ _ _ _ Hvs Hm) as (v & Hv & (_ & _ & Hpv & j & Hj & Hdv)).
    cbn [fst snd] in *. apply list_elem_of_lookup. exists m. rewrite Hv. f_equal. destruct v as [vo vd]. cbn in *. congruence.
Qed.

(** C30: The registry reads back what was recorded. In every database that the
    store's operations reach, retention included, the registry lists, ordered
    by origin, exactly the origins that ever published a valid declaration,
    each with its first participation and initial declaration, the time and
    outcome of its newest check, and a current declaration exactly when its
    newest authoritative observation is valid. It fails only for a stored key
    that is not an origin. The verified origins are exactly the entries with a
    current declaration. *)
Theorem registry_correct db : rtc step empty_database db ->
  (forall key row, (key, row) ∈ participants text_leb db <->
     origins db !! key = Some row /\ is_Some (first_participated_at row))
  /\ match RegistryOrigins text_leb db with
     | Ok l =>
         Forall2 (fun p e => registered db (fst p) (snd p) e) (participants text_leb db) l
         /\ exists vs, VerifiedOrigins text_leb db = Ok vs
              /\ forall o d, mkVerified o d ∈ vs <-> exists e, e ∈ l /\ registry_Origin e = o /\ CurrentDeclaration e = Some d
     | Err _ => exists key row err, (key, row) ∈ participants text_leb db /\ Origin.Parse key = Err err
     end.
Proof.
  intros Hr%reachable_records. split; [intros; apply participants_elem|].
  pose proof (RegistryOrigins_reads db Hr) as Hl. destruct (RegistryOrigins text_leb db) as [l|]; [|done]. split; [done|].
  pose proof (VerifiedOrigins_reads db Hr) as Hv. destruct (VerifiedOrigins text_leb db) as [vs|].
  - exists vs. split; [done|]. by apply (verified_agrees db).
  - destruct Hv as (key & row & err & Hin & Hp). apply list_elem_of_lookup_1 in Hin as [i Hi].
    destruct (Forall2_lookup_l _ _ _ _ _ Hl Hi) as (entry & _ & [Hpe _ _ _ _ _]). cbn [fst] in Hpe. congruence.
Qed.
End Steps.

(** ** History *)

#[export] Instance newer_first_total : Total newer_first.
Proof. intros a b. unfold newer_first. lia. Qed.
#[export] Instance newer_first_trans : Transitive newer_first.
Proof. intros a b c. unfold newer_first. lia. Qed.

(** The history of an origin is the newest observations first, as many as the
    limit allows, and leaves out only older ones. *)
Theorem Observations_correct db source limit : origin_String source <> [] -> 1 <= limit <= MaxObservationHistory ->
  exists kept rest, Observations db source limit = Ok (map (fun r => observationFromStored (snd r)) kept)
    /\ kept ++ rest ≡ₚ imap pair (rows_of db (origin_String source))
    /\ Sorted newer_first kept
    /\ (forall a b, a ∈ kept -> b ∈ rest -> newer_first a b)
    /\ (Z.of_nat (length kept) = limit \/ rest = []).
Proof.
  intros Hs Hl. unfold Observations. destruct (bytes_eqb_spec (origin_String source) []); [done|].
  replace ((limit <? 1) || (MaxObservationHistory <? limit)) with false by (unfold MaxObservationHistory in *; lia).
  set (rows := merge_sort newer_first _). exists (take (Z.to_nat limit) rows), (drop (Z.to_nat limit) rows).
  assert (Hsort : StronglySorted newer_first rows) by (apply (StronglySorted_merge_sort newer_first)).
  split; [done|]. rewrite take_drop. split; [apply merge_sort_Permutation|].
  rewrite <- (take_drop (Z.to_nat limit) rows) in Hsort. apply StronglySorted_app in Hsort as (Hrel & Hk & _).
  split_and!; [by apply StronglySorted_Sorted|intros a b Ha Hb; by apply Hrel|].
  destruct (Nat.le_gt_cases (length rows) (Z.to_nat limit)); [right; by apply drop_ge|left; rewrite length_take; lia].
Qed.
