(* ===== verification/PublicData.v ===== *)
(** * The public registry ([internal/publicdata/publicdata.go], [registry.go])

    The projection of the participants onto the files of a snapshot: one
    document per origin, and the registry that lists them. Instants are UTC,
    so [Time.UTC] is the identity. Unknown outcomes and identities do not
    exist in the types. *)

From S2P Require Import Prelude GoText GoUrl GoErrors GoNetip GoJson GoTime GoEncoding Retry Origin Netguard.
From S2P Require Import RobotsMatch RobotsPolicy RobotsPolicyFacts RobotsHTTP Declaration Verifier.
From S2P Require Import Discovery Store Queue Exclusions DiscoveryStore Registry.

Definition FormatVersion : Z := 1.

Record File : Type := mkFile { file_Path : bytes; file_Data : bytes }.

(** [crypto/sha256] *)
Class SHA256 := { sha256_Sum256 : bytes -> bytes }.
Class SHA256Laws `{SHA256} := { Sum256_length s : length (sha256_Sum256 s) = 32%nat }.

(** ** Order

    [<] on strings compares bytes. [sort.Slice] leaves the order of equal keys
    open; where the program sorts, the keys are distinct. *)

Definition text_le (s t : bytes) : Prop := bytes_compare s t <> Gt.
#[export] Instance text_le_dec : RelDecision text_le.
Proof. intros s t. unfold text_le. apply _. Defined.

Definition key_le {A} (key : A -> bytes) (a b : A) : Prop := text_le (key a) (key b).
#[export] Instance key_le_dec {A} (key : A -> bytes) : RelDecision (key_le key).
Proof. intros a b. unfold key_le. apply _. Defined.

Definition sort_by {A} (key : A -> bytes) (l : list A) : list A := merge_sort (key_le key) l.

(** ** Documents *)

Record declarationDocument : Type := mkDocument { doc_Version : Z; doc_Josh : option bool }.

Definition validPublicIdentity (identity : Identity) : bool :=
  match identity with IdentityUndeclared | IdentityAffirmed | IdentityDeclined => true end.

Definition projectDeclaration (source : Declaration) : declarationDocument :=
  mkDocument (Version source)
    match declared source with
    | IdentityAffirmed => Some true
    | IdentityDeclined => Some false
    | IdentityUndeclared => None
    end.

Definition projectOptionalDeclaration (source : option Declaration) : option declarationDocument :=
  projectDeclaration <$> source.

Definition declaration_json (d : declarationDocument) : json :=
  JObject ((bs "version", JInt (doc_Version d))
    :: match doc_Josh d with Some b => [(bs "josh", JBool b)] | None => [] end).

Definition publicOutcomeTexts (o : Outcome) : bytes :=
  match o with
  | OutcomeValid => bs "valid"
  | OutcomeAbsent => bs "absent"
  | OutcomeInvalid => bs "invalid"
  | OutcomeUnsupportedVersion => bs "unsupported_version"
  | OutcomeUnavailable => bs "unavailable"
  | OutcomeRobotsDenied => bs "robots_denied"
  | OutcomeCrossOriginRedirect => bs "cross_origin_redirect"
  end.

Record historyRegistryEntry : Type := mkEntry {
  entry_Origin : bytes;
  entry_Path : bytes;
  entry_FirstParticipatedAt : Z;
  entry_InitialDeclaration : declarationDocument;
  entry_LatestDeclarationCheckAt : Z;
  entry_LatestDeclarationCheckOutcome : bytes;
  entry_Declaration : option declarationDocument;
}.

Record historyRegistryDocument : Type := mkRegistryDocument {
  registry_FormatVersion : Z;
  registry_Nodes : list historyRegistryEntry;
}.

Record historyNodeDocument : Type := mkNodeDocument {
  node_FormatVersion : Z;
  node_Origin : bytes;
  node_FirstParticipatedAt : Z;
  node_InitialDeclaration : declarationDocument;
  node_LatestDeclarationCheckAt : Z;
  node_LatestDeclarationCheckOutcome : bytes;
  node_Declaration : option declarationDocument;
}.

(** The members in the order of the fields; [declaration] has [omitempty]. *)
Definition optional_declaration (d : option declarationDocument) : list (bytes * json) :=
  match d with Some d => [(bs "declaration", declaration_json d)] | None => [] end.

Definition entry_json (e : historyRegistryEntry) : json :=
  JObject ([(bs "origin", JString (entry_Origin e));
    (bs "path", JString (entry_Path e));
    (bs "first_participated_at", JTime (entry_FirstParticipatedAt e));
    (bs "initial_declaration", declaration_json (entry_InitialDeclaration e));
    (bs "latest_declaration_check_at", JTime (entry_LatestDeclarationCheckAt e));
    (bs "latest_declaration_check_outcome", JString (entry_LatestDeclarationCheckOutcome e))]
    ++ optional_declaration (entry_Declaration e)).

Definition registry_json (r : historyRegistryDocument) : json :=
  JObject [(bs "format_version", JInt (registry_FormatVersion r)); (bs "nodes", JArray (map entry_json (registry_Nodes r)))].

Definition node_json (n : historyNodeDocument) : json :=
  JObject ([(bs "format_version", JInt (node_FormatVersion n));
    (bs "origin", JString (node_Origin n));
    (bs "first_participated_at", JTime (node_FirstParticipatedAt n));
    (bs "initial_declaration", declaration_json (node_InitialDeclaration n));
    (bs "latest_declaration_check_at", JTime (node_LatestDeclarationCheckAt n));
    (bs "latest_declaration_check_outcome", JString (node_LatestDeclarationCheckOutcome n))]
    ++ optional_declaration (node_Declaration n)).

(** A document that cannot be marshaled is published as an empty line. *)
Definition marshalPublicJSON (value : json) : bytes := default [] (json_MarshalIndent value) ++ [chr 10].

(** ** Validation *)

Definition validRegistryDeclaration (source : Declaration) : bool :=
  (Version source =? 1) && validPublicIdentity (declared source).

Definition validRegistryOrigin (participant : RegistryOrigin) : bool :=
  if bytes_eqb (origin_String (registry_Origin participant)) []
    || time_IsZero (FirstParticipatedAt participant)
    || time_IsZero (LatestDeclarationCheckAt participant)
    || time_After (FirstParticipatedAt participant) (LatestDeclarationCheckAt participant)
    || negb (validRegistryDeclaration (InitialDeclaration participant))
  then false
  else if (match CurrentDeclaration participant with
           | Some current => negb (validRegistryDeclaration current)
           | None => false
           end)
  then false
  else
    match LatestDeclarationCheckOutcome participant with
    | OutcomeValid => bool_decide (is_Some (CurrentDeclaration participant))
    | OutcomeAbsent | OutcomeInvalid | OutcomeUnsupportedVersion | OutcomeCrossOriginRedirect =>
        bool_decide (CurrentDeclaration participant = None)
    | OutcomeUnavailable | OutcomeRobotsDenied => true
    end.

(** The first participant that is invalid or repeats an origin. *)
Fixpoint check_participants (seenOrigins : gset bytes) (ps : list RegistryOrigin) : option error :=
  match ps with
  | [] => None
  | participant :: rest =>
      let canonical := origin_String (registry_Origin participant) in
      if negb (validRegistryOrigin participant) then Some (errors_New ErrInvalidRegistryOrigin)
      else if bool_decide (canonical ∈ seenOrigins) then Some (errors_New ErrDuplicateOrigin)
      else check_participants ({[ canonical ]} ∪ seenOrigins) rest
  end.

(** ** The snapshot *)

Section Snapshot.
Context `{SHA256}.

Definition pathForOrigin (canonical : bytes) : bytes :=
  let encoded := hex_EncodeToString (sha256_Sum256 canonical) in
  bs "nodes/" ++ take 2 encoded ++ bs "/" ++ encoded ++ bs ".json".

Definition registry_entry (participant : RegistryOrigin) : historyRegistryEntry :=
  let canonical := origin_String (registry_Origin participant) in
  mkEntry canonical (pathForOrigin canonical) (FirstParticipatedAt participant)
    (projectDeclaration (InitialDeclaration participant)) (LatestDeclarationCheckAt participant)
    (publicOutcomeTexts (LatestDeclarationCheckOutcome participant))
    (projectOptionalDeclaration (CurrentDeclaration participant)).

Definition node_document (participant : RegistryOrigin) : historyNodeDocument :=
  mkNodeDocument FormatVersion (origin_String (registry_Origin participant)) (FirstParticipatedAt participant)
    (projectDeclaration (InitialDeclaration participant)) (LatestDeclarationCheckAt participant)
    (publicOutcomeTexts (LatestDeclarationCheckOutcome participant))
    (projectOptionalDeclaration (CurrentDeclaration participant)).

Definition node_file (participant : RegistryOrigin) : File :=
  mkFile (pathForOrigin (origin_String (registry_Origin participant)))
    (marshalPublicJSON (node_json (node_document participant))).

Definition registry_file (ordered : list RegistryOrigin) : File :=
  mkFile (bs "registry.json")
    (marshalPublicJSON (registry_json (mkRegistryDocument FormatVersion (map registry_entry ordered)))).

Definition BuildRegistry (participants : list RegistryOrigin) : res error (list File) :=
  match check_participants ∅ participants with
  | Some err => Err (wrap err)
  | None =>
      let ordered := sort_by (fun p => origin_String (registry_Origin p)) participants in
      Ok (sort_by file_Path (map node_file ordered ++ [registry_file ordered]))
  end.
End Snapshot.

(** ** Paths of a snapshot ([reader.go]) *)

Definition isLowerHexByte (value : ascii) : bool := in_range "0" "9" value || in_range "a" "f" value.
Definition isLowerHex (value : bytes) : bool := forallb isLowerHexByte value.

Definition validSnapshotDirectory (logicalPath : bytes) : bool :=
  if bytes_eqb logicalPath (bs "nodes") then true
  else
    match Split logicalPath "/" with
    | [nodes; prefix] => bytes_eqb nodes (bs "nodes") && (length prefix =? 2)%nat && isLowerHex prefix
    | _ => false
    end.

Definition validSnapshotPath (logicalPath : bytes) : bool :=
  if bytes_eqb logicalPath (bs "registry.json") then true
  else
    match Split logicalPath "/" with
    | [nodes; prefix; name] =>
        if negb (bytes_eqb nodes (bs "nodes")) || negb (length prefix =? 2)%nat || negb (isLowerHex prefix)
          || negb (HasSuffix name (bs ".json"))
        then false
        else
          let hash := TrimSuffix name (bs ".json") in
          (length hash =? 64)%nat && isLowerHex hash && HasPrefix hash prefix
    | _ => false
    end.

(** * Correctness of the public registry

    A snapshot is a function of the set of participants, its paths are those
    the reader and the publisher accept, and its documents say what the
    registry says: a consumer reads every participant back. *)


#[local] Set Warnings "-clear-no-such-hyp".

(** ** Order *)

#[export] Instance text_le_total : Total text_le.
Proof. intros s t. unfold text_le. rewrite (bytes_compare_antisym s t). destruct (bytes_compare s t); cbn; auto. Qed.
#[export] Instance text_le_trans : Transitive text_le.
Proof. intros s t u. apply bytes_compare_trans. Qed.
#[export] Instance text_le_antisym : AntiSymm (=) text_le.
Proof.
  intros s t. unfold text_le. rewrite (bytes_compare_antisym s t). destruct (bytes_compare s t) eqn:Hc; cbn; try done.
  by apply bytes_compare_eq in Hc.
Qed.

Section Sorting.
Context {A : Type} (key : A -> bytes).

#[export] Instance key_le_total : Total (key_le key).
Proof. intros a b. apply text_le_total. Qed.
#[export] Instance key_le_trans : Transitive (key_le key).
Proof. intros a b c. apply text_le_trans. Qed.

Lemma sort_by_perm l : sort_by key l ≡ₚ l.
Proof. apply merge_sort_Permutation. Qed.
Lemma sort_by_sorted l : StronglySorted (key_le key) (sort_by key l).
Proof. apply (StronglySorted_merge_sort _). Qed.

Lemma key_inj l a b : NoDup (map key l) -> a ∈ l -> b ∈ l -> key a = key b -> a = b.
Proof.
  induction l as [|c l IH]; [by intros _ ?%elem_of_nil|]. cbn [map]. rewrite NoDup_cons. intros [Hn Hnd] Ha Hb Hk.
  apply elem_of_cons in Ha as [->|Ha], Hb as [->|Hb]; [done| | |by apply IH].
  - destruct Hn. rewrite Hk. rewrite list_elem_of_In. by apply in_map, list_elem_of_In.
  - destruct Hn. rewrite <- Hk. rewrite list_elem_of_In. by apply in_map, list_elem_of_In.
Qed.

(** With distinct keys every order of the input gives one sorted list. *)
Lemma sorted_unique l l' : StronglySorted (key_le key) l -> StronglySorted (key_le key) l' -> l ≡ₚ l' ->
  NoDup (map key l) -> l = l'.
Proof.
  intros Hs Hs' Hp Hnd. apply (StronglySorted_unique_strong (key_le key)); [|done..].
  intros a b Ha Hb Hab Hba. apply (key_inj l); [done|done|by rewrite Hp|]. by apply (anti_symm text_le).
Qed.

Lemma sort_by_unique l l' : l ≡ₚ l' -> NoDup (map key l) -> sort_by key l = sort_by key l'.
Proof.
  intros Hp Hnd. apply sorted_unique; [apply sort_by_sorted..| |].
  - by rewrite !sort_by_perm.
  - by rewrite sort_by_perm.
Qed.

Lemma sort_by_id l : StronglySorted (key_le key) l -> NoDup (map key l) -> sort_by key l = l.
Proof. intros Hs Hnd. apply sorted_unique; [apply sort_by_sorted|done|apply sort_by_perm|by rewrite sort_by_perm]. Qed.
End Sorting.

(** ** Validation *)

Abbreviation canonical_origin := (fun p => origin_String (registry_Origin p)).

Lemma check_participants_ok seen ps : check_participants seen ps = None <->
  Forall (fun p => validRegistryOrigin p = true) ps /\ NoDup (map canonical_origin ps)
  /\ Forall (fun p => canonical_origin p ∉ seen) ps.
Proof.
  revert seen. induction ps as [|p ps IH]; intros seen; cbn [check_participants map].
  { split; [intros _; split_and!; constructor|done]. }
  rewrite !Forall_cons, NoDup_cons. destruct (validRegistryOrigin p); cbn [negb]; [|naive_solver].
  destruct (bool_decide_reflect (canonical_origin p ∈ seen)) as [Hin|Hin]; [naive_solver|]. rewrite IH. split.
  - intros (Hv & Hnd & Hs). rewrite Forall_forall in Hs.
    split_and!; try done; [|apply Forall_forall; intros q Hq; specialize (Hs q Hq); set_solver].
    intros Hm%list_elem_of_In%in_map_iff. destruct Hm as (q & Hq & Hm%list_elem_of_In). apply (Hs q Hm). set_solver.
  - intros ((_ & Hv) & (Hn & Hnd) & (_ & Hs)). split_and!; [done|done|]. rewrite Forall_forall in Hs. apply Forall_forall.
    intros q Hq. specialize (Hs q Hq). rewrite not_elem_of_union, not_elem_of_singleton. split; [|done]. intros He.
    apply Hn. rewrite <- He. rewrite list_elem_of_In. apply in_map_iff. exists q. by rewrite <- list_elem_of_In.
Qed.

Lemma check_participants_err seen ps err : check_participants seen ps = Some err ->
  (err = errors_New ErrInvalidRegistryOrigin /\ exists p, p ∈ ps /\ validRegistryOrigin p = false)
  \/ (err = errors_New ErrDuplicateOrigin /\ (~ NoDup (map canonical_origin ps) \/ exists p, p ∈ ps /\ canonical_origin p ∈ seen)).
Proof.
  revert seen. induction ps as [|p ps IH]; intros seen; cbn [check_participants map]; [done|].
  destruct (validRegistryOrigin p) eqn:Hv; cbn [negb]; [|intros [= <-]; left; split; [done|]; exists p; split; [by left|done]].
  destruct (bool_decide_reflect (canonical_origin p ∈ seen)) as [Hin|Hin].
  { intros [= <-]. right. split; [done|]. right. exists p. split; [by left|done]. }
  intros [[-> (q & Hq & Hvq)]|[-> Hd]]%IH; [left; split; [done|]; exists q; split; [by right|done]|right; split; [done|]].
  rewrite NoDup_cons. destruct Hd as [Hd|(q & Hq & [He%elem_of_singleton|Hs]%elem_of_union)]; [naive_solver| |].
  - left. intros [Hn _]. apply Hn. rewrite <- He, list_elem_of_In. apply in_map_iff. exists q. by rewrite <- list_elem_of_In.
  - right. exists q. split; [by right|done].
Qed.

(** ** Paths *)

Lemma hex_char_lower v : 0 <= v < 16 -> isLowerHexByte (hex_char v) = true /\ hex_char v <> "/"%char.
Proof.
  change 16 with (Z.of_nat 16). revert v. apply below_cases. intros k Hk. do 16 (destruct k as [|k]; [done|]). lia.
Qed.

Lemma hex_lower s : isLowerHex (hex_EncodeToString s) = true /\ "/"%char ∉ hex_EncodeToString s.
Proof.
  induction s as [|c s [IH1 IH2]]; cbn [hex_EncodeToString]; [split; [done|apply not_elem_of_nil]|].
  pose proof (code_range c). destruct (hex_char_lower (code c / 16)) as [H1 H2]; [divlia|].
  destruct (hex_char_lower (code c mod 16)) as [H3 H4]; [divlia|]. split.
  - unfold isLowerHex in *. cbn [forallb]. by rewrite H1, H3, IH1.
  - rewrite !not_elem_of_cons. naive_solver.
Qed.

Lemma forallb_take {A} (f : A -> bool) n l : forallb f l = true -> forallb f (take n l) = true.
Proof. rewrite <- (take_drop n l) at 1. rewrite forallb_app. by intros [? _]%andb_true_iff. Qed.

(** ** Reading a document back

    A consumer of the registry: the members of a node, its times, and its
    declarations read with JoshBot's own declaration parser. *)

Definition read_string (raw : bytes) : option bytes :=
  match raw with
  | c :: text =>
      if byte_eqb c quote then match scan_string text with Some (s, []) => Some s | _ => None end else None
  | [] => None
  end.

Definition read_declaration (raw : bytes) : option Declaration :=
  let parsed := Declaration.Parse raw in
  match Declaration.Status parsed with ParseValid => Some (Declaration.result parsed) | _ => None end.

Definition read_outcome (text : bytes) : option Outcome :=
  List.find (fun o => bytes_eqb (publicOutcomeTexts o) text)
    [OutcomeInvalid; OutcomeValid; OutcomeAbsent; OutcomeUnsupportedVersion; OutcomeUnavailable; OutcomeRobotsDenied; OutcomeCrossOriginRedirect].

Record node_record : Type := mkNodeRecord {
  rec_origin : bytes;
  rec_first : Z;
  rec_initial : Declaration;
  rec_checked : Z;
  rec_outcome : Outcome;
  rec_current : option Declaration;
}.

Definition read_node (data : bytes) : option node_record :=
  ms ← unmarshal_object data;
  origin ← read_string (member (bs "origin") ms);
  first ← read_string (member (bs "first_participated_at") ms) ≫= parse_utc;
  initial ← read_declaration (member (bs "initial_declaration") ms);
  checked ← read_string (member (bs "latest_declaration_check_at") ms) ≫= parse_utc;
  outcome ← read_string (member (bs "latest_declaration_check_outcome") ms) ≫= read_outcome;
  current ← (match member (bs "declaration") ms with [] => Some None | raw => Some <$> read_declaration raw end);
  if bytes_eqb (member (bs "format_version") ms) (bs "1") then Some (mkNodeRecord origin first initial checked outcome current)
  else None.

Definition node_of (p : RegistryOrigin) : node_record :=
  mkNodeRecord (origin_String (registry_Origin p)) (FirstParticipatedAt p) (InitialDeclaration p)
    (LatestDeclarationCheckAt p) (LatestDeclarationCheckOutcome p) (CurrentDeclaration p).

(** The origin is well-formed text and the times are of the years 0 to 9999. *)
Definition publishable (p : RegistryOrigin) : Prop :=
  utf8_Valid (origin_String (registry_Origin p)) = true
  /\ representable (FirstParticipatedAt p) = true /\ representable (LatestDeclarationCheckAt p) = true.

Lemma read_string_json s : utf8_Valid s = true -> read_string (json_string s) = Some s.
Proof.
  intros Hs. destruct (json_string_spec s Hs) as (text & -> & Hj). cbn [read_string]. rewrite byte_eqb_refl.
  pose proof (scan_string_app s text [] Hj) as Hr. rewrite app_nil_r in Hr. by rewrite Hr.
Qed.

Lemma read_string_time t : read_string (quote :: FormatRFC3339Nano t ++ [quote]) = Some (FormatRFC3339Nano t).
Proof.
  cbn [read_string]. rewrite byte_eqb_refl. pose proof (jstring_time _ (Format_time_bytes t)) as Hj.
  pose proof (scan_string_app _ _ [] Hj) as Hr. rewrite app_nil_r in Hr. by rewrite Hr.
Qed.

Lemma read_declaration_json d : validRegistryDeclaration d = true ->
  read_declaration (print_json true 1 (declaration_json (projectDeclaration d))) = Some d.
Proof.
  unfold validRegistryDeclaration. destruct d as [v i]. cbn [Version declared]. intros [Hv _]%andb_true_iff.
  apply Z.eqb_eq in Hv as ->. by destruct i; vm_compute.
Qed.

Lemma read_outcome_text o : read_outcome (publicOutcomeTexts o) = Some o /\ utf8_Valid (publicOutcomeTexts o) = true.
Proof. by destruct o; vm_compute. Qed.

Lemma member_cons n n' v ms : member n ((n', v) :: ms) = if bytes_eqb n' n then v else member n ms.
Proof. unfold member. cbn [List.find fst]. by destruct (bytes_eqb n' n). Qed.

Ltac members :=
  repeat (rewrite member_cons;
    match goal with |- context [if bytes_eqb ?a ?b then _ else _] =>
      let r := eval vm_compute in (bytes_eqb a b) in change (bytes_eqb a b) with r; cbv iota
    end).

Lemma valid_declarations p : validRegistryOrigin p = true ->
  validRegistryDeclaration (InitialDeclaration p) = true
  /\ match CurrentDeclaration p with Some d => validRegistryDeclaration d = true | None => True end.
Proof.
  unfold validRegistryOrigin. destruct (_ || _ || _ || _ || negb _) eqn:Hi; [done|]. b2p. split; [done|].
  destruct (CurrentDeclaration p) as [d|]; [|done]. by destruct (validRegistryDeclaration d).
Qed.

Section Facts.
Context `{SHA256} `{!SHA256Laws}.

Lemma pathForOrigin_parts s :
  let encoded := hex_EncodeToString (sha256_Sum256 s) in
  Split (pathForOrigin s) "/" = [bs "nodes"; take 2 encoded; encoded ++ bs ".json"] /\ length encoded = 64%nat.
Proof.
  intros encoded. destruct (hex_lower (sha256_Sum256 s)) as [_ Hslash]. fold encoded in Hslash. split.
  - transitivity (Split (Join [bs "nodes"; take 2 encoded; encoded ++ bs ".json"] "/") "/").
    { f_equal. }
    apply Split_Join; [done|]. repeat constructor.
    + by vm_compute; intros Hc; repeat (apply elem_of_cons in Hc as [Hc|Hc]; [discriminate Hc|]); apply elem_of_nil in Hc.
    + intros Hin. apply Hslash. rewrite <- (take_drop 2 encoded). apply elem_of_app. by left.
    + rewrite elem_of_app. intros [Hin|Hin]; [done|]. vm_compute in Hin.
      repeat (apply elem_of_cons in Hin as [Hin|Hin]; [discriminate Hin|]). by apply elem_of_nil in Hin.
  - unfold encoded. by rewrite hex_length, Sum256_length.
Qed.

Lemma pathForOrigin_valid s : validSnapshotPath (pathForOrigin s) = true.
Proof.
  unfold validSnapshotPath. destruct (bytes_eqb_spec (pathForOrigin s) (bs "registry.json")); [done|].
  destruct (pathForOrigin_parts s) as [-> Hl]. destruct (hex_lower (sha256_Sum256 s)) as [Hh _].
  set (encoded := hex_EncodeToString _) in *.
  replace (HasSuffix (encoded ++ bs ".json") (bs ".json")) with true by (symmetry; apply HasSuffix_spec; by exists encoded).
  rewrite TrimSuffix_app, length_take, Hl, Hh. unfold isLowerHex in *. rewrite forallb_take by done.
  replace (HasPrefix encoded (take 2 encoded)) with true; [done|].
  symmetry. apply HasPrefix_spec. exists (drop 2 encoded). by rewrite take_drop.
Qed.

Lemma pathForOrigin_inj s t : pathForOrigin s = pathForOrigin t -> sha256_Sum256 s = sha256_Sum256 t.
Proof.
  intros He. apply (f_equal (fun p => Split p "/")) in He.
  destruct (pathForOrigin_parts s) as [Hs _], (pathForOrigin_parts t) as [Ht _]. rewrite Hs, Ht in He.
  assert (Hn : hex_EncodeToString (sha256_Sum256 s) ++ bs ".json" = hex_EncodeToString (sha256_Sum256 t) ++ bs ".json") by congruence.
  apply (inj (.++ bs ".json")) in Hn. by apply (inj hex_EncodeToString).
Qed.

Lemma pathForOrigin_not_registry s : pathForOrigin s <> bs "registry.json".
Proof. unfold pathForOrigin. by intros [=]. Qed.

(** Declarations and nodes are documents that can be read back. *)
Lemma declaration_json_ok room d : validRegistryDeclaration d = true ->
  json_ok (S room) (declaration_json (projectDeclaration d)) = true.
Proof.
  destruct d as [v i]. unfold validRegistryDeclaration. cbn [Version declared]. intros [->%Z.eqb_eq _]%andb_true_iff.
  destruct i; cbn [projectDeclaration declaration_json json_ok forallb]; by vm_compute.
Qed.

Lemma node_json_ok room p : validRegistryOrigin p = true -> publishable p -> json_ok (S (S room)) (node_json (node_document p)) = true.
Proof.
  intros [Hini Hcur]%valid_declarations (Hs & Hf & Hc). pose proof (proj2 (read_outcome_text (LatestDeclarationCheckOutcome p))) as Ho.
  pose proof (declaration_json_ok room _ Hini) as Hi. unfold node_json. cbn [node_document node_FormatVersion node_Origin
    node_FirstParticipatedAt node_InitialDeclaration node_LatestDeclarationCheckAt node_LatestDeclarationCheckOutcome node_Declaration].
  unfold projectOptionalDeclaration, optional_declaration. destruct (CurrentDeclaration p) as [d|]; cbn [fmap option_fmap option_map].
  - pose proof (declaration_json_ok room _ Hcur) as Hd. set (a := declaration_json _) in *. set (b := declaration_json _) in *.
    clearbody a b. cbn [json_ok app forallb fst snd map]. rewrite Hs, Hf, Hc, Ho, Hi, Hd. by vm_compute.
  - set (a := declaration_json _) in *. clearbody a. cbn [json_ok app forallb fst snd map]. rewrite Hs, Hf, Hc, Ho, Hi. by vm_compute.
Qed.

(** A valid participant is read back from its node. *)
Lemma read_node_file p : validRegistryOrigin p = true -> publishable p -> read_node (file_Data (node_file p)) = Some (node_of p).
Proof.
  intros Hv Hp. pose proof (node_json_ok (Z.to_nat (maxNestingDepth - 2)) p Hv Hp) as Hok.
  apply valid_declarations in Hv as [Hini Hcur]. destruct Hp as (Hs & Hf & Hc).
  destruct (read_outcome_text (LatestDeclarationCheckOutcome p)) as [Ho Hou].
  cbn [node_file file_Data]. unfold marshalPublicJSON, json_MarshalIndent. rewrite (json_ok_times _ _ Hok). cbn [from_option]. unfold id.
  unfold read_node, node_json. rewrite unmarshal_print; [|done|exact Hok]. cbn [mbind option_bind].
  cbn [node_document node_FormatVersion node_Origin node_FirstParticipatedAt node_InitialDeclaration
    node_LatestDeclarationCheckAt node_LatestDeclarationCheckOutcome node_Declaration].
  cbn [map app fst snd]. members.
  change (print_json true 1 (JString ?s)) with (json_string s). change (print_json true 1 (JTime ?t)) with (quote :: FormatRFC3339Nano t ++ [quote]).
  rewrite !read_string_json, !read_string_time, read_declaration_json by done. cbn [mbind option_bind].
  rewrite !parse_utc_Format, Ho by done. cbn [mbind option_bind].
  unfold node_of. destruct (CurrentDeclaration p) as [d|]; [|done].
  cbn [projectOptionalDeclaration fmap option_fmap option_map optional_declaration map fst snd]. members.
  pose proof (read_declaration_json d Hcur) as Hd. destruct (print_json true 1 _) as [|c text]; [by vm_compute in Hd|]. by rewrite Hd.
Qed.

(** ** The snapshot *)

Lemma node_paths_distinct ps : NoDup (map (fun p => sha256_Sum256 (canonical_origin p)) ps) ->
  NoDup (bs "registry.json" :: map file_Path (map node_file ps)).
Proof.
  intros Hdig. rewrite map_map. cbn [node_file file_Path]. apply NoDup_cons. split.
  - rewrite list_elem_of_In, in_map_iff. intros (p & Hp & _). by apply (pathForOrigin_not_registry (canonical_origin p)).
  - rewrite <- (map_map canonical_origin pathForOrigin). rewrite <- (map_map canonical_origin sha256_Sum256) in Hdig.
    revert Hdig. generalize (map canonical_origin ps) as keys.
    induction keys as [|k keys IH]; cbn [map]; [done|]. rewrite !NoDup_cons. intros [Hk Hks]. split; [|by apply IH].
    rewrite list_elem_of_In, in_map_iff in *. intros (k' & He & Hin). apply Hk. exists k'. split; [by apply pathForOrigin_inj|done].
Qed.

Lemma BuildRegistry_ok ps files : BuildRegistry ps = Ok files ->
  Forall (fun p => validRegistryOrigin p = true) ps /\ NoDup (map canonical_origin ps)
  /\ files ≡ₚ registry_file (sort_by canonical_origin ps) :: map node_file ps
  /\ StronglySorted (key_le file_Path) files
  /\ Forall (fun f => validSnapshotPath (file_Path f) = true) files.
Proof.
  unfold BuildRegistry. destruct (check_participants ∅ ps) as [err|] eqn:Hc; [done|].
  apply check_participants_ok in Hc as (Hv & Hnd & _). cbv zeta. set (ordered := sort_by _ ps).
  set (unsorted := map node_file ordered ++ [registry_file ordered]). intros [= <-].
  assert (Hfiles : sort_by file_Path unsorted ≡ₚ registry_file ordered :: map node_file ps).
  { rewrite sort_by_perm. unfold unsorted. rewrite Permutation_app_comm. cbn [app]. constructor. apply Permutation_map, sort_by_perm. }
  split_and!; [done|done|done|apply sort_by_sorted|]. rewrite Hfiles. constructor; [done|]. rewrite Forall_map. apply Forall_true. intros p. apply pathForOrigin_valid.
Qed.

(** A snapshot is the registry, no more and no less. [BuildRegistry] fails
    exactly for an invalid participant or a repeated origin, with the error
    that says so. Otherwise its files are one document per participant, at a
    path the reader and the publisher accept, and the registry, sorted by path;
    every document is read back to the participant it was made from. Unless
    SHA-256 collides the paths are distinct and the files do not depend on the
    order of the participants, byte for byte. *)
Theorem BuildRegistry_correct ps :
  match BuildRegistry ps with
  | Err err =>
      (err = errors_New ErrInvalidRegistryOrigin /\ exists p, p ∈ ps /\ validRegistryOrigin p = false)
      \/ (err = errors_New ErrDuplicateOrigin /\ ~ NoDup (map canonical_origin ps))
  | Ok files =>
      Forall (fun p => validRegistryOrigin p = true) ps /\ NoDup (map canonical_origin ps)
      /\ files ≡ₚ registry_file (sort_by canonical_origin ps) :: map node_file ps
      /\ StronglySorted (key_le file_Path) files
      /\ Forall (fun f => validSnapshotPath (file_Path f) = true) files
      /\ (forall p, p ∈ ps -> publishable p -> read_node (file_Data (node_file p)) = Some (node_of p))
      /\ (NoDup (map (fun p => sha256_Sum256 (canonical_origin p)) ps) ->
           NoDup (map file_Path files) /\ forall ps', ps' ≡ₚ ps -> BuildRegistry ps' = Ok files)
  end.
Proof.
  destruct (BuildRegistry ps) as [files|err] eqn:Hb.
  - pose proof (BuildRegistry_ok ps files Hb) as (Hv & Hnd & Hfiles & Hsort & Hpaths). split_and!; [done|done|done|done|done| |].
    + intros p Hp Hpub. rewrite Forall_forall in Hv. by apply read_node_file; [apply Hv|].
    + intros Hdig. pose proof (node_paths_distinct ps Hdig) as Hdist. split; [by rewrite Hfiles|]. intros ps' Hps'. rewrite <- Hb. unfold BuildRegistry.
      assert (Hchk : forall l, l ≡ₚ ps -> check_participants ∅ l = None).
      { intros l Hl. apply check_participants_ok. rewrite Hl. split_and!; [done|done|]. by apply Forall_true. }
      rewrite !Hchk by done. cbv zeta. by rewrite (sort_by_unique canonical_origin ps' ps) by (rewrite ?Hps'; done).
  - revert Hb. unfold BuildRegistry. destruct (check_participants ∅ ps) as [e|] eqn:Hc; [|done]. intros [= <-].
    apply check_participants_err in Hc as [Hi|[Hd [Hn|(p & _ & ?%not_elem_of_empty)]]]; [by left|by right|done].
Qed.
End Facts.
