(* ===== verification/SnapshotFiles.v ===== *)
(** * Snapshots on disk ([internal/publicdata/writer.go], [reader.go])

    The writer against the interface of its file system and the reader against
    the interface of a directory, as the sources define them. *)

From S2P Require Import Prelude GoText GoErrors GoPath GoJson GoTime GoEncoding PublicData.

(** ** File information *)

Inductive FileKind : Type := KindDirectory | KindRegular | KindSymlink | KindOther.
#[export] Instance FileKind_eq_dec : EqDecision FileKind.
Proof. solve_decision. Defined.

Definition IsDir (k : FileKind) : bool := match k with KindDirectory => true | _ => false end.
Definition IsRegular (k : FileKind) : bool := match k with KindRegular => true | _ => false end.
Definition IsSymlink (k : FileKind) : bool := match k with KindSymlink => true | _ => false end.

(** ** The writer *)

(** The interface [fileSystem]: a name, or a name with its other arguments *)
Class FileSystem (W : Type) := {
  fs_Stat : call W bytes (res error FileKind);
  fs_Lstat : call W bytes (res error FileKind);
  fs_MkdirTemp : call W (bytes * bytes) (res error bytes);
  fs_Chmod : call W (bytes * Z) (option error);
  fs_MkdirAll : call W (bytes * Z) (option error);
  fs_WriteFile : call W (bytes * bytes * Z) (option error);
  fs_Rename : call W (bytes * bytes) (option error);
  fs_RemoveAll : call W bytes (option error);
}.

Definition hasRootDotSegment (root : bytes) : bool :=
  existsb (fun segment => bytes_eqb segment (bs ".") || bytes_eqb segment (bs "..")) (Split root "/").

Definition outputRootParts (root : bytes) : res error (bytes * bytes * bytes) :=
  let cleanRoot := path_Clean root in
  if bytes_eqb root [] || negb (bytes_eqb cleanRoot root) || bytes_eqb cleanRoot (bs ".") || bytes_eqb cleanRoot (bs "/")
    || Contains root "\" || hasRootDotSegment root
  then Err (errors_New ErrInvalidOutputRoot)
  else Ok (cleanRoot, path_Dir cleanRoot, path_Base cleanRoot).

Definition validLogicalPath (logicalPath : bytes) : bool :=
  if bytes_eqb logicalPath [] || bytes_eqb logicalPath (bs ".") || is_rooted logicalPath || HasPrefix logicalPath (bs "/")
    || Contains logicalPath "\" || negb (bytes_eqb (path_Clean logicalPath) logicalPath)
  then false
  else forallb (fun segment => negb (bytes_eqb segment [] || bytes_eqb segment (bs ".") || bytes_eqb segment (bs "..")))
         (Split logicalPath "/").

Fixpoint validate_files (seen : gset bytes) (files : list File) : option error :=
  match files with
  | [] => None
  | file :: rest =>
      if negb (validLogicalPath (file_Path file)) then Some (errors_New ErrInvalidOutputPath)
      else if bool_decide (file_Path file ∈ seen) then Some (errors_New ErrDuplicateOutputPath)
      else validate_files ({[ file_Path file ]} ∪ seen) rest
  end.
Definition validateLogicalFiles (files : list File) : option error := validate_files ∅ files.

Section Writer.
Context {W : Type} `{FileSystem W}.

Definition checkWriterContext (ctx : context W) (w : W) : option error :=
  match ctx with None => Some (errors_New publicdata_ErrInvalidContext) | Some err => err w end.

Definition ensureDestinationAvailable (w : W) (parent root : bytes) : W * option error :=
  match fs_Stat w parent with
  | (w, Err _) => (w, Some (errors_New ErrInvalidOutputRoot))
  | (w, Ok parentInfo) =>
      if negb (IsDir parentInfo) then (w, Some (errors_New ErrInvalidOutputRoot))
      else
        match fs_Lstat w root with
        | (w, Ok _) => (w, Some (errors_New ErrDestinationExists))
        | (w, Err err) => if negb (errors_Is err os_ErrNotExist) then (w, Some (wrap err)) else (w, None)
        end
  end.

Fixpoint write_files (ctx : context W) (w : W) (staging : bytes) (files : list File) : W * option error :=
  match files with
  | [] => (w, None)
  | file :: rest =>
      match checkWriterContext ctx w with
      | Some err => (w, Some err)
      | None =>
          let destination := path_Join staging (file_Path file) in
          match fs_MkdirAll w (path_Dir destination, 493) with
          | (w, Some err) => (w, Some (wrap err))
          | (w, None) =>
              match fs_WriteFile w (destination, file_Data file, 420) with
              | (w, Some err) => (w, Some (wrap err))
              | (w, None) => write_files ctx w staging rest
              end
          end
      end
  end.

(** The body between the creation of the staging directory and its deferred
    removal *)
Definition publish_staging (ctx : context W) (w : W) (parent cleanRoot staging : bytes) (files : list File)
    : W * option error :=
  match fs_Chmod w (staging, 493) with
  | (w, Some err) => (w, Some (wrap err))
  | (w, None) =>
      match write_files ctx w staging files with
      | (w, Some err) => (w, Some err)
      | (w, None) =>
          match checkWriterContext ctx w with
          | Some err => (w, Some err)
          | None =>
              match ensureDestinationAvailable w parent cleanRoot with
              | (w, Some err) => (w, Some err)
              | (w, None) =>
                  match fs_Rename w (staging, cleanRoot) with
                  | (w, Some err) => (w, Some (wrap err))
                  | (w, None) => (w, None)
                  end
              end
          end
      end
  end.

Definition writeDirectory (ctx : context W) (w : W) (root : bytes) (files : list File) : W * option error :=
  match checkWriterContext ctx w with
  | Some err => (w, Some err)
  | None =>
      match outputRootParts root with
      | Err err => (w, Some err)
      | Ok (cleanRoot, parent, base) =>
          match validateLogicalFiles files with
          | Some err => (w, Some err)
          | None =>
              match ensureDestinationAvailable w parent cleanRoot with
              | (w, Some err) => (w, Some err)
              | (w, None) =>
                  match checkWriterContext ctx w with
                  | Some err => (w, Some err)
                  | None =>
                      match fs_MkdirTemp w (parent, bs "." ++ base ++ bs ".tmp-") with
                      | (w, Err err) => (w, Some (wrap err))
                      | (w, Ok staging) =>
                          let '(w, err) := publish_staging ctx w parent cleanRoot staging files in
                          (fst (fs_RemoveAll w staging), err)
                      end
                  end
              end
          end
      end
  end.
End Writer.

(** ** The reader *)

Definition maxSnapshotFiles : Z := 4097.
Definition maxSnapshotFileBytes : Z := 8 * 1024 * 1024.
Definition maxSnapshotTotalBytes : Z := 32 * 1024 * 1024.

Record readerLimits : Type := mkLimits { maxFiles : Z; maxFileBytes : Z; maxTotalBytes : Z }.
Definition defaultReaderLimits : readerLimits := mkLimits maxSnapshotFiles maxSnapshotFileBytes maxSnapshotTotalBytes.

(** An opened [snapshotDirectory]: [FS().Stat(".")] and [FS().ReadDir], whose
    entries are sorted by name, [Lstat], [Open] and the opened files.
    [file_ReadAll] is [io.ReadAll] of the context-checking reader, limited to
    a number of bytes. *)
Class SnapshotDirectory (W : Type) := {
  directory : Type;
  snapshot_file : Type;
  openDirectory : call W bytes (res error directory);
  dir_StatRoot : call W directory (res error FileKind);
  dir_ReadDir : call W (directory * bytes) (res error (list (bytes * FileKind)));
  dir_Lstat : call W (directory * bytes) (res error FileKind);
  dir_Open : call W (directory * bytes) (res error snapshot_file);
  file_Stat : call W snapshot_file (res error FileKind);
  file_ReadAll : call W (snapshot_file * Z) (res error bytes);
}.

Record reader_state : Type := mkReader { read_files : list File; read_total : Z; has_registry : bool }.

(** How the directory of a snapshot is opened *)
Definition openSnapshotDirectory {W D} (os_Lstat : call W bytes (res error FileKind)) (os_OpenRoot : call W bytes (res error D))
    (w : W) (root : bytes) : W * res error D :=
  match os_Lstat w root with
  | (w, Err _) => (w, Err (errors_New ErrInvalidSnapshotRoot))
  | (w, Ok info) =>
      if IsSymlink info || negb (IsDir info) then (w, Err (errors_New ErrInvalidSnapshotRoot)) else os_OpenRoot w root
  end.

Section Reader.
Context {W : Type} `{SnapshotDirectory W}.
Variable limits : readerLimits.

Definition checkReaderContext (ctx : context W) (w : W) : option error :=
  match ctx with None => Some (errors_New publicdata_ErrInvalidContext) | Some err => err w end.

Definition readSnapshotFile (w : W) (dir : directory) (logicalPath : bytes) (maxBytes : Z) : W * res error bytes :=
  match dir_Open w (dir, logicalPath) with
  | (w, Err err) => (w, Err (wrap err))
  | (w, Ok file) =>
      match file_Stat w file with
      | (w, Err err) => (w, Err (wrap err))
      | (w, Ok info) =>
          if IsSymlink info || negb (IsRegular info) then (w, Err (errors_New ErrInvalidSnapshotEntry))
          else
            match file_ReadAll w (file, maxBytes + 1) with
            | (w, Err err) => (w, Err (wrap err))
            | (w, Ok data) =>
                if maxBytes <? Z.of_nat (length data) then (w, Err (errors_New ErrSnapshotLimitExceeded)) else (w, Ok data)
            end
      end
  end.

(** The function [readDirectory] gives to [fs.WalkDir], for an entry or for
    the error of reading it *)
Definition visit (ctx : context W) (w : W) (dir : directory) (st : reader_state) (logicalPath : bytes)
    (entry : res error FileKind) : W * res error reader_state :=
  match checkReaderContext ctx w with
  | Some err => (w, Err err)
  | None =>
      match entry with
      | Err err => (w, Err (wrap err))
      | Ok kind =>
          if bytes_eqb logicalPath (bs ".") then (w, Ok st)
          else if IsSymlink kind then (w, Err (errors_New ErrInvalidSnapshotEntry))
          else if IsDir kind then
            if negb (validSnapshotDirectory logicalPath) then (w, Err (errors_New ErrInvalidSnapshotEntry)) else (w, Ok st)
          else if negb (validSnapshotPath logicalPath) then (w, Err (errors_New ErrInvalidSnapshotEntry))
          else
            match dir_Lstat w (dir, logicalPath) with
            | (w, Err err) => (w, Err (wrap err))
            | (w, Ok info) =>
                if IsSymlink info || negb (IsRegular info) then (w, Err (errors_New ErrInvalidSnapshotEntry))
                else if maxFiles limits <=? Z.of_nat (length (read_files st)) then (w, Err (errors_New ErrSnapshotLimitExceeded))
                else
                  let remainingBytes := maxTotalBytes limits - read_total st in
                  let readLimit := if remainingBytes <? maxFileBytes limits then remainingBytes else maxFileBytes limits in
                  match readSnapshotFile w dir logicalPath readLimit with
                  | (w, Err err) => (w, Err err)
                  | (w, Ok data) =>
                      (w, Ok (mkReader (read_files st ++ [mkFile logicalPath data]) (read_total st + Z.of_nat (length data))
                                (has_registry st || bytes_eqb logicalPath (bs "registry.json"))))
                  end
            end
      end
  end.

(** [fs.WalkDir]: the entries of a directory in turn, and an entry itself
    before what is in it. The fuel bounds the depth; [None] is a walk that is
    deeper. *)
Fixpoint walk_entries (step : W -> reader_state -> bytes -> FileKind -> option (W * res error reader_state)) (name : bytes)
    (entries : list (bytes * FileKind)) (w : W) (st : reader_state) : option (W * res error reader_state) :=
  match entries with
  | [] => Some (w, Ok st)
  | (child, kind) :: rest =>
      match step w st (path_Join name child) kind with
      | Some (w, Ok st) => walk_entries step name rest w st
      | other => other
      end
  end.

Fixpoint walk (fuel : nat) (ctx : context W) (dir : directory) (w : W) (st : reader_state) (name : bytes)
    (kind : FileKind) : option (W * res error reader_state) :=
  match fuel with
  | O => None
  | S fuel =>
      match visit ctx w dir st name (Ok kind) with
      | (w, Err err) => Some (w, Err err)
      | (w, Ok st) =>
          if negb (IsDir kind) then Some (w, Ok st)
          else
            match dir_ReadDir w (dir, name) with
            | (w, Err err) => Some (visit ctx w dir st name (Err err))
            | (w, Ok entries) => walk_entries (walk fuel ctx dir) name entries w st
            end
      end
  end.

(** Directories below [nodes/xx] are rejected, so that four levels suffice. *)
Definition walk_depth : nat := 4.

Definition readDirectory (ctx : context W) (w : W) (root : bytes) : option (W * res error (list File)) :=
  match checkReaderContext ctx w with
  | Some err => Some (w, Err err)
  | None =>
      if bytes_eqb root [] then Some (w, Err (errors_New ErrInvalidSnapshotRoot))
      else
        match openDirectory w root with
        | (w, Err err) => Some (w, Err (join (errors_New ErrInvalidSnapshotRoot) err))
        | (w, Ok dir) =>
            let st := mkReader [] 0 false in
            let walked :=
              match dir_StatRoot w dir with
              | (w, Err err) => Some (visit ctx w dir st (bs ".") (Err err))
              | (w, Ok kind) => walk walk_depth ctx dir w st (bs ".") kind
              end in
            match walked with
            | None => None
            | Some (w, Err err) => Some (w, Err err)
            | Some (w, Ok st) =>
                if negb (has_registry st) then Some (w, Err (errors_New ErrMissingRegistry))
                else Some (w, Ok (sort_by file_Path (read_files st)))
            end
        end
  end.
End Reader.

(** * Snapshots on disk: what any environment sees

    The reader's limits and termination, and the order of the writer's calls,
    for every file system. *)

From S2P Require Import GoNetip Netguard.

#[local] Set Warnings "-clear-no-such-hyp".

(** ** The reader's paths *)

(** A directory that is not rejected has at most two elements. *)
Lemma snapshot_directory_depth segs : Forall plain segs -> segs <> [] -> validSnapshotDirectory (path_text segs) = true ->
  (length segs <= 2)%nat.
Proof.
  intros Hp Hne. destruct (plain_join segs Hne Hp) as [_ Hs]. unfold validSnapshotDirectory. rewrite Hs.
  destruct (bytes_eqb_spec (path_text segs) (bs "nodes")) as [He|].
  - intros _. rewrite He in Hs. change (Split (bs "nodes") "/") with [bs "nodes"] in Hs. subst segs. cbn. lia.
  - destruct segs as [|? [|? [|]]]; cbn; (done || lia).
Qed.

(** ** The reader *)

(** What directories are documented to do: entries have plain names, and a
    limited read stays within its limit. *)
Class SnapshotDirectoryLaws (W : Type) `{SnapshotDirectory W} := {
  ReadDir_plain w d name w' entries : dir_ReadDir w (d, name) = (w', Ok entries) -> Forall plain (map fst entries);
}.

Section Reader.
Context {W : Type} `{SnapshotDirectory W} `{!SnapshotDirectoryLaws W}.
Variable limits : readerLimits.

Definition sum_lengths (files : list File) : Z := fold_right (fun f n => Z.of_nat (length (file_Data f)) + n) 0 files.

Record reader_ok (st : reader_state) : Prop := {
  ro_count : Z.of_nat (length (read_files st)) <= Z.max 0 (maxFiles limits);
  ro_total : read_total st = sum_lengths (read_files st) /\ read_total st <= Z.max 0 (maxTotalBytes limits);
  ro_files : Forall (fun f => validSnapshotPath (file_Path f) = true /\ Z.of_nat (length (file_Data f)) <= maxFileBytes limits) (read_files st);
  ro_registry : has_registry st = true <-> exists f, f ∈ read_files st /\ file_Path f = bs "registry.json";
}.

Lemma sum_lengths_snoc files f : sum_lengths (files ++ [f]) = sum_lengths files + Z.of_nat (length (file_Data f)).
Proof. induction files as [|g files IH]; cbn [app sum_lengths fold_right] in *; [lia|]. unfold sum_lengths in IH. rewrite IH. lia. Qed.

Lemma sum_lengths_perm files files' : files ≡ₚ files' -> sum_lengths files = sum_lengths files'.
Proof. induction 1; cbn [sum_lengths fold_right] in *; unfold sum_lengths in *; lia. Qed.

Lemma readSnapshotFile_bound w dir name n w' data : readSnapshotFile w dir name n = (w', Ok data) -> Z.of_nat (length data) <= n.
Proof.
  unfold readSnapshotFile. repeat (case_match; simplify_eq/=; try done). intros [= _ <-].
  match goal with H : (_ <? _) = false |- _ => by apply Z.ltb_ge in H end.
Qed.

Lemma visit_ok ctx w dir st name entry w' st' : reader_ok st -> visit limits ctx w dir st name entry = (w', Ok st') -> reader_ok st'.
Proof.
  intros Hst. unfold visit. destruct (checkReaderContext ctx w); [done|]. destruct entry as [kind|]; [|done].
  destruct (bytes_eqb name (bs ".")); [by intros [= _ <-]|]. destruct (IsSymlink kind); [done|].
  destruct (IsDir kind); [destruct (negb _); [done|]; by intros [= _ <-]|].
  destruct (validSnapshotPath name) eqn:Hv; [cbn [negb]|done]. destruct (dir_Lstat w (dir, name)) as [w1 [info|]]; [|done].
  destruct (_ || _); [done|]. destruct (Z.leb_spec (maxFiles limits) (Z.of_nat (length (read_files st)))); [done|]. cbv zeta.
  destruct (readSnapshotFile w1 dir name _) as [w2 [data|]] eqn:Hr; [|done]. intros [= _ <-].
  apply readSnapshotFile_bound in Hr. destruct Hst as [Hc [Hs Ht] Hf Hg].
  assert (Hlen : Z.of_nat (length data) <= maxFileBytes limits /\ Z.of_nat (length data) <= maxTotalBytes limits - read_total st)
    by (destruct (Z.ltb_spec (maxTotalBytes limits - read_total st) (maxFileBytes limits)); lia).
  split; cbn [read_files read_total has_registry].
  - rewrite length_app. cbn [length]. lia.
  - rewrite sum_lengths_snoc. cbn [file_Data]. lia.
  - apply Forall_app. split; [done|]. repeat constructor; [done|]. cbn [file_Data]. lia.
  - rewrite orb_true_iff, Hg. split.
    + intros [(f & Hin & Hp)|Hp]; [exists f; split; [apply elem_of_app; by left|done]|].
      exists (mkFile name data). split; [apply elem_of_app; right; by left|].
      exact (proj2 (reflect_iff _ _ (bytes_eqb_spec name (bs "registry.json"))) Hp).
    + intros (f & [Hin|Hin%list_elem_of_singleton]%elem_of_app & Hp); [left; by exists f|right]. subst f. cbn in Hp. subst name. done.
Qed.

Lemma walk_entries_ok (step : W -> reader_state -> bytes -> FileKind -> option (W * res error reader_state)) name entries w st w' st' :
  (forall w st n k w' st', reader_ok st -> step w st n k = Some (w', Ok st') -> reader_ok st') ->
  reader_ok st -> walk_entries step name entries w st = Some (w', Ok st') -> reader_ok st'.
Proof.
  intros Hstep. revert w st. induction entries as [|[child kind] rest IH]; intros w st Hst; cbn [walk_entries]; [by intros [= _ <-]|].
  destruct (step w st _ kind) as [[w1 [st1|]]|] eqn:Hs; [|done..]. apply IH. by eapply Hstep.
Qed.

Lemma walk_ok fuel ctx dir w st name kind w' st' : reader_ok st -> walk limits fuel ctx dir w st name kind = Some (w', Ok st') -> reader_ok st'.
Proof.
  revert w st name kind w' st'. induction fuel as [|fuel IH]; intros w st name kind w' st' Hst; cbn [walk]; [done|].
  destruct (visit limits ctx w dir st name (Ok kind)) as [w1 [st1|]] eqn:Hv; [|done]. apply visit_ok in Hv; [|done].
  destruct (negb (IsDir kind)); [by intros [= _ <-]|]. destruct (dir_ReadDir w1 (dir, name)) as [w2 [entries|err]].
  - by apply walk_entries_ok.
  - intros [= Hv']. by eapply visit_ok.
Qed.

(** The walk ends: no directory deeper than two is entered. *)
Lemma walk_returns fuel ctx dir w st segs kind : Forall plain segs -> (walk_depth <= length segs + fuel)%nat -> (0 < fuel)%nat ->
  is_Some (walk limits fuel ctx dir w st (path_text segs) kind).
Proof.
  revert w st segs kind. induction fuel as [|fuel IH]; intros w st segs kind Hp Hf Hpos; [lia|]. cbn [walk].
  destruct (visit limits ctx w dir st (path_text segs) (Ok kind)) as [w1 [st1|]] eqn:Hv; [|by eexists].
  destruct (IsDir kind) eqn:Hd; cbn [negb]; [|by eexists].
  destruct (dir_ReadDir w1 (dir, path_text segs)) as [w2 [entries|err]] eqn:Hr; [|by eexists].
  assert (Hdepth : (length segs <= 2)%nat).
  { revert Hv. unfold visit. destruct (checkReaderContext ctx w); [done|].
    destruct (bytes_eqb_spec (path_text segs) (bs ".")) as [He|Hne]; [apply text_dot in He as ->; [cbn; lia|done]|].
    destruct (IsSymlink kind); [done|]. rewrite Hd. destruct (validSnapshotDirectory _) eqn:Hvd; [|done]. intros _.
    apply snapshot_directory_depth; [done| |done]. by intros ->. }
  apply ReadDir_plain in Hr. clear Hv. revert w2 st1 Hr. induction entries as [|[child k] rest IHe]; intros w2 st1 Hr; cbn [walk_entries]; [by eexists|].
  cbn [map fst] in Hr. apply Forall_cons in Hr as [Hc Hr]. rewrite path_Join_child by done.
  destruct (IH w2 st1 (segs ++ [child]) k) as [[w3 [st3|]] ->]; [| | |by apply IHe|by eexists].
  - apply Forall_app. split; [done|]. by apply Forall_singleton.
  - rewrite length_app. cbn [length]. lia.
  - unfold walk_depth in *. lia.
Qed.

Lemma readDirectory_total ctx w root : exists w' r, readDirectory limits ctx w root = Some (w', r)
  /\ match r with
     | Err _ => True
     | Ok files =>
         StronglySorted (key_le file_Path) files
         /\ Forall (fun f => validSnapshotPath (file_Path f) = true) files
         /\ (exists f, f ∈ files /\ file_Path f = bs "registry.json")
         /\ Z.of_nat (length files) <= Z.max 0 (maxFiles limits)
         /\ Forall (fun f => Z.of_nat (length (file_Data f)) <= maxFileBytes limits) files
         /\ sum_lengths files <= Z.max 0 (maxTotalBytes limits)
     end.
Proof.
  unfold readDirectory. destruct (checkReaderContext ctx w) as [err|]; [by eexists _, (Err _)|].
  destruct (bytes_eqb root []); [by eexists _, (Err _)|]. destruct (openDirectory w root) as [w1 [dir|err]]; [|by eexists _, (Err _)].
  cbv zeta. set (st0 := mkReader [] 0 false).
  assert (H0 : reader_ok st0).
  { split; cbn; [lia|lia|constructor|]. split; [done|]. by intros (f & ?%elem_of_nil & _). }
  set (walked := match dir_StatRoot w1 dir with (_, _) => _ end).
  assert (Hw : exists w' r, walked = Some (w', r) /\ match r with Ok st => reader_ok st | Err _ => True end).
  { unfold walked. destruct (dir_StatRoot w1 dir) as [w2 [kind|err]].
    - destruct (walk_returns walk_depth ctx dir w2 st0 [] kind) as [[w' r] Hr]; [constructor|cbn; lia|unfold walk_depth; lia|].
      change (path_text []) with (bs ".") in Hr. exists w', r. split; [done|]. destruct r; [|done]. by eapply walk_ok.
    - destruct (visit limits ctx w2 dir st0 (bs ".") (Err err)) as [w' r] eqn:Hv. exists w', r. split; [done|].
      destruct r; [|done]. by eapply visit_ok. }
  destruct Hw as (w' & r & -> & Hr). destruct r as [st|err]; [|by eexists _, (Err _)].
  destruct (has_registry st) eqn:Hg; cbn [negb]; [|by eexists _, (Err _)]. eexists _, (Ok _). split; [done|].
  destruct Hr as [Hc [Hs Ht] Hf Hreg]. pose proof (sort_by_perm file_Path (read_files st)) as Hp. apply Hreg in Hg.
  split_and!; [apply sort_by_sorted| | | | |].
  - rewrite Hp. eapply Forall_impl; [exact Hf|]. by intros f [? _].
  - destruct Hg as (f & Hin & He). exists f. by rewrite Hp.
  - by rewrite Hp.
  - rewrite Hp. eapply Forall_impl; [exact Hf|]. by intros f [_ ?].
  - rewrite (sum_lengths_perm _ _ Hp). lia.
Qed.

(** C32: Reading a snapshot always ends, whatever the directory holds, and
    what it returns is a snapshot: files at registry paths only, in lexical
    order, with [registry.json] among them, never more than the limits allow
    in number, in the size of a file and in total. *)
Theorem readDirectory_bounded ctx w root : exists w' r, readDirectory limits ctx w root = Some (w', r)
  /\ match r with
     | Err _ => True
     | Ok files =>
         StronglySorted (key_le file_Path) files
         /\ Forall (fun f => validSnapshotPath (file_Path f) = true) files
         /\ (exists f, f ∈ files /\ file_Path f = bs "registry.json")
         /\ Z.of_nat (length files) <= Z.max 0 (maxFiles limits)
         /\ Forall (fun f => Z.of_nat (length (file_Data f)) <= maxFileBytes limits) files
         /\ sum_lengths files <= Z.max 0 (maxTotalBytes limits)
     end.
Proof. apply readDirectory_total. Qed.
End Reader.

(** ** The writer *)

Inductive fs_call : Type :=
| called_Stat (name : bytes)
| called_Lstat (name : bytes)
| called_MkdirTemp (dir pattern : bytes)
| called_Chmod (name : bytes)
| called_MkdirAll (name : bytes)
| called_WriteFile (name data : bytes)
| called_Rename (old new : bytes) (result : option error)
| called_RemoveAll (name : bytes).

(** The file system that also records its calls *)
Definition record {W A R} (note : A -> fs_call) (f : call W A R) : call (W * list fs_call) A R :=
  fun '(w, log) a => let '(w', r) := f w a in ((w', log ++ [note a]), r).

#[export] Instance traced_fs {W} `{FileSystem W} : FileSystem (W * list fs_call) := {|
  fs_Stat := record called_Stat fs_Stat;
  fs_Lstat := record called_Lstat fs_Lstat;
  fs_MkdirTemp := record (fun a => called_MkdirTemp (fst a) (snd a)) fs_MkdirTemp;
  fs_Chmod := record (fun a => called_Chmod (fst a)) fs_Chmod;
  fs_MkdirAll := record (fun a => called_MkdirAll (fst a)) fs_MkdirAll;
  fs_WriteFile := record (fun a => called_WriteFile (fst (fst a)) (snd (fst a))) fs_WriteFile;
  fs_Rename := fun '(w, log) a => let '(w', r) := fs_Rename w a in ((w', log ++ [called_Rename (fst a) (snd a) r]), r);
  fs_RemoveAll := record called_RemoveAll fs_RemoveAll;
|}.

(** The calls for the files of a snapshot, all inside the staging directory *)
Definition file_calls (staging : bytes) (f : File) : list fs_call :=
  let destination := path_Join staging (file_Path f) in
  [called_MkdirAll (path_Dir destination); called_WriteFile destination (file_Data f)].
Definition stage_calls (staging : bytes) (files : list File) : list fs_call :=
  called_Chmod staging :: concat (map (file_calls staging) files).
Definition check_calls (parent root : bytes) : list fs_call := [called_Stat parent; called_Lstat root].
Definition first_calls (parent root base : bytes) : list fs_call :=
  check_calls parent root ++ [called_MkdirTemp parent (bs "." ++ base ++ bs ".tmp-")].

(** What a call of the writer did. Only [wrote] has changed anything outside
    the staging directory. *)
Inductive written (parent root base : bytes) (files : list File) : list fs_call -> option error -> Prop :=
| refused k err : (k <= 3)%nat -> written parent root base files (take k (first_calls parent root base)) (Some err)
| abandoned staging k err : (k <= length (stage_calls staging files ++ check_calls parent root))%nat ->
    written parent root base files
      (first_calls parent root base ++ take k (stage_calls staging files ++ check_calls parent root) ++ [called_RemoveAll staging]) (Some err)
| rename_failed staging err :
    written parent root base files
      (first_calls parent root base ++ stage_calls staging files ++ check_calls parent root
        ++ [called_Rename staging root (Some err); called_RemoveAll staging]) (Some err)
| wrote staging :
    written parent root base files
      (first_calls parent root base ++ stage_calls staging files ++ check_calls parent root
        ++ [called_Rename staging root None; called_RemoveAll staging]) None.

Section Writer.
Context {W : Type} `{FileSystem W}.

Lemma ensure_calls w log parent root w' r :
  ensureDestinationAvailable (W := W * list fs_call) (w, log) parent root = (w', r) ->
  exists k, (k <= 2)%nat /\ snd w' = log ++ take k (check_calls parent root) /\ (r = None -> k = 2%nat).
Proof.
  unfold ensureDestinationAvailable. cbn. destruct (fs_Stat w parent) as [w1 [kind|err]].
  2: { intros [= <- <-]. exists 1%nat. split_and!; [lia|done|done]. }
  destruct (IsDir kind); cbn [negb]; [|intros [= <- <-]; exists 1%nat; split_and!; [lia|done|done]]. cbn.
  destruct (fs_Lstat w1 root) as [w2 [info|err]]; [|destruct (negb _)]; intros [= <- <-]; exists 2%nat; cbn;
    split_and!; try lia; by rewrite <- app_assoc.
Qed.

Lemma write_files_calls ctx w log staging files w' r :
  write_files (W := W * list fs_call) ctx (w, log) staging files = (w', r) ->
  exists k, (k <= length (concat (map (file_calls staging) files)))%nat
    /\ snd w' = log ++ take k (concat (map (file_calls staging) files))
    /\ (r = None -> k = length (concat (map (file_calls staging) files))).
Proof.
  revert w log. induction files as [|f files IH]; intros w log; cbn [write_files].
  { intros [= <- <-]. exists 0%nat. cbn. by rewrite app_nil_r. }
  destruct (checkWriterContext ctx (w, log)) as [err|]; [intros [= <- <-]; exists 0%nat; cbn; split_and!; [lia|by rewrite app_nil_r|done]|].
  cbv zeta. cbn [fs_MkdirAll traced_fs record]. set (dest := path_Join staging (file_Path f)).
  destruct (fs_MkdirAll w (path_Dir dest, 493)) as [w1 [err|]]; [intros [= <- <-]; exists 1%nat; cbn; split_and!; [lia|done|done]|].
  cbn [fs_WriteFile traced_fs record]. destruct (fs_WriteFile w1 (dest, file_Data f, 420)) as [w2 [err|]].
  { intros [= <- <-]. exists 2%nat. cbn. split_and!; [lia|by rewrite <- app_assoc|done]. }
  intros (k & Hk & Hlog & Hr)%IH. exists (S (S k)). cbn [map concat file_calls app length].
  split_and!; [lia| |by intros ->%Hr]. rewrite Hlog, <- !app_assoc. done.
Qed.

Lemma publish_calls ctx w log parent root staging files w' r :
  publish_staging (W := W * list fs_call) ctx (w, log) parent root staging files = (w', r) ->
  (exists k err, (k <= length (stage_calls staging files ++ check_calls parent root))%nat /\ r = Some err
     /\ snd w' = log ++ take k (stage_calls staging files ++ check_calls parent root))
  \/ snd w' = log ++ stage_calls staging files ++ check_calls parent root ++ [called_Rename staging root r].
Proof.
  unfold publish_staging. cbn [fs_Chmod traced_fs record]. destruct (fs_Chmod w (staging, 493)) as [w1 [err|]].
  { intros [= <- <-]. left. exists 1%nat, err. cbn. split_and!; [lia|done|done]. }
  destruct (write_files ctx (w1, log ++ [called_Chmod (fst (staging, 493))]) staging files) as [[w2 log2] r2] eqn:Hw.
  apply write_files_calls in Hw as (k & Hk & Hlog & Hr). cbn [snd fst] in Hlog. unfold stage_calls.
  set (fc := concat (map (file_calls staging) files)) in *.
  assert (Htake : forall n, (n <= length fc)%nat -> log ++ [called_Chmod staging] ++ take n fc = log ++ take (S n) ((called_Chmod staging :: fc) ++ check_calls parent root)).
  { intros n Hn. cbn [app take]. by rewrite take_app_le. }
  assert (Hstop : forall n (err : error), (n <= length fc)%nat -> log2 = log ++ [called_Chmod staging] ++ take n fc ->
    exists k err', (k <= length ((called_Chmod staging :: fc) ++ check_calls parent root))%nat /\ Some err = Some err'
      /\ log2 = log ++ take k ((called_Chmod staging :: fc) ++ check_calls parent root)).
  { intros n err Hn ->. exists (S n), err. split_and!; [rewrite length_app; cbn; lia|done|by apply Htake]. }
  destruct r2 as [err|]; [intros [= <- <-]; left; cbn [snd]; rewrite <- app_assoc in Hlog; by eapply Hstop|].
  specialize (Hr eq_refl). subst k. rewrite firstn_all in Hlog. rewrite <- app_assoc in Hlog.
  destruct (checkWriterContext ctx (w2, log2)) as [err|].
  { intros [= <- <-]. left. cbn [snd]. eapply (Hstop (length fc)); [done|by rewrite firstn_all]. }
  destruct (ensureDestinationAvailable (w2, log2) parent root) as [[w3 log3] r3] eqn:He.
  apply ensure_calls in He as (k & Hk2 & Hlog3 & Hr3). cbn [snd] in Hlog3. destruct r3 as [err|].
  { intros [= <- <-]. left. cbn [snd]. exists (S (length fc) + k)%nat, err. split_and!; [rewrite length_app; cbn; lia|done|].
    rewrite Hlog3, Hlog, take_app_ge by (cbn; lia). cbn [length]. replace (S (length fc) + k - S (length fc))%nat with k by lia.
    by rewrite <- !app_assoc. }
  specialize (Hr3 eq_refl). subst k. cbn [fs_Rename traced_fs]. destruct (fs_Rename w3 (staging, root)) as [w4 [err|]];
    intros [= <- <-]; right; cbn [snd]; rewrite Hlog3, Hlog; cbn [take check_calls fst snd app]; by rewrite <- !app_assoc.
Qed.

(** A snapshot is published atomically, on every file system. Nothing is
    called for an unusable context, root or list of files. Otherwise the calls
    are, in this order, the checks that the parent is a directory and the
    destination absent, the creation of a staging directory, the files of the
    snapshot inside it, the checks again, and one rename onto the destination;
    a failure ends them early, and the staging directory is removed in every
    case. The destination is touched by nothing but that rename, which happens
    after every file was written, and success is reported exactly when it
    succeeded. *)
Theorem writeDirectory_atomic ctx w root files w' log r :
  writeDirectory (W := W * list fs_call) ctx (w, []) root files = ((w', log), r) ->
  (log = [] /\ r <> None
    /\ (checkWriterContext ctx (w, []) = r \/ (exists err, outputRootParts root = Err err /\ r = Some err) \/ validateLogicalFiles files = r))
  \/ exists parent base, outputRootParts root = Ok (root, parent, base) /\ validateLogicalFiles files = None
       /\ written parent root base files log r.
Proof.
  unfold writeDirectory. destruct (checkWriterContext ctx (w, [])) as [err|] eqn:Hc; [intros [= <- <- <-]; by left; auto|].
  destruct (outputRootParts root) as [[[cleanRoot parent] base]|err] eqn:Hp; [|intros [= <- <- <-]; left; split_and!; [done|done|right; left; by exists err]].
  assert (cleanRoot = root) as ->.
  { revert Hp. unfold outputRootParts. cbv zeta. destruct (_ || _) eqn:Hb; [done|]. intros [= <- _ _]. b2p.
    by destruct (bytes_eqb_spec (path_Clean root) root). }
  destruct (validateLogicalFiles files) as [err|] eqn:Hv; [intros [= <- <- <-]; left; eauto 6|].
  destruct (ensureDestinationAvailable (w, []) parent root) as [[w1 log1] r1] eqn:He.
  apply ensure_calls in He as (k & Hk & Hlog1 & Hr1). cbn [snd app] in Hlog1. subst log1.
  intros Hrun. right. exists parent, base. split_and!; [done|done|]. unfold first_calls.
  assert (Hfirst : forall k err, (k <= 2)%nat -> written parent root base files (take k (check_calls parent root)) (Some err)).
  { intros n err Hn. replace (take n (check_calls parent root)) with (take n (first_calls parent root base)); [apply refused; lia|].
    unfold first_calls. by rewrite take_app_le. }
  destruct r1 as [err|]; [injection Hrun as <- <- <-; by apply Hfirst|]. specialize (Hr1 eq_refl). subst k.
  destruct (checkWriterContext ctx (w1, take 2 (check_calls parent root))) as [err|]; [injection Hrun as <- <- <-; by apply (Hfirst 2%nat)|].
  cbn [fs_MkdirTemp traced_fs record] in Hrun. destruct (fs_MkdirTemp w1 (parent, bs "." ++ base ++ bs ".tmp-")) as [w2 [staging|err]].
  2: { injection Hrun as <- <- <-. apply (refused _ _ _ _ 3). lia. }
  cbn [fst snd] in Hrun.
  destruct (publish_staging ctx (w2, take 2 (check_calls parent root) ++ [called_MkdirTemp parent (bs "." ++ base ++ bs ".tmp-")]) parent root staging files)
    as [[w3 log3] r3] eqn:Hpub.
  apply publish_calls in Hpub. cbn [fs_RemoveAll traced_fs record snd] in *. destruct (fs_RemoveAll w3 staging) as [w4 e].
  injection Hrun as <- <- <-. destruct Hpub as [(n & err & Hn & -> & ->)| ->].
  - pose proof (abandoned parent root base files staging n err Hn) as Hw. unfold first_calls in Hw. rewrite <- !app_assoc in *. exact Hw.
  - destruct r3 as [err|].
    + pose proof (rename_failed parent root base files staging err) as Hw. unfold first_calls in Hw. rewrite <- !app_assoc in *. exact Hw.
    + pose proof (wrote parent root base files staging) as Hw. unfold first_calls in Hw. rewrite <- !app_assoc in *. exact Hw.
Qed.
End Writer.
