(* ===== verification/Disk.v ===== *)
(** * A file system for snapshots

    A tree of directories, files and other nodes, keyed by the elements of
    their paths, with the operations the writer and the reader call. Absolute
    paths start with an empty element; the working directory is [[]]. Links are
    not followed. Every operation of a writer can fail: [faults] says which
    of the coming ones do, and a write that fails leaves an empty file. A
    crash is the case that all later operations fail. [ticks] counts the
    operations, so that a clock, a context or a random source that depends on
    the disk can give any answer at any moment. *)

From S2P Require Import Prelude GoText GoErrors GoPath GoNetip GoJson GoTime GoEncoding Netguard PublicData.
From S2P Require Import SnapshotFiles.

Inductive node : Type := Directory | Regular (data : bytes) | Link | Device.

#[export] Instance node_eq_dec : EqDecision node.
Proof. solve_decision. Defined.

Definition node_kind (n : node) : FileKind :=
  match n with Directory => KindDirectory | Regular _ => KindRegular | Link => KindSymlink | Device => KindOther end.

Record disk : Type := mkDisk { tree : gmap (list bytes) node; faults : list bool; entropy : bytes; ticks : nat }.

Definition set_tree (t : gmap (list bytes) node) (d : disk) : disk := mkDisk t (faults d) (entropy d) (ticks d).

(** An operation, or the fault that takes its place *)
Definition attempt {R} (d : disk) (fault operation : disk -> disk * R) : disk * R :=
  let next := mkDisk (tree d) (tail (faults d)) (entropy d) (S (ticks d)) in
  if default false (head (faults d)) then fault next else operation next.

Definition io_error : error := errors_New (foreign 5).
Definition not_exist : error := errors_New os_ErrNotExist.

Definition is_directory (t : gmap (list bytes) node) (k : list bytes) : bool :=
  match t !! k with Some Directory => true | _ => false end.

Definition disk_Lstat (d : disk) (name : bytes) : disk * res error FileKind :=
  attempt d (fun d => (d, Err io_error))
    (fun d => (d, match tree d !! resolve name with Some n => Ok (node_kind n) | None => Err not_exist end)).

Definition disk_MkdirTemp (d : disk) (a : bytes * bytes) : disk * res error bytes :=
  let '(dir, pattern) := a in
  let key := resolve dir ++ [pattern ++ entropy d] in
  attempt d (fun d => (d, Err io_error))
    (fun d =>
       if negb (is_directory (tree d) (resolve dir)) then (d, Err not_exist)
       else
         match tree d !! key with
         | Some _ => (d, Err io_error)
         | None => (set_tree (<[key := Directory]> (tree d)) d,
                    Ok ((if HasSuffix dir (bs "/") then dir else dir ++ bs "/") ++ pattern ++ entropy d))
         end).

Definition disk_Chmod (d : disk) (a : bytes * Z) : disk * option error :=
  attempt d (fun d => (d, Some io_error))
    (fun d => (d, match tree d !! resolve (fst a) with Some _ => None | None => Some not_exist end)).

(** The non-empty prefixes of a path *)
Definition prefixes (k : list bytes) : list (list bytes) := map (fun n => take (S n) k) (seq 0 (length k)).

Definition disk_MkdirAll (d : disk) (a : bytes * Z) : disk * option error :=
  let ps := prefixes (resolve (fst a)) in
  attempt d (fun d => (d, Some io_error))
    (fun d =>
       if existsb (fun p => match tree d !! p with Some Directory | None => false | _ => true end) ps then (d, Some io_error)
       else (set_tree (list_to_map (map (fun p => (p, Directory)) ps) ∪ tree d) d, None)).

Definition write_node (d : disk) (k : list bytes) (data : bytes) (result : option error) : disk * option error :=
  if negb (is_directory (tree d) (removelast k)) then (d, Some not_exist)
  else
    match tree d !! k with
    | None | Some (Regular _) => (set_tree (<[k := Regular data]> (tree d)) d, result)
    | _ => (d, Some io_error)
    end.
Definition disk_WriteFile (d : disk) (a : bytes * bytes * Z) : disk * option error :=
  let '(name, data, _) := a in
  attempt d (fun d => write_node d (resolve name) [] (Some io_error)) (fun d => write_node d (resolve name) data None).

(** What was below [old] is below [new], and the other way round *)
Definition swap (old new k : list bytes) : list bytes :=
  if bool_decide (old `prefix_of` k) then new ++ drop (length old) k
  else if bool_decide (new `prefix_of` k) then old ++ drop (length new) k
  else k.

(** A node that is not a directory replaces another that is none. *)
Definition disk_Rename (d : disk) (a : bytes * bytes) : disk * option error :=
  let old := resolve (fst a) in
  let new := resolve (snd a) in
  attempt d (fun d => (d, Some io_error))
    (fun d =>
       if bool_decide (old `prefix_of` new) || bool_decide (new `prefix_of` old) then (d, Some io_error)
       else
         match tree d !! old, tree d !! new with
         | None, _ => (d, Some not_exist)
         | Some n, Some m =>
             if IsDir (node_kind n) || IsDir (node_kind m) then (d, Some io_error)
             else (set_tree (<[new := n]> (delete old (tree d))) d, None)
         | Some _, None =>
             if is_directory (tree d) (removelast new) then (set_tree (kmap (swap old new) (tree d)) d, None)
             else (d, Some not_exist)
         end).

(** The working directory is not removed. *)
Definition disk_RemoveAll (d : disk) (name : bytes) : disk * option error :=
  attempt d (fun d => (d, Some io_error))
    (fun d =>
       if bool_decide (resolve name = []) then (d, Some io_error)
       else (set_tree (filter (fun kn => ~ resolve name `prefix_of` kn.1) (tree d)) d, None)).

#[export] Instance disk_fs : FileSystem disk := {|
  fs_Stat := disk_Lstat;
  fs_Lstat := disk_Lstat;
  fs_MkdirTemp := disk_MkdirTemp;
  fs_Chmod := disk_Chmod;
  fs_MkdirAll := disk_MkdirAll;
  fs_WriteFile := disk_WriteFile;
  fs_Rename := disk_Rename;
  fs_RemoveAll := disk_RemoveAll;
|}.

(** ** Reading *)

#[export] Instance plain_dec e : Decision (plain e).
Proof. unfold plain. apply _. Defined.

(** The names in a directory, in lexical order *)
Definition children (t : gmap (list bytes) node) (k : list bytes) : list (bytes * FileKind) :=
  sort_by fst (omap (fun kn : list bytes * node =>
    match rev (fst kn) with
    | e :: up => if bool_decide (rev up = k) && bool_decide (plain e) then Some (e, node_kind (snd kn)) else None
    | [] => None
    end) (map_to_list t)).

Definition stat_node (d : disk) (name : bytes) : disk * res error FileKind :=
  (d, match tree d !! resolve name with Some n => Ok (node_kind n) | None => Err not_exist end).

#[export] Instance disk_directory : SnapshotDirectory disk := {|
  directory := list bytes;
  snapshot_file := list bytes;
  openDirectory := openSnapshotDirectory stat_node (fun d root => (d, Ok (resolve root)));
  dir_StatRoot := fun d dir => (d, match tree d !! dir with Some n => Ok (node_kind n) | None => Err not_exist end);
  dir_ReadDir := fun d a =>
    (d, if is_directory (tree d) (fst a ++ resolve (snd a)) then Ok (children (tree d) (fst a ++ resolve (snd a))) else Err io_error);
  dir_Lstat := fun d a => (d, match tree d !! (fst a ++ resolve (snd a)) with Some n => Ok (node_kind n) | None => Err not_exist end);
  dir_Open := fun d a => (d, match tree d !! (fst a ++ resolve (snd a)) with Some _ => Ok (fst a ++ resolve (snd a)) | None => Err not_exist end);
  file_Stat := fun d k => (d, match tree d !! k with Some n => Ok (node_kind n) | None => Err not_exist end);
  file_ReadAll := fun d a =>
    (d, match tree d !! fst a with Some (Regular data) => Ok (take (Z.to_nat (snd a)) data) | _ => Err io_error end);
|}.

Lemma children_elem t k e kind : (e, kind) ∈ children t k <-> exists n, t !! (k ++ [e]) = Some n /\ kind = node_kind n /\ plain e.
Proof.
  unfold children. rewrite sort_by_perm, list_elem_of_omap. split.
  - intros ([key n] & Hin%elem_of_map_to_list & Hk). cbn [fst snd] in Hk. destruct (rev key) as [|e' up] eqn:Hr; [done|].
    destruct (bool_decide_reflect (rev up = k)) as [<-|]; [|done]. destruct (bool_decide_reflect (plain e')); [|done]. cbn in Hk.
    simplify_eq. exists n. split_and!; [|done|done]. rewrite <- (rev_involutive key), Hr in Hin. exact Hin.
  - intros (n & Hn & -> & Hp). exists (k ++ [e], n). split; [by apply elem_of_map_to_list|]. cbn [fst snd].
    rewrite rev_app_distr. cbn [rev app]. rewrite rev_involutive. by rewrite !bool_decide_eq_true_2.
Qed.

Lemma children_nodup t k : NoDup (map fst (children t k)).
Proof.
  unfold children. rewrite (Permutation_map fst (sort_by_perm fst _)).
  assert (Hinj : forall l : list (list bytes * node), NoDup (map fst l) -> NoDup (map fst (omap (fun kn : list bytes * node =>
    match rev (fst kn) with
    | e :: up => if bool_decide (rev up = k) && bool_decide (plain e) then Some (e, node_kind (snd kn)) else None
    | [] => None
    end) l))).
  { intros l. induction l as [|[key n] l IH]; [intros _; constructor|]. cbn [map]. rewrite NoDup_cons. intros [Hn Hl]. cbn [omap list_omap fst snd].
    destruct (rev key) as [|e up] eqn:Hr; [by apply IH|].
    destruct (bool_decide_reflect (rev up = k)) as [Hu|]; [|by apply IH]. destruct (bool_decide_reflect (plain e)); [|by apply IH].
    cbn [map fst andb]. apply NoDup_cons. split; [|by apply IH]. rewrite list_elem_of_In, in_map_iff. intros ([e' kind] & He & Hin%list_elem_of_In).
    cbn in He. subst e'. apply list_elem_of_omap in Hin as ([key' n'] & Hin & Hk). cbn [fst snd] in Hk.
    destruct (rev key') as [|e' up'] eqn:Hr'; [done|]. destruct (bool_decide_reflect (rev up' = k)) as [Hu'|]; [|done].
    destruct (bool_decide_reflect (plain e')); [|done]. cbn [andb] in Hk. injection Hk as He _. apply Hn.
    assert (key' = key) as ->.
    { rewrite <- (rev_involutive key'), Hr', <- (rev_involutive key), Hr. cbn [rev]. by rewrite Hu, Hu', He. }
    rewrite list_elem_of_In. apply (in_map fst l (key, n')). by apply list_elem_of_In. }
  apply Hinj. apply NoDup_fst_map_to_list.
Qed.

#[export] Instance disk_directory_laws : SnapshotDirectoryLaws disk.
Proof.
  split. intros w d name w' entries. cbn. destruct (is_directory _ _); [|done]. intros [= _ <-]. apply Forall_forall.
  intros e. rewrite list_elem_of_In, in_map_iff. intros ([e' kind] & <- & (n & _ & _ & Hp)%list_elem_of_In%children_elem). done.
Qed.
