(* ===== verification/DiskFacts.v ===== *)
(** * Snapshots survive the disk

    What the writer leaves on the file system of [Disk], and that the reader
    returns the files that were written. *)

From S2P Require Import Prelude GoText GoErrors GoPath GoNetip GoJson GoTime GoEncoding Netguard PublicData.
From S2P Require Import SnapshotFiles Disk.

#[local] Set Warnings "-clear-no-such-hyp".

(** ** Roots and logical paths *)

Lemma output_root root c parent base : outputRootParts root = Ok (c, parent, base) ->
  c = root /\ exists P, clean_key (P ++ [base]) /\ plain base /\ root = path_text (P ++ [base]) /\ resolve root = P ++ [base]
    /\ parent = path_text P.
Proof.
  unfold outputRootParts. cbv zeta. destruct (_ || _) eqn:Hb; [done|]. intros [= <- <- <-]. b2p.
  destruct (bytes_eqb_spec (path_Clean root) root) as [Hc|]; [|done]. rewrite Hc in *.
  assert (Hk : clean_key (resolve root)).
  { apply resolve_clean_key. intros e Hin ->. assert (hasRootDotSegment root = true) as Ht; [|congruence].
    unfold hasRootDotSegment. apply existsb_exists. exists (bs ".."). split; [by apply list_elem_of_In|done]. }
  split; [done|]. assert (Hne : resolve root <> []).
  { intros Hr. unfold path_Clean in Hc. rewrite Hr in Hc. by subst root. }
  destruct (exists_last Hne) as (P & base & Hr). rewrite Hr in Hk.
  assert (Hbase : base <> []).
  { intros ->. destruct Hk as [Hk|(k & Hk & Hp)].
    - apply Forall_app in Hk as [_ [(Hn & _) _]%Forall_cons]. done.
    - destruct P as [|x P]; cbn [app] in Hk; [|injection Hk as -> <-].
      + cbn [app] in Hr. unfold path_Clean in Hc. rewrite Hr in Hc. subst root. done.
      + apply Forall_app in Hp as [_ [(Hn & _) _]%Forall_cons]. done. }
  destruct (clean_key_snoc P base Hk Hbase) as [HP Hplain].
  assert (Hroot : root = path_text (P ++ [base])) by (unfold path_Clean in Hc; by rewrite Hr in Hc).
  destruct (resolve_Dir P base Hk Hbase) as [_ Hdir]. rewrite <- Hroot in Hdir.
  pose proof (path_Base_snoc P base Hk Hbase) as Hb. rewrite <- Hroot in Hb. exists P. rewrite Hb, Hdir. done.
Qed.

Definition segs (f : File) : list bytes := Split (file_Path f) "/".

Lemma logical_plain p : validLogicalPath p = true -> Forall plain (Split p "/").
Proof.
  unfold validLogicalPath. destruct (_ || _); [done|]. intros Hf. apply Forall_forall. intros e He.
  pose proof (forallb_elem _ _ e Hf He) as Hb. cbv beta in Hb. b2p. pose proof (Split_free p "/") as Hs. rewrite Forall_forall in Hs.
  split_and!; [by destruct (bytes_eqb_spec e [])|by destruct (bytes_eqb_spec e (bs "."))|by destruct (bytes_eqb_spec e (bs ".."))|by apply Hs].
Qed.

Lemma validate_files_ok seen files : validate_files seen files = None ->
  Forall (fun f => validLogicalPath (file_Path f) = true) files /\ NoDup (map file_Path files)
  /\ Forall (fun f => file_Path f ∉ seen) files.
Proof.
  revert seen. induction files as [|f files IH]; intros seen; cbn [validate_files map]; [intros _; split_and!; constructor|].
  destruct (validLogicalPath (file_Path f)) eqn:Hv; [cbn [negb]|done]. destruct (bool_decide_reflect (file_Path f ∈ seen)) as [|Hn]; [done|].
  intros (Hf & Hnd & Hs)%IH. rewrite Forall_forall in Hs. split_and!; [by constructor| |].
  - apply NoDup_cons. split; [|done]. rewrite list_elem_of_In, in_map_iff. intros (g & Hg & Hin%list_elem_of_In). apply (Hs g Hin).
    rewrite Hg. set_solver.
  - constructor; [done|]. apply Forall_forall. intros g Hg. specialize (Hs g Hg). set_solver.
Qed.

(** ** Names of the staging directory *)

Definition temp_name (dir name : bytes) : bytes := (if HasSuffix dir (bs "/") then dir else dir ++ bs "/") ++ name.

Lemma resolve_temp P tmp : clean_key P -> plain tmp -> resolve (temp_name (path_text P) tmp) = P ++ [tmp]
  /\ temp_name (path_text P) tmp <> [].
Proof.
  intros HP Ht. unfold temp_name. destruct (HasSuffix (path_text P) (bs "/")) eqn:Hs.
  - assert (P = [[]]) as ->.
    { destruct (decide (P = [[]])) as [|Hne]; [done|]. exfalso. destruct P as [|e P _] using rev_ind; [done|].
      assert (He : e <> []).
      { intros ->. destruct HP as [HP|(k & Hk & HP)].
        - by apply Forall_app in HP as [_ [(? & _) _]%Forall_cons].
        - destruct P as [|x P]; [done|]. cbn [app] in Hk. injection Hk as -> <-. by apply Forall_app in HP as [_ [(? & _) _]%Forall_cons]. }
      destruct (path_text_end P e HP He) as (s & c & Hp & Hc). apply HasSuffix_spec in Hs as [t Hs]. rewrite Hp in Hs.
      apply app_inj_tail in Hs as [_ ->]. done. }
    split; [|done]. apply resolve_Split; [|done| |done].
    + right. exists [tmp]. split; [done|]. by constructor.
    + left. change (path_text [[]] ++ tmp) with ([] ++ "/"%char :: tmp). rewrite Split_app, (plain_split tmp Ht). done.
  - rewrite <- app_assoc. split.
    + rewrite resolve_join, (plain_split tmp Ht), resolve_clean; [done|done| |].
      * intros He. destruct P as [|e P]; [done|]. destruct (decide (e :: P = [[]])) as [Hr|Hr]; [by rewrite Hr in He|].
        by destruct (path_text_clean (e :: P) HP) as [_ Hn].
      * rewrite (plain_split tmp Ht). by constructor.
    + by destruct (path_text P).
Qed.

(** ** The operations of the writer on the tree *)

Lemma attempt_cases {R} d (f g : disk -> disk * R) d' r : attempt d f g = (d', r) ->
  let next := mkDisk (tree d) (tail (faults d)) (entropy d) (S (ticks d)) in f next = (d', r) \/ g next = (d', r).
Proof. unfold attempt. cbv zeta. destruct (default false _); auto. Qed.

Ltac attempt_in H := apply attempt_cases in H; cbv zeta in H; destruct H as [H|H].

Lemma Lstat_disk d name d' r : disk_Lstat d name = (d', r) ->
  tree d' = tree d /\ entropy d' = entropy d
  /\ match r with
     | Ok k => exists n, tree d !! resolve name = Some n /\ k = node_kind n
     | Err err => errors_Is err os_ErrNotExist = true -> tree d !! resolve name = None
     end.
Proof.
  unfold disk_Lstat. intros Hl. attempt_in Hl; injection Hl as <- <-; cbn [tree entropy].
  - split_and!; [done|done|]. by vm_compute.
  - split_and!; [done|done|]. destruct (tree d !! resolve name); [by eexists|done].
Qed.

Lemma ensure_disk d parent root d' r : ensureDestinationAvailable d parent root = (d', r) ->
  tree d' = tree d /\ entropy d' = entropy d
  /\ (r = None -> tree d !! resolve parent = Some Directory /\ tree d !! resolve root = None).
Proof.
  unfold ensureDestinationAvailable. cbn [fs_Stat fs_Lstat disk_fs]. destruct (disk_Lstat d parent) as [d1 [k|err]] eqn:H1;
    apply Lstat_disk in H1 as (Ht1 & He1 & H1); [|intros [= <- <-]; done].
  destruct (IsDir k) eqn:Hk; cbn [negb]; [|intros [= <- <-]; done].
  destruct (disk_Lstat d1 root) as [d2 [k2|err]] eqn:H2; apply Lstat_disk in H2 as (Ht2 & He2 & H2).
  { intros [= <- <-]. split_and!; congruence. }
  destruct (errors_Is err os_ErrNotExist); cbn [negb]; intros [= <- <-]; (split_and!; [congruence|congruence|]); [intros _|done].
  destruct H1 as (n & Hn & ->). split; [by destruct n|]. rewrite <- Ht1. by apply H2.
Qed.

Lemma prefixes_elem k p : p ∈ prefixes k <-> p <> [] /\ p `prefix_of` k.
Proof.
  unfold prefixes. rewrite list_elem_of_In, in_map_iff. split.
  - intros (n & <- & Hn%in_seq). split; [destruct k; cbn in *; [lia|done]|apply prefix_take].
  - intros [Hp [t ->]]. exists (length p - 1)%nat. split.
    + rewrite take_app_le by (destruct p; cbn; [done|lia]). apply take_ge. destruct p; cbn; [done|lia].
    + apply in_seq. rewrite length_app. destruct p; cbn; [done|lia].
Qed.

Lemma mkdirs_lookup (ps : list (list bytes)) (t : gmap (list bytes) node) k :
  (list_to_map (map (fun p => (p, Directory)) ps) ∪ t) !! k = if bool_decide (k ∈ ps) then Some Directory else t !! k.
Proof.
  destruct (bool_decide_reflect (k ∈ ps)) as [Hin|Hn].
  - apply lookup_union_Some_l. induction ps as [|p ps IH]; [by apply elem_of_nil in Hin|]. cbn [map list_to_map foldr].
    destruct (decide (k = p)) as [->|Hne]; [by rewrite lookup_insert_eq|]. rewrite lookup_insert_ne by done. apply IH.
    by apply elem_of_cons in Hin as [|].
  - rewrite lookup_union_r; [done|]. apply not_elem_of_list_to_map. intros Hin. apply Hn.
    rewrite list_elem_of_In in Hin. apply list_elem_of_In in Hin. apply list_elem_of_fmap in Hin as ([p n] & -> & Hin).
    rewrite list_elem_of_In, in_map_iff in Hin. destruct Hin as (q & [= <- <-] & Hq). by apply list_elem_of_In.
Qed.

(** ** A snapshot in the tree *)

(** Below [R] there are the files, their directories, and nothing else. *)
Record snapshot_at (T : gmap (list bytes) node) (R : list bytes) (files : list File) : Prop := {
  sa_root : T !! R = Some Directory;
  sa_file : forall f, f ∈ files -> T !! (R ++ segs f) = Some (Regular (file_Data f));
  sa_dir : forall f s, f ∈ files -> s `prefix_of` segs f -> s <> segs f -> T !! (R ++ s) = Some Directory;
  sa_only : forall s n, T !! (R ++ s) = Some n -> s = [] \/ exists f, f ∈ files
    /\ (s = segs f /\ n = Regular (file_Data f) \/ s `prefix_of` segs f /\ s <> segs f /\ n = Directory);
}.

(** The directories above [S] exist. *)
Definition above (T : gmap (list bytes) node) (S : list bytes) : Prop :=
  forall p, p <> [] -> p `prefix_of` S -> p <> S -> T !! p = Some Directory.

(** Nothing outside [S] differs. *)
Definition frame (S : list bytes) (T T' : gmap (list bytes) node) : Prop := forall k, ~ S `prefix_of` k -> T' !! k = T !! k.

Lemma frame_refl S T : frame S T T.
Proof. done. Qed.
Lemma frame_trans S T1 T2 T3 : frame S T1 T2 -> frame S T2 T3 -> frame S T1 T3.
Proof. intros H1 H2 k Hk. rewrite H2, H1 by done. done. Qed.

Lemma above_frame S T T' : frame S T T' -> above T S -> above T' S.
Proof.
  intros Hf Ha p Hp Hpre Hne. rewrite Hf; [by apply Ha|]. intros Hpre'. apply Hne. by apply (anti_symm prefix).
Qed.

Lemma prefix_strict (S : list bytes) l s : S ++ s `prefix_of` S ++ l <-> s `prefix_of` l.
Proof. split; [apply prefix_app_inv|apply prefix_app]. Qed.

(** A path into [S] *)
Lemma destination_resolves staging S f : resolve staging = S -> staging <> [] -> clean_key S -> Forall plain (segs f) ->
  path_Join staging (file_Path f) = path_text (S ++ segs f) /\ resolve (path_Join staging (file_Path f)) = S ++ segs f
  /\ resolve (path_Dir (path_Join staging (file_Path f))) = S ++ removelast (segs f).
Proof.
  intros Hs Hne HS Hp.
  assert (Hj : path_Join staging (file_Path f) = path_text (S ++ segs f)).
  { transitivity (path_Clean (staging ++ bs "/" ++ file_Path f)); [unfold path_Join; by destruct staging|].
    unfold path_Clean. by rewrite resolve_join, Hs. }
  assert (Hc : clean_key (S ++ segs f)) by (by apply clean_key_app).
  rewrite Hj. split_and!; [done|by apply resolve_clean|].
  destruct (exists_last (Split_nonempty (file_Path f) "/")) as (l & e & Hl). fold (segs f) in Hl.
  rewrite Hl in *. rewrite removelast_last. rewrite app_assoc in *.
  apply Forall_app in Hp as [_ [(He & _) _]%Forall_cons]. apply (proj1 (resolve_Dir (S ++ l) e Hc He)).
Qed.

Lemma removelast_prefix (l s : list bytes) : l <> [] -> s `prefix_of` removelast l <-> s `prefix_of` l /\ s <> l.
Proof.
  intros Hne. destruct (exists_last Hne) as (l' & e & ->). rewrite removelast_last. split.
  - intros Hp. split; [etransitivity; [exact Hp|by apply prefix_app_r]|]. intros ->. apply prefix_length in Hp. rewrite length_app in Hp. cbn in Hp. lia.
  - intros [[t Ht] Hn]. destruct t as [|x t _] using rev_ind; [rewrite app_nil_r in Ht; congruence|].
    rewrite app_assoc in Ht. apply app_inj_tail in Ht as [-> _]. by apply prefix_app_r.
Qed.

Lemma MkdirAll_disk d name mode S s d' r : resolve name = S ++ s -> S <> [] -> above (tree d) S -> tree d !! S = Some Directory ->
  disk_MkdirAll d (name, mode) = (d', r) ->
  entropy d' = entropy d /\ frame S (tree d) (tree d')
  /\ (r = None -> forall t, tree d' !! (S ++ t) = if bool_decide (t `prefix_of` s) then Some Directory else tree d !! (S ++ t))
  /\ (r = None -> forall t, t `prefix_of` s -> tree d !! (S ++ t) = None \/ tree d !! (S ++ t) = Some Directory).
Proof.
  intros Hres HS Ha HSd. unfold disk_MkdirAll. cbn [fst]. rewrite Hres. intros Hm. attempt_in Hm.
  { injection Hm as <- <-. done. }
  cbn [tree entropy] in Hm. destruct (existsb _ _) eqn:Hex; injection Hm as <- <-; cbn [tree entropy set_tree]; [done|].
  assert (Hok : forall p, p ∈ prefixes (S ++ s) -> tree d !! p = None \/ tree d !! p = Some Directory).
  { intros p Hp. destruct (tree d !! p) as [[]|] eqn:Hn; auto; exfalso; apply not_true_iff_false in Hex; apply Hex;
      apply existsb_exists; exists p; (split; [by apply list_elem_of_In|by rewrite Hn]). }
  assert (Hpre : forall t, S ++ t ∈ prefixes (S ++ s) <-> t `prefix_of` s).
  { intros t. rewrite prefixes_elem, prefix_strict. split; [by intros [_ ?]|]. intros Ht. split; [|done]. by destruct S. }
  split_and!; [done| | |].
  - intros k Hk. rewrite mkdirs_lookup. destruct (bool_decide_reflect (k ∈ prefixes (S ++ s))) as [[Hkn Hp]%prefixes_elem|]; [|done].
    symmetry. apply Ha; [done| |by intros ->].
    destruct (prefix_weak_total k S (S ++ s) Hp (prefix_app_r S S s (reflexivity S))) as [|]; done.
  - intros _ t. rewrite mkdirs_lookup. by rewrite (bool_decide_ext _ _ (Hpre t)).
  - intros _ t Ht. apply Hok. by apply Hpre.
Qed.

Lemma WriteFile_disk d name data mode S s d' r : resolve name = S ++ s ->
  disk_WriteFile d (name, data, mode) = (d', r) ->
  entropy d' = entropy d /\ frame S (tree d) (tree d')
  /\ (r = None -> (tree d !! (S ++ s) = None \/ exists old, tree d !! (S ++ s) = Some (Regular old))
       /\ tree d' = <[S ++ s := Regular data]> (tree d)).
Proof.
  intros Hres. unfold disk_WriteFile. rewrite Hres.
  assert (Hw : forall d0 data0 r0, write_node d0 (S ++ s) data0 r0 = (d', r) -> tree d0 = tree d -> entropy d0 = entropy d ->
    entropy d' = entropy d /\ frame S (tree d) (tree d')
    /\ (r = None -> (tree d !! (S ++ s) = None \/ exists old, tree d !! (S ++ s) = Some (Regular old))
       /\ tree d' = <[S ++ s := Regular data0]> (tree d)) /\ (r = None -> r0 = None)).
  { intros d0 data0 r0. unfold write_node. intros Hn Ht He. destruct (negb _); [injection Hn as <- <-; split_and!; [congruence|by rewrite Ht|done|done]|].
    assert (Hins : frame S (tree d) (<[S ++ s := Regular data0]> (tree d))).
    { intros k Hk. apply lookup_insert_ne. intros <-. apply Hk. by apply prefix_app_r. }
    rewrite Ht in Hn. destruct (tree d !! (S ++ s)) as [[]|]; injection Hn as <- <-; cbn [tree entropy set_tree];
      split_and!; try done; try congruence; try (by rewrite Ht); intros _; (split; [eauto|done]). }
  intros Hm. attempt_in Hm; apply Hw in Hm as (He & Hf & Hr & Hn); try done.
  split_and!; [done|done|]. intros ->. by specialize (Hn eq_refl).
Qed.

Lemma segs_inj f g : segs f = segs g -> file_Path f = file_Path g.
Proof. apply Split_inj. Qed.

(** One more file in the staging directory *)
Lemma snapshot_at_snoc T T1 S files f :
  snapshot_at T S files -> file_Path f ∉ map file_Path files ->
  (forall t, T1 !! (S ++ t) = if bool_decide (t `prefix_of` removelast (segs f)) then Some Directory else T !! (S ++ t)) ->
  (forall t, t `prefix_of` removelast (segs f) -> T !! (S ++ t) = None \/ T !! (S ++ t) = Some Directory) ->
  (T1 !! (S ++ segs f) = None \/ exists old, T1 !! (S ++ segs f) = Some (Regular old)) ->
  snapshot_at (<[S ++ segs f := Regular (file_Data f)]> T1) S (files ++ [f]).
Proof.
  intros [Hroot Hfile Hdir Honly] Hnew Hlook Hold Hfree. assert (Hne : segs f <> []) by apply Split_nonempty.
  assert (Hpre : forall t, t `prefix_of` removelast (segs f) <-> t `prefix_of` segs f /\ t <> segs f) by (intros t; by apply removelast_prefix).
  assert (Hins : forall t, t <> segs f -> <[S ++ segs f := Regular (file_Data f)]> T1 !! (S ++ t) = T1 !! (S ++ t)).
  { intros t Ht. apply lookup_insert_ne. intros He%(inj (app S)). congruence. }
  assert (Hpath : forall g, g ∈ files -> segs g <> segs f).
  { intros g Hg He%segs_inj. apply Hnew. rewrite list_elem_of_In, in_map_iff. exists g. split; [done|by apply list_elem_of_In]. }
  assert (Hdirs : forall t, T !! (S ++ t) = Some Directory -> t <> segs f /\ T1 !! (S ++ t) = Some Directory).
  { intros t Ht. assert (Ht1 : T1 !! (S ++ t) = Some Directory) by (rewrite Hlook; by destruct (bool_decide _)).
    split; [|done]. intros ->. rewrite Ht1 in Hfree. destruct Hfree as [|[]]; done. }
  split.
  - pose proof (Hins [] ltac:(done)) as Hi. destruct (Hdirs []) as [_ Hd]; [by rewrite app_nil_r|].
    rewrite app_nil_r in Hi, Hd. by rewrite Hi.
  - intros g [Hg| ->%list_elem_of_singleton]%elem_of_app; [|by rewrite lookup_insert_eq].
    rewrite Hins, Hlook by (by apply Hpath). destruct (bool_decide_reflect (segs g `prefix_of` removelast (segs f))) as [Hp|]; [|by apply Hfile].
    exfalso. pose proof (Hold _ Hp) as Ho. rewrite (Hfile g Hg) in Ho. by destruct Ho.
  - intros g s [Hg| ->%list_elem_of_singleton]%elem_of_app Hs Hsn.
    + destruct (Hdirs s (Hdir g s Hg Hs Hsn)) as [Hn Ht]. by rewrite Hins.
    + rewrite Hins, Hlook by done. by rewrite bool_decide_eq_true_2 by (by apply Hpre).
  - intros s n. destruct (decide (s = segs f)) as [->|Hsn].
    + rewrite lookup_insert_eq. intros [= <-]. right. exists f. split; [apply elem_of_app; right; by left|by left].
    + rewrite Hins, Hlook by done. destruct (bool_decide_reflect (s `prefix_of` removelast (segs f))) as [Hp|Hp].
      * intros [= <-]. right. exists f. split; [apply elem_of_app; right; by left|right]. apply Hpre in Hp. naive_solver.
      * intros [->|(g & Hg & Hc)]%Honly; [by left|]. right. exists g. split; [apply elem_of_app; by left|done].
Qed.

Lemma write_files_disk ctx d staging S done_files files d' r :
  resolve staging = S -> staging <> [] -> clean_key S -> S <> [] -> above (tree d) S ->
  snapshot_at (tree d) S done_files -> Forall (fun f => Forall plain (segs f)) files -> NoDup (map file_Path (done_files ++ files)) ->
  write_files ctx d staging files = (d', r) ->
  entropy d' = entropy d /\ frame S (tree d) (tree d') /\ (r = None -> snapshot_at (tree d') S (done_files ++ files)).
Proof.
  intros Hs Hne HS HSne. revert d done_files. induction files as [|f files IH]; intros d done_files Ha Hsnap Hp Hnd; cbn [write_files].
  { intros [= <- <-]. rewrite app_nil_r. done. }
  apply Forall_cons in Hp as [Hpf Hp]. destruct (checkWriterContext ctx d) as [err|]; [intros [= <- <-]; done|]. cbv zeta.
  destruct (destination_resolves staging S f Hs Hne HS Hpf) as (_ & Hdest & Hdirres).
  cbn [fs_MkdirAll fs_WriteFile disk_fs].
  destruct (disk_MkdirAll d _) as [d1 r1] eqn:Hm. eapply (MkdirAll_disk d _ _ S) in Hm as (He1 & Hf1 & Hl1 & Ho1); [|done|done|done|apply Hsnap].
  destruct r1 as [err|]; [intros [= <- <-]; done|]. specialize (Hl1 eq_refl). specialize (Ho1 eq_refl).
  destruct (disk_WriteFile d1 _) as [d2 r2] eqn:Hw. eapply (WriteFile_disk d1 _ _ _ S) in Hw as (He2 & Hf2 & Hr2); [|done].
  assert (Hf12 : frame S (tree d) (tree d2)) by (by eapply frame_trans).
  destruct r2 as [err|]; [intros [= <- <-]; split_and!; [congruence|done|done]|]. destruct (Hr2 eq_refl) as [Hfree Ht2].
  assert (Hsnap2 : snapshot_at (tree d2) S (done_files ++ [f])).
  { rewrite Ht2. eapply snapshot_at_snoc; [exact Hsnap| |exact Hl1|exact Ho1|exact Hfree].
    rewrite map_app in Hnd. cbn [map] in Hnd. apply NoDup_app in Hnd as (_ & Hn & _). intros Hin. apply (Hn _ Hin). by left. }
  intros Hrun. apply (IH d2 (done_files ++ [f])) in Hrun as (He & Hf & Hr).
  - rewrite <- app_assoc in Hr. split_and!; [congruence|by eapply frame_trans|done].
  - by eapply above_frame.
  - done.
  - done.
  - by rewrite <- app_assoc.
Qed.

(** ** Renaming *)

Section Swap.
Variables old new : list bytes.
Hypothesis apart : ~ old `prefix_of` new /\ ~ new `prefix_of` old.

Lemma swap_old s : swap old new (old ++ s) = new ++ s.
Proof. unfold swap. rewrite bool_decide_eq_true_2 by (by apply prefix_app_r). by rewrite drop_app_length. Qed.
Lemma apart_new s : ~ old `prefix_of` new ++ s.
Proof. intros Hp. destruct (prefix_weak_total old new (new ++ s) Hp (prefix_app_r new new s (reflexivity new))) as [Ha|Ha]; by apply apart in Ha. Qed.
Lemma swap_new s : swap old new (new ++ s) = old ++ s.
Proof.
  unfold swap. rewrite bool_decide_eq_false_2 by apply apart_new.
  rewrite bool_decide_eq_true_2 by (by apply prefix_app_r). by rewrite drop_app_length.
Qed.
Lemma swap_other k : ~ old `prefix_of` k -> ~ new `prefix_of` k -> swap old new k = k.
Proof. intros H1 H2. unfold swap. by rewrite !bool_decide_eq_false_2. Qed.
Lemma swap_swap k : swap old new (swap old new k) = k.
Proof.
  destruct (decide (old `prefix_of` k)) as [[s ->]|H1]; [by rewrite swap_old, swap_new|].
  destruct (decide (new `prefix_of` k)) as [[s ->]|H2]; [by rewrite swap_new, swap_old|]. rewrite (swap_other k H1 H2). by apply swap_other.
Qed.
Lemma kmap_swap (T : gmap (list bytes) node) k : (kmap (swap old new) T : gmap (list bytes) node) !! k = T !! swap old new k.
Proof.
  assert (Hinj : Inj (=) (=) (swap old new)) by (intros a b He; rewrite <- (swap_swap a), He; apply swap_swap).
  rewrite <- (swap_swap k) at 1. apply lookup_kmap. exact Hinj.
Qed.
End Swap.

Lemma Rename_disk d old new d' r S R : resolve old = S -> resolve new = R -> tree d !! S = Some Directory -> disk_Rename d (old, new) = (d', r) ->
  entropy d' = entropy d /\ (r <> None -> tree d' = tree d)
  /\ (r = None -> ~ S `prefix_of` R /\ ~ R `prefix_of` S /\ tree d' = kmap (swap S R) (tree d)).
Proof.
  intros HS HR HSd. unfold disk_Rename. cbn [fst snd]. rewrite HS, HR. intros Hm. attempt_in Hm; [by injection Hm as <- <-|].
  destruct (bool_decide_reflect (S `prefix_of` R)); cbn [orb] in Hm; [by injection Hm as <- <-|].
  destruct (bool_decide_reflect (R `prefix_of` S)); cbn [orb tree] in Hm; [by injection Hm as <- <-|].
  rewrite HSd in Hm. destruct (tree d !! R); [by injection Hm as <- <-|].
  destruct (is_directory _ _); by injection Hm as <- <-.
Qed.

Lemma RemoveAll_disk d name S d' r : resolve name = S -> disk_RemoveAll d name = (d', r) -> frame S (tree d) (tree d').
Proof.
  intros HS. unfold disk_RemoveAll. intros Hm. attempt_in Hm; [by injection Hm as <- _|].
  case_bool_decide; injection Hm as <- _; [done|]. cbn [tree set_tree]. intros k Hk. rewrite HS.
  destruct (tree d !! k) as [n|] eqn:Hn.
  - apply map_lookup_filter_Some. by split.
  - apply map_lookup_filter_None. by left.
Qed.

(** ** Writing a snapshot *)

(** Every node is in a directory. *)
Definition closed (T : gmap (list bytes) node) : Prop := forall k e, is_Some (T !! (k ++ [e])) -> T !! k = Some Directory.

Lemma closed_above T k p : closed T -> T !! k = Some Directory -> p `prefix_of` k -> T !! p = Some Directory.
Proof.
  intros Hc Hk [s ->]. revert Hk. induction s as [|e s IH] using rev_ind; [by rewrite app_nil_r|].
  rewrite app_assoc. intros Hk. apply IH, (Hc _ e). by rewrite Hk.
Qed.

Lemma closed_below T k s : closed T -> T !! k = None -> T !! (k ++ s) = None.
Proof.
  intros Hc Hk. induction s as [|e s IH] using rev_ind; [by rewrite app_nil_r|]. rewrite app_assoc.
  destruct (T !! ((k ++ s) ++ [e])) eqn:He; [|done]. exfalso. rewrite (Hc (k ++ s) e) in IH; [done|by rewrite He].
Qed.

Definition staging_name (base entropy : bytes) : bytes := bs "." ++ base ++ bs ".tmp-" ++ entropy.

Lemma staging_plain base entropy : plain base -> "/"%char ∉ entropy -> plain (staging_name base entropy).
Proof.
  intros (H0 & _ & _ & Hs) He. unfold staging_name. destruct base as [|c base]; [done|].
  split_and!; [done|done|by destruct base|]. rewrite !not_elem_of_app. split_and!; [|done| |done].
  - apply (bool_decide_unpack _). by vm_compute.
  - apply (bool_decide_unpack _). by vm_compute.
Qed.

Lemma staging_apart P base entropy : plain base ->
  ~ P ++ [staging_name base entropy] `prefix_of` P ++ [base] /\ ~ P ++ [base] `prefix_of` P ++ [staging_name base entropy].
Proof.
  intros _. assert (Hne : staging_name base entropy <> base).
  { intros He%(f_equal (@length ascii)). unfold staging_name in He. rewrite !length_app in He. cbn in He. lia. }
  split; intros [t Ht]; rewrite <- app_assoc in Ht; apply (inj (app P)) in Ht; cbn [app] in Ht; injection Ht as Ht _; congruence.
Qed.

(** A tree after the snapshot was moved to [R] *)
Lemma snapshot_moved T S R files : snapshot_at T S files -> ~ S `prefix_of` R -> ~ R `prefix_of` S -> snapshot_at (kmap (swap S R) T) R files.
Proof.
  intros [Hroot Hfile Hdir Honly] H1 H2.
  assert (Hk : forall s, (kmap (swap S R) T : gmap (list bytes) node) !! (R ++ s) = T !! (S ++ s)) by (intros s; rewrite kmap_swap, swap_new by done; done).
  split.
  - specialize (Hk []). rewrite !app_nil_r in Hk. by rewrite Hk.
  - intros f Hf. rewrite Hk. by apply Hfile.
  - intros f s. rewrite Hk. apply Hdir.
  - intros s n. rewrite Hk. apply Honly.
Qed.

Lemma snapshot_frame T T' S R files : frame S T T' -> ~ S `prefix_of` R -> ~ R `prefix_of` S -> snapshot_at T R files -> snapshot_at T' R files.
Proof.
  intros Hf H1 H2 [Hroot Hfile Hdir Honly].
  assert (Hk : forall s, T' !! (R ++ s) = T !! (R ++ s)) by (intros s; apply Hf; by apply (apart_new S R)).
  split.
  - specialize (Hk []). rewrite !app_nil_r in Hk. by rewrite Hk.
  - intros f Hin. rewrite Hk. by apply Hfile.
  - intros f s. rewrite Hk. apply Hdir.
  - intros s n. rewrite Hk. apply Honly.
Qed.

Lemma publish_disk ctx d P base staging files d' r :
  let S := P ++ [staging_name base (entropy d)] in
  let R := P ++ [base] in
  clean_key R -> plain base -> "/"%char ∉ entropy d -> resolve staging = S -> staging <> [] ->
  closed (tree d) -> tree d !! S = Some Directory -> (forall s, s <> [] -> tree d !! (S ++ s) = None) ->
  validateLogicalFiles files = None ->
  publish_staging ctx d (path_text P) (path_text R) staging files = (d', r) ->
  (r <> None -> frame S (tree d) (tree d'))
  /\ (r = None -> snapshot_at (tree d') R files /\ forall k, ~ S `prefix_of` k -> ~ R `prefix_of` k -> tree d' !! k = tree d !! k).
Proof.
  intros S R HR Hb He HS Hsne Hcl HSd Hempty Hval. unfold publish_staging. cbn [fs_Chmod disk_fs].
  destruct (validate_files_ok ∅ files Hval) as (Hv & Hnd & _).
  destruct (clean_key_snoc P base HR ltac:(apply Hb)) as [HP _].
  assert (HSc : clean_key S) by (apply clean_key_app; [done|]; constructor; [by apply staging_plain|done]).
  destruct (disk_Chmod d (staging, 493)) as [d1 r1] eqn:Hch.
  assert (Ht1 : tree d1 = tree d) by (unfold disk_Chmod in Hch; attempt_in Hch; by injection Hch as <- _).
  destruct r1 as [err|]; [intros [= <- <-]; rewrite Ht1; done|].
  destruct (write_files ctx d1 staging files) as [d2 r2] eqn:Hw.
  eapply (write_files_disk ctx d1 staging S []) in Hw as (He2 & Hf2 & Hs2); [|done|done|done|by destruct P| | | |done].
  2: { rewrite Ht1. intros p Hp Hpre _. by eapply closed_above. }
  2: { rewrite Ht1. split; [done| | |].
       - by intros f ?%elem_of_nil.
       - by intros f s ?%elem_of_nil.
       - intros s n Hn. destruct (decide (s = [])) as [|Hne]; [by left|]. by rewrite Hempty in Hn. }
  2: { eapply Forall_impl; [exact Hv|]. intros f. apply logical_plain. }
  rewrite Ht1 in Hf2. destruct r2 as [err|]; [by intros [= <- <-]|]. specialize (Hs2 eq_refl).
  destruct (checkWriterContext ctx d2) as [err|]; [by intros [= <- <-]|].
  destruct (ensureDestinationAvailable d2 (path_text P) (path_text R)) as [d3 r3] eqn:Hen.
  apply ensure_disk in Hen as (Ht3 & _ & _). destruct r3 as [err|]; [intros [= <- <-]; by rewrite Ht3|].
  cbn [fs_Rename disk_fs]. destruct (disk_Rename d3 (staging, path_text R)) as [d4 r4] eqn:Hr.
  apply (Rename_disk _ _ _ _ _ S R) in Hr as (_ & Hbad & Hgood); [|done|by apply resolve_clean|rewrite Ht3; apply Hs2].
  destruct r4 as [err|]; intros [= <- <-]; (split; [intros Hn|intros Hn]); try done.
  - rewrite Hbad, Ht3 by done. done.
  - destruct (Hgood eq_refl) as (H1 & H2 & ->). rewrite Ht3. split; [by apply snapshot_moved|].
    intros k HkS HkR. rewrite kmap_swap, swap_other by done. by apply Hf2.
Qed.

(** What [writeDirectory] leaves on disk. *)
Lemma write_disk ctx d root files d' r : closed (tree d) -> "/"%char ∉ entropy d -> writeDirectory ctx d root files = (d', r) ->
  tree d' = tree d /\ r <> None
  \/ exists P base, let S := P ++ [staging_name base (entropy d)] in
       resolve root = P ++ [base] /\ clean_key (P ++ [base]) /\ plain base /\ validateLogicalFiles files = None
       /\ tree d !! (P ++ [base]) = None
       /\ (r <> None -> frame S (tree d) (tree d'))
       /\ (r = None -> snapshot_at (tree d') (P ++ [base]) files
             /\ forall k, ~ S `prefix_of` k -> ~ P ++ [base] `prefix_of` k -> tree d' !! k = tree d !! k).
Proof.
  intros Hcl He. unfold writeDirectory. destruct (checkWriterContext ctx d); [intros [= <- <-]; by left|].
  destruct (outputRootParts root) as [[[c parent] base]|] eqn:Ho; [|intros [= <- <-]; by left].
  apply output_root in Ho as (-> & P & HR & Hb & Hroot & Hres & ->).
  destruct (validateLogicalFiles files) as [err|] eqn:Hv; [intros [= <- <-]; by left|].
  destruct (ensureDestinationAvailable d (path_text P) root) as [d1 r1] eqn:H1. apply ensure_disk in H1 as (Ht1 & He1 & H1).
  destruct r1 as [err|]; [intros [= <- <-]; left; by rewrite Ht1|]. destruct (H1 eq_refl) as [HP0 HR0]. rewrite Hres in HR0.
  destruct (clean_key_snoc P base HR ltac:(apply Hb)) as [HP _]. rewrite resolve_clean in HP0 by done.
  destruct (checkWriterContext ctx d1) as [err|]; [intros [= <- <-]; left; by rewrite Ht1|].
  cbn [fs_MkdirTemp fs_RemoveAll disk_fs]. destruct (disk_MkdirTemp d1 _) as [d2 [staging|err]] eqn:H2; unfold disk_MkdirTemp in H2; cbv zeta in H2.
  2: { intros [= <- <-]. left. split; [|done]. rewrite <- Ht1. attempt_in H2; [by injection H2 as <- _|].
       repeat case_match; by simplify_eq. }
  attempt_in H2; [done|]. cbn [tree entropy] in H2. destruct (negb _); [done|]. rewrite resolve_clean, Ht1, He1 in H2 by done.
  set (tmp := (bs "." ++ base ++ bs ".tmp-") ++ entropy d) in *. assert (Htmp : tmp = staging_name base (entropy d)).
  { unfold tmp, staging_name. by rewrite <- !app_assoc. }
  destruct (tree d !! (P ++ [tmp])) eqn:HS0; [done|]. apply pair_equal_spec in H2 as [<- Hst%(inj Ok)]. fold (temp_name (path_text P) tmp) in Hst.
  pose proof (resolve_temp P tmp HP) as [HSr HSne]; [rewrite Htmp; by apply staging_plain|].
  rewrite Hst in HSr, HSne. rewrite Htmp in *. cbn [tree set_tree].
  set (S := P ++ [staging_name base (entropy d)]) in *.
  set (d2 := set_tree (<[S := Directory]> (tree d)) _).
  assert (Hframe : frame S (tree d) (tree d2)).
  { intros k Hk. cbn [d2 tree set_tree]. apply lookup_insert_ne. by intros <-. }
  assert (Hcl2 : closed (tree d2)).
  { intros k e. cbn [d2 tree set_tree]. destruct (decide (k = S)) as [->|Hne]; [by rewrite lookup_insert_eq|]. rewrite (lookup_insert_ne _ S k) by done.
    destruct (decide (k ++ [e] = S)) as [[-> _]%app_inj_tail|Hne']; [done|]. rewrite lookup_insert_ne by done. apply Hcl. }
  destruct (publish_staging ctx d2 (path_text P) root staging files) as [d3 r3] eqn:Hpub.
  rewrite Hroot in Hpub. assert (Hen : entropy d2 = entropy d) by (cbn; by rewrite <- He1).
  apply (publish_disk ctx d2 P base) in Hpub as [Hbad Hgood]; rewrite ?Hen; try done.
  2: { cbn [d2 tree set_tree]. by rewrite lookup_insert_eq. }
  2: { intros s Hs. cbn [d2 tree set_tree]. rewrite lookup_insert_ne; [by apply closed_below|]. rewrite <- (app_nil_r S) at 1.
       intros Hs'%(inj (app S)). congruence. }
  rewrite Hen in Hbad, Hgood. fold S in Hbad, Hgood.
  destruct (disk_RemoveAll d3 staging) as [d4 r4] eqn:Hrm. apply (RemoveAll_disk _ _ S) in Hrm; [|done]. cbn [fst]. intros [= <- <-].
  right. exists P, base. split_and!; [done|done|done|done|done| |].
  - intros Hn. eapply frame_trans; [exact Hframe|]. eapply frame_trans; [by apply Hbad|done].
  - intros Hn. destruct (Hgood Hn) as [Hsnap Hrest].
    assert (Hapart : ~ S `prefix_of` P ++ [base] /\ ~ P ++ [base] `prefix_of` S) by (by apply staging_apart).
    split; [eapply snapshot_frame; [exact Hrm|apply Hapart|apply Hapart|exact Hsnap]|].
    intros k HkS HkR. rewrite Hrm, Hrest by done. by apply Hframe.
Qed.

(** ** Reading it back *)

Definition never (d : disk) : option error := None.

Section ReadBack.
Variable limits : readerLimits.
Variable d : disk.
Variable R : list bytes.
Variable files : list File.
Hypothesis snapshot : snapshot_at (tree d) R files.
Hypothesis valid : Forall (fun f => validSnapshotPath (file_Path f) = true) files.
Hypothesis distinct : NoDup (map file_Path files).
Hypothesis few : Z.of_nat (length files) <= maxFiles limits.
Hypothesis small : Forall (fun f => Z.of_nat (length (file_Data f)) <= maxFileBytes limits) files.
Hypothesis total : sum_lengths files <= maxTotalBytes limits.

(** The elements of a snapshot path *)
Lemma snapshot_segs f : validSnapshotPath (file_Path f) = true ->
  segs f = [bs "registry.json"]
  \/ exists prefix name, segs f = [bs "nodes"; prefix; name] /\ length prefix = 2%nat /\ isLowerHex prefix = true /\ HasSuffix name (bs ".json") = true.
Proof.
  unfold validSnapshotPath, segs. destruct (bytes_eqb_spec (file_Path f) (bs "registry.json")) as [->|_]; [by left|].
  destruct (Split (file_Path f) "/") as [|a [|b [|c [|]]]]; try done. destruct (_ || _) eqn:Hc; [done|]. b2p. intros _. right. exists b, c.
  destruct (bytes_eqb_spec a (bs "nodes")) as [->|]; [|done].
  split_and!; [done| |done|done]. by apply Nat.eqb_eq.
Qed.

Lemma plain_segs f : validSnapshotPath (file_Path f) = true -> Forall plain (segs f).
Proof.
  intros Hv. destruct (snapshot_segs f Hv) as [He|(prefix & name & He & Hl & Hh & Hs)]; rewrite He.
  - constructor; [|done]. apply (bool_decide_unpack _). by vm_compute.
  - pose proof (Split_free (file_Path f) "/") as Hf. fold (segs f) in Hf. rewrite He in Hf.
    apply Forall_cons in Hf as [_ [Hpf [Hnf _]%Forall_cons]%Forall_cons].
    constructor; [apply (bool_decide_unpack _); by vm_compute|]. constructor; [|constructor; [|done]].
    + split_and!; [by intros ->|by intros ->|by intros ->|done].
    + apply HasSuffix_spec in Hs as [t ->]. split_and!; [by destruct t|by destruct t as [|? []]|by destruct t as [|? [|? []]]|done].
Qed.

(** Its directories are directories of a snapshot. *)
Lemma prefix_plain (l s : list bytes) : Forall plain l -> s `prefix_of` l -> Forall plain s.
Proof. intros Hl [t ->]. by apply Forall_app in Hl as [? _]. Qed.

Lemma snapshot_dirs f s : validSnapshotPath (file_Path f) = true -> s `prefix_of` segs f -> s <> segs f -> s <> [] ->
  validSnapshotDirectory (path_text s) = true.
Proof.
  intros Hv Hp Hn Hne. pose proof (prefix_plain _ _ (plain_segs f Hv) Hp) as Hs. destruct (plain_join s Hne Hs) as [_ Hsplit].
  unfold validSnapshotDirectory. rewrite Hsplit. destruct (bytes_eqb_spec (path_text s) (bs "nodes")) as [|Hnodes]; [done|].
  destruct (snapshot_segs f Hv) as [He|(prefix & name & He & Hl & Hh & _)]; rewrite He in *; destruct Hp as [t Ht].
  - destruct s as [|x [|]]; [done| |done]. injection Ht as <- _. done.
  - destruct s as [|x [|y [|z [|]]]]; try done; injection Ht as <-; [done|subst y|by subst y z]. by rewrite Hl, Hh.
Qed.

Lemma text_not_dot f : validSnapshotPath (file_Path f) = true -> path_text (segs f) = file_Path f /\ bytes_eqb (file_Path f) (bs ".") = false.
Proof.
  intros Hv. pose proof (plain_segs f Hv) as Hp. destruct (plain_join (segs f) (Split_nonempty _ _) Hp) as [Ht _].
  assert (Hpt : path_text (segs f) = file_Path f) by (rewrite Ht; apply Join_Split). split; [done|].
  destruct (bytes_eqb_spec (file_Path f) (bs ".")) as [He|]; [|done]. rewrite <- Hpt in He. apply text_dot in He; [|done].
  exfalso. by apply (Split_nonempty (file_Path f) "/").
Qed.

(** What is left to read *)
Definition unread (st : reader_state) (f : File) : Prop := f ∉ read_files st.
Record reading (st : reader_state) : Prop := {
  rd_ok : reader_ok limits st;
  rd_nodup : NoDup (read_files st);
  rd_files : forall f, f ∈ read_files st -> f ∈ files;
}.

Lemma sum_lengths_submseteq l k : l ⊆+ k -> sum_lengths l <= sum_lengths k.
Proof.
  induction 1 as [|x l k _ IH|x y l|x l k _ IH|l1 l2 l3 _ IH1 _ IH2]; cbn [sum_lengths fold_right] in *; unfold sum_lengths in *; lia.
Qed.

Lemma room st f : reading st -> f ∈ files -> f ∉ read_files st ->
  Z.of_nat (length (read_files st)) < maxFiles limits
  /\ Z.of_nat (length (file_Data f)) <= maxTotalBytes limits - read_total st /\ Z.of_nat (length (file_Data f)) <= maxFileBytes limits.
Proof.
  intros [[_ [Ht _] _ _] Hnd Hin] Hf Hn. assert (Hsub : f :: read_files st ⊆+ files).
  { apply NoDup_submseteq; [by apply NoDup_cons|]. intros g [->|Hg]%elem_of_cons; [done|by apply Hin]. }
  pose proof (submseteq_length _ _ Hsub) as Hl. apply sum_lengths_submseteq in Hsub. cbn [length sum_lengths fold_right] in *.
  fold (sum_lengths (read_files st)) in Hsub. rewrite Forall_forall in small. specialize (small f Hf). lia.
Qed.

Lemma visit_file st f : reading st -> f ∈ files -> f ∉ read_files st ->
  exists st', visit limits (Some never) d R st (file_Path f) (Ok KindRegular) = (d, Ok st')
    /\ read_files st' = read_files st ++ [f] /\ reading st'.
Proof.
  intros Hst Hf Hn. destruct (room st f Hst Hf Hn) as (Hc & Ht & Hs). pose proof Hst as [Hok Hnd Hin].
  assert (Hv : validSnapshotPath (file_Path f) = true) by (rewrite Forall_forall in valid; by apply valid).
  destruct (text_not_dot f Hv) as [Hpt Hdot]. pose proof (sa_file _ _ _ snapshot f Hf) as Hnode.
  assert (Hres : resolve (file_Path f) = segs f) by (rewrite <- Hpt; by apply resolve_text, plain_segs).
  assert (Hvis : visit limits (Some never) d R st (file_Path f) (Ok KindRegular) = (d, Ok (mkReader (read_files st ++ [f])
    (read_total st + Z.of_nat (length (file_Data f))) (has_registry st || bytes_eqb (file_Path f) (bs "registry.json"))))).
  { unfold visit. cbn [checkReaderContext never]. rewrite Hdot. cbn [IsSymlink IsDir]. rewrite Hv. cbn [negb dir_Lstat disk_directory fst snd].
    rewrite Hres, Hnode. cbn [node_kind IsSymlink IsRegular negb orb].
    rewrite (proj2 (Z.leb_gt _ _) Hc). cbv zeta. unfold readSnapshotFile. cbn [dir_Open file_Stat file_ReadAll disk_directory fst snd].
    rewrite Hres, Hnode. cbn [node_kind IsSymlink IsRegular negb orb]. set (limit := if _ <? _ then _ else _).
    assert (Hlim : Z.of_nat (length (file_Data f)) <= limit) by (unfold limit; destruct (_ <? _); lia).
    rewrite Hnode, firstn_all2 by lia. rewrite (proj2 (Z.ltb_ge _ _)) by lia. by destruct f. }
  eexists. split; [exact Hvis|]. split; [done|]. split.
  - eapply visit_ok; [exact Hok|exact Hvis].
  - cbn [read_files]. apply NoDup_app. split_and!; [done| |apply NoDup_singleton]. intros g Hg ->%list_elem_of_singleton. done.
  - intros g [Hg| ->%list_elem_of_singleton]%elem_of_app; [by apply Hin|done].
Qed.

Lemma node_at f s : f ∈ files -> s `prefix_of` segs f ->
  exists n, tree d !! (R ++ s) = Some n /\ (s = segs f /\ n = Regular (file_Data f) \/ s <> segs f /\ n = Directory).
Proof.
  intros Hf Hp. destruct (decide (s = segs f)) as [->|Hne].
  - exists (Regular (file_Data f)). split; [by apply (sa_file _ _ _ snapshot)|by left].
  - exists Directory. split; [by eapply (sa_dir _ _ _ snapshot)|by right].
Qed.

Lemma file_unique f g : f ∈ files -> g ∈ files -> segs f `prefix_of` segs g -> f = g.
Proof.
  intros Hf Hg Hp. apply (key_inj file_Path files); [done|done|done|]. apply segs_inj. destruct (decide (segs f = segs g)) as [|Hne]; [done|].
  pose proof (sa_dir _ _ _ snapshot g (segs f) Hg Hp Hne) as Hd. by rewrite (sa_file _ _ _ snapshot f Hf) in Hd.
Qed.

(** A directory of the tree is visited without a complaint. *)
Lemma visit_dir s st : tree d !! (R ++ s) = Some Directory ->
  Forall plain s /\ visit limits (Some never) d R st (path_text s) (Ok KindDirectory) = (d, Ok st).
Proof.
  intros Hn. destruct (sa_only _ _ _ snapshot s _ Hn) as [->|(f & Hf & [[_ ?]|(Hp & Hne & _)])]; [done|done|].
  assert (Hv : validSnapshotPath (file_Path f) = true) by (rewrite Forall_forall in valid; by apply valid).
  pose proof (prefix_plain _ _ (plain_segs f Hv) Hp) as Hs. split; [done|]. unfold visit. cbn [checkReaderContext never IsSymlink IsDir].
  destruct (bytes_eqb_spec (path_text s) (bs ".")); [done|]. rewrite (snapshot_dirs f s Hv Hp Hne); [done|]. by intros ->.
Qed.

Definition reads (P : File -> Prop) (st st' : reader_state) : Prop :=
  reading st' /\ forall f, f ∈ read_files st' <-> f ∈ read_files st \/ f ∈ files /\ P f.

Lemma walk_entries_back (step : disk -> reader_state -> bytes -> FileKind -> option (disk * res error reader_state)) s entries st :
  Forall plain s -> NoDup (map fst entries) ->
  (forall e k, (e, k) ∈ entries -> plain e /\ exists n, tree d !! (R ++ s ++ [e]) = Some n /\ k = node_kind n) ->
  (forall e n st, tree d !! (R ++ s ++ [e]) = Some n -> reading st -> (forall f, f ∈ read_files st -> ~ s ++ [e] `prefix_of` segs f) ->
     exists st', step d st (path_text (s ++ [e])) (node_kind n) = Some (d, Ok st') /\ reads (fun f => s ++ [e] `prefix_of` segs f) st st') ->
  reading st -> (forall f e, f ∈ read_files st -> e ∈ map fst entries -> ~ s ++ [e] `prefix_of` segs f) ->
  exists st', walk_entries step (path_text s) entries d st = Some (d, Ok st')
    /\ reads (fun f => exists e, e ∈ map fst entries /\ s ++ [e] `prefix_of` segs f) st st'.
Proof.
  intros Hs Hnd Hent Hstep. revert st. induction entries as [|[e k] entries IH]; intros st Hst Hun; cbn [walk_entries].
  { exists st. split; [done|]. split; [done|]. intros f. split; [by left|]. intros [?|(_ & e & ?%elem_of_nil & _)]; done. }
  cbn [map fst] in *. apply NoDup_cons in Hnd as [He Hnd]. destruct (Hent e k) as [Hp (n & Hn & ->)]; [by left|].
  rewrite path_Join_child by done. destruct (Hstep e n st Hn Hst) as (st1 & -> & Hst1 & Hr1).
  { intros f Hf. apply (Hun f e Hf). by left. }
  destruct (IH Hnd ltac:(intros; apply Hent; by right) st1 Hst1) as (st2 & -> & Hst2 & Hr2).
  { intros f e' [Hf|[Hf Hpf]]%Hr1 He' Hp'; [by apply (Hun f e' Hf); [right|]|].
    destruct Hpf as [t1 H1], Hp' as [t2 H2]. rewrite H1, <- !app_assoc in H2. apply (inj (app s)) in H2. cbn in H2. injection H2 as -> _. done. }
  exists st2. split; [done|]. split; [done|]. intros f. rewrite Hr2, Hr1. split.
  - intros [[?|[Hf Hpf]]|(Hf & e' & He' & Hpf)]; [by left|right; split; [done|]; exists e; split; [by left|done]|].
    right. split; [done|]. exists e'. split; [by right|done].
  - intros [?|(Hf & e' & [->|He']%elem_of_cons & Hpf)]; [by left; left|by left; right|]. right. split; [done|]. by exists e'.
Qed.

Lemma walk_back fuel s n st : (walk_depth <= length s + fuel)%nat -> (0 < fuel)%nat -> tree d !! (R ++ s) = Some n ->
  reading st -> (forall f, f ∈ read_files st -> ~ s `prefix_of` segs f) ->
  exists st', walk limits fuel (Some never) R d st (path_text s) (node_kind n) = Some (d, Ok st') /\ reads (fun f => s `prefix_of` segs f) st st'.
Proof.
  revert s n st. induction fuel as [|fuel IH]; intros s n st Hfuel Hpos Hn Hst Hun; [lia|]. cbn [walk].
  destruct (decide (n = Directory)) as [->|Hnd].
  - destruct (visit_dir s st Hn) as [Hs Hvis]. cbn [node_kind]. rewrite Hvis. cbn [IsDir negb dir_ReadDir disk_directory fst snd].
    rewrite resolve_text by done. unfold is_directory. rewrite Hn.
    assert (Hdepth : (length s <= 2)%nat).
    { destruct (decide (s = [])) as [->|Hne]; [cbn; lia|]. apply snapshot_directory_depth; [done|done|].
      destruct (sa_only _ _ _ snapshot s _ Hn) as [->|(f & Hf & [[_ ?]|(Hp & Hsf & _)])]; [done|done|].
      eapply snapshot_dirs; [|exact Hp|done|done]. rewrite Forall_forall in valid. by apply valid. }
    destruct (walk_entries_back (@walk disk disk_directory limits fuel (Some never) R) s (children (tree d) (R ++ s)) st Hs) as (st' & Hw & Hst' & Hr).
    + apply children_nodup.
    + intros e k (n & He & -> & Hp)%children_elem. rewrite <- app_assoc in He. split; [done|]. by exists n.
    + intros e n st1 He Hst1 Hun1. apply IH; try done; [rewrite length_app; cbn; lia|unfold walk_depth in Hfuel; lia].
    + done.
    + intros f e Hf _ Hp. apply (Hun f Hf). etransitivity; [|exact Hp]. by apply prefix_app_r.
    + exists st'. split; [exact Hw|]. split; [done|]. intros f. rewrite Hr. split; (intros [?|[Hf Hp]]; [by left|right; split; [done|]]).
      * destruct Hp as (e & _ & Hp). etransitivity; [|exact Hp]. by apply prefix_app_r.
      * destruct Hp as [t Ht]. destruct t as [|e t].
        { exfalso. rewrite app_nil_r in Ht. rewrite <- Ht in Hn. by rewrite (sa_file _ _ _ snapshot f Hf) in Hn. }
        assert (Hpe : s ++ [e] `prefix_of` segs f) by (exists t; by rewrite Ht, <- app_assoc).
        exists e. split; [|done]. rewrite list_elem_of_In, in_map_iff. destruct (node_at f (s ++ [e]) Hf Hpe) as (n & Hn' & _).
        exists (e, node_kind n). split; [done|]. apply list_elem_of_In, children_elem. exists n. rewrite <- app_assoc. split_and!; [done|done|].
        assert (Hv : validSnapshotPath (file_Path f) = true) by (rewrite Forall_forall in valid; by apply valid).
        pose proof (prefix_plain _ _ (plain_segs f Hv) Hpe) as Hpl. by apply Forall_app in Hpl as [_ [? _]%Forall_cons].
  - destruct (sa_only _ _ _ snapshot s n Hn) as [->|(f & Hf & [[-> ->]|(_ & _ & ?)])]; [|clear Hnd|done].
    { rewrite app_nil_r, (sa_root _ _ _ snapshot) in Hn. by injection Hn as <-. }
    assert (Hv : validSnapshotPath (file_Path f) = true) by (rewrite Forall_forall in valid; by apply valid).
    rewrite (proj1 (text_not_dot f Hv)). cbn [node_kind].
    destruct (visit_file st f Hst Hf) as (st' & -> & Hfiles & Hst'); [intros Hin; by apply (Hun f Hin)|]. cbn [IsDir negb].
    exists st'. split; [done|]. split; [done|]. intros g. rewrite Hfiles, elem_of_app, list_elem_of_singleton. split.
    + intros [?| ->]; [by left|by right].
    + intros [?|[Hg Hp]]; [by left|right]. symmetry. by apply file_unique.
Qed.

Lemma read_back root : root <> [] -> resolve root = R -> (exists f, f ∈ files /\ file_Path f = bs "registry.json") ->
  readDirectory limits (Some never) d root = Some (d, Ok (sort_by file_Path files)).
Proof.
  intros Hroot Hres Hreg. pose proof (sa_root _ _ _ snapshot) as HR. unfold readDirectory. cbn [checkReaderContext never].
  destruct (bytes_eqb_spec root []); [done|]. cbn [openDirectory disk_directory]. unfold openSnapshotDirectory, stat_node.
  rewrite Hres, HR. cbn [node_kind IsSymlink IsDir negb orb]. cbv zeta. cbn [dir_StatRoot disk_directory]. rewrite HR.
  destruct (walk_back walk_depth [] Directory (mkReader [] 0 false)) as (st & Hw & [Hok Hnd Hin] & Hr).
  - cbn. lia.
  - unfold walk_depth. lia.
  - by rewrite app_nil_r.
  - split; cbn; [|constructor|by intros f ?%elem_of_nil].
    split; cbn; [lia|lia|constructor|]. split; [done|]. by intros (f & ?%elem_of_nil & _).
  - by intros f ?%elem_of_nil.
  - change (path_text []) with (bs ".") in Hw. cbn [node_kind] in *. rewrite Hw.
    assert (Hperm : read_files st ≡ₚ files).
    { apply NoDup_Permutation; [done|by apply (NoDup_fmap_1 file_Path)|]. intros f. rewrite Hr. cbn. split.
      - intros [?%elem_of_nil|[? _]]; done.
      - intros Hf. right. split; [done|apply prefix_nil]. }
    assert (Hg : has_registry st = true) by (apply (ro_registry _ _ Hok); destruct Hreg as (f & Hf & Hp); exists f; by rewrite Hperm).
    rewrite Hg. cbn [negb]. do 3 f_equal. symmetry. apply sort_by_unique; [done|done].
Qed.
End ReadBack.

(** C31: What is written is what is read. On a file system whose operations
    may fail at any point, a call of the writer that reports an error has
    changed nothing outside its staging directory, and in particular nothing at
    the destination; one that reports success has put exactly the snapshot
    at the destination and changed nothing else, and the reader returns the
    same files, byte for byte, in lexical order of their paths, if they are
    registry paths and within the reader's limits. *)
Theorem snapshot_roundtrip limits ctx d root files d' r :
  closed (tree d) -> "/"%char ∉ entropy d -> writeDirectory ctx d root files = (d', r) ->
  match r with
  | Some _ => exists staging, frame staging (tree d) (tree d') /\ forall s, tree d' !! (resolve root ++ s) = tree d !! (resolve root ++ s)
  | None =>
      snapshot_at (tree d') (resolve root) files
      /\ (exists staging, forall k, ~ staging `prefix_of` k -> ~ resolve root `prefix_of` k -> tree d' !! k = tree d !! k)
      /\ (Forall (fun f => validSnapshotPath (file_Path f) = true) files ->
           (exists f, f ∈ files /\ file_Path f = bs "registry.json") ->
           Z.of_nat (length files) <= maxFiles limits ->
           Forall (fun f => Z.of_nat (length (file_Data f)) <= maxFileBytes limits) files ->
           sum_lengths files <= maxTotalBytes limits ->
           readDirectory limits (Some never) d' root = Some (d', Ok (sort_by file_Path files)))
  end.
Proof.
  intros Hcl He Hw. destruct (write_disk _ _ _ _ _ _ Hcl He Hw) as [[Ht Hr]|(P & base & Hres & HR & Hb & Hv & Habs & Hbad & Hgood)].
  - destruct r as [err|]; [|done]. exists []. by rewrite Ht.
  - rewrite Hres. destruct (staging_apart P base (entropy d) Hb) as [H1 H2]. destruct r as [err|].
    + exists (P ++ [staging_name base (entropy d)]). specialize (Hbad ltac:(done)). split; [done|]. intros s. apply Hbad.
      by apply apart_new.
    + destruct (Hgood eq_refl) as [Hsnap Hrest]. split_and!; [done|by eexists|].
      destruct (validate_files_ok ∅ files Hv) as (_ & Hnd & _).
      intros Hval Hreg Hfew Hsmall Htot. eapply read_back; try done.
      intros ->. by destruct P.
Qed.
