(* ===== verification/GitHubPublish.v ===== *)
(** * Publication through the Git Database API of GitHub
      ([internal/githubpublish/publisher.go])

    The publisher against the interface of its HTTP client. Requests carry the
    JSON value of their body; [json.Unmarshal] into the response structs is an
    interface. *)

From S2P Require Import Prelude GoText GoErrors GoUrl GoNetip GoJson GoTime GoEncoding Netguard PublicData.

Definition githubAPIBase : bytes := bs "https://api.github.com".
Definition githubAPIVersion : bytes := bs "2026-03-10".
Definition githubAccept : bytes := bs "application/vnd.github+json".
Definition githubUserAgent : bytes := bs "Joshternet-Joshbot".
Definition publicationCommitMessage : bytes := bs "Publish Joshternet registry".
Definition sentinelPath : bytes := bs ".joshbot-registry-target".
Definition sentinelContents : bytes := bs "joshbot-registry-v1" ++ [chr 10].
Definition maxPublicationFiles : Z := 4097.
Definition maxPublicationFileBytes : Z := 8 * 1024 * 1024.
Definition maxPublicationTotalBytes : Z := 32 * 1024 * 1024.
Definition maxGitHubResponseBytes : Z := 4 * 1024 * 1024.

Record Config : Type := mkConfig { Owner : bytes; Repository : bytes; Branch : bytes }.
Record Result : Type := mkResult { Changed : bool; CommitSHA : bytes }.
Record Publisher : Type := mkPublisher { config : Config; token : bytes; apiBase : URL }.

(** ** Validation *)

(** The control characters are single bytes in UTF-8. *)
Definition hasControlCharacter (value : bytes) : bool := existsb (fun c => (code c <? 32) || (code c =? 127)) value.

Definition validPathComponent (value : bytes) : bool :=
  negb (bytes_eqb value []) && bytes_eqb (TrimSpace value) value && negb (bytes_eqb value (bs ".")) && negb (bytes_eqb value (bs ".."))
  && negb (ContainsAny value (bs "/\")) && negb (hasControlCharacter value).

Definition validBranch (value : bytes) : bool :=
  validPathComponent value && negb (ContainsText value (bs "..")) && negb (HasPrefix value (bs "refs/")).

Definition validConfig (c : Config) : bool :=
  validPathComponent (Owner c) && validPathComponent (Repository c) && validBranch (Branch c).

Definition validToken (token : bytes) : bool :=
  negb (bytes_eqb token []) && bytes_eqb (TrimSpace token) token && negb (hasControlCharacter token).

(** A usable publisher: nil, which [New] never returns, is not modelled. *)
Definition publisher_valid (p : Publisher) : bool := validConfig (config p) && validToken (token p).

Definition newPublisher `{NetURL} (config : Config) (token apiBaseValue : bytes) : res error Publisher :=
  if negb (validConfig config) then Err (errors_New githubpublish_ErrInvalidConfig)
  else if negb (validToken token) then Err (errors_New ErrInvalidToken)
  else
    match url_Parse apiBaseValue with
    | None => Err (errors_New githubpublish_ErrInvalidConfig)
    | Some base =>
        if negb (bytes_eqb (Scheme base) (bs "https")) && negb (bytes_eqb (Scheme base) (bs "http"))
          || bytes_eqb (Host base) [] || bool_decide (User base <> None) || negb (bytes_eqb (RawQuery base) [])
          || negb (bytes_eqb (Fragment base) []) || negb (bytes_eqb (Path base) []) && negb (bytes_eqb (Path base) (bs "/"))
        then Err (errors_New githubpublish_ErrInvalidConfig)
        else Ok (mkPublisher config token base)
    end.
Definition New `{NetURL} (config : Config) (token : bytes) : res error Publisher := newPublisher config token githubAPIBase.

(** ** Snapshots *)

Definition lowerHex (value : bytes) : bool :=
  forallb (fun c => (in_range "0" "9" c) || (in_range "a" "f" c)) value && negb (bytes_eqb value []).

Definition validPublicationPath (path : bytes) : bool :=
  if bytes_eqb path (bs "registry.json") then true
  else
    match Split path "/" with
    | [nodes; prefix; name] =>
        if negb (bytes_eqb nodes (bs "nodes")) || negb (length prefix =? 2)%nat || negb (lowerHex prefix)
          || negb (HasSuffix name (bs ".json"))
        then false
        else
          let hash := TrimSuffix name (bs ".json") in
          (length hash =? 64)%nat && lowerHex hash && HasPrefix hash prefix
    | _ => false
    end.

Fixpoint check_snapshot (previousPath : bytes) (totalBytes : Z) (hasRegistry : bool) (files : list File) : option bool :=
  match files with
  | [] => Some hasRegistry
  | file :: rest =>
      if negb (validPublicationPath (file_Path file)) || bytes_eqb (file_Path file) previousPath
        || (maxPublicationFileBytes <? Z.of_nat (length (file_Data file)))
      then None
      else
        let totalBytes := totalBytes + Z.of_nat (length (file_Data file)) in
        if maxPublicationTotalBytes <? totalBytes then None
        else check_snapshot (file_Path file) totalBytes (hasRegistry || bytes_eqb (file_Path file) (bs "registry.json")) rest
  end.

Definition prepareSnapshot (files : list File) : res error (list File) :=
  if (length files =? 0)%nat || (maxPublicationFiles <? Z.of_nat (length files)) then Err (errors_New ErrInvalidSnapshot)
  else
    let ordered := sort_by file_Path files in
    match check_snapshot [] 0 false ordered with
    | Some true => Ok ordered
    | _ => Err (errors_New ErrInvalidSnapshot)
    end.

(** ** Requests *)

(** [url.PathEscape] *)
Definition segment_byte (c : ascii) : bool := is_alpha c || is_digit c || Contains (bs "-_.~$&+=:@") c.
Definition upper_hex (v : Z) : ascii := if v <? 10 then chr (48 + v) else chr (55 + v).
Definition PathEscape (s : bytes) : bytes :=
  concat (map (fun c => if segment_byte c then [c] else ["%"%char; upper_hex (code c / 16); upper_hex (code c mod 16)]) s).

Record request : Type := mkRequest {
  req_method : bytes;
  req_url : URL;
  req_headers : list (bytes * bytes);
  req_input : option json;
}.

(** [Body] is what reading it yields. *)
Record response : Type := mkResponse { StatusCode : Z; Body : res error bytes }.

Record object : Type := mkObject { object_Type : bytes; object_SHA : bytes }.
Record treeEntry : Type := mkTreeEntry { entry_path : bytes; entry_mode : bytes; entry_type : bytes; entry_sha : bytes }.
Record commitResponse : Type := mkCommitResponse { commit_SHA : bytes; commit_Tree : bytes }.
Record treeResponse : Type := mkTreeResponse { tree_SHA : bytes; tree_Tree : list treeEntry; Truncated : bool }.
Record blobResponse : Type := mkBlobResponse { blob_SHA : bytes; blob_Content : bytes; blob_Encoding : bytes; blob_Size : Z }.

(** [json.Unmarshal] of a response body *)
Class GitHubJSON := {
  decode_reference : bytes -> option object;
  decode_commit : bytes -> option commitResponse;
  decode_tree : bytes -> option treeResponse;
  decode_blob : bytes -> option blobResponse;
  decode_object : bytes -> option bytes;
}.

(** The HTTP client; it does not follow redirects and uses no proxy. *)
Class GitHubClient (W : Type) := { client_Do : call W request (res error response) }.

Definition treeEntry_json (e : treeEntry) : json :=
  JObject [(bs "path", JString (entry_path e)); (bs "mode", JString (entry_mode e)); (bs "type", JString (entry_type e));
    (bs "sha", JString (entry_sha e))].
Definition createBlobRequest (content : bytes) : json :=
  JObject [(bs "content", JString content); (bs "encoding", JString (bs "base64"))].
Definition createTreeRequest (entries : list treeEntry) : json := JObject [(bs "tree", JArray (map treeEntry_json entries))].
Definition createCommitRequest (message treeSHA : bytes) (parents : list bytes) : json :=
  JObject [(bs "message", JString message); (bs "tree", JString treeSHA); (bs "parents", JArray (map JString parents))].
Definition updateReferenceRequest (sha : bytes) (force : bool) : json :=
  JObject [(bs "sha", JString sha); (bs "force", JBool force)].

(** [errors.As] finds the first status error of the chain. *)
Fixpoint status_of (err : error) : option Z :=
  match err with
  | [] => None
  | githubStatusError statusCode :: _ => Some statusCode
  | _ :: rest => status_of rest
  end.
Definition isReferenceConflict (err : error) : bool :=
  match status_of err with
  | Some statusCode => (statusCode =? 409) || (statusCode =? 422)
  | None => false
  end.

Section Publish.
Context {W : Type} `{NetURL} `{GitHubJSON} `{GitHubClient W}.
Variable publisher : Publisher.
Variable ctx_Err : W -> option error.

Definition repositoryPath : bytes :=
  bs "/repos/" ++ PathEscape (Owner (config publisher)) ++ bs "/" ++ PathEscape (Repository (config publisher)).

Definition endpoint (path : bytes) : URL :=
  let base := apiBase publisher in
  mkURL (Scheme base) (Opaque base) (User base) (Host base)
    (rev (TrimLeftFunc (byte_eqb "/") (rev (Path base))) ++ path) [] (ForceQuery base) [] [] (RawFragment base).

Definition request_headers (input : option json) : list (bytes * bytes) :=
  [(bs "Accept", githubAccept); (bs "Authorization", bs "Bearer " ++ token publisher);
   (bs "X-GitHub-Api-Version", githubAPIVersion); (bs "User-Agent", githubUserAgent)]
  ++ match input with Some _ => [(bs "Content-Type", bs "application/json")] | None => [] end.

Definition requestJSON {A} (w : W) (method path : bytes) (input : option json) (expectedStatus : Z) (decode : bytes -> option A)
    : W * res error A :=
  match ctx_Err w with
  | Some err => (w, Err err)
  | None =>
      match url_Parse (url_String (endpoint path)) with
      | None => (w, Err (wrap (errors_New (foreign 0))))
      | Some target =>
          match client_Do w (mkRequest method target (request_headers input) input) with
          | (w, Err err) => match ctx_Err w with Some ctxErr => (w, Err ctxErr) | None => (w, Err (wrap err)) end
          | (w, Ok response) =>
              if negb (StatusCode response =? expectedStatus) then (w, Err (errors_New (githubStatusError (StatusCode response))))
              else
                match Body response with
                | Err err => (w, Err (wrap err))
                | Ok stream =>
                    let body := take (Z.to_nat (maxGitHubResponseBytes + 1)) stream in
                    if maxGitHubResponseBytes <? Z.of_nat (length body) then (w, Err (errors_New ErrGitHubResponseTooLarge))
                    else
                      match decode body with
                      | None => (w, Err (errors_New ErrInvalidGitHubResponse))
                      | Some output => (w, Ok output)
                      end
                end
          end
      end
  end.

Definition currentHead (w : W) : W * res error bytes :=
  match requestJSON w (bs "GET") (repositoryPath ++ bs "/git/ref/heads/" ++ PathEscape (Branch (config publisher))) None 200 decode_reference with
  | (w, Err err) => (w, Err err)
  | (w, Ok response) =>
      if negb (bytes_eqb (object_Type response) (bs "commit")) || bytes_eqb (object_SHA response) []
      then (w, Err (errors_New ErrInvalidGitHubResponse)) else (w, Ok (object_SHA response))
  end.

Definition commitTree (w : W) (commitSHA : bytes) : W * res error bytes :=
  match requestJSON w (bs "GET") (repositoryPath ++ bs "/git/commits/" ++ PathEscape commitSHA) None 200 decode_commit with
  | (w, Err err) => (w, Err err)
  | (w, Ok response) =>
      if bytes_eqb (commit_SHA response) [] || bytes_eqb (commit_Tree response) []
      then (w, Err (errors_New ErrInvalidGitHubResponse)) else (w, Ok (commit_Tree response))
  end.

(** The one entry of the root tree that can be the sentinel *)
Fixpoint find_sentinel (sentinelSHA : bytes) (entries : list treeEntry) : res error bytes :=
  match entries with
  | [] => if bytes_eqb sentinelSHA [] then Err (errors_New ErrUnsafeTarget) else Ok sentinelSHA
  | entry :: rest =>
      if negb (bytes_eqb (entry_path entry) sentinelPath) then find_sentinel sentinelSHA rest
      else if negb (bytes_eqb sentinelSHA []) || negb (bytes_eqb (entry_mode entry) (bs "100644"))
             || negb (bytes_eqb (entry_type entry) (bs "blob")) || bytes_eqb (entry_sha entry) []
      then Err (errors_New ErrUnsafeTarget)
      else find_sentinel (entry_sha entry) rest
  end.

Definition verifySentinel (w : W) (treeSHA : bytes) : W * res error bytes :=
  match requestJSON w (bs "GET") (repositoryPath ++ bs "/git/trees/" ++ PathEscape treeSHA) None 200 decode_tree with
  | (w, Err err) => (w, Err err)
  | (w, Ok response) =>
      if bytes_eqb (tree_SHA response) [] || Truncated response then (w, Err (errors_New ErrUnsafeTarget))
      else
        match find_sentinel [] (tree_Tree response) with
        | Err err => (w, Err err)
        | Ok sentinelSHA =>
            match requestJSON w (bs "GET") (repositoryPath ++ bs "/git/blobs/" ++ PathEscape sentinelSHA) None 200 decode_blob with
            | (w, Err err) => (w, Err err)
            | (w, Ok blob) =>
                if negb (bytes_eqb (blob_Encoding blob) (bs "base64")) || negb (blob_Size blob =? Z.of_nat (length sentinelContents))
                then (w, Err (errors_New ErrUnsafeTarget))
                else
                  match base64_Decode base64_Std (blob_Content blob) with
                  | None => (w, Err (errors_New ErrUnsafeTarget))
                  | Some decoded =>
                      if negb (bytes_eqb decoded sentinelContents) then (w, Err (errors_New ErrUnsafeTarget)) else (w, Ok sentinelSHA)
                  end
            end
        end
  end.

(** [createBlob], [createTree] and [createCommit] post an object and want its
    name. *)
Definition create (w : W) (path : bytes) (input : json) : W * res error bytes :=
  match requestJSON w (bs "POST") (repositoryPath ++ path) (Some input) 201 decode_object with
  | (w, Err err) => (w, Err err)
  | (w, Ok sha) => if bytes_eqb sha [] then (w, Err (errors_New ErrInvalidGitHubResponse)) else (w, Ok sha)
  end.
Definition createBlob (w : W) (data : bytes) : W * res error bytes :=
  create w (bs "/git/blobs") (createBlobRequest (base64_Encode base64_Std data)).
Definition createTree (w : W) (entries : list treeEntry) : W * res error bytes :=
  create w (bs "/git/trees") (createTreeRequest entries).
Definition createCommit (w : W) (treeSHA parentSHA : bytes) : W * res error bytes :=
  create w (bs "/git/commits") (createCommitRequest publicationCommitMessage treeSHA [parentSHA]).

Definition updateReference (w : W) (commitSHA : bytes) : W * option error :=
  match requestJSON w (bs "PATCH") (repositoryPath ++ bs "/git/refs/heads/" ++ PathEscape (Branch (config publisher)))
          (Some (updateReferenceRequest commitSHA false)) 200 decode_reference with
  | (w, Err err) => (w, Some err)
  | (w, Ok response) =>
      if negb (bytes_eqb (object_Type response) (bs "commit")) || negb (bytes_eqb (object_SHA response) commitSHA)
      then (w, Some (errors_New ErrInvalidGitHubResponse)) else (w, None)
  end.

Definition reconcileReferenceConflict (w : W) (desiredTreeSHA : bytes) : W * res error Result :=
  match currentHead w with
  | (w, Err err) => (w, Err err)
  | (w, Ok currentHeadSHA) =>
      match commitTree w currentHeadSHA with
      | (w, Err err) => (w, Err err)
      | (w, Ok currentTreeSHA) =>
          if negb (bytes_eqb currentTreeSHA desiredTreeSHA) then (w, Err (errors_New ErrPublicationConflict))
          else (w, Ok (mkResult false currentHeadSHA))
      end
  end.

Fixpoint create_blobs (w : W) (files : list File) : W * res error (list treeEntry) :=
  match files with
  | [] => (w, Ok [])
  | file :: rest =>
      match createBlob w (file_Data file) with
      | (w, Err err) => (w, Err err)
      | (w, Ok blobSHA) =>
          match create_blobs w rest with
          | (w, Err err) => (w, Err err)
          | (w, Ok entries) => (w, Ok (mkTreeEntry (file_Path file) (bs "100644") (bs "blob") blobSHA :: entries))
          end
      end
  end.

Definition sentinel_entry (sha : bytes) : treeEntry := mkTreeEntry sentinelPath (bs "100644") (bs "blob") sha.

(** The writes of a publication, once the target is known to be safe *)
Definition publish_tree (w : W) (headSHA currentTreeSHA sentinelSHA : bytes) (orderedFiles : list File) : W * res error Result :=
  match create_blobs w orderedFiles with
  | (w, Err err) => (w, Err err)
  | (w, Ok entries) =>
      match createTree w (sentinel_entry sentinelSHA :: entries) with
      | (w, Err err) => (w, Err err)
      | (w, Ok newTreeSHA) =>
          if bytes_eqb newTreeSHA currentTreeSHA then (w, Ok (mkResult false headSHA))
          else
            match createCommit w newTreeSHA headSHA with
            | (w, Err err) => (w, Err err)
            | (w, Ok commitSHA) =>
                match updateReference w commitSHA with
                | (w, Some updateErr) =>
                    if negb (isReferenceConflict updateErr) then (w, Err updateErr) else reconcileReferenceConflict w newTreeSHA
                | (w, None) => (w, Ok (mkResult true commitSHA))
                end
            end
      end
  end.

Definition publish (w : W) (files : list File) : W * res error Result :=
  match ctx_Err w with
  | Some err => (w, Err err)
  | None =>
      if negb (publisher_valid publisher) then (w, Err (errors_New ErrInvalidPublisher))
      else
        match prepareSnapshot files with
        | Err err => (w, Err err)
        | Ok orderedFiles =>
            match currentHead w with
            | (w, Err err) => (w, Err err)
            | (w, Ok headSHA) =>
                match commitTree w headSHA with
                | (w, Err err) => (w, Err err)
                | (w, Ok currentTreeSHA) =>
                    match verifySentinel w currentTreeSHA with
                    | (w, Err err) => (w, Err err)
                    | (w, Ok sentinelSHA) => publish_tree w headSHA currentTreeSHA sentinelSHA orderedFiles
                    end
                end
            end
        end
  end.
End Publish.

(** [Publish] with the nil context *)
Definition Publish {W} `{NetURL} `{GitHubJSON} `{GitHubClient W} (publisher : Publisher) (ctx : context W) (w : W) (files : list File)
    : W * res error Result :=
  match ctx with None => (w, Err (errors_New Canceled)) | Some err => publish publisher err w files end.
