(* ===== verification/GitHubServer.v ===== *)
(** * The Git Database API the publisher talks to

    GitHub is not part of the program. This file states what its documentation
    promises of a successful response, as an interface against which the
    publication is proved, and then what the publisher asks of any client, in
    which order. *)

From S2P Require Import Prelude GoText GoErrors GoUrl GoNetip GoJson GoTime GoEncoding Netguard PublicData GitHubPublish.

#[local] Set Warnings "-clear-no-such-hyp".

(** A tree as its files: for every path its mode, type and object. *)
Abbreviation tree_files := (gmap bytes (bytes * bytes * bytes)).

(** The objects and branches of a repository at one moment *)
Record git : Type := mkGit {
  blobs : gmap bytes bytes;
  trees : gmap bytes tree_files;
  commits : gmap bytes (bytes * list bytes);
  refs : gmap bytes bytes;
}.

Definition files_of (entries : list treeEntry) : tree_files :=
  list_to_map (map (fun e => (entry_path e, (entry_mode e, entry_type e, entry_sha e))) entries).

(** Objects are never taken away or changed; branches move. *)
Record grows (g g' : git) : Prop := {
  gr_blobs : blobs g ⊆ blobs g';
  gr_trees : trees g ⊆ trees g';
  gr_commits : commits g ⊆ commits g';
}.
#[export] Instance grows_preorder : PreOrder grows.
Proof. split; [by intros g|]. intros a b c [] []. split; by etransitivity. Qed.

Definition parent_of (g : git) (commit parent : bytes) : Prop := exists tree parents, commits g !! commit = Some (tree, parents) /\ parent ∈ parents.
Definition ancestor (g : git) (old commit : bytes) : Prop := rtc (parent_of g) commit old.

(** The name of an object: not empty and not in need of escaping *)
Definition name_ok (s : bytes) : Prop := s <> [] /\ forallb segment_byte s = true.

(** A request with a path of the repository, and its response *)
Definition asked (root : bytes) (q : request) (method path : bytes) (input : option json) : Prop :=
  req_method q = method /\ Path (req_url q) = root ++ path /\ req_input q = input.
Definition answered {W} `{GitHubClient W} (w : W) (q : request) (w' : W) (status : Z) (body : bytes) : Prop :=
  exists resp, client_Do w q = (w', Ok resp) /\ StatusCode resp = status /\ Body resp = Ok body.

(** What the API documents for the repository below the path [root]. [view] is
    the state of the repository; other clients may act on it at any time, and
    requests and responses may be lost: a request without a response promises
    only that no object is taken away. [healthy] are the states the host can
    be in. Reads tell what was true at some moment of the request. *)
Class GitDatabase {W : Type} `{GitHubJSON} `{GitHubClient W} (root : bytes) (view : W -> git) (healthy : W -> Prop) : Prop := {
  stays_healthy w q w' r : healthy w -> client_Do w q = (w', r) -> healthy w' /\ grows (view w) (view w');
  reads_reference w q w' branch body o : healthy w ->
    asked root q (bs "GET") (bs "/git/ref/heads/" ++ branch) None -> answered w q w' 200 body -> decode_reference body = Some o ->
    name_ok (object_SHA o)
    /\ exists g, grows (view w) g /\ grows g (view w') /\ refs g !! branch = Some (object_SHA o);
  reads_commit w q w' sha body c : healthy w ->
    asked root q (bs "GET") (bs "/git/commits/" ++ sha) None -> answered w q w' 200 body -> decode_commit body = Some c ->
    name_ok (commit_Tree c) /\ exists parents, commits (view w') !! sha = Some (commit_Tree c, parents);
  reads_tree w q w' sha body t : healthy w ->
    asked root q (bs "GET") (bs "/git/trees/" ++ sha) None -> answered w q w' 200 body -> decode_tree body = Some t ->
    Truncated t = false ->
    exists files, trees (view w') !! sha = Some files
      /\ forall e, e ∈ tree_Tree t -> entry_type e = bs "blob" ->
           name_ok (entry_sha e) /\ files !! entry_path e = Some (entry_mode e, entry_type e, entry_sha e);
  reads_blob w q w' sha body b data : healthy w ->
    asked root q (bs "GET") (bs "/git/blobs/" ++ sha) None -> answered w q w' 200 body -> decode_blob body = Some b ->
    blob_Encoding b = bs "base64" -> base64_Decode base64_Std (blob_Content b) = Some data ->
    blobs (view w') !! sha = Some data;
  makes_blob w q w' content data body sha : healthy w ->
    asked root q (bs "POST") (bs "/git/blobs") (Some (createBlobRequest content)) -> answered w q w' 201 body ->
    decode_object body = Some sha -> base64_Decode base64_Std content = Some data ->
    blobs (view w') !! sha = Some data;
  makes_tree w q w' entries body sha : healthy w -> NoDup (map entry_path entries) ->
    asked root q (bs "POST") (bs "/git/trees") (Some (createTreeRequest entries)) -> answered w q w' 201 body ->
    decode_object body = Some sha -> trees (view w') !! sha = Some (files_of entries);
  makes_commit w q w' message tree parents body sha : healthy w ->
    asked root q (bs "POST") (bs "/git/commits") (Some (createCommitRequest message tree parents)) -> answered w q w' 201 body ->
    decode_object body = Some sha -> commits (view w') !! sha = Some (tree, parents);
  (** A reference is moved without force only to a descendant. *)
  moves_reference w q w' branch sha body o : healthy w ->
    asked root q (bs "PATCH") (bs "/git/refs/heads/" ++ branch) (Some (updateReferenceRequest sha false)) -> answered w q w' 200 body ->
    decode_reference body = Some o ->
    exists g g' old, grows (view w) g /\ grows g g' /\ grows g' (view w')
      /\ refs g !! branch = Some old /\ ancestor g old sha /\ refs g' !! branch = Some sha;
}.

(** * Correctness of the publication

    The snapshots the publisher accepts and the order of its requests. *)

From S2P Require Import GoPath SnapshotFiles.

#[local] Set Warnings "-clear-no-such-hyp".

(** ** Snapshots *)

(** The publisher and the reader accept the same paths. *)
Lemma publication_path p : validPublicationPath p = validSnapshotPath p.
Proof.
  unfold validPublicationPath, validSnapshotPath. destruct (bytes_eqb p (bs "registry.json")); [done|].
  destruct (Split p "/") as [|a [|prefix [|name [|]]]]; try done.
  assert (Hl : forall s n, (length s =? S n)%nat = true -> lowerHex s = isLowerHex s).
  { intros s n Hn. unfold lowerHex, isLowerHex, isLowerHexByte. destruct s; [done|]. by rewrite andb_true_r. }
  destruct (length prefix =? 2)%nat eqn:Hp; [|by rewrite !orb_true_r]. rewrite (Hl prefix 1%nat Hp). destruct (_ || _); [done|].
  cbv zeta. destruct (length (TrimSuffix name (bs ".json")) =? 64)%nat eqn:Hh; [|done]. by rewrite (Hl _ 63%nat Hh).
Qed.

Lemma sentinel_not_path f : validSnapshotPath (file_Path f) = true -> file_Path f <> sentinelPath.
Proof. intros Hv He. rewrite He in Hv. by vm_compute in Hv. Qed.

Lemma check_snapshot_spec files : forall previous total reg, total <= maxPublicationTotalBytes ->
  StronglySorted (key_le file_Path) files -> Forall (fun f => text_le previous (file_Path f)) files ->
  forall b, check_snapshot previous total reg files = Some b <->
    Forall (fun f => validSnapshotPath (file_Path f) = true /\ Z.of_nat (length (file_Data f)) <= maxPublicationFileBytes) files
    /\ NoDup (previous :: map file_Path files) /\ total + sum_lengths files <= maxPublicationTotalBytes
    /\ b = (reg || existsb (fun f => bytes_eqb (file_Path f) (bs "registry.json")) files).
Proof.
  induction files as [|f files IH]; intros previous total reg Ht Hs Hp b; cbn [check_snapshot map existsb].
  { change (sum_lengths []) with 0. rewrite orb_false_r, Z.add_0_r. split; [intros [= <-]|intros (_ & _ & _ & ->)]; [|done].
    split_and!; [constructor|apply NoDup_singleton|done|done]. }
  apply StronglySorted_cons in Hs as [Hf Hs]. apply Forall_cons in Hp as [Hpf Hp]. rewrite publication_path, Forall_cons. cbv zeta.
  destruct (validSnapshotPath (file_Path f)) eqn:Hv; cbn [negb orb]; [|naive_solver].
  destruct (bytes_eqb_spec (file_Path f) previous) as [He|Hne]; cbn [orb].
  { split; [done|]. intros (_ & Hnd & _). rewrite He in Hnd. apply NoDup_cons in Hnd as [Hn _]. destruct Hn. by left. }
  destruct (Z.ltb_spec maxPublicationFileBytes (Z.of_nat (length (file_Data f)))); cbn [orb]; [split; [done|]; intros ((? & _) & _); lia|].
  assert (Hnn : 0 <= sum_lengths files) by (clear; induction files; cbn [sum_lengths fold_right] in *; unfold sum_lengths in *; lia).
  change (sum_lengths (f :: files)) with (Z.of_nat (length (file_Data f)) + sum_lengths files).
  destruct (Z.ltb_spec maxPublicationTotalBytes (total + Z.of_nat (length (file_Data f)))).
  { split; [done|]. intros (_ & _ & ? & _). lia. }
  rewrite (IH (file_Path f)) by (done || (eapply Forall_impl; [exact Hf|]; done)). rewrite orb_assoc.
  assert (Hnd : NoDup (previous :: file_Path f :: map file_Path files) <-> NoDup (file_Path f :: map file_Path files)).
  { rewrite (NoDup_cons previous). split; [by intros [_ ?]|]. intros Hn. split; [|done]. intros [He|Hin]%elem_of_cons; [done|].
    rewrite list_elem_of_In, in_map_iff in Hin. destruct Hin as (g & Hg & Hin%list_elem_of_In). rewrite Forall_forall in Hf. specialize (Hf g Hin).
    unfold key_le in Hf. rewrite Hg in Hf. apply Hne. by apply (anti_symm text_le). }
  rewrite Hnd, Z.add_assoc. tauto.
Qed.

(** The publisher accepts exactly the complete snapshots: at most 4,097
    files at distinct registry paths with [registry.json] among them, none
    larger than 8 MiB and all together not larger than 32 MiB, and puts them
    into the order of their paths. *)
Lemma prepareSnapshot_correct files :
  match prepareSnapshot files with
  | Ok ordered => ordered = sort_by file_Path files
  | Err err => err = errors_New ErrInvalidSnapshot
  end
  /\ (is_ok (prepareSnapshot files) = true <->
      Z.of_nat (length files) <= maxPublicationFiles
      /\ Forall (fun f => validSnapshotPath (file_Path f) = true /\ Z.of_nat (length (file_Data f)) <= maxPublicationFileBytes) files
      /\ NoDup (map file_Path files) /\ sum_lengths files <= maxPublicationTotalBytes
      /\ exists f, f ∈ files /\ file_Path f = bs "registry.json").
Proof.
  unfold prepareSnapshot. destruct (Nat.eqb_spec (length files) 0) as [Hl|Hl]; cbn [orb].
  { split; [done|]. split; [done|]. intros (_ & _ & _ & _ & f & Hf & _). destruct files; [by apply elem_of_nil in Hf|done]. }
  destruct (Z.ltb_spec maxPublicationFiles (Z.of_nat (length files))); [split; [done|]; split; [done|lia]|]. cbv zeta.
  pose proof (sort_by_perm file_Path files) as Hp. set (ordered := sort_by file_Path files) in *.
  assert (Hcheck : forall b, check_snapshot [] 0 false ordered = Some b <-> _) by
    (intros b; apply (check_snapshot_spec ordered [] 0 false); [by vm_compute|apply sort_by_sorted|by apply Forall_true; intros f; unfold text_le; destruct (file_Path f)]).
  assert (Hreg : existsb (fun f => bytes_eqb (file_Path f) (bs "registry.json")) ordered = true <-> exists f, f ∈ files /\ file_Path f = bs "registry.json").
  { rewrite existsb_exists. split; intros (f & Hf & He); exists f.
    - split; [by rewrite <- Hp, list_elem_of_In|]. by destruct (bytes_eqb_spec (file_Path f) (bs "registry.json")).
    - split; [by rewrite <- list_elem_of_In, Hp|]. rewrite He. done. }
  assert (Hall : check_snapshot [] 0 false ordered = Some true <->
    Forall (fun f => validSnapshotPath (file_Path f) = true /\ Z.of_nat (length (file_Data f)) <= maxPublicationFileBytes) files
    /\ NoDup (map file_Path files) /\ sum_lengths files <= maxPublicationTotalBytes /\ exists f, f ∈ files /\ file_Path f = bs "registry.json").
  { rewrite Hcheck. cbn [orb]. rewrite <- Hreg, (sum_lengths_perm _ _ Hp), NoDup_cons.
    assert (HF : forall P, Forall P ordered <-> Forall P files) by (intros P; by rewrite Hp). rewrite HF.
    assert (HN : NoDup (map file_Path ordered) <-> NoDup (map file_Path files)) by (by rewrite Hp). rewrite HN. split.
    - intros (Hv & [_ Hnd] & Hs & Hr). by rewrite <- Hr.
    - intros (Hv & Hnd & Hs & Hr). rewrite Hr. split_and!; try done. rewrite list_elem_of_In, in_map_iff. intros (f & He & Hin%list_elem_of_In).
      rewrite Forall_forall in Hv. destruct (Hv f) as [Hvf _]; [by rewrite <- Hp|]. by rewrite He in Hvf. }
  destruct (check_snapshot [] 0 false ordered) as [[]|] eqn:Hc; cbn [is_ok]; (split; [done|]); split; intros Hx; try done; try (split; [done|]; by apply Hall);
    destruct Hx as (_ & Hx); by apply Hall in Hx.
Qed.

Lemma prepareSnapshot_ok files ordered : prepareSnapshot files = Ok ordered ->
  ordered ≡ₚ files /\ Forall (fun f => validSnapshotPath (file_Path f) = true) files /\ NoDup (map file_Path files).
Proof.
  intros Hp. destruct (prepareSnapshot_correct files) as [Ho Hiff]. rewrite Hp in Ho, Hiff. subst ordered.
  destruct (proj1 Hiff eq_refl) as (_ & Hv & Hnd & _). split_and!; [apply sort_by_perm| |done]. eapply Forall_impl; [exact Hv|]. by intros f [].
Qed.

(** ** The order of the requests *)

#[export] Instance traced_client {W} `{GitHubClient W} : GitHubClient (W * list request) := {|
  client_Do := fun '(w, log) r => let '(w', x) := client_Do w r in ((w', log ++ [r]), x)
|}.

(** A request as the publisher asks for it: method, path and body *)
Abbreviation step := (bytes * bytes * option json)%type.

Section Order.
Context {W : Type} `{NetURL} `{GitHubJSON} `{GitHubClient W}.
Variable publisher : Publisher.
Variable ctx_Err : W * list request -> option error.
(** The error of a context is not a status of GitHub. *)
Hypothesis ctx_plain : forall w err, ctx_Err w = Some err -> status_of err = None.

(** The request goes to the API host, with the token. *)
Definition sent (s : step) (q : request) : Prop :=
  let '(method, path, input) := s in
  req_method q = method /\ req_input q = input /\ req_headers q = request_headers publisher input
  /\ url_Parse (url_String (endpoint publisher path)) = Some (req_url q).

Definition ran (steps : list step) (log log' : list request) : Prop := exists qs, log' = log ++ qs /\ Forall2 sent steps qs.

Lemma ran_nil log : ran [] log log.
Proof. exists []. by rewrite app_nil_r. Qed.
Lemma ran_app s1 s2 l1 l2 l3 : ran s1 l1 l2 -> ran s2 l2 l3 -> ran (s1 ++ s2) l1 l3.
Proof. intros (q1 & -> & Hq1) (q2 & -> & Hq2). exists (q1 ++ q2). split; [by rewrite app_assoc|by apply Forall2_app]. Qed.

Abbreviation repo := (repositoryPath publisher).
Definition get_ref : step := (bs "GET", repo ++ bs "/git/ref/heads/" ++ PathEscape (Branch (config publisher)), None).
Definition get_commit (sha : bytes) : step := (bs "GET", repo ++ bs "/git/commits/" ++ PathEscape sha, None).
Definition get_tree (sha : bytes) : step := (bs "GET", repo ++ bs "/git/trees/" ++ PathEscape sha, None).
Definition get_blob (sha : bytes) : step := (bs "GET", repo ++ bs "/git/blobs/" ++ PathEscape sha, None).
Definition blob_post (f : File) : step := (bs "POST", repo ++ bs "/git/blobs", Some (createBlobRequest (base64_Encode base64_Std (file_Data f)))).
Definition tree_post (entries : list treeEntry) : step := (bs "POST", repo ++ bs "/git/trees", Some (createTreeRequest entries)).
Definition commit_post (tree parent : bytes) : step :=
  (bs "POST", repo ++ bs "/git/commits", Some (createCommitRequest publicationCommitMessage tree [parent])).
Definition ref_patch (commit : bytes) : step :=
  (bs "PATCH", repo ++ bs "/git/refs/heads/" ++ PathEscape (Branch (config publisher)), Some (updateReferenceRequest commit false)).

Definition file_entry (f : File) (sha : bytes) : treeEntry := mkTreeEntry (file_Path f) (bs "100644") (bs "blob") sha.
Definition reads_of (head tree sentinel : bytes) : list step := [get_ref; get_commit head; get_tree tree; get_blob sentinel].

(** How far a publication got, and its result. The branch is changed by the
    request [ref_patch] only. *)
Inductive publication (files : list File) : list step -> res error Result -> Prop :=
| pub_reads head tree sentinel k err : (k <= 4)%nat -> publication files (take k (reads_of head tree sentinel)) (Err err)
| pub_blobs head tree sentinel k err : (k <= length files)%nat ->
    publication files (reads_of head tree sentinel ++ take k (map blob_post files)) (Err err)
| pub_tree head tree sentinel shas r : length shas = length files -> (r = Ok (mkResult false head) \/ exists err, r = Err err) ->
    publication files (reads_of head tree sentinel ++ map blob_post files
      ++ [tree_post (sentinel_entry sentinel :: zip_with file_entry files shas)]) r
| pub_commit head tree sentinel shas new err : length shas = length files ->
    publication files (reads_of head tree sentinel ++ map blob_post files
      ++ [tree_post (sentinel_entry sentinel :: zip_with file_entry files shas); commit_post new head]) (Err err)
| pub_ref head tree sentinel shas new commit r : length shas = length files -> (r = Ok (mkResult true commit) \/ exists err, r = Err err) ->
    publication files (reads_of head tree sentinel ++ map blob_post files
      ++ [tree_post (sentinel_entry sentinel :: zip_with file_entry files shas); commit_post new head; ref_patch commit]) r
| pub_conflict head tree sentinel shas new commit head' k r : length shas = length files -> (k <= 2)%nat ->
    (r = Ok (mkResult false head') /\ k = 2%nat \/ exists err, r = Err err) ->
    publication files (reads_of head tree sentinel ++ map blob_post files
      ++ [tree_post (sentinel_entry sentinel :: zip_with file_entry files shas); commit_post new head; ref_patch commit]
      ++ take k [get_ref; get_commit head']) r.

Lemma requestJSON_sent {A} w log method path input status (decode : bytes -> option A) w' r :
  requestJSON publisher ctx_Err (w, log) method path input status decode = (w', r) ->
  (exists err, r = Err err /\ status_of err = None /\ ran [] log (snd w')) \/ ran [(method, path, input)] log (snd w').
Proof.
  unfold requestJSON. destruct (ctx_Err (w, log)) as [err|] eqn:Hctx; [intros [= <- <-]; left; exists err; split_and!; [done|by eapply ctx_plain|apply ran_nil]|].
  destruct (url_Parse (url_String (endpoint publisher path))) as [u|] eqn:Hu; [|intros [= <- <-]; left; eexists; split_and!; [done|done|apply ran_nil]].
  cbn [client_Do traced_client]. destruct (client_Do w _) as [w1 [resp|err]].
  - assert (Hran : ran [(method, path, input)] log (log ++ [mkRequest method u (request_headers publisher input) input])).
    { eexists. split; [done|]. constructor; [|constructor]. done. }
    intros Hrun. right. destruct (negb _); [by injection Hrun as <- <-|]. destruct (Body resp); [|by injection Hrun as <- <-].
    cbv zeta in Hrun. destruct (_ <? _); [by injection Hrun as <- <-|]. destruct (decode _); by injection Hrun as <- <-.
  - intros Hrun. right. assert (snd w' = log ++ [mkRequest method u (request_headers publisher input) input]) as ->.
    { destruct (ctx_Err (w1, _)); by injection Hrun as <- <-. }
    eexists. split; [done|]. constructor; [|constructor]. done.
Qed.

(** An operation of one request *)
Definition one (s : step) {A} (r : res error A) (log log' : list request) : Prop :=
  ran [s] log log' \/ (exists err, r = Err err /\ ran [] log log').

Ltac one_request Hq := unfold one; destruct (requestJSON _ _ _ _ _ _ _ _) as [w1 r1] eqn:Hq; apply requestJSON_sent in Hq;
  destruct r1 as [x|err]; intros Hrun; repeat (case_match; simplify_eq/=); try (injection Hrun as <- <-);
  destruct Hq as [(e & He & _ & Hq)|Hq]; simplify_eq/=; eauto.

Lemma currentHead_sent w log w' r : currentHead publisher ctx_Err (w, log) = (w', r) -> one get_ref r log (snd w').
Proof. unfold currentHead. one_request Hq. Qed.
Lemma commitTree_sent w log sha w' r : commitTree publisher ctx_Err (w, log) sha = (w', r) -> one (get_commit sha) r log (snd w').
Proof. unfold commitTree. one_request Hq. Qed.
Lemma create_sent w log path input w' r : create publisher ctx_Err (w, log) path input = (w', r) ->
  one (bs "POST", repo ++ path, Some input) r log (snd w').
Proof. unfold create. one_request Hq. Qed.
Lemma updateReference_sent w log sha w' r : updateReference publisher ctx_Err (w, log) sha = (w', r) ->
  ran [ref_patch sha] log (snd w') \/ (exists err, r = Some err /\ isReferenceConflict err = false /\ ran [] log (snd w')).
Proof.
  unfold updateReference. destruct (requestJSON _ _ _ _ _ _ _ _) as [w1 r1] eqn:Hq. apply requestJSON_sent in Hq.
  destruct Hq as [(e & -> & Hs & Hq)|Hq]; [intros [= <- <-]; right; exists e; unfold isReferenceConflict; by rewrite Hs|]. left. destruct r1; [|by simplify_eq]. destruct (_ || _); by simplify_eq.
Qed.

(** Several requests, of which an error leaves some out *)
Definition many (steps : list step) {A} (r : res error A) (log log' : list request) : Prop :=
  ran steps log log' \/ exists err k, r = Err err /\ (k <= length steps)%nat /\ ran (take k steps) log log'.

Lemma one_many s {A} (r : res error A) log log' : one s r log log' -> many [s] r log log'.
Proof. intros [Hr|(err & -> & Hr)]; [by left|right]. exists err, 0%nat. split_and!; [done|lia|done]. Qed.

Lemma many_err s1 s2 {A B} (r : res error A) (err : error) l1 l2 : r = Err err -> many s1 r l1 l2 -> many (s1 ++ s2) (@Err error B err) l1 l2.
Proof.
  intros -> [Hr|(e & k & _ & Hk & Hr)].
  - right. exists err, (length s1). split_and!; [done|rewrite length_app; lia|]. by rewrite take_app_length.
  - right. exists err, k. split_and!; [done|rewrite length_app; lia|]. by rewrite take_app_le.
Qed.

Lemma many_ok s1 s2 {A B} (a : A) (r : res error B) l1 l2 l3 : many s1 (@Ok error A a) l1 l2 -> many s2 r l2 l3 -> many (s1 ++ s2) r l1 l3.
Proof.
  intros [Hr|(e & k & ? & _)]; [|done]. intros [Hs|(e & k & -> & Hk & Hs)]; [left; by eapply ran_app|].
  right. exists e, (length s1 + k)%nat. split_and!; [done|rewrite length_app; lia|]. rewrite take_app_add. by eapply ran_app.
Qed.

Lemma verifySentinel_sent w log tree w' r : verifySentinel publisher ctx_Err (w, log) tree = (w', r) ->
  exists sentinel, many [get_tree tree; get_blob sentinel] r log (snd w') /\ (forall s, r = Ok s -> s = sentinel).
Proof.
  unfold verifySentinel. destruct (requestJSON _ _ _ _ _ _ _ _) as [[w1 log1] r1] eqn:Hq. apply requestJSON_sent in Hq.
  assert (Hm : many [get_tree tree] r1 log log1) by (apply one_many; destruct Hq as [(e & -> & _ & Hq)|Hq]; [right; by exists e|by left]).
  clear Hq. destruct r1 as [resp|err]; [|intros [= <- <-]; exists []; split; [by eapply (many_err [_]); [|exact Hm]|done]].
  assert (Hstop : forall e : error, many [get_tree tree; get_blob []] (@Err error bytes e) log log1).
  { intros e. right. exists e, 1%nat. split_and!; [done|cbn; lia|]. cbn [take]. destruct Hm as [Hm|(? & ? & ? & _)]; [done|done]. }
  destruct (_ || _); [intros [= <- <-]; exists []; split; [apply Hstop|done]|].
  destruct (find_sentinel [] (tree_Tree resp)) as [s|err]; [|intros [= <- <-]; exists []; split; [apply Hstop|done]].
  destruct (requestJSON _ _ _ _ (_ ++ _ ++ PathEscape s) _ _ _) as [[w2 log2] r2] eqn:Hq. apply requestJSON_sent in Hq.
  assert (Hm2 : one (get_blob s) r2 log1 log2) by (destruct Hq as [(e & -> & _ & Hq)|Hq]; [right; by exists e|by left]).
  assert (Hall : forall r' : res error bytes, (forall e, r2 = Err e -> r' = Err e) -> many [get_tree tree; get_blob s] r' log log2).
  { intros r' He. change [get_tree tree; get_blob s] with ([get_tree tree] ++ [get_blob s]). eapply many_ok; [exact Hm|].
    destruct Hm2 as [Hr|(e & -> & Hr)]; [by left|]. right. exists e, 0%nat. split_and!; [by apply He|cbn; lia|done]. }
  intros Hrun. exists s. destruct r2 as [blob|err]; [|injection Hrun as <- <-; split; [apply Hall; by intros e [= ->]|done]].
  repeat case_match; simplify_eq/=; (split; [by apply Hall|]); congruence.
Qed.

Lemma create_blobs_sent files w log w' r : create_blobs publisher ctx_Err (w, log) files = (w', r) ->
  many (map blob_post files) r log (snd w')
  /\ forall entries, r = Ok entries -> exists shas, length shas = length files /\ entries = zip_with file_entry files shas.
Proof.
  revert w log w' r. induction files as [|f files IH]; intros w log w' r; cbn [create_blobs map].
  { intros [= <- <-]. split; [left; apply ran_nil|]. intros e [= <-]. by exists []. }
  destruct (createBlob publisher ctx_Err (w, log) (file_Data f)) as [[w1 log1] r1] eqn:Hc. apply create_sent, one_many in Hc. cbn [snd] in Hc.
  destruct r1 as [sha|err]; [|intros [= <- <-]; split; [by eapply (many_err [_]); [|exact Hc]|done]].
  destruct (create_blobs publisher ctx_Err (w1, log1) files) as [[w2 log2] r2] eqn:Hb. apply IH in Hb as [Hm He]. cbn [snd] in Hm.
  change (blob_post f :: map blob_post files) with ([blob_post f] ++ map blob_post files).
  destruct r2 as [entries|err]; intros [= <- <-]; cbn [snd].
  - split.
    + eapply (many_ok [_]); [exact Hc|]. destruct Hm as [|(? & ? & ? & _)]; [by left|done].
    + intros es [= <-]. destruct (He entries eq_refl) as (shas & Hl & ->). exists (sha :: shas). split; [cbn; by rewrite Hl|done].
  - split; [|done]. by eapply (many_ok [_]); [exact Hc|].
Qed.

Lemma many_Ok steps {A} (a : A) log log' : many steps (@Ok error A a) log log' -> ran steps log log'.
Proof. intros [?|(? & ? & ? & _)]; done. Qed.

Lemma reconcile_sent w log tree w' r : reconcileReferenceConflict publisher ctx_Err (w, log) tree = (w', r) ->
  exists head k, (k <= 2)%nat /\ ran (take k [get_ref; get_commit head]) log (snd w')
    /\ (r = Ok (mkResult false head) /\ k = 2%nat \/ exists err, r = Err err).
Proof.
  unfold reconcileReferenceConflict. destruct (currentHead publisher ctx_Err (w, log)) as [[w1 log1] r1] eqn:Hh.
  apply currentHead_sent in Hh. cbn [snd] in Hh. destruct r1 as [head|err].
  2: { intros [= <- <-]. destruct Hh as [Hr|(e & _ & Hr)]; exists [];
         [exists 1%nat|exists 0%nat]; (split_and!; [lia|exact Hr|right; by eexists]). }
  destruct Hh as [Hr1|(? & ? & _)]; [|done].
  destruct (commitTree publisher ctx_Err (w1, log1) head) as [[w2 log2] r2] eqn:Ht. apply commitTree_sent in Ht. cbn [snd] in Ht.
  destruct Ht as [Hr2|(e & -> & Hr2)].
  - pose proof (ran_app _ _ _ _ _ Hr1 Hr2) as Hr. destruct r2 as [t|err]; [destruct (negb _)|]; intros [= <- <-]; exists head, 2%nat;
      (split_and!; [lia|exact Hr|]); [right; by eexists|by left|right; by eexists].
  - intros [= <- <-]. pose proof (ran_app _ _ _ _ _ Hr1 Hr2) as Hr. exists head, 1%nat. split_and!; [lia|exact Hr|right; by eexists].
Qed.

Lemma publish_tree_sent files head tree sentinel w log w' r :
  publish_tree publisher ctx_Err (w, log) head tree sentinel files = (w', r) ->
  exists steps, ran steps log (snd w') /\ publication files (reads_of head tree sentinel ++ steps) r.
Proof.
  unfold publish_tree. destruct (create_blobs publisher ctx_Err (w, log) files) as [[w1 log1] r1] eqn:Hb.
  apply create_blobs_sent in Hb as [Hb He]. cbn [snd] in Hb. destruct r1 as [entries|err].
  2: { intros [= <- <-]. destruct Hb as [Hr|(e & k & _ & Hk & Hr)].
       - exists (take (length files) (map blob_post files)). rewrite firstn_all2 by (rewrite length_map; lia). split; [done|].
         pose proof (pub_blobs files head tree sentinel (length files) err (le_n _)) as Hp. by rewrite firstn_all2 in Hp by (rewrite length_map; lia).
       - exists (take k (map blob_post files)). split; [done|]. rewrite length_map in Hk. by apply pub_blobs. }
  apply many_Ok in Hb. destruct (He entries eq_refl) as (shas & Hl & ->). clear He.
  set (entries := sentinel_entry sentinel :: zip_with file_entry files shas).
  destruct (createTree publisher ctx_Err (w1, log1) entries) as [[w2 log2] r2] eqn:Ht. apply create_sent in Ht. cbn [snd] in Ht.
  destruct Ht as [Ht|(err & -> & Ht)].
  2: { intros [= <- <-]. pose proof (ran_app _ _ _ _ _ Hb Ht) as Hr. rewrite app_nil_r in Hr. exists (map blob_post files). split; [done|].
       pose proof (pub_blobs files head tree sentinel (length files) err (le_n _)) as Hp. by rewrite firstn_all2 in Hp by (rewrite length_map; lia). }
  pose proof (ran_app _ _ _ _ _ Hb Ht) as Hr2. clear Hb Ht. change (_, repo ++ bs "/git/trees", _) with (tree_post entries) in Hr2.
  destruct r2 as [new|err]; [|intros [= <- <-]; eexists; split; [exact Hr2|]; apply pub_tree; [done|right; by eexists]].
  destruct (bytes_eqb new tree); [intros [= <- <-]; eexists; split; [exact Hr2|]; apply pub_tree; [done|by left]|].
  destruct (createCommit publisher ctx_Err (w2, log2) new head) as [[w3 log3] r3] eqn:Hc. apply create_sent in Hc. cbn [snd] in Hc.
  destruct Hc as [Hc|(err & -> & Hc)].
  2: { intros [= <- <-]. pose proof (ran_app _ _ _ _ _ Hr2 Hc) as Hr. rewrite app_nil_r in Hr. eexists. split; [exact Hr|].
       apply pub_tree; [done|right; by eexists]. }
  pose proof (ran_app _ _ _ _ _ Hr2 Hc) as Hr3. clear Hr2 Hc. rewrite <- app_assoc in Hr3.
  change (_, repo ++ bs "/git/commits", _) with (commit_post new head) in Hr3.
  destruct r3 as [commit|err]; [|intros [= <- <-]; eexists; split; [exact Hr3|by apply pub_commit]].
  destruct (updateReference publisher ctx_Err (w3, log3) commit) as [[w4 log4] r4] eqn:Hu. apply updateReference_sent in Hu. cbn [snd] in Hu.
  destruct Hu as [Hu|(err & -> & Hcon & Hu)].
  2: { rewrite Hcon. intros [= <- <-]. pose proof (ran_app _ _ _ _ _ Hr3 Hu) as Hr. rewrite app_nil_r in Hr. eexists. split; [exact Hr|by apply pub_commit]. }
  pose proof (ran_app _ _ _ _ _ Hr3 Hu) as Hr4. clear Hr3 Hu. rewrite <- app_assoc in Hr4.
  destruct r4 as [err|]; [destruct (isReferenceConflict err); cbn [negb]|].
  - intros (head' & k & Hk & Hr & Hres)%reconcile_sent. pose proof (ran_app _ _ _ _ _ Hr4 Hr) as Hr5. rewrite <- app_assoc in Hr5.
    eexists. split; [exact Hr5|]. by apply (pub_conflict files head tree sentinel shas new commit head' k).
  - intros [= <- <-]. eexists. split; [exact Hr4|]. apply (pub_ref files head tree sentinel shas new commit); [done|right; by eexists].
  - intros [= <- <-]. eexists. split; [exact Hr4|]. apply (pub_ref files head tree sentinel shas new commit); [done|by left].
Qed.

(** The order of a publication. Without a usable context, publisher and
    snapshot nothing is sent. Otherwise the requests are, with the token and to
    the configured host only: the reads of the branch, its commit, its root
    tree and the sentinel; one blob per file; one tree of the sentinel and the
    files; one commit whose only parent is the head that was read; and one
    non-forced update of the branch to it. An error ends them early. After a
    conflict the branch is read once more and never written again. *)
Theorem publication_order files w w' log r :
  publish publisher ctx_Err (w, []) files = ((w', log), r) ->
  (log = [] /\ exists err, r = Err err)
  \/ exists ordered steps, prepareSnapshot files = Ok ordered /\ Forall2 sent steps log /\ publication ordered steps r.
Proof.
  unfold publish. destruct (ctx_Err (w, [])) as [err|]; [intros [= <- <- <-]; left; eauto|].
  destruct (negb _); [intros [= <- <- <-]; left; eauto|]. destruct (prepareSnapshot files) as [ordered|err]; [|intros [= <- <- <-]; left; eauto].
  intros Hrun. right. exists ordered. enough (Hs : exists steps, ran steps [] log /\ publication ordered steps r).
  { destruct Hs as (steps & (qs & -> & Hq) & Hp). by exists steps. }
  assert (Hearly : forall head tree sentinel k (err : error), (k <= 4)%nat -> r = Err err -> ran (take k (reads_of head tree sentinel)) [] log ->
    exists steps, ran steps [] log /\ publication ordered steps r).
  { intros head tree sentinel k err Hk -> Hr. eexists. split; [exact Hr|by apply pub_reads]. }
  destruct (currentHead publisher ctx_Err (w, [])) as [[w1 log1] r1] eqn:Hh. apply currentHead_sent, one_many in Hh. cbn [snd] in Hh.
  destruct r1 as [head|err].
  2: { injection Hrun as <- <- <-. destruct Hh as [Hr|(e & k & _ & Hk & Hr)]; [by apply (Hearly [] [] [] 1%nat err); [lia| |]|].
       cbn in Hk. apply (Hearly [] [] [] k err); [lia|done|]. destruct k as [|[|]]; [done|done|lia]. }
  apply many_Ok in Hh. destruct (commitTree publisher ctx_Err (w1, log1) head) as [[w2 log2] r2] eqn:Ht. apply commitTree_sent in Ht. cbn [snd] in Ht.
  destruct r2 as [tree|err].
  2: { injection Hrun as <- <- <-. destruct Ht as [Ht|(e & _ & Ht)]; pose proof (ran_app _ _ _ _ _ Hh Ht) as Hr.
       - by apply (Hearly head [] [] 2%nat err); [lia| |].
       - by apply (Hearly head [] [] 1%nat err); [lia| |]. }
  destruct Ht as [Ht|(? & ? & _)]; [|done]. pose proof (ran_app _ _ _ _ _ Hh Ht) as Hr2. clear Hh Ht.
  destruct (verifySentinel publisher ctx_Err (w2, log2) tree) as [[w3 log3] r3] eqn:Hv. apply verifySentinel_sent in Hv as (s & Hm & Hs). cbn [snd] in Hm.
  destruct r3 as [sentinel|err].
  2: { injection Hrun as <- <- <-. destruct Hm as [Hm|(e & k & _ & Hk & Hm)]; pose proof (ran_app _ _ _ _ _ Hr2 Hm) as Hr.
       - by apply (Hearly head tree s 4%nat err); [lia| |].
       - cbn in Hk. apply (Hearly head tree s (2 + k)%nat err); [lia|done|exact Hr]. }
  specialize (Hs sentinel eq_refl). subst s. apply many_Ok in Hm. pose proof (ran_app _ _ _ _ _ Hr2 Hm) as Hr3. clear Hr2 Hm.
  destruct (publish_tree publisher ctx_Err (w3, log3) head tree sentinel ordered) as [[w4 log4] r4] eqn:Hp. injection Hrun as <- <- <-.
  apply publish_tree_sent in Hp as (steps & Hr & Hpub). cbn [snd] in Hr. eexists. split; [exact (ran_app _ _ _ _ _ Hr3 Hr)|exact Hpub].
Qed.
End Order.
