(* ===== verification/GitHubServerFacts.v ===== *)
(** * What a publication leaves in the repository

    The publisher against the documented Git Database API ([GitDatabase]). *)

From S2P Require Import Prelude GoText GoErrors GoUrl GoNetip GoJson GoTime GoEncoding Netguard PublicData.
From S2P Require Import GoPath SnapshotFiles GitHubPublish GitHubServer.

#[local] Set Warnings "-clear-no-such-hyp".

Lemma PathEscape_id s : forallb segment_byte s = true -> PathEscape s = s.
Proof.
  unfold PathEscape. induction s as [|c s IH]; [done|]. cbn [forallb map concat]. intros Hs. b2p.
  match goal with H : segment_byte c = true |- _ => rewrite H end. cbn [app]. by rewrite IH.
Qed.

(** ** Trees that hold a snapshot *)

(** The sentinel of a tree: a regular file with the contents *)
Definition sentinel_in (g : git) (tree sha : bytes) : Prop :=
  exists fs, trees g !! tree = Some fs /\ fs !! sentinelPath = Some (bs "100644", bs "blob", sha) /\ blobs g !! sha = Some sentinelContents.

(** The files a published commit has: those of the snapshot and the sentinel *)
Definition snapshot_contents (files : list File) : gmap bytes bytes :=
  <[sentinelPath := sentinelContents]> (list_to_map (map (fun f => (file_Path f, file_Data f)) files)).
Definition regular_file (g : git) (entry : bytes * bytes * bytes) (data : bytes) : Prop :=
  let '(mode, type, sha) := entry in mode = bs "100644" /\ type = bs "blob" /\ blobs g !! sha = Some data.
Definition holds (g : git) (tree : bytes) (files : list File) : Prop :=
  exists fs, trees g !! tree = Some fs /\ map_Forall2 (fun _ => regular_file g) fs (snapshot_contents files).

Lemma regular_grows g g' e data : grows g g' -> regular_file g e data -> regular_file g' e data.
Proof. intros Hg. destruct e as [[m t] s]. intros (-> & -> & Hb). split_and!; [done|done|]. by apply (lookup_weaken _ _ _ _ Hb), (gr_blobs _ _ Hg). Qed.
Lemma holds_grows g g' tree files : grows g g' -> holds g tree files -> holds g' tree files.
Proof.
  intros Hg (fs & Hfs & Hall). exists fs. split; [by apply (lookup_weaken _ _ _ _ Hfs), (gr_trees _ _ Hg)|].
  eapply map_Forall2_impl; [exact Hall|]. intros ? ? ?. by apply regular_grows.
Qed.
Lemma commit_grows g g' sha c : grows g g' -> commits g !! sha = Some c -> commits g' !! sha = Some c.
Proof. intros Hg Hc. by apply (lookup_weaken _ _ _ _ Hc), (gr_commits _ _ Hg). Qed.
Lemma sentinel_grows g g' tree sha : grows g g' -> sentinel_in g tree sha -> sentinel_in g' tree sha.
Proof.
  intros Hg (fs & Hfs & Hp & Hb). exists fs. split_and!; [by apply (lookup_weaken _ _ _ _ Hfs), (gr_trees _ _ Hg)|done|].
  by apply (lookup_weaken _ _ _ _ Hb), (gr_blobs _ _ Hg).
Qed.
Lemma snapshot_contents_perm l l' : l ≡ₚ l' -> NoDup (map file_Path l') -> snapshot_contents l = snapshot_contents l'.
Proof.
  intros Hp Hnd. unfold snapshot_contents. f_equal. apply list_to_map_proper; [|by rewrite Hp]. rewrite <- list_fmap_compose. by rewrite Hp.
Qed.

(** The entry of a file names a blob with the file's contents. *)
Definition stored (g : git) (f : File) (e : treeEntry) : Prop := e = file_entry f (entry_sha e) /\ blobs g !! entry_sha e = Some (file_Data f).

Lemma stored_grows g g' f e : grows g g' -> stored g f e -> stored g' f e.
Proof. intros Hg [He Hd]. split; [done|]. by apply (lookup_weaken _ _ _ _ Hd), (gr_blobs _ _ Hg). Qed.

Lemma stored_paths g files entries : Forall2 (stored g) files entries -> map entry_path entries = map file_Path files.
Proof. induction 1 as [|f e files entries [-> _] _ IH]; [done|]. cbn. by f_equal. Qed.

Lemma stored_holds g files entries sentinel : Forall2 (stored g) files entries -> blobs g !! sentinel = Some sentinelContents ->
  map_Forall2 (fun _ => regular_file g) (files_of (sentinel_entry sentinel :: entries)) (snapshot_contents files).
Proof.
  intros Hall Hs. unfold files_of, snapshot_contents. cbn [map list_to_map foldr]. apply map_Forall2_insert_2; [done|].
  induction Hall as [|f e files entries [-> Hb] _ IH]; [apply map_Forall2_empty|]. cbn [map]. rewrite !list_to_map_cons.
  by apply map_Forall2_insert_2.
Qed.

(** The entry that the sentinel's name is taken from *)
Lemma find_sentinel_entry sha entries : find_sentinel [] entries = Ok sha ->
  exists e, e ∈ entries /\ entry_path e = sentinelPath /\ entry_mode e = bs "100644" /\ entry_type e = bs "blob" /\ entry_sha e = sha.
Proof.
  assert (Hgen : forall entries found, find_sentinel found entries = Ok sha -> found = sha \/
    exists e, e ∈ entries /\ entry_path e = sentinelPath /\ entry_mode e = bs "100644" /\ entry_type e = bs "blob" /\ entry_sha e = sha).
  { clear entries. induction entries as [|e entries IH]; intros found; cbn [find_sentinel].
    - destruct (bytes_eqb found []); [done|]. intros [= ->]. by left.
    - destruct (bytes_eqb_spec (entry_path e) sentinelPath) as [Hp|]; cbn [negb].
      + destruct (bytes_eqb found []); [|done]. destruct (bytes_eqb_spec (entry_mode e) (bs "100644")); [|done].
        destruct (bytes_eqb_spec (entry_type e) (bs "blob")); [|done]. destruct (bytes_eqb (entry_sha e) []); [done|]. cbn [negb orb].
        intros [<-|(x & Hx & Hrest)]%IH; right; [exists e; split; [by left|done]|exists x; split; [by right|done]].
      + intros [|(x & Hx & Hrest)]%IH; [by left|right]. exists x. split; [by right|done]. }
  intros Hf. destruct (Hgen entries [] Hf) as [<-|]; [|done]. exfalso. clear Hgen. revert Hf.
  assert (Hne : forall entries found, find_sentinel found entries <> Ok []).
  { clear. induction entries as [|e entries IH]; intros found; cbn [find_sentinel].
    - destruct (bytes_eqb_spec found []); [done|]. by intros [= ->].
    - destruct (negb _); [apply IH|]. destruct (_ || _); [done|apply IH]. }
  apply Hne.
Qed.

(** ** The publisher on a shared repository *)

Section Exact.
Context {W : Type} `{NetURL} `{GitHubJSON} `{GitHubClient W}.
Variable publisher : Publisher.
Variable ctx_Err : W -> option error.
Variables (view : W -> git) (healthy : W -> Prop).
Context `{!GitDatabase (repositoryPath publisher) view healthy}.

(** The branch the requests name. The publisher escapes the configured names
    and [endpoint] escapes the path once more, so that the API, which undoes
    one escaping, is asked for the escaped name. *)
Definition addressed_branch : bytes := PathEscape (Branch (config publisher)).
Abbreviation branch := addressed_branch.

(** A URL that is built from a path and parsed again has that path; the base
    of the API has none. *)
Hypothesis url_path : forall p u, is_rooted p = true -> url_Parse (url_String (endpoint publisher p)) = Some u -> Path u = p.

(** A request that was answered as expected *)
Lemma requestJSON_answered {A} w method rest input status (decode : bytes -> option A) w' r :
  healthy w -> requestJSON publisher ctx_Err w method (repositoryPath publisher ++ rest) input status decode = (w', r) ->
  healthy w' /\ grows (view w) (view w')
  /\ forall x, r = Ok x -> exists q body, asked (repositoryPath publisher) q method rest input /\ answered w q w' status body /\ decode body = Some x.
Proof.
  intros Hw. unfold requestJSON. destruct (ctx_Err w); [by intros [= <- <-]|].
  destruct (url_Parse _) as [u|] eqn:Hu; [|by intros [= <- <-]]. apply url_path in Hu; [|done].
  set (q := mkRequest method u _ input). destruct (client_Do w q) as [w1 r1] eqn:Hdo. destruct (stays_healthy w q w1 r1 Hw Hdo) as [Hw1 Hg].
  destruct r1 as [resp|e]; [|destruct (ctx_Err w1); by intros [= <- <-]].
  destruct (Z.eqb_spec (StatusCode resp) status) as [Hst|]; cbn [negb]; [|by intros [= <- <-]].
  destruct (Body resp) as [stream|] eqn:Hb; [|by intros [= <- <-]]. cbv zeta.
  destruct (Z.ltb_spec maxGitHubResponseBytes (Z.of_nat (length (take (Z.to_nat (maxGitHubResponseBytes + 1)) stream)))) as [|Hl]; [by intros [= <- <-]|].
  assert (Ht : take (Z.to_nat (maxGitHubResponseBytes + 1)) stream = stream).
  { apply take_ge. rewrite length_take in Hl. revert Hl. unfold maxGitHubResponseBytes. lia. }
  rewrite Ht. destruct (decode stream) as [y|] eqn:Hd; [|by intros [= <- <-]]. intros [= <- <-]. split_and!; [done|done|].
  intros x [= ->]. exists q, stream. split_and!; [by split_and!|by exists resp|done].
Qed.

(** What an operation leaves *)
Definition good {A} (w w' : W) (r : res error A) (Q : A -> Prop) : Prop :=
  healthy w' /\ grows (view w) (view w') /\ match r with Ok a => Q a | Err _ => True end.

(** The branch pointed to the commit at some moment in between. *)
Definition pointed (g g' : git) (sha : bytes) : Prop := exists g1, grows g g1 /\ grows g1 g' /\ refs g1 !! branch = Some sha.

Lemma pointed_grows g0 g g' g1 sha : grows g0 g -> grows g' g1 -> pointed g g' sha -> pointed g0 g1 sha.
Proof. intros Hg Hg' (gp & ? & ? & ?). exists gp. split_and!; [by etransitivity|by etransitivity|done]. Qed.

(** The next request: it failed, or it was answered. *)
Ltac asking :=
  match goal with |- context [requestJSON ?p ?c ?w ?m ?path ?i ?s ?d] =>
    let r1 := fresh "r1" in let x := fresh "x" in let Hq := fresh "Hq" in let Hok := fresh "Hok" in
    destruct (requestJSON p c w m path i s d) as [w1 r1] eqn:Hq; apply requestJSON_answered in Hq as (Hw1 & Hg1 & Hok); [|done];
    destruct r1 as [x|]; [|by intros [= <- <-]]; destruct (Hok x eq_refl) as (q & body & Hask & Hans & Hdec); clear Hok
  end.

Lemma currentHead_good w w' r : healthy w -> currentHead publisher ctx_Err w = (w', r) ->
  good w w' r (fun head => name_ok head /\ pointed (view w) (view w') head).
Proof.
  intros Hw. unfold currentHead. asking. destruct (reads_reference w q w1 _ body x Hw Hask Hans Hdec) as [Hn Hp].
  destruct (_ || _); intros [= <- <-]; [exact (conj Hw1 (conj Hg1 I))|exact (conj Hw1 (conj Hg1 (conj Hn Hp)))].
Qed.

Lemma commitTree_good w sha w' r : healthy w -> name_ok sha -> commitTree publisher ctx_Err w sha = (w', r) ->
  good w w' r (fun tree => name_ok tree /\ exists parents, commits (view w') !! sha = Some (tree, parents)).
Proof.
  intros Hw [_ Hn]. unfold commitTree. rewrite (PathEscape_id sha Hn). asking. pose proof (reads_commit w q w1 _ body x Hw Hask Hans Hdec) as Hc.
  destruct (_ || _); intros [= <- <-]; [exact (conj Hw1 (conj Hg1 I))|exact (conj Hw1 (conj Hg1 Hc))].
Qed.

Lemma verifySentinel_good w tree w' r : healthy w -> name_ok tree -> verifySentinel publisher ctx_Err w tree = (w', r) ->
  good w w' r (fun sha => sentinel_in (view w') tree sha).
Proof.
  intros Hw [_ Hn]. unfold verifySentinel. rewrite (PathEscape_id tree Hn). asking.
  destruct (bytes_eqb (tree_SHA x) []); cbn [orb]; [by intros [= <- <-]|]. destruct (Truncated x) eqn:Htr; [by intros [= <- <-]|].
  destruct (reads_tree w q w1 _ body x Hw Hask Hans Hdec Htr) as (fs & Hfs & Hentries).
  destruct (find_sentinel [] (tree_Tree x)) as [sha|] eqn:Hf; [|by intros [= <- <-]].
  apply find_sentinel_entry in Hf as (e & Hin & Hpath & Hmode & Htype & <-). destruct (Hentries e Hin Htype) as [Hsha Hfile].
  rewrite Hpath, Hmode, Htype in Hfile. rewrite (PathEscape_id _ (proj2 Hsha)). clear Hask Hans Hdec.
  destruct (requestJSON publisher ctx_Err w1 _ _ _ _ _) as [w2 r2] eqn:Hq. apply requestJSON_answered in Hq as (Hw2 & Hg2 & Hok); [|done].
  assert (Hg12 : grows (view w) (view w2)) by (by etransitivity). destruct r2 as [b|]; [|by intros [= <- <-]].
  destruct (Hok b eq_refl) as (q2 & body2 & Hask & Hans & Hdec).
  destruct (bytes_eqb_spec (blob_Encoding b) (bs "base64")) as [Henc|]; cbn [negb orb]; [|by intros [= <- <-]].
  destruct (negb _); [by intros [= <- <-]|]. destruct (base64_Decode base64_Std (blob_Content b)) as [data|] eqn:Hdata; [|by intros [= <- <-]].
  pose proof (reads_blob w1 q2 w2 _ body2 b data Hw1 Hask Hans Hdec Henc Hdata) as Hblob.
  destruct (bytes_eqb_spec data sentinelContents) as [->|]; cbn [negb]; intros [= <- <-]; (split_and!; [done|done|]); [|done].
  exists fs. split_and!; [|done|done]. by apply (lookup_weaken _ _ _ _ Hfs), (gr_trees _ _ Hg2).
Qed.

(** A write that was answered as expected *)
Lemma create_good w rest input w' r : healthy w -> create publisher ctx_Err w rest input = (w', r) ->
  good w w' r (fun sha => exists q body, asked (repositoryPath publisher) q (bs "POST") rest (Some input) /\ answered w q w' 201 body
    /\ decode_object body = Some sha).
Proof.
  intros Hw. unfold create. asking. destruct (bytes_eqb x []); intros [= <- <-]; (split_and!; [done|done|]); [done|]. by exists q, body.
Qed.

Lemma createBlob_good w data w' r : healthy w -> createBlob publisher ctx_Err w data = (w', r) ->
  good w w' r (fun sha => blobs (view w') !! sha = Some data).
Proof.
  intros Hw (Hw' & Hg & Hr)%create_good; [|done]. split_and!; [done|done|]. destruct r as [sha|]; [|done]. destruct Hr as (q & body & Ha & Hb & Hd).
  eapply makes_blob; [exact Hw|exact Ha|exact Hb|exact Hd|]. apply base64_roundtrip. by left.
Qed.

Lemma createTree_good w entries w' r : healthy w -> NoDup (map entry_path entries) -> createTree publisher ctx_Err w entries = (w', r) ->
  good w w' r (fun sha => trees (view w') !! sha = Some (files_of entries)).
Proof.
  intros Hw Hnd (Hw' & Hg & Hr)%create_good; [|done]. split_and!; [done|done|]. destruct r as [sha|]; [|done]. destruct Hr as (q & body & Ha & Hb & Hd).
  eapply makes_tree; [exact Hw|exact Hnd|exact Ha|exact Hb|exact Hd].
Qed.

Lemma createCommit_good w tree parent w' r : healthy w -> createCommit publisher ctx_Err w tree parent = (w', r) ->
  good w w' r (fun sha => commits (view w') !! sha = Some (tree, [parent])).
Proof.
  intros Hw (Hw' & Hg & Hr)%create_good; [|done]. split_and!; [done|done|]. destruct r as [sha|]; [|done]. destruct Hr as (q & body & Ha & Hb & Hd).
  eapply makes_commit; [exact Hw|exact Ha|exact Hb|exact Hd].
Qed.

(** A branch that was moved forward to a commit *)
Definition moved (g g' : git) (sha : bytes) : Prop :=
  exists g0 g1 old, grows g g0 /\ grows g0 g1 /\ grows g1 g' /\ refs g0 !! branch = Some old /\ ancestor g0 old sha /\ refs g1 !! branch = Some sha.

Lemma updateReference_good w sha w' r : healthy w -> updateReference publisher ctx_Err w sha = (w', r) ->
  healthy w' /\ grows (view w) (view w') /\ (r = None -> moved (view w) (view w') sha).
Proof.
  intros Hw. unfold updateReference. destruct (requestJSON _ _ _ _ _ _ _ _) as [w1 r1] eqn:Hq. apply requestJSON_answered in Hq as (Hw1 & Hg1 & Hok); [|done].
  destruct r1 as [x|]; [|by intros [= <- <-]]. destruct (Hok x eq_refl) as (q & body & Hask & Hans & Hdec).
  pose proof (moves_reference w q w1 _ sha body x Hw Hask Hans Hdec) as Hm. destruct (_ || _); intros [= <- <-]; by split_and!.
Qed.

Lemma create_blobs_good files : forall w w' r, healthy w -> create_blobs publisher ctx_Err w files = (w', r) ->
  good w w' r (fun entries => Forall2 (stored (view w')) files entries).
Proof.
  induction files as [|f files IH]; intros w w' r Hw; cbn [create_blobs]; [by intros [= <- <-]|].
  destruct (createBlob publisher ctx_Err w (file_Data f)) as [w1 r1] eqn:Hc. apply createBlob_good in Hc as (Hw1 & Hg1 & Hc); [|done].
  destruct r1 as [sha|]; [|by intros [= <- <-]].
  destruct (create_blobs publisher ctx_Err w1 files) as [w2 r2] eqn:Hb. apply IH in Hb as (Hw2 & Hg2 & Hb); [|done].
  assert (Hg12 : grows (view w) (view w2)) by (by etransitivity). destruct r2 as [entries|]; intros [= <- <-]; (split_and!; [done|done|]); [|done].
  constructor; [|done]. split; [done|]. by apply (lookup_weaken _ _ _ _ Hc), (gr_blobs _ _ Hg2).
Qed.

(** ** Publications *)

(** What a result promises: the commit holds the snapshot and the branch
    pointed to it; a new commit has one parent, which was a safe target. *)
Definition published (files : list File) (g g' : git) (r : Result) : Prop :=
  pointed g g' (CommitSHA r)
  /\ exists tree parents, commits g' !! CommitSHA r = Some (tree, parents) /\ holds g' tree files
  /\ (Changed r = true -> moved g g' (CommitSHA r)
       /\ exists head headTree ancestors sentinel, parents = [head] /\ pointed g g' head
            /\ commits g' !! head = Some (headTree, ancestors) /\ sentinel_in g' headTree sentinel).

Lemma reconcile_good files w0 w tree w' r : healthy w -> grows (view w0) (view w) -> holds (view w) tree files ->
  reconcileReferenceConflict publisher ctx_Err w tree = (w', r) ->
  good w0 w' r (fun x => published files (view w0) (view w') x).
Proof.
  intros Hw Hg0 Hh. unfold reconcileReferenceConflict. destruct (currentHead publisher ctx_Err w) as [w1 r1] eqn:Hc.
  apply currentHead_good in Hc as (Hw1 & Hg1 & Hc); [|done]. assert (Hg01 : grows (view w0) (view w1)) by (by etransitivity).
  destruct r1 as [head|]; [|by intros [= <- <-]]. destruct Hc as [Hname Hpt].
  destruct (commitTree publisher ctx_Err w1 head) as [w2 r2] eqn:Ht. apply commitTree_good in Ht as (Hw2 & Hg2 & Ht); [|done|done].
  assert (Hg02 : grows (view w0) (view w2)) by (by etransitivity). destruct r2 as [t|]; [|by intros [= <- <-]].
  destruct (bytes_eqb_spec t tree) as [->|]; cbn [negb]; intros [= <- <-]; (split_and!; [done|done|]); [|done]. destruct Ht as [_ [ps Ht]].
  split; [by apply (pointed_grows _ (view w) (view w1))|]. exists tree, ps. split_and!; [done|apply (holds_grows (view w)); [by etransitivity|done]|done].
Qed.

Lemma publish_tree_good files w0 w head tree sentinel ps w' r :
  NoDup (sentinelPath :: map file_Path files) -> healthy w -> grows (view w0) (view w) -> pointed (view w0) (view w) head ->
  commits (view w) !! head = Some (tree, ps) -> sentinel_in (view w) tree sentinel ->
  publish_tree publisher ctx_Err w head tree sentinel files = (w', r) ->
  good w0 w' r (fun x => published files (view w0) (view w') x).
Proof.
  intros Hnd Hw Hg0 Hpt Hcm Hse. unfold publish_tree.
  destruct (create_blobs publisher ctx_Err w files) as [w2 r2] eqn:Hb. apply create_blobs_good in Hb as (Hw2 & Hg2 & Hb); [|done].
  assert (Hg02 : grows (view w0) (view w2)) by (by etransitivity). destruct r2 as [entries|]; [|by intros [= <- <-]].
  destruct (createTree publisher ctx_Err w2 _) as [w3 r3] eqn:Ht.
  apply createTree_good in Ht as (Hw3 & Hg3 & Ht); [|done|cbn [map]; by rewrite (stored_paths _ _ _ Hb)].
  assert (Hg13 : grows (view w) (view w3)) by (by etransitivity). assert (Hg03 : grows (view w0) (view w3)) by (by etransitivity).
  destruct r3 as [newTree|]; [|by intros [= <- <-]].
  assert (Hholds : holds (view w3) newTree files).
  { exists (files_of (sentinel_entry sentinel :: entries)). split; [done|]. apply stored_holds.
    - eapply Forall2_impl; [exact Hb|]. intros f e. by apply stored_grows.
    - by destruct (sentinel_grows (view w) (view w3) tree sentinel Hg13 Hse) as (fs & _ & _ & Hd). }
  assert (Hpast : forall w'', grows (view w) (view w'') -> pointed (view w0) (view w'') head) by (intros w'' Hg; by apply (pointed_grows _ (view w0) (view w))).
  destruct (bytes_eqb_spec newTree tree) as [->|].
  { intros [= <- <-]. split_and!; [done|done|]. split; [by apply Hpast|]. exists tree, ps. split_and!; [by apply (commit_grows (view w))|done|done]. }
  destruct (createCommit publisher ctx_Err w3 newTree head) as [w4 r4] eqn:Hc. apply createCommit_good in Hc as (Hw4 & Hg4 & Hc); [|done].
  assert (Hg04 : grows (view w0) (view w4)) by (by etransitivity). destruct r4 as [commit|]; [|by intros [= <- <-]].
  destruct (updateReference publisher ctx_Err w4 commit) as [w5 r5] eqn:Hu. apply updateReference_good in Hu as (Hw5 & Hg5 & Hu); [|done].
  assert (Hg05 : grows (view w0) (view w5)) by (by etransitivity). assert (Hg35 : grows (view w3) (view w5)) by (by etransitivity).
  assert (Hg15 : grows (view w) (view w5)) by (by etransitivity). destruct r5 as [err|].
  - destruct (isReferenceConflict err); cbn [negb]; [|by intros [= <- <-]]. intros Hrec.
    apply (reconcile_good files w0) in Hrec; [done|done|done|by apply (holds_grows (view w3))].
  - intros [= <- <-]. destruct (Hu eq_refl) as (g0 & g1 & old & Hm1 & Hm2 & Hm3 & Hold & Hanc & Hnew). split_and!; [done|done|].
    assert (Hm : grows (view w0) g0) by (by transitivity (view w4)).
    assert (Hm' : grows (view w0) g1) by (by transitivity g0). split; [by exists g1|]. exists newTree, [head].
    split_and!; [by apply (commit_grows (view w4))|by apply (holds_grows (view w3))|]. intros _. split; [by exists g0, g1, old|].
    exists head, tree, ps, sentinel. split_and!; [done|by apply Hpast|by apply (commit_grows (view w))|by apply (sentinel_grows (view w))].
Qed.

Lemma publish_published files w w' r :
  healthy w -> publish publisher ctx_Err w files = (w', Ok r) -> published files (view w) (view w') r.
Proof.
  intros Hw. unfold publish. destruct (ctx_Err w); [done|]. destruct (negb _); [done|]. destruct (prepareSnapshot files) as [ordered|] eqn:Hprep; [|done].
  destruct (currentHead publisher ctx_Err w) as [w1 r1] eqn:Hc. apply currentHead_good in Hc as (Hw1 & Hg1 & Hc); [|done].
  destruct r1 as [head|]; [|done]. destruct Hc as [Hname Hpt].
  destruct (commitTree publisher ctx_Err w1 head) as [w2 r2] eqn:Ht. apply commitTree_good in Ht as (Hw2 & Hg2 & Ht); [|done|done].
  destruct r2 as [tree|]; [|done]. destruct Ht as [Htree [ps Ht]].
  destruct (verifySentinel publisher ctx_Err w2 tree) as [w3 r3] eqn:Hv. apply verifySentinel_good in Hv as (Hw3 & Hg3 & Hv); [|done|done].
  destruct r3 as [sentinel|]; [|done]. assert (Hg13 : grows (view w1) (view w3)) by (by transitivity (view w2)).
  assert (Hg03 : grows (view w) (view w3)) by (by transitivity (view w1)). intros Hpub.
  destruct (prepareSnapshot_ok _ _ Hprep) as (Hperm & Hvalid & Hnd).
  apply (publish_tree_good ordered w w3 head tree sentinel ps) in Hpub as (_ & _ & Hpub);
    [|constructor|done|done|by apply (pointed_grows _ (view w) (view w1))|by apply (commit_grows (view w2))|done].
  - destruct Hpub as (Hp & t & pps & Hcm & (fs & Hfs & Hall) & Hch). split; [done|].
    exists t, pps. split_and!; [done| |done]. exists fs. split; [done|]. by rewrite <- (snapshot_contents_perm ordered files).
  - rewrite list_elem_of_In, in_map_iff. intros (f & He & Hin%list_elem_of_In). rewrite Hperm in Hin. rewrite Forall_forall in Hvalid.
    by apply (sentinel_not_path f (Hvalid f Hin)).
  - by rewrite Hperm.
Qed.

(** C11: Whatever other clients do to the repository and whichever requests or
    responses are lost, a publication that succeeds names a commit of the
    repository whose tree is exactly the snapshot and the sentinel (every
    path, mode and content), and to which the branch pointed during the
    publication. If it reports a change, the branch was moved to that commit,
    a descendant of where it pointed, and the commit's only parent is the head
    that was read, whose tree had the sentinel. GitHub is the interface
    [GitDatabase], what its documentation says of the responses. The
    repository and branch are those the requests name: the configured ones
    if their names need no escaping in a path; otherwise, as the names are
    escaped twice, the ones named like their escaped form. *)
Theorem publish_exact files w w' r :
  healthy w -> publish publisher ctx_Err w files = (w', Ok r) ->
  published files (view w) (view w') r
  /\ (forallb segment_byte (Branch (config publisher)) = true -> addressed_branch = Branch (config publisher)).
Proof. intros Hw Hp. split; [by eapply publish_published|]. intros Hb. unfold addressed_branch. by apply PathEscape_id. Qed.
End Exact.
