(* ===== verification/DiskSound.v ===== *)
(** * The tree stays a tree

    Every operation keeps each node inside a directory, so that the facts about
    one write hold for any number of writes in a row. *)

From S2P Require Import Prelude GoText GoErrors GoPath GoNetip GoJson GoTime GoEncoding Netguard PublicData.
From S2P Require Import SnapshotFiles Disk DiskFacts.

(** The tree is closed, has its working directory, and temporary names have no
    slash. *)
Record sound (d : disk) : Prop := {
  so_closed : closed (tree d);
  so_root : tree d !! [] = Some Directory;
  so_entropy : "/"%char ∉ entropy d;
}.

Lemma sound_tree d d' : tree d' = tree d -> entropy d' = entropy d -> sound d -> sound d'.
Proof. intros Ht He [H1 H2 H3]. split; by rewrite ?Ht, ?He. Qed.

Lemma closed_leaf T k s : closed T -> T !! k <> Some Directory -> s <> [] -> T !! (k ++ s) = None.
Proof.
  intros Hc Hk Hs. destruct s as [|e s]; [done|]. rewrite (app_assoc k [e] s : k ++ e :: s = (k ++ [e]) ++ s).
  apply closed_below; [done|]. destruct (T !! (k ++ [e])) eqn:He; [|done]. destruct Hk. apply (Hc k e). by rewrite He.
Qed.

(** A node in a directory; below it there is nothing, or it is a directory. *)
Lemma closed_insert T P e n : closed T -> T !! P = Some Directory -> (n = Directory \/ T !! (P ++ [e]) <> Some Directory) ->
  closed (<[P ++ [e] := n]> T).
Proof.
  intros Hc HP Hn k x. destruct (decide (k = P ++ [e])) as [->|Hk].
  - rewrite lookup_insert_eq. destruct Hn as [->|Hn]; [done|]. rewrite lookup_insert_ne.
    + rewrite (closed_leaf T (P ++ [e]) [x]) by done. by intros [? ?].
    + intros He%(f_equal length). rewrite !length_app in He. cbn in He. lia.
  - rewrite (lookup_insert_ne _ (P ++ [e]) k) by done. destruct (decide (k ++ [x] = P ++ [e])) as [[-> ->]%app_inj_tail|Hne]; [done|].
    rewrite lookup_insert_ne by done. apply Hc.
Qed.

Lemma closed_delete T k : closed T -> T !! k <> Some Directory -> closed (delete k T).
Proof.
  intros Hc Hk q x. rewrite lookup_delete_is_Some. intros [Hne Hs]. pose proof (Hc q x Hs) as Hq. rewrite lookup_delete_ne; [done|].
  intros ->. by rewrite Hq in Hk.
Qed.

Lemma closed_mkdirs T p : closed T -> T !! [] = Some Directory -> closed (list_to_map (map (fun q => (q, Directory)) (prefixes p)) ∪ T).
Proof.
  intros Hc Hr k x. rewrite !mkdirs_lookup. destruct (bool_decide_reflect (k ++ [x] ∈ prefixes p)) as [[_ Hp]%prefixes_elem|_].
  - intros _. destruct (decide (k = [])) as [->|Hne]; [by rewrite bool_decide_eq_false_2 by (by intros [? _]%prefixes_elem)|].
    rewrite bool_decide_eq_true_2; [done|]. apply prefixes_elem. split; [done|]. etransitivity; [|exact Hp]. by apply prefix_app_r.
  - intros Hs. rewrite (Hc k x Hs). by destruct (bool_decide _).
Qed.

Lemma closed_move T old new : closed T -> ~ old `prefix_of` new /\ ~ new `prefix_of` old -> T !! new = None -> is_directory T (removelast new) = true ->
  closed (kmap (swap old new) T).
Proof.
  intros Hc Hap Hnew Hdir k x. rewrite !kmap_swap by done.
  destruct (decide (old `prefix_of` k ++ [x])) as [[s Hs]|Ho].
  { rewrite Hs, swap_old by done. rewrite closed_below by done. by intros [? ?]. }
  assert (Hok : ~ old `prefix_of` k) by (intros Hp; apply Ho; by apply prefix_app_r).
  destruct (decide (new `prefix_of` k ++ [x])) as [[s Hs]|Hn].
  - destruct s as [|y s _] using rev_ind.
    + rewrite app_nil_r in Hs. subst new. rewrite removelast_last in Hdir. intros _. rewrite swap_other; [|done|].
      * unfold is_directory in Hdir. by destruct (T !! k) as [[]|].
      * intros Hp%prefix_length. rewrite length_app in Hp. cbn in Hp. lia.
    + rewrite app_assoc in Hs. apply app_inj_tail in Hs as [-> <-]. rewrite <- app_assoc, !swap_new by done. rewrite app_assoc. apply Hc.
  - rewrite !swap_other; [apply Hc|done| |done|done]. intros Hp. apply Hn. by apply prefix_app_r.
Qed.

Lemma closed_filter T S : closed T -> closed (filter (fun kn => ~ S `prefix_of` kn.1) T : gmap (list bytes) node).
Proof.
  intros Hc k x [n (Hn & Hp)%map_lookup_filter_Some]. cbn in Hp. apply map_lookup_filter_Some. split; [apply (Hc k x); by rewrite Hn|].
  cbn. intros Hk. apply Hp. by apply prefix_app_r.
Qed.

(** ** The operations *)

Lemma sound_next d : sound d -> sound (mkDisk (tree d) (tail (faults d)) (entropy d) (S (ticks d))).
Proof. by apply sound_tree. Qed.

Lemma sound_set d T : sound d -> closed T -> T !! [] = Some Directory -> sound (set_tree T d).
Proof. intros [_ _ He] Hc Hr. by split. Qed.
#[local] Hint Resolve sound_next sound_set : core.

Ltac sound_cases Hm := attempt_in Hm; cbn [tree entropy faults ticks] in Hm; [by injection Hm as <- _; auto|].

Lemma Lstat_sound d name d' r : sound d -> disk_Lstat d name = (d', r) -> sound d'.
Proof. intros Hs Hm%Lstat_disk. destruct Hm as (Ht & He & _). by apply (sound_tree d). Qed.

Lemma MkdirTemp_sound d a d' r : sound d -> disk_MkdirTemp d a = (d', r) -> sound d'.
Proof.
  intros Hs. unfold disk_MkdirTemp. destruct a as [dir pattern]. cbv zeta. intros Hm. sound_cases Hm.
  destruct (is_directory (tree d) (resolve dir)) eqn:Hd; cbn [negb] in Hm; [|injection Hm as <- _; auto].
  destruct (tree d !! _) eqn:Hk; [injection Hm as <- _; auto|]. apply pair_equal_spec in Hm as [<- _]. destruct Hs as [Hc Hr He].
  assert (Hdir : tree d !! resolve dir = Some Directory) by (unfold is_directory in Hd; by destruct (tree d !! resolve dir) as [[]|]).
  split; cbn [tree set_tree entropy]; [apply closed_insert; [done|done|by left]| |done].
  rewrite lookup_insert_ne; [done|]. by destruct (resolve dir).
Qed.

Lemma Chmod_sound d a d' r : sound d -> disk_Chmod d a = (d', r) -> sound d'.
Proof. intros Hs. unfold disk_Chmod. intros Hm. sound_cases Hm. injection Hm as <- _. auto. Qed.

Lemma MkdirAll_sound d a d' r : sound d -> disk_MkdirAll d a = (d', r) -> sound d'.
Proof.
  intros Hs. unfold disk_MkdirAll. cbv zeta. intros Hm. sound_cases Hm. destruct (existsb _ _); injection Hm as <- _; [auto|].
  destruct Hs as [Hc Hr He]. split; cbn [tree set_tree entropy]; [by apply closed_mkdirs| |done].
  rewrite mkdirs_lookup. by rewrite bool_decide_eq_false_2 by (by intros [? _]%prefixes_elem).
Qed.

Lemma write_node_sound d k data result d' r : sound d -> write_node d k data result = (d', r) -> sound d'.
Proof.
  intros Hs. unfold write_node. destruct (is_directory (tree d) (removelast k)) eqn:Hd; cbn [negb]; [|by intros [= <- _]].
  assert (Hdir : tree d !! removelast k = Some Directory) by (unfold is_directory in Hd; by destruct (tree d !! removelast k) as [[]|]).
  destruct k as [|e k _] using rev_ind; [rewrite (so_root _ Hs); by intros [= <- _]|]. rewrite removelast_last in Hdir.
  assert (Hw : tree d !! (k ++ [e]) <> Some Directory -> sound (set_tree (<[k ++ [e] := Regular data]> (tree d)) d)).
  { intros Hn. destruct Hs as [Hc Hr He]. split; cbn [tree set_tree entropy]; [apply closed_insert; [done|done|by right]| |done].
    rewrite lookup_insert_ne; [done|]. by destruct k. }
  destruct (tree d !! (k ++ [e])) as [[]|] eqn:Hn; intros [= <- _]; auto; apply Hw; done.
Qed.

Lemma WriteFile_sound d a d' r : sound d -> disk_WriteFile d a = (d', r) -> sound d'.
Proof. intros Hs. unfold disk_WriteFile. destruct a as [[name data] mode]. intros Hm. attempt_in Hm; apply write_node_sound in Hm; auto. Qed.

Lemma Rename_sound d a d' r : sound d -> disk_Rename d a = (d', r) -> sound d'.
Proof.
  intros Hs. unfold disk_Rename. cbv zeta. set (old := resolve (fst a)). set (new := resolve (snd a)). intros Hm. sound_cases Hm.
  destruct (bool_decide_reflect (old `prefix_of` new)) as [|H1]; cbn [orb] in Hm; [injection Hm as <- _; auto|].
  destruct (bool_decide_reflect (new `prefix_of` old)) as [|H2]; cbn [orb] in Hm; [injection Hm as <- _; auto|].
  assert (Hnil : new <> [] /\ old <> []) by (split; intros He; [apply H2|apply H1]; rewrite He; apply prefix_nil). destruct Hnil as [Hnew Hold].
  destruct (tree d !! old) as [n|] eqn:Hno; [|injection Hm as <- _; auto]. destruct (tree d !! new) as [m|] eqn:Hnn.
  - destruct (IsDir (node_kind n)) eqn:Hdn; cbn [orb] in Hm; [injection Hm as <- _; auto|]. destruct (IsDir (node_kind m)) eqn:Hdm; [injection Hm as <- _; auto|].
    injection Hm as <- _. destruct Hs as [Hc Hr He]. assert (Ho : tree d !! old <> Some Directory) by (rewrite Hno; by destruct n).
    assert (Hc' : closed (delete old (tree d))) by (by apply closed_delete).
    destruct new as [|e k _] using rev_ind; [done|]. split; cbn [tree set_tree entropy]; [| |done].
    + apply closed_insert; [done| |].
      * rewrite lookup_delete_ne; [apply (Hc k e); by rewrite Hnn|]. intros ->. apply Ho. apply (Hc k e). by rewrite Hnn.
      * right. rewrite lookup_delete_ne by (intros ->; by apply H1). rewrite Hnn. by destruct m.
    + rewrite lookup_insert_ne by (by destruct k). rewrite lookup_delete_ne; [done|]. by destruct old.
  - destruct (is_directory (tree d) (removelast new)) eqn:Hd; injection Hm as <- _; [|auto]. destruct Hs as [Hc Hr He].
    split; cbn [tree set_tree entropy]; [by apply closed_move| |done]. rewrite kmap_swap by done. rewrite swap_other; [done|by intros ->%prefix_nil_inv|by intros ->%prefix_nil_inv].
Qed.

Lemma RemoveAll_sound d name d' r : sound d -> disk_RemoveAll d name = (d', r) -> sound d'.
Proof.
  intros Hs. unfold disk_RemoveAll. intros Hm. sound_cases Hm. case_bool_decide as Hn; injection Hm as <- _; [auto|]. destruct Hs as [Hc Hr He].
  split; cbn [tree set_tree entropy]; [by apply closed_filter| |done]. apply map_lookup_filter_Some. split; [done|]. cbn. intros Hp%prefix_nil_inv. done.
Qed.

(** ** The writer *)

Ltac op_sound := repeat match goal with
  | Hs : sound ?d, Hm : disk_Lstat ?d _ = (?d', _) |- _ => pose proof (Lstat_sound _ _ _ _ Hs Hm); clear Hm
  | Hs : sound ?d, Hm : disk_MkdirTemp ?d _ = (?d', _) |- _ => pose proof (MkdirTemp_sound _ _ _ _ Hs Hm); clear Hm
  | Hs : sound ?d, Hm : disk_Chmod ?d _ = (?d', _) |- _ => pose proof (Chmod_sound _ _ _ _ Hs Hm); clear Hm
  | Hs : sound ?d, Hm : disk_MkdirAll ?d _ = (?d', _) |- _ => pose proof (MkdirAll_sound _ _ _ _ Hs Hm); clear Hm
  | Hs : sound ?d, Hm : disk_WriteFile ?d _ = (?d', _) |- _ => pose proof (WriteFile_sound _ _ _ _ Hs Hm); clear Hm
  | Hs : sound ?d, Hm : disk_Rename ?d _ = (?d', _) |- _ => pose proof (Rename_sound _ _ _ _ Hs Hm); clear Hm
  | Hs : sound ?d, Hm : disk_RemoveAll ?d _ = (?d', _) |- _ => pose proof (RemoveAll_sound _ _ _ _ Hs Hm); clear Hm
  end.

Lemma ensure_sound d parent root d' r : sound d -> ensureDestinationAvailable d parent root = (d', r) -> sound d'.
Proof. intros Hs Hm%ensure_disk. destruct Hm as (Ht & He & _). by apply (sound_tree d). Qed.

Lemma write_files_sound ctx staging files : forall d d' r, sound d -> write_files ctx d staging files = (d', r) -> sound d'.
Proof.
  induction files as [|f files IH]; intros d d' r Hs; cbn [write_files]; [by intros [= <- _]|].
  destruct (checkWriterContext ctx d); [by intros [= <- _]|]. cbv zeta. cbn [fs_MkdirAll fs_WriteFile disk_fs].
  destruct (disk_MkdirAll d _) as [d1 [err|]] eqn:H1; op_sound; [by intros [= <- _]|].
  destruct (disk_WriteFile d1 _) as [d2 [err|]] eqn:H2; op_sound; [by intros [= <- _]|]. by apply IH.
Qed.

Lemma writeDirectory_sound ctx d root files d' r : sound d -> writeDirectory ctx d root files = (d', r) -> sound d'.
Proof.
  intros Hs. unfold writeDirectory. destruct (checkWriterContext ctx d); [by intros [= <- _]|].
  destruct (outputRootParts root) as [[[c parent] base]|]; [|by intros [= <- _]]. destruct (validateLogicalFiles files); [by intros [= <- _]|].
  destruct (ensureDestinationAvailable d parent c) as [d1 [err|]] eqn:H1; apply ensure_sound in H1; try done; [by intros [= <- _]|].
  destruct (checkWriterContext ctx d1); [by intros [= <- _]|]. cbn [fs_MkdirTemp fs_RemoveAll disk_fs].
  destruct (disk_MkdirTemp d1 _) as [d2 [staging|err]] eqn:H2; op_sound; [|by intros [= <- _]].
  destruct (publish_staging ctx d2 parent c staging files) as [d3 r3] eqn:H3. intros [= <- _].
  assert (Hs3 : sound d3).
  { revert H3. unfold publish_staging. cbn [fs_Chmod fs_Rename disk_fs]. destruct (disk_Chmod d2 _) as [d4 [err|]] eqn:H4; op_sound; [by intros [= <- _]|].
    destruct (write_files ctx d4 staging files) as [d5 [err|]] eqn:H5; apply write_files_sound in H5; try done; [by intros [= <- _]|].
    destruct (checkWriterContext ctx d5); [by intros [= <- _]|].
    destruct (ensureDestinationAvailable d5 parent c) as [d6 [err|]] eqn:H6; apply ensure_sound in H6; try done; [by intros [= <- _]|].
    destruct (disk_Rename d6 _) as [d7 [err|]] eqn:H7; op_sound; by intros [= <- _]. }
  destruct (disk_RemoveAll d3 staging) as [d4 r4] eqn:H4. by op_sound.
Qed.
