(* ===== verification/RegistryService.v ===== *)
(** * Exporting and publishing the registry
      ([cmd/joshbot/registry_interval.go], [publish_config.go], and [export]
      and [publish] of [runtime.go])

    Two processes share a directory: the exporter writes snapshots into it and
    moves a pointer file to the newest, the publisher follows the pointer. The
    loops run until they are stopped; a fuel counts their passes. Log lines are
    not modelled. *)

From S2P Require Import Prelude GoText GoErrors GoUrl GoPath GoJson GoTime GoEncoding Netguard Declaration Registry PublicData SnapshotFiles GitHubPublish.

Definition defaultRegistryPublishInterval : Z := 15 * Minute.
Definition defaultRegistryExportRoot : bytes := bs "/exports".
Definition registryCurrentName : bytes := bs "registry-current".
Definition automaticSnapshotPrefix : bytes := bs ".joshbot-automatic-".
Definition registryPublishFollowInterval : Z := 5 * Second.
Definition registryPublishMaxBackoff : Z := 5 * Minute.

(** ** Configuration *)

Abbreviation environmentGetter := (option (bytes -> bytes)) (only parsing).

(** [time.ParseDuration] *)
Class Durations := { time_ParseDuration : bytes -> option Z }.

Definition loadRegistryPublishInterval `{Durations} (getenv : environmentGetter) : res error Z :=
  match getenv with
  | None => Err (errors_New errInvalidRegistryInterval)
  | Some getenv =>
      let value := getenv (bs "JOSHBOT_REGISTRY_PUBLISH_INTERVAL") in
      if bytes_eqb value [] then Ok defaultRegistryPublishInterval
      else
        match time_ParseDuration value with
        | None => Err (errors_New errInvalidRegistryInterval)
        | Some interval => if interval <=? 0 then Err (errors_New errInvalidRegistryInterval) else Ok interval
        end
  end.

Definition validRegistryExportRoot (root : bytes) : bool :=
  let clean := path_Clean root in
  negb (bytes_eqb root [] || negb (bytes_eqb clean root) || negb (is_rooted root) || bytes_eqb clean (bs "/") || ContainsText root (bs "..")).

Definition loadRegistryExportRoot (getenv : environmentGetter) : res error bytes :=
  match getenv with
  | None => Err (errors_New errInvalidRegistryExportRoot)
  | Some getenv =>
      let value := getenv (bs "JOSHBOT_REGISTRY_EXPORT_ROOT") in
      let root := if bytes_eqb value [] then defaultRegistryExportRoot else value in
      if negb (validRegistryExportRoot root) then Err (errors_New errInvalidRegistryExportRoot) else Ok root
  end.

Definition defaultPublishBranch : bytes := bs "main".
Definition maxGitHubTokenSize : Z := 4096.

Record publishSettings : Type := mkPublishSettings { settings_target : Config; settings_token : bytes }.

Definition validGitHubTokenFileValue (token : bytes) : bool :=
  utf8_Valid token && bytes_eqb (TrimSpace token) token && negb (existsb (fun c => (code c <? 32) || (code c =? 127)) token).

(** The bytes without one trailing [c] *)
Definition trim_last (c : ascii) (data : bytes) : bytes :=
  match rev data with last :: _ => if byte_eqb last c then removelast data else data | [] => data end.

(** [stream] is what reading the file yields. *)
Definition readGitHubToken (stream : res error bytes) : res error bytes :=
  match stream with
  | Err _ => Err (errors_New errReadGitHubTokenFile)
  | Ok stream =>
      let data := take (Z.to_nat (maxGitHubTokenSize + 2)) stream in
      let data := trim_last (chr 13) (trim_last (chr 10) data) in
      if bytes_eqb data [] then Err (errors_New errEmptyGitHubToken)
      else if maxGitHubTokenSize <? Z.of_nat (length data) then Err (errors_New errGitHubTokenTooLarge)
      else if negb (validGitHubTokenFileValue data) then Err (errors_New errInvalidGitHubToken)
      else Ok data
  end.

(** [os.Open] of a token file, and what reading it yields *)
Definition readGitHubTokenFile (os_Open : bytes -> res error (res error bytes)) (path : bytes) : res error bytes :=
  match os_Open path with
  | Err _ => Err (errors_New errOpenGitHubTokenFile)
  | Ok file => readGitHubToken file
  end.

Definition loadPublishSettings (os_Open : bytes -> res error (res error bytes)) (getenv : bytes -> bytes) : res error publishSettings :=
  let owner := getenv (bs "JOSHBOT_PUBLISH_GITHUB_OWNER") in
  let repository := getenv (bs "JOSHBOT_PUBLISH_GITHUB_REPOSITORY") in
  let branch := getenv (bs "JOSHBOT_PUBLISH_GITHUB_BRANCH") in
  let tokenFile := getenv (bs "JOSHBOT_GITHUB_TOKEN_FILE") in
  if bytes_eqb owner [] || bytes_eqb repository [] || bytes_eqb tokenFile [] then Err (errors_New errInvalidPublishConfiguration)
  else
    let branch := if bytes_eqb branch [] then defaultPublishBranch else branch in
    match readGitHubTokenFile os_Open tokenFile with
    | Err err => Err err
    | Ok token => Ok (mkPublishSettings (mkConfig owner repository branch) token)
    end.

(** ** Names of snapshots *)

(** The expression [automaticSnapshotName] *)
Definition validAutomaticSnapshotName (name : bytes) : bool :=
  let rest := drop (length automaticSnapshotPrefix) name in
  HasPrefix name automaticSnapshotPrefix && (length rest =? 49)%nat
  && forallb is_digit (take 8 rest) && bytes_eqb (take 1 (drop 8 rest)) (bs "T")
  && forallb is_digit (take 6 (drop 9 rest)) && bytes_eqb (take 2 (drop 15 rest)) (bs "Z-")
  && forallb isLowerHexByte (drop 17 rest).

(** A year is padded to four digits; earlier and later ones are longer. *)
Definition year_text (y : Z) : bytes :=
  if (0 <=? y) && (y <=? 9999) then fixed_digits 4 y
  else if y <? 0 then bs "-" ++ (if -9999 <=? y then fixed_digits 4 (- y) else FormatUint (- y)) else FormatUint y.

(** [now.UTC().Format("20060102T150405Z")] *)
Definition snapshot_time (t : Z) : bytes :=
  let date := civil_of_days (t / Day) in
  let s := t mod Day in
  year_text (civil_year date) ++ fixed_digits 2 (civil_month date) ++ fixed_digits 2 (civil_day date) ++ bs "T"
    ++ fixed_digits 2 (s / Hour) ++ fixed_digits 2 (s / Minute mod 60) ++ fixed_digits 2 (s / Second mod 60) ++ bs "Z".

(** [random] reads sixteen bytes; nil is [None]. *)
Definition automaticSnapshotNameFor {W} (random : option (call W unit (option bytes))) (w : W) (now : Z) : W * res error bytes :=
  match random with
  | None => (w, Err (errors_New errRegistryEntropyUnavailable))
  | Some read =>
      match read w tt with
      | (w, None) => (w, Err (errors_New errRegistryEntropyUnavailable))
      | (w, Some entropy) => (w, Ok (automaticSnapshotPrefix ++ snapshot_time now ++ bs "-" ++ hex_EncodeToString entropy))
      end
  end.

(** ** The pointer *)

(** [os.ReadFile], [os.Lstat] and the names [os.ReadDir] returns *)
Class ExportFiles (W : Type) := {
  os_ReadFile : call W bytes (res error bytes);
  os_Lstat : call W bytes (res error FileKind);
  os_ReadDir : call W bytes (res error (list bytes));
}.

Definition newline : bytes := [chr 10].

Definition readRegistryPointer {W} `{ExportFiles W} (w : W) (root : bytes) : W * res error bytes :=
  match os_ReadFile w (path_Join root registryCurrentName) with
  | (w, Err err) => (w, Err err)
  | (w, Ok data) =>
      let name := TrimSuffix data newline in
      if negb (HasSuffix data newline) || Contains name (chr 10) || negb (validAutomaticSnapshotName name)
      then (w, Err (errors_New errInvalidRegistryPointer)) else (w, Ok name)
  end.

Definition usableAutomaticSnapshot {W} `{ExportFiles W} (w : W) (path : bytes) : W * option error :=
  match os_Lstat w path with
  | (w, Err err) => (w, Some err)
  | (w, Ok info) => if IsSymlink info || negb (IsDir info) then (w, Some (errors_New errInvalidRegistryPointer)) else (w, None)
  end.

Definition writeRegistryPointer {W} `{FileSystem W} (w : W) (root name : bytes) : W * option error :=
  if negb (validAutomaticSnapshotName name) then (w, Some (errors_New errInvalidRegistryPointer))
  else
    let pointer := path_Join root registryCurrentName in
    let temporary := pointer ++ bs ".tmp" in
    match fs_WriteFile w (temporary, name ++ newline, 420) with
    | (w, Some err) => (w, Some err)
    | (w, None) => fs_Rename w (temporary, pointer)
    end.

(** ** The exporter *)

(** How a pass of a loop ends: the loop returns, or goes on with its state *)
Inductive pass_end (S : Type) : Type := Returns (err : option error) | Continues (state : S).
Arguments Returns {S} err.
Arguments Continues {S} state.

Section Exporting.
Context {W : Type} `{FileSystem W} `{ExportFiles W}.

Fixpoint remove_entries (w : W) (root current previous : bytes) (names : list bytes) : W * option error :=
  match names with
  | [] => (w, None)
  | name :: rest =>
      if negb (validAutomaticSnapshotName name) then remove_entries w root current previous rest
      else if bytes_eqb name current || bytes_eqb name previous then remove_entries w root current previous rest
      else
        match fs_RemoveAll w (path_Join root name) with
        | (w, Some err) => (w, Some err)
        | (w, None) => remove_entries w root current previous rest
        end
  end.

Definition removeOldAutomaticSnapshots (w : W) (root current previous : bytes) : W * option error :=
  match os_ReadDir w root with
  | (w, Err err) => (w, Some err)
  | (w, Ok names) => remove_entries w root current previous names
  end.

(** [export]: the registry of the database, if it could be opened and read,
    written to a directory. *)
Definition export `{SHA256} (query : call W unit (res error (list RegistryOrigin))) (ctx : context W) : call W bytes (option error) :=
  fun w root =>
    match query w tt with
    | (w, Err err) => (w, Some (wrap err))
    | (w, Ok registry) =>
        match BuildRegistry registry with
        | Err err => (w, Some (wrap err))
        | Ok files => writeDirectory ctx w root files
        end
    end.

Variable ctx_Err : W -> option error.
Variable interval : Z.
Variable root : bytes.
Variable exporting : call W bytes (option error).
Variable now : W -> Z.
Variable sleep : call W Z (option error).
Variable random : option (call W unit (option bytes)).

(** One pass up to the wait; the state is the name of the previous snapshot. *)
Definition export_once (w : W) (previous : bytes) : W * pass_end bytes :=
  match automaticSnapshotNameFor random w (now w) with
  | (w, Err _) => (w, Continues previous)
  | (w, Ok name) =>
      let path := path_Join root name in
      let '(w, exportErr) :=
        match exporting w path with
        | (w, None) => writeRegistryPointer w root name
        | (w, Some err) => (w, Some err)
        end in
      match exportErr with
      | Some err =>
          match fs_RemoveAll w path with
          | (w, Some cleanupErr) => (w, Returns (Some (join err cleanupErr)))
          | (w, None) => match ctx_Err w with Some _ => (w, Returns None) | None => (w, Continues previous) end
          end
      | None =>
          match removeOldAutomaticSnapshots w root name previous with
          | (w, Some err) => (w, Returns (Some (wrap err)))
          | (w, None) => (w, Continues name)
          end
      end
  end.

Definition export_pass (w : W) (previous : bytes) : W * pass_end bytes :=
  match ctx_Err w with
  | Some _ => (w, Returns None)
  | None =>
      match export_once w previous with
      | (w, Continues previous) =>
          match sleep w interval with
          | (w, Some _) => (w, Returns None)
          | (w, None) => (w, Continues previous)
          end
      | stopped => stopped
      end
  end.

Fixpoint export_loop (fuel : nat) (w : W) (previous : bytes) : W * pass_end bytes :=
  match fuel with
  | O => (w, Continues previous)
  | S fuel =>
      match export_pass w previous with
      | (w, Continues previous) => export_loop fuel w previous
      | stopped => stopped
      end
  end.

Definition runRegistryExport (fuel : nat) (w : W) : W * pass_end bytes :=
  match ctx_Err w with
  | Some _ => (w, Returns None)
  | None =>
      let '(w, pointer) := readRegistryPointer w root in
      match (match pointer with
             | Ok previous => Ok previous
             | Err err => if errors_Is err os_ErrNotExist then Ok [] else Err err
             end) with
      | Err err => (w, Returns (Some (wrap err)))
      | Ok previous =>
          match removeOldAutomaticSnapshots w root previous [] with
          | (w, Some err) =>
              if errors_Is err os_ErrNotExist then export_loop fuel w previous else (w, Returns (Some (wrap err)))
          | (w, None) => export_loop fuel w previous
          end
      end
  end.
End Exporting.

(** ** The publisher *)

(** [publish]: the settings, the snapshot, a publisher and its call. The
    snapshot is read from the files [F], the publication changes [G]. *)
Definition publish_snapshot {F G} `{NetURL} `{SnapshotDirectory F} `{GitHubJSON} `{GitHubClient G}
    (settings : res error publishSettings) (filesCtx : context F) (ctx : context G) (w : F * G) (root : bytes) : option (F * G * res error Result) :=
  match settings with
  | Err err => Some (w, Err (wrap err))
  | Ok settings =>
      match readDirectory defaultReaderLimits filesCtx (fst w) root with
      | None => None
      | Some (f, Err err) => Some ((f, snd w), Err (wrap err))
      | Some (f, Ok files) =>
          match New (settings_target settings) (settings_token settings) with
          | Err err => Some ((f, snd w), Err (wrap err))
          | Ok publisher =>
              match Publish publisher ctx (snd w) files with
              | (g, Err err) => Some ((f, g), Err (wrap err))
              | (g, Ok result) => Some ((f, g), Ok result)
              end
          end
      end
  end.

(** The state of the loop: what was published last, and the next backoff *)
Record follower : Type := mkFollower { published_name : bytes; backoff : Z }.
Definition new_follower : follower := mkFollower [] registryPublishFollowInterval.

Section Follow.
Context {W : Type} `{ExportFiles W}.
Variable ctx_Err : W -> option error.
Variable root : bytes.
Variable publishing : call W bytes (res error Result).
Variable sleep : call W Z (option error).

Definition next_backoff (backoff : Z) : Z :=
  if registryPublishMaxBackoff <? 2 * backoff then registryPublishMaxBackoff else 2 * backoff.

(** One pass up to the wait: the next state and the delay *)
Definition publish_once (w : W) (st : follower) : W * pass_end (follower * Z) :=
  match readRegistryPointer w root with
  | (w, Err _) => (w, Continues (st, registryPublishFollowInterval))
  | (w, Ok name) =>
      if bytes_eqb name (published_name st) then (w, Continues (st, registryPublishFollowInterval))
      else
        let snapshot := path_Join root name in
        match usableAutomaticSnapshot w snapshot with
        | (w, Some _) => (w, Continues (st, registryPublishFollowInterval))
        | (w, None) =>
            match publishing w snapshot with
            | (w, Err _) =>
                match ctx_Err w with
                | Some _ => (w, Returns None)
                | None => (w, Continues (mkFollower (published_name st) (next_backoff (backoff st)), backoff st))
                end
            | (w, Ok _) => (w, Continues (mkFollower name registryPublishFollowInterval, registryPublishFollowInterval))
            end
        end
  end.

Definition publish_pass (w : W) (st : follower) : W * pass_end follower :=
  match ctx_Err w with
  | Some _ => (w, Returns None)
  | None =>
      match publish_once w st with
      | (w, Returns err) => (w, Returns err)
      | (w, Continues (st, delay)) =>
          match sleep w delay with
          | (w, Some _) => (w, Returns None)
          | (w, None) => (w, Continues st)
          end
      end
  end.

Fixpoint publish_loop (fuel : nat) (w : W) (st : follower) : W * pass_end follower :=
  match fuel with
  | O => (w, Continues st)
  | S fuel =>
      match publish_pass w st with
      | (w, Continues st) => publish_loop fuel w st
      | stopped => stopped
      end
  end.

Definition runRegistryPublish (fuel : nat) (w : W) : W * pass_end follower := publish_loop fuel w new_follower.
End Follow.

(** ** The commands *)

Section Commands.
Context {W : Type} `{FileSystem W} `{ExportFiles W} `{Durations}.
Variable getenv : environmentGetter.
Variable logger : bool.
Variable ctx_Err : W -> option error.
Variable sleep : call W Z (option error).

(** [random] is the operation's source of randomness or that of the system. *)
Definition exportRegistry (exporting : call W bytes (option error)) (now : W -> Z) (random : call W unit (option bytes)) (fuel : nat) (w : W)
    : W * pass_end bytes :=
  match loadRegistryPublishInterval getenv with
  | Err err => (w, Returns (Some err))
  | Ok interval =>
      match loadRegistryExportRoot getenv with
      | Err err => (w, Returns (Some err))
      | Ok root =>
          if negb logger then (w, Returns (Some (errors_New errRegistryLoggerUnavailable)))
          else runRegistryExport ctx_Err interval root exporting now sleep (Some random) fuel w
      end
  end.

Definition publishRegistry (publishing : call W bytes (res error Result)) (fuel : nat) (w : W) : W * pass_end follower :=
  match loadRegistryPublishInterval getenv with
  | Err err => (w, Returns (Some err))
  | Ok _ =>
      match loadRegistryExportRoot getenv with
      | Err err => (w, Returns (Some err))
      | Ok root =>
          if negb logger then (w, Returns (Some (errors_New errRegistryLoggerUnavailable)))
          else runRegistryPublish ctx_Err root publishing sleep fuel w
      end
  end.
End Commands.

(** * The pointer of the exporter *)

From S2P Require Import GoNetip.
From S2P Require Import Disk DiskFacts DiskSound.

#[local] Set Warnings "-clear-no-such-hyp".

(** ** The export directory on disk *)

Definition disk_ReadFile (d : disk) (name : bytes) : disk * res error bytes :=
  attempt d (fun d => (d, Err io_error))
    (fun d => (d, match tree d !! resolve name with Some (Regular data) => Ok data | Some _ => Err io_error | None => Err not_exist end)).
Definition disk_ReadDir (d : disk) (name : bytes) : disk * res error (list bytes) :=
  attempt d (fun d => (d, Err io_error))
    (fun d => (d, if is_directory (tree d) (resolve name) then Ok (map fst (children (tree d) (resolve name))) else Err not_exist)).

#[export] Instance disk_files : ExportFiles disk := {|
  os_ReadFile := disk_ReadFile;
  os_Lstat := disk_Lstat;
  os_ReadDir := disk_ReadDir;
|}.

Definition same (d d' : disk) : Prop := tree d' = tree d /\ entropy d' = entropy d.
Lemma same_sound d d' : same d d' -> sound d -> sound d'.
Proof. intros [Ht He]. by apply sound_tree. Qed.

Lemma ReadFile_disk d name d' r : disk_ReadFile d name = (d', r) -> same d d'
  /\ match r with
     | Ok data => tree d !! resolve name = Some (Regular data)
     | Err err => errors_Is err os_ErrNotExist = true -> tree d !! resolve name = None
     end.
Proof.
  unfold disk_ReadFile. intros Hm. attempt_in Hm; injection Hm as <- <-; (split; [done|]); [by vm_compute|].
  cbn [tree]. destruct (tree d !! resolve name) as [[]|]; try done; by vm_compute.
Qed.
Lemma ReadDir_disk d name d' r : disk_ReadDir d name = (d', r) -> same d d'.
Proof. unfold disk_ReadDir. intros Hm. attempt_in Hm; by injection Hm as <- _. Qed.

(** ** Names *)

Lemma valid_name_text name : validAutomaticSnapshotName name = true -> exists rest, name = automaticSnapshotPrefix ++ rest
  /\ forallb (fun c => is_digit c || isLowerHexByte c || byte_eqb c "T" || byte_eqb c "Z" || byte_eqb c "-") rest = true.
Proof.
  unfold validAutomaticSnapshotName. cbv zeta. intros Hv. b2p.
  match goal with H : HasPrefix _ _ = true |- _ => apply HasPrefix_spec in H as [rest ->] end. rewrite drop_app_length in *. exists rest. split; [done|].
  set (ok := fun c => _). assert (Hparts : rest = take 8 rest ++ take 1 (drop 8 rest) ++ take 6 (drop 9 rest) ++ take 2 (drop 15 rest) ++ drop 17 rest).
  { rewrite <- (take_drop 8 rest) at 1. f_equal. rewrite <- (take_drop 1 (drop 8 rest)) at 1. f_equal. rewrite drop_drop.
    rewrite <- (take_drop 6 (drop (8 + 1) rest)) at 1. f_equal. rewrite drop_drop. rewrite <- (take_drop 2 (drop _ rest)) at 1. f_equal. by rewrite drop_drop. }
  rewrite Hparts, !forallb_app.
  repeat match goal with H : bytes_eqb ?a ?b = true |- _ => destruct (bytes_eqb_spec a b) as [He|]; [rewrite He; clear H He|done] end.
  assert (Hd : forall l, forallb is_digit l = true -> forallb ok l = true).
  { intros l. rewrite !forallb_forall. intros Hl c Hc. unfold ok. by rewrite (Hl c Hc). }
  assert (Hh : forall l, forallb isLowerHexByte l = true -> forallb ok l = true).
  { intros l. rewrite !forallb_forall. intros Hl c Hc. unfold ok. rewrite (Hl c Hc). by rewrite orb_true_r. }
  rewrite (Hd (take 8 rest)), (Hd (take 6 (drop 9 rest))), (Hh (drop 17 rest)) by done. done.
Qed.

Lemma valid_name_plain name : validAutomaticSnapshotName name = true -> plain name /\ (chr 10 ∉ name) /\ name <> registryCurrentName.
Proof.
  intros (rest & -> & Hr)%valid_name_text. assert (Hn : forall c, (is_digit c || isLowerHexByte c || byte_eqb c "T" || byte_eqb c "Z" || byte_eqb c "-") = false -> (c ∉ rest)).
  { intros c Hc Hin%list_elem_of_In. rewrite forallb_forall in Hr. rewrite (Hr c Hin) in Hc. done. }
  split_and!; [by split_and!; [..|rewrite not_elem_of_app; split; [apply (bool_decide_unpack _); by vm_compute|by apply Hn]]| |done].
  rewrite not_elem_of_app. split; [apply (bool_decide_unpack _); by vm_compute|by apply Hn].
Qed.

(** The names that the exporter makes *)
Definition automatic (name : bytes) : Prop := (exists rest, name = automaticSnapshotPrefix ++ rest) /\ plain name.

Lemma valid_automatic name : validAutomaticSnapshotName name = true -> automatic name.
Proof. intros Hv. destruct (valid_name_text name Hv) as (rest & Hn & _). split; [by exists rest|by apply valid_name_plain]. Qed.

Lemma fixed_digits_digits w n : forallb is_digit (fixed_digits w n) = true.
Proof.
  revert n. induction w as [|w IH]; intros n; cbn [fixed_digits]; [done|]. rewrite forallb_app, IH. cbn [forallb].
  by rewrite (proj1 (digit_chr (n mod 10) ltac:(divlia))).
Qed.
Lemma format_digits fuel n acc : forallb is_digit acc = true -> forallb is_digit (format_uint_fuel fuel n acc) = true.
Proof.
  revert n acc. induction fuel as [|fuel IH]; intros n acc Ha; cbn [format_uint_fuel]; [done|].
  assert (Hc : forallb is_digit (chr (code "0" + n mod 10) :: acc) = true) by (cbn [forallb]; by rewrite (proj1 (digit_chr (n mod 10) ltac:(divlia)))).
  cbv zeta. destruct (n <? 10); [done|]. by apply IH.
Qed.

Lemma made_automatic t entropy : automatic (automaticSnapshotPrefix ++ snapshot_time t ++ bs "-" ++ hex_EncodeToString entropy).
Proof.
  split; [by eexists|]. split_and!; [done|done|done|]. assert (Hd : forall l, forallb is_digit l = true -> "/"%char ∉ l).
  { intros l Hl Hin%list_elem_of_In. rewrite forallb_forall in Hl. by specialize (Hl _ Hin). }
  assert (Hh : "/"%char ∉ hex_EncodeToString entropy).
  { induction entropy as [|c s IH]; [by apply not_elem_of_nil|]. cbn [hex_EncodeToString]. pose proof (code_range c).
    assert (Hx : forall v, 0 <= v < 16 -> "/"%char <> hex_char v).
    { intros v Hv He%(f_equal code). revert He. unfold hex_char. destruct (v <? 10) eqn:?; rewrite code_chr by lia; change (code "/") with 47; lia. }
    rewrite !not_elem_of_cons. split_and!; [apply Hx; divlia|apply Hx; divlia|done]. }
  assert (Hy : forall y, "/"%char ∉ year_text y).
  { intros y. unfold year_text, FormatUint. destruct (_ && _); [apply Hd, fixed_digits_digits|]. destruct (y <? 0); [|by apply Hd, format_digits].
    rewrite not_elem_of_app. split; [apply (bool_decide_unpack _); by vm_compute|]. destruct (_ <=? _); apply Hd; [apply fixed_digits_digits|by apply format_digits]. }
  unfold snapshot_time. cbv zeta. rewrite !not_elem_of_app. split_and!; try done; try apply Hy; try (apply Hd, fixed_digits_digits); apply (bool_decide_unpack _); by vm_compute.
Qed.

Lemma Join_infix parts sep e : e ∈ parts -> exists a b, Join parts sep = a ++ e ++ b.
Proof.
  induction parts as [|p parts IH]; [by intros ?%elem_of_nil|]. intros He. destruct (decide (parts = [])) as [->|Hne].
  - apply list_elem_of_singleton in He as ->. exists [], []. by rewrite app_nil_r.
  - rewrite Join_cons by done. apply elem_of_cons in He as [->|He]; [by eexists [], _|]. destruct (IH He) as (a & b & ->).
    exists (p ++ sep :: a), b. by rewrite <- app_assoc.
Qed.

Section Pointer.
Variable root : bytes.
Hypothesis valid_root : validRegistryExportRoot root = true.
#[local] Abbreviation R := (resolve root).

Lemma export_root : clean_key R /\ root = path_text R /\ root <> [] /\ R <> [] /\ R <> [[]].
Proof.
  pose proof valid_root as Hv. unfold validRegistryExportRoot in Hv. b2p. destruct (bytes_eqb_spec root []) as [|Hne]; [done|].
  destruct (bytes_eqb_spec (path_Clean root) root) as [Hc|]; [|done]. destruct (bytes_eqb_spec (path_Clean root) (bs "/")) as [|Hs]; [done|].
  split_and!; [|by symmetry|done| |].
  - apply resolve_clean_key. intros e He ->. destruct (Join_infix _ "/" _ He) as (a & b & Hj). rewrite Join_Split in Hj.
    assert (Ht : ContainsText root (bs "..") = true) by (apply ContainsText_spec; by exists a, b). congruence.
  - intros Hr. unfold path_Clean in Hc. rewrite Hr in Hc. subst root. done.
  - intros Hr. apply Hs. unfold path_Clean. by rewrite Hr.
Qed.

Lemma join_root name : plain name -> path_Join root name = path_text (R ++ [name]) /\ resolve (path_Join root name) = R ++ [name].
Proof.
  intros Hp. destruct export_root as (Hk & Hr & Hne & _). assert (Hj : path_Join root name = path_text (R ++ [name])).
  { transitivity (path_Clean (root ++ bs "/" ++ name)); [unfold path_Join; by destruct root|]. unfold path_Clean.
    rewrite resolve_join, plain_split; [done|done|done|]. rewrite plain_split by done. by constructor. }
  split; [done|]. rewrite Hj. apply resolve_clean. apply clean_key_app; [done|]. by constructor.
Qed.

Definition pointer_key : list bytes := R ++ [registryCurrentName].
Definition temporary_key : list bytes := R ++ [registryCurrentName ++ bs ".tmp"].

Lemma current_plain : plain registryCurrentName /\ plain (registryCurrentName ++ bs ".tmp").
Proof. split; apply (bool_decide_unpack _); by vm_compute. Qed.

Lemma pointer_path : resolve (path_Join root registryCurrentName) = pointer_key
  /\ resolve (path_Join root registryCurrentName ++ bs ".tmp") = temporary_key.
Proof.
  destruct current_plain as [Hp Ht]. destruct (join_root _ Hp) as [Hj Hres]. split; [done|]. rewrite Hj. destruct export_root as (Hk & _ & _ & Hne & _).
  assert (Hck : forall e, plain e -> clean_key (R ++ [e])) by (intros e He; apply clean_key_app; [done|]; by constructor).
  assert (Htext : forall e, plain e -> path_text (R ++ [e]) = Join R "/" ++ "/"%char :: e).
  { intros e He. destruct (path_text_clean (R ++ [e])) as [-> _]; [by apply Hck|by destruct R|destruct R as [|? []]; cbn; congruence|].
    by rewrite Join_app. }
  rewrite Htext by done. rewrite <- app_assoc. change (("/"%char :: registryCurrentName) ++ bs ".tmp") with ("/"%char :: (registryCurrentName ++ bs ".tmp")).
  rewrite <- Htext by done. by apply resolve_clean, Hck.
Qed.

(** The pointer names a snapshot. *)
Definition pointed (d : disk) (name : bytes) : Prop :=
  tree d !! pointer_key = Some (Regular (name ++ newline)) /\ validAutomaticSnapshotName name = true.

Lemma pointed_inj d n m : pointed d n -> pointed d m -> n = m.
Proof. intros [Hn _] [Hm _]. rewrite Hn in Hm. injection Hm as Hm. by apply app_inj_tail in Hm as [-> _]. Qed.

Lemma readRegistryPointer_disk d d' r : readRegistryPointer d root = (d', r) -> same d d'
  /\ match r with
     | Ok name => pointed d name
     | Err err => errors_Is err os_ErrNotExist = true -> tree d !! pointer_key = None
     end.
Proof.
  unfold readRegistryPointer. cbn [os_ReadFile disk_files]. destruct (disk_ReadFile d _) as [d1 [data|err]] eqn:Hr; apply ReadFile_disk in Hr as [Hs Hr];
    rewrite (proj1 pointer_path) in Hr; [|by intros [= <- <-]].
  cbv zeta. destruct (HasSuffix data newline) eqn:Hx; cbn [negb orb]; [|intros [= <- <-]; split; [done|by vm_compute]].
  destruct (Contains _ _) eqn:Hc; cbn [orb]; [intros [= <- <-]; split; [done|by vm_compute]|].
  destruct (validAutomaticSnapshotName _) eqn:Hv; cbn [negb]; intros [= <- <-]; (split; [done|]); [|by vm_compute].
  apply HasSuffix_spec in Hx as [name ->]. rewrite TrimSuffix_app in *. by split.
Qed.

(** ** What leaves the pointer and a snapshot alone *)

Lemma sibling_apart a b : a <> b -> ~ R ++ [a] `prefix_of` R ++ [b] /\ ~ R ++ [b] `prefix_of` R ++ [a].
Proof. intros Hne. split; intros [t Ht]; rewrite <- app_assoc in Ht; apply (inj (app R)) in Ht; cbn [app] in Ht; congruence. Qed.

Lemma sibling_left a b : a <> b -> ~ R ++ [a] `prefix_of` R ++ [b].
Proof. intros Hne. exact (proj1 (sibling_apart a b Hne)). Qed.

Lemma sibling_pointer a d d' : a <> registryCurrentName -> frame (R ++ [a]) (tree d) (tree d') -> tree d' !! pointer_key = tree d !! pointer_key.
Proof. intros Hne Hf. apply Hf. by apply sibling_apart. Qed.

Lemma sibling_snapshot a b d d' files : a <> b -> frame (R ++ [a]) (tree d) (tree d') ->
  snapshot_at (tree d) (R ++ [b]) files -> snapshot_at (tree d') (R ++ [b]) files.
Proof. intros Hne Hf. destruct (sibling_apart a b Hne) as [H1 H2]. by eapply snapshot_frame. Qed.

Lemma snapshot_same T T' P files : (forall s, T' !! (P ++ s) = T !! (P ++ s)) -> snapshot_at T P files -> snapshot_at T' P files.
Proof.
  intros Hk [Hroot Hfile Hdir Honly]. split.
  - specialize (Hk []). rewrite !app_nil_r in Hk. by rewrite Hk.
  - intros f Hin. rewrite Hk. by apply Hfile.
  - intros f s. rewrite Hk. apply Hdir.
  - intros s n. rewrite Hk. apply Honly.
Qed.

(** A file that is renamed *)
Lemma Rename_file d old new d' r S N data : resolve old = S -> resolve new = N -> ~ S `prefix_of` N /\ ~ N `prefix_of` S ->
  tree d !! S = Some (Regular data) -> disk_Rename d (old, new) = (d', r) ->
  (r <> None -> tree d' = tree d)
  /\ (r = None -> tree d' !! N = Some (Regular data) /\ forall k, ~ S `prefix_of` k -> ~ N `prefix_of` k -> tree d' !! k = tree d !! k).
Proof.
  intros HS HN Hap HSd. unfold disk_Rename. cbn [fst snd]. rewrite HS, HN. intros Hm. attempt_in Hm; [by injection Hm as <- <-|].
  rewrite !bool_decide_eq_false_2 in Hm by apply Hap. cbn [orb tree] in Hm. rewrite HSd in Hm. destruct (tree d !! N) as [m|] eqn:Hm0.
  - cbn [node_kind IsDir orb] in Hm. destruct (IsDir (node_kind m)); injection Hm as <- <-; (split; [done|]); [done|]. intros _. cbn [tree set_tree].
    split; [apply lookup_insert_eq|]. intros k H1 H2. rewrite lookup_insert_ne by (by intros <-). by rewrite lookup_delete_ne by (by intros <-).
  - destruct (is_directory _ _); injection Hm as <- <-; (split; [done|]); [|done]. intros _. cbn [tree set_tree]. split.
    + rewrite kmap_swap by done. pose proof (swap_new S N Hap []) as Hs. rewrite !app_nil_r in Hs. by rewrite Hs.
    + intros k H1 H2. rewrite kmap_swap by done. by rewrite swap_other.
Qed.

Lemma temporary_apart : ~ temporary_key `prefix_of` pointer_key /\ ~ pointer_key `prefix_of` temporary_key.
Proof. by apply sibling_apart. Qed.

Lemma writeRegistryPointer_disk d name d' r : sound d -> writeRegistryPointer d root name = (d', r) ->
  sound d' /\ (forall k, ~ temporary_key `prefix_of` k -> k <> pointer_key -> ~ pointer_key `prefix_of` k -> tree d' !! k = tree d !! k)
  /\ match r with
     | Some _ => tree d' !! pointer_key = tree d !! pointer_key
     | None => pointed d' name
     end.
Proof.
  intros Hs. unfold writeRegistryPointer. destruct (validAutomaticSnapshotName name) eqn:Hv; cbn [negb]; [|by intros [= <- <-]]. cbv zeta.
  cbn [fs_WriteFile fs_Rename disk_fs]. destruct pointer_path as [Hp Ht]. destruct (disk_WriteFile d _) as [d1 r1] eqn:Hw.
  pose proof (WriteFile_sound _ _ _ _ Hs Hw) as Hs1. apply (WriteFile_disk _ _ _ _ temporary_key []) in Hw as (_ & Hf & Hok); [|by rewrite app_nil_r].
  destruct r1 as [err|].
  { intros [= <- <-]. split_and!; [done|intros k H1 _ _; by apply Hf|]. apply Hf. apply temporary_apart. }
  destruct (Hok eq_refl) as [_ Ht1]. rewrite app_nil_r in Ht1. intros Hr. pose proof (Rename_sound _ _ _ _ Hs1 Hr) as Hs2.
  apply (Rename_file _ _ _ _ _ temporary_key pointer_key (name ++ newline)) in Hr as [Hbad Hgood]; [|done|done|apply temporary_apart|by rewrite Ht1, lookup_insert_eq].
  destruct r as [err|].
  - rewrite (Hbad ltac:(done)). split_and!; [done|intros k H1 _ _; by apply Hf|]. apply Hf, temporary_apart.
  - destruct (Hgood eq_refl) as [Hnew Hrest]. split_and!; [done| |by split]. intros k H1 _ H2. rewrite Hrest by done. by apply Hf.
Qed.

Lemma sibling_other a x s : a <> x -> ~ R ++ [a] `prefix_of` (R ++ [x]) ++ s.
Proof. intros Hne [t Ht]. rewrite <- !app_assoc in Ht. apply (inj (app R)) in Ht. cbn [app] in Ht. congruence. Qed.

Lemma remove_entries_disk cur prev names : forall d d' r, sound d -> remove_entries d root cur prev names = (d', r) ->
  sound d' /\ forall k, (forall x, validAutomaticSnapshotName x = true -> x <> cur -> x <> prev -> ~ R ++ [x] `prefix_of` k) -> tree d' !! k = tree d !! k.
Proof.
  induction names as [|x names IH]; intros d d' r Hs; cbn [remove_entries]; [by intros [= <- _]|].
  destruct (validAutomaticSnapshotName x) eqn:Hv; cbn [negb]; [|by apply IH].
  destruct (bytes_eqb_spec x cur) as [|Hc]; cbn [orb]; [by apply IH|]. destruct (bytes_eqb_spec x prev) as [|Hp]; [by apply IH|].
  cbn [fs_RemoveAll disk_fs]. destruct (disk_RemoveAll d _) as [d1 r1] eqn:Hm. pose proof (RemoveAll_sound _ _ _ _ Hs Hm) as Hs1.
  apply (RemoveAll_disk _ _ (R ++ [x])) in Hm; [|by apply join_root, valid_name_plain].
  assert (Hk : forall k, (forall x, validAutomaticSnapshotName x = true -> x <> cur -> x <> prev -> ~ R ++ [x] `prefix_of` k) -> tree d1 !! k = tree d !! k)
    by (intros k Hk; by apply Hm, Hk).
  destruct r1 as [err|]; [by intros [= <- _]|]. intros Hr. destruct (IH _ _ _ Hs1 Hr) as [Hs2 Hk2]. split; [done|]. intros k Hkk. rewrite Hk2 by done. by apply Hk.
Qed.

Lemma removeOld_disk d cur prev d' r : sound d -> removeOldAutomaticSnapshots d root cur prev = (d', r) ->
  sound d' /\ tree d' !! pointer_key = tree d !! pointer_key
  /\ forall x s, x = cur \/ x = prev -> tree d' !! ((R ++ [x]) ++ s) = tree d !! ((R ++ [x]) ++ s).
Proof.
  intros Hs. unfold removeOldAutomaticSnapshots. cbn [os_ReadDir disk_files]. destruct (disk_ReadDir d root) as [d1 [names|err]] eqn:Hd;
    apply ReadDir_disk in Hd as Hsame; pose proof (same_sound _ _ Hsame Hs) as Hs1; destruct Hsame as [Ht _].
  - intros Hr. destruct (remove_entries_disk _ _ _ _ _ _ Hs1 Hr) as [Hs2 Hk]. rewrite Ht in Hk. split_and!; [done| |].
    + apply Hk. intros x Hv _ _. apply sibling_left. by apply valid_name_plain.
    + intros x s Hx. apply Hk. intros y Hv H1 H2. apply sibling_other. naive_solver.
  - intros [= <- _]. split_and!; [done|by rewrite Ht|]. intros x s _. by rewrite Ht.
Qed.

(** ** The exporter *)

Section Exporter.
Context `{SHA256} `{!SHA256Laws}.
Variable query : call disk unit (res error (list RegistryOrigin)).
Variable ctx_Err : disk -> option error.
Variable interval : Z.
Variable now : disk -> Z.
Variable sleep : call disk Z (option error).
Variable random : call disk unit (option bytes).

(** The environment leaves the disk alone, and what the random source yields
    is not in the name that the pointer has. *)
Definition quiet (d d' : disk) : Prop := tree d' = tree d /\ ("/"%char ∉ entropy d -> "/"%char ∉ entropy d').
Hypothesis query_quiet : forall d, quiet d (fst (query d tt)).
Hypothesis sleep_quiet : forall d delay, quiet d (fst (sleep d delay)).
Hypothesis random_quiet : forall d, quiet d (fst (random d tt)).
Hypothesis random_fresh : forall d name entropy, pointed d name -> snd (random d tt) = Some entropy -> HasSuffix name (hex_EncodeToString entropy) = false.

Lemma quiet_sound d d' : quiet d d' -> sound d -> sound d'.
Proof. intros [Ht He] [H1 H2 H3]. split; rewrite ?Ht; auto. Qed.

(** The files of a registry that the database had at some moment *)
Definition exported (files : list File) : Prop := exists d l, snd (query d tt) = Ok l /\ BuildRegistry l = Ok files.

(** The invariant: the pointer, if it can be read, names a complete snapshot. *)
Definition complete (d : disk) (name : bytes) : Prop :=
  exists files, exported files /\ NoDup (map file_Path files) /\ snapshot_at (tree d) (R ++ [name]) files.
Record safe (d : disk) : Prop := { sf_sound : sound d; sf_pointer : forall name, pointed d name -> complete d name }.

Lemma quiet_safe d d' : quiet d d' -> safe d -> safe d'.
Proof. intros Hq [Hs Hp]. split; [by eapply quiet_sound|]. destruct Hq as [Ht _]. unfold pointed, complete in *. by rewrite Ht. Qed.
Lemma same_quiet d d' : same d d' -> quiet d d'.
Proof. intros [Ht He]. split; [done|]. by rewrite He. Qed.

(** A change that leaves the pointer and the snapshot it names *)
Lemma keeps_safe d d' : sound d' -> tree d' !! pointer_key = tree d !! pointer_key ->
  (forall name s, pointed d name -> tree d' !! ((R ++ [name]) ++ s) = tree d !! ((R ++ [name]) ++ s)) -> safe d -> safe d'.
Proof.
  intros Hs Hp Hk [_ Hc]. split; [done|]. unfold pointed. rewrite Hp. intros name Hn. destruct (Hc name Hn) as (files & He & Hnd & Hsn).
  exists files. split_and!; [done|done|]. eapply snapshot_same; [|exact Hsn]. intros s. by apply Hk.
Qed.

(** Writing the snapshot *)
Lemma export_disk ctx d name d' r : safe d -> automatic name -> ~ pointed d name ->
  export query ctx d (path_Join root name) = (d', r) -> safe d'
  /\ tree d' !! pointer_key = tree d !! pointer_key /\ (forall x s, pointed d x -> tree d' !! ((R ++ [x]) ++ s) = tree d !! ((R ++ [x]) ++ s))
  /\ (r = None -> complete d' name).
Proof.
  intros Hsafe Hv Hnew. unfold export. destruct (query d tt) as [d1 [l|err]] eqn:Hq; pose proof (query_quiet d) as Hqu; rewrite Hq in Hqu; cbn [fst] in Hqu.
  2: { intros [= <- <-]. split_and!; [by eapply quiet_safe|by rewrite (proj1 Hqu)|intros x s _; by rewrite (proj1 Hqu)|done]. }
  destruct (BuildRegistry l) as [files|] eqn:Hb.
  2: { intros [= <- <-]. split_and!; [by eapply quiet_safe|by rewrite (proj1 Hqu)|intros x s _; by rewrite (proj1 Hqu)|done]. }
  pose proof (quiet_safe _ _ Hqu Hsafe) as Hsafe1. destruct Hqu as [Ht1 _]. intros Hw. pose proof (sf_sound _ Hsafe1) as Hs1.
  pose proof (writeDirectory_sound _ _ _ _ _ _ Hs1 Hw) as Hs2. destruct Hs1 as [Hcl _ He1].
  destruct (write_disk _ _ _ _ _ _ Hcl He1 Hw) as [[Ht2 Hr]|(P & base & Hres & Hck & Hb0 & Hval & Habs & Hbad & Hgood)].
  { split_and!; [|by rewrite Ht2, Ht1|intros x s _; by rewrite Ht2, Ht1|done]. destruct Hsafe1 as [_ Hp]. split; [done|]. unfold pointed, complete in *. by rewrite Ht2. }
  assert (Hj : resolve (path_Join root name) = R ++ [name]) by (by apply join_root, Hv).
  rewrite Hj in Hres. apply app_inj_tail in Hres as [<- <-].
  assert (Hst : forall x, validAutomaticSnapshotName x = true \/ x = registryCurrentName -> staging_name name (entropy d1) <> x).
  { destruct Hv as [[rest ->] _]. intros x [(rest' & -> & _)%valid_name_text| ->]; done. }
  assert (Houter : forall k, ~ R ++ [staging_name name (entropy d1)] `prefix_of` k -> ~ R ++ [name] `prefix_of` k -> tree d' !! k = tree d !! k).
  { intros k H1 H2. rewrite <- Ht1. destruct r; [by apply Hbad|]. by apply Hgood. }
  assert (Hptr : tree d' !! pointer_key = tree d !! pointer_key).
  { apply Houter; apply sibling_left; [by apply Hst; right|]. by destruct Hv as [[rest ->] _]. }
  assert (Hkeep : forall x s, pointed d x -> tree d' !! ((R ++ [x]) ++ s) = tree d !! ((R ++ [x]) ++ s)).
  { intros x s Hx. apply Houter; apply sibling_other; [apply Hst; left; apply Hx|]. by intros ->. }
  split_and!; [by apply (keeps_safe d)|done|done|]. intros ->. exists files. destruct (Hgood eq_refl) as [Hsn _]. split_and!; [|by apply (validate_files_ok ∅ files Hval)|done].
  exists d, l. by rewrite Hq.
Qed.

(** The exporter knows the name that the pointer has. *)
Definition follows (d : disk) (previous : bytes) : Prop := forall name, pointed d name -> previous = name.
(** The snapshots that were named before are untouched. *)
Definition keeps (d d' : disk) : Prop := forall name s, pointed d name -> tree d' !! ((R ++ [name]) ++ s) = tree d !! ((R ++ [name]) ++ s).

Lemma random_name d d' name : automaticSnapshotNameFor (Some random) d (now d) = (d', Ok name) -> quiet d d' /\ automatic name /\ ~ pointed d name.
Proof.
  unfold automaticSnapshotNameFor. pose proof (random_quiet d) as Hq. pose proof (fun n e Hn => random_fresh d n e Hn) as Hf.
  destruct (random d tt) as [d1 [entropy|]]; [|done]. intros [= <- <-]. split_and!; [done|apply made_automatic|]. intros Hn. specialize (Hf _ entropy Hn eq_refl).
  apply not_true_iff_false in Hf. apply Hf. apply HasSuffix_spec. exists (automaticSnapshotPrefix ++ snapshot_time (now d) ++ bs "-").
  by rewrite <- !app_assoc.
Qed.

(** A failed pass removes what it wrote. *)
Lemma cleanup_safe d d2 name d3 r : safe d2 -> tree d2 !! pointer_key = tree d !! pointer_key -> keeps d d2 -> automatic name -> ~ pointed d name ->
  disk_RemoveAll d2 (path_Join root name) = (d3, r) -> safe d3 /\ tree d3 !! pointer_key = tree d !! pointer_key /\ keeps d d3.
Proof.
  intros Hs Hp Hk Hv Hnew Hr. pose proof (RemoveAll_sound _ _ _ _ (sf_sound _ Hs) Hr) as Hs3. apply (RemoveAll_disk _ _ (R ++ [name])) in Hr; [|by apply join_root, Hv].
  assert (Hptr : tree d3 !! pointer_key = tree d2 !! pointer_key) by (apply Hr, sibling_left; by destruct Hv as [[rest ->] _]).
  assert (Hother : forall x s, pointed d x -> tree d3 !! ((R ++ [x]) ++ s) = tree d2 !! ((R ++ [x]) ++ s)).
  { intros x s Hx. apply Hr, sibling_other. by intros ->. }
  split_and!; [|by rewrite Hptr|intros x s Hx; rewrite Hother by done; by apply Hk]. apply (keeps_safe d2); [done|done| |done].
  intros x s Hx. apply Hother. destruct Hx as [Hx Hxv]. split; [by rewrite <- Hp|done].
Qed.

Lemma export_once_safe ctx d previous d' e : safe d -> follows d previous ->
  export_once ctx_Err root (export query ctx) now (Some random) d previous = (d', e) ->
  safe d' /\ keeps d d' /\ match e with Continues p => follows d' p | Returns _ => True end.
Proof.
  intros Hsafe Hfol. unfold export_once. destruct (automaticSnapshotNameFor _ d _) as [d1 [name|err]] eqn:Hn.
  2: { assert (Hq : quiet d d1).
       { revert Hn. unfold automaticSnapshotNameFor. pose proof (random_quiet d) as Hq. by destruct (random d tt) as [dr [en|]]; intros [= <- _]. }
       intros [= <- <-]. split_and!; [by eapply quiet_safe|intros x s _; by rewrite (proj1 Hq)|]. unfold follows, pointed. by rewrite (proj1 Hq). }
  apply random_name in Hn as (Hq & Hv & Hnew). pose proof (quiet_safe _ _ Hq Hsafe) as Hsafe1. destruct Hq as [Ht1 _]. cbv zeta.
  assert (Hpt : forall x, pointed d1 x <-> pointed d x) by (intros x; unfold pointed; by rewrite Ht1).
  destruct (export query ctx d1 (path_Join root name)) as [d2 r2] eqn:Hx.
  apply export_disk in Hx as (Hsafe2 & Hp2 & Hk2 & Hc2); [|done|done|by rewrite Hpt]. rewrite Ht1 in Hp2. assert (Hkeep2 : keeps d d2).
  { intros x s Hx. rewrite Hk2 by (by apply Hpt). by rewrite Ht1. }
  assert (Hfail : forall d3 err, safe d3 -> tree d3 !! pointer_key = tree d !! pointer_key -> keeps d d3 ->
    match fs_RemoveAll d3 (path_Join root name) with
    | (w, Some cleanupErr) => (w, Returns (Some (join err cleanupErr)))
    | (w, None) => match ctx_Err w with Some _ => (w, Returns None) | None => (w, Continues previous) end
    end = (d', e) -> safe d' /\ keeps d d' /\ match e with Continues p => follows d' p | Returns _ => True end).
  { intros d3 err Hs3 Hp3 Hk3. cbn [fs_RemoveAll disk_fs]. destruct (disk_RemoveAll d3 _) as [d4 r4] eqn:Hr.
    destruct (cleanup_safe d d3 name d4 r4) as (Hs4 & Hp4 & Hk4); [done..|]. destruct r4; [by intros [= <- <-]|].
    destruct (ctx_Err d4); intros [= <- <-]; split_and!; try done. intros x. unfold pointed. rewrite Hp4. apply Hfol. }
  destruct r2 as [err|]; [by apply Hfail|]. specialize (Hc2 eq_refl). destruct (writeRegistryPointer d2 root name) as [d3 r3] eqn:Hw.
  apply writeRegistryPointer_disk in Hw as (Hs3 & Hk3 & Hr3); [|apply Hsafe2].
  assert (Hother : forall x s, automatic x -> tree d3 !! ((R ++ [x]) ++ s) = tree d2 !! ((R ++ [x]) ++ s)).
  { intros x s [[rest ->] _]. apply Hk3; [by apply sibling_other| |by apply sibling_other]. unfold pointer_key. rewrite <- app_assoc.
    intros He%(inj (app R)). cbn [app] in He. by injection He as He _. }
  assert (Hkeep3 : keeps d d3) by (intros x s Hx; rewrite Hother by (apply valid_automatic, Hx); by apply Hkeep2).
  destruct r3 as [err|].
  - apply Hfail; [|by rewrite Hr3|done]. apply (keeps_safe d2); [done|done| |done]. intros x s Hx. apply Hother, valid_automatic, Hx.
  - assert (Hsafe3 : safe d3).
    { split; [done|]. intros x Hx. rewrite (pointed_inj d3 x name) by done. destruct Hc2 as (files & He & Hnd & Hsn). exists files.
      split_and!; [done|done|]. eapply snapshot_same; [|exact Hsn]. intros s. by apply Hother. }
    destruct (removeOldAutomaticSnapshots d3 root name previous) as [d4 r4] eqn:Hrm. apply removeOld_disk in Hrm as (Hs4 & Hp4 & Hk4); [|done].
    assert (Hsafe4 : safe d4).
    { apply (keeps_safe d3); [done|done| |done]. intros x s Hx. apply Hk4. left. by apply (pointed_inj d3). }
    assert (Hkeep4 : keeps d d4) by (intros x s Hx; rewrite Hk4 by (right; symmetry; by apply Hfol); by apply Hkeep3).
    destruct r4 as [err|]; intros [= <- <-]; split_and!; try done. intros x Hx. apply (pointed_inj d3); [done|]. unfold pointed in *. by rewrite <- Hp4.
Qed.

Lemma keeps_quiet d d1 d2 : keeps d d1 -> quiet d1 d2 -> keeps d d2.
Proof. intros Hk [Ht _] x s Hx. rewrite Ht. by apply Hk. Qed.
Lemma follows_quiet d d' p : quiet d d' -> follows d p -> follows d' p.
Proof. intros [Ht _]. unfold follows, pointed. by rewrite Ht. Qed.

Section Passes.
Variable ctx : context disk.
#[local] Abbreviation pass := (export_pass ctx_Err interval root (export query ctx) now sleep (Some random)).
#[local] Abbreviation loop := (export_loop ctx_Err interval root (export query ctx) now sleep (Some random)).

Lemma export_pass_safe d previous d' e : safe d -> follows d previous -> pass d previous = (d', e) ->
  safe d' /\ keeps d d' /\ match e with Continues p => follows d' p | Returns _ => True end.
Proof.
  intros Hs Hf. unfold export_pass. destruct (ctx_Err d); [intros [= <- <-]; by split_and!|].
  destruct (export_once _ _ _ _ _ d previous) as [d1 e1] eqn:Ho. apply export_once_safe in Ho as (Hs1 & Hk1 & Hf1); [|done|done].
  destruct e1 as [err|p]; [by intros [= <- <-]|]. pose proof (sleep_quiet d1 interval) as Hq. destruct (sleep d1 interval) as [d2 [err|]]; cbn [fst] in Hq;
    intros [= <- <-]; (split_and!; [by eapply quiet_safe|by eapply keeps_quiet|]); [done|by eapply follows_quiet].
Qed.

Lemma export_loop_safe fuel : forall d previous d' e, safe d -> follows d previous -> loop fuel d previous = (d', e) -> safe d'.
Proof.
  induction fuel as [|fuel IH]; intros d previous d' e Hs Hf; cbn [export_loop]; [by intros [= <- _]|].
  destruct (pass d previous) as [d1 e1] eqn:Hp. apply export_pass_safe in Hp as (Hs1 & _ & Hf1); [|done|done].
  destruct e1 as [err|p]; [by intros [= <- _]|]. by apply IH.
Qed.

Lemma start_safe fuel d d' e : safe d ->
  runRegistryExport ctx_Err interval root (export query ctx) now sleep (Some random) fuel d = (d', e) -> safe d'.
Proof.
  intros Hs. unfold runRegistryExport. destruct (ctx_Err d); [by intros [= <- _]|]. destruct (readRegistryPointer d root) as [d1 pointer] eqn:Hr.
  apply readRegistryPointer_disk in Hr as [Hsame Hr]. apply same_quiet in Hsame as Hq. pose proof (quiet_safe _ _ Hq Hs) as Hs1.
  assert (Hgo : forall previous, follows d previous -> match removeOldAutomaticSnapshots d1 root previous [] with
    | (w, Some err) => if errors_Is err os_ErrNotExist then loop fuel w previous else (w, Returns (Some (wrap err)))
    | (w, None) => loop fuel w previous
    end = (d', e) -> safe d').
  { intros previous Hf. assert (Hf1 : follows d1 previous) by (by eapply follows_quiet). destruct (removeOldAutomaticSnapshots d1 root previous []) as [d2 r2] eqn:Hrm.
    apply removeOld_disk in Hrm as (Hs2 & Hp2 & Hk2); [|apply Hs1].
    assert (Hsafe2 : safe d2) by (apply (keeps_safe d1); [done|done| |done]; intros x s Hx; apply Hk2; left; symmetry; by apply Hf1).
    assert (Hf2 : follows d2 previous) by (intros x Hx; apply Hf1; unfold pointed in *; by rewrite <- Hp2).
    destruct r2 as [err|]; [destruct (errors_Is err os_ErrNotExist); [|by intros [= <- _]]|]; by apply export_loop_safe. }
  destruct pointer as [name|err].
  - apply Hgo. intros x Hx. by apply (pointed_inj d).
  - destruct (errors_Is err os_ErrNotExist) eqn:He; [|by intros [= <- _]]. apply Hgo. intros x [Hx _]. rewrite (Hr eq_refl) in Hx. done.
Qed.

(** C10: The pointer of the exporter never names anything but a complete
    snapshot of the registry. However many passes it makes, whichever of its
    file operations fail (a crash is the failure of all later ones) and
    whatever the database, the clock and the context answer, the pointer, if
    it can be read, names a directory that holds exactly the files that
    [BuildRegistry] made from a registry the database had. A pass does not
    touch the snapshot that the pointer named before it, so that a reader that
    has followed the pointer keeps its files for the length of a pass. The
    random part of a name must not be that of the current one. *)
Theorem export_pointer_safe :
  (forall fuel d d' e, safe d ->
     runRegistryExport ctx_Err interval root (export query ctx) now sleep (Some random) fuel d = (d', e) -> safe d')
  /\ (forall d previous d' e, safe d -> follows d previous ->
        export_pass ctx_Err interval root (export query ctx) now sleep (Some random) d previous = (d', e) ->
        safe d' /\ keeps d d' /\ match e with Continues p => follows d' p | Returns _ => True end).
Proof. split; [apply start_safe|apply export_pass_safe]. Qed.
End Passes.
End Exporter.
End Pointer.
