(* ===== verification/PipelineFacts.v ===== *)
(** * From the database to the branch *)

From S2P Require Import Prelude GoText GoErrors GoUrl GoPath GoNetip GoJson GoTime GoEncoding Netguard Declaration Registry PublicData.
From S2P Require Import SnapshotFiles Disk DiskFacts DiskSound GitHubPublish GitHubServer GitHubServerFacts.
From S2P Require Import RegistryService.

#[local] Set Warnings "-clear-no-such-hyp".

(** ** The reader returns nothing but the snapshot *)

Record within (a b : readerLimits) : Prop := {
  wi_files : maxFiles a <= maxFiles b;
  wi_file : maxFileBytes a <= maxFileBytes b;
  wi_total : maxTotalBytes a <= maxTotalBytes b;
}.

Lemma read_file_more d dir path m m' d' data : m <= m' ->
  readSnapshotFile d dir path m = (d', Ok data) -> readSnapshotFile d dir path m' = (d', Ok data).
Proof.
  intros Hm. unfold readSnapshotFile. destruct (dir_Open d (dir, path)) as [d1 [file|]]; [|done]. destruct (file_Stat d1 file) as [d2 [info|]]; [|done].
  destruct (_ || _); [done|]. cbn [file_ReadAll disk_directory fst snd]. match goal with |- context [match ?t with Some _ => _ | None => Err io_error end] => destruct t as [n|]; [|done] end. destruct n as [|full| |]; [done| |done|done].
  destruct (Z.ltb_spec m (Z.of_nat (length (take (Z.to_nat (m + 1)) full)))) as [|Hl]; [done|]. intros [= <- <-].
  rewrite length_take in Hl. rewrite (take_ge full (Z.to_nat (m + 1))) by lia. rewrite (take_ge full (Z.to_nat (m' + 1))) by lia.
  by replace (m' <? Z.of_nat (length full)) with false by lia.
Qed.

Section More.
Variables a b : readerLimits.
Hypothesis more : within a b.
Variable ctx : disk -> option error.

Lemma visit_more d dir st name entry d' st' : visit a (Some ctx) d dir st name entry = (d', Ok st') -> visit b (Some never) d dir st name entry = (d', Ok st').
Proof.
  unfold visit. cbn [checkReaderContext never]. destruct (ctx d); [done|]. destruct entry as [kind|]; [|done]. destruct (bytes_eqb name (bs ".")); [done|].
  destruct (IsSymlink kind); [done|]. destruct (IsDir kind); [done|]. destruct (negb _); [done|]. destruct (dir_Lstat d (dir, name)) as [d1 [info|]]; [|done].
  destruct (_ || _); [done|]. destruct (Z.leb_spec (maxFiles a) (Z.of_nat (length (read_files st)))); [done|]. destruct more as [Hf Hb Ht].
  replace (maxFiles b <=? Z.of_nat (length (read_files st))) with false by lia. cbv zeta.
  set (la := if _ <? maxFileBytes a then _ else _). set (lb := if _ <? maxFileBytes b then _ else _).
  assert (Hle : la <= lb) by (unfold la, lb; destruct (Z.ltb_spec (maxTotalBytes a - read_total st) (maxFileBytes a)), (Z.ltb_spec (maxTotalBytes b - read_total st) (maxFileBytes b)); lia).
  destruct (readSnapshotFile d1 dir name la) as [d2 [data|]] eqn:Hr; [|done]. intros [= <- <-]. by rewrite (read_file_more _ _ _ _ _ _ _ Hle Hr).
Qed.

Lemma walk_more fuel : forall dir d st name kind d' st', walk a fuel (Some ctx) dir d st name kind = Some (d', Ok st') ->
  walk b fuel (Some never) dir d st name kind = Some (d', Ok st').
Proof.
  induction fuel as [|fuel IH]; intros dir d st name kind d' st'; cbn [walk]; [done|].
  destruct (visit a (Some ctx) d dir st name (Ok kind)) as [d1 [st1|]] eqn:Hv; [|done]. rewrite (visit_more _ _ _ _ _ _ _ Hv).
  destruct (IsDir kind); cbn [negb]; [|done]. destruct (dir_ReadDir d1 (dir, name)) as [d2 [entries|err]].
  - clear Hv. revert d2 st1. induction entries as [|[child k] rest IHe]; intros d2 st1; cbn [walk_entries]; [done|].
    destruct (walk a fuel (Some ctx) dir d2 st1 _ k) as [[d3 [st3|]]|] eqn:Hw; [|done|done]. rewrite (IH _ _ _ _ _ _ _ Hw). apply IHe.
  - destruct (visit a (Some ctx) d2 dir st1 name (Err err)) as [d3 [st3|]] eqn:Hv2; [|done]. by rewrite (visit_more _ _ _ _ _ _ _ Hv2).
Qed.

Lemma readDirectory_more d root d' files : readDirectory a (Some ctx) d root = Some (d', Ok files) -> readDirectory b (Some never) d root = Some (d', Ok files).
Proof.
  unfold readDirectory. cbn [checkReaderContext never]. destruct (ctx d); [done|]. destruct (bytes_eqb root []); [done|].
  destruct (openDirectory d root) as [d1 [dir|]]; [|done]. cbv zeta. destruct (dir_StatRoot d1 dir) as [d2 [kind|err]].
  - destruct (walk a walk_depth (Some ctx) dir d2 _ _ kind) as [[d3 [st|]]|] eqn:Hw; [|done|done]. by rewrite (walk_more _ _ _ _ _ _ _ _ Hw).
  - destruct (visit a (Some ctx) d2 dir _ _ (Err err)) as [d3 [st|]] eqn:Hv; [|done]. by rewrite (visit_more _ _ _ _ _ _ _ Hv).
Qed.
End More.

Lemma read_exact limits ctx d root P files d' read : root <> [] -> resolve root = P -> snapshot_at (tree d) P files ->
  Forall (fun f => validSnapshotPath (file_Path f) = true) files -> NoDup (map file_Path files) -> (exists f, f ∈ files /\ file_Path f = bs "registry.json") ->
  readDirectory limits (Some ctx) d root = Some (d', Ok read) -> d' = d /\ read = sort_by file_Path files.
Proof.
  intros Hroot Hres Hsn Hv Hnd Hreg Hr.
  set (wide := mkLimits (Z.max (maxFiles limits) (Z.of_nat (length files))) (Z.max (maxFileBytes limits) (sum_lengths files)) (Z.max (maxTotalBytes limits) (sum_lengths files))).
  assert (Hsum : forall f, f ∈ files -> Z.of_nat (length (file_Data f)) <= sum_lengths files).
  { clear. intros f. induction files as [|g files IH]; [by intros ?%elem_of_nil|]. unfold sum_lengths in *. cbn [fold_right].
    assert (Hn : 0 <= fold_right (fun f acc => Z.of_nat (length (file_Data f)) + acc) 0 files) by (clear; induction files; cbn [fold_right]; lia).
    intros [->|Hf]%elem_of_cons; [lia|]. specialize (IH Hf). lia. }
  apply (readDirectory_more limits wide) in Hr; [|split; cbn; lia].
  rewrite (read_back wide d P files) in Hr; try done; cbn; [|lia| |lia].
  - by injection Hr as <- <-.
  - apply Forall_forall. intros f Hf. specialize (Hsum f Hf). lia.
Qed.

(** Reading leaves the disk as it is. *)
Section Unchanged.
Variables (limits : readerLimits) (ctx : context disk).

Lemma readSnapshotFile_same (d : disk) dir path m : fst (readSnapshotFile d dir path m) = d.
Proof.
  unfold readSnapshotFile. cbn [dir_Open file_Stat file_ReadAll disk_directory fst snd].
  repeat (case_match; simplify_eq/=; try done).
Qed.

Lemma visit_same (d : disk) dir st name entry : fst (visit limits ctx d dir st name entry) = d.
Proof.
  unfold visit. destruct (checkReaderContext ctx d); [done|]. destruct entry as [kind|]; [|done]. destruct (bytes_eqb name (bs ".")); [done|].
  destruct (IsSymlink kind); [done|]. destruct (IsDir kind); [by destruct (negb _)|]. destruct (negb _); [done|].
  destruct (dir_Lstat d (dir, name)) as [d1 [info|]] eqn:Hl; cbn [dir_Lstat disk_directory] in Hl; injection Hl as <- _; [|done].
  destruct (_ || _); [done|]. destruct (_ <=? _); [done|]. cbv zeta.
  match goal with |- context [readSnapshotFile d dir name ?m] => pose proof (readSnapshotFile_same d dir name m) as Hs; destruct (readSnapshotFile d dir name m) as [d2 [data|]] end;
    by cbn [fst] in *.
Qed.

Lemma walk_same fuel : forall dir (d : disk) st name kind d' r, walk limits fuel ctx dir d st name kind = Some (d', r) -> d' = d.
Proof.
  induction fuel as [|fuel IH]; intros dir d st name kind d' r; cbn [walk]; [done|].
  pose proof (visit_same d dir st name (Ok kind)) as Hv. destruct (visit limits ctx d dir st name (Ok kind)) as [d1 [st1|]]; cbn [fst] in Hv; subst d1; [|by intros [= <- _]].
  destruct (negb _); [by intros [= <- _]|]. destruct (dir_ReadDir d (dir, name)) as [d2 r2] eqn:Hr. assert (d2 = d) as -> by (cbn in Hr; by injection Hr).
  destruct r2 as [entries|err].
  - clear Hr. revert st1. induction entries as [|[child k] rest IHe]; intros st1; cbn [walk_entries]; [by intros [= <- _]|].
    destruct (walk limits fuel ctx dir d st1 _ k) as [[d3 [st3|]]|] eqn:Hw; [|by intros [= <- _]; eapply IH|done]. apply IH in Hw as ->. apply IHe.
  - intros He. pose proof (visit_same d dir st1 name (Err err)) as Hv. injection He as He. by rewrite He in Hv.
Qed.

Lemma readDirectory_same (d : disk) root d' r : readDirectory limits ctx d root = Some (d', r) -> d' = d.
Proof.
  unfold readDirectory. destruct (checkReaderContext ctx d); [by intros [= <- _]|]. destruct (bytes_eqb root []); [by intros [= <- _]|].
  destruct (openDirectory d root) as [d1 r1] eqn:Ho. assert (d1 = d) as ->.
  { revert Ho. cbn [openDirectory disk_directory]. unfold openSnapshotDirectory, stat_node. repeat (case_match; simplify_eq/=); congruence. }
  destruct r1 as [dir|]; [|by intros [= <- _]]. cbv zeta. destruct (dir_StatRoot d dir) as [d2 r2] eqn:Hs. assert (d2 = d) as -> by (cbn in Hs; by injection Hs).
  destruct r2 as [kind|err].
  - destruct (walk limits walk_depth ctx dir d _ _ kind) as [[d3 [st|]]|] eqn:Hw; [|by intros [= <- _]; eapply walk_same|done].
    apply walk_same in Hw as ->. destruct (negb _); by intros [= <- _].
  - pose proof (visit_same d dir (mkReader [] 0 false) (bs ".") (Err err)) as Hv. destruct (visit _ _ _ _ _ _ _) as [d3 [st|]]; cbn [fst] in Hv; subst d3;
      [destruct (negb _)|]; by intros [= <- _].
Qed.
End Unchanged.

(** ** The publisher follows the pointer *)

Definition on_files {W B A R} (f : call W A R) : call (W * B) A R := fun w a => let '(w', r) := f (fst w) a in ((w', snd w), r).

#[export] Instance shared_files {B} : ExportFiles (disk * B) := {|
  os_ReadFile := on_files disk_ReadFile;
  os_Lstat := on_files disk_Lstat;
  os_ReadDir := on_files disk_ReadDir;
|}.

Lemma pointer_shared {B} root d (b : B) w r : readRegistryPointer (d, b) root = (w, r) -> exists d', readRegistryPointer d root = (d', r) /\ w = (d', b).
Proof.
  unfold readRegistryPointer. cbn [os_ReadFile shared_files disk_files]. unfold on_files. cbn [fst snd].
  destruct (disk_ReadFile d _) as [d1 [data|err]]; [cbv zeta; destruct (_ || _)|]; intros [= <- <-]; by exists d1.
Qed.

Lemma usable_shared {B} d (b : B) path w r : usableAutomaticSnapshot (d, b) path = (w, r) -> exists d', w = (d', b) /\ tree d' = tree d.
Proof.
  unfold usableAutomaticSnapshot. cbn [os_Lstat shared_files]. unfold on_files. cbn [fst snd].
  destruct (disk_Lstat d path) as [d1 r1] eqn:Hl. apply Lstat_disk in Hl as (Ht & _ & _). destruct r1 as [k|]; [destruct (_ || _)|]; intros [= <- <-]; by exists d1.
Qed.

Section Pipeline.
Context {G : Type} `{SHA256} `{!SHA256Laws} `{NetURL} `{GitHubJSON} `{GitHubClient G}.
Variable root : bytes.
Hypothesis valid_root : validRegistryExportRoot root = true.
Variable query : call disk unit (res error (list RegistryOrigin)).
Variable settings : publishSettings.
Variable publisher : Publisher.
Hypothesis configured : New (settings_target settings) (settings_token settings) = Ok publisher.
Variable ctx_Err : disk * G -> option error.
Variable files_Err : disk -> option error.
Variable github_Err : G -> option error.
(** GitHub, by its documentation *)
Variables (view : G -> git) (healthy : G -> Prop).
Context `{!GitDatabase (repositoryPath publisher) view healthy}.
Hypothesis url_path : forall p u, is_rooted p = true -> url_Parse (url_String (endpoint publisher p)) = Some u -> Path u = p.

(** [publish] with the publisher's settings; reading never runs out of fuel. *)
Definition publishing : call (disk * G) bytes (res error Result) :=
  fun w path => default (w, Err []) (publish_snapshot (Ok settings) (Some files_Err) (Some github_Err) w path).

Lemma publish_snapshot_total w path : is_Some (publish_snapshot (Ok settings) (Some files_Err) (Some github_Err) w path).
Proof.
  unfold publish_snapshot. destruct (readDirectory_total defaultReaderLimits (Some files_Err) (fst w) path) as (f & r & -> & _).
  destruct r as [files|]; [|by eexists]. rewrite configured. destruct (Publish _ _ _ _) as [g [res|]]; by eexists.
Qed.

Lemma exported_files files : exported query files -> NoDup (map file_Path files) -> sort_by file_Path files = files /\ Forall (fun f => validSnapshotPath (file_Path f) = true) files
  /\ exists f, f ∈ files /\ file_Path f = bs "registry.json".
Proof.
  intros (d & l & _ & Hb) Hnd. destruct (BuildRegistry_ok l files Hb) as (_ & _ & Hp & Hs & Hv). split_and!; [|done|].
  - by apply sort_by_id.
  - exists (registry_file (sort_by canonical_origin l)). split; [|done]. rewrite Hp. by left.
Qed.

Lemma publishing_reads d g path w' r : publishing (d, g) path = (w', r) -> fst w' = d.
Proof.
  unfold publishing, publish_snapshot. cbn [fst snd]. destruct (readDirectory defaultReaderLimits (Some files_Err) d path) as [[d1 r1]|] eqn:Hr;
    [|by intros [= <- _]]. apply readDirectory_same in Hr as ->. destruct r1 as [files|]; [|by intros [= <- _]]. rewrite configured.
  destruct (Publish _ _ _ _) as [g1 [res|]]; by intros [= <- _].
Qed.

(** A snapshot that the pointer names is published as it was exported. *)
Lemma publish_named d g name w' r : (forall name, pointed root d name -> complete root query d name) -> healthy g -> pointed root d name ->
  publishing (d, g) (path_Join root name) = (w', Ok r) ->
  tree (fst w') = tree d /\ exists files, exported query files /\ snapshot_at (tree d) (resolve root ++ [name]) files
    /\ published publisher files (view g) (view (snd w')) r.
Proof.
  intros Hc Hwf Hn. destruct (Hc name Hn) as (files & Hex & Hnd & Hsn). destruct (exported_files files Hex Hnd) as (Hsort & Hv & Hreg).
  destruct (join_root root valid_root name) as [Hj Hres]; [by apply valid_name_plain, Hn|].
  unfold publishing, publish_snapshot. cbn [fst snd]. destruct (readDirectory defaultReaderLimits (Some files_Err) d (path_Join root name)) as [[d1 [read|]]|] eqn:Hr; [|done|done].
  apply (read_exact _ _ _ _ (resolve root ++ [name]) files) in Hr as [-> ->]; try done.
  2: { intros He. rewrite He in Hres. by destruct (resolve root) as [|? []]. }
  rewrite Hsort, configured. cbn [Publish]. destruct (publish publisher github_Err g files) as [g' [res|]] eqn:Hp; [|done].
  intros [= <- <-]. cbn [fst snd]. split; [done|]. exists files. split_and!; [done|done|]. by eapply publish_published.
Qed.

Definition paced (delay : Z) : Prop := registryPublishFollowInterval <= delay <= registryPublishMaxBackoff.

(** C9: What the publisher makes public is what the exporter wrote. In one
    pass of the publisher over an export directory whose pointer names complete
    snapshots (which every exporter pass leaves) and which nobody writes during
    the pass, the publisher records a name as published only if the pointer had
    it and the snapshot it names, the files of a registry that the database
    had, is on the branch: a commit of exactly these files and the sentinel.
    Otherwise the recorded name stays as it was. It changes nothing in the
    directory, and it waits from 5 seconds to 5 minutes before the next pass.
    GitHub is the interface [GitDatabase], with other clients and lost requests
    and responses; the branch is the one the requests name, the configured one
    if its name needs no escaping in a path. *)
Theorem published_is_exported d g st w' st' delay :
  (forall name, pointed root d name -> complete root query d name) -> healthy g -> paced (backoff st) ->
  publish_once ctx_Err root publishing (d, g) st = (w', Continues (st', delay)) ->
  paced delay /\ paced (backoff st') /\ tree (fst w') = tree d
  /\ (published_name st' <> published_name st ->
       pointed root d (published_name st')
       /\ exists files r, exported query files /\ snapshot_at (tree (fst w')) (resolve root ++ [published_name st']) files
            /\ published publisher files (view g) (view (snd w')) r).
Proof.
  intros Hc Hwf Hb. assert (Hf : paced registryPublishFollowInterval) by (by vm_compute). unfold publish_once.
  destruct (readRegistryPointer (d, g) root) as [w1 r1] eqn:Hp. apply pointer_shared in Hp as (d1 & Hp & ->).
  apply (readRegistryPointer_disk root valid_root) in Hp as [[Ht1 _] Hp]. destruct r1 as [name|]; [|by intros [= <- <- <-]].
  destruct (bytes_eqb_spec name (published_name st)) as [|Hne]; [by intros [= <- <- <-]|]. cbv zeta.
  destruct (usableAutomaticSnapshot (d1, g) _) as [w2 r2] eqn:Hu. apply usable_shared in Hu as (d2 & -> & Ht2).
  assert (Ht : tree d2 = tree d) by congruence. destruct r2; [by intros [= <- <- <-]|].
  destruct (publishing (d2, g) _) as [w3 [r|err]] eqn:Hpub.
  - apply publish_named in Hpub as [Ht3 (files & Hex & Hsn & Hpb)]; [|unfold pointed, complete in *; by rewrite Ht|done|unfold pointed; by rewrite Ht].
    intros [= <- <- <-]. cbn [backoff published_name]. split_and!; [done|done|by rewrite Ht3|]. intros _. split; [done|].
    exists files, r. split_and!; [done|by rewrite Ht3|done].
  - apply publishing_reads in Hpub. destruct (ctx_Err w3); [done|]. intros [= <- <- <-]. cbn [backoff published_name]. split_and!; [done| |by rewrite Hpub|done].
    unfold paced, next_backoff in *. change registryPublishMaxBackoff with 300000000000 in *. change registryPublishFollowInterval with 5000000000 in *.
    destruct (Z.ltb_spec 300000000000 (2 * backoff st)); lia.
Qed.
End Pipeline.
