(* ===== verification/RegistryExport.v ===== *)
(** * Every registry of the store can be exported *)

From S2P Require Import Prelude GoText GoUrl GoErrors GoNetip GoJson GoTime GoEncoding Retry Origin Netguard.
From S2P Require Import RobotsMatch RobotsPolicy RobotsPolicyFacts RobotsHTTP Declaration Verifier.
From S2P Require Import Discovery Crawler Store Queue QueueFacts Exclusions DiscoveryStore.
From S2P Require Import Admission DiscoveryLease CrawlTelemetry ControlStore.
From S2P Require Import DiscoverySchema AdmissionSchema Provenance DiscoverySystem ControlFacts Registry PublicData.

Section Exporting.
Context `{NetURL} `{NetIP} `{IDNA} `{!NetIPLaws} `{Unicode} `{SHA256} `{!SHA256Laws}.
Variable text_leb : bytes -> bytes -> bool.
Variable sql_lower : bytes -> bytes.
Variable make_interval : Z -> Z.
Variable config : AutomaticCrawlConfig.
Variable queueConfig : QueueConfig.
Variable excludedHosts : bytes.
Variable delay : Z -> Z -> Z.
#[local] Abbreviation step := (store_step text_leb sql_lower make_interval config queueConfig excludedHosts delay).

(** The origins that participated are stored under their canonical text, and
    no time is the zero time, which the store refuses before it rounds to
    microseconds. *)
Record storable (db : Database) : Prop := {
  st_canonical : forall key row, origins db !! key = Some row -> is_Some (first_participated_at row) ->
    exists o, Origin.Parse key = Ok o /\ origin_String o = key;
  st_first : forall key row t, origins db !! key = Some row -> first_participated_at row = Some t -> t <> 0;
  st_observed : forall key o, o ∈ rows_of db key -> obs_at o <> 0;
}.

Lemma filter_keys {A} (f : bytes * A -> bool) (m : gmap bytes A) : NoDup (map fst (List.filter f (map_to_list m))).
Proof.
  pose proof (NoDup_fst_map_to_list m) as Hnd. induction (map_to_list m) as [|[k v] l IH]; [constructor|]. cbn [List.filter]. cbn [fmap list_fmap] in Hnd.
  apply NoDup_cons in Hnd as [Hk Hnd]. destruct (f (k, v)); [|by apply IH]. cbn [map fst]. apply NoDup_cons. split; [|by apply IH].
  rewrite list_elem_of_In, in_map_iff. intros ([k' v'] & He & [Hin _]%filter_In). apply Hk. cbn in He. subst k'.
  apply list_elem_of_fmap. exists (k, v'). split; [done|]. by apply list_elem_of_In.
Qed.

(** An entry of the registry is a valid participant. *)
Lemma registered_valid db key row e : storable db -> origins db !! key = Some row -> registered db key row e ->
  validRegistryOrigin e = true /\ origin_String (registry_Origin e) = key.
Proof.
  intros [Hcan Hfirst Hobs] Hrow [Hp Hf (i & _ & Hi) (o & Hn & Hat & Hout) Hord (a & Ha & Hcur)].
  destruct (Hcan key row Hrow) as (o' & Hp' & Hk); [by rewrite Hf|]. rewrite Hp in Hp'. injection Hp' as <-. split; [|done].
  unfold validRegistryOrigin. rewrite Hi. destruct (bytes_eqb_spec (origin_String (registry_Origin e)) []) as [He|_]; [by destruct (parsed_nonempty _ _ Hp)|].
  unfold time_IsZero, time_After. pose proof (Hfirst _ _ _ Hrow Hf) as Hz1. pose proof (Hobs key o (newest_in _ _ Hn)) as Hz2. rewrite Hat in *.
  replace (FirstParticipatedAt e =? 0) with false by lia. replace (obs_at o =? 0) with false by lia. replace (obs_at o <? FirstParticipatedAt e) with false by lia.
  assert (Hdecl : forall j, validRegistryDeclaration (mkDeclaration 1 j) = true) by (by intros []). rewrite Hdecl. cbn [orb negb].
  assert (Hsame : authoritative (obs_outcome o) = true -> a = o).
  { intros Hau. unfold authoritative_row in Ha. pose proof (newest_filter (fun r => authoritative (obs_outcome r)) _ _ Hn Hau) as Hnf. congruence. }
  rewrite Hout. destruct Hcur as [[-> Hnv]|(j & Hval & _ & ->)].
  - destruct (obs_outcome o) eqn:Ho; try done. rewrite (Hsame eq_refl) in Hnv. done.
  - rewrite Hdecl. cbn [negb]. destruct (obs_outcome o) eqn:Ho; try done; rewrite (Hsame eq_refl) in Hval; congruence.
Qed.

(** In every database that the store's operations reach, whose
    participants are stored under canonical origins and whose times are not
    zero, the registry can be read and turned into a snapshot, and the
    snapshot has exactly one node document for each origin that ever
    participated. *)
Theorem reachable_registry_exports db : rtc step empty_database db -> storable db ->
  exists l files, RegistryOrigins text_leb db = Ok l /\ BuildRegistry l = Ok files
    /\ map canonical_origin l = map fst (participants text_leb db)
    /\ forall key, (exists f, f ∈ files /\ exists e, e ∈ l /\ f = node_file e /\ canonical_origin e = key)
         <-> exists row, origins db !! key = Some row /\ is_Some (first_participated_at row).
Proof.
  intros Hr%reachable_records Hs. pose proof (RegistryOrigins_reads text_leb db Hr) as Hl. destruct (RegistryOrigins text_leb db) as [l|err].
  2: { destruct Hl as (key & row & e & Hin%participants_elem & Hp). destruct Hin as [Hrow Hf]. destruct (st_canonical _ Hs _ _ Hrow Hf) as (o & Ho & _). congruence. }
  assert (Hall : Forall2 (fun p e => validRegistryOrigin e = true /\ canonical_origin e = fst p) (participants text_leb db) l).
  { apply Forall2_same_length_lookup_2; [by eapply Forall2_length|]. intros i p e Hi He. pose proof (Forall2_lookup_lr _ _ _ _ _ _ Hl Hi He) as Hreg.
    apply (registered_valid db (fst p) (snd p) e Hs); [|done]. apply list_elem_of_lookup_2 in Hi. destruct p as [key row]. by apply participants_elem in Hi as [? _]. }
  assert (Hmap : map canonical_origin l = map fst (participants text_leb db)).
  { clear -Hall. induction Hall as [|p e ps l [_ Hc] _ IH]; [done|]. cbn [map]. by rewrite Hc, IH. }
  assert (Hok : check_participants ∅ l = None).
  { apply check_participants_ok. split_and!.
    - clear -Hall. induction Hall as [|p e ps l [Hv _] _ IH]; by constructor.
    - rewrite Hmap. unfold participants. rewrite (Permutation_map fst (order_by_origin_perm text_leb _)). apply filter_keys.
    - by apply Forall_true. }
  destruct (BuildRegistry l) as [files|] eqn:Hb; [|unfold BuildRegistry in Hb; by rewrite Hok in Hb].
  destruct (BuildRegistry_ok l files Hb) as (_ & _ & Hp & _). exists l, files. split_and!; [done|done|done|]. intros key. split.
  - intros (f & _ & e & He & _ & Hk). assert (Hin : key ∈ map canonical_origin l) by (rewrite list_elem_of_In, in_map_iff; exists e; split; [done|by apply list_elem_of_In]).
    rewrite Hmap, list_elem_of_In, in_map_iff in Hin. destruct Hin as ([k row] & Hkk & Hin%list_elem_of_In). cbn in Hkk. subst k. exists row. by apply participants_elem in Hin.
  - intros (row & Hrow). assert (Hin : key ∈ map canonical_origin l).
    { rewrite Hmap, list_elem_of_In, in_map_iff. exists (key, row). split; [done|]. apply list_elem_of_In. by apply participants_elem. }
    rewrite list_elem_of_In, in_map_iff in Hin. destruct Hin as (e & Hk & Hin%list_elem_of_In). exists (node_file e). split; [|by exists e].
    rewrite Hp. right. rewrite list_elem_of_In. by apply in_map, list_elem_of_In.
Qed.
End Exporting.
