(* ===== verification/CrawlRunner.v ===== *)
(** * The crawl runner ([internal/discovery/crawl_runner.go])

    The runner claims one source at a time, crawls it while a second goroutine
    renews the lease, and completes the lease with the crawl's failure
    category. The store is an interface, as in the source. The crawler is a
    machine that moves in small steps, so that renewals and other processes
    interleave with it; which goroutine moves next is an explicit schedule. *)

From S2P Require Import Prelude GoText GoUrl GoErrors GoNetip GoJson Retry Origin Netguard.
From S2P Require Import RobotsMatch RobotsPolicy RobotsPolicyFacts RobotsHTTP Declaration Verifier.
From S2P Require Import Discovery Crawler Store Queue Exclusions DiscoveryStore DiscoveryLease.

(** ** Interfaces *)

(** [CrawlSourceStore], with the lease owner inside the store, and
    [discoveryPauseStore], which the runner asks for with a type assertion. *)
Class CrawlSourceStore (W : Type) := {
  source_Claim : Ctx W -> call W (Z * Z) (res error (option CrawlSourceLease));
  source_Renew : Ctx W -> call W (CrawlSourceLease * Z) (res error CrawlSourceLease);
  source_Complete : Ctx W -> call W (CrawlSourceLease * Category * Z) (option error);
  source_Paused : option (Ctx W -> call W unit (res error bool));
}.

(** [SourceCrawler]: [crawler_start] is the state of a crawl of an origin, and
    [crawler_move] its next move under the crawl's context, which may end it. *)
Class SourceCrawler (W : Type) := {
  crawling : Type;
  crawler_start : Origin -> crawling;
  crawler_move : Ctx W -> call W crawling (crawling + (CrawlResult * option error));
}.

(** What happens elsewhere: the moves of other processes and of time. *)
Class Elsewhere (W : Type) := { event : Type; elsewhere : event -> W -> W }.

(** ** Configuration *)

Definition defaultCrawlSourceLeaseDuration : Z := 5 * Minute.

Record CrawlRunnerConfig : Type := mkRunnerConfig {
  DiscoveryInterval : Z;
  PollInterval : Z;
  runner_LeaseDuration : Z;
}.

Definition validCrawlRunnerConfig (c : CrawlRunnerConfig) : bool :=
  (0 <? DiscoveryInterval c) && (0 <? PollInterval c) && (0 <=? runner_LeaseDuration c).

Definition leaseDuration (c : CrawlRunnerConfig) : Z :=
  if 0 <? runner_LeaseDuration c then runner_LeaseDuration c else defaultCrawlSourceLeaseDuration.

Definition discoveryLeaseRenewInterval (leaseDuration : Z) : Z :=
  let interval := Z.quot leaseDuration 2 in
  if interval <=? 0 then leaseDuration else interval.

(** [newCrawlRunner] for dependencies that are not nil *)
Definition newCrawlRunner (c : CrawlRunnerConfig) : res error CrawlRunnerConfig :=
  if negb (validCrawlRunnerConfig c) then Err (errors_New errInvalidCrawlRunnerConfig) else Ok c.

Record CrawlReport : Type := mkReport {
  Worked : bool;
  report_Source : Origin;
  report_PagesAttempted : Z;
  report_PagesParsed : Z;
  report_CandidatesDiscovered : Z;
  report_BudgetExhausted : bool;
}.

Definition zero_report : CrawlReport := mkReport false zero_origin 0 0 0 false.
Definition claimed_report (source : Origin) : CrawlReport := mkReport true source 0 0 0 false.
Definition crawled_report (source : Origin) (r : CrawlResult) : CrawlReport :=
  mkReport true source (PagesAttempted r) (PagesParsed r) (CandidatesDiscovered r) (BudgetExhausted r).

Section Runner.
Context {W : Type} {St : CrawlSourceStore W} {Cr : SourceCrawler W} {El : Elsewhere W}.
Variable config : CrawlRunnerConfig.
(** [observer.Observe] *)
Variable observe : W -> bytes * Origin * bytes -> W.

(** ** The crawl and the renewals *)

(** [context.WithCancel]: the parent's error, or the cancellation. *)
Definition with_cancel (ctx : Ctx W) (canceled : bool) : Ctx W :=
  fun w => match ctx w with Some e => Some e | None => if canceled then Some (errors_New Canceled) else None end.

(** The renewal goroutine waits for its timer or has sent its result. *)
Inductive renewal : Type :=
| Waiting (current : CrawlSourceLease)
| Sent (current : CrawlSourceLease) (err : option error).

(** The two goroutines of [crawlWithLease] and their cancellations. *)
Record goroutines : Type := mkGoroutines {
  crawl_side : crawling + (CrawlResult * option error);
  renew_side : renewal;
  crawl_canceled : bool;
  renew_canceled : bool;
}.

(** Whose turn it is; the [select] of the renewal goroutine may take either
    case that is ready. *)
Inductive turn : Type :=
| CrawlerMoves
| TimerFires
| ContextDone
| ElsewhereMoves (e : event).

Definition crawler_turn (ctx : Ctx W) (g : goroutines) (w : W) : W * goroutines :=
  match crawl_side g with
  | inr _ => (w, g)
  | inl c =>
      match crawler_move (with_cancel ctx (crawl_canceled g)) w c with
      | (w, inl c) => (w, mkGoroutines (inl c) (renew_side g) (crawl_canceled g) (renew_canceled g))
      | (w, inr r) => (w, mkGoroutines (inr r) (renew_side g) (crawl_canceled g) true)
      end
  end.

(** Lines 409 to 434 of [renewCrawlSourceLease]. *)
Definition timer_turn (ctx : Ctx W) (g : goroutines) (w : W) : W * goroutines :=
  match renew_side g with
  | Sent _ _ => (w, g)
  | Waiting current =>
      let renewCtx := with_cancel ctx (renew_canceled g) in
      match source_Renew renewCtx w (current, leaseDuration config) with
      | (w, Ok renewed) => (w, mkGoroutines (crawl_side g) (Waiting renewed) (crawl_canceled g) (renew_canceled g))
      | (w, Err err) =>
          match renewCtx w with
          | Some _ => (w, mkGoroutines (crawl_side g) (Sent current None) (crawl_canceled g) (renew_canceled g))
          | None => (w, mkGoroutines (crawl_side g) (Sent current (Some err)) true (renew_canceled g))
          end
      end
  end.

(** Lines 403 to 407. *)
Definition done_turn (ctx : Ctx W) (g : goroutines) (w : W) : goroutines :=
  match renew_side g, with_cancel ctx (renew_canceled g) w with
  | Waiting current, Some _ => mkGoroutines (crawl_side g) (Sent current None) (crawl_canceled g) (renew_canceled g)
  | _, _ => g
  end.

Definition take_turn (ctx : Ctx W) (t : turn) (st : W * goroutines) : W * goroutines :=
  let '(w, g) := st in
  match t with
  | CrawlerMoves => crawler_turn ctx g w
  | TimerFires => timer_turn ctx g w
  | ContextDone => (w, done_turn ctx g w)
  | ElsewhereMoves e => (elsewhere e w, g)
  end.

Definition start (lease : CrawlSourceLease) : goroutines :=
  mkGoroutines (inl (crawler_start (source_lease_Origin lease))) (Waiting lease) false false.

(** [None]: the schedule ended before both goroutines did. *)
Definition crawlWithLease (sched : list turn) (ctx : Ctx W) (lease : CrawlSourceLease) (w : W)
    : option (W * (CrawlResult * option error * CrawlSourceLease * option error)) :=
  match fold_left (fun st t => take_turn ctx t st) sched (w, start lease) with
  | (w, g) =>
      match crawl_side g, renew_side g with
      | inr (result, crawlErr), Sent current renewalErr => Some (w, (result, crawlErr, current, renewalErr))
      | _, _ => None
      end
  end.

(** ** One source *)

Definition noSource (ctx : Ctx W) (w : W) : W * (CrawlReport * option error) :=
  match source_Paused with
  | None => (observe w (bs "idle", zero_origin, []), (zero_report, None))
  | Some paused =>
      match paused ctx w tt with
      | (w, Err err) => (observe w (bs "failed", zero_origin, bs "control_read_failed"), (zero_report, Some err))
      | (w, Ok p) => (observe w (if p then bs "paused" else bs "idle", zero_origin, []), (zero_report, None))
      end
  end.

(** Lines 246 to 334: what the runner does once both goroutines ended. *)
Definition finish_source (ctx : Ctx W) (source : Origin) (result : CrawlResult) (crawlErr : option error)
    (current : CrawlSourceLease) (renewalErr : option error) (w : W) : W * (CrawlReport * option error) :=
  match ctx w with
  | Some parentErr => (w, (claimed_report source, Some parentErr))
  | None =>
      match renewalErr with
      | Some err =>
          (observe w (bs "failed", source, bs "lease_renewal_failed"), (claimed_report source, Some (wrap err)))
      | None =>
          match crawlErr with
          | Some err =>
              let category :=
                if bool_decide (crawl_FailureCategory result = CategoryNone) then CategoryProcessor
                else crawl_FailureCategory result in
              match source_Complete ctx w (current, category, crawl_RetryAfter result) with
              | (w, Some completionErr) =>
                  (observe w (bs "failed", source, bs "completion_failed"),
                   (claimed_report source, Some (wrap completionErr)))
              | (w, None) =>
                  (observe w (bs "failed", source, bs "crawl_failed"), (claimed_report source, Some (wrap err)))
              end
          | None =>
              match source_Complete ctx w (current, crawl_FailureCategory result, crawl_RetryAfter result) with
              | (w, Some err) =>
                  (observe w (bs "failed", source, bs "completion_failed"),
                   (crawled_report source result, Some (wrap err)))
              | (w, None) => (observe w (bs "idle", zero_origin, []), (crawled_report source result, None))
              end
          end
      end
  end.

Definition runOnceWithLease (sched : list turn) (ctx : Ctx W) (w : W) : option (W * (CrawlReport * option error)) :=
  match source_Claim ctx w (DiscoveryInterval config, leaseDuration config) with
  | (w, Err err) =>
      Some (observe w (bs "failed", zero_origin, bs "claim_failed"), (zero_report, Some (wrap err)))
  | (w, Ok None) => Some (noSource ctx w)
  | (w, Ok (Some lease)) =>
      let source := source_lease_Origin lease in
      let w := observe w (bs "running", source, []) in
      match crawlWithLease sched ctx lease w with
      | None => None
      | Some (w, (result, crawlErr, current, renewalErr)) =>
          Some (finish_source ctx source result crawlErr current renewalErr w)
      end
  end.

(** [validate] for a runner whose dependencies are not nil *)
Definition validate (ctx : option (Ctx W)) (w : W) : res error (Ctx W) :=
  match ctx with
  | None => Err (errors_New discovery_errInvalidContext)
  | Some ctx =>
      match ctx w with
      | Some err => Err err
      | None => if negb (validCrawlRunnerConfig config) then Err (errors_New errInvalidCrawlRunnerConfig) else Ok ctx
      end
  end.

Definition RunOnce (sched : list turn) (ctx : option (Ctx W)) (w : W) : option (W * (CrawlReport * option error)) :=
  match validate ctx w with
  | Err err => Some (w, (zero_report, Some err))
  | Ok ctx => runOnceWithLease sched ctx w
  end.

(** ** Run *)

Variable waiter : Ctx W -> call W Z (option error).

(** One pass of the loop of [Run]; [Some (_, Some e)] is the error it returns. *)
Definition run_pass (sched : list turn) (ctx : Ctx W) (w : W) : option (W * option error) :=
  match RunOnce sched (Some ctx) w with
  | None => None
  | Some (w, (report, Some _)) =>
      match ctx w with
      | Some contextError => Some (w, Some contextError)
      | None => Some (if Worked report then (w, None) else waiter ctx w (PollInterval config))
      end
  | Some (w, (report, None)) => Some (if Worked report then (w, None) else waiter ctx w (PollInterval config))
  end.

(** The loop, one schedule per pass; [Some (_, None)] means that it still runs
    when the schedules are used up. *)
Fixpoint run_loop (scheds : list (list turn)) (ctx : Ctx W) (w : W) : option (W * option error) :=
  match scheds with
  | [] => Some (w, None)
  | sched :: rest =>
      match run_pass sched ctx w with
      | None => None
      | Some (w, Some err) => Some (w, Some err)
      | Some (w, None) => run_loop rest ctx w
      end
  end.

Definition Run (scheds : list (list turn)) (ctx : option (Ctx W)) (w : W) : option (W * option error) :=
  match validate ctx w with
  | Err err => Some (w, Some err)
  | Ok ctx => run_loop scheds ctx w
  end.
End Runner.

(** * Correctness of the crawl runner

    What the runner does with a source, as the trace of its calls to the store,
    for every interleaving of the crawl, the renewals and other processes; and
    the discovery store as the runner's store. *)

From S2P Require Import CrawlTelemetry.

#[local] Set Warnings "-clear-no-such-hyp".

(** ** The law of the store *)

(** Two leases with the same authority over a source. *)
Definition same_source (l l' : CrawlSourceLease) : Prop :=
  source_lease_Origin l = source_lease_Origin l' /\ source_lease_Generation l = source_lease_Generation l'.

#[export] Instance same_source_equivalence : Equivalence same_source.
Proof.
  split.
  - by intros l.
  - intros l l' [? ?]. by split.
  - intros l l' l'' [? ?] [? ?]. split; congruence.
Qed.

Class CrawlSourceStoreLaws (W : Type) `{CrawlSourceStore W} := {
  source_Renew_same ctx (w : W) l d w' l' : source_Renew ctx w (l, d) = (w', Ok l') -> same_source l l';
}.

(** ** Traces *)

Inductive store_call (W : Type) : Type :=
| called_claim (r : res error (option CrawlSourceLease))
| called_renew (l : CrawlSourceLease) (r : res error CrawlSourceLease)
| called_complete (w : W) (l : CrawlSourceLease) (category : Category) (retryAfter : Z) (w' : W) (e : option error)
| called_wait (d : Z) (e : option error).
Arguments called_claim {W}. Arguments called_renew {W}. Arguments called_complete {W}. Arguments called_wait {W}.

Section Traced.
Context {W : Type} {St : CrawlSourceStore W} {Cr : SourceCrawler W} {El : Elsewhere W}.

Abbreviation traced := (W * list (store_call W))%type.

Definition below (ctx : Ctx traced) (log : list (store_call W)) : Ctx W := fun w => ctx (w, log).

#[export] Instance traced_store : CrawlSourceStore traced := {
  source_Claim ctx '(w, log) a :=
    let '(w', r) := source_Claim (below ctx log) w a in ((w', log ++ [called_claim r]), r);
  source_Renew ctx '(w, log) a :=
    let '(w', r) := source_Renew (below ctx log) w a in ((w', log ++ [called_renew (fst a) r]), r);
  source_Complete ctx '(w, log) a :=
    let '(w', e) := source_Complete (below ctx log) w a in
    let '(l, c, d) := a in ((w', log ++ [called_complete w l c d w' e]), e);
  source_Paused :=
    option_map (fun f ctx '(w, log) (u : unit) => let '(w', r) := f (below ctx log) w u in ((w', log), r)) source_Paused;
}.

#[export] Instance traced_crawler : SourceCrawler traced := {
  crawling := @crawling W Cr;
  crawler_start := @crawler_start W Cr;
  crawler_move ctx '(w, log) c := let '(w', r) := crawler_move (below ctx log) w c in ((w', log), r);
}.

#[export] Instance traced_elsewhere : Elsewhere traced := {
  event := @event W El;
  elsewhere e '(w, log) := (elsewhere e w, log);
}.

Definition traced_observe (observe : W -> bytes * Origin * bytes -> W) : traced -> bytes * Origin * bytes -> traced :=
  fun '(w, log) n => (observe w n, log).

Definition traced_waiter (waiter : Ctx W -> call W Z (option error)) : Ctx traced -> call traced Z (option error) :=
  fun ctx '(w, log) d => let '(w', e) := waiter (below ctx log) w d in ((w', log ++ [called_wait d e]), e).
End Traced.

Section Session.
Context {W : Type} {St : CrawlSourceStore W} {Cr : SourceCrawler W} {El : Elsewhere W} {Laws : CrawlSourceStoreLaws W}.
Variable config : CrawlRunnerConfig.
Variable observe : W -> bytes * Origin * bytes -> W.

Abbreviation traced := (W * list (store_call W))%type.

(** The renewals of a lease: each renews what the one before returned, all
    succeed but possibly the last, and the goroutine ends in [side]. *)
Inductive renewals (l : CrawlSourceLease) : list (store_call W) -> renewal -> Prop :=
| renewals_none : renewals l [] (Waiting l)
| renewals_next evs current renewed : renewals l evs (Waiting current) -> same_source current renewed ->
    renewals l (evs ++ [called_renew current (Ok renewed)]) (Waiting renewed)
| renewals_failed evs current err reported : renewals l evs (Waiting current) -> reported = None \/ reported = Some err ->
    renewals l (evs ++ [called_renew current (Err err)]) (Sent current reported)
| renewals_done evs current : renewals l evs (Waiting current) -> renewals l evs (Sent current None).

Definition held_by (side : renewal) : CrawlSourceLease := match side with Waiting l => l | Sent l _ => l end.

Lemma renewals_same l evs side : renewals l evs side -> same_source l (held_by side).
Proof.
  induction 1 as [|evs current renewed _ IH Hs|evs current err reported _ IH _|evs current _ IH]; cbn in *; [done| |done|done].
  by transitivity current.
Qed.

(** A failure is reported only after a call that failed. *)
Lemma renewals_error l evs current err : renewals l evs (Sent current (Some err)) ->
  exists evs', evs = evs' ++ [called_renew current (Err err)].
Proof. inversion 1 as [| |evs' c e r _ [?|Heq]|]; simplify_eq; eauto. Qed.

(** What holds of the two goroutines between turns. *)
Record session (l : CrawlSourceLease) (log evs : list (store_call W)) (st : traced * @goroutines traced traced_crawler) : Prop := {
  session_log : snd (fst st) = log ++ evs;
  session_renewals : renewals l evs (renew_side (snd st));
  session_cancel : forall err, renew_side (snd st) = Sent (held_by (renew_side (snd st))) (Some err) ->
    crawl_canceled (snd st) = true;
  session_ended : forall r, crawl_side (snd st) = inr r -> renew_canceled (snd st) = true;
}.

Abbreviation goroutines' := (@goroutines traced (@traced_crawler W Cr)) (only parsing).

Lemma crawler_turn_session ctx l log evs w g : session l log evs (w, g) -> session l log evs (crawler_turn ctx g w).
Proof.
  destruct w as [w log0]. intros Hs. unfold crawler_turn. destruct (crawl_side g) as [c|r] eqn:Hside; [|exact Hs].
  destruct Hs as [Hl Hr Hc He]. cbn [fst snd] in *. cbn [crawler_move traced_crawler].
  destruct (crawler_move _ w c) as [w' [c'|r]]; split; cbn [fst snd crawl_side renew_side crawl_canceled renew_canceled];
    done.
Qed.

Lemma done_turn_session ctx l log evs w g : session l log evs (w, g) -> session l log evs (w, done_turn ctx g w).
Proof.
  intros Hs. unfold done_turn. destruct (renew_side g) as [current|] eqn:Hside; [|exact Hs].
  destruct (with_cancel ctx _ w); [|exact Hs]. destruct Hs as [Hl Hr Hc He]. cbn [fst snd] in *. rewrite Hside in Hr.
  split; cbn [fst snd crawl_side renew_side crawl_canceled renew_canceled held_by]; [done| |done|done]. by apply renewals_done.
Qed.

Lemma timer_turn_session ctx l log evs w g : session l log evs (w, g) ->
  exists evs', session l log evs' (timer_turn config ctx g w).
Proof.
  destruct w as [w log0]. intros Hs. unfold timer_turn. destruct (renew_side g) as [current|] eqn:Hside; [|by exists evs].
  destruct Hs as [Hl Hr Hc He]. cbn [fst snd] in *. rewrite Hside in Hr. cbn [source_Renew traced_store].
  destruct (source_Renew _ w _) as [w' [renewed|err]] eqn:Hrenew; cbn [fst].
  - exists (evs ++ [called_renew current (Ok renewed)]).
    split; cbn [fst snd crawl_side renew_side crawl_canceled renew_canceled held_by]; [by rewrite Hl, app_assoc| |done|done].
    apply renewals_next; [done|]. by eapply source_Renew_same.
  - exists (evs ++ [called_renew current (Err err)]).
    destruct (with_cancel ctx _ _); split; cbn [fst snd crawl_side renew_side crawl_canceled renew_canceled held_by];
      try done; try (by rewrite Hl, app_assoc); apply renewals_failed; auto.
Qed.

Lemma take_turn_session ctx l log t evs st : session l log evs st ->
  exists evs', session l log evs' (take_turn config ctx t st).
Proof.
  destruct st as [w g]. intros Hs. destruct t; cbn [take_turn].
  - exists evs. by apply crawler_turn_session.
  - by eapply timer_turn_session.
  - exists evs. by apply done_turn_session.
  - exists evs. destruct w as [w log0]. destruct Hs as [Hl Hr Hc He]. by split.
Qed.

Lemma turns_session ctx l log sched evs st : session l log evs st ->
  exists evs', session l log evs' (fold_left (fun st t => take_turn config ctx t st) sched st).
Proof.
  revert evs st. induction sched as [|t sched IH]; intros evs st Hs; cbn [fold_left]; [by exists evs|].
  destruct (take_turn_session ctx l log t evs st Hs) as [evs' Hs']. by eapply IH.
Qed.

Lemma start_session l w log : session l log [] ((w, log), start l).
Proof. split; cbn; [by rewrite app_nil_r|constructor|done|done]. Qed.

(** How a crawl under a lease ends. *)
Lemma crawlWithLease_session sched ctx l w log w' log' result crawlErr current renewalErr :
  crawlWithLease config sched ctx l (w, log) = Some ((w', log'), (result, crawlErr, current, renewalErr)) ->
  exists evs, log' = log ++ evs /\ renewals l evs (Sent current renewalErr).
Proof.
  unfold crawlWithLease. destruct (turns_session ctx l log sched [] _ (start_session l w log)) as [evs Hs].
  destruct (fold_left _ sched _) as [[w1 log1] g]. destruct Hs as [Hl Hr _ _]. cbn [fst snd] in *.
  destruct (crawl_side g) as [|[r e]]; [done|]. destruct (renew_side g) as [|c re]; [done|].
  intros [= -> -> -> -> -> ->]. by exists evs.
Qed.

(** How the runner ends with a source it claimed: [tail] are its calls after
    the crawl. *)
Inductive settled_source (l current : CrawlSourceLease) (evs : list (store_call W))
    : list (store_call W) -> CrawlReport -> option error -> Prop :=
(** the runner's own context ended: the lease is left to expire *)
| settled_canceled err : settled_source l current evs [] (claimed_report (source_lease_Origin l)) (Some err)
(** a renewal failed: the source is not completed *)
| settled_lost err : renewals l evs (Sent current (Some err)) ->
    settled_source l current evs [] (claimed_report (source_lease_Origin l)) (Some (wrap err))
(** the crawl failed: completed with a category that is not none *)
| settled_failed c w0 w1 category retryAfter err : category <> CategoryNone ->
    source_Complete c w0 (current, category, retryAfter) = (w1, None) ->
    settled_source l current evs [called_complete w0 current category retryAfter w1 None]
      (claimed_report (source_lease_Origin l)) (Some err)
| settled_completed c w0 w1 (r : CrawlResult) :
    source_Complete c w0 (current, crawl_FailureCategory r, crawl_RetryAfter r) = (w1, None) ->
    settled_source l current evs
      [called_complete w0 current (crawl_FailureCategory r) (crawl_RetryAfter r) w1 None]
      (crawled_report (source_lease_Origin l) r) None
(** the completion was refused *)
| settled_refused c w0 w1 category retryAfter report err :
    Worked report = true -> report_Source report = source_lease_Origin l ->
    source_Complete c w0 (current, category, retryAfter) = (w1, Some err) ->
    settled_source l current evs [called_complete w0 current category retryAfter w1 (Some err)] report (Some (wrap err)).

Lemma finish_source_settled ctx l result crawlErr current renewalErr evs w log w' log' report err :
  renewals l evs (Sent current renewalErr) ->
  finish_source (traced_observe observe) ctx (source_lease_Origin l) result crawlErr current renewalErr (w, log)
    = ((w', log'), (report, err)) ->
  exists tail, log' = log ++ tail /\ settled_source l current evs tail report err.
Proof.
  intros Hr. unfold finish_source. destruct (ctx (w, log)) as [e|].
  { intros [= -> -> <- <-]. exists []. rewrite app_nil_r. split; [done|constructor]. }
  destruct renewalErr as [e|].
  { cbn. intros [= <- -> <- <-]. exists []. rewrite app_nil_r. split; [done|by constructor]. }
  destruct crawlErr as [ce|]; cbn [source_Complete traced_store].
  - destruct (source_Complete _ w _) as [w1 [e|]] eqn:Hq; cbn; intros [= <- <- <- <-]; eexists; (split; [done|]).
    + by eapply settled_refused.
    + eapply settled_failed; [|exact Hq]. case_bool_decide; done.
  - destruct (source_Complete _ w _) as [w1 [e|]] eqn:Hq; cbn; intros [= <- <- <- <-]; eexists; (split; [done|]).
    + by eapply settled_refused.
    + by eapply settled_completed.
Qed.

(** What the calls of a pass are. *)
Definition pass_calls (log : list (store_call W)) (report : CrawlReport) (err : option error) : Prop :=
  match log with
  | [] => report = zero_report /\ err <> None
  | called_claim (Ok (Some l)) :: calls =>
      Worked report = true /\ report_Source report = source_lease_Origin l
  | called_claim _ :: calls => calls = [] /\ report = zero_report
  | _ => False
  end
  /\ (forall l calls, log = called_claim (Ok (Some l)) :: calls ->
        exists evs tail current, calls = evs ++ tail /\ same_source l current
          /\ (exists reported, renewals l evs (Sent current reported))
          /\ settled_source l current evs tail report err).

Lemma crawl_pass_trace sched ctx w log0 w' log' report err :
  RunOnce config (traced_observe observe) sched (Some ctx) (w, log0) = Some ((w', log'), (report, err)) ->
  exists log, log' = log0 ++ log /\ pass_calls log report err
    /\ (log = [] -> validCrawlRunnerConfig config = true -> ctx (w', log') = err).
Proof.
  intros Hrun. unfold RunOnce, validate in Hrun. destruct (ctx (w, log0)) as [e|] eqn:Hctx.
  { injection Hrun as <- <- <- <-. exists []. rewrite app_nil_r. by repeat split. }
  destruct (validCrawlRunnerConfig config); cbn [negb] in Hrun.
  2:{ injection Hrun as <- <- <- <-. exists []. rewrite app_nil_r. by repeat split. }
  unfold runOnceWithLease in Hrun. cbn [source_Claim traced_store] in Hrun.
  destruct (source_Claim _ w _) as [w1 r] eqn:Hclaim. destruct r as [[l|]|e].
  - cbv zeta in Hrun. cbn [traced_observe] in Hrun.
    destruct (crawlWithLease _ _ _ _ _) as [[[w2 log2] [[[result crawlErr] current] renewalErr]]|] eqn:Hc; [|done].
    apply crawlWithLease_session in Hc as (evs & -> & Hren). injection Hrun as Hfin.
    destruct (finish_source_settled _ _ _ _ _ _ _ _ _ _ _ _ _ Hren Hfin) as (tail & -> & Hset).
    exists (called_claim (Ok (Some l)) :: evs ++ tail). split; [by rewrite <- !app_assoc|]. split; [split|done].
    + by inversion Hset; subst.
    + intros l' calls [= <- <-]. exists evs, tail, current. split_and!; [done| |by eexists|done].
      by apply renewals_same in Hren.
  - exists [called_claim (Ok None)]. unfold noSource in Hrun. cbn [source_Paused traced_store] in Hrun.
    destruct (@source_Paused W St) as [paused|]; cbn in Hrun.
    + destruct (paused _ w1 tt) as [w2 [p|e]]; cbn in Hrun; injection Hrun as <- <- <- <-; by repeat split.
    + injection Hrun as <- <- <- <-. by repeat split.
  - exists [called_claim (Err e)]. cbn in Hrun. injection Hrun as <- <- <- <-. by repeat split.
Qed.

(** ** Passes end *)

(** A measure that every move of the crawler that does not end it decreases. *)
Definition crawl_ends (rank : @crawling W Cr -> nat) : Prop :=
  forall ctx w c w' c', crawler_move ctx w c = (w', inl c') -> (rank c' < rank c)%nat.

Definition crawler_moves (sched : list (@turn traced (@traced_elsewhere W El))) : nat :=
  length (List.filter (fun t => match t with CrawlerMoves => true | _ => false end) sched).

(** The crawler gets [bound] moves, and later the renewal goroutine gets to
    look at its context. *)
Definition fair (bound : nat) (sched : list (@turn traced (@traced_elsewhere W El))) : Prop :=
  exists before after, sched = before ++ ContextDone :: after /\ (bound <= crawler_moves before)%nat.

Abbreviation turns ctx sched st := (fold_left (fun s t => take_turn (W := traced) config ctx t s) sched st).

(** What is left of the crawl: nothing once it ended. *)
Definition crawl_left (rank : @crawling W Cr -> nat) (g : goroutines') : nat :=
  match crawl_side g with inl c => S (rank c) | inr _ => O end.

Lemma take_turn_left rank ctx t st : crawl_ends rank ->
  (crawl_left rank (snd (take_turn config ctx t st))
   <= crawl_left rank (snd st) - match t with CrawlerMoves => 1 | _ => 0 end)%nat.
Proof.
  intros Hdown. destruct st as [[w log] g]. unfold crawl_left. destruct t; cbn [take_turn snd].
  - unfold crawler_turn. destruct (crawl_side g) as [c|r] eqn:Hside; [|cbn [snd]; rewrite Hside; lia].
    cbn [crawler_move traced_crawler]. destruct (crawler_move _ w c) as [w' [c'|r]] eqn:Hm; cbn [snd crawl_side]; [|lia].
    apply Hdown in Hm. lia.
  - unfold timer_turn. destruct (renew_side g); [|cbn [snd]; lia]. cbn [source_Renew traced_store].
    destruct (source_Renew _ w _) as [w' [renewed|err]]; [cbn; lia|]. destruct (with_cancel _ _ _); cbn; lia.
  - unfold done_turn. destruct (renew_side g); [|lia]. destruct (with_cancel _ _ _); cbn; lia.
  - lia.
Qed.

Lemma turns_left rank ctx sched st : crawl_ends rank ->
  (crawl_left rank (snd (turns ctx sched st)) <= crawl_left rank (snd st) - crawler_moves sched)%nat.
Proof.
  intros Hdown. revert st. induction sched as [|t sched IH]; intros st; cbn [fold_left]; [cbn; lia|].
  specialize (IH (take_turn config ctx t st)). pose proof (take_turn_left rank ctx t st Hdown).
  unfold crawler_moves in *. destruct t; cbn [List.filter length] in *; lia.
Qed.

(** Both goroutines ended, and stay so. *)
Definition both_ended (g : goroutines') : Prop :=
  match crawl_side g, renew_side g with inr _, Sent _ _ => True | _, _ => False end.

Lemma both_ended_turns ctx sched st : both_ended (snd st) -> both_ended (snd (turns ctx sched st)).
Proof.
  revert st. induction sched as [|t sched IH]; intros [w g]; cbn [fold_left]; [done|]. intros Hb. apply IH.
  unfold both_ended in *. cbn [snd] in *. destruct (crawl_side g) as [|r] eqn:Hc; [done|].
  destruct (renew_side g) as [|cur e] eqn:Hr; [done|].
  destruct t; cbn [take_turn snd]; unfold crawler_turn, timer_turn, done_turn; rewrite ?Hc, ?Hr; cbn [snd];
    by rewrite ?Hc, ?Hr.
Qed.

Lemma crawlWithLease_fair rank bound sched ctx l w log : crawl_ends rank ->
  (rank (crawler_start (source_lease_Origin l)) < bound)%nat -> fair bound sched ->
  is_Some (crawlWithLease config sched ctx l (w, log)).
Proof.
  intros Hdown Hb (before & after & -> & Hm). unfold crawlWithLease. rewrite fold_left_app. cbn [fold_left].
  set (st1 := turns ctx before ((w, log), start l)).
  assert (Hend : exists r, crawl_side (snd st1) = inr r).
  { pose proof (turns_left rank ctx before ((w, log), start l) Hdown) as Hl. fold st1 in Hl. revert Hl.
    unfold crawl_left. cbn [snd start crawl_side crawler_start traced_crawler]. destruct (crawl_side (snd st1)) as [c|r]; [lia|eauto]. }
  destruct (turns_session ctx l log before [] _ (start_session l w log)) as [evs [_ _ _ He]]. fold st1 in He.
  destruct Hend as [r Hr]. specialize (He r Hr).
  assert (Hboth : both_ended (snd (take_turn config ctx ContextDone st1))).
  { destruct st1 as [w1 g]. cbn [snd take_turn] in *. unfold both_ended, done_turn.
    destruct (renew_side g) as [current|] eqn:Hside; [|by rewrite Hr, Hside].
    unfold with_cancel. rewrite He. destruct (ctx w1); cbn; by rewrite Hr. }
  apply (both_ended_turns ctx after) in Hboth. destruct (turns ctx after _) as [w2 g2]. cbn [snd] in Hboth.
  unfold both_ended in Hboth. destruct (crawl_side g2) as [|[]]; [done|]. destruct (renew_side g2); [done|]. by eexists.
Qed.

Lemma RunOnce_returns rank bound sched ctx w log : crawl_ends rank ->
  (forall o, rank (crawler_start o) < bound)%nat -> fair bound sched ->
  is_Some (RunOnce config (traced_observe observe) sched (Some ctx) (w, log)).
Proof.
  intros Hdown Hb Hfair. unfold RunOnce, runOnceWithLease. destruct (validate _ _ _) as [ctx'|e]; [|by eexists].
  destruct (source_Claim _ _ _) as [[w1 log1] [[l|]|e]]; [|by eexists..]. cbn [traced_observe].
  destruct (crawlWithLease_fair rank bound sched ctx' l (observe w1 (bs "running", source_lease_Origin l, [])) log1)
    as [[w2 [[[? ?] ?] ?]] Hc]; [done..|]. rewrite Hc. by eexists.
Qed.

(** What one pass of the crawl runner does, for every crawler, every
    store that renews without changing a lease's authority, and every
    interleaving of the crawl, the renewals and other processes. A pass that
    works claims once; then it renews, each time what the previous renewal
    returned, until a renewal fails or the crawl ends; and it completes the
    source at most once, after both ended, with a lease of the authority it
    claimed: never when its context ended or a renewal failed, with the crawl's
    own category on success and a failure category on failure. A pass that
    does not work neither renews nor completes. And a pass returns: for a
    crawler whose crawls end, every interleaving that gives the crawler enough
    moves and then lets the renewal goroutine see its context ends it. *)
Theorem crawl_pass_correct sched ctx w :
  (forall w' log report err,
     RunOnce config (traced_observe observe) sched (Some ctx) (w, []) = Some ((w', log), (report, err)) ->
     pass_calls log report err)
  /\ (forall rank bound, crawl_ends rank -> (forall o, rank (crawler_start o) < bound)%nat -> fair bound sched ->
     is_Some (RunOnce config (traced_observe observe) sched (Some ctx) (w, []))).
Proof.
  split; [|intros; by eapply RunOnce_returns].
  by intros w' log' report err (log & -> & Hp & _)%crawl_pass_trace.
Qed.

(** ** The loop *)

Variable waiter : Ctx W -> call W Z (option error).

Abbreviation run_traced := (run_loop config (traced_observe observe) (traced_waiter waiter)).

(** A pass on a claimed source: the claim, its renewals and its settlement. *)
Definition source_pass (evs : list (store_call W)) : Prop :=
  exists l calls report err, evs = called_claim (Ok (Some l)) :: calls /\ pass_calls evs report err.

(** A claim that handed out nothing. *)
Definition idle_claim (evs : list (store_call W)) : Prop :=
  evs = [called_claim (Ok None)] \/ exists err, evs = [called_claim (Err err)].

(** The passes of a loop that goes on. *)
Inductive crawl_passes : list (store_call W) -> Prop :=
| crawl_passes_nil : crawl_passes []
| crawl_passes_source evs rest : source_pass evs -> crawl_passes rest -> crawl_passes (evs ++ rest)
| crawl_passes_idle evs rest : idle_claim evs -> crawl_passes rest ->
    crawl_passes (evs ++ called_wait (PollInterval config) None :: rest).

(** The last pass of a loop that returns: its context ended before or during
    the pass, or the wait after an idle claim failed. *)
Inductive loop_ended (ctx : Ctx (W * list (store_call W))) (w : W * list (store_call W)) (err : error)
    : list (store_call W) -> Prop :=
| loop_ended_context evs : evs = [] \/ source_pass evs \/ idle_claim evs -> ctx w = Some err -> loop_ended ctx w err evs
| loop_ended_wait evs : idle_claim evs -> loop_ended ctx w err (evs ++ [called_wait (PollInterval config) (Some err)]).

Definition claims (evs : list (store_call W)) : nat :=
  length (List.filter (fun e => match e with called_claim _ => true | _ => false end) evs).

Lemma claims_app a b : claims (a ++ b) = (claims a + claims b)%nat.
Proof. unfold claims. by rewrite List.filter_app, length_app. Qed.

Lemma renewals_no_claim l evs side : renewals l evs side -> claims evs = 0%nat.
Proof. induction 1; rewrite ?claims_app; cbn; lia. Qed.

Lemma source_pass_claims evs : source_pass evs -> claims evs = 1%nat.
Proof.
  intros (l & calls & report & err & -> & _ & Hcalls).
  destruct (Hcalls l calls eq_refl) as (renew & tail & current & -> & _ & [reported Hren] & Hset).
  change (claims (?x :: ?y)) with (S (claims y)). rewrite claims_app, (renewals_no_claim _ _ _ Hren).
  by inversion Hset.
Qed.

(** The calls of a pass that returned: nothing, an idle claim or a source. *)
Lemma pass_calls_cases evs report err : pass_calls evs report err ->
  (evs = [] /\ report = zero_report /\ err <> None) \/ (idle_claim evs /\ report = zero_report)
  \/ (source_pass evs /\ Worked report = true).
Proof.
  intros Hp. pose proof Hp as [Hhead _]. destruct evs as [|[[[l|]|e]| | |] calls]; try done.
  - left. tauto.
  - right; right. destruct Hhead. split; [|done]. by exists l, calls, report, err.
  - right; left. destruct Hhead as [-> ->]. split; [by left|done].
  - right; left. destruct Hhead as [-> ->]. split; [right; by exists e|done].
Qed.

(** One pass of the loop. *)
Lemma crawl_run_pass_trace sched ctx w log w' log' e : validCrawlRunnerConfig config = true ->
  run_pass config (traced_observe observe) (traced_waiter waiter) sched ctx (w, log) = Some ((w', log'), e) ->
  exists evs, log' = log ++ evs /\
    match e with
    | Some err => loop_ended ctx (w', log') err evs
    | None => source_pass evs \/ exists evs0, idle_claim evs0 /\ evs = evs0 ++ [called_wait (PollInterval config) None]
    end.
Proof.
  intros Hvalid. unfold run_pass.
  destruct (RunOnce _ _ _ _ _) as [[[w1 log1] [report err]]|] eqn:Hrun; [|done].
  apply crawl_pass_trace in Hrun as (evs & -> & Hp & Hnil).
  assert (Hwait : idle_claim evs -> Some (traced_waiter waiter ctx (w1, log ++ evs) (PollInterval config)) = Some ((w', log'), e) ->
    exists evs', log' = log ++ evs' /\ match e with
      | Some err => loop_ended ctx (w', log') err evs'
      | None => source_pass evs' \/ exists evs0, idle_claim evs0 /\ evs' = evs0 ++ [called_wait (PollInterval config) None]
      end).
  { intros Hidle. unfold traced_waiter. destruct (waiter _ w1 _) as [w2 e2]. intros [= <- <- <-].
    exists (evs ++ [called_wait (PollInterval config) e2]). split; [by rewrite app_assoc|].
    destruct e2; [by constructor|right; eauto]. }
  destruct (pass_calls_cases _ _ _ Hp) as [(-> & -> & Herr)|[[Hidle ->]|[Hsource Hworked]]]; cbn [Worked zero_report].
  - specialize (Hnil eq_refl Hvalid). destruct err as [err|]; [|done]. rewrite Hnil. intros [= <- <- <-].
    exists []. split; [done|]. by apply loop_ended_context; [left|].
  - destruct err as [err|]; [destruct (ctx _) as [cerr|] eqn:Hctx|]; [|by apply Hwait..].
    intros [= <- <- <-]. exists evs. split; [done|]. apply loop_ended_context; auto.
  - rewrite Hworked. destruct err as [err|]; [destruct (ctx _) as [cerr|] eqn:Hctx|]; intros [= <- <- <-];
      exists evs; (split; [done|]); [|by left..]. apply loop_ended_context; auto.
Qed.

Lemma crawl_run_loop_trace scheds ctx w log w' log' e : validCrawlRunnerConfig config = true ->
  run_traced scheds ctx (w, log) = Some ((w', log'), e) ->
  exists body final, log' = log ++ body ++ final /\ crawl_passes body /\
    match e with
    | Some err => loop_ended ctx (w', log') err final
    | None => final = [] /\ claims body = length scheds
    end.
Proof.
  intros Hvalid. revert w log. induction scheds as [|sched scheds IH]; intros w log; cbn [run_loop].
  { intros [= <- <- <-]. exists [], []. rewrite app_nil_r. split_and!; [done|constructor|done|done]. }
  destruct (run_pass _ _ _ _ _ _) as [[[w1 log1] [err|]]|] eqn:Hp; [| |done];
    apply crawl_run_pass_trace in Hp as (evs & -> & Hevs); [|done| |done].
  { intros [= <- <- <-]. exists [], evs. split_and!; [done|constructor|done]. }
  intros (body & final & -> & Hbody & He)%IH. exists (evs ++ body), final. split; [by rewrite !app_assoc|]. split.
  - destruct Hevs as [Hs|(evs0 & Hi & ->)]; [by constructor|]. rewrite <- app_assoc. by constructor.
  - destruct e as [err|]; [done|]. destruct He as [-> Hc]. split; [done|]. rewrite claims_app, Hc. cbn [length].
    destruct Hevs as [Hs|(evs0 & Hi & ->)]; [by rewrite source_pass_claims|].
    by destruct Hi as [->|[err ->]].
Qed.

Lemma run_loop_returns rank bound scheds ctx w : crawl_ends rank ->
  (forall o, rank (crawler_start o) < bound)%nat -> Forall (fair bound) scheds ->
  is_Some (run_traced scheds ctx w).
Proof.
  intros Hdown Hb Hfair. revert w. induction Hfair as [|sched scheds Hf _ IH]; intros [w log]; [by eexists|].
  cbn [run_loop]. unfold run_pass.
  destruct (RunOnce_returns rank bound sched ctx w log Hdown Hb Hf) as [[[w1 log1] [report err]] Hr]. rewrite Hr.
  destruct err as [err|]; [destruct (ctx (w1, log1)); [by eexists|]|];
    (destruct (Worked report); [by apply IH|]); destruct (traced_waiter _ _ _ _) as [w2 [e|]]; [by eexists|apply IH|by eexists|apply IH].
Qed.

(** C29: The crawl runner keeps running. For a valid configuration and fair
    interleavings, every pass of [Run] comes to an end, and [Run] returns only
    when its context ended or its waiter failed, never because a claim, a
    crawl, a renewal or a completion failed; as long as it has not returned,
    every pass makes exactly one claim. A claimed source leads at once to the
    next claim, whatever became of it; a claim that hands out nothing is
    followed by exactly one wait for the poll interval. *)
Theorem crawl_Run_correct rank bound scheds ctx w :
  validCrawlRunnerConfig config = true -> crawl_ends rank -> (forall o, rank (crawler_start o) < bound)%nat ->
  Forall (fair bound) scheds ->
  exists w' log e,
    Run config (traced_observe observe) (traced_waiter waiter) scheds (Some ctx) (w, []) = Some ((w', log), e)
    /\ exists body final, log = body ++ final /\ crawl_passes body /\
      match e with
      | Some err => loop_ended ctx (w', log) err final
      | None => final = [] /\ claims body = length scheds
      end.
Proof.
  intros Hvalid Hdown Hb Hfair. unfold Run, validate. destruct (ctx (w, [])) as [err|] eqn:Hctx.
  { exists w, [], (Some err). split; [done|]. exists [], []. split_and!; [done|constructor|].
    apply loop_ended_context; auto. }
  rewrite Hvalid. cbn [negb].
  destruct (run_loop_returns rank bound scheds ctx (w, []) Hdown Hb Hfair) as [[[w' log] e] Hr].
  exists w', log, e. split; [done|].
  destruct (crawl_run_loop_trace scheds ctx w [] w' log e Hvalid Hr) as (body & final & Hl & Hrest). by exists body, final.
Qed.
End Session.

(** ** The discovery store as the runner's store *)

Section StoreBacked.
Context `{NetURL} `{NetIP} `{IDNA} `{Unicode} {W : Type} {Cr : SourceCrawler W} {El : Elsewhere W}.
Variable text_leb : bytes -> bytes -> bool.
Variable make_interval : Z -> Z.
Variable automatic : AutomaticCrawlConfig.
Variable delay : Z -> Z -> Z.
Variable owner : bytes.
Variable db : W -> Database.
Variable set_db : W -> Database -> W.
(** The clock and the time of the statement. *)
Variables now stmt : W -> Z.
Variable locked : W -> bytes -> bool.
Variable before : W -> W * option error.
Hypothesis db_set : forall w d, db (set_db w d) = d.

(** [ownedDiscoveryRuntimeStore.ClaimDiscoverySourceLease]: the pending probes
    are scheduled before a source is claimed for the store's owner. *)
Definition owned_Claim (ctx : Ctx W) : call W (Z * Z) (res error (option CrawlSourceLease)) :=
  fun w '(interval, d) =>
    match execute set_db before Err ctx w (fun w =>
            SchedulePendingDiscoveryProbes text_leb automatic (db w) (now w) (stmt w)) with
    | (w, Err err) => (w, Err err)
    | (w, Ok _) =>
        execute set_db before Err ctx w (fun w =>
          ClaimDiscoverySourceLease text_leb make_interval automatic (locked w) (db w) owner interval d (now w))
    end.

Definition discovery_source_store : CrawlSourceStore W := {|
  source_Claim := owned_Claim;
  source_Renew ctx w '(l, d) :=
    execute set_db before Err ctx w (fun w => RenewDiscoverySourceLease (db w) l d (now w));
  source_Complete ctx w '(l, category, retryAfter) :=
    execute set_db before Some ctx w (fun w =>
      CompleteDiscoverySourceLeaseRetry delay (db w) l category retryAfter (now w));
  source_Paused := Some (fun ctx w _ => execute set_db before Err ctx w (fun w => (db w, Ok (DiscoveryPaused (db w)))));
|}.

Lemma Renew_same_source d l leaseDuration t d' l' :
  RenewDiscoverySourceLease d l leaseDuration t = (d', Ok l') -> same_source l l'.
Proof.
  unfold RenewDiscoverySourceLease. do 2 (case_head; [done|]). cbv zeta. destruct (source_state d !! _) as [s|]; [|done].
  destruct (source_held s l (pg_time t)) eqn:Hh; [|done]. intros [= _ <-]. unfold source_held in Hh. b2p.
  split; cbn; [done|]. symmetry. by apply Z.eqb_eq.
Qed.

Lemma discovery_source_store_laws : @CrawlSourceStoreLaws W discovery_source_store.
Proof.
  split. intros ctx w l d w' l'. cbn [source_Renew discovery_source_store]. unfold execute. destruct (ctx w); [done|].
  destruct (before w) as [w1 [e|]]; [done|]. destruct (RenewDiscoverySourceLease _ _ _ _) as [d' r] eqn:Hr.
  intros [_ ->]%pair_equal_spec. by apply Renew_same_source in Hr.
Qed.

Variable config : CrawlRunnerConfig.
Variable observe : W -> bytes * Origin * bytes -> W.

(** C13: The runner and the discovery store put together: a pass that reports
    success on a source completed it exactly once, while the lease it had
    claimed, as renewed, was still the source's authority; the completion
    recorded the attempt with the crawl's category and released the source,
    and ended that authority. Whatever other processes did in the meantime, a
    runner that lost its lease cannot have reported success or released the
    source. *)
Theorem crawl_pass_commits sched ctx w w' log report :
  RunOnce (W := W * list (store_call W)) (St := @traced_store W discovery_source_store) (Cr := traced_crawler)
    (El := traced_elsewhere) config (traced_observe observe) sched (Some ctx) (w, [])
  = Some ((w', log), (report, None)) ->
  Worked report = true ->
  exists l current evs w0 w1 w2 r,
    log = called_claim (Ok (Some l)) :: evs
            ++ [called_complete w0 current (crawl_FailureCategory r) (crawl_RetryAfter r) w2 None]
    /\ same_source l current /\ report = crawled_report (source_lease_Origin l) r
    /\ (exists reported, renewals l evs (Sent current reported))
    /\ before w0 = (w1, None)
    /\ source_authority (db w1) current (now w1)
    /\ source_released delay current (crawl_FailureCategory r) (crawl_RetryAfter r) (now w1) (db w1) (db w2).
Proof using db_set.
  intros Hrun Hw. apply (@crawl_pass_trace _ _ _ _ discovery_source_store_laws) in Hrun as (log1 & -> & [Hhead Hcalls] & _).
  cbn [app]. rename log1 into log. destruct log as [|[[[l|]|]| | |] calls]; try done; try (destruct Hhead; by subst).
  destruct (Hcalls l calls eq_refl) as (evs & tail & current & -> & Hsame & Hren & Hset).
  inversion Hset as [| | |c w0 w2 r Hq|]; subst. exists l, current, evs, w0.
  cbn [source_Complete discovery_source_store] in Hq. unfold execute in Hq. destruct (c w0); [done|].
  destruct (before w0) as [w1 [e|]] eqn:Hb; [done|]. exists w1, w2, r.
  destruct (CompleteDiscoverySourceLeaseRetry _ _ _ _ _ _) as [d e] eqn:Hc.
  apply pair_equal_spec in Hq as [<- ->]. apply completion_released in Hc as [Ha Hr]. rewrite db_set.
  by split_and!.
Qed.
End StoreBacked.
