(* ===== verification/CandidateSink.v ===== *)
(** * The candidate sink ([cmd/joshbot/discovery.go])

    The sink of the crawler: it records the candidates of a page, and at the
    end of a crawl resolves every pending candidate through the network guard
    and hands the decisions to the store. The store is an interface; the
    discovery store implements it. *)

From S2P Require Import Prelude GoText GoUrl GoErrors GoNetip GoJson Retry Origin Netguard.
From S2P Require Import RobotsMatch RobotsPolicy RobotsPolicyFacts RobotsHTTP Declaration Verifier.
From S2P Require Import Discovery Crawler Store Queue Exclusions DiscoveryStore.
From S2P Require Import Admission.

#[local] Set Warnings "-clear-no-such-hyp".

(** ** Interfaces *)

(** [discoveryCandidateStore], and [runDiscoveryCandidateStore] and
    [automaticCandidateStore], which the sink asks for with type assertions. *)
Class CandidateStore (W : Type) := {
  sink_RecordDiscovery : Ctx W -> call W (Origin * list Candidate) (res error Z);
  sink_RecordDiscoveryForRun : option (Ctx W -> call W (Z * Origin * list Candidate) (res error Z));
  sink_Admission : option ((Ctx W -> call W Z (res error (list Candidate)))
                           * (Ctx W -> call W (Z * list AutomaticCandidateResult) (option error)));
}.

Definition discoveryAdmissionDNSRetryDelay : Z := 100 * Millisecond.

Section Sink.
Context `{NetIP} {W : Type} {St : CandidateStore W}.
Variable map_order : list Addr -> list Addr.
Variable resolver : option (call W bytes (res error (list Addr))).
(** [sleepAdmissionDNSRetry] *)
Variable sleep : Ctx W -> call W Z (option error).

Definition RecordCandidates (ctx : Ctx W) : call W (Origin * list Candidate) (option error) :=
  fun w '(source, l) =>
    match sink_RecordDiscovery ctx w (source, l) with (w, Ok _) => (w, None) | (w, Err err) => (w, Some err) end.

Definition RecordCandidatesForRun (ctx : Ctx W) : call W (Z * Origin * list Candidate) (option error) :=
  fun w '(runID, source, l) =>
    match sink_RecordDiscoveryForRun with
    | None => RecordCandidates ctx w (source, l)
    | Some record =>
        match record ctx w (runID, source, l) with (w, Ok _) => (w, None) | (w, Err err) => (w, Some err) end
    end.

(** The attempts of lines 140 to 169; [remaining] counts those that remain and
    [category] is the last failure. *)
Fixpoint resolve_attempts (remaining : nat) (ctx : Ctx W) (candidate : Origin) (category : Category) (w : W)
    : W * res error Category :=
  match remaining with
  | O => (w, Ok category)
  | S remaining =>
      match Resolve map_order (Some ctx) candidate resolver w with
      | (w, Ok _) => (w, Ok CategoryNone)
      | (w, Err resolveErr) =>
          let category := FailureCategory resolveErr in
          if negb (Transient category) then (w, Ok category)
          else if bool_decide (remaining = O) then (w, Ok category)
          else
            match sleep ctx w discoveryAdmissionDNSRetryDelay with
            | (w, Some err) => (w, Err err)
            | (w, None) => resolve_attempts remaining ctx candidate category w
            end
      end
  end.

Fixpoint resolve_pending (ctx : Ctx W) (links : list Candidate) (w : W)
    : W * res error (list AutomaticCandidateResult) :=
  match links with
  | [] => (w, Ok [])
  | candidate :: rest =>
      match resolve_attempts (Z.to_nat MaxAttemptsPerCycle) ctx (candidate_Origin candidate) CategoryNone w with
      | (w, Err err) => (w, Err err)
      | (w, Ok category) =>
          match resolve_pending ctx rest w with
          | (w, Err err) => (w, Err err)
          | (w, Ok decisions) => (w, Ok (mkAutomaticResult candidate category :: decisions))
          end
      end
  end.

Definition FinalizeCandidates (ctx : Ctx W) : call W Z (option error) :=
  fun w runID =>
    match sink_Admission with
    | None => (w, None)
    | Some (pendingCandidates, complete) =>
        match pendingCandidates ctx w runID with
        | (w, Err err) => (w, Some err)
        | (w, Ok links) =>
            match resolve_pending ctx links w with
            | (w, Err err) => (w, Some err)
            | (w, Ok decisions) => complete ctx w (runID, decisions)
            end
        end
    end.
End Sink.

(** ** The sink over the discovery store *)

(** The environment that also records the lookups with their answers. *)
Definition answers : Type := list (bytes * res error (list Addr)).
Definition recorded {W} (f : call W bytes (res error (list Addr))) : call (W * answers) bytes (res error (list Addr)) :=
  fun '(w, log) host => let '(w', r) := f w host in ((w', log ++ [(host, r)]), r).
Definition quiet {W A R} (f : Ctx W -> call W A R) : Ctx (W * answers) -> call (W * answers) A R :=
  fun ctx '(w, log) a => let '(w', r) := f (fun w => ctx (w, log)) w a in ((w', log), r).

(** The lookups that justify contacting an origin: its host is a public
    address, or a recorded answer for it is not empty and every address in it
    is public. *)
Definition publicly_resolved `{NetIP} (log : answers) (o : Origin) : Prop :=
  match ParseAddr (Hostname o) with
  | Some a => safe a = true
  | None => exists found, (Hostname o, Ok found) ∈ log /\ found <> [] /\ forallb safe found = true
  end.

Lemma publicly_resolved_app `{NetIP} log more o : publicly_resolved log o -> publicly_resolved (log ++ more) o.
Proof.
  unfold publicly_resolved. destruct (ParseAddr _); [done|]. intros (found & Hin & Hf). exists found.
  split; [|done]. apply elem_of_app. by left.
Qed.

Lemma no_lookup (log : answers) n : exists more, log = log ++ more /\ (length more <= n)%nat.
Proof. exists []. rewrite app_nil_r. split; [done|simpl; lia]. Qed.

Lemma FailureCategory_not_none err : FailureCategory err <> CategoryNone.
Proof. unfold FailureCategory. by repeat case_head. Qed.

Section Attempts.
Context `{NetIP} {W : Type}.
Variable map_order : list Addr -> list Addr.
Variable lookup : option (call W bytes (res error (list Addr))).
Variable sleep : Ctx W -> call W Z (option error).
Variable ctx : Ctx W.

(** A resolution looks up at most once, and a successful one is justified by
    the answers. *)
Lemma Resolve_recorded o w log w' log' r :
  Resolve map_order (Some (ctx_lift ctx)) o (recorded <$> lookup) (w, log) = ((w', log'), r) ->
  (exists more, log' = log ++ more /\ (length more <= 1)%nat)
  /\ forall d, r = Ok d -> publicly_resolved log' o.
Proof.
  unfold Resolve, publicly_resolved, ctx_lift. cbn [fst]. destruct (ctx w).
  { intros [= <- <- <-]. split; [apply no_lookup|done]. }
  destruct (bytes_eqb _ _).
  { intros [= <- <- <-]. split; [apply no_lookup|done]. }
  destruct (ParseAddr _) as [a|].
  { fold (safe (addr_Unmap a)). rewrite safe_Unmap.
    destruct (safe a) eqn:Hs; intros [= <- <- <-]; (split; [apply no_lookup|done]). }
  destruct lookup as [f|]; cbn [fmap option_fmap option_map].
  2:{ intros [= <- <- <-]. split; [apply no_lookup|done]. }
  unfold recorded at 1. destruct (f w (Hostname o)) as [w1 [found|e]].
  - destruct found as [|a found].
    { intros [= <- <- <-]. split; [eexists; by split|done]. }
    intros [[= <- <-] <-]%pair_equal_spec. split; [eexists; by split|]. intros d.
    pose proof (validate_all_spec (a :: found) [] ltac:(constructor)) as Hv.
    destruct (forallb safe (a :: found)) eqn:Hsafe; [|by rewrite Hv]. intros _. exists (a :: found).
    split; [|done]. apply elem_of_app. right. by left.
  - cbn [fst]. destruct (ctx w1); intros [= <- <- <-]; (split; [eexists; by split|done]).
Qed.

Lemma resolve_attempts_recorded n o c w log w' log' r :
  (n = O -> c <> CategoryNone) ->
  resolve_attempts map_order (recorded <$> lookup) (quiet sleep) n (ctx_lift ctx) o c (w, log) = ((w', log'), r) ->
  (exists more, log' = log ++ more /\ (length more <= n)%nat)
  /\ (r = Ok CategoryNone -> publicly_resolved log' o).
Proof.
  revert c w log. induction n as [|n IH]; intros c w log Hc; cbn [resolve_attempts].
  { intros [= <- <- <-]. split; [apply no_lookup|]. specialize (Hc eq_refl). congruence. }
  destruct (Resolve _ _ _ _ _) as [[w1 log1] r1] eqn:Hres.
  apply Resolve_recorded in Hres as [(m1 & -> & Hm1) Hok]. destruct r1 as [d|e].
  { intros [= <- <- <-]. split; [exists m1; split; [done|lia]|]. intros _. by eapply Hok. }
  pose proof (FailureCategory_not_none e) as Hn.
  assert (Hend : forall r' : res error Category, (r' = Ok (FailureCategory e) \/ exists err, r' = Err err) ->
    (exists more, log ++ m1 = log ++ more /\ (length more <= S n)%nat)
    /\ (r' = Ok CategoryNone -> publicly_resolved (log ++ m1) o)).
  { intros r' Hr'. split; [exists m1; split; [done|lia]|]. destruct Hr' as [->|[? ->]]; congruence. }
  case_head; [intros [= <- <- <-]; by apply Hend; left|].
  case_head; [intros [= <- <- <-]; by apply Hend; left|]. unfold quiet at 1.
  destruct (sleep _ w1 _) as [w2 [err|]]; [intros [= <- <- <-]; apply Hend; right; by exists err|].
  intros Hrec. apply IH in Hrec as [(m2 & -> & Hm2) Hp]; [|done]. split; [|done].
  exists (m1 ++ m2). rewrite length_app, app_assoc. split; [done|lia].
Qed.

Lemma resolve_pending_recorded pending w log w' log' r :
  resolve_pending map_order (recorded <$> lookup) (quiet sleep) (ctx_lift ctx) pending (w, log) = ((w', log'), r) ->
  (exists more, log' = log ++ more /\ Z.of_nat (length more) <= MaxAttemptsPerCycle * Z.of_nat (length pending))
  /\ forall decisions, r = Ok decisions ->
       map automatic_Candidate decisions = pending
       /\ Forall (fun d => automatic_FailureCategory d = CategoryNone ->
            publicly_resolved log' (candidate_Origin (automatic_Candidate d))) decisions.
Proof.
  revert w log w' log' r. induction pending as [|c pending IH]; intros w log w' log' r; cbn [resolve_pending].
  { intros [= <- <- <-]. split; [exists []; by rewrite app_nil_r|]. intros ds [= <-]. by split. }
  destruct (resolve_attempts _ _ _ _ _ _ _ _) as [[w1 log1] r1] eqn:Hatt.
  apply resolve_attempts_recorded in Hatt as [(m1 & -> & Hm1) Hok]; [|done].
  change (Z.to_nat MaxAttemptsPerCycle) with 2%nat in Hm1. unfold MaxAttemptsPerCycle in *.
  destruct r1 as [category|e]; cbn [length].
  2:{ intros [= <- <- <-]. split; [exists m1; split; [done|lia]|done]. }
  destruct (resolve_pending _ _ _ _ _ _) as [[w2 log2] r2] eqn:Hrest.
  apply IH in Hrest as [(m2 & -> & Hm2) Hds]. destruct r2 as [ds|e].
  - intros [= <- <- <-]. split.
    { exists (m1 ++ m2). rewrite length_app, app_assoc. split; [done|lia]. }
    intros ? [= <-]. destruct (Hds ds eq_refl) as [Hmap Hf]. cbn [map automatic_Candidate]. split; [by rewrite Hmap|].
    constructor; [|done]. cbn [automatic_FailureCategory automatic_Candidate]. intros ->.
    by apply publicly_resolved_app, Hok.
  - intros [= <- <- <-]. split; [|done]. exists (m1 ++ m2). rewrite length_app, app_assoc. split; [done|lia].
Qed.
End Attempts.

Lemma decisions_of_elem results o c :
  decisions_of results !! o = Some c ->
  exists r, r ∈ results /\ candidate_Origin (automatic_Candidate r) = o /\ automatic_FailureCategory r = c.
Proof.
  unfold decisions_of.
  assert (Hgen : forall m : gmap Origin Category, fold_left (fun m r =>
      <[candidate_Origin (automatic_Candidate r) := automatic_FailureCategory r]> m) results m !! o = Some c ->
    (exists r, r ∈ results /\ candidate_Origin (automatic_Candidate r) = o /\ automatic_FailureCategory r = c)
    \/ m !! o = Some c).
  { induction results as [|r results IH]; intros m; cbn [fold_left]; [by right|]. intros Hm%IH.
    destruct Hm as [(x & Hx & Hxo)|Hm]; [left; exists x; split; [by right|done]|].
    destruct (decide (candidate_Origin (automatic_Candidate r) = o)) as [Heq|Hne].
    - rewrite Heq, lookup_insert_eq in Hm. injection Hm as Hm. left. exists r. split; [by left|done].
    - rewrite lookup_insert_ne in Hm by done. by right. }
  intros Hd. destruct (Hgen ∅ Hd) as [?|Hn]; [done|]. by rewrite lookup_empty in Hn.
Qed.

Section StoreSink.
Context `{NetURL} `{NetIP} `{IDNA} `{Unicode} {W : Type}.
Variable text_leb : bytes -> bytes -> bool.
Variable sql_lower : bytes -> bytes.
Variable config : AutomaticCrawlConfig.
Variable delay : Z -> Z -> Z.
Variable db : W -> Database.
Variable set_db : W -> Database -> W.
(** The clock and the time of the statement. *)
Variables now stmt : W -> Z.
Variable before : W -> W * option error.
Hypothesis db_set : forall w d, db (set_db w d) = d.

(** [store.DiscoveryStore] as the sink's store. *)
Definition discovery_candidate_store : CandidateStore W := {|
  sink_RecordDiscovery ctx w '(source, l) :=
    execute set_db before Err ctx w (fun w => RecordDiscovery text_leb config (db w) source l (now w) (stmt w));
  sink_RecordDiscoveryForRun := Some (fun ctx w '(runID, source, l) =>
    execute set_db before Err ctx w (fun w =>
      RecordDiscoveryForRun text_leb config (db w) runID source l (now w) (stmt w)));
  sink_Admission := Some
    (fun ctx w runID => execute set_db before Err ctx w (fun w =>
       PendingAutomaticCandidates text_leb sql_lower config (db w) runID (now w) (stmt w)),
     fun ctx w '(runID, decisions) => execute set_db before Some ctx w (fun w =>
       CompleteAutomaticCandidates text_leb config delay (db w) runID decisions (now w) (stmt w)));
|}.

Definition quiet_store (St : CandidateStore W) : CandidateStore (W * answers) := {|
  sink_RecordDiscovery := quiet sink_RecordDiscovery;
  sink_RecordDiscoveryForRun := option_map quiet sink_RecordDiscoveryForRun;
  sink_Admission := option_map (fun '(p, c) => (quiet p, quiet c)) sink_Admission;
|}.

(** A completion that succeeds does so for an active run, with decisions of
    the three kinds. *)
Lemma Complete_active d runID results t st d' :
  automatic_Enabled config = true ->
  CompleteAutomaticCandidates text_leb config delay d runID results t st = (d', None) ->
  forallb decision_ok results = true
  /\ exists run, applied text_leb config d d' runID run (decisions_of results) st.
Proof using.
  intros Hen Hc. assert (Hr : exists run, runs (crawl d) !! runID = Some run /\ run_finished_at run = None
    /\ forallb decision_ok results = true).
  { revert Hc. unfold CompleteAutomaticCandidates. rewrite Hen. cbn [negb]. case_head; [done|].
    destruct (prepareAdmissionCandidates _); [|done]. destruct (forallb decision_ok results); [|done]. cbn [negb].
    destruct (runs (crawl d) !! runID) as [run|]; [|done]. case_bool_decide as Hf; [done|]. intros _. exists run.
    split_and!; [done| |done]. destruct (run_finished_at run); [by destruct Hf|done]. }
  destruct Hr as (run & Hrun & Hfin & Hok). split; [done|]. exists run.
  pose proof (CompleteAutomaticCandidates_spec text_leb config delay d runID results t st run Hen Hrun Hfin) as Hs.
  by rewrite Hc in Hs.
Qed.

(** An origin whose source row or schedule a completion changed was accepted. *)
Lemma applied_accepted d d' runID run decisions st key :
  applied text_leb config d d' runID run decisions st ->
  source_state d' !! key <> source_state d !! key \/ (key ∈ source_schedule d' /\ key ∉ source_schedule d) ->
  exists o, Origin.Parse key = Ok o /\ accepted decisions o.
Proof using.
  intros Ha Hch. destruct (decide (key ∈ pending_keys d runID)) as [Hin|Hout].
  - destruct (app_outcomes _ _ _ _ _ _ _ _ Ha key Hin) as (o & outcome & Ho & Hat & Hj).
    destruct (decide (outcome = promoted)) as [->|Hne].
    + exists o. split; [done|]. inversion Hj as [| | | | | |Hp _]. apply Hp.
    + destruct (app_kept _ _ _ _ _ _ _ _ Ha key Hin) as [Hs Hsc]; [congruence|]. destruct Hch as [|[? Hn]]; [done|].
      by rewrite <- Hsc in Hn.
  - destruct (app_others _ _ _ _ _ _ _ _ Ha key Hout) as [Hs _]. apply stored_at_spec in Hs as (Hs & Hsc & _).
    destruct Hch as [|[? Hn]]; [done|]. by rewrite <- Hsc in Hn.
Qed.

Variable map_order : list Addr -> list Addr.
Variable lookup : option (call W bytes (res error (list Addr))).
Variable sleep : Ctx W -> call W Z (option error).

(** C27: The sink, the network guard and the store put together: when the
    finalization of a crawl succeeds, the last thing it did was one
    transaction on the tables as other processes had left them, and every
    origin that this transaction made a crawl source, or whose source row it
    changed, was resolved by this very call: its host is a public address or
    the name was looked up and every address of the non-empty answer is
    public. The call made at most [MaxAttemptsPerCycle] lookups for each
    pending candidate. *)
Theorem finalize_admits_resolved ctx runID w w' log :
  automatic_Enabled config = true ->
  FinalizeCandidates (St := quiet_store discovery_candidate_store) map_order (recorded <$> lookup) (quiet sleep)
    (ctx_lift ctx) (w, []) runID = ((w', log), None) ->
  exists w1 links w2 w3,
    execute set_db before Err ctx w (fun w =>
      PendingAutomaticCandidates text_leb sql_lower config (db w) runID (now w) (stmt w)) = (w1, Ok links)
    /\ Z.of_nat (length log) <= MaxAttemptsPerCycle * Z.of_nat (length links)
    /\ before w2 = (w3, None) /\ w' = set_db w3 (db w')
    /\ forall key, source_state (db w') !! key <> source_state (db w3) !! key
         \/ (key ∈ source_schedule (db w') /\ key ∉ source_schedule (db w3)) ->
         exists o, Origin.Parse key = Ok o /\ publicly_resolved log o.
Proof using db_set.
  intros Hen. unfold FinalizeCandidates. cbn [sink_Admission quiet_store discovery_candidate_store option_map].
  unfold quiet at 1. change (fun w0 : W => ctx_lift ctx (w0, [])) with ctx.
  destruct (execute _ _ _ _ _ _) as [w1 [links|e]] eqn:Hp; [|done].
  destruct (resolve_pending _ _ _ _ _ _) as [[w2 log2] r2] eqn:Hrec.
  apply resolve_pending_recorded in Hrec as [(more & -> & Hlen) Hds]. destruct r2 as [decisions|e]; [|done].
  destruct (Hds _ eq_refl) as [Hmap Hf]. cbn [app] in *. unfold quiet. unfold execute.
  change (ctx_lift ctx (w2, more)) with (ctx w2). destruct (ctx w2); [done|].
  destruct (before w2) as [w3 [e|]] eqn:Hb; [done|].
  destruct (CompleteAutomaticCandidates _ _ _ _ _ _ _ _) as [d r] eqn:Hc. intros [= <- <- ->].
  exists w1, links, w2, w3. rewrite db_set. split_and!; [done|lia|done|done|].
  apply Complete_active in Hc as [Hok (run & Ha)]; [|done]. intros key Hch.
  destruct (applied_accepted _ _ _ _ _ _ _ Ha Hch) as (o & Ho & c & Hd & Ht & Hu). exists o. split; [done|].
  apply decisions_of_elem in Hd as (x & Hx & <- & <-). rewrite Forall_forall in Hf. apply (Hf x Hx).
  rewrite forallb_forall in Hok. specialize (Hok x (proj1 (list_elem_of_In _ _) Hx)). unfold decision_ok in Hok.
  rewrite Ht, orb_false_r, andb_true_iff, orb_true_iff, !bool_decide_eq_true in Hok. by destruct Hok as [_ [?|?]].
Qed.
End StoreSink.
