(* ===== verification/GoMux.v ===== *)
(** * Request routing ([net/http.ServeMux])

    The part of [http.ServeMux] the program uses: patterns with an optional
    method, literal segments, single-segment wildcards and a trailing slash,
    without hosts. Matching walks the pattern tree segment by segment, a
    literal before a wildcard before a trailing slash; paths that are not
    clean, or that lack the trailing slash of a registered subtree, are
    redirected; a path that only other methods match is refused with 405. *)

From S2P Require Import Prelude GoText GoJson.

(** ** Paths *)

(** [url.PathUnescape]; [None] for an invalid escape. *)
Fixpoint PathUnescape (s : bytes) : option bytes :=
  match s with
  | [] => Some []
  | c :: rest =>
      if byte_eqb c "%" then
        match rest with
        | a :: b :: rest =>
            match hex_digit a, hex_digit b with
            | Some va, Some vb => cons (chr (va * 16 + vb)) <$> PathUnescape rest
            | _, _ => None
            end
        | _ => None
        end
      else cons c <$> PathUnescape rest
  end.

Definition pathUnescape (s : bytes) : bytes := default s (PathUnescape s).

Definition dot : bytes := bs ".".
Definition dotdot : bytes := bs "..".

(** The elements of a rooted path after [path.Clean], in reverse. *)
Definition clean_step (acc : list bytes) (element : bytes) : list bytes :=
  if bytes_eqb element [] || bytes_eqb element dot then acc
  else if bytes_eqb element dotdot then tail acc
  else element :: acc.
Definition clean_elements (p : bytes) : list bytes := rev (fold_left clean_step (Split p "/") []).

(** [path.Clean] of a rooted path *)
Definition path_Clean (p : bytes) : bytes := "/"%char :: Join (clean_elements p) "/".

Definition cleanPath (p : bytes) : bytes :=
  match p with
  | [] => bs "/"
  | c :: _ =>
      let p := if byte_eqb c "/" then p else "/"%char :: p in
      let np := path_Clean p in
      if HasSuffix p (bs "/") && negb (bytes_eqb np (bs "/")) then np ++ bs "/" else np
  end.

(** The segments [firstSegment] yields: unescaped, a final slash as ["/"]. *)
Definition segments (path : bytes) : list bytes :=
  match path with
  | [] => []
  | _ :: rest =>
      let parts := Split rest "/" in
      map pathUnescape (removelast parts)
        ++ (match List.last parts [] with [] => [bs "/"] | part => [pathUnescape part] end)
  end.

(** ** Patterns *)

Inductive segment : Type := Lit (s : bytes) | Wild | Multi.

Record route (H : Type) : Type := mkRoute {
  route_method : option bytes;
  route_segments : list segment;
  route_handler : H;
}.
Arguments mkRoute {H}. Arguments route_method {H}. Arguments route_segments {H}. Arguments route_handler {H}.

(** A pattern such as [/a/{x}/b/], with [{}] for the wildcard. *)
Definition pattern_segments (p : bytes) : list segment :=
  map (fun s => if bytes_eqb s (bs "{}") then Wild else if bytes_eqb s (bs "/") then Multi else Lit s)
    (segments p).

Section Mux.
Context {H : Type}.
Implicit Types (routes : list (route H)) (node : list (list segment * route H)).

(** The children of a node of the tree. *)
Definition literal_child node (s : bytes) : list (list segment * route H) :=
  omap (fun '(p, r) => match p with Lit l :: p' => if bytes_eqb l s then Some (p', r) else None | _ => None end) node.
Definition wild_child node : list (list segment * route H) :=
  omap (fun '(p, r) => match p with Wild :: p' => Some (p', r) | _ => None end) node.
Definition multi_child node : option (route H) :=
  head (omap (fun '(p, r) => match p with [Multi] => Some r | _ => None end) node).
Definition leaf node : option (route H) :=
  head (omap (fun '(p, r) => match p with [] => Some r | _ => None end) node).

(** [matchPath]: the route and the values of its wildcards. *)
Fixpoint matchPath node (path : list bytes) (matches : list bytes) : option (route H * list bytes) :=
  match path with
  | [] => (fun r => (r, matches)) <$> leaf node
  | seg :: rest =>
      match matchPath (literal_child node seg) rest matches with
      | Some found => Some found
      | None =>
          match (if bytes_eqb seg (bs "/") then None else matchPath (wild_child node) rest (matches ++ [seg])) with
          | Some found => Some found
          | None => (fun r => (r, matches)) <$> multi_child node
          end
      end
  end.

Definition method_node routes (method : option bytes) : list (list segment * route H) :=
  map (fun r => (route_segments r, r)) (List.filter (fun r => bool_decide (route_method r = method)) routes).

(** [matchMethodAndPath] *)
Definition matchMethodAndPath routes (method path : bytes) : option (route H * list bytes) :=
  match matchPath (method_node routes (Some method)) (segments path) [] with
  | Some found => Some found
  | None =>
      match (if bytes_eqb method (bs "HEAD") then matchPath (method_node routes (Some (bs "GET"))) (segments path) []
             else None) with
      | Some found => Some found
      | None => matchPath (method_node routes None) (segments path) []
      end
  end.

Definition exactMatch (found : option (route H * list bytes)) (path : bytes) : bool :=
  match found with
  | None => false
  | Some (r, _) =>
      match List.last (route_segments r) Wild with
      | Multi =>
          HasSuffix path (bs "/")
          && bool_decide (length (route_segments r) = length (List.filter (byte_eqb "/") path))
      | _ => true
      end
  end.

(** What the mux does with a request. *)
Inductive routed : Type :=
| Matched (h : H) (matches : list bytes)
| RedirectTo (path : bytes)
| MethodNotAllowed
| NotFound
| BadRequest.

Definition matchOrRedirect routes (method path urlPath : bytes) : routed + option (route H * list bytes) :=
  let found := matchMethodAndPath routes method path in
  if negb (exactMatch found path) && negb (HasSuffix path (bs "/"))
     && exactMatch (matchMethodAndPath routes method (path ++ bs "/")) (path ++ bs "/")
  then inl (RedirectTo (cleanPath urlPath ++ bs "/"))
  else inr found.

(** Whether some method matches the path. *)
Definition matchingMethods routes (path : bytes) : bool :=
  existsb (fun r => bool_decide (is_Some (route_method r))
    && (bool_decide (is_Some (matchPath [(route_segments r, r)] (segments path) []))
        || (negb (HasSuffix path (bs "/"))
            && bool_decide (is_Some (matchPath [(route_segments r, r)] (segments (path ++ bs "/")) [])))))
    routes.

(** [findHandler] and the check of [ServeHTTP]; [escapedPath] is
    [URL.EscapedPath()], and [URL.Path] is that text unescaped. *)
Definition route_request routes (method escapedPath : bytes) : routed :=
  if bytes_eqb escapedPath (bs "*") then BadRequest
  else
    let connect := bytes_eqb method (bs "CONNECT") in
    let path := if connect then escapedPath else cleanPath escapedPath in
    match matchOrRedirect routes method path (pathUnescape escapedPath) with
    | inl redirect => redirect
    | inr found =>
        if negb (bytes_eqb path escapedPath) then RedirectTo path
        else
          match found with
          | Some (r, matches) => Matched (route_handler r) matches
          | None => if matchingMethods routes path then MethodNotAllowed else NotFound
          end
    end.
End Mux.
Arguments routed H : clear implicits.
