(* ===== verification/Control.v ===== *)
(** * The operator control API ([internal/control], [internal/operatortoken])

    The private HTTP handler: routing, bearer-token authorization, decoding of
    request bodies, validation, and for every authenticated request to a
    control path one audited call of the commander. The commander is an
    interface; hashing, media types and JSON decoding are the standard
    library's. *)

From S2P Require Import Prelude GoText GoUrl GoErrors GoNetip Origin GoMux Crawler CrawlTables ControlStore.

#[local] Set Warnings "-clear-no-such-hyp".

(** ** Operator tokens *)

Definition MinLength : Z := 32.
Definition MaxLength : Z := 4096.

(** The loop over the characters: every one is printable ASCII, so characters
    are bytes. *)
Definition token_character (c : ascii) : bool := (code "!" <=? code c) && (code c <=? code "~").

Definition token_Valid (token : bytes) : bool :=
  let n := Z.of_nat (length token) in
  if (n <? MinLength) || (MaxLength <? n) || negb (bytes_eqb (TrimSpace token) token)
     || ContainsAny token [chr 13; chr 10]
  then false
  else forallb token_character token && (8 <=? Z.of_nat (size (list_to_set (C := gset ascii) token))).

(** ** Interfaces *)

(** [Commander] *)
Class Commander (W : Type) := {
  command_SetProcessorPaused : Ctx W -> call W (bytes * bool * Audit) (option error);
  command_SetAutomaticExpansionPaused : Ctx W -> call W (bool * Audit) (option error);
  command_AddDomainAvoid : Ctx W -> call W (bytes * Audit) (option error);
  command_RemoveDomainAvoid : Ctx W -> call W (bytes * Audit) (option error);
  command_SetOriginBlocked : Ctx W -> call W (bytes * bool * Audit) (option error);
  command_RecordRejected : Ctx W -> call W Audit (option error);
}.

(** How a body ends: at its end, at the limit of [http.MaxBytesReader], or with
    another error. *)
Inductive body_end : Type := EndOfBody | LimitReached | ReadFailed.

Inductive decode_error : Type := DecodeEOF | DecodeTooLarge | DecodeInvalid.

(** The standard library the handler calls: [sha256.Sum256],
    [mime.ParseMediaType], and a [json.Decoder] with unknown fields disallowed,
    which decodes string fields and returns the unread rest. [json_Skip]
    decodes any value. *)
Class OperatorLibrary := {
  Sum256 : bytes -> bytes;
  ParseMediaType : bytes -> option bytes;
  json_Decode : list bytes -> bytes -> body_end -> res decode_error (list bytes * bytes);
  json_Skip : bytes -> body_end -> option decode_error;
}.

Record ControlRequest : Type := mkControlRequest {
  req_Method : bytes;
  req_EscapedPath : bytes;
  req_Authorization : bytes;
  req_ContentType : bytes;
  req_ContentLength : Z;
  req_RemoteAddr : bytes;
  req_Body : bytes;
  req_BodyEnd : body_end;
}.

(** [URL.Path] *)
Definition req_Path (r : ControlRequest) : bytes := pathUnescape (req_EscapedPath r).

(** A response: the JSON of [writeJSON], or a reply of the mux itself. *)
Inductive response : Type :=
| StatusOK
| ErrorReply (status : Z) (error_code : bytes)
| Redirected (path : bytes)
| PlainReply (status : Z).

(** ** Bounds and validation *)

Definition DefaultActor : bytes := bs "operator-api".
Definition maxRequestBodyBytes : Z := 4096.
Definition maxActorBytes : Z := 128.
Definition maxActionBytes : Z := 128.
Definition maxCallerBytes : Z := 256.
Definition maxReasonBytes : Z := 512.
Definition maxTargetBytes : Z := 2048.

(** [utf8.RuneStart] *)
Definition rune_start (c : ascii) : bool := negb (byte_in 128 191 c).

(** [utf8.DecodeLastRuneInString] finds a rune, for a nonempty text: an ASCII
    byte, or the sequence from the last start byte among the last four. *)
Definition last_rune_ok (s : bytes) : bool :=
  match rev s with
  | [] => false
  | c0 :: r0 =>
      if is_ascii c0 then true
      else
        match r0 with
        | [] => false
        | c1 :: r1 =>
            if rune_start c1 then bool_decide (utf8_size [c1; c0] = Some 2%nat)
            else
              match r1 with
              | [] => false
              | c2 :: r2 =>
                  if rune_start c2 then bool_decide (utf8_size [c2; c1; c0] = Some 3%nat)
                  else
                    match r2 with
                    | [] => false
                    | c3 :: _ => rune_start c3 && bool_decide (utf8_size [c3; c2; c1; c0] = Some 4%nat)
                    end
              end
        end
  end.

(** The loop of [bounded]; [length s] steps are enough. *)
Fixpoint trim_partial (fuel : nat) (s : bytes) : bytes :=
  match fuel with
  | O => s
  | S fuel => match s with [] => [] | _ => if last_rune_ok s then s else trim_partial fuel (removelast s) end
  end.

Definition bounded (value : bytes) (limit : Z) : bytes :=
  if Z.of_nat (length value) <=? limit then value
  else let truncated := take (Z.to_nat limit) value in trim_partial (length truncated) truncated.

Definition boundedTarget (value : bytes) : bytes := bounded value maxTargetBytes.

(** A rune below the space or the delete character is a byte of its own. *)
Definition validBoundedText (value : bytes) (limit : Z) : bool :=
  (0 <? Z.of_nat (length value)) && (Z.of_nat (length value) <=? limit)
  && forallb (fun c => negb ((code c <? 32) || (code c =? 127))) value.

Definition applyMetadata (a : Audit) (actor reason : bytes) : Audit * bool :=
  let text_ok s limit := validBoundedText s limit && bytes_eqb (TrimSpace s) s in
  if negb (bytes_eqb actor []) && negb (text_ok actor maxActorBytes) then (a, false)
  else
    let a := if bytes_eqb actor [] then a
             else mkAudit (OccurredAt a) (audit_Action a) (audit_Target a) (audit_Caller a) actor (audit_Result a)
                    (audit_Reason a) in
    if negb (bytes_eqb reason []) && negb (text_ok reason maxReasonBytes) then (a, false)
    else (if bytes_eqb reason [] then a
          else mkAudit (OccurredAt a) (audit_Action a) (audit_Target a) (audit_Caller a) (audit_Actor a)
                 (audit_Result a) reason, true).

Definition set_target (a : Audit) (target : bytes) : Audit :=
  mkAudit (OccurredAt a) (audit_Action a) target (audit_Caller a) (audit_Actor a) (audit_Result a) (audit_Reason a).
Definition set_result (a : Audit) (result : bytes) : Audit :=
  mkAudit (OccurredAt a) (audit_Action a) (audit_Target a) (audit_Caller a) (audit_Actor a) result (audit_Reason a).

(** [domainPattern]: one alphanumeric character, or two around letters, digits,
    dots and hyphens; then an optional [.*]. *)
Definition is_alnum (c : ascii) : bool := is_lower c || is_digit c.
Definition domainPattern (value : bytes) : bool :=
  let core := TrimSuffix value (bs ".*") in
  match core with
  | [] => false
  | c :: _ =>
      is_alnum c && is_alnum (List.last core c)
      && forallb (fun c => is_alnum c || byte_eqb c "." || byte_eqb c "-") core
  end.

Definition validDomainPattern (value : bytes) : bool :=
  if (Z.of_nat (length value) <? 1) || (253 <? Z.of_nat (length value)) || negb (domainPattern value) then false
  else forallb (fun label =>
         negb ((Z.of_nat (length label) <? 1) || (63 <? Z.of_nat (length label))
               || HasPrefix label (bs "-") || HasSuffix label (bs "-")))
         (Split (TrimSuffix value (bs ".*")) ".").

Definition normalizeDomainPattern `{Unicode} (value : bytes) : bytes :=
  ToLower (TrimSuffix (TrimSpace value) (bs ".")).

Definition is_operation (on off operation : bytes) : bool :=
  bytes_eqb operation on || bytes_eqb operation off.

Definition knownControlPath (path : bytes) : bool :=
  let avoid := bs "/api/v1/control/domain-avoid" in
  let processors := bs "/api/v1/control/processors/" in
  let expansion := bs "/api/v1/control/automatic-expansion/" in
  if bytes_eqb path avoid then true
  else if HasPrefix path (avoid ++ bs "/") then negb (bytes_eqb (TrimPrefix path (avoid ++ bs "/")) [])
  else if HasPrefix path processors then
    match Split (TrimPrefix path processors) "/" with
    | [processor; operation] =>
        is_operation (bs "discovery") (bs "verification") processor && is_operation (bs "pause") (bs "resume") operation
    | _ => false
    end
  else if HasPrefix path expansion then is_operation (bs "pause") (bs "resume") (TrimPrefix path expansion)
  else is_operation (bs "/api/v1/control/origins/block") (bs "/api/v1/control/origins/allow") path.

(** [net.SplitHostPort]: the host, if there is no error. *)
Definition SplitHostPort_host (hostport : bytes) : option bytes :=
  match last_index ":" hostport with
  | None => None
  | Some i =>
      if HasPrefix hostport (bs "[") then
        let '(inside, _, closed) := Cut hostport "]" in
        if negb closed then None
        else if negb (bool_decide (S (length inside) = i)) then None
        else if Contains (drop 1 hostport) "[" || Contains (drop (S (length inside)) hostport) "]" then None
        else Some (drop 1 inside)
      else
        let host := take i hostport in
        if Contains host ":" || Contains hostport "[" || Contains hostport "]" then None else Some host
  end.

(** ** Routes *)

Inductive endpoint : Type :=
  ep_processor | ep_automaticExpansion | ep_addDomainAvoid | ep_removeDomainAvoid | ep_origin | ep_invalidControlRequest.
Inductive root_endpoint : Type := ep_health | ep_authorized_api.

Definition POST : bytes := bs "POST".
Definition api_routes : list (route endpoint) := [
  mkRoute (Some POST) (pattern_segments (bs "/api/v1/control/processors/{}/{}")) ep_processor;
  mkRoute (Some POST) (pattern_segments (bs "/api/v1/control/automatic-expansion/{}")) ep_automaticExpansion;
  mkRoute (Some POST) (pattern_segments (bs "/api/v1/control/domain-avoid")) ep_addDomainAvoid;
  mkRoute (Some (bs "DELETE")) (pattern_segments (bs "/api/v1/control/domain-avoid/{}")) ep_removeDomainAvoid;
  mkRoute (Some POST) (pattern_segments (bs "/api/v1/control/origins/{}")) ep_origin;
  mkRoute None (pattern_segments (bs "/api/v1/control/")) ep_invalidControlRequest
].
Definition root_routes : list (route root_endpoint) := [
  mkRoute (Some (bs "GET")) (pattern_segments (bs "/healthz")) ep_health;
  mkRoute None (pattern_segments (bs "/api/")) ep_authorized_api
].

(** ** The handler *)

Definition unauthorized : response := ErrorReply 401 (bs "unauthorized").
Definition internal_error : response := ErrorReply 500 (bs "internal_error").

Section Handler.
Context `{NetURL} `{NetIP} `{IDNA} `{Unicode} `{OperatorLibrary}.

(** *** Authorization *)

Definition authorizationDigest (value : bytes) : bytes := Sum256 value.
Definition authorizationMatches (expected provided : bytes) : bool :=
  bytes_eqb (authorizationDigest provided) expected.
Definition expectedAuthorizationHash (token : bytes) : bytes := authorizationDigest (bs "Bearer " ++ token).

(** [NewHandler] for a commander that is not nil: the expected digest. *)
Definition NewHandler (token : bytes) : res error bytes :=
  if negb (token_Valid token) then Err (errors_New errTokenUnavailable) else Ok (expectedAuthorizationHash token).

(** *** Bodies *)

(** The status and code of a refused body, or the fields. *)
Definition decode_failure (e : decode_error) : Z * bytes :=
  match e with
  | DecodeTooLarge => (413, bs "request_too_large")
  | _ => (400, bs "invalid_request")
  end.

(** [http.MaxBytesReader] *)
Definition limited_body (r : ControlRequest) : bytes * body_end :=
  if maxRequestBodyBytes <? Z.of_nat (length (req_Body r))
  then (take (Z.to_nat maxRequestBodyBytes) (req_Body r), LimitReached)
  else (req_Body r, req_BodyEnd r).

Definition decodeJSON (r : ControlRequest) (fields : list bytes) : res (Z * bytes) (list bytes) :=
  if negb (bool_decide (ParseMediaType (req_ContentType r) = Some (bs "application/json")))
  then Err (415, bs "unsupported_media_type")
  else if maxRequestBodyBytes <? req_ContentLength r then Err (413, bs "request_too_large")
  else
    let '(body, end_) := limited_body r in
    match json_Decode fields body end_ with
    | Err e => Err (decode_failure e)
    | Ok (values, rest) =>
        match json_Skip rest end_ with
        | Some DecodeEOF => Ok values
        | Some e => Err (decode_failure e)
        | None => Err (400, bs "invalid_request")
        end
    end.

Definition decodeOptionalJSON (r : ControlRequest) (fields : list bytes) : res (Z * bytes) (list bytes) :=
  let absent := map (fun _ => []) fields in
  if req_ContentLength r =? 0 then Ok absent
  else if (req_ContentLength r <? 0) && bytes_eqb (req_Body r) []
          && match req_BodyEnd r with EndOfBody => true | _ => false end
  then Ok absent
  else decodeJSON r fields.

Definition field (values : list bytes) (i : nat) : bytes := nth i values [].
Definition metadata_fields : list bytes := [bs "actor"; bs "reason"].
Definition originRequest_fields : list bytes := [bs "origin"; bs "actor"; bs "reason"].
Definition domainRequest_fields : list bytes := [bs "pattern"; bs "actor"; bs "reason"].

(** *** Audits *)

Definition newAudit (now : Z) (r : ControlRequest) (action target : bytes) : Audit :=
  let caller := default (req_RemoteAddr r) (SplitHostPort_host (req_RemoteAddr r)) in
  let caller := if bytes_eqb caller [] then bs "unknown" else caller in
  mkAudit now (bounded action maxActionBytes) (boundedTarget target) (bounded caller maxCallerBytes) DefaultActor [] [].

Context {W : Type} {Cm : Commander W}.
Variable now : W -> Z.
Variable ctx : Ctx W.

Definition reject (a : Audit) (status : Z) (error_code : bytes) (w : W) : W * response :=
  match command_RecordRejected ctx w (set_result a ResultRejected) with
  | (w, Some _) => (w, internal_error)
  | (w, None) => (w, ErrorReply status error_code)
  end.

Definition mutate (a : Audit) (mutation : W -> Audit -> W * option error) (w : W) : W * response :=
  match mutation w (set_result a ResultSuccess) with
  | (w, Some _) =>
      let '(w, _) := command_RecordRejected ctx w (set_result a ResultRejected) in (w, internal_error)
  | (w, None) => (w, StatusOK)
  end.

(** *** Endpoints *)

Definition serve_processor (r : ControlRequest) (processor operation : bytes) (w : W) : W * response :=
  let a := newAudit (now w) r (bs "processor." ++ operation) (boundedTarget processor) in
  if negb (is_operation (bs "discovery") (bs "verification") processor)
     || negb (is_operation (bs "pause") (bs "resume") operation)
  then reject a 404 (bs "not_found") w
  else
    match decodeOptionalJSON r metadata_fields with
    | Err (status, error_code) => reject a status error_code w
    | Ok body =>
        let '(a, valid) := applyMetadata a (field body 0) (field body 1) in
        if negb valid then reject a 400 (bs "invalid_request") w
        else mutate a (fun w success =>
               command_SetProcessorPaused ctx w (processor, bytes_eqb operation (bs "pause"), success)) w
    end.

Definition serve_automaticExpansion (r : ControlRequest) (operation : bytes) (w : W) : W * response :=
  let a := newAudit (now w) r (bs "automatic-expansion." ++ operation) (bs "automatic-expansion") in
  if negb (is_operation (bs "pause") (bs "resume") operation) then reject a 404 (bs "not_found") w
  else
    match decodeOptionalJSON r metadata_fields with
    | Err (status, error_code) => reject a status error_code w
    | Ok body =>
        let '(a, valid) := applyMetadata a (field body 0) (field body 1) in
        if negb valid then reject a 400 (bs "invalid_request") w
        else mutate a (fun w success =>
               command_SetAutomaticExpansionPaused ctx w (bytes_eqb operation (bs "pause"), success)) w
    end.

Definition serve_addDomainAvoid (r : ControlRequest) (w : W) : W * response :=
  let a := newAudit (now w) r (bs "domain-avoid.add") [] in
  match decodeJSON r domainRequest_fields with
  | Err (status, error_code) => reject a status error_code w
  | Ok body =>
      let pattern := normalizeDomainPattern (field body 0) in
      let '(a, valid) := applyMetadata (set_target a (boundedTarget pattern)) (field body 1) (field body 2) in
      if negb (validDomainPattern pattern) || negb valid then reject a 400 (bs "invalid_request") w
      else mutate a (fun w success => command_AddDomainAvoid ctx w (pattern, success)) w
  end.

Definition serve_removeDomainAvoid (r : ControlRequest) (pattern : bytes) (w : W) : W * response :=
  let pattern := normalizeDomainPattern pattern in
  let a := newAudit (now w) r (bs "domain-avoid.remove") (boundedTarget pattern) in
  match decodeOptionalJSON r metadata_fields with
  | Err (status, error_code) => reject a status error_code w
  | Ok body =>
      let '(a, valid) := applyMetadata a (field body 0) (field body 1) in
      if negb (validDomainPattern pattern) || negb valid then reject a 400 (bs "invalid_request") w
      else mutate a (fun w success => command_RemoveDomainAvoid ctx w (pattern, success)) w
  end.

Definition serve_origin (r : ControlRequest) (operation : bytes) (w : W) : W * response :=
  let a := newAudit (now w) r (bs "origin." ++ operation) [] in
  if negb (is_operation (bs "block") (bs "allow") operation) then reject a 404 (bs "not_found") w
  else
    match decodeJSON r originRequest_fields with
    | Err (status, error_code) => reject a status error_code w
    | Ok body =>
        let parsed := Origin.Parse (field body 0) in
        let a := match parsed with Ok source => set_target a (boundedTarget (origin_String source)) | Err _ => a end in
        let '(a, valid) := applyMetadata a (field body 1) (field body 2) in
        match parsed with
        | Ok source =>
            if negb valid then reject a 400 (bs "invalid_request") w
            else mutate a (fun w success =>
                   command_SetOriginBlocked ctx w (origin_String source, bytes_eqb operation (bs "block"), success)) w
        | Err _ => reject a 400 (bs "invalid_request") w
        end
    end.

Definition serve_invalid (r : ControlRequest) (w : W) : W * response :=
  let a := newAudit (now w) r (bs "request.reject") (boundedTarget (req_Path r)) in
  if knownControlPath (req_Path r) then reject a 405 (bs "method_not_allowed") w
  else reject a 404 (bs "not_found") w.

(** [request.PathValue] of the wildcards, in the order of the pattern. *)
Definition serve_endpoint (e : endpoint) (matches : list bytes) (r : ControlRequest) (w : W) : W * response :=
  match e with
  | ep_processor => serve_processor r (field matches 0) (field matches 1) w
  | ep_automaticExpansion => serve_automaticExpansion r (field matches 0) w
  | ep_addDomainAvoid => serve_addDomainAvoid r w
  | ep_removeDomainAvoid => serve_removeDomainAvoid r (field matches 0) w
  | ep_origin => serve_origin r (field matches 0) w
  | ep_invalidControlRequest => serve_invalid r w
  end.

(** The replies of a mux without a handler. *)
Definition mux_reply {H'} (m : routed H') (serve : H' -> list bytes -> W -> W * response) (w : W) : W * response :=
  match m with
  | Matched h matches => serve h matches w
  | RedirectTo path => (w, Redirected path)
  | MethodNotAllowed => (w, PlainReply 405)
  | NotFound => (w, PlainReply 404)
  | BadRequest => (w, PlainReply 400)
  end.

Definition serve_api (r : ControlRequest) (w : W) : W * response :=
  mux_reply (route_request api_routes (req_Method r) (req_EscapedPath r)) (fun e matches => serve_endpoint e matches r) w.

Definition authorize (expected : bytes) (r : ControlRequest) (w : W) : W * response :=
  if negb (authorizationMatches expected (req_Authorization r)) then (w, unauthorized) else serve_api r w.

(** [ServeHTTP] of the handler [NewHandler] returns. *)
Definition serve (expected : bytes) (r : ControlRequest) (w : W) : W * response :=
  mux_reply (route_request root_routes (req_Method r) (req_EscapedPath r))
    (fun e _ => match e with ep_health => fun w => (w, StatusOK) | ep_authorized_api => authorize expected r end) w.
End Handler.
