(* ===== verification/ControlText.v ===== *)
(** * Bounded audit texts

    Truncation of an audit field never splits a character: of a valid UTF-8
    text it keeps the longest valid prefix within the limit. *)

From S2P Require Import Prelude GoText GoUrl GoErrors GoNetip Origin GoMux Crawler CrawlTables ControlStore Control.

#[local] Set Warnings "-clear-no-such-hyp".

(** ** Well-formed sequences *)

Definition rune (p : bytes) : Prop := utf8_size p = Some (length p).

Definition continuation (c : ascii) : bool := byte_in 128 191 c.

(** The shapes of a well-formed sequence. *)
Lemma rune_cases p : rune p ->
  (exists a, p = [a] /\ is_ascii a = true)
  \/ exists a cs, p = a :: cs /\ (1 <= length cs <= 3)%nat /\ 192 <= code a /\ forallb continuation cs = true.
Proof.
  unfold rune, continuation, is_ascii. destruct p as [|a [|b [|c [|d [|e p]]]]]; cbn [utf8_size length]; intros Hp; [done|..].
  all: repeat match goal with H : context [if ?b then _ else _] |- _ => destruct b eqn:?; try discriminate end.
  all: try (left; exists a; by split).
  all: right; eexists a, _; split; [reflexivity|]; cbn [length forallb]; unfold byte_in in *.
  all: rewrite ?andb_true_iff, ?orb_true_iff, ?Z.leb_le in *; split_and!; lia.
Qed.

(** A proper prefix of a sequence is not a sequence. *)
Lemma rune_prefix q q' : rune (q ++ q') -> q' <> [] -> utf8_size q = None.
Proof.
  unfold rune. intros Hr Hq. destruct q as [|a [|b [|c [|d q]]]]; cbn [app utf8_size length] in *; [done|..].
  all: destruct q' as [|x q']; [done|clear Hq].
  all: repeat match goal with H : context [match ?l with [] => _ | _ :: _ => _ end] |- _ => destruct l; cbn [length app] in * end.
  all: repeat match goal with H : context [if ?b then _ else _] |- _ => destruct b eqn:?; try discriminate end.
  all: try done. all: exfalso; injection Hr as Hr; rewrite length_app in Hr; cbn [length] in Hr; lia.
Qed.

Lemma utf8_size_rune s n : utf8_size s = Some n -> (1 <= n)%nat /\ exists p t, s = p ++ t /\ length p = n /\ rune p.
Proof.
  unfold rune. intros Hs. destruct s as [|a [|b [|c [|d s]]]]; cbn [utf8_size] in Hs; [done|..].
  all: repeat match goal with H : context [if ?b then _ else _] |- _ => destruct b eqn:?; try discriminate end.
  all: injection Hs as <-; split; [lia|].
  all: match goal with |- exists p t, ?s = _ /\ length p = ?k /\ _ => exists (take k s), (drop k s) end.
  all: cbn [take drop app length utf8_size]; split_and!; [done|done|].
  all: repeat match goal with H : ?b = _ |- context [if ?b then _ else _] => rewrite H end; done.
Qed.

Lemma rune_size p t : rune p -> utf8_size (p ++ t) = Some (length p).
Proof.
  unfold rune. intros Hp. destruct p as [|a [|b [|c [|d [|e p]]]]]; cbn [utf8_size length app] in *; [done|..].
  all: repeat match goal with H : context [if ?b then _ else _] |- _ => destruct b eqn:?; try discriminate end; try done.
Qed.

(** ** Valid texts *)

Lemma valid_fuel_runes fuel s : utf8_valid_fuel fuel s = true ->
  exists rs, Forall rune rs /\ s = concat rs.
Proof.
  revert s. induction fuel as [|fuel IH]; intros [|c s]; cbn [utf8_valid_fuel]; try done; try (intros _; by exists []).
  destruct (utf8_size (c :: s)) as [n|] eqn:Hn; [|done]. intros Hv. apply IH in Hv as (rs & Hrs & Hd).
  apply utf8_size_rune in Hn as (Hpos & p & t & Hst & Hl & Hp). exists (p :: rs). split; [by constructor|].
  cbn [concat]. rewrite <- Hd, Hst, <- Hl, drop_app_length. done.
Qed.

Lemma runes_valid_fuel rs fuel : Forall rune rs -> (length (concat rs) <= fuel)%nat -> utf8_valid_fuel fuel (concat rs) = true.
Proof.
  intros Hrs. revert fuel. induction Hrs as [|p rs Hp Hrs IH]; intros fuel Hf; cbn [concat] in *; [by destruct fuel|].
  assert (Hlen : (1 <= length p)%nat) by (destruct p; [done|cbn; lia]).
  rewrite length_app in Hf. destruct fuel as [|fuel]; [lia|]. destruct p as [|c p]; [done|]. cbn [app utf8_valid_fuel].
  change (c :: p ++ concat rs) with ((c :: p) ++ concat rs). rewrite (rune_size _ _ Hp), drop_app_length.
  apply IH. cbn [length] in *. lia.
Qed.

Lemma utf8_Valid_runes s : utf8_Valid s = true <-> exists rs, Forall rune rs /\ s = concat rs.
Proof.
  split; [apply valid_fuel_runes|]. intros (rs & Hrs & ->). by apply runes_valid_fuel.
Qed.

(** ** Truncation *)

(** What a cut leaves of the sequence it is in: nothing or a proper prefix. *)
Definition cut_rune (q : bytes) : Prop := exists q', q' <> [] /\ rune (q ++ q').

Lemma take_runes rs n : Forall rune rs ->
  exists rs' q, take n (concat rs) = concat rs' ++ q /\ rs' `prefix_of` rs /\ Forall rune rs' /\ (q = [] \/ cut_rune q).
Proof.
  intros Hrs. revert n. induction Hrs as [|p rs Hp Hrs IH]; intros n; cbn [concat].
  { exists [], []. rewrite take_nil. split_and!; [done|apply prefix_nil|constructor|by left]. }
  destruct (decide (length p <= n)%nat) as [Hle|Hgt].
  - destruct (IH (n - length p)%nat) as (rs' & q & Ht & Hpre & Hf & Hq). exists (p :: rs'), q. split_and!.
    + rewrite take_app, (take_ge p) by lia. rewrite Ht. cbn [concat]. by rewrite app_assoc.
    + by apply prefix_cons.
    + by constructor.
    + done.
  - exists [], (take n p). rewrite take_app. replace (n - length p)%nat with O by lia. rewrite take_0, app_nil_r.
    split_and!; [done|apply prefix_nil|constructor|]. right. exists (drop n p). rewrite take_drop. split; [|done].
    intros Hd. apply (f_equal length) in Hd. rewrite length_drop in Hd. cbn in Hd. lia.
Qed.

Lemma continuation_class c : continuation c = true -> is_ascii c = false /\ rune_start c = false.
Proof. unfold continuation, rune_start, is_ascii, byte_in. intros Hc. split; lia. Qed.

Lemma start_class c : 192 <= code c -> is_ascii c = false /\ rune_start c = true /\ continuation c = false.
Proof. unfold continuation, rune_start, is_ascii, byte_in. intros Hc. split_and!; lia. Qed.

Ltac by_classes := repeat match goal with H : ?b = _ |- context [if ?b then _ else _] => rewrite H end.

Lemma last_rune_whole x p : rune p -> last_rune_ok (x ++ p) = true.
Proof.
  intros Hp. destruct (rune_cases p Hp) as [(a & -> & Ha)|(a & cs & -> & Hl & Ha & Hcs)]; unfold last_rune_ok.
  { rewrite rev_app_distr. cbn. by rewrite Ha. }
  destruct (start_class a Ha) as (Hna & Hst & _).
  destruct cs as [|b [|c [|d [|e cs]]]]; cbn [length] in Hl; try lia; rewrite rev_app_distr; cbn [rev app forallb] in *;
    rewrite ?andb_true_iff in Hcs; destruct_and?;
    repeat match goal with H : continuation _ = true |- _ => apply continuation_class in H as [?Hi ?Hj] end;
    by_classes; rewrite ?Hst; cbn [andb]; by apply bool_decide_eq_true.
Qed.

Lemma last_rune_cut x q : q <> [] -> cut_rune q -> last_rune_ok (x ++ q) = false.
Proof.
  intros Hne (q' & Hq' & Hr). pose proof (rune_prefix _ _ Hr Hq') as Hnone.
  destruct (rune_cases _ Hr) as [(a & Heq & _)|(a & cs & Heq & Hl & Ha & Hcs)].
  { destruct q as [|c q]; [done|]. cbn in Heq. injection Heq as -> Heq. by destruct q, q'. }
  destruct q as [|c q]; [done|]. cbn [app] in Heq. injection Heq as -> <-.
  destruct (start_class a Ha) as (Hna & Hst & Hnc). rewrite length_app in Hl.
  assert (Hq : (length q <= 2)%nat) by (destruct q'; [done|cbn in *; lia]).
  rewrite forallb_app, andb_true_iff in Hcs. destruct Hcs as [Hcs _].
  unfold last_rune_ok. rewrite rev_app_distr. unfold continuation in Hnc.
  destruct q as [|b [|d [|e q]]]; cbn [length] in Hq; try lia; cbn [rev app forallb] in *;
    rewrite ?andb_true_iff in Hcs; destruct_and?;
    repeat match goal with H : continuation _ = true |- _ => apply continuation_class in H as [?Hi ?Hj] end;
    by_classes; rewrite ?Hna, ?Hnone; [|by case_bool_decide..].
  destruct (rev x) as [|c1 [|c2 [|c3 r]]]; try done; repeat case_head; try done;
    rewrite ?andb_false_iff; try right; apply bool_decide_eq_false; cbn [utf8_size];
    rewrite ?Hnc, ?andb_false_r; repeat case_head; done.
Qed.

Lemma cut_rune_init q c : cut_rune (q ++ [c]) -> cut_rune q.
Proof. intros (q' & Hq' & Hr). exists (c :: q'). split; [done|]. by rewrite <- app_assoc in Hr. Qed.

Lemma trim_runes rs fuel : Forall rune rs -> trim_partial fuel (concat rs) = concat rs.
Proof.
  intros Hrs. destruct fuel; [done|]. cbn [trim_partial]. destruct (concat rs) eqn:Hc; [done|]. rewrite <- Hc.
  destruct rs as [|p rs _] using rev_ind; [done|]. apply Forall_app in Hrs as [_ Hp]. rewrite Forall_singleton in Hp.
  rewrite concat_app. cbn [concat]. rewrite app_nil_r. by rewrite last_rune_whole.
Qed.

Lemma trim_cut rs q fuel : Forall rune rs -> q = [] \/ cut_rune q -> (length q <= fuel)%nat ->
  trim_partial fuel (concat rs ++ q) = concat rs.
Proof.
  intros Hrs. revert fuel. induction q as [|c q IH] using rev_ind; intros fuel Hq Hf.
  { rewrite app_nil_r. by apply trim_runes. }
  destruct Hq as [Hq|Hq]; [by destruct q|]. rewrite length_app in Hf. cbn in Hf. destruct fuel as [|fuel]; [lia|].
  cbn [trim_partial]. destruct (concat rs ++ q ++ [c]) eqn:Hc; [by destruct (concat rs), q|]. rewrite <- Hc. clear Hc.
  rewrite last_rune_cut by (done || by destruct q). rewrite app_assoc, removelast_last. apply IH; [|lia].
  right. by eapply cut_rune_init.
Qed.

(** The characters of a text that lie within a limit. *)
Lemma bounded_runes value limit : utf8_Valid value = true -> 0 <= limit ->
  exists rs rs' : list bytes, Forall rune (rs ++ rs') /\ value = concat rs ++ concat rs' /\ bounded value limit = concat rs
    /\ Z.of_nat (length (concat rs)) <= limit
    /\ (forall p ps, rs' = p :: ps -> limit < Z.of_nat (length (concat rs)) + Z.of_nat (length p)).
Proof.
  intros (rs0 & Hrs & ->)%utf8_Valid_runes Hlim. unfold bounded. destruct (Z.leb_spec (Z.of_nat (length (concat rs0))) limit).
  { exists rs0, []. rewrite !app_nil_r. split_and!; try done. }
  cbv zeta. destruct (take_runes rs0 (Z.to_nat limit) Hrs) as (rs & q & Ht & [rs' ->] & Hf & Hq).
  exists rs, rs'. rewrite Ht, trim_cut; [|done|done|rewrite length_app; lia].
  pose proof (length_take_le (concat (rs ++ rs')) (Z.to_nat limit)) as Hl. rewrite Ht, length_app in Hl.
  rewrite concat_app in *. specialize (Hl ltac:(lia)). split_and!; [done|done|done|lia|].
  intros p ps ->. cbn [concat] in *. apply Forall_app in Hrs as [_ Hp]. apply Forall_cons in Hp as [Hp _].
  destruct (Z.lt_ge_cases limit (Z.of_nat (length (concat rs)) + Z.of_nat (length p))) as [|Hge]; [done|]. exfalso.
  rewrite take_app in Ht. rewrite take_ge in Ht by lia. apply app_inv_head in Ht.
  rewrite take_app in Ht. rewrite (take_ge p) in Ht by lia. destruct Hq as [->|(q' & Hq' & Hr)].
  - by destruct p.
  - rewrite <- Ht in Hr. unfold rune in Hr, Hp. rewrite <- !app_assoc, rune_size in Hr by done. injection Hr as Hr.
    rewrite !length_app in Hr. destruct q'; [done|]. cbn in Hr. lia.
Qed.

Lemma trim_partial_prefix fuel s : trim_partial fuel s `prefix_of` s.
Proof.
  revert s. induction fuel as [|fuel IH]; intros s; cbn [trim_partial]; [done|].
  destruct s as [|c s] using rev_ind; [done|]. destruct (s ++ [c]) eqn:Hs; [done|]. rewrite <- Hs. case_head; [done|].
  rewrite removelast_last. etransitivity; [apply IH|]. by exists [c].
Qed.

Lemma bounded_prefix value limit : bounded value limit `prefix_of` value.
Proof.
  unfold bounded. case_head; [done|]. cbv zeta. etransitivity; [apply trim_partial_prefix|].
  exists (drop (Z.to_nat limit) value). by rewrite take_drop.
Qed.

Lemma bounded_length value limit : 0 <= limit -> Z.of_nat (length (bounded value limit)) <= limit.
Proof.
  intros Hlim. unfold bounded. destruct (Z.leb_spec (Z.of_nat (length value)) limit); [done|]. cbv zeta.
  set (s := take _ value). pose proof (prefix_length _ _ (trim_partial_prefix (length s) s)) as Hp.
  unfold s in Hp at 3. rewrite length_take in Hp. lia.
Qed.

Lemma bounded_idemp value limit : 0 <= limit -> bounded (bounded value limit) limit = bounded value limit.
Proof.
  intros Hlim. pose proof (bounded_length value limit Hlim). unfold bounded at 1. by destruct (Z.leb_spec (Z.of_nat (length (bounded value limit))) limit); [|lia].
Qed.

(** Truncation stops at an ASCII character. *)
Lemma trim_partial_ascii fuel p c x : is_ascii c = true ->
  p ++ [c] `prefix_of` trim_partial fuel (p ++ c :: x).
Proof.
  intros Hc. revert fuel. induction x as [|d x IH] using rev_ind; intros [|fuel]; cbn [trim_partial].
  - done.
  - destruct (p ++ [c]) eqn:Hp; [by destruct p|]. rewrite <- Hp.
    replace (last_rune_ok (p ++ [c])) with true; [done|]. unfold last_rune_ok. rewrite rev_app_distr. cbn. by rewrite Hc.
  - exists (x ++ [d]). by rewrite <- app_assoc.
  - destruct (p ++ c :: x ++ [d]) eqn:Hp; [by destruct p|]. rewrite <- Hp. case_head.
    + exists (x ++ [d]). by rewrite <- app_assoc.
    + rewrite app_comm_cons, app_assoc, removelast_last. apply IH.
Qed.

Lemma bounded_ascii p c x limit : is_ascii c = true -> Z.of_nat (S (length p)) <= limit ->
  p ++ [c] `prefix_of` bounded (p ++ c :: x) limit.
Proof.
  intros Hc Hl. unfold bounded. case_head; [exists x; by rewrite <- app_assoc|]. cbv zeta.
  rewrite take_app, (take_ge p) by lia. destruct (Z.to_nat limit - length p)%nat as [|n] eqn:Hn; [lia|].
  cbn [take]. by apply trim_partial_ascii.
Qed.

(** Bounding an audit text keeps it within the limit, keeps a prefix, and
    of a valid UTF-8 text keeps whole characters and as many as fit: the result
    is valid, and the next character would exceed the limit. *)
Theorem bounded_correct value limit : 0 <= limit ->
  Z.of_nat (length (bounded value limit)) <= limit
  /\ bounded value limit `prefix_of` value
  /\ (utf8_Valid value = true -> utf8_Valid (bounded value limit) = true
      /\ forall p t, value = bounded value limit ++ p ++ t -> rune p ->
           limit < Z.of_nat (length (bounded value limit)) + Z.of_nat (length p)).
Proof.
  intros Hlim. split_and!; [by apply bounded_length|apply bounded_prefix|].
  intros Hv. destruct (bounded_runes value limit Hv Hlim) as (rs & rs' & Hf & Hval & -> & Hl & Hnext).
  apply Forall_app in Hf as [Hf Hf']. split; [apply utf8_Valid_runes; by exists rs|].
  intros p t Hpt Hp. rewrite Hval in Hpt. apply app_inv_head in Hpt. destruct rs' as [|p' ps].
  { by destruct p. }
  apply Forall_cons in Hf' as [Hp' _]. cbn [concat] in Hpt. specialize (Hnext _ _ eq_refl).
  assert (length p' = length p) as <-; [|done].
  apply (inj Some). rewrite <- (rune_size p' (concat ps)) by done. rewrite Hpt. by apply rune_size.
Qed.

Lemma bounded_correct_witness :
  0 <= 4 /\ utf8_Valid (bounded (bs "abc" ++ [chr 226; chr 130; chr 172]) 4) = true
  /\ bounded (bs "abc" ++ [chr 226; chr 130; chr 172]) 4 = bs "abc".
Proof.
  split; [lia|]. split; [|by vm_compute].
  apply (bounded_correct (bs "abc" ++ [chr 226; chr 130; chr 172]) 4); [lia|by vm_compute].
Defined.
