(* ===== verification/ControlAPI.v ===== *)
(** * Correctness of the operator control API

    Routing reaches a handler for every control path, nothing is done without
    the token, and every authenticated request to a control path leads to one
    mutation with its audit or to one rejection. Over the control store, the
    reply tells what was committed. *)

From S2P Require Import Prelude GoText GoUrl GoErrors GoNetip GoJson Retry Origin Netguard.
From S2P Require Import RobotsMatch RobotsPolicy RobotsPolicyFacts RobotsHTTP Declaration Verifier.
From S2P Require Import Discovery Crawler Store Queue Exclusions DiscoveryStore.
From S2P Require Import ControlStore ControlFacts GoMux Control ControlText.

#[local] Set Warnings "-clear-no-such-hyp".

(** ** Routing *)

(** A pattern matches the segments of a path. *)
Fixpoint segments_match (p : list segment) (path : list bytes) : Prop :=
  match p, path with
  | [], [] => True
  | [Multi], _ :: _ => True
  | Lit l :: p, s :: path => l = s /\ segments_match p path
  | Wild :: p, s :: path => s <> bs "/" /\ segments_match p path
  | _, _ => False
  end.

(** The values of the wildcards. *)
Fixpoint captures (p : list segment) (path : list bytes) : list bytes :=
  match p, path with
  | Lit _ :: p, _ :: path => captures p path
  | Wild :: p, s :: path => s :: captures p path
  | _, _ => []
  end.

Section MuxFacts.
Context {H : Type}.
Implicit Types (node : list (list segment * route H)).

Lemma literal_child_elem node s p r : (p, r) ∈ literal_child node s -> (Lit s :: p, r) ∈ node.
Proof.
  unfold literal_child. intros ([q r'] & Hin & Heq)%list_elem_of_omap. destruct q as [|[l| |] q]; try done.
  destruct (bytes_eqb_spec l s) as [->|]; [|done]. by injection Heq as -> ->.
Qed.
Lemma wild_child_elem node p r : (p, r) ∈ wild_child node -> (Wild :: p, r) ∈ node.
Proof.
  unfold wild_child. intros ([q r'] & Hin & Heq)%list_elem_of_omap. destruct q as [|[l| |] q]; try done.
  by injection Heq as -> ->.
Qed.
Lemma multi_child_elem node r : multi_child node = Some r -> ([Multi], r) ∈ node.
Proof.
  unfold multi_child. intros Hr%head_Some_elem_of. apply list_elem_of_omap in Hr as ([q r'] & Hin & Heq).
  destruct q as [|[l| |] [|? ?]]; try done. by injection Heq as ->.
Qed.
Lemma leaf_elem node r : leaf node = Some r -> ([], r) ∈ node.
Proof.
  unfold leaf. intros Hr%head_Some_elem_of. apply list_elem_of_omap in Hr as ([q r'] & Hin & Heq).
  destruct q; try done. by injection Heq as ->.
Qed.

Lemma matchPath_sound path node ms r ms' : matchPath node path ms = Some (r, ms') ->
  exists p, (p, r) ∈ node /\ segments_match p path /\ ms' = ms ++ captures p path.
Proof.
  revert node ms. induction path as [|s path IH]; intros node ms; cbn [matchPath].
  { destruct (leaf node) as [r'|] eqn:Hl; [|done]. intros [= -> <-]. exists []. rewrite app_nil_r.
    split; [by apply leaf_elem|done]. }
  destruct (matchPath (literal_child node s) path ms) as [[r1 m1]|] eqn:Hlit.
  { intros [= -> ->]. apply IH in Hlit as (p & Hp%literal_child_elem & Hm & ->). by exists (Lit s :: p). }
  destruct (bytes_eqb_spec s (bs "/")) as [Hs|Hs].
  2: destruct (matchPath (wild_child node) path (ms ++ [s])) as [[r1 m1]|] eqn:Hw.
  2:{ intros [= -> ->]. apply IH in Hw as (p & Hp%wild_child_elem & Hm & ->). exists (Wild :: p).
      split_and!; [done|done|]. cbn [captures]. by rewrite <- app_assoc. }
  all: destruct (multi_child node) as [r'|] eqn:Hm; [|done]; intros [= -> <-]; exists [Multi];
    rewrite app_nil_r; split; [by apply multi_child_elem|done].
Qed.

Lemma segments_match_last p path : segments_match p path -> List.last path [] = bs "/" ->
  Lit (bs "/") ∉ p -> List.last p Wild = Multi.
Proof.
  revert path. induction p as [|x p IH]; intros [|s path] Hm Hl Hn; [done|done|by destruct x as [| |], p|].
  rewrite elem_of_cons in Hn. destruct p as [|y p].
  - destruct x as [l| |]; [| |done]; destruct path; cbn in Hm; destruct_and?; try done; cbn in Hl; subst; tauto.
  - change (List.last (x :: y :: p) Wild) with (List.last (y :: p) Wild). destruct path as [|t path].
    { by destruct x as [| |], y as [| |], p; cbn in Hm; destruct_and?. }
    apply (IH (t :: path)); [by destruct x as [| |]; cbn in Hm; destruct_and?|done|tauto].
Qed.
(** A subtree matches every path below it. *)
Lemma matchPath_subtree ls node r s rest ms : (map Lit ls ++ [Multi], r) ∈ node ->
  matchPath node (ls ++ s :: rest) ms <> None.
Proof.
  revert node ms. induction ls as [|l ls IH]; intros node ms Hin; cbn [map app matchPath] in *.
  - assert (Hm : is_Some (multi_child node)).
    { apply head_is_Some. intros Hnil. eapply (elem_of_nil r). rewrite <- Hnil. apply list_elem_of_omap. by eexists. }
    destruct Hm as [r' ->]. destruct (matchPath _ rest ms); [done|]. by case_match.
  - assert (Hc : (map Lit ls ++ [Multi], r) ∈ literal_child node l).
    { apply list_elem_of_omap. eexists. split; [exact Hin|]. cbn. by destruct (bytes_eqb_spec l l). }
    specialize (IH _ ms Hc). by destruct (matchPath (literal_child node l) _ ms).
Qed.

Lemma method_node_elem (routes : list (route H)) m p r :
  (p, r) ∈ method_node routes m -> r ∈ routes /\ p = route_segments r /\ route_method r = m.
Proof.
  unfold method_node. rewrite list_elem_of_In, in_map_iff. intros (r' & [= <- <-] & [Hin Hm]%filter_In).
  apply bool_decide_eq_true in Hm. split; [by apply list_elem_of_In|done].
Qed.

(** What a match says about the request. *)
Record found_route (routes : list (route H)) (m path : bytes) (r : route H) (ms : list bytes) : Prop := {
  found_in : r ∈ routes;
  found_method : route_method r = Some m \/ route_method r = None
    \/ m = bs "HEAD" /\ route_method r = Some (bs "GET");
  found_path : segments_match (route_segments r) (segments path);
  found_values : ms = captures (route_segments r) (segments path);
}.

Lemma matchMethodAndPath_sound (routes : list (route H)) m path r ms :
  matchMethodAndPath routes m path = Some (r, ms) -> found_route routes m path r ms.
Proof.
  unfold matchMethodAndPath. intros Hm.
  assert (Hnode : forall m', m' = Some m \/ m' = None \/ m = bs "HEAD" /\ m' = Some (bs "GET") ->
    matchPath (method_node routes m') (segments path) [] = Some (r, ms) -> found_route routes m path r ms).
  { intros m' Hm' Hp. apply matchPath_sound in Hp as (p & Hp & Hs & Hv).
    apply method_node_elem in Hp as (? & -> & Heq). split; [done| |done|done]. by rewrite Heq. }
  destruct (matchPath (method_node routes (Some m)) _ _) as [[]|] eqn:H1.
  { injection Hm as -> ->. apply (Hnode (Some m)); [by left|done]. }
  destruct (bytes_eqb_spec m (bs "HEAD")) as [->|]; [|apply (Hnode None); [by right; left|done]].
  destruct (matchPath (method_node routes (Some (bs "GET"))) _ _) as [[]|] eqn:H2.
  - injection Hm as -> ->. apply (Hnode (Some (bs "GET"))); [by right; right|done].
  - apply (Hnode None); [by right; left|done].
Qed.

Lemma route_request_found (routes : list (route H)) m e h ms : route_request routes m e = Matched h ms ->
  exists r, found_route routes m e r ms /\ h = route_handler r.
Proof.
  unfold route_request. case_head; [done|]. cbv zeta. unfold matchOrRedirect. cbv zeta.
  set (path := if bytes_eqb m _ then _ else _). destruct (negb _ && negb _ && _); [done|].
  destruct (bytes_eqb_spec path e) as [->|]; [|done]. cbn [negb].
  destruct (matchMethodAndPath routes m e) as [[r ms']|] eqn:Hm; [|by case_head]. intros [= <- <-]. exists r.
  split; [by apply matchMethodAndPath_sound|done].
Qed.

Lemma Split_count (s : bytes) c : length (Split s c) = S (length (List.filter (byte_eqb c) s)).
Proof.
  induction s as [|d s IH]; [done|]. cbn [Split List.filter]. replace (byte_eqb c d) with (byte_eqb d c)
    by (destruct (byte_eqb_spec d c), (byte_eqb_spec c d); congruence).
  destruct (byte_eqb d c); [cbn [length]; by rewrite IH|]. destruct (Split s c); [done|]. cbn [length] in *. lia.
Qed.

Lemma segments_count t : length (segments ("/"%char :: t)) = length (List.filter (byte_eqb "/") ("/"%char :: t)).
Proof.
  cbn [segments List.filter byte_eqb]. change (byte_eqb "/" "/") with true. cbn [length]. rewrite <- Split_count.
  pose proof (Split_nonempty t "/") as Hne. destruct (Split t "/") as [|x l _] using rev_ind; [done|].
  rewrite removelast_last, !length_app, length_map. f_equal. by destruct (List.last _ _).
Qed.

Lemma segments_slash t : List.last (segments ("/"%char :: t ++ bs "/")) [] = bs "/".
Proof.
  cbn [segments]. change (bs "/") with ("/"%char :: []) at 1 2. rewrite Split_app. cbn [Split].
  rewrite List.last_last. apply List.last_last.
Qed.

Lemma cleanPath_rooted p : exists t, cleanPath p = "/"%char :: t.
Proof. unfold cleanPath. destruct p as [|c p]; [by exists []|]. cbv zeta. unfold path_Clean. destruct (_ && _); by eexists. Qed.

(** A clean path below every subtree that ends one level above it goes to the
    handler it matches. *)
Lemma route_request_matched (routes : list (route H)) m e r ms :
  e <> bs "*" -> cleanPath e = e -> matchMethodAndPath routes m e = Some (r, ms) ->
  Forall (fun r => (Lit (bs "/") ∉ route_segments r) 
    /\ (List.last (route_segments r) Wild = Multi -> (length (route_segments r) <= length (segments e))%nat)) routes ->
  route_request routes m e = Matched (route_handler r) ms.
Proof.
  intros Hstar Hclean Hm Hr. unfold route_request. destruct (bytes_eqb_spec e (bs "*")); [done|]. cbv zeta. rewrite Hclean.
  replace (if bytes_eqb m (bs "CONNECT") then e else e) with e by (by destruct (bytes_eqb m _)).
  destruct (bytes_eqb_spec e e); [|done]. cbn [negb]. unfold matchOrRedirect. rewrite Hm. cbv zeta.
  destruct (negb _ && negb _ && _) eqn:Hred; [|done]. exfalso. rewrite !andb_true_iff in Hred. destruct Hred as [_ Hex].
  destruct (matchMethodAndPath routes m (e ++ bs "/")) as [[r2 ms2]|] eqn:H2m; [|done]. cbn [exactMatch] in Hex.
  apply matchMethodAndPath_sound in H2m as [Hin _ Hs _]. rewrite Forall_forall in Hr. destruct (Hr r2 Hin) as [Hlit Hlen].
  destruct (cleanPath_rooted e) as [t Ht]. rewrite Hclean in Ht. rewrite Ht in Hs, Hlen, Hex. cbn [app] in Hs, Hex.
  pose proof (segments_match_last _ _ Hs (segments_slash t) Hlit) as Hmulti. specialize (Hlen Hmulti). rewrite Hmulti in Hex. apply andb_true_iff in Hex as [_ Hex].
  apply bool_decide_eq_true in Hex. rewrite segments_count in Hlen.
  cbn [List.filter] in *. change (byte_eqb "/" "/") with true in *. cbn [length] in *.
  rewrite List.filter_app, length_app in Hex. change (length (List.filter (byte_eqb "/") (bs "/"))) with 1%nat in Hex. lia.
Qed.
End MuxFacts.

(** A request to a path below [/api/v1/control/]. *)
Definition control_path (e : bytes) : Prop :=
  e <> bs "*" /\ cleanPath e = e
  /\ exists s rest, segments e = bs "api" :: bs "v1" :: bs "control" :: s :: rest.

Lemma no_slash p :
  existsb (fun x => match x with Lit l => bytes_eqb l (bs "/") | _ => false end) p = false -> Lit (bs "/") ∉ p.
Proof.
  intros Hp Hin. apply not_true_iff_false in Hp. apply Hp, existsb_exists. exists (Lit (bs "/")).
  split; [by apply list_elem_of_In|done].
Qed.

Ltac routes_fine :=
  apply Forall_forall; intros x Hx; repeat (apply elem_of_cons in Hx as [->|Hx]);
  [..|by apply elem_of_nil in Hx]; (split; [by apply no_slash
                                           |intros Hl; vm_compute in Hl; first [discriminate|vm_compute; lia]]).

Lemma control_path_routed m e : control_path e ->
  (exists ms, route_request root_routes m e = Matched ep_authorized_api ms)
  /\ exists ep ms, route_request api_routes m e = Matched ep ms.
Proof.
  intros (Hstar & Hclean & s & rest & Hseg). split.
  - destruct (matchMethodAndPath root_routes m e) as [[r ms]|] eqn:Hm.
    + exists ms. rewrite (route_request_matched root_routes m e r ms); [|done|done|done|].
      * apply matchMethodAndPath_sound in Hm as [Hin _ Hs _]. rewrite Hseg in Hs.
        apply elem_of_cons in Hin as [->|Hin]; [by destruct Hs|]. by apply list_elem_of_singleton in Hin as ->.
      * rewrite Hseg. routes_fine.
    + exfalso. revert Hm. unfold matchMethodAndPath. rewrite Hseg.
      destruct (matchPath (method_node _ (Some m)) _ _); [done|]. destruct (if bytes_eqb m _ then _ else _); [done|].
      eapply (matchPath_subtree [bs "api"] (method_node root_routes None)). by left.
  - destruct (matchMethodAndPath api_routes m e) as [[r ms]|] eqn:Hm.
    + exists (route_handler r), ms. apply route_request_matched; try done.
      rewrite Hseg. routes_fine.
    + exfalso. revert Hm. unfold matchMethodAndPath. rewrite Hseg.
      destruct (matchPath (method_node _ (Some m)) _ _); [done|]. destruct (if bytes_eqb m _ then _ else _); [done|].
      eapply (matchPath_subtree [bs "api"; bs "v1"; bs "control"] (method_node api_routes None)). by left.
Qed.

(** What an endpoint was matched by. *)
Definition under (names : list bytes) (rest : list bytes) : list bytes :=
  bs "api" :: bs "v1" :: bs "control" :: names ++ rest.

Definition endpoint_request (ep : endpoint) (m : bytes) (path ms : list bytes) : Prop :=
  match ep with
  | ep_processor => m = POST /\ exists a b, path = under [bs "processors"] [a; b] /\ ms = [a; b]
  | ep_automaticExpansion => m = POST /\ exists a, path = under [bs "automatic-expansion"] [a] /\ ms = [a]
  | ep_addDomainAvoid => m = POST /\ path = under [bs "domain-avoid"] []
  | ep_removeDomainAvoid => m = bs "DELETE" /\ exists a, path = under [bs "domain-avoid"] [a] /\ ms = [a]
  | ep_origin => m = POST /\ exists a, path = under [bs "origins"] [a] /\ ms = [a]
  | ep_invalidControlRequest => exists s rest, path = under [] (s :: rest)
  end.

Lemma exact_method (m m' : bytes) : Some m' = Some m \/ Some m' = None \/ m = bs "HEAD" /\ Some m' = Some (bs "GET") ->
  m' <> bs "GET" -> m = m'.
Proof. intros [[= ->]|[|[_ [= ->]]]]; done. Qed.

Lemma segments_match_lits ls p path : segments_match (map Lit ls ++ p) path ->
  exists rest, path = ls ++ rest /\ segments_match p rest /\ captures (map Lit ls ++ p) path = captures p rest.
Proof.
  revert path. induction ls as [|l ls IH]; intros path Hm; [by exists path|].
  cbn [map app] in Hm. destruct path as [|s path]; [done|]. destruct Hm as [-> Hm].
  apply IH in Hm as (rest & -> & Hp & Hc). by exists rest.
Qed.

Lemma api_routed m e ep ms : route_request api_routes m e = Matched ep ms -> endpoint_request ep m (segments e) ms.
Proof.
  intros (r & [Hin Hmeth Hpath Hval] & ->)%route_request_found. revert Hmeth Hpath Hval.
  generalize (segments e) as path. intros path Hmeth Hpath ->.
  set (prefix := [bs "api"; bs "v1"; bs "control"]).
  repeat (apply elem_of_cons in Hin as [->|Hin]); [..|by apply elem_of_nil in Hin].
  1: apply (segments_match_lits (prefix ++ [bs "processors"]) [Wild; Wild]) in Hpath.
  2: apply (segments_match_lits (prefix ++ [bs "automatic-expansion"]) [Wild]) in Hpath.
  3: apply (segments_match_lits (prefix ++ [bs "domain-avoid"]) []) in Hpath.
  4: apply (segments_match_lits (prefix ++ [bs "domain-avoid"]) [Wild]) in Hpath.
  5: apply (segments_match_lits (prefix ++ [bs "origins"]) [Wild]) in Hpath.
  6: apply (segments_match_lits prefix [Multi]) in Hpath.
  all: destruct Hpath as (rest & -> & Hr & Hc); cbn [route_handler endpoint_request].
  1-5: split; [by apply exact_method in Hmeth|].
  1: destruct rest as [|a [|b [|c rest]]]; cbn in Hr; destruct_and?; try done; by exists a, b.
  1,3,4: destruct rest as [|a [|b rest]]; cbn in Hr; destruct_and?; try done; by exists a.
  1: by destruct rest.
  destruct rest as [|s rest]; [done|]. by exists s, rest.
Qed.

(** ** Commands and their audits *)

Inductive action : Type :=
| act_processor (name : bytes) (paused : bool)
| act_expansion (paused : bool)
| act_add (pattern : bytes)
| act_remove (pattern : bytes)
| act_origin (o : bytes) (blocked : bool)
| act_reject.

Definition action_name (act : action) : bytes :=
  match act with
  | act_processor _ true => bs "processor.pause"
  | act_processor _ false => bs "processor.resume"
  | act_expansion true => bs "automatic-expansion.pause"
  | act_expansion false => bs "automatic-expansion.resume"
  | act_add _ => bs "domain-avoid.add"
  | act_remove _ => bs "domain-avoid.remove"
  | act_origin _ true => bs "origin.block"
  | act_origin _ false => bs "origin.allow"
  | act_reject => bs "request.reject"
  end.

Definition action_target (act : action) : bytes :=
  match act with
  | act_processor name _ => name
  | act_expansion _ => bs "automatic-expansion"
  | act_add pattern | act_remove pattern => pattern
  | act_origin o _ => o
  | act_reject => []
  end.

(** The commands the API may give. *)
Definition action_valid `{NetURL} `{NetIP} `{IDNA} (act : action) : Prop :=
  match act with
  | act_processor name _ => name = bs "discovery" \/ name = bs "verification"
  | act_expansion _ => True
  | act_add pattern | act_remove pattern => validDomainPattern pattern = true
  | act_origin o _ => exists raw source, Origin.Parse raw = Ok source /\ o = origin_String source
  | act_reject => False
  end.

(** The bounds every audit of the API respects. *)
Record audit_bounded (a : Audit) : Prop := {
  ab_action : octets_between 1 maxActionBytes (audit_Action a) = true;
  ab_target : octets_between 0 maxTargetBytes (audit_Target a) = true;
  ab_caller : octets_between 0 maxCallerBytes (audit_Caller a) = true;
  ab_actor : octets_between 1 maxActorBytes (audit_Actor a) = true;
  ab_reason : octets_between 0 maxReasonBytes (audit_Reason a) = true;
}.

(** An audit of a request made at a time. *)
Definition audit_of (r : ControlRequest) (at_ : Z) (a : Audit) : Prop :=
  OccurredAt a = at_ /\ audit_bounded a
  /\ audit_Caller a = audit_Caller (newAudit at_ r [] []).

Definition audits_action (act : action) (a : Audit) : Prop :=
  audit_Action a = action_name act /\ audit_Target a = boundedTarget (action_target act).


(** ** Audits of requests *)

Lemma newAudit_of r at_ prefix c action target :
  is_ascii c = true -> Z.of_nat (S (length prefix)) <= maxActionBytes ->
  audit_of r at_ (newAudit at_ r (prefix ++ c :: action) target).
Proof.
  intros Hc Hl. split_and!; [done| |done]. pose proof (prefix_length _ _ (bounded_ascii prefix c action _ Hc Hl)) as Hp.
  rewrite length_app in Hp. cbn in Hp. split; unfold octets_between; cbn [newAudit audit_Action audit_Target audit_Caller audit_Actor audit_Reason].
  - pose proof (bounded_length (prefix ++ c :: action) maxActionBytes ltac:(done)). unfold maxActionBytes in *. lia.
  - pose proof (bounded_length target maxTargetBytes ltac:(done)). unfold boundedTarget, maxTargetBytes in *. lia.
  - match goal with |- context [bounded ?c maxCallerBytes] => pose proof (bounded_length c maxCallerBytes ltac:(done)) end.
    unfold maxCallerBytes in *. lia.
  - done.
  - done.
Qed.

Lemma audit_of_target r at_ a target : audit_of r at_ a -> audit_of r at_ (set_target a (boundedTarget target)).
Proof.
  intros (Ht & [H1 H2 H3 H4 H5] & Hc). split_and!; [done| |done]. split; try done. unfold octets_between.
  cbn [set_target audit_Target]. pose proof (bounded_length target maxTargetBytes ltac:(done)).
  unfold boundedTarget, maxTargetBytes in *. lia.
Qed.

Lemma audit_of_result r at_ a result : audit_of r at_ a -> audit_of r at_ (set_result a result).
Proof. intros (Ht & [H1 H2 H3 H4 H5] & Hc). by split_and!. Qed.

Lemma applyMetadata_spec r at_ a actor reason a' valid : audit_of r at_ a -> applyMetadata a actor reason = (a', valid) ->
  audit_of r at_ a' /\ audit_Action a' = audit_Action a /\ audit_Target a' = audit_Target a.
Proof.
  intros (Ht & [H1 H2 H3 H4 H5] & Hc). unfold applyMetadata. cbv zeta.
  assert (Htext : forall s limit, (negb (bytes_eqb s []) && negb (validBoundedText s limit && bytes_eqb (TrimSpace s) s)) = false ->
    s <> [] -> octets_between 1 limit s = true).
  { intros s limit Hs Hne. destruct (bytes_eqb_spec s []); [done|]. cbn [negb andb] in Hs. apply negb_false_iff in Hs.
    apply andb_true_iff in Hs as [Hs _]. unfold validBoundedText, octets_between in *.
    rewrite !andb_true_iff in Hs. destruct s; [done|]. cbn [length] in *. lia. }
  destruct (negb (bytes_eqb actor []) && _) eqn:Hactor; [intros [= <- <-]; by split_and!|].
  pose proof (Htext _ _ Hactor) as Hactor'. clear Hactor. set (a1 := if bytes_eqb actor [] then a else _).
  assert (Ha1 : audit_of r at_ a1 /\ audit_Action a1 = audit_Action a /\ audit_Target a1 = audit_Target a).
  { unfold a1. destruct (bytes_eqb_spec actor []) as [|Hne]; [by split_and!|]. unfold audit_of. split_and!; try done.
    split; try done. by apply Hactor'. }
  clearbody a1. destruct Ha1 as ((Ht1 & [G1 G2 G3 G4 G5] & Hc1) & Hact & Htar).
  destruct (negb (bytes_eqb reason []) && _) eqn:Hreason; [intros [= <- <-]; by split_and!|]. intros [= <- <-].
  pose proof (Htext _ _ Hreason) as Hreason'. clear Hreason.
  destruct (bytes_eqb_spec reason []) as [|Hne]; [by split_and!|]. unfold audit_of. split_and!; try done. split; try done.
  specialize (Hreason' Hne). unfold octets_between in *. cbn [audit_Reason]. lia.
Qed.

(** ** Requests *)

Record control_event (W : Type) : Type := mkEvent {
  event_action : action;
  event_audit : Audit;
  event_before : W;
  event_after : W;
  event_result : option error;
}.
Arguments mkEvent {W}. Arguments event_action {W}. Arguments event_audit {W}.
Arguments event_before {W}. Arguments event_after {W}. Arguments event_result {W}.

(** The commander's method for an action. *)
Definition run_action {W} {Cm : Commander W} (ctx : Ctx W) (act : action) (w : W) (a : Audit) : W * option error :=
  match act with
  | act_processor name paused => command_SetProcessorPaused ctx w (name, paused, a)
  | act_expansion paused => command_SetAutomaticExpansionPaused ctx w (paused, a)
  | act_add pattern => command_AddDomainAvoid ctx w (pattern, a)
  | act_remove pattern => command_RemoveDomainAvoid ctx w (pattern, a)
  | act_origin o blocked => command_SetOriginBlocked ctx w (o, blocked, a)
  | act_reject => command_RecordRejected ctx w a
  end.

Section Traced.
Context `{NetURL} `{NetIP} `{IDNA} `{Unicode} `{OperatorLibrary} {W : Type} {Cm : Commander W}.

(** The commander that also records its calls. *)
Definition recording (ctx : Ctx (W * list (control_event W))) (act : action) (w : W * list (control_event W)) (a : Audit)
    : (W * list (control_event W)) * option error :=
  let '(w0, log) := w in
  let '(w1, e) := run_action (fun w => ctx (w, log)) act w0 a in
  ((w1, log ++ [mkEvent act a w0 w1 e]), e).

Definition traced_commander : Commander (W * list (control_event W)) := {|
  command_SetProcessorPaused ctx w '(name, paused, a) := recording ctx (act_processor name paused) w a;
  command_SetAutomaticExpansionPaused ctx w '(paused, a) := recording ctx (act_expansion paused) w a;
  command_AddDomainAvoid ctx w '(pattern, a) := recording ctx (act_add pattern) w a;
  command_RemoveDomainAvoid ctx w '(pattern, a) := recording ctx (act_remove pattern) w a;
  command_SetOriginBlocked ctx w '(o, blocked, a) := recording ctx (act_origin o blocked) w a;
  command_RecordRejected ctx w a := recording ctx act_reject w a;
|}.

Variable now : W -> Z.
Variable ctx : Ctx W.

Definition traced_now (w : W * list (control_event W)) : Z := now (fst w).

(** The command a request asks for. *)
Definition requested (r : ControlRequest) (act : action) : Prop :=
  let path := segments (req_EscapedPath r) in
  let operation (b : bool) (on off : bytes) := if b then on else off in
  match act with
  | act_processor name paused =>
      req_Method r = POST /\ path = under [bs "processors"] [name; operation paused (bs "pause") (bs "resume")]
  | act_expansion paused =>
      req_Method r = POST /\ path = under [bs "automatic-expansion"] [operation paused (bs "pause") (bs "resume")]
  | act_add pattern =>
      req_Method r = POST /\ path = under [bs "domain-avoid"] []
      /\ exists body, decodeJSON r domainRequest_fields = Ok body /\ pattern = normalizeDomainPattern (field body 0)
  | act_remove pattern =>
      req_Method r = bs "DELETE"
      /\ exists raw, path = under [bs "domain-avoid"] [raw] /\ pattern = normalizeDomainPattern raw
  | act_origin o blocked =>
      req_Method r = POST /\ path = under [bs "origins"] [operation blocked (bs "block") (bs "allow")]
      /\ exists body source, decodeJSON r originRequest_fields = Ok body /\ Origin.Parse (field body 0) = Ok source
           /\ o = origin_String source
  | act_reject => False
  end.

Definition refusals : list (Z * bytes) := [
  (400, bs "invalid_request"); (404, bs "not_found"); (405, bs "method_not_allowed");
  (413, bs "request_too_large"); (415, bs "unsupported_media_type")
].

(** How an authenticated request to a control path is answered, with the calls
    of the commander. *)
Inductive answered (r : ControlRequest) (w : W) : W -> list (control_event W) -> response -> Prop :=
| answered_applied act a w' :
    requested r act -> action_valid act -> audits_action act a -> audit_of r (now w) a -> audit_Result a = ResultSuccess ->
    run_action ctx act w a = (w', None) ->
    answered r w w' [mkEvent act a w w' None] StatusOK
| answered_failed act a w1 e w' e' :
    requested r act -> action_valid act -> audits_action act a -> audit_of r (now w) a -> audit_Result a = ResultSuccess ->
    run_action ctx act w a = (w1, Some e) -> run_action ctx act_reject w1 (set_result a ResultRejected) = (w', e') ->
    answered r w w' [mkEvent act a w w1 (Some e); mkEvent act_reject (set_result a ResultRejected) w1 w' e'] internal_error
| answered_refused a w' status reason :
    audit_of r (now w) a -> audit_Result a = ResultRejected -> (status, reason) ∈ refusals ->
    run_action ctx act_reject w a = (w', None) ->
    answered r w w' [mkEvent act_reject a w w' None] (ErrorReply status reason)
| answered_unrecorded a w' e :
    audit_of r (now w) a -> audit_Result a = ResultRejected -> run_action ctx act_reject w a = (w', Some e) ->
    answered r w w' [mkEvent act_reject a w w' (Some e)] internal_error.

Lemma reject_answered r a status reason w w' log reply :
  audit_of r (now w) a -> (status, reason) ∈ refusals ->
  reject (Cm := traced_commander) (ctx_lift ctx) a status reason (w, []) = ((w', log), reply) ->
  answered r w w' log reply.
Proof.
  intros Ha Hin. unfold reject. cbn [command_RecordRejected traced_commander recording].
  change (fun w0 : W => ctx_lift ctx (w0, [])) with ctx.
  destruct (run_action ctx act_reject w _) as [w1 [e|]] eqn:Hr; intros [= <- <- <-]; cbn [app];
    constructor; try done; by apply audit_of_result.
Qed.

Lemma mutate_answered r act a (mutation : _ -> Audit -> _ * option error) w w' log reply :
  requested r act -> action_valid act -> audits_action act a -> audit_of r (now w) a ->
  (forall x b, mutation x b = recording (ctx_lift ctx) act x b) ->
  Control.mutate (Cm := traced_commander) (ctx_lift ctx) a mutation (w, []) = ((w', log), reply) ->
  answered r w w' log reply.
Proof.
  intros Hreq Hval Hact Ha Hm. unfold Control.mutate. rewrite Hm. cbn [recording].
  change (fun w0 : W => ctx_lift ctx (w0, [])) with ctx.
  destruct (run_action ctx act w _) as [w1 [e|]] eqn:Hr.
  - cbn [command_RecordRejected traced_commander recording app].
    match goal with |- context [run_action ?c act_reject w1 _] => change c with ctx end.
    destruct (run_action ctx act_reject w1 _) as [w2 e2] eqn:Hr2. intros [= <- <- <-]. cbn [app].
    apply (answered_failed r w act (set_result a ResultSuccess) w1 e w2 e2); try done; by apply audit_of_result.
  - intros [= <- <- <-]. cbn [app]. constructor; try done; by apply audit_of_result.
Qed.

Lemma decode_failure_refusal e : decode_failure e ∈ refusals.
Proof. destruct e; unfold refusals; set_solver. Qed.

Lemma decodeJSON_refusal r fields status reason :
  decodeJSON r fields = Err (status, reason) -> (status, reason) ∈ refusals.
Proof.
  unfold decodeJSON. case_head; [intros [= <- <-]; unfold refusals; set_solver|].
  case_head; [intros [= <- <-]; unfold refusals; set_solver|]. destruct (limited_body r) as [body end_].
  destruct (json_Decode _ _ _) as [[values rest]|e]; [|intros [= <-]; apply decode_failure_refusal].
  destruct (json_Skip rest end_) as [[]|]; intros [= <- <-]; unfold refusals; set_solver.
Qed.

Lemma decodeOptionalJSON_refusal r fields status reason :
  decodeOptionalJSON r fields = Err (status, reason) -> (status, reason) ∈ refusals.
Proof.
  unfold decodeOptionalJSON. cbv zeta. destruct (req_ContentLength r =? 0); [done|]. destruct (_ && _); [done|].
  apply decodeJSON_refusal.
Qed.

Lemma is_operation_spec on off operation : is_operation on off operation = true ->
  operation = if bytes_eqb operation on then on else off.
Proof.
  unfold is_operation. destruct (bytes_eqb_spec operation on); [done|]. destruct (bytes_eqb_spec operation off); [done|].
  done.
Qed.

Lemma refusal_400 : (400, bs "invalid_request") ∈ refusals.
Proof. unfold refusals. set_solver. Qed.
Lemma refusal_404 : (404, bs "not_found") ∈ refusals.
Proof. unfold refusals. set_solver. Qed.
Lemma refusal_405 : (405, bs "method_not_allowed") ∈ refusals.
Proof. unfold refusals. set_solver. Qed.

Abbreviation requests r path := (segments (req_EscapedPath r) = path) (only parsing).

(** The steps the endpoints share: a refused operation or body, and the
    metadata of an accepted body. *)
Ltac refused := first
  [ by apply reject_answered; [|apply refusal_404]
  | by apply reject_answered; [|apply refusal_400]
  | by apply reject_answered; [|eapply decodeOptionalJSON_refusal]
  | by apply reject_answered; [|eapply decodeJSON_refusal] ].
Ltac audit_at w a :=
  match goal with |- context [newAudit (traced_now (w, [])) ?r ?action ?target] =>
    change (traced_now (w, [])) with (now w); set (a := newAudit (now w) r action target) end.
Ltac with_metadata r w a' :=
  let valid := fresh "valid" in let Hmeta := fresh "Hmeta" in
  match goal with |- context [applyMetadata ?a ?x ?y] =>
    destruct (applyMetadata a x y) as [a' valid] eqn:Hmeta end;
  apply (applyMetadata_spec r (now w)) in Hmeta as (Ha' & Hact & Htar);
  [destruct valid; cbn [negb orb] | try done].

Lemma serve_processor_answered r name operation w w' log reply :
  req_Method r = POST -> requests r (under [bs "processors"] [name; operation]) ->
  serve_processor (Cm := traced_commander) traced_now (ctx_lift ctx) r name operation (w, []) = ((w', log), reply) ->
  answered r w w' log reply.
Proof.
  intros Hm Hp. unfold serve_processor. cbv zeta. audit_at w a.
  assert (Ha : audit_of r (now w) a) by (by apply (newAudit_of _ _ (bs "processor") ".")).
  destruct (is_operation (bs "discovery") _ _) eqn:Hname, (is_operation (bs "pause") _ _) eqn:Hop; cbn [negb orb];
    try refused.
  destruct (decodeOptionalJSON r _) as [body|[status reason]] eqn:Hbody; [|refused]. with_metadata r w a'; [|refused].
  apply is_operation_spec in Hop. eapply (mutate_answered r (act_processor name (bytes_eqb operation (bs "pause")))); try done.
  - split; [done|]. rewrite Hp. rewrite Hop at 1. by destruct (bytes_eqb operation (bs "pause")).
  - unfold is_operation in Hname. cbn. destruct (bytes_eqb_spec name (bs "discovery")); [by left|].
    destruct (bytes_eqb_spec name (bs "verification")); [by right|done].
  - split; [rewrite Hact|rewrite Htar; by apply bounded_idemp]. cbn [a newAudit audit_Action].
    rewrite Hop. by destruct (bytes_eqb operation (bs "pause")).
Qed.

Lemma serve_automaticExpansion_answered r operation w w' log reply :
  req_Method r = POST -> requests r (under [bs "automatic-expansion"] [operation]) ->
  serve_automaticExpansion (Cm := traced_commander) traced_now (ctx_lift ctx) r operation (w, []) = ((w', log), reply) ->
  answered r w w' log reply.
Proof.
  intros Hm Hp. unfold serve_automaticExpansion. cbv zeta. audit_at w a.
  assert (Ha : audit_of r (now w) a) by (by apply (newAudit_of _ _ (bs "automatic-expansion") ".")).
  destruct (is_operation (bs "pause") _ _) eqn:Hop; cbn [negb]; [|refused].
  destruct (decodeOptionalJSON r _) as [body|[status reason]] eqn:Hbody; [|refused]. with_metadata r w a'; [|refused].
  apply is_operation_spec in Hop. eapply (mutate_answered r (act_expansion (bytes_eqb operation (bs "pause")))); try done.
  - split; [done|]. rewrite Hp. rewrite Hop at 1. by destruct (bytes_eqb operation (bs "pause")).
  - split; [rewrite Hact|by rewrite Htar]. cbn [a newAudit audit_Action].
    rewrite Hop. by destruct (bytes_eqb operation (bs "pause")).
Qed.

Lemma serve_addDomainAvoid_answered r w w' log reply :
  req_Method r = POST -> requests r (under [bs "domain-avoid"] []) ->
  serve_addDomainAvoid (Cm := traced_commander) traced_now (ctx_lift ctx) r (w, []) = ((w', log), reply) ->
  answered r w w' log reply.
Proof.
  intros Hm Hp. unfold serve_addDomainAvoid. cbv zeta. audit_at w a.
  assert (Ha : audit_of r (now w) a) by (by apply (newAudit_of _ _ (bs "domain-avoid") ".")).
  destruct (decodeJSON r _) as [body|[status reason]] eqn:Hbody; [|refused].
  set (pattern := normalizeDomainPattern (field body 0)).
  pose proof (audit_of_target r (now w) a pattern Ha) as Hat. with_metadata r w a'.
  - destruct (validDomainPattern pattern) eqn:Hv; cbn [negb orb]; [|refused].
    apply (mutate_answered r (act_add pattern)); try done. split_and!; [done|done|]. by exists body.
  - rewrite orb_true_r. refused.
Qed.

Lemma serve_removeDomainAvoid_answered r raw w w' log reply :
  req_Method r = bs "DELETE" -> requests r (under [bs "domain-avoid"] [raw]) ->
  serve_removeDomainAvoid (Cm := traced_commander) traced_now (ctx_lift ctx) r raw (w, []) = ((w', log), reply) ->
  answered r w w' log reply.
Proof.
  intros Hm Hp. unfold serve_removeDomainAvoid. cbv zeta. audit_at w a.
  assert (Ha : audit_of r (now w) a) by (by apply (newAudit_of _ _ (bs "domain-avoid") ".")).
  destruct (decodeOptionalJSON r _) as [body|[status reason]] eqn:Hbody; [|refused]. with_metadata r w a'.
  - destruct (validDomainPattern _) eqn:Hv; cbn [negb orb]; [|refused].
    apply (mutate_answered r (act_remove (normalizeDomainPattern raw))); try done; [split; [done|by exists raw]|].
    split; [by rewrite Hact|]. rewrite Htar. by apply bounded_idemp.
  - rewrite orb_true_r. refused.
Qed.

Lemma serve_origin_answered r operation w w' log reply :
  req_Method r = POST -> requests r (under [bs "origins"] [operation]) ->
  serve_origin (Cm := traced_commander) traced_now (ctx_lift ctx) r operation (w, []) = ((w', log), reply) ->
  answered r w w' log reply.
Proof.
  intros Hm Hp. unfold serve_origin. cbv zeta. audit_at w a.
  assert (Ha : audit_of r (now w) a) by (by apply (newAudit_of _ _ (bs "origin") ".")).
  destruct (is_operation (bs "block") _ _) eqn:Hop; cbn [negb]; [|refused].
  destruct (decodeJSON r _) as [body|[status reason]] eqn:Hbody; [|refused].
  destruct (Origin.Parse (field body 0)) as [source|e] eqn:Hparse.
  2:{ with_metadata r w a'; refused. }
  pose proof (audit_of_target r (now w) a (origin_String source) Ha) as Hat. with_metadata r w a'; [|refused].
  apply is_operation_spec in Hop.
  eapply (mutate_answered r (act_origin (origin_String source) (bytes_eqb operation (bs "block")))); try done.
  - split_and!; [done| |by exists body, source]. rewrite Hp. rewrite Hop at 1. by destruct (bytes_eqb operation (bs "block")).
  - by exists (field body 0), source.
  - split; [rewrite Hact|by rewrite Htar]. cbn [a set_target newAudit audit_Action].
    rewrite Hop. by destruct (bytes_eqb operation (bs "block")).
Qed.

Lemma serve_endpoint_answered r ep ms w w' log reply :
  endpoint_request ep (req_Method r) (segments (req_EscapedPath r)) ms ->
  serve_endpoint (Cm := traced_commander) traced_now (ctx_lift ctx) ep ms r (w, []) = ((w', log), reply) ->
  answered r w w' log reply.
Proof.
  destruct ep; cbn [endpoint_request serve_endpoint].
  - intros (Hm & a & b & Hp & ->). by apply serve_processor_answered.
  - intros (Hm & a & Hp & ->). by apply serve_automaticExpansion_answered.
  - intros [Hm Hp]. by apply serve_addDomainAvoid_answered.
  - intros (Hm & a & Hp & ->). by apply serve_removeDomainAvoid_answered.
  - intros (Hm & a & Hp & ->). by apply serve_origin_answered.
  - intros _. unfold serve_invalid. cbv zeta. audit_at w a.
    assert (Ha : audit_of r (now w) a) by (by apply (newAudit_of _ _ (bs "request") ".")).
    case_head; apply reject_answered; try done; [apply refusal_405|apply refusal_404].
Qed.

Definition authorized (token : bytes) (r : ControlRequest) : Prop :=
  Sum256 (req_Authorization r) = Sum256 (bs "Bearer " ++ token).

Lemma authorizationMatches_spec token r :
  authorizationMatches (expectedAuthorizationHash token) (req_Authorization r) = true <-> authorized token r.
Proof. unfold authorizationMatches, expectedAuthorizationHash, authorizationDigest, authorized. by destruct (bytes_eqb_spec (Sum256 (req_Authorization r)) (Sum256 (bs "Bearer " ++ token))). Qed.

(** What a request did: nothing, or what an authorized request to a control
    path may do. *)
Record served (token : bytes) (r : ControlRequest) (w w' : W) (log : list (control_event W)) (reply : response) : Prop := {
  served_silent : log = [] -> w' = w /\ (reply = StatusOK -> segments (req_EscapedPath r) = [bs "healthz"]);
  served_calls : log <> [] -> authorized token r /\ answered r w w' log reply;
  served_unauthorized : ~ authorized token r -> control_path (req_EscapedPath r) -> reply = unauthorized;
  served_control : authorized token r -> control_path (req_EscapedPath r) -> answered r w w' log reply;
}.

Lemma answered_calls r w w' log reply : answered r w w' log reply -> log <> [].
Proof. by destruct 1. Qed.

Lemma serve_silent (token : bytes) r w reply : (reply = StatusOK -> segments (req_EscapedPath r) = [bs "healthz"]) ->
  ~ control_path (req_EscapedPath r) -> served token r w w [] reply.
Proof. intros Hok Hn. by split. Qed.

Lemma serve_served token r w w' log reply :
  serve (Cm := traced_commander) traced_now (ctx_lift ctx) (expectedAuthorizationHash token) r (w, []) = ((w', log), reply) ->
  served token r w w' log reply.
Proof.
  unfold serve, mux_reply. destruct (route_request root_routes _ _) as [ep ms|path| | |] eqn:Hroot.
  2-5: intros [= <- <- <-]; apply serve_silent; [done|]; intros Hc;
    destruct (control_path_routed (req_Method r) _ Hc) as [[ms Hm] _]; congruence.
  destruct ep.
  { intros [= <- <- <-]. apply route_request_found in Hroot as (rt & [Hin _ Hs _] & Hep).
    apply elem_of_cons in Hin as [->|Hin]; [|apply list_elem_of_singleton in Hin as ->; done].
    apply (segments_match_lits [bs "healthz"] []) in Hs as (rest & Hseg & Hrest & _). destruct rest; [|done].
    rewrite app_nil_r in Hseg. apply serve_silent; [done|]. intros (_ & _ & s & rest & Hc). by rewrite Hseg in Hc. }
  unfold authorize. destruct (authorizationMatches _ _) eqn:Hauth; cbn [negb].
  2:{ intros [= <- <- <-]. apply not_true_iff_false in Hauth. rewrite authorizationMatches_spec in Hauth. by split. }
  apply authorizationMatches_spec in Hauth. unfold serve_api, mux_reply.
  destruct (route_request api_routes _ _) as [ep ms'|path| | |] eqn:Hapi.
  2-5: intros [= <- <- <-]; apply serve_silent; [done|]; intros Hc;
    destruct (control_path_routed (req_Method r) _ Hc) as [_ (ep & ms' & Hm)]; congruence.
  intros Hs. apply serve_endpoint_answered in Hs; [|by apply api_routed]. pose proof (answered_calls _ _ _ _ _ Hs).
  by split.
Qed.

(** C6: The control API acts only for the holder of the token, and once. For
    every request: without an authorization whose SHA-256 digest is that of
    the bearer token, the commander is not called and nothing changes, and on
    a control path the reply is 401. Every authorized request to a path below
    [/api/v1/control/] is answered in one of four ways: the mutation that its
    method, path and body ask for succeeded with its success audit, reply 200;
    the mutation failed and a rejection was submitted, reply 500; a rejection
    was recorded, reply 4xx; or recording it failed, reply 500. Commands are
    valid, their audits name exactly the action and target, and every audit
    text is within its bounds. *)
Theorem control_api_correct token r w w' log reply :
  serve (Cm := traced_commander) traced_now (ctx_lift ctx) (expectedAuthorizationHash token) r (w, []) = ((w', log), reply) ->
  served token r w w' log reply.
Proof. apply serve_served. Qed.
End Traced.

(** ** Patterns the API accepts *)

Lemma alnum_visible c : is_alnum c = true -> is_visible c = true.
Proof.
  unfold is_alnum, is_lower, is_digit, in_range, is_visible. change (code "a") with 97. change (code "z") with 122.
  change (code "0") with 48. change (code "9") with 57. lia.
Qed.

Definition pattern_character (c : ascii) : bool := is_alnum c || byte_eqb c "." || byte_eqb c "-".

Lemma pattern_character_cases c : pattern_character c = true ->
  is_ascii c = true /\ to_lower c = c /\ Contains (bs "/:@?#*_%\,") c = false.
Proof. destruct c as [[] [] [] [] [] [] [] []]; vm_compute; by intros. Qed.

(** The shape of a valid pattern. *)
Lemma validDomainPattern_shape p : validDomainPattern p = true ->
  exists first core star, p = core ++ star /\ head core = Some first /\ is_alnum first = true
    /\ is_alnum (List.last core first) = true /\ forallb pattern_character core = true
    /\ (star = [] \/ star = bs ".*") /\ TrimSuffix p (bs ".*") = core.
Proof.
  unfold validDomainPattern. case_head; [done|]. intros _. rewrite !orb_false_iff, negb_false_iff in E.
  destruct E as [_ Hd]. unfold domainPattern in Hd. cbv zeta in Hd.
  assert (Hstar : exists star, p = TrimSuffix p (bs ".*") ++ star /\ (star = [] \/ star = bs ".*")).
  { destruct (HasSuffix p (bs ".*")) eqn:Hs.
    - apply HasSuffix_spec in Hs as [t ->]. exists (bs ".*"). rewrite TrimSuffix_app. by split; [|right].
    - exists []. rewrite TrimSuffix_no by done. rewrite app_nil_r. by split; [|left]. }
  destruct Hstar as (star & Hp & Hstar). destruct (TrimSuffix p (bs ".*")) as [|c core] eqn:Hc; [done|].
  rewrite !andb_true_iff in Hd. destruct Hd as [[Hf Hl] Hall]. exists c, (c :: core), star. by split_and!.
Qed.

Lemma Split_no_sep s sep : sep ∉ s -> Split s sep = [s].
Proof.
  intros Hn. induction s as [|c s IH]; [done|]. rewrite elem_of_cons in Hn. cbn [Split].
  destruct (byte_eqb_spec c sep) as [->|]; [tauto|]. rewrite IH by tauto. done.
Qed.

Lemma pattern_rule `{UnicodeLaws} p : validDomainPattern p = true -> domain_rule p = Some p.
Proof.
  intros (c & core & star & -> & Hhead & Hf & Hl & Hall & Hstar & Hcore)%validDomainPattern_shape.
  destruct core as [|c' core']; [done|]. injection Hhead as ->. set (core := c :: core') in *.
  assert (Hascii : forallb is_ascii (core ++ star) = true).
  { rewrite forallb_app, andb_true_iff. split; [|by destruct Hstar as [->| ->]].
    rewrite forallb_forall in Hall |- *. intros x Hx. by apply pattern_character_cases, Hall. }
  assert (Hlow : ToLower (core ++ star) = core ++ star).
  { rewrite ToLower_ascii by done. rewrite map_app. f_equal; [|by destruct Hstar as [->| ->]].
    rewrite <- (map_id core) at 2. apply map_ext_in. intros x Hx. rewrite forallb_forall in Hall.
    by apply pattern_character_cases, Hall. }
  assert (Htrim : TrimSpace (core ++ star) = core ++ star).
  { apply TrimSpace_edges; [by apply alnum_visible|]. rewrite rev_app_distr. destruct Hstar as [->| ->]; [|done].
    cbn [rev app]. destruct core as [|x l _] using rev_ind; [done|]. rewrite List.last_last in Hl. rewrite rev_app_distr.
    by apply alnum_visible. }
  assert (Hspecial : forall x, x ∈ core -> Contains (bs "/:@?#*_%\,") x = false).
  { intros x Hx. rewrite forallb_forall in Hall. apply pattern_character_cases, Hall. by apply list_elem_of_In. }
  assert (Hnot : forall x, Contains (bs "/:@?#*_%\,") x = true -> x ∉ core) by (intros x Hx Hin; by rewrite Hspecial in Hx).
  assert (Hcomma : ","%char ∉ core ++ star).
  { rewrite elem_of_app. intros [Hx|Hx]; [by apply Hnot in Hx|]. destruct Hstar as [->| ->]; set_solver. }
  unfold domain_rule. cbv zeta. rewrite Htrim, Hlow.
  assert (Hc : Contains (core ++ star) "," = false) by (apply not_true_iff_false; by rewrite Contains_spec).
  rewrite Hc. unfold validExcludedHostSuffixes. rewrite Split_no_sep by done. cbn [forallb]. rewrite Htrim. unfold valid_suffix.
  rewrite Hlow, Hcore. destruct (bytes_eqb_spec (core ++ star) []) as [Hn|_]; [done|].
  destruct (bytes_eqb_spec (core ++ star) (core ++ star)); [|done]. destruct (bytes_eqb_spec core []); [done|].
  assert (Hpre : HasPrefix (core ++ star) (bs ".") = false).
  { apply not_true_iff_false. intros [t Ht]%HasPrefix_spec. injection Ht as -> _. done. }
  assert (Hsuf : HasSuffix core (bs ".") = false).
  { apply not_true_iff_false. intros [t Ht]%HasSuffix_spec. change (bs ".") with ["."%char] in Ht.
    rewrite Ht, List.last_last in Hl. done. }
  assert (Hany : ContainsAny core (bs "/:@?#*_%\") = false).
  { apply not_true_iff_false. unfold ContainsAny. intros (x & Hx & Hxc)%existsb_exists. apply list_elem_of_In in Hx.
    apply (Hnot x); [|done]. change (bs "/:@?#*_%\,") with (bs "/:@?#*_%\" ++ bs ","). unfold Contains in *.
    by rewrite existsb_app, Hxc. }
  rewrite Hpre, Hsuf, Hany. cbn [negb andb orb]. destruct Hstar as [->| ->].
  - replace (Contains (core ++ []) "*") with false; [done|]. symmetry. apply not_true_iff_false. rewrite Contains_spec, app_nil_r.
    by apply Hnot.
  - by destruct (bytes_eqb_spec (core ++ bs ".*") (core ++ bs ".*")); [rewrite andb_false_r|].
Qed.
