(* ===== verification/ControlSystem.v ===== *)
(** * The control API over the control store

    The commander of the deployed service is the control store. The reply to
    an authorized request tells what was committed, and a failure has one of
    the listed causes. *)

From S2P Require Import Prelude GoText GoUrl GoErrors GoNetip GoJson Retry Origin Netguard.
From S2P Require Import RobotsMatch RobotsPolicy RobotsPolicyFacts RobotsHTTP Declaration Verifier.
From S2P Require Import Discovery Crawler Store Queue Exclusions DiscoveryStore.
From S2P Require Import ControlStore ControlFacts GoMux Control ControlText ControlAPI.

#[local] Set Warnings "-clear-no-such-hyp".

Section StoreControl.
Context `{NetURL} `{NetIP} `{IDNA} `{Unicode} {Laws : UnicodeLaws} `{OperatorLibrary} {W : Type}.
Variable text_leb : bytes -> bytes -> bool.
Variable excludedHosts : bytes.
Variable db : W -> Database.
Variable set_db : W -> Database -> W.
(** The clocks of the handler and of the store. *)
Variables now store_now : W -> Z.
Variable before : W -> W * option error.
Hypothesis db_set : forall w d, db (set_db w d) = d.

(** The store's method for an action. *)
Definition store_action (act : action) (d : Database) (a : Audit) (t : Z) : Database * option error :=
  match act with
  | act_processor name paused => SetProcessorPaused d name paused a t
  | act_expansion paused => SetAutomaticExpansionPaused d paused a t
  | act_add pattern => AddDomainAvoid text_leb excludedHosts d pattern a
  | act_remove pattern => RemoveDomainAvoid text_leb excludedHosts d pattern a
  | act_origin o blocked => SetOriginBlocked text_leb excludedHosts d o blocked a
  | act_reject => RecordRejected d a
  end.

Definition store_call (act : action) (ctx : Ctx W) (w : W) (a : Audit) : W * option error :=
  execute set_db before Some ctx w (fun w => store_action act (db w) a (store_now w)).

(** [store.ControlStore] *)
Definition control_store : Commander W := {|
  command_SetProcessorPaused ctx w '(name, paused, a) := store_call (act_processor name paused) ctx w a;
  command_SetAutomaticExpansionPaused ctx w '(paused, a) := store_call (act_expansion paused) ctx w a;
  command_AddDomainAvoid ctx w '(pattern, a) := store_call (act_add pattern) ctx w a;
  command_RemoveDomainAvoid ctx w '(pattern, a) := store_call (act_remove pattern) ctx w a;
  command_SetOriginBlocked ctx w '(o, blocked, a) := store_call (act_origin o blocked) ctx w a;
  command_RecordRejected ctx w a := store_call act_reject ctx w a;
|}.

Lemma run_action_store ctx act w a : run_action (Cm := control_store) ctx act w a = store_call act ctx w a.
Proof. by destruct act. Qed.

(** ** What the store does for an action *)

Definition set_expansion (paused : bool) (t : Z) (d : Database) : Database :=
  with_crawl d (fun c => set_control (discovery_paused c) paused (pg_time t) c).

(** The change an action makes. *)
Definition action_effect (act : action) (t : Z) (d : Database) : Database :=
  match act with
  | act_processor name paused => set_processor_paused (bytes_eqb name (bs "discovery")) paused t d
  | act_expansion paused => set_expansion paused t d
  | act_add pattern => set_rules text_leb excludedHosts (fun rules => {[ pattern ]} ∪ rules) d
  | act_remove pattern => set_rules text_leb excludedHosts (fun rules => rules ∖ {[ pattern ]}) d
  | act_origin o blocked =>
      match Origin.Parse o with
      | Ok source => setExactCrawlBlockTransaction text_leb (control_config excludedHosts) d source blocked
      | Err _ => d
      end
  | act_reject => d
  end.

(** The change and the audit, in one transaction. *)
Definition committed (act : action) (a : Audit) (t : Z) (d d' : Database) : Prop :=
  d' = with_crawl (action_effect act t d) (fun c => set_audits (audits c ++ [stored_audit a]) c).

(** An origin as the store writes it. *)
Definition canonical (o : bytes) : Prop := exists source, Origin.Parse o = Ok source /\ origin_String source = o.

Lemma mutate_cases d a mutation : audit_Result a = ResultSuccess ->
  ControlStore.mutate d a mutation =
    if audit_ok a then (with_crawl (mutation d) (fun c => set_audits (audits c ++ [stored_audit a]) c), None)
    else (d, Some (wrap (errors_New (foreign 6)))).
Proof.
  intros Hr. unfold ControlStore.mutate. rewrite Hr. change (bytes_eqb ResultSuccess ResultSuccess) with true. cbn [negb].
  unfold insertControlAudit. by destruct (audit_ok a).
Qed.

(** Why the store refuses an action: the audit is not storable, its target was
    cut, or the origin is not canonical. *)
Definition refused_by_store (act : action) (a : Audit) : Prop :=
  audit_ok a = false \/ audit_Target a <> action_target act \/ exists o b, act = act_origin o b /\ ~ canonical o.

Definition settles (act : action) (a : Audit) (t : Z) (d : Database) (outcome : Database * option error) : Prop :=
  match outcome with
  | (d', None) => committed act a t d d'
  | (d', Some _) => d' = d /\ refused_by_store act a
  end.

Lemma mutate_settles act a t d mutation :
  audit_Result a = ResultSuccess -> mutation d = action_effect act t d -> settles act a t d (ControlStore.mutate d a mutation).
Proof.
  intros Hr Hm. rewrite mutate_cases by done. destruct (audit_ok a) eqn:Hok; [by unfold settles, committed; rewrite Hm|].
  split; [done|by left].
Qed.

(** A matching audit, or one whose target was cut. *)
Lemma audit_matches_cases act a target : audits_action act a -> target = action_target act ->
  if controlAuditMatches a (action_name act) target then True else audit_Target a <> action_target act.
Proof.
  intros [Ha _] ->. unfold controlAuditMatches. rewrite Ha. destruct (bytes_eqb_spec (action_name act) (action_name act)); [|done].
  by destruct (bytes_eqb_spec (audit_Target a) (action_target act)).
Qed.

(** A refused action changes nothing; an accepted one is committed. *)
Lemma store_action_settles act d a t :
  action_valid act -> audits_action act a -> audit_Result a = ResultSuccess ->
  settles act a t d (store_action act d a t).
Proof.
  intros Hv Ha Hr. assert (Hcut : forall e, audit_Target a <> action_target act -> settles act a t d (d, Some e)).
  { intros e Hne. split; [done|]. right. by left. }
  destruct act as [name paused|paused|pattern|pattern|o blocked|]; cbn [store_action]; [..|done].
  - pose proof (audit_matches_cases _ _ name Ha eq_refl) as Hm. unfold SetProcessorPaused. cbv zeta.
    replace (negb _ && negb _) with false by (by destruct Hv as [->| ->]).
    replace (if paused then bs "processor.pause" else _) with (action_name (act_processor name paused)) by (by destruct paused).
    destruct (controlAuditMatches _ _ _); [by apply mutate_settles|by apply Hcut].
  - pose proof (audit_matches_cases _ _ (bs "automatic-expansion") Ha eq_refl) as Hm. unfold SetAutomaticExpansionPaused.
    replace (if paused then bs "automatic-expansion.pause" else _) with (action_name (act_expansion paused)) by (by destruct paused).
    destruct (controlAuditMatches _ _ _); [by apply mutate_settles|by apply Hcut].
  - pose proof (audit_matches_cases _ _ pattern Ha eq_refl) as Hm. unfold AddDomainAvoid. rewrite pattern_rule by done.
    cbn [action_name] in Hm. destruct (controlAuditMatches _ _ _); [by apply mutate_settles|by apply Hcut].
  - pose proof (audit_matches_cases _ _ pattern Ha eq_refl) as Hm. unfold RemoveDomainAvoid. rewrite pattern_rule by done.
    cbn [action_name] in Hm. destruct (controlAuditMatches _ _ _); [by apply mutate_settles|by apply Hcut].
  - pose proof (audit_matches_cases _ _ o Ha eq_refl) as Hm. unfold SetOriginBlocked.
    assert (Hn : forall e, ~ canonical o -> settles (act_origin o blocked) a t d (d, Some e)).
    { intros e Hn. split; [done|]. right. right. by exists o, blocked. }
    destruct (Origin.Parse o) as [source|e] eqn:Hp.
    2:{ apply Hn. intros (x & Hx & _). congruence. }
    destruct (bytes_eqb_spec (origin_String source) o) as [Heq|Hne]; cbn [negb].
    2:{ apply Hn. intros (x & Hx & Heq). congruence. }
    replace (if blocked then bs "origin.block" else _) with (action_name (act_origin o blocked)) by (by destruct blocked).
    destruct (controlAuditMatches _ _ _); [|by apply Hcut]. apply mutate_settles; [done|]. cbn [action_effect]. by rewrite Hp.
Qed.

Lemma store_reject_settles d a t : audit_Result a = ResultRejected ->
  match store_action act_reject d a t with
  | (d', None) => committed act_reject a t d d'
  | (d', Some _) => d' = d /\ audit_ok a = false
  end.
Proof.
  intros Hr. cbn [store_action]. unfold RecordRejected, insertControlAudit. rewrite Hr.
  change (bytes_eqb ResultRejected ResultRejected) with true. cbn [negb]. by destruct (audit_ok a).
Qed.

(** ** Calls *)

(** A call of the store that did not commit: the context had ended, the driver
    failed, or the store refused. *)
Inductive not_committed (ctx : Ctx W) (refusal : Prop) (w w' : W) : Prop :=
| call_ended e : ctx w = Some e -> w' = w -> not_committed ctx refusal w w'
| call_failed e : before w = (w', Some e) -> not_committed ctx refusal w w'
| call_refused w1 : before w = (w1, None) -> w' = set_db w1 (db w1) -> refusal -> not_committed ctx refusal w w'.

Lemma store_call_mutation ctx act w a w' e : action_valid act -> audits_action act a -> audit_Result a = ResultSuccess ->
  store_call act ctx w a = (w', e) ->
  match e with
  | None => exists w1, before w = (w1, None) /\ committed act a (store_now w1) (db w1) (db w')
  | Some _ => not_committed ctx (refused_by_store act a) w w'
  end.
Proof using db_set Laws.
  intros Hv Ha Hr. unfold store_call, execute. destruct (ctx w) as [err|] eqn:Hc; [intros [= <- <-]; by eapply call_ended|].
  destruct (before w) as [w1 [err|]] eqn:Hb; [intros [= <- <-]; by eapply call_failed|].
  pose proof (store_action_settles act (db w1) a (store_now w1) Hv Ha Hr) as Hs.
  destruct (store_action _ _ _ _) as [d [err|]]; intros [= <- <-].
  - destruct Hs as [-> Hs]. by eapply call_refused.
  - exists w1. by rewrite db_set.
Qed.

Lemma store_call_reject ctx w a w' e : audit_Result a = ResultRejected -> store_call act_reject ctx w a = (w', e) ->
  match e with
  | None => exists w1, before w = (w1, None) /\ committed act_reject a (store_now w1) (db w1) (db w')
  | Some _ => not_committed ctx (audit_ok a = false) w w'
  end.
Proof using db_set.
  intros Hr. unfold store_call, execute. destruct (ctx w) as [err|] eqn:Hc; [intros [= <- <-]; by eapply call_ended|].
  destruct (before w) as [w1 [err|]] eqn:Hb; [intros [= <- <-]; by eapply call_failed|].
  pose proof (store_reject_settles (db w1) a (store_now w1) Hr) as Hs.
  destruct (store_action _ _ _ _) as [d [err|]]; intros [= <- <-].
  - destruct Hs as [-> Hs]. by eapply call_refused.
  - exists w1. by rewrite db_set.
Qed.

(** ** Requests *)

(** A rejection was appended to the audit log, and nothing else changed. *)
Definition rejection_recorded (a : Audit) (w w' : W) : Prop :=
  exists w1, before w = (w1, None) /\ committed act_reject a (store_now w1) (db w1) (db w').

(** What a reply to an authorized request to a control path says about the
    database. *)
Inductive replied (ctx : Ctx W) (r : ControlRequest) (w w' : W) : response -> Prop :=
| replied_mutation act a w1 :
    requested r act -> action_valid act -> audits_action act a -> audit_of r (now w) a ->
    before w = (w1, None) -> committed act a (store_now w1) (db w1) (db w') -> replied ctx r w w' StatusOK
| replied_rejection a status reason :
    audit_of r (now w) a -> audit_Result a = ResultRejected -> (status, reason) ∈ refusals ->
    rejection_recorded a w w' -> replied ctx r w w' (ErrorReply status reason)
| replied_unrecorded a :
    audit_of r (now w) a -> not_committed ctx (audit_ok a = false) w w' -> replied ctx r w w' internal_error
| replied_failed act a w1 :
    requested r act -> audits_action act a -> not_committed ctx (refused_by_store act a) w w1 ->
    rejection_recorded (set_result a ResultRejected) w1 w'
    \/ not_committed ctx (audit_ok (set_result a ResultRejected) = false) w1 w' -> replied ctx r w w' internal_error.

Lemma answered_replied ctx r w w' log reply :
  answered (Cm := control_store) now ctx r w w' log reply -> replied ctx r w w' reply.
Proof using db_set Laws.
  intros Ha. destruct Ha as [act a w' Hreq Hv Hact Ha Hr Hrun|act a w1 e w' e' Hreq Hv Hact Ha Hr Hrun Hrej
    |a w' status reason Ha Hr Hin Hrun|a w' e Ha Hr Hrun]; rewrite run_action_store in Hrun.
  - apply store_call_mutation in Hrun as (w1 & Hb & Hc); [|done..]. by eapply replied_mutation.
  - apply store_call_mutation in Hrun; [|done..]. rewrite run_action_store in Hrej. apply store_call_reject in Hrej; [|done].
    eapply replied_failed; try done. destruct e'; [by right|by left].
  - apply store_call_reject in Hrun; [|done]. by eapply replied_rejection.
  - apply store_call_reject in Hrun; [|done]. by eapply replied_unrecorded.
Qed.

(** C14: The reply of the control API is the truth about the database. For an
    authorized request to a control path: 200 means that exactly the change the
    request asks for and its success audit were committed in one transaction;
    a 4xx reply means that exactly a rejection was appended to the audit log;
    and with 500 the requested change was not committed, because the request's
    context had ended, the driver failed, or the store refused it: an audit
    text that cannot be stored, a target longer than the limit, or an origin
    that is not canonical. In particular the store accepts every domain pattern
    that the API accepts. *)
Theorem control_api_commits token ctx r w w' log reply :
  serve (Cm := traced_commander (Cm := control_store)) (traced_now now) (ctx_lift ctx) (expectedAuthorizationHash token) r
    (w, []) = ((w', log), reply) ->
  authorized token r -> control_path (req_EscapedPath r) -> replied ctx r w w' reply.
Proof using db_set Laws.
  intros Hs Hauth Hpath. apply serve_served in Hs. eapply answered_replied. by eapply served_control.
Qed.
End StoreControl.

Module ControlWitnesses.
Import Concrete.
#[local] Instance unicode : Unicode := {| ToLower := map to_lower |}.
#[local] Instance unicode_laws : UnicodeLaws.
Proof. by split. Qed.
(** A stand-in for the library: bodies decode to absent fields. *)
#[local] Instance library : OperatorLibrary := {|
  Sum256 := id;
  ParseMediaType := Some;
  json_Decode fields _ _ := Ok (map (fun _ => []) fields, []);
  json_Skip _ _ := Some DecodeEOF;
|}.

Definition text_leb (a b : bytes) : bool := match bytes_compare a b with Gt => false | _ => true end.
Definition token : bytes := bs "0123456789abcdef0123456789abcdef".
Definition clock (d : Database) : Z := Hour.
Definition replace (w d : Database) : Database := d.
Definition ready (w : Database) : Database * option error := (w, None).
Definition never {W} (w : W) : option error := None.

Definition request (method path : bytes) : ControlRequest :=
  mkControlRequest method path (bs "Bearer " ++ token) [] 0 (bs "127.0.0.1:9999") [] EndOfBody.
Definition pause : ControlRequest := request POST (bs "/api/v1/control/processors/discovery/pause").

Abbreviation store := (control_store text_leb [] id replace clock ready) (only parsing).
Definition run (r : ControlRequest) :=
  serve (Cm := traced_commander (Cm := store)) (traced_now clock) (ctx_lift never) (expectedAuthorizationHash token) r
    (empty_database, []).
Definition paused_world : Database := fst (fst (run pause)).
Definition paused_log : list (control_event Database) := snd (fst (run pause)).

Lemma run_pause : run pause = ((paused_world, paused_log), StatusOK).
Proof. vm_cast_no_check (eq_refl ((paused_world, paused_log), StatusOK)). Qed.
Lemma pause_path : control_path (req_EscapedPath pause).
Proof. split_and!; [done|by vm_compute|]. eexists _, _. by vm_compute. Qed.

Lemma control_api_correct_witness :
  authorized token pause /\ exists w', answered (Cm := store) clock never pause empty_database w' paused_log StatusOK.
Proof.
  assert (Ha : authorized token pause) by reflexivity. split; [exact Ha|]. pose proof run_pause as Hr. unfold run in Hr.
  pose proof (control_api_correct (Cm := store) clock never token pause empty_database paused_world paused_log StatusOK Hr) as Hs.
  exists paused_world. exact (served_control _ _ _ _ _ _ _ _ Hs Ha pause_path).
Defined.

Lemma control_api_commits_witness :
  token_Valid token = true
  /\ replied text_leb [] id replace clock clock ready never pause empty_database paused_world StatusOK.
Proof.
  split; [by vm_compute|]. pose proof run_pause as Hr. unfold run in Hr.
  exact (control_api_commits text_leb [] id replace clock clock ready (fun _ _ => eq_refl) token never pause empty_database
    paused_world paused_log StatusOK Hr eq_refl pause_path).
Defined.

(** An authorized request that leaves no audit: the audit texts come from the
    path, which may hold bytes the database does not store. *)
Definition unstorable : ControlRequest := request POST (bs "/api/v1/control/processors/%ff/pause").

Lemma unstorable_path_unaudited :
  authorized token unstorable /\ snd (run unstorable) = internal_error
  /\ audits (crawl (fst (fst (run unstorable)))) = [].
Proof. split_and!; vm_compute; reflexivity. Qed.
End ControlWitnesses.
