(* ===== verification/Scenario.v ===== *)
(** * A crawl from seed to promotion

    One concrete history of the store: an operator seeds a source, a runner
    claims it, records a link it found, resolves the candidate and promotes
    it. The theorems about the discovery store are applied to it. *)

From S2P Require Import Prelude GoText GoUrl GoErrors GoNetip GoJson Retry Origin Netguard.
From S2P Require Import RobotsMatch RobotsPolicy RobotsPolicyFacts RobotsHTTP Declaration Verifier.
From S2P Require Import Discovery Crawler Store Queue QueueFacts Exclusions DiscoveryStore.
From S2P Require Import Admission DiscoveryLease CrawlTelemetry ControlStore ControlFacts.
From S2P Require Import DiscoverySchema AdmissionSchema Provenance DiscoverySystem CrawlRunner CandidateSink.

Module Scenario.
Import Concrete.
#[export] Instance unicode : Unicode := {| ToLower := map to_lower |}.
#[export] Instance unicode_laws : UnicodeLaws.
Proof. by split. Qed.

Definition text_leb : bytes -> bytes -> bool := QueueWitnesses.text_leb.
Definition sql_lower : bytes -> bytes := map to_lower.
Definition config : AutomaticCrawlConfig := mkAutomatic true 10 5 (bs "blogspot.*").
Definition queueConfig : QueueConfig := mkQueueConfig Minute (30 * Second) 0.
Definition delay (failures retryAfter : Z) : Z := Hour.
Definition crawlConfig : CrawlConfig := mkCrawlConfig 2 10 1000 0 5 Second 5.

Definition seed : Origin := mkOrigin (bs "https://example.org") (bs "example.org") 443.
Definition linked : Origin := mkOrigin (bs "https://example.net") (bs "example.net") 443.
Definition owner : bytes := bs "runner-1".
Definition t0 : Z := 1000 * Second.

Abbreviation step_to := (store_step text_leb sql_lower id config queueConfig [] delay) (only parsing).

(** The history. *)
Definition db1 : Database := fst (AddCrawlSeed empty_database seed).
Definition claim1 := ClaimDiscoverySourceLease text_leb id config (fun _ => false) db1 owner Hour Minute t0.
Definition db2 : Database := fst claim1.
Definition lease1 : CrawlSourceLease := mkSourceLease seed 1 t0 (t0 + Minute).
Definition db3 : Database := fst (BeginCrawl config db2 seed crawlConfig t0).
Definition db4 : Database :=
  fst (RecordDiscoveryForRun text_leb config db3 1 seed [mkCandidate linked KindLink] (t0 + Second) (t0 + Second)).
Definition db5 : Database := fst (PendingAutomaticCandidates text_leb sql_lower config db4 1 (t0 + 2 * Second) (t0 + 2 * Second)).
Definition decisions : list AutomaticCandidateResult := [mkAutomaticResult (mkCandidate linked KindLink) CategoryNone].
Definition complete5 := CompleteAutomaticCandidates text_leb config delay db5 1 decisions (t0 + 3 * Second) (t0 + 3 * Second).
Definition db6 : Database := fst complete5.
Definition release6 := CompleteDiscoverySourceLeaseRetry delay db6 lease1 CategoryNone 0 (t0 + 4 * Second).

Lemma claim1_eq : claim1 = (db2, Ok (Some lease1)).
Proof. unfold db2. apply pair_snd. vm_cast_no_check (@eq_refl (res error (option CrawlSourceLease)) (Ok (Some lease1))). Qed.
Lemma complete5_eq : complete5 = (db6, None).
Proof. unfold db6. apply pair_snd. vm_cast_no_check (@eq_refl (option error) None). Qed.

Definition zero_run : RunRow := new_run config (origin_String seed) crawlConfig t0.
Definition run5 : RunRow := default zero_run (runs (crawl db5) !! 1).
Lemma run5_eq : runs (crawl db5) !! 1 = Some run5.
Proof. unfold run5. apply some_default. vm_cast_no_check (eq_refl true). Qed.
Lemma run5_active : run_finished_at run5 = None.
Proof. vm_cast_no_check (@eq_refl (option Z) None). Qed.
Lemma linked_pending : origin_String linked ∈ pending_keys db5 1.
Proof. apply (bool_decide_unpack _). vm_cast_no_check I. Qed.
Lemma linked_promoted : outcome_at 1 db6 (origin_String linked) = Some promoted.
Proof. vm_cast_no_check (eq_refl (Some promoted)). Qed.

(** ** Admission *)

Lemma CompleteAutomaticCandidates_correct_witness :
  complete5 = (db6, None) /\ origin_String linked ∈ source_schedule db6.
Proof.
  split; [exact complete5_eq|].
  pose proof (CompleteAutomaticCandidates_correct text_leb config delay db5 1 decisions (t0 + 3 * Second) (t0 + 3 * Second) run5
    eq_refl run5_eq run5_active) as Hc.
  fold complete5 in Hc. rewrite complete5_eq in Hc.
  exact (proj1 (app_promoted _ _ _ _ _ _ _ _ Hc _ linked_pending linked_promoted)).
Defined.

(** ** Leases *)

Lemma ClaimDiscoverySourceLease_correct_witness :
  claim1 = (db2, Ok (Some lease1))
  /\ exists key, source_lease_Generation lease1 = source_generation (source_of db1 key) + 1
       /\ Origin.Parse key = Ok (source_lease_Origin lease1).
Proof.
  split; [exact claim1_eq|].
  pose proof (ClaimDiscoverySourceLease_correct text_leb id config (fun _ => false) QueueWitnesses.text_leb_total
    QueueWitnesses.text_leb_trans db1 owner Hour Minute t0 eq_refl eq_refl eq_refl eq_refl) as Hc.
  fold claim1 in Hc. rewrite claim1_eq in Hc. destruct Hc as (key & _ & _ & Hp & Hg & _). exists key. split; assumption.
Defined.

(** A lease of another generation. *)
Definition stale : CrawlSourceLease := mkSourceLease seed 7 t0 (t0 + Minute).
Definition source2 : SourceState := default new_source (source_state db2 !! origin_String seed).
Lemma source2_eq : source_state db2 !! origin_String seed = Some source2.
Proof. unfold source2. apply some_default. vm_cast_no_check (eq_refl true). Qed.
Lemma source2_generation : source_generation source2 = 1.
Proof. vm_cast_no_check (@eq_refl Z 1). Qed.

Lemma source_lease_fencing_witness :
  RenewDiscoverySourceLease db2 stale Minute (t0 + Second) = (db2, Err (errors_New ErrDiscoverySourceLeaseLost)).
Proof.
  destruct (source_lease_fencing delay db2 stale (t0 + Second) eq_refl) as [Hf _].
  apply (Hf Minute eq_refl). intros (s & expires & Hs & Hg & _). change (source_state db2 !! origin_String seed = Some s) in Hs.
  rewrite source2_eq in Hs. apply (inj Some) in Hs. rewrite <- Hs in Hg.
  rewrite source2_generation in Hg. discriminate Hg.
Defined.

(** ** The system *)

Lemma seed_parsed : Origin.Parse (bs "https://example.org") = Ok seed.
Proof. vm_cast_no_check (@eq_refl (res parse_error Origin) (Ok seed)). Qed.
Lemma linked_parsed : Origin.Parse (bs "https://example.net") = Ok linked.
Proof. vm_cast_no_check (@eq_refl (res parse_error Origin) (Ok linked)). Qed.

Lemma reach1 : rtc step_to empty_database db1.
Proof. apply rtc_once. exact (s_add_seed _ _ _ _ _ _ _ _ seed). Qed.
Lemma reach3 : rtc step_to db2 db3.
Proof. apply rtc_once. exact (s_begin _ _ _ _ _ _ _ _ seed crawlConfig t0). Qed.
Lemma reach6 : rtc step_to empty_database db6.
Proof.
  etransitivity; [exact reach1|].
  eapply rtc_l; [exact (s_claim_source _ _ _ _ _ _ _ _ (fun _ => false) owner Hour Minute t0)|].
  etransitivity; [exact reach3|].
  eapply rtc_l; [apply (s_record_run _ _ _ _ _ _ _ _ 1 seed [mkCandidate linked KindLink] (t0 + Second) (t0 + Second))|].
  { by eexists; apply seed_parsed. }
  { repeat constructor. by eexists; apply linked_parsed. }
  eapply rtc_l; [exact (s_pending_candidates _ _ _ _ _ _ _ _ 1 (t0 + 2 * Second) (t0 + 2 * Second))|].
  apply rtc_once. exact (s_complete_candidates _ _ _ _ _ _ _ _ 1 decisions (t0 + 3 * Second) (t0 + 3 * Second)).
Qed.

Lemma schema_invariant_witness : schema db6.
Proof.
  exact (schema_invariant text_leb sql_lower id config queueConfig [] delay eq_refl eq_refl eq_refl (fun _ _ => eq_refl)
    db6 reach6).
Defined.

Lemma crawl_provenance_witness : exists key, Origin.Parse key = Ok seed /\ sanctioned db1 key.
Proof.
  destruct (crawl_provenance text_leb sql_lower id config queueConfig [] delay eq_refl eq_refl eq_refl (fun _ _ => eq_refl)
    db1 reach1) as [_ Hc].
  destruct (Hc (fun _ => false) owner Hour Minute t0 db2 lease1 claim1_eq) as (key & Hp & Hs & _).
  exists key. split; [exact Hp|exact Hs].
Defined.

(** The first lease expired without a completion, and the source is claimed
    again. *)
Definition claim2 := ClaimDiscoverySourceLease text_leb id config (fun _ => false) db3 (bs "runner-2") Hour Minute (t0 + 2 * Hour).
Definition db7 : Database := fst claim2.
Definition lease2 : CrawlSourceLease := mkSourceLease seed 2 (t0 + 2 * Hour) (t0 + 2 * Hour + Minute).
Lemma claim2_eq : claim2 = (db7, Ok (Some lease2)).
Proof. unfold db7. apply pair_snd. vm_cast_no_check (@eq_refl (res error (option CrawlSourceLease)) (Ok (Some lease2))). Qed.

Lemma canonical_seed (d : Database) : source_schedule d = {[ bs "https://example.org" ]} -> canonical_schedule d.
Proof.
  intros Hd key o. rewrite Hd, elem_of_singleton. intros ->. rewrite seed_parsed. by intros <-%(inj Ok).
Qed.
Lemma schedule1 : source_schedule db1 = {[ bs "https://example.org" ]}.
Proof. vm_cast_no_check (@eq_refl (gset bytes) {[ bs "https://example.org" ]}). Qed.
Lemma schedule3 : source_schedule db3 = {[ bs "https://example.org" ]}.
Proof. vm_cast_no_check (@eq_refl (gset bytes) {[ bs "https://example.org" ]}). Qed.

Lemma source_lease_exclusive_witness :
  ~ source_authority db3 lease1 (t0 + 2 * Hour) /\ forall t, ~ source_authority db7 lease1 t.
Proof.
  destruct (source_lease_exclusive text_leb sql_lower id config queueConfig [] delay eq_refl eq_refl eq_refl (fun _ _ => eq_refl)
    db1 db2 db3 db7 db7 (fun _ => false) (fun _ => false) owner (bs "runner-2") Hour Hour Minute Minute t0 (t0 + 2 * Hour)
    lease1 lease2 reach1 claim1_eq reach3 claim2_eq (rtc_refl _ _) (canonical_seed _ schedule1) (canonical_seed _ schedule3)
    eq_refl) as (Hn & _ & Hlater).
  split; [exact Hn|exact Hlater].
Defined.

(** ** Operators and retention *)

Definition audit : Audit :=
  mkAudit t0 (bs "domain-avoid.add") (bs "example.net") (bs "127.0.0.1") (bs "operator-api") ResultSuccess [].

Lemma operator_control_correct_witness :
  domain_rule (bs "example.net") = Some (bs "example.net")
  /\ audited_or_refused audit (bs "domain-avoid.add") (bs "example.net") db6
       (set_rules text_leb [] (fun r : gset bytes => {[ bs "example.net" ]} ∪ r))
       (AddDomainAvoid text_leb [] db6 (bs "example.net") audit).
Proof.
  assert (Hr : domain_rule (bs "example.net") = Some (bs "example.net")) by (vm_cast_no_check (eq_refl (Some (bs "example.net")))).
  split; [exact Hr|].
  exact (proj1 (proj1 (proj2 (proj2 (operator_control_correct text_leb [] db6 audit))) (bs "example.net") (bs "example.net") Hr)).
Defined.

Definition db8 : Database := fst (RecordVerification db6 t0 (outcome_result seed OutcomeAbsent)).
Definition row8 : ObservationRow := mkObservation (origin_String seed) t0 OutcomeAbsent None.
Lemma observations8 : observations db8 = [row8].
Proof. vm_cast_no_check (eq_refl [row8]). Qed.
Lemma known8 : is_Some (origins db8 !! origin_String seed).
Proof. apply (bool_decide_unpack _). vm_cast_no_check I. Qed.

Lemma PurgeOperationalHistory_preserves_witness :
  observations db8 = [row8]
  /\ exists db', PurgeOperationalHistory id db8 Hour (t0 + 3 * Hour) = (db', None)
       /\ query_OriginState db' seed = query_OriginState db8 seed.
Proof.
  split; [exact observations8|].
  assert (Hk : observed_known db8).
  { intros row Hin. rewrite observations8 in Hin. apply list_elem_of_singleton in Hin as ->. exact known8. }
  destruct (PurgeOperationalHistory_preserves id db8 Hour (t0 + 3 * Hour) Hk eq_refl) as (db' & Hrun & Hq & _).
  exists db'. split; [exact Hrun|exact (Hq seed)].
Defined.

(** ** The runner *)

(** The environment: the database and the clock; a crawl takes two moves, and
    a second passes elsewhere. *)
Definition world : Type := Database * Z.
Definition set_db (w : world) (d : Database) : world := (d, snd w).
Definition ready (w : world) : world * option error := (w, None).
Definition never {W} (w : W) : option error := None.
Definition page_result : CrawlResult := mkCrawlResult seed 1 1 1 false CategoryNone 0.
#[export] Instance crawler : SourceCrawler world := {|
  crawling := nat;
  crawler_start _ := 1%nat;
  crawler_move _ w c := match c with O => (w, inr (page_result, None)) | S c => (w, inl c) end;
|}.
#[export] Instance clockwork : Elsewhere world := {| event := unit; elsewhere _ w := (fst w, snd w + Second) |}.

Definition runner : CrawlRunnerConfig := mkRunnerConfig Hour Minute Minute.
Definition store : CrawlSourceStore world :=
  discovery_source_store text_leb id config delay owner fst set_db snd snd (fun _ _ => false) ready.
Definition observe (w : world) (_ : bytes * Origin * bytes) : world := w.

Abbreviation traced := (world * list (store_call world))%type.
Definition turns : list (@turn traced traced_elsewhere) :=
  [@CrawlerMoves traced traced_elsewhere; @ElsewhereMoves traced traced_elsewhere tt; TimerFires; CrawlerMoves; ContextDone].
Definition pass := RunOnce (W := world * list (store_call world)) (St := @traced_store world store) (Cr := traced_crawler)
  (El := traced_elsewhere) runner (traced_observe observe)
  turns (Some never) ((db1, t0), []).

Definition pass_end : traced * (CrawlReport * option error) := default (((db1, t0), []), (zero_report, None)) pass.
Definition pass_world : world := fst (fst pass_end).
Definition pass_log : list (store_call world) := snd (fst pass_end).
Definition pass_report : CrawlReport := fst (snd pass_end).
Definition renewed1 : CrawlSourceLease := mkSourceLease seed 1 t0 (t0 + Second + Minute).

Lemma result_shape {A B C E} (d : (A * B) * (C * option E)) (x : option ((A * B) * (C * option E))) :
  bool_decide (is_Some x) = true -> snd (snd (default d x)) = None ->
  x = Some ((fst (fst (default d x)), snd (fst (default d x))), (fst (snd (default d x)), None)).
Proof. intros Hx%(some_default d). rewrite Hx. cbn. destruct (default d x) as [[a b] [c e]]. cbn. by intros ->. Qed.

Lemma pass_eq : pass = Some ((pass_world, pass_log), (pass_report, None)).
Proof.
  unfold pass_world, pass_log, pass_report, pass_end.
  apply result_shape; [vm_cast_no_check (eq_refl true)|vm_cast_no_check (@eq_refl (option error) None)].
Qed.
Lemma pass_claimed : pass_log = called_claim (Ok (Some lease1)) :: tail pass_log.
Proof. apply head_tail. vm_cast_no_check (@eq_refl (option (store_call world)) (Some (called_claim (Ok (Some lease1))))). Qed.
Lemma pass_worked : Worked pass_report = true.
Proof. vm_cast_no_check (eq_refl true). Qed.

Definition moves_left (c : @crawling world crawler) : nat := c.
Lemma crawls_end : crawl_ends (W := world) (Cr := crawler) moves_left.
Proof. intros ctx w [|c] w' c' [=]; subst. unfold moves_left. apply Nat.lt_succ_diag_r. Qed.
Lemma turns_fair : fair (W := world) (El := clockwork) 2 turns.
Proof. exists (take 4 turns), []. split; [reflexivity|cbn; lia]. Qed.

Lemma crawl_pass_correct_witness :
  (pass_log = called_claim (Ok (Some lease1)) :: tail pass_log
   /\ exists evs rest current, tail pass_log = evs ++ rest
      /\ settled_source (St := store) lease1 current evs rest pass_report None)
  /\ is_Some pass.
Proof.
  destruct (crawl_pass_correct (St := store) (Laws := discovery_source_store_laws _ _ _ _ _ _ _ _ _ _ _)
    runner observe turns never (db1, t0)) as [Hcalls Hreturns].
  split.
  - split; [exact pass_claimed|].
    destruct (proj2 (Hcalls pass_world pass_log pass_report None pass_eq) lease1 (tail pass_log) pass_claimed)
      as (evs & rest & current & He & _ & _ & Hs).
    exists evs, rest, current. split; [exact He|exact Hs].
  - exact (Hreturns moves_left 2%nat crawls_end (fun _ => Nat.lt_succ_diag_r 1) turns_fair).
Defined.

Definition no_wait (ctx : Ctx world) : call world Z (option error) := fun w _ => (w, None).

Lemma crawl_Run_correct_witness :
  validCrawlRunnerConfig runner = true
  /\ exists w' log e, Run (W := traced) (St := @traced_store world store) runner (traced_observe observe)
       (traced_waiter no_wait) [turns; turns] (Some never) ((db1, t0), []) = Some ((w', log), e)
     /\ (e = None -> claims log = 2%nat).
Proof.
  split; [reflexivity|].
  destruct (crawl_Run_correct (St := store) (Laws := discovery_source_store_laws _ _ _ _ _ _ _ _ _ _ _)
    runner observe no_wait moves_left 2 [turns; turns] never (db1, t0) eq_refl crawls_end (fun _ => Nat.lt_succ_diag_r 1)
    (Forall_cons_2 _ _ _ turns_fair (Forall_cons_2 _ _ _ turns_fair (Forall_nil_2 _))))
    as (w' & log & e & Hr & body & final & Hl & _ & He).
  exists w', log, e. split; [exact Hr|]. intros ->. destruct He as [Hf Hc]. rewrite Hl, Hf, app_nil_r. exact Hc.
Defined.

Lemma crawl_pass_commits_witness :
  Worked pass_report = true /\ exists current w1, same_source lease1 current /\ source_authority (fst w1) current (snd w1).
Proof.
  split; [exact pass_worked|].
  destruct (crawl_pass_commits text_leb id config delay owner fst set_db snd snd (fun _ _ => false) ready
    (fun _ _ => eq_refl) runner observe turns never (db1, t0) pass_world pass_log pass_report pass_eq pass_worked)
    as (l & current & evs & w0 & w1 & w2 & r & Hlog & Hsame & _ & _ & _ & Hauth & _).
  exists current, w1. split; [|exact Hauth]. rewrite pass_claimed in Hlog.
  assert (Hh : called_claim (W := world) (Ok (Some lease1)) = called_claim (Ok (Some l))) by (apply (inj Some); exact (f_equal head Hlog)).
  clear Hlog. injection Hh as Hh. rewrite Hh. exact Hsame.
Defined.

(** ** The candidate sink *)

Definition public_answer : list Addr := [Addr4 (quad 93 184 216 34)].
Definition lookup : option (call world bytes (res error (list Addr))) := Some (fun w _ => (w, Ok public_answer)).
Definition no_sleep (ctx : Ctx world) : call world Z (option error) := fun w _ => (w, None).

Definition finalization := FinalizeCandidates
  (St := quiet_store (discovery_candidate_store text_leb sql_lower config delay fst set_db snd snd ready))
  id (recorded <$> lookup) (quiet no_sleep) (ctx_lift never) ((db4, t0 + 2 * Second), []) 1.
Definition final_world : world := fst (fst finalization).
Definition final_log : answers := snd (fst finalization).
Lemma finalization_eq : finalization = ((final_world, final_log), None).
Proof.
  unfold final_world, final_log. rewrite <- surjective_pairing. apply pair_snd.
  vm_cast_no_check (@eq_refl (option error) None).
Qed.
Lemma final_scheduled : origin_String linked ∈ source_schedule (fst final_world).
Proof. apply (bool_decide_unpack _). vm_cast_no_check I. Qed.
Lemma final_log_eq : final_log = [(bs "example.net", Ok public_answer)].
Proof. vm_cast_no_check (@eq_refl answers [(bs "example.net", Ok public_answer)]). Qed.

Lemma finalize_admits_resolved_witness :
  final_log = [(bs "example.net", Ok public_answer)]
  /\ exists (w1 : world) (links : list Candidate), Z.of_nat (length final_log) <= MaxAttemptsPerCycle * Z.of_nat (length links)
       /\ (origin_String linked ∉ source_schedule (fst w1) ->
           exists o, Origin.Parse (origin_String linked) = Ok o /\ publicly_resolved final_log o).
Proof.
  split; [exact final_log_eq|].
  pose proof finalization_eq as Hf. unfold finalization in Hf.
  destruct (finalize_admits_resolved text_leb sql_lower config delay fst set_db snd snd ready (fun _ _ => eq_refl)
    id lookup no_sleep never 1 (db4, t0 + 2 * Second) final_world final_log eq_refl Hf)
    as (w1 & links & w2 & w3 & _ & Hlen & _ & _ & Hres).
  exists w3, links. split; [exact Hlen|]. intros Hn. apply Hres. right. split; [exact final_scheduled|exact Hn].
Defined.
End Scenario.
