(* ===== verification/PublicationScenario.v ===== *)
(** * A publication from the database to the branch

    One concrete history: an origin is verified, the registry is written to a
    directory and read back, and published to a small repository. *)

From S2P Require Import Prelude GoText GoUrl GoErrors GoNetip GoJson Retry Origin Netguard GoTime GoEncoding GoPath.
From S2P Require Import Declaration Verifier Store Queue QueueFacts DiscoveryStore Admission DiscoverySystem ControlStore ControlFacts.
From S2P Require Import Registry PublicData SnapshotFiles Disk DiskFacts.
From S2P Require Import GitHubPublish GitHubServer GitHubServerFacts Scenario.
From S2P Require Import RegistryExport DiskSound RegistryService PipelineFacts.

Module PublicationScenario.
Import Concrete Scenario.

(** ** The registry *)

Definition verdict : Verifier.Result := Verifier.mkResult OutcomeValid seed (mkDeclaration 1 IdentityAffirmed) CategoryNone 0.
Definition dbv : Database := fst (RecordVerification empty_database t0 verdict).
Lemma registry_readable : is_ok (RegistryOrigins text_leb dbv) = true.
Proof. vm_cast_no_check (eq_refl true). Qed.

Lemma registry_correct_witness :
  is_ok (RegistryOrigins text_leb dbv) = true
  /\ exists l, RegistryOrigins text_leb dbv = Ok l /\ Forall2 (fun p e => registered dbv (fst p) (snd p) e) (participants text_leb dbv) l.
Proof.
  split; [exact registry_readable|].
  destruct (registry_correct text_leb sql_lower id config queueConfig [] delay dbv (rtc_once _ _ (s_verification _ _ _ _ _ _ _ _ t0 verdict))) as [_ Hr].
  pose proof registry_readable as Hok. destruct (RegistryOrigins text_leb dbv) as [l|]; [|discriminate Hok]. exists l. split; [reflexivity|exact (proj1 Hr)].
Defined.

(** ** The snapshot *)

#[local] Instance sha256 : SHA256 := {| sha256_Sum256 s := take 32 (s ++ replicate 32 "0"%char) |}.
#[local] Instance sha256_laws : SHA256Laws.
Proof. split. intros s. unfold sha256_Sum256, sha256. rewrite length_take, length_app, length_replicate. lia. Qed.

Definition participant : RegistryOrigin :=
  mkRegistry seed t0 (mkDeclaration 1 IdentityAffirmed) t0 OutcomeValid (Some (mkDeclaration 1 IdentityAffirmed)).

Lemma snapshot_built : is_ok (BuildRegistry [participant]) = true.
Proof. vm_cast_no_check (eq_refl true). Qed.
Lemma participant_publishable : publishable participant.
Proof. by vm_compute. Qed.

Lemma BuildRegistry_correct_witness :
  is_ok (BuildRegistry [participant]) = true /\ read_node (file_Data (node_file participant)) = Some (node_of participant).
Proof.
  split; [exact snapshot_built|]. pose proof (BuildRegistry_correct [participant]) as Hb. pose proof snapshot_built as Hok.
  destruct (BuildRegistry [participant]) as [files|]; [|discriminate Hok]. destruct Hb as (_ & _ & _ & _ & _ & Hr & _).
  apply Hr; [apply list_elem_of_here|exact participant_publishable].
Defined.

Lemma dbv_storable : storable dbv.
Proof.
  assert (Ho : origins dbv = {[ bs "https://example.org" := mkOriginRow t0 (Some t0) (Some (1, IdentityAffirmed)) (Some t0) (Some OutcomeValid) ]}) by (vm_compute; reflexivity).
  split.
  - intros key row. rewrite Ho. intros [<- <-]%lookup_singleton_Some _. exists seed. split; vm_compute; reflexivity.
  - intros key row t. rewrite Ho. intros [_ <-]%lookup_singleton_Some. cbn. by intros [= <-].
  - intros key o Hin. unfold rows_of in Hin.
    rewrite list_elem_of_In in Hin. apply filter_In in Hin as [Hin _].
    assert (Hr : observations dbv = [mkObservation (bs "https://example.org") t0 OutcomeValid (Some (1, IdentityAffirmed))]) by (vm_compute; reflexivity).
    rewrite Hr in Hin. by destruct Hin as [<-|[]].
Qed.

Lemma reachable_registry_exports_witness :
  exists l files, RegistryOrigins text_leb dbv = Ok l /\ BuildRegistry l = Ok files.
Proof.
  destruct (reachable_registry_exports text_leb sql_lower id config queueConfig [] delay dbv (rtc_once _ _ (s_verification _ _ _ _ _ _ _ _ t0 verdict)) dbv_storable)
    as (l & files & Hl & Hb & _). exists l, files. split; [exact Hl|exact Hb].
Defined.

(** ** The directory *)

Definition snapshot : list File := [mkFile (bs "registry.json") (bs "{}"); mkFile (bs "nodes/ab/x.json") (bs "[]")].
Definition exports : bytes := bs "/exports".
Definition target : bytes := bs "/exports/today".
Definition disk0 : disk := mkDisk {[ [] := Directory; [[]] := Directory; resolve exports := Directory ]} [] (bs "1234") 0.

Definition written_run := writeDirectory (W := disk) (Some never) disk0 target snapshot.
Definition disk1 : disk := fst written_run.
Lemma written_run_eq : written_run = (disk1, None).
Proof. unfold disk1. apply pair_snd. vm_cast_no_check (@eq_refl (option error) None). Qed.

Lemma disk0_closed : closed (tree disk0).
Proof.
  intros k e [n Hn]. cbn [tree disk0] in *. rewrite !lookup_insert_Some in Hn. rewrite lookup_singleton_Some in Hn.
  destruct Hn as [[Hk _]|[_ [[Hk _]|[_ [Hk _]]]]].
  - by destruct k.
  - destruct k as [|x [|y k]]; [done|done|done].
  - destruct k as [|x [|y k]]; [done| |by destruct k]. injection Hk as <- <-. done.
Qed.

Lemma snapshot_roundtrip_witness :
  written_run = (disk1, None) /\ snapshot_at (tree disk1) (resolve target) snapshot.
Proof.
  split; [exact written_run_eq|].
  refine (proj1 (snapshot_roundtrip defaultReaderLimits (Some never) disk0 target snapshot disk1 None disk0_closed _ written_run_eq)).
  apply (bool_decide_unpack _). vm_compute. exact I.
Defined.

Lemma readDirectory_bounded_witness :
  exists w' r, readDirectory defaultReaderLimits (Some never) disk0 exports = Some (w', r)
    /\ match r with Ok files => Z.of_nat (length files) <= 4097 | Err _ => True end.
Proof.
  destruct (readDirectory_bounded defaultReaderLimits (Some never) disk0 exports) as (w' & r & Hr & Hb). exists w', r. split; [exact Hr|].
  destruct r as [files|]; [|exact I]. destruct Hb as (_ & _ & _ & Hl & _). exact Hl.
Defined.

Definition traced_run := writeDirectory (W := disk * list fs_call) (Some never) (disk0, []) target snapshot.
Definition traced_world : disk := fst (fst traced_run).
Definition traced_calls : list fs_call := snd (fst traced_run).
Lemma traced_run_eq : traced_run = ((traced_world, traced_calls), None).
Proof. unfold traced_world, traced_calls. rewrite <- surjective_pairing. apply pair_snd. vm_cast_no_check (@eq_refl (option error) None). Qed.

Lemma writeDirectory_atomic_witness :
  traced_run = ((traced_world, traced_calls), None)
  /\ exists parent base, written parent target base snapshot traced_calls None.
Proof.
  split; [exact traced_run_eq|].
  destruct (writeDirectory_atomic (Some never) disk0 target snapshot traced_world traced_calls None traced_run_eq)
    as [(_ & Hn & _)|(parent & base & _ & _ & Hw)]; [destruct (Hn eq_refl)|]. exists parent, base. exact Hw.
Defined.

(** ** The repository

    A response is a list of fields, each with its length in unary before it. *)

Definition field (s : bytes) : bytes := replicate (length s) "."%char ++ bs "|" ++ s.
Definition fields (l : list bytes) : bytes := concat (map field l).
Fixpoint read_fields (fuel count : nat) (s : bytes) : option (list bytes) :=
  match fuel, s with
  | _, [] => Some []
  | O, _ => None
  | S fuel, c :: rest =>
      if byte_eqb c "." then read_fields fuel (S count) rest
      else l ← read_fields fuel 0 (drop count rest); Some (take count rest :: l)
  end.
Definition unfields (s : bytes) : option (list bytes) := read_fields (length s) 0 s.

Lemma read_dots fuel k count s : s <> [] -> (k + length s <= fuel)%nat ->
  read_fields fuel count (replicate k "."%char ++ s) = read_fields (fuel - k) (count + k) s.
Proof.
  revert fuel count. induction k as [|k IH]; intros fuel count Hs Hf; cbn [replicate app].
  - by rewrite Nat.sub_0_r, Nat.add_0_r.
  - destruct fuel as [|fuel]; [lia|]. cbn [read_fields byte_eqb]. change (byte_eqb "." ".") with true. cbv iota. rewrite IH by (done || lia).
    by rewrite Nat.add_succ_r.
Qed.
Lemma read_fields_fields l : forall fuel, (length (fields l) <= fuel)%nat -> read_fields fuel 0 (fields l) = Some l.
Proof.
  induction l as [|s l IH]; intros fuel Hf; [by destruct fuel|]. unfold fields in *. cbn [map concat] in *. unfold field in *.
  rewrite !length_app, length_replicate in Hf. change (length (bs "|")) with 1%nat in Hf. rewrite <- !app_assoc.
  rewrite read_dots; [|done|rewrite !length_app; change (length (bs "|")) with 1%nat; lia]. destruct (fuel - length s)%nat as [|f] eqn:Hfu; [lia|].
  change (bs "|") with ["|"%char]. cbn [read_fields app]. change (byte_eqb "|" ".") with false. cbv iota. cbn [Nat.add]. rewrite drop_app_length, IH by lia.
  cbn [mbind option_bind]. by rewrite take_app_length.
Qed.
Lemma unfields_fields l : unfields (fields l) = Some l.
Proof. by apply read_fields_fields. Qed.

Definition size_text (z : Z) : bytes := (if z <? 0 then "-"%char else "+"%char) :: replicate (Z.to_nat (Z.abs z)) "1"%char.
Definition size_of (s : bytes) : Z :=
  match s with
  | c :: rest => (if byte_eqb c "-" then -1 else 1) * Z.of_nat (length rest)
  | [] => 0
  end.
Lemma size_of_text z : size_of (size_text z) = z.
Proof. unfold size_of, size_text. rewrite length_replicate. destruct (Z.ltb_spec z 0); [change (byte_eqb "-" "-") with true|change (byte_eqb "+" "-") with false]; lia. Qed.

Definition entry_fields (e : treeEntry) : list bytes := [entry_path e; entry_mode e; entry_type e; entry_sha e].
Fixpoint fields_entries (l : list bytes) : list treeEntry :=
  match l with p :: m :: t :: s :: rest => mkTreeEntry p m t s :: fields_entries rest | _ => [] end.
Lemma fields_entries_fields l : fields_entries (concat (map entry_fields l)) = l.
Proof. induction l as [|[] l IH]; [done|]. cbn. by rewrite IH. Qed.

#[local] Instance codec : GitHubJSON := {|
  decode_reference s := l ← unfields s; match l with [t; h] => Some (mkObject t h) | _ => None end;
  decode_commit s := l ← unfields s; match l with [h; t] => Some (mkCommitResponse h t) | _ => None end;
  decode_tree s := l ← unfields s; match l with h :: t :: rest => Some (mkTreeResponse h (fields_entries rest) (bytes_eqb t (bs "1"))) | _ => None end;
  decode_blob s := l ← unfields s; match l with [h; c; e; z] => Some (mkBlobResponse h c e (size_of z)) | _ => None end;
  decode_object s := l ← unfields s; match l with [h] => Some h | _ => None end;
|}.

(** *** A repository in memory

    One host that keeps what [GitDatabase] promises. Objects are named by their
    contents, their number of files, or the number of the request; nobody else
    works on it and nothing is lost. *)

Definition blob_id (d : bytes) : bytes := "b"%char :: hex_EncodeToString d.
Definition tree_id (fs : tree_files) : bytes := "t"%char :: replicate (size fs) "1"%char.
Definition commit_id (n : nat) : bytes := "c"%char :: replicate n "1"%char.
Definition listing (fs : tree_files) : list treeEntry := (fun '(p, (m, t, s)) => mkTreeEntry p m t s) <$> map_to_list fs.

Definition encode_reference (o : object) : bytes := fields [object_Type o; object_SHA o].
Definition encode_commit (c : commitResponse) : bytes := fields [commit_SHA c; commit_Tree c].
Definition encode_tree (t : treeResponse) : bytes :=
  fields (tree_SHA t :: (if Truncated t then bs "1" else bs "0") :: concat (map entry_fields (tree_Tree t))).
Definition encode_blob (b : blobResponse) : bytes := fields [blob_SHA b; blob_Content b; blob_Encoding b; size_text (blob_Size b)].
Definition encode_object (h : bytes) : bytes := fields [h].

Lemma decode_encode_reference x : decode_reference (encode_reference x) = Some x.
Proof. destruct x. cbn [decode_reference codec]. unfold encode_reference. by rewrite unfields_fields. Qed.
Lemma decode_encode_commit x : decode_commit (encode_commit x) = Some x.
Proof. destruct x. cbn [decode_commit codec]. unfold encode_commit. by rewrite unfields_fields. Qed.
Lemma decode_encode_tree x : decode_tree (encode_tree x) = Some x.
Proof. destruct x as [h l []]; cbn [decode_tree codec]; unfold encode_tree; rewrite unfields_fields; cbn [mbind option_bind]; by rewrite fields_entries_fields. Qed.
Lemma decode_encode_blob x : decode_blob (encode_blob x) = Some x.
Proof. destruct x. cbn [decode_blob codec]. unfold encode_blob. rewrite unfields_fields. cbn [mbind option_bind]. by rewrite size_of_text. Qed.
Lemma decode_encode_object x : decode_object (encode_object x) = Some x.
Proof. cbn [decode_object codec]. unfold encode_object. by rewrite unfields_fields. Qed.

Definition json_field (name : bytes) (v : json) : option json :=
  match v with JObject ms => snd <$> List.find (fun m => bytes_eqb (fst m) name) ms | _ => None end.
Definition json_text (v : json) : option bytes := match v with JString s => Some s | _ => None end.
Definition text_field (name : bytes) (v : json) : option bytes := json_field name v ≫= json_text.
Definition json_list (v : json) : option (list json) := match v with JArray l => Some l | _ => None end.
Definition list_field (name : bytes) (v : json) : option (list json) := json_field name v ≫= json_list.
Definition json_bool (v : json) : option bool := match v with JBool b => Some b | _ => None end.
Definition parse_entry (v : json) : option treeEntry :=
  p ← text_field (bs "path") v; m ← text_field (bs "mode") v;
  t ← text_field (bs "type") v; s ← text_field (bs "sha") v;
  Some (mkTreeEntry p m t s).

Lemma mapM_entries entries : mapM parse_entry (map treeEntry_json entries) = Some entries.
Proof. apply mapM_Some. induction entries as [|[] entries IH]; cbn [map]; by constructor. Qed.
Lemma mapM_texts l : mapM json_text (map JString l) = Some l.
Proof. apply mapM_Some. induction l as [|x l IH]; cbn [map]; by constructor. Qed.

Definition after (prefix s : bytes) : option bytes := if HasPrefix s prefix then Some (drop (length prefix) s) else None.
Lemma after_app prefix s : after prefix (prefix ++ s) = Some s.
Proof.
  unfold after. replace (HasPrefix (prefix ++ s) prefix) with true by (symmetry; apply HasPrefix_spec; by eexists). by rewrite drop_app_length.
Qed.

Definition ok (status : Z) (body : bytes) : response := GitHubPublish.mkResponse status (Ok body).
Definition refuse (status : Z) : response := GitHubPublish.mkResponse status (Ok []).

Definition get (g : git) (rest : bytes) : response :=
  match after (bs "/git/ref/heads/") rest, after (bs "/git/commits/") rest, after (bs "/git/trees/") rest, after (bs "/git/blobs/") rest with
  | Some branch, _, _, _ =>
      match refs g !! branch with Some sha => ok 200 (encode_reference (mkObject (bs "commit") sha)) | None => refuse 404 end
  | _, Some sha, _, _ =>
      match commits g !! sha with Some (tree, _) => ok 200 (encode_commit (mkCommitResponse sha tree)) | None => refuse 404 end
  | _, _, Some sha, _ =>
      match trees g !! sha with Some files => ok 200 (encode_tree (mkTreeResponse sha (listing files) false)) | None => refuse 404 end
  | _, _, _, Some sha =>
      match blobs g !! sha with
      | Some data => ok 200 (encode_blob (mkBlobResponse sha (base64_Encode base64_Std data) (bs "base64") (Z.of_nat (length data))))
      | None => refuse 404
      end
  | _, _, _, _ => refuse 404
  end.

(** A new object, or one that is there already *)
Definition put {A} `{EqDecision A} (m : gmap bytes A) (id : bytes) (value : A) : option (gmap bytes A) :=
  match m !! id with None => Some (<[id := value]> m) | Some old => if bool_decide (old = value) then Some m else None end.

Lemma put_spec {A} `{EqDecision A} (m m' : gmap bytes A) i v : put m i v = Some m' -> m ⊆ m' /\ m' !! i = Some v
  /\ forall j x, m' !! j = Some x -> m !! j = Some x \/ j = i /\ x = v.
Proof.
  unfold put. destruct (m !! i) as [old|] eqn:Hi.
  - destruct (bool_decide_reflect (old = v)) as [->|]; [|done]. intros [= <-]. auto.
  - intros [= <-]. split_and!; [by apply insert_subseteq|apply lookup_insert_eq|]. intros j x.
    destruct (decide (j = i)) as [->|Hne]; [rewrite lookup_insert_eq; intros [= <-]; by right|]. rewrite lookup_insert_ne by done. by left.
Qed.

Definition post_blob (g : git) (v : json) : git * response :=
  match text_field (bs "content") v ≫= base64_Decode base64_Std with
  | None => (g, refuse 422)
  | Some data =>
      match put (blobs g) (blob_id data) data with
      | Some m => (mkGit m (trees g) (commits g) (refs g), ok 201 (encode_object (blob_id data)))
      | None => (g, refuse 500)
      end
  end.
Definition post_tree (g : git) (v : json) : git * response :=
  match list_field (bs "tree") v ≫= mapM parse_entry with
  | None => (g, refuse 422)
  | Some entries =>
      if forallb (fun e => bool_decide (is_Some (blobs g !! entry_sha e))) entries then
        match put (trees g) (tree_id (files_of entries)) (files_of entries) with
        | Some m => (mkGit (blobs g) m (commits g) (refs g), ok 201 (encode_object (tree_id (files_of entries))))
        | None => (g, refuse 500)
        end
      else (g, refuse 422)
  end.
Definition post_commit (n : nat) (g : git) (v : json) : git * response :=
  match text_field (bs "tree") v, list_field (bs "parents") v ≫= mapM json_text with
  | Some tree, Some parents =>
      if bool_decide (is_Some (trees g !! tree)) then
        match put (commits g) (commit_id n) (tree, parents) with
        | Some m => (mkGit (blobs g) (trees g) m (refs g), ok 201 (encode_object (commit_id n)))
        | None => (g, refuse 500)
        end
      else (g, refuse 422)
  | _, _ => (g, refuse 422)
  end.
Definition patch_ref (g : git) (branch : bytes) (v : json) : git * response :=
  match text_field (bs "sha") v, refs g !! branch with
  | Some sha, Some old =>
      match commits g !! sha with
      | Some (_, parents) =>
          if bool_decide (old ∈ parents)
          then (mkGit (blobs g) (trees g) (commits g) (<[branch := sha]> (refs g)), ok 200 (encode_reference (mkObject (bs "commit") sha)))
          else (g, refuse 422)
      | None => (g, refuse 422)
      end
  | _, _ => (g, refuse 422)
  end.

Definition api_root : bytes := bs "/repos/joshternet/registry".

Definition serve (n : nat) (g : git) (r : request) : git * response :=
  match after api_root (Path (req_url r)) with
  | None => (g, refuse 404)
  | Some rest =>
      if bytes_eqb (req_method r) (bs "GET") then (g, get g rest)
      else
        match req_input r with
        | None => (g, refuse 400)
        | Some input =>
            if bytes_eqb (req_method r) (bs "POST") then
              if bytes_eqb rest (bs "/git/blobs") then post_blob g input
              else if bytes_eqb rest (bs "/git/trees") then post_tree g input
              else if bytes_eqb rest (bs "/git/commits") then post_commit n g input
              else (g, refuse 404)
            else match after (bs "/git/refs/heads/") rest with Some branch => patch_ref g branch input | None => (g, refuse 404) end
        end
  end.

#[local] Instance github : GitHubClient (git * nat) := {|
  client_Do := fun '(g, n) r => let '(g', resp) := serve n g r in ((g', S n), Ok resp)
|}.

Lemma repeated_ok n : forallb segment_byte (replicate n "1"%char) = true.
Proof. by induction n. Qed.
Lemma hex_char_segment v : 0 <= v < 16 -> segment_byte (hex_char v) = true.
Proof. intros Hv. assert (v = 0 \/ v = 1 \/ v = 2 \/ v = 3 \/ v = 4 \/ v = 5 \/ v = 6 \/ v = 7 \/ v = 8 \/ v = 9 \/ v = 10 \/ v = 11 \/ v = 12 \/ v = 13 \/ v = 14 \/ v = 15) by lia. by destruct_or?; subst. Qed.
Lemma hex_segments s : forallb segment_byte (hex_EncodeToString s) = true.
Proof. induction s as [|c s IH]; [done|]. cbn [hex_EncodeToString forallb]. pose proof (code_range c). rewrite !hex_char_segment by divlia. by rewrite IH. Qed.
Lemma blob_id_ok d : name_ok (blob_id d).
Proof. split; [done|apply hex_segments]. Qed.
Lemma tree_id_ok fs : name_ok (tree_id fs).
Proof. split; [done|apply repeated_ok]. Qed.
Lemma commit_id_ok n : name_ok (commit_id n).
Proof. split; [done|apply repeated_ok]. Qed.

(** Names are plain. *)
Record wf (g : git) : Prop := {
  wf_blobs : forall i d, blobs g !! i = Some d -> name_ok i;
  wf_trees : forall i fs, trees g !! i = Some fs -> name_ok i /\ forall p m t s, fs !! p = Some (m, t, s) -> name_ok s;
  wf_commits : forall i t ps, commits g !! i = Some (t, ps) -> name_ok i /\ name_ok t;
  wf_refs : forall b s, refs g !! b = Some s -> name_ok s;
}.

Lemma post_blob_ok g v g' resp : wf g -> post_blob g v = (g', resp) -> wf g' /\ grows g g'.
Proof.
  intros Hwf. unfold post_blob. destruct (_ ≫= _) as [data|]; [|by intros [= <- <-]]. destruct (put _ _ _) as [m|] eqn:Hp; [|by intros [= <- <-]].
  apply put_spec in Hp as (Hs & _ & Hp). intros [= <- <-]. split; [|by split]. destruct Hwf as [Hb Ht Hc Hr]. split; cbn [blobs trees commits refs]; try done.
  intros i d [Hi|[-> ->]]%Hp; [by eapply Hb|apply blob_id_ok].
Qed.
Lemma post_tree_ok g v g' resp : wf g -> post_tree g v = (g', resp) -> wf g' /\ grows g g'.
Proof.
  intros Hwf. unfold post_tree. destruct (_ ≫= _) as [entries|]; [|by intros [= <- <-]]. destruct (forallb _ _) eqn:Hall; [|by intros [= <- <-]].
  destruct (put _ _ _) as [m|] eqn:Hp; [|by intros [= <- <-]]. apply put_spec in Hp as (Hs & _ & Hp). intros [= <- <-]. split; [|by split].
  destruct Hwf as [Hb Ht Hc Hr]. split; cbn [blobs trees commits refs]; try done.
  intros i fs [Hi|[-> ->]]%Hp; [by eapply Ht|]. split; [apply tree_id_ok|]. intros p m' t s Hl.
  apply elem_of_list_to_map_2 in Hl. rewrite list_elem_of_In, in_map_iff in Hl. destruct Hl as (e & [= <- <- <- <-] & Hin%list_elem_of_In).
  pose proof (forallb_elem _ _ e Hall Hin) as He. apply bool_decide_eq_true in He as [d Hd]. by eapply Hb.
Qed.
Lemma post_commit_ok n g v g' resp : wf g -> post_commit n g v = (g', resp) -> wf g' /\ grows g g'.
Proof.
  intros Hwf. unfold post_commit. destruct (text_field _ v) as [tree|]; [|by intros [= <- <-]]. destruct (_ ≫= _) as [parents|]; [|by intros [= <- <-]].
  destruct (bool_decide_reflect (is_Some (trees g !! tree))) as [[fs Hfs]|]; [|by intros [= <- <-]].
  destruct (put _ _ _) as [m|] eqn:Hp; [|by intros [= <- <-]]. apply put_spec in Hp as (Hs & _ & Hp). intros [= <- <-]. split; [|by split].
  destruct Hwf as [Hb Ht Hc Hr]. split; cbn [blobs trees commits refs]; try done.
  intros i t ps [Hi|[-> [= -> ->]]]%Hp; [by eapply Hc|]. split; [apply commit_id_ok|]. apply (Ht tree fs Hfs).
Qed.
Lemma patch_ref_ok g branch v g' resp : wf g -> patch_ref g branch v = (g', resp) -> wf g' /\ grows g g'.
Proof.
  intros Hwf. unfold patch_ref. destruct (text_field _ v) as [sha|]; [|by intros [= <- <-]]. destruct (refs g !! branch) as [old|]; [|by intros [= <- <-]].
  destruct (commits g !! sha) as [[t ps]|] eqn:Hsha; [|by intros [= <- <-]]. destruct (bool_decide _); [|by intros [= <- <-]]. intros [= <- <-].
  split; [|by split]. destruct Hwf as [Hb Ht Hc Hr]. split; cbn [blobs trees commits refs]; try done.
  intros b s. destruct (decide (b = branch)) as [->|Hne]; [|rewrite lookup_insert_ne by done; apply Hr]. rewrite lookup_insert_eq. intros [= <-].
  apply (Hc sha t ps Hsha).
Qed.
Lemma serve_ok n g r g' resp : wf g -> serve n g r = (g', resp) -> wf g' /\ grows g g'.
Proof.
  intros Hwf. unfold serve. destruct (after _ _) as [rest|]; [|by intros [= <- <-]].
  destruct (bytes_eqb (req_method r) (bs "GET")); [by intros [= <- <-]|]. destruct (req_input r) as [v|]; [|by intros [= <- <-]].
  destruct (bytes_eqb (req_method r) (bs "POST")).
  - destruct (bytes_eqb rest (bs "/git/blobs")); [by apply post_blob_ok|]. destruct (bytes_eqb rest (bs "/git/trees")); [by apply post_tree_ok|].
    destruct (bytes_eqb rest (bs "/git/commits")); [by apply post_commit_ok|by intros [= <- <-]].
  - destruct (after _ _) as [branch|]; [by apply patch_ref_ok|by intros [= <- <-]].
Qed.

(** An answered request is one this host served. *)
Lemma answer_served w q w' status body method path input : asked api_root q method path input -> answered w q w' status body ->
  exists resp, serve (snd w) (fst w) q = (fst w', resp) /\ StatusCode resp = status /\ Body resp = Ok body
    /\ after api_root (Path (req_url q)) = Some path /\ req_method q = method /\ req_input q = input.
Proof.
  destruct w as [g n]. intros (Hm & Hp & Hi) (resp & Hdo & Hst & Hb). cbn [client_Do github fst snd] in *.
  destruct (serve n g q) as [g1 resp1]. injection Hdo as <- <-. exists resp1. rewrite Hp, after_app. by split_and!.
Qed.

Lemma read_served w q w' body path : asked api_root q (bs "GET") path None -> answered w q w' 200 body ->
  fst w' = fst w /\ get (fst w') path = ok 200 body.
Proof.
  intros Ha Hb. destruct (answer_served _ _ _ _ _ _ _ _ Ha Hb) as (resp & Hs & Hst & Hbody & Hafter & Hm & _).
  unfold serve in Hs. rewrite Hafter, Hm in Hs. change (bytes_eqb (bs "GET") (bs "GET")) with true in Hs. cbv iota in Hs. injection Hs as He Hr.
  split; [by rewrite <- He|]. rewrite <- He, Hr. destruct resp as [st b]. cbn in Hst, Hbody. by rewrite Hst, Hbody.
Qed.

Lemma get_reference g b : get g (bs "/git/ref/heads/" ++ b)
  = match refs g !! b with Some sha => ok 200 (encode_reference (mkObject (bs "commit") sha)) | None => refuse 404 end.
Proof. unfold get. by rewrite after_app. Qed.
Lemma get_commit_object g sha : get g (bs "/git/commits/" ++ sha)
  = match commits g !! sha with Some (tree, _) => ok 200 (encode_commit (mkCommitResponse sha tree)) | None => refuse 404 end.
Proof. unfold get. change (after (bs "/git/ref/heads/") (bs "/git/commits/" ++ sha)) with (@None bytes). by rewrite after_app. Qed.
Lemma get_tree_object g sha : get g (bs "/git/trees/" ++ sha)
  = match trees g !! sha with Some files => ok 200 (encode_tree (mkTreeResponse sha (listing files) false)) | None => refuse 404 end.
Proof.
  unfold get. change (after (bs "/git/ref/heads/") (bs "/git/trees/" ++ sha)) with (@None bytes).
  change (after (bs "/git/commits/") (bs "/git/trees/" ++ sha)) with (@None bytes). by rewrite after_app.
Qed.
Lemma get_blob_object g sha : get g (bs "/git/blobs/" ++ sha)
  = match blobs g !! sha with
    | Some data => ok 200 (encode_blob (mkBlobResponse sha (base64_Encode base64_Std data) (bs "base64") (Z.of_nat (length data))))
    | None => refuse 404
    end.
Proof.
  unfold get. change (after (bs "/git/ref/heads/") (bs "/git/blobs/" ++ sha)) with (@None bytes).
  change (after (bs "/git/commits/") (bs "/git/blobs/" ++ sha)) with (@None bytes).
  change (after (bs "/git/trees/") (bs "/git/blobs/" ++ sha)) with (@None bytes). by rewrite after_app.
Qed.

Lemma listing_files fs e : e ∈ listing fs -> fs !! entry_path e = Some (entry_mode e, entry_type e, entry_sha e).
Proof.
  unfold listing. rewrite list_elem_of_fmap. intros ([p [[m t] s]] & -> & Hin%elem_of_map_to_list). exact Hin.
Qed.

(** A post that was answered 201 *)
Lemma post_served w q w' body path input : asked api_root q (bs "POST") path (Some input) -> answered w q w' 201 body ->
  (if bytes_eqb path (bs "/git/blobs") then post_blob (fst w) input
   else if bytes_eqb path (bs "/git/trees") then post_tree (fst w) input
   else if bytes_eqb path (bs "/git/commits") then post_commit (snd w) (fst w) input
   else (fst w, refuse 404)) = (fst w', ok 201 body).
Proof.
  intros Ha Hb. destruct (answer_served _ _ _ _ _ _ _ _ Ha Hb) as (resp & Hs & Hst & Hbody & Hafter & Hm & Hi).
  unfold serve in Hs. rewrite Hafter, Hm, Hi in Hs. change (bytes_eqb (bs "POST") (bs "GET")) with false in Hs.
  change (bytes_eqb (bs "POST") (bs "POST")) with true in Hs. cbv iota in Hs. rewrite Hs. f_equal.
  destruct resp as [st b]. cbn in Hst, Hbody. by rewrite Hst, Hbody.
Qed.

#[local] Instance in_memory : GitDatabase api_root fst (fun w : git * nat => wf (fst w)).
Proof.
  split.
  - intros [g n] q w' r Hwf. cbn [client_Do github fst]. destruct (serve n g q) as [g1 resp] eqn:Hs. intros [= <- _]. by eapply serve_ok.
  - intros w q w' branch body o Hwf Ha Hb Hd. destruct (read_served _ _ _ _ _ Ha Hb) as [He Hget]. rewrite get_reference in Hget.
    destruct (refs (fst w') !! branch) as [sha|] eqn:Hr; [|done]. injection Hget as <-. rewrite decode_encode_reference in Hd. injection Hd as <-.
    rewrite He in *. split; [by eapply wf_refs|]. by exists (fst w).
  - intros w q w' sha body c Hwf Ha Hb Hd. destruct (read_served _ _ _ _ _ Ha Hb) as [He Hget]. rewrite get_commit_object in Hget.
    destruct (commits (fst w') !! sha) as [[tree ps]|] eqn:Hc; [|done]. injection Hget as <-. rewrite decode_encode_commit in Hd. injection Hd as <-.
    rewrite He in Hc. destruct (wf_commits _ Hwf _ _ _ Hc) as [_ Ht]. split; [exact Ht|by exists ps].
  - intros w q w' sha body t Hwf Ha Hb Hd _. destruct (read_served _ _ _ _ _ Ha Hb) as [He Hget]. rewrite get_tree_object in Hget.
    destruct (trees (fst w') !! sha) as [fs|] eqn:Ht; [|done]. injection Hget as <-. rewrite decode_encode_tree in Hd. injection Hd as <-.
    exists fs. split; [done|]. intros e Hin%listing_files _. split; [|done]. rewrite He in Ht. destruct (wf_trees _ Hwf _ _ Ht) as [_ Hn]. by eapply Hn.
  - intros w q w' sha body b data Hwf Ha Hb Hd _. destruct (read_served _ _ _ _ _ Ha Hb) as [He Hget]. rewrite get_blob_object in Hget.
    destruct (blobs (fst w') !! sha) as [d|]; [|done]. injection Hget as <-. rewrite decode_encode_blob in Hd. injection Hd as <-.
    cbn [blob_Content]. rewrite base64_roundtrip by (by left). done.
  - intros w q w' content data body sha Hwf Ha Hb Hd Hdata. pose proof (post_served _ _ _ _ _ _ Ha Hb) as Hs.
    change (post_blob (fst w) (createBlobRequest content) = (fst w', ok 201 body)) in Hs. unfold post_blob in Hs.
    change (text_field (bs "content") (createBlobRequest content)) with (Some content) in Hs. cbn [mbind option_bind] in Hs. rewrite Hdata in Hs.
    destruct (put _ _ _) as [m|] eqn:Hp; [|done]. injection Hs as He <-. rewrite decode_encode_object in Hd. injection Hd as <-.
    apply put_spec in Hp as (_ & Hl & _). by rewrite <- He.
  - intros w q w' entries body sha Hwf _ Ha Hb Hd. pose proof (post_served _ _ _ _ _ _ Ha Hb) as Hs.
    change (post_tree (fst w) (createTreeRequest entries) = (fst w', ok 201 body)) in Hs. unfold post_tree in Hs.
    change (list_field (bs "tree") (createTreeRequest entries)) with (Some (map treeEntry_json entries)) in Hs. cbn [mbind option_bind] in Hs.
    rewrite mapM_entries in Hs. destruct (forallb _ _); [|done].
    destruct (put _ _ _) as [m|] eqn:Hp; [|done]. injection Hs as He <-. rewrite decode_encode_object in Hd. injection Hd as <-.
    apply put_spec in Hp as (_ & Hl & _). by rewrite <- He.
  - intros w q w' message tree parents body sha Hwf Ha Hb Hd. pose proof (post_served _ _ _ _ _ _ Ha Hb) as Hs.
    change (post_commit (snd w) (fst w) (createCommitRequest message tree parents) = (fst w', ok 201 body)) in Hs. unfold post_commit in Hs.
    change (text_field (bs "tree") (createCommitRequest message tree parents)) with (Some tree) in Hs.
    change (list_field (bs "parents") (createCommitRequest message tree parents)) with (Some (map JString parents)) in Hs. cbn [mbind option_bind] in Hs.
    rewrite mapM_texts in Hs. destruct (bool_decide _); [|done].
    destruct (put _ _ _) as [m|] eqn:Hp; [|done]. injection Hs as He <-. rewrite decode_encode_object in Hd. injection Hd as <-.
    apply put_spec in Hp as (_ & Hl & _). by rewrite <- He.
  - intros w q w' branch sha body o Hwf Ha Hb Hd. destruct (answer_served _ _ _ _ _ _ _ _ Ha Hb) as (resp & Hs & Hst & Hbody & Hafter & Hm & Hi).
    unfold serve in Hs. rewrite Hafter, Hm, Hi in Hs. change (bytes_eqb (bs "PATCH") (bs "GET")) with false in Hs.
    change (bytes_eqb (bs "PATCH") (bs "POST")) with false in Hs. cbv iota in Hs. rewrite after_app in Hs. unfold patch_ref in Hs.
    change (text_field (bs "sha") (updateReferenceRequest sha false)) with (Some sha) in Hs. cbv iota beta in Hs.
    destruct (refs (fst w) !! branch) as [old|] eqn:Hold; [|injection Hs as _ <-; done].
    destruct (commits (fst w) !! sha) as [[t ps]|] eqn:Hc; [|injection Hs as _ <-; done].
    destruct (bool_decide_reflect (old ∈ ps)) as [Hin|]; [|injection Hs as _ <-; done]. injection Hs as He _.
    exists (fst w), (fst w'), old. split_and!; [done|rewrite <- He; by split|done|done| |by rewrite <- He; apply lookup_insert_eq].
    eapply rtc_once. by exists t, ps.
Qed.

Definition target_config : Config := mkConfig (bs "joshternet") (bs "registry") (bs "main").
Definition publisher : Publisher :=
  mkPublisher target_config (bs "token") (mkURL (bs "https") [] None (bs "api.github.com") [] [] false [] [] []).

Lemma publisher_eq : New target_config (bs "token") = Ok publisher.
Proof. reflexivity. Qed.

Definition sentinel_sha : bytes := blob_id sentinelContents.
Definition first_files : tree_files := {[ sentinelPath := (bs "100644", bs "blob", sentinel_sha) ]}.
Definition git0 : git := mkGit {[ sentinel_sha := sentinelContents ]} {[ bs "t1" := first_files ]} {[ bs "c" := (bs "t1", []) ]} {[ bs "main" := bs "c" ]}.
Definition public_files : list File := [mkFile (bs "registry.json") (bs "{}")].

Definition publication_run := publish publisher never (git0, 0%nat) public_files.
Definition git1 : git := fst (fst publication_run).
Definition served : nat := snd (fst publication_run).
Definition commit1 : bytes := bs "c111111".
Lemma publication_run_eq : publication_run = ((git1, served), Ok (GitHubPublish.mkResult true commit1)).
Proof.
  unfold git1, served. rewrite <- surjective_pairing. apply pair_snd.
  vm_cast_no_check (@eq_refl (res error GitHubPublish.Result) (Ok (GitHubPublish.mkResult true commit1))).
Qed.

Lemma git0_wf : wf git0.
Proof.
  split; cbn [git0 blobs trees commits refs].
  - intros i d [<- _]%lookup_singleton_Some. apply blob_id_ok.
  - intros i fs [<- <-]%lookup_singleton_Some. split; [done|]. unfold first_files. intros p m t h [_ [= _ _ <-]]%lookup_singleton_Some. apply blob_id_ok.
  - intros i t ps [<- [= <- _]]%lookup_singleton_Some. done.
  - intros b h [_ <-]%lookup_singleton_Some. done.
Qed.

Lemma api_path p u : is_rooted p = true -> url_Parse (url_String (endpoint publisher p)) = Some u -> Path u = p.
Proof.
  destruct p as [|c p]; [done|]. cbn [is_rooted]. destruct (byte_eqb_spec c "/") as [->|]; [|done]. intros _.
  change (url_Parse (url_String (endpoint publisher ("/"%char :: p)))) with (Some (mkURL https [] None (bs "api.github.com") ("/"%char :: p) [] false [] [] [])).
  by intros [= <-].
Qed.

Lemma publish_exact_witness :
  publication_run = ((git1, served), Ok (GitHubPublish.mkResult true commit1))
  /\ exists tree parents, commits git1 !! commit1 = Some (tree, parents) /\ holds git1 tree public_files.
Proof.
  split; [exact publication_run_eq|].
  destruct (publish_exact publisher never fst (fun w : git * nat => wf (fst w)) api_path
    public_files (git0, 0%nat) (git1, served) (GitHubPublish.mkResult true commit1) git0_wf publication_run_eq) as [(_ & tree & parents & Hc & Hh & _) _].
  exists tree, parents. split; [exact Hc|exact Hh].
Defined.

Definition logged_run := publish (W := (git * nat) * list request) publisher never (git0, 0%nat, []) public_files.
Definition logged_world : git * nat := fst (fst logged_run).
Definition requests : list request := snd (fst logged_run).
Definition logged_result : res error GitHubPublish.Result := snd logged_run.
Lemma logged_run_eq : logged_run = ((logged_world, requests), logged_result).
Proof. unfold logged_world, requests, logged_result. by rewrite <- !surjective_pairing. Qed.
Lemma requests_sent : (length requests =? 8)%nat = true.
Proof. vm_cast_no_check (eq_refl true). Qed.

Lemma publication_order_witness :
  (length requests =? 8)%nat = true
  /\ exists ordered steps, prepareSnapshot public_files = Ok ordered /\ Forall2 (sent publisher) steps requests
       /\ publication publisher ordered steps logged_result.
Proof.
  split; [exact requests_sent|].
  destruct (publication_order publisher never (fun w err He => match eq_ind None (fun o => match o with Some _ => False | None => True end) I _ He with end)
    public_files (git0, 0%nat) logged_world requests logged_result logged_run_eq) as [[Hn _]|Ho]; [|exact Ho].
  pose proof requests_sent as Hl. rewrite Hn in Hl. discriminate Hl.
Defined.

(** ** The services *)

Definition never_ends {A} (x : A) : option error := None.
Definition query (d : disk) (_ : unit) : disk * res error (list RegistryOrigin) := (d, Ok [participant]).
Definition rest (d : disk) (_ : Z) : disk * option error := (d, None).
Definition zeros : bytes := replicate 16 (chr 0).
Definition ones : bytes := replicate 16 (chr 255).
(** Sixteen bytes that are not those of the current name *)
Definition fresh (d : disk) (_ : unit) : disk * option bytes :=
  (d, Some match tree d !! pointer_key exports with
           | Some (Regular data) => if HasSuffix (TrimSuffix data newline) (hex_EncodeToString zeros) then ones else zeros
           | _ => zeros
           end).

Lemma exports_valid : validRegistryExportRoot exports = true.
Proof. reflexivity. Qed.
Lemma query_quiet d : quiet d (fst (query d tt)).
Proof. done. Qed.
Lemma rest_quiet d delay : quiet d (fst (rest d delay)).
Proof. done. Qed.
Lemma fresh_quiet d : quiet d (fst (fresh d tt)).
Proof. done. Qed.

Lemma suffix_same (s a b : bytes) : length a = length b -> HasSuffix s a = true -> HasSuffix s b = true -> a = b.
Proof.
  intros Hl [x ->]%HasSuffix_spec [y Hy]%HasSuffix_spec. apply app_inj_2 in Hy as [_ Hy]; [done|]. rewrite Hl. done.
Qed.
Lemma fresh_name d name entropy : pointed exports d name -> snd (fresh d tt) = Some entropy -> HasSuffix name (hex_EncodeToString entropy) = false.
Proof.
  intros [Hp _]. unfold fresh. rewrite Hp. cbn [snd]. rewrite TrimSuffix_app. destruct (HasSuffix name (hex_EncodeToString zeros)) eqn:Hz; intros [= <-]; [|done].
  apply not_true_iff_false. intros Ho. pose proof (suffix_same name _ _ (eq_refl : length (hex_EncodeToString zeros) = length (hex_EncodeToString ones)) Hz Ho) as He. vm_compute in He. discriminate He.
Qed.

Definition exporter_run := runRegistryExport never_ends Minute exports (export query (Some never_ends)) (fun _ => t0) rest (Some fresh) 1 disk0.
Definition disk2 : disk := fst exporter_run.
Lemma exporter_run_eq : exporter_run = (disk2, snd exporter_run).
Proof. unfold disk2. by rewrite <- surjective_pairing. Qed.

Lemma disk0_safe : safe exports query disk0.
Proof.
  split; [split; [exact disk0_closed|reflexivity|apply (bool_decide_unpack _); by vm_compute]|]. intros name [Hp _]. by vm_compute in Hp.
Qed.
Lemma pointer_moved : is_ok (snd (readRegistryPointer disk2 exports)) = true.
Proof. vm_cast_no_check (eq_refl true). Qed.

Lemma export_pointer_safe_witness :
  is_ok (snd (readRegistryPointer disk2 exports)) = true /\ safe exports query disk2.
Proof.
  split; [exact pointer_moved|].
  exact (proj1 (export_pointer_safe exports exports_valid query never_ends Minute (fun _ => t0) rest fresh query_quiet rest_quiet fresh_quiet fresh_name (Some never_ends))
    1%nat disk0 disk2 (snd exporter_run) disk0_safe exporter_run_eq).
Defined.

Definition settings : publishSettings := mkPublishSettings target_config (bs "token").
Definition follow_run := publish_once never_ends exports (publishing settings never_ends never_ends) (disk2, (git0, 0%nat)) new_follower.
Definition followed (e : RegistryService.pass_end (follower * Z)%type) : (follower * Z)%type := match e with Continues s => s | Returns _ => (new_follower, 0) end.
Definition follower1 : follower := fst (followed (snd follow_run)).
Definition continued (e : RegistryService.pass_end (follower * Z)%type) : bool := match e with Continues _ => true | Returns _ => false end.
Lemma continued_eq e : continued e = true -> e = Continues (fst (followed e), snd (followed e)).
Proof. by destruct e as [|[]]. Qed.
Lemma follow_run_eq : follow_run = (fst follow_run, Continues (follower1, snd (followed (snd follow_run)))).
Proof. unfold follower1. rewrite <- continued_eq; [by rewrite <- surjective_pairing|]. vm_cast_no_check (eq_refl true). Qed.
Lemma follower1_published : bytes_eqb (published_name follower1) [] = false.
Proof. vm_cast_no_check (eq_refl false). Qed.

Lemma disk2_complete name : pointed exports disk2 name -> complete exports query disk2 name.
Proof.
  exact (sf_pointer _ _ _ (start_safe exports exports_valid query never_ends Minute (fun _ => t0) rest fresh query_quiet rest_quiet fresh_quiet fresh_name (Some never_ends)
    1%nat disk0 disk2 (snd exporter_run) disk0_safe exporter_run_eq) name).
Qed.
Lemma new_follower_paced : paced (backoff new_follower).
Proof. by vm_compute. Qed.
Lemma follower1_new : published_name follower1 <> published_name new_follower.
Proof. intros He. pose proof follower1_published as Hf. rewrite He in Hf. discriminate Hf. Qed.

Lemma published_is_exported_witness :
  bytes_eqb (published_name follower1) [] = false
  /\ exists files r, exported query files /\ published publisher files git0 (fst (snd (fst follow_run))) r.
Proof.
  split; [exact follower1_published|].
  pose proof (published_is_exported exports exports_valid query settings publisher publisher_eq never_ends never_ends never_ends
    fst (fun w : git * nat => wf (fst w)) api_path disk2 (git0, 0%nat) new_follower (fst follow_run) follower1
    (snd (followed (snd follow_run))) disk2_complete git0_wf new_follower_paced) as Hall.
  destruct (Hall follow_run_eq) as (_ & _ & _ & Hp). destruct (Hp follower1_new) as (_ & files & r & Hex & _ & Hpub).
  exists files, r. split; [exact Hex|exact Hpub].
Defined.
End PublicationScenario.
