(* ===== verification/JsonFields.v ===== *)
(** * Flat JSON objects ([encoding/json.Decoder])

    [Decode] into a struct of string and integer fields, with unknown fields
    disallowed, as the program reads its own cursors. Names match in any case,
    a repeated name is assigned again, [null] leaves a field alone, ill-formed
    UTF-8 and unpaired surrogates become the replacement character, and a value
    of another type is an error. The program does not tell the errors apart. *)

From S2P Require Import Prelude GoText GoJson GoTime GoEncoding.

Inductive field_kind : Type := TextField | IntField.
Inductive field_value : Type := TextValue (s : bytes) | IntValue (z : Z).

(** U+FFFD *)
Definition replacement : bytes := utf8_encode 65533.

(** An escape after its backslash. *)
Definition scan_escape_lax (s : bytes) : option (bytes * bytes) :=
  match scan_escape s with
  | Some found => Some found
  | None =>
      match s with
      | e :: s' =>
          if byte_eqb e "u" then
            match hex4 s' with
            | Some (v, rest) => if is_high_surrogate v || is_low_surrogate v then Some (replacement, rest) else None
            | None => None
            end
          else None
      | [] => None
      end
  end.

Definition prepend (d : bytes) (r : option (bytes * bytes)) : option (bytes * bytes) :=
  (fun '(decoded, rest) => (d ++ decoded, rest)) <$> r.

(** The contents of a string after its opening quote, and what follows the
    closing quote; [length s] steps are enough. *)
Fixpoint scan_text_fuel (fuel : nat) (s : bytes) : option (bytes * bytes) :=
  match fuel, s with
  | S fuel, c :: s' =>
      if byte_eqb c quote then Some ([], s')
      else if byte_eqb c "\" then
        match scan_escape_lax s' with
        | Some (d, rest) => prepend d (scan_text_fuel fuel rest)
        | None => None
        end
      else if code c <? 32 then None
      else
        match utf8_size s with
        | Some n => prepend (take n s) (scan_text_fuel fuel (drop n s))
        | None => prepend replacement (scan_text_fuel fuel s')
        end
  | _, _ => None
  end.
Definition scan_text (s : bytes) : option (bytes * bytes) := scan_text_fuel (length s) s.

(** A value for a field: what is assigned, nothing for [null], and the rest. *)
Definition scan_field (kind : field_kind) (s : bytes) : option (option field_value * bytes) :=
  match s with
  | [] => None
  | c :: s' =>
      if byte_eqb c "n" then (fun rest => (None, rest)) <$> scan_literal (bs "null") s
      else
        match kind with
        | TextField =>
            if byte_eqb c quote then (fun '(d, rest) => (Some (TextValue d), rest)) <$> scan_text s' else None
        | IntField =>
            match scan_number s with
            | Some rest => (fun z => (Some (IntValue z), rest)) <$> ParseInt64 (consumed s rest)
            | None => None
            end
        end
  end.

(** The members up to the closing brace: the assignments in order, by the
    declared name. Each member has a byte of its own, so [length s] steps are
    enough. *)
Fixpoint scan_fields (fuel : nat) (fields : list (bytes * field_kind)) (s : bytes)
    : option (list (bytes * field_value) * bytes) :=
  match fuel with
  | O => None
  | S fuel =>
      match scan_name s with
      | None => None
      | Some (name, s1) =>
          match List.find (fun f => EqualFold name (fst f)) fields with
          | None => None
          | Some (field, kind) =>
              match scan_field kind s1 with
              | None => None
              | Some (value, s2) =>
                  let assigned := match value with Some v => [(field, v)] | None => [] end in
                  match skip_space s2 with
                  | c :: s3 =>
                      if byte_eqb c "," then
                        (fun '(more, rest) => (assigned ++ more, rest)) <$> scan_fields fuel fields (skip_space s3)
                      else if byte_eqb c "}" then Some (assigned, s3) else None
                  | [] => None
                  end
              end
          end
      end
  end.

(** [decoder.Decode(&v)]: the assignments and the unread rest. *)
Definition json_DecodeFields (fields : list (bytes * field_kind)) (data : bytes)
    : option (list (bytes * field_value) * bytes) :=
  match skip_space data with
  | [] => None
  | c :: s =>
      if byte_eqb c "{" then
        match expect "}" (skip_space s) with
        | Some rest => Some ([], rest)
        | None => scan_fields (length s) fields (skip_space s)
        end
      else (fun rest => ([], rest)) <$> scan_literal (bs "null") (c :: s)
  end.

(** The value of a field after the assignments. *)
Definition text_value (name : bytes) (assigned : list (bytes * field_value)) : bytes :=
  fold_left (fun current a => match snd a with
                              | TextValue s => if bytes_eqb (fst a) name then s else current
                              | IntValue _ => current
                              end) assigned [].
Definition int_value (name : bytes) (assigned : list (bytes * field_value)) : Z :=
  fold_left (fun current a => match snd a with
                              | IntValue z => if bytes_eqb (fst a) name then z else current
                              | TextValue _ => current
                              end) assigned 0.

(** ** Reading back what was printed *)

Lemma scan_escape_lax_app e d t : scan_escape e = Some (d, []) -> scan_escape_lax (e ++ t) = Some (d, t).
Proof. intros He. unfold scan_escape_lax. by rewrite (scan_escape_app _ _ _ He). Qed.

Lemma scan_text_app d text rest : jstring d text -> forallb is_ascii d = true -> scan_text (text ++ rest) = Some (d, rest).
Proof.
  intros Hs. unfold scan_text. assert (Hle : (length text <= length (text ++ rest))%nat) by (rewrite length_app; lia).
  revert Hle. generalize (length (text ++ rest)) as fuel.
  induction Hs as [|c d text Hq Hb Hc _ IH|e d' d text He _ IH]; intros fuel Hf Ha.
  - destruct fuel as [|fuel]; [cbn in Hf; lia|]. done.
  - destruct fuel as [|fuel]; [cbn in Hf; lia|]. cbn [app scan_text_fuel length forallb] in *. b2p.
    destruct (byte_eqb_spec c quote); [done|]. destruct (byte_eqb_spec c "\"); [done|].
    replace (code c <? 32) with false by lia. unfold utf8_size.
    unfold is_ascii in *. replace (code c <? 128) with true by lia. cbn [take drop].
    rewrite drop_0, IH by (done || lia). by rewrite take_0.
  - destruct fuel as [|fuel]; [cbn in Hf; lia|]. cbn [app scan_text_fuel length] in *.
    rewrite forallb_app in Ha. b2p.
    change (byte_eqb "\" quote) with false. change (byte_eqb "\" "\") with true. cbv iota.
    rewrite <- app_assoc, (scan_escape_lax_app _ _ _ He). rewrite length_app in Hf. by rewrite IH by (done || lia).
Qed.

(** The printed form of a value and the value a field of its kind gets. *)
Definition field_json (v : field_value) : json :=
  match v with TextValue s => JString s | IntValue z => JInt z end.
Definition field_fits (kind : field_kind) (v : field_value) : bool :=
  match kind, v with
  | TextField, TextValue s => forallb is_ascii s
  | IntField, IntValue z => (min_int64 <=? z) && (z <=? max_int64)
  | _, _ => false
  end.

Lemma ascii_utf8_fuel s : forall fuel, (length s <= fuel)%nat -> forallb is_ascii s = true -> utf8_valid_fuel fuel s = true.
Proof.
  induction s as [|c s IH]; intros [|fuel] Hf Ha; cbn [length forallb] in *; try lia; try done. b2p.
  cbn [utf8_valid_fuel]. unfold utf8_size. unfold is_ascii in *. replace (code c <? 128) with true by lia.
  cbn [drop]. rewrite drop_0. apply IH; [lia|done].
Qed.
Lemma ascii_utf8 s : forallb is_ascii s = true -> utf8_Valid s = true.
Proof. by apply ascii_utf8_fuel. Qed.

Lemma ParseInt64_FormatInt z : min_int64 <= z <= max_int64 -> ParseInt64 (FormatInt z) = Some z.
Proof.
  unfold min_int64, max_int64, FormatInt. intros Hz. destruct (Z.ltb_spec z 0) as [Hn|Hn].
  - unfold ParseInt64. change (byte_eqb "-" "+") with false. change (byte_eqb "-" "-") with true. cbv iota.
    rewrite ParseUint_FormatUint by lia. replace (- z <=? 2 ^ 63) with true by lia. f_equal. lia.
  - destruct (FormatUint_spec z) as (Hne & Hd & Hv); [unfold max_uint64; lia|].
    rewrite ParseInt64_digits by done. rewrite Hv. by replace (z <? 2 ^ 63) with true by lia.
Qed.

Lemma jnumber_not_null n t : jnumber n -> exists c r, n ++ t = c :: r /\ byte_eqb c "n" = false.
Proof.
  intros Hn. destruct (jnumber_head n Hn) as (c & r & -> & Hc). exists c, (r ++ t). split; [done|].
  destruct Hc as [->|Hc]; [done|]. destruct (byte_eqb_spec c "n") as [->|]; [done|done].
Qed.

Lemma scan_field_print kind v rest : field_fits kind v = true -> head_ok delimiter rest ->
  scan_field kind (print_json false 1 (field_json v) ++ rest) = Some (Some v, rest).
Proof.
  destruct kind, v as [s|z]; cbn [field_fits field_json print_json]; try done; intros Hok Hrest.
  - destruct (json_string_spec s (ascii_utf8 s Hok)) as (text & -> & Hj). cbn [app scan_field].
    change (byte_eqb quote "n") with false. change (byte_eqb quote quote) with true. cbv iota.
    by rewrite (scan_text_app _ _ _ Hj Hok).
  - b2p. assert (Hz : min_int64 <= z <= max_int64) by lia. pose proof (FormatInt_number z Hz) as Hn.
    destruct (jnumber_not_null _ rest Hn) as (c & r & Heq & Hc). unfold scan_field. rewrite Heq, Hc, <- Heq.
    rewrite (scan_number_app _ _ Hn Hrest), consumed_app, ParseInt64_FormatInt by done. done.
Qed.

(** A member that names a declared field and holds a value of its type. *)
Definition member_fits (fields : list (bytes * field_kind)) (m : bytes * field_value) : Prop :=
  utf8_Valid (fst m) = true
  /\ exists kind, List.find (fun f => EqualFold (fst m) (fst f)) fields = Some (fst m, kind) /\ field_fits kind (snd m) = true.

Definition print_field (m : bytes * field_value) : bytes :=
  print_member false (fst m) (print_json false 1 (field_json (snd m))).

Lemma field_head kind v t : field_fits kind v = true -> head_ok nonspace (print_json false 1 (field_json v) ++ t).
Proof.
  destruct kind, v as [s|z]; cbn [field_fits field_json print_json]; try done; intros Hok; b2p.
  destruct (jnumber_head (FormatInt z)) as (c & r & -> & Hc); [by apply FormatInt_number; lia|]. cbn [app head_ok].
  destruct Hc as [->|Hc]; [done|]. by apply value_head_nonspace, digit_value_head.
Qed.

(** One member, up to its delimiter *)
Lemma scan_member fuel fields m c rest : member_fits fields m -> delimiter c = true -> nonspace c = true ->
  scan_fields (S fuel) fields (print_field m ++ c :: rest)
  = if byte_eqb c "," then (fun '(more, rest) => (m :: more, rest)) <$> scan_fields fuel fields (skip_space rest)
    else if byte_eqb c "}" then Some ([m], rest) else None.
Proof.
  destruct m as [name v]. intros (Hu & kind & Hfind & Hfit) Hd Hs. cbn [fst snd] in *. unfold print_field, print_member. cbn [fst snd].
  destruct (json_string_spec name Hu) as (text & -> & Hj). cbn [scan_fields].
  assert (Hname : scan_name ((quote :: text) ++ bs ":" ++ print_json false 1 (field_json v) ++ c :: rest)
    = Some (name, print_json false 1 (field_json v) ++ c :: rest)).
  { apply (scan_name_app name text [] [] _ Hj); try done. by apply (field_head kind). }
  rewrite <- !app_assoc, Hname. cbv beta iota. rewrite Hfind, (scan_field_print kind v (c :: rest) Hfit Hd).
  pose proof (skip_space_app [] (c :: rest) eq_refl Hs) as Hsk. cbn [app] in Hsk. rewrite Hsk. by cbn [app].
Qed.

Lemma scan_fields_print fields ms rest : ms <> [] -> Forall (member_fits fields) ms -> forall fuel, (length ms <= fuel)%nat ->
  scan_fields fuel fields (separated (bs ",") (map print_field ms) ++ "}"%char :: rest) = Some (ms, rest).
Proof.
  intros Hne Hok. induction Hok as [|m ms Hm Hms IH]; [done|]. intros [|fuel] Hf; [cbn in Hf; lia|].
  destruct ms as [|m' ms].
  - cbn [map separated]. by rewrite (scan_member fuel fields m "}" rest Hm).
  - change (separated (bs ",") (map print_field (m :: m' :: ms)))
      with (print_field m ++ bs "," ++ separated (bs ",") (map print_field (m' :: ms))).
    rewrite <- !app_assoc. change (bs "," ++ ?x) with (","%char :: x). rewrite scan_member by done.
    change (byte_eqb "," ",") with true. cbv iota.
    set (tail := separated _ _ ++ _) in *. replace (skip_space tail) with tail; [|].
    + rewrite IH; [done|done|cbn [length] in *; lia].
    + inversion_clear Hms as [|? ? (Hu & _) _]. symmetry. apply (skip_space_app []); [done|]. unfold tail.
      destruct (json_string_spec _ Hu) as (text & Ht & _). cbn [map]. unfold print_field at 1 2, print_member. rewrite Ht.
      by destruct ms.
Qed.

Lemma length_printed ms : (length ms <= length (separated (bs ",") (map print_field ms)))%nat.
Proof.
  assert (Hone : forall m, (1 <= length (print_field m))%nat).
  { intros m. unfold print_field, print_member. rewrite !length_app. cbn. lia. }
  induction ms as [|m ms IH]; [done|]. destruct ms as [|m' ms]; [apply Hone|].
  change (separated (bs ",") (map print_field (m :: m' :: ms)))
    with (print_field m ++ bs "," ++ separated (bs ",") (map print_field (m' :: ms))).
  rewrite !length_app. change (length (bs ",")) with 1%nat. cbn [length] in *. lia.
Qed.

(** Decoding the object of some members gives their values back. *)
Lemma DecodeFields_print fields ms rest : ms <> [] -> Forall (member_fits fields) ms ->
  json_DecodeFields fields (print_json false 0 (JObject (map (fun m => (fst m, field_json (snd m))) ms)) ++ rest) = Some (ms, rest).
Proof.
  intros Hne Hok. cbn [print_json]. rewrite map_map. unfold enclosed.
  change (fun x => print_member false (fst (fst x, field_json (snd x))) _) with print_field.
  destruct (map print_field ms) as [|p ps] eqn:Hmap; [by destruct ms|]. rewrite <- Hmap. cbn [newline app].
  rewrite app_nil_r, <- app_assoc. cbn [app]. unfold json_DecodeFields.
  match goal with |- context [skip_space (?c :: ?s)] => change (skip_space (c :: s)) with (c :: s) end.
  cbv iota. change (byte_eqb "{" "{") with true. cbv iota.
  set (body := separated _ _ ++ _).
  assert (Hhead : exists t, body = quote :: t).
  { unfold body. destruct ms as [|m ms]; [done|]. inversion_clear Hok as [|? ? (Hu & _) _].
    destruct (json_string_spec _ Hu) as (text & Ht & _). cbn [map]. unfold print_field, print_member. rewrite Ht.
    destruct ms; eexists; reflexivity. }
  assert (Hskip : skip_space body = body) by (destruct Hhead as (t & ->); done).
  rewrite Hskip. replace (expect "}" body) with (@None bytes) by (destruct Hhead as (t & ->); done).
  apply scan_fields_print; [done|done|]. unfold body. rewrite length_app. pose proof (length_printed ms). lia.
Qed.

(** * JSON values kept as they are ([encoding/json.RawMessage])

    The values [encoding/json] accepts as trees, which is what unmarshalling a
    raw message later depends on. Strings are decoded the way the package
    decodes them: ill-formed UTF-8 and unpaired surrogates become the
    replacement character, and names may repeat. *)


#[local] Set Warnings "-register-all".

Inductive raw : Type :=
| RawNull
| RawBool (b : bool)
| RawNumber (text : bytes)
| RawString (s : bytes)
| RawArray (l : list raw)
| RawObject (members : list (bytes * raw)).

(** A member name, its colon and the position of its value. *)
Definition scan_raw_name (s : bytes) : option (bytes * bytes) :=
  s1 ← expect quote s;
  '(name, s2) ← scan_text s1;
  s3 ← expect ":" (skip_space s2);
  Some (name, skip_space s3).

(** A value with what follows it, the elements up to the closing bracket and
    the members up to the closing brace. Each call is at a later position than
    the one two calls up, so [2 * length s + 2] steps are enough. *)
Fixpoint scan_raw (fuel : nat) (depth : Z) (s : bytes) {struct fuel} : option (raw * bytes) :=
  match fuel, s with
  | S fuel, c :: s' =>
      if byte_eqb c "{" then
        if depth =? maxNestingDepth then None
        else
          match expect "}" (skip_space s') with
          | Some rest => Some (RawObject [], rest)
          | None => '(members, rest) ← scan_raw_members fuel (depth + 1) (skip_space s'); Some (RawObject members, rest)
          end
      else if byte_eqb c "[" then
        if depth =? maxNestingDepth then None
        else
          match expect "]" (skip_space s') with
          | Some rest => Some (RawArray [], rest)
          | None => '(l, rest) ← scan_raw_elements fuel (depth + 1) (skip_space s'); Some (RawArray l, rest)
          end
      else if byte_eqb c quote then '(text, rest) ← scan_text s'; Some (RawString text, rest)
      else if byte_eqb c "t" then rest ← scan_literal (bs "true") s; Some (RawBool true, rest)
      else if byte_eqb c "f" then rest ← scan_literal (bs "false") s; Some (RawBool false, rest)
      else if byte_eqb c "n" then rest ← scan_literal (bs "null") s; Some (RawNull, rest)
      else rest ← scan_number s; Some (RawNumber (consumed s rest), rest)
  | _, _ => None
  end
with scan_raw_elements (fuel : nat) (depth : Z) (s : bytes) {struct fuel} : option (list raw * bytes) :=
  match fuel with
  | O => None
  | S fuel =>
      '(v, s1) ← scan_raw fuel depth s;
      match skip_space s1 with
      | c :: s2 =>
          if byte_eqb c "," then '(l, rest) ← scan_raw_elements fuel depth (skip_space s2); Some (v :: l, rest)
          else if byte_eqb c "]" then Some ([v], s2) else None
      | [] => None
      end
  end
with scan_raw_members (fuel : nat) (depth : Z) (s : bytes) {struct fuel} : option (list (bytes * raw) * bytes) :=
  match fuel with
  | O => None
  | S fuel =>
      '(name, s0) ← scan_raw_name s;
      '(v, s1) ← scan_raw fuel depth s0;
      match skip_space s1 with
      | c :: s2 =>
          if byte_eqb c "," then
            '(members, rest) ← scan_raw_members fuel depth (skip_space s2); Some ((name, v) :: members, rest)
          else if byte_eqb c "}" then Some ([(name, v)], s2) else None
      | [] => None
      end
  end.

(** The value [decoder.Decode] reads, and what is left. *)
Definition json_DecodeRaw (data : bytes) : option (raw * bytes) :=
  scan_raw (2 * length data + 2) 0 (skip_space data).

(** [decoder.More()]: a byte that closes no container follows. *)
Definition json_More (rest : bytes) : bool :=
  match skip_space rest with
  | [] => false
  | c :: _ => negb (byte_eqb c "]") && negb (byte_eqb c "}")
  end.
