(* ===== verification/ReportData.v ===== *)
(** * The reporting contract ([internal/reporting/reporting.go], [source_detail.go])

    The records the reporting service returns, as the read model fills them
    and as [json.Marshal] writes them: a member tagged [omitempty] is left out
    when its value is empty or its pointer nil. *)

From S2P Require Import Prelude GoText GoJson GoTime GoEncoding.

(** ** Records *)

Record ControlStatus : Type := mkControlStatus {
  DiscoveryPaused : bool;
  VerificationPaused_ : bool;
  AutomaticExpansionPaused : bool;
  ControlStatus_UpdatedAt : Z;
}.

Record BackpressureStatus : Type := mkBackpressure {
  AutomaticCrawlEnabled : bool;
  Active : bool;
  PendingProbes : Z;
  MaxPendingProbes : Z;
}.

Record QueueSummary : Type := mkQueueSummary {
  QueueSummary_Total : Z;
  Probe : Z;
  Reprobe : Z;
  Recurring : Z;
  Leased : Z;
  OldestAvailableAt : option Z;
}.

Record SourceSummary : Type := mkSourceSummary {
  SourceSummary_Total : Z;
  SourceSummary_Seeded : Z;
  SourceSummary_Automatic : Z;
  SourceSummary_Verified : Z;
  SourceSummary_Blocked : Z;
  SourceSummary_CrawlEligible : Z;
}.

Record ServiceStatus : Type := mkServiceStatus {
  Service : bytes;
  InstanceID : bytes;
  ServiceStatus_State : bytes;
  CurrentOrigin : bytes;
  Message : bytes;
  ServiceStatus_StartedAt : Z;
  ServiceStatus_UpdatedAt : Z;
}.

Record Status : Type := mkStatus {
  GeneratedAt : Z;
  Control : ControlStatus;
  Backpressure : BackpressureStatus;
  Status_Queue : QueueSummary;
  Status_Sources : SourceSummary;
  Status_Services : list ServiceStatus;
}.

Record CrawlSource : Type := mkCrawlSource {
  CrawlSource_Origin : bytes;
  CrawlSource_Seeded : bool;
  CrawlSource_AutomaticallyDiscovered : bool;
  CrawlSource_Blocked : bool;
  CrawlSource_Verified : bool;
  CrawlSource_CrawlEligible : bool;
  CrawlSource_FirstDiscoveredAt : option Z;
  CrawlSource_LastDiscoveredAt : option Z;
  CrawlSource_LeaseGeneration : Z;
  CrawlSource_LeaseOwner : bytes;
  CrawlSource_LeaseExpiresAt : option Z;
  CrawlSource_LastClaimedAt : option Z;
}.

Record CrawlRun : Type := mkCrawlRun {
  CrawlRun_ID : Z;
  CrawlRun_SourceOrigin : bytes;
  CrawlRun_StartedAt : Z;
  CrawlRun_FinishedAt : option Z;
  CrawlRun_Outcome : bytes;
  CrawlRun_StopReason : bytes;
  CrawlRun_PagesAttempted : Z;
  CrawlRun_PagesParsed : Z;
  CrawlRun_CandidatesDiscovered : Z;
  CrawlRun_BudgetExhausted : bool;
  CrawlRun_MaxDepth : Z;
  CrawlRun_MaxPages : Z;
  CrawlRun_MaxPageBytes : Z;
  CrawlRun_RequestDelayMilliseconds : Z;
  CrawlRun_RedirectLimit : Z;
  CrawlRun_PageTimeoutMilliseconds : Z;
  CrawlRun_PromotionsAdmitted : Z;
  CrawlRun_PromotionsDeferred : Z;
  CrawlRun_FailureCategory : bytes;
  CrawlRun_PagesBlocked : Z;
  CrawlRun_PagesFailed : Z;
  CrawlRun_URLsFound : Z;
  CrawlRun_URLsEnqueued : Z;
  CrawlRun_FrontierRemaining : Z;
}.

Record PageAttempt : Type := mkPageAttempt {
  PageAttempt_Sequence : Z;
  PageAttempt_RequestedURL : bytes;
  PageAttempt_FinalURL : bytes;
  PageAttempt_Depth : Z;
  PageAttempt_StartedAt : Z;
  PageAttempt_DurationMillis : Z;
  PageAttempt_StatusCode : option Z;
  PageAttempt_ResponseBytes : Z;
  PageAttempt_ContentType : bytes;
  PageAttempt_RedirectCount : Z;
  PageAttempt_RobotsDecision : bytes;
  PageAttempt_InternalLinkCount : Z;
  PageAttempt_ExternalLinkCount : Z;
  PageAttempt_Outcome : bytes;
  PageAttempt_FailureCategory : bytes;
  PageAttempt_URLsFound : Z;
  PageAttempt_URLsEnqueued : Z;
}.

Record CrawlDetail : Type := mkCrawlDetail {
  CrawlDetail_Run : CrawlRun;
  CrawlDetail_Pages : list PageAttempt;
  CrawlDetail_NextCursor : bytes;
}.

Record QueueItem : Type := mkQueueItem {
  QueueItem_Origin : bytes;
  QueueItem_Mode : bytes;
  QueueItem_AvailableAt : Z;
  QueueItem_LeaseGeneration : Z;
  QueueItem_LeaseOwner : bytes;
  QueueItem_LeaseExpiresAt : option Z;
  QueueItem_LastClaimedAt : option Z;
}.

Record QueueEvent : Type := mkQueueEvent {
  QueueEvent_ID : Z;
  QueueEvent_Origin : bytes;
  QueueEvent_OccurredAt : Z;
  QueueEvent_Event : bytes;
  QueueEvent_Mode : bytes;
  QueueEvent_AvailableAt : option Z;
  QueueEvent_LeaseOwner : bytes;
  QueueEvent_LeaseGeneration : Z;
  QueueEvent_LeaseExpiresAt : option Z;
}.

Record AuditEvent : Type := mkAuditEvent {
  AuditEvent_ID : Z;
  AuditEvent_OccurredAt : Z;
  AuditEvent_Action : bytes;
  AuditEvent_Target : bytes;
  AuditEvent_Caller : bytes;
  AuditEvent_Actor : bytes;
  AuditEvent_Result : bytes;
  AuditEvent_Reason : bytes;
}.

Record DiscoveryProvenance : Type := mkProvenance {
  Provenance_SourceOrigin : bytes;
  Provenance_Kind : bytes;
  Provenance_FirstDiscoveredAt : Z;
  Provenance_LastDiscoveredAt : Z;
}.

Record RobotsObservation : Type := mkRobotsObservation {
  CrawlRunID : Z;
  RobotsObservation_Sequence : Z;
  ObservedAt : Z;
  Decision : bytes;
}.

Record SourceDetail : Type := mkSourceDetail {
  SourceDetail_Source : CrawlSource;
  DiscoveredBy : list DiscoveryProvenance;
  SourceDetail_Queue : option QueueItem;
  LatestCrawl : option CrawlRun;
  LatestRobotsObservation : option RobotsObservation;
}.

Record MetricBreakdown : Type := mkBreakdown { Label : bytes; Count : Z }.

Record OperationalMetrics : Type := mkMetrics {
  Metrics_Candidates : Z;
  Metrics_DiscoveryEdges : Z;
  Metrics_CrawlRuns : Z;
  Metrics_UnfinishedCrawlRuns : Z;
  Metrics_PagesAttempted : Z;
  Metrics_PagesParsed : Z;
  Metrics_OriginsFound : Z;
  Metrics_OriginsPromoted : Z;
  Metrics_OriginsDeferred : Z;
  Metrics_Failures : Z;
  Metrics_RobotsDenials : Z;
  PageFailureCategories : list MetricBreakdown;
  HTTPStatuses : list MetricBreakdown;
  VerificationQueueFailureCategories : list MetricBreakdown;
}.

(** The zero value the handler starts from. *)
Definition no_metrics : OperationalMetrics := mkMetrics 0 0 0 0 0 0 0 0 0 0 0 [] [] [].

(** ** Their JSON *)

(** Members tagged [omitempty] *)
Definition omit_text (name s : bytes) : list (bytes * json) := if bytes_eqb s [] then [] else [(name, JString s)].
Definition omit_nil {A} (name : bytes) (f : A -> json) (v : option A) : list (bytes * json) :=
  match v with Some x => [(name, f x)] | None => [] end.

Definition ControlStatus_json (c : ControlStatus) : json :=
  JObject [(bs "discovery_paused", JBool (DiscoveryPaused c)); (bs "verification_paused", JBool (VerificationPaused_ c));
    (bs "automatic_expansion_paused", JBool (AutomaticExpansionPaused c)); (bs "updated_at", JTime (ControlStatus_UpdatedAt c))].

Definition BackpressureStatus_json (b : BackpressureStatus) : json :=
  JObject [(bs "automatic_crawl_enabled", JBool (AutomaticCrawlEnabled b)); (bs "active", JBool (Active b));
    (bs "pending_probes", JInt (PendingProbes b)); (bs "max_pending_probes", JInt (MaxPendingProbes b))].

Definition QueueSummary_json (q : QueueSummary) : json :=
  JObject ([(bs "total", JInt (QueueSummary_Total q)); (bs "probe", JInt (Probe q)); (bs "reprobe", JInt (Reprobe q));
    (bs "recurring", JInt (Recurring q)); (bs "leased", JInt (Leased q))]
    ++ omit_nil (bs "oldest_available_at") JTime (OldestAvailableAt q)).

Definition SourceSummary_json (s : SourceSummary) : json :=
  JObject [(bs "total", JInt (SourceSummary_Total s)); (bs "seeded", JInt (SourceSummary_Seeded s));
    (bs "automatic", JInt (SourceSummary_Automatic s)); (bs "verified", JInt (SourceSummary_Verified s));
    (bs "blocked", JInt (SourceSummary_Blocked s)); (bs "crawl_eligible", JInt (SourceSummary_CrawlEligible s))].

Definition ServiceStatus_json (s : ServiceStatus) : json :=
  JObject ([(bs "service", JString (Service s)); (bs "instance_id", JString (InstanceID s));
    (bs "state", JString (ServiceStatus_State s))]
    ++ omit_text (bs "current_origin") (CurrentOrigin s) ++ omit_text (bs "message") (Message s)
    ++ [(bs "started_at", JTime (ServiceStatus_StartedAt s)); (bs "updated_at", JTime (ServiceStatus_UpdatedAt s))]).

Definition Status_json (s : Status) : json :=
  JObject [(bs "generated_at", JTime (GeneratedAt s)); (bs "control", ControlStatus_json (Control s));
    (bs "backpressure", BackpressureStatus_json (Backpressure s)); (bs "queue", QueueSummary_json (Status_Queue s));
    (bs "sources", SourceSummary_json (Status_Sources s));
    (bs "services", JArray (map ServiceStatus_json (Status_Services s)))].

Definition CrawlSource_json (s : CrawlSource) : json :=
  JObject ([(bs "origin", JString (CrawlSource_Origin s)); (bs "seeded", JBool (CrawlSource_Seeded s));
    (bs "automatically_discovered", JBool (CrawlSource_AutomaticallyDiscovered s));
    (bs "blocked", JBool (CrawlSource_Blocked s)); (bs "verified", JBool (CrawlSource_Verified s));
    (bs "crawl_eligible", JBool (CrawlSource_CrawlEligible s))]
    ++ omit_nil (bs "first_discovered_at") JTime (CrawlSource_FirstDiscoveredAt s)
    ++ omit_nil (bs "last_discovered_at") JTime (CrawlSource_LastDiscoveredAt s)
    ++ [(bs "lease_generation", JInt (CrawlSource_LeaseGeneration s))]
    ++ omit_text (bs "lease_owner") (CrawlSource_LeaseOwner s)
    ++ omit_nil (bs "lease_expires_at") JTime (CrawlSource_LeaseExpiresAt s)
    ++ omit_nil (bs "last_claimed_at") JTime (CrawlSource_LastClaimedAt s)).

Definition CrawlRun_json (r : CrawlRun) : json :=
  JObject ([(bs "id", JInt (CrawlRun_ID r)); (bs "source_origin", JString (CrawlRun_SourceOrigin r));
    (bs "started_at", JTime (CrawlRun_StartedAt r))]
    ++ omit_nil (bs "finished_at") JTime (CrawlRun_FinishedAt r)
    ++ [(bs "outcome", JString (CrawlRun_Outcome r)); (bs "stop_reason", JString (CrawlRun_StopReason r));
    (bs "pages_attempted", JInt (CrawlRun_PagesAttempted r)); (bs "pages_parsed", JInt (CrawlRun_PagesParsed r));
    (bs "candidates_discovered", JInt (CrawlRun_CandidatesDiscovered r));
    (bs "budget_exhausted", JBool (CrawlRun_BudgetExhausted r)); (bs "max_depth", JInt (CrawlRun_MaxDepth r));
    (bs "max_pages", JInt (CrawlRun_MaxPages r)); (bs "max_page_bytes", JInt (CrawlRun_MaxPageBytes r));
    (bs "request_delay_milliseconds", JInt (CrawlRun_RequestDelayMilliseconds r));
    (bs "redirect_limit", JInt (CrawlRun_RedirectLimit r));
    (bs "page_timeout_milliseconds", JInt (CrawlRun_PageTimeoutMilliseconds r));
    (bs "promotions_admitted", JInt (CrawlRun_PromotionsAdmitted r));
    (bs "promotions_deferred", JInt (CrawlRun_PromotionsDeferred r));
    (bs "failure_category", JString (CrawlRun_FailureCategory r)); (bs "pages_blocked", JInt (CrawlRun_PagesBlocked r));
    (bs "pages_failed", JInt (CrawlRun_PagesFailed r)); (bs "urls_found", JInt (CrawlRun_URLsFound r));
    (bs "urls_enqueued", JInt (CrawlRun_URLsEnqueued r)); (bs "frontier_remaining", JInt (CrawlRun_FrontierRemaining r))]).

Definition PageAttempt_json (p : PageAttempt) : json :=
  JObject ([(bs "sequence", JInt (PageAttempt_Sequence p)); (bs "requested_url", JString (PageAttempt_RequestedURL p));
    (bs "final_url", JString (PageAttempt_FinalURL p)); (bs "depth", JInt (PageAttempt_Depth p));
    (bs "started_at", JTime (PageAttempt_StartedAt p)); (bs "duration_milliseconds", JInt (PageAttempt_DurationMillis p))]
    ++ omit_nil (bs "status_code") JInt (PageAttempt_StatusCode p)
    ++ [(bs "response_bytes", JInt (PageAttempt_ResponseBytes p)); (bs "content_type", JString (PageAttempt_ContentType p));
    (bs "redirect_count", JInt (PageAttempt_RedirectCount p)); (bs "robots_decision", JString (PageAttempt_RobotsDecision p));
    (bs "internal_link_count", JInt (PageAttempt_InternalLinkCount p));
    (bs "external_link_count", JInt (PageAttempt_ExternalLinkCount p)); (bs "outcome", JString (PageAttempt_Outcome p));
    (bs "failure_category", JString (PageAttempt_FailureCategory p)); (bs "urls_found", JInt (PageAttempt_URLsFound p));
    (bs "urls_enqueued", JInt (PageAttempt_URLsEnqueued p))]).

Definition CrawlDetail_json (d : CrawlDetail) : json :=
  JObject ([(bs "run", CrawlRun_json (CrawlDetail_Run d));
    (bs "pages", JArray (map PageAttempt_json (CrawlDetail_Pages d)))]
    ++ omit_text (bs "next_cursor") (CrawlDetail_NextCursor d)).

Definition QueueItem_json (q : QueueItem) : json :=
  JObject ([(bs "origin", JString (QueueItem_Origin q)); (bs "mode", JString (QueueItem_Mode q));
    (bs "available_at", JTime (QueueItem_AvailableAt q)); (bs "lease_generation", JInt (QueueItem_LeaseGeneration q))]
    ++ omit_text (bs "lease_owner") (QueueItem_LeaseOwner q)
    ++ omit_nil (bs "lease_expires_at") JTime (QueueItem_LeaseExpiresAt q)
    ++ omit_nil (bs "last_claimed_at") JTime (QueueItem_LastClaimedAt q)).

Definition QueueEvent_json (e : QueueEvent) : json :=
  JObject ([(bs "id", JInt (QueueEvent_ID e)); (bs "origin", JString (QueueEvent_Origin e));
    (bs "occurred_at", JTime (QueueEvent_OccurredAt e)); (bs "event", JString (QueueEvent_Event e));
    (bs "mode", JString (QueueEvent_Mode e))]
    ++ omit_nil (bs "available_at") JTime (QueueEvent_AvailableAt e)
    ++ omit_text (bs "lease_owner") (QueueEvent_LeaseOwner e)
    ++ [(bs "lease_generation", JInt (QueueEvent_LeaseGeneration e))]
    ++ omit_nil (bs "lease_expires_at") JTime (QueueEvent_LeaseExpiresAt e)).

Definition AuditEvent_json (a : AuditEvent) : json :=
  JObject [(bs "id", JInt (AuditEvent_ID a)); (bs "occurred_at", JTime (AuditEvent_OccurredAt a));
    (bs "action", JString (AuditEvent_Action a)); (bs "target", JString (AuditEvent_Target a));
    (bs "caller", JString (AuditEvent_Caller a)); (bs "actor", JString (AuditEvent_Actor a));
    (bs "result", JString (AuditEvent_Result a)); (bs "reason", JString (AuditEvent_Reason a))].

Definition Provenance_json (p : DiscoveryProvenance) : json :=
  JObject [(bs "source_origin", JString (Provenance_SourceOrigin p)); (bs "kind", JString (Provenance_Kind p));
    (bs "first_discovered_at", JTime (Provenance_FirstDiscoveredAt p));
    (bs "last_discovered_at", JTime (Provenance_LastDiscoveredAt p))].

Definition RobotsObservation_json (r : RobotsObservation) : json :=
  JObject [(bs "crawl_run_id", JInt (CrawlRunID r)); (bs "sequence", JInt (RobotsObservation_Sequence r));
    (bs "observed_at", JTime (ObservedAt r)); (bs "decision", JString (Decision r))].

Definition SourceDetail_json (d : SourceDetail) : json :=
  JObject ([(bs "source", CrawlSource_json (SourceDetail_Source d));
    (bs "discovered_by", JArray (map Provenance_json (DiscoveredBy d)))]
    ++ omit_nil (bs "queue") QueueItem_json (SourceDetail_Queue d)
    ++ omit_nil (bs "latest_crawl") CrawlRun_json (LatestCrawl d)
    ++ omit_nil (bs "latest_robots_observation") RobotsObservation_json (LatestRobotsObservation d)).
