(* ===== verification/Pagination.v ===== *)
(** * Report queries and cursors ([internal/reporting/pagination.go],
    [crawl_detail_pagination.go])

    The query of a report page from the parameters of the request, the opaque
    cursor a page ends with, and the cut of a page from the rows that were
    fetched, one more than its limit. *)

From S2P Require Import Prelude GoText GoUrl GoErrors GoNetip GoJson GoTime GoEncoding Origin JsonFields ReportData.

Definition defaultLimit : Z := 100.
Definition maxLimit : Z := 1000.
Definition cursorVersion : Z := 1.

(** [url.Values] *)
Abbreviation Values := (gmap bytes (list bytes)) (only parsing).

Definition Values_Get (values : Values) (name : bytes) : bytes :=
  match values !! name with Some (v :: _) => v | _ => [] end.

(** ** Cursors and queries *)

Record sourceCursor : Type := mkSourceCursor { sourceCursor_Origin : bytes }.
Record crawlCursor : Type := mkCrawlCursor { crawlCursor_StartedAt : Z; crawlCursor_ID : Z }.
Record queueCursor : Type := mkQueueCursor { queueCursor_AvailableAt : Z; queueCursor_Origin : bytes }.
Record queueEventCursor : Type := mkQueueEventCursor { queueEventCursor_OccurredAt : Z; queueEventCursor_ID : Z }.
Record auditCursor : Type := mkAuditCursor { auditCursor_OccurredAt : Z; auditCursor_ID : Z }.

Record auditQuery : Type := mkAuditQuery { auditQuery_Limit : Z; auditQuery_Cursor : option auditCursor }.

Record sourceQuery : Type := mkSourceQuery {
  sourceQuery_Limit : Z;
  sourceQuery_Cursor : option sourceCursor;
  sourceQuery_Origin : bytes;
  sourceQuery_Seeded : option bool;
  sourceQuery_Automatic : option bool;
  sourceQuery_Verified : option bool;
  sourceQuery_Blocked : option bool;
  sourceQuery_CrawlEligible : option bool;
}.

Record crawlQuery : Type := mkCrawlQuery {
  crawlQuery_Limit : Z;
  crawlQuery_Cursor : option crawlCursor;
  crawlQuery_Origin : bytes;
  crawlQuery_Outcome : bytes;
}.

Record queueQuery : Type := mkQueueQuery {
  queueQuery_Limit : Z;
  queueQuery_Cursor : option queueCursor;
  queueQuery_Origin : bytes;
  queueQuery_Mode : bytes;
  queueQuery_Leased : option bool;
}.

Record queueEventQuery : Type := mkQueueEventQuery {
  queueEventQuery_Limit : Z;
  queueEventQuery_Cursor : option queueEventCursor;
  queueEventQuery_Origin : bytes;
  queueEventQuery_Event : bytes;
  queueEventQuery_Mode : bytes;
}.

(** [sourcePage], [crawlPage], [queuePage], [queueEventPage], [auditPage] *)
Record page (A : Type) : Type := mkPage { page_Items : list A; page_NextCursor : bytes }.
Arguments mkPage {A}. Arguments page_Items {A}. Arguments page_NextCursor {A}.

Record cursorPayload : Type := mkPayload {
  payload_Version : Z;
  payload_Kind : bytes;
  payload_Origin : bytes;
  payload_At : bytes;
  payload_ID : Z;
}.

(** The tags of [cursorPayload] *)
Definition cursor_fields : list (bytes * field_kind) :=
  [(bs "v", IntField); (bs "kind", TextField); (bs "origin", TextField); (bs "at", TextField); (bs "id", IntField)].

(** ** Parameters *)

Definition requestLimit (values : Values) : res error Z :=
  let raw := Values_Get values (bs "limit") in
  if bytes_eqb raw [] then Ok defaultLimit
  else
    match ParseInt64 raw with
    | None => Err (errors_New errInvalidLimit)
    | Some limit => if (limit <? 1) || (maxLimit <? limit) then Err (errors_New errInvalidLimit) else Ok limit
    end.

(** A repeated parameter reads as a byte no value may hold. *)
Definition queryValue (values : Values) (name : bytes) : bytes :=
  match values !! name with
  | None | Some [] => []
  | Some [item] => item
  | Some _ => [chr 0]
  end.

Definition queryBool (values : Values) (name : bytes) : res error (option bool) :=
  let raw := queryValue values name in
  if bytes_eqb raw [] then Ok None
  else if bytes_eqb raw (bs "true") then Ok (Some true)
  else if bytes_eqb raw (bs "false") then Ok (Some false)
  else Err (errors_New errInvalidFilter).

Definition queryEnum (values : Values) (name : bytes) (allowed : list bytes) : res error bytes :=
  let raw := queryValue values name in
  if bytes_eqb raw [] then Ok []
  else if existsb (bytes_eqb raw) allowed then Ok raw
  else Err (errors_New errInvalidFilter).

Definition outcome_filters : list bytes :=
  [bs "running"; bs "complete"; bs "budget_exhausted"; bs "canceled"; bs "failed"].
Definition mode_filters : list bytes := [bs "probe"; bs "reprobe"; bs "recurring"].
Definition event_filters : list bytes :=
  [bs "scheduled"; bs "claimed"; bs "renewed"; bs "rescheduled"; bs "completed"; bs "removed"].

(** ** Encoding *)

Definition omit_zero (name : bytes) (z : Z) : list (bytes * field_value) := if z =? 0 then [] else [(name, IntValue z)].
Definition omit_empty (name s : bytes) : list (bytes * field_value) := if bytes_eqb s [] then [] else [(name, TextValue s)].

(** The members [json.Marshal] writes *)
Definition payload_members (p : cursorPayload) : list (bytes * field_value) :=
  [(bs "v", IntValue (payload_Version p)); (bs "kind", TextValue (payload_Kind p))]
    ++ omit_empty (bs "origin") (payload_Origin p) ++ omit_empty (bs "at") (payload_At p)
    ++ omit_zero (bs "id") (payload_ID p).

Definition encodeCursor (p : cursorPayload) : bytes :=
  base64_Encode base64_RawURL
    (default [] (json_Marshal (JObject (map (fun m => (fst m, field_json (snd m))) (payload_members p))))).

Definition decodeCursor (raw kind : bytes) : res error cursorPayload :=
  match base64_Decode base64_RawURL raw with
  | None => Err (errors_New errInvalidCursor)
  | Some decoded =>
      match json_DecodeFields cursor_fields decoded with
      | None => Err (errors_New errInvalidCursor)
      | Some (assigned, rest) =>
          (* the second [Decode] reports [io.EOF] when only white space is left *)
          if negb (bytes_eqb (skip_space rest) []) then Err (errors_New errInvalidCursor)
          else
            let payload := mkPayload (int_value (bs "v") assigned) (text_value (bs "kind") assigned)
              (text_value (bs "origin") assigned) (text_value (bs "at") assigned) (int_value (bs "id") assigned) in
            if negb (payload_Version payload =? cursorVersion) || negb (bytes_eqb (payload_Kind payload) kind)
            then Err (errors_New errInvalidCursor)
            else Ok payload
      end
  end.

Definition sourceNextCursor (item : CrawlSource) : bytes :=
  encodeCursor (mkPayload cursorVersion (bs "sources") (CrawlSource_Origin item) [] 0).
Definition crawlNextCursor (item : CrawlRun) : bytes :=
  encodeCursor (mkPayload cursorVersion (bs "crawls") [] (FormatRFC3339Nano (CrawlRun_StartedAt item)) (CrawlRun_ID item)).
Definition queueNextCursor (item : QueueItem) : bytes :=
  encodeCursor (mkPayload cursorVersion (bs "queue") (QueueItem_Origin item) (FormatRFC3339Nano (QueueItem_AvailableAt item)) 0).
Definition queueEventNextCursor (item : QueueEvent) : bytes :=
  encodeCursor (mkPayload cursorVersion (bs "queue_events") [] (FormatRFC3339Nano (QueueEvent_OccurredAt item))
    (QueueEvent_ID item)).
Definition auditNextCursor (item : AuditEvent) : bytes :=
  encodeCursor (mkPayload cursorVersion (bs "audit") [] (FormatRFC3339Nano (AuditEvent_OccurredAt item)) (AuditEvent_ID item)).

(** ** Pages *)

Definition pageLimit (limit : Z) : res error Z :=
  if (limit <? 1) || (maxLimit <? limit) then Err (errors_New errInvalidLimit) else Ok (limit + 1).

(** [trimSourcePage] and the others *)
Definition trim_page {A} (nextCursor : A -> bytes) (items : list A) (limit : Z) : page A :=
  if Z.of_nat (length items) <=? limit then mkPage items []
  else
    let items := take (Z.to_nat limit) items in
    mkPage items (match last items with Some item => nextCursor item | None => [] end).

Definition trimSourcePage : list CrawlSource -> Z -> page CrawlSource := trim_page sourceNextCursor.
Definition trimCrawlPage : list CrawlRun -> Z -> page CrawlRun := trim_page crawlNextCursor.
Definition trimQueuePage : list QueueItem -> Z -> page QueueItem := trim_page queueNextCursor.
Definition trimQueueEventPage : list QueueEvent -> Z -> page QueueEvent := trim_page queueEventNextCursor.
Definition trimAuditPage : list AuditEvent -> Z -> page AuditEvent := trim_page auditNextCursor.

(** The pages a cursor has not passed yet *)
Fixpoint skip_pages (after : Z) (pages : list PageAttempt) : list PageAttempt :=
  match pages with
  | p :: rest => if PageAttempt_Sequence p <=? after then skip_pages after rest else pages
  | [] => []
  end.

Definition crawlPagesCursor (id sequence : Z) : bytes :=
  encodeCursor (mkPayload cursorVersion (bs "crawl_pages") (FormatInt id) [] sequence).

Definition boundedCrawlDetail (detail : CrawlDetail) (id limit after : Z) : CrawlDetail :=
  let pages := skip_pages after (CrawlDetail_Pages detail) in
  if limit <? Z.of_nat (length pages) then
    let pages := take (Z.to_nat limit) pages in
    mkCrawlDetail (CrawlDetail_Run detail) pages
      (match last pages with Some p => crawlPagesCursor id (PageAttempt_Sequence p) | None => [] end)
  else mkCrawlDetail (CrawlDetail_Run detail) pages [].

Section Queries.
Context `{NetURL} `{NetIP} `{IDNA} `{TimeText}.

Definition queryOrigin (values : Values) : res error bytes :=
  let raw := queryValue values (bs "origin") in
  if bytes_eqb raw [] then Ok []
  else if bytes_eqb raw [chr 0] then Err (errors_New errInvalidOriginFilter)
  else
    match Origin.Parse raw with
    | Err _ => Err (errors_New errInvalidOriginFilter)
    | Ok parsed =>
        if bytes_eqb (origin_String parsed) [] then Err (errors_New errInvalidOriginFilter) else Ok (origin_String parsed)
    end.

(** ** Decoding *)

Definition canonicalCursorOrigin (raw : bytes) : bool :=
  if bytes_eqb raw [] then false
  else match Origin.Parse raw with Err _ => false | Ok parsed => bytes_eqb (origin_String parsed) raw end.

(** [time.Parse] and the test for the zero time *)
Definition cursor_time (at_ : bytes) : option Z :=
  match time_ParseRFC3339Nano at_ with Some t => if time_IsZero t then None else Some t | None => None end.

Definition decodeSourceCursor (raw : bytes) : res error (option sourceCursor) :=
  if bytes_eqb raw [] then Ok None
  else
    match decodeCursor raw (bs "sources") with
    | Err _ => Err (errors_New errInvalidCursor)
    | Ok payload =>
        if negb (bytes_eqb (payload_At payload) []) || negb (payload_ID payload =? 0)
           || negb (canonicalCursorOrigin (payload_Origin payload))
        then Err (errors_New errInvalidCursor)
        else Ok (Some (mkSourceCursor (payload_Origin payload)))
    end.

(** The instant and the id of [decodeCrawlCursor], [decodeQueueEventCursor] and
    [decodeAuditCursor] *)
Definition decode_instant_id (raw kind : bytes) : res error (Z * Z) :=
  match decodeCursor raw kind with
  | Err _ => Err (errors_New errInvalidCursor)
  | Ok payload =>
      if negb (bytes_eqb (payload_Origin payload) []) || (payload_ID payload <=? 0) then Err (errors_New errInvalidCursor)
      else
        match cursor_time (payload_At payload) with
        | None => Err (errors_New errInvalidCursor)
        | Some t => Ok (t, payload_ID payload)
        end
  end.

Definition decodeCrawlCursor (raw : bytes) : res error (option crawlCursor) :=
  if bytes_eqb raw [] then Ok None
  else let? key := decode_instant_id raw (bs "crawls") in Ok (Some (mkCrawlCursor (fst key) (snd key))).

Definition decodeQueueCursor (raw : bytes) : res error (option queueCursor) :=
  if bytes_eqb raw [] then Ok None
  else
    match decodeCursor raw (bs "queue") with
    | Err _ => Err (errors_New errInvalidCursor)
    | Ok payload =>
        if negb (payload_ID payload =? 0) || negb (canonicalCursorOrigin (payload_Origin payload))
        then Err (errors_New errInvalidCursor)
        else
          match cursor_time (payload_At payload) with
          | None => Err (errors_New errInvalidCursor)
          | Some t => Ok (Some (mkQueueCursor t (payload_Origin payload)))
          end
    end.

Definition decodeQueueEventCursor (raw : bytes) : res error (option queueEventCursor) :=
  if bytes_eqb raw [] then Ok None
  else let? key := decode_instant_id raw (bs "queue_events") in Ok (Some (mkQueueEventCursor (fst key) (snd key))).

Definition decodeAuditCursor (raw : bytes) : res error (option auditCursor) :=
  if bytes_eqb raw [] then Ok None
  else let? key := decode_instant_id raw (bs "audit") in Ok (Some (mkAuditCursor (fst key) (snd key))).

(** The limit of a crawl's page and the sequence number it starts after *)
Definition crawlDetailQuery (values : Values) (id : Z) : res error (Z * Z) :=
  let? limit := requestLimit values in
  let raw := queryValue values (bs "cursor") in
  if bytes_eqb raw [] then Ok (limit, 0)
  else
    match decodeCursor raw (bs "crawl_pages") with
    | Err _ => Err (errors_New errInvalidCursor)
    | Ok cursor =>
        if negb (bytes_eqb (payload_Origin cursor) (FormatInt id)) || negb (bytes_eqb (payload_At cursor) [])
           || (payload_ID cursor <=? 0)
        then Err (errors_New errInvalidCursor)
        else Ok (limit, payload_ID cursor)
    end.

(** ** Queries *)

Definition parseSourceQuery (values : Values) : res error sourceQuery :=
  let? limit := requestLimit values in
  let? originFilter := queryOrigin values in
  let? seeded := queryBool values (bs "seeded") in
  let? automatic := queryBool values (bs "automatic") in
  let? verified := queryBool values (bs "verified") in
  let? blocked := queryBool values (bs "blocked") in
  let? crawlEligible := queryBool values (bs "crawl_eligible") in
  let? cursor := decodeSourceCursor (queryValue values (bs "cursor")) in
  Ok (mkSourceQuery limit cursor originFilter seeded automatic verified blocked crawlEligible).

Definition parseCrawlQuery (values : Values) : res error crawlQuery :=
  let? limit := requestLimit values in
  let? originFilter := queryOrigin values in
  let? outcome := queryEnum values (bs "outcome") outcome_filters in
  let? cursor := decodeCrawlCursor (queryValue values (bs "cursor")) in
  Ok (mkCrawlQuery limit cursor originFilter outcome).

Definition parseQueueQuery (values : Values) : res error queueQuery :=
  let? limit := requestLimit values in
  let? originFilter := queryOrigin values in
  let? mode := queryEnum values (bs "mode") mode_filters in
  let? leased := queryBool values (bs "leased") in
  let? cursor := decodeQueueCursor (queryValue values (bs "cursor")) in
  Ok (mkQueueQuery limit cursor originFilter mode leased).

Definition parseQueueEventQuery (values : Values) : res error queueEventQuery :=
  let? limit := requestLimit values in
  let? originFilter := queryOrigin values in
  let? event := queryEnum values (bs "event") event_filters in
  let? mode := queryEnum values (bs "mode") mode_filters in
  let? cursor := decodeQueueEventCursor (queryValue values (bs "cursor")) in
  Ok (mkQueueEventQuery limit cursor originFilter event mode).

(** The query of [pagedAudits] *)
Definition parseAuditQuery (values : Values) : res error auditQuery :=
  let? limit := requestLimit values in
  let? cursor := decodeAuditCursor (queryValue values (bs "cursor")) in
  Ok (mkAuditQuery limit cursor).
End Queries.

(** [writeQueryError]: the code of a refused query *)
Definition query_error_code (err : error) : bytes :=
  if errors_Is err errInvalidLimit then bs "invalid_limit"
  else if errors_Is err errInvalidCursor then bs "invalid_cursor"
  else if errors_Is err errInvalidOriginFilter then bs "invalid_origin"
  else bs "invalid_filter".

(** * Cursors read back

    A cursor the service hands out decodes to the key of the row it was made
    from, for every kind of page, and is refused for every other kind. *)


(** What a cursor can carry *)
Record payload_ok (p : cursorPayload) : Prop := {
  payload_version : payload_Version p = cursorVersion;
  payload_texts : forallb is_ascii (payload_Kind p) = true /\ forallb is_ascii (payload_Origin p) = true
    /\ forallb is_ascii (payload_At p) = true;
  payload_id : min_int64 <= payload_ID p <= max_int64;
}.

Lemma members_fit p : payload_ok p -> Forall (member_fits cursor_fields) (payload_members p).
Proof.
  intros [Hv (Hk & Ho & Ha) Hid]. unfold payload_members, omit_empty, omit_zero.
  assert (Htext : forall name s, List.find (fun f => EqualFold name (fst f)) cursor_fields = Some (name, TextField) ->
    utf8_Valid name = true -> forallb is_ascii s = true -> member_fits cursor_fields (name, TextValue s))
    by (intros name s Hf Hu Hs; split; [done|]; by exists TextField).
  assert (Hint : forall name z, List.find (fun f => EqualFold name (fst f)) cursor_fields = Some (name, IntField) ->
    utf8_Valid name = true -> min_int64 <= z <= max_int64 -> member_fits cursor_fields (name, IntValue z)).
  { intros name z Hf Hu Hz. split; [done|]. exists IntField. split; [done|]. cbn [field_fits snd].
    rewrite (proj2 (Z.leb_le _ _)), (proj2 (Z.leb_le _ _)) by lia. done. }
  apply Forall_app; split; [repeat constructor; [apply Hint; [done|done|rewrite Hv; done]|by apply Htext]|].
  repeat apply Forall_app_2; case_head; repeat constructor; (by apply Htext) || (by apply Hint).
Qed.

Lemma members_values p :
  int_value (bs "v") (payload_members p) = payload_Version p /\ text_value (bs "kind") (payload_members p) = payload_Kind p
  /\ text_value (bs "origin") (payload_members p) = payload_Origin p /\ text_value (bs "at") (payload_members p) = payload_At p
  /\ int_value (bs "id") (payload_members p) = payload_ID p.
Proof.
  destruct p as [v k o a i]. unfold payload_members, omit_empty, omit_zero.
  cbn [payload_Version payload_Kind payload_Origin payload_At payload_ID].
  destruct (bytes_eqb_spec o []) as [->|], (bytes_eqb_spec a []) as [->|], (Z.eqb_spec i 0) as [->|]; by split_and!.
Qed.

Lemma members_marshal p :
  json_Marshal (JObject (map (fun m => (fst m, field_json (snd m))) (payload_members p)))
  = Some (print_json false 0 (JObject (map (fun m => (fst m, field_json (snd m))) (payload_members p)))).
Proof.
  unfold json_Marshal. replace (times_representable _) with true; [done|]. symmetry. cbn [times_representable].
  rewrite forallb_forall. intros m (m0 & <- & _)%in_map_iff. cbn [snd]. by destruct (snd m0).
Qed.

(** Decoding a cursor gives back what was encoded. *)
Lemma decodeCursor_encodeCursor p : payload_ok p -> decodeCursor (encodeCursor p) (payload_Kind p) = Ok p.
Proof.
  intros Hp. unfold decodeCursor, encodeCursor. rewrite base64_roundtrip by (by right). rewrite members_marshal. cbn [from_option]. unfold id.
  pose proof (DecodeFields_print cursor_fields (payload_members p) [] ltac:(done) (members_fit p Hp)) as Hd.
  rewrite app_nil_r in Hd. rewrite Hd. cbv beta iota zeta. change (bytes_eqb (skip_space []) []) with true. cbn [negb].
  destruct (members_values p) as (-> & -> & -> & -> & ->). cbn [payload_Version payload_Kind].
  rewrite (payload_version p Hp), Z.eqb_refl. destruct (bytes_eqb_spec (payload_Kind p) (payload_Kind p)); [|done].
  cbn [negb orb]. rewrite <- (payload_version p Hp). by destruct p.
Qed.

(** A cursor of one kind is refused where another is expected. *)
Lemma decodeCursor_kind p kind : payload_ok p -> kind <> payload_Kind p ->
  decodeCursor (encodeCursor p) kind = Err (errors_New errInvalidCursor).
Proof.
  intros Hp Hk. pose proof (decodeCursor_encodeCursor p Hp) as Hd. unfold decodeCursor in *.
  destruct (base64_Decode _ _) as [decoded|]; [|done]. destruct (json_DecodeFields _ _) as [[assigned rest]|]; [|done].
  destruct (negb (bytes_eqb (skip_space rest) [])); [done|]. cbv zeta in *. cbn [payload_Version payload_Kind] in *.
  destruct (negb (int_value _ _ =? cursorVersion)); [done|]. cbn [orb] in *.
  destruct (bytes_eqb_spec (text_value (bs "kind") assigned) (payload_Kind p)) as [->|]; [|done].
  destruct (bytes_eqb_spec (payload_Kind p) kind) as [<-|]; done.
Qed.

Lemma encodeCursor_nonempty p : payload_ok p -> encodeCursor p <> [].
Proof.
  intros Hp He. pose proof (decodeCursor_encodeCursor p Hp) as Hd. rewrite He in Hd.
  assert (decodeCursor [] (payload_Kind p) = Err (errors_New errInvalidCursor)) by done. congruence.
Qed.

Lemma Format_ascii t : forallb is_ascii (FormatRFC3339Nano t) = true.
Proof.
  pose proof (Format_time_bytes t) as Ht. rewrite forallb_forall in *. intros c Hc. specialize (Ht c Hc).
  unfold is_ascii. destruct (Z.ltb_spec (code c) 128) as [|Hge]; [done|]. exfalso. revert Ht.
  apply not_true_iff_false. unfold time_byte, is_digit, in_range.
  assert (Hne : forall d, code d < 128 -> byte_eqb c d = false) by (intros d Hd; destruct (byte_eqb_spec c d) as [->|]; [lia|done]).
  rewrite !Hne by done. change (code "9") with 57. lia.
Qed.

Lemma Format_nonempty t : FormatRFC3339Nano t <> [].
Proof.
  unfold FormatRFC3339Nano. cbv zeta. intros Hnil. apply (f_equal length) in Hnil. rewrite !length_app in Hnil. cbn in Hnil. lia.
Qed.

Section Roundtrips.
Context `{NetURL} `{NetIP} `{IDNA} `{TimeTextLaws}.

(** The keys a cursor can hold: a canonical origin in ASCII, an instant that
    can be printed and is not the zero time, a positive 64-bit id. *)
Definition origin_key (o : bytes) : Prop := canonicalCursorOrigin o = true /\ forallb is_ascii o = true.
Definition time_key (t : Z) : Prop := representable t = true /\ t <> 0.
Definition id_key (id : Z) : Prop := 0 < id <= max_int64.

Lemma cursor_time_Format t : time_key t -> cursor_time (FormatRFC3339Nano t) = Some t.
Proof.
  intros [Hr Hz]. unfold cursor_time. rewrite time_Parse_Format by done. unfold time_IsZero.
  by rewrite (proj2 (Z.eqb_neq t 0) Hz).
Qed.

Lemma instant_id_payload kind t id : forallb is_ascii kind = true -> id_key id ->
  payload_ok (mkPayload cursorVersion kind [] (FormatRFC3339Nano t) id).
Proof.
  intros Hk [Hi Hm]. constructor; cbn; [done| |unfold min_int64; lia]. split_and!; [done|done|apply Format_ascii].
Qed.

Lemma decode_instant_id_spec kind t id : forallb is_ascii kind = true -> time_key t -> id_key id ->
  let raw := encodeCursor (mkPayload cursorVersion kind [] (FormatRFC3339Nano t) id) in
  raw <> [] /\ decode_instant_id raw kind = Ok (t, id).
Proof.
  intros Hk Ht Hi raw. pose proof (instant_id_payload kind t id Hk Hi) as Hp. split; [by apply encodeCursor_nonempty|].
  unfold decode_instant_id. pose proof (decodeCursor_encodeCursor _ Hp) as Hd. cbn [payload_Kind] in Hd. unfold raw. rewrite Hd.
  cbn [payload_Origin payload_ID payload_At]. destruct Hi as [Hi _]. rewrite (proj2 (Z.leb_gt id 0)) by lia.
  by rewrite cursor_time_Format.
Qed.

Ltac nonempty_raw Hne :=
  match goal with |- context [bytes_eqb ?raw []] => destruct (bytes_eqb_spec raw []) as [Hnil|_]; [by exfalso; apply Hne|] end.

Lemma crawl_cursor_roundtrip item : time_key (CrawlRun_StartedAt item) -> id_key (CrawlRun_ID item) ->
  crawlNextCursor item <> []
  /\ decodeCrawlCursor (crawlNextCursor item) = Ok (Some (mkCrawlCursor (CrawlRun_StartedAt item) (CrawlRun_ID item))).
Proof.
  intros Ht Hi. destruct (decode_instant_id_spec (bs "crawls") _ _ eq_refl Ht Hi) as [Hne Hd]. split; [done|].
  unfold decodeCrawlCursor. nonempty_raw Hne. unfold crawlNextCursor. by rewrite Hd.
Qed.

Lemma queueEvent_cursor_roundtrip item : time_key (QueueEvent_OccurredAt item) -> id_key (QueueEvent_ID item) ->
  queueEventNextCursor item <> []
  /\ decodeQueueEventCursor (queueEventNextCursor item)
     = Ok (Some (mkQueueEventCursor (QueueEvent_OccurredAt item) (QueueEvent_ID item))).
Proof.
  intros Ht Hi. destruct (decode_instant_id_spec (bs "queue_events") _ _ eq_refl Ht Hi) as [Hne Hd]. split; [done|].
  unfold decodeQueueEventCursor. nonempty_raw Hne. unfold queueEventNextCursor. by rewrite Hd.
Qed.

Lemma audit_cursor_roundtrip item : time_key (AuditEvent_OccurredAt item) -> id_key (AuditEvent_ID item) ->
  auditNextCursor item <> []
  /\ decodeAuditCursor (auditNextCursor item) = Ok (Some (mkAuditCursor (AuditEvent_OccurredAt item) (AuditEvent_ID item))).
Proof.
  intros Ht Hi. destruct (decode_instant_id_spec (bs "audit") _ _ eq_refl Ht Hi) as [Hne Hd]. split; [done|].
  unfold decodeAuditCursor. nonempty_raw Hne. unfold auditNextCursor. by rewrite Hd.
Qed.

Lemma origin_payload kind o at_ : forallb is_ascii kind = true -> forallb is_ascii at_ = true -> origin_key o ->
  payload_ok (mkPayload cursorVersion kind o at_ 0).
Proof. intros Hk Ha [_ Ho]. by constructor. Qed.

Lemma source_cursor_roundtrip item : origin_key (CrawlSource_Origin item) ->
  sourceNextCursor item <> []
  /\ decodeSourceCursor (sourceNextCursor item) = Ok (Some (mkSourceCursor (CrawlSource_Origin item))).
Proof.
  intros Ho. pose proof (origin_payload (bs "sources") _ [] eq_refl eq_refl Ho) as Hp.
  pose proof (encodeCursor_nonempty _ Hp) as Hne. split; [done|]. unfold decodeSourceCursor. nonempty_raw Hne.
  pose proof (decodeCursor_encodeCursor _ Hp) as Hd. cbn [payload_Kind] in Hd. unfold sourceNextCursor. rewrite Hd.
  cbn [payload_Origin payload_ID payload_At]. by rewrite (proj1 Ho).
Qed.

Lemma queue_cursor_roundtrip item : time_key (QueueItem_AvailableAt item) -> origin_key (QueueItem_Origin item) ->
  queueNextCursor item <> []
  /\ decodeQueueCursor (queueNextCursor item)
     = Ok (Some (mkQueueCursor (QueueItem_AvailableAt item) (QueueItem_Origin item))).
Proof.
  intros Ht Ho. pose proof (origin_payload (bs "queue") _ _ eq_refl (Format_ascii (QueueItem_AvailableAt item)) Ho) as Hp.
  pose proof (encodeCursor_nonempty _ Hp) as Hne. split; [done|]. unfold decodeQueueCursor. nonempty_raw Hne.
  pose proof (decodeCursor_encodeCursor _ Hp) as Hd. cbn [payload_Kind] in Hd. unfold queueNextCursor. rewrite Hd.
  cbn [payload_Origin payload_ID payload_At]. rewrite (proj1 Ho). cbn [negb orb Z.eqb]. by rewrite cursor_time_Format.
Qed.

Lemma FormatInt_ascii z : min_int64 <= z <= max_int64 -> forallb is_ascii (FormatInt z) = true.
Proof.
  assert (Hd : forall s, forallb is_digit s = true -> forallb is_ascii s = true).
  { intros s. rewrite !forallb_forall. intros Hs c Hc. specialize (Hs c Hc). unfold is_digit, in_range, is_ascii in *.
    change (code "9") with 57 in *. b2p. lia. }
  unfold min_int64, max_int64, FormatInt. intros Hz. case_head; [cbn [forallb]; change (is_ascii "-") with true; cbn [andb]|];
    apply Hd, FormatUint_spec; unfold max_uint64; lia.
Qed.

(** The cursor of a crawl's page is read back for that crawl only. *)
Lemma crawl_pages_roundtrip values id sequence limit : id_key id -> id_key sequence -> requestLimit values = Ok limit ->
  queryValue values (bs "cursor") = crawlPagesCursor id sequence ->
  crawlPagesCursor id sequence <> [] /\ crawlDetailQuery values id = Ok (limit, sequence).
Proof.
  intros Hid Hs Hl Hc. assert (Hp : payload_ok (mkPayload cursorVersion (bs "crawl_pages") (FormatInt id) [] sequence)).
  { constructor; cbn; [done| |destruct Hs; unfold min_int64; lia].
    split_and!; [done| |done]. apply FormatInt_ascii. destruct Hid. unfold min_int64. lia. }
  pose proof (encodeCursor_nonempty _ Hp) as Hne. split; [done|]. unfold crawlDetailQuery. rewrite Hl. cbn [res_bind]. rewrite Hc.
  nonempty_raw Hne. pose proof (decodeCursor_encodeCursor _ Hp) as Hd. cbn [payload_Kind] in Hd. unfold crawlPagesCursor. rewrite Hd.
  cbn [payload_Origin payload_ID payload_At]. destruct (bytes_eqb_spec (FormatInt id) (FormatInt id)); [|done].
  destruct Hs as [Hs _]. by rewrite (proj2 (Z.leb_gt sequence 0)) by lia.
Qed.
End Roundtrips.
