(* ===== verification/Reports.v ===== *)
(** * The reporting read model ([internal/reporting/postgres.go],
    [postgres_pagination.go], [postgres_audit.go], [postgres_source_detail.go],
    [postgres_metrics.go])

    Every report as its query over the tables of [Store]. [text_leb] is the
    database's order on text and [stmt] what [statement_timestamp()] returns.
    The rows of [verification_queue_events] are written by a trigger of the
    database and are an argument. Driver failures are not modelled. *)

From S2P Require Import Prelude GoText GoUrl GoErrors GoNetip GoJson GoTime GoEncoding Retry Origin Netguard.
From S2P Require Import RobotsMatch RobotsPolicy RobotsPolicyFacts RobotsHTTP Declaration Verifier.
From S2P Require Import Discovery Crawler Store Queue Exclusions DiscoveryStore Admission DiscoveryLease CrawlTelemetry ControlStore.
From S2P Require Import JsonFields ReportData Pagination.

(** ** Queries *)

Definition by_leb {A} (leb : A -> A -> bool) (a b : A) : Prop := leb a b = true.
#[export] Instance by_leb_dec {A} (leb : A -> A -> bool) : RelDecision (by_leb leb).
Proof. intros a b. unfold by_leb. apply _. Defined.

(** [SELECT ... WHERE where_ ORDER BY leb LIMIT limit] *)
Definition select {A} (leb : A -> A -> bool) (where_ : A -> bool) (limit : Z) (rows : list A) : list A :=
  take (Z.to_nat limit) (merge_sort (by_leb leb) (List.filter where_ rows)).

Definition count {A} (where_ : A -> bool) (rows : list A) : Z := Z.of_nat (length (List.filter where_ rows)).
Definition sum {A} (f : A -> Z) (rows : list A) : Z := fold_right (fun a n => f a + n) 0 rows.

(** [$n = '' OR column = $n] and [$n IS NULL OR column = $n] *)
Definition text_filter (wanted column : bytes) : bool := bytes_eqb wanted [] || bytes_eqb column wanted.
Definition flag_filter (wanted : option bool) (column : bool) : bool :=
  match wanted with None => true | Some b => Bool.eqb column b end.

(** [ORDER BY at DESC, id DESC] and [(at, id) < (t, i)] *)
Definition newest_leb (a b : Z * Z) : bool := (fst b <? fst a) || (fst b =? fst a) && (snd b <=? snd a).
Definition before_key (t i : Z) (key : Z * Z) : bool := (fst key <? t) || (fst key =? t) && (snd key <? i).

(** ** Text columns *)

Definition mode_text (m : Mode) : bytes :=
  match m with recurring => bs "recurring" | probe => bs "probe" | reprobe => bs "reprobe" end.
Definition run_outcome_text (o : option CrawlRunOutcome) : bytes :=
  match o with
  | None => bs "running"
  | Some CrawlRunComplete => bs "complete"
  | Some CrawlRunBudgetExhausted => bs "budget_exhausted"
  | Some CrawlRunCanceled => bs "canceled"
  | Some CrawlRunFailed => bs "failed"
  end.
Definition page_outcome_text (o : PageOutcome) : bytes :=
  match o with
  | PageComplete => bs "complete"
  | PageRedirected => bs "redirected"
  | PageRobotsDenied => bs "robots_denied"
  | PageUnsupportedContent => bs "unsupported_content"
  | PageTooLarge => bs "too_large"
  | PageHTTPError => bs "http_error"
  | PageTimedOut => bs "timeout"
  | PageNetworkError => bs "network_error"
  | PageInvalidResponse => bs "invalid_response"
  end.
Definition robots_text (d : RobotsDecision) : bytes :=
  match d with RobotsAllowed => bs "allowed" | RobotsDenied => bs "denied" | RobotsUnknown => bs "unknown" end.
Definition kind_text (k : Kind) : bytes := match k with KindLink => bs "link" | KindRedirect => bs "redirect" end.

(** ** Rows *)

(** The classified source: its state, schedule, candidate and effective
    observation joined to an origin of the universe. *)
Definition source_row (db : Database) (key : bytes) : CrawlSource :=
  let state := source_state db !! key in
  mkCrawlSource key (source_flag seeded db key) (source_flag automatically_discovered db key)
    (source_flag crawl_blocked db key) (verified db key)
    (negb (source_flag crawl_blocked db key) && bool_decide (key ∈ source_schedule db))
    (first_discovered_at <$> candidates db !! key) (last_discovered_at <$> candidates db !! key)
    (default 0 (source_generation <$> state)) (default [] (state ≫= source_owner))
    (state ≫= source_expires_at) (state ≫= source_claimed_at).
Definition source_rows (db : Database) : list CrawlSource := map (source_row db) (elements (source_universe db)).

Definition scanCrawlRun (row : Z * RunRow) : CrawlRun :=
  let '(id, r) := row in
  let s := run_summary r in
  let limits := run_limits r in
  mkCrawlRun id (run_source r) (run_started_at r) (run_finished_at r) (run_outcome_text (run_status r)) (run_stop_reason r)
    (pages_attempted s) (pages_parsed s) (candidates_discovered s) (budget_exhausted s)
    (MaxDepth limits) (MaxPages limits) (MaxPageBytes limits) (RequestDelay limits) (RedirectLimit limits) (PageTimeout limits)
    (promotions_admitted r) (promotions_deferred r) (run_failure_category s) (pages_blocked s) (pages_failed s)
    (urls_found s) (urls_enqueued s) (frontier_remaining s).
Definition run_rows (db : Database) : list CrawlRun := map scanCrawlRun (map_to_list (runs (crawl db))).

Definition attempt_row (a : Crawler.PageAttempt) : PageAttempt :=
  mkPageAttempt (Sequence a) (RequestedURL a) (FinalURL a) (Depth a) (StartedAt a) (Duration a) (attempt_StatusCode a)
    (ResponseBytes a) (attempt_ContentType a) (RedirectCount a) (robots_text (attempt_Robots a)) (InternalLinkCount a)
    (ExternalLinkCount a) (page_outcome_text (attempt_Outcome a)) (storedFailureCategory (attempt_FailureCategory a))
    (URLsFound a) (URLsEnqueued a).
(** The attempts of a run, with the number of each row's key *)
Definition attempt_rows (db : Database) (id : Z) : list PageAttempt :=
  map (fun '((_, sequence), a) => attempt_row (set_crawl sequence (Depth a) (attempt_FailureCategory a) (URLsFound a) (URLsEnqueued a) a))
    (List.filter (fun '((run, _), _) => run =? id) (map_to_list (page_attempts_of (crawl db)))).

Definition queue_row (row : bytes * QueueRow) : QueueItem :=
  let '(key, r) := row in
  mkQueueItem key (mode_text (mode r)) (available_at r) (lease_generation r) (default [] (lease_owner r))
    (lease_expires_at r) (last_claimed_at r).

Definition audit_row (position : nat) (a : Audit) : AuditEvent :=
  mkAuditEvent (Z.of_nat position + 1) (OccurredAt a) (audit_Action a) (audit_Target a) (audit_Caller a) (audit_Actor a)
    (audit_Result a) (audit_Reason a).
Definition audit_rows (db : Database) : list AuditEvent := imap audit_row (audits (crawl db)).

Definition service_row (h : ServiceHeartbeat) : ServiceStatus :=
  mkServiceStatus (heartbeat_Service h) (heartbeat_InstanceID h) (heartbeat_State h) (heartbeat_CurrentOrigin h)
    (heartbeat_Message h) (heartbeat_StartedAt h) (heartbeat_UpdatedAt h).

(** ** The reader *)

Record PostgresConfig : Type := mkPostgresConfig { config_AutomaticCrawlEnabled : bool; config_MaxPendingProbes : Z }.

Definition validPostgresConfig (config : PostgresConfig) : bool := 0 <? config_MaxPendingProbes config.

(** [NewPostgresReader] on a pool that may be nil *)
Definition newPostgresReader (pool : bool) (config : PostgresConfig) : res error PostgresConfig :=
  if negb pool then Err (errors_New errPostgresPoolUnavailable)
  else if negb (validPostgresConfig config) then Err (errors_New errInvalidPostgresConfig)
  else Ok config.

Definition validReaderLimit (limit : Z) : bool := (1 <=? limit) && (limit <=? maxLimit).

(** The guard of the unpaged reports *)
Definition limited {A} (limit : Z) (rows : list A) : res error (list A) :=
  if negb (validReaderLimit limit) then Err (errors_New errInvalidLimit) else Ok rows.

Definition newest_run (a b : CrawlRun) : bool :=
  newest_leb (CrawlRun_StartedAt a, CrawlRun_ID a) (CrawlRun_StartedAt b, CrawlRun_ID b).
Definition newest_event (a b : QueueEvent) : bool :=
  newest_leb (QueueEvent_OccurredAt a, QueueEvent_ID a) (QueueEvent_OccurredAt b, QueueEvent_ID b).
Definition newest_audit (a b : AuditEvent) : bool :=
  newest_leb (AuditEvent_OccurredAt a, AuditEvent_ID a) (AuditEvent_OccurredAt b, AuditEvent_ID b).
Definition by_sequence (a b : PageAttempt) : bool := PageAttempt_Sequence a <=? PageAttempt_Sequence b.

Section Reader.
Context `{NetURL} `{NetIP} `{IDNA}.
Variable text_leb : bytes -> bytes -> bool.
Variable config : PostgresConfig.

Definition by_source (a b : CrawlSource) : bool := text_leb (CrawlSource_Origin a) (CrawlSource_Origin b).
Definition oldest_queued (a b : QueueItem) : bool :=
  (QueueItem_AvailableAt a <? QueueItem_AvailableAt b)
  || (QueueItem_AvailableAt a =? QueueItem_AvailableAt b) && text_leb (QueueItem_Origin a) (QueueItem_Origin b).
Definition by_service (a b : ServiceStatus) : bool :=
  if bytes_eqb (Service a) (Service b) then text_leb (InstanceID a) (InstanceID b) else text_leb (Service a) (Service b).
Definition by_provenance (a b : DiscoveryProvenance) : bool :=
  (Provenance_LastDiscoveredAt b <? Provenance_LastDiscoveredAt a)
  || (Provenance_LastDiscoveredAt b =? Provenance_LastDiscoveredAt a)
     && (if bytes_eqb (Provenance_SourceOrigin a) (Provenance_SourceOrigin b)
         then text_leb (Provenance_Kind a) (Provenance_Kind b)
         else text_leb (Provenance_SourceOrigin a) (Provenance_SourceOrigin b)).

(** *** Services and status *)

Definition Services (db : Database) : list ServiceStatus :=
  merge_sort (by_leb by_service) (map service_row (map snd (map_to_list (heartbeats (crawl db))))).

Definition queue_rows (db : Database) : list QueueRow := map snd (map_to_list (queue db)).

Definition min_available (rows : list QueueRow) : option Z :=
  fold_right (fun r best => Some (match best with None => available_at r | Some t => Z.min (available_at r) t end)) None rows.

Definition queue_summary (db : Database) (stmt : Z) : QueueSummary :=
  let rows := queue_rows db in
  let of_mode m := count (fun r => bool_decide (mode r = m)) rows in
  mkQueueSummary (count (fun _ => true) rows) (of_mode probe) (of_mode reprobe) (of_mode recurring)
    (count (fun r => actively_leased r stmt) rows) (min_available rows).

Definition source_summary (db : Database) : SourceSummary :=
  let rows := source_rows db in
  mkSourceSummary (count (fun _ => true) rows) (count CrawlSource_Seeded rows)
    (count CrawlSource_AutomaticallyDiscovered rows) (count CrawlSource_Verified rows) (count CrawlSource_Blocked rows)
    (count CrawlSource_CrawlEligible rows).

Definition backpressure (queue : QueueSummary) : BackpressureStatus :=
  let enabled := config_AutomaticCrawlEnabled config in
  mkBackpressure enabled (enabled && (config_MaxPendingProbes config <=? Probe queue)) (Probe queue)
    (config_MaxPendingProbes config).

(** The time of the snapshot is filled in by the handler. *)
Definition Status_ (db : Database) (stmt : Z) : Status :=
  let queue := queue_summary db stmt in
  mkStatus 0
    (mkControlStatus (discovery_paused (crawl db)) (verification_paused db) (automatic_expansion_paused (crawl db))
       (control_updated_at (crawl db)))
    (backpressure queue) queue (source_summary db) (Services db).

(** *** Sources *)

Definition Sources (db : Database) (limit : Z) : res error (list CrawlSource) :=
  limited limit (select by_source (fun _ => true) limit (source_rows db)).

Definition source_matches (query : sourceQuery) (row : CrawlSource) : bool :=
  text_filter (sourceQuery_Origin query) (CrawlSource_Origin row)
  && flag_filter (sourceQuery_Seeded query) (CrawlSource_Seeded row)
  && flag_filter (sourceQuery_Automatic query) (CrawlSource_AutomaticallyDiscovered row)
  && flag_filter (sourceQuery_Verified query) (CrawlSource_Verified row)
  && flag_filter (sourceQuery_Blocked query) (CrawlSource_Blocked row)
  && flag_filter (sourceQuery_CrawlEligible query) (CrawlSource_CrawlEligible row).
Definition after_source (cursor : option sourceCursor) (row : CrawlSource) : bool :=
  let cursorOrigin := match cursor with Some c => sourceCursor_Origin c | None => [] end in
  bytes_eqb cursorOrigin [] || negb (text_leb (CrawlSource_Origin row) cursorOrigin).

Definition SourcesPage (db : Database) (query : sourceQuery) : res error (page CrawlSource) :=
  let? fetchLimit := pageLimit (sourceQuery_Limit query) in
  Ok (trimSourcePage
        (select by_source (fun row => source_matches query row && after_source (sourceQuery_Cursor query) row) fetchLimit
           (source_rows db))
        (sourceQuery_Limit query)).

(** *** Crawl runs *)

Definition Crawls (db : Database) (limit : Z) : res error (list CrawlRun) :=
  limited limit (select newest_run (fun _ => true) limit (run_rows db)).

Definition crawl_matches (query : crawlQuery) (row : CrawlRun) : bool :=
  text_filter (crawlQuery_Origin query) (CrawlRun_SourceOrigin row) && text_filter (crawlQuery_Outcome query) (CrawlRun_Outcome row).
Definition after_crawl (cursor : option crawlCursor) (row : CrawlRun) : bool :=
  match cursor with
  | None => true
  | Some c => before_key (pg_time (crawlCursor_StartedAt c)) (crawlCursor_ID c) (CrawlRun_StartedAt row, CrawlRun_ID row)
  end.

Definition CrawlsPage (db : Database) (query : crawlQuery) : res error (page CrawlRun) :=
  let? fetchLimit := pageLimit (crawlQuery_Limit query) in
  Ok (trimCrawlPage
        (select newest_run (fun row => crawl_matches query row && after_crawl (crawlQuery_Cursor query) row) fetchLimit
           (run_rows db))
        (crawlQuery_Limit query)).

Definition crawlPages (db : Database) (id limit after : Z) : list PageAttempt :=
  select by_sequence (fun a => after <? PageAttempt_Sequence a) limit (attempt_rows db id).

(** [CrawlPage]: the run and one page of its attempts, if there is such a run *)
Definition CrawlPage (db : Database) (id limit after : Z) : res error (option CrawlDetail) :=
  if negb (validReaderLimit limit) then Err (errors_New errInvalidLimit)
  else if after <? 0 then Err (errors_New errInvalidCursor)
  else if id <=? 0 then Err (errors_New errInvalidCrawlID)
  else
    match runs (crawl db) !! id with
    | None => Ok None
    | Some r =>
        Ok (Some (boundedCrawlDetail (mkCrawlDetail (scanCrawlRun (id, r)) (crawlPages db id (limit + 1) after) []) id limit after))
    end.

Definition Crawl (db : Database) (id : Z) : res error (option CrawlDetail) := CrawlPage db id defaultLimit 0.

(** *** The queue *)

Definition queue_items (db : Database) : list QueueItem := map queue_row (map_to_list (queue db)).

Definition Queue_ (db : Database) (limit : Z) : res error (list QueueItem) :=
  limited limit (select oldest_queued (fun _ => true) limit (queue_items db)).

(** [lease_owner IS NOT NULL AND lease_expires_at > statement_timestamp()] of
    the row an item stands for *)
Definition item_leased (db : Database) (stmt : Z) (row : QueueItem) : bool :=
  match queue db !! QueueItem_Origin row with Some r => actively_leased r stmt | None => false end.
Definition queue_matches (db : Database) (stmt : Z) (query : queueQuery) (row : QueueItem) : bool :=
  text_filter (queueQuery_Origin query) (QueueItem_Origin row) && text_filter (queueQuery_Mode query) (QueueItem_Mode row)
  && flag_filter (queueQuery_Leased query) (item_leased db stmt row).
Definition after_queued (cursor : option queueCursor) (row : QueueItem) : bool :=
  match cursor with
  | None => true
  | Some c =>
      let at_ := pg_time (queueCursor_AvailableAt c) in
      (at_ <? QueueItem_AvailableAt row)
      || (at_ =? QueueItem_AvailableAt row) && negb (text_leb (QueueItem_Origin row) (queueCursor_Origin c))
  end.

Definition QueuePage (db : Database) (stmt : Z) (query : queueQuery) : res error (page QueueItem) :=
  let? fetchLimit := pageLimit (queueQuery_Limit query) in
  Ok (trimQueuePage
        (select oldest_queued (fun row => queue_matches db stmt query row && after_queued (queueQuery_Cursor query) row)
           fetchLimit (queue_items db))
        (queueQuery_Limit query)).

(** *** Queue events *)

Definition QueueEvents (events : list QueueEvent) (limit : Z) : res error (list QueueEvent) :=
  limited limit (select newest_event (fun _ => true) limit events).

Definition event_matches (query : queueEventQuery) (row : QueueEvent) : bool :=
  text_filter (queueEventQuery_Origin query) (QueueEvent_Origin row)
  && text_filter (queueEventQuery_Event query) (QueueEvent_Event row)
  && text_filter (queueEventQuery_Mode query) (QueueEvent_Mode row).
Definition after_event (cursor : option queueEventCursor) (row : QueueEvent) : bool :=
  match cursor with
  | None => true
  | Some c => before_key (pg_time (queueEventCursor_OccurredAt c)) (queueEventCursor_ID c)
                (QueueEvent_OccurredAt row, QueueEvent_ID row)
  end.

Definition QueueEventsPage (events : list QueueEvent) (query : queueEventQuery) : res error (page QueueEvent) :=
  let? fetchLimit := pageLimit (queueEventQuery_Limit query) in
  Ok (trimQueueEventPage
        (select newest_event (fun row => event_matches query row && after_event (queueEventQuery_Cursor query) row) fetchLimit
           events)
        (queueEventQuery_Limit query)).

(** *** Audits *)

Definition Audits (db : Database) (limit : Z) : res error (list AuditEvent) :=
  limited limit (select newest_audit (fun _ => true) limit (audit_rows db)).

Definition after_audit (cursor : option auditCursor) (row : AuditEvent) : bool :=
  match cursor with
  | None => true
  | Some c => before_key (pg_time (auditCursor_OccurredAt c)) (auditCursor_ID c) (AuditEvent_OccurredAt row, AuditEvent_ID row)
  end.

Definition AuditsPage (db : Database) (query : auditQuery) : res error (page AuditEvent) :=
  let? fetchLimit := pageLimit (auditQuery_Limit query) in
  Ok (trimAuditPage (select newest_audit (after_audit (auditQuery_Cursor query)) fetchLimit (audit_rows db))
        (auditQuery_Limit query)).

(** *** One source *)

(** The lateral join [latest_crawl] *)
Definition latest_crawl (db : Database) (key : bytes) : option CrawlRun :=
  head (select newest_run (fun r => bytes_eqb (CrawlRun_SourceOrigin r) key) 1 (run_rows db)).

(** [ORDER BY attempt.started_at DESC, attempt.run_id DESC, attempt.sequence DESC] *)
Definition newest_attempt (a b : RobotsObservation) : bool :=
  (ObservedAt b <? ObservedAt a)
  || (ObservedAt b =? ObservedAt a)
     && newest_leb (CrawlRunID a, RobotsObservation_Sequence a) (CrawlRunID b, RobotsObservation_Sequence b).

(** The lateral join [latest_robots] *)
Definition robots_rows (db : Database) (key : bytes) : list RobotsObservation :=
  map (fun '((run, sequence), a) => mkRobotsObservation run sequence (StartedAt a) (robots_text (attempt_Robots a)))
    (List.filter (fun '((run, _), _) => match runs (crawl db) !! run with Some r => bytes_eqb (run_source r) key | None => false end)
       (map_to_list (page_attempts_of (crawl db)))).
Definition latest_robots (db : Database) (key : bytes) : option RobotsObservation :=
  head (select newest_attempt (fun _ => true) 1 (robots_rows db key)).

Definition sourceDetailBase (db : Database) (key : bytes) : option SourceDetail :=
  if bool_decide (key ∈ source_universe db)
  then Some (mkSourceDetail (source_row db key) [] ((fun r => queue_row (key, r)) <$> queue db !! key)
               (latest_crawl db key) (latest_robots db key))
  else None.

Definition provenance_rows (db : Database) (key : bytes) : list DiscoveryProvenance :=
  map (fun '((source, _, kind), times) => mkProvenance source (kind_text kind) (fst times) (snd times))
    (List.filter (fun '((_, candidate, _), _) => bytes_eqb candidate key) (map_to_list (edges (crawl db)))).
Definition sourceProvenance (db : Database) (key : bytes) (limit : Z) : list DiscoveryProvenance :=
  select by_provenance (fun _ => true) limit (provenance_rows db key).

Definition Source (db : Database) (rawOrigin : bytes) (provenanceLimit : Z) : res error (option SourceDetail) :=
  if negb (validReaderLimit provenanceLimit) then Err (errors_New errInvalidLimit)
  else
    match Origin.Parse rawOrigin with
    | Err _ => Err (errors_New errInvalidSourceOrigin)
    | Ok parsed =>
        let key := origin_String parsed in
        if bytes_eqb key [] then Err (errors_New errInvalidSourceOrigin)
        else
          match sourceDetailBase db key with
          | None => Ok None
          | Some d =>
              Ok (Some (mkSourceDetail (SourceDetail_Source d) (sourceProvenance db key provenanceLimit) (SourceDetail_Queue d)
                          (LatestCrawl d) (LatestRobotsObservation d)))
          end
    end.

(** *** Metrics *)

Definition metricKindPageFailureCategory : bytes := bs "page_failure_category".
Definition metricKindHTTPStatus : bytes := bs "http_status".
Definition metricKindVerificationQueueFailureCategory : bytes := bs "verification_queue_failure_category".

(** [SELECT kind, label, count( * ) ... GROUP BY label] *)
Definition grouped (kind : bytes) (labels : list bytes) : list (bytes * MetricBreakdown) :=
  map (fun l => (kind, mkBreakdown l (count (bytes_eqb l) labels))) (remove_dups labels).

Definition all_attempts (db : Database) : list Crawler.PageAttempt := map snd (map_to_list (page_attempts_of (crawl db))).

(** [ORDER BY metric, label] *)
Definition by_metric (a b : bytes * MetricBreakdown) : bool :=
  if bytes_eqb (fst a) (fst b) then text_leb (Label (snd a)) (Label (snd b)) else text_leb (fst a) (fst b).

Definition breakdown_rows (db : Database) : list (bytes * MetricBreakdown) :=
  merge_sort (by_leb by_metric)
    (grouped metricKindPageFailureCategory
       (List.filter (fun l => negb (bytes_eqb l (bs "none")))
          (map (fun a => storedFailureCategory (attempt_FailureCategory a)) (all_attempts db)))
     ++ grouped metricKindHTTPStatus (map FormatInt (omap attempt_StatusCode (all_attempts db)))
     ++ grouped metricKindVerificationQueueFailureCategory
          (map category_text (omap last_failure_category (queue_rows db)))).

(** The loop over the rows *)
Definition of_kind (kind : bytes) (rows : list (bytes * MetricBreakdown)) : list MetricBreakdown :=
  map snd (List.filter (fun r => bytes_eqb (fst r) kind) rows).

Definition Metrics (db : Database) : OperationalMetrics :=
  let rs := map snd (map_to_list (runs (crawl db))) in
  let rows := breakdown_rows db in
  mkMetrics (Z.of_nat (size (candidates db))) (Z.of_nat (size (edges (crawl db)))) (Z.of_nat (length rs))
    (count (fun r => bool_decide (run_finished_at r = None)) rs)
    (sum (fun r => pages_attempted (run_summary r)) rs) (sum (fun r => pages_parsed (run_summary r)) rs)
    (sum (fun r => candidates_discovered (run_summary r)) rs) (sum promotions_admitted rs) (sum promotions_deferred rs)
    (sum (fun r => pages_failed (run_summary r)) rs) (sum (fun r => pages_blocked (run_summary r)) rs)
    (of_kind metricKindPageFailureCategory rows) (of_kind metricKindHTTPStatus rows)
    (of_kind metricKindVerificationQueueFailureCategory rows).
End Reader.
