(* ===== verification/KeysetPages.v ===== *)
(** * Keyset pagination

    The rows of a query in the order of a total key, one page at a time: each
    page takes the rows strictly after the last one of the page before. Shared
    by the reports; a client that follows the cursors gets every row of the
    query once, in order. *)

From S2P Require Import Prelude GoText GoErrors JsonFields ReportData Pagination Reports.

#[local] Set Warnings "-clear-no-such-hyp".

(** A client that requests the first page and then the page of each cursor it
    is given, until there is none; [fuel] bounds the number of requests. *)
Fixpoint follow {A} (fetch : bytes -> res error (page A)) (fuel : nat) (cursor : bytes) : option (list (list A)) :=
  match fuel with
  | O => None
  | S fuel =>
      match fetch cursor with
      | Err _ => None
      | Ok p => if bytes_eqb (page_NextCursor p) [] then Some [page_Items p]
                else cons (page_Items p) <$> follow fetch fuel (page_NextCursor p)
      end
  end.

Lemma filter_filter {A} (f g : A -> bool) l : List.filter (fun x => f x && g x) l = List.filter g (List.filter f l).
Proof. induction l as [|x l IH]; [done|]. cbn. destruct (f x); cbn; [|done]. destruct (g x); by rewrite IH. Qed.

Lemma filter_Permutation {A} (f : A -> bool) l k : l ≡ₚ k -> List.filter f l ≡ₚ List.filter f k.
Proof.
  induction 1 as [|x l k _ IH|x y l|l k m _ IH1 _ IH2]; cbn; [done| | |by etrans].
  - destruct (f x); [by constructor|done].
  - destruct (f x), (f y); try done. by constructor.
Qed.

Lemma filter_all {A} (f : A -> bool) l : (forall x, x ∈ l -> f x = true) -> List.filter f l = l.
Proof.
  induction l as [|x l IH]; [done|]. intros Hf. cbn. rewrite Hf by (by left). f_equal. apply IH. intros y Hy. apply Hf. by right.
Qed.

Lemma filter_none {A} (f : A -> bool) l : (forall x, x ∈ l -> f x = false) -> List.filter f l = [].
Proof.
  induction l as [|x l IH]; [done|]. intros Hf. cbn. rewrite Hf by (by left). apply IH. intros y Hy. apply Hf. by right.
Qed.

Lemma elem_of_filter_bool {A} (f : A -> bool) l x : x ∈ List.filter f l <-> x ∈ l /\ f x = true.
Proof. by rewrite !list_elem_of_In, filter_In. Qed.

Section Keyset.
Context {A : Type} (leb : A -> A -> bool).
Hypothesis leb_total : forall a b, leb a b = true \/ leb b a = true.
Hypothesis leb_trans : forall a b c, leb a b = true -> leb b c = true -> leb a c = true.
Variable rows : list A.
Hypothesis leb_antisym : forall a b, a ∈ rows -> b ∈ rows -> leb a b = true -> leb b a = true -> a = b.
Hypothesis rows_nodup : NoDup rows.
Variable where_ : A -> bool.

#[local] Instance by_leb_total : Total (by_leb leb).
Proof. intros a b. apply leb_total. Qed.
#[local] Instance by_leb_trans : Transitive (by_leb leb).
Proof. intros a b c. apply leb_trans. Qed.

(** Every row of the query in order *)
Definition matching : list A := merge_sort (by_leb leb) (List.filter where_ rows).

Lemma matching_sorted : StronglySorted (by_leb leb) matching.
Proof. apply StronglySorted_merge_sort; apply _. Qed.

Lemma matching_perm : matching ≡ₚ List.filter where_ rows.
Proof. apply merge_sort_Permutation. Qed.

Lemma matching_elem x : x ∈ matching <-> x ∈ rows /\ where_ x = true.
Proof. by rewrite matching_perm, elem_of_filter_bool. Qed.

Lemma matching_nodup : NoDup matching.
Proof. rewrite matching_perm. apply NoDup_ListNoDup, List.NoDup_filter, NoDup_ListNoDup, rows_nodup. Qed.

Lemma sorted_sort k : StronglySorted (by_leb leb) k -> (forall x, x ∈ k -> x ∈ rows) ->
  forall l, l ≡ₚ k -> merge_sort (by_leb leb) l = k.
Proof.
  intros Hk Hin l Hp. apply (StronglySorted_unique_strong (by_leb leb)).
  - intros a b Ha Hb. rewrite merge_sort_Permutation, Hp in Ha. apply leb_antisym; auto.
  - apply StronglySorted_merge_sort; apply _.
  - done.
  - by rewrite merge_sort_Permutation.
Qed.

Lemma sorted_before l1 x l2 y : StronglySorted (by_leb leb) (l1 ++ x :: l2) -> y ∈ l1 -> leb y x = true.
Proof.
  induction l1 as [|z l1 IH]; [by intros _ Hy%elem_of_nil|]. cbn. intros Hs [-> |Hy]%elem_of_cons.
  - apply StronglySorted_inv in Hs as [_ Hf]. rewrite Forall_forall in Hf. apply Hf. set_solver.
  - apply StronglySorted_inv in Hs as [Hs _]. auto.
Qed.

Lemma sorted_suffix l1 l2 : StronglySorted (by_leb leb) (l1 ++ l2) -> StronglySorted (by_leb leb) l2.
Proof. induction l1 as [|z l1 IH]; [done|]. intros [Hs _]%StronglySorted_inv. auto. Qed.

(** The rows strictly after one of them are the rest of the query. *)
Lemma rows_after after done x rest : matching = done ++ x :: rest ->
  (forall y, y ∈ rows -> after y = negb (leb y x)) ->
  forall n, select leb (fun y => where_ y && after y) n rows = take (Z.to_nat n) rest.
Proof.
  intros Hm Ha n. unfold select. f_equal.
  assert (Hrows : forall y, y ∈ done ++ x :: rest -> y ∈ rows) by (intros y; rewrite <- Hm; by intros [? _]%matching_elem).
  pose proof matching_sorted as Hs. rewrite Hm in Hs. pose proof matching_nodup as Hnd. rewrite Hm in Hnd.
  apply sorted_sort.
  - by apply (sorted_suffix (done ++ [x])); rewrite <- app_assoc.
  - intros y Hy. apply Hrows. set_solver.
  - rewrite filter_filter, (filter_Permutation _ _ _ (symmetry matching_perm)), Hm. rewrite List.filter_app. cbn [List.filter].
    assert (Hx : after x = false) by (rewrite Ha by set_solver; by destruct (leb_total x x) as [-> | ->]). rewrite Hx.
    rewrite filter_none; [|intros y Hy; rewrite Ha by set_solver; by rewrite (sorted_before _ _ _ _ Hs Hy)].
    rewrite filter_all; [done|]. intros y Hy. rewrite Ha by set_solver.
    apply sorted_suffix, StronglySorted_inv in Hs as [_ Hf]. rewrite Forall_forall in Hf. specialize (Hf y Hy).
    destruct (leb y x) eqn:Hyx; [|done]. exfalso.
    assert (y = x) as -> by (apply leb_antisym; [set_solver|set_solver|done|done]).
    apply NoDup_app in Hnd as (_ & _ & [Hn _]%NoDup_cons). done.
Qed.

(** ** Following cursors *)

Variable nextCursor : A -> bytes.
Variable limit : Z.
Hypothesis limit_ok : 1 <= limit <= maxLimit.
(** What a cursor text selects, and the page the service serves for it *)
Variable after : bytes -> option (A -> bool).
Variable fetch : bytes -> res error (page A).
Hypothesis after_first : exists f, after [] = Some f /\ forall y, y ∈ rows -> f y = true.
Hypothesis after_next : forall x, x ∈ rows -> where_ x = true ->
  nextCursor x <> [] /\ exists f, after (nextCursor x) = Some f /\ forall y, y ∈ rows -> f y = negb (leb y x).
Hypothesis fetch_page : forall cursor f, after cursor = Some f ->
  fetch cursor = Ok (trim_page nextCursor (select leb (fun y => where_ y && f y) (limit + 1) rows) limit).

(** The page of a cursor and what it leaves *)
Lemma page_of rest cursor f : after cursor = Some f ->
  select leb (fun y => where_ y && f y) (limit + 1) rows = take (Z.to_nat (limit + 1)) rest ->
  exists p, fetch cursor = Ok p /\ page_Items p = take (Z.to_nat limit) rest
    /\ page_NextCursor p = (if (Z.to_nat limit <? length rest)%nat
                            then match last (take (Z.to_nat limit) rest) with Some x => nextCursor x | None => [] end else []).
Proof.
  intros Hf Hsel. eexists. split; [by apply fetch_page|]. rewrite Hsel. unfold trim_page.
  rewrite length_take, take_take, (Nat.min_l (Z.to_nat limit) (Z.to_nat (limit + 1))) by lia.
  destruct (Z.leb_spec (Z.of_nat (Nat.min (Z.to_nat (limit + 1)) (length rest))) limit) as [Hle|Hgt]; cbn [page_Items page_NextCursor].
  - rewrite (proj2 (Nat.ltb_ge _ _)) by lia. split; [|done]. rewrite !take_ge by lia. done.
  - rewrite (proj2 (Nat.ltb_lt _ _)) by lia. done.
Qed.

Lemma follow_rest fuel : forall done rest cursor f, matching = done ++ rest -> after cursor = Some f ->
  select leb (fun y => where_ y && f y) (limit + 1) rows = take (Z.to_nat (limit + 1)) rest ->
  (length rest < fuel)%nat ->
  exists pages, follow fetch fuel cursor = Some pages /\ concat pages = rest
    /\ Forall (fun p => Z.of_nat (length p) <= limit) pages.
Proof.
  induction fuel as [|fuel IH]; intros done rest cursor f Hm Hf Hsel Hfuel; [lia|].
  destruct (page_of rest cursor f Hf Hsel) as (p & Hfetch & Hitems & Hnext). cbn [follow]. rewrite Hfetch.
  assert (Hlen : Z.of_nat (length (take (Z.to_nat limit) rest)) <= limit) by (rewrite length_take; lia).
  destruct (Nat.ltb_spec (Z.to_nat limit) (length rest)) as [Hlt|Hge].
  - destruct (last (take (Z.to_nat limit) rest)) as [x|] eqn:Hx.
    2:{ apply last_None, (f_equal length) in Hx. rewrite length_take in Hx. cbn in Hx. lia. }
    apply last_Some in Hx as (l & Hl). rewrite Hnext.
    assert (Hsplit : rest = l ++ x :: drop (Z.to_nat limit) rest)
      by (rewrite <- (take_drop (Z.to_nat limit) rest) at 1; rewrite Hl, <- app_assoc; done).
    assert (Hxr : x ∈ rows /\ where_ x = true) by (apply matching_elem; rewrite Hm, Hsplit; set_solver).
    destruct (after_next x (proj1 Hxr) (proj2 Hxr)) as (Hne & g & Hg & Hgx).
    destruct (bytes_eqb_spec (nextCursor x) []) as [|_]; [done|].
    assert (Hm' : matching = (done ++ l) ++ x :: drop (Z.to_nat limit) rest) by (by rewrite <- app_assoc, <- Hsplit).
    destruct (IH ((done ++ l) ++ [x]) (drop (Z.to_nat limit) rest) (nextCursor x) g) as (pages & Hfol & Hcat & Hall).
    + rewrite <- app_assoc. exact Hm'.
    + done.
    + by apply (rows_after g (done ++ l) x).
    + rewrite length_drop. lia.
    + exists (take (Z.to_nat limit) rest :: pages). rewrite Hfol, Hitems. split; [done|]. split.
      * cbn [concat]. by rewrite Hcat, take_drop.
      * by constructor.
  - rewrite Hnext. cbn [bytes_eqb]. exists [take (Z.to_nat limit) rest]. rewrite Hitems. split; [done|]. split.
    + cbn [concat]. by rewrite app_nil_r, take_ge by lia.
    + by repeat constructor.
Qed.

(** Every row of the query exactly once, in order, in pages of at most
    [limit]; as many requests as there are rows are enough. *)
Theorem follow_complete fuel : (length rows < fuel)%nat ->
  exists pages, follow fetch fuel [] = Some pages /\ concat pages = matching
    /\ Forall (fun p => Z.of_nat (length p) <= limit) pages.
Proof.
  intros Hfuel. destruct after_first as (f & Hf & Hall). apply (follow_rest fuel [] matching [] f); [done|done| |].
  - unfold select, matching. do 2 f_equal. rewrite filter_filter. apply filter_all.
    intros y [Hy _]%elem_of_filter_bool. auto.
  - rewrite matching_perm. pose proof (filter_length_le where_ rows). lia.
Qed.
End Keyset.

(** * Every report page by page

    Following the cursors of a report over an unchanged table returns every
    matching row exactly once, in the report's order, for sources, crawl runs,
    the attempts of a run, the queue, queue events and audits. *)

From S2P Require Import GoUrl GoNetip GoJson GoTime GoEncoding Retry Origin Netguard.
From S2P Require Import RobotsMatch RobotsPolicy RobotsPolicyFacts RobotsHTTP Declaration Verifier.
From S2P Require Import Discovery Crawler Store Queue Exclusions DiscoveryStore Admission DiscoveryLease CrawlTelemetry ControlStore.
From S2P Require Import JsonFields ReportData Pagination Reports.

#[local] Set Warnings "-clear-no-such-hyp".

(** ** Parameters of a request *)

(** The parameters of a client's first request with a cursor added *)
Definition with_cursor (values : gmap bytes (list bytes)) (cursor : bytes) : gmap bytes (list bytes) :=
  if bytes_eqb cursor [] then delete (bs "cursor") values else <[bs "cursor" := [cursor]]> values.

Lemma with_cursor_value values cursor : queryValue (with_cursor values cursor) (bs "cursor") = cursor.
Proof.
  unfold queryValue, with_cursor. destruct (bytes_eqb_spec cursor []) as [->|]; [by rewrite lookup_delete_eq|].
  by rewrite lookup_insert_eq.
Qed.

Lemma with_cursor_other values cursor name : name <> bs "cursor" -> with_cursor values cursor !! name = values !! name.
Proof.
  intros Hne. unfold with_cursor. case_head; [by rewrite lookup_delete_ne|by rewrite lookup_insert_ne].
Qed.

Lemma with_cursor_query values cursor name : name <> bs "cursor" ->
  queryValue (with_cursor values cursor) name = queryValue values name.
Proof. intros Hne. unfold queryValue. by rewrite with_cursor_other. Qed.

Lemma with_cursor_limit values cursor : requestLimit (with_cursor values cursor) = requestLimit values.
Proof. unfold requestLimit, Values_Get. by rewrite with_cursor_other. Qed.

Lemma with_cursor_bool values cursor name : name <> bs "cursor" ->
  queryBool (with_cursor values cursor) name = queryBool values name.
Proof. intros Hne. unfold queryBool. by rewrite with_cursor_query. Qed.

Lemma with_cursor_enum values cursor name allowed : name <> bs "cursor" ->
  queryEnum (with_cursor values cursor) name allowed = queryEnum values name allowed.
Proof. intros Hne. unfold queryEnum. by rewrite with_cursor_query. Qed.

Lemma with_cursor_origin `{NetURL} `{NetIP} `{IDNA} values cursor :
  queryOrigin (with_cursor values cursor) = queryOrigin values.
Proof. unfold queryOrigin. by rewrite with_cursor_query. Qed.

Lemma requestLimit_range values limit : requestLimit values = Ok limit -> 1 <= limit <= maxLimit.
Proof.
  unfold requestLimit. case_head; [intros [= <-]; done|]. destruct (ParseInt64 _) as [n|]; [|done].
  destruct (_ || _) eqn:Hr; [done|]. intros [= <-]. b2p. lia.
Qed.

Lemma pageLimit_ok limit : 1 <= limit <= maxLimit -> pageLimit limit = Ok (limit + 1).
Proof. intros Hl. unfold pageLimit. rewrite (proj2 (Z.ltb_ge _ _)), (proj2 (Z.ltb_ge _ _)) by lia. done. Qed.

(** ** Keys *)

(** An instant as the database keeps it and a cursor carries it *)
Definition stored_time (t : Z) : Prop := time_key t /\ pg_time t = t.

Lemma newest_leb_total a b : newest_leb a b = true \/ newest_leb b a = true.
Proof. unfold newest_leb. destruct a, b; cbn. lia. Qed.
Lemma newest_leb_trans a b c : newest_leb a b = true -> newest_leb b c = true -> newest_leb a c = true.
Proof. unfold newest_leb. destruct a, b, c; cbn. lia. Qed.
Lemma newest_leb_antisym a b : newest_leb a b = true -> newest_leb b a = true -> a = b.
Proof. unfold newest_leb. destruct a, b; cbn. intros. f_equal; lia. Qed.
Lemma before_key_spec t i key : before_key t i key = negb (newest_leb key (t, i)).
Proof. unfold before_key, newest_leb. destruct key; cbn. lia. Qed.

(** Rows named by distinct keys *)
Lemma nodup_keyed {A K} (key : A -> K) l : NoDup (map key l) -> NoDup l /\ forall a b, a ∈ l -> b ∈ l -> key a = key b -> a = b.
Proof.
  induction l as [|x l IH]; cbn [map]; [intros _; split; [constructor|]; by intros a b Ha%elem_of_nil|].
  intros [Hx Hl]%NoDup_cons. destruct (IH Hl) as [Hnd Hinj].
  assert (Hnot : forall y, y ∈ l -> key y <> key x).
  { intros y Hy He. apply Hx. rewrite <- He. apply list_elem_of_In, in_map, list_elem_of_In, Hy. }
  split.
  - constructor; [|done]. intros Hxl. by apply (Hnot x).
  - intros a b [-> |Ha]%elem_of_cons [-> |Hb]%elem_of_cons He; auto; [by destruct (Hnot b)|by destruct (Hnot a)].
Qed.

Lemma run_rows_ids db : map CrawlRun_ID (run_rows db) = map fst (map_to_list (runs (crawl db))).
Proof. unfold run_rows. rewrite map_map. apply map_ext. by intros []. Qed.
Lemma run_rows_nodup db : NoDup (map CrawlRun_ID (run_rows db)).
Proof. rewrite run_rows_ids. apply NoDup_fst_map_to_list. Qed.

Lemma queue_items_nodup db : NoDup (map QueueItem_Origin (queue_items db)).
Proof.
  unfold queue_items. rewrite map_map. erewrite map_ext; [apply NoDup_fst_map_to_list|]. by intros [].
Qed.

Lemma source_rows_nodup db : NoDup (map CrawlSource_Origin (source_rows db)).
Proof. unfold source_rows. rewrite map_map. cbn. rewrite map_id. apply NoDup_elements. Qed.

Lemma audit_rows_nodup db : NoDup (map AuditEvent_ID (audit_rows db)).
Proof.
  unfold audit_rows. generalize (audits (crawl db)) as l. intros l.
  assert (Hm : forall k, NoDup (map AuditEvent_ID (imap (fun i => audit_row (k + i)) l))
                         /\ forall id, id ∈ map AuditEvent_ID (imap (fun i => audit_row (k + i)) l) -> Z.of_nat k < id).
  { induction l as [|a l IH]; intros k; [split; [constructor|by intros id Hid%elem_of_nil]|]. cbn [imap map].
    destruct (IH (S k)) as [Hnd Hlt].
    assert (Heq : imap ((fun i => audit_row (k + i)) ∘ S) l = imap (fun i => audit_row (S k + i)) l)
      by (apply imap_ext; intros; cbn; f_equal; lia). rewrite Heq. split.
    - constructor; [|done]. intros Hin. specialize (Hlt _ Hin). unfold audit_row in Hlt. cbn in Hlt. lia.
    - intros id [-> |Hin]%elem_of_cons; [unfold audit_row; cbn; lia|]. specialize (Hlt _ Hin). lia. }
  destruct (Hm 0%nat) as [Hnd _]. exact Hnd.
Qed.

(** ** The reports *)

Section Reports.
Context `{NetURL} `{NetIP} `{IDNA} `{TimeTextLaws}.

(** *** Crawl runs *)

Definition run_key (r : CrawlRun) : Prop := stored_time (CrawlRun_StartedAt r) /\ id_key (CrawlRun_ID r).

(** What the service serves for the parameters of a request with a cursor *)
Definition fetch_crawls (db : Database) (values : gmap bytes (list bytes)) (cursor : bytes) : res error (page CrawlRun) :=
  let? query := parseCrawlQuery (with_cursor values cursor) in CrawlsPage db query.

Lemma parseCrawlQuery_cursor values q cursor : parseCrawlQuery (with_cursor values []) = Ok q ->
  crawlQuery_Cursor q = None /\ 1 <= crawlQuery_Limit q <= maxLimit
  /\ parseCrawlQuery (with_cursor values cursor)
     = (let? c := decodeCrawlCursor cursor in
        Ok (mkCrawlQuery (crawlQuery_Limit q) c (crawlQuery_Origin q) (crawlQuery_Outcome q))).
Proof.
  unfold parseCrawlQuery. rewrite !with_cursor_limit, !with_cursor_origin, !with_cursor_enum, !with_cursor_value by done.
  destruct (requestLimit values) as [limit|] eqn:Hl; [|done]. destruct (queryOrigin values) as [o|]; [|done].
  destruct (queryEnum values _ _) as [outcome|]; [|done]. cbn [res_bind]. intros [= <-]. split_and!; [done| | |done];
    apply requestLimit_range in Hl; cbn; lia.
Qed.

Lemma crawls_complete db values q fuel : Forall run_key (run_rows db) -> parseCrawlQuery (with_cursor values []) = Ok q ->
  (length (run_rows db) < fuel)%nat ->
  exists pages, follow (fetch_crawls db values) fuel [] = Some pages
    /\ concat pages = matching newest_run (run_rows db) (crawl_matches q)
    /\ Forall (fun p => Z.of_nat (length p) <= crawlQuery_Limit q) pages.
Proof.
  intros Hkeys Hq Hfuel. destruct (parseCrawlQuery_cursor values q [] Hq) as (_ & Hlimit & _).
  destruct (nodup_keyed _ _ (run_rows_nodup db)) as [Hnd Hinj].
  apply (follow_complete newest_run) with (nextCursor := crawlNextCursor)
    (after := fun cursor => match decodeCrawlCursor cursor with Ok c => Some (after_crawl c) | Err _ => None end); try done.
  - intros a b. apply newest_leb_total.
  - intros a b c. apply newest_leb_trans.
  - intros a b Ha Hb Hab Hba. apply Hinj; [done|done|]. pose proof (newest_leb_antisym _ _ Hab Hba) as He. by injection He.
  - by eexists.
  - intros x Hx _. rewrite Forall_forall in Hkeys. destruct (Hkeys x Hx) as [[Ht Hpg] Hi].
    destruct (crawl_cursor_roundtrip x Ht Hi) as [Hne Hd]. split; [done|]. rewrite Hd. eexists. split; [done|].
    intros y _. cbn [after_crawl crawlCursor_StartedAt crawlCursor_ID]. rewrite Hpg. apply before_key_spec.
  - intros cursor f Hf. unfold fetch_crawls. destruct (parseCrawlQuery_cursor values q cursor Hq) as (_ & _ & ->).
    destruct (decodeCrawlCursor cursor) as [c|]; [|done]. injection Hf as <-. cbn [res_bind]. unfold CrawlsPage.
    cbn [crawlQuery_Limit]. by rewrite pageLimit_ok.
Qed.

(** *** Queue events *)

Definition event_key (e : QueueEvent) : Prop := stored_time (QueueEvent_OccurredAt e) /\ id_key (QueueEvent_ID e).

Definition fetch_events (events : list QueueEvent) (values : gmap bytes (list bytes)) (cursor : bytes)
    : res error (page QueueEvent) :=
  let? query := parseQueueEventQuery (with_cursor values cursor) in QueueEventsPage events query.

Lemma parseQueueEventQuery_cursor values q cursor : parseQueueEventQuery (with_cursor values []) = Ok q ->
  1 <= queueEventQuery_Limit q <= maxLimit
  /\ parseQueueEventQuery (with_cursor values cursor)
     = (let? c := decodeQueueEventCursor cursor in
        Ok (mkQueueEventQuery (queueEventQuery_Limit q) c (queueEventQuery_Origin q) (queueEventQuery_Event q)
              (queueEventQuery_Mode q))).
Proof.
  unfold parseQueueEventQuery. rewrite !with_cursor_limit, !with_cursor_origin, !with_cursor_enum, !with_cursor_value by done.
  destruct (requestLimit values) as [limit|] eqn:Hl; [|done]. destruct (queryOrigin values) as [o|]; [|done].
  destruct (queryEnum values (bs "event") _) as [event|]; [|done]. destruct (queryEnum values (bs "mode") _) as [m|]; [|done].
  cbn [res_bind]. intros [= <-]. split; [|done]. apply requestLimit_range in Hl. done.
Qed.

Lemma events_complete events values q fuel : Forall event_key events -> NoDup (map QueueEvent_ID events) ->
  parseQueueEventQuery (with_cursor values []) = Ok q -> (length events < fuel)%nat ->
  exists pages, follow (fetch_events events values) fuel [] = Some pages
    /\ concat pages = matching newest_event events (event_matches q)
    /\ Forall (fun p => Z.of_nat (length p) <= queueEventQuery_Limit q) pages.
Proof.
  intros Hkeys Hids Hq Hfuel. destruct (parseQueueEventQuery_cursor values q [] Hq) as [Hlimit _].
  destruct (nodup_keyed _ _ Hids) as [Hnd Hinj].
  apply (follow_complete newest_event) with (nextCursor := queueEventNextCursor)
    (after := fun cursor => match decodeQueueEventCursor cursor with Ok c => Some (after_event c) | Err _ => None end); try done.
  - intros a b. apply newest_leb_total.
  - intros a b c. apply newest_leb_trans.
  - intros a b Ha Hb Hab Hba. apply Hinj; [done|done|]. pose proof (newest_leb_antisym _ _ Hab Hba) as He. by injection He.
  - by eexists.
  - intros x Hx _. rewrite Forall_forall in Hkeys. destruct (Hkeys x Hx) as [[Ht Hpg] Hi].
    destruct (queueEvent_cursor_roundtrip x Ht Hi) as [Hne Hd]. split; [done|]. rewrite Hd. eexists. split; [done|].
    intros y _. cbn [after_event queueEventCursor_OccurredAt queueEventCursor_ID]. rewrite Hpg. apply before_key_spec.
  - intros cursor f Hf. unfold fetch_events. destruct (parseQueueEventQuery_cursor values q cursor Hq) as (_ & ->).
    destruct (decodeQueueEventCursor cursor) as [c|]; [|done]. injection Hf as <-. cbn [res_bind]. unfold QueueEventsPage.
    cbn [queueEventQuery_Limit]. by rewrite pageLimit_ok.
Qed.

(** *** Audits *)

Definition audit_key (e : AuditEvent) : Prop := stored_time (AuditEvent_OccurredAt e) /\ id_key (AuditEvent_ID e).

Definition fetch_audits (db : Database) (values : gmap bytes (list bytes)) (cursor : bytes) : res error (page AuditEvent) :=
  let? query := parseAuditQuery (with_cursor values cursor) in AuditsPage db query.

Lemma parseAuditQuery_cursor values q cursor : parseAuditQuery (with_cursor values []) = Ok q ->
  1 <= auditQuery_Limit q <= maxLimit
  /\ parseAuditQuery (with_cursor values cursor)
     = (let? c := decodeAuditCursor cursor in Ok (mkAuditQuery (auditQuery_Limit q) c)).
Proof.
  unfold parseAuditQuery. rewrite !with_cursor_limit, !with_cursor_value.
  destruct (requestLimit values) as [limit|] eqn:Hl; [|done]. cbn [res_bind]. intros [= <-]. split; [|done].
  apply requestLimit_range in Hl. done.
Qed.

Lemma audits_complete db values q fuel : Forall audit_key (audit_rows db) -> parseAuditQuery (with_cursor values []) = Ok q ->
  (length (audit_rows db) < fuel)%nat ->
  exists pages, follow (fetch_audits db values) fuel [] = Some pages
    /\ concat pages = matching newest_audit (audit_rows db) (fun _ => true)
    /\ Forall (fun p => Z.of_nat (length p) <= auditQuery_Limit q) pages.
Proof.
  intros Hkeys Hq Hfuel. destruct (parseAuditQuery_cursor values q [] Hq) as [Hlimit _].
  destruct (nodup_keyed _ _ (audit_rows_nodup db)) as [Hnd Hinj].
  apply (follow_complete newest_audit) with (nextCursor := auditNextCursor)
    (after := fun cursor => match decodeAuditCursor cursor with Ok c => Some (after_audit c) | Err _ => None end); try done.
  - intros a b. apply newest_leb_total.
  - intros a b c. apply newest_leb_trans.
  - intros a b Ha Hb Hab Hba. apply Hinj; [done|done|]. pose proof (newest_leb_antisym _ _ Hab Hba) as He. by injection He.
  - by eexists.
  - intros x Hx _. rewrite Forall_forall in Hkeys. destruct (Hkeys x Hx) as [[Ht Hpg] Hi].
    destruct (audit_cursor_roundtrip x Ht Hi) as [Hne Hd]. split; [done|]. rewrite Hd. eexists. split; [done|].
    intros y _. cbn [after_audit auditCursor_OccurredAt auditCursor_ID]. rewrite Hpg. apply before_key_spec.
  - intros cursor f Hf. unfold fetch_audits. destruct (parseAuditQuery_cursor values q cursor Hq) as (_ & ->).
    destruct (decodeAuditCursor cursor) as [c|]; [|done]. injection Hf as <-. cbn [res_bind]. unfold AuditsPage.
    cbn [auditQuery_Limit auditQuery_Cursor]. rewrite pageLimit_ok by done. done.
Qed.

(** *** Reports in the order of text *)

Section TextOrder.
Variable text_leb : bytes -> bytes -> bool.
Hypothesis text_total : forall a b, text_leb a b = true \/ text_leb b a = true.
Hypothesis text_trans : forall a b c, text_leb a b = true -> text_leb b c = true -> text_leb a c = true.
Hypothesis text_antisym : forall a b, text_leb a b = true -> text_leb b a = true -> a = b.

Definition fetch_sources (db : Database) (values : gmap bytes (list bytes)) (cursor : bytes) : res error (page CrawlSource) :=
  let? query := parseSourceQuery (with_cursor values cursor) in SourcesPage text_leb db query.

Lemma parseSourceQuery_cursor values q cursor : parseSourceQuery (with_cursor values []) = Ok q ->
  1 <= sourceQuery_Limit q <= maxLimit
  /\ parseSourceQuery (with_cursor values cursor)
     = (let? c := decodeSourceCursor cursor in
        Ok (mkSourceQuery (sourceQuery_Limit q) c (sourceQuery_Origin q) (sourceQuery_Seeded q) (sourceQuery_Automatic q)
              (sourceQuery_Verified q) (sourceQuery_Blocked q) (sourceQuery_CrawlEligible q))).
Proof.
  unfold parseSourceQuery. rewrite !with_cursor_limit, !with_cursor_origin, !with_cursor_bool, !with_cursor_value by done.
  destruct (requestLimit values) as [limit|] eqn:Hl; [|done]. destruct (queryOrigin values) as [o|]; [|done].
  cbn [res_bind]. repeat (destruct (queryBool values _) as [?|]; [|done]; cbn [res_bind]).
  intros [= <-]. split; [|done]. apply requestLimit_range in Hl. done.
Qed.

Lemma sources_complete db values q fuel : Forall (fun r => origin_key (CrawlSource_Origin r)) (source_rows db) ->
  parseSourceQuery (with_cursor values []) = Ok q -> (length (source_rows db) < fuel)%nat ->
  exists pages, follow (fetch_sources db values) fuel [] = Some pages
    /\ concat pages = matching (by_source text_leb) (source_rows db) (source_matches q)
    /\ Forall (fun p => Z.of_nat (length p) <= sourceQuery_Limit q) pages.
Proof.
  intros Hkeys Hq Hfuel. destruct (parseSourceQuery_cursor values q [] Hq) as [Hlimit _].
  destruct (nodup_keyed _ _ (source_rows_nodup db)) as [Hnd Hinj].
  apply (follow_complete (by_source text_leb)) with (nextCursor := sourceNextCursor)
    (after := fun cursor => match decodeSourceCursor cursor with Ok c => Some (after_source text_leb c) | Err _ => None end); try done.
  - intros a b. apply text_total.
  - intros a b c. apply text_trans.
  - intros a b Ha Hb Hab Hba. apply Hinj; [done|done|]. by apply text_antisym.
  - by eexists.
  - intros x Hx _. rewrite Forall_forall in Hkeys. pose proof (Hkeys x Hx) as Hk.
    destruct (source_cursor_roundtrip x Hk) as [Hne Hd]. split; [done|]. rewrite Hd. eexists. split; [done|].
    intros y _. unfold after_source. cbn [sourceCursor_Origin]. destruct Hk as [Hk _]. unfold canonicalCursorOrigin in Hk.
    destruct (bytes_eqb (CrawlSource_Origin x) []); done.
  - intros cursor f Hf. unfold fetch_sources. destruct (parseSourceQuery_cursor values q cursor Hq) as (_ & ->).
    destruct (decodeSourceCursor cursor) as [c|]; [|done]. injection Hf as <-. cbn [res_bind]. unfold SourcesPage.
    cbn [sourceQuery_Limit]. by rewrite pageLimit_ok.
Qed.

Definition item_key (r : QueueItem) : Prop := stored_time (QueueItem_AvailableAt r) /\ origin_key (QueueItem_Origin r).

Definition fetch_queue (db : Database) (stmt : Z) (values : gmap bytes (list bytes)) (cursor : bytes) : res error (page QueueItem) :=
  let? query := parseQueueQuery (with_cursor values cursor) in QueuePage text_leb db stmt query.

Lemma parseQueueQuery_cursor values q cursor : parseQueueQuery (with_cursor values []) = Ok q ->
  1 <= queueQuery_Limit q <= maxLimit
  /\ parseQueueQuery (with_cursor values cursor)
     = (let? c := decodeQueueCursor cursor in
        Ok (mkQueueQuery (queueQuery_Limit q) c (queueQuery_Origin q) (queueQuery_Mode q) (queueQuery_Leased q))).
Proof.
  unfold parseQueueQuery.
  rewrite !with_cursor_limit, !with_cursor_origin, !with_cursor_enum, !with_cursor_bool, !with_cursor_value by done.
  destruct (requestLimit values) as [limit|] eqn:Hl; [|done]. destruct (queryOrigin values) as [o|]; [|done].
  destruct (queryEnum values _ _) as [m|]; [|done]. destruct (queryBool values _) as [l|]; [|done]. cbn [res_bind].
  intros [= <-]. split; [|done]. apply requestLimit_range in Hl. done.
Qed.

Lemma oldest_total a b : oldest_queued text_leb a b = true \/ oldest_queued text_leb b a = true.
Proof.
  unfold oldest_queued. pose proof (text_total (QueueItem_Origin a) (QueueItem_Origin b)).
  destruct (text_leb _ _), (text_leb (QueueItem_Origin b) _); lia.
Qed.
Lemma oldest_trans a b c : oldest_queued text_leb a b = true -> oldest_queued text_leb b c = true -> oldest_queued text_leb a c = true.
Proof.
  unfold oldest_queued. pose proof (text_trans (QueueItem_Origin a) (QueueItem_Origin b) (QueueItem_Origin c)).
  destruct (text_leb (QueueItem_Origin a) (QueueItem_Origin b)), (text_leb (QueueItem_Origin b) (QueueItem_Origin c)),
    (text_leb (QueueItem_Origin a) (QueueItem_Origin c)); lia.
Qed.
Lemma oldest_antisym a b : oldest_queued text_leb a b = true -> oldest_queued text_leb b a = true -> QueueItem_Origin a = QueueItem_Origin b.
Proof.
  unfold oldest_queued. intros Hab Hba.
  assert (text_leb (QueueItem_Origin a) (QueueItem_Origin b) = true /\ text_leb (QueueItem_Origin b) (QueueItem_Origin a) = true)
    as [? ?] by (destruct (text_leb _ _), (text_leb (QueueItem_Origin b) _); lia). by apply text_antisym.
Qed.

Lemma queue_complete db stmt values q fuel : Forall item_key (queue_items db) ->
  parseQueueQuery (with_cursor values []) = Ok q -> (length (queue_items db) < fuel)%nat ->
  exists pages, follow (fetch_queue db stmt values) fuel [] = Some pages
    /\ concat pages = matching (oldest_queued text_leb) (queue_items db) (queue_matches db stmt q)
    /\ Forall (fun p => Z.of_nat (length p) <= queueQuery_Limit q) pages.
Proof.
  intros Hkeys Hq Hfuel. destruct (parseQueueQuery_cursor values q [] Hq) as [Hlimit _].
  destruct (nodup_keyed _ _ (queue_items_nodup db)) as [Hnd Hinj].
  apply (follow_complete (oldest_queued text_leb)) with (nextCursor := queueNextCursor)
    (after := fun cursor => match decodeQueueCursor cursor with Ok c => Some (after_queued text_leb c) | Err _ => None end); try done.
  - apply oldest_total.
  - apply oldest_trans.
  - intros a b Ha Hb Hab Hba. apply Hinj; [done|done|]. by apply oldest_antisym.
  - by eexists.
  - intros x Hx _. rewrite Forall_forall in Hkeys. destruct (Hkeys x Hx) as [[Ht Hpg] Ho].
    destruct (queue_cursor_roundtrip x Ht Ho) as [Hne Hd]. split; [done|]. rewrite Hd. eexists. split; [done|].
    intros y _. cbn [after_queued queueCursor_AvailableAt queueCursor_Origin]. rewrite Hpg. unfold oldest_queued.
    destruct (text_leb _ _); lia.
  - intros cursor f Hf. unfold fetch_queue. destruct (parseQueueQuery_cursor values q cursor Hq) as (_ & ->).
    destruct (decodeQueueCursor cursor) as [c|]; [|done]. injection Hf as <-. cbn [res_bind]. unfold QueuePage.
    cbn [queueQuery_Limit]. by rewrite pageLimit_ok.
Qed.
End TextOrder.
End Reports.
