(* ===== verification/ReportHandler.v ===== *)
(** * The reporting HTTP handler ([internal/reporting/reporting.go],
    [pagination.go], [source_detail.go])

    Routing, bearer-token authorization, the report of each path and its JSON,
    and the metrics text. The reader is an interface; its optional parts are
    the interfaces the handler asserts. *)

From S2P Require Import Prelude GoText GoUrl GoErrors GoNetip GoJson GoTime GoEncoding Origin GoMux Crawler Control.
From S2P Require Import JsonFields ReportData Pagination.

(** ** Interfaces *)

(** [pagedReader] *)
Record PagedReader (W : Type) : Type := mkPagedReader {
  paged_SourcesPage : call W sourceQuery (res error (page CrawlSource));
  paged_CrawlsPage : call W crawlQuery (res error (page CrawlRun));
  paged_QueuePage : call W queueQuery (res error (page QueueItem));
  paged_QueueEventsPage : call W queueEventQuery (res error (page QueueEvent));
  paged_AuditsPage : call W auditQuery (res error (page AuditEvent));
}.

(** [Reader], with [pagedReader], [crawlDetailReader] and [metricsReader] where
    the value implements them *)
Record Reader (W : Type) : Type := mkReader {
  read_Status : call W unit (res error Status);
  read_Sources : call W Z (res error (list CrawlSource));
  read_Source : call W (bytes * Z) (res error (option SourceDetail));
  read_Crawls : call W Z (res error (list CrawlRun));
  read_Crawl : call W Z (res error (option CrawlDetail));
  read_Queue : call W Z (res error (list QueueItem));
  read_QueueEvents : call W Z (res error (list QueueEvent));
  read_Audits : call W Z (res error (list AuditEvent));
  read_Services : call W unit (res error (list ServiceStatus));
  as_paged : option (PagedReader W);
  as_crawlDetail : option (call W (Z * Z * Z) (res error (option CrawlDetail)));
  as_metrics : option (call W unit (res error OperationalMetrics));
}.

(** The standard library: [sha256.Sum256], and a duration of seconds as [%g]
    prints it. *)
Class ReportLibrary := {
  report_Sum256 : bytes -> bytes;
  seconds_text : Z -> bytes;
}.

Record ReportRequest : Type := mkReportRequest {
  report_Method : bytes;
  report_EscapedPath : bytes;
  report_Authorization : bytes;
  report_Query : gmap bytes (list bytes);
}.

(** [URL.Path] *)
Definition report_Path (r : ReportRequest) : bytes := pathUnescape (report_EscapedPath r).

(** A reply of the handler, with the headers it sets, or of the mux itself *)
Inductive Response : Type :=
| Reply (status : Z) (headers : list (bytes * bytes)) (body : bytes)
| MuxRedirect (path : bytes)
| MuxReply (status : Z).

Definition nextCursorHeader : bytes := bs "X-JoshBot-Next-Cursor".
Definition json_type : bytes * bytes := (bs "Content-Type", bs "application/json; charset=utf-8").

(** [json.NewEncoder(writer).Encode(value)]: nothing is written when the value
    cannot be encoded. *)
Definition encoded (value : json) : bytes :=
  match json_Marshal value with Some text => text ++ [chr 10] | None => [] end.

Definition writeJSON (headers : list (bytes * bytes)) (status : Z) (value : json) : Response :=
  Reply status (headers ++ [json_type]) (encoded value).
Definition writeError (headers : list (bytes * bytes)) (status : Z) (error_code : bytes) : Response :=
  writeJSON headers status (JObject [(bs "error", JString error_code)]).
Definition writeInternalError (headers : list (bytes * bytes)) : Response :=
  writeError headers 500 (bs "internal_error").
Definition writeQueryError (headers : list (bytes * bytes)) (err : error) : Response :=
  writeError headers 400 (query_error_code err).
Definition writePage (headers : list (bytes * bytes)) (nextCursor : bytes) (items : json) : Response :=
  writeJSON (headers ++ (if bytes_eqb nextCursor [] then [] else [(nextCursorHeader, nextCursor)])) 200 items.

(** ** Metrics text *)

Definition line (s : bytes) : bytes := s ++ [chr 10].
Definition metricBool (value : bool) : Z := if value then 1 else 0.

(** The replacer's keys are single bytes. *)
Definition metricLabel (value : bytes) : bytes :=
  concat (map (fun c => if byte_eqb c "\" then bs "\\" else if code c =? 10 then bs "\n"
                        else if byte_eqb c quote then ["\"%char; quote] else [c]) value).

Definition quoted (s : bytes) : bytes := quote :: s ++ [quote].
Definition family (name help : bytes) : bytes :=
  line (bs "# HELP " ++ name ++ bs " " ++ help) ++ line (bs "# TYPE " ++ name ++ bs " gauge").
Definition gauge (name help : bytes) (value : Z) : bytes := family name help ++ line (name ++ bs " " ++ FormatInt value).
Definition sample (name label_name label : bytes) (value : bytes) : bytes :=
  line (name ++ bs "{" ++ label_name ++ bs "=" ++ quoted label ++ bs "} " ++ value).

Definition metrics_control (s : Status) : bytes :=
  gauge (bs "joshbot_discovery_paused") (bs "Whether discovery is administratively paused.")
    (metricBool (DiscoveryPaused (Control s)))
  ++ gauge (bs "joshbot_verification_paused") (bs "Whether verification is administratively paused.")
    (metricBool (VerificationPaused_ (Control s)))
  ++ gauge (bs "joshbot_automatic_expansion_paused")
    (bs "Whether automatic crawl-source expansion is administratively paused.")
    (metricBool (AutomaticExpansionPaused (Control s))).

Definition metrics_backpressure (s : Status) : bytes :=
  gauge (bs "joshbot_automatic_crawl_enabled") (bs "Whether automatic crawl-source promotion is enabled.")
    (metricBool (AutomaticCrawlEnabled (Backpressure s)))
  ++ gauge (bs "joshbot_backpressure_active") (bs "Whether automatic discovery is currently backpressured.")
    (metricBool (Active (Backpressure s)))
  ++ gauge (bs "joshbot_pending_probes") (bs "Current verification probe backlog.") (PendingProbes (Backpressure s))
  ++ gauge (bs "joshbot_pending_probe_limit") (bs "Configured automatic-discovery backpressure limit.")
    (MaxPendingProbes (Backpressure s)).

Definition metrics_queue (s : Status) : bytes :=
  let name := bs "joshbot_verification_queue" in
  let q := Status_Queue s in
  family name (bs "Current verification queue entries.")
  ++ sample name (bs "mode") (bs "all") (FormatInt (QueueSummary_Total q))
  ++ sample name (bs "mode") (bs "probe") (FormatInt (Probe q))
  ++ sample name (bs "mode") (bs "reprobe") (FormatInt (Reprobe q))
  ++ sample name (bs "mode") (bs "recurring") (FormatInt (Recurring q))
  ++ gauge (bs "joshbot_verification_leases") (bs "Current active verification leases.") (Leased q).

Definition metrics_sources (s : Status) : bytes :=
  let name := bs "joshbot_crawl_sources" in
  let classified label value := sample name (bs "classification") label (FormatInt value) in
  let c := Status_Sources s in
  family name (bs "Private crawl-source counts by classification.")
  ++ classified (bs "all") (SourceSummary_Total c) ++ classified (bs "seeded") (SourceSummary_Seeded c)
  ++ classified (bs "automatic") (SourceSummary_Automatic c) ++ classified (bs "verified") (SourceSummary_Verified c)
  ++ classified (bs "blocked") (SourceSummary_Blocked c) ++ classified (bs "crawl_eligible") (SourceSummary_CrawlEligible c).

(** [durableMetrics] *)
Definition metrics_durable (m : OperationalMetrics) : bytes :=
  gauge (bs "joshbot_retained_candidates") (bs "Retained discovery candidates.") (Metrics_Candidates m)
  ++ gauge (bs "joshbot_retained_discovery_edges") (bs "Retained discovery edges.") (Metrics_DiscoveryEdges m)
  ++ gauge (bs "joshbot_retained_crawl_runs") (bs "Retained crawl runs.") (Metrics_CrawlRuns m)
  ++ gauge (bs "joshbot_unfinished_crawl_runs") (bs "Current unfinished crawl runs.") (Metrics_UnfinishedCrawlRuns m)
  ++ gauge (bs "joshbot_retained_pages_attempted") (bs "Retained pages attempted.") (Metrics_PagesAttempted m)
  ++ gauge (bs "joshbot_retained_pages_parsed") (bs "Retained pages parsed.") (Metrics_PagesParsed m)
  ++ gauge (bs "joshbot_retained_origins_found") (bs "Retained origins found by crawls.") (Metrics_OriginsFound m)
  ++ gauge (bs "joshbot_retained_origins_promoted") (bs "Retained origins admitted automatically.") (Metrics_OriginsPromoted m)
  ++ gauge (bs "joshbot_retained_origins_deferred") (bs "Retained non-admitted original link candidates.")
    (Metrics_OriginsDeferred m)
  ++ gauge (bs "joshbot_retained_failures") (bs "Retained failed page attempts.") (Metrics_Failures m)
  ++ gauge (bs "joshbot_retained_robots_denials") (bs "Retained robots denials.") (Metrics_RobotsDenials m).

Definition breakdown (name label_name : bytes) (rows : list MetricBreakdown) : bytes :=
  concat (map (fun b => sample name label_name (metricLabel (Label b)) (FormatInt (Count b))) rows).

Definition metrics_breakdowns (m : OperationalMetrics) : bytes :=
  let attempts := bs "joshbot_retained_page_attempt_failures" in
  let statuses := bs "joshbot_retained_page_http_statuses" in
  let failures := bs "joshbot_verification_queue_failures" in
  family attempts (bs "Retained page attempts by failure category.")
  ++ breakdown attempts (bs "failure_category") (PageFailureCategories m)
  ++ family statuses (bs "Retained page attempts by HTTP status.")
  ++ breakdown statuses (bs "status") (HTTPStatuses m)
  ++ family failures (bs "Current verification queue failures by category.")
  ++ breakdown failures (bs "failure_category") (VerificationQueueFailureCategories m).

(** [latestServices] in the order of [serviceOrder] *)
Fixpoint record_service (s : ServiceStatus) (latest : list ServiceStatus) : list ServiceStatus :=
  match latest with
  | [] => [s]
  | current :: rest =>
      if bytes_eqb (Service current) (Service s)
      then (if time_After (ServiceStatus_UpdatedAt s) (ServiceStatus_UpdatedAt current) then s else current) :: rest
      else current :: record_service s rest
  end.
Definition latestServices (services : list ServiceStatus) : list ServiceStatus :=
  fold_left (fun latest s => record_service s latest) services [].

(** ** Routes *)

Inductive report_endpoint : Type :=
  ep_report_health | ep_status | ep_sources | ep_sourceDetail | ep_crawls | ep_crawl | ep_queue | ep_queueEvents
| ep_services | ep_audits | ep_metrics.

Definition report_routes : list (route report_endpoint) :=
  map (fun '(path, e) => mkRoute (Some (bs "GET")) (pattern_segments path) e)
    [(bs "/healthz", ep_report_health); (bs "/api/v1/status", ep_status); (bs "/api/v1/sources", ep_sources);
     (bs "/api/v1/sources/detail", ep_sourceDetail); (bs "/api/v1/crawls", ep_crawls); (bs "/api/v1/crawls/{}", ep_crawl);
     (bs "/api/v1/queue", ep_queue); (bs "/api/v1/queue/events", ep_queueEvents); (bs "/api/v1/services", ep_services);
     (bs "/api/v1/audit", ep_audits); (bs "/metrics", ep_metrics)].

Section Handler.
Context `{NetURL} `{NetIP} `{IDNA} `{TimeText} `{ReportLibrary}.
Context {W : Type}.
Variable reader : Reader W.
(** [h.now] *)
Variable now : W -> Z.

(** *** Authorization *)

Definition reportingAuthorizationDigest (value : bytes) : bytes := report_Sum256 value.
Definition reportingAuthorizationMatches (expected provided : bytes) : bool :=
  bytes_eqb (reportingAuthorizationDigest provided) expected.

(** [newHandler] for a reader that may be nil: the expected digest *)
Definition newHandler (reader_present : bool) (token : bytes) : res error bytes :=
  if negb reader_present then Err (errors_New errReaderUnavailable)
  else if negb (token_Valid token) then Err (errors_New reporting_errTokenUnavailable)
  else Ok (reportingAuthorizationDigest (bs "Bearer " ++ token)).

(** *** Handlers *)

(** A report without parameters, with a limit, and with a query *)
Definition plain_report {A} (read : call W unit (res error A)) (f : A -> json) (headers : list (bytes * bytes)) (w : W) : W * Response :=
  match read w tt with
  | (w, Err _) => (w, writeInternalError headers)
  | (w, Ok a) => (w, writeJSON headers 200 (f a))
  end.
Definition limited_report {A} (read : call W Z (res error (list A))) (f : A -> json) (headers : list (bytes * bytes))
    (r : ReportRequest) (w : W) : W * Response :=
  match requestLimit (report_Query r) with
  | Err _ => (w, writeError headers 400 (bs "invalid_limit"))
  | Ok limit =>
      match read w limit with
      | (w, Err _) => (w, writeInternalError headers)
      | (w, Ok items) => (w, writeJSON headers 200 (JArray (map f items)))
      end
  end.
Definition paged_report {Q A : Type} (parse : gmap bytes (list bytes) -> res error Q) (read : call W Q (res error (page A)))
    (f : A -> json) (headers : list (bytes * bytes)) (r : ReportRequest) (w : W) : W * Response :=
  match parse (report_Query r) with
  | Err err => (w, writeQueryError headers err)
  | Ok query =>
      match read w query with
      | (w, Err _) => (w, writeInternalError headers)
      | (w, Ok p) => (w, writePage headers (page_NextCursor p) (JArray (map f (page_Items p))))
      end
  end.

Definition health (headers : list (bytes * bytes)) : Response :=
  writeJSON headers 200 (JObject [(bs "status", JString (bs "ok"))]).

Definition set_generated (t : Z) (s : Status) : Status :=
  mkStatus t (Control s) (Backpressure s) (Status_Queue s) (Status_Sources s) (Status_Services s).

Definition status (headers : list (bytes * bytes)) (w : W) : W * Response :=
  match read_Status W reader w tt with
  | (w, Err _) => (w, writeInternalError headers)
  | (w, Ok s) => (w, writeJSON headers 200 (Status_json (set_generated (now w) s)))
  end.

Definition requestSourceOrigin (r : ReportRequest) : res error bytes :=
  let raw := TrimSpace (Values_Get (report_Query r) (bs "origin")) in
  if bytes_eqb raw [] then Err (errors_New errInvalidSourceOrigin)
  else
    match Origin.Parse raw with
    | Err _ => Err (errors_New errInvalidSourceOrigin)
    | Ok parsed =>
        if bytes_eqb (origin_String parsed) [] then Err (errors_New errInvalidSourceOrigin) else Ok (origin_String parsed)
    end.

Definition sourceDetail (headers : list (bytes * bytes)) (r : ReportRequest) (w : W) : W * Response :=
  match requestSourceOrigin r with
  | Err _ => (w, writeError headers 400 (bs "invalid_origin"))
  | Ok source =>
      match requestLimit (report_Query r) with
      | Err _ => (w, writeError headers 400 (bs "invalid_limit"))
      | Ok limit =>
          match read_Source W reader w (source, limit) with
          | (w, Err _) => (w, writeInternalError headers)
          | (w, Ok None) => (w, writeError headers 404 (bs "source_not_found"))
          | (w, Ok (Some detail)) => (w, writeJSON headers 200 (SourceDetail_json detail))
          end
      end
  end.

(** [request.PathValue("id")] is [raw]. *)
Definition crawl (headers : list (bytes * bytes)) (r : ReportRequest) (raw : bytes) (w : W) : W * Response :=
  match ParseInt64 raw with
  | None => (w, writeError headers 400 (bs "invalid_crawl_id"))
  | Some id =>
      if id <=? 0 then (w, writeError headers 400 (bs "invalid_crawl_id"))
      else
        match crawlDetailQuery (report_Query r) id with
        | Err err => (w, writeQueryError headers err)
        | Ok (limit, after) =>
            let '(w, result) :=
              match as_crawlDetail W reader with
              | Some read => read w (id, limit, after)
              | None =>
                  let '(w, result) := read_Crawl W reader w id in
                  (w, match result with
                      | Ok (Some detail) => Ok (Some (boundedCrawlDetail detail id limit after))
                      | other => other
                      end)
              end in
            match result with
            | Err _ => (w, writeInternalError headers)
            | Ok None => (w, writeError headers 404 (bs "crawl_not_found"))
            | Ok (Some detail) => (w, writePage headers (CrawlDetail_NextCursor detail) (CrawlDetail_json detail))
            end
        end
  end.

Definition handle_sources := limited_report (read_Sources W reader) CrawlSource_json.
Definition handle_crawls := limited_report (read_Crawls W reader) CrawlRun_json.
Definition handle_queue := limited_report (read_Queue W reader) QueueItem_json.
Definition handle_queueEvents := limited_report (read_QueueEvents W reader) QueueEvent_json.
Definition handle_audits := limited_report (read_Audits W reader) AuditEvent_json.
Definition handle_services := plain_report (read_Services W reader) (fun l => JArray (map ServiceStatus_json l)).

Definition pagedSources (p : PagedReader W) := paged_report parseSourceQuery (paged_SourcesPage W p) CrawlSource_json.
Definition pagedCrawls (p : PagedReader W) := paged_report parseCrawlQuery (paged_CrawlsPage W p) CrawlRun_json.
Definition pagedQueue (p : PagedReader W) := paged_report parseQueueQuery (paged_QueuePage W p) QueueItem_json.
Definition pagedQueueEvents (p : PagedReader W) := paged_report parseQueueEventQuery (paged_QueueEventsPage W p) QueueEvent_json.
Definition pagedAudits (p : PagedReader W) := paged_report parseAuditQuery (paged_AuditsPage W p) AuditEvent_json.

Definition service_age (at_ : Z) (s : ServiceStatus) : bytes :=
  line (bs "joshbot_service_heartbeat_age_seconds{service=" ++ quoted (metricLabel (Service s)) ++ bs ",state="
        ++ quoted (metricLabel (ServiceStatus_State s)) ++ bs "} "
        ++ seconds_text (Z.max 0 (time_Sub at_ (ServiceStatus_UpdatedAt s)))).

Definition metrics_services (at_ : Z) (s : Status) : bytes :=
  family (bs "joshbot_service_heartbeat_age_seconds") (bs "Age of the latest service heartbeat.")
  ++ concat (map (service_age at_) (latestServices (Status_Services s))).

Definition metrics_text (at_ : Z) (s : Status) (m : OperationalMetrics) : bytes :=
  metrics_control s ++ metrics_backpressure s ++ metrics_queue s ++ metrics_sources s ++ metrics_durable m
  ++ metrics_breakdowns m ++ metrics_services at_ s ++ line (bs "# EOF").

Definition openmetrics_type : bytes * bytes :=
  (bs "Content-Type", bs "application/openmetrics-text; version=1.0.0; charset=utf-8").

Definition metrics (headers : list (bytes * bytes)) (w : W) : W * Response :=
  match read_Status W reader w tt with
  | (w, Err _) => (w, writeInternalError headers)
  | (w, Ok s) =>
      match (match as_metrics W reader with Some read => read w tt | None => (w, Ok no_metrics) end) with
      | (w, Err _) => (w, writeInternalError headers)
      | (w, Ok m) => (w, Reply 200 (headers ++ [openmetrics_type]) (metrics_text (now w) s m))
      end
  end.

(** *** The chain of handlers *)

Definition challenge : bytes * bytes := (bs "WWW-Authenticate", bs "Bearer realm=" ++ quoted (bs "joshbot-reporting")).

Definition report_authorize (expected : bytes) (headers : list (bytes * bytes)) (r : ReportRequest)
    (next : W -> W * Response) (w : W) : W * Response :=
  if negb (reportingAuthorizationMatches expected (report_Authorization r))
  then (w, writeError (headers ++ [challenge]) 401 (bs "unauthorized"))
  else next w.

Definition serve_report (headers : list (bytes * bytes)) (e : report_endpoint) (matches : list bytes) (r : ReportRequest)
    (w : W) : W * Response :=
  match e with
  | ep_report_health => (w, health headers)
  | ep_status => status headers w
  | ep_sources => handle_sources headers r w
  | ep_sourceDetail => sourceDetail headers r w
  | ep_crawls => handle_crawls headers r w
  | ep_crawl => crawl headers r (List.nth 0 matches []) w
  | ep_queue => handle_queue headers r w
  | ep_queueEvents => handle_queueEvents headers r w
  | ep_services => handle_services headers w
  | ep_audits => handle_audits headers r w
  | ep_metrics => metrics headers w
  end.

(** The mux; only the health endpoint is served without authorization. *)
Definition serve_mux (expected : bytes) (headers : list (bytes * bytes)) (r : ReportRequest) (w : W) : W * Response :=
  match route_request report_routes (report_Method r) (report_EscapedPath r) with
  | Matched ep_report_health matches => serve_report headers ep_report_health matches r w
  | Matched e matches => report_authorize expected headers r (serve_report headers e matches r) w
  | RedirectTo path => (w, MuxRedirect path)
  | MethodNotAllowed => (w, MuxReply 405)
  | NotFound => (w, MuxReply 404)
  | BadRequest => (w, MuxReply 400)
  end.

(** [pageHandler] of [withPagination] *)
Definition page_handler (p : PagedReader W) (path : bytes) : option (list (bytes * bytes) -> ReportRequest -> W -> W * Response) :=
  if bytes_eqb path (bs "/api/v1/sources") then Some (pagedSources p)
  else if bytes_eqb path (bs "/api/v1/crawls") then Some (pagedCrawls p)
  else if bytes_eqb path (bs "/api/v1/queue") then Some (pagedQueue p)
  else if bytes_eqb path (bs "/api/v1/queue/events") then Some (pagedQueueEvents p)
  else if bytes_eqb path (bs "/api/v1/audit") then Some (pagedAudits p)
  else None.

Definition withPagination (expected : bytes) (headers : list (bytes * bytes)) (r : ReportRequest) (w : W) : W * Response :=
  match as_paged W reader with
  | None => serve_mux expected headers r w
  | Some p =>
      if negb (bytes_eqb (report_Method r) (bs "GET")) && negb (bytes_eqb (report_Method r) (bs "HEAD"))
      then serve_mux expected headers r w
      else
        match page_handler p (report_Path r) with
        | None => serve_mux expected headers r w
        | Some handler => report_authorize expected headers r (handler headers r) w
        end
  end.

(** [withHeaders]: the headers of every reply *)
Definition common_headers : list (bytes * bytes) :=
  [(bs "Cache-Control", bs "no-store"); (bs "X-Content-Type-Options", bs "nosniff")].

(** [ServeHTTP] of the handler [newHandler] returns for a digest *)
Definition serve_reporting (expected : bytes) (r : ReportRequest) (w : W) : W * Response :=
  withPagination expected common_headers r w.
End Handler.
