(* ===== verification/ReportService.v ===== *)
(** * The reporting service

    The handler over the PostgreSQL read model, and a client that follows the
    next-cursor header from page to page. *)

From S2P Require Import Prelude GoText GoUrl GoErrors GoNetip GoJson GoTime GoEncoding Retry Origin Netguard.
From S2P Require Import RobotsMatch RobotsPolicy RobotsPolicyFacts RobotsHTTP Declaration Verifier.
From S2P Require Import Discovery Crawler Store Queue Exclusions DiscoveryStore Admission DiscoveryLease CrawlTelemetry ControlStore.
From S2P Require Import GoMux Control JsonFields ReportData Pagination Reports KeysetPages ReportHandler.

#[local] Set Warnings "-clear-no-such-hyp".

(** What the reader reads: the database, the queue events, and the clock. *)
Record PgState : Type := mkPgState { pg_db : Database; pg_events : list QueueEvent; pg_now : Z }.

(** A read leaves the state alone. *)
Definition query_of {A R} (f : PgState -> A -> R) : call PgState A R := fun w a => (w, f w a).

(** [PostgresReader] as a [pagedReader] *)
Definition postgres_pages (text_leb : bytes -> bytes -> bool) : PagedReader PgState :=
  mkPagedReader PgState
    (query_of (fun w q => SourcesPage text_leb (pg_db w) q))
    (query_of (fun w q => CrawlsPage (pg_db w) q))
    (query_of (fun w q => QueuePage text_leb (pg_db w) (pg_now w) q))
    (query_of (fun w q => QueueEventsPage (pg_events w) q))
    (query_of (fun w q => AuditsPage (pg_db w) q)).

(** [PostgresReader] as a [Reader]; it implements the optional interfaces. *)
Definition postgres_reader `{NetURL} `{NetIP} `{IDNA} (text_leb : bytes -> bytes -> bool) (config : PostgresConfig) : Reader PgState :=
  mkReader PgState
    (query_of (fun w _ => Ok (Status_ text_leb config (pg_db w) (pg_now w))))
    (query_of (fun w limit => Sources text_leb (pg_db w) limit))
    (query_of (fun w a => Source text_leb (pg_db w) (fst a) (snd a)))
    (query_of (fun w limit => Crawls (pg_db w) limit))
    (query_of (fun w id => Crawl (pg_db w) id))
    (query_of (fun w limit => Queue_ text_leb (pg_db w) limit))
    (query_of (fun w limit => QueueEvents (pg_events w) limit))
    (query_of (fun w limit => Audits (pg_db w) limit))
    (query_of (fun w _ => Ok (Services text_leb (pg_db w))))
    (Some (postgres_pages text_leb))
    (Some (query_of (fun w '(id, limit, after) => CrawlPage (pg_db w) id limit after)))
    (Some (query_of (fun w _ => Ok (Metrics text_leb (pg_db w))))).

(** ** The client *)

Definition header_value (name : bytes) (headers : list (bytes * bytes)) : bytes :=
  match List.find (fun h => bytes_eqb (fst h) name) headers with Some h => snd h | None => [] end.

(** The bodies of the pages, as long as every reply is a success *)
Fixpoint follow_http (serve : bytes -> Response) (fuel : nat) (cursor : bytes) : option (list bytes) :=
  match fuel with
  | O => None
  | S fuel =>
      match serve cursor with
      | Reply status headers body =>
          if negb (status =? 200) then None
          else
            let next := header_value nextCursorHeader headers in
            if bytes_eqb next [] then Some [body] else cons body <$> follow_http serve fuel next
      | _ => None
      end
  end.

Definition page_body {A} (f : A -> json) (items : list A) : bytes := encoded (JArray (map f items)).

Lemma writePage_next next value : exists headers, writePage common_headers next value = Reply 200 headers (encoded value)
  /\ header_value nextCursorHeader headers = next.
Proof. eexists. split; [done|]. by destruct (bytes_eqb_spec next []) as [->|]. Qed.

(** The client over HTTP receives the pages the client of the read model does. *)
Lemma follow_http_pages {A} (f : A -> json) (fetch : bytes -> res error (page A)) (serve : bytes -> Response) :
  (forall cursor p, fetch cursor = Ok p -> serve cursor = writePage common_headers (page_NextCursor p) (JArray (map f (page_Items p)))) ->
  forall fuel cursor pages, follow fetch fuel cursor = Some pages -> follow_http serve fuel cursor = Some (map (page_body f) pages).
Proof.
  intros Hserve. induction fuel as [|fuel IH]; intros cursor pages; [done|]. cbn [follow follow_http].
  destruct (fetch cursor) as [p|] eqn:Hp; [|done]. rewrite (Hserve _ _ Hp).
  destruct (writePage_next (page_NextCursor p) (JArray (map f (page_Items p)))) as (headers & -> & ->). cbn [negb Z.eqb Pos.eqb].
  destruct (bytes_eqb (page_NextCursor p) []); [by intros [= <-]|].
  destruct (follow fetch fuel (page_NextCursor p)) as [rest|] eqn:Hr; [|done]. intros [= <-]. by rewrite (IH _ _ Hr).
Qed.

(** A report that is served in full: pages of at most [limit] rows whose
    bodies are what the client receives and which together are all rows. *)
Definition served_in_full {A} (serve : bytes -> Response) (f : A -> json) (fuel : nat) (limit : Z) (all : list A) : Prop :=
  exists pages, follow_http serve fuel [] = Some (map (page_body f) pages) /\ concat pages = all
    /\ Forall (fun p => Z.of_nat (length p) <= limit) pages.

(** ** The reports over HTTP *)

Section Service.
Context `{NetURL} `{NetIP} `{IDNA} `{TimeTextLaws} `{ReportLibrary}.
Variable text_leb : bytes -> bytes -> bool.
Hypothesis text_total : forall a b, text_leb a b = true \/ text_leb b a = true.
Hypothesis text_trans : forall a b c, text_leb a b = true -> text_leb b c = true -> text_leb a c = true.
Hypothesis text_antisym : forall a b, text_leb a b = true -> text_leb b a = true -> a = b.
Variable config : PostgresConfig.
Variable token : bytes.

(** A request of the operator for a path with parameters and a cursor *)
Definition operator_request (path : bytes) (values : gmap bytes (list bytes)) (cursor : bytes) : ReportRequest :=
  mkReportRequest (bs "GET") path (bs "Bearer " ++ token) (with_cursor values cursor).

Definition reply_to (w : PgState) (path : bytes) (values : gmap bytes (list bytes)) (cursor : bytes) : Response :=
  snd (serve_reporting (postgres_reader text_leb config) pg_now (reportingAuthorizationDigest (bs "Bearer " ++ token))
         (operator_request path values cursor) w).

(** A page of a report for an authorized request *)
Lemma reply_paged {Q A : Type} (parse : gmap bytes (list bytes) -> res error Q) (read : call PgState Q (res error (page A)))
    (f : A -> json) w path values cursor p :
  page_handler (postgres_pages text_leb) (pathUnescape path) = Some (paged_report parse read f) ->
  (let? query := parse (with_cursor values cursor) in snd (read w query)) = Ok p ->
  reply_to w path values cursor = writePage common_headers (page_NextCursor p) (JArray (map f (page_Items p))).
Proof.
  intros Hh Hp. unfold reply_to, serve_reporting, withPagination. cbn [as_paged postgres_reader]. cbv iota.
  cbn [report_Method operator_request]. change (bytes_eqb (bs "GET") (bs "GET")) with true.
  cbn [negb andb]. unfold report_Path. cbn [report_EscapedPath operator_request]. rewrite Hh. unfold report_authorize.
  cbn [report_Authorization operator_request]. unfold reportingAuthorizationMatches.
  destruct (bytes_eqb_spec (reportingAuthorizationDigest (bs "Bearer " ++ token)) (reportingAuthorizationDigest (bs "Bearer " ++ token)));
    [|done]. cbn [negb]. unfold paged_report. cbn [report_Query operator_request].
  destruct (parse (with_cursor values cursor)) as [query|]; [|done]. cbn [res_bind] in Hp.
  destruct (read w query) as [w' [p'|err]]; cbn [snd] in Hp; [|done]. by injection Hp as ->.
Qed.

(** A report whose pages the read model returns in full is served in full. *)
Lemma served {Q A : Type} (parse : gmap bytes (list bytes) -> res error Q) (read : call PgState Q (res error (page A)))
    (f : A -> json) w path values fuel limit all :
  page_handler (postgres_pages text_leb) (pathUnescape path) = Some (paged_report parse read f) ->
  (exists pages, follow (fun cursor => let? query := parse (with_cursor values cursor) in snd (read w query)) fuel [] = Some pages
     /\ concat pages = all /\ Forall (fun p => Z.of_nat (length p) <= limit) pages) ->
  served_in_full (reply_to w path values) f fuel limit all.
Proof.
  intros Hh (pages & Hf & Hc & Hl). exists pages. split; [|done]. eapply follow_http_pages; [|exact Hf].
  intros cursor p Hp. by eapply reply_paged.
Qed.

(** What every stored row satisfies so that a cursor can name it *)
Record reportable (w : PgState) : Prop := {
  reportable_sources : Forall (fun r => origin_key (CrawlSource_Origin r)) (source_rows (pg_db w));
  reportable_runs : Forall run_key (run_rows (pg_db w));
  reportable_queue : Forall item_key (queue_items (pg_db w));
  reportable_events : Forall event_key (pg_events w) /\ NoDup (map QueueEvent_ID (pg_events w));
  reportable_audits : Forall audit_key (audit_rows (pg_db w));
  reportable_attempts : forall id, Forall (fun p => id_key (PageAttempt_Sequence p)) (attempt_rows (pg_db w) id);
}.

Lemma reports_served w values fuel : reportable w ->
  (forall q, parseSourceQuery (with_cursor values []) = Ok q -> (length (source_rows (pg_db w)) < fuel)%nat ->
    served_in_full (reply_to w (bs "/api/v1/sources") values) CrawlSource_json fuel (sourceQuery_Limit q)
      (matching (by_source text_leb) (source_rows (pg_db w)) (source_matches q)))
  /\ (forall q, parseCrawlQuery (with_cursor values []) = Ok q -> (length (run_rows (pg_db w)) < fuel)%nat ->
    served_in_full (reply_to w (bs "/api/v1/crawls") values) CrawlRun_json fuel (crawlQuery_Limit q)
      (matching newest_run (run_rows (pg_db w)) (crawl_matches q)))
  /\ (forall q, parseQueueQuery (with_cursor values []) = Ok q -> (length (queue_items (pg_db w)) < fuel)%nat ->
    served_in_full (reply_to w (bs "/api/v1/queue") values) QueueItem_json fuel (queueQuery_Limit q)
      (matching (oldest_queued text_leb) (queue_items (pg_db w)) (queue_matches (pg_db w) (pg_now w) q)))
  /\ (forall q, parseQueueEventQuery (with_cursor values []) = Ok q -> (length (pg_events w) < fuel)%nat ->
    served_in_full (reply_to w (bs "/api/v1/queue/events") values) QueueEvent_json fuel (queueEventQuery_Limit q)
      (matching newest_event (pg_events w) (event_matches q)))
  /\ (forall q, parseAuditQuery (with_cursor values []) = Ok q -> (length (audit_rows (pg_db w)) < fuel)%nat ->
    served_in_full (reply_to w (bs "/api/v1/audit") values) AuditEvent_json fuel (auditQuery_Limit q)
      (matching newest_audit (audit_rows (pg_db w)) (fun _ => true))).
Proof.
  intros Hw. split_and!; intros q Hq Hfuel.
  - apply (served parseSourceQuery (paged_SourcesPage _ (postgres_pages text_leb))); [done|].
    by apply (sources_complete text_leb text_total text_trans text_antisym), Hfuel; [apply Hw|].
  - apply (served parseCrawlQuery (paged_CrawlsPage _ (postgres_pages text_leb))); [done|].
    by apply crawls_complete, Hfuel; [apply Hw|].
  - apply (served parseQueueQuery (paged_QueuePage _ (postgres_pages text_leb))); [done|].
    by apply (queue_complete text_leb text_total text_trans text_antisym), Hfuel; [apply Hw|].
  - apply (served parseQueueEventQuery (paged_QueueEventsPage _ (postgres_pages text_leb))); [done|].
    by apply events_complete, Hfuel; [apply Hw|apply Hw|].
  - apply (served parseAuditQuery (paged_AuditsPage _ (postgres_pages text_leb))); [done|].
    by apply audits_complete, Hfuel; [apply Hw|].
Qed.
End Service.

(** * What the reporting service promises

    The attempts of a run page by page; nothing is read or shown without the
    operator's token; every refused query has its code and reads nothing; and
    the status agrees with the tables, with the limit at which discovery stops
    creating probes, and with the source reports. *)


#[local] Set Warnings "-clear-no-such-hyp".

(** ** The attempts of a run *)

Lemma nodup_of_filter {A K} (key : A -> K) (f : A -> bool) l : 
  (forall a b, a ∈ l -> b ∈ l -> f a = true -> f b = true -> key a = key b -> a = b) -> NoDup l ->
  NoDup (map key (List.filter f l)).
Proof.
  induction l as [|x l IH]; [constructor|]. intros Hinj [Hx Hl]%NoDup_cons.
  assert (IH' : NoDup (map key (List.filter f l))) by (apply IH; [|done]; intros a b Ha Hb; apply Hinj; by right).
  cbn [List.filter]. destruct (f x) eqn:Hf; [|done]. cbn [map]. constructor; [|done].
  intros (y & Hy & [Hin Hfy]%filter_In)%list_elem_of_In%in_map_iff. apply list_elem_of_In in Hin.
  assert (y = x) as -> by (apply Hinj; [by right|by left|done|done|done]). done.
Qed.

Lemma attempt_rows_nodup db id : NoDup (map PageAttempt_Sequence (attempt_rows db id)).
Proof.
  unfold attempt_rows. rewrite map_map.
  rewrite (map_ext _ (fun x : Z * Z * Crawler.PageAttempt => snd (fst x))) by (by intros [[run sequence] a]).
  apply nodup_of_filter; [|apply NoDup_map_to_list].
  intros [[r s] a] [[r' s'] a'] Ha Hb Hr Hr' Hs. cbn [fst snd] in *. subst s'.
  assert (r = r') as <- by lia. apply elem_of_map_to_list in Ha, Hb. congruence.
Qed.

Lemma skip_pages_all after l : Forall (fun p => after < PageAttempt_Sequence p) l -> skip_pages after l = l.
Proof. intros Hl. destruct Hl as [|p l Hp _]; [done|]. cbn. by rewrite (proj2 (Z.leb_gt _ _)) by lia. Qed.

Lemma crawlPages_after db id limit after : Forall (fun p => after < PageAttempt_Sequence p) (crawlPages db id limit after).
Proof.
  unfold crawlPages, select. apply Forall_take. rewrite merge_sort_Permutation, Forall_forall.
  intros p [_ Hp]%elem_of_filter_bool. lia.
Qed.

(** A page of a run's attempts is cut like the pages of the other reports. *)
Lemma boundedCrawlDetail_trim run pages id limit after : Forall (fun p => after < PageAttempt_Sequence p) pages ->
  let d := boundedCrawlDetail (mkCrawlDetail run pages []) id limit after in
  mkPage (CrawlDetail_Pages d) (CrawlDetail_NextCursor d)
  = trim_page (fun p => crawlPagesCursor id (PageAttempt_Sequence p)) pages limit.
Proof.
  intros Hp d. unfold d, boundedCrawlDetail, trim_page. cbn [CrawlDetail_Pages CrawlDetail_Run]. rewrite skip_pages_all by done.
  cbv zeta. rewrite (Z.leb_antisym limit). destruct (limit <? Z.of_nat (length pages)); done.
Qed.

Section Attempts.
Context `{NetURL} `{NetIP} `{IDNA} `{TimeTextLaws}.

Definition fetch_attempts (db : Database) (id : Z) (values : gmap bytes (list bytes)) (cursor : bytes) : res error (page PageAttempt) :=
  let? query := crawlDetailQuery (with_cursor values cursor) id in
  let? found := CrawlPage db id (fst query) (snd query) in
  match found with
  | Some d => Ok (mkPage (CrawlDetail_Pages d) (CrawlDetail_NextCursor d))
  | None => Err (errors_New errInvalidCrawlID)
  end.

Lemma attempts_complete db id values limit fuel : id_key id -> is_Some (runs (Store.crawl db) !! id) ->
  Forall (fun p => id_key (PageAttempt_Sequence p)) (attempt_rows db id) -> requestLimit values = Ok limit ->
  (length (attempt_rows db id) < fuel)%nat ->
  exists pages, follow (fetch_attempts db id values) fuel [] = Some pages
    /\ concat pages = matching by_sequence (attempt_rows db id) (fun _ => true)
    /\ Forall (fun p => Z.of_nat (length p) <= limit) pages.
Proof.
  intros Hid [run Hrun] Hkeys Hlimit Hfuel. pose proof (requestLimit_range _ _ Hlimit) as Hl.
  destruct (nodup_keyed _ _ (attempt_rows_nodup db id)) as [Hnd Hinj]. rewrite Forall_forall in Hkeys.
  apply (follow_complete by_sequence) with (nextCursor := fun p => crawlPagesCursor id (PageAttempt_Sequence p))
    (after := fun cursor => match crawlDetailQuery (with_cursor values cursor) id with
                            | Ok (_, after) => if (after <? 0) then None else Some (fun p => after <? PageAttempt_Sequence p)
                            | Err _ => None end); try done.
  - intros a b. unfold by_sequence. lia.
  - intros a b c. unfold by_sequence. lia.
  - intros a b Ha Hb. unfold by_sequence. intros. apply Hinj; [done|done|lia].
  - unfold crawlDetailQuery. rewrite with_cursor_limit, with_cursor_value, Hlimit. cbn [res_bind bytes_eqb].
    eexists. split; [done|]. intros p Hp. destruct (Hkeys p Hp). lia.
  - intros x Hx _. destruct (crawl_pages_roundtrip (with_cursor values (crawlPagesCursor id (PageAttempt_Sequence x))) id
      (PageAttempt_Sequence x) limit) as [Hne ->]; [done|by apply Hkeys|by rewrite with_cursor_limit|by rewrite with_cursor_value|].
    split; [done|]. destruct (Hkeys x Hx) as [Hpos _]. rewrite (proj2 (Z.ltb_ge _ _)) by lia. eexists. split; [done|].
    intros y _. unfold by_sequence. lia.
  - intros cursor f. unfold fetch_attempts.
    assert (Hq : forall q, crawlDetailQuery (with_cursor values cursor) id = Ok q -> fst q = limit).
    { intros q. unfold crawlDetailQuery. rewrite with_cursor_limit, Hlimit. cbn [res_bind].
      repeat (case_head; try done); by intros [= <-]. }
    destruct (crawlDetailQuery _ id) as [[limit' after]|]; [|done]. specialize (Hq _ eq_refl). cbn [fst] in Hq. subst limit'.
    destruct (Z.ltb_spec after 0) as [|Hge]; [done|]. intros [= <-]. cbn [res_bind fst snd]. unfold CrawlPage, validReaderLimit.
    rewrite (proj2 (Z.leb_le 1 limit)), (proj2 (Z.leb_le limit maxLimit)), (proj2 (Z.ltb_ge after 0)) by lia. cbn [negb andb].
    destruct Hid as [Hid _]. rewrite (proj2 (Z.leb_gt id 0)), Hrun by lia. cbn [res_bind]. f_equal.
    apply boundedCrawlDetail_trim, crawlPages_after.
Qed.
(** *** Over HTTP *)

Lemma digits_plain t : forallb is_digit t = true -> ("/"%char ∉ t) /\ PathUnescape t = Some t /\ HasSuffix t (bs "/") = false.
Proof.
  intros Ht. assert (Hd : forall c d, is_digit c = true -> is_digit d = false -> byte_eqb c d = false)
    by (intros c d Hc Hn; destruct (byte_eqb_spec c d) as [->|]; congruence).
  assert (Hs : "/"%char ∉ t). { intros Hin%list_elem_of_In. by apply (proj1 (forallb_forall _ _) Ht) in Hin. }
  split_and!; [done| |].
  - clear Hs. induction t as [|c t IH]; [done|]. cbn [forallb] in Ht. apply andb_true_iff in Ht as [Hc Ht]. cbn [PathUnescape].
    by rewrite (Hd c "%"%char), (IH Ht).
  - destruct (HasSuffix t (bs "/")) eqn:Hx; [|done]. apply HasSuffix_spec in Hx as [u ->]. exfalso. apply Hs.
    apply elem_of_app. right. by left.
Qed.

Lemma id_digits id : id_key id -> forallb is_digit (FormatInt id) = true /\ exists c t, FormatInt id = c :: t /\ is_digit c = true.
Proof.
  intros [Hpos Hmax]. unfold FormatInt. rewrite (proj2 (Z.ltb_ge _ _)) by lia. pose proof (FormatUint_spec id) as Hs. unfold max_int64, max_uint64 in *.
  destruct Hs as (Hne & Hd & _); [lia|]. split; [done|]. destruct (FormatUint id) as [|c t]; [done|]. exists c, t. split; [done|].
  cbn [forallb] in Hd. by apply andb_true_iff in Hd as [? _].
Qed.

(** The path of a run *)
Definition crawl_path (id : Z) : bytes := bs "/api/v1/crawls/" ++ FormatInt id.

Lemma crawl_path_segments id : id_key id ->
  Split (crawl_path id) "/" = [[]; bs "api"; bs "v1"; bs "crawls"; FormatInt id]
  /\ segments (crawl_path id) = [bs "api"; bs "v1"; bs "crawls"; FormatInt id]
  /\ cleanPath (crawl_path id) = crawl_path id /\ pathUnescape (crawl_path id) = crawl_path id.
Proof.
  intros Hid. destruct (id_digits id Hid) as (Ht & c & t & He & Hc). destruct (digits_plain _ Ht) as (Hs & Hu & Hx).
  assert (Hsplit : Split (crawl_path id) "/" = [[]; bs "api"; bs "v1"; bs "crawls"; FormatInt id]).
  { change (crawl_path id) with (bs "/api/v1/crawls" ++ "/"%char :: FormatInt id). by rewrite Split_app, (Split_none (FormatInt id)). }
  split_and!; [done| | |].
  - change (segments (crawl_path id)) with (let parts := Split (bs "api/v1/crawls" ++ "/"%char :: FormatInt id) "/" in
      map pathUnescape (removelast parts) ++ (match List.last parts [] with [] => [bs "/"] | part => [pathUnescape part] end)).
    rewrite Split_app, (Split_none (FormatInt id)) by done. cbv zeta.
    change (Split (bs "api/v1/crawls") "/") with [bs "api"; bs "v1"; bs "crawls"]. cbn [app removelast List.last map].
    rewrite He in Hu |- *. unfold pathUnescape. by rewrite Hu.
  - assert (Hel : clean_elements (crawl_path id) = [bs "api"; bs "v1"; bs "crawls"; FormatInt id]).
    { unfold clean_elements. rewrite Hsplit, He. cbn [fold_left]. unfold clean_step. cbn [bytes_eqb bs dot dotdot].
      destruct (byte_eqb_spec c ".") as [->|]; [done|]. done. }
    change (cleanPath (crawl_path id)) with (let np := path_Clean (crawl_path id) in
      if HasSuffix (crawl_path id) (bs "/") && negb (bytes_eqb np (bs "/")) then np ++ bs "/" else np).
    unfold path_Clean. rewrite Hel. cbv zeta. replace (HasSuffix (crawl_path id) (bs "/")) with false; [done|]. symmetry.
    destruct (HasSuffix (crawl_path id) (bs "/")) eqn:Hsuf; [|done]. apply HasSuffix_spec in Hsuf as [u Hu'].
    rewrite <- Hx. symmetry. apply HasSuffix_spec. unfold crawl_path in Hu'. rewrite He in *.
    destruct (exists_last (l := c :: t)) as (l & x & Hl); [done|]. rewrite Hl, app_assoc in Hu'. apply app_inj_tail in Hu' as [_ ->].
    rewrite Hl. by exists l.
  - unfold pathUnescape, crawl_path. cbn [bs app]. cbn [PathUnescape byte_eqb]. by rewrite Hu.
Qed.

Lemma crawl_path_routed id : id_key id -> route_request report_routes (bs "GET") (crawl_path id) = Matched ep_crawl [FormatInt id].
Proof.
  intros Hid. destruct (crawl_path_segments id Hid) as (_ & Hseg & Hclean & _). destruct (id_digits id Hid) as (_ & c & t & He & Hc).
  assert (Hm : matchMethodAndPath report_routes (bs "GET") (crawl_path id)
    = Some (mkRoute (Some (bs "GET")) [Lit (bs "api"); Lit (bs "v1"); Lit (bs "crawls"); Wild] ep_crawl, [FormatInt id])).
  { unfold matchMethodAndPath. rewrite Hseg, He. clear -Hc.
    destruct c as [[] [] [] [] [] [] [] []]; try discriminate Hc; vm_compute; reflexivity. }
  unfold route_request. cbv zeta. change (bytes_eqb (bs "GET") (bs "CONNECT")) with false. cbv iota. rewrite Hclean.
  unfold matchOrRedirect. rewrite Hm. cbn [exactMatch route_segments List.last negb andb].
  destruct (bytes_eqb_spec (crawl_path id) (bs "*")); [done|]. destruct (bytes_eqb_spec (crawl_path id) (crawl_path id)); done.
Qed.

Definition detail_body (d : CrawlDetail) : bytes := encoded (CrawlDetail_json d).

(** The reply to an authorized request for a run that exists *)
Lemma reply_crawl `{ReportLibrary} text_leb config token w id values cursor query d : id_key id ->
  crawlDetailQuery (with_cursor values cursor) id = Ok query -> CrawlPage (pg_db w) id (fst query) (snd query) = Ok (Some d) ->
  reply_to text_leb config token w (crawl_path id) values cursor = writePage common_headers (CrawlDetail_NextCursor d) (CrawlDetail_json d).
Proof.
  intros Hid Hq Hd. destruct (crawl_path_segments id Hid) as (_ & _ & _ & Hu). unfold reply_to, serve_reporting, withPagination.
  cbn [as_paged postgres_reader]. cbv iota. cbn [report_Method operator_request]. change (bytes_eqb (bs "GET") (bs "GET")) with true. cbn [negb andb].
  unfold report_Path. cbn [report_EscapedPath operator_request]. rewrite Hu.
  change (page_handler (postgres_pages text_leb) (crawl_path id))
    with (@None (list (bytes * bytes) -> ReportRequest -> PgState -> PgState * Response)).
  unfold serve_mux. cbn [report_Method report_EscapedPath operator_request]. rewrite crawl_path_routed by done.
  unfold report_authorize, reportingAuthorizationMatches. cbn [report_Authorization operator_request].
  destruct (bytes_eqb_spec (reportingAuthorizationDigest (bs "Bearer " ++ token)) (reportingAuthorizationDigest (bs "Bearer " ++ token))); [|done].
  cbn [negb serve_report List.nth]. unfold crawl. destruct Hid as [Hpos Hmax].
  rewrite ParseInt64_FormatInt by (unfold min_int64; lia). rewrite (proj2 (Z.leb_gt id 0)) by lia.
  cbn [report_Query operator_request]. rewrite Hq. destruct query as [limit after]. cbn [as_crawlDetail postgres_reader]. unfold query_of.
  cbn [fst snd] in Hd. by rewrite Hd.
Qed.

(** The client of the detail report receives the run with each page. *)
Lemma follow_details `{ReportLibrary} text_leb config token w id values : id_key id -> forall fuel cursor pages,
  follow (fetch_attempts (pg_db w) id values) fuel cursor = Some pages ->
  exists details, follow_http (reply_to text_leb config token w (crawl_path id) values) fuel cursor = Some (map detail_body details)
    /\ map CrawlDetail_Pages details = pages
    /\ Forall (fun d => exists r, runs (Store.crawl (pg_db w)) !! id = Some r /\ CrawlDetail_Run d = scanCrawlRun (id, r)) details.
Proof.
  intros Hid. induction fuel as [|fuel IH]; intros cursor pages; [done|]. cbn [follow follow_http]. unfold fetch_attempts at 1.
  destruct (crawlDetailQuery (with_cursor values cursor) id) as [query|] eqn:Hq; cbn [res_bind]; [|done].
  destruct (CrawlPage (pg_db w) id (fst query) (snd query)) as [[d|]|] eqn:Hd; cbn [res_bind]; [|done|done].
  rewrite (reply_crawl _ _ _ _ _ _ _ query d) by done.
  destruct (writePage_next (CrawlDetail_NextCursor d) (CrawlDetail_json d)) as (headers & -> & ->). cbn [negb Z.eqb Pos.eqb page_NextCursor page_Items].
  assert (Hrun : exists r, runs (Store.crawl (pg_db w)) !! id = Some r /\ CrawlDetail_Run d = scanCrawlRun (id, r)).
  { revert Hd. unfold CrawlPage. destruct (negb _); [done|]. destruct (_ <? 0); [done|]. destruct (id <=? 0); [done|].
    destruct (runs (Store.crawl (pg_db w)) !! id) as [r|]; [|done].
    intros [= <-]. exists r. split; [done|]. unfold boundedCrawlDetail. cbv zeta. by destruct (_ <? _). }
  destruct (bytes_eqb (CrawlDetail_NextCursor d) []).
  - intros [= <-]. exists [d]. split_and!; [done|done|]. by constructor.
  - destruct (follow _ fuel (CrawlDetail_NextCursor d)) as [rest|] eqn:Hr; [|done]. intros [= <-].
    destruct (IH _ _ Hr) as (details & -> & Hp & Hf). exists (d :: details). cbn [map]. rewrite Hp. split_and!; [done|done|]. by constructor.
Qed.
End Attempts.

(** ** Refused queries *)

(** The code of the first check that fails *)
Fixpoint first_refusal (checks : list (bool * bytes)) : option bytes :=
  match checks with
  | [] => None
  | (ok, refusal) :: rest => if ok then first_refusal rest else Some refusal
  end.

Section Refusals.
Context `{NetURL} `{NetIP} `{IDNA} `{TimeText}.

Definition limit_check (values : gmap bytes (list bytes)) : bool * bytes := (is_ok (requestLimit values), bs "invalid_limit").
Definition origin_check (values : gmap bytes (list bytes)) : bool * bytes := (is_ok (queryOrigin values), bs "invalid_origin").
Definition bool_check (values : gmap bytes (list bytes)) (name : bytes) : bool * bytes :=
  (is_ok (queryBool values name), bs "invalid_filter").
Definition enum_check (values : gmap bytes (list bytes)) (name : bytes) (allowed : list bytes) : bool * bytes :=
  (is_ok (queryEnum values name allowed), bs "invalid_filter").
Definition cursor_check {C} (decoded : res error C) : bool * bytes := (is_ok decoded, bs "invalid_cursor").

(** A query is accepted when every check passes and otherwise refused with the
    code of the first that does not. *)
Definition refused_by {Q} (parsed : res error Q) (checks : list (bool * bytes)) : Prop :=
  first_refusal checks = match parsed with Ok _ => None | Err err => Some (query_error_code err) end.

Lemma limit_refused values err : requestLimit values = Err err -> query_error_code err = bs "invalid_limit".
Proof. unfold requestLimit. repeat (case_head; try done); by intros [= <-]. Qed.
Lemma origin_refused values err : queryOrigin values = Err err -> query_error_code err = bs "invalid_origin".
Proof. unfold queryOrigin. repeat (case_head; try done); by intros [= <-]. Qed.
Lemma bool_refused values name err : queryBool values name = Err err -> query_error_code err = bs "invalid_filter".
Proof. unfold queryBool. repeat (case_head; try done); by intros [= <-]. Qed.
Lemma enum_refused values name allowed err : queryEnum values name allowed = Err err -> query_error_code err = bs "invalid_filter".
Proof. unfold queryEnum. repeat (case_head; try done); by intros [= <-]. Qed.
Lemma instant_refused raw kind err : decode_instant_id raw kind = Err err -> query_error_code err = bs "invalid_cursor".
Proof. unfold decode_instant_id. repeat (case_head; try done); by intros [= <-]. Qed.
Lemma source_cursor_refused raw err : decodeSourceCursor raw = Err err -> query_error_code err = bs "invalid_cursor".
Proof. unfold decodeSourceCursor. repeat (case_head; try done); by intros [= <-]. Qed.
Lemma queue_cursor_refused raw err : decodeQueueCursor raw = Err err -> query_error_code err = bs "invalid_cursor".
Proof. unfold decodeQueueCursor. repeat (case_head; try done); by intros [= <-]. Qed.
Lemma crawl_cursor_refused raw err : decodeCrawlCursor raw = Err err -> query_error_code err = bs "invalid_cursor".
Proof.
  unfold decodeCrawlCursor. case_head; [done|]. destruct (decode_instant_id _ _) eqn:E'; [done|]. intros [= <-].
  by eapply instant_refused.
Qed.
Lemma event_cursor_refused raw err : decodeQueueEventCursor raw = Err err -> query_error_code err = bs "invalid_cursor".
Proof.
  unfold decodeQueueEventCursor. case_head; [done|]. destruct (decode_instant_id _ _) eqn:E'; [done|]. intros [= <-].
  by eapply instant_refused.
Qed.
Lemma audit_cursor_refused raw err : decodeAuditCursor raw = Err err -> query_error_code err = bs "invalid_cursor".
Proof.
  unfold decodeAuditCursor. case_head; [done|]. destruct (decode_instant_id _ _) eqn:E'; [done|]. intros [= <-].
  by eapply instant_refused.
Qed.

(** One check after another *)
Lemma refused_step {X Q} (r : res error X) (k : X -> res error Q) ok refusal checks : ok = is_ok r ->
  (forall err, r = Err err -> query_error_code err = refusal) -> (forall x, r = Ok x -> refused_by (k x) checks) ->
  refused_by (res_bind r k) ((ok, refusal) :: checks).
Proof.
  intros -> He Hk. unfold refused_by in *. cbn [first_refusal]. destruct r as [x|err]; cbn [is_ok res_bind]; [by apply Hk|].
  by rewrite (He err).
Qed.

Ltac check lemma := apply refused_step; [done|intros err Herr; by eapply lemma|intros ? ?].

Lemma source_query_refused values : refused_by (parseSourceQuery values)
  [limit_check values; origin_check values; bool_check values (bs "seeded"); bool_check values (bs "automatic");
   bool_check values (bs "verified"); bool_check values (bs "blocked"); bool_check values (bs "crawl_eligible");
   cursor_check (decodeSourceCursor (queryValue values (bs "cursor")))].
Proof.
  check limit_refused. check origin_refused. check bool_refused. check bool_refused. check bool_refused. check bool_refused.
  check bool_refused. check source_cursor_refused. done.
Qed.
Lemma crawl_query_refused values : refused_by (parseCrawlQuery values)
  [limit_check values; origin_check values; enum_check values (bs "outcome") outcome_filters;
   cursor_check (decodeCrawlCursor (queryValue values (bs "cursor")))].
Proof. check limit_refused. check origin_refused. check enum_refused. check crawl_cursor_refused. done. Qed.
Lemma queue_query_refused values : refused_by (parseQueueQuery values)
  [limit_check values; origin_check values; enum_check values (bs "mode") mode_filters; bool_check values (bs "leased");
   cursor_check (decodeQueueCursor (queryValue values (bs "cursor")))].
Proof. check limit_refused. check origin_refused. check enum_refused. check bool_refused. check queue_cursor_refused. done. Qed.
Lemma event_query_refused values : refused_by (parseQueueEventQuery values)
  [limit_check values; origin_check values; enum_check values (bs "event") event_filters; enum_check values (bs "mode") mode_filters;
   cursor_check (decodeQueueEventCursor (queryValue values (bs "cursor")))].
Proof. check limit_refused. check origin_refused. check enum_refused. check enum_refused. check event_cursor_refused. done. Qed.
Lemma audit_query_refused values : refused_by (parseAuditQuery values)
  [limit_check values; cursor_check (decodeAuditCursor (queryValue values (bs "cursor")))].
Proof. check limit_refused. check audit_cursor_refused. done. Qed.

(** ** Authorization *)

Section Guard.
Context `{ReportLibrary} {W : Type}.
Variable reader : Reader W.
Variable now : W -> Z.

Definition unauthorized_reply : Response := writeError (common_headers ++ [challenge]) 401 (bs "unauthorized").

(** What a caller without the token can be told *)
Definition public_reply (response : Response) : Prop :=
  response = unauthorized_reply \/ response = health common_headers
  \/ (exists path, response = MuxRedirect path) \/ exists code, response = MuxReply code /\ code ∈ [400; 404; 405].

Lemma mux_public expected r w : reportingAuthorizationMatches expected (report_Authorization r) = false ->
  fst (serve_mux reader now expected common_headers r w) = w
  /\ public_reply (snd (serve_mux reader now expected common_headers r w)).
Proof.
  intros Hno. unfold serve_mux, report_authorize. rewrite Hno. cbn [negb].
  destruct (route_request _ _ _) as [[] matches|path| | |]; cbn [fst snd]; (split; [done|]);
    unfold public_reply; eauto; do 3 right; eexists; (split; [done|set_solver]).
Qed.

Lemma serve_public expected r w : reportingAuthorizationMatches expected (report_Authorization r) = false ->
  fst (serve_reporting reader now expected r w) = w /\ public_reply (snd (serve_reporting reader now expected r w)).
Proof.
  intros Hno. unfold serve_reporting, withPagination. destruct (as_paged W reader) as [p|]; [|by apply mux_public].
  case_head; [by apply mux_public|]. destruct (page_handler p (report_Path r)) as [handler|]; [|by apply mux_public].
  unfold report_authorize. rewrite Hno. cbn [negb fst snd]. split; [done|]. by left.
Qed.
End Guard.
End Refusals.

(** ** Counts *)

Lemma count_le {A} (f g : A -> bool) l : (forall x, f x = true -> g x = true) -> count f l <= count g l.
Proof.
  intros Hfg. unfold count. induction l as [|x l IH]; [done|]. cbn [List.filter].
  destruct (f x) eqn:Hf; [rewrite (Hfg x Hf)|destruct (g x)]; cbn [length]; lia.
Qed.

Lemma count_disjoint {A} (f g : A -> bool) l : (forall x, f x = true -> g x = false) -> count f l + count g l <= Z.of_nat (length l).
Proof.
  intros Hfg. unfold count. induction l as [|x l IH]; [done|]. cbn [List.filter].
  destruct (f x) eqn:Hf; [rewrite (Hfg x Hf)|destruct (g x)]; cbn [length]; lia.
Qed.

Lemma count_all {A} (l : list A) : count (fun _ => true) l = Z.of_nat (length l).
Proof. unfold count. by rewrite filter_all. Qed.

Lemma count_modes (l : list QueueRow) :
  count (fun r => bool_decide (mode r = probe)) l + count (fun r => bool_decide (mode r = reprobe)) l
  + count (fun r => bool_decide (mode r = recurring)) l = Z.of_nat (length l).
Proof.
  unfold count. induction l as [|r l IH]; [done|]. cbn [List.filter].
  repeat case_bool_decide; cbn [length]; try congruence; try lia. by destruct (mode r).
Qed.

Lemma length_source_rows db : Z.of_nat (length (source_rows db)) = Z.of_nat (size (source_universe db)).
Proof. unfold source_rows. by rewrite length_map. Qed.

Lemma filter_map_swap {A B} (f : B -> bool) (g : A -> B) l : List.filter f (map g l) = map g (List.filter (fun x => f (g x)) l).
Proof. induction l as [|x l IH]; [done|]. cbn. destruct (f (g x)); cbn; by rewrite IH. Qed.

(** The probes that occupy capacity are among those the status counts. *)
Lemma active_probes_counted db stmt : active_probes db stmt <= Probe (queue_summary db stmt).
Proof.
  unfold queue_summary. cbn [Probe]. unfold active_probes, count, queue_rows. rewrite filter_map_swap, length_map.
  apply Nat2Z.inj_le.
  induction (map_to_list (queue db)) as [|[key r] l IH]; [done|]. cbn [List.filter snd].
  destruct (active_probe stmt r) eqn:Ha.
  - unfold active_probe in Ha. apply andb_true_iff in Ha as [-> _]. cbn [length]. lia.
  - case_head; cbn [length]; lia.
Qed.

Lemma min_available_spec rows : match min_available rows with
  | None => rows = []
  | Some t => (exists r, r ∈ rows /\ available_at r = t) /\ forall r, r ∈ rows -> t <= available_at r
  end.
Proof.
  induction rows as [|r rows IH]; [done|]. cbn [min_available fold_right].
  fold (min_available rows). destruct (min_available rows) as [t|].
  - destruct IH as [(r' & Hr' & <-) Hle]. split.
    + destruct (Z.min_spec (available_at r) (available_at r')) as [[_ ->]|[_ ->]]; [exists r; set_solver|exists r'; set_solver].
    + intros x [-> |Hx]%elem_of_cons; [lia|]. specialize (Hle x Hx). lia.
  - subst rows. split; [exists r; set_solver|]. intros x Hx. apply list_elem_of_singleton in Hx as ->. lia.
Qed.

(** ** Metrics labels *)

(** What a reader of the exposition format makes of a quoted label *)
Fixpoint read_label (s : bytes) : option bytes :=
  match s with
  | [] => Some []
  | c :: rest =>
      if byte_eqb c "\" then
        match rest with
        | e :: rest =>
            if byte_eqb e "\" || byte_eqb e quote then cons e <$> read_label rest
            else if byte_eqb e "n" then cons (chr 10) <$> read_label rest
            else None
        | [] => None
        end
      else if byte_eqb c quote || (code c =? 10) then None
      else cons c <$> read_label rest
  end.

Lemma metricLabel_read s : read_label (metricLabel s) = Some s.
Proof.
  induction s as [|c s IH]; [done|].
  change (metricLabel (c :: s)) with
    ((if byte_eqb c "\" then bs "\\" else if code c =? 10 then bs "\n" else if byte_eqb c quote then ["\"%char; quote] else [c])
     ++ metricLabel s).
  revert IH. generalize (metricLabel s) as t. intros t IH.
  destruct (byte_eqb_spec c "\") as [->|Hb]; [cbn; by rewrite IH|].
  destruct (Z.eqb_spec (code c) 10) as [Hn|Hn]; [cbn; rewrite IH, <- Hn; cbn; by rewrite chr_code|].
  destruct (byte_eqb_spec c quote) as [->|Hq]; [cbn; by rewrite IH|]. cbn [app read_label].
  destruct (byte_eqb_spec c "\"); [done|]. destruct (byte_eqb_spec c quote); [done|].
  rewrite (proj2 (Z.eqb_neq _ _) Hn). cbn [orb]. by rewrite IH.
Qed.

(** ** The latest heartbeats *)

Lemma record_service_names s l : NoDup (map Service l) -> NoDup (map Service (record_service s l))
  /\ forall n, n ∈ map Service (record_service s l) <-> n = Service s \/ n ∈ map Service l.
Proof.
  induction l as [|c l IH]; cbn [record_service map]; [intros _; split; [repeat constructor; set_solver|set_solver]|].
  intros [Hc Hl]%NoDup_cons. destruct (bytes_eqb_spec (Service c) (Service s)) as [He|Hne].
  - destruct (time_After _ _); cbn [map]; rewrite <- ?He; (split; [by constructor|set_solver]).
  - destruct (IH Hl) as [Hnd Hin]. cbn [map]. split; [constructor; [rewrite Hin; intros [|]; congruence|done]|].
    intros n. rewrite !elem_of_cons, Hin. naive_solver.
Qed.

(** One entry for every service, with its latest heartbeat *)
Record latest_of (seen latest : list ServiceStatus) : Prop := {
  latest_names : NoDup (map Service latest);
  latest_seen : forall x, x ∈ latest -> x ∈ seen;
  latest_covers : forall s, s ∈ seen -> exists x, x ∈ latest /\ Service x = Service s /\ ServiceStatus_UpdatedAt s <= ServiceStatus_UpdatedAt x;
}.

Lemma record_service_spec s l :
  (forall x, x ∈ record_service s l -> x = s \/ x ∈ l)
  /\ (forall y, y = s \/ y ∈ l -> exists x, x ∈ record_service s l /\ Service x = Service y
        /\ ServiceStatus_UpdatedAt y <= ServiceStatus_UpdatedAt x).
Proof.
  induction l as [|c l [IH1 IH2]]; cbn [record_service]; [split; [set_solver|]; intros y [->|Hy]; [exists s; set_solver|set_solver]|].
  destruct (bytes_eqb_spec (Service c) (Service s)) as [He|Hne].
  - unfold time_After. destruct (Z.ltb_spec (ServiceStatus_UpdatedAt c) (ServiceStatus_UpdatedAt s)); split; try set_solver;
      (intros y [-> |[-> |Hy]%elem_of_cons]; [| |exists y; split; [set_solver|split; [done|lia]]]);
      (exists s + exists c); (split; [set_solver|split; [congruence|lia]]).
  - split; [intros x [-> |Hx]%elem_of_cons; [set_solver|]; destruct (IH1 x Hx); set_solver|].
    intros y [Hy|[-> |Hy]%elem_of_cons]; [|exists c; split; [set_solver|split; [done|lia]]|];
      (destruct (IH2 y) as (x & Hx & ? & ?); [set_solver|]; exists x; set_solver).
Qed.

Lemma latestServices_spec services : latest_of services (latestServices services).
Proof.
  unfold latestServices.
  assert (Hgen : forall l seen latest, latest_of seen latest -> latest_of (seen ++ l) (fold_left (fun a s => record_service s a) l latest)).
  { induction l as [|s l IH]; intros seen latest Hl; [by rewrite app_nil_r|]. cbn [fold_left].
    replace (seen ++ s :: l) with ((seen ++ [s]) ++ l) by (by rewrite <- app_assoc). apply IH. destruct Hl as [Hn Hs Hc].
    destruct (record_service_spec s latest) as [H1 H2]. constructor.
    - by apply record_service_names.
    - intros x Hx. destruct (H1 x Hx); set_solver.
    - intros y [Hy|Hy]%elem_of_app.
      + destruct (Hc y Hy) as (x & Hx & Hxy & Hle). destruct (H2 x (or_intror Hx)) as (z & Hz & Hzx & Hle').
        exists z. split; [done|]. split; [congruence|lia].
      + apply list_elem_of_singleton in Hy as ->. apply H2. by left. }
  apply (Hgen services [] []). constructor; [constructor|set_solver|set_solver].
Qed.
