(* ===== verification/Reporting.v ===== *)
(** * The reporting service: theorems and a worked example

    The theorems on cursors, complete pagination, authorization, refused
    queries and the status, and a small database on which they are used. *)

From S2P Require Import Prelude GoText GoUrl GoErrors GoNetip GoJson GoTime GoEncoding Retry Origin Netguard.
From S2P Require Import RobotsMatch RobotsPolicy RobotsPolicyFacts RobotsHTTP Declaration Verifier.
From S2P Require Import Discovery Crawler Store Queue QueueFacts Exclusions DiscoveryStore Admission DiscoveryLease CrawlTelemetry ControlStore.
From S2P Require Import GoMux Control JsonFields ReportData Pagination Reports KeysetPages ReportHandler ReportService.

#[local] Set Warnings "-clear-no-such-hyp".

Section Theorems.
Context `{NetURL} `{NetIP} `{IDNA} `{TimeTextLaws} `{ReportLibrary}.

(** A cursor names the row it was made from: for every kind of report the
    text of the next cursor is not empty and decodes to the key of the last
    row, whatever the row, as long as its instant can be printed, its id is a
    positive 64-bit number and its origin is canonical; and a cursor of one
    kind is refused where another is expected. *)
Theorem cursors_roundtrip (source : CrawlSource) (run : CrawlRun) (item : QueueItem) (event : QueueEvent) (audit : AuditEvent) :
  origin_key (CrawlSource_Origin source) -> time_key (CrawlRun_StartedAt run) -> id_key (CrawlRun_ID run) ->
  time_key (QueueItem_AvailableAt item) -> origin_key (QueueItem_Origin item) ->
  time_key (QueueEvent_OccurredAt event) -> id_key (QueueEvent_ID event) ->
  time_key (AuditEvent_OccurredAt audit) -> id_key (AuditEvent_ID audit) ->
  decodeSourceCursor (sourceNextCursor source) = Ok (Some (mkSourceCursor (CrawlSource_Origin source)))
  /\ decodeCrawlCursor (crawlNextCursor run) = Ok (Some (mkCrawlCursor (CrawlRun_StartedAt run) (CrawlRun_ID run)))
  /\ decodeQueueCursor (queueNextCursor item) = Ok (Some (mkQueueCursor (QueueItem_AvailableAt item) (QueueItem_Origin item)))
  /\ decodeQueueEventCursor (queueEventNextCursor event)
     = Ok (Some (mkQueueEventCursor (QueueEvent_OccurredAt event) (QueueEvent_ID event)))
  /\ decodeAuditCursor (auditNextCursor audit) = Ok (Some (mkAuditCursor (AuditEvent_OccurredAt audit) (AuditEvent_ID audit)))
  /\ decodeCrawlCursor (auditNextCursor audit) = Err (errors_New errInvalidCursor)
  /\ decodeAuditCursor (queueEventNextCursor event) = Err (errors_New errInvalidCursor).
Proof.
  intros Hso Hrt Hri Hqt Hqo Het Hei Hat Hai.
  assert (Hforeign : forall kind kind' t id, forallb is_ascii kind = true -> kind' <> kind -> id_key id ->
    decode_instant_id (encodeCursor (mkPayload cursorVersion kind [] (FormatRFC3339Nano t) id)) kind' = Err (errors_New errInvalidCursor)).
  { intros kind kind' t id Ha Hk Hid. unfold decode_instant_id.
    by rewrite (decodeCursor_kind _ kind' (instant_id_payload kind t id Ha Hid) Hk). }
  destruct (audit_cursor_roundtrip audit Hat Hai) as [Han Had], (queueEvent_cursor_roundtrip event Het Hei) as [Hen Hed].
  split_and!; [by apply source_cursor_roundtrip|by apply crawl_cursor_roundtrip|by apply queue_cursor_roundtrip|done|done| |].
  - unfold decodeCrawlCursor. destruct (bytes_eqb_spec (auditNextCursor audit) []); [done|]. unfold auditNextCursor.
    by rewrite Hforeign.
  - unfold decodeAuditCursor. destruct (bytes_eqb_spec (queueEventNextCursor event) []); [done|]. unfold queueEventNextCursor.
    by rewrite Hforeign.
Qed.

(** C21: Nothing is read or shown without the operator's token. For every
    reader, whatever it implements, and every request whose authorization does
    not have the expected digest, no reader is called, and the reply is the
    challenge, the health document, or the router's own redirect or refusal. *)
Theorem reporting_guarded {W} (reader : Reader W) (now : W -> Z) (expected : bytes) (r : ReportRequest) (w : W) :
  reportingAuthorizationMatches expected (report_Authorization r) = false ->
  fst (serve_reporting reader now expected r w) = w /\ public_reply (snd (serve_reporting reader now expected r w)).
Proof. apply serve_public. Qed.

(** A query is accepted exactly when every parameter is, and is otherwise
    refused with status 400 and the code of the first parameter that is not,
    in the order limit, origin, filters, cursor; a refused query reads
    nothing. *)
Theorem queries_refused (values : gmap bytes (list bytes)) :
  refused_by (parseSourceQuery values)
    [limit_check values; origin_check values; bool_check values (bs "seeded"); bool_check values (bs "automatic");
     bool_check values (bs "verified"); bool_check values (bs "blocked"); bool_check values (bs "crawl_eligible");
     cursor_check (decodeSourceCursor (queryValue values (bs "cursor")))]
  /\ refused_by (parseCrawlQuery values)
    [limit_check values; origin_check values; enum_check values (bs "outcome") outcome_filters;
     cursor_check (decodeCrawlCursor (queryValue values (bs "cursor")))]
  /\ refused_by (parseQueueQuery values)
    [limit_check values; origin_check values; enum_check values (bs "mode") mode_filters; bool_check values (bs "leased");
     cursor_check (decodeQueueCursor (queryValue values (bs "cursor")))]
  /\ refused_by (parseQueueEventQuery values)
    [limit_check values; origin_check values; enum_check values (bs "event") event_filters;
     enum_check values (bs "mode") mode_filters; cursor_check (decodeQueueEventCursor (queryValue values (bs "cursor")))]
  /\ refused_by (parseAuditQuery values)
    [limit_check values; cursor_check (decodeAuditCursor (queryValue values (bs "cursor")))]
  /\ forall (W Q A : Type) (parse : gmap bytes (list bytes) -> res error Q) (read : call W Q (res error (page A))) (f : A -> json)
       headers r w err, parse (report_Query r) = Err err ->
       paged_report parse read f headers r w = (w, writeError headers 400 (query_error_code err)).
Proof.
  split_and!; [apply source_query_refused|apply crawl_query_refused|apply queue_query_refused|apply event_query_refused
    |apply audit_query_refused|]. intros W Q A parse read f headers r w err Herr. unfold paged_report. by rewrite Herr.
Qed.

Section TextOrder.
Variable text_leb : bytes -> bytes -> bool.
Hypothesis text_total : forall a b, text_leb a b = true \/ text_leb b a = true.
Hypothesis text_trans : forall a b c, text_leb a b = true -> text_leb b c = true -> text_leb a c = true.
Hypothesis text_antisym : forall a b, text_leb a b = true -> text_leb b a = true -> a = b.

End TextOrder.

(** The status agrees with the tables: the modes of the queue add up to its
    total, leases and the classes of sources stay within their totals, eligible
    and blocked sources do not overlap, the oldest entry is one of the queue
    and none is older, and backpressure is reported active whenever discovery
    is at the limit where it admits no probe. *)
Theorem status_agrees text_leb (config : PostgresConfig) (db : Database) (stmt : Z) :
  let s := Status_ text_leb config db stmt in
  let q := Status_Queue s in
  let c := Status_Sources s in
  QueueSummary_Total q = Z.of_nat (size (queue db)) /\ Probe q + Reprobe q + Recurring q = QueueSummary_Total q
  /\ 0 <= Leased q <= QueueSummary_Total q
  /\ match OldestAvailableAt q with
     | None => queue db = ∅
     | Some t => (exists key r, queue db !! key = Some r /\ available_at r = t) /\ forall key r, queue db !! key = Some r -> t <= available_at r
     end
  /\ SourceSummary_Total c = Z.of_nat (size (source_universe db))
  /\ SourceSummary_Seeded c <= SourceSummary_Total c /\ SourceSummary_Automatic c <= SourceSummary_Total c
  /\ SourceSummary_Verified c <= SourceSummary_Total c
  /\ SourceSummary_CrawlEligible c + SourceSummary_Blocked c <= SourceSummary_Total c
  /\ (config_AutomaticCrawlEnabled config = true -> config_MaxPendingProbes config <= active_probes db stmt ->
      Active (Backpressure s) = true).
Proof.
  assert (Hlen : length (queue_rows db) = size (queue db)) by (unfold queue_rows; by rewrite length_map, length_map_to_list).
  assert (Hin : forall r, r ∈ queue_rows db <-> exists key, queue db !! key = Some r).
  { intros r. unfold queue_rows. rewrite list_elem_of_In, in_map_iff. split.
    - intros ([key r'] & <- & Hr%list_elem_of_In%elem_of_map_to_list). by exists key.
    - intros (key & Hr%elem_of_map_to_list%list_elem_of_In). by exists (key, r). }
  cbn [Status_Queue Status_Sources Status_ queue_summary source_summary QueueSummary_Total Probe Reprobe Recurring Leased
    OldestAvailableAt SourceSummary_Total SourceSummary_Seeded SourceSummary_Automatic SourceSummary_Verified
    SourceSummary_Blocked SourceSummary_CrawlEligible Backpressure backpressure Active].
  rewrite !count_all, Hlen, length_source_rows, count_modes, Hlen. split_and!; try done.
  - unfold count. lia.
  - rewrite <- Hlen, <- (count_all (queue_rows db)). by apply count_le.
  - pose proof (min_available_spec (queue_rows db)) as Hm. destruct (min_available (queue_rows db)) as [t|].
    + destruct Hm as [(r & [key Hr]%Hin & Ht) Hle]. split; [by exists key, r|]. intros k r' Hr'. apply Hle, Hin. by exists k.
    + rewrite Hm in Hlen. by apply map_size_empty_inv.
  - rewrite <- length_source_rows, <- (count_all (source_rows db)). by apply count_le.
  - rewrite <- length_source_rows, <- (count_all (source_rows db)). by apply count_le.
  - rewrite <- length_source_rows, <- (count_all (source_rows db)). by apply count_le.
  - rewrite <- length_source_rows. assert (Hrows : forall r, r ∈ source_rows db -> CrawlSource_CrawlEligible r = true ->
      CrawlSource_Blocked r = false).
    { intros r (key & <- & _)%list_elem_of_In%in_map_iff. cbn. destruct (source_flag crawl_blocked db key); done. }
    revert Hrows. generalize (source_rows db) as rows. intros rows. unfold count.
    induction rows as [|r rows IH]; [done|]. intros Hrows. specialize (IH ltac:(intros; apply Hrows; [by right|done])).
    pose proof (Hrows r ltac:(by left)) as Hr. cbn [List.filter].
    destruct (CrawlSource_CrawlEligible r); [rewrite Hr by done|destruct (CrawlSource_Blocked r)]; cbn [length]; lia.
  - intros -> Hcap. cbn [andb]. pose proof (active_probes_counted db stmt) as Hp. cbn [Probe queue_summary] in Hp. lia.
Qed.
End Theorems.

(** ** A worked example *)

Module ReportingExample.
Import Concrete.

#[local] Instance time_text : TimeText := utc_text.
#[local] Instance time_text_laws : TimeTextLaws := utc_text_laws.
(** Stand-ins: the digest of a text is the text, durations print in nanoseconds. *)
#[local] Instance report_library : ReportLibrary := {| report_Sum256 s := s; seconds_text := FormatInt |}.

Definition text_leb : bytes -> bytes -> bool := QueueWitnesses.text_leb.
Lemma text_leb_antisym a b : text_leb a b = true -> text_leb b a = true -> a = b.
Proof.
  unfold text_leb, QueueWitnesses.text_leb. intros Hab Hba. apply bytes_compare_eq. rewrite (bytes_compare_antisym a b) in Hba.
  by destruct (bytes_compare a b).
Qed.

Definition t0 : Z := 63000000000 * Second.
Definition alpha : bytes := bs "https://alpha.example".
Definition beta : bytes := bs "https://beta.example".
Definition limits : CrawlConfig := mkCrawlConfig 2 10 1000 0 1 1000 0.
Definition run (source : bytes) (t : Z) : RunRow := mkRun source t None None [] limits 1 0 new_summary 0 0.
Definition waiting (t : Z) : QueueRow := mkRow t probe 0 None None 0 None None None.

(** Two sources, three runs of which two started at the same time, and two
    probes: one due, one retried tomorrow. *)
Definition db : Database :=
  mkDatabase ∅ [] ∅ (list_to_map [(alpha, waiting t0); (beta, waiting (t0 + Day))]) {[ alpha ]}
    (list_to_map [(alpha, new_source); (beta, set_blocked true true new_source)]) ∅ false
    (set_audits [mkAudit t0 (bs "block") beta (bs "caller") (bs "actor") (bs "success") []]
       (set_runs (list_to_map [(1, run alpha t0); (2, run beta (t0 + Second)); (3, run alpha (t0 + Second))]) 3 empty_crawl)).
Definition event (id : Z) : QueueEvent := mkQueueEvent id alpha (t0 + id * Second) (bs "scheduled") (bs "probe") (Some t0) [] 0 None.
Definition w : PgState := mkPgState db [event 1; event 2] (t0 + Minute).
Definition config : PostgresConfig := mkPostgresConfig true 2.
Definition token : bytes := bs "operator".
Definition values : gmap bytes (list bytes) := {[ bs "limit" := [bs "1"] ]}.

Definition time_ok (t : Z) : bool := representable t && negb (t =? 0) && (pg_time t =? t).
Definition origin_ok (o : bytes) : bool := canonicalCursorOrigin o && forallb is_ascii o.
Definition id_ok (id : Z) : bool := (0 <? id) && (id <=? max_int64).

Lemma time_ok_spec t : time_ok t = true -> stored_time t.
Proof. unfold time_ok. intros Ht. b2p. split; [split; [done|lia]|lia]. Qed.
Lemma origin_ok_spec o : origin_ok o = true -> origin_key o.
Proof. unfold origin_ok. intros Ho. b2p. done. Qed.
Lemma id_ok_spec id : id_ok id = true -> id_key id.
Proof. unfold id_ok. intros Hi. b2p. split; lia. Qed.

Lemma forallb_Forall {A} (f : A -> bool) (P : A -> Prop) l : (forall x, f x = true -> P x) -> forallb f l = true -> Forall P l.
Proof. intros Hf Hl. rewrite forallb_forall in Hl. apply Forall_forall. intros x Hx%list_elem_of_In. auto. Qed.

Lemma w_reportable : reportable w.
Proof.
  constructor.
  - apply (forallb_Forall (fun r => origin_ok (CrawlSource_Origin r))); [intros; by apply origin_ok_spec|by vm_compute].
  - apply (forallb_Forall (fun r => time_ok (CrawlRun_StartedAt r) && id_ok (CrawlRun_ID r))); [|by vm_compute].
    intros r Hr. b2p. split; [by apply time_ok_spec|by apply id_ok_spec].
  - apply (forallb_Forall (fun r => time_ok (QueueItem_AvailableAt r) && origin_ok (QueueItem_Origin r))); [|by vm_compute].
    intros r Hr. b2p. split; [by apply time_ok_spec|by apply origin_ok_spec].
  - split.
    + apply (forallb_Forall (fun r => time_ok (QueueEvent_OccurredAt r) && id_ok (QueueEvent_ID r))); [|by vm_compute].
      intros r Hr. b2p. split; [by apply time_ok_spec|by apply id_ok_spec].
    + repeat constructor; set_solver.
  - apply (forallb_Forall (fun r => time_ok (AuditEvent_OccurredAt r) && id_ok (AuditEvent_ID r))); [|by vm_compute].
    intros r Hr. b2p. split; [by apply time_ok_spec|by apply id_ok_spec].
  - intros id. replace (attempt_rows (pg_db w) id) with (@nil PageAttempt) by (vm_compute; reflexivity). constructor.
Qed.

(** The runs, newest first, one to a page. *)
Example runs_in_pages : option_map (map (map CrawlRun_ID)) (follow (fetch_crawls db values) 4 []) = Some [[3]; [2]; [1]].
Proof. by vm_compute. Qed.


Lemma cursors_roundtrip_witness :
  decodeCrawlCursor (crawlNextCursor (scanCrawlRun (1, run alpha t0))) = Ok (Some (mkCrawlCursor t0 1)).
Proof.
  assert (Hs : stored_time t0) by (apply time_ok_spec; by vm_compute). assert (Hi : id_key 1) by (by apply id_ok_spec).
  assert (Ho : origin_key alpha) by (apply origin_ok_spec; by vm_compute).
  destruct (cursors_roundtrip (source_row db alpha) (scanCrawlRun (1, run alpha t0)) (queue_row (alpha, waiting t0))
    (mkQueueEvent 1 alpha t0 [] [] None [] 0 None) (audit_row 0 (mkAudit t0 [] [] [] [] [] [])) Ho (proj1 Hs) Hi (proj1 Hs) Ho (proj1 Hs) Hi
    (proj1 Hs) Hi) as (_ & Hd & _). exact Hd.
Defined.

Definition stranger : ReportRequest := mkReportRequest (bs "GET") (bs "/api/v1/sources") (bs "Bearer guess") values.

Lemma reporting_guarded_witness :
  let expected := reportingAuthorizationDigest (bs "Bearer " ++ token) in
  reportingAuthorizationMatches expected (report_Authorization stranger) = false
  /\ public_reply (snd (serve_reporting (postgres_reader text_leb config) pg_now expected stranger w)).
Proof.
  split; [by vm_compute|]. apply (reporting_guarded (postgres_reader text_leb config)). by vm_compute.
Defined.

(** An abandoned queue event cannot be asked for. *)
Example abandoned_not_a_filter :
  parseQueueEventQuery {[ bs "event" := [bs "abandoned"] ]} = Err (errors_New errInvalidFilter).
Proof. by vm_compute. Qed.

(** Backpressure is reported although one of the two probes waits for its
    retry and discovery admits another. *)
Definition candidates_waiting : list bytes := [bs "https://gamma.example"].
Example backpressure_overstated :
  Active (Backpressure (Status_ text_leb config db (pg_now w))) = true
  /\ active_probes db (pg_now w) = 1
  /\ snd (admit_probes text_leb (mkAutomatic true 2 0 []) db candidates_waiting (pg_now w) (pg_now w)) = 1.
Proof. by vm_compute. Qed.
End ReportingExample.
