(* ===== verification/WebBotAuth.v ===== *)
(** * Request signing ([internal/webbotauth/signer.go], [identity.go])

    The signing identity, derived from an Ed25519 private key, and the signer
    that attaches an HTTP Message Signature to a request. Ed25519, PEM and
    PKCS#8 are parameters; so are the nonce reader and the clock, as calls to
    the environment. Pointers that may be nil are options. *)

From S2P Require Import Prelude GoText GoErrors GoUrl GoNetip GoJson GoEncoding Origin PublicData.

(** ** Cryptography *)

Definition PrivateKeySize : nat := 64.
Definition PublicKeySize : nat := 32.
Definition SeedSize : nat := 32.
Definition SignatureSize : nat := 64.

(** [crypto/ed25519]: a private key is the seed followed by the public key. *)
Class Ed25519 := {
  NewKeyFromSeed : bytes -> bytes;
  ed25519_Sign : bytes -> bytes -> bytes;
  ed25519_Verify : bytes -> bytes -> bytes -> bool;
}.
Class Ed25519Laws `{Ed25519} := {
  NewKeyFromSeed_seed seed : length seed = SeedSize ->
    length (NewKeyFromSeed seed) = PrivateKeySize /\ take SeedSize (NewKeyFromSeed seed) = seed;
  Sign_length seed m : length seed = SeedSize -> length (ed25519_Sign (NewKeyFromSeed seed) m) = SignatureSize;
  Verify_Sign seed m : length seed = SeedSize ->
    ed25519_Verify (drop SeedSize (NewKeyFromSeed seed)) m (ed25519_Sign (NewKeyFromSeed seed) m) = true;
}.

(** [encoding/pem.Decode] and [x509.ParsePKCS8PrivateKey]. A parsed key is an
    Ed25519 key or one of another algorithm. *)
Record pem_Block : Type := mkPemBlock { pem_Type : bytes; pem_Headers : list (bytes * bytes); pem_Bytes : bytes }.
Class KeyFiles := {
  pem_Decode : bytes -> option pem_Block * bytes;
  ParsePKCS8PrivateKey : bytes -> option (option bytes);
}.

(** ** The HTTP request

    The header maps canonical names to their values. *)

Abbreviation header := (gmap bytes (list bytes)) (only parsing).
Definition header_Get (h : header) (name : bytes) : bytes := default [] (h !! name ≫= head).
Definition header_Set (h : header) (name value : bytes) : header := <[name := [value]]> h.

Record http_Request : Type := mkHTTPRequest {
  req_URL : option URL;
  req_Host : bytes;
  req_Header : option header;
}.

(** ** Identities *)

Record PublicJWK : Type := mkPublicJWK { jwk_Crv : bytes; jwk_Kty : bytes; jwk_X : bytes }.
Definition zero_jwk : PublicJWK := mkPublicJWK [] [] [].

Record Identity : Type := mkIdentity {
  identity_privateKey : bytes;
  identity_publicKey : bytes;
  identity_publicJWK : PublicJWK;
  identity_keyID : bytes;
}.

(** A file or another reader: the bytes up to its end or its error. *)
Record stream : Type := mkStream { stream_bytes : bytes; stream_error : option error }.

(** [io.ReadAll(io.LimitReader(reader, limit))] *)
Definition ReadAll_limit (limit : nat) (r : stream) : res error bytes :=
  if (limit <=? length (stream_bytes r))%nat then Ok (take limit (stream_bytes r))
  else match stream_error r with Some e => Err e | None => Ok (stream_bytes r) end.

Definition maxPrivateKeyPEMSize : nat := 4096.

Section Identities.
Context `{SHA256} `{Ed25519}.

Definition thumbprint_text (jwk : PublicJWK) : bytes :=
  bs "{" ++ [quote] ++ bs "crv" ++ [quote] ++ bs ":" ++ [quote] ++ jwk_Crv jwk
  ++ [quote] ++ bs "," ++ [quote] ++ bs "kty" ++ [quote] ++ bs ":" ++ [quote] ++ jwk_Kty jwk
  ++ [quote] ++ bs "," ++ [quote] ++ bs "x" ++ [quote] ++ bs ":" ++ [quote] ++ jwk_X jwk
  ++ [quote] ++ bs "}".

Definition jwkThumbprint (jwk : PublicJWK) : bytes :=
  base64_Encode base64_RawURL (sha256_Sum256 (thumbprint_text jwk)).

Definition NewIdentity (privateKey : bytes) : res error Identity :=
  if negb (length privateKey =? PrivateKeySize)%nat then Err (errors_New ErrInvalidPrivateKey)
  else
    let canonical := NewKeyFromSeed (take SeedSize privateKey) in
    if negb (bytes_eqb privateKey canonical) then Err (errors_New ErrPrivateKeyMismatch)
    else
      let publicKey := drop SeedSize canonical in
      let jwk := mkPublicJWK (bs "Ed25519") (bs "OKP") (base64_Encode base64_RawURL publicKey) in
      Ok (mkIdentity canonical publicKey jwk (jwkThumbprint jwk)).

Definition ParsePrivateKeyPEM `{KeyFiles} (data : bytes) : res error Identity :=
  match pem_Decode data with
  | (Some block, rest) =>
      if negb (bytes_eqb (pem_Type block) (bs "PRIVATE KEY"))
         || negb (length (pem_Headers block) =? 0)%nat
         || negb (length (TrimSpace rest) =? 0)%nat
      then Err (errors_New ErrInvalidPrivateKey)
      else
        match ParsePKCS8PrivateKey (pem_Bytes block) with
        | None => Err (errors_New ErrInvalidPrivateKey)
        | Some None => Err (errors_New ErrUnsupportedPrivateKey)
        | Some (Some privateKey) => NewIdentity privateKey
        end
  | (None, _) => Err (errors_New ErrInvalidPrivateKey)
  end.

Definition ReadIdentity `{KeyFiles} (reader : option stream) : res error Identity :=
  match reader with
  | None => Err (errors_New ErrReadPrivateKey)
  | Some reader =>
      match ReadAll_limit (maxPrivateKeyPEMSize + 1) reader with
      | Err _ => Err (errors_New ErrReadPrivateKey)
      | Ok data =>
          if (maxPrivateKeyPEMSize <? length data)%nat then Err (errors_New ErrPrivateKeyTooLarge)
          else ParsePrivateKeyPEM data
      end
  end.
End Identities.

Definition identity_PublicKey (identity : option Identity) : bytes :=
  match identity with None => [] | Some i => identity_publicKey i end.
Definition identity_PublicJWK (identity : option Identity) : PublicJWK :=
  match identity with None => zero_jwk | Some i => identity_publicJWK i end.
Definition identity_KeyID (identity : option Identity) : bytes :=
  match identity with None => [] | Some i => identity_keyID i end.

(** The values [LogValue] returns. *)
Inductive log_value : Type := StringValue (s : bytes) | GroupValue (attributes : list (bytes * bytes)).

Definition identity_LogValue (identity : option Identity) : log_value :=
  match identity with
  | None => StringValue (bs "<nil>")
  | Some i => GroupValue [(bs "key_id", identity_keyID i)]
  end.
Definition identity_Format (identity : option Identity) : bytes :=
  match identity with
  | None => bs "<nil>"
  | Some i => bs "webbotauth.Identity{keyid:" ++ identity_keyID i ++ bs ",private_key:<redacted>}"
  end.

(** ** The signer *)

Definition SignatureAgentURL : bytes := bs "https://joshternet.org/.well-known/http-message-signatures-directory".
Definition signatureLabel : bytes := bs "sig1".
Definition signatureLifetime : Z := Minute.
Definition nonceSize : nat := 32.

(** [nonce] is [io.ReadFull] on the nonce reader. *)
Record Signer (W : Type) : Type := mkSigner {
  signer_privateKey : bytes;
  signer_keyID : bytes;
  signer_nonce : call W nat (res error bytes);
  signer_now : call W unit Z;
}.
Arguments mkSigner {W}.
Arguments signer_privateKey {W}.
Arguments signer_keyID {W}.
Arguments signer_nonce {W}.
Arguments signer_now {W}.

Definition validKeyID (keyID : bytes) : bool :=
  if negb (length keyID =? 43)%nat then false
  else
    match base64_Decode base64_RawURL keyID with
    | Some decoded => (length decoded =? 32)%nat && bytes_eqb (base64_Encode base64_RawURL decoded) keyID
    | None => false
    end.

Definition newSigner {W} (privateKey keyID : bytes) (nonce : option (call W nat (res error bytes)))
    (now : option (call W unit Z)) : res error (Signer W) :=
  if negb (length privateKey =? PrivateKeySize)%nat then Err (errors_New ErrInvalidSigningKey)
  else if negb (validKeyID keyID) then Err (errors_New ErrInvalidKeyID)
  else
    match nonce with
    | None => Err (errors_New errNonceSourceUnavailable)
    | Some nonce =>
        match now with
        | None => Err (errors_New webbotauth_errClockUnavailable)
        | Some now => Ok (mkSigner privateKey keyID nonce now)
        end
    end.

(** [rand.Reader] and [time.Now] are the environment's. *)
Definition NewSigner {W} (rand_Reader : call W nat (res error bytes)) (time_Now : call W unit Z)
    (privateKey keyID : bytes) : res error (Signer W) :=
  newSigner privateKey keyID (Some rand_Reader) (Some time_Now).

Definition identity_Signer {W} (rand_Reader : call W nat (res error bytes)) (time_Now : call W unit Z)
    (identity : option Identity) : res error (Signer W) :=
  match identity with
  | None => Err (errors_New ErrIdentityUnavailable)
  | Some i => NewSigner rand_Reader time_Now (identity_privateKey i) (identity_keyID i)
  end.

Definition quoted (s : bytes) : bytes := quote :: s ++ [quote].

Definition signatureParameters (created expires : Z) (keyID nonce : bytes) : bytes :=
  bs "(" ++ quoted (bs "@authority") ++ bs " " ++ quoted (bs "signature-agent") ++ bs ")"
  ++ bs ";created=" ++ FormatInt created ++ bs ";keyid=" ++ quoted keyID ++ bs ";alg=" ++ quoted (bs "ed25519")
  ++ bs ";expires=" ++ FormatInt expires ++ bs ";nonce=" ++ quoted nonce ++ bs ";tag=" ++ quoted (bs "web-bot-auth").

Definition line_break : ascii := "010".

Definition signatureBase (authority agentValue parameters : bytes) : bytes :=
  quoted (bs "@authority") ++ bs ": " ++ authority ++ [line_break]
  ++ quoted (bs "signature-agent") ++ bs ": " ++ agentValue ++ [line_break]
  ++ quoted (bs "@signature-params") ++ bs ": " ++ parameters.

(** [Time.Unix]: 62135596800 seconds lie between the zero time and 1970. *)
Definition unixToInternal : Z := 62135596800.
Definition time_Unix (t : Z) : Z := t / Second - unixToInternal.

(** [strings.Cut(s, "://")]: what follows the first occurrence *)
Fixpoint after_scheme (s : bytes) : bytes :=
  match s with
  | [] => []
  | _ :: s' => if HasPrefix s (bs "://") then drop 3 s else after_scheme s'
  end.

Section Signing.
Context `{NetURL} `{NetIP} `{IDNA} `{Ed25519}.

Definition requestAuthority (request : option http_Request) : res error bytes :=
  match request ≫= req_URL with
  | None => Err (errors_New ErrInvalidRequest)
  | Some url =>
      let host := default [] (req_Host <$> request) in
      let rawTarget := if bytes_eqb host [] then url_String url else Scheme url ++ bs "://" ++ host in
      match Parse rawTarget with
      | Err _ => Err (errors_New ErrInvalidRequest)
      | Ok canonical => Ok (after_scheme (origin_String canonical))
      end
  end.

(** The three headers of a signed request *)
Definition attach (request : http_Request) (agentValue parameters signature : bytes) : http_Request :=
  let h := default ∅ (req_Header request) in
  let h := header_Set h (bs "Signature-Agent") agentValue in
  let h := header_Set h (bs "Signature-Input") (signatureLabel ++ bs "=" ++ parameters) in
  let h := header_Set h (bs "Signature") (signatureLabel ++ bs "=:" ++ base64_Encode base64_Std signature ++ bs ":") in
  mkHTTPRequest (req_URL request) (req_Host request) (Some h).

Definition signer_Sign {W} (signer : option (Signer W)) (request : option http_Request) (w : W)
    : W * (option http_Request * option error) :=
  match signer with
  | None => (w, (request, Some (errors_New ErrSignerUnavailable)))
  | Some signer =>
      match requestAuthority request, request with
      | Err e, _ => (w, (request, Some e))
      | Ok _, None => (w, (None, Some (errors_New ErrInvalidRequest)))
      | Ok authority, Some r =>
          match signer_nonce signer w nonceSize with
          | (w1, Err e) => (w1, (request, Some (join (errors_New ErrNonceGeneration) e)))
          | (w1, Ok nonceBytes) =>
              let '(w2, now) := signer_now signer w1 () in
              let created := time_Unix now in
              let expires := wrap_int64 (created + signatureLifetime / Second) in
              let nonce := base64_Encode base64_Std nonceBytes in
              let agentValue := quoted SignatureAgentURL in
              let parameters := signatureParameters created expires (signer_keyID signer) nonce in
              let base := signatureBase authority agentValue parameters in
              let signature := ed25519_Sign (signer_privateKey signer) base in
              (w2, (Some (attach r agentValue parameters signature), None))
          end
      end
  end.
End Signing.

Definition signer_LogValue {W} (signer : option (Signer W)) : log_value :=
  match signer with
  | None => StringValue (bs "<nil>")
  | Some s => GroupValue [(bs "key_id", signer_keyID s)]
  end.
Definition signer_Format {W} (signer : option (Signer W)) : bytes :=
  match signer with
  | None => bs "<nil>"
  | Some s => bs "webbotauth.Signer{keyid:" ++ signer_keyID s ++ bs ",private_key:<redacted>}"
  end.

(** * The signature directory ([internal/webbotauth/directory.go])

    Validation of a fetched signature directory: its media type, the keys it
    publishes, the digest of its body, and one signature for every key. A
    dictionary is the list of its members with distinct labels; the order in
    which a [range] over it visits them is a parameter. The texts of the
    errors, which differ from check to check, are left out. *)

From S2P Require Import JsonFields.

Definition DirectoryContentType : bytes := bs "application/http-message-signatures-directory+json".
Definition MaxDirectoryBodySize : Z := 64 * 1024.
Definition DirectoryStateSingleKey : bytes := bs "single-key".
Definition DirectoryStateRotationOverlap : bytes := bs "rotation-overlap".
Definition directorySignatureTag : bytes := bs "http-message-signatures-directory".
Definition directoryCovered : bytes :=
  bs "(" ++ quoted (bs "@authority") ++ bs ";req " ++ quoted (bs "content-digest") ++ bs ")".
Definition maxDirectoryKeys : nat := 2.
Definition maxDirectoryLifetime : Z := 10 * Minute.
Definition directoryClockSkew : Z := Minute.

Record DirectoryReport : Type := mkDirectoryReport { State : bytes; KeyIDs : list bytes }.
Record directoryKey : Type := mkDirectoryKey { key_id : bytes; key_publicKey : bytes }.

(** [fmt.Errorf("%w: ...", ErrInvalidDirectory)] *)
Definition invalid_directory : error := wrap (errors_New ErrInvalidDirectory).

(** ** Media type *)

Definition directoryContentType (h : option header) : option error :=
  match h with
  | None => Some invalid_directory
  | Some h =>
      let value := TrimSpace (header_Get h (bs "Content-Type")) in
      if Contains value ";" || negb (EqualFold value DirectoryContentType) then Some invalid_directory else None
  end.

(** ** Keys *)

(** Unmarshalling into [struct { Keys []json.RawMessage }] with unknown fields
    disallowed. *)
Fixpoint document_keys (members : list (bytes * raw)) (keys : list raw) : option (list raw) :=
  match members with
  | [] => Some keys
  | (name, v) :: members =>
      if EqualFold name (bs "keys") then
        match v with
        | RawNull => document_keys members []
        | RawArray l => document_keys members l
        | _ => None
        end
      else None
  end.
Definition decode_document (v : raw) : option (list raw) :=
  match v with RawNull => Some [] | RawObject members => document_keys members [] | _ => None end.

(** Unmarshalling into [map[string]json.RawMessage] *)
Definition decode_fields (v : raw) : option (list (bytes * raw)) :=
  match v with RawNull => Some [] | RawObject members => Some members | _ => None end.

(** Unmarshalling into the struct of the three strings: names match in any
    case, other members are skipped and [null] leaves a field alone. *)
Fixpoint assign_jwk (members : list (bytes * raw)) (parsed : PublicJWK) : option PublicJWK :=
  match members with
  | [] => Some parsed
  | (name, v) :: members =>
      let assign (set : bytes -> PublicJWK) :=
        match v with
        | RawString s => assign_jwk members (set s)
        | RawNull => assign_jwk members parsed
        | _ => None
        end in
      if EqualFold name (bs "kty") then assign (fun s => mkPublicJWK (jwk_Crv parsed) s (jwk_X parsed))
      else if EqualFold name (bs "crv") then assign (fun s => mkPublicJWK s (jwk_Kty parsed) (jwk_X parsed))
      else if EqualFold name (bs "x") then assign (fun s => mkPublicJWK (jwk_Crv parsed) (jwk_Kty parsed) s)
      else assign_jwk members parsed
  end.
Definition decode_jwk (v : raw) : option PublicJWK :=
  match v with RawNull => Some zero_jwk | RawObject members => assign_jwk members zero_jwk | _ => None end.

Section Keys.
Context `{SHA256}.

Definition parseDirectoryKey (v : raw) : res error directoryKey :=
  match decode_fields v with
  | None => Err invalid_directory
  | Some fields =>
      if existsb (fun f => bytes_eqb (fst f) (bs "d")) fields then Err invalid_directory
      else
        match decode_jwk v with
        | None => Err invalid_directory
        | Some parsed =>
            if negb (bytes_eqb (jwk_Kty parsed) (bs "OKP")) || negb (bytes_eqb (jwk_Crv parsed) (bs "Ed25519"))
               || bytes_eqb (jwk_X parsed) []
            then Err invalid_directory
            else
              match base64_Decode base64_RawURL (jwk_X parsed) with
              | None => Err invalid_directory
              | Some public =>
                  if negb (length public =? PublicKeySize)%nat then Err invalid_directory
                  else Ok (mkDirectoryKey (jwkThumbprint parsed) public)
              end
        end
  end.

(** The loop of [parseDirectoryKeys] over the raw keys. *)
Fixpoint collect_keys (raws : list raw) (seen : list bytes) : res error (list directoryKey) :=
  match raws with
  | [] => Ok []
  | v :: raws =>
      let? key := parseDirectoryKey v in
      if bool_decide (key_id key ∈ seen) then Err invalid_directory
      else let? keys := collect_keys raws (key_id key :: seen) in Ok (key :: keys)
  end.

Definition parseDirectoryKeys (body : bytes) : res error (list directoryKey) :=
  if (Z.of_nat (length body) =? 0) || (MaxDirectoryBodySize <? Z.of_nat (length body)) then Err invalid_directory
  else
    match json_DecodeRaw body with
    | None => Err (join (errors_New ErrInvalidDirectory) (errors_New (foreign 0)))
    | Some (v, rest) =>
        match decode_document v with
        | None => Err (join (errors_New ErrInvalidDirectory) (errors_New (foreign 0)))
        | Some raws =>
            if json_More rest then Err invalid_directory
            else if (length raws =? 0)%nat || (maxDirectoryKeys <? length raws)%nat then Err invalid_directory
            else collect_keys raws []
        end
    end.
End Keys.

(** ** Structured fields *)

(** The loop of [splitStructuredItems]; [current] is in reverse. *)
Fixpoint split_items (s current : bytes) (quoting : bool) (depth : nat) : option (list bytes) :=
  match s with
  | [] =>
      if quoting || negb (depth =? 0)%nat then None
      else let item := TrimSpace (rev current) in if bytes_eqb item [] then None else Some [item]
  | c :: s =>
      if quoting then split_items s (c :: current) (negb (byte_eqb c quote)) depth
      else if byte_eqb c quote then split_items s (c :: current) true depth
      else if byte_eqb c "(" then split_items s (c :: current) false (S depth)
      else if byte_eqb c ")" then
        match depth with O => None | S depth => split_items s (c :: current) false depth end
      else if byte_eqb c "," then
        if negb (depth =? 0)%nat then split_items s (c :: current) false depth
        else
          let item := TrimSpace (rev current) in
          if bytes_eqb item [] then None else (cons item) <$> split_items s [] false depth
      else split_items s (c :: current) false depth
  end.

Definition splitStructuredItems (value : bytes) : option (list bytes) :=
  if bytes_eqb (TrimSpace value) [] then None else split_items value [] false 0.

(** A dictionary: labels and members *)
Definition dictionary : Type := list (bytes * bytes).
Definition dictionary_get (label : bytes) (d : dictionary) : option bytes :=
  snd <$> List.find (fun m => bytes_eqb (fst m) label) d.

Fixpoint collect_members (items : list bytes) (d : dictionary) : res error dictionary :=
  match items with
  | [] => Ok d
  | item :: items =>
      let '(label, member, ok) := Cut item "=" in
      if negb ok || bytes_eqb label [] || bytes_eqb member [] || Contains label " " then Err invalid_directory
      else
        match dictionary_get label d with
        | Some _ => Err invalid_directory
        | None => collect_members items (d ++ [(label, member)])
        end
  end.

Definition directoryDictionary (value : bytes) : res error dictionary :=
  match splitStructuredItems value with
  | None => Err invalid_directory
  | Some items => collect_members items []
  end.

(** [value[1 : len(value)-1]] between colons, of three bytes at least *)
Definition between_colons (value : bytes) : option bytes :=
  if (length value <? 3)%nat || negb (HasPrefix value (bs ":")) || negb (HasSuffix value (bs ":")) then None
  else Some (take (length value - 2) (drop 1 value)).

Definition directoryContentDigest `{SHA256} (value body : bytes) : option error :=
  match directoryDictionary value with
  | Err _ => Some invalid_directory
  | Ok d =>
      match dictionary_get (bs "sha-256") d with
      | None => Some invalid_directory
      | Some encoded =>
          match between_colons encoded with
          | None => Some invalid_directory
          | Some encoded =>
              match base64_Decode base64_Std encoded with
              | None => Some invalid_directory
              | Some digest => if negb (bytes_eqb digest (sha256_Sum256 body)) then Some invalid_directory else None
              end
          end
      end
  end.

(** ** Signature parameters *)

(** The loop of [splitSignatureParameters]; [current] is in reverse. *)
Fixpoint split_parameters (s current : bytes) (quoting : bool) : list bytes :=
  match s with
  | [] => match current with [] => [] | _ => [rev current] end
  | c :: s =>
      if byte_eqb c quote then split_parameters s (c :: current) (negb quoting)
      else if byte_eqb c ";" && negb quoting then rev current :: split_parameters s [] quoting
      else split_parameters s (c :: current) quoting
  end.
Definition splitSignatureParameters (item : bytes) : list bytes := split_parameters item [] false.

Definition directoryParameter (item name : bytes) : bytes :=
  let prefix := name ++ bs "=" in
  match List.find (fun part => HasPrefix part prefix) (splitSignatureParameters item) with
  | Some part => Trim (byte_eqb quote) (TrimPrefix part prefix)
  | None => []
  end.

Definition directoryKeyID (item : bytes) : bytes := directoryParameter item (bs "keyid").

Definition directoryInputAccepts (item : bytes) : bool :=
  if negb (bytes_eqb item directoryCovered) && negb (HasPrefix item (directoryCovered ++ bs ";")) then false
  else bytes_eqb (directoryParameter item (bs "alg")) (bs "ed25519")
       && bytes_eqb (directoryParameter item (bs "tag")) directorySignatureTag.

(** [inputs] in the order of its [range] *)
Definition directoryInputForKey (inputs : dictionary) (keyID : bytes) : option (bytes * bytes) :=
  List.find (fun m => bytes_eqb (directoryKeyID (snd m)) keyID && directoryInputAccepts (snd m)) inputs.

Definition directorySignatureBytes (value : bytes) : res error bytes :=
  match between_colons value with
  | None => Err invalid_directory
  | Some encoded =>
      match base64_Decode base64_Std encoded with
      | None => Err invalid_directory
      | Some signature =>
          if negb (length signature =? SignatureSize)%nat then Err invalid_directory else Ok signature
      end
  end.

(** [time.Unix(sec, 0)]: the seconds since the zero time are an [int64]. *)
Definition unix_time (sec : Z) : Z := wrap_int64 (sec + unixToInternal) * Second.

Definition directorySignatureLifetime (now : Z) (item : bytes) : option error :=
  match ParseInt64 (directoryParameter item (bs "created")), ParseInt64 (directoryParameter item (bs "expires")) with
  | Some created, Some expires =>
      if expires <=? created then Some invalid_directory
      else
        let createdAt := unix_time created in
        let expiresAt := unix_time expires in
        if (maxDirectoryLifetime <? time_Sub expiresAt createdAt)
           || time_Before now (time_Add createdAt (- directoryClockSkew))
           || time_After now (time_Add expiresAt directoryClockSkew)
        then Some invalid_directory else None
  | _, _ => Some invalid_directory
  end.

Definition directorySignatureBase (authority digest parameters : bytes) : bytes :=
  quoted (bs "@authority") ++ bs ";req: " ++ authority ++ [line_break]
  ++ quoted (bs "content-digest") ++ bs ": " ++ digest ++ [line_break]
  ++ quoted (bs "@signature-params") ++ bs ": " ++ parameters.

(** ** The directory *)

Section Directory.
Context `{SHA256} `{Ed25519}.
(** The order of one [range] over the inputs, one for every key. *)
Variable map_order : bytes -> dictionary -> dictionary.

Definition verify_key (now : Z) (authority digest : bytes) (inputs signatures : dictionary) (key : directoryKey)
    : option error :=
  match directoryInputForKey (map_order (key_id key) inputs) (key_id key) with
  | None => Some invalid_directory
  | Some (label, item) =>
      match dictionary_get label signatures with
      | None => Some invalid_directory
      | Some encoded =>
          match directorySignatureBytes encoded with
          | Err e => Some e
          | Ok signature =>
              match directorySignatureLifetime now item with
              | Some e => Some e
              | None =>
                  if negb (ed25519_Verify (key_publicKey key) (directorySignatureBase authority digest item) signature)
                  then Some invalid_directory else None
              end
          end
      end
  end.

Fixpoint verify_keys (now : Z) (authority digest : bytes) (inputs signatures : dictionary) (keys : list directoryKey)
    : option error :=
  match keys with
  | [] => None
  | key :: keys =>
      match verify_key now authority digest inputs signatures key with
      | Some e => Some e
      | None => verify_keys now authority digest inputs signatures keys
      end
  end.

Definition verifyDirectorySignatures (now : Z) (authority digest : bytes) (keys : list directoryKey) (h : header)
    : option error :=
  if bytes_eqb authority [] || bytes_eqb digest [] then Some invalid_directory
  else
    match directoryDictionary (header_Get h (bs "Signature-Input")) with
    | Err e => Some e
    | Ok inputs =>
        match directoryDictionary (header_Get h (bs "Signature")) with
        | Err e => Some e
        | Ok signatures =>
            if negb (length inputs =? length signatures)%nat || negb (length inputs =? length keys)%nat
            then Some invalid_directory
            else verify_keys now authority digest inputs signatures keys
        end
    end.

Definition ValidateDirectory (now : Z) (authority : bytes) (status : Z) (h : option header) (body : bytes)
    : res error DirectoryReport :=
  if negb (status =? 200) then Err invalid_directory
  else
    match directoryContentType h with
    | Some e => Err e
    | None =>
        let? keys := parseDirectoryKeys body in
        let h := default ∅ h in
        let digest := header_Get h (bs "Content-Digest") in
        match directoryContentDigest digest body with
        | Some e => Err e
        | None =>
            match verifyDirectorySignatures now authority digest keys h with
            | Some e => Err e
            | None =>
                let state := if (length keys =? maxDirectoryKeys)%nat
                             then DirectoryStateRotationOverlap else DirectoryStateSingleKey in
                Ok (mkDirectoryReport state (map key_id keys))
            end
        end
    end.
End Directory.
