(* ===== verification/WebBotAuthFacts.v ===== *)
(** * What the signed headers say

    The texts the signer writes are read back by the structured-field reader
    of the signature directory, parameter by parameter. *)

From S2P Require Import Prelude GoText GoErrors GoUrl GoNetip GoJson GoTime GoEncoding JsonFields Origin Exclusions PublicData WebBotAuth.

(** ** The bytes of identifiers, numbers and nonces *)

Definition word_byte (c : ascii) : bool :=
  is_alpha c || is_digit c || byte_eqb c "+" || byte_eqb c "/" || byte_eqb c "-" || byte_eqb c "_" || byte_eqb c "=".

Lemma base64_word enc s : base64_known enc -> forallb word_byte (base64_Encode enc s) = true.
Proof.
  intros He. assert (Hs : forall v, 0 <= v < 64 -> word_byte (sextet_char enc v) = true).
  { change 64 with (Z.of_nat 64). apply below_cases. intros k Hk.
    destruct He as [-> | ->]; do 64 (destruct k as [|k]; [done|]); lia. }
  induction s as [|a|a b|a b c s IH] using list_ind3; [done| | |]; cbn [base64_Encode forallb];
    try pose proof (code_range a); try pose proof (code_range b); try pose proof (code_range c);
    rewrite !Hs by divlia; cbn [andb]; [| |exact IH]; unfold padding; by destruct (b64_padded enc).
Qed.

Lemma base64_length_raw s : length (base64_Encode base64_RawURL s) = ((4 * length s + 2) / 3)%nat.
Proof.
  induction s as [|a|a b|a b c s IH] using list_ind3; [done..|]. cbn [base64_Encode length]. rewrite IH.
  replace (4 * S (S (S (length s))) + 2)%nat with (4 * 3 + (4 * length s + 2))%nat by lia. by rewrite Nat.div_add_l.
Qed.

Lemma digits_word s : forallb is_digit s = true -> forallb word_byte s = true.
Proof.
  induction s as [|c s IH]; [done|]. cbn [forallb]. intros Hs. b2p. rewrite IH by done. unfold word_byte.
  by replace (is_digit c) with true; rewrite orb_true_r.
Qed.

Lemma FormatInt_word z : min_int64 <= z <= max_int64 -> forallb word_byte (FormatInt z) = true.
Proof.
  unfold min_int64, max_int64, FormatInt. intros Hz. destruct (Z.ltb_spec z 0); cbn [forallb].
  - destruct (FormatUint_spec (- z)) as (_ & Hd & _); [unfold max_uint64; lia|]. by rewrite digits_word.
  - destruct (FormatUint_spec z) as (_ & Hd & _); [unfold max_uint64; lia|]. by rewrite digits_word.
Qed.

(** The bytes that steer the readers of structured fields *)
Definition steering : bytes := quote :: bs ";,() ".

Lemma word_not_steering c : word_byte c = true -> is_visible c = true /\ forall d, d ∈ steering -> byte_eqb c d = false.
Proof.
  intros Hc. assert (Hv : is_visible c && negb (existsb (byte_eqb c) steering) = true).
  { revert Hc. by destruct c as [[] [] [] [] [] [] [] []]. }
  b2p. split; [done|]. intros d Hd. apply not_true_is_false. intros Heq.
  assert (existsb (byte_eqb c) steering = true) by (apply existsb_exists; exists d; by rewrite <- list_elem_of_In). congruence.
Qed.

(** ** Parameters *)

(** Reading a text that holds no separator outside quotes: the quoting state
    after it. *)
Fixpoint parameter_run (s : bytes) (quoting : bool) : option bool :=
  match s with
  | [] => Some quoting
  | c :: s =>
      if byte_eqb c quote then parameter_run s (negb quoting)
      else if byte_eqb c ";" && negb quoting then None
      else parameter_run s quoting
  end.

Lemma parameter_run_app s t q : parameter_run (s ++ t) q = parameter_run s q ≫= parameter_run t.
Proof. revert q. induction s as [|c s IH]; intros q; [done|]. cbn [app parameter_run]. by repeat case_match. Qed.

Lemma parameter_run_word s q : forallb word_byte s = true -> parameter_run s q = Some q.
Proof.
  induction s as [|c s IH]; [done|]. cbn [forallb parameter_run]. intros Hs. b2p.
  destruct (word_not_steering c) as [_ Hn]; [done|]. rewrite !Hn by (unfold steering; cbn [bs]; set_solver). cbn [andb]. auto.
Qed.

Lemma split_parameters_run s q q' : parameter_run s q = Some q' -> forall rest current,
  split_parameters (s ++ rest) current q = split_parameters rest (rev s ++ current) q'.
Proof.
  revert q. induction s as [|c s IH]; intros q Hr rest current; cbn [app parameter_run split_parameters rev] in *; [by simplify_eq|].
  rewrite <- app_assoc. cbn [app]. repeat case_match; try done; by apply IH.
Qed.

(** The parameters after the covered components, each of its own *)
Definition joined (first : bytes) (parts : list bytes) : bytes := first ++ concat (map (fun p => bs ";" ++ p) parts).

Lemma split_joined first parts : parameter_run first false = Some false -> first <> [] ->
  Forall (fun p => parameter_run p false = Some false /\ p <> []) parts ->
  splitSignatureParameters (joined first parts) = first :: parts.
Proof.
  unfold splitSignatureParameters, joined. intros Hf Hne Hp. revert first Hf Hne.
  induction Hp as [|p parts [Hp Hn] _ IH]; intros first Hf Hne; cbn [map concat].
  - rewrite (split_parameters_run _ _ _ Hf). cbn [split_parameters]. rewrite app_nil_r.
    destruct (rev first) eqn:Hr; [by apply (f_equal (@rev ascii)) in Hr; rewrite rev_involutive in Hr|].
    by rewrite <- Hr, rev_involutive.
  - rewrite (split_parameters_run _ _ _ Hf), <- app_assoc. cbn [bs app split_parameters].
    change (byte_eqb ";" quote) with false. change (byte_eqb ";" ";") with true. cbn [andb negb].
    rewrite app_nil_r, rev_involutive. f_equal. by apply IH.
Qed.

Lemma Trim_quoted s : forallb word_byte s = true -> Trim (byte_eqb quote) (quoted s) = s /\ Trim (byte_eqb quote) s = s.
Proof.
  intros Hs. assert (Hq : forall c, c ∈ s -> byte_eqb quote c = false).
  { intros c Hc. destruct (byte_eqb_spec quote c) as [<-|]; [|done].
    by pose proof (forallb_elem _ _ _ Hs Hc). }
  split; [|by apply Trim_none].
  assert (Hl : forall t r, (forall c, c ∈ t -> byte_eqb quote c = false) -> t <> [] -> TrimLeftFunc (byte_eqb quote) (quote :: t ++ r) = t ++ r).
  { intros [|c t] r Ht; [done|]. intros _. cbn [TrimLeftFunc app]. change (byte_eqb quote quote) with true. cbv iota.
    rewrite (Ht c) by (by left). done. }
  destruct (decide (s = [])) as [->|Hne]; [done|]. unfold Trim, quoted.
  rewrite (Hl s [quote] Hq Hne), rev_app_distr. cbn [rev app].
  pose proof (Hl (rev s) []) as Hr. rewrite !app_nil_r in Hr. rewrite Hr, rev_involutive; [done| |].
  - intros c. rewrite list_elem_of_In, <- in_rev, <- list_elem_of_In. apply Hq.
  - intros Hn. apply Hne. by rewrite <- (rev_involutive s), Hn.
Qed.

(** ** Dictionaries of one member *)

(** Reading a text that holds no comma at the top level: the state after it. *)
Fixpoint item_run (s : bytes) (quoting : bool) (depth : nat) : option (bool * nat) :=
  match s with
  | [] => Some (quoting, depth)
  | c :: s =>
      if quoting then item_run s (negb (byte_eqb c quote)) depth
      else if byte_eqb c quote then item_run s true depth
      else if byte_eqb c "(" then item_run s false (S depth)
      else if byte_eqb c ")" then match depth with O => None | S depth => item_run s false depth end
      else if byte_eqb c "," then if negb (depth =? 0)%nat then item_run s false depth else None
      else item_run s false depth
  end.

Lemma item_run_app s t q d q' d' : item_run s q d = Some (q', d') -> item_run (s ++ t) q d = item_run t q' d'.
Proof.
  revert q d. induction s as [|c s IH]; intros q d; cbn [app item_run]; [by intros [= -> ->]|].
  repeat case_match; try done; apply IH.
Qed.

Lemma item_run_word s q d : forallb word_byte s = true -> item_run s q d = Some (q, d).
Proof.
  induction s as [|c s IH]; [done|]. cbn [forallb item_run]. intros Hs. b2p.
  destruct (word_not_steering c) as [_ Hn]; [done|]. rewrite !Hn by (unfold steering; cbn [bs]; set_solver).
  destruct q; apply IH; done.
Qed.

Lemma split_items_run s q d q' d' : item_run s q d = Some (q', d') -> forall rest current,
  split_items (s ++ rest) current q d = split_items rest (rev s ++ current) q' d'.
Proof.
  revert q d. induction s as [|c s IH]; intros q d Hr rest current; cbn [app item_run split_items rev] in *; [by simplify_eq|].
  rewrite <- app_assoc. cbn [app]. repeat case_match; try done; by apply IH.
Qed.

(** A whole item: nothing is open at its end, and it ends in a visible byte. *)
Definition whole_item (s : bytes) : Prop :=
  item_run s false 0 = Some (false, 0%nat) /\ exists t c, s = t ++ [c] /\ is_visible c = true.

Lemma dictionary_one label member : label <> [] -> forallb word_byte label = true -> "="%char ∉ label -> whole_item member ->
  directoryDictionary (label ++ bs "=" ++ member) = Ok [(label, member)].
Proof.
  intros Hne Hl Heq (Hrun & t & c & -> & Hc). set (value := label ++ bs "=" ++ t ++ [c]).
  assert (Htrim : TrimSpace value = value).
  { unfold value. apply TrimSpace_edges.
    - destruct label as [|x label]; [done|]. cbn [forallb app] in *. b2p. by apply word_not_steering.
    - rewrite app_assoc, app_assoc, rev_app_distr. cbn [rev app]. done. }
  assert (Hv : bytes_eqb value [] = false) by (unfold value; by destruct label).
  assert (Hitems : item_run value false 0 = Some (false, 0%nat)).
  { unfold value. rewrite (item_run_app _ _ _ _ false 0) by (by apply item_run_word). by rewrite (item_run_app _ _ _ _ false 0). }
  unfold directoryDictionary, splitStructuredItems. rewrite Htrim, Hv. cbv iota.
  pose proof (split_items_run _ _ _ _ _ Hitems [] []) as Hs. rewrite !app_nil_r in Hs. rewrite Hs. cbn [split_items orb negb].
  change (0 =? 0)%nat with true. cbn [negb]. rewrite rev_involutive, Htrim, Hv. cbn [collect_members].
  assert (Hcut : Cut value "=" = (label, t ++ [c], true)).
  { unfold value. clear -Heq. induction label as [|x label IH]; [done|]. rewrite not_elem_of_cons in Heq. cbn [app Cut].
    destruct (byte_eqb_spec x "=") as [->|]; [tauto|]. by rewrite IH by tauto. }
  rewrite Hcut. cbn [negb orb]. replace (bytes_eqb label []) with false by (by destruct label).
  replace (bytes_eqb (t ++ [c]) []) with false by (by destruct t).
  replace (Contains label " ") with false; [done|]. symmetry. apply not_true_is_false. intros Hin%Contains_spec.
  by pose proof (forallb_elem _ _ _ Hl Hin).
Qed.

Lemma ends_visible_app a b : (exists t c, b = t ++ [c] /\ is_visible c = true) -> exists t c, a ++ b = t ++ [c] /\ is_visible c = true.
Proof. intros (t & c & -> & Hc). exists (a ++ t), c. by rewrite app_assoc. Qed.

(** ** The parameters of a signed request *)

Definition signature_parts (created expires : Z) (keyID nonce : bytes) : list bytes :=
  [bs "created=" ++ FormatInt created; bs "keyid=" ++ quoted keyID; bs "alg=" ++ quoted (bs "ed25519");
   bs "expires=" ++ FormatInt expires; bs "nonce=" ++ quoted nonce; bs "tag=" ++ quoted (bs "web-bot-auth")].
Definition covered_components : bytes := bs "(" ++ quoted (bs "@authority") ++ bs " " ++ quoted (bs "signature-agent") ++ bs ")".

Lemma signatureParameters_joined created expires keyID nonce :
  signatureParameters created expires keyID nonce = joined covered_components (signature_parts created expires keyID nonce).
Proof.
  unfold signatureParameters, joined, signature_parts, covered_components. cbn [map concat]. rewrite <- !app_assoc.
  by repeat (change (bs ";created=" ++ ?x) with (bs ";" ++ bs "created=" ++ x)).
Qed.

Definition part_ok (p : bytes) : Prop :=
  parameter_run p false = Some false /\ p <> [] /\ item_run p false 0 = Some (false, 0%nat).

Lemma part_word name v : name <> [] -> forallb word_byte name = true -> forallb word_byte v = true -> part_ok (name ++ v).
Proof.
  intros Hne Hn Hv. assert (Hw : forallb word_byte (name ++ v) = true) by (by rewrite forallb_app, Hn, Hv).
  split_and!; [by apply parameter_run_word|by destruct name|by apply item_run_word].
Qed.

Lemma part_quoted name v : name <> [] -> forallb word_byte name = true -> forallb word_byte v = true -> part_ok (name ++ quoted v).
Proof.
  intros Hne Hn Hv. split_and!; [|by destruct name|].
  - rewrite parameter_run_app, parameter_run_word by done. cbn [mbind option_bind]. unfold quoted. cbn [parameter_run].
    change (byte_eqb quote quote) with true. cbn [negb]. by rewrite parameter_run_app, parameter_run_word.
  - rewrite (item_run_app _ _ _ _ false 0) by (by apply item_run_word). unfold quoted. cbn [item_run].
    change (byte_eqb quote quote) with true. cbv iota. by rewrite (item_run_app _ _ _ _ true 0) by (by apply item_run_word).
Qed.

Lemma joined_run first parts : item_run first false 0 = Some (false, 0%nat) -> Forall part_ok parts ->
  item_run (joined first parts) false 0 = Some (false, 0%nat).
Proof.
  unfold joined. intros Hf Hp. rewrite (item_run_app _ _ _ _ _ _ Hf). clear Hf first.
  induction Hp as [|p parts (_ & _ & Hp) _ IH]; [done|]. cbn [map concat]. rewrite <- app_assoc. cbn [bs app item_run].
  change (byte_eqb ";" quote) with false. change (byte_eqb ";" "(") with false. change (byte_eqb ";" ")") with false.
  change (byte_eqb ";" ",") with false. cbv iota. by rewrite (item_run_app _ _ _ _ _ _ Hp).
Qed.

Section Parameters.
Variables (created expires : Z) (keyID nonce : bytes).
Hypothesis created_int64 : min_int64 <= created <= max_int64.
Hypothesis expires_int64 : min_int64 <= expires <= max_int64.
Hypothesis keyID_word : forallb word_byte keyID = true.
Hypothesis nonce_word : forallb word_byte nonce = true.
#[local] Abbreviation parameters := (signatureParameters created expires keyID nonce).

Lemma parts_ok : Forall part_ok (signature_parts created expires keyID nonce).
Proof.
  unfold signature_parts.
  repeat constructor; first [apply part_quoted | apply part_word]; try done; by apply FormatInt_word.
Qed.

Lemma split_signature : splitSignatureParameters parameters = covered_components :: signature_parts created expires keyID nonce.
Proof.
  rewrite signatureParameters_joined. apply split_joined; [done|done|]. eapply Forall_impl; [apply parts_ok|].
  by intros p (Hp & Hne & _).
Qed.

Lemma whole_parameters : whole_item parameters.
Proof.
  split.
  - rewrite signatureParameters_joined. apply joined_run; [done|apply parts_ok].
  - unfold signatureParameters. repeat match goal with |- exists _ _, _ ++ _ = _ /\ _ => apply ends_visible_app end.
    by exists (quote :: bs "web-bot-auth"), quote.
Qed.

Lemma parameters_read :
  directoryParameter parameters (bs "created") = FormatInt created
  /\ directoryParameter parameters (bs "expires") = FormatInt expires
  /\ directoryParameter parameters (bs "keyid") = keyID
  /\ directoryParameter parameters (bs "nonce") = nonce
  /\ directoryParameter parameters (bs "alg") = bs "ed25519"
  /\ directoryParameter parameters (bs "tag") = bs "web-bot-auth".
Proof.
  assert (Hr : forall name prefix v, name = prefix ++ v -> TrimPrefix name prefix = v).
  { intros ? prefix v ->. unfold TrimPrefix. rewrite (proj2 (HasPrefix_spec _ _)) by (by exists v).
    by rewrite drop_app_length. }
  unfold directoryParameter. cbv zeta. rewrite split_signature. unfold signature_parts.
  split_and!; cbn [List.find];
    repeat match goal with |- context [HasPrefix ?a ?b] => first [change (HasPrefix a b) with false | rewrite (proj2 (HasPrefix_spec a b)) by (eexists; reflexivity)] end; cbv iota;
    (erewrite Hr; [|reflexivity]);
    first [by apply Trim_quoted | apply Trim_quoted; by apply FormatInt_word | done].
Qed.
End Parameters.

(** * Signed requests verify

    Every identity that is accepted signs, and the headers it attaches verify
    under its public key when they are read back. *)


Lemma base64_Std_known : base64_known base64_Std.
Proof. by left. Qed.
Lemma base64_RawURL_known : base64_known base64_RawURL.
Proof. by right. Qed.

Section Identities.
Context `{SHA256} `{!SHA256Laws} `{Ed25519} `{!Ed25519Laws}.

Lemma thumbprint_valid jwk : validKeyID (jwkThumbprint jwk) = true.
Proof.
  unfold validKeyID, jwkThumbprint. rewrite base64_length_raw, Sum256_length. cbn [negb].
  rewrite (base64_roundtrip _ base64_RawURL_known), Sum256_length. cbn [andb]. by destruct (bytes_eqb_spec (base64_Encode base64_RawURL (sha256_Sum256 (thumbprint_text jwk))) (base64_Encode base64_RawURL (sha256_Sum256 (thumbprint_text jwk)))).
Qed.

(** The identity of a seed *)
Definition identity_of (seed : bytes) : Identity :=
  let key := NewKeyFromSeed seed in
  let jwk := mkPublicJWK (bs "Ed25519") (bs "OKP") (base64_Encode base64_RawURL (drop SeedSize key)) in
  mkIdentity key (drop SeedSize key) jwk (jwkThumbprint jwk).

Lemma NewIdentity_seed key i : NewIdentity key = Ok i <-> exists seed, length seed = SeedSize /\ key = NewKeyFromSeed seed /\ i = identity_of seed.
Proof.
  unfold NewIdentity. split.
  - destruct (Nat.eqb_spec (length key) PrivateKeySize) as [Hl|]; cbn [negb]; [|done].
    destruct (bytes_eqb_spec key (NewKeyFromSeed (take SeedSize key))) as [Hk|]; cbn [negb]; [|done]. intros [= <-].
    exists (take SeedSize key). split_and!; [|done|done]. rewrite length_take, Hl. done.
  - intros (seed & Hl & -> & ->). destruct (NewKeyFromSeed_seed seed Hl) as [Hk Ht]. rewrite Hk, Ht. cbn [negb].
    change (PrivateKeySize =? PrivateKeySize)%nat with true. cbn [negb]. by destruct (bytes_eqb_spec (NewKeyFromSeed seed) (NewKeyFromSeed seed)).
Qed.

(** What an identity promises: its key pair comes from one seed, its JWK spells
    its public key, and its identifier is the JWK's thumbprint in the form a
    signer takes. *)
Definition identity_ok (key : bytes) (i : Identity) : Prop :=
  (exists seed, length seed = SeedSize /\ key = NewKeyFromSeed seed)
  /\ identity_privateKey i = key /\ identity_publicKey i = drop SeedSize key /\ length (identity_publicKey i) = PublicKeySize
  /\ base64_Decode base64_RawURL (jwk_X (identity_publicJWK i)) = Some (identity_publicKey i)
  /\ identity_keyID i = jwkThumbprint (identity_publicJWK i) /\ validKeyID (identity_keyID i) = true.

Lemma identity_of_ok seed : length seed = SeedSize -> identity_ok (NewKeyFromSeed seed) (identity_of seed).
Proof.
  intros Hl. destruct (NewKeyFromSeed_seed seed Hl) as [Hk _]. unfold identity_ok, identity_of. cbn.
  split_and!; [by exists seed|done|done| |apply (base64_roundtrip _ base64_RawURL_known)|done|apply thumbprint_valid].
  by rewrite length_drop, Hk.
Qed.

(** The one unencrypted [PRIVATE KEY] block of a file *)
Definition one_block `{KeyFiles} (data : bytes) (block : pem_Block) : Prop :=
  exists rest, pem_Decode data = (Some block, rest) /\ pem_Type block = bs "PRIVATE KEY" /\ pem_Headers block = [] /\ TrimSpace rest = [].

(** The outcome of parsing a key file. *)
Inductive key_parsed `{KeyFiles} (data : bytes) : res error Identity -> Prop :=
| kp_no_block : (forall block, ~ one_block data block) -> key_parsed data (Err (errors_New ErrInvalidPrivateKey))
| kp_malformed block : one_block data block ->
    match ParsePKCS8PrivateKey (pem_Bytes block) with
    | None => True
    | Some None => False
    | Some (Some key) => length key <> PrivateKeySize
    end -> key_parsed data (Err (errors_New ErrInvalidPrivateKey))
| kp_algorithm block : one_block data block -> ParsePKCS8PrivateKey (pem_Bytes block) = Some None ->
    key_parsed data (Err (errors_New ErrUnsupportedPrivateKey))
| kp_mismatch block key : one_block data block -> ParsePKCS8PrivateKey (pem_Bytes block) = Some (Some key) ->
    length key = PrivateKeySize -> (forall seed, length seed = SeedSize -> key <> NewKeyFromSeed seed) ->
    key_parsed data (Err (errors_New ErrPrivateKeyMismatch))
| kp_identity block key i : one_block data block -> ParsePKCS8PrivateKey (pem_Bytes block) = Some (Some key) ->
    identity_ok key i -> key_parsed data (Ok i).

(** The outcome of reading one. *)
Inductive key_read `{KeyFiles} : option stream -> res error Identity -> Prop :=
| kr_no_reader : key_read None (Err (errors_New ErrReadPrivateKey))
| kr_unreadable s e : (length (stream_bytes s) <= maxPrivateKeyPEMSize)%nat -> stream_error s = Some e ->
    key_read (Some s) (Err (errors_New ErrReadPrivateKey))
| kr_large s : (maxPrivateKeyPEMSize < length (stream_bytes s))%nat -> key_read (Some s) (Err (errors_New ErrPrivateKeyTooLarge))
| kr_parsed s r : (length (stream_bytes s) <= maxPrivateKeyPEMSize)%nat -> stream_error s = None ->
    key_parsed (stream_bytes s) r -> key_read (Some s) r.

Lemma one_block_parsed `{KeyFiles} data block : one_block data block ->
  ParsePrivateKeyPEM data = match ParsePKCS8PrivateKey (pem_Bytes block) with
                            | None => Err (errors_New ErrInvalidPrivateKey)
                            | Some None => Err (errors_New ErrUnsupportedPrivateKey)
                            | Some (Some key) => NewIdentity key
                            end.
Proof. unfold ParsePrivateKeyPEM. intros (rest & -> & -> & -> & ->). done. Qed.

Lemma block_decided `{KeyFiles} data :
  (exists block, one_block data block)
  \/ (forall block, ~ one_block data block) /\ ParsePrivateKeyPEM data = Err (errors_New ErrInvalidPrivateKey).
Proof.
  unfold ParsePrivateKeyPEM, one_block.
  destruct (pem_Decode data) as [[block|] rest]; [|right; split; [by intros ? (? & ? & _)|done]].
  destruct (negb (bytes_eqb (pem_Type block) (bs "PRIVATE KEY")) || _ || _) eqn:Hg; [right|left].
  - split; [|done]. intros block' (rest' & [= <- <-] & Ht & Hh & Hr). by rewrite Ht, Hh, Hr in Hg.
  - apply orb_false_iff in Hg as [[Hg1 Hg2]%orb_false_iff Hg3]. apply negb_false_iff in Hg1, Hg2, Hg3.
    apply Nat.eqb_eq, nil_length_inv in Hg2, Hg3. exists block, rest. split_and!; [done| |done|done].
    by destruct (bytes_eqb_spec (pem_Type block) (bs "PRIVATE KEY")).
Qed.

Lemma ParsePrivateKeyPEM_parsed `{KeyFiles} data : key_parsed data (ParsePrivateKeyPEM data).
Proof.
  destruct (block_decided data) as [[block Hb]|[Hno ->]]; [|by constructor]. rewrite (one_block_parsed _ _ Hb).
  destruct (ParsePKCS8PrivateKey (pem_Bytes block)) as [[key|]|] eqn:Hk.
  - destruct (NewIdentity key) as [i|e] eqn:Hi.
    + pose proof Hi as (seed & Hl & -> & ->)%NewIdentity_seed. by eapply kp_identity, identity_of_ok.
    + assert (Hno : forall seed, length seed = SeedSize -> key <> NewKeyFromSeed seed).
      { intros seed Hl Hs. assert (Hex : NewIdentity key = Ok (identity_of seed)) by (apply NewIdentity_seed; by exists seed). congruence. }
      unfold NewIdentity in Hi. destruct (Nat.eqb_spec (length key) PrivateKeySize); cbn [negb] in Hi.
      * destruct (bytes_eqb _ _); cbn [negb] in Hi; [done|]. injection Hi as <-. by apply (kp_mismatch data block key).
      * injection Hi as <-. apply (kp_malformed data block Hb). by rewrite Hk.
  - by apply (kp_algorithm data block).
  - apply (kp_malformed data block Hb). by rewrite Hk.
Qed.

Lemma ReadIdentity_read `{KeyFiles} r : key_read r (ReadIdentity r).
Proof.
  destruct r as [s|]; [|constructor]. unfold ReadIdentity, ReadAll_limit.
  destruct (Nat.leb_spec (maxPrivateKeyPEMSize + 1) (length (stream_bytes s))) as [Hl|Hl].
  { rewrite length_take. destruct (Nat.ltb_spec maxPrivateKeyPEMSize ((maxPrivateKeyPEMSize + 1) `min` length (stream_bytes s))) as [_|Hc]; [|exfalso; revert Hc; lia].
    constructor. lia. }
  destruct (stream_error s) as [e|] eqn:He; [apply (kr_unreadable s e); [lia|done]|].
  destruct (Nat.ltb_spec maxPrivateKeyPEMSize (length (stream_bytes s))) as [Hc|Hs]; [lia|].
  constructor; [done|done|]. apply ParsePrivateKeyPEM_parsed.
Qed.

(** Reading a signing key: an identity comes out of a bounded file that
    holds one PKCS#8 Ed25519 key and nothing else, its private key is the one
    derived from a seed, its JWK spells its public key, and its identifier is
    the JWK's thumbprint in the form a signer takes, so that the identity does
    sign; every other input is refused with the error of its class. *)
Theorem identity_read_correct `{KeyFiles} {W} (rand_Reader : call W nat (res error bytes)) (time_Now : call W unit Z) r :
  key_read r (ReadIdentity r)
  /\ forall i, ReadIdentity r = Ok i -> exists signer, identity_Signer rand_Reader time_Now (Some i) = Ok signer
       /\ signer_privateKey signer = identity_privateKey i /\ signer_keyID signer = identity_keyID i.
Proof.
  split; [apply ReadIdentity_read|]. intros i Hi. pose proof (ReadIdentity_read r) as Hr. rewrite Hi in Hr.
  inversion Hr as [| | |s ? _ _ Hp']; subst. inversion Hp' as [| | | |block key ? _ _ Hok]; subst. destruct Hok as ((seed & Hl & ->) & Hp & _ & _ & _ & _ & Hv).
  unfold identity_Signer, NewSigner, newSigner. destruct (NewKeyFromSeed_seed seed Hl) as [Hk _].
  rewrite Hp, Hk, Hv. by eexists.
Qed.
End Identities.

(** ** Signing *)

(** What a receiver of the headers reads: one signature of the given label by
    the key of that identifier over the authority and the agent, its window
    and its nonce. *)
Record reads_as `{Ed25519} (public keyID authority : bytes) (created : Z) (nonce : bytes) (h : header)
    (v_parameters v_encoded v_signature : bytes) : Prop := {
  v_agent : header_Get h (bs "Signature-Agent") = quoted SignatureAgentURL;
  v_input : directoryDictionary (header_Get h (bs "Signature-Input")) = Ok [(signatureLabel, v_parameters)];
  v_member : directoryDictionary (header_Get h (bs "Signature")) = Ok [(signatureLabel, v_encoded)];
  v_bytes : directorySignatureBytes v_encoded = Ok v_signature;
  v_verified : ed25519_Verify public (signatureBase authority (quoted SignatureAgentURL) v_parameters) v_signature = true;
  v_covered : HasPrefix v_parameters (covered_components ++ bs ";") = true;
  v_keyID : directoryKeyID v_parameters = keyID;
  v_algorithm : directoryParameter v_parameters (bs "alg") = bs "ed25519";
  v_tag : directoryParameter v_parameters (bs "tag") = bs "web-bot-auth";
  v_created : ParseInt64 (directoryParameter v_parameters (bs "created")) = Some created;
  v_expires : ParseInt64 (directoryParameter v_parameters (bs "expires")) = Some (created + 60);
  v_nonce : base64_Decode base64_Std (directoryParameter v_parameters (bs "nonce")) = Some nonce;
}.
Definition verifies `{Ed25519} public keyID authority created nonce h : Prop :=
  exists parameters encoded signature, reads_as public keyID authority created nonce h parameters encoded signature.

Definition signature_headers : list bytes := [bs "Signature-Agent"; bs "Signature-Input"; bs "Signature"].

Lemma header_Get_Set h name value : header_Get (header_Set h name value) name = value.
Proof. unfold header_Get, header_Set. by rewrite lookup_insert_eq. Qed.
Lemma header_Get_Set_ne h name name' value : name <> name' -> header_Get (header_Set h name value) name' = header_Get h name'.
Proof. intros Hne. unfold header_Get, header_Set. by rewrite lookup_insert_ne. Qed.

Lemma between_colons_app s : s <> [] -> between_colons (bs ":" ++ s ++ bs ":") = Some s.
Proof.
  intros Hs. unfold between_colons. rewrite !length_app. change (length (bs ":")) with 1%nat.
  rewrite (proj2 (Nat.ltb_ge _ _)) by (destruct s; [done|cbn; lia]).
  rewrite (proj2 (HasPrefix_spec _ _)) by (by exists (s ++ bs ":")).
  rewrite (proj2 (HasSuffix_spec _ _)) by (exists (bs ":" ++ s); by rewrite app_assoc). cbn [negb orb]. f_equal.
  cbn [bs app drop]. rewrite drop_0. apply take_app_length'. lia.
Qed.

Lemma base64_Encode_nonempty enc s : s <> [] -> base64_Encode enc s <> [].
Proof. by destruct s as [|a [|b [|c s]]]. Qed.

Lemma signature_member_read signature : length signature = SignatureSize ->
  whole_item (bs ":" ++ base64_Encode base64_Std signature ++ bs ":")
  /\ directorySignatureBytes (bs ":" ++ base64_Encode base64_Std signature ++ bs ":") = Ok signature.
Proof.
  intros Hl. split; [split|].
  - rewrite (item_run_app (bs ":") _ _ _ false 0) by done.
    rewrite (item_run_app _ _ _ _ false 0) by (apply item_run_word, base64_word, base64_Std_known). done.
  - exists (bs ":" ++ base64_Encode base64_Std signature), ":"%char. by rewrite <- app_assoc.
  - unfold directorySignatureBytes. rewrite between_colons_app by (apply base64_Encode_nonempty; by intros ->).
    by rewrite (base64_roundtrip _ base64_Std_known), Hl.
Qed.

Lemma dictionary_sig1 member : whole_item member -> directoryDictionary (signatureLabel ++ bs "=" ++ member) = Ok [(signatureLabel, member)].
Proof. apply dictionary_one; [done|done|]. by intros Hin%Contains_spec. Qed.

Section Signing.
Context `{NetURL} `{NetIP} `{IDNA} `{Ed25519} `{!Ed25519Laws}.

Lemma attach_headers request agentValue parameters signature : exists h,
  req_Header (attach request agentValue parameters signature) = Some h
  /\ header_Get h (bs "Signature-Agent") = agentValue
  /\ header_Get h (bs "Signature-Input") = signatureLabel ++ bs "=" ++ parameters
  /\ header_Get h (bs "Signature") = signatureLabel ++ bs "=" ++ bs ":" ++ base64_Encode base64_Std signature ++ bs ":"
  /\ forall name, name ∉ signature_headers -> h !! name = default ∅ (req_Header request) !! name.
Proof.
  eexists. split; [reflexivity|]. split_and!.
  - by rewrite !header_Get_Set_ne, header_Get_Set by done.
  - by rewrite header_Get_Set_ne, header_Get_Set by done.
  - by rewrite header_Get_Set.
  - intros name. unfold signature_headers, header_Set. rewrite !not_elem_of_cons. intros (H1' & H2' & H3' & _).
    by rewrite !lookup_insert_ne by done.
Qed.

Lemma attach_verifies seed keyID authority created nonce request :
  length seed = SeedSize -> min_int64 <= created -> created + 60 <= max_int64 -> forallb word_byte keyID = true ->
  let parameters := signatureParameters created (created + 60) keyID (base64_Encode base64_Std nonce) in
  let signature := ed25519_Sign (NewKeyFromSeed seed) (signatureBase authority (quoted SignatureAgentURL) parameters) in
  exists h, req_Header (attach request (quoted SignatureAgentURL) parameters signature) = Some h
    /\ verifies (drop SeedSize (NewKeyFromSeed seed)) keyID authority created nonce h
    /\ forall name, name ∉ signature_headers -> h !! name = default ∅ (req_Header request) !! name.
Proof.
  intros Hseed Hmin Hmax Hkey parameters signature.
  assert (Hn : forallb word_byte (base64_Encode base64_Std nonce) = true) by (apply base64_word, base64_Std_known).
  assert (Hc : min_int64 <= created <= max_int64) by lia. assert (He : min_int64 <= created + 60 <= max_int64) by lia.
  destruct (parameters_read created (created + 60) keyID _ Hc He Hkey Hn) as (Hrc & Hre & Hrk & Hrn & Hra & Hrt).
  destruct (signature_member_read signature) as [Hwhole Hbytes]; [by apply Sign_length|].
  destruct (attach_headers request (quoted SignatureAgentURL) parameters signature) as (h & Hh & Hagent & Hinput & Hsig & Hrest).
  exists h. split_and!; [done| |done].
  exists parameters, (bs ":" ++ base64_Encode base64_Std signature ++ bs ":"), signature. fold parameters in Hrc, Hre, Hrk, Hrn, Hra, Hrt.
  split; try done; rewrite ?Hinput, ?Hsig, ?Hrc, ?Hre, ?Hrn.
  - by apply dictionary_sig1, whole_parameters.
  - by apply dictionary_sig1.
  - by apply Verify_Sign.
  - by apply ParseInt64_FormatInt.
  - by apply ParseInt64_FormatInt.
  - apply (base64_roundtrip _ base64_Std_known).
Qed.

(** The clock reads an instant after 1970 and before the year 2^61 / 31556952. *)
Definition clock_sane (now : Z) : Prop := unixToInternal * Second <= now < 2 ^ 61 * Second.

Lemma clock_sane_unix now : clock_sane now -> 0 <= time_Unix now < 2 ^ 61.
Proof. unfold clock_sane, time_Unix, unixToInternal, Second, Millisecond, Microsecond, Nanosecond. divlia. Qed.

(** What one call of [Sign] with the identity [i] leaves. *)
Definition signing_outcome {W} (rand_Reader : call W nat (res error bytes)) (time_Now : call W unit Z) (i : Identity)
    (request : http_Request) (w w' : W) (request' : option http_Request) (err : option error) : Prop :=
  match err with
  | Some e =>
      request' = Some request
      /\ ((e = errors_New ErrInvalidRequest /\ w' = w /\ is_ok (requestAuthority (Some request)) = false)
          \/ exists cause, rand_Reader w nonceSize = (w', Err cause) /\ e = join (errors_New ErrNonceGeneration) cause)
  | None =>
      exists authority w1 nonce now h,
        requestAuthority (Some request) = Ok authority /\ rand_Reader w nonceSize = (w1, Ok nonce) /\ time_Now w1 () = (w', now)
        /\ request' = Some (mkHTTPRequest (req_URL request) (req_Host request) (Some h))
        /\ verifies (identity_publicKey i) (identity_keyID i) authority (time_Unix now) nonce h
        /\ forall name, name ∉ signature_headers -> h !! name = default ∅ (req_Header request) !! name
  end.

Lemma signed_request_verifies_aux `{SHA256} `{!SHA256Laws} {W} (rand_Reader : call W nat (res error bytes)) (time_Now : call W unit Z)
    key i request w :
  (forall w w' now, time_Now w () = (w', now) -> clock_sane now) -> NewIdentity key = Ok i ->
  exists signer, identity_Signer rand_Reader time_Now (Some i) = Ok signer
    /\ forall w' request' err, signer_Sign (Some signer) (Some request) w = (w', (request', err)) ->
         signing_outcome rand_Reader time_Now i request w w' request' err.
Proof.
  intros Hclock (seed & Hl & -> & ->)%NewIdentity_seed. destruct (identity_of_ok seed Hl) as (_ & Hp & _ & _ & _ & _ & Hv).
  destruct (NewKeyFromSeed_seed seed Hl) as [Hk _]. unfold identity_Signer, NewSigner, newSigner. rewrite Hp, Hk, Hv. cbn [negb].
  eexists. split; [reflexivity|]. intros w' request' err. unfold signer_Sign. cbn [signer_nonce signer_now signer_keyID signer_privateKey].
  destruct (requestAuthority (Some request)) as [authority|e] eqn:Ha.
  - destruct (rand_Reader w nonceSize) as [w1 [nonce|e]] eqn:Hr.
    + destruct (time_Now w1 ()) as [w2 now] eqn:Ht. intros [= <- <- <-]. pose proof (clock_sane_unix now (Hclock _ _ _ Ht)) as Hs.
      change (signatureLifetime / Second) with 60. rewrite wrap_int64_id by (unfold min_int64, max_int64; lia).
      destruct (attach_verifies seed (identity_keyID (identity_of seed)) authority (time_Unix now) nonce request Hl) as (h & Hh & Hver & Hrest);
        [unfold min_int64; lia|unfold max_int64; lia|apply base64_word, base64_RawURL_known|].
      exists authority, w1, nonce, now, h. split_and!; try done. unfold attach in *. cbn [req_Header] in Hh. by simplify_eq.
    + intros [= <- <- <-]. split; [done|]. right. by exists e.
  - intros [= <- <- <-]. split; [done|]. left. split_and!; [|done|by rewrite Ha]. revert Ha. unfold requestAuthority.
    repeat case_match; congruence.
Qed.

(** C17: A request signed with an accepted identity: the headers, read back by
    the directory's own reader, hold one signature that verifies under the
    identity's public key over the request's authority and the signature
    agent, with the identity's key identifier, a window of one minute from the
    clock reading and the 32 fresh bytes as the nonce; the other headers are
    the request's. When the authority is invalid or no nonce can be read, the
    request is left as it was. *)
Theorem signed_request_verifies `{SHA256} `{!SHA256Laws} {W} (rand_Reader : call W nat (res error bytes)) (time_Now : call W unit Z)
    key i request w :
  (forall w w' now, time_Now w () = (w', now) -> clock_sane now) -> NewIdentity key = Ok i ->
  exists signer, identity_Signer rand_Reader time_Now (Some i) = Ok signer
    /\ forall w' request' err, signer_Sign (Some signer) (Some request) w = (w', (request', err)) ->
         signing_outcome rand_Reader time_Now i request w w' request' err.
Proof. apply signed_request_verifies_aux. Qed.
End Signing.
