(* ===== verification/SignatureDirectoryFacts.v ===== *)
(** * What a validated signature directory is

    The conditions a directory meets, stated without the order in which the
    program visits its signatures, and the proof that validation decides them. *)

From S2P Require Import Prelude GoText GoErrors GoTime GoJson GoEncoding JsonFields PublicData WebBotAuth WebBotAuthFacts.

#[local] Set Warnings "-clear-no-such-hyp".

(** ** Lifetimes *)

(** The window of a signature in seconds since 1970, at the instant [now]. *)
Definition within_window (now : Z) (item : bytes) : Prop :=
  exists created expires,
    ParseInt64 (directoryParameter item (bs "created")) = Some created
    /\ ParseInt64 (directoryParameter item (bs "expires")) = Some expires
    /\ created < expires <= created + 600
    /\ (created + unixToInternal - 60) * Second <= now <= (expires + unixToInternal + 60) * Second.

Lemma ParseInt64_range s v : ParseInt64 s = Some v -> min_int64 <= v <= max_int64.
Proof.
  unfold ParseInt64, ParseUint, min_int64, max_int64. intros Hv.
  assert (Hd : forall d, forallb is_digit d = true -> 0 <= decimal_value d) by (intros d Hs; by apply decimal_value_range in Hs as [? _]).
  repeat (case_match; simplify_eq); b2p; try (match goal with H : forallb is_digit ?d = true |- _ => specialize (Hd d H) end); lia.
Qed.

Lemma unix_time_cases sec : min_int64 <= sec <= max_int64 ->
  (sec + unixToInternal <= max_int64 /\ unix_time sec = (sec + unixToInternal) * Second)
  \/ (max_int64 < sec + unixToInternal /\ unix_time sec < 0).
Proof.
  unfold min_int64, max_int64, unix_time, wrap_int64, unixToInternal. intros Hs. change Second with 1000000000.
  destruct (Z.le_gt_cases (sec + 62135596800) (2 ^ 63 - 1)) as [Hle|Hgt]; [left|right]; split; try done.
  - rewrite Z.mod_small by lia. lia.
  - replace (sec + 62135596800 + 2 ^ 63) with (sec + 62135596800 - 2 ^ 63 + 1 * 2 ^ 64) by lia.
    rewrite Z_mod_plus_full, Z.mod_small by lia. lia.
Qed.

(** A timestamp so late that the instant wraps is refused as well. *)
Lemma lifetime_window now item : clock_sane now -> directorySignatureLifetime now item = None <-> within_window now item.
Proof.
  unfold clock_sane, directorySignatureLifetime, within_window, time_Before, time_After, time_Add, time_Sub.
  change directoryClockSkew with (60 * Second). change maxDirectoryLifetime with (600 * Second). intros Hnow.
  assert (HS : Second = 1000000000) by done.
  destruct (ParseInt64 (directoryParameter item (bs "created"))) as [created|] eqn:Hc; [|split; [done|by intros (? & ? & ? & _)]].
  destruct (ParseInt64 (directoryParameter item (bs "expires"))) as [expires|] eqn:He; [|split; [done|by intros (? & ? & ? & ? & _)]].
  pose proof (ParseInt64_range _ _ Hc) as Hcr. pose proof (ParseInt64_range _ _ He) as Her.
  destruct (Z.leb_spec expires created) as [Hle|Hlt].
  { split; [done|]. intros (c & e & [= <-] & [= <-] & Hw & _). lia. }
  unfold min_int64, max_int64 in *. unfold unixToInternal in *.
  destruct (unix_time_cases expires Her) as [[Hef Heu]|[Hef Heu]];
    destruct (unix_time_cases created Hcr) as [[Hcf Hcu]|[Hcf Hcu]]; unfold unixToInternal, max_int64, min_int64 in *; try lia.
  - rewrite Heu, Hcu. split.
    + destruct (_ || _ || _) eqn:Hg; [done|]. intros _. exists created, expires. rewrite !orb_false_iff, !Z.ltb_ge in Hg.
      split_and!; try done; lia.
    + intros (c & e & [= <-] & [= <-] & Hw & Hn). rewrite !(proj2 (Z.ltb_ge _ _)) by lia. done.
  - rewrite (proj2 (Z.ltb_lt (unix_time expires + 60 * Second) now)) by lia. rewrite orb_true_r. split; [done|].
    intros (c & e & [= <-] & [= <-] & Hw & Hn). lia.
  - rewrite (proj2 (Z.ltb_lt (unix_time expires + 60 * Second) now)) by lia. rewrite orb_true_r. split; [done|].
    intros (c & e & [= <-] & [= <-] & Hw & Hn). lia.
Qed.

(** ** Keys *)

Definition is_directory_error (e : error) : Prop := errors_Is e ErrInvalidDirectory = true.
Lemma invalid_directory_error : is_directory_error invalid_directory.
Proof. done. Qed.
Ltac refused := exact invalid_directory_error.

(** *** What a body has to say *)

(** The values of the members that a field takes: names match in any case. *)
Definition field_values (name : bytes) (members : list (bytes * raw)) : list raw :=
  map snd (List.filter (fun m => EqualFold (fst m) name) members).
Definition text_of (v : raw) : option bytes := match v with RawString s => Some s | _ => None end.

(** All of them are texts or null, and the last text is the field's value. *)
Definition texts (name : bytes) (members : list (bytes * raw)) : Prop :=
  Forall (fun v => v = RawNull \/ is_Some (text_of v)) (field_values name members).
Definition last_text (name : bytes) (members : list (bytes * raw)) : option bytes :=
  last (omap text_of (field_values name members)).

(** A JSON Web Key that publishes [key]: an object without the private member
    [d], for the curve Ed25519, whose [x] encodes 32 bytes. *)
Inductive jwk_of `{SHA256} : raw -> directoryKey -> Prop :=
| jwk_published members x key :
    bs "d" ∉ map fst members ->
    texts (bs "kty") members /\ texts (bs "crv") members /\ texts (bs "x") members ->
    last_text (bs "kty") members = Some (bs "OKP") -> last_text (bs "crv") members = Some (bs "Ed25519") ->
    last_text (bs "x") members = Some x ->
    base64_Decode base64_RawURL x = Some (key_publicKey key) -> length (key_publicKey key) = 32%nat ->
    key_id key = jwkThumbprint (mkPublicJWK (bs "Ed25519") (bs "OKP") x) ->
    jwk_of (RawObject members) key.

(** The document: an object of [keys] members only, the last of them the array
    of the keys. *)
Definition keys_document (v : raw) (raws : list raw) : Prop :=
  exists before name, v = RawObject (before ++ [(name, RawArray raws)])
    /\ Forall (fun m => EqualFold (fst m) (bs "keys") = true /\ (snd m = RawNull \/ exists l, snd m = RawArray l))
         (before ++ [(name, RawArray raws)]).

(** What follows the document: nothing but white space, or something that
    starts with a closing bracket, which the decoder does not report. *)
Definition nothing_more (rest : bytes) : Prop :=
  match skip_space rest with [] => True | c :: _ => c = "]"%char \/ c = "}"%char end.

(** A body that publishes [keys]: within 64 KiB, one or two keys, no two of the
    same thumbprint. *)
Definition key_set `{SHA256} (body : bytes) (keys : list directoryKey) : Prop :=
  0 < Z.of_nat (length body) <= 64 * 1024
  /\ exists v rest raws, json_DecodeRaw body = Some (v, rest) /\ nothing_more rest /\ keys_document v raws
     /\ (1 <= length raws <= 2)%nat /\ Forall2 jwk_of raws keys /\ NoDup (map key_id keys).

(** *** The parser decides it *)

(** The three field names begin with different letters. *)
Lemma EqualFold_first s w word : EqualFold s (w :: word) = true ->
  exists c rest, s = c :: rest /\ (to_lower c = to_lower w \/ to_lower w = "s"%char /\ c = chr 197 \/ to_lower w = "k"%char /\ c = chr 226).
Proof.
  destruct s as [|c rest]; [done|]. intros Hf. exists c, rest. split; [done|]. cbn [EqualFold] in Hf.
  destruct (byte_eqb_spec (to_lower c) (to_lower w)); [by left|].
  destruct (byte_eqb_spec (to_lower w) "s") as [->|].
  { cbn [andb] in Hf. destruct (HasPrefix (c :: rest) [chr 197; chr 191]) eqn:Hp.
    - apply HasPrefix_spec in Hp as [t [= -> _]]. right; left. done.
    - by destruct (byte_eqb_spec "s" "k"). }
  cbn [andb] in Hf. destruct (byte_eqb_spec (to_lower w) "k") as [->|]; [|done]. cbn [andb] in Hf.
  destruct (HasPrefix (c :: rest) [chr 226; chr 132; chr 170]) eqn:Hp; [|done].
  apply HasPrefix_spec in Hp as [t [= -> _]]. right; right. done.
Qed.

Lemma EqualFold_names s : 
  (EqualFold s (bs "kty") = true -> EqualFold s (bs "crv") = false /\ EqualFold s (bs "x") = false)
  /\ (EqualFold s (bs "crv") = true -> EqualFold s (bs "x") = false).
Proof.
  assert (Hdis : forall w word w' word', EqualFold s (w :: word) = true -> EqualFold s (w' :: word') = true ->
    exists c, (to_lower c = to_lower w \/ to_lower w = "s"%char /\ c = chr 197 \/ to_lower w = "k"%char /\ c = chr 226)
      /\ (to_lower c = to_lower w' \/ to_lower w' = "s"%char /\ c = chr 197 \/ to_lower w' = "k"%char /\ c = chr 226)).
  { intros w word w' word' (c & rest & -> & Hc)%EqualFold_first (c' & rest' & [= <- <-] & Hc')%EqualFold_first. by exists c. }
  assert (Hk : to_lower (chr 226) = chr 226) by (by vm_compute).
  split; [intros Hkty; split|intros Hcrv]; apply not_true_is_false; intros Hother;
    [destruct (Hdis _ _ _ _ Hkty Hother) as (c & H1 & H2)|destruct (Hdis _ _ _ _ Hkty Hother) as (c & H1 & H2)
    |destruct (Hdis _ _ _ _ Hcrv Hother) as (c & H1 & H2)];
    change (to_lower "k") with "k"%char in *; change (to_lower "c") with "c"%char in *; change (to_lower "x") with "x"%char in *;
    destruct H1 as [H1|[[? ?]|[? H1]]], H2 as [H2|[[? ?]|[? H2]]]; subst; try done; try congruence; by rewrite Hk in *.
Qed.

Lemma field_values_cons name n v members :
  field_values name ((n, v) :: members) = if EqualFold n name then v :: field_values name members else field_values name members.
Proof. unfold field_values. cbn [List.filter map fst]. by destruct (EqualFold n name). Qed.

Definition text_or (name : bytes) (members : list (bytes * raw)) (d : bytes) : bytes := default d (last_text name members).

Lemma text_or_cons name n v members d :
  text_or name ((n, v) :: members) d
  = if EqualFold n name then text_or name members (default d (text_of v)) else text_or name members d.
Proof.
  unfold text_or, last_text. rewrite field_values_cons. destruct (EqualFold n name); [|done]. cbn [omap list_omap].
  destruct (text_of v) as [s|]; cbn [default]; [|done]. rewrite last_cons. by destruct (last _).
Qed.

Lemma texts_cons name n v members :
  texts name ((n, v) :: members) <-> (EqualFold n name = true -> v = RawNull \/ is_Some (text_of v)) /\ texts name members.
Proof.
  unfold texts. rewrite field_values_cons. destruct (EqualFold n name); [rewrite Forall_cons; tauto|]. split; [done|tauto].
Qed.

Definition all_texts (members : list (bytes * raw)) : Prop :=
  texts (bs "kty") members /\ texts (bs "crv") members /\ texts (bs "x") members.

(** A member that fits leaves the rest to be assigned over it. *)
Lemma assign_jwk_spec members parsed :
  match assign_jwk members parsed with
  | Some j => all_texts members
      /\ j = mkPublicJWK (text_or (bs "crv") members (jwk_Crv parsed)) (text_or (bs "kty") members (jwk_Kty parsed))
               (text_or (bs "x") members (jwk_X parsed))
  | None => ~ all_texts members
  end.
Proof.
  revert parsed. induction members as [|[n v] members IH]; intros parsed; cbn [assign_jwk].
  { split; [by split_and!; apply Forall_nil|]. by destruct parsed. }
  destruct (EqualFold_names n) as [Hkty Hcrv].
  assert (Hcons : all_texts ((n, v) :: members)
    <-> (EqualFold n (bs "kty") || EqualFold n (bs "crv") || EqualFold n (bs "x") = true -> v = RawNull \/ is_Some (text_of v))
        /\ all_texts members).
  { unfold all_texts. rewrite !texts_cons, !orb_true_iff. tauto. }
  assert (Hgo : forall q, (EqualFold n (bs "kty") || EqualFold n (bs "crv") || EqualFold n (bs "x") = true ->
      v = RawNull \/ is_Some (text_of v)) ->
    jwk_Kty q = (if EqualFold n (bs "kty") then default (jwk_Kty parsed) (text_of v) else jwk_Kty parsed) ->
    jwk_Crv q = (if EqualFold n (bs "crv") then default (jwk_Crv parsed) (text_of v) else jwk_Crv parsed) ->
    jwk_X q = (if EqualFold n (bs "x") then default (jwk_X parsed) (text_of v) else jwk_X parsed) ->
    match assign_jwk members q with
    | Some j => all_texts ((n, v) :: members)
        /\ j = mkPublicJWK (text_or (bs "crv") ((n, v) :: members) (jwk_Crv parsed)) (text_or (bs "kty") ((n, v) :: members) (jwk_Kty parsed))
                 (text_or (bs "x") ((n, v) :: members) (jwk_X parsed))
    | None => ~ all_texts ((n, v) :: members)
    end).
  { intros q Hv Hk Hc Hx. specialize (IH q). destruct (assign_jwk members q) as [j|]; [|by rewrite Hcons; intros [_ ?]].
    destruct IH as [Hall ->]. rewrite Hcons. split; [done|]. rewrite !text_or_cons, Hk, Hc, Hx. by repeat case_match. }
  assert (Hbad : ~ (v = RawNull \/ is_Some (text_of v)) -> EqualFold n (bs "kty") || EqualFold n (bs "crv") || EqualFold n (bs "x") = true ->
    ~ all_texts ((n, v) :: members)) by (rewrite Hcons; tauto).
  destruct (EqualFold n (bs "kty")) eqn:Ek; [destruct Hkty as [Ec Ex]; [done|]; rewrite ?Ec, ?Ex in *|
    destruct (EqualFold n (bs "crv")) eqn:Ec; [pose proof (Hcrv eq_refl) as Ex; rewrite ?Ex in *|destruct (EqualFold n (bs "x")) eqn:Ex]].
  4:{ apply Hgo; done. }
  all: destruct v; first [apply Hgo; [intros _; first [by left|right; by eexists]|done..]|apply Hbad; [|done]; intros [?|[? ?]]; done].
Qed.

Section Keys.
Context `{SHA256}.

Lemma text_value_iff name members s : s <> [] -> last_text name members = Some s <-> text_or name members [] = s.
Proof. unfold text_or. destruct (last_text name members); cbn; naive_solver. Qed.

Lemma parseDirectoryKey_spec v :
  match parseDirectoryKey v with Ok key => jwk_of v key | Err e => is_directory_error e /\ forall key, ~ jwk_of v key end.
Proof.
  unfold parseDirectoryKey. destruct (decode_fields v) as [fields|] eqn:Hf.
  2:{ split; [refused|]. intros key Hk. by destruct Hk. }
  destruct (existsb (fun f => bytes_eqb (fst f) (bs "d")) fields) eqn:Hd.
  { split; [refused|]. intros key Hk. destruct Hk as [members x key Hp _ _ _ _ _ _ _]. injection Hf as <-. apply Hp.
    apply existsb_exists in Hd as (m & Hm & He). destruct (bytes_eqb_spec (fst m) (bs "d")) as [<-|]; [|done].
    apply list_elem_of_In, in_map_iff. by exists m. }
  destruct v as [| | | | |members]; try done; [split; [refused|]; intros key Hk; by inversion Hk|]. injection Hf as <-.
  cbn [decode_jwk]. pose proof (assign_jwk_spec members zero_jwk) as Ha. destruct (assign_jwk members zero_jwk) as [j|].
  2:{ split; [refused|]. intros key Hk. inversion Hk; subst. done. }
  destruct Ha as [Ht ->]. cbn [jwk_Kty jwk_Crv jwk_X zero_jwk].
  assert (Hno : forall key, jwk_of (RawObject members) key -> text_or (bs "kty") members [] = bs "OKP"
    /\ text_or (bs "crv") members [] = bs "Ed25519"
    /\ base64_Decode base64_RawURL (text_or (bs "x") members []) = Some (key_publicKey key)
    /\ length (key_publicKey key) = PublicKeySize).
  { intros key Hk. inversion Hk; subst. unfold text_or. repeat match goal with Hl : last_text _ _ = _ |- _ => rewrite Hl; clear Hl end. done. }
  destruct (bytes_eqb_spec (text_or (bs "kty") members []) (bs "OKP")) as [Hkty|]; cbn [negb orb];
    [|split; [refused|]; intros key Hk; by destruct (Hno key Hk)].
  destruct (bytes_eqb_spec (text_or (bs "crv") members []) (bs "Ed25519")) as [Hcrv|]; cbn [negb orb];
    [|split; [refused|]; intros key Hk; by destruct (Hno key Hk) as (_ & ? & _)].
  destruct (bytes_eqb_spec (text_or (bs "x") members []) []) as [Hx|Hx].
  { split; [refused|]. intros key Hk. destruct (Hno key Hk) as (_ & _ & Hdec & Hlen). rewrite Hx in Hdec.
    rewrite (eq_refl : base64_Decode base64_RawURL [] = Some []) in Hdec. injection Hdec as Hdec. by rewrite <- Hdec in Hlen. }
  destruct (base64_Decode base64_RawURL (text_or (bs "x") members [])) as [public|] eqn:Hdec;
    [|split; [refused|]; intros key Hk; by destruct (Hno key Hk) as (_ & _ & ? & _)].
  destruct (Nat.eqb_spec (length public) PublicKeySize) as [Hlen|Hlen]; cbn [negb].
  2:{ split; [refused|]. intros key Hk. destruct (Hno key Hk) as (_ & _ & [= ->] & ?). done. }
  assert (Hkt : last_text (bs "kty") members = Some (bs "OKP")) by (by apply text_value_iff).
  assert (Hct : last_text (bs "crv") members = Some (bs "Ed25519")) by (by apply text_value_iff).
  assert (Hxt : last_text (bs "x") members = Some (text_or (bs "x") members [])) by (by apply text_value_iff).
  apply (jwk_published members (text_or (bs "x") members [])); try done; [|by rewrite Hkty, Hcrv].
  intros Hin. apply list_elem_of_In, in_map_iff in Hin as (m & Hm & Hin). apply not_true_iff_false in Hd. apply Hd.
  apply existsb_exists. exists m. split; [done|]. by rewrite Hm.
Qed.

Lemma jwk_of_inj v key key' : jwk_of v key -> jwk_of v key' -> key = key'.
Proof.
  intros Hk Hk'. inversion Hk; subst. inversion Hk'; subst. simplify_eq. destruct key, key'. cbn in *. congruence.
Qed.

Lemma collect_keys_spec raws seen :
  match collect_keys raws seen with
  | Ok keys => Forall2 jwk_of raws keys /\ NoDup (map key_id keys) /\ forall id, id ∈ map key_id keys -> id ∉ seen
  | Err e => is_directory_error e
      /\ forall keys, Forall2 jwk_of raws keys -> NoDup (map key_id keys) -> exists id, id ∈ map key_id keys /\ id ∈ seen
  end.
Proof.
  revert seen. induction raws as [|v raws IH]; intros seen; cbn [collect_keys].
  { split_and!; [constructor|constructor|]. intros id Hid. by apply elem_of_nil in Hid. }
  pose proof (parseDirectoryKey_spec v) as Hk. destruct (parseDirectoryKey v) as [key|e]; cbn [res_bind].
  2:{ destruct Hk as [He Hno]. split; [done|]. intros keys Hall. inversion Hall; subst. by destruct (Hno y). }
  case_bool_decide as Hs.
  { split; [refused|]. intros keys Hall Hn. inversion Hall; subst. exists (key_id y). rewrite (jwk_of_inj v y key); [|done..].
    split; [by left|done]. }
  specialize (IH (key_id key :: seen)). destruct (collect_keys raws _) as [keys|e]; cbn [res_bind].
  - destruct IH as (Hf & Hn & Hd). cbn [map]. split_and!; [by constructor| |].
    + constructor; [|done]. intros Hin. apply (Hd _ Hin). by left.
    + intros id Hin. apply elem_of_cons in Hin as [->|Hin]; [done|]. intros Hs'. apply (Hd _ Hin). by right.
  - destruct IH as [He Hno]. split; [done|]. intros keys Hall Hn. inversion Hall as [|v' y raws' keys' Hy Htl]; subst.
    cbn [map] in *. apply NoDup_cons in Hn as [Hnot Hn]. destruct (Hno keys' Htl Hn) as (id & Hid & Hseen).
    assert (y = key) as -> by (by eapply jwk_of_inj). apply elem_of_cons in Hseen as [->|Hseen]; [done|].
    exists id. split; [by right|done].
Qed.

Definition keys_member (m : bytes * raw) : Prop :=
  EqualFold (fst m) (bs "keys") = true /\ (snd m = RawNull \/ exists l, snd m = RawArray l).

Lemma document_keys_spec members keys :
  match document_keys members keys with
  | Some raws => Forall keys_member members
      /\ raws = match last members with Some (_, RawArray l) => l | Some _ => [] | None => keys end
  | None => ~ Forall keys_member members
  end.
Proof.
  revert keys. induction members as [|[n v] members IH]; intros keys; cbn [document_keys]; [by split; [apply Forall_nil|]|].
  destruct (EqualFold n (bs "keys")) eqn:Hn.
  2:{ intros Hall. apply Forall_cons in Hall as [[He _] _]. cbn [fst] in He. by rewrite Hn in He. }
  assert (Hgo : forall l, v = RawNull /\ l = [] \/ v = RawArray l ->
    match document_keys members l with
    | Some raws => Forall keys_member ((n, v) :: members)
        /\ raws = match last ((n, v) :: members) with Some (_, RawArray l) => l | Some _ => [] | None => keys end
    | None => ~ Forall keys_member ((n, v) :: members)
    end).
  { intros l Hv. specialize (IH l). rewrite last_cons. destruct (document_keys members l) as [raws|].
    - destruct IH as [Hall ->]. split.
      + constructor; [|done]. split; [done|]. destruct Hv as [[-> _]| ->]; [by left|right; by eexists].
      + destruct (last members) as [[n' v']|]; [done|]. by destruct Hv as [[-> ->]| ->].
    - intros Hall. apply Forall_cons in Hall as [_ Hall]. done. }
  destruct v; try (apply Hgo; by auto); intros Hall; apply Forall_cons in Hall as [[_ [?|[? ?]]] _]; done.
Qed.

Lemma decode_document_spec v raws : raws <> [] -> decode_document v = Some raws <-> keys_document v raws.
Proof.
  intros Hne. unfold decode_document, keys_document. split.
  - destruct v as [| | | | |members]; try done; [congruence|]. pose proof (document_keys_spec members []) as Hd.
    destruct (document_keys members []) as [raws'|]; [|done]. destruct Hd as [Hall Hl]. intros [= <-].
    destruct members as [|m before _] using rev_ind; [done|]. rewrite last_snoc in Hl. destruct m as [n v].
    destruct v; try done. subst. by exists before, n.
  - intros (before & n & -> & Hall). pose proof (document_keys_spec (before ++ [(n, RawArray raws)]) []) as Hd.
    destruct (document_keys _ []) as [raws'|]; [|done]. destruct Hd as [_ Hl]. rewrite last_snoc in Hl. by subst.
Qed.

Lemma one_or_two_ne {A} (l : list A) : (1 <= length l <= 2)%nat -> l <> [].
Proof. intros Hl ->. cbn in Hl. lia. Qed.

Lemma json_More_spec rest : json_More rest = false <-> nothing_more rest.
Proof.
  unfold json_More, nothing_more. destruct (skip_space rest) as [|c t]; [done|].
  destruct (byte_eqb_spec c "]"), (byte_eqb_spec c "}"); naive_solver.
Qed.

Lemma parseDirectoryKeys_spec body :
  match parseDirectoryKeys body with
  | Ok keys => key_set body keys
  | Err e => is_directory_error e /\ forall keys, ~ key_set body keys
  end.
Proof.
  unfold parseDirectoryKeys, key_set. destruct (_ || (MaxDirectoryBodySize <? _)) eqn:Hsize.
  { split; [refused|]. intros keys [Hl _]. unfold MaxDirectoryBodySize in Hsize. lia. }
  assert (Hl : 0 < Z.of_nat (length body) <= 64 * 1024) by (unfold MaxDirectoryBodySize in Hsize; lia).
  destruct (json_DecodeRaw body) as [[v rest]|] eqn:Hdec; [|split; [done|]; intros keys (_ & v & rest & raws & [=] & _)].
  assert (Hfind : forall keys, (exists v' rest' raws, Some (v, rest) = Some (v', rest') /\ nothing_more rest' /\ keys_document v' raws
     /\ (1 <= length raws <= 2)%nat /\ Forall2 jwk_of raws keys /\ NoDup (map key_id keys)) ->
    exists raws, decode_document v = Some raws /\ json_More rest = false /\ (1 <= length raws <= 2)%nat
      /\ Forall2 jwk_of raws keys /\ NoDup (map key_id keys)).
  { intros keys (v' & rest' & raws & [= <- <-] & Hm & Hdoc & Hlen & Hf & Hn). exists raws.
    split_and!; try done; try lia; [|by apply json_More_spec]. apply decode_document_spec; [|done]. by apply one_or_two_ne. }
  destruct (decode_document v) as [raws|] eqn:Hdoc; [|split; [done|]; by intros keys [_ (raws & ? & _)%Hfind]].
  destruct (json_More rest) eqn:Hm; [split; [refused|]; by intros keys [_ (raws' & _ & ? & _)%Hfind]|].
  destruct ((length raws =? 0)%nat || (maxDirectoryKeys <? length raws)%nat) eqn:Hc.
  { split; [refused|]. intros keys [_ (raws' & [= <-] & _ & Hlen & _)%Hfind]. unfold maxDirectoryKeys in Hc.
    apply orb_true_iff in Hc as [Hc%Nat.eqb_eq|Hc%Nat.ltb_lt]; lia. }
  assert (Hlen : (1 <= length raws <= 2)%nat)
    by (unfold maxDirectoryKeys in Hc; apply orb_false_iff in Hc as [?%Nat.eqb_neq ?%Nat.ltb_ge]; lia).
  pose proof (collect_keys_spec raws []) as Hk. destruct (collect_keys raws []) as [keys|e].
  - destruct Hk as (Hf & Hn & _). split; [done|]. exists v, rest, raws. split_and!; try done; try lia; [by apply json_More_spec|].
    apply decode_document_spec; [|done]. by apply one_or_two_ne.
  - destruct Hk as [He Hno]. split; [done|]. intros keys [_ (raws' & [= <-] & _ & _ & Hf & Hn)%Hfind].
    destruct (Hno keys Hf Hn) as (id & _ & Hid). by apply elem_of_nil in Hid.
Qed.

Lemma key_set_inj body keys keys' : key_set body keys -> key_set body keys' -> keys = keys'.
Proof.
  intros [_ (v & rest & raws & Hd & _ & Hdoc & Hlen & Hf & _)] [_ (v' & rest' & raws' & Hd' & _ & Hdoc' & Hlen' & Hf' & _)].
  rewrite Hd in Hd'. injection Hd' as <- <-.
  assert (raws' = raws) as ->.
  { apply decode_document_spec in Hdoc, Hdoc'; [congruence|by apply one_or_two_ne|by apply one_or_two_ne..]. }
  clear -Hf Hf'. revert keys' Hf'. induction Hf as [|v key raws keys Hk _ IH]; intros keys' Hf'; inversion Hf'; subst; [done|].
  f_equal; [by eapply jwk_of_inj|by apply IH].
Qed.
End Keys.

(** ** Dictionaries *)

Lemma collect_members_error items d e : collect_members items d = Err e -> e = invalid_directory.
Proof.
  revert d. induction items as [|item items IH]; intros d; cbn [collect_members]; [done|].
  destruct (Cut item "=") as [[label member] ok]. repeat case_match; intros; simplify_eq; eauto.
Qed.
Lemma directoryDictionary_error value e : directoryDictionary value = Err e -> e = invalid_directory.
Proof. unfold directoryDictionary. case_match; [apply collect_members_error|congruence]. Qed.

Lemma between_colons_spec value e : between_colons value = Some e -> value = bs ":" ++ e ++ bs ":".
Proof.
  unfold between_colons. destruct ((length value <? 3)%nat || _ || _) eqn:Hg; [done|]. intros [= <-].
  rewrite !orb_false_iff, !negb_false_iff in Hg. destruct Hg as [[Hl [t ->]%HasPrefix_spec] [u Hu]%HasSuffix_spec].
  apply Nat.ltb_ge in Hl. rewrite !length_app in *. cbn [bs app length drop] in *. rewrite drop_0.
  destruct u as [|c u]; [injection Hu as ->; cbn in Hl; lia|]. cbn [app] in Hu. injection Hu as <- ->.
  rewrite length_app. cbn [length]. rewrite take_app_length' by lia. done.
Qed.

(** The digest header names the SHA-256 of the body. *)
Definition digest_of `{SHA256} (value body : bytes) : Prop :=
  exists d encoded, directoryDictionary value = Ok d /\ encoded <> []
    /\ dictionary_get (bs "sha-256") d = Some (bs ":" ++ encoded ++ bs ":") /\ base64_Decode base64_Std encoded = Some (sha256_Sum256 body).

Lemma between_colons_nonempty value e : between_colons value = Some e -> e <> [].
Proof.
  intros Hv. pose proof (between_colons_spec _ _ Hv) as ->. intros ->. done.
Qed.

Lemma directoryContentDigest_spec `{SHA256} value body :
  match directoryContentDigest value body with None => digest_of value body | Some e => is_directory_error e /\ ~ digest_of value body end.
Proof.
  unfold directoryContentDigest, digest_of. destruct (directoryDictionary value) as [d|e]; [|split; [refused|by intros (? & ? & ? & _)]].
  destruct (dictionary_get (bs "sha-256") d) as [member|] eqn:Hm; [|split; [refused|]; intros (d' & e & [= <-] & _ & Hm' & _); congruence].
  destruct (between_colons member) as [encoded|] eqn:Hb.
  - pose proof (between_colons_nonempty _ _ Hb) as Hne. pose proof (between_colons_spec _ _ Hb) as ->.
    assert (Hinj : forall e, bs ":" ++ encoded ++ bs ":" = bs ":" ++ e ++ bs ":" -> e = encoded).
    { intros e [= He]. by apply app_inv_tail in He. }
    destruct (base64_Decode base64_Std encoded) as [digest|] eqn:Hd.
    + destruct (bytes_eqb_spec digest (sha256_Sum256 body)) as [->|Hno]; cbn [negb]; [by exists d, encoded|].
      split; [refused|]. intros (d' & e & [= <-] & _ & Hm' & Hd'). rewrite Hm in Hm'. apply (inj Some), Hinj in Hm' as ->. congruence.
    + split; [refused|]. intros (d' & e & [= <-] & _ & Hm' & Hd'). rewrite Hm in Hm'. apply (inj Some), Hinj in Hm' as ->. congruence.
  - split; [refused|]. intros (d' & e & [= <-] & Hne & Hm' & Hd'). rewrite Hm in Hm'. apply (inj Some) in Hm' as ->.
    by rewrite between_colons_app in Hb.
Qed.

(** ** Signatures *)

Definition input_id (m : bytes * bytes) : bytes := directoryKeyID (snd m).

(** The signature [m] of the dictionary of inputs is one of [key] for this
    response. *)
Record key_signed `{Ed25519} (now : Z) (authority digest : bytes) (inputs signatures : dictionary) (key : directoryKey) (m : bytes * bytes) : Prop := {
  ks_input : m ∈ inputs;
  ks_keyID : input_id m = key_id key;
  ks_covers : snd m = directoryCovered \/ exists t, snd m = directoryCovered ++ bs ";" ++ t;
  ks_algorithm : directoryParameter (snd m) (bs "alg") = bs "ed25519";
  ks_tag : directoryParameter (snd m) (bs "tag") = directorySignatureTag;
  ks_window : within_window now (snd m);
  ks_verified : exists encoded signature, dictionary_get (fst m) signatures = Some encoded
    /\ directorySignatureBytes encoded = Ok signature
    /\ ed25519_Verify (key_publicKey key) (directorySignatureBase authority digest (snd m)) signature = true;
}.

Lemma directoryInputAccepts_spec item : directoryInputAccepts item = true <->
  (item = directoryCovered \/ exists t, item = directoryCovered ++ bs ";" ++ t)
  /\ directoryParameter item (bs "alg") = bs "ed25519" /\ directoryParameter item (bs "tag") = directorySignatureTag.
Proof.
  unfold directoryInputAccepts.
  assert (Hp : HasPrefix item (directoryCovered ++ bs ";") = true <-> exists t, item = directoryCovered ++ bs ";" ++ t).
  { rewrite HasPrefix_spec. split; intros [t ->]; exists t; by rewrite app_assoc. }
  assert (Hc : negb (bytes_eqb item directoryCovered) && negb (HasPrefix item (directoryCovered ++ bs ";")) = false
    <-> item = directoryCovered \/ exists t, item = directoryCovered ++ bs ";" ++ t).
  { rewrite <- Hp, andb_false_iff, !negb_false_iff. by destruct (bytes_eqb_spec item directoryCovered); intuition. }
  rewrite <- Hc. destruct (negb (bytes_eqb item directoryCovered) && _); [intuition congruence|]. rewrite andb_true_iff.
  destruct (bytes_eqb_spec (directoryParameter item (bs "alg")) (bs "ed25519")), (bytes_eqb_spec (directoryParameter item (bs "tag")) directorySignatureTag);
    intuition congruence.
Qed.

Lemma directorySignatureBytes_error value e : directorySignatureBytes value = Err e -> e = invalid_directory.
Proof. unfold directorySignatureBytes. repeat case_match; congruence. Qed.
Lemma directorySignatureLifetime_error now item e : directorySignatureLifetime now item = Some e -> e = invalid_directory.
Proof. unfold directorySignatureLifetime. repeat case_match; congruence. Qed.

(** With as many inputs as keys, no two inputs name the same key. *)
Lemma inputs_unique (inputs : dictionary) (keys : list directoryKey) : length inputs = length keys -> NoDup (map key_id keys) ->
  (forall key, key ∈ keys -> exists m, m ∈ inputs /\ input_id m = key_id key) ->
  map key_id keys ≡ₚ map input_id inputs /\ NoDup (map input_id inputs).
Proof.
  intros Hl Hn Hk. assert (Hp : map key_id keys ≡ₚ map input_id inputs); [|split; [done|by rewrite <- Hp]].
  apply submseteq_length_Permutation; [|rewrite !length_map; lia].
  apply NoDup_submseteq; [done|]. intros id Hid. apply list_elem_of_fmap in Hid as (key & -> & Hkey).
  destruct (Hk key Hkey) as (m & Hm & He). rewrite <- He. by apply list_elem_of_fmap_2.
Qed.

(** So the order of the inputs does not matter. *)
Lemma input_found order (inputs : dictionary) id m : order ≡ₚ inputs -> NoDup (map input_id inputs) -> m ∈ inputs -> input_id m = id ->
  directoryInputAccepts (snd m) = true -> directoryInputForKey order id = Some m.
Proof.
  intros Ho Hn Hm Hid Hacc. rewrite <- Ho in Hm. unfold directoryInputForKey.
  destruct (List.find _ order) as [m'|] eqn:Hf.
  - apply find_some in Hf as [Hin Hm']. rewrite andb_true_iff in Hm'. destruct Hm' as [He _].
    destruct (bytes_eqb_spec (directoryKeyID (snd m')) id) as [He'|]; [|done]. f_equal.
    rewrite <- list_elem_of_In in Hin. apply list_elem_of_lookup in Hin as [i Hi], Hm as [j Hj].
    assert (Hno : NoDup (map input_id order)) by (by rewrite Ho).
    assert (i = j) as ->; [|congruence].
    apply (NoDup_lookup _ _ _ id Hno); rewrite list_lookup_fmap; [rewrite Hi|rewrite Hj]; cbn; by f_equal.
  - apply (find_none _ _ Hf) in Hm as Hno || (rewrite list_elem_of_In in Hm; pose proof (find_none _ _ Hf m Hm) as Hno).
    cbn beta in Hno. rewrite Hacc, andb_true_r in Hno. destruct (bytes_eqb_spec (directoryKeyID (snd m)) id); done.
Qed.

Section Directory.
Context `{SHA256} `{Ed25519}.
Variable map_order : bytes -> dictionary -> dictionary.
Hypothesis map_order_perm : forall id d, map_order id d ≡ₚ d.
Variables (now : Z) (authority digest : bytes).
Hypothesis now_sane : clock_sane now.

Lemma verify_key_signed inputs signatures key : verify_key map_order now authority digest inputs signatures key = None ->
  exists m, key_signed now authority digest inputs signatures key m.
Proof.
  unfold verify_key. destruct (directoryInputForKey _ _) as [[label item]|] eqn:Hf; [|done].
  unfold directoryInputForKey in Hf. apply find_some in Hf as [Hin Hm]. rewrite andb_true_iff in Hm. destruct Hm as [Hid Hacc].
  destruct (bytes_eqb_spec (directoryKeyID (snd (label, item))) (key_id key)) as [He|]; [|done].
  apply directoryInputAccepts_spec in Hacc as (Hc & Ha & Ht).
  destruct (dictionary_get label signatures) as [encoded|] eqn:Hs; [|done].
  destruct (directorySignatureBytes encoded) as [signature|] eqn:Hb; [|done].
  destruct (directorySignatureLifetime now item) eqn:Hl; [done|]. apply lifetime_window in Hl; [|done].
  destruct (ed25519_Verify _ _ signature) eqn:Hv; [|done]. intros _. exists (label, item). split; try done; [|by exists encoded, signature].
  by rewrite <- list_elem_of_In, map_order_perm in Hin.
Qed.

Lemma signed_verify_key inputs signatures key m : NoDup (map input_id inputs) ->
  key_signed now authority digest inputs signatures key m -> verify_key map_order now authority digest inputs signatures key = None.
Proof.
  intros Hn [Hin Hid Hc Ha Ht Hw (encoded & signature & Hs & Hb & Hv)]. destruct m as [label item]. cbn [fst snd] in *. unfold verify_key.
  rewrite (input_found _ inputs (key_id key) (label, item)); try done; [|by apply directoryInputAccepts_spec].
  rewrite Hs, Hb, (proj2 (lifetime_window now item now_sane) Hw), Hv. done.
Qed.

Lemma verify_keys_None inputs signatures keys : verify_keys map_order now authority digest inputs signatures keys = None
  <-> Forall (fun key => verify_key map_order now authority digest inputs signatures key = None) keys.
Proof.
  induction keys as [|key keys IH]; cbn [verify_keys]; [by split|]. rewrite Forall_cons.
  destruct (verify_key _ _ _ _ _ _ key); [intuition congruence|]. rewrite IH. intuition.
Qed.

Lemma verify_keys_error inputs signatures keys e : verify_keys map_order now authority digest inputs signatures keys = Some e -> e = invalid_directory.
Proof.
  induction keys as [|key keys IH]; cbn [verify_keys]; [done|]. unfold verify_key.
  repeat case_match; intros; simplify_eq; eauto using directorySignatureBytes_error, directorySignatureLifetime_error.
Qed.
End Directory.

(** ** The directory *)

(** Each key has a signature, there are as many inputs and signatures as keys. *)
Definition all_signed `{Ed25519} (now : Z) (authority digest : bytes) (keys : list directoryKey) (h : header) : Prop :=
  authority <> [] /\ digest <> []
  /\ exists inputs signatures, directoryDictionary (header_Get h (bs "Signature-Input")) = Ok inputs
     /\ directoryDictionary (header_Get h (bs "Signature")) = Ok signatures
     /\ length inputs = length keys /\ length signatures = length keys
     /\ Forall (fun key => exists m, key_signed now authority digest inputs signatures key m) keys.

(** The response publishes [keys]. *)
Definition published `{SHA256} `{Ed25519} (now : Z) (authority : bytes) (status : Z) (h : option header) (body : bytes)
    (keys : list directoryKey) : Prop :=
  exists header, h = Some header /\ status = 200
    /\ (";"%char ∉ TrimSpace (header_Get header (bs "Content-Type")))
    /\ EqualFold (TrimSpace (header_Get header (bs "Content-Type"))) DirectoryContentType = true
    /\ key_set body keys
    /\ digest_of (header_Get header (bs "Content-Digest")) body
    /\ all_signed now authority (header_Get header (bs "Content-Digest")) keys header.

Definition directory_state (keys : list directoryKey) : bytes :=
  match keys with [_; _] => DirectoryStateRotationOverlap | _ => DirectoryStateSingleKey end.

Lemma content_type_spec h :
  match directoryContentType h with
  | None => exists header, h = Some header /\ (";"%char ∉ TrimSpace (header_Get header (bs "Content-Type")))
      /\ EqualFold (TrimSpace (header_Get header (bs "Content-Type"))) DirectoryContentType = true
  | Some e => is_directory_error e /\ forall header, h = Some header -> (";"%char ∉ TrimSpace (header_Get header (bs "Content-Type"))) ->
      EqualFold (TrimSpace (header_Get header (bs "Content-Type"))) DirectoryContentType = false
  end.
Proof.
  unfold directoryContentType. destruct h as [header|]; [|by split].
  pose proof (Contains_spec (TrimSpace (header_Get header (bs "Content-Type"))) ";") as Hc. destruct (Contains _ ";"); cbn [orb].
  - split; [done|]. intros header' [= <-] Hno. exfalso. by apply Hno, Hc.
  - destruct (EqualFold _ DirectoryContentType) eqn:He; cbn [negb].
    + exists header. split_and!; [done| |done]. intros Hin%Hc. done.
    + split; [done|]. by intros ? [= <-].
Qed.

Section Validation.
Context `{SHA256} `{Ed25519}.
Variable map_order : bytes -> dictionary -> dictionary.
Hypothesis map_order_perm : forall id d, map_order id d ≡ₚ d.
Variables (now : Z) (authority : bytes).
Hypothesis now_sane : clock_sane now.

Lemma signatures_verified digest keys h : NoDup (map key_id keys) ->
  match verifyDirectorySignatures map_order now authority digest keys h with
  | None => all_signed now authority digest keys h
  | Some e => is_directory_error e /\ ~ all_signed now authority digest keys h
  end.
Proof.
  intros Hn. unfold verifyDirectorySignatures, all_signed.
  destruct (bytes_eqb_spec authority []) as [->|Ha]; [split; [done|by intros (? & _)]|].
  destruct (bytes_eqb_spec digest []) as [->|Hd]; [split; [done|by intros (_ & ? & _)]|]. cbn [orb].
  destruct (directoryDictionary (header_Get h (bs "Signature-Input"))) as [inputs|e] eqn:Hi;
    [|apply directoryDictionary_error in Hi as ->; split; [done|by intros (_ & _ & ? & ? & ? & _)]].
  destruct (directoryDictionary (header_Get h (bs "Signature"))) as [signatures|e] eqn:Hs;
    [|apply directoryDictionary_error in Hs as ->; split; [done|by intros (_ & _ & ? & ? & _ & ? & _)]].
  destruct (Nat.eqb_spec (length inputs) (length signatures)) as [Hl1|Hl1]; cbn [negb orb];
    [|split; [done|]; intros (_ & _ & ? & ? & [= <-] & [= <-] & ? & ? & _); congruence].
  destruct (Nat.eqb_spec (length inputs) (length keys)) as [Hl2|Hl2]; cbn [negb];
    [|split; [done|]; intros (_ & _ & ? & ? & [= <-] & [= <-] & ? & ? & _); congruence].
  destruct (verify_keys map_order now authority digest inputs signatures keys) as [e|] eqn:Hv.
  - pose proof Hv as ->%verify_keys_error. split; [done|]. intros (_ & _ & ? & ? & [= <-] & [= <-] & _ & _ & Hall).
    destruct (inputs_unique inputs keys Hl2 Hn) as [_ Hu].
    { intros key Hkey. rewrite Forall_forall in Hall. destruct (Hall key Hkey) as (m & Hm). exists m. by destruct Hm. }
    rewrite (proj2 (verify_keys_None map_order now authority digest inputs signatures keys)) in Hv; [done|].
    eapply Forall_impl; [exact Hall|]. intros key (m & Hm). by eapply signed_verify_key.
  - apply verify_keys_None in Hv. split_and!; [done..|]. exists inputs, signatures. split_and!; [done|done|done|congruence|].
    eapply Forall_impl; [exact Hv|]. intros key Hk. by eapply verify_key_signed.
Qed.

Lemma directory_validated_aux status h body :
  match ValidateDirectory map_order now authority status h body with
  | Ok report => exists keys, published now authority status h body keys
      /\ KeyIDs report = map key_id keys /\ State report = directory_state keys
      /\ forall header inputs m, h = Some header -> directoryDictionary (header_Get header (bs "Signature-Input")) = Ok inputs ->
           m ∈ inputs -> input_id m ∈ KeyIDs report
  | Err e => errors_Is e ErrInvalidDirectory = true /\ forall keys, ~ published now authority status h body keys
  end.
Proof.
  unfold ValidateDirectory. destruct (Z.eqb_spec status 200) as [->|Hst]; cbn [negb];
    [|split; [done|]; by intros keys (? & _ & ? & _)].
  pose proof (content_type_spec h) as Hct. destruct (directoryContentType h) as [e|].
  { destruct Hct as [He Hno]. split; [done|]. intros keys (header & -> & _ & Hc & Hf & _). by rewrite (Hno header) in Hf. }
  destruct Hct as (header & -> & Hc & Hf). cbn [default from_option id].
  pose proof (parseDirectoryKeys_spec body) as Hk. destruct (parseDirectoryKeys body) as [keys|e] eqn:Hkeys; cbn [res_bind];
    [|destruct Hk as [He Hno]; split; [done|]; intros keys (? & _ & _ & _ & _ & ? & _); by apply (Hno keys)].
  pose proof Hk as (_ & v & rest & raws & _ & _ & _ & Hlen & Hf2 & Hnd). apply Forall2_length in Hf2. rewrite Hf2 in Hlen. set (digest := header_Get header (bs "Content-Digest")).
  pose proof (directoryContentDigest_spec digest body) as Hd. destruct (directoryContentDigest digest body) as [e|].
  { destruct Hd as [He Hno]. split; [done|]. intros keys' (header' & [= <-] & _ & _ & _ & _ & Hdig & _). done. }
  pose proof (signatures_verified digest keys header Hnd) as Hv.
  destruct (verifyDirectorySignatures map_order now authority digest keys header) as [e|].
  { destruct Hv as [He Hno]. split; [done|]. intros keys' (header' & [= <-] & _ & _ & _ & Hkeys' & _ & Hall). rewrite (key_set_inj body keys' keys) in Hall by done. exact (Hno Hall). }
  exists keys. cbn [KeyIDs State]. split_and!; [|done| |].
  - exists header. by split_and!.
  - clear -Hlen. unfold directory_state, maxDirectoryKeys in *. destruct keys as [|k1 [|k2 [|k3 keys]]]; cbn [length] in Hlen; [lia|done|done|lia].
  - intros header' inputs m [= <-] Hin Hm. destruct Hv as (_ & _ & inputs' & signatures & Hi & _ & Hl & _ & Hall).
    rewrite Hin in Hi. injection Hi as <-. destruct (inputs_unique inputs keys Hl Hnd) as [Hp _].
    { intros key Hkey. rewrite Forall_forall in Hall. destruct (Hall key Hkey) as (m' & Hm'). exists m'. by destruct Hm'. }
    rewrite Hp. by apply list_elem_of_fmap_2.
Qed.

(** C15: Validation accepts a signature directory if and only if it is
    published as the contract says, whatever order the program visits the
    signatures in: status 200 and the exact media type; a body of at most
    64 KiB that is one JSON object with nothing but a [keys] array (names match
    in any case, the last array counts), after which only white space or a
    closing bracket with whatever follows it may stand; one or two keys, each an
    object without a member [d], of type OKP and curve Ed25519 and with 32
    bytes in [x], of different thumbprints (which one key in two spellings of
    [x] has); a digest header that matches the body; and for every key a
    signature over the request's authority and that digest which verifies
    under it, within ten minutes of life and one minute of clock skew; no
    signature belongs to any other key. The report lists the thumbprints in
    order and tells a rotation from a single key; every refusal is an
    invalid-directory error. *)
Theorem directory_validated status h body :
  match ValidateDirectory map_order now authority status h body with
  | Ok report => exists keys, published now authority status h body keys
      /\ KeyIDs report = map key_id keys /\ State report = directory_state keys
      /\ forall header inputs m, h = Some header -> directoryDictionary (header_Get header (bs "Signature-Input")) = Ok inputs ->
           m ∈ inputs -> input_id m ∈ KeyIDs report
  | Err e => errors_Is e ErrInvalidDirectory = true /\ forall keys, ~ published now authority status h body keys
  end.
Proof. apply directory_validated_aux. Qed.
End Validation.
