(* ===== verification/Settings.v ===== *)
(** * Settings from the environment
      ([cmd/joshbot/config.go], [crawl_config.go], [http_config.go],
      [request_delay.go], [internal/database/config.go])

    The durations, integers, identifiers and files the services start from.
    [time.ParseDuration] is a parameter; random bytes are a call to the
    environment. The names of the settings in the error texts are left out. *)

From S2P Require Import Prelude GoText GoErrors GoUrl GoJson GoTime GoEncoding RobotsHTTP Crawler Queue Exclusions CrawlRunner RegistryService WebBotAuth.
From S2P Require Worker.

Definition defaultLeaseDuration : Z := 5 * Minute.
Definition defaultMinOriginInterval : Z := Minute.
Definition defaultFirstReprobeInterval : Z := 12 * Hour.
Definition defaultPollInterval : Z := 30 * Second.
Definition defaultJobTimeout : Z := 2 * Minute.
Definition defaultCompletionGrace : Z := 30 * Second.
Definition defaultRecheckInterval : Z := 24 * Hour.
Definition generatedWorkerIDBytes : nat := 16.
Definition generatedServiceInstanceIDBytes : nat := 8.
Definition maxRuntimeWorkerIDLength : Z := 128.
Definition maxServiceInstanceIDLength : Z := 128.

(** [fmt.Errorf("%w: ...", errInvalidRuntimeConfiguration)] *)
Definition invalid_runtime : error := wrap (errors_New errInvalidRuntimeConfiguration).

(** ** One setting *)

Section Values.
Context `{Durations}.
Variable getenv : bytes -> bytes.

Definition positiveDurationSetting (name : bytes) (defaultValue : Z) : res error Z :=
  let value := getenv name in
  if bytes_eqb value [] then Ok defaultValue
  else
    match time_ParseDuration value with
    | None => Err invalid_runtime
    | Some duration => if duration <=? 0 then Err invalid_runtime else Ok duration
    end.

Definition requiredNonNegativeDurationSetting (name : bytes) : res error Z :=
  let value := getenv name in
  match time_ParseDuration value with
  | None => Err invalid_runtime
  | Some duration => if bytes_eqb value [] || (duration <? 0) then Err invalid_runtime else Ok duration
  end.

(** [strconv.Atoi] on a 64-bit platform *)
Definition Atoi (s : bytes) : option Z := ParseInt64 s.

Definition requiredIntegerSetting (name : bytes) (minimum : Z) : res error Z :=
  let value := getenv name in
  match Atoi value with
  | None => Err invalid_runtime
  | Some parsed => if bytes_eqb value [] || (parsed <? minimum) then Err invalid_runtime else Ok parsed
  end.

Definition optionalPositiveIntegerSetting (name : bytes) (defaultValue : Z) : res error Z :=
  let value := getenv name in
  if bytes_eqb value [] then Ok defaultValue
  else
    match Atoi value with
    | None => Err invalid_runtime
    | Some parsed => if parsed <=? 0 then Err invalid_runtime else Ok parsed
    end.

Definition settingOrDefault (name fallback : bytes) : bytes :=
  let value := getenv name in if negb (bytes_eqb value []) then value else fallback.

(** [strconv.ParseBool] *)
Definition ParseBool (s : bytes) : option bool :=
  if existsb (bytes_eqb s) [bs "1"; bs "t"; bs "T"; bs "TRUE"; bs "true"; bs "True"] then Some true
  else if existsb (bytes_eqb s) [bs "0"; bs "f"; bs "F"; bs "FALSE"; bs "false"; bs "False"] then Some false
  else None.

Definition automaticCrawlEnabledSetting : res error bool :=
  let value := getenv (bs "JOSHBOT_AUTOMATIC_CRAWL_ENABLED") in
  if bytes_eqb value [] then Ok true
  else match ParseBool value with None => Err invalid_runtime | Some parsed => Ok parsed end.

(** ** The queue and the worker *)

Definition loadQueueConfig : res error QueueConfig :=
  let? leaseDuration := positiveDurationSetting (bs "JOSHBOT_LEASE_DURATION") defaultLeaseDuration in
  let? minOriginInterval := positiveDurationSetting (bs "JOSHBOT_MIN_ORIGIN_INTERVAL") defaultMinOriginInterval in
  let? firstReprobeInterval := positiveDurationSetting (bs "JOSHBOT_FIRST_REPROBE_INTERVAL") defaultFirstReprobeInterval in
  Ok (mkQueueConfig leaseDuration minOriginInterval firstReprobeInterval).

Definition validRuntimeWorkerID (workerID : bytes) : bool :=
  negb (bytes_eqb workerID []) && utf8_Valid workerID && (utf8_RuneCount workerID <=? maxRuntimeWorkerIDLength).

(** [random] is [io.ReadFull] on the reader. *)
Definition runtimeWorkerID {W} (configured : bytes) (random : option (call W nat (res error bytes))) (w : W) : W * res error bytes :=
  if negb (bytes_eqb configured []) then
    (w, if negb (validRuntimeWorkerID configured) then Err invalid_runtime else Ok configured)
  else
    match random with
    | None => (w, Err (errors_New errWorkerIDGeneration))
    | Some random =>
        match random w generatedWorkerIDBytes with
        | (w', Err _) => (w', Err (errors_New errWorkerIDGeneration))
        | (w', Ok randomBytes) => (w', Ok (bs "worker-" ++ hex_EncodeToString randomBytes))
        end
    end.

Record workerSettings : Type := mkWorkerSettings { settings_queue : QueueConfig; settings_worker : Worker.Config }.

(** The durations of the worker, before its identifier *)
Definition worker_durations : res error (QueueConfig * (Z * Z * Z * Z)) :=
  let? queueConfig := loadQueueConfig in
  let? pollInterval := positiveDurationSetting (bs "JOSHBOT_POLL_INTERVAL") defaultPollInterval in
  let? jobTimeout := positiveDurationSetting (bs "JOSHBOT_JOB_TIMEOUT") defaultJobTimeout in
  let? completionGrace := positiveDurationSetting (bs "JOSHBOT_COMPLETION_GRACE") defaultCompletionGrace in
  let? recheckInterval := positiveDurationSetting (bs "JOSHBOT_RECHECK_INTERVAL") defaultRecheckInterval in
  if (LeaseDuration queueConfig <=? completionGrace)
     || (wrap_int64 (LeaseDuration queueConfig - completionGrace) <=? jobTimeout)
  then Err invalid_runtime
  else Ok (queueConfig, (pollInterval, jobTimeout, completionGrace, recheckInterval)).

Definition loadWorkerSettings {W} (random : option (call W nat (res error bytes))) (w : W) : W * res error workerSettings :=
  match worker_durations with
  | Err e => (w, Err e)
  | Ok (queueConfig, (pollInterval, jobTimeout, completionGrace, recheckInterval)) =>
      let '(w', id) := runtimeWorkerID (getenv (bs "JOSHBOT_WORKER_ID")) random w in
      (w', let? workerID := id in
           Ok (mkWorkerSettings queueConfig (Worker.mkConfig workerID pollInterval jobTimeout completionGrace recheckInterval)))
  end.

(** ** The service instance *)

Definition validServiceInstanceID (instanceID : bytes) : bool :=
  negb (bytes_eqb instanceID []) && utf8_Valid instanceID && (Z.of_nat (length instanceID) <=? maxServiceInstanceIDLength).

Definition generateServiceInstanceID {W} (random : option (call W nat (res error bytes))) (w : W) : W * res error bytes :=
  match random with
  | None => (w, Err (errors_New errServiceInstanceIDGeneration))
  | Some random =>
      match random w generatedServiceInstanceIDBytes with
      | (w', Err _) => (w', Err (errors_New errServiceInstanceIDGeneration))
      | (w', Ok randomBytes) => (w', Ok (bs "service-" ++ hex_EncodeToString randomBytes))
      end
  end.

Definition loadServiceInstanceID {W} (random : option (call W nat (res error bytes))) (w : W) : W * res error bytes :=
  let candidate := TrimSpace (getenv (bs "JOSHBOT_SERVICE_INSTANCE_ID")) in
  if bytes_eqb candidate [] then generateServiceInstanceID random w
  else if negb (validServiceInstanceID candidate) then (w, Err invalid_runtime)
  else (w, Ok candidate).

(** ** HTTP and crawling *)

(** The four durations are read in the order of the source's table. *)
Definition loadHTTPConfig : res error HTTPConfig :=
  let config := DefaultHTTPConfig in
  let? maxCrawlDelay := positiveDurationSetting (bs "JOSHBOT_ROBOTS_MAX_CRAWL_DELAY") (MaxCrawlDelay config) in
  let? dialTimeout := positiveDurationSetting (bs "JOSHBOT_HTTP_DIAL_TIMEOUT") (DialTimeout config) in
  let? tlsHandshakeTimeout := positiveDurationSetting (bs "JOSHBOT_HTTP_TLS_HANDSHAKE_TIMEOUT") (TLSHandshakeTimeout config) in
  let? responseHeaderTimeout := positiveDurationSetting (bs "JOSHBOT_HTTP_RESPONSE_HEADER_TIMEOUT") (ResponseHeaderTimeout config) in
  Ok (mkHTTPConfig maxCrawlDelay dialTimeout tlsHandshakeTimeout responseHeaderTimeout).

Definition defaultCrawlRequestDelay : Z := Second.
Definition loadWorkerRequestDelay : res error Z :=
  if bytes_eqb (getenv (bs "JOSHBOT_CRAWL_REQUEST_DELAY")) [] then Ok defaultCrawlRequestDelay
  else requiredNonNegativeDurationSetting (bs "JOSHBOT_CRAWL_REQUEST_DELAY").

Definition defaultDiscoveryInterval : Z := 168 * Hour.
Definition defaultDiscoveryPollInterval : Z := 30 * Second.
Definition defaultDiscoveryPageTimeout : Z := 30 * Second.
Definition default_max_pending_probes : Z := 1000.
Definition default_max_promotions_per_run : Z := 100.
Definition defaultCrawlTelemetryRetention : Z := 30 * 24 * Hour.

(** The signer and the lease owner are set after loading. *)
Record crawlRuntimeSettings : Type := mkCrawlRuntimeSettings {
  settings_runner : CrawlRunnerConfig;
  settings_crawl : CrawlConfig;
  settings_automatic : AutomaticCrawlConfig;
  settings_telemetryRetention : Z;
  settings_http : HTTPConfig;
}.

Definition loadAutomaticConfig : res error AutomaticCrawlConfig :=
  let? enabled := automaticCrawlEnabledSetting in
  let excluded := settingOrDefault (bs "JOSHBOT_AUTOMATIC_CRAWL_EXCLUDED_HOSTS") [] in
  let? promotions := optionalPositiveIntegerSetting (bs "JOSHBOT_AUTOMATIC_CRAWL_MAX_PROMOTIONS_PER_RUN") default_max_promotions_per_run in
  if enabled : bool then
    let? pending := optionalPositiveIntegerSetting (bs "JOSHBOT_AUTOMATIC_CRAWL_MAX_PENDING_PROBES") default_max_pending_probes in
    Ok (mkAutomatic true pending promotions excluded)
  else Ok (mkAutomatic false 0 promotions excluded).

Definition loadCrawlRuntimeSettings : res error crawlRuntimeSettings :=
  let? httpConfig := loadHTTPConfig in
  let? discoveryInterval := positiveDurationSetting (bs "JOSHBOT_DISCOVERY_INTERVAL") defaultDiscoveryInterval in
  let? pollInterval := positiveDurationSetting (bs "JOSHBOT_DISCOVERY_POLL_INTERVAL") defaultDiscoveryPollInterval in
  let? pageTimeout := positiveDurationSetting (bs "JOSHBOT_DISCOVERY_PAGE_TIMEOUT") defaultDiscoveryPageTimeout in
  let? maxDepth := requiredIntegerSetting (bs "JOSHBOT_CRAWL_MAX_DEPTH") 0 in
  let? maxPages := requiredIntegerSetting (bs "JOSHBOT_CRAWL_MAX_PAGES") 1 in
  if MaxCrawlPages <? maxPages then Err invalid_runtime
  else
    let? maxPageBytes := requiredIntegerSetting (bs "JOSHBOT_CRAWL_MAX_PAGE_BYTES") 1 in
    let? requestDelay := requiredNonNegativeDurationSetting (bs "JOSHBOT_CRAWL_REQUEST_DELAY") in
    let? redirectLimit := requiredIntegerSetting (bs "JOSHBOT_CRAWL_REDIRECT_LIMIT") 1 in
    let? automaticConfig := loadAutomaticConfig in
    let? telemetryRetention := positiveDurationSetting (bs "JOSHBOT_CRAWL_TELEMETRY_RETENTION") defaultCrawlTelemetryRetention in
    Ok (mkCrawlRuntimeSettings (mkRunnerConfig discoveryInterval pollInterval 0)
          (mkCrawlConfig maxDepth maxPages maxPageBytes requestDelay redirectLimit pageTimeout (automatic_MaxPromotionsPerRun automaticConfig))
          automaticConfig telemetryRetention httpConfig).
End Values.

(** ** The database *)

Definition maxDatabasePasswordSize : nat := 4096.

(** [pgxpool.Config]: the connection string it prints and the password of its
    connections. *)
Record pool_Config : Type := mkPoolConfig { ConnString : bytes; ConnPassword : bytes }.

(** [parsedURL.User.Password], [parsedURL.Query()] and [pgxpool.ParseConfig] *)
Class DatabaseURLs := {
  user_has_password : URL -> bool;
  query_has : URL -> bytes -> bool;
  pgxpool_ParseConfig : bytes -> option pool_Config;
}.

Definition readDatabasePassword (reader : stream) : res error bytes :=
  match ReadAll_limit (maxDatabasePasswordSize + 2) reader with
  | Err _ => Err (errors_New errReadDatabasePasswordFile)
  | Ok data =>
      let data := trim_last (chr 13) (trim_last (chr 10) data) in
      if bytes_eqb data [] then Err (errors_New errEmptyDatabasePassword)
      else if (maxDatabasePasswordSize <? length data)%nat then Err (errors_New errDatabasePasswordTooLarge)
      else Ok data
  end.

(** [files] is [os.Open]. *)
Definition readDatabasePasswordFile (files : bytes -> option stream) (path : bytes) : res error bytes :=
  match files path with
  | None => Err (errors_New errOpenDatabasePasswordFile)
  | Some file => readDatabasePassword file
  end.

Definition LoadConfig `{NetURL} `{DatabaseURLs} (files : bytes -> option stream) (databaseURL passwordFile : bytes)
    : res error pool_Config :=
  if bytes_eqb databaseURL [] then Err (errors_New errDatabaseURLUnavailable)
  else if bytes_eqb passwordFile [] then Err (errors_New errDatabasePasswordFileUnavailable)
  else
    match url_Parse databaseURL with
    | None => Err (errors_New errInvalidDatabaseURL)
    | Some parsedURL =>
        if negb (bytes_eqb (Scheme parsedURL) (bs "postgres")) && negb (bytes_eqb (Scheme parsedURL) (bs "postgresql"))
        then Err (errors_New errInvalidDatabaseURL)
        else if user_has_password parsedURL || query_has parsedURL (bs "password") then Err (errors_New errDatabasePasswordInURL)
        else
          match pgxpool_ParseConfig databaseURL with
          | None => Err (errors_New errInvalidDatabaseURL)
          | Some config =>
              let? password := readDatabasePasswordFile files passwordFile in
              Ok (mkPoolConfig (ConnString config) password)
          end
    end.

(** * Accepted settings fit the components they configure *)


(** ** Identifiers *)

Lemma rune_count_le fuel s : rune_count_fuel fuel s <= Z.of_nat (length s).
Proof.
  revert s. induction fuel as [|fuel IH]; intros [|c s]; cbn [rune_count_fuel]; try (cbn [length]; lia).
  specialize (IH (drop (default 1%nat (utf8_size (c :: s))) (c :: s))).
  assert (Hn : (1 <= default 1%nat (utf8_size (c :: s)))%nat).
  { destruct (utf8_size (c :: s)) as [n|] eqn:Hs; [|done]. by apply utf8_size_bounds in Hs. }
  rewrite length_drop in IH. cbn [length] in *. lia.
Qed.

Lemma short_worker_id s : s <> [] -> (length s <= 128)%nat -> validQueueWorkerID s = true.
Proof.
  intros Hne Hl. unfold validQueueWorkerID, maxQueueWorkerIDLength, utf8_RuneCount. pose proof (rune_count_le (length s) s).
  apply andb_true_iff. split; [by destruct s|lia].
Qed.

(** [io.ReadFull] fills what it is given, or fails. *)
Definition reads_full {W} (random : option (call W nat (res error bytes))) : Prop :=
  forall read w n w' b, random = Some read -> read w n = (w', Ok b) -> length b = n.

Section Identifiers.
Context {W : Type} (random : option (call W nat (res error bytes))).
Hypothesis random_full : reads_full random.

Lemma runtimeWorkerID_valid configured w w' id : runtimeWorkerID configured random w = (w', Ok id) -> validQueueWorkerID id = true.
Proof.
  unfold runtimeWorkerID. destruct (bytes_eqb configured []) eqn:Hc; cbn [negb].
  - destruct random as [read|] eqn:Hr; [|done]. destruct (read w generatedWorkerIDBytes) as [w1 [b|e]] eqn:Hb; [|done].
    intros [= <- <-]. apply short_worker_id; [done|].
    change (length (bs "worker-" ++ hex_EncodeToString b) <= 128)%nat. rewrite length_app, hex_length.
    rewrite (random_full read w generatedWorkerIDBytes w1 b eq_refl Hb). cbn; lia.
  - destruct (validRuntimeWorkerID configured) eqn:Hv; cbn [negb]; [|done]. intros [= <- <-].
    unfold validRuntimeWorkerID in Hv. unfold validQueueWorkerID. b2p. by rewrite Hc.
Qed.

Lemma loadServiceInstanceID_valid getenv w w' id : loadServiceInstanceID getenv random w = (w', Ok id) ->
  validQueueWorkerID id = true /\ (length id <= 128)%nat.
Proof.
  unfold loadServiceInstanceID. generalize (TrimSpace (getenv (bs "JOSHBOT_SERVICE_INSTANCE_ID"))). intros candidate. cbv zeta.
  destruct (bytes_eqb candidate []) eqn:Hc.
  - unfold generateServiceInstanceID. destruct random as [read|] eqn:Hr; [|done].
    destruct (read w generatedServiceInstanceIDBytes) as [w1 [b|e]] eqn:Hb; [|done]. intros [= <- <-].
    assert (Hl : (length (bs "service-" ++ hex_EncodeToString b) <= 128)%nat).
    { rewrite length_app, hex_length, (random_full read w generatedServiceInstanceIDBytes w1 b eq_refl Hb). cbn. lia. }
    split; [|done]. by apply short_worker_id.
  - destruct (validServiceInstanceID _) eqn:Hv; cbn [negb]; [|done]. intros [= <- <-]. unfold validServiceInstanceID, maxServiceInstanceIDLength in Hv. b2p.
    assert (Hl : (length candidate <= 128)%nat) by lia. split; [|done].
    apply short_worker_id; [|done]. by intros ->.
Qed.
End Identifiers.

(** ** Values *)

Section Loaded.
Context `{Durations}.
Variable getenv : bytes -> bytes.

Lemma positive_duration name d v : positiveDurationSetting getenv name d = Ok v -> 0 < d -> 0 < v.
Proof. unfold positiveDurationSetting. repeat case_match; intros; simplify_eq; b2p; lia. Qed.
Lemma required_duration name v : requiredNonNegativeDurationSetting getenv name = Ok v -> 0 <= v.
Proof. unfold requiredNonNegativeDurationSetting. repeat case_match; intros; simplify_eq. rewrite orb_false_iff in *. b2p. lia. Qed.
Lemma required_integer name m v : requiredIntegerSetting getenv name m = Ok v -> m <= v.
Proof. unfold requiredIntegerSetting. repeat case_match; intros; simplify_eq. rewrite orb_false_iff in *. b2p. lia. Qed.
Lemma positive_integer name d v : optionalPositiveIntegerSetting getenv name d = Ok v -> 0 < d -> 0 < v.
Proof. unfold optionalPositiveIntegerSetting. repeat case_match; intros; simplify_eq; b2p; lia. Qed.

(** One [let?] of a loader: its value and what is known of it *)
Ltac loaded H :=
  match type of H with
  | res_bind ?r _ = Ok _ =>
      let v := fresh "v" in let E := fresh "E" in
      destruct r as [v|] eqn:E; cbn [res_bind] in H; [|discriminate H];
      first [apply positive_duration in E; [|reflexivity] | apply required_duration in E | apply required_integer in E
            | apply positive_integer in E; [|reflexivity] | idtac]
  end.

Lemma loadQueueConfig_valid c : loadQueueConfig getenv = Ok c -> validQueueConfig c = true.
Proof. unfold loadQueueConfig. intros Hc. do 3 loaded Hc. injection Hc as <-. unfold validQueueConfig. cbn. lia. Qed.

Lemma worker_durations_valid q p j g r : worker_durations getenv = Ok (q, (p, j, g, r)) ->
  validQueueConfig q = true /\ 0 < p /\ 0 < j /\ 0 < g /\ 0 < r /\ Worker.hasCompletionBudget (LeaseDuration q) j g = true.
Proof.
  unfold worker_durations. intros Hc. do 5 loaded Hc. destruct (_ || _) eqn:Hg; [done|]. injection Hc as <- <- <- <- <-.
  pose proof (loadQueueConfig_valid _ E) as Hq. split_and!; try done. unfold Worker.hasCompletionBudget.
  unfold validQueueConfig in Hq. rewrite orb_false_iff in Hg. b2p. rewrite !andb_true_iff. split_and!; lia.
Qed.

Lemma loadHTTPConfig_valid c delay : loadHTTPConfig getenv = Ok c -> 0 <= delay -> NewCheckerWithHTTPConfig delay c = Ok c.
Proof.
  unfold loadHTTPConfig. intros Hc Hd. do 4 loaded Hc. injection Hc as <-. unfold NewCheckerWithHTTPConfig. cbn.
  rewrite !(proj2 (Z.leb_gt _ _)) by lia. cbn [orb]. by rewrite (proj2 (Z.ltb_ge _ _)) by lia.
Qed.

Lemma loadWorkerRequestDelay_valid delay : loadWorkerRequestDelay getenv = Ok delay -> 0 <= delay.
Proof. unfold loadWorkerRequestDelay. case_match; [by intros [= <-]|apply required_duration]. Qed.

Lemma loadAutomaticConfig_valid c : loadAutomaticConfig getenv = Ok c ->
  0 <= automatic_MaxPendingProbes c /\ 0 < automatic_MaxPromotionsPerRun c
  /\ automatic_ExcludedHostSuffixes c = getenv (bs "JOSHBOT_AUTOMATIC_CRAWL_EXCLUDED_HOSTS")
  /\ (automatic_Enabled c = true -> 0 < automatic_MaxPendingProbes c).
Proof.
  assert (Hs : settingOrDefault getenv (bs "JOSHBOT_AUTOMATIC_CRAWL_EXCLUDED_HOSTS") [] = getenv (bs "JOSHBOT_AUTOMATIC_CRAWL_EXCLUDED_HOSTS")).
  { unfold settingOrDefault. by destruct (bytes_eqb_spec (getenv (bs "JOSHBOT_AUTOMATIC_CRAWL_EXCLUDED_HOSTS")) []) as [->|]. }
  unfold loadAutomaticConfig. rewrite Hs. clear Hs. intros Hc. do 2 loaded Hc. destruct v.
  - loaded Hc. injection Hc as <-. cbn. split_and!; try done; lia.
  - injection Hc as <-. cbn. split_and!; try done; lia.
Qed.

Lemma loadCrawlRuntimeSettings_valid s : loadCrawlRuntimeSettings getenv = Ok s ->
  validCrawlConfig (settings_crawl s) = true /\ newCrawlRunner (settings_runner s) = Ok (settings_runner s)
  /\ NewCheckerWithHTTPConfig (RequestDelay (settings_crawl s)) (settings_http s) = Ok (settings_http s)
  /\ 0 < settings_telemetryRetention s
  /\ 0 <= automatic_MaxPendingProbes (settings_automatic s) /\ 0 < automatic_MaxPromotionsPerRun (settings_automatic s)
  /\ automatic_ExcludedHostSuffixes (settings_automatic s) = getenv (bs "JOSHBOT_AUTOMATIC_CRAWL_EXCLUDED_HOSTS").
Proof.
  unfold loadCrawlRuntimeSettings. intros Hc. do 6 loaded Hc. destruct (Z.ltb_spec MaxCrawlPages v4) as [|Hp]; [done|]. do 5 loaded Hc.
  injection Hc as <-. pose proof (loadAutomaticConfig_valid _ E8) as (Ha1 & Ha2 & Ha3 & _). cbn [settings_crawl settings_runner settings_http settings_automatic settings_telemetryRetention].
  split_and!; try done.
  - unfold validCrawlConfig. cbn. rewrite !andb_true_iff. split_and!; lia.
  - unfold newCrawlRunner, validCrawlRunnerConfig. cbn. by rewrite !(proj2 (Z.ltb_lt _ _)) by done.
  - cbn. by apply loadHTTPConfig_valid.
Qed.

(** Every refusal is the one configuration error. *)
Lemma bind_error {A B} (r : res error A) (f : A -> res error B) e : res_bind r f = Err e ->
  (forall e, r = Err e -> e = invalid_runtime) -> (forall a e, f a = Err e -> e = invalid_runtime) -> e = invalid_runtime.
Proof. destruct r as [a|e']; cbn [res_bind]; [eauto|]. intros [= ->] Hr _. by apply Hr. Qed.

Ltac refused_setting :=
  intros; repeat match goal with
  | H : res_bind _ _ = Err _ |- _ => apply bind_error in H; [exact H| |]; clear H; intros
  | H : (if ?b then _ else _) = Err _ |- _ => destruct b
  end; try congruence.

Lemma positive_error name d e : positiveDurationSetting getenv name d = Err e -> e = invalid_runtime.
Proof. unfold positiveDurationSetting. repeat case_match; congruence. Qed.
Lemma required_duration_error name e : requiredNonNegativeDurationSetting getenv name = Err e -> e = invalid_runtime.
Proof. unfold requiredNonNegativeDurationSetting. repeat case_match; congruence. Qed.
Lemma required_integer_error name m e : requiredIntegerSetting getenv name m = Err e -> e = invalid_runtime.
Proof. unfold requiredIntegerSetting. repeat case_match; congruence. Qed.
Lemma positive_integer_error name d e : optionalPositiveIntegerSetting getenv name d = Err e -> e = invalid_runtime.
Proof. unfold optionalPositiveIntegerSetting. repeat case_match; congruence. Qed.
Lemma enabled_error e : automaticCrawlEnabledSetting getenv = Err e -> e = invalid_runtime.
Proof. unfold automaticCrawlEnabledSetting. repeat case_match; congruence. Qed.
#[local] Hint Resolve positive_error required_duration_error required_integer_error positive_integer_error enabled_error : joshbot.

Lemma loadHTTPConfig_error e : loadHTTPConfig getenv = Err e -> e = invalid_runtime.
Proof. unfold loadHTTPConfig. refused_setting; eauto with joshbot. Qed.
Lemma loadAutomaticConfig_error e : loadAutomaticConfig getenv = Err e -> e = invalid_runtime.
Proof. unfold loadAutomaticConfig. refused_setting; eauto with joshbot. Qed.
Lemma loadQueueConfig_error e : loadQueueConfig getenv = Err e -> e = invalid_runtime.
Proof. unfold loadQueueConfig. refused_setting; eauto with joshbot. Qed.
#[local] Hint Resolve loadHTTPConfig_error loadAutomaticConfig_error loadQueueConfig_error : joshbot.
Lemma worker_durations_error e : worker_durations getenv = Err e -> e = invalid_runtime.
Proof. unfold worker_durations. refused_setting; eauto with joshbot. Qed.
Lemma loadCrawlRuntimeSettings_error e : loadCrawlRuntimeSettings getenv = Err e -> e = invalid_runtime.
Proof. unfold loadCrawlRuntimeSettings. refused_setting; eauto with joshbot. Qed.
End Loaded.

(** ** What loads, and what is refused *)

(** A loader's result: what is described loads, anything else is refused. *)
Definition exactly {A} (r : res error A) (described : A -> Prop) (refusal : error -> Prop) : Prop :=
  match r with Ok a => described a | Err e => refusal e /\ forall a, ~ described a end.

Lemma exactly_iff {A} (r : res error A) described refusal :
  (forall a, r = Ok a <-> described a) -> (forall e, r = Err e -> refusal e) -> exactly r described refusal.
Proof. intros Hd He. destruct r as [a|e]; cbn; [by apply Hd|]. split; [by apply He|]. by intros a ?%Hd. Qed.

Section Described.
Context `{Durations}.
Variable getenv : bytes -> bytes.

(** An optional duration: the default when the setting is empty, otherwise a
    well-formed positive duration *)
Definition duration_is (name : bytes) (defaultValue v : Z) : Prop :=
  if decide (getenv name = []) then v = defaultValue else time_ParseDuration (getenv name) = Some v /\ 0 < v.
Definition required_duration_is (name : bytes) (v : Z) : Prop :=
  getenv name <> [] /\ time_ParseDuration (getenv name) = Some v /\ 0 <= v.
(** A decimal that fits 64 bits and is not below the minimum *)
Definition integer_is (name : bytes) (minimum v : Z) : Prop :=
  getenv name <> [] /\ ParseInt64 (getenv name) = Some v /\ minimum <= v.
Definition optional_integer_is (name : bytes) (defaultValue v : Z) : Prop :=
  if decide (getenv name = []) then v = defaultValue else ParseInt64 (getenv name) = Some v /\ 0 < v.
Definition switch_is (name : bytes) (on : bool) : Prop :=
  if decide (getenv name = []) then on = true
  else getenv name ∈ (if on then [bs "1"; bs "t"; bs "T"; bs "TRUE"; bs "true"; bs "True"]
                      else [bs "0"; bs "f"; bs "F"; bs "FALSE"; bs "false"; bs "False"]).

Lemma positive_iff name d v : positiveDurationSetting getenv name d = Ok v <-> duration_is name d v.
Proof.
  unfold positiveDurationSetting, duration_is. destruct (bytes_eqb_spec (getenv name) []) as [He|He];
    [rewrite decide_True by done; naive_solver|rewrite decide_False by done].
  destruct (time_ParseDuration (getenv name)) as [x|]; [|naive_solver]. destruct (Z.leb_spec x 0); split; [done|intros [[= ->] ?]; lia|intros [= ->]; split; [done|lia]|naive_solver].
Qed.
Lemma required_duration_iff name v : requiredNonNegativeDurationSetting getenv name = Ok v <-> required_duration_is name v.
Proof.
  unfold requiredNonNegativeDurationSetting, required_duration_is. destruct (time_ParseDuration (getenv name)) as [x|]; [|naive_solver].
  destruct (bytes_eqb_spec (getenv name) []), (Z.ltb_spec x 0); cbn [orb]; split; try done; try (intros (? & [= ->] & ?); done || lia); by intros [= ->].
Qed.
Lemma integer_iff name m v : requiredIntegerSetting getenv name m = Ok v <-> integer_is name m v.
Proof.
  unfold requiredIntegerSetting, integer_is, Atoi. destruct (ParseInt64 (getenv name)) as [x|]; [|naive_solver].
  destruct (bytes_eqb_spec (getenv name) []), (Z.ltb_spec x m); cbn [orb]; split; try done; try (intros (? & [= ->] & ?); done || lia); by intros [= ->].
Qed.
Lemma optional_integer_iff name d v : optionalPositiveIntegerSetting getenv name d = Ok v <-> optional_integer_is name d v.
Proof.
  unfold optionalPositiveIntegerSetting, optional_integer_is, Atoi. destruct (bytes_eqb_spec (getenv name) []) as [He|He];
    [rewrite decide_True by done; naive_solver|rewrite decide_False by done].
  destruct (ParseInt64 (getenv name)) as [x|]; [|naive_solver]. destruct (Z.leb_spec x 0); split; [done|intros [[= ->] ?]; lia|intros [= ->]; split; [done|lia]|naive_solver].
Qed.

Lemma existsb_in (v : bytes) l : existsb (bytes_eqb v) l = true <-> v ∈ l.
Proof.
  rewrite existsb_exists, list_elem_of_In. split; [intros (x & Hx & He); by destruct (bytes_eqb_spec v x) as [->|]|].
  intros Hin. exists v. split; [done|]. by destruct (bytes_eqb_spec v v).
Qed.

Lemma switch_iff on : automaticCrawlEnabledSetting getenv = Ok on <-> switch_is (bs "JOSHBOT_AUTOMATIC_CRAWL_ENABLED") on.
Proof.
  unfold automaticCrawlEnabledSetting, switch_is, ParseBool. generalize (getenv (bs "JOSHBOT_AUTOMATIC_CRAWL_ENABLED")). intros v. cbv zeta.
  destruct (bytes_eqb_spec v []) as [->|Hne]; [rewrite decide_True by done; naive_solver|]. rewrite decide_False by done.
  assert (Hdis : v ∈ [bs "1"; bs "t"; bs "T"; bs "TRUE"; bs "true"; bs "True"] -> v ∈ [bs "0"; bs "f"; bs "F"; bs "FALSE"; bs "false"; bs "False"] -> False).
  { intros Ht. rewrite <- existsb_in. rewrite !elem_of_cons, elem_of_nil in Ht.
    destruct Ht as [-> |[-> |[-> |[-> |[-> |[-> |[]]]]]]]; by vm_compute. }
  revert Hdis. generalize [bs "1"; bs "t"; bs "T"; bs "TRUE"; bs "true"; bs "True"], [bs "0"; bs "f"; bs "F"; bs "FALSE"; bs "false"; bs "False"].
  intros trues falses. destruct on; rewrite <- !existsb_in; destruct (existsb _ trues), (existsb _ falses); intros Hd;
    try destruct (Hd eq_refl eq_refl); split; congruence.
Qed.

(** The settings of each loader *)
Record queue_settings (c : QueueConfig) : Prop := {
  qs_lease : duration_is (bs "JOSHBOT_LEASE_DURATION") defaultLeaseDuration (LeaseDuration c);
  qs_interval : duration_is (bs "JOSHBOT_MIN_ORIGIN_INTERVAL") defaultMinOriginInterval (MinOriginInterval c);
  qs_reprobe : duration_is (bs "JOSHBOT_FIRST_REPROBE_INTERVAL") defaultFirstReprobeInterval (FirstReprobeInterval c);
}.

Record http_settings (c : HTTPConfig) : Prop := {
  hs_delay : duration_is (bs "JOSHBOT_ROBOTS_MAX_CRAWL_DELAY") (MaxCrawlDelay DefaultHTTPConfig) (MaxCrawlDelay c);
  hs_dial : duration_is (bs "JOSHBOT_HTTP_DIAL_TIMEOUT") (DialTimeout DefaultHTTPConfig) (DialTimeout c);
  hs_tls : duration_is (bs "JOSHBOT_HTTP_TLS_HANDSHAKE_TIMEOUT") (TLSHandshakeTimeout DefaultHTTPConfig) (TLSHandshakeTimeout c);
  hs_header : duration_is (bs "JOSHBOT_HTTP_RESPONSE_HEADER_TIMEOUT") (ResponseHeaderTimeout DefaultHTTPConfig) (ResponseHeaderTimeout c);
}.

Definition request_delay (v : Z) : Prop :=
  if decide (getenv (bs "JOSHBOT_CRAWL_REQUEST_DELAY") = []) then v = Second else required_duration_is (bs "JOSHBOT_CRAWL_REQUEST_DELAY") v.

Record automatic_settings (c : AutomaticCrawlConfig) : Prop := {
  as_enabled : switch_is (bs "JOSHBOT_AUTOMATIC_CRAWL_ENABLED") (automatic_Enabled c);
  as_promotions : optional_integer_is (bs "JOSHBOT_AUTOMATIC_CRAWL_MAX_PROMOTIONS_PER_RUN") default_max_promotions_per_run (automatic_MaxPromotionsPerRun c);
  as_pending : if automatic_Enabled c
    then optional_integer_is (bs "JOSHBOT_AUTOMATIC_CRAWL_MAX_PENDING_PROBES") default_max_pending_probes (automatic_MaxPendingProbes c)
    else automatic_MaxPendingProbes c = 0;
  as_excluded : automatic_ExcludedHostSuffixes c = getenv (bs "JOSHBOT_AUTOMATIC_CRAWL_EXCLUDED_HOSTS");
}.

Record crawl_settings (s : crawlRuntimeSettings) : Prop := {
  cs_http : http_settings (settings_http s);
  cs_discovery : duration_is (bs "JOSHBOT_DISCOVERY_INTERVAL") defaultDiscoveryInterval (DiscoveryInterval (settings_runner s));
  cs_poll : duration_is (bs "JOSHBOT_DISCOVERY_POLL_INTERVAL") defaultDiscoveryPollInterval (PollInterval (settings_runner s));
  cs_lease : runner_LeaseDuration (settings_runner s) = 0;
  cs_timeout : duration_is (bs "JOSHBOT_DISCOVERY_PAGE_TIMEOUT") defaultDiscoveryPageTimeout (PageTimeout (settings_crawl s));
  cs_depth : integer_is (bs "JOSHBOT_CRAWL_MAX_DEPTH") 0 (MaxDepth (settings_crawl s));
  cs_pages : integer_is (bs "JOSHBOT_CRAWL_MAX_PAGES") 1 (MaxPages (settings_crawl s));
  cs_pages_bound : MaxPages (settings_crawl s) <= MaxCrawlPages;
  cs_bytes : integer_is (bs "JOSHBOT_CRAWL_MAX_PAGE_BYTES") 1 (MaxPageBytes (settings_crawl s));
  cs_delay : required_duration_is (bs "JOSHBOT_CRAWL_REQUEST_DELAY") (RequestDelay (settings_crawl s));
  cs_redirects : integer_is (bs "JOSHBOT_CRAWL_REDIRECT_LIMIT") 1 (RedirectLimit (settings_crawl s));
  cs_automatic : automatic_settings (settings_automatic s);
  cs_promotions : MaxAutomaticPromotionsPerRun (settings_crawl s) = automatic_MaxPromotionsPerRun (settings_automatic s);
  cs_retention : duration_is (bs "JOSHBOT_CRAWL_TELEMETRY_RETENTION") defaultCrawlTelemetryRetention (settings_telemetryRetention s);
}.

(** One [let?], in both directions *)
Lemma bind_iff {A B} (r : res error A) (f : A -> res error B) b : res_bind r f = Ok b <-> exists a, r = Ok a /\ f a = Ok b.
Proof. destruct r; cbn; naive_solver. Qed.

Ltac described :=
  repeat (setoid_rewrite bind_iff || setoid_rewrite positive_iff || setoid_rewrite required_duration_iff || setoid_rewrite integer_iff
          || setoid_rewrite optional_integer_iff || setoid_rewrite switch_iff).

Lemma queue_iff c : loadQueueConfig getenv = Ok c <-> queue_settings c.
Proof.
  unfold loadQueueConfig. described. split; [intros (l & ? & i & ? & r & ? & [= <-]); by constructor|].
  destruct c as [l i r]. intros []. exists l. split; [done|]. exists i. split; [done|]. by exists r.
Qed.

Lemma http_iff c : loadHTTPConfig getenv = Ok c <-> http_settings c.
Proof.
  unfold loadHTTPConfig. cbv zeta. described. split; [intros (l & ? & i & ? & r & ? & x & ? & [= <-]); by constructor|].
  destruct c as [l i r x]. intros []. exists l. split; [done|]. exists i. split; [done|]. exists r. split; [done|]. by exists x.
Qed.

Lemma delay_iff v : loadWorkerRequestDelay getenv = Ok v <-> request_delay v.
Proof.
  unfold loadWorkerRequestDelay, request_delay. destruct (bytes_eqb_spec (getenv (bs "JOSHBOT_CRAWL_REQUEST_DELAY")) []), (decide _); try done; [|apply required_duration_iff].
  unfold defaultCrawlRequestDelay. naive_solver.
Qed.

Lemma automatic_iff c : loadAutomaticConfig getenv = Ok c <-> automatic_settings c.
Proof.
  assert (Hs : settingOrDefault getenv (bs "JOSHBOT_AUTOMATIC_CRAWL_EXCLUDED_HOSTS") [] = getenv (bs "JOSHBOT_AUTOMATIC_CRAWL_EXCLUDED_HOSTS")).
  { unfold settingOrDefault. by destruct (bytes_eqb_spec (getenv (bs "JOSHBOT_AUTOMATIC_CRAWL_EXCLUDED_HOSTS")) []) as [->|]. }
  unfold loadAutomaticConfig. rewrite Hs. clear Hs. cbv zeta. rewrite bind_iff. setoid_rewrite switch_iff. setoid_rewrite bind_iff.
  setoid_rewrite optional_integer_iff. split.
  - intros (on & Hon & promotions & Hp & Hc). destruct on; [|injection Hc as <-; by constructor].
    apply bind_iff in Hc as (pending & Hq%optional_integer_iff & [= <-]). by constructor.
  - destruct c as [on pending promotions hosts]. intros [Hon Hp Hq Hh]. cbn in *. subst hosts. exists on. split; [done|]. exists promotions. split; [done|].
    destruct on; [|by rewrite Hq]. apply bind_iff. exists pending. by rewrite optional_integer_iff.
Qed.

Lemma crawl_iff s : loadCrawlRuntimeSettings getenv = Ok s <-> crawl_settings s.
Proof.
  unfold loadCrawlRuntimeSettings. split.
  - intros Hc. repeat match type of Hc with
      | res_bind _ _ = Ok _ => apply bind_iff in Hc as (? & ? & Hc)
      | (if ?b then _ else _) = Ok _ => destruct b eqn:?; [done|]
      end. injection Hc as <-. b2p.
    by constructor; cbn; first [by apply http_iff|by apply positive_iff|by apply required_duration_iff|by apply integer_iff|by apply automatic_iff|lia|done].
  - destruct s as [[di pi ld] [depth pages size delay redirects timeout promotions] automatic retention http]. intros []. cbn in *. subst.
    repeat first [rewrite (proj2 (http_iff _)) by eassumption|rewrite (proj2 (positive_iff _ _ _)) by eassumption
      |rewrite (proj2 (integer_iff _ _ _)) by eassumption|rewrite (proj2 (required_duration_iff _ _)) by eassumption
      |rewrite (proj2 (automatic_iff _)) by eassumption|rewrite (proj2 (Z.ltb_ge _ _)) by eassumption|progress cbn [res_bind]]. done.
Qed.

(** The worker: the durations leave room for a job and its completion within
    a lease; the identifier is the configured one or a generated one. *)
Record worker_settings {W} (random : option (call W nat (res error bytes))) (w : W) (s : workerSettings) : Prop := {
  ws_queue : queue_settings (settings_queue s);
  ws_poll : duration_is (bs "JOSHBOT_POLL_INTERVAL") defaultPollInterval (Worker.PollInterval (settings_worker s));
  ws_job : duration_is (bs "JOSHBOT_JOB_TIMEOUT") defaultJobTimeout (Worker.JobTimeout (settings_worker s));
  ws_grace : duration_is (bs "JOSHBOT_COMPLETION_GRACE") defaultCompletionGrace (Worker.CompletionGrace (settings_worker s));
  ws_recheck : duration_is (bs "JOSHBOT_RECHECK_INTERVAL") defaultRecheckInterval (Worker.RecheckInterval (settings_worker s));
  ws_room : Worker.CompletionGrace (settings_worker s) < LeaseDuration (settings_queue s)
    /\ Worker.JobTimeout (settings_worker s) < wrap_int64 (LeaseDuration (settings_queue s) - Worker.CompletionGrace (settings_worker s));
  ws_id : let configured := getenv (bs "JOSHBOT_WORKER_ID") in let id := Worker.WorkerID (settings_worker s) in
    if decide (configured = []) then exists read b, random = Some read /\ snd (read w 16%nat) = Ok b /\ id = bs "worker-" ++ hex_EncodeToString b
    else utf8_Valid configured = true /\ utf8_RuneCount configured <= 128 /\ id = configured;
}.

Definition service_instance {W} (random : option (call W nat (res error bytes))) (w : W) (id : bytes) : Prop :=
  let configured := TrimSpace (getenv (bs "JOSHBOT_SERVICE_INSTANCE_ID")) in
  if decide (configured = []) then exists read b, random = Some read /\ snd (read w 8%nat) = Ok b /\ id = bs "service-" ++ hex_EncodeToString b
  else utf8_Valid configured = true /\ (length configured <= 128)%nat /\ id = configured.

Lemma durations_iff q p j g r : worker_durations getenv = Ok (q, (p, j, g, r))
  <-> queue_settings q /\ duration_is (bs "JOSHBOT_POLL_INTERVAL") defaultPollInterval p /\ duration_is (bs "JOSHBOT_JOB_TIMEOUT") defaultJobTimeout j
      /\ duration_is (bs "JOSHBOT_COMPLETION_GRACE") defaultCompletionGrace g /\ duration_is (bs "JOSHBOT_RECHECK_INTERVAL") defaultRecheckInterval r
      /\ g < LeaseDuration q /\ j < wrap_int64 (LeaseDuration q - g).
Proof.
  unfold worker_durations. split.
  - intros Hc. do 5 (apply bind_iff in Hc as (? & ? & Hc)). destruct (_ || _) eqn:Hg; [done|]. injection Hc as <- <- <- <- <-.
    rewrite orb_false_iff in Hg. b2p. rewrite <- queue_iff, <- !positive_iff. split_and!; done || lia.
  - intros (Hq%queue_iff & Hp%positive_iff & Hj%positive_iff & Hg%positive_iff & Hr%positive_iff & H1 & H2).
    rewrite Hq. cbn [res_bind]. rewrite Hp. cbn [res_bind]. rewrite Hj. cbn [res_bind]. rewrite Hg. cbn [res_bind]. rewrite Hr. cbn [res_bind].
    by rewrite !(proj2 (Z.leb_gt _ _)) by lia.
Qed.

Lemma worker_iff {W} (random : option (call W nat (res error bytes))) w s :
  snd (loadWorkerSettings getenv random w) = Ok s <-> worker_settings random w s.
Proof.
  assert (Hid : forall id, snd (runtimeWorkerID (getenv (bs "JOSHBOT_WORKER_ID")) random w) = Ok id
    <-> if decide (getenv (bs "JOSHBOT_WORKER_ID") = []) then exists read b, random = Some read /\ snd (read w 16%nat) = Ok b /\ id = bs "worker-" ++ hex_EncodeToString b
        else utf8_Valid (getenv (bs "JOSHBOT_WORKER_ID")) = true /\ utf8_RuneCount (getenv (bs "JOSHBOT_WORKER_ID")) <= 128 /\ id = getenv (bs "JOSHBOT_WORKER_ID")).
  { intros id. unfold runtimeWorkerID, validRuntimeWorkerID, maxRuntimeWorkerIDLength, generatedWorkerIDBytes.
    destruct (bytes_eqb_spec (getenv (bs "JOSHBOT_WORKER_ID")) []), (decide _); try done; cbn [negb andb].
    - destruct random as [read|]; [|naive_solver]. destruct (read w 16%nat) as [w' [b|err]] eqn:Hr; cbn [snd];
      [|split; [done|]; intros (? & ? & [= <-] & Hb & _); by rewrite Hr in Hb].
      split; [intros [= <-]; exists read, b; by rewrite Hr|]. intros (? & ? & [= <-] & Hb & ->). rewrite Hr in Hb. by injection Hb as <-.
    - destruct (utf8_Valid _), (Z.leb_spec (utf8_RuneCount (getenv (bs "JOSHBOT_WORKER_ID"))) 128); cbn [andb negb snd]; (split; [intros [= <-]; done|]);
        intros (? & ? & ->); done || lia. }
  unfold loadWorkerSettings. split.
  - destruct (worker_durations getenv) as [[q [[[p j] g] r]]|] eqn:Hd; [|done]. apply durations_iff in Hd as (? & ? & ? & ? & ? & ? & ?).
    destruct (runtimeWorkerID _ random w) as [w' id]. cbn [snd] in *. intros (i & Hi%Hid & [= <-])%bind_iff. by constructor.
  - destruct s as [q [id p j g r]]. intros [Hq Hp Hj Hg Hr [H1 H2] Hi%Hid]. cbn in *. rewrite (proj2 (durations_iff q p j g r)) by done.
    destruct (runtimeWorkerID _ random w) as [w' x]. cbn [snd] in *. by rewrite Hi.
Qed.

Lemma instance_iff {W} (random : option (call W nat (res error bytes))) w id :
  snd (loadServiceInstanceID getenv random w) = Ok id <-> service_instance random w id.
Proof.
  unfold loadServiceInstanceID, service_instance. generalize (TrimSpace (getenv (bs "JOSHBOT_SERVICE_INSTANCE_ID"))). intros candidate. cbv zeta.
  destruct (bytes_eqb_spec candidate []) as [->|Hne], (decide _); try done.
  - unfold generateServiceInstanceID, generatedServiceInstanceIDBytes. destruct random as [read|]; [|naive_solver].
    destruct (read w 8%nat) as [w' [b|err]] eqn:Hr; cbn [snd];
      [|split; [done|]; intros (? & ? & [= <-] & Hb & _); by rewrite Hr in Hb].
    split; [intros [= <-]; exists read, b; by rewrite Hr|]. intros (? & ? & [= <-] & Hb & ->). rewrite Hr in Hb. by injection Hb as <-.
  - unfold validServiceInstanceID, maxServiceInstanceIDLength. destruct (bytes_eqb_spec candidate []); [done|].
    destruct (utf8_Valid candidate), (Z.leb_spec (Z.of_nat (length candidate)) 128); cbn [andb negb snd]; (split; [intros [= <-]; split_and!; done || lia|]);
      intros (? & ? & ->); done || lia.
Qed.

Lemma loadWorkerRequestDelay_error e : loadWorkerRequestDelay getenv = Err e -> e = invalid_runtime.
Proof. unfold loadWorkerRequestDelay. case_match; [done|apply required_duration_error]. Qed.
End Described.

Lemma instance_error {W} (random : option (call W nat (res error bytes))) getenv w e :
  snd (loadServiceInstanceID getenv random w) = Err e -> e = invalid_runtime \/ e = errors_New errServiceInstanceIDGeneration.
Proof. unfold loadServiceInstanceID, generateServiceInstanceID. repeat case_match; cbn [snd]; intros; simplify_eq; auto. Qed.

Lemma runtimeWorkerID_error {W} (random : option (call W nat (res error bytes))) configured w w' e :
  runtimeWorkerID configured random w = (w', Err e) -> e = invalid_runtime \/ e = errors_New errWorkerIDGeneration.
Proof. unfold runtimeWorkerID. repeat case_match; intros; simplify_eq; auto. Qed.

Lemma worker_error {W} `{Durations} (random : option (call W nat (res error bytes))) getenv w e :
  snd (loadWorkerSettings getenv random w) = Err e -> e = invalid_runtime \/ e = errors_New errWorkerIDGeneration.
Proof.
  unfold loadWorkerSettings. destruct (worker_durations getenv) as [[q [[[p j] g] r]]|] eqn:Hd; cbn [snd];
    [|intros [= <-]; left; by eapply worker_durations_error].
  destruct (runtimeWorkerID _ random w) as [w' [id|e']] eqn:Hid; cbn [res_bind snd]; [done|]. intros [= <-]. by eapply runtimeWorkerID_error.
Qed.

(** What the components make of loaded settings *)
Lemma worker_fits {W} `{Durations} (random : option (call W nat (res error bytes))) getenv w s : reads_full random ->
  snd (loadWorkerSettings getenv random w) = Ok s ->
  validQueueConfig (settings_queue s) = true /\ Worker.newWorker (settings_worker s) = Ok (settings_worker s)
  /\ validQueueWorkerID (Worker.WorkerID (settings_worker s)) = true
  /\ Worker.hasCompletionBudget (LeaseDuration (settings_queue s)) (Worker.JobTimeout (settings_worker s))
       (Worker.CompletionGrace (settings_worker s)) = true.
Proof.
  intros Hfull. unfold loadWorkerSettings. destruct (worker_durations getenv) as [[q [[[p j] g] r]]|e] eqn:Hd; [|done].
  destruct (runtimeWorkerID _ random w) as [w' [id|e]] eqn:Hid; cbn [res_bind snd]; [|done]. intros [= <-].
  destruct (worker_durations_valid getenv q p j g r Hd) as (Hq & Hp & Hj & Hg & Hr & Hb).
  pose proof (runtimeWorkerID_valid random Hfull _ _ _ _ Hid) as Hv. cbn [settings_queue settings_worker Worker.WorkerID Worker.JobTimeout Worker.CompletionGrace].
  split_and!; try done. unfold Worker.newWorker. replace (Worker.validConfig _) with true; [done|]. symmetry.
  unfold Worker.validConfig. cbn. rewrite !andb_true_iff. unfold validQueueWorkerID in Hv. apply andb_true_iff in Hv as [Hv1 Hv2].
  split_and!; try done; lia.
Qed.

Lemma crawl_fits `{Durations} `{Unicode} getenv s : loadCrawlRuntimeSettings getenv = Ok s ->
  validCrawlConfig (settings_crawl s) = true /\ newCrawlRunner (settings_runner s) = Ok (settings_runner s)
  /\ NewCheckerWithHTTPConfig (RequestDelay (settings_crawl s)) (settings_http s) = Ok (settings_http s)
  /\ newDiscoveryStoreWithConfig (settings_automatic s)
     = if validExcludedHostSuffixes (getenv (bs "JOSHBOT_AUTOMATIC_CRAWL_EXCLUDED_HOSTS")) then None else Some (errors_New errInvalidQueueConfig).
Proof.
  intros Hs. destruct (loadCrawlRuntimeSettings_valid getenv s Hs) as (Hc & Hr & Hh & _ & Ha1 & Ha2 & Ha3). split_and!; try done.
  unfold newDiscoveryStoreWithConfig. rewrite Ha3, !(proj2 (Z.ltb_ge _ _)) by lia. by destruct (validExcludedHostSuffixes _).
Qed.

(** C19: Each loader accepts exactly the settings described, and gives the
    values they spell: an optional duration that is set must be well formed
    and positive, a required one not negative, an integer a decimal not below
    its minimum (at most [MaxCrawlPages] for the pages), the switch a Go
    boolean, a configured identifier UTF-8 text of at most 128 characters
    (bytes for the service instance); only an empty optional setting takes its
    default. Anything else is refused as an invalid configuration, or because
    no identifier could be generated. What loads fits its component: the queue
    and the worker, with room in a lease for a job and its completion; the
    crawler, the runner and the HTTP checker; the lease table takes the
    identifiers. The discovery store still refuses loaded settings whose
    excluded hosts are malformed, which loading does not look at. *)
Theorem settings_fit `{Durations} `{Unicode} {W} (random : option (call W nat (res error bytes))) getenv (w : W) :
  reads_full random ->
  exactly (snd (loadWorkerSettings getenv random w)) (worker_settings getenv random w)
    (fun e => e = invalid_runtime \/ e = errors_New errWorkerIDGeneration)
  /\ exactly (loadCrawlRuntimeSettings getenv) (crawl_settings getenv) (fun e => e = invalid_runtime)
  /\ exactly (loadHTTPConfig getenv) (http_settings getenv) (fun e => e = invalid_runtime)
  /\ exactly (loadWorkerRequestDelay getenv) (request_delay getenv) (fun e => e = invalid_runtime)
  /\ exactly (snd (loadServiceInstanceID getenv random w)) (service_instance getenv random w)
       (fun e => e = invalid_runtime \/ e = errors_New errServiceInstanceIDGeneration)
  /\ (forall s, snd (loadWorkerSettings getenv random w) = Ok s ->
        validQueueConfig (settings_queue s) = true /\ Worker.newWorker (settings_worker s) = Ok (settings_worker s)
        /\ validQueueWorkerID (Worker.WorkerID (settings_worker s)) = true
        /\ Worker.hasCompletionBudget (LeaseDuration (settings_queue s)) (Worker.JobTimeout (settings_worker s))
             (Worker.CompletionGrace (settings_worker s)) = true)
  /\ (forall s, loadCrawlRuntimeSettings getenv = Ok s ->
        validCrawlConfig (settings_crawl s) = true /\ newCrawlRunner (settings_runner s) = Ok (settings_runner s)
        /\ NewCheckerWithHTTPConfig (RequestDelay (settings_crawl s)) (settings_http s) = Ok (settings_http s)
        /\ newDiscoveryStoreWithConfig (settings_automatic s)
           = if validExcludedHostSuffixes (getenv (bs "JOSHBOT_AUTOMATIC_CRAWL_EXCLUDED_HOSTS")) then None else Some (errors_New errInvalidQueueConfig))
  /\ (forall config delay, loadHTTPConfig getenv = Ok config -> loadWorkerRequestDelay getenv = Ok delay ->
       NewCheckerWithHTTPConfig delay config = Ok config)
  /\ (forall id, snd (loadServiceInstanceID getenv random w) = Ok id -> validQueueWorkerID id = true).
Proof.
  intros Hfull. split_and!.
  - apply exactly_iff; [apply worker_iff|apply worker_error].
  - apply exactly_iff; [apply crawl_iff|apply loadCrawlRuntimeSettings_error].
  - apply exactly_iff; [apply http_iff|apply loadHTTPConfig_error].
  - apply exactly_iff; [apply delay_iff|apply loadWorkerRequestDelay_error].
  - apply exactly_iff; [apply instance_iff|apply instance_error].
  - intros s. by apply worker_fits.
  - apply crawl_fits.
  - intros config delay Hc Hd. apply (loadHTTPConfig_valid getenv); [done|]. by eapply loadWorkerRequestDelay_valid.
  - intros id Hid. destruct (loadServiceInstanceID getenv random w) as [w' r] eqn:Hl. cbn [snd] in Hid. subst r. by eapply loadServiceInstanceID_valid.
Qed.
