(* ===== verification/WebBotAuthConfig.v ===== *)
(** * The signing identity of a service
      ([cmd/joshbot/web_bot_auth_config.go], [conformance.go])

    The mode and the key files from the environment, the signer the runtime
    hands to its HTTP client, and the conformance command. [files] is
    [os.Open]. *)

From S2P Require Import Prelude GoText GoErrors GoUrl GoNetip GoEncoding Origin Netguard RobotsHTTP PublicData RegistryService WebBotAuth Settings.

Definition webBotAuthModeRequired : bytes := bs "required".
Definition webBotAuthModeUnsigned : bytes := bs "unsigned".

Record webBotAuthConfig : Type := mkWebBotAuthConfig {
  config_mode : bytes;
  config_active : option Identity;
  config_transition : option Identity;
}.

Definition invalid_web_bot_auth : error := wrap (errors_New errInvalidWebBotAuthConfiguration).

Definition parseWebBotAuthMode (value : bytes) : res error bytes :=
  if bytes_eqb value [] then Ok webBotAuthModeRequired
  else if bytes_eqb value webBotAuthModeRequired || bytes_eqb value webBotAuthModeUnsigned then Ok value
  else Err invalid_web_bot_auth.

Definition configuredPrivateKeyPath (getenv : bytes -> bytes) (name : bytes) : res error bytes :=
  let path := getenv name in
  if bytes_eqb path [] then Ok []
  else if negb (bytes_eqb (TrimSpace path) path) then Err invalid_web_bot_auth
  else Ok path.

Definition resolveWebBotAuthActivePrivateKeyPath (getenv : bytes -> bytes) : res error bytes :=
  let? activePath := configuredPrivateKeyPath getenv (bs "JOSHBOT_WEB_BOT_AUTH_ACTIVE_PRIVATE_KEY_FILE") in
  let? legacyPath := configuredPrivateKeyPath getenv (bs "JOSHBOT_WEB_BOT_AUTH_PRIVATE_KEY_FILE") in
  if negb (bytes_eqb activePath []) && negb (bytes_eqb legacyPath []) then Err invalid_web_bot_auth
  else if negb (bytes_eqb activePath []) then Ok activePath
  else Ok legacyPath.

Section Loading.
Context `{SHA256} `{Ed25519} `{KeyFiles}.
Variable files : bytes -> option stream.

Definition readWebBotAuthIdentityFile (path : bytes) : res error Identity :=
  match files path with
  | None => Err (errors_New errOpenWebBotAuthPrivateKeyFile)
  | Some file =>
      match ReadIdentity (Some file) with
      | Err e => Err (join (errors_New errInvalidWebBotAuthPrivateKey) e)
      | Ok i => Ok i
      end
  end.

Definition loadWebBotAuthConfig (getenv : environmentGetter) : res error webBotAuthConfig :=
  match getenv with
  | None => Err (errors_New errInvalidWebBotAuthConfiguration)
  | Some getenv =>
      let? mode := parseWebBotAuthMode (getenv (bs "JOSHBOT_WEB_BOT_AUTH_MODE")) in
      if bytes_eqb mode webBotAuthModeUnsigned then Ok (mkWebBotAuthConfig webBotAuthModeUnsigned None None)
      else
        let? activePath := resolveWebBotAuthActivePrivateKeyPath getenv in
        if bytes_eqb activePath [] then Err invalid_web_bot_auth
        else
          let? active := readWebBotAuthIdentityFile activePath in
          let? transitionPath := configuredPrivateKeyPath getenv (bs "JOSHBOT_WEB_BOT_AUTH_TRANSITION_PRIVATE_KEY_FILE") in
          if negb (bytes_eqb transitionPath []) then
            let? transition := readWebBotAuthIdentityFile transitionPath in
            if bytes_eqb (identity_keyID active) (identity_keyID transition)
            then Err (join (errors_New errInvalidWebBotAuthConfiguration) (errors_New errDuplicateWebBotAuthIdentities))
            else Ok (mkWebBotAuthConfig webBotAuthModeRequired (Some active) (Some transition))
          else Ok (mkWebBotAuthConfig webBotAuthModeRequired (Some active) None)
  end.

Definition loadWebBotAuthIdentity (getenv : environmentGetter) : res error (option Identity) :=
  let? config := loadWebBotAuthConfig getenv in Ok (config_active config).

(** The [*webbotauth.Signer] of the services; [None] is the nil pointer. *)
Definition loadWebBotAuthSigner {W} (rand_Reader : call W nat (res error bytes)) (time_Now : call W unit Z)
    (getenv : environmentGetter) : res error (option (Signer W)) :=
  let? config := loadWebBotAuthConfig getenv in
  if bytes_eqb (config_mode config) webBotAuthModeUnsigned then Ok None
  else let? signer := identity_Signer rand_Reader time_Now (config_active config) in Ok (Some signer).
End Loading.

(** The services pass that pointer as a [robots.RequestSigner]. An interface
    that holds a nil pointer is not nil: the client calls its [Sign]. *)
Definition http_request (request : Request) : http_Request :=
  mkHTTPRequest (Some (request_URL request)) [] (Some (request_Header request)).

Definition request_signer `{NetURL} `{NetIP} `{IDNA} `{Ed25519} {W} (signer : option (Signer W))
    : option (call W Request (res error header)) :=
  Some (fun w request =>
    let '(w', (signed, err)) := signer_Sign signer (Some (http_request request)) w in
    (w', match err with Some e => Err e | None => Ok (default ∅ (signed ≫= req_Header)) end)).

(** ** Conformance *)

Definition webBotAuthConformanceDirectoryURL : bytes := SignatureAgentURL.
Definition cloudflareWebBotAuthTestURL : bytes := bs "https://crawltest.com/cdn-cgi/web-bot-auth".
Definition webBotAuthExpectUnregistered : bytes := bs "unregistered".
Definition webBotAuthExpectVerified : bytes := bs "verified".

Definition conformance_failed : error := wrap (errors_New errWebBotAuthConformance).

Definition parseWebBotAuthConformanceArgs (args : list bytes) : option bytes :=
  match args with
  | [command; flag; expectation] =>
      if negb (bytes_eqb command (bs "web-bot-auth")) || negb (bytes_eqb flag (bs "--expect")) then None
      else if bytes_eqb expectation webBotAuthExpectUnregistered || bytes_eqb expectation webBotAuthExpectVerified
      then Some expectation else None
  | _ => None
  end.

(** What the command reads of an [http.Response] *)
Record conformance_response : Type := mkConformanceResponse {
  response_status : Z;
  response_header : option header;
  response_body : option stream;
}.
Record webBotAuthFetchResult : Type := mkFetchResult { fetch_status : Z; fetch_header : option header; fetch_body : bytes }.

(** [webBotAuthConformanceClient] *)
Abbreviation conformance_client W := (call W URL (res error (option conformance_response))) (only parsing).

Definition parseFixedHTTPSURL `{NetURL} (raw : bytes) : res error URL :=
  match url_Parse raw with
  | None => Err conformance_failed
  | Some target =>
      if negb (bytes_eqb (Scheme target) (bs "https")) || bytes_eqb (Host target) [] || negb (bytes_eqb (url_String target) raw)
      then Err conformance_failed else Ok target
  end.

Definition webBotAuthConformanceTargets `{NetURL} : res error (URL * URL) :=
  let? directory := parseFixedHTTPSURL webBotAuthConformanceDirectoryURL in
  let? probe := parseFixedHTTPSURL cloudflareWebBotAuthTestURL in
  Ok (directory, probe).

(** The parse errors of origins have no sentinel of their own here. *)
Definition webBotAuthDirectoryAuthority `{NetURL} `{NetIP} `{IDNA} (target : option URL) : res error bytes :=
  match target with
  | None => Err conformance_failed
  | Some target =>
      match Parse (url_String target) with
      | Err _ => Err (errors_New (foreign 0))
      | Ok canonical => Ok (Hostname canonical)
      end
  end.

Definition fetchWebBotAuth {W} (ctx : context W) (client : option (conformance_client W)) (target : option URL) (limit : nat) (w : W)
    : W * res error webBotAuthFetchResult :=
  match ctx with
  | None => (w, Err conformance_failed)
  | Some ctxErr =>
      match ctxErr w with
      | Some e => (w, Err e)
      | None =>
          match client, target with
          | Some client, Some target =>
              match client w target with
              | (w', Err e) =>
                  (w', Err match ctxErr w' with Some contextErr => contextErr | None => join (errors_New errWebBotAuthConformance) e end)
              | (w', Ok None) => (w', Err conformance_failed)
              | (w', Ok (Some response)) =>
                  match response_body response with
                  | None => (w', Err conformance_failed)
                  | Some body =>
                      match ReadAll_limit (limit + 1) body with
                      | Err e => (w', Err (join (errors_New errWebBotAuthConformance) e))
                      | Ok data =>
                          if (limit <? length data)%nat then (w', Err conformance_failed)
                          else (w', Ok (mkFetchResult (response_status response) (response_header response) data))
                      end
                  end
              end
          | _, _ => (w, Err conformance_failed)
          end
      end
  end.

Definition directoryPublishesKey (report : DirectoryReport) (keyID : bytes) : bool :=
  existsb (fun id => bytes_eqb id keyID) (KeyIDs report).

Definition unregistered_pass : bytes := bs "pass: Cloudflare accepted the Web Bot Auth request shape and did not verify the identity.".
Definition verified_pass : bytes := bs "pass: Cloudflare verified the Web Bot Auth request.".

Definition cloudflareWebBotAuthResult (expectation : bytes) (status : Z) : res error bytes :=
  if status =? 400 then Err conformance_failed
  else if status =? 401 then
    if bytes_eqb expectation webBotAuthExpectUnregistered then Ok unregistered_pass else Err conformance_failed
  else if status =? 200 then
    if bytes_eqb expectation webBotAuthExpectVerified then Ok verified_pass else Err conformance_failed
  else Err conformance_failed.

Definition text_line (s : bytes) : bytes := s ++ [line_break].

(** What the command prints *)
Definition writeWebBotAuthConformanceResult (report : DirectoryReport) (activeKeyID transitionKeyID : bytes) (status : Z) (pass : bytes) : bytes :=
  text_line (bs "directory: " ++ SignatureAgentURL) ++ text_line (bs "keys: " ++ FormatInt (Z.of_nat (length (KeyIDs report))))
  ++ text_line (bs "state: " ++ State report) ++ text_line (bs "active key: " ++ activeKeyID)
  ++ (if negb (bytes_eqb transitionKeyID []) then text_line (bs "transition key: " ++ transitionKeyID) else [])
  ++ text_line (bs "cloudflare: " ++ FormatInt status) ++ text_line pass.

Definition webBotAuthConformanceSigner {W} (rand_Reader : call W nat (res error bytes)) (time_Now : call W unit Z)
    (identity : option Identity) : res error (Signer W) :=
  match identity with
  | None => Err conformance_failed
  | Some _ => identity_Signer rand_Reader time_Now identity
  end.

Definition exitSuccess : Z := 0.
Definition exitFailure : Z := 1.
Definition exitUsage : Z := 2.

Section Conformance.
Context `{SHA256} `{Ed25519} `{KeyFiles} `{NetURL} `{NetIP} `{IDNA} `{Durations} {W : Type}.
Variable map_order : bytes -> dictionary -> dictionary.
Variable files : bytes -> option stream.
Variable rand_Reader : call W nat (res error bytes).
Variable time_Now : call W unit Z.
(** [newWebBotAuthConformanceClient]: the guarded client of the crawler *)
Variable new_client : Z -> Signer W -> HTTPConfig -> res error (conformance_client W).

(** The checks on a fetched directory: the report and the transition key *)
Definition check_directory (config : webBotAuthConfig) (now : Z) (authority : bytes) (directory : webBotAuthFetchResult)
    : res error (DirectoryReport * bytes) :=
  let? report := ValidateDirectory map_order now authority (fetch_status directory) (fetch_header directory) (fetch_body directory) in
  if negb (directoryPublishesKey report (identity_KeyID (config_active config))) then Err conformance_failed
  else
    match config_transition config with
    | None => Ok (report, [])
    | Some transition =>
        if negb (directoryPublishesKey report (identity_keyID transition)) then Err conformance_failed
        else Ok (report, identity_keyID transition)
    end.

(** The part that talks to the network: the directory, then the probe *)
Definition probe_conformance (ctx : context W) (expectation : bytes) (config : webBotAuthConfig) (client : conformance_client W)
    (directoryURL probeURL : URL) (authority : bytes) (w : W) : W * res error bytes :=
  match fetchWebBotAuth ctx (Some client) (Some directoryURL) (Z.to_nat MaxDirectoryBodySize) w with
  | (w1, Err e) => (w1, Err e)
  | (w1, Ok directory) =>
      let '(w2, now) := time_Now w1 () in
      match check_directory config now authority directory with
      | Err e => (w2, Err e)
      | Ok (report, transitionID) =>
          match fetchWebBotAuth ctx (Some client) (Some probeURL) (Z.to_nat MaxDirectoryBodySize) w2 with
          | (w3, Err e) => (w3, Err e)
          | (w3, Ok probe) =>
              (w3, let? pass := cloudflareWebBotAuthResult expectation (fetch_status probe) in
                   Ok (writeWebBotAuthConformanceResult report (identity_KeyID (config_active config)) transitionID (fetch_status probe) pass))
          end
      end
  end.

(** Everything before the network: the configuration, the client, the targets *)
Definition prepare_conformance (getenv : bytes -> bytes) (client : option (conformance_client W))
    : res error (webBotAuthConfig * conformance_client W * URL * URL * bytes) :=
  let? httpConfig := loadHTTPConfig getenv in
  let? config := loadWebBotAuthConfig files (Some getenv) in
  if negb (bytes_eqb (config_mode config) webBotAuthModeRequired) || bool_decide (config_active config = None)
  then Err conformance_failed
  else
    let? signer := webBotAuthConformanceSigner rand_Reader time_Now (config_active config) in
    let? requestDelay := loadWorkerRequestDelay getenv in
    let? client := match client with Some client => Ok client | None => new_client requestDelay signer httpConfig end in
    let? targets := webBotAuthConformanceTargets in
    let? authority := webBotAuthDirectoryAuthority (Some (fst targets)) in
    Ok (config, client, fst targets, snd targets, authority).

(** What is printed, or the error *)
Definition executeWebBotAuthConformance (ctx : context W) (expectation : bytes) (getenv : bytes -> bytes)
    (client : option (conformance_client W)) (w : W) : W * res error bytes :=
  match prepare_conformance getenv client with
  | Err e => (w, Err e)
  | Ok (config, client, directoryURL, probeURL, authority) =>
      probe_conformance ctx expectation config client directoryURL probeURL authority w
  end.

(** The exit code and the standard output *)
Definition runWebBotAuthConformance (ctx : context W) (args : list bytes) (getenv : bytes -> bytes)
    (client : option (conformance_client W)) (w : W) : W * (Z * bytes) :=
  match parseWebBotAuthConformanceArgs args with
  | None => (w, (exitUsage, []))
  | Some expectation =>
      match executeWebBotAuthConformance ctx expectation getenv client w with
      | (w', Err _) => (w', (exitFailure, []))
      | (w', Ok printed) => (w', (exitSuccess, printed))
      end
  end.
End Conformance.

(** * No request leaves unsigned *)

From S2P Require Import WebBotAuthFacts SignatureDirectoryFacts.

Definition mode_setting : bytes := bs "JOSHBOT_WEB_BOT_AUTH_MODE".
Definition active_setting : bytes := bs "JOSHBOT_WEB_BOT_AUTH_ACTIVE_PRIVATE_KEY_FILE".
Definition legacy_setting : bytes := bs "JOSHBOT_WEB_BOT_AUTH_PRIVATE_KEY_FILE".
Definition transition_setting : bytes := bs "JOSHBOT_WEB_BOT_AUTH_TRANSITION_PRIVATE_KEY_FILE".

(** The one key file that signs: the active setting or its older name, not
    both. *)
Definition active_path (getenv : bytes -> bytes) (path : bytes) : Prop :=
  path <> [] /\ TrimSpace path = path
  /\ ((getenv active_setting = path /\ getenv legacy_setting = []) \/ (getenv active_setting = [] /\ getenv legacy_setting = path)).

Lemma configured_path getenv name path : configuredPrivateKeyPath getenv name = Ok path ->
  path = getenv name /\ (path <> [] -> TrimSpace path = path).
Proof.
  unfold configuredPrivateKeyPath. destruct (bytes_eqb_spec (getenv name) []) as [He|]; [intros [= <-]; by rewrite He|].
  destruct (bytes_eqb_spec (TrimSpace (getenv name)) (getenv name)) as [Ht|]; cbn [negb]; [|done]. by intros [= <-].
Qed.

Lemma active_path_resolved getenv path : resolveWebBotAuthActivePrivateKeyPath getenv = Ok path -> path <> [] -> active_path getenv path.
Proof.
  unfold resolveWebBotAuthActivePrivateKeyPath. fold active_setting legacy_setting.
  destruct (configuredPrivateKeyPath getenv active_setting) as [a|] eqn:Ha; cbn [res_bind]; [|done].
  destruct (configuredPrivateKeyPath getenv legacy_setting) as [l|] eqn:Hl; cbn [res_bind]; [|done].
  apply configured_path in Ha as [-> Ha], Hl as [-> Hl]. unfold active_path.
  destruct (bytes_eqb_spec (getenv active_setting) []) as [He|He], (bytes_eqb_spec (getenv legacy_setting) []) as [He'|He'];
    cbn [negb andb]; intros [= <-]; intros Hne; try done; split_and!; auto.
Qed.

Section Loaded.
Context `{SHA256} `{!SHA256Laws} `{Ed25519} `{!Ed25519Laws} `{KeyFiles}.
Variable files : bytes -> option stream.

(** The identity of a key file *)
Definition file_identity (path : bytes) (i : Identity) : Prop :=
  exists file, files path = Some file /\ ReadIdentity (Some file) = Ok i.

Lemma identity_file path i : readWebBotAuthIdentityFile files path = Ok i -> file_identity path i.
Proof.
  unfold readWebBotAuthIdentityFile. destruct (files path) as [file|] eqn:Hf; [|done].
  destruct (ReadIdentity (Some file)) as [j|] eqn:Hr; [|done]. intros [= ->]. by exists file.
Qed.

(** What a configuration that loads says. *)
Inductive configured (getenv : bytes -> bytes) : webBotAuthConfig -> Prop :=
| configured_unsigned : getenv mode_setting = webBotAuthModeUnsigned ->
    configured getenv (mkWebBotAuthConfig webBotAuthModeUnsigned None None)
| configured_required path active transition :
    getenv mode_setting = [] \/ getenv mode_setting = webBotAuthModeRequired ->
    active_path getenv path -> file_identity path active ->
    match transition with
    | None => getenv transition_setting = []
    | Some t => getenv transition_setting <> [] /\ TrimSpace (getenv transition_setting) = getenv transition_setting
        /\ file_identity (getenv transition_setting) t /\ identity_keyID t <> identity_keyID active
    end -> configured getenv (mkWebBotAuthConfig webBotAuthModeRequired (Some active) transition).

Lemma config_loaded getenv config : loadWebBotAuthConfig files (Some getenv) = Ok config -> configured getenv config.
Proof.
  cbn [loadWebBotAuthConfig]. fold mode_setting transition_setting. unfold parseWebBotAuthMode.
  assert (Hmode : forall v (k : bytes -> res error webBotAuthConfig),
    (let? mode := if bytes_eqb v [] then Ok webBotAuthModeRequired
                  else if bytes_eqb v webBotAuthModeRequired || bytes_eqb v webBotAuthModeUnsigned then Ok v else Err invalid_web_bot_auth in
     k mode) = Ok config ->
    (v = webBotAuthModeUnsigned /\ k webBotAuthModeUnsigned = Ok config)
    \/ ((v = [] \/ v = webBotAuthModeRequired) /\ k webBotAuthModeRequired = Ok config)).
  { intros v k. destruct (bytes_eqb_spec v []) as [->|]; cbn [res_bind]; [by auto|].
    destruct (bytes_eqb_spec v webBotAuthModeRequired) as [->|]; cbn [orb res_bind]; [by auto|].
    destruct (bytes_eqb_spec v webBotAuthModeUnsigned) as [->|]; cbn [res_bind]; [by auto|done]. }
  intros Hc. apply Hmode in Hc as [[Hm Hc]|[Hm Hc]]; clear Hmode.
  { change (bytes_eqb webBotAuthModeUnsigned webBotAuthModeUnsigned) with true in Hc. cbv iota in Hc. injection Hc as <-. by constructor. }
  change (bytes_eqb webBotAuthModeRequired webBotAuthModeUnsigned) with false in Hc. cbv iota in Hc.
  destruct (resolveWebBotAuthActivePrivateKeyPath getenv) as [path|] eqn:Hp; cbn [res_bind] in Hc; [|done].
  destruct (bytes_eqb_spec path []) as [|Hne]; [done|]. apply active_path_resolved in Hp; [|done].
  destruct (readWebBotAuthIdentityFile files path) as [active|] eqn:Ha; cbn [res_bind] in Hc; [|done]. apply identity_file in Ha.
  destruct (configuredPrivateKeyPath getenv transition_setting) as [tp|] eqn:Ht; cbn [res_bind] in Hc; [|done].
  apply configured_path in Ht as [-> Htrim]. destruct (bytes_eqb_spec (getenv transition_setting) []) as [He|He]; cbn [negb] in Hc.
  - injection Hc as <-. by apply (configured_required getenv path active None).
  - destruct (readWebBotAuthIdentityFile files (getenv transition_setting)) as [t|] eqn:Hr; cbn [res_bind] in Hc; [|done].
    apply identity_file in Hr. destruct (bytes_eqb_spec (identity_keyID active) (identity_keyID t)) as [|Hk]; [done|]. injection Hc as <-.
    apply (configured_required getenv path active (Some t)); try done. by split_and!; [|apply Htrim| |].
Qed.

Lemma path_configured getenv name : TrimSpace (getenv name) = getenv name \/ getenv name = [] ->
  configuredPrivateKeyPath getenv name = Ok (getenv name).
Proof.
  intros Ht. unfold configuredPrivateKeyPath. destruct (bytes_eqb_spec (getenv name) []) as [->|]; [done|].
  destruct Ht as [Ht|]; [|done]. rewrite Ht. by destruct (bytes_eqb_spec (getenv name) (getenv name)).
Qed.

Lemma file_identity_read path i : file_identity path i -> readWebBotAuthIdentityFile files path = Ok i.
Proof. intros (file & Hf & Hr). unfold readWebBotAuthIdentityFile. by rewrite Hf, Hr. Qed.

Lemma resolves_active getenv path : active_path getenv path -> resolveWebBotAuthActivePrivateKeyPath getenv = Ok path.
Proof.
  intros (Hne & Ht & Hp). unfold resolveWebBotAuthActivePrivateKeyPath. fold active_setting legacy_setting.
  rewrite !path_configured by (destruct Hp as [[Ha Hl]|[Ha Hl]]; rewrite ?Ha, ?Hl; auto). cbn [res_bind].
  assert (Hn : bytes_eqb path [] = false) by (by destruct (bytes_eqb_spec path [])).
  destruct Hp as [[-> ->]|[-> ->]]; rewrite Hn; done.
Qed.

(** The configurations described are the ones that load. *)
Lemma configured_loads getenv config : configured getenv config -> loadWebBotAuthConfig files (Some getenv) = Ok config.
Proof.
  intros [Hm|path active transition Hm Hp Ha Ht]; cbn [loadWebBotAuthConfig]; fold mode_setting transition_setting; [by rewrite Hm|].
  assert (Hmode : parseWebBotAuthMode (getenv mode_setting) = Ok webBotAuthModeRequired) by (by destruct Hm as [-> | ->]).
  rewrite Hmode. cbn [res_bind]. change (bytes_eqb webBotAuthModeRequired webBotAuthModeUnsigned) with false. cbv iota.
  rewrite (resolves_active _ _ Hp). cbn [res_bind]. destruct (bytes_eqb_spec path []) as [|]; [by destruct Hp|].
  rewrite (file_identity_read _ _ Ha). cbn [res_bind]. destruct transition as [t|].
  - destruct Ht as (Hne & Htrim & Ht & Hk). rewrite path_configured by auto. cbn [res_bind].
    destruct (bytes_eqb_spec (getenv transition_setting) []); [done|]. cbn [negb]. rewrite (file_identity_read _ _ Ht). cbn [res_bind].
    by destruct (bytes_eqb_spec (identity_keyID active) (identity_keyID t)).
  - rewrite path_configured by auto. cbn [res_bind]. by rewrite Ht.
Qed.

Lemma unsigned_loaded getenv : getenv mode_setting = webBotAuthModeUnsigned ->
  loadWebBotAuthConfig files (Some getenv) = Ok (mkWebBotAuthConfig webBotAuthModeUnsigned None None).
Proof. intros Hm. cbn [loadWebBotAuthConfig]. fold mode_setting. by rewrite Hm. Qed.

(** The identity behind a file is one that a seed generates. *)
Lemma file_identity_seed path i : file_identity path i -> exists key, NewIdentity key = Ok i.
Proof.
  intros (file & _ & Hr). unfold ReadIdentity, ParsePrivateKeyPEM in Hr.
  repeat (case_match; simplify_eq); eauto.
Qed.

Lemma identity_signs {W} (rand_Reader : call W nat (res error bytes)) (time_Now : call W unit Z) key i :
  NewIdentity key = Ok i -> is_ok (identity_Signer rand_Reader time_Now (Some i)) = true.
Proof.
  intros (seed & Hl & -> & ->)%NewIdentity_seed. destruct (identity_of_ok seed Hl) as (_ & Hp & _ & _ & _ & _ & Hv).
  destruct (NewKeyFromSeed_seed seed Hl) as [Hk _]. unfold identity_Signer, NewSigner, newSigner. by rewrite Hp, Hk, Hv.
Qed.

Section Signer.
Context {W : Type} (rand_Reader : call W nat (res error bytes)) (time_Now : call W unit Z).

Lemma signer_loaded getenv s : loadWebBotAuthSigner files rand_Reader time_Now (Some getenv) = Ok s ->
  match s with
  | None => getenv mode_setting = webBotAuthModeUnsigned
  | Some signer => getenv mode_setting <> webBotAuthModeUnsigned
      /\ exists path active, active_path getenv path /\ file_identity path active
           /\ identity_Signer rand_Reader time_Now (Some active) = Ok signer
  end.
Proof.
  unfold loadWebBotAuthSigner. destruct (loadWebBotAuthConfig files (Some getenv)) as [config|] eqn:Hc; cbn [res_bind]; [|done].
  apply config_loaded in Hc as [Hm|path active transition Hm Hp Ha _]; cbn [config_mode config_active].
  - by intros [= <-].
  - change (bytes_eqb webBotAuthModeRequired webBotAuthModeUnsigned) with false. cbv iota.
    destruct (identity_Signer rand_Reader time_Now (Some active)) as [signer|] eqn:Hs; cbn [res_bind]; [|done]. intros [= <-].
    split; [|by exists path, active]. intros He. rewrite He in Hm. by destruct Hm.
Qed.
End Signer.
End Loaded.

Section Enforced.
Context `{SHA256} `{!SHA256Laws} `{Ed25519} `{!Ed25519Laws} `{KeyFiles} `{NetURL} `{NetIP} `{IDNA} {W : Type}.
Variable files : bytes -> option stream.
Variable map_order : list Addr -> list Addr.
Variables (rand_Reader : call W nat (res error bytes)) (time_Now : call W unit Z).
Hypothesis clock : forall w w' now, time_Now w () = (w', now) -> clock_sane now.

(** A hop with the identity of the active key file: a request that was sent is
    the one this identity signed, in the state the resolution left, and it went
    out in the state the signing left. *)
Definition signed_hop (active : Identity) (resolver : option (call W bytes (res error (list Addr)))) (roundTrip : call W Request (res error Response))
    (config : HTTPConfig) (ctxErr : W -> option error) (target : URL) (w w' : W) (log : list Request) (r : res error (option Response)) : Prop :=
  match Resolve map_order (Some ctxErr) (match Origin.Parse (url_String target) with Ok o => o | Err _ => zero_origin end) resolver w with
  | (w1, Err _) => log = [] /\ is_ok r = false
  | (w1, Ok d) =>
      let request h := mkRequest target h d (transport_config config) in
      exists w2 signed err, signing_outcome rand_Reader time_Now active (http_request (request unsigned_header)) w1 w2 signed err
        /\ match err with
           | Some _ => log = [] /\ is_ok r = false
           | None => exists h, signed = Some (http_request (request h)) /\ log = [request h] /\ w' = fst (roundTrip w2 (request h))
           end
  end.

(** C16: The mode is explicit and signing cannot be skipped. In the required
    mode the services' signer is that of the identity in the active key file
    (not of the transition key). A hop of the crawler's client resolves the
    target, has that identity sign the request it built, and what it sends is
    exactly the signed request: its headers verify under the active identity's
    public key and key identifier, for the target's authority, with the nonce
    and the clock reading of this hop. When the resolution or the signing fails
    nothing is sent. The services get no signer only when the mode is
    [unsigned]; the client is then given an interface that holds a nil pointer
    and sends nothing: every hop fails, although the documentation offers the
    mode for local development. *)
Theorem no_unsigned_request getenv s resolver roundTrip config ctxErr target w w' log r :
  loadWebBotAuthSigner files rand_Reader time_Now (Some getenv) = Ok s ->
  guarded_get map_order (option_map unlogged resolver) (option_map unlogged (request_signer s)) (logged roundTrip)
    config (ctx_lift ctxErr) target (w, []) = ((w', log), r) ->
  match s with
  | None => getenv mode_setting = webBotAuthModeUnsigned /\ log = [] /\ is_ok r = false
  | Some signer => getenv mode_setting <> webBotAuthModeUnsigned
      /\ exists path active, active_path getenv path /\ file_identity files path active
           /\ identity_Signer rand_Reader time_Now (Some active) = Ok signer
           /\ signed_hop active resolver roundTrip config ctxErr target w w' log r
  end.
Proof.
  intros Hload. pose proof (signer_loaded files rand_Reader time_Now getenv s Hload) as Hs. intros Hget%guarded_get_hop. revert Hget.
  unfold hop_outcome. destruct s as [signer|].
  2:{ destruct (Resolve _ _ _ _ _) as [w1 [d|e]]; [|by intros (_ & -> & ->)]. cbv zeta. by intros (_ & -> & ->). }
  destruct Hs as (Hm & path & active & Hp & Ha & Hid). destruct (file_identity_seed files path active Ha) as [key Hkey].
  intros Hhop. split; [done|]. exists path, active. split_and!; try done. revert Hhop. unfold signed_hop.
  destruct (Resolve _ _ _ _ _) as [w1 [d|e]]; [|by intros (_ & -> & ->)]. cbv zeta. cbn [request_signer].
  set (request := http_request _).
  destruct (signed_request_verifies_aux rand_Reader time_Now key active request w1 clock Hkey) as (signer' & Hid' & Hout).
  assert (signer' = signer) as -> by congruence. destruct (signer_Sign (Some signer) (Some request) w1) as [w2 [signed err]] eqn:Hsign.
  specialize (Hout w2 signed err eq_refl). destruct err as [e|].
  { intros (_ & -> & ->). exists w2, signed, (Some e). by split_and!. }
  intros [-> ->]. exists w2, signed, None. split; [done|]. destruct Hout as (authority & w3 & nonce & now & h & _ & _ & _ & -> & _).
  by exists h.
Qed.
End Enforced.

(** * What a passing conformance check means *)


Section Conformance.
Context `{SHA256} `{!SHA256Laws} `{Ed25519} `{!Ed25519Laws} `{KeyFiles} `{NetURL} `{NetIP} `{IDNA} `{Durations} {W : Type}.
Variable map_order : bytes -> dictionary -> dictionary.
Hypothesis map_order_perm : forall id d, map_order id d ≡ₚ d.
Variable files : bytes -> option stream.
Variables (rand_Reader : call W nat (res error bytes)) (time_Now : call W unit Z).
Hypothesis clock : forall w w' now, time_Now w () = (w', now) -> clock_sane now.
Variable ctxErr : W -> option error.
Variable client : conformance_client W.

(** A response that was read whole, within the limit *)
Definition answered (response : conformance_response) (body : bytes) : Prop :=
  response_body response = Some (mkStream body None) /\ Z.of_nat (length body) <= MaxDirectoryBodySize.

Lemma read_answered response stream body : response_body response = Some stream ->
  ReadAll_limit (Z.to_nat MaxDirectoryBodySize + 1) stream = Ok body /\ (length body <= Z.to_nat MaxDirectoryBodySize)%nat <-> answered response body.
Proof.
  assert (Hn : Z.of_nat (Z.to_nat MaxDirectoryBodySize) = MaxDirectoryBodySize) by (by apply Z2Nat.id).
  intros Hb. unfold answered, ReadAll_limit. rewrite Hb. revert Hn. generalize (Z.to_nat MaxDirectoryBodySize). generalize MaxDirectoryBodySize. intros m n Hn. destruct stream as [data e]; cbn [stream_bytes stream_error].
  destruct (Nat.leb_spec (n + 1) (length data)).
  - split; intros [He Hl]; [injection He as <-; rewrite length_take in Hl; lia|injection He as -> _; lia].
  - destruct e; [by split; intros [He _]|]. split; intros [He Hl]; injection He as ->; (split; [done|lia]).
Qed.

Lemma fetch_logged target w log :
  match fetchWebBotAuth (Some (ctx_lift ctxErr)) (Some (logged client)) (Some target) (Z.to_nat MaxDirectoryBodySize) (w, log) with
  | ((w', log'), Ok result) => ctxErr w = None /\ log' = log ++ [target]
      /\ exists response, client w target = (w', Ok (Some response)) /\ answered response (fetch_body result)
           /\ fetch_status result = response_status response /\ fetch_header result = response_header response
  | (_, Err _) => forall w' response body, ctxErr w = None -> client w target = (w', Ok (Some response)) -> ~ answered response body
  end.
Proof.
  unfold fetchWebBotAuth. change (ctx_lift ctxErr (w, log)) with (ctxErr w). destruct (ctxErr w); [done|].
  unfold logged. destruct (client w target) as [w1 [[response|]|e]]; cbv beta iota zeta; [|done|done].
  destruct (response_body response) as [stream|] eqn:Hb; [|by intros ? ? body _ [= _ <-] [He _]; rewrite Hb in He].
  pose proof (read_answered response stream) as Hans. destruct (ReadAll_limit _ stream) as [data|].
  2:{ intros ? ? body _ [= _ <-] [? _]%Hans; done. }
  destruct (Nat.ltb_spec (Z.to_nat MaxDirectoryBodySize) (length data)).
  - intros ? ? body _ [= _ <-] [[= <-] ?]%Hans; [lia|done].
  - split_and!; [done|done|]. exists response. cbn [fetch_body fetch_status fetch_header]. split_and!; try done. by apply Hans.
Qed.

(** A fixed target *)
Definition fixed (raw : bytes) (target : URL) : Prop :=
  url_Parse raw = Some target /\ Scheme target = bs "https" /\ Host target <> [] /\ url_String target = raw.

Lemma fixed_url raw target : parseFixedHTTPSURL raw = Ok target <-> fixed raw target.
Proof.
  unfold parseFixedHTTPSURL, fixed. destruct (url_Parse raw) as [t|]; [|by split; [|intros [? _]]].
  destruct (bytes_eqb_spec (Scheme t) (bs "https")), (bytes_eqb_spec (Host t) []), (bytes_eqb_spec (url_String t) raw); cbn [negb orb];
    (split; [intros [= <-]|intros ([= <-] & ? & ? & ?)]); by try split_and!.
Qed.

Lemma published_key report id : directoryPublishesKey report id = true <-> id ∈ KeyIDs report.
Proof.
  unfold directoryPublishesKey. rewrite existsb_exists, list_elem_of_In. split.
  - intros (x & Hx & He). by destruct (bytes_eqb_spec x id) as [->|].
  - intros Hin. exists id. split; [done|]. by destruct (bytes_eqb_spec id id).
Qed.

(** The directory publishes the configured identities. *)
Definition directory_holds (config : webBotAuthConfig) (now : Z) (authority : bytes) (status : Z) (h : option header) (body : bytes)
    (keys : list directoryKey) : Prop :=
  published now authority status h body keys
  /\ identity_KeyID (config_active config) ∈ map key_id keys
  /\ forall t, config_transition config = Some t -> identity_keyID t ∈ map key_id keys.

Definition key_report (keys : list directoryKey) : DirectoryReport := mkDirectoryReport (directory_state keys) (map key_id keys).

Lemma directory_checked config now authority directory report transitionID : clock_sane now ->
  check_directory map_order config now authority directory = Ok (report, transitionID)
  <-> exists keys, directory_holds config now authority (fetch_status directory) (fetch_header directory) (fetch_body directory) keys
        /\ report = key_report keys /\ transitionID = identity_KeyID (config_transition config).
Proof.
  intros Hnow. unfold check_directory, directory_holds.
  pose proof (directory_validated_aux map_order map_order_perm now authority Hnow (fetch_status directory) (fetch_header directory) (fetch_body directory)) as Hv.
  destruct (ValidateDirectory _ _ _ _ _ _) as [rep|e]; cbn [res_bind];
    [|split; [done|]; intros (keys & [Hp _] & _); by apply Hv in Hp].
  destruct Hv as (keys & Hpub & Hids & Hstate & _). assert (rep = key_report keys) as -> by (destruct rep; cbn in *; by subst).
  assert (Hinj : forall keys', published now authority (fetch_status directory) (fetch_header directory) (fetch_body directory) keys' -> keys' = keys).
  { intros keys' (? & _ & _ & _ & _ & Hk' & _). destruct Hpub as (? & _ & _ & _ & _ & Hk & _). by eapply key_set_inj. }
  pose proof (published_key (key_report keys)) as Hkey. cbn [key_report KeyIDs] in Hkey.
  destruct (directoryPublishesKey (key_report keys) (identity_KeyID (config_active config))) eqn:Ha; cbn [negb].
  2:{ split; [done|]. intros (keys' & (->%Hinj & Hin & _) & _). apply Hkey in Hin. congruence. }
  apply Hkey in Ha. destruct (config_transition config) as [t|] eqn:Ht.
  - destruct (directoryPublishesKey (key_report keys) (identity_keyID t)) eqn:Hk; cbn [negb].
    + apply Hkey in Hk. split; [intros [= <- <-]; exists keys; split_and!; try done; by intros ? [= <-]|].
      by intros (keys' & (->%Hinj & _) & -> & ->).
    + split; [done|]. intros (keys' & (->%Hinj & _ & Hin) & _). specialize (Hin t eq_refl). apply Hkey in Hin. congruence.
  - split; [intros [= <- <-]; by exists keys|]. by intros (keys' & (->%Hinj & _) & -> & ->).
Qed.

(** The status an expectation asks of the probe, and the line it prints *)
Definition expected_status (expectation : bytes) : Z := if bytes_eqb expectation webBotAuthExpectVerified then 200 else 401.
Definition pass_line (expectation : bytes) : bytes := if bytes_eqb expectation webBotAuthExpectVerified then verified_pass else unregistered_pass.

Definition documented (expectation : bytes) : Prop := expectation = webBotAuthExpectUnregistered \/ expectation = webBotAuthExpectVerified.

Lemma probe_result expectation status pass : documented expectation ->
  cloudflareWebBotAuthResult expectation status = Ok pass <-> status = expected_status expectation /\ pass = pass_line expectation.
Proof.
  unfold cloudflareWebBotAuthResult. intros [-> | ->];
    change (expected_status webBotAuthExpectUnregistered) with 401; change (expected_status webBotAuthExpectVerified) with 200;
    destruct (Z.eqb_spec status 400), (Z.eqb_spec status 401), (Z.eqb_spec status 200); cbn;
    split; first [done|intros [= <-]; by subst|intros [? ->]; try done; lia].
Qed.

(** What is needed before the network: settings that load, a signed
    configuration and the fixed targets *)
Definition ready (getenv : bytes -> bytes) (config : webBotAuthConfig) (directoryURL probeURL : URL) (authority : bytes) : Prop :=
  is_ok (loadHTTPConfig getenv) = true /\ is_ok (loadWorkerRequestDelay getenv) = true
  /\ configured files getenv config /\ is_Some (config_active config)
  /\ fixed SignatureAgentURL directoryURL /\ fixed cloudflareWebBotAuthTestURL probeURL
  /\ exists o, Origin.Parse SignatureAgentURL = Ok o /\ authority = Hostname o.

Lemma prepared getenv new_client config c directoryURL probeURL authority :
  prepare_conformance files (unlogged rand_Reader) (unlogged time_Now) new_client getenv (Some (logged client))
    = Ok (config, c, directoryURL, probeURL, authority)
  <-> ready getenv config directoryURL probeURL authority /\ c = logged client.
Proof.
  unfold prepare_conformance, ready. destruct (loadHTTPConfig getenv) as [http|]; cbn [res_bind is_ok]; [|by split; [|intros [[? _] _]]].
  split.
  - destruct (loadWebBotAuthConfig files (Some getenv)) as [config'|] eqn:Hc; cbn [res_bind]; [|done]. apply config_loaded in Hc.
    destruct (negb _ || _) eqn:Hg; [done|]. rewrite orb_false_iff, bool_decide_eq_false in Hg. destruct Hg as [_ Hactive].
    destruct (webBotAuthConformanceSigner _ _ _) as [signer|]; cbn [res_bind]; [|done]. destruct (loadWorkerRequestDelay getenv) as [delay|]; cbn [res_bind]; [|done].
    unfold webBotAuthConformanceTargets. destruct (parseFixedHTTPSURL webBotAuthConformanceDirectoryURL) as [d|] eqn:Hd; cbn [res_bind]; [|done].
    destruct (parseFixedHTTPSURL cloudflareWebBotAuthTestURL) as [p|] eqn:Hp; cbn [res_bind fst snd]; [|done].
    apply fixed_url in Hd, Hp. unfold webBotAuthDirectoryAuthority. rewrite (proj2 (proj2 (proj2 Hd))).
    destruct (Origin.Parse webBotAuthConformanceDirectoryURL) as [o|] eqn:Ho; cbn [res_bind]; [|done]. intros [= <- <- <- <- <-].
    split_and!; try done; [by apply not_eq_None_Some|by exists o].
  - intros [(_ & Hdelay & Hc & [active Hactive] & Hd & Hp & o & Ho & ->) ->]. rewrite (configured_loads _ _ _ Hc). cbn [res_bind].
    destruct Hc as [|path active' transition Hm Hpath Hfile Ht]; [done|]. cbn [config_active config_mode] in *. injection Hactive as ->.
    change (bytes_eqb webBotAuthModeRequired webBotAuthModeRequired) with true. rewrite bool_decide_eq_false_2 by done. cbn [negb orb].
    destruct (file_identity_seed _ _ _ Hfile) as [key Hkey].
    assert (Hsig : is_ok (webBotAuthConformanceSigner (unlogged rand_Reader : call (W * list URL) _ _) (unlogged time_Now) (Some active)) = true)
      by (by eapply identity_signs).
    destruct (webBotAuthConformanceSigner _ _ _) as [signer|]; [|done]. cbn [res_bind]. destruct (loadWorkerRequestDelay getenv); [|done]. cbn [res_bind].
    unfold webBotAuthConformanceTargets, webBotAuthConformanceDirectoryURL. rewrite (proj2 (fixed_url _ _) Hd). cbn [res_bind]. rewrite (proj2 (fixed_url _ _) Hp). cbn [res_bind fst snd].
    unfold webBotAuthDirectoryAuthority. rewrite (proj2 (proj2 (proj2 Hd))), Ho. done.
Qed.

(** A passing run from [w] to [w']: what the client answered, when the clock
    was read, and what is printed *)
Definition passed (expectation : bytes) (getenv : bytes -> bytes) (w w' : W) (log : list URL) (printed : bytes) : Prop :=
  exists config directoryURL probeURL authority,
    ready getenv config directoryURL probeURL authority /\ log = [directoryURL; probeURL]
    /\ exists w1 directory body w2 now keys probe probe_body,
         ctxErr w = None /\ client w directoryURL = (w1, Ok (Some directory)) /\ answered directory body
         /\ time_Now w1 () = (w2, now)
         /\ directory_holds config now authority (response_status directory) (response_header directory) body keys
         /\ ctxErr w2 = None /\ client w2 probeURL = (w', Ok (Some probe)) /\ answered probe probe_body
         /\ response_status probe = expected_status expectation
         /\ printed = writeWebBotAuthConformanceResult (key_report keys) (identity_KeyID (config_active config))
                        (identity_KeyID (config_transition config)) (expected_status expectation) (pass_line expectation).

Lemma execute_sound new_client expectation getenv w w' log printed : documented expectation ->
  executeWebBotAuthConformance map_order files (unlogged rand_Reader) (unlogged time_Now) new_client (Some (ctx_lift ctxErr)) expectation getenv
    (Some (logged client)) (w, []) = ((w', log), Ok printed) -> passed expectation getenv w w' log printed.
Proof.
  intros Hex. unfold executeWebBotAuthConformance.
  destruct (prepare_conformance _ _ _ _ _ _) as [[[[[config c] directoryURL] probeURL] authority]|] eqn:Hprep; [|done].
  apply prepared in Hprep as [Hready ->]. unfold probe_conformance.
  pose proof (fetch_logged directoryURL w []) as Hf1. destruct (fetchWebBotAuth _ _ (Some directoryURL) _ _) as [[w1 log1] [directory|]]; [|done].
  destruct Hf1 as (Hctx1 & -> & response & Hreply & Hbody & Hst1 & Hhd). unfold unlogged at 1. destruct (time_Now w1 ()) as [w2 now] eqn:Hnow.
  destruct (check_directory map_order config now authority directory) as [[report transitionID]|] eqn:Hcheck; [|done].
  apply directory_checked in Hcheck as (keys & Hdir & -> & ->); [|by eapply clock]. rewrite Hst1, Hhd in Hdir.
  pose proof (fetch_logged probeURL w2 ([] ++ [directoryURL])) as Hf2. destruct (fetchWebBotAuth _ _ (Some probeURL) _ _) as [[w3 log3] [probe|]]; [|done].
  destruct Hf2 as (Hctx2 & -> & presponse & Hpreply & Hpbody & Hst2 & _).
  destruct (cloudflareWebBotAuthResult expectation (fetch_status probe)) as [pass|] eqn:Hpass; cbn [res_bind]; [|done].
  apply probe_result in Hpass as [Hst ->]; [|done]. rewrite Hst. intros [= <- <- <-]. exists config, directoryURL, probeURL, authority. split_and!; try done.
  exists w1, response, (fetch_body directory), w2, now, keys, presponse, (fetch_body probe). split_and!; try done. congruence.
Qed.

Lemma execute_complete new_client expectation getenv w w' log printed : documented expectation -> passed expectation getenv w w' log printed ->
  executeWebBotAuthConformance map_order files (unlogged rand_Reader) (unlogged time_Now) new_client (Some (ctx_lift ctxErr)) expectation getenv
    (Some (logged client)) (w, []) = ((w', log), Ok printed).
Proof.
  intros Hex (config & directoryURL & probeURL & authority & Hready & -> & w1 & response & body & w2 & now & keys & presponse & pbody
    & Hctx1 & Hreply & Hbody & Hnow & Hdir & Hctx2 & Hpreply & Hpbody & Hst & ->). unfold executeWebBotAuthConformance.
  rewrite (proj2 (prepared _ _ _ _ _ _ _) (conj Hready eq_refl)). unfold probe_conformance.
  pose proof (fetch_logged directoryURL w []) as Hf1. destruct (fetchWebBotAuth _ _ (Some directoryURL) _ _) as [[w1' log1] [directory|]];
    [|by destruct (Hf1 w1 response body)].
  destruct Hf1 as (_ & -> & response' & Hreply' & Hbody' & Hst1 & Hhd). rewrite Hreply in Hreply'. injection Hreply' as <- <-.
  assert (fetch_body directory = body) as Hfb by (destruct Hbody, Hbody'; congruence).
  unfold unlogged at 1. rewrite Hnow.
  rewrite (proj2 (directory_checked config now authority directory (key_report keys) (identity_KeyID (config_transition config)) (clock _ _ _ Hnow)))
    by (exists keys; by rewrite Hst1, Hhd, Hfb).
  pose proof (fetch_logged probeURL w2 ([] ++ [directoryURL])) as Hf2. destruct (fetchWebBotAuth _ _ (Some probeURL) _ _) as [[w3 log3] [probe|]];
    [|by destruct (Hf2 w' presponse pbody)].
  destruct Hf2 as (_ & -> & presponse' & Hpreply' & _ & Hst2 & _). rewrite Hpreply in Hpreply'. injection Hpreply' as <- <-.
  rewrite Hst2, Hst, (proj2 (probe_result _ _ _ Hex) (conj eq_refl eq_refl)). done.
Qed.

Lemma arguments_parsed args expectation : parseWebBotAuthConformanceArgs args = Some expectation
  <-> args = [bs "web-bot-auth"; bs "--expect"; expectation] /\ documented expectation.
Proof.
  split; [|by intros [-> [-> | ->]]]. destruct args as [|c [|f [|e [|]]]]; try done. cbn [parseWebBotAuthConformanceArgs].
  destruct (bytes_eqb_spec c (bs "web-bot-auth")) as [->|]; [|done]. destruct (bytes_eqb_spec f (bs "--expect")) as [->|]; [|done].
  cbn [negb orb]. unfold documented.
  destruct (bytes_eqb_spec e webBotAuthExpectUnregistered), (bytes_eqb_spec e webBotAuthExpectVerified); cbn [orb]; intros; simplify_eq; auto.
Qed.

(** C18: The conformance command succeeds exactly in a passing run: the
    arguments are the documented ones, the settings load and the configured
    mode is signed; the response the client gave for the directory's address
    was read whole within 64 KiB and, with its own status, headers and body,
    validates at the instant the clock showed right after it arrived; the keys
    it publishes hold the active key, and the transition key when one is
    configured; and the response the client then gave for the probe has the
    status of the expectation. What is printed reports those keys. Every other
    run prints nothing: malformed arguments exit as a usage error before any
    request, and documented ones fail. *)
Theorem conformance_sound new_client args getenv w w' log code printed :
  runWebBotAuthConformance map_order files (unlogged rand_Reader) (unlogged time_Now) new_client (Some (ctx_lift ctxErr)) args getenv
    (Some (logged client)) (w, []) = ((w', log), (code, printed)) ->
  (exists expectation, args = [bs "web-bot-auth"; bs "--expect"; expectation] /\ documented expectation
     /\ if code =? exitSuccess then passed expectation getenv w w' log printed
        else code = exitFailure /\ printed = [] /\ forall w' log printed, ~ passed expectation getenv w w' log printed)
  \/ (code = exitUsage /\ printed = [] /\ log = [] /\ w' = w
      /\ forall expectation, documented expectation -> args <> [bs "web-bot-auth"; bs "--expect"; expectation]).
Proof.
  unfold runWebBotAuthConformance. destruct (parseWebBotAuthConformanceArgs args) as [expectation|] eqn:Hargs.
  2:{ intros [= <- <- <- <-]. right. split_and!; try done. intros expectation Hex Ha.
      by rewrite (proj2 (arguments_parsed _ _) (conj Ha Hex)) in Hargs. }
  apply arguments_parsed in Hargs as [-> Hex]. intros Hrun. left. exists expectation. split_and!; [done|done|]. revert Hrun.
  pose proof (execute_sound new_client expectation getenv w) as Hsound. pose proof (execute_complete new_client expectation getenv w) as Hcomplete.
  destruct (executeWebBotAuthConformance _ _ _ _ _ _ _ _ _ _) as [[w1 log1] [text|e]] eqn:Hexec; intros [= <- <- <- <-]; cbn [Z.eqb exitSuccess exitFailure].
  - by apply Hsound.
  - split_and!; [done|done|]. intros w2 log2 text Hp. by specialize (Hcomplete w2 log2 text Hex Hp).
Qed.
End Conformance.
