(* ===== verification/SigningScenario.v ===== *)
(** * A signing identity at work

    A small signature scheme and a concrete key, on which the theorems about
    signing are applied: the key is read, a request is signed, a directory of
    two keys is validated and the conformance command passes. *)

From S2P Require Import Prelude GoText GoErrors GoUrl GoNetip GoJson GoTime GoEncoding Retry Origin Netguard RobotsHTTP JsonFields PublicData RegistryService.
From S2P Require Import Crawler Queue Exclusions CrawlRunner WebBotAuth WebBotAuthFacts SignatureDirectoryFacts.
From S2P Require Import Settings WebBotAuthConfig.
From S2P Require Worker.

Module SigningScenario.
Import Concrete.

(** ** The scheme: the digest is the end of the text, the public key the
    reversed seed, and a signature the public key and the digest. *)

#[local] Instance sha256 : SHA256 := {| sha256_Sum256 s := take 32 (rev s ++ replicate 32 "0"%char) |}.
#[local] Instance sha256_laws : SHA256Laws.
Proof. split. intros s. unfold sha256_Sum256, sha256. rewrite length_take, length_app, length_replicate. lia. Qed.

#[local] Instance ed25519 : Ed25519 := {|
  NewKeyFromSeed seed := seed ++ rev seed;
  ed25519_Sign key m := drop 32 key ++ sha256_Sum256 m;
  ed25519_Verify public m signature := bytes_eqb signature (public ++ sha256_Sum256 m);
|}.
#[local] Instance ed25519_laws : Ed25519Laws.
Proof.
  unfold SeedSize, PrivateKeySize, SignatureSize.
  assert (Hd : forall seed : bytes, length seed = 32%nat -> drop 32 (seed ++ rev seed) = rev seed) by (intros seed Hl; by apply drop_app_length').
  split; cbn [NewKeyFromSeed ed25519_Sign ed25519_Verify ed25519]; intros seed.
  - intros Hl. rewrite length_app, length_rev, Hl. split; [done|]. by apply take_app_length'.
  - intros m Hl. unfold SeedSize in Hl. by rewrite Hd, length_app, length_rev, Hl, Sum256_length.
  - intros m Hl. unfold SeedSize in *. rewrite Hd by done. by destruct (bytes_eqb_spec (rev seed ++ sha256_Sum256 m) (rev seed ++ sha256_Sum256 m)).
Qed.

#[local] Instance key_files : KeyFiles := {|
  pem_Decode data := if HasPrefix data (bs "PEM:") then (Some (mkPemBlock (bs "PRIVATE KEY") [] (drop 4 data)), []) else (None, data);
  ParsePKCS8PrivateKey data := Some (Some data);
|}.

Definition seed_a : bytes := bs "0123456789abcdef0123456789abcdef".
Definition seed_b : bytes := bs "fedcba9876543210fedcba9876543210".
Definition key_a : bytes := NewKeyFromSeed seed_a.
Definition key_file (seed : bytes) : stream := mkStream (bs "PEM:" ++ NewKeyFromSeed seed) None.

(** The environment counts the bytes read; the clock stands still. *)
Definition rand_Reader : call nat nat (res error bytes) := fun w n => ((w + n)%nat, Ok (replicate n "r"%char)).
Definition now_unix : Z := 1700000000.
Definition now : Z := (now_unix + unixToInternal) * Second.
Definition time_Now : call nat unit Z := fun w _ => (w, now).

Lemma clock_ok w w' t : time_Now w () = (w', t) -> clock_sane t.
Proof. intros [= _ <-]. unfold clock_sane, now, now_unix, unixToInternal, Second, Millisecond, Microsecond, Nanosecond. lia. Qed.
Lemma now_ok : clock_sane now.
Proof. by apply (clock_ok 0%nat 0%nat). Qed.

Lemma identity_a : NewIdentity key_a = Ok (identity_of seed_a).
Proof. apply NewIdentity_seed. by exists seed_a. Qed.

Lemma identity_read_correct_witness :
  ReadIdentity (Some (key_file seed_a)) = Ok (identity_of seed_a)
  /\ exists signer, identity_Signer rand_Reader time_Now (Some (identity_of seed_a)) = Ok signer
       /\ signer_privateKey signer = key_a /\ signer_keyID signer = identity_keyID (identity_of seed_a).
Proof.
  assert (Hr : ReadIdentity (Some (key_file seed_a)) = Ok (identity_of seed_a)) by (vm_compute; reflexivity).
  split; [exact Hr|]. exact (proj2 (identity_read_correct rand_Reader time_Now (Some (key_file seed_a))) _ Hr).
Defined.

(** ** A signed request *)

Definition target : URL := split_path https (bs "example.org/page").
Definition request : http_Request := mkHTTPRequest (Some target) [] (Some {[bs "User-Agent" := [UserAgent]]}).

Lemma signed_request_verifies_witness :
  exists signer w' request', identity_Signer rand_Reader time_Now (Some (identity_of seed_a)) = Ok signer
    /\ signer_Sign (Some signer) (Some request) 0%nat = (w', (request', None))
    /\ signing_outcome rand_Reader time_Now (identity_of seed_a) request 0%nat w' request' None.
Proof.
  destruct (signed_request_verifies rand_Reader time_Now key_a (identity_of seed_a) request 0%nat clock_ok identity_a) as (signer & Hs & Hout).
  destruct (signer_Sign (Some signer) (Some request) 0%nat) as [w' [request' err]] eqn:He.
  assert (err = None) as ->.
  { assert (Hsig : identity_Signer rand_Reader time_Now (Some (identity_of seed_a))
      = Ok (mkSigner (identity_privateKey (identity_of seed_a)) (identity_keyID (identity_of seed_a)) rand_Reader time_Now)) by (vm_compute; reflexivity).
    rewrite Hsig in Hs. injection Hs as <-. apply (f_equal (fun r => snd (snd r))) in He. cbn [snd] in He. rewrite <- He. vm_compute. reflexivity. }
  exists signer, w', request'. split; [exact Hs|]. split; [exact He|]. apply Hout. exact eq_refl.
Defined.

(** ** A directory of two keys *)

Definition authority : bytes := bs "joshternet.org".
Definition dq (s : string) : bytes := quoted (bs s).
Definition jwk_text (i : Identity) : bytes :=
  bs "{" ++ dq "kty" ++ bs ":" ++ dq "OKP" ++ bs "," ++ dq "crv" ++ bs ":" ++ dq "Ed25519" ++ bs "," ++ dq "x" ++ bs ":"
  ++ quoted (jwk_X (identity_publicJWK i)) ++ bs "}".
Definition body : bytes := bs "{" ++ dq "keys" ++ bs ":[" ++ jwk_text (identity_of seed_a) ++ bs "," ++ jwk_text (identity_of seed_b) ++ bs "]}".
Definition digest : bytes := bs "sha-256=:" ++ base64_Encode base64_Std (sha256_Sum256 body) ++ bs ":".
Definition input (i : Identity) : bytes :=
  directoryCovered ++ bs ";created=" ++ FormatInt now_unix ++ bs ";expires=" ++ FormatInt (now_unix + 300)
  ++ bs ";keyid=" ++ quoted (identity_keyID i) ++ bs ";alg=" ++ dq "ed25519" ++ bs ";tag=" ++ quoted directorySignatureTag.
Definition signature (i : Identity) : bytes :=
  bs ":" ++ base64_Encode base64_Std (ed25519_Sign (identity_privateKey i) (directorySignatureBase authority digest (input i))) ++ bs ":".
Definition directory_header : header :=
  <[bs "Content-Type" := [DirectoryContentType]]>
  (<[bs "Content-Digest" := [digest]]>
  (<[bs "Signature-Input" := [bs "a=" ++ input (identity_of seed_a) ++ bs ", b=" ++ input (identity_of seed_b)]]>
  {[bs "Signature" := [bs "a=" ++ signature (identity_of seed_a) ++ bs ", b=" ++ signature (identity_of seed_b)]]})).

Definition same_order (id : bytes) (d : dictionary) : dictionary := d.
Lemma same_order_perm id d : same_order id d ≡ₚ d.
Proof. done. Qed.

Definition two_keys : DirectoryReport :=
  mkDirectoryReport DirectoryStateRotationOverlap [identity_keyID (identity_of seed_a); identity_keyID (identity_of seed_b)].

Lemma directory_valid : ValidateDirectory same_order now authority 200 (Some directory_header) body = Ok two_keys.
Proof. vm_compute. reflexivity. Qed.

Lemma directory_validated_witness :
  exists keys, published now authority 200 (Some directory_header) body keys /\ State two_keys = directory_state keys.
Proof.
  pose proof (directory_validated same_order same_order_perm now authority now_ok 200 (Some directory_header) body) as Hv.
  rewrite directory_valid in Hv. destruct Hv as (keys & Hp & _ & Hs & _). by exists keys.
Defined.

(** ** The services *)

Definition files (path : bytes) : option stream :=
  if bytes_eqb path (bs "/keys/a") then Some (key_file seed_a)
  else if bytes_eqb path (bs "/keys/b") then Some (key_file seed_b) else None.

Definition signed_environment (name : bytes) : bytes :=
  if bytes_eqb name active_setting then bs "/keys/a" else if bytes_eqb name transition_setting then bs "/keys/b" else [].
Definition unsigned_environment (name : bytes) : bytes := if bytes_eqb name mode_setting then webBotAuthModeUnsigned else [].

Definition signer_a : Signer nat := mkSigner key_a (identity_keyID (identity_of seed_a)) rand_Reader time_Now.
Definition literal_target : URL := split_path https (bs "134744072/page").

(** One hop of the client *)
Definition answer : call nat Request (res error Response) := fun n _ => (n, Ok (mkResponse 200 [] [] [] None)).
Definition hop (s : option (Signer nat)) : (nat * list Request) * res error (option Response) :=
  guarded_get id (option_map unlogged None) (option_map unlogged (request_signer s))
    (logged answer) DefaultHTTPConfig (ctx_lift (fun _ => None)) literal_target (0%nat, []).

Lemma no_unsigned_request_witness :
  loadWebBotAuthSigner files rand_Reader time_Now (Some signed_environment) = Ok (Some signer_a)
  /\ exists w' sent r, hop (Some signer_a) = ((w', [sent]), r)
       /\ exists path active, active_path signed_environment path /\ file_identity files path active
            /\ signed_hop id rand_Reader time_Now active None answer DefaultHTTPConfig (fun _ => None) literal_target 0%nat w' [sent] r.
Proof.
  assert (Hl : loadWebBotAuthSigner files rand_Reader time_Now (Some signed_environment) = Ok (Some signer_a)) by (vm_compute; reflexivity).
  split; [exact Hl|]. destruct (hop (Some signer_a)) as [[w' log] r] eqn:Hh.
  pose proof (no_unsigned_request files id rand_Reader time_Now clock_ok signed_environment (Some signer_a) None answer _ _ _ _ _ _ _ Hl Hh)
    as (_ & path & active & Hp & Ha & _ & Hhop).
  apply (f_equal (fun h => length (snd (fst h)))) in Hh. vm_compute in Hh. cbn [fst snd].
  destruct log as [|sent [|]]; [discriminate Hh| |discriminate Hh]. exists w', sent, r. split; [reflexivity|]. exists path, active. split; [exact Hp|]. split; [exact Ha|exact Hhop].
Defined.

(** In unsigned mode the client is handed a nil signer and every hop fails,
    where a client without a signer sends. *)
Example unsigned_mode_sends_nothing :
  loadWebBotAuthSigner files rand_Reader time_Now (Some unsigned_environment) = Ok None
  /\ hop None = ((0%nat, []), Err (errors_New ErrSignerUnavailable))
  /\ (length (snd (fst (guarded_get id (option_map unlogged None) None (logged answer)
       DefaultHTTPConfig (ctx_lift (fun _ => None)) literal_target (0%nat, [])))) = 1)%nat.
Proof. split_and!; vm_compute; reflexivity. Qed.

(** The same public key in two spellings counts as two keys: the unused bits
    at the end of the text are not checked. *)
Example one_key_twice :
  let x := jwk_X (identity_publicJWK (identity_of seed_a)) in
  let respelled := take 42 x ++ bs "B" in
  let key t := parseDirectoryKey (RawObject [(bs "kty", RawString (bs "OKP")); (bs "crv", RawString (bs "Ed25519")); (bs "x", RawString t)]) in
  exists k k', key x = Ok k /\ key respelled = Ok k' /\ key_publicKey k = key_publicKey k' /\ key_id k <> key_id k'.
Proof. do 2 eexists. split; [vm_compute; reflexivity|]. split; [vm_compute; reflexivity|]. split; [vm_compute; reflexivity|]. by vm_compute. Qed.

(** A closing bracket after the document is not seen as more content. *)
Example trailing_bracket_accepted : parseDirectoryKeys (body ++ bs "] and more") = parseDirectoryKeys body.
Proof. vm_compute. reflexivity. Qed.

(** ** Conformance *)

#[local] Instance durations : Durations := {| time_ParseDuration s := (fun n => n * Second) <$> ParseInt64 s |}.

Definition client : conformance_client nat := fun w url =>
  (w, Ok (Some (if bytes_eqb (url_String url) SignatureAgentURL
                then mkConformanceResponse 200 (Some directory_header) (Some (mkStream body None))
                else mkConformanceResponse 401 None (Some (mkStream [] None))))).
Definition no_client (delay : Z) (signer : Signer (nat * list URL)) (config : HTTPConfig)
    : res error (call (nat * list URL) URL (res error (option conformance_response))) := Err (errors_New (foreign 0)).

Definition conformance_run (args : list bytes) : (nat * list URL) * (Z * bytes) :=
  runWebBotAuthConformance same_order files (unlogged rand_Reader) (unlogged time_Now) no_client (Some (ctx_lift (fun _ => None)))
    args signed_environment (Some (logged client)) (0%nat, []).
Definition unregistered_args : list bytes := [bs "web-bot-auth"; bs "--expect"; bs "unregistered"].

Lemma conformance_sound_witness :
  exists log printed, conformance_run unregistered_args = ((0%nat, log), (exitSuccess, printed))
    /\ passed files time_Now (fun _ => None) client webBotAuthExpectUnregistered signed_environment 0%nat 0%nat log printed.
Proof.
  destruct (conformance_run unregistered_args) as [[w log] [code printed]] eqn:Hrun.
  pose proof (conformance_sound same_order same_order_perm files rand_Reader time_Now clock_ok (fun _ => None) client no_client _ _ _ _ _ _ _ Hrun) as Hs.
  assert (Hw : w = 0%nat) by (apply (f_equal (fun r => fst (fst r))) in Hrun; vm_compute in Hrun; by symmetry).
  assert (Hc : code = exitSuccess) by (apply (f_equal (fun r => fst (snd r))) in Hrun; vm_compute in Hrun; by symmetry).
  subst w code. exists log, printed. split; [reflexivity|]. cbn [Z.eqb exitSuccess] in Hs. destruct Hs as [(e & He & _ & Hp)|[Hu _]]; [|discriminate Hu].
  assert (e = webBotAuthExpectUnregistered) as -> by (injection He; done). exact Hp.
Defined.

(** ** Settings *)

#[local] Instance unicode : Unicode := {| ToLower := map to_lower |}.

Definition crawl_environment (name : bytes) : bytes :=
  if existsb (bytes_eqb name) [bs "JOSHBOT_CRAWL_MAX_DEPTH"; bs "JOSHBOT_CRAWL_MAX_PAGES"; bs "JOSHBOT_CRAWL_MAX_PAGE_BYTES";
                               bs "JOSHBOT_CRAWL_REQUEST_DELAY"; bs "JOSHBOT_CRAWL_REDIRECT_LIMIT"] then bs "5" else [].

Lemma random_full : reads_full (Some rand_Reader).
Proof. intros read w n w' b [= <-] [= _ <-]. apply length_replicate. Qed.

Lemma settings_fit_witness :
  exists s, loadCrawlRuntimeSettings crawl_environment = Ok s /\ crawl_settings crawl_environment s /\ validCrawlConfig (settings_crawl s) = true.
Proof.
  destruct (settings_fit (Some rand_Reader) crawl_environment 0%nat random_full) as (_ & Hd & _ & _ & _ & _ & Hc & _).
  assert (Hl : is_ok (loadCrawlRuntimeSettings crawl_environment) = true) by (vm_compute; reflexivity).
  destruct (loadCrawlRuntimeSettings crawl_environment) as [s|]; [|discriminate Hl]. exists s. split; [reflexivity|].
  split; [exact Hd|exact (proj1 (Hc s eq_refl))].
Defined.
End SigningScenario.
