(* ===== verification/Migrations.v ===== *)
(** * Schema migrations ([internal/store/migrate.go])

    The embedded files are loaded, compared with what the table
    [schema_migrations] records, and the missing ones are executed in one
    transaction. The database is the table and a state [S] on which the files
    act: no file mentions [schema_migrations]. The advisory lock makes
    concurrent migrations follow one another, so a history is a sequence of
    calls. *)

From S2P Require Import Prelude GoText GoErrors GoUrl GoNetip GoJson GoTime GoEncoding GoPath Retry Origin Netguard.
From S2P Require Import PublicData.

(** ** Data *)

Record migration : Type := mkMigration { version : Z; name : bytes; checksum : bytes; data : bytes }.

Record appliedMigration : Type := mkApplied { applied_version : Z; applied_name : bytes; applied_checksum : bytes; appliedAt : Z }.

(** An [fs.FS]: the names [fs.Glob] matches and the contents of the files *)
Record fs_FS : Type := mkFS { fs_Glob : list bytes; fs_ReadFile : bytes -> option bytes }.

(** The database: what the files act on, and [schema_migrations] with its
    rows in the order they were written, if it exists *)
Record MigratedDB (S : Type) : Type := mkMigratedDB { schema : S; schema_migrations : option (list appliedMigration) }.
Arguments mkMigratedDB {S}.
Arguments schema {S}.
Arguments schema_migrations {S}.

Definition version_le (a b : migration) : Prop := version a <= version b.
#[export] Instance version_le_dec : RelDecision version_le.
Proof. intros a b. unfold version_le. apply _. Defined.

Definition applied_le (a b : appliedMigration) : Prop := applied_version a <= applied_version b.
#[export] Instance applied_le_dec : RelDecision applied_le.
Proof. intros a b. unfold applied_le. apply _. Defined.

(** ** Loading *)

Definition invalid_set : error := wrap (errors_New errInvalidMigrationSet).

Definition migrationVersion (path : bytes) : res error Z :=
  let base := path_Base path in
  match index_byte "_" base with
  | None => Err invalid_set
  | Some separator =>
      if (separator <=? 0)%nat || negb (HasSuffix base (bs ".sql")) then Err invalid_set
      else
        match ParseInt64 (take separator base) with
        | None => Err invalid_set
        | Some version => if version <=? 0 then Err invalid_set else Ok version
        end
  end.

Section Load.
Context `{SHA256}.

Fixpoint load_files (source : fs_FS) (seenVersions : gset Z) (names : list bytes) : res error (list migration) :=
  match names with
  | [] => Ok []
  | path :: names =>
      let? version := migrationVersion path in
      if bool_decide (version ∈ seenVersions) then Err invalid_set
      else
        match fs_ReadFile source path with
        | None => Err invalid_set
        | Some data =>
            if (length data =? 0)%nat then Err invalid_set
            else
              let? migrations := load_files source ({[ version ]} ∪ seenVersions) names in
              Ok (mkMigration version (path_Base path) (hex_EncodeToString (sha256_Sum256 data)) data :: migrations)
        end
  end.

Definition loadMigrations (source : fs_FS) : res error (list migration) :=
  match fs_Glob source with
  | [] => Err invalid_set
  | names => let? migrations := load_files source ∅ names in Ok (merge_sort version_le migrations)
  end.
End Load.

(** ** Running *)

(** The statements of the transaction, by which a failure of the driver is
    chosen *)
Inductive statement : Type :=
| StBegin
| StLock
| StCreateTable
| StQuery
| StApply (name : bytes)
| StRecord (name : bytes)
| StCommit.

Section Run.
Context {S : Type}.

(** What the database makes of a file; what the driver fails at; the clock,
    by the number of rows already written *)
Variable exec : S -> bytes -> res error S.
Variable fails : statement -> option error.
Variable clock_timestamp : nat -> Z.

Definition attempt (st : statement) : res error () := match fails st with Some e => Err e | None => Ok () end.

(** [CREATE TABLE IF NOT EXISTS] *)
Definition recorded (db : MigratedDB S) : list appliedMigration := default [] (schema_migrations db).

(** [INSERT INTO schema_migrations], whose version and name are unique *)
Definition insert_row (rows : list appliedMigration) (m : migration) : res error (list appliedMigration) :=
  if bool_decide (version m ∈ map applied_version rows) || bool_decide (name m ∈ map applied_name rows)
  then Err (errors_New (foreign 20))
  else Ok (rows ++ [mkApplied (version m) (name m) (checksum m) (clock_timestamp (length rows))]).

(** The comparison of the table with the files; the versions that were
    applied *)
Fixpoint check_applied (current : gmap Z migration) (applied : list appliedMigration) : res error (gset Z) :=
  match applied with
  | [] => Ok ∅
  | row :: applied =>
      match current !! applied_version row with
      | None => Err (wrap (errors_New ErrMigrationDrift))
      | Some expected =>
          if negb (bytes_eqb (applied_name row) (name expected)) || negb (bytes_eqb (applied_checksum row) (checksum expected))
          then Err (wrap (errors_New ErrMigrationDrift))
          else let? versions := check_applied current applied in Ok ({[ applied_version row ]} ∪ versions)
      end
  end.

Fixpoint apply_pending (appliedByVersion : gset Z) (migrations : list migration) (s : S) (rows : list appliedMigration)
    : res error (S * list appliedMigration) :=
  match migrations with
  | [] => Ok (s, rows)
  | m :: migrations =>
      if bool_decide (version m ∈ appliedByVersion) then apply_pending appliedByVersion migrations s rows
      else
        let? _ := attempt (StApply (name m)) in
        let? s := match exec s (data m) with Err e => Err (wrap e) | Ok s => Ok s end in
        let? _ := attempt (StRecord (name m)) in
        let? rows := match insert_row rows m with Err e => Err (wrap e) | Ok rows => Ok rows end in
        apply_pending appliedByVersion migrations s rows
  end.

Definition current_migrations (migrations : list migration) : gmap Z migration :=
  foldl (fun current m => <[ version m := m ]> current) ∅ migrations.

Definition runMigrations (db : MigratedDB S) (migrations : list migration) : res error (MigratedDB S) :=
  let? _ := attempt StLock in
  let? _ := attempt StCreateTable in
  let? _ := attempt StQuery in
  let applied := merge_sort applied_le (recorded db) in
  let? appliedByVersion := check_applied (current_migrations migrations) applied in
  let? after := apply_pending appliedByVersion migrations (schema db) (recorded db) in
  Ok (mkMigratedDB (fst after) (Some (snd after))).

(** [Migrate]. [ctx] is what [ctx.Err] returns, of a context that is not nil. *)
Definition migrate `{SHA256} (ctx : option (option error)) (pool : bool) (source : option fs_FS) (db : MigratedDB S)
    : MigratedDB S * option error :=
  match ctx with
  | None => (db, Some (errors_New store_errInvalidContext))
  | Some (Some e) => (db, Some e)
  | Some None =>
      if negb pool then (db, Some (errors_New errPoolUnavailable))
      else
        match source with
        | None => (db, Some (errors_New errMigrationSourceUnavailable))
        | Some source =>
            match loadMigrations source with
            | Err e => (db, Some e)
            | Ok migrations =>
                match (let? _ := attempt StBegin in let? after := runMigrations db migrations in
                       let? _ := attempt StCommit in Ok after) with
                | Err e => (db, Some (wrap e))
                | Ok after => (after, None)
                end
            end
        end
  end.
End Run.

(** * Facts *)

(** ** The files that load *)

(** What a migration has from its file *)
Definition read_from `{SHA256} (source : fs_FS) (path : bytes) (m : migration) : Prop :=
  migrationVersion path = Ok (version m) /\ name m = path_Base path /\ fs_ReadFile source path = Some (data m)
  /\ data m <> [] /\ checksum m = hex_EncodeToString (sha256_Sum256 (data m)).

Definition by_version (a b : migration) : Prop := version a < version b.

(** A set of migrations in the order of their versions, without repetition *)
Record migration_set (ms : list migration) : Prop := {
  set_sorted : Sorted by_version ms;
  set_names : NoDup (map name ms);
}.

Definition key (m : migration) : Z * bytes * bytes := (version m, name m, checksum m).
Definition row_key (r : appliedMigration) : Z * bytes * bytes := (applied_version r, applied_name r, applied_checksum r).

#[export] Instance by_version_trans : Transitive by_version.
Proof. intros a b c. unfold by_version. lia. Qed.

Lemma sorted_versions ms : Sorted by_version ms -> NoDup (map version ms).
Proof.
  intros Hs%Sorted_StronglySorted; [|apply _]. induction Hs as [|m ms _ IH Hm]; cbn [map]; constructor; [|done].
  rewrite list_elem_of_fmap. intros (m' & Hv & Hin). rewrite Forall_forall in Hm. specialize (Hm m' Hin). unfold by_version in Hm. lia.
Qed.

Lemma strictly_sorted ms : Sorted version_le ms -> NoDup (map version ms) -> Sorted by_version ms.
Proof.
  intros Hs%Sorted_StronglySorted Hn; [|by intros a b c; unfold version_le; lia]. apply StronglySorted_Sorted. revert Hn.
  induction Hs as [|m ms _ IH Hm]; cbn [map]; intros Hn; constructor; inversion_clear Hn as [|? ? Hv Hn']; [by apply IH|].
  rewrite Forall_forall in *. intros m' Hin. specialize (Hm m' Hin). unfold version_le, by_version in *.
  assert (version m' <> version m); [|lia]. intros He. apply Hv. rewrite list_elem_of_fmap. by exists m'.
Qed.

Section Loaded.
Context `{SHA256}.

Lemma load_files_spec source names : forall seen ms, load_files source seen names = Ok ms ->
  Forall2 (read_from source) names ms /\ NoDup (map version ms) /\ Forall (fun m => version m ∉ seen) ms.
Proof.
  induction names as [|p names IH]; intros seen ms; cbn [load_files]; [intros [= <-]; split_and!; constructor|].
  destruct (migrationVersion p) as [v|] eqn:Hv; cbn [res_bind]; [|done].
  case_bool_decide as Hs; [done|]. destruct (fs_ReadFile source p) as [data|] eqn:Hr; [|done].
  destruct (Nat.eqb_spec (length data) 0) as [|Hd]; [done|].
  destruct (load_files _ _ names) as [ms'|] eqn:Hl; cbn [res_bind]; [|done]. intros [= <-].
  apply IH in Hl as (Hf & Hn & Hm). rewrite Forall_forall in Hm. split_and!.
  - constructor; [|done]. split_and!; try done. intros He. cbn in He. by subst data.
  - cbn [map version]. constructor; [|done]. rewrite list_elem_of_fmap. intros (m & Hvm & Hin). by apply (Hm m Hin), elem_of_union_l, elem_of_singleton.
  - constructor; [done|]. rewrite Forall_forall. intros m Hin Hs'. by apply (Hm m Hin), elem_of_union_r.
Qed.

Lemma version_of_name source p q a b : read_from source p a -> read_from source q b -> name a = name b -> version a = version b.
Proof.
  intros (Ha & Hna & _) (Hb & Hnb & _) He. revert Ha Hb. unfold migrationVersion. rewrite <- Hna, <- Hnb, He. intros Ha Hb.
  rewrite Ha in Hb. by injection Hb.
Qed.

Lemma names_distinct source names ms : Forall2 (read_from source) names ms -> NoDup (map version ms) -> NoDup (map name ms).
Proof.
  induction 1 as [|p m names ms Hm Hf IH]; cbn [map]; [constructor|]. intros Hn. inversion_clear Hn as [|? ? Hv Hn'].
  constructor; [|by apply IH]. rewrite list_elem_of_fmap. intros (m' & Hname & Hin). apply Hv.
  rewrite list_elem_of_fmap. exists m'. split; [|done]. apply list_elem_of_lookup in Hin as [i Hi].
  destruct (Forall2_lookup_r _ _ _ _ _ Hf Hi) as (q & _ & Hq). by eapply version_of_name.
Qed.

(** What loads is the files of the source, in the order of their versions. *)
Lemma loadMigrations_spec source ms : loadMigrations source = Ok ms ->
  migration_set ms /\ ms <> [] /\ exists files, ms ≡ₚ files /\ Forall2 (read_from source) (fs_Glob source) files.
Proof.
  unfold loadMigrations. destruct (fs_Glob source) as [|p names] eqn:Hg; [done|].
  destruct (load_files source ∅ (p :: names)) as [files|] eqn:Hl; cbn [res_bind]; [|done]. intros [= <-].
  apply load_files_spec in Hl as (Hf & Hn & _). pose proof (merge_sort_Permutation version_le files) as Hp. split_and!.
  - split; [apply strictly_sorted|].
    + apply Sorted_merge_sort. by intros a b; unfold version_le; lia.
    + by rewrite Hp.
    + rewrite Hp. by eapply names_distinct.
  - intros He. rewrite He in Hp. apply Permutation_nil_l in Hp. subst files. inversion Hf.
  - by exists files.
Qed.
End Loaded.

(** ** The table and the files *)

(** The table agrees with the files. *)
Definition matched (ms : list migration) (rows : list appliedMigration) : Prop := Forall (fun r => row_key r ∈ map key ms) rows.

(** The migrations the table lacks *)
Definition lacking (versions : gset Z) (ms : list migration) : list migration := filter (fun m => version m ∉ versions) ms.
Definition versions_of (rows : list appliedMigration) : gset Z := list_to_set (map applied_version rows).

Lemma current_lookup ms v m : NoDup (map version ms) -> current_migrations ms !! v = Some m <-> m ∈ ms /\ version m = v.
Proof.
  unfold current_migrations. induction ms as [|m' ms IH] using rev_ind; intros Hn; cbn [foldl].
  { rewrite lookup_empty. split; [done|]. intros [Hin _]. by apply not_elem_of_nil in Hin. }
  rewrite foldl_app. cbn [foldl]. rewrite map_app, NoDup_app in Hn. destruct Hn as (Hn & Hd & _).
  rewrite elem_of_app, list_elem_of_singleton, lookup_insert_Some, IH by done. split.
  - intros [[<- ->]|(Hne & Hin & Hv)]; [by split; [right|]|by split; [left|]].
  - intros [[Hin| ->] <-]; [right|by left]. split_and!; try done. intros He. apply (Hd (version m)).
    + rewrite list_elem_of_fmap. by exists m.
    + cbn [map]. by rewrite <- He, list_elem_of_singleton.
Qed.

Lemma check_applied_spec ms rows : NoDup (map version ms) ->
  (matched ms rows -> check_applied (current_migrations ms) rows = Ok (versions_of rows))
  /\ (~ matched ms rows -> check_applied (current_migrations ms) rows = Err (errors_New ErrMigrationDrift)).
Proof.
  intros Hn. unfold matched. induction rows as [|r rows [IH1 IH2]]; cbn [check_applied]; [split; [done|]; intros []; constructor|].
  assert (Hr : row_key r ∈ map key ms <-> exists m, current_migrations ms !! applied_version r = Some m
                 /\ applied_name r = name m /\ applied_checksum r = checksum m).
  { rewrite list_elem_of_fmap. split; intros (m & Hm).
    - destruct Hm as [[= Hv Hna Hc] Hin]. exists m. split; [|done]. by apply current_lookup.
    - destruct Hm as (Hl%current_lookup & Hna & Hc); [|done]. destruct Hl as [Hin Hv]. exists m. split; [|done].
      unfold row_key, key. by rewrite Hv, Hna, Hc. }
  destruct (current_migrations ms !! applied_version r) as [m|] eqn:Hl.
  2:{ split; [|done]. intros Hf. inversion_clear Hf as [|? ? Hf1 Hf2]. by apply Hr in Hf1 as (m & ? & _). }
  destruct (bytes_eqb_spec (applied_name r) (name m)) as [Hna|Hna]; cbn [negb orb].
  2:{ split; [|done]. intros Hf. inversion_clear Hf as [|? ? Hf1 Hf2]. apply Hr in Hf1 as (m' & [= <-] & ? & _). done. }
  destruct (bytes_eqb_spec (applied_checksum r) (checksum m)) as [Hc|Hc]; cbn [negb].
  2:{ split; [|done]. intros Hf. inversion_clear Hf as [|? ? Hf1 Hf2]. apply Hr in Hf1 as (m' & [= <-] & _ & ?). done. }
  split; intros Hf.
  - inversion_clear Hf as [|? ? Hf1 Hf2]. by rewrite IH1.
  - rewrite IH2; [done|]. intros Hf2. apply Hf. constructor; [|done]. apply Hr. by exists m.
Qed.

#[export] Instance matched_proper ms : Proper ((≡ₚ) ==> iff) (matched ms).
Proof. intros a b Hp. unfold matched. by rewrite Hp. Qed.

Lemma versions_of_perm a b : a ≡ₚ b -> versions_of a = versions_of b.
Proof. intros Hp. unfold versions_of. apply leibniz_equiv. by rewrite Hp. Qed.

(** The check as the run makes it *)
Lemma check_table ms rows : migration_set ms ->
  let applied := merge_sort applied_le rows in
  (matched ms rows -> check_applied (current_migrations ms) applied = Ok (versions_of rows))
  /\ (~ matched ms rows -> check_applied (current_migrations ms) applied = Err (errors_New ErrMigrationDrift)).
Proof.
  intros [Hs _] applied. pose proof (merge_sort_Permutation applied_le rows) as Hp. fold applied in Hp.
  destruct (check_applied_spec ms applied (sorted_versions ms Hs)) as [H1 H2]. rewrite (versions_of_perm _ _ Hp) in H1.
  split; intros Hm; [apply H1|apply H2]; by rewrite Hp.
Qed.

#[export] Instance matched_dec ms rows : Decision (matched ms rows).
Proof. unfold matched. apply _. Defined.

(** ** A run *)

Section Runs.
Context {S : Type}.
Variable exec : S -> bytes -> res error S.
Variable clock_timestamp : nat -> Z.

(** The files executed in order *)
Fixpoint execute (s : S) (files : list migration) : res error S :=
  match files with
  | [] => Ok s
  | m :: files => let? s := exec s (data m) in execute s files
  end.

Lemma execute_app s a b : execute s (a ++ b) = (let? s := execute s a in execute s b).
Proof. revert s. induction a as [|m a IH]; intros s; cbn [execute app]; [done|]. destruct (exec s (data m)); cbn [res_bind]; [apply IH|done]. Qed.

Lemma lacking_cons V m ms : lacking V (m :: ms) = if bool_decide (version m ∈ V) then lacking V ms else m :: lacking V ms.
Proof. unfold lacking. rewrite filter_cons. case_bool_decide; case_decide; done. Qed.

Lemma apply_pending_sound fails V ms : forall s rows s' rows',
  apply_pending exec fails clock_timestamp V ms s rows = Ok (s', rows') ->
  execute s (lacking V ms) = Ok s' /\ exists new, rows' = rows ++ new /\ map row_key new = map key (lacking V ms).
Proof.
  induction ms as [|m ms IH]; intros s rows s' rows'; cbn [apply_pending].
  { intros [= <- <-]. split; [done|]. exists []. by rewrite app_nil_r. }
  rewrite lacking_cons. case_bool_decide; [apply IH|]. destruct (attempt fails _); cbn [res_bind]; [|done].
  cbn [execute]. destruct (exec s (data m)) as [s1|]; cbn [res_bind]; [|done]. destruct (attempt fails _); cbn [res_bind]; [|done].
  unfold insert_row. destruct (_ || _); cbn [res_bind]; [done|]. intros Hp%IH. destruct Hp as (Hx & new & -> & Hk). split; [done|].
  eexists (_ :: new). rewrite <- app_assoc. split; [done|]. cbn [map]. by rewrite Hk.
Qed.

(** The rows the run writes are new. *)
Lemma apply_pending_total V ms : forall s rows s',
  NoDup (map version (lacking V ms)) -> NoDup (map name (lacking V ms)) ->
  (forall m, m ∈ lacking V ms -> (version m ∉ map applied_version rows) /\ (name m ∉ map applied_name rows)) ->
  execute s (lacking V ms) = Ok s' ->
  exists rows', apply_pending exec (fun _ => None) clock_timestamp V ms s rows = Ok (s', rows').
Proof.
  induction ms as [|m ms IH]; intros s rows s'; cbn [apply_pending]; [intros _ _ _ [= <-]; by eexists|].
  rewrite lacking_cons. case_bool_decide; [apply IH|]. cbn [map execute attempt res_bind]. intros Hv Hn Hfree.
  inversion_clear Hv as [|? ? Hv1 Hv2]. inversion_clear Hn as [|? ? Hn1 Hn2].
  destruct (exec s (data m)) as [s1|]; cbn [res_bind]; [|done]. intros Hx. unfold insert_row.
  destruct (Hfree m ltac:(left)) as [Hf1 Hf2]. rewrite !bool_decide_eq_false_2 by done. cbn [orb res_bind]. apply IH; [done..| |done].
  intros m' Hin. destruct (Hfree m' ltac:(by right)) as [Hg1 Hg2].
  rewrite !map_app, !not_elem_of_app. cbn [map applied_version applied_name]. rewrite !list_elem_of_singleton.
  split; (split; [done|]); intros He; [apply Hv1|apply Hn1]; rewrite <- He, list_elem_of_fmap; by exists m'.
Qed.

(** The rest of a set that the table lacks is not in the table, by version or
    by name. *)
Lemma lacking_fresh ms rows m : migration_set ms -> matched ms rows -> m ∈ lacking (versions_of rows) ms ->
  (version m ∉ map applied_version rows) /\ (name m ∉ map applied_name rows).
Proof.
  intros [Hs Hn] Hm. unfold lacking, versions_of. rewrite list_elem_of_filter, elem_of_list_to_set. intros [Hv Hin]. split; [done|].
  rewrite list_elem_of_fmap. intros (r & Hname & Hr). apply Hv. unfold matched in Hm. rewrite Forall_forall in Hm.
  specialize (Hm r Hr). rewrite list_elem_of_fmap in Hm. destruct Hm as (m' & [= Hrv Hrn Hrc] & Hin').
  assert (m = m') as <-.
  { apply list_elem_of_lookup in Hin as [i Hi], Hin' as [j Hj].
    assert (i = j) as ->; [|congruence]. apply (NoDup_lookup (map name ms) i j (name m) Hn).
    - by rewrite list_lookup_fmap, Hi.
    - rewrite list_lookup_fmap, Hj. cbn. by rewrite <- Hrn, Hname. }
  rewrite <- Hrv, list_elem_of_fmap. by exists r.
Qed.

Lemma lacking_sub {A} (f : migration -> A) ms V : NoDup (map f ms) -> NoDup (map f (lacking V ms)).
Proof. intros Hn. eapply sublist_NoDup; [exact Hn|]. unfold lacking. apply fmap_sublist, sublist_filter. Qed.

Lemma attempt_none st : attempt (fun _ => None) st = Ok ().
Proof. done. Qed.

Lemma run_sound fails db ms db' : migration_set ms -> runMigrations exec fails clock_timestamp db ms = Ok db' ->
  matched ms (recorded db) /\ execute (schema db) (lacking (versions_of (recorded db)) ms) = Ok (schema db')
  /\ exists new, schema_migrations db' = Some (recorded db ++ new) /\ map row_key new = map key (lacking (versions_of (recorded db)) ms).
Proof.
  intros Hset. unfold runMigrations. do 3 (destruct (attempt fails _); cbn [res_bind]; [|done]).
  destruct (check_table ms (recorded db) Hset) as [H1 H2]. destruct (decide (matched ms (recorded db))) as [Hm|Hm]; [|by rewrite H2].
  rewrite H1 by done. cbn [res_bind]. destruct (apply_pending _ _ _ _ _ _ _) as [[s' rows']|] eqn:Ha; [|done].
  cbn [res_bind fst snd]. intros [= <-]. apply apply_pending_sound in Ha as (Hx & new & -> & Hk). split_and!; [done..|]. by exists new.
Qed.

Lemma run_total db ms : migration_set ms ->
  (matched ms (recorded db) -> forall s', execute (schema db) (lacking (versions_of (recorded db)) ms) = Ok s' ->
     exists db', runMigrations exec (fun _ => None) clock_timestamp db ms = Ok db' /\ schema db' = s')
  /\ (~ matched ms (recorded db) -> runMigrations exec (fun _ => None) clock_timestamp db ms = Err (errors_New ErrMigrationDrift)).
Proof.
  intros Hset. unfold runMigrations. rewrite !attempt_none. cbn [res_bind].
  destruct (check_table ms (recorded db) Hset) as [H1 H2]. split; intros Hm; [|by rewrite H2]. intros s' Hx. rewrite H1 by done. cbn [res_bind].
  destruct (apply_pending_total (versions_of (recorded db)) ms (schema db) (recorded db) s') as [rows' Ha]; [| | |done|].
  - by apply lacking_sub, sorted_versions, set_sorted.
  - by apply lacking_sub, set_names.
  - intros m Hin. by eapply lacking_fresh.
  - rewrite Ha. cbn [res_bind fst snd]. by eexists.
Qed.
End Runs.

(** * Theorems *)

Section Theorems.
Context `{SHA256} {S : Type}.
Variable exec : S -> bytes -> res error S.
Variable clock_timestamp : nat -> Z.

(** No statement fails but by what the files themselves do. *)
Definition undisturbed : statement -> option error := fun _ => None.

(** [Migrate] as the program calls it, with a context that has not ended *)
Definition migrate_now (fails : statement -> option error) (source : fs_FS) (db : MigratedDB S) : MigratedDB S * option error :=
  migrate exec fails clock_timestamp (Some None) true (Some source) db.

(** What a successful call did *)
Definition migrated (source : fs_FS) (db db' : MigratedDB S) : Prop :=
  exists ms new, loadMigrations source = Ok ms /\ matched ms (recorded db)
    /\ execute exec (schema db) (lacking (versions_of (recorded db)) ms) = Ok (schema db')
    /\ schema_migrations db' = Some (recorded db ++ new) /\ map row_key new = map key (lacking (versions_of (recorded db)) ms).

Lemma migrate_outcome fails ctx pool source db db' err :
  migrate exec fails clock_timestamp ctx pool source db = (db', err) ->
  match err with
  | Some _ => db' = db
  | None => exists src, ctx = Some None /\ pool = true /\ source = Some src /\ migrated src db db'
  end.
Proof.
  unfold migrate. destruct ctx as [[e|]|]; [by intros [= <- <-]| |by intros [= <- <-]]. destruct pool; [|by intros [= <- <-]]. cbn [negb].
  destruct source as [src|]; [|by intros [= <- <-]]. destruct (loadMigrations src) as [ms|] eqn:Hl; [|by intros [= <- <-]].
  destruct (attempt fails StBegin); cbn [res_bind]; [|by intros [= <- <-]].
  destruct (runMigrations exec fails clock_timestamp db ms) as [after|] eqn:Hr; cbn [res_bind]; [|by intros [= <- <-]].
  destruct (attempt fails StCommit); cbn [res_bind]; [|by intros [= <- <-]]. intros [= <- <-].
  exists src. split_and!; try done. apply run_sound in Hr as (Hm & Hx & new & Hn & Hk); [|by eapply loadMigrations_spec]. by exists ms, new.
Qed.

Lemma migrate_undisturbed source ms db : loadMigrations source = Ok ms ->
  (matched ms (recorded db) -> forall s', execute exec (schema db) (lacking (versions_of (recorded db)) ms) = Ok s' ->
     exists db', migrate_now undisturbed source db = (db', None) /\ schema db' = s')
  /\ (~ matched ms (recorded db) -> migrate_now undisturbed source db = (db, Some (errors_New ErrMigrationDrift))).
Proof.
  intros Hl. unfold migrate_now, migrate, undisturbed. cbn [negb]. rewrite Hl, !attempt_none. cbn [res_bind].
  destruct (run_total exec clock_timestamp db ms) as [H1 H2]; [by eapply loadMigrations_spec|]. split.
  - intros Hm s' Hx. destruct (H1 Hm s' Hx) as (db' & -> & Hs). cbn [res_bind]. by exists db'.
  - intros Hm. by rewrite H2.
Qed.

Lemma matched_app ms a b : matched ms (a ++ b) <-> matched ms a /\ matched ms b.
Proof. apply Forall_app. Qed.

Lemma matched_keys ms ms' rows : map row_key rows = map key ms' -> ms' ⊆ ms -> matched ms rows.
Proof.
  intros Hk Hsub. unfold matched. rewrite Forall_forall. intros r Hr.
  assert (Hin : row_key r ∈ map key ms') by (rewrite <- Hk, list_elem_of_fmap; by exists r).
  rewrite list_elem_of_fmap in *. destruct Hin as (m & He & Hm). exists m. split; [done|]. by apply Hsub.
Qed.

Lemma versions_of_keys rows ms : map row_key rows = map key ms -> versions_of rows = list_to_set (map version ms).
Proof.
  intros Hk. unfold versions_of. do 2 f_equal. change (map applied_version rows) with (map (fun r => (row_key r).1.1) rows).
  rewrite <- (map_map row_key (fun k => k.1.1)), Hk, map_map. done.
Qed.

Lemma versions_of_app a b : versions_of (a ++ b) = versions_of a ∪ versions_of b.
Proof. unfold versions_of. by rewrite map_app, list_to_set_app_L. Qed.

Lemma lacking_none V ms : (forall m, m ∈ ms -> version m ∈ V) -> lacking V ms = [].
Proof.
  intros Hall. induction ms as [|m ms IH]; [done|]. rewrite lacking_cons, bool_decide_eq_true_2 by (apply Hall; left).
  apply IH. intros m' Hin. apply Hall. by right.
Qed.

Lemma lacking_all V ms : (forall m, m ∈ ms -> version m ∉ V) -> lacking V ms = ms.
Proof.
  intros Hall. induction ms as [|m ms IH]; [done|]. rewrite lacking_cons, bool_decide_eq_false_2 by (apply Hall; left).
  f_equal. apply IH. intros m' Hin. apply Hall. by right.
Qed.

(** After a success nothing is missing. *)
Lemma migrated_settles source db db' ms : loadMigrations source = Ok ms -> migrated source db db' ->
  matched ms (recorded db') /\ lacking (versions_of (recorded db')) ms = [].
Proof.
  intros Hl (ms' & new & Hl' & Hm & _ & Hrows & Hk). assert (ms' = ms) as -> by congruence. 
  assert (recorded db' = recorded db ++ new) as -> by (unfold recorded at 1; by rewrite Hrows).
  set (V := versions_of (recorded db)) in *. split.
  - apply matched_app. split; [done|]. eapply matched_keys; [done|]. intros m. unfold lacking. by intros [_ ?]%list_elem_of_filter.
  - apply lacking_none. intros m Hin. rewrite versions_of_app, (versions_of_keys _ _ Hk). fold V.
    destruct (decide (version m ∈ V)) as [Hv|Hv]; [by apply elem_of_union_l|]. apply elem_of_union_r.
    rewrite elem_of_list_to_set, list_elem_of_fmap. exists m. split; [done|]. by apply list_elem_of_filter.
Qed.

Lemma migrate_again source db db' : migrated source db db' -> migrate_now undisturbed source db' = (db', None).
Proof.
  intros Hd. assert (exists ms, loadMigrations source = Ok ms) as [ms Hl] by (destruct Hd as (ms & _ & Hl & _); by exists ms).
  destruct (migrated_settles _ _ _ _ Hl Hd) as [Hm Hlack]. destruct (migrate_undisturbed source ms db' Hl) as [H1 _].
  rewrite Hlack in H1. destruct (H1 Hm (schema db') eq_refl) as (db2 & Hrun & Hs). rewrite Hrun. f_equal.
  pose proof (migrate_outcome _ _ _ _ _ _ _ Hrun) as (src & _ & _ & [= <-] & ms2 & new & Hl2 & _ & _ & Hrows & Hk).
  assert (ms2 = ms) as -> by congruence. rewrite Hlack in Hk. cbn in Hk. apply map_eq_nil in Hk as ->. rewrite app_nil_r in Hrows.
  destruct Hd as (_ & new & _ & _ & _ & Hrows' & _). unfold recorded in Hrows. rewrite Hrows' in Hrows. cbn [default] in Hrows.
  destruct db2, db'. cbn in *. congruence.
Qed.
(** C23: A migration is all or nothing. Whatever statement fails, a call that
    returns an error leaves the database as it was. A call that succeeds found
    the table in agreement with the files (version, name and checksum of every
    row), executed exactly the files whose version the table lacked, in the
    order of their versions, and appended one row for each; a second call then
    changes nothing. A table that disagrees with the files is drift and is
    refused; one that agrees is migrated whenever the missing files execute. *)
Theorem migrate_correct source ms db : loadMigrations source = Ok ms ->
  (forall fails db' err, migrate_now fails source db = (db', err) ->
     match err with
     | Some _ => db' = db
     | None => migrated source db db' /\ migrate_now undisturbed source db' = (db', None)
     end)
  /\ (~ matched ms (recorded db) -> migrate_now undisturbed source db = (db, Some (errors_New ErrMigrationDrift)))
  /\ (matched ms (recorded db) -> forall s', execute exec (schema db) (lacking (versions_of (recorded db)) ms) = Ok s' ->
      exists db', migrate_now undisturbed source db = (db', None) /\ schema db' = s').
Proof.
  intros Hl. destruct (migrate_undisturbed source ms db Hl) as [H1 H2]. split_and!; try done.
  intros fails db' err Hrun. unfold migrate_now in Hrun. apply migrate_outcome in Hrun. destruct err; [done|]. destruct Hrun as (src & _ & _ & [= <-] & Hd).
  split; [done|]. by eapply migrate_again.
Qed.

(** ** The history of a database *)

(** One call of [Migrate] in the life of a database *)
Record upgrade : Type := mkUpgrade {
  upgrade_ctx : option (option error); upgrade_pool : bool; upgrade_source : option fs_FS; upgrade_fails : statement -> option error }.

Definition upgrade_step (db : MigratedDB S) (u : upgrade) : MigratedDB S :=
  fst (migrate exec (upgrade_fails u) clock_timestamp (upgrade_ctx u) (upgrade_pool u) (upgrade_source u) db).
Definition history (db : MigratedDB S) (us : list upgrade) : MigratedDB S := foldl upgrade_step db us.

(** The database is what installing [ms] makes of [s]. *)
Definition installed (s : S) (ms : list migration) (db : MigratedDB S) : Prop :=
  execute exec s ms = Ok (schema db) /\ map row_key (recorded db) = map key ms.

(** A release of a project that only ever appends migrations: its files are
    the first ones of [all]. *)
Definition release_of (all : list migration) (source : fs_FS) : Prop := forall ms, loadMigrations source = Ok ms -> ms `prefix_of` all.

Lemma lacking_prefix ms0 t : NoDup (map version (ms0 ++ t)) -> lacking (list_to_set (map version ms0)) (ms0 ++ t) = t.
Proof.
  intros Hn. rewrite map_app, NoDup_app in Hn. destruct Hn as (_ & Hd & _).
  unfold lacking. rewrite filter_app. fold (lacking (list_to_set (map version ms0)) ms0) (lacking (list_to_set (map version ms0)) t).
  rewrite lacking_none, lacking_all; [done|..]; intros m Hm; rewrite elem_of_list_to_set.
  - intros Hv. apply (Hd _ Hv). rewrite list_elem_of_fmap. by exists m.
  - rewrite list_elem_of_fmap. by exists m.
Qed.

(** Of two releases, the one that accepts the table of the other is the later. *)
Lemma later_release all ms0 ms rows : ms0 `prefix_of` all -> ms `prefix_of` all -> NoDup (map version ms0) ->
  map row_key rows = map key ms0 -> matched ms rows -> exists t, ms = ms0 ++ t.
Proof.
  intros Hp0 Hp Hn Hk Hm. destruct (prefix_weak_total ms0 ms all Hp0 Hp) as [[t ->]|[t ->]]; [by exists t|].
  destruct t as [|m t]; [exists []; by rewrite !app_nil_r|]. exfalso.
  assert (Hin : key m ∈ map row_key rows) by (rewrite Hk, list_elem_of_fmap; exists m; split; [done|]; set_solver).
  apply list_elem_of_fmap in Hin as (r & He & Hr). unfold matched in Hm. rewrite Forall_forall in Hm. specialize (Hm r Hr).
  rewrite <- He in Hm. apply list_elem_of_fmap in Hm as (m' & [= Hv _ _] & Hm'). rewrite map_app, NoDup_app in Hn.
  destruct Hn as (_ & Hd & _). apply (Hd (version m')); [by rewrite list_elem_of_fmap; exists m'|]. rewrite <- Hv. left.
Qed.

Lemma upgrade_installs all s db source db' :
  db = mkMigratedDB s None \/ (exists ms0, installed s ms0 db /\ ms0 `prefix_of` all /\ NoDup (map version ms0)) ->
  release_of all source -> migrated source db db' ->
  exists ms, loadMigrations source = Ok ms /\ installed s ms db' /\ NoDup (map version ms).
Proof.
  intros Hdb Hrel (ms & new & Hl & Hm & Hx & Hrows & Hk). exists ms. pose proof (proj1 (loadMigrations_spec _ _ Hl)) as [Hsort _].
  pose proof (sorted_versions _ Hsort) as Hn. split; [done|]. split; [|done]. unfold installed, recorded at 1. rewrite Hrows. cbn [default from_option id].
  rewrite map_app, Hk. destruct Hdb as [->|(ms0 & [Hx0 Hk0] & Hp0 & Hn0)].
  - cbn [recorded schema schema_migrations default from_option id] in *.
    assert (Hlack : lacking (versions_of []) ms = ms) by (apply (lacking_prefix [] ms); done). by rewrite Hlack in *.
  - destruct (later_release all ms0 ms (recorded db) Hp0 (Hrel ms Hl) Hn0 Hk0 Hm) as [t ->].
    rewrite (versions_of_keys _ _ Hk0), (lacking_prefix ms0 t Hn) in *. rewrite execute_app, Hx0. cbn [res_bind].
    split; [done|]. by rewrite Hk0, map_app.
Qed.

(** Every database of a history is an installation of one of its releases. *)
Lemma history_installed all s us :
  (forall u source, u ∈ us -> upgrade_source u = Some source -> release_of all source) ->
  let db := history (mkMigratedDB s None) us in
  db = mkMigratedDB s None \/ exists u source ms, u ∈ us /\ upgrade_source u = Some source /\ loadMigrations source = Ok ms
    /\ installed s ms db /\ NoDup (map version ms).
Proof.
  intros Hrel. induction us as [|u us IH] using rev_ind; [by left|]. unfold history in *. rewrite foldl_app. cbn [foldl].
  assert (Hrel' : forall u source, u ∈ us -> upgrade_source u = Some source -> release_of all source).
  { intros u' src Hin. apply Hrel, elem_of_app. by left. }
  specialize (IH Hrel'). cbn zeta in *. set (db := foldl upgrade_step (mkMigratedDB s None) us) in *.
  unfold upgrade_step at 1 2. destruct (migrate _ _ _ _ _ _ db) as [db' err] eqn:Hrun. cbn [fst]. apply migrate_outcome in Hrun.
  destruct err as [e|].
  - subst db'. destruct IH as [IH|(u' & src & ms & Hin & Hrest)]; [by left|]. right. exists u', src, ms.
    split; [apply elem_of_app; by left|done].
  - destruct Hrun as (src & _ & _ & Hsrc & Hd). right.
    destruct (upgrade_installs all s db src db') as (ms & Hl & Hi & Hn); [| |done|].
    + destruct IH as [IH|(u' & src' & ms & Hin & Hsrc' & Hl & Hi & Hn)]; [by left|]. right. exists ms.
      split_and!; try done. by apply (Hrel' u' src').
    + apply (Hrel u src); [apply elem_of_app; right; by left|done].
    + exists u, src, ms. split_and!; try done. apply elem_of_app. right. by left.
Qed.

(** C22: Upgrading is the same as installing. For a project whose releases only
    append migrations, whatever releases are run on an empty database in
    whatever order, and whichever of the runs fail at whichever statement, the
    database is at every time either still empty or exactly what a fresh
    installation of one of these releases makes of it, schema and table. *)
Theorem upgrade_equals_install all s us :
  (forall u source, u ∈ us -> upgrade_source u = Some source -> release_of all source) ->
  let db := history (mkMigratedDB s None) us in
  db = mkMigratedDB s None
  \/ exists u source fresh, u ∈ us /\ upgrade_source u = Some source
       /\ migrate_now undisturbed source (mkMigratedDB s None) = (fresh, None)
       /\ schema db = schema fresh /\ map row_key (recorded db) = map row_key (recorded fresh).
Proof.
  intros Hrel. pose proof (history_installed all s us Hrel) as Hinv.
  cbn zeta in *. destruct Hinv as [Hinv|(u & source & ms & Hu & Hsrc & Hl & [Hx Hk] & Hn)]; [by left|]. right.
  destruct (migrate_undisturbed source ms (mkMigratedDB s None) Hl) as [H1 _].
  assert (Hlack : lacking (versions_of []) ms = ms) by (apply (lacking_prefix [] ms); done).
  destruct (H1 ltac:(constructor) (schema (history (mkMigratedDB s None) us))) as (fresh & Hrun & Hs); [by change (recorded (mkMigratedDB s None)) with (@nil appliedMigration); rewrite Hlack|].
  exists u, source, fresh. split_and!; try done. unfold migrate_now in Hrun. apply migrate_outcome in Hrun as (src & _ & _ & [= <-] & ms' & new & Hl' & _ & _ & Hrows & Hk').
  assert (ms' = ms) as -> by congruence. change (recorded (mkMigratedDB s None)) with (@nil appliedMigration) in *.
  unfold recorded at 2. rewrite Hrows, Hk. cbn [default from_option id app]. by rewrite Hk', Hlack.
Qed.
End Theorems.

(** ** Two releases *)

Module Releases.

#[local] Instance sha256 : SHA256 := {| sha256_Sum256 s := take 32 (s ++ replicate 32 "0"%char) |}.

(** A database that keeps the files it executed, and refuses one of them *)
Definition exec (s : list bytes) (file : bytes) : res error (list bytes) :=
  if bytes_eqb file (bs "broken") then Err (errors_New (foreign 0)) else Ok (s ++ [file]).
Definition clock (n : nat) : Z := 100 + Z.of_nat n.

Definition files (l : list (bytes * bytes)) : fs_FS :=
  mkFS (map (fun f => bs "migrations/" ++ f.1) l)
    (fun path => (fun found => found.2.2) <$> list_find (fun f => bs "migrations/" ++ f.1 = path) l).

Definition first_release : fs_FS := files [(bs "0001_initial.sql", bs "create a"); (bs "0002_queue.sql", bs "create b")].
Definition second_release : fs_FS :=
  files [(bs "0001_initial.sql", bs "create a"); (bs "0002_queue.sql", bs "create b"); (bs "0010_retry.sql", bs "alter b")].
Definition edited : fs_FS := files [(bs "0001_initial.sql", bs "create c"); (bs "0002_queue.sql", bs "create b")].
(** A branch that adds a version below one already applied *)
Definition late : fs_FS :=
  files [(bs "0001_initial.sql", bs "create a"); (bs "0002_queue.sql", bs "create b"); (bs "0003_late.sql", bs "alter a");
         (bs "0010_retry.sql", bs "alter b")].

Definition empty_db : MigratedDB (list bytes) := mkMigratedDB [] None.
Definition now (source : fs_FS) (db : MigratedDB (list bytes)) : MigratedDB (list bytes) * option error :=
  migrate_now exec clock undisturbed source db.

(** A late version is executed after the newer one; an edited file and an
    older release are drift. *)
Example late_is_last :
  schema (fst (now late (fst (now second_release empty_db)))) = [bs "create a"; bs "create b"; bs "alter b"; bs "alter a"]
  /\ schema (fst (now late empty_db)) = [bs "create a"; bs "create b"; bs "alter a"; bs "alter b"]
  /\ snd (now edited (fst (now first_release empty_db))) = Some (errors_New ErrMigrationDrift)
  /\ snd (now first_release (fst (now second_release empty_db))) = Some (errors_New ErrMigrationDrift).
Proof. vm_compute. done. Qed.

Definition loaded (source : fs_FS) : list migration := match loadMigrations source with Ok ms => ms | Err _ => [] end.

Lemma migrate_correct_witness :
  schema (fst (now second_release (fst (now first_release empty_db)))) = [bs "create a"; bs "create b"; bs "alter b"]
  /\ exists db', migrate_now exec clock undisturbed second_release (fst (now first_release empty_db)) = (db', None)
       /\ schema db' = [bs "create a"; bs "create b"; bs "alter b"].
Proof.
  split; [by vm_compute|].
  apply (proj2 (proj2 (migrate_correct exec clock second_release (loaded second_release) (fst (now first_release empty_db))
    ltac:(by vm_compute)))).
  - apply (bool_decide_unpack _). by vm_compute.
  - by vm_compute.
Defined.

(** A commit that fails, then the upgrade *)
Definition no_commit (st : statement) : option error := match st with StCommit => Some (errors_New (foreign 1)) | _ => None end.
Definition life : list upgrade :=
  [mkUpgrade (Some None) true (Some first_release) undisturbed; mkUpgrade (Some None) true (Some second_release) no_commit;
   mkUpgrade (Some None) true (Some second_release) undisturbed; mkUpgrade (Some None) true (Some first_release) undisturbed].

Lemma upgrade_equals_install_witness :
  schema (history exec clock empty_db life) = [bs "create a"; bs "create b"; bs "alter b"]
  /\ (history exec clock empty_db life = empty_db
      \/ exists u source fresh, u ∈ life /\ upgrade_source u = Some source
           /\ migrate_now exec clock undisturbed source empty_db = (fresh, None)
           /\ schema (history exec clock empty_db life) = schema fresh
           /\ map row_key (recorded (history exec clock empty_db life)) = map row_key (recorded fresh)).
Proof.
  split; [by vm_compute|]. apply (upgrade_equals_install exec clock (loaded second_release) [] life).
  intros u source Hu Hsrc ms Hl.
  assert (Hcase : source = first_release \/ source = second_release).
  { unfold life in Hu. rewrite !elem_of_cons in Hu. destruct Hu as [->|[->|[->|[->|Hu]]]]; try (cbn in Hsrc; injection Hsrc as <-; auto).
    by apply not_elem_of_nil in Hu. }
  destruct Hcase as [-> | ->].
  - exists (drop 2 (loaded second_release)). vm_compute in Hl. injection Hl as <-. by vm_compute.
  - exists []. vm_compute in Hl. injection Hl as <-. by vm_compute.
Defined.
End Releases.
