(* ===== verification/Services.v ===== *)
(** * The HTTP services ([cmd/joshbot/control.go], [report.go])

    Settings and tokens of the operator API and of the reporting API, and the
    life of one service: open the database, build the handler, listen, serve
    until the context ends, shut down. What the library does is a call to the
    environment; the handlers are those of [Control] and [ReportHandler]. *)

From S2P Require Import Prelude GoText GoErrors GoUrl GoNetip GoJson GoTime GoEncoding Origin Netguard Exclusions PublicData RegistryService WebBotAuth Settings.
From S2P Require Import ReportData Pagination Reports ReportHandler GoMux Control.

(** ** Addresses *)

(** [net.SplitHostPort], of which the program keeps the port *)
Definition SplitHostPort (hostport : bytes) : option bytes :=
  match last_index ":" hostport with
  | None => None
  | Some i =>
      let port := drop (S i) hostport in
      if HasPrefix hostport (bs "[") then
        match index_byte "]" hostport with
        | None => None
        | Some e =>
            if negb (S e =? i)%nat then None
            else if Contains (drop 1 hostport) "[" || Contains (drop (S e) hostport) "]" then None
            else Some port
        end
      else if Contains (take i hostport) ":" then None
      else if Contains hostport "[" || Contains hostport "]" then None
      else Some port
  end.

(** The check of a listen address *)
Definition valid_listen_address (address : bytes) : bool :=
  match SplitHostPort address with
  | None => false
  | Some rawPort => match Atoi rawPort with None => false | Some port => (1 <=? port) && (port <=? 65535) end
  end.

(** ** Settings *)

Record timeouts : Type := mkTimeouts {
  readHeaderTimeout : Z; readTimeout : Z; writeTimeout : Z; idleTimeout : Z; shutdownTimeout : Z }.
Definition default_timeouts : timeouts := mkTimeouts (5 * Second) (10 * Second) (30 * Second) (60 * Second) (10 * Second).

Record controlSettings : Type := mkControlSettings {
  control_listenAddress : bytes; control_tokenFile : bytes; control_excludedHosts : bytes; control_timeouts : timeouts }.

Record reportSettings : Type := mkReportSettings {
  report_listenAddress : bytes; report_tokenFile : bytes; report_automaticCrawlEnabled : bool; report_maxPendingProbes : Z;
  report_timeouts : timeouts }.

Definition defaultControlListenAddress : bytes := bs "127.0.0.1:8789".
Definition defaultReportListenAddress : bytes := bs "127.0.0.1:8788".
Definition invalid_control : error := wrap (errors_New errInvalidControlConfiguration).
Definition invalid_report : error := wrap (errors_New errInvalidReportConfiguration).

Definition loadControlSettings `{Unicode} (getenv : environmentGetter) : res error controlSettings :=
  match getenv with
  | None => Err (errors_New errInvalidControlConfiguration)
  | Some getenv =>
      let listenAddress := settingOrDefault getenv (bs "JOSHBOT_CONTROL_LISTEN_ADDRESS") defaultControlListenAddress in
      if negb (valid_listen_address listenAddress) then Err invalid_control
      else
        let tokenFile := getenv (bs "JOSHBOT_OPERATOR_TOKEN_FILE") in
        if bytes_eqb (TrimSpace tokenFile) [] then Err invalid_control
        else
          let excludedHosts := settingOrDefault getenv (bs "JOSHBOT_AUTOMATIC_CRAWL_EXCLUDED_HOSTS") [] in
          if negb (validExcludedHostSuffixes excludedHosts)
          then Err (join (errors_New errInvalidControlConfiguration) (errors_New errInvalidQueueConfig))
          else Ok (mkControlSettings listenAddress tokenFile excludedHosts default_timeouts)
  end.

Definition loadReportSettings (getenv : environmentGetter) : res error reportSettings :=
  match getenv with
  | None => Err (errors_New errInvalidReportConfiguration)
  | Some getenv =>
      let listenAddress := settingOrDefault getenv (bs "JOSHBOT_REPORT_LISTEN_ADDRESS") defaultReportListenAddress in
      if negb (valid_listen_address listenAddress) then Err invalid_report
      else
        let tokenFile := getenv (bs "JOSHBOT_REPORT_TOKEN_FILE") in
        if bytes_eqb (TrimSpace tokenFile) [] then Err invalid_report
        else
          let? automaticEnabled := automaticCrawlEnabledSetting getenv in
          let? maxPendingProbes :=
            if automaticEnabled : bool
            then optionalPositiveIntegerSetting getenv (bs "JOSHBOT_AUTOMATIC_CRAWL_MAX_PENDING_PROBES") default_max_pending_probes
            else Ok default_max_pending_probes in
          Ok (mkReportSettings listenAddress tokenFile automaticEnabled maxPendingProbes default_timeouts)
  end.

(** ** Tokens *)

Definition maxControlTokenSize : nat := 4096.
Definition maxReportTokenSize : nat := 4096.

(** The file without one line end *)
Definition without_line_end (data : bytes) : bytes := trim_last (chr 13) (trim_last (chr 10) data).

Definition readControlToken (reader : option stream) : res error bytes :=
  match reader with
  | None => Err (errors_New errControlTokenReaderUnavailable)
  | Some reader =>
      match ReadAll_limit (maxControlTokenSize + 3) reader with
      | Err _ => Err (errors_New errReadControlTokenFile)
      | Ok data =>
          let token := without_line_end data in
          if negb (token_Valid token) then Err (errors_New errInvalidControlToken) else Ok token
      end
  end.

Definition readReportToken (reader : option stream) : res error bytes :=
  match reader with
  | None => Err (errors_New errReportTokenReaderUnavailable)
  | Some reader =>
      match ReadAll_limit (maxReportTokenSize + 3) reader with
      | Err _ => Err (errors_New errReadReportTokenFile)
      | Ok data =>
          let data := without_line_end data in
          if (length data =? 0)%nat then Err (errors_New errEmptyReportToken)
          else if (maxReportTokenSize <? length data)%nat then Err (errors_New errReportTokenTooLarge)
          else if negb (token_Valid data) then Err (errors_New errInvalidReportToken)
          else Ok data
      end
  end.

(** [files] is [os.Open]. *)
Definition readControlTokenFile (files : bytes -> option stream) (tokenFile : bytes) : res error bytes :=
  match files tokenFile with None => Err (errors_New errOpenControlTokenFile) | Some file => readControlToken (Some file) end.
Definition readReportTokenFile (files : bytes -> option stream) (tokenFile : bytes) : res error bytes :=
  match files tokenFile with None => Err (errors_New errOpenReportTokenFile) | Some file => readReportToken (Some file) end.

(** ** One service *)

(** What the environment does for a service. [newDatabase] opens the pool, and
    a connection it returns is not nil. [net_Listen] returns when the
    address is bound. [race] starts [Serve] on the handler, which is given by
    the digest it compares with, and is the select between the server's end
    and the end of the context: which came first, and what [Serve] returned
    when it came first. [server_Shutdown] and [server_Close] are the methods of the
    server, [serve_result] what [Serve] returned after a shutdown. *)
Record service_environment (W : Type) : Type := mkServiceEnvironment {
  newDatabase : call W pool_Config (option error);
  database_Close : W -> W;
  net_Listen : call W bytes (option error);
  listener_Close : W -> W;
  race : call W bytes (option (option error));
  server_Shutdown : call W Z (option error);
  server_Close : W -> W;
  serve_result : call W unit (option error);
}.
Arguments mkServiceEnvironment {W}.
Arguments newDatabase {W}.
Arguments database_Close {W}.
Arguments net_Listen {W}.
Arguments listener_Close {W}.
Arguments race {W}.
Arguments server_Shutdown {W}.
Arguments server_Close {W}.
Arguments serve_result {W}.

Definition server_closed (err : option error) : bool :=
  match err with None => true | Some e => errors_Is e http_ErrServerClosed end.

Section Service.
Context {W : Type}.
Variable env : service_environment W.

Context `{NetURL} `{DatabaseURLs}.
Variable files : bytes -> option stream.
Variable getenv : bytes -> bytes.

(** [operations.openDatabase] *)
Definition openDatabase (w : W) : W * option error :=
  match LoadConfig files (getenv (bs "JOSHBOT_DATABASE_URL")) (getenv (bs "JOSHBOT_DATABASE_PASSWORD_FILE")) with
  | Err e => (w, Some (wrap e))
  | Ok config => match newDatabase env w config with (w, Some e) => (w, Some (wrap e)) | (w, None) => (w, None) end
  end.

(** [operations.withDatabase]; the action is told whether there is a
    connection. A result that the action leaves in a variable is returned, and
    [failed] is the result of an error. *)
Definition withDatabase {R} (failed : error -> R) (action : bool -> W -> W * R) (w : W) : W * R :=
  match openDatabase w with
  | (w, Some e) => (w, failed e)
  | (w, None) => let '(w, err) := action true w in (database_Close env w, err)
  end.

(** The body of [serveControl] and of [serveReport] *)
Definition serve (handler : bytes) (t : timeouts) (w : W) : W * option error :=
  match race env w handler with
  | (w, Some err) => (w, if server_closed err then None else wrap <$> err)
  | (w, None) =>
      let '(w, shutdownErr) := server_Shutdown env w (shutdownTimeout t) in
      let w := match shutdownErr with Some _ => server_Close env w | None => w end in
      let '(w, serveErr) := serve_result env w () in
      (w, match shutdownErr with
          | Some e => Some (wrap e)
          | None => if server_closed serveErr then None else wrap <$> serveErr
          end)
  end.

(** For arguments that are not nil *)
Definition serveControl (handler : bytes) (t : timeouts) (w : W) : W * option error :=
  if shutdownTimeout t <=? 0 then (w, Some (errors_New errInvalidControlConfiguration)) else serve handler t w.
Definition serveReport (handler : bytes) (t : timeouts) (w : W) : W * option error :=
  if shutdownTimeout t <=? 0 then (w, Some (errors_New errInvalidReportConfiguration)) else serve handler t w.

(** What follows the database connection, for both services: [build] makes
    the handler and [serving] serves it. *)
Definition serve_handler (unavailable : sentinel) (serving : bytes -> timeouts -> W -> W * option error) (build : res error bytes) (address : bytes) (t : timeouts)
    (connection : bool) (w : W) : W * option error :=
  if negb connection then (w, Some (errors_New unavailable))
  else
    match build with
    | Err e => (w, Some (wrap e))
    | Ok handler =>
        match net_Listen env w address with
        | (w, Some e) => (w, Some (wrap e))
        | (w, None) =>
            let '(w, err) := serving handler t w in (listener_Close env w, err)
        end
    end.
End Service.

Section Commands.
Context `{Unicode} `{NetURL} `{DatabaseURLs} `{OperatorLibrary} `{ReportLibrary} {W : Type}.
Variable env : service_environment W.
Variable files : bytes -> option stream.

(** For a pool that is there: what a store with these exclusions is refused for *)
Definition NewControlStoreWithExcludedHosts (excludedHosts : bytes) : option error :=
  if negb (validExcludedHostSuffixes excludedHosts) then Some (errors_New errInvalidQueueConfig) else None.

(** The handler of the operator API and the digest it compares with *)
Definition control_build (settings : controlSettings) (token : bytes) : res error bytes :=
  match NewControlStoreWithExcludedHosts (control_excludedHosts settings) with
  | Some e => Err (wrap e)
  | None => match NewHandler token with Err e => Err (wrap e) | Ok digest => Ok digest end
  end.

Definition runControl (ctx : context W) (getenv : environmentGetter) (w : W) : W * option error :=
  match ctx, getenv with
  | None, _ => (w, Some (errors_New errInvalidControlConfiguration))
  | Some _, None => (w, Some (errors_New errControlRuntimeUnavailable))
  | Some _, Some env_var =>
      match loadControlSettings getenv with
      | Err e => (w, Some e)
      | Ok settings =>
          match readControlTokenFile files (control_tokenFile settings) with
          | Err e => (w, Some e)
          | Ok token =>
              withDatabase env files env_var Some
                (serve_handler env errControlDatabaseUnavailable (serveControl env)
                   (control_build settings token) (control_listenAddress settings) (control_timeouts settings)) w
          end
      end
  end.

Definition report_build (settings : reportSettings) (token : bytes) : res error bytes :=
  match newPostgresReader true (mkPostgresConfig (report_automaticCrawlEnabled settings) (report_maxPendingProbes settings)) with
  | Err e => Err (wrap e)
  | Ok _ => match newHandler true token with Err e => Err (wrap e) | Ok digest => Ok digest end
  end.

Definition runReport (ctx : context W) (getenv : environmentGetter) (w : W) : W * option error :=
  match ctx, getenv with
  | None, _ => (w, Some (errors_New errInvalidReportConfiguration))
  | Some _, None => (w, Some (errors_New errReportRuntimeUnavailable))
  | Some _, Some env_var =>
      match loadReportSettings getenv with
      | Err e => (w, Some e)
      | Ok settings =>
          match readReportTokenFile files (report_tokenFile settings) with
          | Err e => (w, Some e)
          | Ok token =>
              withDatabase env files env_var Some
                (serve_handler env errReportDatabaseUnavailable (serveReport env)
                   (report_build settings token) (report_listenAddress settings) (report_timeouts settings)) w
          end
      end
  end.
End Commands.

(** ** The life of a service *)

(** What a command does with its environment; the last three are those of the
    commands that run under a heartbeat. *)
Inductive service_event : Type :=
| EvOpen (config : pool_Config)
| EvListen (address : bytes)
| EvServe (handler : bytes)
| EvShutdown (timeout : Z)
| EvServerClose
| EvListenerClose
| EvDatabaseClose
| EvHeartbeat (service instanceID : bytes)
| EvRun
| EvHeartbeatStop (state : bytes).

(** The environment that records what happens: an open database, a bound
    address, a shutdown, and what is closed *)
Definition traced {W} (env : service_environment W) : service_environment (W * list service_event) := {|
  newDatabase := fun '(w, log) c =>
    match newDatabase env w c with (w', None) => ((w', log ++ [EvOpen c]), None) | (w', Some e) => ((w', log), Some e) end;
  database_Close := fun '(w, log) => (database_Close env w, log ++ [EvDatabaseClose]);
  net_Listen := fun '(w, log) a =>
    match net_Listen env w a with (w', None) => ((w', log ++ [EvListen a]), None) | (w', Some e) => ((w', log), Some e) end;
  listener_Close := fun '(w, log) => (listener_Close env w, log ++ [EvListenerClose]);
  race := fun '(w, log) h => let '(w', r) := race env w h in ((w', log ++ [EvServe h]), r);
  server_Shutdown := fun '(w, log) t => let '(w', e) := server_Shutdown env w t in ((w', log ++ [EvShutdown t]), e);
  server_Close := fun '(w, log) => (server_Close env w, log ++ [EvServerClose]);
  serve_result := unlogged (serve_result env);
|}.

(** What a run does, by how far it comes: refused before anything is opened;
    the connection closed again; or served and then the listener and the
    connection closed, in that order. *)
Inductive life (config : pool_Config) (address handler : bytes) (t : timeouts) : list service_event -> option error -> Prop :=
| life_refused e : life config address handler t [] (Some e)
| life_unbound e : life config address handler t [EvOpen config; EvDatabaseClose] (Some e)
| life_served err :
    life config address handler t [EvOpen config; EvListen address; EvServe handler; EvListenerClose; EvDatabaseClose] err
| life_shut err :
    life config address handler t
      [EvOpen config; EvListen address; EvServe handler; EvShutdown (shutdownTimeout t); EvListenerClose; EvDatabaseClose] err
| life_forced e :
    life config address handler t
      [EvOpen config; EvListen address; EvServe handler; EvShutdown (shutdownTimeout t); EvServerClose; EvListenerClose;
       EvDatabaseClose] (Some e).

(** A run whose database settings do not load does nothing. *)
Definition lived `{NetURL} `{DatabaseURLs} (files : bytes -> option stream) (getenv : bytes -> bytes) (address handler : bytes)
    (t : timeouts) (log : list service_event) (err : option error) : Prop :=
  match LoadConfig files (getenv (bs "JOSHBOT_DATABASE_URL")) (getenv (bs "JOSHBOT_DATABASE_PASSWORD_FILE")) with
  | Err e => log = [] /\ err = Some e
  | Ok config => life config address handler t log err
  end.

Lemma service_life `{NetURL} `{DatabaseURLs} {W} (env : service_environment W) files getenv unavailable serving handler
    address t w w' log err :
  (forall w, serving handler t w = serve (traced env) handler t w) ->
  withDatabase (traced env) files getenv Some (serve_handler (traced env) unavailable serving (Ok handler) address t) (w, [])
    = ((w', log), err) ->
  lived files getenv address handler t log err.
Proof.
  intros Ht. unfold withDatabase, openDatabase, lived. destruct (LoadConfig _ _ _) as [config|e]; [|by intros [= _ <- <-]].
  cbn [traced newDatabase]. destruct (newDatabase env w config) as [w1 [e|]]; [intros [= _ <- <-]; constructor|].
  unfold serve_handler. cbn [negb traced net_Listen].
  destruct (net_Listen env w1 address) as [w2 [e|]]; [intros [= _ <- <-]; constructor|].
  rewrite Ht. unfold serve. cbn [traced race].
  destruct (race env w2 handler) as [w3 [r|]]; [intros [= _ <- <-]; constructor|].
  cbn [traced server_Shutdown serve_result]. destruct (server_Shutdown env w3 (shutdownTimeout t)) as [w4 [e|]];
    cbn [traced server_Close]; unfold unlogged; destruct (serve_result env _ ()) as [w5 r]; intros [= _ <- <-]; constructor.
Qed.

(** ** Tokens that are accepted *)

Lemma trim_last_length c data : (length data <= S (length (trim_last c data)))%nat.
Proof.
  unfold trim_last. destruct (rev data) as [|l r] eqn:Hr; [lia|]. case_match; [|lia].
  apply (f_equal (@rev ascii)) in Hr. rewrite rev_involutive in Hr. cbn in Hr. subst data. rewrite removelast_last, length_app. cbn. lia.
Qed.

(** A token file is read whole. *)
Definition token_of (file : stream) (token : bytes) : Prop :=
  stream_error file = None /\ token = without_line_end (stream_bytes file) /\ token_Valid token = true.

Lemma token_short token : token_Valid token = true -> (length token <= 4096)%nat.
Proof. unfold token_Valid, MaxLength. destruct (_ || _ || _ || _) eqn:Hg; [done|]. intros _. rewrite !orb_false_iff, !Z.ltb_ge in Hg.
  destruct Hg as [[[_ Hg] _] _]. unfold MaxLength in Hg. apply Nat2Z.inj_le. etransitivity; [exact Hg|]. by vm_compute.
Qed.

Lemma token_whole n file data : (4096 + 2 < n)%nat -> ReadAll_limit n file = Ok data -> token_Valid (without_line_end data) = true ->
  token_of file (without_line_end data).
Proof.
  intros Hbound. unfold ReadAll_limit, token_of. destruct (Nat.leb_spec n (length (stream_bytes file))) as [Hl|Hl].
  - intros [= <-] Hv%token_short. exfalso. unfold without_line_end in Hv.
    pose proof (trim_last_length (chr 13) (trim_last (chr 10) (take n (stream_bytes file)))).
    pose proof (trim_last_length (chr 10) (take n (stream_bytes file))). rewrite length_take_le in * by done. lia.
  - destruct (stream_error file); [done|]. by intros [= <-].
Qed.

Lemma control_token files path token : readControlTokenFile files path = Ok token -> exists file, files path = Some file /\ token_of file token.
Proof.
  unfold readControlTokenFile, readControlToken. destruct (files path) as [file|]; [|done].
  destruct (ReadAll_limit _ file) as [data|] eqn:Hr; [|done]. destruct (token_Valid _) eqn:Hv; cbn [negb]; [|done]. intros [= <-].
  exists file. split; [done|]. apply token_whole with (maxControlTokenSize + 3)%nat; [unfold maxControlTokenSize; lia|done..].
Qed.

Lemma report_token files path token : readReportTokenFile files path = Ok token -> exists file, files path = Some file /\ token_of file token.
Proof.
  unfold readReportTokenFile, readReportToken. destruct (files path) as [file|]; [|done].
  destruct (ReadAll_limit _ file) as [data|] eqn:Hr; [|done]. destruct (_ =? 0)%nat; [done|]. destruct (_ <? _)%nat; [done|].
  destruct (token_Valid _) eqn:Hv; cbn [negb]; [|done]. intros [= <-]. exists file. split; [done|]. apply token_whole with (maxReportTokenSize + 3)%nat; [unfold maxReportTokenSize; lia|done..].
Qed.

Section Guarded.
Context `{Unicode} `{NetURL} `{DatabaseURLs} `{OperatorLibrary} `{ReportLibrary} {W : Type}.
Variable env : service_environment W.
Variable files : bytes -> option stream.

Lemma control_loaded getenv s : loadControlSettings (Some getenv) = Ok s ->
  control_listenAddress s = settingOrDefault getenv (bs "JOSHBOT_CONTROL_LISTEN_ADDRESS") defaultControlListenAddress
  /\ valid_listen_address (control_listenAddress s) = true /\ control_tokenFile s = getenv (bs "JOSHBOT_OPERATOR_TOKEN_FILE")
  /\ validExcludedHostSuffixes (control_excludedHosts s) = true /\ control_timeouts s = default_timeouts.
Proof.
  unfold loadControlSettings. destruct (valid_listen_address _) eqn:Ha; cbn [negb]; [|done]. destruct (bytes_eqb _ []); [done|].
  destruct (validExcludedHostSuffixes _) eqn:He; cbn [negb]; [|done]. by intros [= <-].
Qed.

Lemma report_loaded getenv s : loadReportSettings (Some getenv) = Ok s ->
  report_listenAddress s = settingOrDefault getenv (bs "JOSHBOT_REPORT_LISTEN_ADDRESS") defaultReportListenAddress
  /\ valid_listen_address (report_listenAddress s) = true /\ report_tokenFile s = getenv (bs "JOSHBOT_REPORT_TOKEN_FILE")
  /\ 0 < report_maxPendingProbes s /\ report_timeouts s = default_timeouts.
Proof.
  unfold loadReportSettings. destruct (valid_listen_address _) eqn:Ha; cbn [negb]; [|done]. destruct (bytes_eqb _ []); [done|].
  destruct (automaticCrawlEnabledSetting getenv) as [enabled|]; cbn [res_bind]; [|done]. destruct enabled.
  - destruct (optionalPositiveIntegerSetting _ _ _) as [n|] eqn:Hn; cbn [res_bind]; [|done]. intros [= <-]. cbn.
    apply positive_integer in Hn; [|done]. by split_and!.
  - cbn [res_bind]. by intros [= <-].
Qed.

(** With settings and a token that were accepted, the handler of either
    service is built, and it compares with the digest of that token. *)
Lemma control_built getenv s token : loadControlSettings (Some getenv) = Ok s -> token_Valid token = true ->
  control_build s token = Ok (expectedAuthorizationHash token).
Proof.
  intros (_ & _ & _ & He & _)%control_loaded Ht. unfold control_build, NewControlStoreWithExcludedHosts, NewHandler. by rewrite He, Ht.
Qed.

Lemma report_built getenv s token : loadReportSettings (Some getenv) = Ok s -> token_Valid token = true ->
  report_build s token = Ok (reportingAuthorizationDigest (bs "Bearer " ++ token)).
Proof.
  intros (_ & _ & _ & Hm & _)%report_loaded Ht. unfold report_build, newPostgresReader, newHandler, validPostgresConfig.
  cbn [negb config_MaxPendingProbes]. by rewrite Ht, (proj2 (Z.ltb_lt _ _) Hm).
Qed.

(** What a run did, by its settings: nothing, or what a service does on the
    configured address with a handler for the token of the configured file. *)
Definition guarded (getenv : bytes -> bytes) (address_setting default_address token_setting : bytes) (handler_of : bytes -> bytes)
    (log : list service_event) (err : option error) : Prop :=
  (log = [] /\ err <> None)
  \/ let address := settingOrDefault getenv address_setting default_address in
     valid_listen_address address = true
     /\ exists file token, files (getenv token_setting) = Some file /\ token_of file token
         /\ lived files getenv address (handler_of token) default_timeouts log err.

(** C24: A service listens and serves only for a valid token. Whatever the
    database, the network and the files do, a run of [joshbot control] or
    [joshbot report] that got as far as opening the database had a listen
    address with a port and a token file of which the whole content, without
    one line end, is a valid token; what it serves is the handler that
    compares with the digest of that token. The connection that was opened and
    the address that was bound are closed again on every path, the listener
    first, and a server that does not shut down in time is closed. *)
Theorem services_guarded ctx getenv w w' log err :
  (runControl (traced env) files (Some ctx) (Some getenv) (w, []) = ((w', log), err) ->
   guarded getenv (bs "JOSHBOT_CONTROL_LISTEN_ADDRESS") defaultControlListenAddress (bs "JOSHBOT_OPERATOR_TOKEN_FILE")
     expectedAuthorizationHash log err)
  /\ (runReport (traced env) files (Some ctx) (Some getenv) (w, []) = ((w', log), err) ->
      guarded getenv (bs "JOSHBOT_REPORT_LISTEN_ADDRESS") defaultReportListenAddress (bs "JOSHBOT_REPORT_TOKEN_FILE")
        (fun token => reportingAuthorizationDigest (bs "Bearer " ++ token)) log err).
Proof.
  split.
  - unfold runControl, guarded. destruct (loadControlSettings (Some getenv)) as [s|e] eqn:Hs; [|intros [= _ <- <-]; by left].
    destruct (readControlTokenFile files (control_tokenFile s)) as [token|e] eqn:Ht; [|intros [= _ <- <-]; by left].
    apply control_token in Ht as (file & Hfile & Htok). rewrite (control_built _ _ _ Hs) by apply Htok.
    apply control_loaded in Hs as (Ha & Hv & Hf & _ & Hto). rewrite Hto, Ha in *. intros Hrun%service_life; [|done]. right.
    split; [done|]. rewrite <- Hf. by exists file, token.
  - unfold runReport, guarded. destruct (loadReportSettings (Some getenv)) as [s|e] eqn:Hs; [|intros [= _ <- <-]; by left].
    destruct (readReportTokenFile files (report_tokenFile s)) as [token|e] eqn:Ht; [|intros [= _ <- <-]; by left].
    apply report_token in Ht as (file & Hfile & Htok). rewrite (report_built _ _ _ Hs) by apply Htok.
    apply report_loaded in Hs as (Ha & Hv & Hf & _ & Hto). rewrite Hto, Ha in *. intros Hrun%service_life; [|done]. right.
    split; [done|]. rewrite <- Hf. by exists file, token.
Qed.
End Guarded.

(** ** A service that is told to stop *)

Module Stopped.

#[local] Instance unicode : Unicode := {| ToLower := map to_lower |}.
#[local] Instance net_url : NetURL := {|
  url_Parse s := Some (mkURL (bs "postgres") [] None (drop 11 s) [] [] false [] [] []);
  url_String u := Scheme u ++ bs "://" ++ Host u;
  url_EscapedPath _ := [];
  url_ResolveReference _ u := u;
|}.
#[local] Instance database_urls : DatabaseURLs := {|
  user_has_password _ := false; query_has _ _ := false; pgxpool_ParseConfig s := Some (mkPoolConfig s []) |}.
#[local] Instance operator_library : OperatorLibrary := {|
  Sum256 s := s; ParseMediaType s := Some s; json_Decode _ _ _ := Err DecodeInvalid; json_Skip _ _ := None |}.
#[local] Instance report_library : ReportLibrary := {| report_Sum256 s := s; seconds_text := fun _ => [] |}.

Definition token : bytes := bs "0123456789abcdefghijklmnopqrstuv".
Definition files (path : bytes) : option stream :=
  if bytes_eqb path (bs "/run/token") then Some (mkStream (token ++ [chr 13; chr 10]) None)
  else if bytes_eqb path (bs "/run/password") then Some (mkStream (bs "secret") None) else None.
Definition getenv (name : bytes) : bytes :=
  if bytes_eqb name (bs "JOSHBOT_DATABASE_URL") then bs "postgres://db"
  else if bytes_eqb name (bs "JOSHBOT_DATABASE_PASSWORD_FILE") then bs "/run/password"
  else if bytes_eqb name (bs "JOSHBOT_REPORT_LISTEN_ADDRESS") then bs "[::1]:9000"
  else if bytes_eqb name (bs "JOSHBOT_OPERATOR_TOKEN_FILE") || bytes_eqb name (bs "JOSHBOT_REPORT_TOKEN_FILE") then bs "/run/token"
  else [].

(** The context ends first and the shutdown runs out of time. *)
Definition env : service_environment unit := {|
  newDatabase w _ := (w, None); database_Close w := w; net_Listen w _ := (w, None); listener_Close w := w;
  race w _ := (w, None); server_Shutdown w _ := (w, Some (errors_New (foreign 0))); server_Close w := w;
  serve_result w _ := (w, Some (errors_New http_ErrServerClosed)) |}.

Definition stopped (address handler : bytes) : list service_event :=
  [EvOpen (mkPoolConfig (bs "postgres://db") (bs "secret")); EvListen address; EvServe handler; EvShutdown (10 * Second);
   EvServerClose; EvListenerClose; EvDatabaseClose].

Lemma services_guarded_witness :
  guarded files getenv (bs "JOSHBOT_CONTROL_LISTEN_ADDRESS") defaultControlListenAddress (bs "JOSHBOT_OPERATOR_TOKEN_FILE")
    expectedAuthorizationHash (stopped (bs "127.0.0.1:8789") (bs "Bearer " ++ token)) (Some (errors_New (foreign 0)))
  /\ guarded files getenv (bs "JOSHBOT_REPORT_LISTEN_ADDRESS") defaultReportListenAddress (bs "JOSHBOT_REPORT_TOKEN_FILE")
       (fun token => reportingAuthorizationDigest (bs "Bearer " ++ token)) (stopped (bs "[::1]:9000") (bs "Bearer " ++ token))
       (Some (errors_New (foreign 0))).
Proof.
  split.
  - apply (proj1 (services_guarded env files (fun _ => None) getenv tt tt _ _)). by vm_compute.
  - apply (proj2 (services_guarded env files (fun _ => None) getenv tt tt _ _)). by vm_compute.
Defined.

(** An address needs a port between 1 and 65535. *)
Example listen_addresses :
  map valid_listen_address [bs ":80"; bs "[::1]:65535"; bs "host"; bs "::1:80"; bs "h:0"; bs "h:65536"; bs "[::1]x:80"; bs "h:+8"]
  = [true; true; false; false; false; false; false; true].
Proof. by vm_compute. Qed.
End Stopped.
