(* ===== verification/CommandLine.v ===== *)
(** * The command line ([cmd/joshbot/app.go], [seed.go], [source.go], [runtime.go])

    The dispatch of the arguments to one operation, with its output and exit
    code, and the operations on the stores behind it. Texts of errors are not
    modelled: what is written to the standard error is a value. *)

From S2P Require Import Prelude GoText GoErrors GoUrl GoNetip GoJson GoTime GoEncoding Retry Origin Netguard.
From S2P Require Import RobotsMatch RobotsPolicy RobotsPolicyFacts RobotsHTTP Declaration Verifier.
From S2P Require Import Discovery Store Queue Exclusions DiscoveryStore Registry PublicData GitHubPublish RegistryService.
From S2P Require Import WebBotAuth Settings WebBotAuthConfig Migrations Services.

Definition helpText : bytes := bs "JoshBot declaration verification runtime

Usage:
  joshbot health
  joshbot migrate
  joshbot schedule <origin>
  joshbot seed add <origin>
  joshbot seed remove <origin>
  joshbot seed list
  joshbot source block <origin>
  joshbot source allow <origin>
  joshbot source list
  joshbot worker
  joshbot discover [--once]
  joshbot report
  joshbot control
  joshbot export --output <directory>
  joshbot publish --input <directory>
  joshbot export-registry
  joshbot publish-registry
  joshbot conformance web-bot-auth --expect unregistered|verified
  joshbot help

Commands:
  health     Check PostgreSQL connectivity
  migrate    Apply pending database migrations
  schedule   Schedule an origin for recurring verification
  seed       Manage private curated crawl seeds
  source     Inspect and control private crawl sources
  worker     Process queued verification work
  discover   Crawl eligible private discovery sources
  report     Serve the private operational reporting API
  control    Serve the private operator mutation API
  export     Write a deterministic public registry snapshot
  publish    Publish an existing registry snapshot to GitHub
  export-registry  Refresh the registry snapshot on an interval
  publish-registry Publish each new registry snapshot
  conformance Check the signature directory and Cloudflare Web Bot Auth
  help       Show this help
".

(** ** Output *)

(** What goes to the standard error: nothing, the usage with its message, an
    unknown command, or a failed command *)
Inductive diagnostic : Type :=
| Quiet
| Usage (message : bytes)
| UnknownCommand (command : bytes)
| Failure (command : bytes) (err : error).

Record outcome : Type := mkOutcome { exit_code : Z; stdout : bytes; stderr : diagnostic }.

Definition reportUsage (message : bytes) : outcome := mkOutcome exitUsage [] (Usage message).
Definition reportCommandFailure (command : bytes) (err : error) : outcome := mkOutcome exitFailure [] (Failure command err).
Definition success (printed : bytes) : outcome := mkOutcome exitSuccess printed Quiet.

(** [fmt.Fprintln] *)
Definition line (s : bytes) : bytes := s ++ [chr 10].
Definition lines (l : list bytes) : bytes := concat (map line l).

(** [t.UTC().Format(time.RFC3339)], which drops the fraction *)
Definition FormatRFC3339 (t : Z) : bytes := FormatRFC3339Nano (t / Second * Second).

(** [%t] *)
Definition bool_text (b : bool) : bytes := if b then bs "true" else bs "false".

Definition formatCrawlSource (source : CrawlSource) : bytes :=
  let text (t : option Z) := match t with Some t => FormatRFC3339 t | None => bs "-" end in
  origin_String (crawl_source_Origin source) ++ [chr 9] ++ bs "curated=" ++ bool_text (Seeded source)
    ++ [chr 9] ++ bs "discovered=" ++ bool_text (AutomaticallyDiscovered source)
    ++ [chr 9] ++ bs "verified=" ++ bool_text (Verified source) ++ [chr 9] ++ bs "blocked=" ++ bool_text (Blocked source)
    ++ [chr 9] ++ bs "first_discovered=" ++ text (FirstDiscoveredAt source)
    ++ [chr 9] ++ bs "last_discovered=" ++ text (LastDiscoveredAt source).

(** ** Operations *)

Record crawlSeedCommandOperations (W : Type) : Type := mkSeedOperations {
  addCrawlSeed : call W Origin (option error);
  removeCrawlSeed : call W Origin (option error);
  crawlSeeds : call W unit (res error (list Origin));
}.
Arguments mkSeedOperations {W}.
Arguments addCrawlSeed {W}.
Arguments removeCrawlSeed {W}.
Arguments crawlSeeds {W}.

Record crawlSourceCommandOperations (W : Type) : Type := mkSourceOperations {
  setCrawlBlocked : call W (Origin * bool) (option error);
  crawlSources : call W unit (res error (list CrawlSource));
}.
Arguments mkSourceOperations {W}.
Arguments setCrawlBlocked {W}.
Arguments crawlSources {W}.

(** The interfaces that a type assertion may find are options.
    [conformance] is [executeWebBotAuthConformance] with what it prints. *)
Record commandOperations (W : Type) : Type := mkOperations {
  health : call W unit (option error);
  op_migrate : call W unit (option error);
  schedule : call W Origin (option error);
  worker : call W unit (option error);
  discover : call W bool (option error);
  report : call W unit (option error);
  op_export : call W bytes (option error);
  op_publish : call W bytes (res error Result);
  seed_operations : option (crawlSeedCommandOperations W);
  source_operations : option (crawlSourceCommandOperations W);
  control_operation : option (call W unit (option error));
  export_registry : option (call W unit (option error));
  publish_registry : option (call W unit (option error));
  conformance : call W bytes (res error bytes);
}.
Arguments mkOperations {W}.
Arguments health {W}.
Arguments op_migrate {W}.
Arguments schedule {W}.
Arguments worker {W}.
Arguments discover {W}.
Arguments report {W}.
Arguments op_export {W}.
Arguments op_publish {W}.
Arguments seed_operations {W}.
Arguments source_operations {W}.
Arguments control_operation {W}.
Arguments export_registry {W}.
Arguments publish_registry {W}.
Arguments conformance {W}.

(** ** Dispatch *)

Section Dispatch.
Context `{NetURL} `{NetIP} `{IDNA} {W : Type}.

(** A call that may fail, and what is printed when it does not *)
Definition finish (command : bytes) (printed : bytes) (r : W * option error) : W * outcome :=
  match r with
  | (w, Some e) => (w, reportCommandFailure command e)
  | (w, None) => (w, success printed)
  end.
Definition finish_with {A} (command : bytes) (printed : A -> bytes) (r : W * res error A) : W * outcome :=
  match r with
  | (w, Err e) => (w, reportCommandFailure command e)
  | (w, Ok a) => (w, success (printed a))
  end.

(** A command without arguments *)
Definition without_arguments (commandArgs : list bytes) (message : bytes) (w : W) (act : W -> W * outcome) : W * outcome :=
  match commandArgs with [] => act w | _ => (w, reportUsage message) end.

(** A command with one origin *)
Definition with_origin (commandArgs : list bytes) (count invalid : bytes) (w : W) (act : W -> Origin -> W * outcome) : W * outcome :=
  match commandArgs with
  | [raw] => match Origin.Parse raw with Err _ => (w, reportUsage invalid) | Ok source => act w source end
  | _ => (w, reportUsage count)
  end.

(** A command with a flag and a directory *)
Definition with_directory (commandArgs : list bytes) (flag message : bytes) (w : W) (act : W -> bytes -> W * outcome) : W * outcome :=
  match commandArgs with
  | [given; root] => if negb (bytes_eqb given flag) || bytes_eqb root [] then (w, reportUsage message) else act w root
  | _ => (w, reportUsage message)
  end.

Definition unavailable (command : bytes) (w : W) : W * outcome := (w, reportCommandFailure command (errors_New errOperationsUnavailable)).

Definition run_seed (operations : commandOperations W) (commandArgs : list bytes) (w : W) : W * outcome :=
  let command := bs "seed" in
  match seed_operations operations with
  | None => unavailable command w
  | Some ops =>
      match commandArgs with
      | [] => (w, reportUsage (bs "seed requires add, remove, or list"))
      | sub :: rest =>
          if bytes_eqb sub (bs "add") then
            with_origin rest (bs "seed add requires exactly one HTTP or HTTPS URL") (bs "seed add requires a valid HTTP or HTTPS URL") w
              (fun w source => finish command (line (bs "seed added " ++ origin_String source)) (addCrawlSeed ops w source))
          else if bytes_eqb sub (bs "remove") then
            with_origin rest (bs "seed remove requires exactly one HTTP or HTTPS URL") (bs "seed remove requires a valid HTTP or HTTPS URL") w
              (fun w source => finish command (line (bs "seed removed " ++ origin_String source)) (removeCrawlSeed ops w source))
          else if bytes_eqb sub (bs "list") then
            without_arguments rest (bs "seed list does not accept arguments") w
              (fun w => finish_with command (fun seeds => lines (map origin_String seeds)) (crawlSeeds ops w ()))
          else (w, reportUsage (bs "seed requires add, remove, or list"))
      end
  end.

Definition run_source (operations : commandOperations W) (commandArgs : list bytes) (w : W) : W * outcome :=
  let command := bs "source" in
  match source_operations operations with
  | None => unavailable command w
  | Some ops =>
      match commandArgs with
      | [] => (w, reportUsage (bs "source requires block, allow, or list"))
      | sub :: rest =>
          if bytes_eqb sub (bs "block") || bytes_eqb sub (bs "allow") then
            with_origin rest (bs "source block and allow require exactly one HTTP or HTTPS URL")
              (bs "source block and allow require a valid HTTP or HTTPS URL") w
              (fun w source =>
                let blocked := bytes_eqb sub (bs "block") in
                let state := if blocked then bs "blocked" else bs "allowed" in
                finish command (line (bs "source " ++ state ++ bs " " ++ origin_String source)) (setCrawlBlocked ops w (source, blocked)))
          else if bytes_eqb sub (bs "list") then
            without_arguments rest (bs "source list does not accept arguments") w
              (fun w => finish_with command (fun sources => lines (map formatCrawlSource sources)) (crawlSources ops w ()))
          else (w, reportUsage (bs "source requires block, allow, or list"))
      end
  end.

(** An interface that may be missing and takes no arguments *)
Definition run_optional (operation : option (call W unit (option error))) (command message : bytes) (commandArgs : list bytes) (w : W)
    : W * outcome :=
  match operation with
  | None => unavailable command w
  | Some op => without_arguments commandArgs message w (fun w => finish command [] (op w ()))
  end.

Definition run_discover (operations : commandOperations W) (commandArgs : list bytes) (w : W) : W * outcome :=
  let run once := finish (bs "discover") (if once : bool then line (bs "discovery attempt complete") else []) (discover operations w once) in
  match commandArgs with
  | [] => run false
  | [flag] =>
      if bytes_eqb flag (bs "--once") then run true
      else (w, reportUsage (bs "discover accepts only the optional --once flag"))
  | _ => (w, reportUsage (bs "discover accepts only the optional --once flag"))
  end.

Definition published_text (result : Result) : bytes :=
  if Changed result then line (bs "published " ++ CommitSHA result) else line (bs "registry unchanged").

Definition run_conformance (operations : commandOperations W) (commandArgs : list bytes) (w : W) : W * outcome :=
  match parseWebBotAuthConformanceArgs commandArgs with
  | None => (w, reportUsage (bs "conformance requires web-bot-auth --expect unregistered|verified"))
  | Some expectation => finish_with (bs "conformance") (fun printed => printed) (conformance operations w expectation)
  end.

Definition runWithOperations (operations : option (commandOperations W)) (args : list bytes) (w : W) : W * outcome :=
  match operations with
  | None => unavailable (bs "command") w
  | Some ops =>
      match args with
      | [] => (w, reportUsage (bs "a command is required"))
      | command :: commandArgs =>
          let named name := bytes_eqb command name in
          if named (bs "help") || named (bs "-h") || named (bs "--help") then
            without_arguments commandArgs (bs "help does not accept arguments") w (fun w => (w, success helpText))
          else if named (bs "health") then
            without_arguments commandArgs (bs "health does not accept arguments") w
              (fun w => finish command (line (bs "healthy")) (health ops w ()))
          else if named (bs "migrate") then
            without_arguments commandArgs (bs "migrate does not accept arguments") w
              (fun w => finish command (line (bs "migrations complete")) (op_migrate ops w ()))
          else if named (bs "schedule") then
            with_origin commandArgs (bs "schedule requires exactly one origin") (bs "schedule requires a valid HTTP or HTTPS origin") w
              (fun w source => finish command (line (bs "scheduled " ++ origin_String source)) (schedule ops w source))
          else if named (bs "seed") then run_seed ops commandArgs w
          else if named (bs "source") then run_source ops commandArgs w
          else if named (bs "worker") then
            without_arguments commandArgs (bs "worker does not accept arguments") w (fun w => finish command [] (worker ops w ()))
          else if named (bs "discover") then run_discover ops commandArgs w
          else if named (bs "report") then
            without_arguments commandArgs (bs "report does not accept arguments") w (fun w => finish command [] (report ops w ()))
          else if named (bs "control") then run_optional (control_operation ops) command (bs "control does not accept arguments") commandArgs w
          else if named (bs "export") then
            with_directory commandArgs (bs "--output") (bs "export requires --output <directory>") w
              (fun w root => finish command (line (bs "exported " ++ root)) (op_export ops w root))
          else if named (bs "publish") then
            with_directory commandArgs (bs "--input") (bs "publish requires --input <directory>") w
              (fun w root => finish_with command published_text (op_publish ops w root))
          else if named (bs "export-registry") then
            run_optional (export_registry ops) command (bs "export-registry does not accept arguments") commandArgs w
          else if named (bs "publish-registry") then
            run_optional (publish_registry ops) command (bs "publish-registry does not accept arguments") commandArgs w
          else if named (bs "conformance") then run_conformance ops commandArgs w
          else (w, mkOutcome exitUsage [] (UnknownCommand command))
      end
  end.
End Dispatch.

(** ** What the arguments mean *)

Inductive operation : Type :=
| OpHealth
| OpMigrate
| OpSchedule (source : Origin)
| OpSeedAdd (source : Origin)
| OpSeedRemove (source : Origin)
| OpSeedList
| OpSetBlocked (source : Origin) (blocked : bool)
| OpSourceList
| OpWorker
| OpDiscover (once : bool)
| OpReport
| OpControl
| OpExport (root : bytes)
| OpPublish (root : bytes)
| OpExportRegistry
| OpPublishRegistry
| OpConformance (expectation : bytes).

Definition command_of (op : operation) : bytes :=
  match op with
  | OpHealth => bs "health"
  | OpMigrate => bs "migrate"
  | OpSchedule _ => bs "schedule"
  | OpSeedAdd _ | OpSeedRemove _ | OpSeedList => bs "seed"
  | OpSetBlocked _ _ | OpSourceList => bs "source"
  | OpWorker => bs "worker"
  | OpDiscover _ => bs "discover"
  | OpReport => bs "report"
  | OpControl => bs "control"
  | OpExport _ => bs "export"
  | OpPublish _ => bs "publish"
  | OpExportRegistry => bs "export-registry"
  | OpPublishRegistry => bs "publish-registry"
  | OpConformance _ => bs "conformance"
  end.

Section Meaning.
Context `{NetURL} `{NetIP} `{IDNA}.

(** The lines of the usage *)
Inductive denotes : list bytes -> operation -> Prop :=
| denotes_health : denotes [bs "health"] OpHealth
| denotes_migrate : denotes [bs "migrate"] OpMigrate
| denotes_schedule raw source : Origin.Parse raw = Ok source -> denotes [bs "schedule"; raw] (OpSchedule source)
| denotes_add raw source : Origin.Parse raw = Ok source -> denotes [bs "seed"; bs "add"; raw] (OpSeedAdd source)
| denotes_remove raw source : Origin.Parse raw = Ok source -> denotes [bs "seed"; bs "remove"; raw] (OpSeedRemove source)
| denotes_seeds : denotes [bs "seed"; bs "list"] OpSeedList
| denotes_block raw source : Origin.Parse raw = Ok source -> denotes [bs "source"; bs "block"; raw] (OpSetBlocked source true)
| denotes_allow raw source : Origin.Parse raw = Ok source -> denotes [bs "source"; bs "allow"; raw] (OpSetBlocked source false)
| denotes_sources : denotes [bs "source"; bs "list"] OpSourceList
| denotes_worker : denotes [bs "worker"] OpWorker
| denotes_discover : denotes [bs "discover"] (OpDiscover false)
| denotes_once : denotes [bs "discover"; bs "--once"] (OpDiscover true)
| denotes_report : denotes [bs "report"] OpReport
| denotes_control : denotes [bs "control"] OpControl
| denotes_export root : root <> [] -> denotes [bs "export"; bs "--output"; root] (OpExport root)
| denotes_publish root : root <> [] -> denotes [bs "publish"; bs "--input"; root] (OpPublish root)
| denotes_export_registry : denotes [bs "export-registry"] OpExportRegistry
| denotes_publish_registry : denotes [bs "publish-registry"] OpPublishRegistry
| denotes_conformance expectation : expectation = bs "unregistered" \/ expectation = bs "verified" ->
    denotes [bs "conformance"; bs "web-bot-auth"; bs "--expect"; expectation] (OpConformance expectation).

Definition is_help (args : list bytes) : Prop := args = [bs "help"] \/ args = [bs "-h"] \/ args = [bs "--help"].

Section Perform.
Context {W : Type}.

(** The operation and what is printed after it; [None] when the interface is
    missing. *)
Definition silent (printed : bytes) (r : W * option error) : W * res error bytes :=
  (fst r, match snd r with Some e => Err e | None => Ok printed end).
Definition rendered {A} (printed : A -> bytes) (r : W * res error A) : W * res error bytes :=
  (fst r, match snd r with Err e => Err e | Ok a => Ok (printed a) end).

Definition perform (ops : commandOperations W) (op : operation) (w : W) : option (W * res error bytes) :=
  match op with
  | OpHealth => Some (silent (line (bs "healthy")) (health ops w ()))
  | OpMigrate => Some (silent (line (bs "migrations complete")) (op_migrate ops w ()))
  | OpSchedule o => Some (silent (line (bs "scheduled " ++ origin_String o)) (schedule ops w o))
  | OpSeedAdd o => (fun s => silent (line (bs "seed added " ++ origin_String o)) (addCrawlSeed s w o)) <$> seed_operations ops
  | OpSeedRemove o => (fun s => silent (line (bs "seed removed " ++ origin_String o)) (removeCrawlSeed s w o)) <$> seed_operations ops
  | OpSeedList => (fun s => rendered (fun l => lines (map origin_String l)) (crawlSeeds s w ())) <$> seed_operations ops
  | OpSetBlocked o blocked =>
      (fun s => silent (line (bs "source " ++ (if blocked then bs "blocked" else bs "allowed") ++ bs " " ++ origin_String o))
                  (setCrawlBlocked s w (o, blocked))) <$> source_operations ops
  | OpSourceList => (fun s => rendered (fun l => lines (map formatCrawlSource l)) (crawlSources s w ())) <$> source_operations ops
  | OpWorker => Some (silent [] (worker ops w ()))
  | OpDiscover once => Some (silent (if once then line (bs "discovery attempt complete") else []) (discover ops w once))
  | OpReport => Some (silent [] (report ops w ()))
  | OpControl => (fun c => silent [] (c w ())) <$> control_operation ops
  | OpExport root => Some (silent (line (bs "exported " ++ root)) (op_export ops w root))
  | OpPublish root => Some (rendered published_text (op_publish ops w root))
  | OpExportRegistry => (fun c => silent [] (c w ())) <$> export_registry ops
  | OpPublishRegistry => (fun c => silent [] (c w ())) <$> publish_registry ops
  | OpConformance e => Some (rendered (fun printed => printed) (conformance ops w e))
  end.

(** Exit code and output of an operation: 0 and its text, or 1 and its error *)
Definition reported (op : operation) (r : res error bytes) : outcome :=
  match r with Ok printed => success printed | Err e => reportCommandFailure (command_of op) e end.

Definition performed (ops : commandOperations W) (op : operation) (w : W) : W * outcome :=
  match perform ops op w with
  | None => unavailable (command_of op) w
  | Some (w', r) => (w', reported op r)
  end.

Lemma finish_silent (r : W * option error) op printed : finish (command_of op) printed r = let '(w, a) := silent printed r in (w, reported op a).
Proof. by destruct r as [w [e|]]. Qed.
Lemma finish_rendered {A} (r : W * res error A) op printed :
  finish_with (command_of op) printed r = let '(w, a) := rendered printed r in (w, reported op a).
Proof. by destruct r as [w [a|e]]. Qed.
End Perform.

(** Comparisons of texts that are known are computed. *)
Ltac known_texts :=
  repeat match goal with
  | |- context [bytes_eqb (bs ?a) (bs ?b)] => let v := eval vm_compute in (bytes_eqb (bs a) (bs b)) in change (bytes_eqb (bs a) (bs b)) with v
  end; cbn [orb andb negb].

(** Arguments that denote an operation perform it and report its result. *)
Lemma dispatch_denoted {W} (ops : commandOperations W) args op w :
  denotes args op -> runWithOperations (Some ops) args w = performed ops op w.
Proof.
  destruct 1; unfold runWithOperations, run_seed, run_source, run_discover, run_optional, run_conformance, with_origin, with_directory,
    without_arguments, performed; known_texts; cbn [perform].
  all: try by rewrite <- finish_silent.
  all: try by rewrite <- finish_rendered.
  all: try (destruct (seed_operations ops); [|done]; cbn [fmap option_fmap option_map]).
  all: try (destruct (source_operations ops); [|done]; cbn [fmap option_fmap option_map]).
  all: try (destruct (control_operation ops); [|done]; cbn [fmap option_fmap option_map]).
  all: try (destruct (export_registry ops); [|done]; cbn [fmap option_fmap option_map]).
  all: try (destruct (publish_registry ops); [|done]; cbn [fmap option_fmap option_map]).
  all: try match goal with Hp : Origin.Parse _ = _ |- _ => rewrite Hp end.
  all: try by rewrite <- finish_silent.
  all: try by rewrite <- finish_rendered.
  - destruct (bytes_eqb_spec root []); [done|]. by rewrite <- finish_silent.
  - destruct (bytes_eqb_spec root []); [done|]. by rewrite <- finish_rendered.
  - assert (parseWebBotAuthConformanceArgs [bs "web-bot-auth"; bs "--expect"; expectation] = Some expectation) as ->.
    { match goal with He : _ \/ _ |- _ => by destruct He as [-> | ->] end. }
    by rewrite <- finish_rendered.
Qed.
(** What the program does when no operation is performed: the help, the usage
    for arguments that mean nothing, or a missing interface *)
Definition idle (args : list bytes) (out : outcome) : Prop :=
  (is_help args /\ out = success helpText)
  \/ (exit_code out = exitUsage /\ stdout out = [] /\ forall op, ~ denotes args op)
  \/ (exists command, out = reportCommandFailure command (errors_New errOperationsUnavailable)).

(** A run that means an operation or is idle *)
Definition meant {W} (args : list bytes) (w : W) (r : W * outcome) : Prop :=
  (exists op, denotes args op) \/ exists out, r = (w, out) /\ idle args out.

(** The usage is reported for arguments that mean nothing. *)
Ltac means := left; eexists; by constructor.
Ltac means_nothing := right; eexists; split; [done|]; right; left; split_and!; [done..|]; let Hden := fresh in intros ? Hden; inversion Hden; subst; try done; try naive_solver.
Ltac is_missing := right; eexists; split; [done|]; right; right; by eexists.

(** Commands by the form of what follows a fixed beginning [p] *)
Lemma plain_meant {W} p rest message (w : W) act :
  (exists op, denotes p op) -> (forall op, denotes (p ++ rest) op -> rest = []) -> meant (p ++ rest) w (without_arguments rest message w act).
Proof.
  intros [op Hop] Honly. destruct rest as [|r rest]; [left; exists op; by rewrite app_nil_r|]. right. eexists. split; [done|].
  right. left. split_and!; [done..|]. by intros op' ?%Honly.
Qed.

Lemma origin_meant {W} p rest count invalid (w : W) act :
  (forall raw o, Origin.Parse raw = Ok o -> exists op, denotes (p ++ [raw]) op) ->
  (forall op, denotes (p ++ rest) op -> exists raw o, rest = [raw] /\ Origin.Parse raw = Ok o) ->
  meant (p ++ rest) w (with_origin rest count invalid w act).
Proof.
  intros Hall Honly. unfold with_origin. destruct rest as [|raw [|? ?]].
  - right. eexists. split; [done|]. right. left. split_and!; [done..|]. by intros op (? & ? & ? & _)%Honly.
  - destruct (Origin.Parse raw) as [o|] eqn:Hp; [left; by eapply Hall|]. right. eexists. split; [done|].
    right. left. split_and!; [done..|]. intros op (? & ? & [= <-] & Hp')%Honly. by rewrite Hp in Hp'.
  - right. eexists. split; [done|]. right. left. split_and!; [done..|]. by intros op (? & ? & ? & _)%Honly.
Qed.

Lemma directory_meant {W} p rest flag message (w : W) act :
  (forall root, root <> [] -> exists op, denotes (p ++ [flag; root]) op) ->
  (forall op, denotes (p ++ rest) op -> exists root, rest = [flag; root] /\ root <> []) ->
  meant (p ++ rest) w (with_directory rest flag message w act).
Proof.
  intros Hall Honly. unfold with_directory.
  assert (Hno : (forall root, rest = [flag; root] -> root = []) -> meant (p ++ rest) w (w, reportUsage message)).
  { intros Hr. right. eexists. split; [done|]. right. left. split_and!; [done..|]. intros op (root & He & Hne)%Honly. by apply Hne, Hr. }
  destruct rest as [|given [|root [|? ?]]]; try by apply Hno.
  destruct (bytes_eqb_spec given flag) as [->|Hf]; cbn [negb orb]; [|apply Hno; by intros ? [= ? _]].
  destruct (bytes_eqb_spec root []) as [->|Hr]; [apply Hno; by intros ? [= <-]|]. left. by apply Hall.
Qed.

Ltac only_one := let Hden := fresh in intros ? Hden; inversion Hden; subst; naive_solver.
Ltac all_denoted := intros; eexists; by constructor.

Lemma seed_meant {W} (ops : commandOperations W) rest w : meant (bs "seed" :: rest) w (run_seed ops rest w).
Proof.
  unfold run_seed. destruct (seed_operations ops) as [s|]; [|is_missing]. destruct rest as [|sub rest]; [means_nothing|].
  destruct (bytes_eqb_spec sub (bs "add")) as [->|Ha]; [apply (origin_meant [bs "seed"; bs "add"]); [all_denoted|only_one]|].
  destruct (bytes_eqb_spec sub (bs "remove")) as [->|Hr]; [apply (origin_meant [bs "seed"; bs "remove"]); [all_denoted|only_one]|].
  destruct (bytes_eqb_spec sub (bs "list")) as [->|Hl]; [|means_nothing].
  apply (plain_meant [bs "seed"; bs "list"]); [all_denoted|only_one].
Qed.

Lemma source_meant {W} (ops : commandOperations W) rest w : meant (bs "source" :: rest) w (run_source ops rest w).
Proof.
  unfold run_source. destruct (source_operations ops) as [s|]; [|is_missing]. destruct rest as [|sub rest]; [means_nothing|].
  destruct (bytes_eqb_spec sub (bs "block")) as [->|Hb]; [apply (origin_meant [bs "source"; bs "block"]); [all_denoted|only_one]|].
  destruct (bytes_eqb_spec sub (bs "allow")) as [->|Ha]; [apply (origin_meant [bs "source"; bs "allow"]); [all_denoted|only_one]|].
  cbn [orb]. destruct (bytes_eqb_spec sub (bs "list")) as [->|Hl]; [|means_nothing].
  apply (plain_meant [bs "source"; bs "list"]); [all_denoted|only_one].
Qed.

Lemma discover_meant {W} (ops : commandOperations W) rest w : meant (bs "discover" :: rest) w (run_discover ops rest w).
Proof.
  destruct rest as [|flag [|? ?]]; cbn [run_discover]; [means| |means_nothing].
  destruct (bytes_eqb_spec flag (bs "--once")) as [->|Hf]; [means|means_nothing].
Qed.

Lemma optional_meant {W} command operation message rest (w : W) :
  (exists op, denotes [command] op) -> (forall op, denotes (command :: rest) op -> rest = []) ->
  meant (command :: rest) w (run_optional operation command message rest w).
Proof.
  intros Hone Honly. unfold run_optional. destruct operation; [|is_missing]. by apply (plain_meant [command]).
Qed.

Lemma conformance_meant {W} (ops : commandOperations W) rest w : meant (bs "conformance" :: rest) w (run_conformance ops rest w).
Proof.
  unfold run_conformance. destruct (parseWebBotAuthConformanceArgs rest) as [e|] eqn:Hp.
  - left. exists (OpConformance e). revert Hp. unfold parseWebBotAuthConformanceArgs. destruct rest as [|a [|b [|c [|? ?]]]]; try done.
    destruct (bytes_eqb_spec a (bs "web-bot-auth")) as [->|]; [|done]. destruct (bytes_eqb_spec b (bs "--expect")) as [->|]; [|done]. cbn [negb orb].
    destruct (bytes_eqb_spec c webBotAuthExpectUnregistered) as [->|]; [intros [= <-]; constructor; by left|].
    destruct (bytes_eqb_spec c webBotAuthExpectVerified) as [->|]; [intros [= <-]; constructor; by right|done].
  - right. eexists. split; [done|]. right. left. split_and!; [done..|]. intros op Hd. inversion Hd as [| | | | | | | | | | | | | | | | | |e He]; subst.
    by destruct He as [-> | ->].
Qed.
Lemma dispatch_meant {W} (ops : commandOperations W) args w : meant args w (runWithOperations (Some ops) args w).
Proof.
  destruct args as [|command rest]; cbn [runWithOperations]; [means_nothing|].
  destruct (bytes_eqb command (bs "help") || bytes_eqb command (bs "-h") || bytes_eqb command (bs "--help")) eqn:Hhelp.
  { rewrite !orb_true_iff, <- !(reflect_iff _ _ (bytes_eqb_spec _ _)) in Hhelp. destruct rest; [|destruct Hhelp as [[-> | ->] | ->]; means_nothing].
    right. eexists. split; [done|]. left. split; [|done]. unfold is_help. destruct Hhelp as [[-> | ->] | ->]; auto. }
  destruct (bytes_eqb_spec command (bs "health")) as [->|Ha]; [apply (plain_meant [_]); [all_denoted|only_one]|].
  destruct (bytes_eqb_spec command (bs "migrate")) as [->|Hb]; [apply (plain_meant [_]); [all_denoted|only_one]|].
  destruct (bytes_eqb_spec command (bs "schedule")) as [->|Hc]; [apply (origin_meant [_]); [all_denoted|only_one]|].
  destruct (bytes_eqb_spec command (bs "seed")) as [->|Hd]; [apply seed_meant|].
  destruct (bytes_eqb_spec command (bs "source")) as [->|He]; [apply source_meant|].
  destruct (bytes_eqb_spec command (bs "worker")) as [->|Hf]; [apply (plain_meant [_]); [all_denoted|only_one]|].
  destruct (bytes_eqb_spec command (bs "discover")) as [->|Hg]; [apply discover_meant|].
  destruct (bytes_eqb_spec command (bs "report")) as [->|Hh]; [apply (plain_meant [_]); [all_denoted|only_one]|].
  destruct (bytes_eqb_spec command (bs "control")) as [->|Hi]; [apply optional_meant; [all_denoted|only_one]|].
  destruct (bytes_eqb_spec command (bs "export")) as [->|Hj]; [apply (directory_meant [_]); [all_denoted|only_one]|].
  destruct (bytes_eqb_spec command (bs "publish")) as [->|Hk]; [apply (directory_meant [_]); [all_denoted|only_one]|].
  destruct (bytes_eqb_spec command (bs "export-registry")) as [->|Hl]; [apply optional_meant; [all_denoted|only_one]|].
  destruct (bytes_eqb_spec command (bs "publish-registry")) as [->|Hm]; [apply optional_meant; [all_denoted|only_one]|].
  destruct (bytes_eqb_spec command (bs "conformance")) as [->|Hn]; [apply conformance_meant|]. means_nothing.
Qed.

(** ** One command, one operation *)

(** The operations that also record which of them were called *)
Definition recording {W A R} (f : A -> operation) (c : call W A R) : call (W * list operation) A R :=
  fun '(w, log) a => let '(w', r) := c w a in ((w', log ++ [f a]), r).

Definition recorded_operations {W} (ops : commandOperations W) : commandOperations (W * list operation) := {|
  health := recording (fun _ => OpHealth) (health ops);
  op_migrate := recording (fun _ => OpMigrate) (op_migrate ops);
  schedule := recording OpSchedule (schedule ops);
  worker := recording (fun _ => OpWorker) (worker ops);
  discover := recording OpDiscover (discover ops);
  report := recording (fun _ => OpReport) (report ops);
  op_export := recording OpExport (op_export ops);
  op_publish := recording OpPublish (op_publish ops);
  seed_operations :=
    (fun s => {| addCrawlSeed := recording OpSeedAdd (addCrawlSeed s); removeCrawlSeed := recording OpSeedRemove (removeCrawlSeed s);
                 crawlSeeds := recording (fun _ => OpSeedList) (crawlSeeds s) |}) <$> seed_operations ops;
  source_operations :=
    (fun s => {| setCrawlBlocked := recording (fun a => OpSetBlocked a.1 a.2) (setCrawlBlocked s);
                 crawlSources := recording (fun _ => OpSourceList) (crawlSources s) |}) <$> source_operations ops;
  control_operation := recording (fun _ => OpControl) <$> control_operation ops;
  export_registry := recording (fun _ => OpExportRegistry) <$> export_registry ops;
  publish_registry := recording (fun _ => OpPublishRegistry) <$> publish_registry ops;
  conformance := recording OpConformance (conformance ops);
|}.

Lemma perform_recorded {W} (ops : commandOperations W) op w log :
  perform (recorded_operations ops) op (w, log) = (fun r => ((fst r, log ++ [op]), snd r)) <$> perform ops op w.
Proof.
  destruct op; cbn [perform recorded_operations health op_migrate schedule worker discover report op_export op_publish seed_operations
    source_operations control_operation export_registry publish_registry conformance].
  all: try (destruct (seed_operations ops); [|done]). all: try (destruct (source_operations ops); [|done]).
  all: try (destruct (control_operation ops); [|done]). all: try (destruct (export_registry ops); [|done]).
  all: try (destruct (publish_registry ops); [|done]).
  all: cbn [fmap option_fmap option_map addCrawlSeed removeCrawlSeed crawlSeeds setCrawlBlocked crawlSources].
  all: unfold silent, rendered, recording; cbn [fst snd].
  all: repeat case_match; naive_solver.
Qed.

(** One command, one operation. Whatever the operations do, a run of the
    program either calls exactly one of them, the one that the line of the
    usage with its arguments names, and exits with 0 and its text or with 1 and
    its error; or it calls none and changes nothing: it prints the help, or it
    exits with 2 because its arguments are no line of the usage, or with 1
    because the interface is missing. Arguments of a line of the usage whose
    operation is there are never refused. *)
Theorem command_line_correct {W} (ops : commandOperations W) args w w' log out :
  runWithOperations (Some (recorded_operations ops)) args (w, []) = ((w', log), out) ->
  ((exists op r, denotes args op /\ log = [op] /\ perform ops op w = Some (w', r) /\ out = reported op r)
   \/ (log = [] /\ w' = w /\ idle args out))
  /\ (forall op, denotes args op -> perform ops op w <> None -> log = [op]).
Proof.
  intros Hrun.
  assert (Hden : forall op, denotes args op -> (exists r, log = [op] /\ perform ops op w = Some (w', r) /\ out = reported op r)
    \/ (perform ops op w = None /\ log = [] /\ w' = w /\ out = reportCommandFailure (command_of op) (errors_New errOperationsUnavailable))).
  { intros op Hd. rewrite (dispatch_denoted _ _ _ _ Hd) in Hrun. unfold performed in Hrun. rewrite perform_recorded in Hrun.
    destruct (perform ops op w) as [[w1 r]|]; cbn in Hrun; injection Hrun as <- <- <-; [left; by exists r|by right]. }
  split.
  - destruct (dispatch_meant (recorded_operations ops) args (w, [])) as [[op Hd]|(out' & He & Hi)].
    + destruct (Hden op Hd) as [(r & Hl & Hp & Ho)|(_ & -> & -> & ->)]; [left; by exists op, r|].
      right. split_and!; [done..|]. right. right. by eexists.
    + rewrite Hrun in He. injection He as -> -> ->. by right.
  - intros op Hd Hp. destruct (Hden op Hd) as [(r & Hl & _)|(Hnone & _)]; [done|by rewrite Hnone in Hp].
Qed.
End Meaning.

(** * The operations on the stores ([runtime.go], [seed.go], [source.go]) *)

Section Runtime.
Context `{NetURL} `{NetIP} `{IDNA} `{Unicode} `{Durations} `{DatabaseURLs} {W : Type}.
Variable env : service_environment W.
Variable files : bytes -> option stream.
Variable getenv : bytes -> bytes.
(** The connection's [Ping], [store.Migrate] on its pool, the database behind
    it with its clock, and the order of its texts *)
Variables (Ping migrateDatabase : call W unit (option error)).
Variables (database_of : W -> Database) (set_database : W -> Database -> W) (clock : W -> Z).
Variable text_leb : bytes -> bytes -> bool.

Definition runtime_health (w : W) : W * option error :=
  withDatabase env files getenv Some (fun _ w => let '(w, err) := Ping w () in (w, wrap <$> err)) w.

Definition runtime_migrate (w : W) : W * option error := withDatabase env files getenv Some (fun _ w => migrateDatabase w ()) w.

(** One statement on the database *)
Definition on_database (f : Database -> Database * option error) (w : W) : W * option error :=
  let '(d, err) := f (database_of w) in (set_database w d, err).

(** [time.Unix(0, 0).UTC()] *)
Definition epoch : Z := unixToInternal * Second.

Definition runtime_schedule (source : Origin) (w : W) : W * option error :=
  match loadQueueConfig getenv with
  | Err e => (w, Some e)
  | Ok config =>
      withDatabase env files getenv Some (fun _ w =>
        if negb (validQueueConfig config) then (w, Some (wrap (errors_New errInvalidQueueConfig)))
        else on_database (fun d => Queue.Schedule d source epoch (clock w)) w) w
  end.

(** The store of the curated seeds has the zero configuration, which is valid. *)
Definition withCrawlSeedStore {R} (failed : error -> R) (action : W -> W * R) (w : W) : W * R :=
  withDatabase env files getenv failed (fun _ w =>
    match newDiscoveryStoreWithConfig (mkAutomatic false 0 0 []) with Some e => (w, failed (wrap e)) | None => action w end) w.

Definition runtime_addCrawlSeed (source : Origin) (w : W) : W * option error :=
  withCrawlSeedStore Some (on_database (fun d => let '(d, err) := AddCrawlSeed d source in (d, wrap <$> err))) w.
Definition runtime_removeCrawlSeed (source : Origin) (w : W) : W * option error :=
  withCrawlSeedStore Some (on_database (fun d => let '(d, err) := RemoveCrawlSeed d source in (d, wrap <$> err))) w.
Definition runtime_crawlSeeds (w : W) : W * res error (list Origin) :=
  withCrawlSeedStore Err (fun w => (w, CrawlSeeds text_leb (database_of w))) w.

Definition excluded_hosts : bytes := settingOrDefault getenv (bs "JOSHBOT_AUTOMATIC_CRAWL_EXCLUDED_HOSTS") [].

Definition withCrawlSourceStore {R} (failed : error -> R) (action : W -> W * R) (w : W) : W * R :=
  if negb (validExcludedHostSuffixes excluded_hosts) then (w, failed (wrap (errors_New (foreign 17))))
  else
    withDatabase env files getenv failed (fun _ w =>
      match newDiscoveryStoreWithConfig (mkAutomatic false 0 0 excluded_hosts) with Some e => (w, failed (wrap e)) | None => action w end) w.

Definition runtime_setCrawlBlocked (source : Origin) (blocked : bool) (w : W) : W * option error :=
  withCrawlSourceStore Some (on_database (fun d =>
    let '(d, err) := SetCrawlBlocked text_leb (mkAutomatic false 0 0 excluded_hosts) d source blocked in (d, wrap <$> err))) w.
Definition runtime_crawlSources (w : W) : W * res error (list CrawlSource) :=
  withCrawlSourceStore Err (fun w => (w, CrawlSources text_leb (database_of w))) w.

(** [runtimeOperations], with the operations that are components of their own *)
Definition runtime_operations (run_worker : call W unit (option error)) (run_discover : call W bool (option error))
    (run_report run_control run_export_registry run_publish_registry : call W unit (option error))
    (run_export : call W bytes (option error)) (run_publish : call W bytes (res error Result))
    (run_conformance : call W bytes (res error bytes)) : commandOperations W := {|
  health := fun w _ => runtime_health w;
  op_migrate := fun w _ => runtime_migrate w;
  schedule := fun w source => runtime_schedule source w;
  worker := run_worker;
  discover := run_discover;
  report := run_report;
  op_export := run_export;
  op_publish := run_publish;
  seed_operations := Some {|
    addCrawlSeed := fun w source => runtime_addCrawlSeed source w;
    removeCrawlSeed := fun w source => runtime_removeCrawlSeed source w;
    crawlSeeds := fun w _ => runtime_crawlSeeds w |};
  source_operations := Some {|
    setCrawlBlocked := fun w '(source, blocked) => runtime_setCrawlBlocked source blocked w;
    crawlSources := fun w _ => runtime_crawlSources w |};
  control_operation := Some run_control;
  export_registry := Some run_export_registry;
  publish_registry := Some run_publish_registry;
  conformance := run_conformance;
|}.

(** ** What a command changes *)

(** The statement of a command that changes the stores *)
Definition store_effect (op : operation) (d : Database) (now : Z) : option (Database * option error) :=
  match op with
  | OpSchedule source => Some (Queue.Schedule d source epoch now)
  | OpSeedAdd source => Some (AddCrawlSeed d source)
  | OpSeedRemove source => Some (RemoveCrawlSeed d source)
  | OpSetBlocked source blocked => Some (SetCrawlBlocked text_leb (mkAutomatic false 0 0 excluded_hosts) d source blocked)
  | _ => None
  end.

(** The command executed its statement on the database it opened, with this
    result, and closed the connection. *)
Definition executed (op : operation) (w w' : W) (err : option error) : Prop :=
  exists config w1 d,
    LoadConfig files (getenv (bs "JOSHBOT_DATABASE_URL")) (getenv (bs "JOSHBOT_DATABASE_PASSWORD_FILE")) = Ok config
    /\ newDatabase env w config = (w1, None) /\ store_effect op (database_of w1) (clock w1) = Some (d, err)
    /\ w' = database_Close env (set_database w1 d).

(** The command was refused before, by its settings or by the database. *)
Definition not_executed (w w' : W) : Prop :=
  w' = w \/ exists config e, newDatabase env w config = (w', Some e).

Lemma within_database (action : W -> W * option error) w w' err :
  withDatabase env files getenv Some (fun _ w => action w) w = (w', err) ->
  (err <> None /\ not_executed w w')
  \/ exists config w1 w2,
       LoadConfig files (getenv (bs "JOSHBOT_DATABASE_URL")) (getenv (bs "JOSHBOT_DATABASE_PASSWORD_FILE")) = Ok config
       /\ newDatabase env w config = (w1, None) /\ action w1 = (w2, err) /\ w' = database_Close env w2.
Proof.
  unfold withDatabase, openDatabase. destruct (LoadConfig _ _ _) as [config|e]; [|intros [= <- <-]; left; split; [done|by left]].
  destruct (newDatabase env w config) as [w1 [e|]] eqn:Hn; [intros [= <- <-]; left; split; [done|]; right; by exists config, e|].
  destruct (action w1) as [w2 err2] eqn:Ha. intros [= <- <-]. right. by exists config, w1, w2.
Qed.

Lemma within_statement op (f : Database -> Z -> Database * option error) w w' err :
  (forall d now, store_effect op d now = Some (f d now)) ->
  withDatabase env files getenv Some (fun _ w => on_database (fun d => f d (clock w)) w) w = (w', err) ->
  (err <> None /\ not_executed w w') \/ executed op w w' err.
Proof.
  intros Hf Hrun. apply (within_database (fun w => on_database (fun d => f d (clock w)) w)) in Hrun
    as [Hrun|(config & w1 & w2 & Hc & Hn & Ha & ->)]; [by left|]. right. unfold on_database in Ha.
  destruct (f (database_of w1) (clock w1)) as [d err'] eqn:Hd. injection Ha as <- <-. exists config, w1, d. split_and!; try done.
  by rewrite Hf, Hd.
Qed.
Lemma unwrapped (r : Database * option error) : (let '(d, err) := r in (d, wrap <$> err)) = r.
Proof. by destruct r as [d [e|]]. Qed.

Lemma seed_store_valid : newDiscoveryStoreWithConfig (mkAutomatic false 0 0 []) = None.
Proof. done. Qed.

Variables (run_worker : call W unit (option error)) (run_discover : call W bool (option error)).
Variables (run_report run_control run_export_registry run_publish_registry : call W unit (option error)).
Variables (run_export : call W bytes (option error)) (run_publish : call W bytes (res error Result)).
Variable run_conformance : call W bytes (res error bytes).

Abbreviation operations := (runtime_operations run_worker run_discover run_report run_control run_export_registry
  run_publish_registry run_export run_publish run_conformance).

Lemma perform_executes op w w' r : (forall d now, store_effect op d now <> None) -> perform operations op w = Some (w', r) ->
  match r with
  | Ok _ => executed op w w' None
  | Err e => not_executed w w' \/ executed op w w' (Some e)
  end.
Proof.
  intros Heff.
  assert (Hsilent : forall printed run, (forall err, run = (w', err) -> (err <> None /\ not_executed w w') \/ executed op w w' err) ->
    silent printed run = (w', r) -> match r with Ok _ => executed op w w' None | Err e => not_executed w w' \/ executed op w w' (Some e) end).
  { intros printed [w0 [e|]] Hrun; intros [= -> <-]; (destruct (Hrun _ eq_refl) as [[Hne Hn]|Hx]; [by try left|]); [by right|done]. }
  destruct op; try (by destruct (Heff (database_of w) 0)); cbn [perform runtime_operations seed_operations source_operations fmap option_fmap
    option_map schedule addCrawlSeed removeCrawlSeed setCrawlBlocked]; intros Hrun%(inj Some); revert Hrun; apply Hsilent; intros err.
  - unfold runtime_schedule. destruct (loadQueueConfig getenv) as [config|e] eqn:Hc; [|intros [= <- <-]; left; split; [done|by left]].
    rewrite (loadQueueConfig_valid _ _ Hc). cbn [negb]. by apply (within_statement (OpSchedule source) (fun d now => Queue.Schedule d source epoch now)).
  - unfold runtime_addCrawlSeed, withCrawlSeedStore. rewrite seed_store_valid.
    apply (within_statement _ (fun d _ => let '(d, err) := AddCrawlSeed d source in (d, wrap <$> err))). intros d now. by rewrite unwrapped.
  - unfold runtime_removeCrawlSeed, withCrawlSeedStore. rewrite seed_store_valid.
    apply (within_statement _ (fun d _ => let '(d, err) := RemoveCrawlSeed d source in (d, wrap <$> err))). intros d now. by rewrite unwrapped.
  - unfold runtime_setCrawlBlocked, withCrawlSourceStore. destruct (validExcludedHostSuffixes excluded_hosts) eqn:Hv; cbn [negb].
    2:{ intros [= <- <-]. left. split; [done|by left]. }
    assert (newDiscoveryStoreWithConfig (mkAutomatic false 0 0 excluded_hosts) = None) as -> 
      by (unfold newDiscoveryStoreWithConfig; cbn [automatic_MaxPendingProbes automatic_MaxPromotionsPerRun automatic_ExcludedHostSuffixes]; by rewrite Hv).
    apply (within_statement _ (fun d _ =>
      let '(d, err) := SetCrawlBlocked text_leb (mkAutomatic false 0 0 excluded_hosts) d source blocked in (d, wrap <$> err))).
    intros d now. by rewrite unwrapped.
Qed.

(** The exit code is the truth about the database. For a command that changes
    the stores (scheduling, seeds, crawl blocks), exit code 0 means that its
    statement was executed on the opened database with the result it has
    there and that the connection was closed; any other run exits with 1, and
    then nothing was executed or the statement itself failed. *)
Theorem command_commits args op w w' out : denotes args op -> (forall d now, store_effect op d now <> None) ->
  runWithOperations (Some operations) args w = (w', out) ->
  (exit_code out = exitSuccess /\ executed op w w' None)
  \/ (exit_code out = exitFailure /\ (not_executed w w' \/ exists e, executed op w w' (Some e))).
Proof.
  intros Hd Heff. rewrite (dispatch_denoted _ _ _ _ Hd). unfold performed. destruct (perform operations op w) as [[w1 r]|] eqn:Hp.
  - intros [= -> <-]. apply perform_executes in Hp; [|done]. destruct r as [printed|e]; [by left|]. right. split; [done|].
    destruct Hp as [Hp|Hp]; [by left|right; by exists e].
  - exfalso. by destruct op; try by destruct (Heff (database_of w) 0).
Qed.
End Runtime.

(** ** A session *)

Module Session.
Import Concrete.

#[local] Instance session_urls : NetURL := {|
  url_Parse s :=
    if HasPrefix s (bs "postgres://") then Some (split_path (bs "postgres") (drop 11 s)) else @url_Parse neturl s;
  url_String := @url_String neturl; url_EscapedPath := @url_EscapedPath neturl; url_ResolveReference := @url_ResolveReference neturl |}.
#[local] Instance unicode : Unicode := {| ToLower := map to_lower |}.
#[local] Instance durations : Durations := {| time_ParseDuration s := (fun n => n * Second) <$> ParseInt64 s |}.
#[local] Instance database_urls : DatabaseURLs := {|
  user_has_password _ := false; query_has _ _ := false; pgxpool_ParseConfig s := Some (mkPoolConfig s []) |}.

Definition files (path : bytes) : option stream :=
  if bytes_eqb path (bs "/run/password") then Some (mkStream (bs "secret") None) else None.
Definition getenv (name : bytes) : bytes :=
  if bytes_eqb name (bs "JOSHBOT_DATABASE_URL") then bs "postgres://db"
  else if bytes_eqb name (bs "JOSHBOT_DATABASE_PASSWORD_FILE") then bs "/run/password" else [].

(** The state of the environment is the database. *)
Definition env : service_environment Database := {|
  newDatabase w _ := (w, None); database_Close w := w; net_Listen w _ := (w, None); listener_Close w := w;
  race w _ := (w, None); server_Shutdown w _ := (w, None); server_Close w := w; serve_result w _ := (w, None) |}.
Definition nothing {A} : call Database A (option error) := fun w _ => (w, None).
Definition text_leb : bytes -> bytes -> bool := fun a b => bool_decide (text_le a b).

Definition operations : commandOperations Database :=
  runtime_operations env files getenv nothing nothing id (fun _ d => d) (fun _ => 1000 * Second) text_leb
    nothing nothing nothing nothing nothing nothing nothing (fun w _ => (w, Ok (mkResult true (bs "abc")))) (fun w _ => (w, Ok [])).

Definition run (args : list bytes) (d : Database) : Database * outcome := runWithOperations (Some operations) args d.
Definition source : Origin := mkOrigin (bs "https://example.org") (bs "example.org") 443.
Definition seeded : Database := fst (AddCrawlSeed empty_database source).

Example a_session :
  run [bs "seed"; bs "add"; bs "https://example.org/page"] empty_database = (seeded, success (bs "seed added https://example.org" ++ [chr 10]))
  /\ snd (run [bs "seed"; bs "list"] seeded) = success (bs "https://example.org" ++ [chr 10])
  /\ snd (run [bs "seed"; bs "add"; bs "ftp://example.org"] seeded) = reportUsage (bs "seed add requires a valid HTTP or HTTPS URL")
  /\ snd (run [bs "publish"; bs "--input"; bs "out"] seeded) = success (bs "published abc" ++ [chr 10])
  /\ exit_code (snd (run [bs "worker"; bs "now"] seeded)) = exitUsage.
Proof. split_and!; by vm_compute. Qed.

Definition add_seed : list bytes := [bs "seed"; bs "add"; bs "https://example.org"].
Definition added : outcome := success (bs "seed added https://example.org" ++ [chr 10]).

Lemma command_line_correct_witness :
  runWithOperations (Some (recorded_operations operations)) add_seed (empty_database, []) = ((seeded, [OpSeedAdd source]), added)
  /\ ((exists op r, denotes add_seed op /\ [OpSeedAdd source] = [op] /\ perform operations op empty_database = Some (seeded, r) /\ added = reported op r)
      \/ ([OpSeedAdd source] = [] /\ seeded = empty_database /\ idle add_seed added)).
Proof.
  assert (Hrun : runWithOperations (Some (recorded_operations operations)) add_seed (empty_database, []) = ((seeded, [OpSeedAdd source]), added))
    by (vm_compute; reflexivity).
  split; [exact Hrun|]. exact (proj1 (command_line_correct operations add_seed empty_database seeded [OpSeedAdd source] added Hrun)).
Defined.

Lemma command_commits_witness :
  (exit_code added = exitSuccess
   /\ executed env files getenv id (fun _ d => d) (fun _ => 1000 * Second) text_leb (OpSeedAdd source) empty_database seeded None)
  \/ (exit_code added = exitFailure
      /\ (not_executed env empty_database seeded
          \/ exists e, executed env files getenv id (fun _ d => d) (fun _ => 1000 * Second) text_leb (OpSeedAdd source) empty_database seeded (Some e))).
Proof.
  assert (Hrun : run add_seed empty_database = (seeded, added)) by (vm_compute; reflexivity).
  assert (Hden : denotes add_seed (OpSeedAdd source)) by (apply denotes_add; vm_compute; reflexivity).
  refine (command_commits env files getenv nothing nothing id (fun _ d => d) (fun _ => 1000 * Second) text_leb
    nothing nothing nothing nothing nothing nothing nothing (fun w _ => (w, Ok (mkResult true (bs "abc")))) (fun w _ => (w, Ok []))
    add_seed (OpSeedAdd source) empty_database seeded added Hden _ Hrun).
  intros d now. discriminate.
Defined.
End Session.
