(* ===== verification/Heartbeat.v ===== *)
(** * Service heartbeats and the long-running commands
      ([cmd/joshbot/service_heartbeat.go], [runtime.go], [discovery.go])

    A heartbeat is written by a goroutine on a ticker, updated by the service
    it watches, and stopped once. Its system is a step relation whose writes go
    to the store; the commands [worker] and [discover] run under it. An origin
    is given by its serialization, which is empty for the zero origin. *)

From S2P Require Import Prelude GoText GoErrors GoUrl GoNetip GoJson GoTime GoEncoding Retry Origin Netguard.
From S2P Require Import RobotsMatch RobotsPolicy RobotsPolicyFacts RobotsHTTP Declaration Verifier.
From S2P Require Import Discovery Crawler Store Queue Exclusions DiscoveryStore CrawlTelemetry Registry PublicData RegistryService.
From S2P Require Import Control WebBotAuth Settings WebBotAuthConfig Services.

Definition maxServiceHeartbeatMessageBytes : Z := 256.

(** ** Messages *)

(** The loop that backs up to the start of a rune *)
Fixpoint rune_boundary (s : bytes) (n : nat) : nat :=
  match n with
  | O => O
  | S m => match s !! n with Some c => if rune_start c then n else rune_boundary s m | None => rune_boundary s m end
  end.

Definition truncateUTF8Bytes (s : bytes) (maxBytes : Z) : bytes :=
  if (maxBytes <=? 0) || (Z.of_nat (length s) <=? maxBytes) then if maxBytes <=? 0 then [] else s
  else take (rune_boundary s (Z.to_nat maxBytes)) s.

(** ** One heartbeat *)

Record monitor : Type := mkMonitor {
  hb_state : bytes; hb_current : bytes; hb_message : bytes; hb_failureActive : bool }.

Section Heartbeat.
Variables (service instanceID : bytes) (startedAt : Z).
Variables (buildVersion buildCommit : bytes).

(** [Observe] *)
Definition Observe (m : monitor) (state currentOrigin message : bytes) : monitor :=
  mkMonitor state currentOrigin (truncateUTF8Bytes message maxServiceHeartbeatMessageBytes) (hb_failureActive m).

(** What [write] reads under the lock, and the time *)
Definition snapshot (m : monitor) (state : bytes) (now : Z) : ServiceHeartbeat :=
  mkHeartbeat service instanceID (if bytes_eqb state [] then hb_state m else state) (hb_current m) (hb_message m)
    buildVersion buildCommit startedAt now.

(** [recordWriteResult]: the monitor and what is reported *)
Definition recordWriteResult (m : monitor) (err : option error) : monitor * list error :=
  let failed := match err with Some _ => true | None => false end in
  (mkMonitor (hb_state m) (hb_current m) (hb_message m) failed,
   match err with Some e => if hb_failureActive m then [] else [wrap e] | None => [] end).

(** ** The system *)

(** The goroutine on the ticker, and the call of [stop] *)
Inductive ticker : Type := TickWaiting | TickWriting (h : ServiceHeartbeat) | TickDone.
Inductive stopper : Type :=
| StopNone
| StopCanceled (state : bytes)
| StopObserved (state : bytes)
| StopWriting (state : bytes) (h : ServiceHeartbeat)
| Stopped (state : bytes) (err : option error).

Record system : Type := mkSystem {
  sys_monitor : monitor;
  sys_ticker : ticker;
  sys_stopper : stopper;
  sys_clock : Z;
  sys_db : Database;
  sys_written : list (ServiceHeartbeat * option error);
  sys_reported : list error;
}.

(** One call of [UpsertServiceHeartbeat]: it fails on its way, or it is the
    statement. *)
Definition upsert (db : Database) (h : ServiceHeartbeat) (fault : option error) : Database * option error :=
  match fault with Some e => (db, Some e) | None => UpsertServiceHeartbeat db h end.

(** A write that returns, with the next states of the goroutines *)
Definition wrote (sys : system) (h : ServiceHeartbeat) (fault : option error) (t : ticker) (s : option error -> stopper) : system :=
  let '(db, err) := upsert (sys_db sys) h fault in
  let '(m, reports) := recordWriteResult (sys_monitor sys) err in
  mkSystem m t (s err) (sys_clock sys) db (sys_written sys ++ [(h, err)]) (sys_reported sys ++ reports).

Definition new_monitor : monitor := mkMonitor (bs "starting") [] [] false.

(** [startServiceHeartbeatWithReporter] *)
Definition start (db : Database) (now : Z) (fault : option error) : system * option error :=
  let sys := wrote (mkSystem new_monitor TickWaiting StopNone now db [] []) (snapshot new_monitor (bs "starting") now) fault
               TickWaiting (fun _ => StopNone) in
  (sys, match last (sys_written sys) with Some (_, Some e) => Some (wrap e) | _ => None end).

Definition valid_state (state : bytes) : bool :=
  existsb (bytes_eqb state) [bs "starting"; bs "idle"; bs "running"; bs "paused"; bs "stopping"; bs "failed"].

Definition set_monitor (sys : system) (m : monitor) : system :=
  mkSystem m (sys_ticker sys) (sys_stopper sys) (sys_clock sys) (sys_db sys) (sys_written sys) (sys_reported sys).
Definition set_goroutines (sys : system) (t : ticker) (s : stopper) (now : Z) : system :=
  mkSystem (sys_monitor sys) t s now (sys_db sys) (sys_written sys) (sys_reported sys).

Definition set_db (sys : system) (db : Database) : system :=
  mkSystem (sys_monitor sys) (sys_ticker sys) (sys_stopper sys) (sys_clock sys) db (sys_written sys) (sys_reported sys).

(** The steps. The service is observed with one of its states until it has
    returned, which is before [stop] is called. A tick may still win against
    the end of the context. The wall clock does not go back, and other sessions
    do not write the row of this process. *)
Inductive step (sys : system) : system -> Prop :=
| step_observe state currentOrigin message : sys_stopper sys = StopNone -> valid_state state = true ->
    step sys (set_monitor sys (Observe (sys_monitor sys) state currentOrigin message))
| step_tick now : sys_ticker sys = TickWaiting -> sys_clock sys <= now ->
    step sys (set_goroutines sys (TickWriting (snapshot (sys_monitor sys) [] now)) (sys_stopper sys) now)
| step_tick_written h fault : sys_ticker sys = TickWriting h -> step sys (wrote sys h fault TickWaiting (fun _ => sys_stopper sys))
| step_exit : sys_ticker sys = TickWaiting -> sys_stopper sys <> StopNone ->
    step sys (set_goroutines sys TickDone (sys_stopper sys) (sys_clock sys))
| step_stop state : sys_stopper sys = StopNone -> state = bs "stopping" \/ state = bs "failed" ->
    step sys (set_goroutines sys (sys_ticker sys) (StopCanceled state) (sys_clock sys))
| step_joined state : sys_stopper sys = StopCanceled state -> sys_ticker sys = TickDone ->
    step sys (set_goroutines (set_monitor sys (Observe (sys_monitor sys) state [] [])) (sys_ticker sys) (StopObserved state) (sys_clock sys))
| step_final now state : sys_stopper sys = StopObserved state -> sys_clock sys <= now ->
    step sys (set_goroutines sys (sys_ticker sys) (StopWriting state (snapshot (sys_monitor sys) [] now)) now)
| step_final_written state h fault : sys_stopper sys = StopWriting state h ->
    step sys (wrote sys h fault (sys_ticker sys) (Stopped state))
| step_other db : heartbeats (crawl db) !! (service, instanceID) = heartbeats (crawl (sys_db sys)) !! (service, instanceID) ->
    step sys (set_db sys db).

(** ** Facts *)

(** *** Messages *)

Lemma rune_boundary_le s n : (rune_boundary s n <= n)%nat.
Proof. induction n as [|n IH]; cbn [rune_boundary]; [done|]. repeat case_match; lia. Qed.

(** A truncated message is a prefix within the bound, and what was cut off
    begins with a rune. *)
Lemma truncate_spec s n : 0 < n ->
  exists rest, s = truncateUTF8Bytes s n ++ rest /\ Z.of_nat (length (truncateUTF8Bytes s n)) <= n
    /\ match rest with c :: _ => rune_start c = true \/ truncateUTF8Bytes s n = [] | [] => True end.
Proof.
  intros Hn. unfold truncateUTF8Bytes. rewrite (proj2 (Z.leb_gt n 0)) by done. cbn [orb].
  destruct (Z.leb_spec (Z.of_nat (length s)) n) as [Hl|Hl]; [exists []; rewrite app_nil_r; split_and!; [done|lia|done]|].
  set (b := rune_boundary s (Z.to_nat n)). pose proof (rune_boundary_le s (Z.to_nat n)) as Hb. fold b in Hb.
  exists (drop b s). rewrite take_drop. split_and!; [done|rewrite length_take; lia|].
  assert (Hstart : b = O \/ exists c, s !! b = Some c /\ rune_start c = true).
  { unfold b. clear b Hb. assert (Hm : (Z.to_nat n < length s)%nat) by lia. revert Hm. generalize (Z.to_nat n) as m.
    induction m as [|m IH]; intros Hm; cbn [rune_boundary]; [by left|].
    destruct (lookup_lt_is_Some_2 s (S m) Hm) as [c Hc]. rewrite Hc. destruct (rune_start c) eqn:Hr; [right; by exists c|]. apply IH. lia. }
  destruct (drop b s) as [|c rest] eqn:Hd; [done|]. destruct Hstart as [Hz|(c' & Hc' & Hr)]; [right; by rewrite Hz|]. left.
  assert (s !! b = Some c) by (rewrite <- (Nat.add_0_r b), <- lookup_drop, Hd; done). congruence.
Qed.

(** *** Writes *)

(** A heartbeat of this process *)
Record ours (h : ServiceHeartbeat) : Prop := {
  our_key : heartbeat_Service h = service /\ heartbeat_InstanceID h = instanceID;
  our_state : valid_state (heartbeat_State h) = true;
  our_message : Z.of_nat (length (heartbeat_Message h)) <= 256;
  our_times : heartbeat_StartedAt h = startedAt /\ startedAt <= heartbeat_UpdatedAt h;
}.

Hypothesis service_known : service = bs "worker" \/ service = bs "discovery".
Hypothesis instance_valid : TrimSpace instanceID <> [] /\ Z.of_nat (length instanceID) <= 128.
Hypothesis started_set : 0 < startedAt.

(** The store takes every heartbeat of the process. *)
Lemma ours_valid h : ours h -> validHeartbeat h = true.
Proof.
  intros [[Hs Hi] Hst Hm [Ht Hu]]. unfold validHeartbeat. rewrite Hs, Hi, Ht. unfold valid_state in Hst. rewrite Hst.
  assert (bytes_eqb service (bs "discovery") || bytes_eqb service (bs "worker") = true) as -> by (by destruct service_known as [-> | ->]).
  destruct instance_valid as [Hne Hlen]. destruct (bytes_eqb_spec (TrimSpace instanceID) []) as [|_]; [done|]. cbn [andb negb].
  unfold time_IsZero, time_Before. lia.
Qed.

(** The failures that are reported: the first of each run of failures *)
Fixpoint onsets (failing : bool) (written : list (ServiceHeartbeat * option error)) : list error :=
  match written with
  | [] => []
  | (_, Some e) :: written => if failing then onsets true written else e :: onsets true written
  | (_, None) :: written => onsets false written
  end.
Definition fails_at_end (written : list (ServiceHeartbeat * option error)) : bool :=
  match last written with Some (_, Some _) => true | _ => false end.

Lemma onsets_snoc failing written h err :
  onsets failing (written ++ [(h, err)])
  = onsets failing written
    ++ match err with Some e => if (if decide (written = []) then failing else fails_at_end written) then [] else [e] | None => [] end.
Proof.
  revert failing. induction written as [|[h' err'] written IH]; intros failing; cbn [app onsets].
  - case_decide; [|done]. destruct err as [e|]; [|done]. by destruct failing.
  - assert (Hend : fails_at_end ((h', err') :: written)
      = if decide (written = []) then match err' with Some _ => true | None => false end else fails_at_end written).
    { unfold fails_at_end. case_decide as He; [subst; cbn; by destruct err'|]. destruct written; [done|]. done. }
    rewrite (decide_False (P := _ :: _ = [])) by done. rewrite Hend. destruct err' as [e'|]; [destruct failing|]; rewrite IH; done.
Qed.
(** *** The row of the process *)

Definition row (db : Database) : option ServiceHeartbeat := heartbeats (crawl db) !! (service, instanceID).

Definition last_success (written : list (ServiceHeartbeat * option error)) : option ServiceHeartbeat :=
  fst <$> last (filter (fun w => snd w = None) written).

Lemma last_success_snoc written h err :
  last_success (written ++ [(h, err)]) = match err with None => Some h | Some _ => last_success written end.
Proof.
  unfold last_success. rewrite filter_app, filter_cons. cbn [snd]. destruct err as [e|].
  - rewrite decide_False by done. by rewrite filter_nil, app_nil_r.
  - rewrite decide_True by done. by rewrite filter_nil, last_snoc.
Qed.

Lemma stored_time_mono a b : a <= b -> pg_time a <= pg_time b.
Proof. intros Hab. unfold pg_time. apply Z.mul_le_mono_nonneg_r; [done|]. by apply Z.div_le_mono. Qed.

(** A heartbeat of the process that the database accepts is stored over an older
    one of it, and over the row of an earlier process. *)
Lemma upsert_ours db h fault :
  ours h ->
  (forall stored, row db = Some stored -> heartbeat_StartedAt stored < pg_time startedAt
     \/ exists h0, stored = stored_heartbeat h0 /\ ours h0 /\ heartbeat_UpdatedAt h0 <= heartbeat_UpdatedAt h) ->
  row (fst (upsert db h fault)) = match snd (upsert db h fault) with Some _ => row db | None => Some (stored_heartbeat h) end.
Proof.
  intros Hh Hrow. unfold upsert. destruct fault as [e|]; [done|]. unfold UpsertServiceHeartbeat. rewrite ours_valid by done. cbn [negb].
  destruct (heartbeat_checks h); [|done]. cbn [negb].
  destruct Hh as [[Hs Hi] _ _ [Ht _]]. rewrite Hs, Hi. unfold row in *.
  destruct (heartbeats (crawl db) !! (service, instanceID)) as [stored|] eqn:Hst.
  - assert (newer_heartbeat stored (stored_heartbeat h) = true) as ->; [|by cbn; rewrite lookup_insert_eq].
    unfold newer_heartbeat. cbn [stored_heartbeat heartbeat_StartedAt heartbeat_UpdatedAt]. rewrite Ht.
    destruct (Hrow stored eq_refl) as [Hold|(h0 & -> & Hours & Hle)]; [by rewrite (proj2 (Z.ltb_lt _ _) Hold)|].
    cbn [stored_heartbeat heartbeat_StartedAt heartbeat_UpdatedAt]. rewrite (proj1 (our_times _ Hours)), Z.eqb_refl.
    rewrite (proj2 (Z.leb_le _ _) (stored_time_mono _ _ Hle)). apply orb_true_r.
  - cbn. by rewrite lookup_insert_eq.
Qed.
(** *** The invariant *)

(** The last heartbeat: the state [stop] was given, and nothing in progress *)
Definition final (state : bytes) (h : ServiceHeartbeat) : Prop :=
  heartbeat_State h = state /\ heartbeat_CurrentOrigin h = [] /\ heartbeat_Message h = [].

Definition stop_state (state : bytes) : Prop := state = bs "stopping" \/ state = bs "failed".

Definition stopping_ok (sys : system) : Prop :=
  match sys_stopper sys with
  | StopNone => True
  | StopCanceled state => stop_state state
  | StopObserved state =>
      stop_state state /\ sys_ticker sys = TickDone /\ hb_state (sys_monitor sys) = state
      /\ hb_current (sys_monitor sys) = [] /\ hb_message (sys_monitor sys) = []
  | StopWriting state h =>
      stop_state state /\ sys_ticker sys = TickDone /\ final state h /\ ours h /\ heartbeat_UpdatedAt h <= sys_clock sys
  | Stopped state err => sys_ticker sys = TickDone /\ exists before h, sys_written sys = before ++ [(h, err)] /\ final state h
  end.

(** The time of the write in progress, or now *)
Definition upto (sys : system) : Z :=
  match sys_ticker sys, sys_stopper sys with
  | TickWriting h, _ => heartbeat_UpdatedAt h
  | _, StopWriting _ h => heartbeat_UpdatedAt h
  | _, _ => sys_clock sys
  end.

Record good (sys : system) : Prop := {
  good_monitor : valid_state (hb_state (sys_monitor sys)) = true /\ Z.of_nat (length (hb_message (sys_monitor sys))) <= 256;
  good_clock : startedAt <= sys_clock sys;
  good_written : Forall (fun w => ours (fst w)) (sys_written sys);
  good_row : exists h, last_success (sys_written sys) = Some h /\ row (sys_db sys) = Some (stored_heartbeat h) /\ ours h
    /\ heartbeat_UpdatedAt h <= upto sys;
  good_ticker : match sys_ticker sys with TickWriting h => ours h /\ heartbeat_UpdatedAt h <= sys_clock sys | _ => True end;
  good_stopper : stopping_ok sys;
  good_reports : sys_written sys <> [] /\ sys_reported sys = onsets false (sys_written sys)
    /\ hb_failureActive (sys_monitor sys) = fails_at_end (sys_written sys);
}.

Lemma snapshot_ours sys now : good sys -> sys_clock sys <= now -> ours (snapshot (sys_monitor sys) [] now).
Proof. intros [[Hv Hm] Hc _ _ _ _ _] Hnow. split; cbn; try done. split; [done|lia]. Qed.

Lemma fails_at_end_snoc written h err : fails_at_end (written ++ [(h, err)]) = match err with Some _ => true | None => false end.
Proof. unfold fails_at_end. rewrite last_snoc. by destruct err. Qed.

(** A write in progress returns: it failed on its way, or the row is the
    heartbeat. *)
Lemma wrote_shape sys h fault t s : good sys -> ours h -> upto sys = heartbeat_UpdatedAt h ->
  exists db m reports err, wrote sys h fault t s = mkSystem m t (s err) (sys_clock sys) db (sys_written sys ++ [(h, err)]) (sys_reported sys ++ reports)
    /\ row db = match err with Some _ => row (sys_db sys) | None => Some (stored_heartbeat h) end
    /\ (m, reports) = recordWriteResult (sys_monitor sys) err.
Proof.
  intros [_ _ _ (h0 & _ & Hr & Ho & Hle) _ _ _] Hh Hup. unfold wrote.
  pose proof (upsert_ours (sys_db sys) h fault Hh) as Hrow. ospecialize (Hrow _).
  { intros stored Hstored. right. exists h0. rewrite Hr in Hstored. injection Hstored as <-. split_and!; [done..|lia]. }
  destruct (upsert (sys_db sys) h fault) as [db err]. cbn [fst snd] in *. cbn [recordWriteResult]. by eexists _, _, _, _.
Qed.

Lemma wrote_good sys h fault t s :
  good sys -> ours h -> upto sys = heartbeat_UpdatedAt h -> heartbeat_UpdatedAt h <= sys_clock sys ->
  (t = TickWaiting \/ t = TickDone) -> (forall err state h', s err <> StopWriting state h') ->
  stopping_ok (wrote sys h fault t s) -> good (wrote sys h fault t s).
Proof.
  intros Hg Hh Hup Hnow Hti Hst. destruct (wrote_shape sys h fault t s Hg Hh Hup) as (db & m & reports & err & -> & Hrow & Hrec). intros Hstop.
  destruct Hg as [Hm Hc Hw (h0 & Hl & Hr & Ho & Hle) Ht Hs (Hne & Hrep & Hact)]. unfold recordWriteResult in Hrec. injection Hrec as -> ->.
  split; cbn [sys_monitor sys_clock sys_written sys_db sys_ticker sys_stopper sys_reported hb_state hb_message hb_failureActive]; try done.
  - apply Forall_app. by split; [|constructor].
  - rewrite last_success_snoc, Hrow. unfold upto. cbn [sys_ticker sys_stopper sys_clock].
    assert (Hbound : match t, s err with TickWriting h, _ => heartbeat_UpdatedAt h | _, StopWriting _ h => heartbeat_UpdatedAt h
      | _, _ => sys_clock sys end = sys_clock sys).
    { destruct Hti as [-> | ->]; destruct (s err) eqn:E; try done; by destruct (Hst err state h1). }
    rewrite Hbound. destruct err; [exists h0|exists h]; split_and!; try done; lia.
  - by destruct Hti as [-> | ->].
  - split_and!; [by destruct (sys_written sys)| |by rewrite fails_at_end_snoc].
    rewrite onsets_snoc, decide_False, Hrep, Hact by done. done.
Qed.

(** Only a goroutine that has not ended writes on a tick. *)
Lemma ticking_not_stopping sys : good sys -> sys_ticker sys <> TickDone ->
  sys_stopper sys = StopNone \/ exists state, sys_stopper sys = StopCanceled state /\ stop_state state.
Proof.
  intros [_ _ _ _ _ Hs _] Ht. unfold stopping_ok in Hs. destruct (sys_stopper sys); [by left|right; by eexists|..]; exfalso; apply Ht; apply Hs.
Qed.

Lemma step_good sys sys' : good sys -> step sys sys' -> good sys'.
Proof.
  intros Hg Hstep. pose proof Hg as [[Hv Hm] Hc Hw Hr Ht Hs Hrep].
  destruct Hstep as [state o message Hno Hvs|now Htw Hnow|h fault Htw|Htw Hst|state Hno Hss|state Hcan Htd|now state Hob Hnow|state h fault Hwr|db Hdb].
  - split; try done. cbn. split; [done|]. destruct (truncate_spec message 256 ltac:(done)) as (_ & _ & Hl & _). apply Hl.
    unfold stopping_ok. cbn. by rewrite Hno.
  - pose proof (ticking_not_stopping sys Hg ltac:(by rewrite Htw)) as Hcase. destruct Hr as (h0 & Hl0 & Hr0 & Ho0 & Hle0).
    split; cbn; try done; [lia| |split; [by apply snapshot_ours|done]|].
    + exists h0. split_and!; try done. unfold upto in Hle0. rewrite Htw in Hle0. cbn.
      destruct Hcase as [Hcase|(st & Hcase & _)]; rewrite Hcase in Hle0; lia.
    + unfold stopping_ok. cbn. destruct Hcase as [->|(st & -> & Hss)]; done.
  - rewrite Htw in Ht. destruct Ht as [Hh Hhc]. pose proof (ticking_not_stopping sys Hg ltac:(by rewrite Htw)) as Hcase.
    assert (Hup : upto sys = heartbeat_UpdatedAt h) by (unfold upto; by rewrite Htw).
    apply wrote_good; try done; [by left|intros err st h'; destruct Hcase as [->|(? & -> & _)]; done|].
    destruct (wrote_shape sys h fault TickWaiting (fun _ => sys_stopper sys) Hg Hh Hup) as (db & m & reports & err & -> & _).
    unfold stopping_ok. cbn. destruct Hcase as [->|(st & -> & Hss)]; done.
  - destruct (ticking_not_stopping sys Hg ltac:(by rewrite Htw)) as [Hcase|(st & Hcase & Hss)]; [done|].
    split; cbn; try done; [|unfold stopping_ok; cbn; by rewrite Hcase]. destruct Hr as (h0 & Hrest). exists h0. unfold upto in *. cbn.
    rewrite Htw, Hcase in *. done.
  - split; cbn; try done. destruct Hr as (h0 & Hrest). exists h0. unfold upto in *. cbn. rewrite Hno in Hrest. destruct (sys_ticker sys); done.
  - unfold stopping_ok in Hs. rewrite Hcan in Hs. split; try done.
    + cbn. by destruct Hs as [-> | ->].
    + destruct Hr as (h0 & Hrest). exists h0. unfold upto in *. cbn. by rewrite Hcan, Htd in *.
  - unfold stopping_ok in Hs. rewrite Hob in Hs. destruct Hs as (Hss & Htd & Hst & Hcur & Hmsg).
    split; try done; [cbn; lia|..].
    + destruct Hr as (h0 & Hl0 & Hr0 & Ho0 & Hle0). exists h0. unfold upto in *. cbn. rewrite Hob, Htd in *. cbn. split_and!; try done. lia.
    + cbn. by rewrite Htd.
    + unfold stopping_ok. cbn. split_and!; try done. by apply snapshot_ours.
  - unfold stopping_ok in Hs. rewrite Hwr in Hs. destruct Hs as (Hss & Htd & Hf & Hh & Hhc).
    assert (Hup : upto sys = heartbeat_UpdatedAt h) by (unfold upto; by rewrite Htd, Hwr).
    apply wrote_good; try done; [by right|].
    destruct (wrote_shape sys h fault (sys_ticker sys) (Stopped state) Hg Hh Hup) as (db & m & reports & err & -> & _).
    unfold stopping_ok. cbn. split; [done|]. by eexists _, _.
  - split; try done. destruct Hr as (h0 & Hl0 & Hr0 & Ho0 & Hle0). exists h0. split_and!; try done. cbn. unfold row in *. by rewrite Hdb.
Qed.
Lemma start_good db now fault sys err :
  startedAt <= now -> (forall stored, row db = Some stored -> heartbeat_StartedAt stored < pg_time startedAt) ->
  start db now fault = (sys, err) -> err = None -> good sys.
Proof.
  intros Hnow Hold. unfold start, wrote. cbn [sys_db sys_monitor sys_written sys_reported sys_clock].
  set (h := snapshot new_monitor (bs "starting") now). assert (Hh : ours h) by (split; by cbn).
  pose proof (upsert_ours db h fault Hh) as Hrow. ospecialize (Hrow _); [intros stored Hst; left; by apply Hold|].
  destruct (upsert db h fault) as [db' err']. cbn [fst snd] in *. cbn. intros [= <- <-].
  destruct err'; [done|]. intros _. split; cbn; try done; [by constructor|]. exists h. split_and!; try done.
Qed.

(** C25: Whatever the interleaving of the ticker, the service and the end of the
    command, and whichever writes fail, a service that started its heartbeat
    writes only heartbeats that pass the store's validation; its row in the database is the
    last one whose write succeeded; a failure is reported once, when it
    begins. When [stop] has returned, its heartbeat was the last of the process:
    it has the state [stop] was given and nothing in progress, it is the row
    when its write succeeded, and no step writes another one. *)
Theorem heartbeat_correct db now fault sys0 sys :
  startedAt <= now -> (forall stored, row db = Some stored -> heartbeat_StartedAt stored < pg_time startedAt) ->
  start db now fault = (sys0, None) -> rtc step sys0 sys ->
  Forall (fun w => validHeartbeat (fst w) = true) (sys_written sys)
  /\ row (sys_db sys) = stored_heartbeat <$> last_success (sys_written sys)
  /\ sys_reported sys = onsets false (sys_written sys)
  /\ (forall state err, sys_stopper sys = Stopped state err ->
      exists before h, sys_written sys = before ++ [(h, err)] /\ final state h
        /\ (err = None -> row (sys_db sys) = Some (stored_heartbeat h))
        /\ forall sys', step sys sys' -> sys_written sys' = sys_written sys).
Proof.
  intros Hnow Hold Hstart Hsteps. pose proof (start_good _ _ _ _ _ Hnow Hold Hstart) as Hg0.
  assert (Hg : good sys).
  { specialize (Hg0 eq_refl). clear Hstart. induction Hsteps as [|a b c Hab _ IH]; [done|]. apply IH. by eapply step_good. }
  destruct Hg as [_ _ Hw (h0 & Hl & Hr & _ & _) _ Hs (_ & Hrep & _)]. split_and!; [|by rewrite Hl, Hr|done|].
  - eapply Forall_impl; [exact Hw|]. intros w Hours. by apply ours_valid.
  - intros state err Hst. unfold stopping_ok in Hs. rewrite Hst in Hs. destruct Hs as (Htd & before & h & Hwr & Hf). exists before, h.
    split_and!; try done.
    + intros ->. rewrite Hwr, last_success_snoc in Hl. by injection Hl as ->.
    + intros sys' Hstep. destruct Hstep; try done; try congruence.
Qed.
End Heartbeat.

(** * The commands that run under a heartbeat *)

(** [errors.Join] of two errors *)
Definition errors_Join (a b : option error) : option error :=
  match a, b with None, e => e | e, None => e | Some a, Some b => Some (join a b) end.

(** [errors.Is(err, contextError)] *)
Definition is_context_error (err contextError : error) : bool := forallb (errors_Is err) contextError.

Definition operationalHistoryRetention : Z := 30 * 24 * Hour.

Section Commands.
Context `{SHA256} `{Ed25519} `{KeyFiles} `{NetURL} `{Unicode} `{Durations} `{DatabaseURLs} {W : Type}.
Variable ctxErr : W -> option error.
Variable env : service_environment W.
Variable files : bytes -> option stream.
Variable getenv : bytes -> bytes.
Variable random : option (call W nat (res error bytes)).
Variables (rand_Reader : call W nat (res error bytes)) (time_Now : call W unit Z).
(** [startServiceHeartbeatWithReporter] and [stop] *)
Variable start_heartbeat : call W (bytes * bytes) (option error).
Variable stop_heartbeat : call W bytes (option error).

(** The heartbeat around a command: the deferred [stop] sees its error. *)
Definition supervised (service instanceID : bytes) (body : W -> W * option error) (w : W) : W * option error :=
  match start_heartbeat w (service, instanceID) with
  | (w, Some e) => (w, Some e)
  | (w, None) =>
      let '(w, operationErr) := body w in
      let state := match operationErr, ctxErr w with Some _, None => bs "failed" | _, _ => bs "stopping" end in
      let '(w, stopErr) := stop_heartbeat w state in (w, errors_Join operationErr stopErr)
  end.

(** The end of [Run]: the end of the context is not an error. *)
Definition run_end (err : option error) (w : W) : option error :=
  match err with
  | None => None
  | Some e => match ctxErr w with Some contextError => if is_context_error e contextError then None else Some (wrap e) | None => Some (wrap e) end
  end.

(** [runtimeOperations.worker]. [new_worker] constructs the queue, the checker,
    the verifier and the worker, and gives its [Run]. *)
Definition runtime_worker (new_worker : workerSettings -> Z -> option (Signer W) -> HTTPConfig -> res error (W -> W * option error)) (w : W)
    : W * option error :=
  match loadHTTPConfig getenv with
  | Err e => (w, Some e)
  | Ok httpConfig =>
      match loadWorkerSettings getenv random w with
      | (w, Err e) => (w, Some e)
      | (w, Ok settings) =>
          match loadWorkerRequestDelay getenv with
          | Err e => (w, Some e)
          | Ok requestDelay =>
              match loadWebBotAuthSigner files rand_Reader time_Now (Some getenv) with
              | Err e => (w, Some e)
              | Ok signer =>
                  let body w :=
                    match new_worker settings requestDelay signer httpConfig with
                    | Err e => (w, Some e)
                    | Ok run => let '(w, err) := run w in (w, run_end err w)
                    end in
                  withDatabase env files getenv Some (fun _ w =>
                    match ctxErr w with
                    | Some _ => body w
                    | None =>
                        match newDiscoveryStoreWithConfig (mkAutomatic false 0 0 []) with
                        | Some e => (w, Some (wrap e))
                        | None =>
                            match loadServiceInstanceID getenv random w with
                            | (w, Err e) => (w, Some e)
                            | (w, Ok instanceID) => supervised (bs "worker") instanceID body w
                            end
                        end
                    end) w
              end
          end
      end
  end.

(** A discovery runner, and [executeDiscovery] for a logger that is not nil *)
Record discoveryRunner : Type := mkDiscoveryRunner { runner_Run : W -> W * option error; runner_RunOnce : W -> W * option error }.

Definition executeDiscovery (once : bool) (runner : option discoveryRunner) (w : W) : W * option error :=
  match runner with
  | None => (w, Some (errors_New errDiscoveryRunnerUnavailable))
  | Some runner =>
      if once then let '(w, err) := runner_RunOnce runner w in (w, wrap <$> err)
      else let '(w, err) := runner_Run runner w in (w, run_end err w)
  end.

(** [newDiscoveryRuntime]: the store, the policy that is reconciled, the
    constructors of the checker, the crawler and the runner, and what is
    scheduled before the runner is handed out *)
Definition newDiscoveryRuntime (automatic : AutomaticCrawlConfig) (reconcile : W -> W * option error) (construct : res error discoveryRunner)
    (ensureSeeded schedulePending : W -> W * option error) (w : W) : W * res error discoveryRunner :=
  match newDiscoveryStoreWithConfig automatic with
  | Some e => (w, Err (wrap e))
  | None =>
      match reconcile w with
      | (w, Some e) => (w, Err (wrap e))
      | (w, None) =>
          match construct with
          | Err e => (w, Err e)
          | Ok runner =>
              match ensureSeeded w with
              | (w, Some e) => (w, Err (wrap e))
              | (w, None) => match schedulePending w with (w, Some e) => (w, Err (wrap e)) | (w, None) => (w, Ok runner) end
              end
          end
      end
  end.

(** [runtimeOperations.discover]; [purge_history] and [purge_telemetry] are
    the statements of the store. *)
Definition runtime_discover (purge_history purge_telemetry : call W Z (option error))
    (new_runner : crawlRuntimeSettings -> option (Signer W) -> bytes -> W -> W * res error discoveryRunner) (once : bool) (w : W)
    : W * option error :=
  match loadCrawlRuntimeSettings getenv with
  | Err e => (w, Some e)
  | Ok settings =>
      match loadWebBotAuthSigner files rand_Reader time_Now (Some getenv) with
      | Err e => (w, Some e)
      | Ok signer =>
          match loadServiceInstanceID getenv random w with
          | (w, Err e) => (w, Some e)
          | (w, Ok leaseOwner) =>
              let body w :=
                match new_runner settings signer leaseOwner w with
                | (w, Err e) => (w, Some e)
                | (w, Ok runner) => executeDiscovery once (Some runner) w
                end in
              withDatabase env files getenv Some (fun _ w =>
                match ctxErr w with
                | Some _ => body w
                | None =>
                    match newDiscoveryStoreWithConfig (mkAutomatic false 0 0 []) with
                    | Some e => (w, Some (wrap e))
                    | None =>
                        match purge_history w operationalHistoryRetention with
                        | (w, Some e) => (w, Some (wrap e))
                        | (w, None) =>
                            match purge_telemetry w (settings_telemetryRetention settings) with
                            | (w, Some e) => (w, Some (wrap e))
                            | (w, None) => supervised (bs "discovery") leaseOwner body w
                            end
                        end
                    end
                end) w
          end
      end
  end.
End Commands.

(** ** Supervision *)

(** What a command does, by how far it comes: refused before anything is
    opened; refused before the heartbeat; run without one, when the context had
    already ended; not built; or run. *)
Inductive supervised_life (ended : Prop) (config : pool_Config) (service : bytes) : list service_event -> option error -> Prop :=
| life_nothing e : supervised_life ended config service [] (Some e)
| life_unstarted e : supervised_life ended config service [EvOpen config; EvDatabaseClose] (Some e)
| life_ended err : ended -> supervised_life ended config service [EvOpen config; EvRun; EvDatabaseClose] err
| life_not_built instanceID state e : stop_state state ->
    supervised_life ended config service [EvOpen config; EvHeartbeat service instanceID; EvHeartbeatStop state; EvDatabaseClose] (Some e)
| life_run instanceID state err : stop_state state -> (err = None -> state = bs "stopping") ->
    supervised_life ended config service [EvOpen config; EvHeartbeat service instanceID; EvRun; EvHeartbeatStop state; EvDatabaseClose] err.

(** A body runs once, or fails before. *)
Definition runs_once {W} (body : W * list service_event -> (W * list service_event) * option error) : Prop :=
  forall w log w' log' err, body (w, log) = ((w', log'), err) -> log' = log ++ [EvRun] \/ (log' = log /\ err <> None).

Definition traced_start {W} (start : call W (bytes * bytes) (option error)) : call (W * list service_event) (bytes * bytes) (option error) :=
  fun '(w, log) a => match start w a with (w', None) => ((w', log ++ [EvHeartbeat a.1 a.2]), None) | (w', Some e) => ((w', log), Some e) end.
Definition traced_stop {W} (stop : call W bytes (option error)) : call (W * list service_event) bytes (option error) :=
  fun '(w, log) state => let '(w', e) := stop w state in ((w', log ++ [EvHeartbeatStop state]), e).

Lemma supervised_log {W} (ctxErr : W * list service_event -> option error) start stop service instanceID body w log w' log' err :
  runs_once body ->
  supervised ctxErr (traced_start start) (traced_stop stop) service instanceID body (w, log) = ((w', log'), err) ->
  (log' = log /\ err <> None)
  \/ exists state, stop_state state
      /\ ((log' = log ++ [EvHeartbeat service instanceID; EvHeartbeatStop state] /\ err <> None)
          \/ (log' = log ++ [EvHeartbeat service instanceID; EvRun; EvHeartbeatStop state] /\ (err = None -> state = bs "stopping"))).
Proof.
  intros Hbody. unfold supervised. cbn [traced_start]. destruct (start w (service, instanceID)) as [w1 [e|]]; [intros [= _ <- <-]; by left|].
  cbn [fst snd]. destruct (body (w1, log ++ [EvHeartbeat service instanceID])) as [[w2 log2] operationErr] eqn:Hb. apply Hbody in Hb.
  set (state := match operationErr, ctxErr (w2, log2) with Some _, None => bs "failed" | _, _ => bs "stopping" end).
  cbn [traced_stop]. destruct (stop w2 state) as [w3 stopErr]. intros [= _ <- <-]. right. exists state.
  split; [unfold state, stop_state; repeat case_match; auto|].
  destruct Hb as [-> | [-> Hne]]; [right|left]; rewrite <- !app_assoc; (split; [done|]).
  - unfold state. destruct operationErr as [e|]; [|done]. by destruct stopErr.
  - destruct operationErr as [e|]; [|done]. by destruct stopErr.
Qed.

Section Supervision.
Context `{SHA256} `{Ed25519} `{KeyFiles} `{NetURL} `{Unicode} `{Durations} `{DatabaseURLs} {W : Type}.
Variable ctxErr : W * list service_event -> option error.
Variable env : service_environment W.
Variable files : bytes -> option stream.
Variable getenv : bytes -> bytes.
Variable random : option (call W nat (res error bytes)).
Variables (rand_Reader : call (W * list service_event) nat (res error bytes)) (time_Now : call (W * list service_event) unit Z).
Variables (start : call W (bytes * bytes) (option error)) (stop : call W bytes (option error)).

Definition unlogged_random : option (call (W * list service_event) nat (res error bytes)) := unlogged <$> random.

Lemma instance_log w log w' log' r :
  loadServiceInstanceID getenv unlogged_random (w, log) = ((w', log'), r) -> log' = log.
Proof.
  unfold loadServiceInstanceID, generateServiceInstanceID, unlogged_random. repeat case_match; try by intros [= _ <- _].
  all: destruct random as [f|]; try done; cbn in *; simplify_eq; unfold unlogged in *; repeat case_match; simplify_eq; naive_solver.
Qed.
Lemma settings_log w log w' log' r : loadWorkerSettings getenv unlogged_random (w, log) = ((w', log'), r) -> log' = log.
Proof.
  unfold loadWorkerSettings, runtimeWorkerID, unlogged_random. repeat case_match; try by intros [= _ <- _].
  all: destruct random as [f|]; try done; cbn in *; simplify_eq; unfold unlogged in *; repeat case_match; simplify_eq; naive_solver.
Qed.

(** What happens between the opening and the closing of the database *)
Lemma within_traced (action : W * list service_event -> (W * list service_event) * option error) w w' log err :
  withDatabase (traced env) files getenv Some (fun _ w => action w) (w, []) = ((w', log), err) ->
  (log = [] /\ err <> None)
  \/ exists config w1 w2 log2, action (w1, [EvOpen config]) = ((w2, log2), err) /\ log = log2 ++ [EvDatabaseClose]
      /\ LoadConfig files (getenv (bs "JOSHBOT_DATABASE_URL")) (getenv (bs "JOSHBOT_DATABASE_PASSWORD_FILE")) = Ok config.
Proof.
  unfold withDatabase, openDatabase. destruct (LoadConfig _ _ _) as [config|e]; [|intros [= _ <- <-]; by left].
  cbn [traced newDatabase]. destruct (newDatabase env w config) as [w1 [e|]]; [intros [= _ <- <-]; by left|].
  destruct (action (w1, [] ++ [EvOpen config])) as [[w2 log2] err2] eqn:Ha. intros [= _ <- <-]. right. by exists config, w1, w2, log2.
Qed.

(** The command of a service between the two *)
Lemma supervised_command service config w1 w2 log2 err (body : W * list service_event -> (W * list service_event) * option error) instanceID :
  runs_once body ->
  supervised ctxErr (traced_start start) (traced_stop stop) service instanceID body (w1, [EvOpen config]) = ((w2, log2), err) ->
  supervised_life (exists w, ctxErr w <> None) config service (log2 ++ [EvDatabaseClose]) err.
Proof.
  intros Hb Hrun. destruct (supervised_log _ _ _ _ _ _ _ _ _ _ _ Hb Hrun) as [[-> Hne]|(state & Hs & [[-> Hne]|[-> Hst]])].
  - destruct err; [constructor|done].
  - destruct err; [by constructor|done].
  - by constructor.
Qed.

Lemma unsupervised_command service config w1 w2 log2 err contextErr (body : W * list service_event -> (W * list service_event) * option error) :
  ctxErr (w1, [EvOpen config]) = Some contextErr -> runs_once body -> body (w1, [EvOpen config]) = ((w2, log2), err) ->
  supervised_life (exists w, ctxErr w <> None) config service (log2 ++ [EvDatabaseClose]) err.
Proof.
  intros Hc Hb Hrun. destruct (Hb _ _ _ _ _ Hrun) as [-> | [-> Hne]]; [constructor|destruct err; [constructor|done]].
  exists (w1, [EvOpen config]). by rewrite Hc.
Qed.

(** The constructors of the services; [Run] is the step that is recorded. *)
Variable new_worker : workerSettings -> Z -> option (Signer (W * list service_event)) -> HTTPConfig
  -> res error (W * list service_event -> (W * list service_event) * option error).
Variable new_runner : crawlRuntimeSettings -> option (Signer (W * list service_event)) -> bytes -> W * list service_event
  -> (W * list service_event) * res error (discoveryRunner (W := W * list service_event)).
Variables (purge_history purge_telemetry : call W Z (option error)).

Definition is_run (run : W * list service_event -> (W * list service_event) * option error) : Prop :=
  forall w log w' log' e, run (w, log) = ((w', log'), e) -> log' = log ++ [EvRun].
Hypothesis worker_runs : forall settings delay signer http run, new_worker settings delay signer http = Ok run -> is_run run.
Hypothesis runner_runs : forall settings signer owner w log w' log' r, new_runner settings signer owner (w, log) = ((w', log'), r) ->
  log' = log /\ match r with Ok runner => is_run (runner_Run runner) /\ is_run (runner_RunOnce runner) | Err _ => True end.

Lemma worker_body_once settings delay signer http : runs_once (fun w =>
  match new_worker settings delay signer http with Err e => (w, Some e) | Ok run => let '(w, err) := run w in (w, run_end ctxErr err w) end).
Proof.
  intros w log w' log' err. destruct (new_worker settings delay signer http) as [run|e] eqn:Hn; [|intros [= _ <- <-]; by right].
  destruct (run (w, log)) as [[w1 log1] e1] eqn:Hr. intros [= _ <- _]. left. by eapply worker_runs.
Qed.

Lemma discover_body_once settings signer owner once : runs_once (fun w =>
  match new_runner settings signer owner w with (w, Err e) => (w, Some e) | (w, Ok runner) => executeDiscovery ctxErr once (Some runner) w end).
Proof.
  intros w log w' log' err. destruct (new_runner settings signer owner (w, log)) as [[w1 log1] [runner|e]] eqn:Hn.
  - apply runner_runs in Hn as [-> [Hrun Honce]]. unfold executeDiscovery.
    destruct once; [destruct (runner_RunOnce runner (w1, log)) as [[w2 log2] e2] eqn:Hr|destruct (runner_Run runner (w1, log)) as [[w2 log2] e2] eqn:Hr];
      intros [= _ <- _]; left; [by eapply Honce|by eapply Hrun].
  - apply runner_runs in Hn as [-> _]. intros [= _ <- <-]. by right.
Qed.

(** A service runs under its heartbeat. Whatever the settings, the database,
    the context and the service do, [joshbot worker] and [joshbot discover]
    run their service at most once, on an open database, and, unless the
    context had already ended, only after a first heartbeat was written. A
    heartbeat that was started is stopped, with the state stopping or failed
    and before the connection is closed; a command that succeeds stopped it
    with stopping. *)
Theorem services_supervised once w w' log err :
  (runtime_worker ctxErr (traced env) files getenv unlogged_random rand_Reader time_Now (traced_start start) (traced_stop stop) new_worker (w, [])
     = ((w', log), err) ->
   exists config, supervised_life (exists w, ctxErr w <> None) config (bs "worker") log err)
  /\ (runtime_discover ctxErr (traced env) files getenv unlogged_random rand_Reader time_Now (traced_start start) (traced_stop stop)
        (unlogged purge_history) (unlogged purge_telemetry) new_runner once (w, []) = ((w', log), err) ->
      exists config, supervised_life (exists w, ctxErr w <> None) config (bs "discovery") log err).
Proof.
  assert (Hnone : forall service log err, log = [] /\ err <> None -> exists config, supervised_life (exists w, ctxErr w <> None) config service log err).
  { intros service log0 err0 [-> Hne]. exists (mkPoolConfig [] []). destruct err0; [constructor|done]. }
  split.
  - unfold runtime_worker. destruct (loadHTTPConfig getenv) as [http|e]; [|intros [= _ <- <-]; by apply Hnone].
    destruct (loadWorkerSettings getenv unlogged_random (w, [])) as [[w0 log0] [settings|e]] eqn:Hs; apply settings_log in Hs as ->;
      [|intros [= _ <- <-]; by apply Hnone].
    destruct (loadWorkerRequestDelay getenv) as [delay|e]; [|intros [= _ <- <-]; by apply Hnone].
    destruct (loadWebBotAuthSigner _ _ _ _) as [signer|e]; [|intros [= _ <- <-]; by apply Hnone].
    pose proof (worker_body_once settings delay signer http) as Hb. set (body := fun w => match new_worker _ _ _ _ with Err e => _ | Ok run => _ end) in *.
    intros [Hn|(config & w1 & w2 & log2 & Ha & -> & _)]%within_traced; [by apply Hnone|]. exists config.
    destruct (ctxErr (w1, [EvOpen config])) eqn:Hc; [by eapply unsupervised_command|].
    change (newDiscoveryStoreWithConfig (mkAutomatic false 0 0 [])) with (@None error) in Ha.
    destruct (loadServiceInstanceID getenv unlogged_random (w1, [EvOpen config])) as [[w3 log3] [instanceID|e]] eqn:Hi; apply instance_log in Hi as ->.
    + by eapply supervised_command.
    + injection Ha as _ <- <-. constructor.
  - unfold runtime_discover. destruct (loadCrawlRuntimeSettings getenv) as [settings|e]; [|intros [= _ <- <-]; by apply Hnone].
    destruct (loadWebBotAuthSigner _ _ _ _) as [signer|e]; [|intros [= _ <- <-]; by apply Hnone].
    destruct (loadServiceInstanceID getenv unlogged_random (w, [])) as [[w0 log0] [owner|e]] eqn:Hi; apply instance_log in Hi as ->;
      [|intros [= _ <- <-]; by apply Hnone].
    pose proof (discover_body_once settings signer owner once) as Hb.
    set (body := fun w => match new_runner _ _ _ w with (w, Err e) => _ | (w, Ok runner) => _ end) in *.
    intros [Hn|(config & w1 & w2 & log2 & Ha & -> & _)]%within_traced; [by apply Hnone|]. exists config.
    destruct (ctxErr (w1, [EvOpen config])) eqn:Hc; [by eapply unsupervised_command|].
    change (newDiscoveryStoreWithConfig (mkAutomatic false 0 0 [])) with (@None error) in Ha. unfold unlogged in Ha.
    destruct (purge_history w1 operationalHistoryRetention) as [w3 [e|]]; [injection Ha as _ <- <-; constructor|].
    destruct (purge_telemetry w3 (settings_telemetryRetention settings)) as [w4 [e|]]; [injection Ha as _ <- <-; constructor|].
    by eapply supervised_command.
Qed.
End Supervision.

(** ** One life of a heartbeat *)

Module Beats.

Definition service : bytes := bs "worker".
Definition instanceID : bytes := bs "service-0011223344556677".
Definition startedAt : Z := 1000 * Second.
Definition lost : error := errors_New (foreign 0).

Abbreviation snap := (snapshot service instanceID startedAt [] []).
Definition sys0 : system := fst (Heartbeat.start service instanceID startedAt [] [] empty_database startedAt None).
(** Running; two writes are lost; told to stop, and a tick still wins. *)
Definition sys1 : system := set_monitor sys0 (Observe (sys_monitor sys0) (bs "running") (bs "https://example.org") []).
Definition beat (sys : system) (now : Z) : system := set_goroutines sys (TickWriting (snap (sys_monitor sys) [] now)) (sys_stopper sys) now.
Definition landed (sys : system) (now : Z) (fault : option error) : system :=
  wrote sys (snap (sys_monitor sys) [] now) fault TickWaiting (fun _ => sys_stopper sys).
Definition sys2 : system := landed (beat sys1 (1005 * Second)) (1005 * Second) (Some lost).
Definition sys3 : system := landed (beat sys2 (1010 * Second)) (1010 * Second) (Some lost).
Definition sys4 : system := set_goroutines sys3 (sys_ticker sys3) (StopCanceled (bs "stopping")) (sys_clock sys3).
Definition sys5 : system := landed (beat sys4 (1015 * Second)) (1015 * Second) None.
Definition sys6 : system := set_goroutines sys5 TickDone (sys_stopper sys5) (sys_clock sys5).
Definition sys7 : system :=
  set_goroutines (set_monitor sys6 (Observe (sys_monitor sys6) (bs "stopping") [] [])) TickDone (StopObserved (bs "stopping")) (sys_clock sys6).
Definition last_beat : ServiceHeartbeat := snap (sys_monitor sys7) [] (1016 * Second).
Definition sys8 : system := set_goroutines sys7 TickDone (StopWriting (bs "stopping") last_beat) (1016 * Second).
Definition sys9 : system := wrote sys8 last_beat None TickDone (Stopped (bs "stopping")).

Lemma reached : rtc (step service instanceID startedAt [] []) sys0 sys9.
Proof.
  eapply rtc_l; [by apply (step_observe _ _ _ _ _ sys0 (bs "running") (bs "https://example.org") [])|]. fold sys1.
  eapply rtc_l; [by apply (step_tick _ _ _ _ _ sys1 (1005 * Second))|]. fold (beat sys1 (1005 * Second)).
  eapply rtc_l; [by apply (step_tick_written _ _ _ _ _ (beat sys1 (1005 * Second)) (snap (sys_monitor sys1) [] (1005 * Second)) (Some lost))|].
  change (wrote (beat sys1 (1005 * Second)) _ _ _ _) with sys2.
  eapply rtc_l; [by apply (step_tick _ _ _ _ _ sys2 (1010 * Second))|]. fold (beat sys2 (1010 * Second)).
  eapply rtc_l; [by apply (step_tick_written _ _ _ _ _ (beat sys2 (1010 * Second)) (snap (sys_monitor sys2) [] (1010 * Second)) (Some lost))|].
  change (wrote (beat sys2 (1010 * Second)) _ _ _ _) with sys3.
  eapply rtc_l; [apply (step_stop _ _ _ _ _ sys3 (bs "stopping")); [done|by left]|]. fold sys4.
  eapply rtc_l; [by apply (step_tick _ _ _ _ _ sys4 (1015 * Second))|]. fold (beat sys4 (1015 * Second)).
  eapply rtc_l; [by apply (step_tick_written _ _ _ _ _ (beat sys4 (1015 * Second)) (snap (sys_monitor sys4) [] (1015 * Second)) None)|].
  change (wrote (beat sys4 (1015 * Second)) _ _ _ _) with sys5.
  eapply rtc_l; [by apply (step_exit _ _ _ _ _ sys5)|]. fold sys6.
  eapply rtc_l; [by apply (step_joined _ _ _ _ _ sys6 (bs "stopping"))|]. change (set_goroutines (set_monitor sys6 _) _ _ _) with sys7.
  eapply rtc_l; [by apply (step_final _ _ _ _ _ sys7 (1016 * Second) (bs "stopping"))|]. change (set_goroutines sys7 _ _ _) with sys8.
  apply rtc_once. by apply (step_final_written _ _ _ _ _ sys8 (bs "stopping") last_beat None).
Qed.

Lemma heartbeat_correct_witness :
  sys_reported sys9 = [lost] /\ length (sys_written sys9) = 5%nat
  /\ sys_reported sys9 = onsets false (sys_written sys9)
  /\ exists before h, sys_written sys9 = before ++ [(h, None)] /\ final (bs "stopping") h
       /\ row service instanceID (sys_db sys9) = Some (stored_heartbeat h).
Proof.
  split; [vm_compute; reflexivity|]. split; [vm_compute; reflexivity|].
  assert (Hi : TrimSpace instanceID <> [] /\ Z.of_nat (length instanceID) <= 128) by (split; vm_compute; discriminate).
  assert (Hold : forall stored, row service instanceID empty_database = Some stored -> heartbeat_StartedAt stored < pg_time startedAt)
    by (intros stored He; vm_compute in He; discriminate He).
  assert (Hstart : Heartbeat.start service instanceID startedAt [] [] empty_database startedAt None = (sys0, None)) by (vm_compute; reflexivity).
  destruct (heartbeat_correct service instanceID startedAt [] [] (or_introl eq_refl) Hi ltac:(vm_compute; reflexivity)
    empty_database startedAt None sys0 sys9 (Z.le_refl _) Hold Hstart reached) as (_ & _ & Hr & Hs).
  split; [exact Hr|]. destruct (Hs (bs "stopping") None ltac:(vm_compute; reflexivity)) as (before & h & Hw & Hf & Hrow & _).
  exists before, h. split; [exact Hw|]. split; [exact Hf|]. exact (Hrow eq_refl).
Defined.
End Beats.
